(* ===== verification/_CoqProject ===== *)
-Q . S2P
Prelude.v
TimeBuf.v
Buffers.v
Activity.v
LVPT.v
CVU.v
Cpu.v
PipeData.v
BpTables.v
BpTableProps.v
BpDirection.v
BpDirectionProps.v
BranchPred.v
BranchPredInv.v
BranchPredProps.v
BranchPredHistory.v
Registers.v
Scoreboard.v
FuncUnit.v
Repack.v
Decode.v
ExecuteDummy.v
RepackPartial.v
Fetch1.v
Fetch1Inv.v
Fetch1Steps.v
Fetch1Source.v
Fetch1Line.v
Fetch1Stage.v
Fetch1History.v
Fetch2.v
Fetch2Spec.v
Fetch2Stage.v
RiscvDecoder.v
RiscvFetch.v
RiscvCsr.v
LsqAddr.v
LsqRequest.v
Lsq.v
LsqForward.v
LsqInv.v
LsqSteps.v
LsqBuffer.v
LsqEvents.v
LsqPush.v
LsqHistory.v
Runs.v
Execute.v
ExecuteFrame.v
ExecuteCommit.v
ExecuteIssue.v
ExecuteFlow.v
ExecuteStage.v
ExecuteHistory.v
ExecuteCvu.v
ExecuteProps.v
Pipeline.v
PipelineParts.v
PipelineInv.v
PipelineProps.v
PipelineVectors.v
PipelineOrder.v
CpuLife.v
Snoop.v
