(* ===== verification/Prelude.v ===== *)
(** * Verification of the MyMinor CPU (gem5 with load value prediction)

    The program is the in-order CPU model of src/src/cpu/myminor, gem5's Minor
    CPU extended with a load value prediction table (LVPT), a constant
    verification unit (CVU) and a pass-through stage (ExecuteDummy).

    ** The program

    Each cycle the pipeline evaluates its stages.  Fetch1 asks the instruction
    TLB and cache for lines of bytes and gives them to Fetch2, with the load
    value prediction of the LVPT.  Fetch2 feeds the bytes to the instruction
    decoder, asks the branch predictor and gives instructions to Decode.
    Decode splits macro-ops into micro-ops, ExecuteDummy passes them on, and
    Execute issues them to functional units when the scoreboard allows it,
    sends memory accesses through the load/store queue (LSQ), and commits in
    order.  Stages are joined by latches; a stage reserves room in the input
    buffer of the next one; stream and prediction numbers date lines and
    instructions, so that those of an abandoned path are dropped.  Around the
    pipeline the development also has the branch predictor (src/src/cpu/pred),
    the RISC-V decoder, pc and control and status registers
    (src/src/arch/riscv) and the register files of a thread (src/src/cpu).

    ** How the model is made

    Definitions follow the code function by function and keep its names, with
    a prefix where two classes share one ([f1_], [f2_], [fu_], [ar_], [ed_],
    [ras_], [btb_], [ind_], [bp_], [rd_], [rp_], [rf_]).
    Machine integers are [Z] with their wrap-around written out ([u16], [u32],
    [u64], [i32]).  Code that can fail an assertion, call [panic] or [fatal],
    leave a vector or follow a null pointer returns [res]; a class whose
    methods call each other uses the state monad [St].  Shared objects that
    are reached by pointer (requests of the LSQ, instructions in Execute) live
    in a store.  What is outside the CPU is an argument: the instruction set
    ([Isa], [Decoder], and [ThreadSem] for what instructions do to a thread
    context), the answers of TLB, cache and memory (events of a history),
    interrupts, random choices and the thread order drawn by shuffling.  Laws
    about them are hypotheses ([DecoderOk], [ThreadStatusOk], [env_ok], the
    [allowed] and [obeys] predicates) with witnesses that evaluate a small
    instruction set and small machines ([Toy], [ToyDec], [ToyFetch],
    [ToyExec], [ToyPipe], [ToyCpu], [ToySnoop], [BpToy]).  The stages are
    proved against the interfaces of what they call; [DecoderOk] is discharged
    by the RISC-V decoder ([RiscvFetch]), and the prediction unit is proved
    against [DirectionPredictorOk], which three predictors discharge.

    ** Files

    - [Prelude]: outcomes, the two monads and their weakest preconditions,
      machine integers, vectors, counting.
    - [TimeBuf] (timebuf.hh), [Buffers] (buffers.hh), [Activity] (activity.cc):
      time buffers, latches, self-stalling pipelines, queues, input buffers,
      the activity recorder.
    - [LVPT] (LVPT.cc), [CVU] (CVU.cc): the value predictor and its checker.
    - [Cpu] (cpu.hh): thread priorities.
    - [PipeData] (dyn_inst.cc, pipe_data.cc): instructions, branches, lines,
      bundles.
    - [BpTables] (ras.cc, btb.cc, simple_indirect.cc, sat_counter.hh) with
      [BpTableProps]; [BpDirection] (tournament.cc, 2bit_local.cc, bi_mode.cc)
      with [BpDirectionProps] (what the unit relies on); [BranchPred]
      (bpred_unit.cc) with [BranchPredInv] (invariant), [BranchPredProps]
      (undoing) and [BranchPredHistory] (all sequences of calls).
    - [Registers] (regfile.hh, simple_thread.hh, exec_context.hh).
    - [Scoreboard] (scoreboard.cc), [FuncUnit] (func_unit.cc).
    - [Repack], [Decode] (decode.cc), [ExecuteDummy] (executeDummy.cc): the two
      stages that turn bundles into bundles, on a common core.
    - [Fetch1] (fetch1.cc) with [Fetch1Inv] (invariant), [Fetch1Steps] (the
      requests in flight), [Fetch1Source] (the abstract source of lines and
      changes of stream), [Fetch1Line] (starting a fetch, giving out a line),
      [Fetch1Stage] (one cycle) and [Fetch1History] (all events).
    - [Fetch2] (fetch2.cc) with [Fetch2Spec] (one thread) and [Fetch2Stage]
      (the stage over time).
    - [RiscvDecoder] (arch/riscv/decoder.cc, pcstate.hh), [RiscvFetch] (Fetch2
      with that decoder) and [RiscvCsr] (arch/riscv/isa.cc).
    - [LsqAddr], [LsqRequest], [Lsq] (lsq.cc) with [LsqForward] (forwarding),
      [LsqInv] (invariant), [LsqSteps], [LsqBuffer], [LsqEvents], [LsqPush]
      (the methods keep it) and [LsqHistory] (all sequences of calls).
    - [Execute] (execute.cc, exec_context.hh) with [Runs] (a logic for code
      that ends), [ExecuteFrame] (what completing an instruction leaves alone),
      [ExecuteCommit] and [ExecuteIssue] (the two loops), [ExecuteFlow] (the
      path of the instructions), [ExecuteStage] (one cycle), [ExecuteHistory]
      (all events), [ExecuteCvu] (stores and the constant verification unit)
      and [ExecuteProps] (single operations).
    - [Pipeline] (pipeline.cc): all stages, latches and the activity recorder,
      one cycle of them, idling and draining, and everything that reaches
      them between cycles.  [PipelineParts] has what a cycle of each stage does
      to the buffers it shares, [PipelineInv] the invariant of the whole
      (reservations and activity), [PipelineProps] its consequences,
      [RepackPartial] the two repacking stages where an instruction may stop
      the code, [PipelineVectors] the lengths of the vectors a cycle leaves
      alone, and [PipelineOrder] the types of the state and the order of
      instructions through all stages.
    - [CpuLife] (cpu.cc, simple_thread.cc, base.cc): thread contexts and the
      life cycle of the CPU around the pipeline.
    - [Snoop] (lsq.cc, base.cc, arch/riscv/isa.cc): snoops, address monitors
      and reservations.

    ** What is shown

    - Buffers: a time buffer is a delay line; a latch delays by its delay;
      queues and input buffers are FIFO within their capacity; a self-stalling
      pipeline loses nothing; the activity count is exact.
    - Value prediction: the LVPT answers what the history of updates says
      (trained counters included); a hit in the CVU is the word in the byte
      memory, through a translation that may alias pages, as long as stores
      are buffered and start at a word (lemmas show what the others do).
    - Stages: Decode implements the expansion of macro-ops with consecutive
      numbers; ExecuteDummy passes the instructions on; Fetch1 implements an
      abstract source of lines (each line is the next one of its stream, the
      predictions are those of the table's history), keeps its reservations in
      Fetch2's buffers balanced and never sleeps with work to do; Fetch2
      implements an abstract machine that reads instructions off the lines.
    - Branch prediction: from its constructor on the unit never fails an
      assertion or leaves a table, whatever is predicted, committed and
      squashed, with sequence numbers that increase in each thread; undoing a
      wrong path with fewer calls than the return address stack has entries
      gives back the state that decides the next prediction; the branch target
      buffer answers what its updates say.
    - RISC-V: Fetch2 with the RISC-V decoder finds exactly the instructions in
      memory, compressed and line-crossing ones included; control and status
      registers keep legal values under all writes but those to HARTID.
    - Registers: an operand reads the newest value written to its register.
    - Execution resources: the scoreboard counts the instructions in flight
      per register; its other fields, and the answers to issue questions, are
      exact as long as the flag of a clear is the flag of its mark, and stay
      within bounds where it is not; functional units keep their issue latency.
    - LSQ: over every sequence of calls no assertion fails and its counters
      count, where no delayed fault is suppressed and no error answers a
      fragment while others wait to be sent (two lemmas show what happens
      then); requests leave in order; loads wait for the stores they depend on
      and forwarded data is what memory will hold, for accesses that are
      contiguous in physical memory; split accesses are covered
      by their fragments and assembled again; no wake-up is lost; a drained
      queue is empty.
    - Execute: the loops of every cycle end, for any program; instructions are
      issued and completed in the order they came; changes of stream have
      consecutive numbers, and the branches sent out are newer than what
      Fetch1 follows; branches are resolved as the prediction and the pc say;
      instructions of a stream that has been left are not committed.
    - Pipeline: the parts put together.  Over every history no input buffer
      holds more than its capacity (reservations cover what is in the latches
      and in flight), the state keeps its types (vectors of all stages
      included), the clock stops only when the
      forward latches are empty, a drain is not slept through, and a drained
      pipeline has the empty buffers of a new one; what Execute takes
      from its latch is, per thread, what Fetch2 has put out, expanded and
      numbered, and what it issues is an in-order selection of that.
    - CPU: over every history of activations, suspensions, cycles, drains and
      switching out (of a drained CPU) the invariants of the pipeline hold;
      the activation of a thread starts it; a snoop wakes up exactly the threads whose monitor it hits;
      a store conditional of RISC-V succeeds exactly under its reservation.
    - Errors: lemmas with a [Stop] outcome or a wrong result show where the
      code does not guard its inputs (small tables, narrow lines, a line
      behind a fault, a write to a counter, an access to two pages that are
      apart, a store to part of a predicted word).

    ** Bounds

    Loops over vectors and queues are structural.  The packing loops of Decode,
    ExecuteDummy and Fetch2 have fuel: each round packs an instruction or
    finishes an input, the theorems prove that the fuel given is enough, so
    [OutOfFuel] never shows.  The loops of Execute have fuel as well: the
    commit loop ([commitFuel]: the instructions in flight and those outside the
    load/store queue), the issue loop ([issueFuel]: the instructions that
    wait), the round over interrupts (the threads) and the round over pc
    events ([x_pcEventFuel], enough by the hypothesis that they settle);
    [execute_terminates] shows that it is enough.  The mutual calls of thread
    and CPU in [activateRec] and [suspendRec] are at most four deep.  The loops
    of the branch predictor run over the records in flight.  Histories
    are bounded only by the 64-bit sequence numbers, which the code lets wrap.

    ** What is not modelled

    Statistics other than the ones the LVPT writes, tracing and text output,
    which have no effect on the simulated state; taking over from another CPU,
    serialisation and ports of the CPU, which depend on other simulated
    objects; the call of [threadSnoop] when the load/store queue sends a packet
    (the handler itself is in [Snoop]); what suppressing a fault and completing
    a disabled access do to the thread context ([tryToSuppressFault] and
    [completeDisabledMemAccess] of lsq.cc; whether the fault is suppressed is
    an argument); writable register operands and
    [demapPage] of the exec context; the TAGE and perceptron predictors; the
    instructions generated from the ISA description and physical memory
    protection, which are arguments; instruction-count events; and the Python
    configuration, whose parameters are arguments of the constructors. *)

From Stdlib Require Export ZArith Lia.
From stdpp Require Export base option numbers relations list.

#[global] Open Scope Z_scope.

Declare Scope myminor_scope.
Delimit Scope myminor_scope with mm.

(** ** Outcomes of the code

    The C++ code can stop in the middle of an operation: a failed [assert], a
    call of [panic] or [fatal], or an access outside a [std::vector] (which the
    language leaves undefined).  An operation that can stop returns [res]. *)

Inductive stop :=
| AssertFail   (** a failed [assert] *)
| Panic        (** [panic(...)] *)
| Fatal        (** [fatal(...)] *)
| OutOfBounds  (** [v[i]] with [i] outside [v], or [front]/[pop] of an empty container *)
| NullDeref    (** dereference of a null pointer *)
| OutOfFuel.   (** the step bound of a loop's model was reached *)

Inductive res (A : Type) :=
| Ok (a : A)
| Stop (s : stop).
Arguments Ok {A} a.
Arguments Stop {A} s.

#[export] Instance stop_eq_dec : EqDecision stop.
Proof. solve_decision. Defined.
#[export] Instance res_eq_dec {A} `{EqDecision A} : EqDecision (res A).
Proof. solve_decision. Defined.

(** sequencing: the second computation runs where the first returns *)
Definition rbind {A B} (m : res A) (f : A → res B) : res B :=
  match m with Ok a => f a | Stop s => Stop s end.

(** [assert(b)] *)
Definition assert_ (b : bool) : res unit := if b then Ok tt else Stop AssertFail.

Notation "x ← y ; z" := (rbind y (λ x : _, z))
  (at level 20, y at level 100, z at level 200, only parsing) : myminor_scope.
Notation "' x ← y ; z" := (rbind y (λ x : _, z))
  (at level 20, x pattern, y at level 100, z at level 200, only parsing) : myminor_scope.
Notation "'check' b ; k" := (rbind (assert_ b) (λ _ : unit, k))
  (at level 20, b at level 100, k at level 200, only parsing) : myminor_scope.
#[global] Open Scope myminor_scope.

(** ** Stateful code

    A method of an object with members [S] is a function from the members to
    its result and the new members, or to the point where it stops. *)

Definition St (S A : Type) : Type := S → res (A * S).

Definition sret {S A} (a : A) : St S A := λ s, Ok (a, s).
Definition sbind {S A B} (m : St S A) (k : A → St S B) : St S B :=
  λ s, match m s with Ok (a, s') => k a s' | Stop e => Stop e end.
Definition sget {S} : St S S := λ s, Ok (s, s).
Definition smod {S} (f : S → S) : St S unit := λ s, Ok (tt, f s).
Definition slift {S A} (m : res A) : St S A := λ s, a ← m; Ok (a, s).
Definition sassert {S} (b : bool) : St S unit := slift (assert_ b).

Notation "'let!' x := m 'in' k" := (sbind m (λ x, k))
  (at level 200, x name, m at level 100, k at level 200, only parsing) : myminor_scope.
Notation "'do!' m 'in' k" := (sbind m (λ _, k))
  (at level 200, m at level 100, k at level 200, only parsing) : myminor_scope.

(** [m] returns from [s], with a result and new members that satisfy [Q]. *)
Definition wp {S A} (m : St S A) (s : S) (Q : A → S → Prop) : Prop :=
  ∃ a s', m s = Ok (a, s') ∧ Q a s'.

Section wp.
Context {S A B : Type}.
Implicit Types (m : St S A) (k : A → St S B) (s : S).

Lemma wp_ret (a : A) s (Q : A → S → Prop) : Q a s → wp (sret a) s Q.
Proof. intros HQ. by exists a, s. Qed.

Lemma wp_bind m k s Q : wp m s (λ a s', wp (k a) s' Q) → wp (sbind m k) s Q.
Proof. intros (a & s' & Hm & Hk). unfold wp, sbind. by rewrite Hm. Qed.

Lemma wp_bind_inv m k s Q : wp (sbind m k) s Q → wp m s (λ a s', wp (k a) s' Q).
Proof.
  intros (b & s' & Hm & HQ). unfold sbind in Hm. destruct (m s) as [[a s1]|] eqn:E; [|done].
  exists a, s1. split; [done|]. by exists b, s'.
Qed.

Lemma wp_get s (Q : S → S → Prop) : Q s s → wp sget s Q.
Proof. intros HQ. by exists s, s. Qed.

Lemma wp_mod f s (Q : unit → S → Prop) : Q tt (f s) → wp (smod f) s Q.
Proof. intros HQ. by exists tt, (f s). Qed.

Lemma wp_lift (x : res A) a s Q : x = Ok a → Q a s → wp (slift x) s Q.
Proof. intros -> HQ. by exists a, s. Qed.

Lemma wp_assert b s (Q : unit → S → Prop) : b = true → Q tt s → wp (sassert b) s Q.
Proof. intros -> HQ. by exists tt, s. Qed.

Lemma wp_conseq m s (Q Q' : A → S → Prop) : wp m s Q → (∀ a s', Q a s' → Q' a s') → wp m s Q'.
Proof. intros (a & s' & Hm & HQ) H. exists a, s'. auto. Qed.
End wp.

Lemma sbind_Ok {S A B} (m : St S A) (k : A → St S B) s b s' :
  sbind m k s = Ok (b, s') → ∃ a s1, m s = Ok (a, s1) ∧ k a s1 = Ok (b, s').
Proof. unfold sbind. destruct (m s) as [[a s1]|]; [|done]. eauto. Qed.

Definition is_Ok {A} (m : res A) : Prop := ∃ a, m = Ok a.

Lemma bind_Ok {A B} (m : res A) (f : A → res B) b :
  rbind m f = Ok b ↔ ∃ a, m = Ok a ∧ f a = Ok b.
Proof. destruct m; cbn; naive_solver. Qed.

Lemma bind_ret {A B} (a : A) (f : A → res B) : rbind (Ok a) f = f a.
Proof. done. Qed.

Lemma assert_Ok b u : assert_ b = Ok u ↔ b = true.
Proof. destruct b, u; cbn; naive_solver. Qed.

Lemma assert_true b : b = true → assert_ b = Ok tt.
Proof. by intros ->. Qed.

(** ** Machine integers

    [unsigned int] and [int] are 32 bits wide and [unsigned long], [uint64_t],
    [Addr], [InstSeqNum] and [Cycles] 64 bits wide (the LP64 hosts that gem5
    supports); every conversion is written out. *)

Definition u16 (z : Z) : Z := z `mod` 2 ^ 16.
Definition u32 (z : Z) : Z := z `mod` 2 ^ 32.
Definition u64 (z : Z) : Z := z `mod` 2 ^ 64.

(** conversion to [int] *)
Definition i32 (z : Z) : Z :=
  let w := z `mod` 2 ^ 32 in if w <? 2 ^ 31 then w else w - 2 ^ 32.

Lemma u16_id z : 0 ≤ z < 2 ^ 16 → u16 z = z.
Proof. intros; by apply Z.mod_small. Qed.
Lemma u32_id z : 0 ≤ z < 2 ^ 32 → u32 z = z.
Proof. intros; by apply Z.mod_small. Qed.
Lemma u64_id z : 0 ≤ z < 2 ^ 64 → u64 z = z.
Proof. intros; by apply Z.mod_small. Qed.

Lemma u16_range z : 0 ≤ u16 z < 2 ^ 16.
Proof. by apply Z.mod_pos_bound. Qed.
Lemma u32_range z : 0 ≤ u32 z < 2 ^ 32.
Proof. by apply Z.mod_pos_bound. Qed.
Lemma u64_range z : 0 ≤ u64 z < 2 ^ 64.
Proof. by apply Z.mod_pos_bound. Qed.

Lemma i32_id z : - 2 ^ 31 ≤ z < 2 ^ 31 → i32 z = z.
Proof.
  intros. unfold i32. destruct (Z.le_gt_cases 0 z).
  - rewrite Z.mod_small by lia. destruct (Z.ltb_spec z (2 ^ 31)); lia.
  - replace (z `mod` 2 ^ 32) with (z + 2 ^ 32)
      by (rewrite <- (Z.mod_add _ 1) by lia; rewrite Z.mod_small; lia).
    destruct (Z.ltb_spec (z + 2 ^ 32) (2 ^ 31)); lia.
Qed.

Create HintDb mm.
#[export] Hint Resolve u16_range u32_range u64_range : mm.

(** ** Vectors

    [std::vector] subscripts: a read or a write outside the vector is
    [Stop OutOfBounds]. *)

Definition vget {A} (l : list A) (i : Z) : res A :=
  if 0 <=? i then
    match l !! Z.to_nat i with Some x => Ok x | None => Stop OutOfBounds end
  else Stop OutOfBounds.

Definition vset {A} (l : list A) (i : Z) (x : A) : res (list A) :=
  if (0 <=? i) && (i <? Z.of_nat (length l)) then Ok (<[Z.to_nat i := x]> l)
  else Stop OutOfBounds.

Section vectors.
Context {A : Type}.
Implicit Types (l : list A) (i j : Z) (x y : A).

Lemma vget_Ok l i x :
  vget l i = Ok x ↔ 0 ≤ i ∧ l !! Z.to_nat i = Some x.
Proof.
  unfold vget. destruct (Z.leb_spec 0 i);
    destruct (l !! Z.to_nat i) eqn:E; naive_solver lia.
Qed.

Lemma vget_lt l i : 0 ≤ i < Z.of_nat (length l) → ∃ x, vget l i = Ok x.
Proof.
  intros [Hi Hl]. destruct (lookup_lt_is_Some_2 l (Z.to_nat i)) as [x Hx]; [lia|].
  exists x. by apply vget_Ok.
Qed.

Lemma vget_bound l i x : vget l i = Ok x → 0 ≤ i < Z.of_nat (length l).
Proof. intros [? ?%lookup_lt_Some]%vget_Ok. lia. Qed.

Lemma vget_out l i : Z.of_nat (length l) ≤ i → vget l i = Stop OutOfBounds.
Proof.
  intros Hi. unfold vget. destruct (Z.leb_spec 0 i); [|done].
  rewrite lookup_ge_None_2 by lia. done.
Qed.

Lemma vset_lt l i x :
  0 ≤ i < Z.of_nat (length l) → vset l i x = Ok (<[Z.to_nat i := x]> l).
Proof.
  intros [? ?]. unfold vset.
  destruct (Z.leb_spec 0 i), (Z.ltb_spec i (Z.of_nat (length l))); cbn; lia || done.
Qed.

Lemma vset_out l i x :
  ¬ (0 ≤ i < Z.of_nat (length l)) → vset l i x = Stop OutOfBounds.
Proof.
  intros H. unfold vset.
  destruct (Z.leb_spec 0 i), (Z.ltb_spec i (Z.of_nat (length l))); cbn; lia || done.
Qed.

Lemma vset_Ok l i x l' :
  vset l i x = Ok l' ↔
    0 ≤ i < Z.of_nat (length l) ∧ l' = <[Z.to_nat i := x]> l.
Proof.
  destruct (decide (0 ≤ i < Z.of_nat (length l))) as [H|H].
  - rewrite vset_lt by done. naive_solver.
  - rewrite vset_out by done. naive_solver.
Qed.

Lemma vset_length l i x l' : vset l i x = Ok l' → length l' = length l.
Proof. intros [_ ->]%vset_Ok. apply length_insert. Qed.

Lemma vget_vset_eq l i x l' : vset l i x = Ok l' → vget l' i = Ok x.
Proof.
  intros [? ->]%vset_Ok. apply vget_Ok. split; [lia|].
  apply list_lookup_insert_eq. lia.
Qed.

Lemma vget_vset_ne l i j x l' :
  vset l i x = Ok l' → i ≠ j → vget l' j = vget l j.
Proof.
  intros [? ->]%vset_Ok Hne. unfold vget. destruct (Z.leb_spec 0 j); [|done].
  rewrite list_lookup_insert_ne; [done|lia].
Qed.

Lemma vget_insert_eq l i x : 0 ≤ i < Z.of_nat (length l) → vget (<[Z.to_nat i := x]> l) i = Ok x.
Proof. intros. by apply (vget_vset_eq l), vset_lt. Qed.

Lemma vget_insert_ne l i j x : 0 ≤ i → i ≠ j → vget (<[Z.to_nat i := x]> l) j = vget l j.
Proof.
  intros Hi Hne. unfold vget. destruct (Z.leb_spec 0 j); [|done].
  by rewrite list_lookup_insert_ne by lia.
Qed.

(** An element after an update is the new one or an old one. *)
Lemma vset_cases l i x l' j y : vset l i x = Ok l' → vget l' j = Ok y →
  (j = i ∧ y = x) ∨ (j ≠ i ∧ vget l j = Ok y).
Proof.
  intros Hs Hg. destruct (decide (j = i)) as [->|Hne].
  - rewrite (vget_vset_eq _ _ _ _ Hs) in Hg. left. by simplify_eq.
  - rewrite (vget_vset_ne _ _ _ _ _ Hs) in Hg by done. by right.
Qed.

Lemma vget_replicate n x i :
  0 ≤ i < Z.of_nat n → vget (replicate n x) i = Ok x.
Proof.
  intros ?. apply vget_Ok. split; [lia|]. apply lookup_replicate_2. lia.
Qed.
End vectors.

Lemma vget_fmap {A B} (f : A → B) l t : vget (f <$> l) t = (x ← vget l t; Ok (f x)).
Proof. unfold vget. destruct (0 <=? t); [|done]. rewrite list_lookup_fmap. by destruct (l !! _). Qed.

Lemma vset_fmap {A B} (f : A → B) l t x l' : vset l t x = Ok l' → vset (f <$> l) t (f x) = Ok (f <$> l').
Proof.
  intros (Ht & ->)%vset_Ok. rewrite vset_lt by (by rewrite length_fmap).
  by rewrite list_fmap_insert.
Qed.

Lemma vset_self {A} (l : list A) t x : vget l t = Ok x → vset l t x = Ok l.
Proof.
  intros Hx. apply vget_bound in Hx as Hb. rewrite vset_lt by done. f_equal. apply list_insert_id.
  by apply vget_Ok in Hx as [_ ?].
Qed.

Lemma vset_vset {A} (l l1 l2 : list A) t a b : vset l t a = Ok l1 → vset l1 t b = Ok l2 → vset l t b = Ok l2.
Proof.
  intros [Ht ->]%vset_Ok [_ ->]%vset_Ok. rewrite vset_lt by done. by rewrite list_insert_insert_eq.
Qed.

(** ** Loops *)

(** [for (x : l) s = f(s, x)], left to right, stopping where [f] stops *)
Fixpoint mfold {S A} (f : S → A → res S) (s : S) (l : list A) : res S :=
  match l with
  | [] => Ok s
  | x :: l => s' ← f s x; mfold f s' l
  end.

(** the values of [i] in [for (i = lo; i <= hi; i++)] *)
Definition zrange (lo hi : Z) : list Z :=
  (λ k, lo + Z.of_nat k) <$> seq 0 (Z.to_nat (hi - lo + 1)).

Lemma zrange_lookup lo hi k : (k < Z.to_nat (hi - lo + 1))%nat →
  zrange lo hi !! k = Some (lo + Z.of_nat k).
Proof. intros. unfold zrange. by rewrite list_lookup_fmap, lookup_seq_lt. Qed.

Lemma elem_of_zrange lo hi i : i ∈ zrange lo hi ↔ lo ≤ i ≤ hi.
Proof.
  unfold zrange. rewrite list_elem_of_fmap. split.
  - intros (k & -> & Hk%elem_of_seq). lia.
  - intros Hi. exists (Z.to_nat (i - lo)). split; [lia|]. apply elem_of_seq. lia.
Qed.

Lemma zrange_nil lo hi : hi < lo → zrange lo hi = [].
Proof. intros. unfold zrange. by replace (Z.to_nat (hi - lo + 1)) with 0%nat by lia. Qed.

Lemma zrange_snoc lo hi : lo ≤ hi → zrange lo hi = zrange lo (hi - 1) ++ [hi].
Proof.
  intros ?. unfold zrange.
  replace (Z.to_nat (hi - lo + 1)) with (S (Z.to_nat (hi - 1 - lo + 1))) by lia.
  rewrite seq_S, fmap_app. cbn. do 2 f_equal. lia.
Qed.

Lemma zrange_cons lo hi : lo ≤ hi → zrange lo hi = lo :: zrange (lo + 1) hi.
Proof.
  intros ?. unfold zrange.
  replace (Z.to_nat (hi - lo + 1)) with (S (Z.to_nat (hi - (lo + 1) + 1))) by lia.
  cbn [seq fmap list_fmap]. f_equal; [lia|]. rewrite <- fmap_S_seq, <- list_fmap_compose.
  apply list_fmap_ext. intros ???. cbn. lia.
Qed.

Lemma zrange_length lo hi : length (zrange lo hi) = Z.to_nat (hi - lo + 1).
Proof. unfold zrange. by rewrite length_fmap, length_seq. Qed.

Lemma mfold_app {S A} (f : S → A → res S) s l k :
  mfold f s (l ++ k) = s' ← mfold f s l; mfold f s' k.
Proof.
  revert s. induction l as [|x l IH]; intros s; [done|]. cbn.
  destruct (f s x); cbn; [apply IH|done].
Qed.

(** A loop over the first indices of a vector is a loop over its first elements. *)
Lemma mfold_vget_take {S A} (g : S → A → res S) (l : list A) (n : nat) s : (n ≤ length l)%nat →
  mfold (λ s k, x ← vget l k; g s x) s (zrange 0 (Z.of_nat n - 1)) = mfold g s (take n l).
Proof.
  intros Hn. enough (∀ (m k : nat) s, (k + m)%nat = n →
    mfold (λ s k, x ← vget l k; g s x) s (zrange (Z.of_nat k) (Z.of_nat n - 1))
    = mfold g s (drop k (take n l))) as H by (by apply (H n 0%nat)).
  clear s. induction m as [|m IH]; intros k s Hk.
  { rewrite zrange_nil, drop_ge by (rewrite ?length_take; lia). done. }
  rewrite zrange_cons by lia. destruct (lookup_lt_is_Some_2 l k) as [x Hx]; [lia|].
  rewrite (drop_S (take n l) x) by (rewrite lookup_take_lt by lia; done). cbn [mfold].
  assert (vget l (Z.of_nat k) = Ok x) as -> by (apply vget_Ok; rewrite Nat2Z.id; split; [lia|done]).
  cbn [rbind]. destruct (g s x); cbn [rbind]; [|done].
  replace (Z.of_nat k + 1) with (Z.of_nat (Datatypes.S k)) by lia. apply IH. lia.
Qed.

(** A loop over the indices of a vector is a loop over its elements. *)
Lemma mfold_vget {S A} (g : S → A → res S) (l : list A) s :
  mfold (λ s k, x ← vget l k; g s x) s (zrange 0 (Z.of_nat (length l) - 1)) = mfold g s l.
Proof. rewrite mfold_vget_take by done. by rewrite take_ge. Qed.

(** Invariant rule for a loop that runs to its end. *)
Lemma mfold_inv {S A} (f : S → A → res S) (I : S → Prop) l s :
  (∀ s x, x ∈ l → I s → ∃ s', f s x = Ok s' ∧ I s') →
  I s → ∃ s', mfold f s l = Ok s' ∧ I s'.
Proof.
  revert s. induction l as [|x l IH]; intros s Hf Hs; [by exists s|].
  destruct (Hf s x) as (s1 & Hs1 & HI); [left|done|]. cbn. rewrite Hs1. cbn.
  apply IH; [|done]. intros s2 y Hy. apply Hf. by right.
Qed.

(** ** Counting *)

Definition countb {A} (f : A → bool) (l : list A) : Z :=
  Z.of_nat (length (List.filter f l)).

Definition b2z (b : bool) : Z := if b then 1 else 0.

Section countb.
Context {A : Type} (f : A → bool).
Implicit Types l : list A.

Lemma countb_nil : countb f [] = 0.
Proof. done. Qed.

Lemma countb_cons x l : countb f (x :: l) = b2z (f x) + countb f l.
Proof. unfold countb; cbn. destruct (f x); cbn; lia. Qed.

Lemma countb_app l k : countb f (l ++ k) = countb f l + countb f k.
Proof. induction l; cbn [app]; rewrite ?countb_cons, ?countb_nil; lia. Qed.

Lemma countb_nonneg l : 0 ≤ countb f l.
Proof. unfold countb; lia. Qed.

Lemma countb_le_length l : countb f l ≤ Z.of_nat (length l).
Proof.
  induction l; [done|]. rewrite countb_cons. cbn [length].
  destruct (f a); cbn [b2z]; lia.
Qed.

Lemma countb_insert l i x y :
  l !! i = Some y → countb f (<[i := x]> l) = countb f l - b2z (f y) + b2z (f x).
Proof.
  revert i. induction l as [|z l IH]; intros [|i] H; [done..| |].
  - cbn in *. simplify_eq. rewrite !countb_cons. lia.
  - change (<[S i:=x]> (z :: l)) with (z :: <[i:=x]> l).
    rewrite !countb_cons, (IH i) by done. lia.
Qed.

Lemma countb_replicate_false n x : f x = false → countb f (replicate n x) = 0.
Proof.
  intros Hx. induction n; [done|]. cbn [replicate]. by rewrite countb_cons, Hx.
Qed.

Lemma countb_pos l : 0 < countb f l ↔ ∃ i x, l !! i = Some x ∧ f x = true.
Proof.
  induction l as [|z l IH].
  - rewrite countb_nil. split; [lia|]. by intros (?&?&?&?).
  - rewrite countb_cons. pose proof (countb_nonneg l).
    destruct (f z) eqn:E; cbn [b2z].
    + split; [|lia]. intros _. by exists O, z.
    + replace (0 + countb f l) with (countb f l) by lia. rewrite IH.
      split; intros (i&x&Hi&Hx); [by exists (S i), x|].
      destruct i as [|i]; cbn in Hi; [simplify_eq; congruence|]. by exists i, x.
Qed.

Lemma countb_removelast l x :
  last l = Some x → countb f (removelast l) = countb f l - b2z (f x).
Proof.
  intros Hl. destruct (exists_last (l:=l)) as (k&y&->).
  { by intros ->. }
  rewrite last_snoc in Hl. simplify_eq. rewrite removelast_last, countb_app.
  rewrite countb_cons, countb_nil. lia.
Qed.

Lemma countb_perm l k : l ≡ₚ k → countb f l = countb f k.
Proof.
  induction 1 as [|x l k _ IH|x y l|l k m _ IH1 _ IH2]; rewrite ?countb_cons; lia.
Qed.
End countb.

(** ** Tactics *)

(** Split a successful run of a [res] computation in the context into its steps. *)
Ltac res_inv :=
  repeat match goal with
  | H : rbind _ _ = Ok _ |- _ =>
      let a := fresh "r" in let H1 := fresh "Hr" in
      apply bind_Ok in H as (a & H1 & H)
  | H : assert_ _ = Ok ?u |- _ => destruct u; apply assert_Ok in H
  | H : Ok _ = Ok _ |- _ => injection H as H; subst
  | H : Stop _ = Ok _ |- _ => discriminate H
  end.

(** Case analysis on every boolean comparison of integers in the goal. *)
Ltac zcases :=
  repeat match goal with
  | |- context [?a <=? ?b] => destruct (Z.leb_spec a b)
  | |- context [?a <? ?b] => destruct (Z.ltb_spec a b)
  | |- context [?a =? ?b] => destruct (Z.eqb_spec a b)
  end.

(** An invariant of every step holds in every reachable state. *)
Lemma rtc_invariant {A} (R : A → A → Prop) (P : A → Prop) x y :
  (∀ x y, P x → R x y → P y) → rtc R x y → P x → P y.
Proof. intros HR Hrtc. induction Hrtc; eauto. Qed.
