(* ===== verification/TimeBuf.v ===== *)
(** * TimeBuffer (src/src/cpu/timebuf.hh)

    The circular buffer behind every latch, functional unit pipeline and the
    activity recorder.  [TimeBuffer] keeps the constructed elements in [index]
    and the position of "now" in [base]; a slot is addressed by its offset from
    now, [- past .. future].  The specification is a delay line ([line]): the
    list of the visible slots from the newest ([future]) to the oldest
    ([- past]); [advance] pushes a default element at the front and drops the
    oldest one.  The theorems show that the index arithmetic of the code, kept
    at its widths, implements this delay line. *)

From S2P Require Import Prelude.

Record TimeBuffer (T : Type) := mkTimeBuffer {
  past : Z;
  future : Z;
  size : Z;
  index : list T;
  base : Z;
}.
Arguments mkTimeBuffer {T} _ _ _ _ _.
Arguments past {T} _.
Arguments future {T} _.
Arguments size {T} _.
Arguments index {T} _.
Arguments base {T} _.

Section TimeBuffer.
  (** [dflt] is the element built by [new (ptr) T] on zeroed storage. *)
  Context {T : Type} (dflt : T).
  Implicit Types (tb : TimeBuffer T).

(** [void valid(int idx) const] *)
Definition valid tb (idx : Z) : res unit :=
  assert_ ((- past tb <=? idx) && (idx <=? future tb)).

(** [TimeBuffer(int p, int f)] *)
Definition newTimeBuffer (p f : Z) : res (TimeBuffer T) :=
  let size := u32 (i32 (i32 (p + f) + 1)) in
  check (0 <=? p) && (0 <=? f);
  Ok (mkTimeBuffer p f size (replicate (Z.to_nat size) dflt) 0).

(** [void advance()] *)
Definition advance tb : res (TimeBuffer T) :=
  let base' := let b := u32 (base tb + 1) in if size tb <=? b then 0 else b in
  let ptr := i32 (base' + future tb) in
  let ptr := if i32 (size tb) <=? ptr then i32 (ptr - size tb) else ptr in
  index' ← vset (index tb) ptr dflt;
  Ok (mkTimeBuffer (past tb) (future tb) (size tb) index' base').

(** [int calculateVectorIndex(int idx) const] *)
Definition calculateVectorIndex tb (idx : Z) : res Z :=
  _ ← valid tb idx;
  let vector_index := i32 (idx + base tb) in
  Ok (if i32 (size tb) <=? vector_index then i32 (vector_index - size tb)
      else if vector_index <? 0 then i32 (vector_index + size tb)
      else vector_index).

(** [T *access(int idx)], read through the pointer *)
Definition access tb (idx : Z) : res T :=
  vector_index ← calculateVectorIndex tb idx;
  vget (index tb) vector_index.

(** assignment through [access(idx)], [operator\[\](idx)] or a wire *)
Definition store tb (idx : Z) (x : T) : res (TimeBuffer T) :=
  vector_index ← calculateVectorIndex tb idx;
  index' ← vset (index tb) vector_index x;
  Ok (mkTimeBuffer (past tb) (future tb) (size tb) index' (base tb)).

(** [wire getWire(int idx)]: a wire is its offset *)
Definition getWire tb (idx : Z) : res Z :=
  _ ← valid tb idx;
  Ok idx.

(** ** Well-formedness *)

Record wf tb : Prop := {
  wf_past : 0 ≤ past tb;
  wf_future : 0 ≤ future tb;
  wf_size : size tb = past tb + future tb + 1;
  wf_small : size tb ≤ 2 ^ 30;
  wf_index : Z.of_nat (length (index tb)) = size tb;
  wf_base : 0 ≤ base tb < size tb;
}.

(** The slot of the vector that holds offset [idx]. *)
Definition slot tb (idx : Z) : Z := (base tb + idx) `mod` size tb.

(** ** The delay line *)

(** The visible elements, newest first: element [j] is offset [future - j]. *)
Definition line tb : list T :=
  (λ j, default dflt (index tb !! Z.to_nat (slot tb (future tb - Z.of_nat j))))
    <$> seq 0 (Z.to_nat (size tb)).

(** One step of an ideal delay line. *)
Definition shift (l : list T) : list T := dflt :: removelast l.

Lemma valid_Ok tb idx : - past tb ≤ idx ≤ future tb → valid tb idx = Ok tt.
Proof. intros. apply assert_true. zcases; cbn; lia || done. Qed.

Lemma valid_iff tb idx u : valid tb idx = Ok u ↔ - past tb ≤ idx ≤ future tb.
Proof.
  unfold valid. rewrite assert_Ok. zcases; cbn; split; lia || done.
Qed.

Lemma slot_range tb idx : wf tb → 0 ≤ slot tb idx < size tb.
Proof. intros [???? _ ?]. apply Z.mod_pos_bound. lia. Qed.

Lemma mod_once a n : 0 < n → - n ≤ a < 2 * n →
  a `mod` n = if n <=? a then a - n else if a <? 0 then a + n else a.
Proof.
  intros Hn Ha. zcases.
  - rewrite <- (Z.mod_add _ (-1)) by lia. rewrite Z.mod_small; lia.
  - rewrite <- (Z.mod_add _ 1) by lia. rewrite Z.mod_small; lia.
  - rewrite Z.mod_small; lia.
Qed.

Lemma calculateVectorIndex_Ok tb idx : wf tb → - past tb ≤ idx ≤ future tb →
  calculateVectorIndex tb idx = Ok (slot tb idx).
Proof.
  intros [? ? Hs ? _ ?] Hv. unfold calculateVectorIndex, slot.
  rewrite valid_Ok by done. cbn. rewrite (Z.add_comm idx).
  rewrite mod_once by lia. rewrite (i32_id (base tb + idx)), (i32_id (size tb)) by lia.
  f_equal. zcases; rewrite ?i32_id by lia; lia.
Qed.

Lemma access_Ok tb idx : wf tb → - past tb ≤ idx ≤ future tb →
  ∃ x, access tb idx = Ok x ∧ index tb !! Z.to_nat (slot tb idx) = Some x.
Proof.
  intros Hwf Hv. unfold access. rewrite calculateVectorIndex_Ok by done. cbn.
  pose proof (slot_range tb idx Hwf). destruct (vget_lt (index tb) (slot tb idx)) as [x Hx].
  { rewrite (wf_index tb) by done. lia. }
  exists x. split; [done|]. by apply vget_Ok in Hx as [_ ?].
Qed.

Lemma slot_inj tb a b : wf tb →
  - past tb ≤ a ≤ future tb → - past tb ≤ b ≤ future tb →
  slot tb a = slot tb b → a = b.
Proof.
  intros [?? Hs ?? ?] Ha Hb. unfold slot. rewrite !mod_once by lia.
  zcases; lia.
Qed.

Lemma line_length tb : length (line tb) = Z.to_nat (size tb).
Proof. unfold line. by rewrite length_fmap, length_seq. Qed.

Lemma line_lookup tb j : wf tb → (j < Z.to_nat (size tb))%nat →
  line tb !! j = index tb !! Z.to_nat (slot tb (future tb - Z.of_nat j)).
Proof.
  intros Hwf Hj. unfold line. rewrite list_lookup_fmap, lookup_seq_lt by done. cbn.
  pose proof (slot_range tb (future tb - Z.of_nat j) Hwf).
  destruct (lookup_lt_is_Some_2 (index tb)
    (Z.to_nat (slot tb (future tb - Z.of_nat j)))) as [x Hx].
  { pose proof (wf_index tb Hwf). lia. }
  by rewrite Hx.
Qed.

(** Position of offset [idx] in the delay line. *)
Definition pos tb (idx : Z) : nat := Z.to_nat (future tb - idx).

Lemma access_line tb idx : wf tb → - past tb ≤ idx ≤ future tb →
  ∃ x, access tb idx = Ok x ∧ line tb !! pos tb idx = Some x.
Proof.
  intros Hwf Hv. destruct (access_Ok tb idx) as (x & Hx & Hi); [done..|].
  exists x. split; [done|]. pose proof (wf_size tb Hwf).
  rewrite line_lookup by (done || unfold pos; lia). unfold pos.
  by replace (future tb - Z.of_nat (Z.to_nat (future tb - idx))) with idx by lia.
Qed.

Lemma store_Ok tb idx x : wf tb → - past tb ≤ idx ≤ future tb →
  ∃ tb', store tb idx x = Ok tb' ∧ wf tb' ∧ line tb' = <[pos tb idx := x]> (line tb)
    ∧ past tb' = past tb ∧ future tb' = future tb ∧ size tb' = size tb.
Proof.
  intros Hwf Hv. unfold store. rewrite calculateVectorIndex_Ok by done. cbn.
  pose proof (slot_range tb idx Hwf) as Hr. pose proof (wf_index tb Hwf) as Hl.
  rewrite vset_lt by lia. cbn. eexists. split; [done|].
  set (tb' := mkTimeBuffer _ _ _ _ _).
  assert (wf tb') as Hwf'.
  { destruct Hwf. split; cbn; rewrite ?length_insert; lia || done. }
  split; [done|]. split; [|done]. apply list_eq. intros j.
  pose proof (wf_size tb Hwf) as Hs.
  destruct (decide (j < Z.to_nat (size tb)))%nat as [Hj|Hj]; last first.
  { rewrite !lookup_ge_None_2; [done|rewrite length_insert, line_length; lia|].
    rewrite line_length. cbn. lia. }
  rewrite (line_lookup tb') by done. cbn.
  destruct (decide (j = pos tb idx)) as [->|Hne].
  - rewrite list_lookup_insert_eq by (rewrite line_length; unfold pos; lia).
    unfold pos. replace (future tb - Z.of_nat (Z.to_nat (future tb - idx))) with idx by lia.
    apply list_lookup_insert_eq. lia.
  - rewrite (list_lookup_insert_ne (line tb)) by done.
    rewrite (list_lookup_insert_ne (index tb)), line_lookup; [done..|].
    intros Heq. apply Hne. unfold pos.
    assert (slot tb idx = slot tb (future tb - Z.of_nat j)) as Hsl.
    { change (slot tb' ?a) with (slot tb a) in Heq.
      pose proof (slot_range tb (future tb - Z.of_nat j) Hwf). lia. }
    apply slot_inj in Hsl; [|done|lia|lia]. lia.
Qed.

Lemma advance_slot tb base' idx : wf tb →
  base' = (if size tb <=? u32 (base tb + 1) then 0 else u32 (base tb + 1)) →
  (base' + (idx - 1)) `mod` size tb = slot tb idx ∧ 0 ≤ base' < size tb.
Proof.
  intros [?? Hs ?? ?] ->. unfold slot. rewrite u32_id by lia. zcases.
  - split; [|lia]. replace (base tb + idx) with ((0 + (idx - 1)) + 1 * size tb) by lia.
    by rewrite Z.mod_add by lia.
  - split; [|lia]. f_equal. lia.
Qed.

Lemma last_line_lookup (l : list T) j : (S j < length l)%nat →
  removelast l !! j = l !! j.
Proof.
  revert j. induction l as [|x l IH]; intros j Hj; [done|].
  destruct l as [|y l]; [cbn in Hj; lia|]. destruct j as [|j]; [done|].
  change (removelast (x :: y :: l)) with (x :: removelast (y :: l)). cbn [lookup list_lookup].
  apply (IH j). cbn in *. lia.
Qed.

Lemma length_removelast (l : list T) : length (removelast l) = (length l - 1)%nat.
Proof.
  induction l as [|x l IH]; [done|]. destruct l as [|y l]; [done|].
  change (removelast (x :: y :: l)) with (x :: removelast (y :: l)).
  cbn [length] in *. rewrite IH. lia.
Qed.

(** The slot re-initialised by [advance] is the one that becomes offset [future]. *)
Lemma advance_ptr tb base' : wf tb → 0 ≤ base' < size tb →
  (if i32 (size tb) <=? i32 (base' + future tb) then i32 (i32 (base' + future tb) - size tb)
   else i32 (base' + future tb)) = (base' + future tb) `mod` size tb.
Proof.
  intros [? ? ? ? _ _] Hb. rewrite mod_once by lia.
  rewrite (i32_id (base' + _)), (i32_id (size tb)) by lia.
  destruct (Z.leb_spec (size tb) (base' + future tb)); [apply i32_id; lia|].
  destruct (Z.ltb_spec (base' + future tb) 0); lia.
Qed.

(** The line after the slot of offset [future] has been overwritten and [base] moved. *)
Lemma advance_line tb tb' : wf tb → wf tb' →
  past tb' = past tb → future tb' = future tb → size tb' = size tb →
  base tb' = (if size tb <=? u32 (base tb + 1) then 0 else u32 (base tb + 1)) →
  index tb' = <[Z.to_nat (slot tb' (future tb)) := dflt]> (index tb) →
  line tb' = shift (line tb).
Proof.
  intros Hwf Hwf' Hp Hf Hs Hb Hi. pose proof (wf_size tb Hwf). pose proof (wf_past tb Hwf).
  pose proof (wf_index tb Hwf). pose proof (wf_future tb Hwf).
  apply list_eq. intros j. destruct (decide (j < Z.to_nat (size tb)))%nat as [Hj|Hj]; last first.
  { rewrite !lookup_ge_None_2; [done|cbn; rewrite length_removelast, line_length; lia|].
    rewrite line_length. lia. }
  rewrite (line_lookup tb') by (done || lia). rewrite Hi, Hf. destruct j as [|j].
  - rewrite Z.sub_0_r. pose proof (slot_range tb' (future tb) Hwf').
    cbn [shift lookup list_lookup]. apply list_lookup_insert_eq. lia.
  - change (shift (line tb) !! S j) with (removelast (line tb) !! j).
    rewrite last_line_lookup by (rewrite line_length; lia). rewrite line_lookup by (done || lia).
    rewrite list_lookup_insert_ne.
    + destruct (advance_slot tb (base tb') (future tb - Z.of_nat j) Hwf Hb) as [<- _].
      unfold slot. rewrite Hs. do 3 f_equal. lia.
    + intros Heq. pose proof (slot_range tb' (future tb) Hwf').
      pose proof (slot_range tb' (future tb - Z.of_nat (S j)) Hwf').
      assert (slot tb' (future tb) = slot tb' (future tb - Z.of_nat (S j))) as Hc by lia.
      apply (slot_inj tb') in Hc; lia || done.
Qed.

Lemma advance_Ok tb : wf tb →
  ∃ tb', advance tb = Ok tb' ∧ wf tb' ∧ line tb' = shift (line tb)
    ∧ past tb' = past tb ∧ future tb' = future tb ∧ size tb' = size tb.
Proof.
  intros Hwf. unfold advance. cbn zeta. set (base' := if _ <=? _ then 0 else _).
  destruct (advance_slot tb base' 0 Hwf eq_refl) as [_ Hb].
  rewrite (advance_ptr tb base') by done.
  pose proof (wf_index tb Hwf) as Hl.
  assert (0 ≤ (base' + future tb) `mod` size tb < size tb) by (apply Z.mod_pos_bound; lia).
  rewrite vset_lt by lia. cbn. eexists. split; [done|].
  match goal with |- wf ?t ∧ _ => set (tb' := t) end.
  assert (wf tb') as Hwf' by (destruct Hwf; split; cbn; rewrite ?length_insert; lia || done).
  split; [done|]. split; [|done]. by apply (advance_line tb tb').
Qed.

Lemma newTimeBuffer_Ok p f : 0 ≤ p → 0 ≤ f → p + f < 2 ^ 30 →
  ∃ tb, newTimeBuffer p f = Ok tb ∧ wf tb ∧ past tb = p ∧ future tb = f
    ∧ line tb = replicate (Z.to_nat (p + f + 1)) dflt.
Proof.
  intros Hp Hf Hs. unfold newTimeBuffer.
  rewrite (i32_id (p + f)), (i32_id (p + f + 1)), u32_id by lia.
  rewrite assert_true by (zcases; cbn; lia || done). cbn. eexists. split; [done|].
  match goal with |- wf ?t ∧ _ => set (tb := t) end.
  assert (wf tb) as Hwf by (split; cbn [tb past future size index base]; rewrite ?length_replicate; lia).
  split; [done|]. split; [done|]. split; [done|]. apply list_eq. intros j.
  destruct (decide (j < Z.to_nat (p + f + 1)))%nat as [Hj|Hj]; last first.
  { rewrite !lookup_ge_None_2; [done|rewrite length_replicate; lia|].
    rewrite line_length; cbn; lia. }
  rewrite line_lookup by done. pose proof (slot_range tb (future tb - Z.of_nat j) Hwf) as Hr.
  cbn [index tb]. change (size tb) with (p + f + 1) in Hr.
  rewrite !lookup_replicate_2 by lia. done.
Qed.

(** ** Histories

    What the owner of a buffer does in a run: write a visible slot, or advance. *)

Inductive tb_op := TbStore (idx : Z) (x : T) | TbAdvance.

Definition tb_step tb (op : tb_op) : res (TimeBuffer T) :=
  match op with TbStore idx x => store tb idx x | TbAdvance => advance tb end.

Fixpoint tb_run tb (ops : list tb_op) : res (TimeBuffer T) :=
  match ops with
  | [] => Ok tb
  | op :: ops => tb' ← tb_step tb op; tb_run tb' ops
  end.

(** The same history on the ideal delay line of [f] future slots. *)
Definition line_step (f : Z) (l : list T) (op : tb_op) : list T :=
  match op with
  | TbStore idx x => <[Z.to_nat (f - idx) := x]> l
  | TbAdvance => shift l
  end.

Definition op_valid (p f : Z) (op : tb_op) : Prop :=
  match op with TbStore idx _ => - p ≤ idx ≤ f | TbAdvance => True end.

Lemma tb_run_refines tb ops : wf tb → Forall (op_valid (past tb) (future tb)) ops →
  ∃ tb', tb_run tb ops = Ok tb' ∧ wf tb' ∧ past tb' = past tb ∧ future tb' = future tb
    ∧ line tb' = foldl (line_step (future tb)) (line tb) ops.
Proof.
  revert tb. induction ops as [|op ops IH]; intros tb Hwf Hops; cbn.
  { by exists tb. }
  apply Forall_cons in Hops as [Hop Hops].
  assert (∃ tb1, tb_step tb op = Ok tb1 ∧ wf tb1 ∧ past tb1 = past tb
    ∧ future tb1 = future tb ∧ line tb1 = line_step (future tb) (line tb) op)
    as (tb1 & -> & Hwf1 & Hp & Hf & Hl).
  { destruct op as [idx x|]; cbn in *.
    - destruct (store_Ok tb idx x) as (t & ? & ? & ? & ? & ? & _); naive_solver.
    - destruct (advance_Ok tb) as (t & ? & ? & ? & ? & ? & _); naive_solver. }
  destruct (IH tb1) as (tb' & Hr & Hwf' & Hp' & Hf' & Hl'); [done|by rewrite Hp, Hf|].
  exists tb'. cbn. rewrite Hl', Hf, Hl. naive_solver congruence.
Qed.

End TimeBuffer.

Arguments TbStore {T} idx x.
Arguments TbAdvance {T}.

(** C33: a [TimeBuffer] built with [p] past and [f] future slots behaves, over
    every history of slot writes and advances, as the ideal delay line: no
    access leaves the vector, no assertion fails, and reading offset [idx]
    returns the element that the delay line has at that offset. *)
Theorem timebuffer_refines_delay_line {T} (dflt : T) (p f : Z) (ops : list tb_op) (idx : Z) :
  0 ≤ p → 0 ≤ f → p + f < 2 ^ 30 → Forall (op_valid p f) ops → - p ≤ idx ≤ f →
  ∃ tb tb' x, newTimeBuffer dflt p f = Ok tb ∧ tb_run dflt tb ops = Ok tb'
    ∧ access tb' idx = Ok x
    ∧ foldl (line_step dflt f) (replicate (Z.to_nat (p + f + 1)) dflt) ops
        !! Z.to_nat (f - idx) = Some x.
Proof.
  intros Hp Hf Hs Hops Hidx.
  destruct (newTimeBuffer_Ok dflt p f) as (tb & Hnew & Hwf & <- & <- & Hline); [done..|].
  destruct (tb_run_refines dflt tb ops) as (tb' & Hrun & Hwf' & Hp' & Hf' & Hline'); [done..|].
  destruct (access_line dflt tb' idx) as (x & Hx & Hl); [done|lia|].
  exists tb, tb', x. unfold pos in Hl. rewrite Hline', Hline, Hf' in Hl. done.
Qed.

Lemma timebuffer_refines_delay_line_witness :
  ∃ tb tb' x, newTimeBuffer 0 2 1 = Ok tb
    ∧ tb_run 0 tb [TbStore 0 7; TbAdvance; TbStore 1 9; TbAdvance] = Ok tb'
    ∧ access tb' (-2) = Ok x
    ∧ [0; 9; 0; 7] !! 3%nat = Some x.
Proof.
  apply (timebuffer_refines_delay_line 0 2 1
    [TbStore 0 7; TbAdvance; TbStore 1 9; TbAdvance] (-2)); try lia.
  repeat constructor; lia.
Defined.
