(* ===== verification/Buffers.v ===== *)
(** * Buffers between and inside the stages (src/src/cpu/myminor/buffers.hh)

    - [IsBubble], [Bubble]: the bubble traits;
    - [MyMinorBuffer], [Latch]: the inter-stage latches on a [TimeBuffer];
    - [SelfStallingPipeline]: the base of the functional unit pipelines;
    - [Queue], [InputBuffer]: the stage input queues, with the space
      reservation protocol ([Reservable]).

    The trace printing members ([myminorTrace], [reportData]) have no effect on
    the state and are left out. *)

From S2P Require Import Prelude TimeBuf.

(** ** Bubbles *)

(** [BubbleTraits::isBubble] *)
Class IsBubble (T : Type) := isBubble : T → bool.

(** [BubbleTraits::bubble]: a value that is a bubble *)
Class Bubble (T : Type) `{IsBubble T} := {
  bubble : T;
  bubble_isBubble : isBubble bubble = true;
}.

(** [NoBubbleTraits::isBubble] *)
Definition NoBubble_isBubble {T} (_ : T) : bool := false.

#[export] Instance option_isBubble {A} : IsBubble (option A) :=
  λ o, match o with Some _ => false | None => true end.
#[export, program] Instance option_bubble {A} : Bubble (option A) := {| bubble := None |}.
Next Obligation. done. Qed.

(** ** MyMinorBuffer and Latch *)

Section Latch.
Context {T : Type} `{IsBubble T} (dflt : T).

(** [MyMinorBuffer::empty]: full of only bubbles *)
Definition MyMinorBuffer_empty (tb : TimeBuffer T) : res bool :=
  mfold (λ ret i, x ← access tb i; Ok (if negb (isBubble x) then false else ret))
    true (zrange (- past tb) (future tb)).

Record Latch := mkLatch {
  delay : Z;
  buffer : TimeBuffer T;
}.

(** [Latch(name, data_name, delay_, report_backwards)] *)
Definition newLatch (delay_ : Z) : res Latch :=
  b ← newTimeBuffer dflt (i32 delay_) 0;
  Ok (mkLatch delay_ b).

(** [Latch::empty] *)
Definition Latch_empty (l : Latch) : res bool := MyMinorBuffer_empty (buffer l).

(** assignment to [*Latch::input().inputWire] *)
Definition Latch_write (l : Latch) (x : T) : res Latch :=
  w ← getWire (buffer l) 0;
  b ← store (buffer l) w x;
  Ok (mkLatch (delay l) b).

(** [*Latch::input().inputWire] *)
Definition Latch_input (l : Latch) : res T :=
  w ← getWire (buffer l) 0;
  access (buffer l) w.

(** [*Latch::output().outputWire] *)
Definition Latch_output (l : Latch) : res T :=
  w ← getWire (buffer l) (i32 (- delay l));
  access (buffer l) w.

(** [Latch::evaluate] *)
Definition Latch_evaluate (l : Latch) : res Latch :=
  b ← advance dflt (buffer l);
  Ok (mkLatch (delay l) b).

(** One cycle: the producer writes the input wire, then the latch is stepped. *)
Definition Latch_cycle (l : Latch) (x : T) : res Latch :=
  l1 ← Latch_write l x;
  Latch_evaluate l1.

Record latch_wf (l : Latch) : Prop := {
  lwf_buf : wf (buffer l);
  lwf_future : future (buffer l) = 0;
  lwf_past : past (buffer l) = delay l;
}.

(** The content of a latch: slot [j] is the value written [j] cycles ago. *)
Definition latch_line (l : Latch) : list T := line dflt (buffer l).

Lemma newLatch_Ok d : 0 ≤ d < 2 ^ 30 →
  ∃ l, newLatch d = Ok l ∧ latch_wf l ∧ delay l = d
    ∧ latch_line l = replicate (Z.to_nat (d + 1)) dflt.
Proof.
  intros Hd. unfold newLatch. rewrite i32_id by lia.
  destruct (newTimeBuffer_Ok dflt d 0) as (tb & -> & Hwf & Hp & Hf & Hl); [lia..|]. cbn.
  exists (mkLatch d tb). split; [done|]. split; [done|]. split; [done|].
  unfold latch_line. cbn. rewrite Hl. f_equal. lia.
Qed.

Lemma Latch_write_Ok l x : latch_wf l →
  ∃ l', Latch_write l x = Ok l' ∧ latch_wf l' ∧ delay l' = delay l
    ∧ latch_line l' = <[0%nat := x]> (latch_line l).
Proof.
  intros [Hwf Hf Hp]. pose proof (wf_past _ Hwf). unfold Latch_write, getWire.
  rewrite valid_Ok by lia. cbn.
  destruct (store_Ok dflt (buffer l) 0 x) as (tb & -> & Hwf' & Hl & Hp' & Hf' & _); [done|lia|].
  cbn. exists (mkLatch (delay l) tb). split; [done|]. split; [split; cbn; lia || done|].
  split; [done|]. unfold latch_line. cbn. rewrite Hl. unfold pos. by rewrite Hf.
Qed.

Lemma Latch_evaluate_Ok l : latch_wf l →
  ∃ l', Latch_evaluate l = Ok l' ∧ latch_wf l' ∧ delay l' = delay l
    ∧ latch_line l' = shift dflt (latch_line l).
Proof.
  intros [Hwf Hf Hp]. unfold Latch_evaluate.
  destruct (advance_Ok dflt (buffer l)) as (tb & -> & Hwf' & Hl & Hp' & Hf' & _); [done|]. cbn.
  exists (mkLatch (delay l) tb). split; [done|]. split; [split; cbn; lia || done|]. done.
Qed.

Lemma latch_line_length l : latch_wf l → length (latch_line l) = S (Z.to_nat (delay l)).
Proof.
  intros [Hwf Hf Hp]. unfold latch_line. rewrite line_length, (wf_size _ Hwf).
  pose proof (wf_past _ Hwf). lia.
Qed.

Lemma Latch_output_Ok l : latch_wf l →
  ∃ x, Latch_output l = Ok x ∧ latch_line l !! Z.to_nat (delay l) = Some x.
Proof.
  intros [Hwf Hf Hp]. pose proof (wf_past _ Hwf). pose proof (wf_small _ Hwf).
  pose proof (wf_size _ Hwf). unfold Latch_output, getWire.
  rewrite i32_id by lia. rewrite valid_Ok by lia. cbn.
  destruct (access_line dflt (buffer l) (- delay l)) as (x & Hx & Hl); [done|lia|].
  exists x. split; [done|]. unfold latch_line.
  replace (Z.to_nat (delay l)) with (pos (buffer l) (- delay l)) by (unfold pos; lia). done.
Qed.

Lemma Latch_cycle_Ok l x : latch_wf l →
  ∃ l', Latch_cycle l x = Ok l' ∧ latch_wf l' ∧ delay l' = delay l
    ∧ latch_line l' = shift dflt (<[0%nat := x]> (latch_line l)).
Proof.
  intros Hl. unfold Latch_cycle.
  destruct (Latch_write_Ok l x) as (l1 & -> & H1 & Hd1 & Hl1); [done|]. cbn.
  destruct (Latch_evaluate_Ok l1) as (l2 & -> & H2 & Hd2 & Hl2); [done|].
  exists l2. rewrite Hd2, Hd1, Hl2, Hl1. done.
Qed.

Lemma MyMinorBuffer_empty_Ok tb : wf tb →
  MyMinorBuffer_empty tb = Ok (forallb isBubble (line dflt tb)).
Proof.
  intros Hwf. unfold MyMinorBuffer_empty.
  set (f := λ (ret : bool) (i : Z), _).
  assert (∀ r js, Forall (λ i, - past tb ≤ i ≤ future tb) js →
    mfold f r js = Ok (r && forallb (λ i, match line dflt tb !! pos tb i with
                                     | Some x => isBubble x | None => true end) js)) as Hgen.
  { intros r js. revert r. induction js as [|j js IH]; intros r Hjs; cbn [mfold forallb].
    { by rewrite andb_true_r. }
    apply Forall_cons in Hjs as [Hj Hjs].
    destruct (access_line dflt tb j) as (x & Hacc & Hx); [done..|].
    replace (f r j) with (Ok (if negb (isBubble x) then false else r))
      by (unfold f; by rewrite Hacc). cbn.
    rewrite IH by done. rewrite Hx. by destruct (isBubble x), r. }
  rewrite Hgen by (apply Forall_forall; intros i Hi; by apply elem_of_zrange).
  cbn. f_equal. pose proof (wf_size _ Hwf). pose proof (wf_past _ Hwf). pose proof (wf_future _ Hwf).
  apply eq_true_iff_eq. rewrite !forallb_forall. split; intros Hall.
  - intros x (j & Hj)%list_elem_of_In%list_elem_of_lookup.
    pose proof (lookup_lt_Some _ _ _ Hj) as Hlt. rewrite line_length in Hlt.
    specialize (Hall (future tb - Z.of_nat j)).
    replace (pos tb (future tb - Z.of_nat j)) with j in Hall by (unfold pos; lia).
    rewrite Hj in Hall. apply Hall. apply list_elem_of_In, elem_of_zrange. lia.
  - intros i Hi. destruct (line dflt tb !! pos tb i) as [x|] eqn:E; [|done].
    apply Hall, list_elem_of_In. by apply list_elem_of_lookup_2 in E.
Qed.

(** ** Runs of a latch *)

Lemma take_cons_take {A} n (x : A) l : take n (x :: take n l) = take n (x :: l).
Proof. destruct n; [done|]. cbn. by rewrite take_take, Nat.min_l by lia. Qed.

Lemma latch_run_line l t xs : latch_wf l → latch_line l = dflt :: t →
  ∃ l', mfold Latch_cycle l xs = Ok l' ∧ latch_wf l' ∧ delay l' = delay l
    ∧ latch_line l' = dflt :: take (length t) (reverse xs ++ t).
Proof.
  intros Hwf Hl. induction xs as [|x xs IH] using rev_ind.
  { exists l. cbn. rewrite take_ge by done. done. }
  destruct IH as (l1 & Hr & Hwf1 & Hd1 & Hl1). rewrite mfold_app, Hr. cbn.
  destruct (Latch_cycle_Ok l1 x) as (l2 & -> & Hwf2 & Hd2 & Hl2); [done|]. cbn.
  exists l2. split; [done|]. split; [done|]. split; [lia|]. rewrite Hl2, Hl1. cbn [insert list_insert].
  unfold shift. f_equal. rewrite removelast_firstn_len. cbn [length Nat.pred].
  rewrite length_take, length_app, Nat.min_l by lia.
  by rewrite reverse_snoc, take_cons_take.
Qed.

Lemma latch_run_output d l xs : latch_wf l → delay l = d → 1 ≤ d →
  latch_line l = replicate (Z.to_nat (d + 1)) dflt →
  ∃ l' y, mfold Latch_cycle l xs = Ok l' ∧ Latch_output l' = Ok y
    ∧ (replicate (Z.to_nat d) dflt ++ xs) !! length xs = Some y.
Proof.
  intros Hwf <- Hd Hl. replace (Z.to_nat (delay l + 1)) with (S (Z.to_nat (delay l))) in Hl by lia.
  destruct (latch_run_line l (replicate (Z.to_nat (delay l)) dflt) xs)
    as (l' & Hr & Hwf' & Hd' & Hl'); [done..|].
  destruct (Latch_output_Ok l') as (y & Hy & Hly); [done|].
  exists l', y. split; [done|]. split; [done|]. rewrite <- Hly, Hl', Hd', length_replicate.
  destruct (Z.to_nat (delay l)) as [|n] eqn:E; [lia|].
  match goal with |- ?a = (_ :: ?t) !! _ => change (a = t !! n) end.
  rewrite lookup_take_lt by lia.
  rewrite <- (reverse_involutive (reverse xs ++ _)), reverse_app, reverse_involutive.
  rewrite reverse_replicate, reverse_lookup by (rewrite length_app, length_replicate; lia).
  f_equal. rewrite length_app, length_replicate. lia.
Qed.

Lemma latch_run_empty d l xs : latch_wf l → delay l = d → isBubble dflt = true →
  latch_line l = replicate (Z.to_nat (d + 1)) dflt →
  ∃ l', mfold Latch_cycle l xs = Ok l' ∧ delay l' = d
    ∧ Latch_empty l' = Ok (forallb isBubble (take (Z.to_nat d) (reverse xs))).
Proof.
  intros Hwf <- Hb Hl.
  pose proof (lwf_past _ Hwf). pose proof (wf_past _ (lwf_buf _ Hwf)).
  replace (Z.to_nat (delay l + 1)) with (S (Z.to_nat (delay l))) in Hl by lia.
  destruct (latch_run_line l (replicate (Z.to_nat (delay l)) dflt) xs)
    as (l' & Hr & Hwf' & Hd' & Hl'); [done..|].
  exists l'. split; [done|]. split; [done|]. unfold Latch_empty.
  rewrite (MyMinorBuffer_empty_Ok _ (lwf_buf _ Hwf')). unfold latch_line in Hl'. rewrite Hl'.
  cbn. rewrite Hb, length_replicate, take_app, forallb_app, length_reverse, take_replicate. cbn.
  replace (forallb isBubble (replicate _ dflt)) with true; [by rewrite andb_true_r|].
  symmetry. apply forallb_forall. intros x Hx%list_elem_of_In%elem_of_replicate_inv. congruence.
Qed.

End Latch.
Arguments Latch T : clear implicits.
Arguments mkLatch {T} _ _.

(** what a stage writes to the input wire of a fresh latch of delay [d] in
    cycle [t] is what the next stage sees on the output wire in cycle [t + d];
    before cycle [d] it sees default elements.  No latch access fails. *)
Theorem latch_delays_by_delay {T} (dflt : T) (d : Z) (xs : list T) :
  1 ≤ d < 2 ^ 30 →
  ∃ l l' y, newLatch dflt d = Ok l ∧ mfold (Latch_cycle dflt) l xs = Ok l'
    ∧ Latch_output l' = Ok y
    ∧ (replicate (Z.to_nat d) dflt ++ xs) !! length xs = Some y.
Proof.
  intros Hd. destruct (newLatch_Ok dflt d) as (l & Hnew & Hwf & Hdel & Hl); [lia|].
  destruct (latch_run_output dflt d l xs) as (l' & y & ? & ? & ?); [done|done|lia|done|].
  by exists l, l', y.
Qed.

Lemma latch_delays_by_delay_witness :
  ∃ l l' y, newLatch 0 2 = Ok l ∧ mfold (Latch_cycle 0) l [5; 6; 7] = Ok l'
    ∧ Latch_output l' = Ok y ∧ [0; 0; 5; 6; 7] !! 3%nat = Some y.
Proof. apply (latch_delays_by_delay 0 2 [5; 6; 7]). lia. Defined.

(** ** SelfStallingPipeline *)

Section SelfStallingPipeline.
Context {T : Type} `{Bubble T} (dflt : T).

Record SelfStallingPipeline := mkSSP {
  sspBuffer : TimeBuffer T;
  stalled : bool;
  occupancy : Z;
}.
Implicit Types (s : SelfStallingPipeline).

(** [SelfStallingPipeline(name, data_name, depth)] *)
Definition newSSP (depth : Z) : res SelfStallingPipeline :=
  tb ← newTimeBuffer dflt (i32 depth) 0;
  _ ← getWire tb 0;
  _ ← getWire tb (i32 (u32 (- depth)));
  check 0 <? depth;
  tb ← mfold (λ tb i, store tb (i32 (u32 (- i))) bubble) tb (zrange 0 depth);
  Ok (mkSSP tb false 0).

(** [front()]: the element at the far end of the pipe *)
Definition front s : res T := access (sspBuffer s) (- past (sspBuffer s)).

(** [alreadyPushed()] *)
Definition alreadyPushed s : res bool :=
  x ← access (sspBuffer s) 0; Ok (negb (isBubble x)).

(** [isPopable()] *)
Definition isPopable s : res bool :=
  x ← front s; Ok (negb (isBubble x)).

(** [push(elem)] *)
Definition push s (elem : T) : res SelfStallingPipeline :=
  pushed ← alreadyPushed s;
  check negb pushed;
  tb ← store (sspBuffer s) 0 elem;
  Ok (mkSSP tb (stalled s)
        (if negb (isBubble elem) then u32 (occupancy s + 1) else occupancy s)).

(** [advance()] *)
Definition sspAdvance s : res SelfStallingPipeline :=
  data_at_end ← isPopable s;
  if stalled s then Ok s
  else
    tb ← advance dflt (sspBuffer s);
    let occ := if data_at_end then u32 (occupancy s - 1) else occupancy s in
    stalled' ← isPopable (mkSSP tb false occ);
    tb ← store tb 0 bubble;
    Ok (mkSSP tb stalled' occ).

(** [stalled = false], done by Execute once it has taken the element at the end *)
Definition unstall s : SelfStallingPipeline := mkSSP (sspBuffer s) false (occupancy s).

(** The elements in the pipe from the input end to the output end. *)
Definition ssp_line s : list T := line dflt (sspBuffer s).

Record ssp_wf (depth : Z) s : Prop := {
  swf_buf : wf (sspBuffer s);
  swf_future : future (sspBuffer s) = 0;
  swf_past : past (sspBuffer s) = depth;
  swf_depth : 0 < depth;
  swf_occ : occupancy s = countb (λ x, negb (isBubble x)) (ssp_line s);
  swf_stalled : stalled s = true →
    ∃ x, last (ssp_line s) = Some x ∧ isBubble x = false;
}.

Lemma ssp_line_length d s : ssp_wf d s → length (ssp_line s) = S (Z.to_nat d).
Proof.
  intros [Hwf Hf Hp ? _ _]. unfold ssp_line. rewrite line_length, (wf_size _ Hwf). lia.
Qed.

Lemma ssp_access d s idx : ssp_wf d s → - d ≤ idx ≤ 0 →
  ∃ x, access (sspBuffer s) idx = Ok x ∧ ssp_line s !! Z.to_nat (- idx) = Some x.
Proof.
  intros [Hwf Hf Hp ? _ _] Hi.
  destruct (access_line dflt (sspBuffer s) idx) as (x & Hx & Hl); [done|lia|].
  exists x. split; [done|]. unfold pos in Hl. rewrite Hf in Hl. exact Hl.
Qed.

Lemma ssp_front d s : ssp_wf d s →
  ∃ x, front s = Ok x ∧ last (ssp_line s) = Some x.
Proof.
  intros Hs. destruct (ssp_access d s (- d) Hs) as (x & Hx & Hl).
  { pose proof (swf_depth _ _ Hs). lia. }
  exists x. unfold front. rewrite (swf_past _ _ Hs). split; [done|].
  rewrite last_lookup, (ssp_line_length d s Hs). cbn. rewrite <- Hl. f_equal. lia.
Qed.

(** [push] writes the input slot when it is a bubble and stops otherwise. *)
Lemma push_Ok d s elem x : ssp_wf d s → head (ssp_line s) = Some x → d < 2 ^ 30 →
  (isBubble x = true →
   ∃ s', push s elem = Ok s' ∧ ssp_wf d s' ∧ ssp_line s' = <[0%nat := elem]> (ssp_line s)
     ∧ stalled s' = stalled s)
  ∧ (isBubble x = false → push s elem = Stop AssertFail).
Proof.
  intros Hs Hx Hd. destruct (ssp_access d s 0 Hs) as (x' & Ha & Hl).
  { pose proof (swf_depth _ _ Hs). lia. }
  rewrite head_lookup in Hx. change (Z.to_nat (- 0)) with 0%nat in Hl. assert (x' = x) as -> by congruence.
  unfold push, alreadyPushed. rewrite Ha. cbn. split; intros Hb; rewrite Hb; cbn; [|done].
  pose proof Hs as [Hwf Hf Hp Hd0 Ho Hst].
  destruct (store_Ok dflt (sspBuffer s) 0 elem) as (tb & -> & Hwf' & Hl' & Hp' & Hf' & _);
    [done|lia|]. cbn. eexists. split; [done|].
  unfold pos in Hl'. rewrite Hf in Hl'. cbn in Hl'.
  assert (ssp_line (mkSSP tb (stalled s) (if negb (isBubble elem) then u32 (occupancy s + 1)
    else occupancy s)) = <[0%nat:=elem]> (ssp_line s)) as Hline by exact Hl'.
  split; [split; cbn [sspBuffer occupancy stalled]|by split]; [done|lia|lia|done| |].
  - rewrite Hline, (countb_insert _ _ _ _ x), Ho, Hb by done. cbn.
    pose proof (countb_le_length (λ x, negb (isBubble x)) (ssp_line s)).
    pose proof (countb_nonneg (λ x, negb (isBubble x)) (ssp_line s)).
    pose proof (ssp_line_length d s Hs).
    destruct (isBubble elem); cbn; [lia|]. rewrite u32_id; lia.
  - intros Ht. destruct (Hst Ht) as (y & Hy & Hyb). exists y. split; [|done].
    rewrite Hline. pose proof (ssp_line_length d s Hs) as Hlen.
    destruct (ssp_line s) as [|a [|b l]]; cbn in *; [lia|lia|done].
Qed.

(** A stalled pipe keeps its content; a pipe that is not stalled moves by one
    slot and stalls when an element reaches the end. *)
Lemma sspAdvance_Ok d s x : ssp_wf d s → last (ssp_line s) = Some x → d < 2 ^ 30 →
  ∃ s', sspAdvance s = Ok s' ∧ ssp_wf d s'
    ∧ (stalled s = true → s' = s)
    ∧ (stalled s = false → ssp_line s' = bubble :: removelast (ssp_line s)
       ∧ ∃ y, last (ssp_line s') = Some y ∧ stalled s' = negb (isBubble y)).
Proof.
  intros Hs Hx Hd. unfold sspAdvance, isPopable at 1.
  destruct (ssp_front d s Hs) as (x' & -> & Hx'). assert (x' = x) as -> by congruence. cbn.
  destruct (stalled s) eqn:Est; [by exists s|].
  pose proof Hs as [Hwf Hf Hp Hd0 Ho _].
  destruct (advance_Ok dflt (sspBuffer s)) as (tb & -> & Hwf1 & Hl1 & Hp1 & Hf1 & _); [done|].
  cbn. set (occ := if negb _ then _ else _). unfold isPopable, front. cbn.
  pose proof (ssp_line_length d s Hs) as Hlen. unfold ssp_line in *.
  destruct (access_line dflt tb (- past tb)) as (y & -> & Hy); [done|lia|].
  unfold pos in Hy. rewrite Hf1, Hf, Hp1, Hp in Hy. cbn.
  destruct (store_Ok dflt tb 0 bubble) as (tb2 & -> & Hwf2 & Hl2 & Hp2 & Hf2 & _); [done|lia|].
  cbn. unfold pos in Hl2. rewrite Hf1, Hf in Hl2.
  assert (line dflt tb2 = bubble :: removelast (line dflt (sspBuffer s))) as Hl.
  { rewrite Hl2, Hl1. done. }
  assert (last (line dflt tb2) = Some y) as Hlast.
  { rewrite last_lookup, Hl. cbn [length Nat.pred]. rewrite length_removelast, Hlen.
    rewrite Hl1 in Hy. rewrite <- Hy. replace (Z.to_nat (0 - - d)) with (Z.to_nat d) by lia.
    replace (S (S (Z.to_nat d) - 1)%nat) with (S (Z.to_nat d)) by lia. cbn [Nat.pred].
    destruct (Z.to_nat d) eqn:E; [lia|]. done. }
  eexists. split; [done|]. split; [|split; [done|]].
  - split; cbn [sspBuffer occupancy stalled]; [done|lia|lia|done| |].
    + unfold ssp_line; cbn [sspBuffer]. rewrite Hl, countb_cons, bubble_isBubble. cbn [negb b2z].
      rewrite (countb_removelast _ _ x) by done. unfold occ.
      pose proof (countb_le_length (λ x, negb (isBubble x)) (line dflt (sspBuffer s))).
      assert (isBubble x = false → 0 < countb (λ x, negb (isBubble x)) (line dflt (sspBuffer s))).
      { intros Hb. apply countb_pos. eexists _, x. rewrite last_lookup in Hx.
        split; [exact Hx|]. by rewrite Hb. }
      unfold ssp_line in Ho. destruct (isBubble x); cbn [negb b2z]; [lia|].
      rewrite u32_id; lia.
    + unfold ssp_line; cbn [sspBuffer]. intros Hb. exists y. split; [done|]. by destruct (isBubble y).
  - intros _. split; [done|]. by exists y.
Qed.

Lemma unstall_wf d s : ssp_wf d s → ssp_wf d (unstall s).
Proof. intros []. by split. Qed.

Lemma mfold_store_bubbles d tb (ks : list Z) : wf tb → future tb = 0 → past tb = d → d < 2 ^ 30 →
  Forall (λ i, 0 ≤ i ≤ d) ks → 0 < d →
  ∃ tb', mfold (λ tb i, store tb (i32 (u32 (- i))) bubble) tb ks = Ok tb'
    ∧ wf tb' ∧ future tb' = 0 ∧ past tb' = d
    ∧ ∀ j, (j < Z.to_nat (d + 1))%nat →
        line dflt tb' !! j = if decide (Z.of_nat j ∈ ks) then Some bubble else line dflt tb !! j.
Proof.
  intros Hwf Hf Hp Hd. revert tb Hwf Hf Hp. induction ks as [|i ks IH]; intros tb Hwf Hf Hp Hall Hd0.
  { exists tb. do 4 (split; [done|]). intros j _. destruct (decide _) as [Hi|]; [|done].
    by apply elem_of_nil in Hi. }
  apply Forall_cons in Hall as [Hi Hall]. cbn [mfold].
  assert (i32 (u32 (- i)) = - i) as ->.
  { unfold u32, i32. rewrite Z.mod_mod by lia. apply (i32_id (- i)). lia. }
  destruct (store_Ok dflt tb (- i) bubble) as (tb1 & -> & Hwf1 & Hl1 & Hp1 & Hf1 & Hs1); [done|lia|].
  cbn. destruct (IH tb1) as (tb' & Hr & Hwf' & Hf' & Hp' & Hl'); [done|lia|lia|done|done|].
  exists tb'. do 4 (split; [done|]). intros j Hj. rewrite Hl' by done. rewrite Hl1.
  unfold pos. rewrite Hf. pose proof (line_length dflt tb). pose proof (wf_size _ Hwf).
  destruct (decide (Z.of_nat j ∈ ks)) as [Hin|Hin];
    destruct (decide (Z.of_nat j ∈ i :: ks)) as [Hin'|Hin']; [done| | |].
  - destruct Hin'. by right.
  - apply elem_of_cons in Hin' as [<-|]; [|done].
    replace (Z.to_nat (0 - - Z.of_nat j)) with j by lia. apply list_lookup_insert_eq. lia.
  - apply list_lookup_insert_ne. intros <-. apply Hin'. rewrite elem_of_cons. left. lia.
Qed.

Lemma newSSP_Ok d : 0 < d < 2 ^ 30 →
  ∃ s, newSSP d = Ok s ∧ ssp_wf d s ∧ stalled s = false
    ∧ ssp_line s = replicate (Z.to_nat (d + 1)) bubble.
Proof.
  intros Hd. unfold newSSP. rewrite i32_id by lia.
  destruct (newTimeBuffer_Ok dflt d 0) as (tb & -> & Hwf & Hp & Hf & Hl); [lia..|]. cbn [rbind].
  unfold getWire. assert (i32 (u32 (- d)) = - d) as ->.
  { unfold u32, i32. rewrite Z.mod_mod by lia. apply (i32_id (- d)). lia. }
  rewrite !valid_Ok by lia. cbn [rbind].
  rewrite assert_true by (zcases; lia || done). cbn [rbind].
  destruct (mfold_store_bubbles d tb (zrange 0 d)) as (tb' & -> & Hwf' & Hf' & Hp' & Hl');
    [done|lia|lia|lia| |lia|].
  { apply Forall_forall. intros i. by rewrite elem_of_zrange. }
  cbn. pose proof (line_length dflt tb') as Hlen. rewrite (wf_size _ Hwf'), Hf', Hp' in Hlen.
  assert (line dflt tb' = replicate (Z.to_nat (d + 1)) bubble) as Hline.
  { apply list_eq. intros j. destruct (decide (j < Z.to_nat (d + 1))%nat).
    - rewrite Hl', lookup_replicate_2 by done. rewrite decide_True; [done|].
      apply elem_of_zrange. lia.
    - rewrite !lookup_ge_None_2; rewrite ?length_replicate; lia || done. }
  eexists. split; [done|]. split; [|by split].
  split; cbn [sspBuffer stalled occupancy]; [done|done|done|lia| |done].
  unfold ssp_line. cbn [sspBuffer]. rewrite Hline, countb_replicate_false; [done|].
  by rewrite bubble_isBubble.
Qed.

(** ** Runs of a self stalling pipeline

    The users of a pipe: issue pushes an element when the input slot is free
    and the pipe is not stalled, commit takes the element at the end by
    clearing [stalled], and the pipe is advanced every cycle. *)

Inductive ssp_op := SspPush (x : T) | SspTake | SspAdvance.

(** One operation, with the elements accepted and the elements taken by it. *)
Definition ssp_step s (op : ssp_op) : res (SelfStallingPipeline * list T * list T) :=
  match op with
  | SspPush x =>
      pushed ← alreadyPushed s;
      if pushed || stalled s then Ok (s, [], [])
      else s' ← push s x; Ok (s', if negb (isBubble x) then [x] else [], [])
  | SspTake =>
      x ← front s;
      Ok (unstall s, [], if stalled s then [x] else [])
  | SspAdvance => s' ← sspAdvance s; Ok (s', [], [])
  end.

Fixpoint ssp_run s (ops : list ssp_op) : res (SelfStallingPipeline * list T * list T) :=
  match ops with
  | [] => Ok (s, [], [])
  | op :: ops =>
      '(s1, acc1, taken1) ← ssp_step s op;
      '(s2, acc2, taken2) ← ssp_run s1 ops;
      Ok (s2, acc1 ++ acc2, taken1 ++ taken2)
  end.

(** The elements still to be taken, oldest first. *)
Definition ssp_pending s : list T :=
  reverse (List.filter (λ x, negb (isBubble x))
    (if stalled s then ssp_line s else removelast (ssp_line s))).

Lemma ssp_pending_push d s x : ssp_wf d s → head (ssp_line s) = Some x → isBubble x = true →
  stalled s = false → ∀ y s', ssp_line s' = <[0%nat := y]> (ssp_line s) → stalled s' = false →
  ssp_pending s' = ssp_pending s ++ (if negb (isBubble y) then [y] else []).
Proof.
  intros Hs Hx Hb Hst y s' Hl Hst'. unfold ssp_pending. rewrite Hst, Hst', Hl.
  pose proof (ssp_line_length d s Hs) as Hlen. pose proof (swf_depth d s Hs).
  destruct (ssp_line s) as [|a [|b l]] eqn:E; cbn [length] in Hlen; [lia|lia|].
  cbn in Hx. simplify_eq.
  change (<[0%nat:=y]> (x :: b :: l)) with (y :: b :: l).
  change (removelast (?z :: b :: l)) with (z :: removelast (b :: l)).
  cbn [List.filter]. rewrite Hb. cbn [negb].
  destruct (isBubble y); cbn [negb]; [by rewrite app_nil_r|by rewrite reverse_cons].
Qed.

Lemma filter_removelast (f : T → bool) l x : last l = Some x →
  List.filter f l = List.filter f (removelast l) ++ (if f x then [x] else []).
Proof.
  intros Hl. destruct (exists_last (l:=l)) as (k & y & ->); [by intros ->|].
  rewrite last_snoc in Hl. simplify_eq. rewrite removelast_last, List.filter_app. done.
Qed.

Lemma ssp_step_Ok d s op : ssp_wf d s → d < 2 ^ 30 →
  ∃ s' acc taken, ssp_step s op = Ok (s', acc, taken) ∧ ssp_wf d s'
    ∧ ssp_pending s ++ acc = taken ++ ssp_pending s'.
Proof.
  intros Hs Hd. destruct (ssp_front d s Hs) as (x & Hfx & Hx).
  pose proof (ssp_line_length d s Hs) as Hlen.
  destruct op as [y| |]; cbn.
  - destruct (ssp_access d s 0 Hs) as (h & Ha & Hh); [pose proof (swf_depth d s Hs); lia|].
    change (Z.to_nat (- 0)) with 0%nat in Hh. rewrite <- head_lookup in Hh.
    destruct (push_Ok d s y h Hs Hh Hd) as [Hok _].
    unfold alreadyPushed. rewrite Ha. cbn.
    destruct (isBubble h) eqn:Eh; cbn; [|exists s, [], []; by rewrite app_nil_r].
    destruct (stalled s) eqn:Est; [exists s, [], []; by rewrite app_nil_r|].
    destruct Hok as (s' & -> & Hs' & Hl' & Hst'); [done|]. cbn. eexists _, _, _.
    split; [done|]. split; [done|]. cbn.
    by rewrite (ssp_pending_push d s h Hs Hh Eh Est y s').
  - rewrite Hfx. cbn. eexists _, _, _. split; [done|]. split; [by apply unstall_wf|].
    rewrite app_nil_r. unfold ssp_pending. change (ssp_line (unstall s)) with (ssp_line s).
    cbn [stalled unstall]. destruct (stalled s) eqn:Est; [|done].
    destruct (swf_stalled d s Hs Est) as (x' & Hx' & Hb). assert (x' = x) as -> by congruence.
    rewrite (filter_removelast _ _ x) by done. rewrite Hb. cbn [negb].
    by rewrite reverse_snoc.
  - destruct (sspAdvance_Ok d s x Hs Hx Hd) as (s' & -> & Hs' & Hst & Hmv). cbn.
    eexists _, _, _. split; [done|]. split; [done|]. rewrite app_nil_r. cbn.
    destruct (stalled s) eqn:Est; [by rewrite Hst|].
    destruct (Hmv eq_refl) as (Hl & y & Hy & Hst'). unfold ssp_pending. rewrite Est, Hst'.
    replace (List.filter _ (if negb (isBubble y) then _ else _)) with
      (List.filter (λ x, negb (isBubble x)) (ssp_line s')).
    { rewrite Hl. cbn. by rewrite bubble_isBubble. }
    destruct (isBubble y) eqn:Ey; cbn; [|done].
    rewrite (filter_removelast _ _ y), Ey by done. cbn. by rewrite app_nil_r.
Qed.

Lemma ssp_run_Ok d s ops : ssp_wf d s → d < 2 ^ 30 →
  ∃ s' acc taken, ssp_run s ops = Ok (s', acc, taken) ∧ ssp_wf d s'
    ∧ ssp_pending s ++ acc = taken ++ ssp_pending s'.
Proof.
  intros Hs Hd. revert s Hs. induction ops as [|op ops IH]; intros s Hs; cbn.
  { exists s, [], []. by rewrite app_nil_r. }
  destruct (ssp_step_Ok d s op Hs Hd) as (s1 & a1 & t1 & -> & Hs1 & H1).
  cbn. destruct (IH s1 Hs1) as (s2 & a2 & t2 & -> & Hs2 & H2). cbn.
  eexists _, _, _. split; [done|]. split; [done|].
  by rewrite app_assoc, H1, <- !app_assoc, H2.
Qed.

End SelfStallingPipeline.
Arguments SelfStallingPipeline T : clear implicits.
Arguments mkSSP {T} _ _ _.
Arguments ssp_op T : clear implicits.
Arguments SspPush {T} x.
Arguments SspTake {T}.
Arguments SspAdvance {T}.

(** a self stalling pipeline of any depth never loses, duplicates or
    reorders an element: over every history of pushes, takes and advances the
    accepted elements are exactly those taken followed by those still in the
    pipe, [occupancy] counts the non-bubbles of the buffer, and neither an
    assertion nor a buffer access fails. *)
Theorem ssp_no_loss_fifo {T} `{Bubble T} (dflt : T) (d : Z) (ops : list (ssp_op T)) :
  0 < d < 2 ^ 30 →
  ∃ s s' acc taken, newSSP dflt d = Ok s ∧ ssp_run dflt s ops = Ok (s', acc, taken)
    ∧ acc = taken ++ ssp_pending dflt s'
    ∧ occupancy s' = countb (λ x, negb (isBubble x)) (ssp_line dflt s').
Proof.
  intros Hd. destruct (newSSP_Ok dflt d Hd) as (s & Hnew & Hs & Hst & Hl).
  destruct (ssp_run_Ok dflt d s ops Hs) as (s' & acc & taken & Hrun & Hs' & Heq); [lia|].
  exists s, s', acc, taken. split; [done|]. split; [done|]. split; [|by apply (swf_occ _ d)].
  rewrite <- Heq. unfold ssp_pending. rewrite Hst, Hl.
  replace (Z.to_nat (d + 1)) with (S (Z.to_nat d)) by lia.
  replace (List.filter _ _) with (@nil T); [done|]. symmetry.
  induction (Z.to_nat d) as [|n IH]; [done|].
  change (removelast (replicate (S (S n)) bubble)) with (bubble :: removelast (replicate (S n) (bubble (T:=T)))).
  cbn [List.filter]. by rewrite bubble_isBubble.
Qed.

Lemma ssp_no_loss_fifo_witness :
  ∃ s s' acc taken, newSSP (None : option Z) 2 = Ok s
    ∧ ssp_run None s [SspPush (Some 1); SspAdvance; SspPush (Some 2); SspAdvance; SspAdvance;
                      SspTake; SspAdvance] = Ok (s', acc, taken)
    ∧ acc = taken ++ ssp_pending None s'
    ∧ occupancy s' = countb (λ x, negb (isBubble x)) (ssp_line None s').
Proof. apply (ssp_no_loss_fifo (None : option Z) 2). lia. Defined.

(** ** Reservable *)

(** [class Reservable] *)
Class Reservable (S : Type) := {
  canReserve : S → bool;
  reserve : S → S;
  freeReservation : S → S;
}.

(** What a stage may rely on when it reserves space in the next stage's
    buffer: [room] is the space that is neither full nor reserved. *)
Class ReservableOk (S : Type) `{Reservable S} (ok : S → Prop) (room : S → Z) := {
  canReserve_room s : ok s → (canReserve s = true ↔ 0 < room s);
  reserve_room s : ok s → canReserve s = true →
    ok (reserve s) ∧ room (reserve s) = room s - 1;
  freeReservation_room s : ok s →
    ok (freeReservation s) ∧ room s ≤ room (freeReservation s) ≤ room s + 1;
}.

(** ** Queue *)

Record Queue (T : Type) := mkQueue {
  queue : list T;
  numReservedSlots : Z;
  capacity : Z;
}.
Arguments mkQueue {T} _ _ _.
Arguments queue {T} _.
Arguments numReservedSlots {T} _.
Arguments capacity {T} _.

Section Queue.
Context {T : Type} `{IsBubble T}.
Implicit Types (q : Queue T) (data : T).

(** [Queue(name, data_name, capacity_)] *)
Definition newQueue (capacity_ : Z) : Queue T := mkQueue [] 0 capacity_.

(** [void freeReservation()] *)
Definition Queue_freeReservation q : Queue T :=
  mkQueue (queue q)
    (if negb (numReservedSlots q =? 0) then u32 (numReservedSlots q - 1) else numReservedSlots q)
    (capacity q).

(** [void push(ElemType &data)]; the overflow warning has no effect *)
Definition Queue_push q data : Queue T :=
  if negb (isBubble data) then
    let q1 := Queue_freeReservation q in
    mkQueue (queue q1 ++ [data]) (numReservedSlots q1) (capacity q1)
  else q.

(** [void clearReservedSpace()] *)
Definition clearReservedSpace q : Queue T := mkQueue (queue q) 0 (capacity q).

(** [unsigned int occupiedSpace() const] *)
Definition occupiedSpace q : Z := u32 (Z.of_nat (length (queue q))).

(** [unsigned int remainingSpace() const] *)
Definition remainingSpace q : Z :=
  let ret := i32 (u64 (capacity q - Z.of_nat (length (queue q)))) in
  if ret <? 0 then 0 else u32 ret.

(** [unsigned int unreservedRemainingSpace() const] *)
Definition Queue_unreservedRemainingSpace q : Z :=
  let ret := i32 (u64 (capacity q - u64 (Z.of_nat (length (queue q)) + numReservedSlots q))) in
  if ret <? 0 then 0 else u32 ret.

(** [void reserve()]; the warning has no effect *)
Definition Queue_reserve q : Queue T :=
  mkQueue (queue q) (u32 (numReservedSlots q + 1)) (capacity q).

(** [bool canReserve() const] *)
Definition Queue_canReserve q : bool := negb (Queue_unreservedRemainingSpace q =? 0).

(** [ElemType &front()] *)
Definition Queue_front q : res T :=
  match queue q with x :: _ => Ok x | [] => Stop OutOfBounds end.

(** [void pop()] *)
Definition Queue_pop q : res (Queue T) :=
  match queue q with
  | _ :: l => Ok (mkQueue l (numReservedSlots q) (capacity q))
  | [] => Stop OutOfBounds
  end.

(** [bool empty() const] *)
Definition Queue_empty q : bool := match queue q with [] => true | _ => false end.

#[export] Instance Queue_Reservable : Reservable (Queue T) := {|
  canReserve := Queue_canReserve;
  reserve := Queue_reserve;
  freeReservation := Queue_freeReservation;
|}.

Record queue_ok q : Prop := {
  qok_cap : 0 ≤ capacity q < 2 ^ 31;
  qok_res : 0 ≤ numReservedSlots q < 2 ^ 31;
  qok_len : Z.of_nat (length (queue q)) < 2 ^ 31;
}.

(** Slots neither occupied nor reserved; negative when the queue is over-full. *)
Definition queue_room q : Z :=
  capacity q - (Z.of_nat (length (queue q)) + numReservedSlots q).

Lemma i32_u64 z : - 2 ^ 31 ≤ z < 2 ^ 31 → i32 (u64 z) = z.
Proof.
  intros Hz. rewrite <- (i32_id z) at 2 by done. unfold i32, u64.
  by rewrite <- (Znumtheory.Zmod_div_mod (2 ^ 32) (2 ^ 64)) by (lia || by exists (2 ^ 32)).
Qed.

Lemma unreserved_room q : queue_ok q → - 2 ^ 31 ≤ queue_room q →
  Queue_unreservedRemainingSpace q = Z.max 0 (queue_room q).
Proof.
  intros [Hc Hr Hl] Hroom. unfold Queue_unreservedRemainingSpace, queue_room in *.
  rewrite (u64_id (_ + _)) by lia. rewrite i32_u64 by lia. zcases; rewrite ?u32_id; lia.
Qed.

Lemma canReserve_iff q : queue_ok q → - 2 ^ 31 ≤ queue_room q →
  Queue_canReserve q = true ↔ 0 < queue_room q.
Proof.
  intros Hq Hr. unfold Queue_canReserve. rewrite unreserved_room by done.
  zcases; cbn; split; lia || done.
Qed.

#[export] Instance Queue_ReservableOk :
  ReservableOk (Queue T) (λ q, queue_ok q ∧ - 2 ^ 31 ≤ queue_room q) queue_room.
Proof.
  split.
  - intros q [Hq Hr]. by apply canReserve_iff.
  - intros q [Hq Hr] Hc%canReserve_iff; [|done..]. cbn.
    assert (numReservedSlots q + 1 < 2 ^ 31) by (destruct Hq; unfold queue_room in *; lia).
    destruct Hq. split; [split; [split|]|]; unfold queue_room in *; cbn in *; rewrite ?u32_id by lia; lia.
  - intros q [Hq Hr]. cbn. destruct Hq. unfold Queue_freeReservation, queue_room in *. cbn.
    zcases; cbn; rewrite ?u32_id by lia; (split; [split; [split; cbn|]|]); cbn; lia.
Qed.

End Queue.

(** ** InputBuffer *)

(** [elementPtr] is modelled by the element it points at: the pointer is
    dropped ([pushTail]) before the latch slot it points at is reused. *)
Record InputBuffer (T : Type) := mkInputBuffer {
  ibQueue : Queue T;
  elementPtr : option T;
}.
Arguments mkInputBuffer {T} _ _.
Arguments ibQueue {T} _.
Arguments elementPtr {T} _.

Section InputBuffer.
Context {T : Type} `{IsBubble T}.
Implicit Types (ib : InputBuffer T).

(** [InputBuffer(name, data_name, capacity_)] *)
Definition newInputBuffer (capacity_ : Z) : InputBuffer T :=
  mkInputBuffer (newQueue capacity_) None.

(** [void setTail(ElemType &new_element)] *)
Definition setTail ib (new_element : T) : res (InputBuffer T) :=
  check (match elementPtr ib with None => true | Some _ => false end);
  Ok (if negb (isBubble new_element) then
        if Queue_empty (ibQueue ib) then mkInputBuffer (ibQueue ib) (Some new_element)
        else mkInputBuffer (Queue_push (ibQueue ib) new_element) (elementPtr ib)
      else ib).

(** [bool empty() const] *)
Definition IB_empty ib : bool :=
  match elementPtr ib with None => Queue_empty (ibQueue ib) | Some _ => false end.

(** [ElemType &front()] *)
Definition IB_front ib : res T :=
  match elementPtr ib with Some x => Ok x | None => Queue_front (ibQueue ib) end.

(** [void pop()] *)
Definition IB_pop ib : res (InputBuffer T) :=
  match elementPtr ib with
  | Some _ => Ok (mkInputBuffer (Queue_freeReservation (ibQueue ib)) None)
  | None => q ← Queue_pop (ibQueue ib); Ok (mkInputBuffer q None)
  end.

(** [void pushTail() const] *)
Definition pushTail ib : InputBuffer T :=
  mkInputBuffer
    (match elementPtr ib with Some x => Queue_push (ibQueue ib) x | None => ibQueue ib end) None.

(** [unsigned int unreservedRemainingSpace()] *)
Definition IB_unreservedRemainingSpace ib : Z * InputBuffer T :=
  let ib' := pushTail ib in (Queue_unreservedRemainingSpace (ibQueue ib'), ib').

#[export] Instance InputBuffer_Reservable : Reservable (InputBuffer T) := {|
  canReserve ib := canReserve (ibQueue ib);
  reserve ib := mkInputBuffer (reserve (ibQueue ib)) (elementPtr ib);
  freeReservation ib := mkInputBuffer (freeReservation (ibQueue ib)) (elementPtr ib);
|}.

(** The elements in the buffer, oldest first. *)
Definition contents ib : list T := option_list (elementPtr ib) ++ queue (ibQueue ib).

(** The operations on the contents, for a buffer whose tail is only unpushed
    when there is nothing in front of it. *)
Definition tail_ok ib : Prop := is_Some (elementPtr ib) → queue (ibQueue ib) = [].

Lemma tail_ok_none ib : elementPtr ib = None → tail_ok ib.
Proof. intros He. unfold tail_ok. rewrite He. by intros []. Qed.

Lemma IB_empty_contents ib : IB_empty ib = match contents ib with [] => true | _ => false end.
Proof. unfold IB_empty, contents, Queue_empty. by destruct (elementPtr ib). Qed.

Lemma IB_front_contents ib x r : contents ib = x :: r → IB_front ib = Ok x.
Proof.
  unfold IB_front, contents, Queue_front. destruct (elementPtr ib); cbn; [by intros [= <- _]|].
  by intros ->.
Qed.

Lemma IB_pop_contents ib x r : contents ib = x :: r → tail_ok ib →
  ∃ ib', IB_pop ib = Ok ib' ∧ contents ib' = r ∧ elementPtr ib' = None.
Proof.
  unfold IB_pop, contents, Queue_pop, tail_ok. destruct (elementPtr ib); cbn; intros Hc Hp.
  - injection Hc as _ Hr. eexists. by repeat split.
  - rewrite Hc. cbn. eexists. by repeat split.
Qed.

Lemma IB_front_inv ib x : IB_front ib = Ok x → ∃ r, contents ib = x :: r.
Proof.
  unfold IB_front, contents, Queue_front. destruct (elementPtr ib); [intros [= ->]; by eexists|].
  destruct (queue (ibQueue ib)); [done|]. intros [= ->]. by eexists.
Qed.

Lemma IB_pop_tail ib ib' x r : contents ib = x :: r → IB_pop ib = Ok ib' → contents ib' = r.
Proof.
  unfold IB_pop, contents, Queue_pop. destruct (elementPtr ib); cbn.
  - intros [= _ <-] [= <-]. done.
  - destruct (queue (ibQueue ib)); [done|]. intros [= _ <-] [= <-]. done.
Qed.

Lemma IB_pop_none ib ib' : IB_pop ib = Ok ib' → elementPtr ib' = None.
Proof. unfold IB_pop. destruct (elementPtr ib); [by intros [= <-]|]. destruct (Queue_pop _); [by intros [= <-]|done]. Qed.

Lemma setTail_contents ib x : elementPtr ib = None → isBubble x = false →
  ∃ ib', setTail ib x = Ok ib' ∧ tail_ok ib' ∧ contents ib' = contents ib ++ [x].
Proof.
  intros He Hx. unfold setTail, contents, tail_ok, Queue_empty. rewrite He. cbn [assert_ rbind]. rewrite Hx.
  destruct (queue (ibQueue ib)) as [|y q] eqn:Eq; cbn [negb]; eexists; (split; [done|]); cbn.
  - by rewrite Eq.
  - unfold Queue_push. rewrite Hx. cbn. rewrite Eq. split; [by intros []|done].
Qed.

Lemma pushTail_contents ib : tail_ok ib → (∀ x, elementPtr ib = Some x → isBubble x = false) →
  contents (pushTail ib) = contents ib.
Proof.
  unfold pushTail, contents, tail_ok. destruct (elementPtr ib) as [x|]; [|done]. cbn. intros Hq Hb.
  unfold Queue_push. rewrite (Hb x) by done. cbn. by rewrite Hq.
Qed.

(** ** The reservation protocol

    A history of one input buffer: the previous stage reserves a slot (only
    when [canReserve]) and later either delivers one element for it or gives
    the reservation up; the owner of the buffer takes elements off its head.
    [inFlight] counts the reservations that are still to be delivered. *)

Record ib_state := mkIbState {
  ib : InputBuffer T;
  inFlight : Z;
  arrived : list T;
  popped : list T;
}.

Inductive ib_step : ib_state → ib_state → Prop :=
| ib_reserve b n a p : canReserve b = true →
    ib_step (mkIbState b n a p) (mkIbState (reserve b) (n + 1) a p)
| ib_cancel b n a p : 0 < n →
    ib_step (mkIbState b n a p) (mkIbState (freeReservation b) (n - 1) a p)
| ib_arrive b b' n a p x : 0 < n → isBubble x = false → elementPtr b = None →
    setTail b x = Ok b' →
    ib_step (mkIbState b n a p) (mkIbState b' (n - 1) (a ++ [x]) p)
| ib_pop b b' n a p x : IB_front b = Ok x → IB_pop b = Ok b' →
    ib_step (mkIbState b n a p) (mkIbState b' n a (p ++ [x]))
| ib_pushTail b n a p :
    ib_step (mkIbState b n a p) (mkIbState (pushTail b) n a p).

Record ib_inv (cap : Z) (s : ib_state) : Prop := {
  ibi_cap : capacity (ibQueue (ib s)) = cap;
  ibi_ptr : is_Some (elementPtr (ib s)) → queue (ibQueue (ib s)) = [];
  ibi_bub : ∀ x, elementPtr (ib s) = Some x → isBubble x = false;
  ibi_res : numReservedSlots (ibQueue (ib s))
            = inFlight s + Z.of_nat (length (option_list (elementPtr (ib s))));
  ibi_inf : 0 ≤ inFlight s;
  ibi_room : 0 ≤ queue_room (ibQueue (ib s));
  ibi_fifo : arrived s = popped s ++ contents (ib s);
}.

Lemma ib_inv_ok cap s : ib_inv cap s → 0 ≤ cap < 2 ^ 31 → queue_ok (ibQueue (ib s)).
Proof.
  intros [<- _ _ Hres ? Hroom _] ?. unfold queue_room in *. split; lia.
Qed.

Lemma Queue_push_len (q : Queue T) x : isBubble x = false → queue (Queue_push q x) = queue q ++ [x].
Proof. intros Hx. unfold Queue_push. by rewrite Hx. Qed.

(** A delivered element takes one reserved slot. *)
Lemma Queue_push_take (q : Queue T) x : isBubble x = false → 0 < numReservedSlots q < 2 ^ 31 →
  numReservedSlots (Queue_push q x) = numReservedSlots q - 1
  ∧ capacity (Queue_push q x) = capacity q ∧ queue_room (Queue_push q x) = queue_room q.
Proof.
  intros Hx Hr. unfold Queue_push, queue_room. rewrite Hx. cbn.
  destruct (Z.eqb_spec (numReservedSlots q) 0); cbn; [lia|].
  rewrite u32_id, length_app by lia. cbn. lia.
Qed.

Lemma freeReservation_dec (q : Queue T) : 0 < numReservedSlots q < 2 ^ 31 →
  numReservedSlots (Queue_freeReservation q) = numReservedSlots q - 1.
Proof.
  intros Hr. cbn. destruct (Z.eqb_spec (numReservedSlots q) 0); cbn; [lia|]. apply u32_id. lia.
Qed.

Local Ltac ib_side := solve [by intros [? ?] | by intros ? [= <-]].

Lemma ib_step_inv cap s s' : 0 ≤ cap < 2 ^ 31 →
  ib_inv cap s → ib_step s s' → ib_inv cap s'.
Proof.
  intros Hcap Hi Hstep. pose proof (ib_inv_ok cap s Hi Hcap) as Hq.
  destruct Hi as [Hc Hp Hb Hres Hinf Hroom Hf].
  pose proof (qok_res _ Hq) as Hlt.
  destruct Hstep as [b n a p Hcan|b n a p Hn|b b' n a p x Hn Hx He Hset|b b' n a p x Hfr Hpop|b n a p];
    cbn in *.
  - apply canReserve_iff in Hcan; [|done|lia].
    unfold queue_room in *. split; cbn; unfold queue_room; cbn; rewrite ?u32_id by lia; lia || done.
  - pose proof (freeReservation_dec (ibQueue b)) as Hfree. cbn in Hfree.
    unfold queue_room in *. split; cbn; unfold queue_room; cbn; rewrite ?Hfree by lia; lia || done.
  - unfold setTail in Hset. rewrite He in *. cbn in Hset. rewrite Hx in Hset. cbn in *.
    unfold Queue_empty, contents in *. rewrite He in Hf. cbn in Hf.
    destruct (queue (ibQueue b)) as [|y l] eqn:Eq; injection Hset as <-.
    + split; cbn; rewrite ?Eq; try (done || lia || ib_side).
      by rewrite Hf, !app_nil_r.
    + destruct (Queue_push_take (ibQueue b) x) as (Hr & Hc' & Hroom'); [done|lia|].
      split; cbn; rewrite ?He; cbn; rewrite ?Hr, ?Hc', ?Hroom'; try (done || lia || ib_side).
      rewrite Hf, Queue_push_len, Eq by done. cbn.
      by rewrite <- app_assoc.
  - unfold IB_front, IB_pop, contents in *. destruct (elementPtr b) as [y|] eqn:Ee; cbn in *.
    + simplify_eq. rewrite Hp in * by done. pose proof (freeReservation_dec (ibQueue b)) as Hfree.
      cbn in Hfree. unfold queue_room in *. rewrite Hp in * by done.
      split; cbn; unfold queue_room; cbn; rewrite ?Hfree by lia; try (done || lia || ib_side).
      all: rewrite Hp by done; cbn; first [lia | by rewrite app_nil_r].
    + unfold Queue_front, Queue_pop in *. destruct (queue (ibQueue b)) as [|y l] eqn:Eq;
        [done|]. cbn in *. simplify_eq. unfold queue_room in *. rewrite Eq in Hroom. cbn in Hroom.
      split; cbn; unfold queue_room; cbn; try (done || lia || ib_side).
      by rewrite <- app_assoc.
  - unfold pushTail, contents in *. destruct (elementPtr b) as [y|] eqn:Ee; cbn in *.
    + specialize (Hb y eq_refl). specialize (Hp (mk_is_Some _ _ eq_refl)).
      destruct (Queue_push_take (ibQueue b) y) as (Hr & Hc' & Hroom'); [done|lia|].
      split; cbn; rewrite ?Hr, ?Hc', ?Hroom'; try (done || lia || ib_side).
      by rewrite Hf, Queue_push_len, Hp.
    + split; cbn; done.
Qed.

End InputBuffer.
Arguments ib_state T : clear implicits.

(** C37: under the reservation protocol a stage input buffer of capacity [cap]
    is a FIFO that loses nothing and is never over-full: in every reachable
    state the elements that arrived are the elements popped followed by the
    content of the buffer, and the occupied and reserved slots together stay
    within the capacity, so the code's "No space to push" case never arises. *)
Theorem inputbuffer_fifo_within_capacity {T} `{IsBubble T} (cap : Z) (s : ib_state T) :
  0 ≤ cap < 2 ^ 31 →
  rtc ib_step (mkIbState (newInputBuffer cap) 0 [] []) s →
  arrived s = popped s ++ contents (ib s)
  ∧ Z.of_nat (length (queue (ibQueue (ib s)))) + numReservedSlots (ibQueue (ib s)) ≤ cap
  ∧ Z.of_nat (length (contents (ib s))) + inFlight s ≤ cap.
Proof.
  intros Hcap Hrtc.
  assert (ib_inv cap s) as [<- Hp _ Hres _ Hroom Hf].
  { eapply rtc_invariant; [|done|].
    - intros ???. by apply ib_step_inv.
    - split; cbn; try (done || lia). unfold queue_room. cbn. lia. }
  unfold queue_room in Hroom. split; [done|]. split; [lia|].
  unfold contents. rewrite length_app. lia.
Qed.

Lemma inputbuffer_fifo_within_capacity_witness :
  ∃ s : ib_state (option Z),
    arrived s = popped s ++ contents (ib s)
    ∧ Z.of_nat (length (queue (ibQueue (ib s)))) + numReservedSlots (ibQueue (ib s)) ≤ 1
    ∧ Z.of_nat (length (contents (ib s))) + inFlight s ≤ 1.
Proof.
  exists (mkIbState (mkInputBuffer (mkQueue [Some 3] 0 1) None) 0 [Some 3] []).
  apply (inputbuffer_fifo_within_capacity 1); [lia|].
  eapply rtc_l; [apply ib_reserve; vm_compute; reflexivity|].
  eapply rtc_l; [eapply ib_arrive with (x := Some 3); [lia|done|done|vm_compute; reflexivity]|].
  eapply rtc_l; [apply ib_pushTail|]. apply rtc_refl.
Defined.
