(* ===== verification/Activity.v ===== *)
(** * The activity recorder (src/cpu/activity.cc, src/cpu/activity.hh,
    src/cpu/myminor/activity.hh)

    [ActivityRecorder] decides whether the CPU may stop its clock: it counts
    the stages that declare themselves active and the recent cycles in which
    some latch was written.  The state is the code's state; the specification
    is a function of the history of calls alone. *)
From S2P Require Import Prelude TimeBuf.

Record ActivityRecorder := mkActivityRecorder {
  activityBuffer : TimeBuffer bool;
  longestLatency : Z;
  activityCount : Z;
  numStages : Z;
  stageActive : list bool;
}.

(** [ActivityRecorder(name, num_stages, longest_latency, activity)] *)
Definition newActivityRecorder (num_stages longest_latency activity : Z)
  : res ActivityRecorder :=
  tb ← newTimeBuffer false longest_latency 0;
  Ok (mkActivityRecorder tb longest_latency activity num_stages
        (replicate (Z.to_nat num_stages) false)).

(** [void activity()] *)
Definition activity (ar : ActivityRecorder) : res ActivityRecorder :=
  b ← access (activityBuffer ar) 0;
  if (b : bool) then Ok ar
  else
    tb ← store (activityBuffer ar) 0 true;
    Ok (mkActivityRecorder tb (longestLatency ar) (i32 (activityCount ar + 1))
          (numStages ar) (stageActive ar)).

(** [void advance()] *)
Definition ar_advance (ar : ActivityRecorder) : res ActivityRecorder :=
  b ← access (activityBuffer ar) (- longestLatency ar);
  count ← (if (b : bool) then
             let c := i32 (activityCount ar - 1) in check (0 <=? c); Ok c
           else Ok (activityCount ar));
  tb ← advance false (activityBuffer ar);
  Ok (mkActivityRecorder tb (longestLatency ar) count (numStages ar) (stageActive ar)).

(** [void activateStage(const int idx)] *)
Definition activateStage (ar : ActivityRecorder) (idx : Z) : res ActivityRecorder :=
  b ← vget (stageActive ar) idx;
  if negb b then
    st ← vset (stageActive ar) idx true;
    Ok (mkActivityRecorder (activityBuffer ar) (longestLatency ar)
          (i32 (activityCount ar + 1)) (numStages ar) st)
  else Ok ar.

(** [void deactivateStage(const int idx)] *)
Definition deactivateStage (ar : ActivityRecorder) (idx : Z) : res ActivityRecorder :=
  b ← vget (stageActive ar) idx;
  ar' ← (if (b : bool) then
           st ← vset (stageActive ar) idx false;
           Ok (mkActivityRecorder (activityBuffer ar) (longestLatency ar)
                 (i32 (activityCount ar - 1)) (numStages ar) st)
         else Ok ar);
  check (0 <=? activityCount ar'); Ok ar'.

(** [void reset()] *)
Definition ar_reset (ar : ActivityRecorder) : res ActivityRecorder :=
  tb ← mfold (λ tb (_ : Z), advance false tb) (activityBuffer ar)
         (zrange 0 (longestLatency ar));
  Ok (mkActivityRecorder tb (longestLatency ar) 0 (numStages ar)
        (replicate (Z.to_nat (numStages ar)) false)).

(** [bool getStageActive(const int idx) const] *)
Definition getStageActive (ar : ActivityRecorder) (idx : Z) : res bool :=
  vget (stageActive ar) idx.

(** [bool active()] *)
Definition active (ar : ActivityRecorder) : bool := negb (activityCount ar =? 0).

(** [void validate()] *)
Definition validate (ar : ActivityRecorder) : res unit :=
  c1 ← mfold (λ count i, b ← access (activityBuffer ar) (- i);
                Ok (if (b : bool) then i32 (count + 1) else count))
         0 (zrange 0 (longestLatency ar));
  c2 ← mfold (λ count i, b ← vget (stageActive ar) i;
                Ok (if (b : bool) then i32 (count + 1) else count))
         c1 (zrange 0 (numStages ar - 1));
  check (c2 =? activityCount ar); Ok tt.

(** ** The counting invariant *)

(** The recorded cycles, the current one first. *)
Definition ar_line (ar : ActivityRecorder) : list bool := line false (activityBuffer ar).

Record ar_wf (n L : Z) (ar : ActivityRecorder) : Prop := {
  ar_tb : wf (activityBuffer ar);
  ar_past : past (activityBuffer ar) = L;
  ar_future : future (activityBuffer ar) = 0;
  ar_lat : longestLatency ar = L;
  ar_stages : numStages ar = n;
  ar_len : Z.of_nat (length (stageActive ar)) = n;
  ar_count : activityCount ar = countb id (ar_line ar) + countb id (stageActive ar);
}.

Section ActivityRecorder.
Context (n L : Z) (Hn : 0 ≤ n < 2 ^ 29) (HL : 0 ≤ L < 2 ^ 29).
Implicit Types ar : ActivityRecorder.

Lemma ar_line_len ar : ar_wf n L ar → length (ar_line ar) = Z.to_nat (L + 1).
Proof.
  intros [Htb Hp Hf _ _ _ _]. unfold ar_line. rewrite line_length.
  destruct Htb as [_ _ -> _ _ _]. by rewrite Hp, Hf, Z.add_0_r.
Qed.

Lemma ar_count_bounds ar : ar_wf n L ar →
  0 ≤ countb id (ar_line ar) ≤ L + 1 ∧ 0 ≤ countb id (stageActive ar) ≤ n.
Proof.
  intros H. pose proof (ar_line_len ar H) as Hl. destruct H.
  pose proof (countb_nonneg id (ar_line ar)). pose proof (countb_le_length id (ar_line ar)).
  pose proof (countb_nonneg id (stageActive ar)).
  pose proof (countb_le_length id (stageActive ar)). lia.
Qed.

Lemma ar_access ar i : ar_wf n L ar → 0 ≤ i ≤ L →
  ∃ b, access (activityBuffer ar) (- i) = Ok b ∧ ar_line ar !! Z.to_nat i = Some b.
Proof.
  intros [Htb Hp Hf _ _ _ _] Hi.
  destruct (access_line false (activityBuffer ar) (- i)) as (b & Hb & Hl); [done|lia|].
  exists b. split; [done|]. unfold pos in Hl. rewrite Hf in Hl.
  by replace (0 - - i) with i in Hl by lia.
Qed.

Lemma newActivityRecorder_Ok :
  ∃ ar, newActivityRecorder n L 0 = Ok ar ∧ ar_wf n L ar
    ∧ ar_line ar = replicate (Z.to_nat (L + 1)) false
    ∧ stageActive ar = replicate (Z.to_nat n) false.
Proof.
  destruct (newTimeBuffer_Ok false L 0) as (tb & Htb & Hwf & Hp & Hf & Hl); [lia..|].
  unfold newActivityRecorder. rewrite Htb. cbn. eexists. split; [done|].
  rewrite Z.add_0_r in Hl. unfold ar_line. cbn. split; [|done].
  split; cbn; try done; [rewrite length_replicate; lia|].
  unfold ar_line. cbn. by rewrite Hl, !countb_replicate_false.
Qed.

Lemma activity_Ok ar : ar_wf n L ar →
  ∃ ar', activity ar = Ok ar' ∧ ar_wf n L ar'
    ∧ ar_line ar' = <[0%nat := true]> (ar_line ar) ∧ stageActive ar' = stageActive ar.
Proof.
  intros H. pose proof (ar_count_bounds ar H) as Hb.
  destruct (ar_access ar 0) as (b & Hacc & Hl); [done|lia|]. change (- 0) with 0 in Hacc.
  unfold activity. rewrite Hacc. cbn [rbind]. destruct b.
  { exists ar. by rewrite list_insert_id. }
  destruct H as [Htb Hp Hf HLat Hns Hlen Hc].
  destruct (store_Ok false (activityBuffer ar) 0 true) as (tb & -> & Hwf' & Hl' & Hp' & Hf' & _);
    [done|lia|]. cbn [rbind].
  unfold pos in Hl'. rewrite Hf in Hl'. change (Z.to_nat (0 - 0)) with 0%nat in *.
  change (Z.to_nat 0) with 0%nat in *.
  eexists. split; [done|]. unfold ar_line in *. cbn. split; [|done].
  split; cbn; try (done || lia). unfold ar_line. cbn. rewrite Hl'.
  rewrite (countb_insert _ _ _ _ _ Hl). cbn [b2z id]. rewrite i32_id; lia.
Qed.

Lemma ar_advance_Ok ar : ar_wf n L ar →
  ∃ ar', ar_advance ar = Ok ar' ∧ ar_wf n L ar'
    ∧ ar_line ar' = shift false (ar_line ar) ∧ stageActive ar' = stageActive ar.
Proof.
  intros H. pose proof (ar_count_bounds ar H) as Hb. pose proof (ar_line_len ar H) as Hlen'.
  destruct (ar_access ar L) as (b & Hacc & Hl); [done|lia|].
  destruct H as [Htb Hp Hf HLat Hns Hlen Hc]. unfold ar_advance. rewrite HLat, Hacc. cbn [rbind].
  assert (last (ar_line ar) = Some b) as Hlast.
  { rewrite last_lookup, Hlen'. by replace (pred (Z.to_nat (L + 1))) with (Z.to_nat L) by lia. }
  assert (b2z b ≤ countb id (ar_line ar)) as Hpos.
  { destruct b; cbn [b2z]; [|lia]. enough (0 < countb id (ar_line ar)) by lia.
    apply countb_pos. by exists (Z.to_nat L), true. }
  destruct (advance_Ok false (activityBuffer ar)) as (tb & Htb' & Hwf' & Hl' & Hp' & Hf' & _); [done|].
  assert ((if b then check (0 <=? i32 (activityCount ar - 1)); Ok (i32 (activityCount ar - 1))
           else Ok (activityCount ar)) = Ok (activityCount ar - b2z b)) as ->.
  { destruct b; cbn [b2z] in *; [|f_equal; lia]. rewrite i32_id by lia.
    rewrite assert_true by (apply Z.leb_le; lia). done. }
  cbn [rbind]. rewrite Htb'. cbn [rbind]. eexists. split; [done|].
  unfold ar_line in *. cbn. split; [|done]. split; cbn; try (done || lia).
  unfold ar_line. cbn. rewrite Hl'. unfold shift.
  rewrite countb_cons, (countb_removelast _ _ _ Hlast). cbn [b2z id]. lia.
Qed.

Lemma activateStage_Ok ar i : ar_wf n L ar → 0 ≤ i < n →
  ∃ ar', activateStage ar i = Ok ar' ∧ ar_wf n L ar'
    ∧ ar_line ar' = ar_line ar ∧ stageActive ar' = <[Z.to_nat i := true]> (stageActive ar).
Proof.
  intros H Hi. pose proof (ar_count_bounds ar H) as Hb.
  destruct H as [Htb Hp Hf HLat Hns Hlen Hc].
  destruct (vget_lt (stageActive ar) i) as (b & Hb'); [lia|].
  unfold activateStage. rewrite Hb'. cbn [rbind]. apply vget_Ok in Hb' as [_ Hl].
  destruct b; cbn [negb]. { exists ar. by rewrite list_insert_id. }
  rewrite vset_lt by lia. cbn [rbind]. eexists. split; [done|]. unfold ar_line. cbn.
  split; [|done]. split; cbn; rewrite ?length_insert; try (done || lia).
  unfold ar_line in *. cbn. rewrite (countb_insert _ _ _ _ _ Hl). cbn [b2z id].
  rewrite i32_id; lia.
Qed.

Lemma deactivateStage_Ok ar i : ar_wf n L ar → 0 ≤ i < n →
  ∃ ar', deactivateStage ar i = Ok ar' ∧ ar_wf n L ar'
    ∧ ar_line ar' = ar_line ar ∧ stageActive ar' = <[Z.to_nat i := false]> (stageActive ar).
Proof.
  intros H Hi. pose proof (ar_count_bounds ar H) as Hb.
  destruct H as [Htb Hp Hf HLat Hns Hlen Hc].
  destruct (vget_lt (stageActive ar) i) as (b & Hb'); [lia|].
  unfold deactivateStage. rewrite Hb'. cbn [rbind]. apply vget_Ok in Hb' as [_ Hl].
  destruct b.
  2:{ cbn [rbind]. rewrite assert_true by (apply Z.leb_le; lia).
      exists ar. by rewrite list_insert_id. }
  assert (0 < countb id (stageActive ar)) by (apply countb_pos; by exists (Z.to_nat i), true).
  rewrite vset_lt by lia. cbn [rbind]. rewrite i32_id by lia. cbn [activityCount].
  rewrite assert_true by (apply Z.leb_le; lia). cbn [rbind]. eexists. split; [done|].
  unfold ar_line. cbn. split; [|done]. split; cbn; rewrite ?length_insert; try (done || lia).
  unfold ar_line in *. cbn. rewrite (countb_insert _ _ _ _ _ Hl). cbn [b2z id]. lia.
Qed.

(** [k] advances leave [k] idle cycles in front of the recorded ones. *)
Lemma advance_many (ks : list Z) tb : wf tb → (length ks ≤ Z.to_nat (size tb))%nat →
  ∃ tb', mfold (λ tb (_ : Z), advance false tb) tb ks = Ok tb' ∧ wf tb'
    ∧ past tb' = past tb ∧ future tb' = future tb ∧ size tb' = size tb
    ∧ line false tb' = replicate (length ks) false
                       ++ take (Z.to_nat (size tb) - length ks) (line false tb).
Proof.
  revert tb. induction ks as [|k ks IH] using rev_ind; intros tb Hwf Hlen.
  { exists tb. cbn. rewrite take_ge by (rewrite line_length; lia). done. }
  rewrite length_app in *. cbn [length] in *.
  destruct (IH tb) as (tb1 & Hm & Hwf1 & Hp1 & Hf1 & Hs1 & Hl1); [done|lia|].
  destruct (advance_Ok false tb1) as (tb2 & Ha & Hwf2 & Hl2 & Hp2 & Hf2 & Hs2); [done|].
  exists tb2. rewrite mfold_app, Hm. cbn. rewrite Ha. cbn.
  split; [done|]. split; [done|]. rewrite Hp2, Hf2, Hs2, Hl2, Hl1.
  repeat (split; [done|]). unfold shift.
  rewrite removelast_firstn_len, length_app, length_replicate, length_take, line_length.
  rewrite firstn_app, length_replicate.
  rewrite (firstn_all2 (replicate _ _)) by (rewrite length_replicate; lia).
  change firstn with (@take bool). rewrite take_take.
  replace (length ks + 1)%nat with (S (length ks)) by lia. cbn. do 2 f_equal. f_equal. lia.
Qed.

Lemma ar_reset_Ok ar : ar_wf n L ar →
  ∃ ar', ar_reset ar = Ok ar' ∧ ar_wf n L ar'
    ∧ ar_line ar' = replicate (Z.to_nat (L + 1)) false
    ∧ stageActive ar' = replicate (Z.to_nat n) false.
Proof.
  intros [Htb Hp Hf HLat Hns Hlen Hc]. unfold ar_reset. rewrite HLat, Hns.
  pose proof (wf_size _ Htb) as Hs.
  destruct (advance_many (zrange 0 L) (activityBuffer ar))
    as (tb & -> & Hwf & Hp' & Hf' & Hs' & Hl); [done|rewrite zrange_length; lia|].
  cbn [rbind]. eexists. split; [done|]. rewrite zrange_length in Hl.
  replace (Z.to_nat (size (activityBuffer ar)) - Z.to_nat (L - 0 + 1))%nat with 0%nat in Hl by lia.
  rewrite take_0, app_nil_r in Hl. replace (L - 0 + 1) with (L + 1) in Hl by lia.
  unfold ar_line. cbn. split; [|done]. split; cbn; rewrite ?length_replicate; try (done || lia).
  unfold ar_line. cbn. by rewrite Hl, !countb_replicate_false.
Qed.

(** The counting loops of [validate]. *)
Lemma count_loop (get : Z → res bool) (l : list bool) c :
  (∀ i b, l !! i = Some b → get (Z.of_nat i) = Ok b) →
  0 ≤ c → c + Z.of_nat (length l) < 2 ^ 31 →
  mfold (λ count i, b ← get i; Ok (if (b : bool) then i32 (count + 1) else count))
    c (zrange 0 (Z.of_nat (length l) - 1)) = Ok (c + countb id l).
Proof.
  induction l as [|x l IH] using rev_ind; intros Hget Hc Hb.
  { rewrite countb_nil, Z.add_0_r, zrange_nil by (cbn; lia). done. }
  rewrite length_app in *. cbn [length] in *. rewrite zrange_snoc, mfold_app by lia.
  replace (Z.of_nat (length l + 1) - 1 - 1) with (Z.of_nat (length l) - 1) by lia.
  replace (Z.of_nat (length l + 1) - 1) with (Z.of_nat (length l)) by lia.
  rewrite IH; [|intros; apply Hget; by apply lookup_app_l_Some|done|lia]. cbn.
  rewrite (Hget (length l) x) by (by rewrite list_lookup_middle). cbn.
  rewrite countb_app, countb_cons, countb_nil.
  pose proof (countb_nonneg id l). pose proof (countb_le_length id l).
  destruct x; cbn [b2z id]; rewrite ?i32_id by lia; f_equal; lia.
Qed.

Lemma validate_Ok ar : ar_wf n L ar → validate ar = Ok tt.
Proof.
  intros H. pose proof (ar_count_bounds ar H). pose proof (ar_line_len ar H) as Hl.
  pose proof (ar_access ar) as Hacc.
  unfold validate. rewrite (ar_lat _ _ _ H), (ar_stages _ _ _ H).
  replace L with (Z.of_nat (length (ar_line ar)) - 1) at 1 by lia.
  rewrite (count_loop (λ i, access (activityBuffer ar) (- i)));
    [|intros i b Hi|lia|lia].
  2:{ assert (i < length (ar_line ar))%nat by (by apply lookup_lt_Some in Hi).
      destruct (Hacc (Z.of_nat i)) as (b' & -> & Hb'); [done|lia|].
      rewrite Nat2Z.id in Hb'. congruence. }
  cbn [rbind]. rewrite <- (ar_len _ _ _ H).
  rewrite (count_loop (vget (stageActive ar)));
    [|intros i b Hi; apply vget_Ok; rewrite Nat2Z.id; split; [lia|done]
     |lia|rewrite (ar_len _ _ _ H); lia].
  cbn [rbind]. rewrite (ar_count _ _ _ H). by rewrite assert_true by (apply Z.eqb_eq; lia).
Qed.
End ActivityRecorder.

(** A recorder to evaluate with: six stages, latency three. *)
Definition idleRecorder : ActivityRecorder :=
  match newActivityRecorder 6 3 0 with
  | Ok ar => ar
  | Stop _ => mkActivityRecorder (mkTimeBuffer 0 0 0 [] 0) 0 0 0 []
  end.

Lemma idleRecorder_wf : ar_wf 6 3 idleRecorder.
Proof.
  destruct (newActivityRecorder_Ok 6 3) as (ar & H & Hwf & _); [lia|lia|].
  unfold idleRecorder. by rewrite H.
Qed.

(** ** Histories *)

Inductive ar_op := ArActivity | ArAdvance | ArActivate (idx : Z) | ArDeactivate (idx : Z) | ArReset.

Definition ar_step (ar : ActivityRecorder) (op : ar_op) : res ActivityRecorder :=
  match op with
  | ArActivity => activity ar
  | ArAdvance => ar_advance ar
  | ArActivate i => activateStage ar i
  | ArDeactivate i => deactivateStage ar i
  | ArReset => ar_reset ar
  end.

Definition ar_op_valid (n : Z) (op : ar_op) : Prop :=
  match op with ArActivate i | ArDeactivate i => 0 ≤ i < n | _ => True end.

(** Cycles since the last [activity()], from the history alone. *)
Definition since_step (k : option Z) (op : ar_op) : option Z :=
  match op with
  | ArActivity => Some 0
  | ArAdvance => Z.succ <$> k
  | ArReset => None
  | _ => k
  end.

(** Is stage [i] switched on, from the history alone. *)
Definition stage_step (i : Z) (b : bool) (op : ar_op) : bool :=
  match op with
  | ArActivate j => if j =? i then true else b
  | ArDeactivate j => if j =? i then false else b
  | ArReset => false
  | _ => b
  end.

Definition since (ops : list ar_op) : option Z := fold_left since_step ops None.
Definition stage_on (i : Z) (ops : list ar_op) : bool := fold_left (stage_step i) ops false.

(** Slot [j] of the buffer is set only when [activity()] happened within [j]
    cycles, and the slot of the last [activity()] is set. *)
Definition since_ok (L : Z) (k : option Z) (l : list bool) : Prop :=
  (∀ j, l !! j = Some true → ∃ s, k = Some s ∧ 0 ≤ s ≤ Z.of_nat j)
  ∧ (∀ s, k = Some s → 0 ≤ s ∧ (s ≤ L → l !! Z.to_nat s = Some true)).

Definition stages_ok (n : Z) (on : Z → bool) (l : list bool) : Prop :=
  ∀ i, 0 ≤ i < n → l !! Z.to_nat i = Some (on i).

Lemma since_ok_replicate L : since_ok L None (replicate (Z.to_nat (L + 1)) false).
Proof. split; [|done]. by intros j [[= ] _]%lookup_replicate. Qed.

Lemma since_ok_activity L k l : (0 < length l)%nat → since_ok L k l →
  since_ok L (Some 0) (<[0%nat := true]> l).
Proof.
  intros Hl _. split.
  - intros j _. exists 0. split; [done|lia].
  - intros s [= <-]. split; [done|]. intros _. by apply list_lookup_insert_eq.
Qed.

Lemma since_ok_shift L k l : Z.of_nat (length l) = L + 1 → since_ok L k l →
  since_ok L (Z.succ <$> k) (shift false l).
Proof.
  intros Hl [H1 H2]. unfold shift. rewrite removelast_firstn_len. split.
  - intros [|j] Hj; [done|]. change (take (pred (length l)) l !! j = Some true) in Hj.
    apply lookup_take_Some in Hj as [Hj _]. destruct (H1 j Hj) as (s & -> & ?).
    exists (Z.succ s). split; [done|lia].
  - intros s Hs. destruct k as [s'|]; [|done]. cbn in Hs. injection Hs as <-.
    destruct (H2 s' eq_refl) as [? H3]. split; [lia|]. intros ?.
    replace (Z.to_nat (Z.succ s')) with (S (Z.to_nat s')) by lia.
    change (take (pred (length l)) l !! Z.to_nat s' = Some true).
    rewrite lookup_take_lt by lia. apply H3. lia.
Qed.

Lemma stages_ok_insert n on l i b : Z.of_nat (length l) = n → 0 ≤ i < n →
  stages_ok n on l → stages_ok n (λ j, if i =? j then b else on j) (<[Z.to_nat i := b]> l).
Proof.
  intros Hl Hi H j Hj. destruct (Z.eqb_spec i j) as [->|Hne].
  - apply list_lookup_insert_eq. lia.
  - rewrite list_lookup_insert_ne by lia. by apply H.
Qed.

Lemma ar_step_Ok n L ar op k on : 0 ≤ n < 2 ^ 29 → 0 ≤ L < 2 ^ 29 →
  ar_op_valid n op → ar_wf n L ar →
  since_ok L k (ar_line ar) → stages_ok n on (stageActive ar) →
  ∃ ar', ar_step ar op = Ok ar' ∧ ar_wf n L ar'
    ∧ since_ok L (since_step k op) (ar_line ar')
    ∧ stages_ok n (λ i, stage_step i (on i) op) (stageActive ar').
Proof.
  intros Hn HL Hv Hwf Hs Hst. pose proof (ar_line_len _ _ _ Hwf) as Hll.
  pose proof (ar_len _ _ _ Hwf) as Hlen. destruct op as [| |i|i|]; cbn in *.
  - destruct (activity_Ok n L Hn HL ar Hwf) as (ar' & -> & ? & Hl & Hg).
    exists ar'. rewrite Hl, Hg. repeat (split; [done|]). split; [|done]. apply (since_ok_activity L k); [lia|done].
  - destruct (ar_advance_Ok n L Hn HL ar Hwf) as (ar' & -> & ? & Hl & Hg).
    exists ar'. rewrite Hl, Hg. repeat (split; [done|]). split; [|done]. apply since_ok_shift; [lia|done].
  - destruct (activateStage_Ok n L Hn HL ar i Hwf Hv) as (ar' & -> & ? & Hl & Hg).
    exists ar'. rewrite Hl, Hg. repeat (split; [done|]). by apply stages_ok_insert.
  - destruct (deactivateStage_Ok n L Hn HL ar i Hwf Hv) as (ar' & -> & ? & Hl & Hg).
    exists ar'. rewrite Hl, Hg. repeat (split; [done|]). by apply stages_ok_insert.
  - destruct (ar_reset_Ok n L HL ar Hwf) as (ar' & -> & ? & Hl & Hg).
    exists ar'. rewrite Hl, Hg. repeat (split; [done|]). split; [apply since_ok_replicate|].
    intros i Hi. apply lookup_replicate_2. lia.
Qed.

Lemma ar_run_Ok n L ops : 0 ≤ n < 2 ^ 29 → 0 ≤ L < 2 ^ 29 →
  Forall (ar_op_valid n) ops →
  ∃ ar, (ar0 ← newActivityRecorder n L 0; mfold ar_step ar0 ops) = Ok ar ∧ ar_wf n L ar
    ∧ since_ok L (since ops) (ar_line ar)
    ∧ stages_ok n (λ i, stage_on i ops) (stageActive ar).
Proof.
  intros Hn HL. induction ops as [|op ops IH] using rev_ind; intros Hv.
  - destruct (newActivityRecorder_Ok n L Hn HL) as (ar & -> & ? & Hl & Hst).
    exists ar. cbn [rbind mfold]. split; [done|]. split; [done|]. rewrite Hl, Hst.
    split; [apply since_ok_replicate|]. intros i Hi. apply lookup_replicate_2. lia.
  - apply Forall_app in Hv as [Hv Hop]. inversion_clear Hop as [|?? Hop1 _].
    destruct (IH Hv) as (ar & Hrun & Hwf & Hs & Hst). apply bind_Ok in Hrun as (ar0 & -> & Hrun).
    cbn [rbind]. rewrite mfold_app, Hrun. cbn [rbind mfold].
    destruct (ar_step_Ok n L ar op _ _ Hn HL Hop1 Hwf Hs Hst) as (ar' & -> & ? & ? & Hst').
    exists ar'. cbn [rbind]. unfold since, stage_on. rewrite fold_left_app. cbn.
    repeat (split; [done|]). intros i Hi. rewrite fold_left_app. by apply Hst'.
Qed.

Lemma active_iff n L ar k on : ar_wf n L ar →
  since_ok L k (ar_line ar) → stages_ok n on (stageActive ar) →
  active ar = true ↔
    (∃ i, 0 ≤ i < n ∧ on i = true) ∨ (∃ s, k = Some s ∧ s ≤ L).
Proof.
  intros Hwf [Hs1 Hs2] Hst. pose proof (ar_line_len _ _ _ Hwf) as Hll.
  unfold active. rewrite negb_true_iff, Z.eqb_neq, (ar_count _ _ _ Hwf).
  pose proof (countb_nonneg id (ar_line ar)). pose proof (countb_nonneg id (stageActive ar)).
  pose proof (ar_len _ _ _ Hwf) as Hlen. split.
  - intros Hne. destruct (decide (0 < countb id (stageActive ar))) as [Hp|Hp].
    + left. apply countb_pos in Hp as (i & b & Hi & Hb). cbn in Hb. subst b.
      pose proof (lookup_lt_Some _ _ _ Hi). exists (Z.of_nat i). split; [lia|].
      specialize (Hst (Z.of_nat i)). rewrite Nat2Z.id, Hi in Hst.
      assert (Some true = Some (on (Z.of_nat i))) as [= <-] by (apply Hst; lia). done.
    + right. assert (0 < countb id (ar_line ar)) as Hp' by lia.
      apply countb_pos in Hp' as (j & b & Hj & Hb). cbn in Hb. subst b.
      pose proof (lookup_lt_Some _ _ _ Hj). destruct (Hs1 j Hj) as (s & -> & ?).
      exists s. split; [done|lia].
  - intros [(i & Hi & Hon)|(s & -> & Hs)].
    + enough (0 < countb id (stageActive ar)) by lia. apply countb_pos.
      exists (Z.to_nat i), true. split; [|done]. rewrite <- Hon. by apply Hst.
    + enough (0 < countb id (ar_line ar)) by lia. apply countb_pos.
      destruct (Hs2 s eq_refl) as [? H3]. exists (Z.to_nat s), true. split; [|done]. by apply H3.
Qed.

(** for every history of calls with stage numbers in range, no assertion
    of the activity recorder fails, the code's own consistency check
    [validate] passes, and the recorder answers [active()] exactly when some
    stage is switched on or [activity()] was called within the last
    [longest_latency] cycles. *)
Theorem activity_recorder_exact (n L : Z) (ops : list ar_op) :
  0 ≤ n < 2 ^ 29 → 0 ≤ L < 2 ^ 29 → Forall (ar_op_valid n) ops →
  ∃ ar, (ar0 ← newActivityRecorder n L 0; mfold ar_step ar0 ops) = Ok ar
    ∧ validate ar = Ok tt
    ∧ (active ar = true ↔
         (∃ i, 0 ≤ i < n ∧ stage_on i ops = true) ∨ (∃ s, since ops = Some s ∧ s ≤ L)).
Proof.
  intros Hn HL Hv. destruct (ar_run_Ok n L ops Hn HL Hv) as (ar & Hrun & Hwf & Hs & Hst).
  exists ar. split; [done|]. split; [by apply (validate_Ok n L)|].
  by apply (active_iff n L ar (since ops) (λ i, stage_on i ops)).
Qed.

Lemma activity_recorder_exact_witness :
  let ops := [ArActivity; ArAdvance; ArActivate 1; ArAdvance; ArDeactivate 1; ArAdvance] in
  ∃ ar, (ar0 ← newActivityRecorder 2 3 0; mfold ar_step ar0 ops) = Ok ar
    ∧ validate ar = Ok tt
    ∧ (active ar = true ↔
         (∃ i, 0 ≤ i < 2 ∧ stage_on i ops = true) ∨ (∃ s, since ops = Some s ∧ s ≤ 3)).
Proof.
  intros ops. apply (activity_recorder_exact 2 3 ops); [lia|lia|].
  repeat constructor; cbn; lia.
Defined.
