(* ===== verification/LVPT.v ===== *)
(** * The load value prediction table (src/cpu/myminor/LVPT.cc, LVPT.hh)

    [LVPT] holds a direct-mapped table of (tag, address, value) entries and a
    smaller table of saturating confidence counters (the load classification
    table).  [updateTable] and [read] are modelled on 64-bit program counters
    with the masks and shifts of the code.  The specification computes the
    answer of [read] from the history of updates alone.

    [log2(tableSize)] is the floating-point function truncated to an integer;
    on the 32-bit table sizes it is [Z.log2]. *)
From S2P Require Import Prelude.

(** ** Data *)

(** [struct tableEntry] *)
Record lvptEntry := mkLvptEntry {
  leValid : bool;
  leTag : Z;
  leAddr : Z;
  leValue : Z;
}.

(** the entries made by [valueTable.resize(tableSize)] *)
Definition lvptEntry0 : lvptEntry := mkLvptEntry false 0 0 0.

(** The counters of [cpu.stats] that the table writes. *)
Record LvptStats := mkLvptStats {
  lvptCorrectPred : Z;
  lvptInCorrectPred : Z;
  lvptTableAdditions : Z;
}.

Record LVPT := mkLVPT {
  tableSize : Z;
  threshold : Z;
  maxValue : Z;
  valueTable : list lvptEntry;
  predictTable : list Z;
  lvptStats : LvptStats;
}.

(** [struct lvptData] with the extra outputs of [read] *)
Record lvptData := mkLvptData {
  outDataPredict : bool;
  outDataConstant : bool;
  outDataValue : Z;
  outDataPC : Z;
  outDataIndex : Z;
  outDataAddr : Z;
  outDataCounter : Z;
}.

#[export] Instance lvptEntry_eq_dec : EqDecision lvptEntry.
Proof. solve_decision. Defined.
#[export] Instance lvptData_eq_dec : EqDecision lvptData.
Proof. solve_decision. Defined.

(** ** Operations *)

(** [LVPT(params, cpu)]; [fatal] when the threshold cannot be reached *)
Definition newLVPT (tableSizeLVPT thresholdLCT maxValueLCT : Z) : res LVPT :=
  if maxValueLCT <? thresholdLCT then Stop Fatal
  else Ok (mkLVPT tableSizeLVPT thresholdLCT maxValueLCT
             (replicate (Z.to_nat tableSizeLVPT) lvptEntry0)
             (replicate (Z.to_nat (tableSizeLVPT / 4)) 0) (mkLvptStats 0 0 0)).

(** The local variables [indexMask], [index], [indexLCT] and [tag] of both
    operations; [0x1 << numIndexBits] is an [int]. *)
Definition indexMask (size : Z) : Z := u64 (i32 (i32 (Z.shiftl 1 (Z.log2 size)) - 1)).
Definition lvptIndex (size pc : Z) : Z := Z.land pc (indexMask size).
Definition indexLCT (size pc : Z) : Z := Z.shiftr (Z.land pc (indexMask size)) 2.
Definition lvptTag (size pc : Z) : Z := Z.land pc (u64 (Z.lnot (indexMask size))).

(** [void updateTable(data, addr, pc, predict, constant)] *)
Definition updateTable (t : LVPT) (data addr pc : Z) (predict constant : bool) : res LVPT :=
  let index := lvptIndex (tableSize t) pc in
  let ilct := indexLCT (tableSize t) pc in
  let tag := lvptTag (tableSize t) pc in
  entry ← vget (valueTable t) index;
  prediction ← vget (predictTable t) ilct;
  if constant : bool then
    if negb predict then
      pt ← vset (predictTable t) ilct (if prediction =? 0 then 0 else u32 (prediction - 1));
      old ← vget (valueTable t) index;
      let additions :=
        if negb (leTag old =? tag) || negb (leValid old) then 1 else 0 in
      vt ← vset (valueTable t) index (mkLvptEntry true tag addr data);
      Ok (mkLVPT (tableSize t) (threshold t) (maxValue t) vt pt
            (mkLvptStats (lvptCorrectPred (lvptStats t))
                         (lvptInCorrectPred (lvptStats t) + 1)
                         (lvptTableAdditions (lvptStats t) + additions)))
    else
      pt ← vset (predictTable t) ilct
             (if maxValue t <=? prediction then prediction else u32 (prediction + 1));
      Ok (mkLVPT (tableSize t) (threshold t) (maxValue t) (valueTable t) pt
            (mkLvptStats (lvptCorrectPred (lvptStats t) + 1)
                         (lvptInCorrectPred (lvptStats t))
                         (lvptTableAdditions (lvptStats t))))
  else Ok t.

(** [void read(pc, outDataPredict, ...)] *)
Definition read (t : LVPT) (pc : Z) : res lvptData :=
  let index := lvptIndex (tableSize t) pc in
  let ilct := indexLCT (tableSize t) pc in
  let tag := lvptTag (tableSize t) pc in
  entry ← vget (valueTable t) index;
  predict ← vget (predictTable t) ilct;
  Ok (if leValid entry && (leTag entry =? tag) then
        mkLvptData true (threshold t <=? predict) (leValue entry) pc index (leAddr entry) predict
      else mkLvptData false false 0 0 0 0 0).

(** ** Index arithmetic *)

Section index.
Context (size : Z) (Hsize : 4 ≤ size < 2 ^ 31).

Lemma log2_bounds : 2 ≤ Z.log2 size ≤ 30.
Proof.
  split; [apply (Z.log2_le_mono 4); lia|].
  enough (Z.log2 size < 31) by lia. apply Z.log2_lt_pow2; lia.
Qed.

Lemma indexMask_ones : indexMask size = Z.ones (Z.log2 size).
Proof.
  pose proof log2_bounds. unfold indexMask. rewrite Z.shiftl_1_l.
  assert (2 ^ 2 ≤ 2 ^ Z.log2 size) by (apply Z.pow_le_mono_r; lia).
  assert (2 ^ Z.log2 size ≤ 2 ^ 30) by (apply Z.pow_le_mono_r; lia).
  rewrite (i32_id (2 ^ Z.log2 size)), i32_id, u64_id by lia. by rewrite Z.ones_equiv.
Qed.

Lemma lvptIndex_mod pc : lvptIndex size pc = pc `mod` 2 ^ Z.log2 size.
Proof.
  unfold lvptIndex. rewrite indexMask_ones. apply Z.land_ones. pose proof log2_bounds. lia.
Qed.

Lemma lvptIndex_range pc : 0 ≤ lvptIndex size pc < size.
Proof.
  rewrite lvptIndex_mod. pose proof log2_bounds.
  pose proof (Z.mod_pos_bound pc (2 ^ Z.log2 size)). pose proof (Z.log2_spec size). lia.
Qed.

Lemma indexLCT_div pc : indexLCT size pc = lvptIndex size pc / 4.
Proof. unfold indexLCT. by rewrite Z.shiftr_div_pow2. Qed.

Lemma indexLCT_range pc : 0 ≤ indexLCT size pc < size / 4.
Proof.
  rewrite indexLCT_div, lvptIndex_mod. pose proof log2_bounds.
  pose proof (Z.mod_pos_bound pc (2 ^ Z.log2 size)). pose proof (Z.log2_spec size).
  replace (2 ^ Z.log2 size) with (4 * 2 ^ (Z.log2 size - 2)) in *
    by (change 4 with (2 ^ 2); rewrite <- Z.pow_add_r by lia; f_equal; lia).
  split; [apply Z.div_pos; lia|]. apply Z.lt_le_trans with (2 ^ (Z.log2 size - 2)).
  - apply Z.div_lt_upper_bound; lia.
  - apply Z.div_le_lower_bound; lia.
Qed.

Lemma lvptTag_ldiff pc : 0 ≤ pc < 2 ^ 64 → lvptTag size pc = Z.ldiff pc (indexMask size).
Proof.
  intros Hpc. unfold lvptTag, u64. rewrite <- Z.land_ones by lia.
  rewrite (Z.land_comm (Z.lnot _)), Z.land_assoc, Z.land_ones, Z.mod_small by lia.
  by rewrite Z.ldiff_land.
Qed.

(** The index and the tag together are the whole program counter. *)
Lemma index_tag_inj pc pc' : 0 ≤ pc < 2 ^ 64 → 0 ≤ pc' < 2 ^ 64 →
  lvptIndex size pc = lvptIndex size pc' → lvptTag size pc = lvptTag size pc' → pc = pc'.
Proof.
  intros ?? Hi Ht. rewrite !lvptTag_ldiff in Ht by done. unfold lvptIndex in Hi.
  rewrite <- (Z.lor_ldiff_and pc (indexMask size)), <- (Z.lor_ldiff_and pc' (indexMask size)).
  by rewrite Hi, Ht.
Qed.
End index.

(** ** The table as a function of the update history *)

Inductive lvpt_op := LvptUpdate (data addr pc : Z) (predict constant : bool).

Definition lvpt_step (t : LVPT) (op : lvpt_op) : res LVPT :=
  match op with LvptUpdate data addr pc predict constant =>
    updateTable t data addr pc predict constant end.

Definition lvpt_op_valid (op : lvpt_op) : Prop :=
  match op with LvptUpdate _ _ pc _ _ => 0 ≤ pc < 2 ^ 64 end.

(** The last mispredicted load whose pc shares slot [i]: its pc, value and address. *)
Definition spec_entry_step (size i : Z) (e : option (Z * Z * Z)) (op : lvpt_op)
  : option (Z * Z * Z) :=
  match op with LvptUpdate data addr pc predict constant =>
    if constant && negb predict && (lvptIndex size pc =? i) then Some (pc, data, addr) else e
  end.

(** The confidence counter of slot [j]: up on a correct, down on a wrong
    prediction, saturating at 0 and [maxv]. *)
Definition spec_counter_step (size maxv j : Z) (c : Z) (op : lvpt_op) : Z :=
  match op with LvptUpdate _ _ pc predict constant =>
    if constant && (indexLCT size pc =? j) then
      if predict then Z.min (c + 1) maxv else Z.max (c - 1) 0
    else c
  end.

Definition spec_entry (size i : Z) (ops : list lvpt_op) : option (Z * Z * Z) :=
  fold_left (spec_entry_step size i) ops None.
Definition spec_counter (size maxv j : Z) (ops : list lvpt_op) : Z :=
  fold_left (spec_counter_step size maxv j) ops 0.

(** What [read] must answer after [ops]. *)
Definition spec_read (size thr maxv : Z) (ops : list lvpt_op) (pc : Z) : lvptData :=
  match spec_entry size (lvptIndex size pc) ops with
  | Some (pc', value, addr) =>
      if pc' =? pc then
        let c := spec_counter size maxv (indexLCT size pc) ops in
        mkLvptData true (thr <=? c) value pc (lvptIndex size pc) addr c
      else mkLvptData false false 0 0 0 0 0
  | None => mkLvptData false false 0 0 0 0 0
  end.

(** The concrete entry that stands for an abstract one. *)
Definition entry_rel (size : Z) (i : Z) (e : lvptEntry) (a : option (Z * Z * Z)) : Prop :=
  match a with
  | None => leValid e = false
  | Some (pc, value, addr) =>
      0 ≤ pc < 2 ^ 64 ∧ lvptIndex size pc = i ∧ e = mkLvptEntry true (lvptTag size pc) addr value
  end.

Record lvpt_rel (size thr maxv : Z) (ops : list lvpt_op) (t : LVPT) : Prop := {
  lr_size : tableSize t = size;
  lr_thr : threshold t = thr;
  lr_max : maxValue t = maxv;
  lr_vlen : Z.of_nat (length (valueTable t)) = size;
  lr_plen : Z.of_nat (length (predictTable t)) = size / 4;
  lr_val : ∀ i e, vget (valueTable t) i = Ok e → entry_rel size i e (spec_entry size i ops);
  lr_cnt : ∀ j c, vget (predictTable t) j = Ok c →
             c = spec_counter size maxv j ops ∧ 0 ≤ c ≤ maxv;
}.

Section refinement.
Context (size thr maxv : Z).
Context (Hsize : 4 ≤ size < 2 ^ 31) (Hthr : 0 ≤ thr ≤ maxv) (Hmax : maxv < 2 ^ 32).

Lemma newLVPT_rel : ∃ t, newLVPT size thr maxv = Ok t ∧ lvpt_rel size thr maxv [] t.
Proof.
  unfold newLVPT. destruct (Z.ltb_spec maxv thr); [lia|]. eexists. split; [done|].
  pose proof (Z.div_pos size 4). split; cbn; rewrite ?length_replicate; try (done || lia).
  - intros i e [_ [-> _]%lookup_replicate]%vget_Ok. done.
  - intros j c [_ [-> _]%lookup_replicate]%vget_Ok. unfold spec_counter. cbn. lia.
Qed.

(** Writing one counter. *)
Lemma counter_write ops op (pt pt' : list Z) k c c' :
  vget pt k = Ok c → vset pt k c' = Ok pt' →
  (∀ j c, vget pt j = Ok c → c = spec_counter size maxv j ops ∧ 0 ≤ c ≤ maxv) →
  (∀ j d, j ≠ k → spec_counter_step size maxv j d op = d) →
  c' = spec_counter_step size maxv k c op → 0 ≤ c' ≤ maxv →
  ∀ j d, vget pt' j = Ok d → d = spec_counter size maxv j (ops ++ [op]) ∧ 0 ≤ d ≤ maxv.
Proof.
  intros Hk Hset Hinv Hne -> Hr j d Hd. unfold spec_counter. rewrite fold_left_app. cbn.
  fold (spec_counter size maxv j ops). destruct (decide (j = k)) as [->|Hjk].
  - rewrite (vget_vset_eq _ _ _ _ Hset) in Hd. injection Hd as <-.
    by destruct (Hinv k c Hk) as [<- _].
  - rewrite (vget_vset_ne _ _ _ _ _ Hset) in Hd by done. rewrite Hne by done. by apply Hinv.
Qed.

(** Writing one entry. *)
Lemma entry_write ops op (vt vt' : list lvptEntry) k e :
  vset vt k e = Ok vt' →
  (∀ i e, vget vt i = Ok e → entry_rel size i e (spec_entry size i ops)) →
  (∀ i a, i ≠ k → spec_entry_step size i a op = a) →
  (∀ a, entry_rel size k e (spec_entry_step size k a op)) →
  ∀ i x, vget vt' i = Ok x → entry_rel size i x (spec_entry size i (ops ++ [op])).
Proof.
  intros Hset Hinv Hne Hk i x Hx. unfold spec_entry. rewrite fold_left_app. cbn.
  fold (spec_entry size i ops). destruct (decide (i = k)) as [->|Hik].
  - rewrite (vget_vset_eq _ _ _ _ Hset) in Hx. injection Hx as <-. apply Hk.
  - rewrite (vget_vset_ne _ _ _ _ _ Hset) in Hx by done. rewrite Hne by done. by apply Hinv.
Qed.

Lemma lvpt_step_rel ops t op : lvpt_op_valid op → lvpt_rel size thr maxv ops t →
  ∃ t', lvpt_step t op = Ok t' ∧ lvpt_rel size thr maxv (ops ++ [op]) t'.
Proof.
  destruct op as [data addr pc predict constant]. intros Hpc [Hs Ht Hm Hvl Hpl Hv Hc].
  cbn in Hpc. cbn [lvpt_step]. unfold updateTable. rewrite Hs, Hm.
  pose proof (lvptIndex_range size Hsize pc) as Hi. pose proof (indexLCT_range size Hsize pc) as Hj.
  destruct (vget_lt (valueTable t) (lvptIndex size pc)) as (e & He); [lia|].
  destruct (vget_lt (predictTable t) (indexLCT size pc)) as (c & Hcv); [lia|].
  rewrite He, Hcv. cbn [rbind]. destruct (Hc _ _ Hcv) as [Hcs Hcr].
  destruct constant; cycle 1.
  { exists t. split; [done|]. split; try done; intros k x Hk;
      unfold spec_entry, spec_counter; rewrite fold_left_app; cbn; [by apply Hv|by apply Hc]. }
  set (op := LvptUpdate data addr pc predict true).
  assert (∀ j d, j ≠ indexLCT size pc → spec_counter_step size maxv j d op = d) as Hne.
  { intros j d Hjk. cbn. destruct (Z.eqb_spec (indexLCT size pc) j); [lia|done]. }
  pose proof (λ pt' c', counter_write ops op _ pt' _ c c' Hcv) as Hcw.
  specialize (λ pt' c' H, Hcw pt' c' H Hc Hne). cbn in Hcw. rewrite Z.eqb_refl in Hcw.
  destruct predict; cbn [negb].
  - rewrite vset_lt by lia. cbn [rbind]. eexists. split; [done|].
    split; cbn; rewrite ?length_insert; try done.
    + intros i x Hx. unfold spec_entry. rewrite fold_left_app. cbn. by apply Hv.
    + eapply Hcw; [apply vset_lt; lia|..]; destruct (Z.leb_spec maxv c);
        rewrite ?u32_id by lia; lia.
  - rewrite vset_lt by lia. cbn [rbind]. rewrite vset_lt by lia. cbn [rbind].
    eexists. split; [done|]. split; cbn; rewrite ?length_insert; try done.
    + eapply (entry_write ops op); [apply vset_lt; lia|done|..].
      * intros i a Hik. cbn. destruct (Z.eqb_spec (lvptIndex size pc) i); [lia|done].
      * intros a. cbn. by rewrite Z.eqb_refl.
    + eapply Hcw; [apply vset_lt; lia|..]; destruct (Z.eqb_spec c 0);
        rewrite ?u32_id by lia; lia.
Qed.

Lemma lvpt_run_rel ops : Forall lvpt_op_valid ops →
  ∃ t, (t0 ← newLVPT size thr maxv; mfold lvpt_step t0 ops) = Ok t
    ∧ lvpt_rel size thr maxv ops t.
Proof.
  induction ops as [|op ops IH] using rev_ind; intros Hv.
  { destruct newLVPT_rel as (t & -> & ?). by exists t. }
  apply Forall_app in Hv as [Hv Hop]. inversion_clear Hop as [|?? Hop1 _].
  destruct (IH Hv) as (t & Hrun & Hrel). apply bind_Ok in Hrun as (t0 & -> & Hrun).
  cbn [rbind]. rewrite mfold_app, Hrun. cbn [rbind mfold].
  destruct (lvpt_step_rel ops t op Hop1 Hrel) as (t' & -> & ?). by exists t'.
Qed.

Lemma read_rel ops t pc : 0 ≤ pc < 2 ^ 64 → lvpt_rel size thr maxv ops t →
  read t pc = Ok (spec_read size thr maxv ops pc).
Proof.
  intros Hpc [Hs Ht Hm Hvl Hpl Hv Hc]. unfold read, spec_read. rewrite Hs, Ht.
  pose proof (lvptIndex_range size Hsize pc) as Hi. pose proof (indexLCT_range size Hsize pc) as Hj.
  destruct (vget_lt (valueTable t) (lvptIndex size pc)) as (e & He); [lia|].
  destruct (vget_lt (predictTable t) (indexLCT size pc)) as (c & Hcv); [lia|].
  rewrite He, Hcv. cbn [rbind]. f_equal. destruct (Hc _ _ Hcv) as [<- _].
  specialize (Hv _ _ He). destruct (spec_entry _ _ _) as [[[pc' v] a]|]; cbn in Hv; [|by rewrite Hv].
  destruct Hv as (Hpc' & Hidx & ->). cbn. destruct (Z.eqb_spec pc' pc) as [->|Hne].
  - by rewrite Z.eqb_refl.
  - destruct (Z.eqb_spec (lvptTag size pc') (lvptTag size pc)) as [Htag|]; [|done].
    destruct Hne. by apply (index_tag_inj size).
Qed.
End refinement.

(** C11: for every table size from 4 up and every history of updates on 64-bit
    program counters, the load value prediction table behaves as its
    specification: [read] hits exactly when the last mispredicted load that
    shares the slot has the same pc, it then returns that load's value and
    address, and it classifies the load as constant exactly when the
    saturating confidence count of its group of four slots has reached the
    threshold; no access is out of bounds. *)
Theorem lvpt_refines_history (size thr maxv : Z) (ops : list lvpt_op) (pc : Z) :
  4 ≤ size < 2 ^ 31 → 0 ≤ thr ≤ maxv → maxv < 2 ^ 32 →
  Forall lvpt_op_valid ops → 0 ≤ pc < 2 ^ 64 →
  (t0 ← newLVPT size thr maxv; t ← mfold lvpt_step t0 ops; read t pc)
  = Ok (spec_read size thr maxv ops pc).
Proof.
  intros Hs Ht Hm Hv Hpc. destruct (lvpt_run_rel size thr maxv Hs Ht Hm ops Hv) as (t & Hrun & Hrel).
  apply bind_Ok in Hrun as (t0 & -> & Hrun). cbn [rbind]. rewrite Hrun. cbn [rbind].
  by apply (read_rel size thr maxv).
Qed.

Lemma lvpt_refines_history_witness :
  (t0 ← newLVPT 16 1 3;
   t ← mfold lvpt_step t0 [LvptUpdate 7 64 4100 false true; LvptUpdate 7 64 4100 true true];
   read t 4100) = Ok (mkLvptData true true 7 4100 4 64 1).
Proof.
  refine (lvpt_refines_history 16 1 3
    [LvptUpdate 7 64 4100 false true; LvptUpdate 7 64 4100 true true] 4100 _ _ _ _ _);
    try lia. repeat constructor; cbn; lia.
Defined.

(** The counter stays at or above [Z.min (c + k) maxv] over [k] correct predictions. *)
Lemma spec_counter_train size maxv j pc data addr k c :
  indexLCT size pc = j → 0 ≤ c ≤ maxv →
  fold_left (spec_counter_step size maxv j) (replicate k (LvptUpdate data addr pc true true)) c
  = Z.min (c + Z.of_nat k) maxv.
Proof.
  intros Hj. revert c. induction k as [|k IH]; intros c Hc; [cbn; lia|].
  cbn [replicate fold_left]. unfold spec_counter_step at 2. rewrite Hj, Z.eqb_refl. cbn [andb].
  rewrite IH by lia. lia.
Qed.

Lemma spec_counter_range size maxv j ops : 0 ≤ maxv → 0 ≤ spec_counter size maxv j ops ≤ maxv.
Proof.
  intros Hm. unfold spec_counter.
  enough (∀ c, 0 ≤ c ≤ maxv → 0 ≤ fold_left (spec_counter_step size maxv j) ops c ≤ maxv) as H
    by (apply H; lia).
  induction ops as [|op ops IH]; intros c Hc; [done|].
  cbn [fold_left]. apply IH. destruct op as [? ? pc p b]. unfold spec_counter_step.
  destruct (b && _), p; lia.
Qed.

(** training works: after any history, one wrong prediction of a load
    followed by [thr] or more correct ones makes [read] return the
    load's value and classify it as constant, whatever the table held before. *)
Theorem lvpt_training_converges (size thr maxv : Z) (ops : list lvpt_op) (data addr pc : Z) (k : nat) :
  4 ≤ size < 2 ^ 31 → 0 ≤ thr ≤ maxv → maxv < 2 ^ 32 →
  Forall lvpt_op_valid ops → 0 ≤ pc < 2 ^ 64 → thr ≤ Z.of_nat k →
  ∃ c, thr ≤ c ≤ maxv ∧
  (t0 ← newLVPT size thr maxv;
   t ← mfold lvpt_step t0 (ops ++ LvptUpdate data addr pc false true
                               :: replicate k (LvptUpdate data addr pc true true));
   read t pc)
  = Ok (mkLvptData true true data pc (lvptIndex size pc) addr c).
Proof.
  intros Hs Ht Hm Hv Hpc Hk. set (ops' := ops ++ _).
  assert (Forall lvpt_op_valid ops') as Hv'.
  { apply Forall_app. split; [done|]. constructor; [done|]. by apply Forall_replicate. }
  destruct (lvpt_run_rel size thr maxv Hs Ht Hm ops' Hv') as (t & Hrun & Hrel).
  apply bind_Ok in Hrun as (t0 & -> & Hrun). cbn [rbind]. rewrite Hrun. cbn [rbind].
  rewrite (read_rel size thr maxv Hs ops' t pc Hpc Hrel).
  set (c0 := Z.max (spec_counter size maxv (indexLCT size pc) ops - 1) 0).
  pose proof (spec_counter_range size maxv (indexLCT size pc) ops ltac:(lia)) as Hr.
  assert (spec_counter size maxv (indexLCT size pc) ops' = Z.min (c0 + Z.of_nat k) maxv) as Hcnt.
  { unfold spec_counter, ops'. rewrite fold_left_app. cbn [fold_left].
    fold (spec_counter size maxv (indexLCT size pc) ops).
    unfold spec_counter_step at 2. rewrite Z.eqb_refl. cbn [andb].
    rewrite spec_counter_train by (done || lia). done. }
  exists (Z.min (c0 + Z.of_nat k) maxv). split; [lia|]. f_equal. unfold spec_read.
  assert (spec_entry size (lvptIndex size pc) ops' = Some (pc, data, addr)) as ->.
  { unfold spec_entry, ops'. rewrite fold_left_app. cbn [fold_left]. unfold spec_entry_step at 2.
    rewrite Z.eqb_refl. cbn [andb negb]. clear. by induction k. }
  rewrite Z.eqb_refl, Hcnt. destruct (Z.leb_spec thr (Z.min (c0 + Z.of_nat k) maxv)); [done|lia].
Qed.

Lemma lvpt_training_converges_witness :
  ∃ c, 2 ≤ c ≤ 3 ∧
  (t0 ← newLVPT 16 2 3;
   t ← mfold lvpt_step t0 ([LvptUpdate 1 2 4 false true] ++ LvptUpdate 7 64 4100 false true
                               :: replicate 2 (LvptUpdate 7 64 4100 true true));
   read t 4100)
  = Ok (mkLvptData true true 7 4100 (lvptIndex 16 4100) 64 c).
Proof.
  apply (lvpt_training_converges 16 2 3 [LvptUpdate 1 2 4 false true] 7 64 4100 2); try lia.
  repeat constructor; cbn; lia.
Defined.

(** a table size below four gives the confidence table no entry, and then
    every lookup and every update leaves the bounds of that table. *)
Theorem lvpt_small_table_out_of_bounds (size thr maxv pc : Z) (t : LVPT) :
  0 ≤ size < 4 → newLVPT size thr maxv = Ok t →
  read t pc = Stop OutOfBounds
  ∧ ∀ data addr predict constant,
      updateTable t data addr pc predict constant = Stop OutOfBounds.
Proof.
  intros Hs Hn. unfold newLVPT in Hn. destruct (maxv <? thr); [done|]. injection Hn as <-.
  unfold read, updateTable. cbn [tableSize valueTable predictTable].
  rewrite (Z.div_small size 4) by lia. change (replicate (Z.to_nat 0) 0) with (@nil Z).
  assert (∀ j, vget (@nil Z) j = Stop OutOfBounds) as Hnil.
  { intros j. unfold vget. by destruct (0 <=? j). }
  destruct (vget (replicate _ _) _) as [e|st] eqn:He.
  - cbn [rbind]. by rewrite Hnil.
  - unfold vget in He. destruct (0 <=? _); [destruct (_ !! _)|]; naive_solver.
Qed.

Lemma lvpt_small_table_out_of_bounds_witness :
  read (mkLVPT 2 0 3 (replicate 2 lvptEntry0) [] (mkLvptStats 0 0 0)) 4096 = Stop OutOfBounds
  ∧ ∀ data addr predict constant,
      updateTable (mkLVPT 2 0 3 (replicate 2 lvptEntry0) [] (mkLvptStats 0 0 0))
        data addr 4096 predict constant = Stop OutOfBounds.
Proof. apply (lvpt_small_table_out_of_bounds 2 0 3 4096); [lia|reflexivity]. Defined.
