(* ===== verification/CVU.v ===== *)
(** * The constant verification unit (src/cpu/myminor/CVU.cc, CVU.hh)

    [CVU] remembers (address, table index, value) triples of loads classified
    as constant; a load that finds its triple may skip the memory access.
    Stores invalidate matching entries.  The replacement choice
    [std::rand()] is an argument of [AddEntryToCVU]. *)
From S2P Require Import Prelude.

(** ** Data *)

(** [struct tableEntry] *)
Record cvuEntry := mkCvuEntry {
  ceValid : bool;
  ceVaddr : Z;
  cePaddr : Z;
  ceIndex : Z;
  ceData : Z;
}.

Definition cvuEntry0 : cvuEntry := mkCvuEntry false 0 0 0 0.

#[export] Instance cvuEntry_eq_dec : EqDecision cvuEntry.
Proof. solve_decision. Defined.

Record CVU := mkCVU {
  cvuTableSize : Z;
  InvalidEntries : list Z;
  cvuTable : list cvuEntry;
  CvuTableAdditions : Z;  (* the counter of [cpu.stats] *)
}.

(** ** Operations *)

(** [CVU(cvu_table_size, lct_threshold, lct_maxvalue, cpu)] *)
Definition newCVU (size : Z) : CVU :=
  mkCVU size (zrange 0 (size - 1)) (replicate (Z.to_nat size) cvuEntry0) 0.

(** [void AddToInvalidateList(TableIndex)] *)
Definition AddToInvalidateList (c : CVU) (i : Z) : CVU :=
  mkCVU (cvuTableSize c) (InvalidEntries c ++ [i]) (cvuTable c) (CvuTableAdditions c).

Definition invalidate (e : cvuEntry) : cvuEntry :=
  mkCvuEntry false (ceVaddr e) (cePaddr e) (ceIndex e) (ceData e).

(** the condition of [storeInvalidate] *)
Definition storeHits (vaddr paddr : Z) (e : cvuEntry) : bool :=
  (ceVaddr e =? vaddr) || (cePaddr e =? paddr).

(** one round of the loop of [storeInvalidate] *)
Definition storeInvalidate_at (vaddr paddr : Z) (c : CVU) (hitIndex : Z) : res CVU :=
  entry ← vget (cvuTable c) hitIndex;
  if storeHits vaddr paddr entry then
    t ← vset (cvuTable c) hitIndex (invalidate entry);
    Ok (AddToInvalidateList
          (mkCVU (cvuTableSize c) (InvalidEntries c) t (CvuTableAdditions c)) hitIndex)
  else Ok c.

(** [void storeInvalidate(vaddr, paddr)] *)
Definition storeInvalidate (c : CVU) (vaddr paddr : Z) : res CVU :=
  mfold (storeInvalidate_at vaddr paddr) c (zrange 0 (cvuTableSize c - 1)).

(** [void AddEntryToCVU(data, LVPT_Index, vaddr, paddr)]; [rnd] is the value
    of [std::rand()] should it be called *)
Definition AddEntryToCVU (c : CVU) (rnd data LVPT_Index vaddr paddr : Z) : res CVU :=
  let newEntry := mkCvuEntry true vaddr paddr LVPT_Index data in
  let '(new_entry_index, inv) :=
    match InvalidEntries c with
    | [] => (u32 rnd `mod` u32 (cvuTableSize c + 1), [])
    | i :: l => (i, l)
    end in
  t ← vset (cvuTable c) new_entry_index newEntry;
  Ok (mkCVU (cvuTableSize c) inv t (CvuTableAdditions c + 1)).

(** the condition of [verifyEntryInCVU] *)
Definition verifyHits (address index data : Z) (e : cvuEntry) : bool :=
  ceValid e && (ceVaddr e =? address) && (ceIndex e =? index) && (ceData e =? data).

(** the loop of [verifyEntryInCVU]: the [paddr] of the first hit *)
Fixpoint verify_loop (t : list cvuEntry) (address index data : Z) (is_ : list Z) : res (option Z) :=
  match is_ with
  | [] => Ok None
  | i :: is_ =>
      entry ← vget t i;
      if verifyHits address index data entry then Ok (Some (cePaddr entry))
      else verify_loop t address index data is_
  end.

(** [bool verifyEntryInCVU(address, index, data, constant, paddr)]; the
    answer is the value left in [paddr] on a hit *)
Definition verifyEntryInCVU (c : CVU) (address index data : Z) (constant : bool) : res (option Z) :=
  if constant then
    verify_loop (cvuTable c) address index data (zrange 0 (cvuTableSize c - 1))
  else Ok None.

(** ** Well-formedness *)

Record cvu_ok (n : Z) (c : CVU) : Prop := {
  co_size : cvuTableSize c = n;
  co_len : Z.of_nat (length (cvuTable c)) = n;
  co_inv : Forall (λ i, 0 ≤ i < n) (InvalidEntries c);
}.

Lemma newCVU_ok n : 0 ≤ n → cvu_ok n (newCVU n).
Proof.
  intros Hn. split; cbn; rewrite ?length_replicate; [done|lia|].
  apply Forall_forall. intros i Hi%elem_of_zrange. lia.
Qed.

(** ** [storeInvalidate] in closed form *)

Definition inv_entry (vaddr paddr : Z) (e : cvuEntry) : cvuEntry :=
  if storeHits vaddr paddr e then invalidate e else e.

(** The indices below [k] that a store hits. *)
Definition hit_indices (vaddr paddr : Z) (t : list cvuEntry) (k : Z) : list Z :=
  List.filter (λ i, match vget t i with Ok e => storeHits vaddr paddr e | Stop _ => false end)
    (zrange 0 (k - 1)).

Lemma storeInvalidate_prefix n c vaddr paddr (k : nat) : cvu_ok n c → Z.of_nat k ≤ n →
  mfold (storeInvalidate_at vaddr paddr) c (zrange 0 (Z.of_nat k - 1))
  = Ok (mkCVU n (InvalidEntries c ++ hit_indices vaddr paddr (cvuTable c) (Z.of_nat k))
          ((inv_entry vaddr paddr <$> take k (cvuTable c)) ++ drop k (cvuTable c))
          (CvuTableAdditions c)).
Proof.
  intros [Hs Hl _]. induction k as [|k IH]; intros Hk.
  { cbn. rewrite app_nil_r. subst n. by destruct c. }
  unfold hit_indices in *. rewrite (zrange_snoc 0 (Z.of_nat (S k) - 1)) by lia.
  replace (Z.of_nat (S k) - 1 - 1) with (Z.of_nat k - 1) by lia.
  replace (Z.of_nat (S k) - 1) with (Z.of_nat k) by lia.
  rewrite mfold_app, IH by lia. cbn [rbind mfold].
  destruct (lookup_lt_is_Some_2 (cvuTable c) k) as [e He]; [lia|].
  assert (length (inv_entry vaddr paddr <$> take k (cvuTable c)) = k) as Hlk
    by (rewrite length_fmap, length_take; lia).
  set (t := (inv_entry vaddr paddr <$> take k (cvuTable c)) ++ drop k (cvuTable c)).
  assert (Hg : vget t (Z.of_nat k) = Ok e).
  { apply vget_Ok. rewrite Nat2Z.id. split; [lia|]. unfold t.
    rewrite lookup_app_r, Hlk, Nat.sub_diag, lookup_drop, Nat.add_0_r by lia. done. }
  assert (Hins : ∀ x, (inv_entry vaddr paddr <$> take k (cvuTable c)) ++ x :: drop (S k) (cvuTable c)
                 = <[k := x]> t).
  { intros x. unfold t. rewrite (drop_S _ e k) by done.
    by rewrite insert_app_r_alt, Hlk, Nat.sub_diag by lia. }
  assert (vget (cvuTable c) (Z.of_nat k) = Ok e) as Hgc
    by (apply vget_Ok; rewrite Nat2Z.id; split; [lia|done]).
  rewrite List.filter_app. cbn [List.filter]. rewrite Hgc.
  rewrite (take_S_r _ _ e), fmap_app, <- app_assoc by done. cbn [fmap list_fmap app].
  rewrite Hins. unfold storeInvalidate_at. cbn [cvuTable]. rewrite Hg. cbn [rbind].
  unfold inv_entry at 1. destruct (storeHits vaddr paddr e).
  - rewrite vset_lt. 2:{ unfold t. rewrite length_app, Hlk, length_drop. lia. }
    rewrite Nat2Z.id. cbn. by rewrite app_assoc.
  - cbn. rewrite app_nil_r. f_equal. f_equal. symmetry. apply list_insert_id.
    apply vget_Ok in Hg as [_ Hg]. by rewrite Nat2Z.id in Hg.
Qed.

Lemma storeInvalidate_Ok n c vaddr paddr : cvu_ok n c →
  storeInvalidate c vaddr paddr
  = Ok (mkCVU n (InvalidEntries c ++ hit_indices vaddr paddr (cvuTable c) n)
          (inv_entry vaddr paddr <$> cvuTable c) (CvuTableAdditions c)).
Proof.
  intros H. unfold storeInvalidate. rewrite (co_size _ _ H).
  pose proof (co_len _ _ H) as Hl. rewrite <- Hl at 1.
  rewrite (storeInvalidate_prefix n) by (done || lia). rewrite Hl.
  by rewrite firstn_all, drop_all, app_nil_r.
Qed.

(** ** The other operations in closed form *)

Lemma verify_loop_Ok (t : list cvuEntry) a i d (m : nat) k : 0 ≤ k →
  Z.of_nat (length t) = k + Z.of_nat m →
  verify_loop t a i d (zrange k (Z.of_nat (length t) - 1))
  = Ok (cePaddr <$> List.find (verifyHits a i d) (drop (Z.to_nat k) t)).
Proof.
  revert k. induction m as [|m IH]; intros k Hk Hm.
  { rewrite zrange_nil by lia. rewrite drop_ge by lia. done. }
  rewrite zrange_cons by lia. cbn [verify_loop].
  destruct (lookup_lt_is_Some_2 t (Z.to_nat k)) as [e He]; [lia|].
  assert (vget t k = Ok e) as -> by by apply vget_Ok. cbn [rbind].
  rewrite (drop_S t e) by done. cbn [List.find].
  destruct (verifyHits a i d e); [done|]. rewrite IH by lia.
  by replace (Z.to_nat (k + 1)) with (S (Z.to_nat k)) by lia.
Qed.

Lemma verifyEntryInCVU_Ok n c a i d constant : cvu_ok n c →
  verifyEntryInCVU c a i d constant
  = Ok (if constant then cePaddr <$> List.find (verifyHits a i d) (cvuTable c) else None).
Proof.
  intros [Hs Hl _]. unfold verifyEntryInCVU. destruct constant; [|done].
  rewrite Hs, <- Hl. by rewrite (verify_loop_Ok _ _ _ _ (length (cvuTable c)) 0) by lia.
Qed.

(** The replacement choice stays inside the table. *)
Definition rnd_ok (n : Z) (c : CVU) (rnd : Z) : Prop :=
  InvalidEntries c = [] → u32 rnd `mod` u32 (n + 1) < n.

Lemma AddEntryToCVU_Ok n c rnd d i va pa : 0 ≤ n < 2 ^ 32 - 1 → cvu_ok n c → rnd_ok n c rnd →
  ∃ c' j, AddEntryToCVU c rnd d i va pa = Ok c' ∧ cvu_ok n c' ∧ 0 ≤ j < n
    ∧ cvuTable c' = <[Z.to_nat j := mkCvuEntry true va pa i d]> (cvuTable c).
Proof.
  intros Hn [Hs Hl Hi] Hrnd. unfold AddEntryToCVU, rnd_ok in *. rewrite Hs.
  destruct (InvalidEntries c) as [|j l].
  - specialize (Hrnd eq_refl). rewrite (u32_id (n + 1)) in * by lia.
    set (j := u32 rnd `mod` (n + 1)) in *.
    assert (0 ≤ j) by (apply Z.mod_pos_bound; lia).
    rewrite vset_lt by lia. cbn. eexists _, j. split; [done|]. split; [|by split].
    split; cbn; rewrite ?length_insert; done.
  - apply Forall_cons in Hi as [Hj Hi]. rewrite vset_lt by lia. cbn. eexists _, j.
    split; [done|]. split; [|by split]. split; cbn; rewrite ?length_insert; done.
Qed.

(** ** Coherence with memory

    A history of what Execute's [handleMemResponse] does to the unit, in program
    order, with the memory of bytes that the program reads and writes.  Addresses
    are virtual in the instructions and physical in memory; [tr] is the
    translation, which may map several virtual addresses to one physical address.
    A store writes its bytes and invalidates; a constant load enters the
    doubleword that it reads; a write that may not be buffered (atomic, swap, store
    conditional, release, strictly ordered) goes to memory past the store buffer,
    so that it does not reach the unit. *)

Inductive cvu_op :=
| CvuStore (vaddr : Z) (data : list Z)
| CvuUnbuffered (vaddr : Z) (data : list Z)
| CvuLoad (rnd index vaddr : Z).

(** bytes are written at [pa] *)
Definition writeMem (mem : Z → Z) (pa : Z) (data : list Z) : Z → Z := λ x,
  if pa <=? x then default (mem x) (data !! Z.to_nat (x - pa)) else mem x.

(** the doubleword at [pa] *)
Definition wordAt (mem : Z → Z) (pa : Z) : Z :=
  foldr (λ i w, mem (pa + i) + 256 * w) 0 (zrange 0 7).

Definition cvu_step (tr : Z → Z) (s : CVU * (Z → Z)) (op : cvu_op) : res (CVU * (Z → Z)) :=
  let '(c, mem) := s in
  match op with
  | CvuStore va d => c' ← storeInvalidate c va (tr va); Ok (c', writeMem mem (tr va) d)
  | CvuUnbuffered va d => Ok (c, writeMem mem (tr va) d)
  | CvuLoad rnd i va => c' ← AddEntryToCVU c rnd (wordAt mem (tr va)) i va (tr va); Ok (c', mem)
  end.

(** the accesses for which the unit is right: loads of aligned doublewords, with
    the replacement choice inside the table, and stores of at most a doubleword at
    the address of one *)
Definition cvu_op_ok (n : Z) (op : cvu_op) : Prop :=
  match op with
  | CvuStore va d => va `mod` 8 = 0 ∧ (length d ≤ 8)%nat
  | CvuUnbuffered _ _ => False
  | CvuLoad rnd _ va => va `mod` 8 = 0 ∧ u32 rnd `mod` u32 (n + 1) < n
  end.

(** Every valid entry holds the aligned doubleword memory has at its address. *)
Record coherent_entry (tr mem : Z → Z) (e : cvuEntry) : Prop := {
  ce_tr : cePaddr e = tr (ceVaddr e);
  ce_aligned : ceVaddr e `mod` 8 = 0;
  ce_word : ceData e = wordAt mem (cePaddr e);
}.

Definition coherent (tr mem : Z → Z) (c : CVU) : Prop :=
  ∀ j e, cvuTable c !! j = Some e → ceValid e = true → coherent_entry tr mem e.

Lemma writeMem_out mem pa d x : x < pa ∨ pa + Z.of_nat (length d) ≤ x → writeMem mem pa d x = mem x.
Proof.
  unfold writeMem. intros H. destruct (Z.leb_spec pa x); [|done]. by rewrite lookup_ge_None_2 by lia.
Qed.

Lemma wordAt_ext mem mem' pa : (∀ i, 0 ≤ i < 8 → mem' (pa + i) = mem (pa + i)) → wordAt mem' pa = wordAt mem pa.
Proof.
  intros H. unfold wordAt. change (zrange 0 7) with [0; 1; 2; 3; 4; 5; 6; 7]. cbn [foldr].
  by rewrite !H by lia.
Qed.

Lemma hit_indices_range va pa t k : Forall (λ i, 0 ≤ i < k) (hit_indices va pa t k).
Proof.
  apply Forall_forall. intros i Hi%list_elem_of_In. unfold hit_indices in Hi.
  apply List.filter_In in Hi as [Hi%list_elem_of_In%elem_of_zrange _]. lia.
Qed.

Lemma storeInvalidate_ok n c va pa : cvu_ok n c →
  ∃ c', storeInvalidate c va pa = Ok c' ∧ cvu_ok n c'
    ∧ cvuTable c' = inv_entry va pa <$> cvuTable c.
Proof.
  intros H. rewrite (storeInvalidate_Ok n) by done. eexists. split; [done|].
  destruct H as [Hs Hl Hi]. split; [|done]. split; cbn; rewrite ?length_fmap; [done..|].
  apply Forall_app. split; [done|]. apply hit_indices_range.
Qed.

Lemma inv_entry_valid va pa e : ceValid (inv_entry va pa e) = true →
  inv_entry va pa e = e ∧ storeHits va pa e = false.
Proof. unfold inv_entry. by destruct (storeHits va pa e). Qed.

Section coherence.
Context (tr : Z → Z) (n : Z).
(** translation keeps the offset in a page, and with it the alignment *)
Hypothesis tr_aligned : ∀ a, tr a `mod` 8 = a `mod` 8.
Hypothesis size_ok : 0 ≤ n < 2 ^ 32 - 1.

(** a store that does not hit an entry writes no byte of its doubleword *)
Lemma store_misses mem e va d : coherent_entry tr mem e → va `mod` 8 = 0 → (length d ≤ 8)%nat →
  storeHits va (tr va) e = false → coherent_entry tr (writeMem mem (tr va) d) e.
Proof.
  intros [Ht Ha Hw] Hva Hd Hh. unfold storeHits in Hh. apply orb_false_iff in Hh as [_ Hp%Z.eqb_neq].
  split; [done|done|]. rewrite Hw. symmetry. apply wordAt_ext. intros i Hi. apply writeMem_out.
  pose proof (tr_aligned va). pose proof (tr_aligned (ceVaddr e)). rewrite Ht in *.
  pose proof (Z.div_mod (tr va) 8). pose proof (Z.div_mod (tr (ceVaddr e)) 8). lia.
Qed.

Lemma cvu_step_coherent c mem op : cvu_ok n c → coherent tr mem c → cvu_op_ok n op →
  ∃ c' mem', cvu_step tr (c, mem) op = Ok (c', mem') ∧ cvu_ok n c' ∧ coherent tr mem' c'.
Proof.
  intros Hok Hco Hop. destruct op as [va d|va d|rnd i va]; cbn in *; [destruct Hop as [Hva Hd]|done|destruct Hop as [Hva Hr]].
  - destruct (storeInvalidate_ok n c va (tr va) Hok) as (c' & -> & ? & Ht). cbn.
    eexists _, _. split; [done|]. split; [done|]. intros j e Hj Hv. rewrite Ht in Hj.
    apply list_lookup_fmap_Some in Hj as (e0 & -> & Hj).
    destruct (inv_entry_valid _ _ _ Hv) as [He Hh]. rewrite He in *. apply store_misses; [|done..]. by apply (Hco j).
  - destruct (AddEntryToCVU_Ok n c rnd (wordAt mem (tr va)) i va (tr va)) as (c' & j & -> & ? & Hj & Ht);
      [done|done|by intros _|]. cbn. eexists _, _. split; [done|]. split; [done|].
    intros k e Hk Hv. rewrite Ht in Hk. apply list_lookup_insert_Some in Hk as [(<- & <- & _)|[_ Hk]].
    + by split.
    + by apply (Hco k).
Qed.

Lemma cvu_run_coherent ops c mem : cvu_ok n c → coherent tr mem c → Forall (cvu_op_ok n) ops →
  ∃ c' mem', mfold (cvu_step tr) (c, mem) ops = Ok (c', mem') ∧ cvu_ok n c' ∧ coherent tr mem' c'.
Proof.
  revert c mem. induction ops as [|op ops IH]; intros c mem Hok Hco Hops.
  { by exists c, mem. }
  apply Forall_cons in Hops as [Hop Hops].
  destruct (cvu_step_coherent c mem op) as (c1 & mem1 & H1 & ? & ?); [done..|].
  cbn [mfold]. rewrite H1. cbn [rbind]. by apply IH.
Qed.
End coherence.

(** C12: the constant verification unit never certifies a stale word.  Memory is
    the physical memory of bytes, and instructions address it through a fixed
    translation under which virtual addresses may be aliases.  For every history
    of constant loads of aligned doublewords and of stores of up to eight bytes at
    such addresses (with replacement choices inside the table; stores into the
    middle of a doubleword and writes past the store buffer are excluded) all operations
    succeed, and afterwards a lookup hits only when the load is marked constant,
    the answer is the load's physical address, and memory still holds the
    predicted value there. *)
Theorem cvu_hit_is_memory_word (n : Z) (tr mem : Z → Z) (ops : list cvu_op) :
  (∀ a, tr a `mod` 8 = a `mod` 8) → 0 ≤ n < 2 ^ 32 - 1 → Forall (cvu_op_ok n) ops →
  ∃ c mem', mfold (cvu_step tr) (newCVU n, mem) ops = Ok (c, mem')
    ∧ ∀ address index data constant, ∃ r,
        verifyEntryInCVU c address index data constant = Ok r
        ∧ ∀ pa, r = Some pa → constant = true ∧ pa = tr address ∧ wordAt mem' pa = data.
Proof.
  intros Htr Hn Hops.
  destruct (cvu_run_coherent tr n Htr Hn ops (newCVU n) mem) as (c & mem' & Hrun & Hok & Hco);
    [by apply newCVU_ok; lia| |done|].
  { intros j e Hj. cbn in Hj. by apply lookup_replicate in Hj as [-> _]. }
  exists c, mem'. split; [done|]. intros a i d constant.
  eexists. split; [by apply (verifyEntryInCVU_Ok n)|].
  destruct constant; [|done]. intros p Hp. split; [done|].
  destruct (List.find _ _) as [e|] eqn:Hf; [|done]. injection Hp as <-.
  apply List.find_some in Hf as [Hin%list_elem_of_In Hh].
  apply list_elem_of_lookup in Hin as [j Hj]. unfold verifyHits in Hh.
  rewrite !andb_true_iff, !Z.eqb_eq in Hh. destruct Hh as [[[Hv <-] _] <-].
  by destruct (Hco j e Hj Hv).
Qed.

(** the pages at 0 and 4096 are the same page *)
Definition aliased (a : Z) : Z := a `mod` 4096.

Lemma aliased_aligned a : aliased a `mod` 8 = a `mod` 8.
Proof. unfold aliased. change 4096 with (8 * 512). rewrite Z.rem_mul_r by lia. rewrite Z.mul_comm, Z.mod_add, Z.mod_mod; lia. Qed.

(** a word is entered, and written through the alias of its address *)
Lemma cvu_hit_is_memory_word_witness :
  ∃ c mem', mfold (cvu_step aliased) (newCVU 2, λ _, 9)
              [CvuLoad 0 3 64; CvuStore (64 + 4096) [5; 6]; CvuLoad 1 4 72] = Ok (c, mem')
    ∧ ∀ address index data constant, ∃ r,
        verifyEntryInCVU c address index data constant = Ok r
        ∧ ∀ pa, r = Some pa → constant = true ∧ pa = aliased address ∧ wordAt mem' pa = data.
Proof.
  apply (cvu_hit_is_memory_word 2); [exact aliased_aligned|lia|]. repeat constructor.
Defined.

(** ** Stale entries

    The unit compares first addresses only, and only stores that go through the
    store buffer reach it. *)

(** the upper half of a constant doubleword is overwritten: the old value is
    still certified *)
Lemma cvu_partial_store_stale :
  ∃ c mem', mfold (cvu_step (λ a, a)) (newCVU 2, λ _, 0) [CvuLoad 0 3 64; CvuStore 68 [1; 2; 3; 4]] = Ok (c, mem')
    ∧ verifyEntryInCVU c 64 3 0 true = Ok (Some 64) ∧ wordAt mem' 64 ≠ 0.
Proof. eexists _, _. split; [vm_compute; reflexivity|]. split; [vm_compute; reflexivity|]. vm_compute. discriminate. Qed.

(** an atomic operation writes a constant doubleword past the store buffer: the
    old value is still certified *)
Lemma cvu_unbuffered_stale :
  ∃ c mem', mfold (cvu_step (λ a, a)) (newCVU 2, λ _, 0) [CvuLoad 0 3 64; CvuUnbuffered 64 [1]] = Ok (c, mem')
    ∧ verifyEntryInCVU c 64 3 0 true = Ok (Some 64) ∧ wordAt mem' 64 ≠ 0.
Proof. eexists _, _. split; [vm_compute; reflexivity|]. split; [vm_compute; reflexivity|]. vm_compute. discriminate. Qed.

(** a store invalidates exactly what it hits: every entry whose virtual or
    physical address is the store's becomes invalid, every other entry is
    unchanged, and a later lookup at the store's virtual address misses. *)
Theorem storeInvalidate_exact (n : Z) (c : CVU) (vaddr paddr : Z) :
  cvu_ok n c →
  ∃ c', storeInvalidate c vaddr paddr = Ok c'
    ∧ length (cvuTable c') = length (cvuTable c)
    ∧ (∀ j e, cvuTable c !! j = Some e →
         cvuTable c' !! j =
           Some (if (ceVaddr e =? vaddr) || (cePaddr e =? paddr)
                 then mkCvuEntry false (ceVaddr e) (cePaddr e) (ceIndex e) (ceData e) else e))
    ∧ ∀ index data constant, verifyEntryInCVU c' vaddr index data constant = Ok None.
Proof.
  intros H. destruct (storeInvalidate_ok n c vaddr paddr H) as (c' & -> & Hok & Ht).
  exists c'. split; [done|]. rewrite Ht, length_fmap. split; [done|]. split.
  - intros j e Hj. by rewrite list_lookup_fmap, Hj.
  - intros i d [|]; rewrite (verifyEntryInCVU_Ok n) by done; [|done].
    destruct (List.find _ _) as [e|] eqn:Hf; [|done]. exfalso.
    apply List.find_some in Hf as [Hin%list_elem_of_In Hh]. rewrite Ht in Hin.
    apply list_elem_of_fmap in Hin as (e0 & -> & _). unfold verifyHits in Hh.
    apply andb_prop in Hh as [Hh _]. apply andb_prop in Hh as [Hh _].
    apply andb_prop in Hh as [Hv Ha].
    destruct (inv_entry_valid _ _ _ Hv) as [He Hs]. rewrite He in Ha. unfold storeHits in Hs.
    by rewrite Ha in Hs.
Qed.

Lemma storeInvalidate_exact_witness :
  let c := mkCVU 2 [] [mkCvuEntry true 64 4096 1 7; mkCvuEntry true 72 4104 2 8] 2 in
  ∃ c', storeInvalidate c 64 4096 = Ok c'
    ∧ length (cvuTable c') = length (cvuTable c)
    ∧ (∀ j e, cvuTable c !! j = Some e →
         cvuTable c' !! j =
           Some (if (ceVaddr e =? 64) || (cePaddr e =? 4096)
                 then mkCvuEntry false (ceVaddr e) (cePaddr e) (ceIndex e) (ceData e) else e))
    ∧ ∀ index data constant, verifyEntryInCVU c' 64 index data constant = Ok None.
Proof. intros c. apply (storeInvalidate_exact 2). split; cbn; [done..|constructor]. Defined.

(** an entry just added is found: with the replacement choice inside the
    table, a constant load with the added address, table index and value hits
    immediately after [AddEntryToCVU]. *)
Theorem cvu_add_then_verify (n : Z) (c : CVU) (rnd data index vaddr paddr : Z) :
  0 ≤ n < 2 ^ 32 - 1 → cvu_ok n c → rnd_ok n c rnd →
  ∃ c', AddEntryToCVU c rnd data index vaddr paddr = Ok c'
    ∧ ∃ p, verifyEntryInCVU c' vaddr index data true = Ok (Some p).
Proof.
  intros Hn Hok Hrnd.
  destruct (AddEntryToCVU_Ok n c rnd data index vaddr paddr) as (c' & j & -> & Hok' & Hj & Ht);
    [done..|]. exists c'. split; [done|]. rewrite (verifyEntryInCVU_Ok n) by done.
  destruct (List.find _ _) as [e|] eqn:Hf; [by eexists|]. exfalso.
  eapply List.find_none in Hf.
  2:{ rewrite Ht. apply list_elem_of_In, list_elem_of_lookup. exists (Z.to_nat j).
      apply list_lookup_insert_eq. pose proof (co_len _ _ Hok). lia. }
  unfold verifyHits in Hf. cbn in Hf. by rewrite !Z.eqb_refl in Hf.
Qed.

Lemma cvu_add_then_verify_witness :
  ∃ c', AddEntryToCVU (newCVU 4) 11 7 3 64 4096 = Ok c'
    ∧ ∃ p, verifyEntryInCVU c' 64 3 7 true = Ok (Some p).
Proof.
  apply (cvu_add_then_verify 4); [lia|apply newCVU_ok; lia|]. intros H. discriminate H.
Defined.

(** ** Two defects of the replacement logic *)

(** [std::rand() % (tableSize + 1)] can be [tableSize], one past the table. *)
Lemma cvu_random_victim_out_of_bounds n c rnd data index vaddr paddr :
  0 ≤ n < 2 ^ 32 - 1 → cvu_ok n c → InvalidEntries c = [] → u32 rnd `mod` (n + 1) = n →
  AddEntryToCVU c rnd data index vaddr paddr = Stop OutOfBounds.
Proof.
  intros Hn [Hs Hl _] Hi Hr. unfold AddEntryToCVU. rewrite Hi, Hs, (u32_id (n + 1)), Hr by lia.
  by rewrite vset_out by lia.
Qed.

(** [storeInvalidate] does not look at [valid]: two stores to one address put
    the same slot twice on the free list, and the second use of that slot
    overwrites a live entry although another entry of the table is invalid. *)
Lemma cvu_double_free_loses_live_entry :
  ∃ c c', mfold (cvu_step (λ a, a)) (newCVU 3, λ _, 0)
            [CvuLoad 0 1 64; CvuLoad 0 2 72; CvuStore 64 [5]; CvuStore 64 [6];
             CvuLoad 0 3 80; CvuLoad 0 4 88; CvuStore 72 [1]] = Ok (c, c')
  ∧ InvalidEntries c = [0; 1]
  ∧ (ceValid <$> cvuTable c) = [true; false; true]
  ∧ ∃ c2, AddEntryToCVU c 0 0 5 96 96 = Ok c2
     ∧ verifyEntryInCVU c 88 4 0 true = Ok (Some 88)
     ∧ verifyEntryInCVU c2 88 4 0 true = Ok None.
Proof.
  eexists _, _. split; [vm_compute; reflexivity|]. repeat (split; [vm_compute; reflexivity|]).
  eexists. repeat (split; [vm_compute; reflexivity|]). vm_compute. reflexivity.
Qed.
