(* ===== verification/Cpu.v ===== *)
(** * Thread scheduling policies (src/cpu/myminor/cpu.hh)

    The stages choose the thread to serve from a priority list: thread 0 only,
    round robin after the thread served last, or a random permutation.  The
    permutation drawn by [std::shuffle] is an argument. *)
From S2P Require Import Prelude.

(** [enums::ThreadPolicy] *)
Inductive ThreadPolicy := SingleThreaded | RoundRobin | Random.

(** [std::vector<ThreadID> roundRobinPriority(ThreadID priority)] *)
Definition roundRobinPriority (numThreads priority : Z) : list Z :=
  (λ i, (priority + i) `mod` numThreads) <$> zrange 1 numThreads.

(** The priority list of [getScheduledThread] and its relatives; [shuffled]
    is the result of [randomPriority()]. *)
Definition priorityList (policy : ThreadPolicy) (numThreads priority : Z) (shuffled : list Z)
  : list Z :=
  match policy with
  | SingleThreaded => [0]
  | RoundRobin => roundRobinPriority numThreads priority
  | Random => shuffled
  end.

(** The scan of the priority list that all stages share: the first thread
    that is ready. *)
Fixpoint firstReady (ready : Z → res bool) (l : list Z) : res (option Z) :=
  match l with
  | [] => Ok None
  | tid :: l => b ← ready tid; if (b : bool) then Ok (Some tid) else firstReady ready l
  end.

Lemma firstReady_Ok ready l : (∀ t, t ∈ l → ∃ b, ready t = Ok b) →
  ∃ r, firstReady ready l = Ok r ∧ ∀ t, r = Some t → t ∈ l ∧ ready t = Ok true.
Proof.
  induction l as [|x l IH]; intros Hr; [by exists None|]. cbn.
  destruct (Hr x) as (b & Hb); [left|]. rewrite Hb. cbn. destruct b.
  - exists (Some x). split; [done|]. intros t [= <-]. split; [left|done].
  - destruct IH as (r & -> & H); [intros t Ht; apply Hr; by right|].
    exists r. split; [done|]. intros t Ht. destruct (H t Ht). split; [by right|done].
Qed.

Section schedule.
Context (n : Z) (Hn : 0 < n).

Lemma roundRobin_range p t : t ∈ roundRobinPriority n p → 0 ≤ t < n.
Proof.
  intros (i & -> & _)%list_elem_of_fmap. by apply Z.mod_pos_bound.
Qed.

(** How long thread [t] waits when [p] was served last. *)
Definition waits (p t : Z) : Z := (t - p - 1) `mod` n.

Lemma waits_range p t : 0 ≤ waits p t < n.
Proof. by apply Z.mod_pos_bound. Qed.

Lemma waits_pos p t : 0 ≤ t < n → (p + (waits p t + 1)) `mod` n = t.
Proof.
  intros Ht. unfold waits.
  replace (p + ((t - p - 1) `mod` n + 1)) with ((p + 1) + (t - p - 1) `mod` n) by lia.
  rewrite Zplus_mod_idemp_r. replace (p + 1 + (t - p - 1)) with t by lia. by apply Z.mod_small.
Qed.

Lemma firstReady_prefix (ready : Z → bool) (l : list Z) (k : nat) t :
  l !! k = Some t → ready t = true →
  ∃ j s, firstReady (λ t, Ok (ready t)) l = Ok (Some s) ∧ (j ≤ k)%nat ∧ l !! j = Some s
    ∧ ready s = true.
Proof.
  revert k. induction l as [|x l IH]; intros k Hk Ht; [done|]. cbn.
  destruct (ready x) eqn:Hx.
  - exists 0%nat, x. repeat split; [lia|done].
  - destruct k as [|k]; [cbn in Hk; congruence|].
    destruct (IH k Hk Ht) as (j & s & -> & Hj & Hs & Hr).
    exists (S j), s. repeat split; [lia|done|done].
Qed.

(** One scheduling round brings thread [t] closer unless it is served. *)
Lemma roundRobin_closer (ready : Z → bool) p t : 0 ≤ t < n → ready t = true →
  ∃ s, firstReady (λ t, Ok (ready t)) (roundRobinPriority n p) = Ok (Some s)
    ∧ 0 ≤ s < n ∧ ready s = true ∧ (s = t ∨ waits s t < waits p t).
Proof.
  intros Ht Hr. pose proof (waits_range p t) as Hw.
  destruct (firstReady_prefix ready (roundRobinPriority n p) (Z.to_nat (waits p t)) t)
    as (j & s & Hf & Hj & Hs & Hrs); [|done|].
  { unfold roundRobinPriority. rewrite list_lookup_fmap, zrange_lookup by lia. cbn. f_equal.
    replace (p + (1 + Z.of_nat (Z.to_nat (waits p t)))) with (p + (waits p t + 1)) by lia.
    by apply waits_pos. }
  exists s. split; [done|].
  split. { apply (roundRobin_range p). apply list_elem_of_lookup. by exists j. }
  split; [done|].
  unfold roundRobinPriority in Hs. rewrite list_lookup_fmap in Hs.
  rewrite zrange_lookup in Hs by lia. cbn in Hs. injection Hs as <-.
  destruct (decide (Z.of_nat j = waits p t)) as [He|He].
  - left. rewrite He. replace (p + (1 + waits p t)) with (p + (waits p t + 1)) by lia.
    by apply waits_pos.
  - right. unfold waits at 1.
    replace ((t - (p + (1 + Z.of_nat j)) `mod` n - 1) `mod` n)
      with ((t - p - 1 - (1 + Z.of_nat j)) `mod` n).
    2:{ replace (t - (p + (1 + Z.of_nat j)) `mod` n - 1)
          with (t - 1 - (p + (1 + Z.of_nat j)) `mod` n) by lia.
        rewrite Zminus_mod_idemp_r. f_equal. lia. }
    rewrite <- Zminus_mod_idemp_l. fold (waits p t). rewrite Z.mod_small; lia.
Qed.

(** The threads served in successive rounds with the given ready sets. *)
Fixpoint served (rounds : list (Z → bool)) (p : Z) : list (option Z) :=
  match rounds with
  | [] => []
  | ready :: rounds =>
      match firstReady (λ t, Ok (ready t)) (roundRobinPriority n p) with
      | Ok (Some s) => Some s :: served rounds s
      | _ => None :: served rounds p
      end
  end.

Lemma served_within rounds p t : 0 ≤ t < n → Forall (λ ready, ready t = true) rounds →
  waits p t < Z.of_nat (length rounds) → Some t ∈ served rounds p.
Proof.
  intros Ht. revert p. induction rounds as [|ready rounds IH]; intros p Hr Hw; cbn in *.
  { pose proof (waits_range p t). lia. }
  apply Forall_cons in Hr as [Hr Hrs].
  destruct (roundRobin_closer ready p t Ht Hr) as (s & -> & _ & _ & [->|Hc]); [left|].
  right. apply IH; [done|]. lia.
Qed.
End schedule.

(** round-robin scheduling starves nobody: whatever the other threads do
    and whichever thread was served last, a thread that stays ready for
    [numThreads] consecutive scheduling rounds is served in one of them. *)
Theorem roundRobin_no_starvation (n p t : Z) (rounds : list (Z → bool)) :
  0 < n → 0 ≤ t < n → Z.of_nat (length rounds) = n →
  Forall (λ ready, ready t = true) rounds →
  Some t ∈ served n rounds p.
Proof.
  intros Hn Ht Hl Hr. apply served_within; [done..|]. pose proof (waits_range n Hn p t). lia.
Qed.

Lemma roundRobin_no_starvation_witness :
  Some 0 ∈ served 2 [(λ _, true); (λ t, t =? 0)] 0.
Proof.
  apply (roundRobin_no_starvation 2 0 0); [lia|lia|reflexivity|repeat constructor].
Defined.
