(* ===== verification/PipeData.v ===== *)
(** * Pipeline data (src/cpu/myminor/pipe_data.cc, pipe_data.hh, dyn_inst.cc,
    dyn_inst.hh)

    The data that the stages pass to each other: instruction ids, dynamic
    instructions, branch requests, fetched lines and instruction bundles.

    Instruction sets are not part of the CPU model: what the pipeline asks of
    a [StaticInst] (src/cpu/static_inst.hh) and of a [PCStateBase]
    (src/arch/generic/pcstate.hh) is the class [Isa], an argument of
    everything below. *)
From S2P Require Import Prelude Buffers LVPT.

(** ** Registers (src/cpu/reg_class.hh) *)

Inductive RegClassType :=
| IntRegClass | FloatRegClass | VecRegClass | VecElemClass | VecPredRegClass
| CCRegClass | MiscRegClass | InvalidRegClass.

Record RegId := mkRegId { regClass : RegClassType; regIdx : Z }.

#[export] Instance RegClassType_eq_dec : EqDecision RegClassType.
Proof. solve_decision. Defined.
#[export] Instance RegId_eq_dec : EqDecision RegId.
Proof. solve_decision. Defined.

(** [RegId()] *)
Definition RegId0 : RegId := mkRegId InvalidRegClass 0.

(** ** The instruction set interface *)

Class Isa := {
  StaticInst : Type;
  PCState : Type;
  instAddr : PCState → Z;
  microPC : PCState → Z;
  uReset : PCState → PCState;
  pc_equals : PCState → PCState → bool;
  isNullInst : StaticInst → bool;
  nullStaticInst : StaticInst;
  nullStaticInst_isNull : isNullInst nullStaticInst = true;
  opClass : StaticInst → Z;
  getEMI : StaticInst → Z;
  srcRegs : StaticInst → list RegId;
  destRegs : StaticInst → list RegId;
  isMemRef : StaticInst → bool;
  isLoad : StaticInst → bool;
  isStore : StaticInst → bool;
  isAtomic : StaticInst → bool;
  isPrefetch : StaticInst → bool;
  isDataPrefetch : StaticInst → bool;
  isControl : StaticInst → bool;
  isSyscall : StaticInst → bool;
  isQuiesce : StaticInst → bool;
  isMacroop : StaticInst → bool;
  isMicroop : StaticInst → bool;
  isLastMicroop : StaticInst → bool;
  isSerializeAfter : StaticInst → bool;
  isSquashAfter : StaticInst → bool;
  isFullMemBarrier : StaticInst → bool;
  fetchMicroop : StaticInst → Z → StaticInst;
  advancePC : StaticInst → PCState → PCState;
}.

(** [p->f] for a [StaticInstPtr p]: [nullStaticInstPtr] is a null pointer *)
Definition derefInst `{I : Isa} (p : StaticInst) : res StaticInst :=
  if isNullInst p then Stop NullDeref else Ok p.

(** [*p] of a unique pointer *)
Definition derefPtr {A} (p : option A) : res A :=
  match p with Some a => Ok a | None => Stop NullDeref end.

(** [No_OpClass] of enums/OpClass.hh *)
Definition No_OpClass : Z := 0.

(** [const ThreadID InvalidThreadID = (ThreadID)-1] *)
Definition InvalidThreadID : Z := -1.

(** [NoFault] is [None]; a fault is known by its name only. *)
Definition Fault : Type := option Z.

Definition faultSet (f : Fault) : bool := match f with None => false | Some _ => true end.

(** ** [InstId] *)

Record InstId := mkInstId {
  threadId : Z;
  streamSeqNum : Z;
  predictionSeqNum : Z;
  lineSeqNum : Z;
  fetchSeqNum : Z;
  execSeqNum : Z;
}.

#[export] Instance InstId_eq_dec : EqDecision InstId.
Proof. solve_decision. Defined.

Definition firstStreamSeqNum : Z := 1.
Definition firstPredictionSeqNum : Z := 1.
Definition firstLineSeqNum : Z := 1.
Definition firstFetchSeqNum : Z := 1.
Definition firstExecSeqNum : Z := 1.

(** the default arguments of [InstId(...)] *)
Definition InstId0 : InstId := mkInstId 0 0 0 0 0 0.

(** [bool operator== (const InstId &rhs)] *)
Definition InstId_eq (a b : InstId) : res bool :=
  let ret := (threadId a =? threadId b) && (lineSeqNum a =? lineSeqNum b)
             && (fetchSeqNum a =? fetchSeqNum b) && (execSeqNum a =? execSeqNum b) in
  if ret then
    check ((streamSeqNum a =? streamSeqNum b) && (predictionSeqNum a =? predictionSeqNum b));
    Ok ret
  else Ok ret.

Definition set_exec (n : Z) (i : InstId) : InstId :=
  mkInstId (threadId i) (streamSeqNum i) (predictionSeqNum i) (lineSeqNum i) (fetchSeqNum i) n.

Definition set_fetch (n : Z) (i : InstId) : InstId :=
  mkInstId (threadId i) (streamSeqNum i) (predictionSeqNum i) (lineSeqNum i) n (execSeqNum i).

Definition set_prediction (n : Z) (i : InstId) : InstId :=
  mkInstId (threadId i) (streamSeqNum i) n (lineSeqNum i) (fetchSeqNum i) (execSeqNum i).

(** The table outputs a fresh instruction carries. *)
Definition lvptData0 : lvptData := mkLvptData false false 0 0 0 0 0.

Section data.
Context `{I : Isa}.

(** ** [MyMinorDynInst] *)

(** The fields that execution sets. *)
Record ExecFields := mkExecFields {
  fuIndex : Z;
  inLSQ : bool;
  translationFault : Fault;
  inStoreBuffer : bool;
  canEarlyIssue : bool;
  predicate : bool;
  memAccPredicate : bool;
  instToWaitFor : Z;
  extraCommitDelay : Z;
  extraCommitDelayExpr : option Z;
  minimumCommitCycle : Z;
  flatDestRegIdx : list RegId;
}.

Record MyMinorDynInst := mkDynInst {
  staticInst : StaticInst;
  id : InstId;
  pc : option PCState;
  fault : Fault;
  lvptOut : lvptData;
  triedToPredict : bool;
  predictedTaken : bool;
  predictedTarget : option PCState;
  ex : ExecFields;
}.

(** [MyMinorDynInst(si, id_, fault_)] *)
Definition newDynInst (si : StaticInst) (id_ : InstId) (fault_ : Fault) : MyMinorDynInst :=
  mkDynInst si id_ None fault_ lvptData0 false false None
    (mkExecFields 0 false None false false true true 0 0 None 0
       (replicate (length (destRegs si)) RegId0)).

(** [bubbleInst] *)
Definition bubbleInst : MyMinorDynInst := newDynInst nullStaticInst InstId0 None.

#[export] Instance DynInst_isBubble : IsBubble MyMinorDynInst :=
  λ inst, fetchSeqNum (id inst) =? 0.

#[export] Instance DynInst_Bubble : Bubble MyMinorDynInst := {|
  bubble := bubbleInst;
  bubble_isBubble := eq_refl;
|}.

Definition isFault (inst : MyMinorDynInst) : bool := faultSet (fault inst).

Definition isInst (inst : MyMinorDynInst) : bool := negb (isBubble inst) && negb (isFault inst).

Definition inst_isMemRef (inst : MyMinorDynInst) : bool :=
  isInst inst && isMemRef (staticInst inst).

Definition isNoCostInst (inst : MyMinorDynInst) : bool :=
  isInst inst && (opClass (staticInst inst) =? No_OpClass).

Definition isLastOpInInst (inst : MyMinorDynInst) : bool :=
  negb (isMicroop (staticInst inst) && negb (isLastMicroop (staticInst inst))).

Definition with_id (f : InstId → InstId) (i : MyMinorDynInst) : MyMinorDynInst :=
  mkDynInst (staticInst i) (f (id i)) (pc i) (fault i) (lvptOut i) (triedToPredict i)
    (predictedTaken i) (predictedTarget i) (ex i).

Definition with_lvptOut (d : lvptData) (i : MyMinorDynInst) : MyMinorDynInst :=
  mkDynInst (staticInst i) (id i) (pc i) (fault i) d (triedToPredict i)
    (predictedTaken i) (predictedTarget i) (ex i).

Definition with_pc (p : option PCState) (i : MyMinorDynInst) : MyMinorDynInst :=
  mkDynInst (staticInst i) (id i) p (fault i) (lvptOut i) (triedToPredict i)
    (predictedTaken i) (predictedTarget i) (ex i).

Definition with_prediction (tried taken : bool) (t : option PCState) (i : MyMinorDynInst)
  : MyMinorDynInst :=
  mkDynInst (staticInst i) (id i) (pc i) (fault i) (lvptOut i) tried taken t (ex i).

Definition with_ex (f : ExecFields → ExecFields) (i : MyMinorDynInst) : MyMinorDynInst :=
  mkDynInst (staticInst i) (id i) (pc i) (fault i) (lvptOut i) (triedToPredict i)
    (predictedTaken i) (predictedTarget i) (f (ex i)).

(** ** [BranchData] *)

Inductive Reason :=
| NoBranch | CorrectlyPredictedBranch | UnpredictedBranch | BranchPrediction
| BadlyPredictedBranchTarget | BadlyPredictedBranch | SuspendThread | Interrupt | HaltFetch.

(** [static bool isStreamChange(const BranchData::Reason reason)] *)
Definition isStreamChange (r : Reason) : bool :=
  match r with
  | NoBranch | CorrectlyPredictedBranch => false
  | UnpredictedBranch | BranchPrediction | BadlyPredictedBranchTarget | BadlyPredictedBranch
  | SuspendThread | Interrupt | HaltFetch => true
  end.

(** [static bool isBranch(const BranchData::Reason reason)] *)
Definition isBranch (r : Reason) : bool :=
  match r with
  | NoBranch | CorrectlyPredictedBranch | SuspendThread | Interrupt | HaltFetch => false
  | UnpredictedBranch | BranchPrediction | BadlyPredictedBranchTarget | BadlyPredictedBranch => true
  end.

Record LvptIn := mkLvptIn {
  lvptInPredict : bool;
  lvptInConstant : bool;
  lvptInValue : Z;
  lvptInPC : Z;
  lvptInIndex : Z;
  lvptInAddr : Z;
}.

(** The [lvptIn*] members have no initialiser: [lvptIn = None] says that they
    have not been assigned. *)
Record BranchData := mkBranchData {
  reason : Reason;
  brThreadId : Z;
  newStreamSeqNum : Z;
  newPredictionSeqNum : Z;
  target : option PCState;
  brInst : MyMinorDynInst;
  lvptIn : option LvptIn;
}.

(** [BranchData()] *)
Definition BranchData0 : BranchData :=
  mkBranchData NoBranch InvalidThreadID 0 0 None bubbleInst None.

(** [BranchData(reason_, thread_id, new_stream_seq_num, new_prediction_seq_num, _target, inst_)] *)
Definition newBranchData (r : Reason) (tid ns np : Z) (t : PCState) (i : MyMinorDynInst) : BranchData :=
  mkBranchData r tid ns np (Some t) i None.

#[export] Instance BranchData_isBubble : IsBubble BranchData :=
  λ b, match reason b with NoBranch => true | _ => false end.

#[export] Instance BranchData_Bubble : Bubble BranchData := {|
  bubble := BranchData0;
  bubble_isBubble := eq_refl;
|}.

(** ** [ForwardLineData] *)

(** A memory packet, as far as a line needs it: its bytes. *)
Definition LinePacket : Type := list Z.

Record ForwardLineData := mkLine {
  bubbleFlag : bool;
  lineBaseAddr : Z;
  linePc : option PCState;
  fetchAddr : Z;
  lineWidth : Z;
  lineLvptOut : lvptData;
  lineFault : Fault;
  lineId : InstId;
  lineBytes : option (list Z);
  packet : option LinePacket;
}.

(** [ForwardLineData()]; its uninitialised members are read as zero *)
Definition ForwardLineData0 : ForwardLineData :=
  mkLine true 0 None 0 0 lvptData0 None InstId0 None None.

#[export] Instance Line_isBubble : IsBubble ForwardLineData := bubbleFlag.

#[export] Instance Line_Bubble : Bubble ForwardLineData := {|
  bubble := ForwardLineData0;
  bubble_isBubble := eq_refl;
|}.

Definition line_isFault (l : ForwardLineData) : bool := faultSet (lineFault l).

(** [void setFault(Fault fault_)] *)
Definition setFault (l : ForwardLineData) (f : Fault) : ForwardLineData :=
  mkLine (if faultSet f then false else bubbleFlag l) (lineBaseAddr l) (linePc l) (fetchAddr l)
    (lineWidth l) (lineLvptOut l) f (lineId l) (lineBytes l) (packet l).

(** [void allocateLine(unsigned int width_)]; [bytes] is the new storage *)
Definition allocateLine (l : ForwardLineData) (bytes : list Z) : res ForwardLineData :=
  check (negb (line_isFault l));
  check (match lineBytes l with None => true | Some _ => false end);
  Ok (mkLine false (lineBaseAddr l) (linePc l) (fetchAddr l) (u32 (Z.of_nat (length bytes)))
        (lineLvptOut l) (lineFault l) (lineId l) (Some bytes) (packet l)).

(** [void adoptPacketData(Packet *packet)] *)
Definition adoptPacketData (l : ForwardLineData) (p : LinePacket) : res ForwardLineData :=
  check (negb (line_isFault l));
  check (match lineBytes l with None => true | Some _ => false end);
  Ok (mkLine false (lineBaseAddr l) (linePc l) (fetchAddr l) (u32 (Z.of_nat (length p)))
        (lineLvptOut l) (lineFault l) (lineId l) (Some p) (Some p)).

(** [void freeLine()]; the packet pointer is left as it is *)
Definition freeLine (l : ForwardLineData) : res ForwardLineData :=
  if negb (line_isFault l) && negb (isBubble l) then
    check (match lineBytes l with Some _ => true | None => false end);
    Ok (mkLine true (lineBaseAddr l) (linePc l) (fetchAddr l) (lineWidth l) (lineLvptOut l)
          (lineFault l) (lineId l) None (packet l))
  else Ok l.

(** ** [ForwardInstData] *)

Definition MAX_FORWARD_INSTS : Z := 16.

(** [insts] holds the first [numInsts] elements of the array, the ones that
    are ever read. *)
Record ForwardInstData := mkInsts {
  insts : list MyMinorDynInst;
  instsThreadId : Z;
}.

Definition width (d : ForwardInstData) : Z := Z.of_nat (length (insts d)).

(** [ForwardInstData(width, tid)] *)
Definition newForwardInstData (w tid : Z) : ForwardInstData :=
  mkInsts (replicate (Z.to_nat w) bubbleInst) tid.

#[export] Instance Insts_isBubble : IsBubble ForwardInstData :=
  λ d, match insts d with [] => true | i :: _ => isBubble i end.

#[export] Instance Insts_Bubble : Bubble ForwardInstData := {|
  bubble := newForwardInstData 0 InvalidThreadID;
  bubble_isBubble := eq_refl;
|}.

(** [void resize(unsigned int width)] *)
Definition resize (d : ForwardInstData) (w : Z) : res ForwardInstData :=
  check (w <? MAX_FORWARD_INSTS);
  Ok (mkInsts (replicate (Z.to_nat w) bubbleInst) (instsThreadId d)).

(** [insts[i] = inst] *)
Definition put_inst (d : ForwardInstData) (i : Z) (inst : MyMinorDynInst) : res ForwardInstData :=
  l ← vset (insts d) i inst; Ok (mkInsts l (instsThreadId d)).

End data.
Arguments MyMinorDynInst I : clear implicits.
Arguments BranchData I : clear implicits.
Arguments ForwardLineData I : clear implicits.
Arguments ForwardInstData I : clear implicits.

(** Every branch proper changes the stream; the requests that change the
    stream without being branches only suspend, interrupt or halt a thread. *)
Lemma isBranch_isStreamChange (r : Reason) :
  isStreamChange r = true ↔
    isBranch r = true ∨ r = SuspendThread ∨ r = Interrupt ∨ r = HaltFetch.
Proof. destruct r; cbn; naive_solver. Qed.

(** ** A small instruction set

    An instance of [Isa] on which the statements can be evaluated. *)
Module Toy.

Record si := mkSi {
  load : bool;
  store : bool;
  control : bool;
  op : Z;
  srcs : list RegId;
  dests : list RegId;
  micros : Z;    (* number of micro-ops, 0 when not a macro-op *)
  micro : bool;
  last : bool;
}.

Definition null : si := mkSi false false false 0 [] [] 0 false false.
Definition alu : si := mkSi false false false 1 [mkRegId IntRegClass 1] [mkRegId IntRegClass 2] 0 false false.
Definition ld : si := mkSi true false false 2 [mkRegId IntRegClass 1] [mkRegId IntRegClass 3] 0 false false.
Definition st : si := mkSi false true false 3 [mkRegId IntRegClass 1; mkRegId IntRegClass 2] [] 0 false false.
Definition br : si := mkSi false false true 4 [] [] 0 false false.
Definition macro (k : Z) : si := mkSi false false false 1 [] [] k false false.
Definition uop (k upc : Z) : si := mkSi false false false 1 [] [] 0 true (k <=? upc + 1).

#[export] Instance isa : Isa := {|
  StaticInst := si;
  PCState := Z * Z;
  instAddr := fst;
  microPC := snd;
  uReset p := (p.1, 0);
  pc_equals p q := (p.1 =? q.1) && (p.2 =? q.2);
  isNullInst i := op i =? 0;
  nullStaticInst := null;
  nullStaticInst_isNull := eq_refl;
  opClass := op;
  getEMI := op;
  srcRegs := srcs;
  destRegs := dests;
  isMemRef i := negb (op i =? 0) && (load i || store i);
  isLoad := load;
  isStore := store;
  isAtomic _ := false;
  isPrefetch _ := false;
  isDataPrefetch _ := false;
  isControl := control;
  isSyscall _ := false;
  isQuiesce _ := false;
  isMacroop i := 0 <? micros i;
  isMicroop := micro;
  isLastMicroop := last;
  isSerializeAfter _ := false;
  isSquashAfter _ := false;
  isFullMemBarrier _ := false;
  fetchMicroop i upc := uop (micros i) upc;
  advancePC i p := if micro i && negb (last i) then (p.1, p.2 + 1) else (p.1 + 4, 0);
|}.

Definition inst (i : si) (addr seq : Z) : MyMinorDynInst isa :=
  with_pc (Some (addr, 0)) (newDynInst (I := isa) i (mkInstId 0 1 1 1 seq 0) None).

End Toy.
