(* ===== verification/BpTables.v ===== *)
(** * Tables of the branch predictor
    (src/src/cpu/pred/ras.cc, btb.cc, simple_indirect.cc, src/src/base/sat_counter.hh,
    src/src/base/intmath.hh)

    The return address stack, the branch target buffer, the indirect target
    predictor and saturating counters.  A [std::unique_ptr<PCStateBase>] is an
    option, and [set] assigns it. *)
From S2P Require Import Prelude PipeData.

(** ** Integers (intmath.hh, bitfield.hh) *)

(** [floorLog2(x)] *)
Definition floorLog2 (x : Z) : res Z := check (0 <? x); Ok (Z.log2 x).
(** [ceilLog2(n)] *)
Definition ceilLog2 (n : Z) : res Z :=
  check (0 <? n);
  if n =? 1 then Ok 0 else l ← floorLog2 (n - 1); Ok (l + 1).
(** [isPowerOf2(n)] *)
Definition isPowerOf2 (n : Z) : bool := negb (n =? 0) && (Z.land n (n - 1) =? 0).
(** [mask(nbits)] *)
Definition mask (nbits : Z) : Z := if 64 <=? nbits then 2 ^ 64 - 1 else 2 ^ nbits - 1.
(** [~1ULL] *)
Definition clearLSB : Z := u64 (Z.lnot 1).

(** ** Saturating counters of at most 8 bits *)

Record SatCounter8 := mkSat { maxVal : Z; counter : Z }.

(** [GenericSatCounter(bits)] *)
Definition newSatCounter (bits : Z) : res SatCounter8 :=
  if 8 <? bits then Stop Fatal else Ok (mkSat (2 ^ bits - 1) 0).
(** [operator++] *)
Definition sat_inc (c : SatCounter8) : SatCounter8 :=
  if counter c <? maxVal c then mkSat (maxVal c) (counter c + 1) else c.
(** [operator--] *)
Definition sat_dec (c : SatCounter8) : SatCounter8 :=
  if 0 <? counter c then mkSat (maxVal c) (counter c - 1) else c.

(** [ctrs[idx]++] and [ctrs[idx]--] *)
Definition train (taken : bool) (ctrs : list SatCounter8) (idx : Z) : res (list SatCounter8) :=
  c ← vget ctrs idx; vset ctrs idx (if taken then sat_inc c else sat_dec c).

(** a counter above its threshold *)
Definition above (ctrs : list SatCounter8) (idx threshold : Z) : res bool :=
  c ← vget ctrs idx; Ok (threshold <? counter c).

Section tables.
Context `{I : Isa}.

(** ** Return address stack *)

Record ReturnAddrStack := mkRAS {
  addrStack : list (option PCState);
  ras_numEntries : Z;
  usedEntries : Z;
  tos : Z;
}.
Implicit Types (r : ReturnAddrStack).

(** [reset()] *)
Definition ras_reset r : ReturnAddrStack := mkRAS (addrStack r) (ras_numEntries r) 0 0.
(** [init(numEntries)]; the counters are not initialised before *)
Definition ras_init (n : Z) : ReturnAddrStack := ras_reset (mkRAS (replicate (Z.to_nat n) None) n 0 0).
(** [top()] *)
Definition ras_top r : res (option PCState) := vget (addrStack r) (tos r).
(** [incrTos()] and [decrTos()] *)
Definition incrTos r : Z := let t := u32 (tos r + 1) in if t =? ras_numEntries r then 0 else t.
Definition decrTos r : Z := if tos r =? 0 then u32 (ras_numEntries r - 1) else tos r - 1.
(** [if (usedEntries != numEntries) ++usedEntries] *)
Definition moreUsed r : Z :=
  if negb (usedEntries r =? ras_numEntries r) then u32 (usedEntries r + 1) else usedEntries r.
(** [push(return_addr)] *)
Definition ras_push (p : PCState) r : res ReturnAddrStack :=
  l ← vset (addrStack r) (incrTos r) (Some p);
  Ok (mkRAS l (ras_numEntries r) (moreUsed r) (incrTos r)).
(** [pop()] *)
Definition ras_pop r : ReturnAddrStack :=
  mkRAS (addrStack r) (ras_numEntries r) (if 0 <? usedEntries r then usedEntries r - 1 else usedEntries r) (decrTos r).
(** [restore(top_entry_idx, restored)] *)
Definition ras_restore (idx : Z) (restored : option PCState) r : res ReturnAddrStack :=
  l ← vset (addrStack r) idx restored;
  Ok (mkRAS l (ras_numEntries r) (moreUsed r) idx).

(** ** Branch target buffer *)

Record BTBEntry := mkBTBEntry {
  be_tag : Z;
  be_target : option PCState;
  be_tid : Z;
  be_valid : bool;
}.
Record DefaultBTB := mkBTB {
  btb : list BTBEntry;
  btb_numEntries : Z;
  idxMask : Z;
  tagMask : Z;
  btb_instShiftAmt : Z;
  tagShiftAmt : Z;
  log2NumThreads : Z;
}.
Implicit Types (t : DefaultBTB).

(** [DefaultBTB(numEntries, tagBits, instShiftAmt, num_threads)]; the thread of
    a new entry is not initialised *)
Definition newBTB (numEntries tagBits instShiftAmt num_threads : Z) : res DefaultBTB :=
  lt ← floorLog2 num_threads;
  if negb (isPowerOf2 numEntries) then Stop Fatal
  else
    le ← floorLog2 numEntries;
    Ok (mkBTB (replicate (Z.to_nat numEntries) (mkBTBEntry 0 None 0 false)) numEntries (numEntries - 1)
          (u32 (Z.shiftl 1 tagBits - 1)) instShiftAmt (u32 (instShiftAmt + le)) lt).
(** [reset()] *)
Definition btb_reset t : DefaultBTB :=
  mkBTB ((λ e, mkBTBEntry (be_tag e) (be_target e) (be_tid e) false) <$> btb t) (btb_numEntries t) (idxMask t)
    (tagMask t) (btb_instShiftAmt t) (tagShiftAmt t) (log2NumThreads t).
(** [getIndex(instPC, tid)] *)
Definition getIndex t (instPC tid : Z) : Z :=
  Z.land (Z.lxor (Z.shiftr instPC (btb_instShiftAmt t))
            (u64 (i32 (Z.shiftl tid (u32 (tagShiftAmt t - btb_instShiftAmt t - log2NumThreads t))))))
    (idxMask t).
(** [getTag(instPC)] *)
Definition btb_getTag t (instPC : Z) : Z := Z.land (Z.shiftr instPC (tagShiftAmt t)) (tagMask t).
(** the test of [valid] and [lookup] *)
Definition entryHit t (instPC tid : Z) (e : BTBEntry) : bool :=
  be_valid e && (btb_getTag t instPC =? be_tag e) && (be_tid e =? tid).
(** [valid(instPC, tid)] *)
Definition btb_valid t (instPC tid : Z) : res bool :=
  let idx := getIndex t instPC tid in
  check (idx <? btb_numEntries t);
  e ← vget (btb t) idx;
  Ok (entryHit t instPC tid e).
(** [lookup(inst_pc, tid)] *)
Definition btb_lookup t (instPC tid : Z) : res (option PCState) :=
  let idx := getIndex t instPC tid in
  check (idx <? btb_numEntries t);
  e ← vget (btb t) idx;
  Ok (if entryHit t instPC tid e then be_target e else None).
(** [update(inst_pc, target, tid)] *)
Definition btb_update t (instPC : Z) (target : PCState) (tid : Z) : res DefaultBTB :=
  let idx := getIndex t instPC tid in
  check (idx <? btb_numEntries t);
  l ← vset (btb t) idx (mkBTBEntry (btb_getTag t instPC) (Some target) tid true);
  Ok (mkBTB l (btb_numEntries t) (idxMask t) (tagMask t) (btb_instShiftAmt t) (tagShiftAmt t) (log2NumThreads t)).

(** ** Indirect targets *)

Record IPredEntry := mkIPredEntry { ie_tag : Z; ie_target : option PCState }.
Record HistoryEntry := mkHistoryEntry { he_pcAddr : Z; he_targetAddr : Z; he_seqNum : Z }.
Record IThreadInfo := mkIThreadInfo {
  pathHist : list HistoryEntry;   (* oldest first *)
  headHistEntry : Z;
  ghr : Z;
}.
Record IndirectParams := mkIndirectParams {
  hashGHR : bool;
  hashTargets : bool;
  numSets : Z;
  numWays : Z;
  ind_tagBits : Z;
  pathLength : Z;
  ind_instShift : Z;
  ghrNumBits : Z;
}.
Record SimpleIndirectPredictor := mkIndirect {
  ind_cfg : IndirectParams;
  targetCache : list (list IPredEntry);
  threadInfo : list IThreadInfo;
}.
Implicit Types (p : SimpleIndirectPredictor) (i : IThreadInfo).

(** [ghrMask] *)
Definition ghrMask (c : IndirectParams) : Z := u32 (Z.shiftl 1 (ghrNumBits c) - 1).

(** [SimpleIndirectPredictor(params)] *)
Definition newIndirect (c : IndirectParams) (numThreads : Z) : res SimpleIndirectPredictor :=
  if negb (isPowerOf2 (numSets c)) then Stop Panic
  else if 32 <? ghrNumBits c then Stop Fatal
  else Ok (mkIndirect c
             (replicate (Z.to_nat (numSets c)) (replicate (Z.to_nat (numWays c)) (mkIPredEntry 0 None)))
             (replicate (Z.to_nat numThreads) (mkIThreadInfo [] 0 0))).

(** [threadInfo[tid] = i] *)
Definition ind_set (tid : Z) i p : res SimpleIndirectPredictor :=
  l ← vset (threadInfo p) tid i; Ok (mkIndirect (ind_cfg p) (targetCache p) l).
Definition ind_setGhr (tid g : Z) p : res SimpleIndirectPredictor :=
  i ← vget (threadInfo p) tid; ind_set tid (mkIThreadInfo (pathHist i) (headHistEntry i) g) p.

(** [genIndirectInfo(tid, indirect_history)] *)
Definition genIndirectInfo (tid : Z) p : res Z := i ← vget (threadInfo p) tid; Ok (ghr i).
(** [updateDirectionInfo(tid, actually_taken)] *)
Definition updateDirectionInfo (tid : Z) (taken : bool) p : res SimpleIndirectPredictor :=
  i ← vget (threadInfo p) tid;
  ind_setGhr tid (Z.land (Z.lor (u32 (Z.shiftl (ghr i) 1)) (b2z taken)) (ghrMask (ind_cfg p))) p.
(** [changeDirectionPrediction(tid, indirect_history, actually_taken)] *)
Definition changeDirectionPrediction (tid previousGhr : Z) (taken : bool) p : res SimpleIndirectPredictor :=
  ind_setGhr tid (Z.land (u32 (u32 (Z.shiftl previousGhr 1) + b2z taken)) (ghrMask (ind_cfg p))) p.

(** [getSetIndex(br_addr, ghr, tid)]; a path length of 0 divides by zero *)
Definition getSetIndex (br_addr g : Z) i (c : IndirectParams) : res Z :=
  let hash := Z.shiftr br_addr (ind_instShift c) in
  let hash := if hashGHR c then Z.lxor hash g else hash in
  hash ← (if hashTargets c then
            l ← floorLog2 (numSets c);
            if pathLength c =? 0 then Stop Panic
            else
              let hash_shift := l `div` pathLength c in
              Ok (foldl Z.lxor hash
                    (imap (λ k h, Z.shiftr (he_targetAddr h) (u32 (ind_instShift c + Z.of_nat k * hash_shift)))
                       (take (Z.to_nat (pathLength c)) (reverse (pathHist i)))))
          else Ok hash);
  Ok (Z.land hash (numSets c - 1)).
(** [getTag(br_addr)] *)
Definition ind_getTag (br_addr : Z) (c : IndirectParams) : Z :=
  Z.land (Z.shiftr br_addr (ind_instShift c)) (u64 (i32 (Z.shiftl 1 (ind_tagBits c) - 1))).

(** [lookup(br_addr, target, tid)]: the target of a hit *)
Definition ind_lookup (br_addr tid : Z) p : res (option PCState) :=
  i ← vget (threadInfo p) tid;
  idx ← getSetIndex br_addr (ghr i) i (ind_cfg p);
  check (idx <? numSets (ind_cfg p));
  iset ← vget (targetCache p) idx;
  Ok (match List.find (λ w, (ie_tag w =? ind_getTag br_addr (ind_cfg p)) && bool_decide (is_Some (ie_target w))) iset with
      | Some w => ie_target w
      | None => None
      end).
(** [recordIndirect(br_addr, tgt_addr, seq_num, tid)] *)
Definition recordIndirect (br_addr tgt_addr seq_num tid : Z) p : res SimpleIndirectPredictor :=
  i ← vget (threadInfo p) tid;
  ind_set tid (mkIThreadInfo (pathHist i ++ [mkHistoryEntry br_addr tgt_addr seq_num]) (headHistEntry i) (ghr i)) p.
(** [commit(seq_num, tid, indirect_history)] *)
Definition ind_commit (seq_num tid : Z) p : res SimpleIndirectPredictor :=
  i ← vget (threadInfo p) tid;
  match pathHist i with
  | [] => Ok p
  | _ :: rest =>
      match vget (pathHist i) (headHistEntry i) with
      | Ok h =>
          if he_seqNum h <=? seq_num then
            if pathLength (ind_cfg p) <=? headHistEntry i
            then ind_set tid (mkIThreadInfo rest (headHistEntry i) (ghr i)) p
            else ind_set tid (mkIThreadInfo (pathHist i) (u32 (headHistEntry i + 1)) (ghr i)) p
          else Ok p
      | Stop _ => Ok p
      end
  end.
(** the entries before the first one that is younger than [seq_num] *)
Fixpoint upTo (seq_num : Z) (l : list HistoryEntry) : list HistoryEntry :=
  match l with
  | [] => []
  | h :: l => if seq_num <? he_seqNum h then [] else h :: upTo seq_num l
  end.
(** [squash(seq_num, tid)] *)
Definition ind_squash (seq_num tid : Z) p : res SimpleIndirectPredictor :=
  i ← vget (threadInfo p) tid;
  ind_set tid (mkIThreadInfo (upTo seq_num (pathHist i)) (headHistEntry i) (ghr i)) p.
(** [deleteIndirectInfo(tid, indirect_history)] *)
Definition deleteIndirectInfo (tid previousGhr : Z) p : res SimpleIndirectPredictor := ind_setGhr tid previousGhr p.

(** the way that gets a target: the first one with the tag, or the one drawn by [rand()] *)
Definition chooseWay (tag victim : Z) (iset : list IPredEntry) : Z :=
  match list_find (λ w, ie_tag w = tag) iset with
  | Some (k, _) => Z.of_nat k
  | None => victim
  end.
(** [recordTarget(seq_num, indirect_history, target, tid)]; [victim] is
    [rand() % numWays] *)
Definition recordTarget (victim previousGhr : Z) (target : PCState) (tid : Z) p : res SimpleIndirectPredictor :=
  i ← vget (threadInfo p) tid;
  match last (pathHist i) with
  | None => Stop OutOfBounds
  | Some h =>
      let older := removelast (pathHist i) in
      idx ← getSetIndex (he_pcAddr h) previousGhr (mkIThreadInfo older (headHistEntry i) (ghr i)) (ind_cfg p);
      let tag := ind_getTag (he_pcAddr h) (ind_cfg p) in
      p ← ind_set tid (mkIThreadInfo (older ++ [mkHistoryEntry (he_pcAddr h) (instAddr target) (he_seqNum h)])
                         (headHistEntry i) (ghr i)) p;
      check (idx <? numSets (ind_cfg p));
      iset ← vget (targetCache p) idx;
      iset ← vset iset (chooseWay tag victim iset) (mkIPredEntry tag (Some target));
      l ← vset (targetCache p) idx iset;
      Ok (mkIndirect (ind_cfg p) l (threadInfo p))
  end.
End tables.
