(* ===== verification/BpTableProps.v ===== *)
(** * The tables of the branch predictor: lemmas

    Code that returns ([returns]), vectors of a size whose elements have a
    property ([vec]), the return address stack and how far it is restored
    ([ras_back]), and the branch target buffer as the history of its updates. *)
From S2P Require Import Prelude PipeData BpTables.

(** ** Code that returns *)

Definition returns {A} (m : res A) (Q : A → Prop) : Prop := ∃ a, m = Ok a ∧ Q a.

Lemma returns_bind {A B} (m : res A) (f : A → res B) Q : returns m (λ a, returns (f a) Q) → returns (rbind m f) Q.
Proof. intros (a & -> & b & Hb & HQ). by exists b. Qed.
Lemma returns_ret {A} (a : A) (Q : A → Prop) : Q a → returns (Ok a) Q.
Proof. by exists a. Qed.
Lemma returns_conseq {A} (m : res A) (Q Q' : A → Prop) : returns m Q → (∀ a, Q a → Q' a) → returns m Q'.
Proof. intros (a & Ha & HQ) HQQ. exists a. auto. Qed.
Lemma returns_check b (Q : unit → Prop) : b = true → Q tt → returns (assert_ b) Q.
Proof. intros -> ?. by exists tt. Qed.

(** ** Vectors *)

Definition vec {A} (n : Z) (P : A → Prop) (l : list A) : Prop := Z.of_nat (length l) = n ∧ Forall P l.

Lemma vec_get {A} n (P : A → Prop) l i : vec n P l → 0 ≤ i < n → returns (vget l i) (λ x, vget l i = Ok x ∧ P x).
Proof.
  intros [Hn HP] Hi. destruct (vget_lt l i) as (x & Hx); [lia|]. exists x. split_and!; [done..|].
  apply vget_Ok in Hx as [_ Hx]. by eapply Forall_lookup_1.
Qed.
Lemma vec_set {A} n (P : A → Prop) l i x : vec n P l → 0 ≤ i < n → P x →
  returns (vset l i x) (λ l', vset l i x = Ok l' ∧ vec n P l').
Proof.
  intros [Hn HP] Hi Hx. exists (<[Z.to_nat i := x]> l). rewrite vset_lt by lia. split_and!; [done..|].
  split; [by rewrite length_insert|by apply Forall_insert].
Qed.
Lemma vec_replicate {A} n (P : A → Prop) x : 0 ≤ n → P x → vec n P (replicate (Z.to_nat n) x).
Proof. intros Hn Hx. split; [rewrite length_replicate; lia|by apply Forall_replicate]. Qed.
Lemma vec_at {A} n (P : A → Prop) l i x : vec n P l → vget l i = Ok x → P x.
Proof. intros [_ HP] [_ Hx]%vget_Ok. by eapply Forall_lookup_1. Qed.
(** an element is put back *)
Lemma vset_back {A} (l l1 : list A) i x y : vget l i = Ok x → vset l i y = Ok l1 → vset l1 i x = Ok l.
Proof.
  intros Hx Hy. pose proof (vget_bound _ _ _ Hx) as Hi. pose proof (vset_length _ _ _ _ Hy) as Hl.
  rewrite vset_lt by lia. f_equal. pose proof (vset_lt l1 i x ltac:(lia)) as H.
  apply (vset_vset _ _ _ _ _ _ Hy) in H. rewrite (vset_self _ _ _ Hx) in H. by injection H.
Qed.

(** ** Powers of two *)

Definition pow2 (n : Z) : Prop := ∃ k, 0 ≤ k ∧ n = 2 ^ k.

Lemma isPowerOf2_pow2 n : 0 ≤ n → isPowerOf2 n = true → pow2 n.
Proof.
  intros Hn H. unfold isPowerOf2 in H. apply andb_true_iff in H as [H1%negb_true_iff%Z.eqb_neq H2%Z.eqb_eq].
  pose proof (Z.log2_spec n ltac:(lia)) as [Hl Hu]. pose proof (Z.log2_nonneg n). exists (Z.log2 n). split; [done|].
  destruct (Z.eq_dec n (2 ^ Z.log2 n)) as [|Hne]; [done|]. exfalso.
  assert (Z.testbit (Z.land n (n - 1)) (Z.log2 n) = true) as Hb; [|by rewrite H2, Z.bits_0 in Hb].
  rewrite Z.land_spec, Z.bit_log2 by lia. cbn. replace (Z.log2 n) with (Z.log2 (n - 1)) at 1; [apply Z.bit_log2; lia|].
  apply Z.log2_unique; lia.
Qed.

(** an index made with a mask *)
Lemma land_pow2 x n : pow2 n → 0 ≤ Z.land x (n - 1) < n.
Proof.
  intros (k & Hk & ->). rewrite Z.sub_1_r, <- Z.ones_equiv, Z.land_ones by lia. apply Z.mod_pos_bound. lia.
Qed.

Lemma land_mod x n : pow2 n → Z.land x (n - 1) = x `mod` n.
Proof. intros (k & Hk & ->). by rewrite Z.sub_1_r, <- Z.ones_equiv, Z.land_ones by lia. Qed.

Lemma ceilLog2_pow2 n : 0 ≤ n → isPowerOf2 n = true → ∀ b, ceilLog2 n = Ok b → 0 ≤ b ∧ n = 2 ^ b.
Proof.
  intros Hn (k & Hk & ->)%isPowerOf2_pow2 b; [|done]. unfold ceilLog2. intros (u & _ & E)%bind_Ok.
  destruct (Z.eqb_spec (2 ^ k) 1) as [H1|H1].
  { injection E as <-. split; [done|]. by rewrite H1. }
  unfold floorLog2 in E. apply bind_Ok in E as (l & E & [= <-]). apply bind_Ok in E as (u' & _ & [= <-]).
  assert (0 < k) by (destruct (Z.eq_dec k 0) as [->|]; [done|lia]).
  replace (2 ^ k - 1) with (Z.pred (2 ^ k)) by lia. rewrite Z.log2_pred_pow2 by done.
  split; [lia|]. f_equal. lia.
Qed.

(** ** Counters *)

Definition sat_ok (c : SatCounter8) : Prop := 0 ≤ counter c ≤ maxVal c.

Lemma train_returns taken ctrs n idx : vec n sat_ok ctrs → 0 ≤ idx < n →
  returns (train taken ctrs idx) (vec n sat_ok).
Proof.
  intros Hv Hi. unfold train. apply returns_bind. eapply returns_conseq; [by eapply vec_get|]. intros c [_ Hc].
  eapply returns_conseq; [eapply vec_set; [done..|]|by intros l [_ ?]].
  unfold sat_ok, sat_inc, sat_dec in *. destruct taken.
  - destruct (Z.ltb_spec (counter c) (maxVal c)); cbn; lia.
  - destruct (Z.ltb_spec 0 (counter c)); cbn; lia.
Qed.

Lemma above_returns ctrs n idx t : vec n sat_ok ctrs → 0 ≤ idx < n → returns (above ctrs idx t) (λ _, True).
Proof.
  intros Hv Hi. unfold above. apply returns_bind. eapply returns_conseq; [by eapply vec_get|]. intros c _.
  by apply returns_ret.
Qed.

Section tables.
Context `{I : Isa}.
Implicit Types (r : ReturnAddrStack) (t : DefaultBTB) (p : SimpleIndirectPredictor).

(** ** The return address stack *)

Record ras_ok (R : Z) r : Prop := {
  ro_size : ras_numEntries r = R;
  ro_pos : 0 < R < 2 ^ 32;
  ro_length : Z.of_nat (length (addrStack r)) = R;
  ro_tos : 0 ≤ tos r < R;
  ro_used : 0 ≤ usedEntries r ≤ R;
}.

Lemma ras_init_ok R : 0 < R < 2 ^ 32 → ras_ok R (ras_init R).
Proof. intros H. split; cbn; rewrite ?length_replicate; lia. Qed.

Lemma incrTos_mod R r : ras_ok R r → incrTos r = (tos r + 1) `mod` R.
Proof.
  intros []. unfold incrTos. rewrite ro_size0, u32_id by lia. destruct (Z.eqb_spec (tos r + 1) R) as [E|E].
  - by rewrite E, Z.mod_same by lia.
  - by rewrite Z.mod_small by lia.
Qed.
Lemma decrTos_mod R r : ras_ok R r → decrTos r = (tos r - 1) `mod` R.
Proof.
  intros []. unfold decrTos. rewrite ro_size0. destruct (Z.eqb_spec (tos r) 0) as [E|E].
  - rewrite E, u32_id by lia. rewrite <- (Z.mod_add (0 - 1) 1 R) by lia. rewrite Z.mod_small; lia.
  - by rewrite Z.mod_small by lia.
Qed.
Lemma moreUsed_ok R r : ras_ok R r → 0 ≤ moreUsed r ≤ R.
Proof.
  intros []. unfold moreUsed. rewrite ro_size0. destruct (Z.eqb_spec (usedEntries r) R); cbn; [lia|].
  rewrite u32_id; lia.
Qed.

Lemma ras_push_ok R a r : ras_ok R r → returns (ras_push a r) (ras_ok R).
Proof.
  intros Hr. pose proof (moreUsed_ok R r Hr). pose proof (incrTos_mod R r Hr) as Ht. destruct Hr.
  pose proof (Z.mod_pos_bound (tos r + 1) R ltac:(lia)). unfold ras_push. rewrite vset_lt by lia.
  apply returns_ret. split; cbn; rewrite ?length_insert; lia.
Qed.
Lemma ras_pop_ok R r : ras_ok R r → ras_ok R (ras_pop r).
Proof.
  intros Hr. pose proof (decrTos_mod R r Hr). destruct Hr. pose proof (Z.mod_pos_bound (tos r - 1) R ltac:(lia)).
  split; cbn; try lia. destruct (Z.ltb_spec 0 (usedEntries r)); lia.
Qed.
Lemma ras_restore_ok R idx a r : ras_ok R r → 0 ≤ idx < R → returns (ras_restore idx a r) (ras_ok R).
Proof.
  intros Hr Hi. pose proof (moreUsed_ok R r Hr). destruct Hr. unfold ras_restore. rewrite vset_lt by lia.
  apply returns_ret. split; cbn; rewrite ?length_insert; lia.
Qed.
Lemma ras_top_ok R r : ras_ok R r → returns (ras_top r) (λ a, vget (addrStack r) (tos r) = Ok a).
Proof. intros []. unfold ras_top. destruct (vget_lt (addrStack r) (tos r)) as (a & ->); [lia|]. by exists a. Qed.

(** [r'] is [r] but for the [k] slots above the top *)
Record ras_back (R k : Z) r r' : Prop := {
  rb_ok : ras_ok R r';
  rb_tos : tos r' = tos r;
  rb_slots j : 0 ≤ j < R → (∀ i, 1 ≤ i ≤ k → j ≠ (tos r + i) `mod` R) → vget (addrStack r') j = vget (addrStack r) j;
}.

Lemma ras_back_refl R r : ras_ok R r → ras_back R 0 r r.
Proof. by split. Qed.

Lemma ras_back_mono R k k' r r' : k ≤ k' → ras_back R k r r' → ras_back R k' r r'.
Proof. intros Hk [H1 H2 H3]. split; [done..|]. intros j Hj Hi. apply H3; [done|]. intros i Hi'. apply Hi. lia. Qed.

Lemma mod_shift a i R : 0 < R → (a `mod` R + i) `mod` R = (a + i) `mod` R.
Proof. intros HR. by rewrite Zplus_mod_idemp_l. Qed.

(** a push is undone by a pop *)
Lemma ras_back_push R k a r r1 r2 : 0 ≤ k → ras_ok R r → ras_push a r = Ok r1 → ras_back R k r1 r2 →
  ras_back R (k + 1) r (ras_pop r2).
Proof.
  intros Hk Hr (l & Hl & [= <-])%bind_Ok [Hok Ht Hs]. cbn in Ht, Hs. pose proof (incrTos_mod R r Hr) as Hi.
  pose proof (decrTos_mod R r2 Hok) as Hd. pose proof (ras_pop_ok R r2 Hok) as Hp. destruct Hr. split; [done|..].
  - cbn. rewrite Hd, Ht, Hi. rewrite <- Z.add_opp_r, mod_shift by lia. rewrite Z.mod_small; lia.
  - cbn. intros j Hj Hne. rewrite Hs; [|done|].
    + apply (vget_vset_ne _ _ _ _ _ Hl). rewrite Hi. intros E. apply (Hne 1); [lia|by rewrite <- E].
    + intros i Hi'. rewrite Hi, mod_shift by lia. replace (tos r + 1 + i) with (tos r + (i + 1)) by lia. apply Hne. lia.
Qed.

(** a pop is undone by restoring the top *)
Lemma ras_back_pop R k a r r2 r3 : 0 ≤ k → ras_ok R r → vget (addrStack r) (tos r) = Ok a → ras_back R k (ras_pop r) r2 →
  ras_restore (tos r) a r2 = Ok r3 → ras_back R k r r3.
Proof.
  intros Hk Hr Ha [Hok Ht Hs] E. pose proof (ras_restore_ok R (tos r) a r2 Hok (ro_tos _ _ Hr)) as (r3' & E' & Hok3).
  rewrite E in E'. injection E' as <-. pose proof (decrTos_mod R r Hr) as Hd. unfold ras_restore in E.
  apply bind_Ok in E as (l & Hl & [= <-]). destruct Hr. split; [done..|]. cbn. intros j Hj Hne.
  destruct (decide (tos r = j)) as [<-|Hj']; [by rewrite (vget_vset_eq _ _ _ _ Hl)|].
  rewrite (vget_vset_ne _ _ _ _ _ Hl) by done. cbn in Hs. rewrite Hs; [done..|]. intros i Hi. rewrite Hd.
  rewrite mod_shift by lia. replace (tos r - 1 + i) with (tos r + (i - 1)) by lia.
  destruct (decide (i = 1)) as [->|]; [|apply Hne; lia]. rewrite Z.add_0_r, Z.mod_small; lia.
Qed.

(** a push and a pop before anything else *)
Lemma ras_back_touch R k a r r1 r2 : 0 ≤ k → ras_ok R r → ras_push a r = Ok r1 → ras_back R k (ras_pop r1) r2 →
  ras_back R (k + 1) r r2.
Proof.
  intros Hk Hr Hp [Hok Ht Hs]. pose proof (ras_push_ok R a r Hr) as (r1' & E & Hok1). rewrite Hp in E. injection E as <-.
  destruct (ras_back_push R 0 a r r1 r1 ltac:(lia) Hr Hp (ras_back_refl _ _ Hok1)) as [Ho Ht1 Hs1].
  rewrite Ht1 in Ht, Hs. split; [done|done|]. intros j Hj Hne. rewrite Hs; [|done|].
  - apply Hs1; [done|]. intros i Hi. apply Hne. lia.
  - intros i Hi. apply Hne. lia.
Qed.

(** the [d]-th entry below the top *)
Definition rasEntry r (d : Z) : res (option PCState) := vget (addrStack r) ((tos r - d) `mod` ras_numEntries r).

Lemma ras_back_entry R k r r' d : ras_ok R r → ras_back R k r r' → 0 ≤ d → d + k < R → rasEntry r' d = rasEntry r d.
Proof.
  intros Hr [Hok Ht Hs] Hd Hk. unfold rasEntry. rewrite Ht, (ro_size _ _ Hr), (ro_size _ _ Hok). destruct Hr.
  apply Hs; [apply Z.mod_pos_bound; lia|]. intros i Hi E.
  assert ((d + i) `mod` R = 0) as H; [|rewrite Z.mod_small in H; lia].
  replace (d + i) with ((tos r + i) - (tos r - d)) by lia. by rewrite Zminus_mod, E, Z.sub_diag, Z.mod_0_l by lia.
Qed.
(** ** The branch target buffer *)

Record btb_ok t : Prop := {
  to_pow : pow2 (btb_numEntries t);
  to_mask : idxMask t = btb_numEntries t - 1;
  to_entries : vec (btb_numEntries t) (λ e, be_valid e = true → is_Some (be_target e)) (btb t);
}.

Lemma getIndex_range t pc tid : btb_ok t → 0 ≤ getIndex t pc tid < btb_numEntries t.
Proof. intros [Hp Hm _]. unfold getIndex. rewrite Hm. by apply land_pow2. Qed.
Lemma getIndex_lt t pc tid : btb_ok t → (getIndex t pc tid <? btb_numEntries t) = true.
Proof. intros H. apply Z.ltb_lt. by apply getIndex_range. Qed.

Lemma newBTB_ok n tagBits sh threads t : 0 ≤ n → newBTB n tagBits sh threads = Ok t → btb_ok t.
Proof.
  intros Hn. unfold newBTB. intros (lt & _ & H)%bind_Ok. destruct (isPowerOf2 n) eqn:E; [|done]. cbn in H.
  apply bind_Ok in H as (le & _ & [= <-]). split; cbn; [by apply isPowerOf2_pow2|done|by apply vec_replicate].
Qed.

(** the entry of an address *)
Lemma btb_valid_returns t pc tid : btb_ok t → returns (btb_valid t pc tid) (λ v,
  v = true → ∃ target, btb_lookup t pc tid = Ok (Some target)).
Proof.
  intros Ht. pose proof (getIndex_range t pc tid Ht) as Hi. unfold btb_valid, btb_lookup. rewrite getIndex_lt by done.
  cbn. destruct (vec_get _ _ _ _ (to_entries _ Ht) Hi) as (e & He & _ & Hv). rewrite He. cbn. apply returns_ret.
  intros Hh. rewrite Hh. unfold entryHit in Hh. destruct (be_valid e); [|done]. destruct (Hv eq_refl) as (x & ->).
  by exists x.
Qed.

Definition sameGeometry t t' : Prop :=
  btb_numEntries t' = btb_numEntries t ∧ (∀ pc tid, getIndex t' pc tid = getIndex t pc tid) ∧
  (∀ pc, btb_getTag t' pc = btb_getTag t pc).

Lemma btb_update_returns t pc target tid : btb_ok t → returns (btb_update t pc target tid) (λ t',
  btb_ok t' ∧ sameGeometry t t' ∧
  vset (btb t) (getIndex t pc tid) (mkBTBEntry (btb_getTag t pc) (Some target) tid true) = Ok (btb t')).
Proof.
  intros Ht. pose proof (getIndex_range t pc tid Ht) as Hi. unfold btb_update. rewrite getIndex_lt by done. cbn.
  destruct (vec_set _ _ _ _ (mkBTBEntry (btb_getTag t pc) (Some target) tid true) (to_entries _ Ht) Hi) as (l & Hl & _ & Hv);
    [by eexists|]. rewrite Hl. cbn. apply returns_ret. destruct Ht. by split_and!.
Qed.

(** *** The buffer as the history of its updates *)

Record btbUpdate := mkUpdate { bu_pc : Z; bu_target : PCState; bu_tid : Z }.

Definition btb_updates (us : list btbUpdate) t : res DefaultBTB :=
  mfold (λ t u, btb_update t (bu_pc u) (bu_target u) (bu_tid u)) t us.

(** what the updates, the newest first, say of an address *)
Fixpoint btb_spec t (us : list btbUpdate) (pc tid : Z) : option PCState :=
  match us with
  | [] => None
  | u :: us =>
      if getIndex t (bu_pc u) (bu_tid u) =? getIndex t pc tid
      then if (btb_getTag t (bu_pc u) =? btb_getTag t pc) && (bu_tid u =? tid) then Some (bu_target u) else None
      else btb_spec t us pc tid
  end.

Lemma btb_lookup_update t u t' pc tid : btb_ok t → btb_update t (bu_pc u) (bu_target u) (bu_tid u) = Ok t' →
  btb_lookup t' pc tid =
    if getIndex t (bu_pc u) (bu_tid u) =? getIndex t pc tid
    then Ok (if (btb_getTag t (bu_pc u) =? btb_getTag t pc) && (bu_tid u =? tid) then Some (bu_target u) else None)
    else btb_lookup t pc tid.
Proof.
  intros Ht Hu. destruct (btb_update_returns t (bu_pc u) (bu_target u) (bu_tid u) Ht) as (t1 & E & Ht' & (G1 & G2 & G3) & Hs).
  rewrite Hu in E. injection E as <-. unfold btb_lookup. rewrite !getIndex_lt by done. rewrite G2. cbn.
  destruct (Z.eqb_spec (getIndex t (bu_pc u) (bu_tid u)) (getIndex t pc tid)) as [E|E].
  - rewrite <- E, (vget_vset_eq _ _ _ _ Hs). cbn. unfold entryHit. cbn. by rewrite G3, (Z.eqb_sym (btb_getTag t pc)).
  - rewrite (vget_vset_ne _ _ _ _ _ Hs) by done. destruct (vget _ _); [|done]. cbn. unfold entryHit. by rewrite G3.
Qed.

Lemma btb_spec_geometry t t' us pc tid : sameGeometry t t' → btb_spec t' us pc tid = btb_spec t us pc tid.
Proof. intros (G1 & G2 & G3). induction us as [|u us IH]; cbn; [done|]. by rewrite !G2, !G3, IH. Qed.

Lemma btb_updates_spec us t t' pc tid : btb_ok t → btb_lookup t pc tid = Ok None → btb_updates us t = Ok t' →
  btb_ok t' ∧ sameGeometry t t' ∧ btb_lookup t' pc tid = Ok (btb_spec t (reverse us) pc tid).
Proof.
  intros Ht H0. revert t'. induction us as [|u us IH] using rev_ind; intros t'.
  { intros [= <-]. by split_and!. }
  unfold btb_updates. rewrite mfold_app. intros (t1 & E1 & (t2 & E2 & [= <-])%bind_Ok)%bind_Ok.
  destruct (IH t1 E1) as (H1 & G1 & L1).
  destruct (btb_update_returns t1 (bu_pc u) (bu_target u) (bu_tid u) H1) as (t2' & E & H2 & G2 & _).
  rewrite E2 in E. injection E as <-.
  assert (sameGeometry t t2) as G.
  { destruct G1 as (? & A1 & B1), G2 as (? & A2 & B2). split_and!; [congruence|..]; intros; by rewrite ?A2, ?B2. }
  split_and!; [done..|]. rewrite (btb_lookup_update t1 u t2 pc tid H1 E2), L1, reverse_snoc. cbn.
  destruct G1 as (_ & A1 & B1). rewrite !A1, !B1. by destruct (_ =? _).
Qed.
Lemma btb_updates_returns us t : btb_ok t → returns (btb_updates us t) btb_ok.
Proof.
  revert t. induction us as [|u us IH]; intros t Ht; [by apply returns_ret|]. unfold btb_updates. cbn.
  destruct (btb_update_returns t (bu_pc u) (bu_target u) (bu_tid u) Ht) as (t1 & -> & H1 & _). cbn. by apply IH.
Qed.

(** C31: The branch target buffer is the history of its updates: after any
    updates of any threads a lookup finds the target of the newest update of
    the same entry if that has the tag and the thread, and nothing otherwise;
    no update leaves the table. *)
Theorem btb_refines_history n tagBits sh threads t us : 0 ≤ n → newBTB n tagBits sh threads = Ok t →
  ∃ t', btb_updates us t = Ok t' ∧ ∀ pc tid, btb_lookup t' pc tid = Ok (btb_spec t (reverse us) pc tid).
Proof.
  intros Hn E. pose proof (newBTB_ok _ _ _ _ _ Hn E) as Ht. destruct (btb_updates_returns us t Ht) as (t' & Hu & _).
  exists t'. split; [done|]. intros pc tid. eapply btb_updates_spec; [done| |done]. unfold btb_lookup.
  rewrite getIndex_lt by done. cbn. pose proof (getIndex_range t pc tid Ht) as Hi. unfold newBTB in E.
  apply bind_Ok in E as (lt & _ & E). destruct (isPowerOf2 n); [|done]. cbn in E.
  apply bind_Ok in E as (le & _ & E). injection E as E. subst t. cbn in *. by rewrite vget_replicate by lia.
Qed.

(** ** Indirect targets *)

Record ind_ok (n : Z) p : Prop := {
  io_sets : pow2 (numSets (ind_cfg p));
  io_ways : 0 < numWays (ind_cfg p);
  io_path : 0 < pathLength (ind_cfg p);
  io_cache : vec (numSets (ind_cfg p)) (λ ws, Z.of_nat (length ws) = numWays (ind_cfg p)) (targetCache p);
  io_threads : Z.of_nat (length (threadInfo p)) = n;
}.

Lemma newIndirect_ok c n p : 0 ≤ n → 0 ≤ numSets c → 0 < numWays c → 0 < pathLength c → newIndirect c n = Ok p → ind_ok n p.
Proof.
  intros Hn Hs Hw Hp. unfold newIndirect. destruct (isPowerOf2 (numSets c)) eqn:E; [|done]. cbn.
  destruct (_ <? _); [done|]. intros [= <-]. split; cbn; [by apply isPowerOf2_pow2|done..| |].
  - apply vec_replicate; [done|]. rewrite length_replicate. lia.
  - rewrite length_replicate. lia.
Qed.

Lemma ind_get n tid p : ind_ok n p → 0 ≤ tid < n → ∃ i, vget (threadInfo p) tid = Ok i.
Proof. intros [] H. apply vget_lt. lia. Qed.

(** a thread of the predictor is replaced *)
Definition ind_put (tid : Z) i p p' : Prop := ind_set tid i p = Ok p'.

Lemma ind_put_ok n tid i p : ind_ok n p → 0 ≤ tid < n → returns (ind_set tid i p) (λ p', ind_ok n p' ∧ ind_put tid i p p').
Proof.
  intros [] H. unfold ind_put, ind_set. rewrite vset_lt by lia. cbn. apply returns_ret. split; [|done].
  split; cbn; [done..|]. by rewrite length_insert.
Qed.
Lemma ind_put_get tid i p p' : ind_put tid i p p' → vget (threadInfo p') tid = Ok i.
Proof. unfold ind_put, ind_set. intros (l & Hl & [= <-])%bind_Ok. by apply vget_vset_eq in Hl. Qed.
Lemma ind_put_put tid i i' p p1 p2 : ind_put tid i p p1 → ind_put tid i' p1 p2 → ind_put tid i' p p2.
Proof.
  unfold ind_put, ind_set. intros (l & Hl & [= <-])%bind_Ok (l' & Hl' & [= <-])%bind_Ok. cbn in *.
  by rewrite (vset_vset _ _ _ _ _ _ Hl Hl').
Qed.
Lemma ind_put_self tid i p : vget (threadInfo p) tid = Ok i → ind_put tid i p p.
Proof. intros H. unfold ind_put, ind_set. rewrite (vset_self _ _ _ H). by destruct p. Qed.
Lemma ind_put_cfg tid i p p' : ind_put tid i p p' → ind_cfg p' = ind_cfg p.
Proof. unfold ind_put, ind_set. by intros (l & _ & [= <-])%bind_Ok. Qed.
Lemma ind_put_ne tid i p p' u : ind_put tid i p p' → u ≠ tid → vget (threadInfo p') u = vget (threadInfo p) u.
Proof. unfold ind_put, ind_set. intros (l & Hl & [= <-])%bind_Ok H. cbn. by apply (vget_vset_ne _ _ _ _ _ Hl). Qed.

Lemma ind_setGhr_returns n tid g i p : ind_ok n p → vget (threadInfo p) tid = Ok i →
  returns (ind_setGhr tid g p) (λ p', ind_ok n p' ∧ ind_put tid (mkIThreadInfo (pathHist i) (headHistEntry i) g) p p').
Proof.
  intros Hp Hi. unfold ind_setGhr. rewrite Hi. cbn. apply ind_put_ok; [done|]. apply vget_bound in Hi.
  by rewrite (io_threads _ _ Hp) in Hi.
Qed.

Lemma getSetIndex_returns n a g i p : ind_ok n p →
  returns (getSetIndex a g i (ind_cfg p)) (λ idx, 0 ≤ idx < numSets (ind_cfg p)).
Proof.
  intros [(k & Hk & Hs) Hw Hp _ _]. unfold getSetIndex. apply returns_bind.
  assert (∀ x : Z, returns (Ok x) (λ h, returns (Ok (Z.land h (numSets (ind_cfg p) - 1))) (λ idx, 0 ≤ idx < numSets (ind_cfg p)))) as HL.
  { intros x. apply returns_ret, returns_ret, land_pow2. by exists k. }
  destruct (hashTargets _); [|apply HL]. unfold floorLog2.
  assert (0 < numSets (ind_cfg p)) as H0 by (rewrite Hs; lia). rewrite (proj2 (Z.ltb_lt _ _) H0). cbn.
  destruct (Z.eqb_spec (pathLength (ind_cfg p)) 0); [lia|]. apply HL.
Qed.

Lemma ind_lookup_returns n a tid p : ind_ok n p → 0 ≤ tid < n → returns (ind_lookup a tid p) (λ _, True).
Proof.
  intros Hp Ht. unfold ind_lookup. destruct (ind_get n tid p Hp Ht) as (i & ->). cbn.
  destruct (getSetIndex_returns n a (ghr i) i p Hp) as (idx & -> & Hi). cbn.
  rewrite (proj2 (Z.ltb_lt _ _) (proj2 Hi)). cbn. destruct (vec_get _ _ _ _ (io_cache _ _ Hp) Hi) as (ws & -> & _).
  by apply returns_ret.
Qed.

Lemma chooseWay_range tag victim ws n : Z.of_nat (length ws) = n → 0 ≤ victim < n → 0 ≤ chooseWay tag victim ws < n.
Proof.
  intros Hn Hv. unfold chooseWay. destruct (list_find _ ws) as [[k w]|] eqn:E; [|done].
  apply list_find_Some in E as (E & _). apply lookup_lt_Some in E. lia.
Qed.

(** the youngest entry of the path gets the target *)
Lemma recordTarget_returns n victim g target tid i h p : ind_ok n p → vget (threadInfo p) tid = Ok i →
  last (pathHist i) = Some h → 0 ≤ victim < numWays (ind_cfg p) →
  returns (recordTarget victim g target tid p) (λ p', ind_ok n p' ∧ ind_cfg p' = ind_cfg p ∧
    vset (threadInfo p) tid (mkIThreadInfo (removelast (pathHist i) ++ [mkHistoryEntry (he_pcAddr h) (instAddr target) (he_seqNum h)])
                               (headHistEntry i) (ghr i)) = Ok (threadInfo p')).
Proof.
  intros Hp Hi Hh Hv. unfold recordTarget. rewrite Hi. cbn. rewrite Hh.
  destruct (getSetIndex_returns n (he_pcAddr h) g (mkIThreadInfo (removelast (pathHist i)) (headHistEntry i) (ghr i)) p Hp) as (idx & -> & Hx).
  cbn. pose proof Hp as Hp'. destruct Hp'. pose proof (vget_bound _ _ _ Hi) as Ht. unfold ind_set. rewrite vset_lt by done. cbn.
  rewrite (proj2 (Z.ltb_lt _ _) (proj2 Hx)). cbn. destruct (vec_get _ _ _ _ io_cache0 Hx) as (ws & -> & _ & Hw). cbn.
  pose proof (chooseWay_range (ind_getTag (he_pcAddr h) (ind_cfg p)) victim ws _ Hw Hv) as Hc. rewrite vset_lt by lia. cbn.
  pose proof (proj1 io_cache0) as Hlen. rewrite vset_lt by lia. cbn. apply returns_ret. split_and!; [|done..].
  split; cbn; [done..| |by rewrite length_insert]. split; [by rewrite length_insert|].
  apply Forall_insert; [apply io_cache0|]. by rewrite length_insert.
Qed.
End tables.
