(* ===== verification/BpDirection.v ===== *)
(** * Direction predictors
    (src/src/cpu/pred/tournament.cc, 2bit_local.cc, bi_mode.cc)

    A direction predictor says whether a conditional branch is taken, changes
    its histories speculatively, and gets back what it has recorded for a
    branch when the branch is squashed or done.  [DirectionPredictor] has the
    virtual functions of [BPredUnit]; [DirectionPredictorOk] says what the
    branch prediction unit relies on.  The three predictors are instances of
    both. *)
From S2P Require Import Prelude PipeData BpTables.

(** ** The interface *)

Class DirectionPredictor := {
  Dir : Type;
  BpHist : Type;
  dp_lookup : Z → Z → Dir → res (Dir * BpHist * bool);          (* tid, address *)
  dp_uncondBranch : Z → Z → Dir → res (Dir * BpHist);
  dp_btbUpdate : Z → Z → Dir → res Dir;
  dp_update : Z → Z → bool → BpHist → bool → Dir → res Dir;      (* taken, history, squashed *)
  dp_squash : Z → BpHist → Dir → res Dir;
}.

(** ** The tournament predictor *)

Record TournamentParams := mkTournamentParams {
  localPredictorSize : Z;
  localCtrBits : Z;
  localHistoryTableSize : Z;
  globalPredictorSize : Z;
  globalCtrBits : Z;
  choicePredictorSize : Z;
  choiceCtrBits : Z;
  tp_instShiftAmt : Z;
}.

Record TournamentBP := mkTournament {
  tp_cfg : TournamentParams;
  localPredictorMask : Z;
  globalHistoryMask : Z;
  choiceHistoryMask : Z;
  historyRegisterMask : Z;
  localThreshold : Z;
  globalThreshold : Z;
  choiceThreshold : Z;
  localCtrs : list SatCounter8;
  localHistoryTable : list Z;
  globalCtrs : list SatCounter8;
  globalHistory : list Z;
  choiceCtrs : list SatCounter8;
}.

Record BPHistory := mkBPHistory {
  bh_globalHistory : Z;
  bh_localHistoryIdx : Z;
  bh_localHistory : Z;
  bh_localPredTaken : bool;
  bh_globalPredTaken : bool;
  bh_globalUsed : bool;
}.

(** -1 as an [unsigned] *)
Definition invalidPredictorIndex : Z := 2 ^ 32 - 1.

Section tournament.
Implicit Types (s : TournamentBP) (h : BPHistory).

(** the thresholds, for counters of at least one bit *)
Definition threshold (bits : Z) : Z := u32 (2 ^ (bits - 1) - 1).

(** [TournamentBP(params)], without [BPredUnit] *)
Definition tour_new (c : TournamentParams) (numThreads : Z) : res TournamentBP :=
  lc ← newSatCounter (localCtrBits c);
  localHistoryBits ← ceilLog2 (localPredictorSize c);
  gc ← newSatCounter (globalCtrBits c);
  gbits ← ceilLog2 (globalPredictorSize c);
  cbits ← ceilLog2 (choicePredictorSize c);
  let globalHistoryBits := if cbits <? gbits then gbits else cbits in
  cc ← newSatCounter (choiceCtrBits c);
  if negb (isPowerOf2 (localPredictorSize c)) then Stop Fatal
  else if negb (isPowerOf2 (globalPredictorSize c)) then Stop Fatal
  else if negb (isPowerOf2 (localHistoryTableSize c)) then Stop Fatal
  else if negb (isPowerOf2 (choicePredictorSize c)) then Stop Fatal
  else
    let gmask := globalPredictorSize c - 1 in
    let cmask := choicePredictorSize c - 1 in
    let hmask := u32 (mask globalHistoryBits) in
    if hmask <? gmask then Stop Fatal
    else if hmask <? cmask then Stop Fatal
    else Ok (mkTournament c (u32 (mask localHistoryBits)) gmask cmask hmask
               (threshold (localCtrBits c)) (threshold (globalCtrBits c)) (threshold (choiceCtrBits c))
               (replicate (Z.to_nat (localPredictorSize c)) lc)
               (replicate (Z.to_nat (localHistoryTableSize c)) 0)
               (replicate (Z.to_nat (globalPredictorSize c)) gc)
               (replicate (Z.to_nat numThreads) 0)
               (replicate (Z.to_nat (choicePredictorSize c)) cc)).

(** field updates *)
Definition tour_up_hist (lh gh : list Z) s : TournamentBP :=
  mkTournament (tp_cfg s) (localPredictorMask s) (globalHistoryMask s) (choiceHistoryMask s)
    (historyRegisterMask s) (localThreshold s) (globalThreshold s) (choiceThreshold s)
    (localCtrs s) lh (globalCtrs s) gh (choiceCtrs s).
Definition tour_up_ctrs (l g c : list SatCounter8) s : TournamentBP :=
  mkTournament (tp_cfg s) (localPredictorMask s) (globalHistoryMask s) (choiceHistoryMask s)
    (historyRegisterMask s) (localThreshold s) (globalThreshold s) (choiceThreshold s)
    l (localHistoryTable s) g (globalHistory s) c.

(** [calcLocHistIdx(branch_addr)] *)
Definition tour_calcLocHistIdx (addr : Z) s : Z :=
  Z.land (Z.shiftr addr (tp_instShiftAmt (tp_cfg s))) (localHistoryTableSize (tp_cfg s) - 1).

(** [updateGlobalHistTaken(tid)], [updateGlobalHistNotTaken(tid)] *)
Definition tour_updateGlobalHist (taken : bool) (tid : Z) s : res TournamentBP :=
  g ← vget (globalHistory s) tid;
  l ← vset (globalHistory s) tid (Z.land (Z.lor (u32 (Z.shiftl g 1)) (b2z taken)) (historyRegisterMask s));
  Ok (tour_up_hist (localHistoryTable s) l s).
(** [updateLocalHistTaken(idx)], [updateLocalHistNotTaken(idx)] *)
Definition tour_updateLocalHist (taken : bool) (idx : Z) s : res TournamentBP :=
  x ← vget (localHistoryTable s) idx;
  l ← vset (localHistoryTable s) idx (Z.lor (u32 (Z.shiftl x 1)) (b2z taken));
  Ok (tour_up_hist l (globalHistory s) s).

(** [btbUpdate(tid, branch_addr, bp_history)] *)
Definition tour_btbUpdate (tid addr : Z) s : res TournamentBP :=
  let idx := tour_calcLocHistIdx addr s in
  g ← vget (globalHistory s) tid;
  gl ← vset (globalHistory s) tid (Z.land g (Z.land (historyRegisterMask s) clearLSB));
  x ← vget (localHistoryTable s) idx;
  ll ← vset (localHistoryTable s) idx (Z.land x (Z.land (localPredictorMask s) clearLSB));
  Ok (tour_up_hist ll gl s).

(** [lookup(tid, branch_addr, bp_history)] *)
Definition tour_lookup (tid addr : Z) s : res (TournamentBP * BPHistory * bool) :=
  let local_history_idx := tour_calcLocHistIdx addr s in
  x ← vget (localHistoryTable s) local_history_idx;
  let local_predictor_idx := Z.land x (localPredictorMask s) in
  local_prediction ← above (localCtrs s) local_predictor_idx (localThreshold s);
  g ← vget (globalHistory s) tid;
  global_prediction ← above (globalCtrs s) (Z.land g (globalHistoryMask s)) (globalThreshold s);
  choice_prediction ← above (choiceCtrs s) (Z.land g (choiceHistoryMask s)) (choiceThreshold s);
  let history := mkBPHistory g local_history_idx local_predictor_idx local_prediction global_prediction
                   choice_prediction in
  check (local_history_idx <? localHistoryTableSize (tp_cfg s));
  let taken := if (choice_prediction : bool) then global_prediction else local_prediction in
  s ← tour_updateGlobalHist taken tid s;
  s ← tour_updateLocalHist taken local_history_idx s;
  Ok (s, history, taken).

(** [uncondBranch(tid, pc, bp_history)] *)
Definition tour_uncondBranch (tid addr : Z) s : res (TournamentBP * BPHistory) :=
  g ← vget (globalHistory s) tid;
  let history := mkBPHistory g invalidPredictorIndex invalidPredictorIndex true true true in
  s ← tour_updateGlobalHist true tid s;
  Ok (s, history).

(** [update(tid, branch_addr, taken, bp_history, squashed, inst, corrTarget)] *)
Definition tour_update (tid addr : Z) (taken : bool) h (squashed : bool) s : res TournamentBP :=
  let local_history_idx := tour_calcLocHistIdx addr s in
  check (local_history_idx <? localHistoryTableSize (tp_cfg s));
  let old_local_pred_valid := negb (bh_localHistory h =? invalidPredictorIndex) in
  if squashed then
    gl ← vset (globalHistory s) tid
           (Z.land (Z.lor (u32 (Z.shiftl (bh_globalHistory h) 1)) (b2z taken)) (historyRegisterMask s));
    ll ← (if old_local_pred_valid
          then vset (localHistoryTable s) local_history_idx
                 (Z.lor (u32 (Z.shiftl (bh_localHistory h) 1)) (b2z taken))
          else Ok (localHistoryTable s));
    Ok (tour_up_hist ll gl s)
  else
    let old_local_pred_index := Z.land (bh_localHistory h) (localPredictorMask s) in
    check (old_local_pred_index <? localPredictorSize (tp_cfg s));
    let choice_predictor_idx := Z.land (bh_globalHistory h) (choiceHistoryMask s) in
    cc ← (if negb (eqb (bh_localPredTaken h) (bh_globalPredTaken h)) && old_local_pred_valid then
            if eqb (bh_localPredTaken h) taken then train false (choiceCtrs s) choice_predictor_idx
            else if eqb (bh_globalPredTaken h) taken then train true (choiceCtrs s) choice_predictor_idx
            else Ok (choiceCtrs s)
          else Ok (choiceCtrs s));
    gc ← train taken (globalCtrs s) (Z.land (bh_globalHistory h) (globalHistoryMask s));
    lc ← (if old_local_pred_valid then train taken (localCtrs s) old_local_pred_index else Ok (localCtrs s));
    Ok (tour_up_ctrs lc gc cc s).

(** [squash(tid, bp_history)] *)
Definition tour_squash (tid : Z) h s : res TournamentBP :=
  gl ← vset (globalHistory s) tid (bh_globalHistory h);
  ll ← (if negb (bh_localHistoryIdx h =? invalidPredictorIndex)
        then vset (localHistoryTable s) (bh_localHistoryIdx h) (bh_localHistory h)
        else Ok (localHistoryTable s));
  Ok (tour_up_hist ll gl s).
End tournament.

#[export] Instance tournament_predictor : DirectionPredictor := {|
  Dir := TournamentBP;
  BpHist := BPHistory;
  dp_lookup := tour_lookup;
  dp_uncondBranch := tour_uncondBranch;
  dp_btbUpdate := tour_btbUpdate;
  dp_update := tour_update;
  dp_squash := tour_squash;
|}.

(** ** The local predictor *)

Record LocalBP := mkLocalBP {
  lb_ctrBits : Z;
  lb_ctrs : list SatCounter8;
  indexMask : Z;
  lb_instShiftAmt : Z;
}.

Section local.
Implicit Types (s : LocalBP).

(** [LocalBP(params)], for counters of at least one bit *)
Definition local_new (localPredictorSize localCtrBits instShiftAmt : Z) : res LocalBP :=
  let localPredictorSets := localPredictorSize `div` localCtrBits in
  c ← newSatCounter localCtrBits;
  if negb (isPowerOf2 localPredictorSize) then Stop Fatal
  else if negb (isPowerOf2 localPredictorSets) then Stop Fatal
  else Ok (mkLocalBP localCtrBits (replicate (Z.to_nat localPredictorSets) c) (localPredictorSets - 1) instShiftAmt).

(** [getLocalIndex(branch_addr)] *)
Definition local_getLocalIndex (addr : Z) s : Z := Z.land (Z.shiftr addr (lb_instShiftAmt s)) (indexMask s).
(** [lookup(tid, branch_addr, bp_history)], with [getPrediction] *)
Definition local_lookup (tid addr : Z) s : res (LocalBP * unit * bool) :=
  c ← vget (lb_ctrs s) (local_getLocalIndex addr s);
  Ok (s, tt, negb (Z.shiftr (counter c) (lb_ctrBits s - 1) =? 0)).
(** [uncondBranch], [btbUpdate] and [squash] do nothing *)
Definition local_uncondBranch (tid addr : Z) s : res (LocalBP * unit) := Ok (s, tt).
Definition local_btbUpdate (tid addr : Z) s : res LocalBP := Ok s.
Definition local_squash (tid : Z) (h : unit) s : res LocalBP := Ok s.
(** [update(tid, branch_addr, taken, bp_history, squashed, inst, corrTarget)] *)
Definition local_update (tid addr : Z) (taken : bool) (h : unit) (squashed : bool) s : res LocalBP :=
  if squashed then Ok s
  else
    l ← train taken (lb_ctrs s) (local_getLocalIndex addr s);
    Ok (mkLocalBP (lb_ctrBits s) l (indexMask s) (lb_instShiftAmt s)).
End local.

#[export] Instance local_predictor : DirectionPredictor := {|
  Dir := LocalBP;
  BpHist := unit;
  dp_lookup := local_lookup;
  dp_uncondBranch := local_uncondBranch;
  dp_btbUpdate := local_btbUpdate;
  dp_update := local_update;
  dp_squash := local_squash;
|}.

(** ** The bi-mode predictor *)

Record BiModeParams := mkBiModeParams {
  bm_globalPredictorSize : Z;
  bm_globalCtrBits : Z;
  bm_choicePredictorSize : Z;
  bm_choiceCtrBits : Z;
  bm_instShiftAmt : Z;
}.
Record BiModeBP := mkBiMode {
  bm_cfg : BiModeParams;
  bm_historyRegisterMask : Z;
  bm_choiceThreshold : Z;
  takenThreshold : Z;
  globalHistoryReg : list Z;
  choiceCounters : list SatCounter8;
  takenCounters : list SatCounter8;
  notTakenCounters : list SatCounter8;
}.
Record BiHistory := mkBiHistory {
  bi_globalHistoryReg : Z;
  bi_takenUsed : bool;
  bi_takenPred : bool;
  bi_notTakenPred : bool;
  bi_finalPred : bool;
}.

Section bimode.
Implicit Types (s : BiModeBP) (h : BiHistory).

(** [BiModeBP(params)] *)
Definition bimode_new (c : BiModeParams) (numThreads : Z) : res BiModeBP :=
  bits ← ceilLog2 (bm_globalPredictorSize c);
  cc ← newSatCounter (bm_choiceCtrBits c);
  gc ← newSatCounter (bm_globalCtrBits c);
  if negb (isPowerOf2 (bm_choicePredictorSize c)) then Stop Fatal
  else if negb (isPowerOf2 (bm_globalPredictorSize c)) then Stop Fatal
  else Ok (mkBiMode c (u32 (mask bits)) (threshold (bm_choiceCtrBits c))
             (threshold (bm_globalCtrBits c)) (replicate (Z.to_nat numThreads) 0)
             (replicate (Z.to_nat (bm_choicePredictorSize c)) cc)
             (replicate (Z.to_nat (bm_globalPredictorSize c)) gc)
             (replicate (Z.to_nat (bm_globalPredictorSize c)) gc)).

Definition bimode_up_reg (l : list Z) s : BiModeBP :=
  mkBiMode (bm_cfg s) (bm_historyRegisterMask s) (bm_choiceThreshold s) (takenThreshold s) l (choiceCounters s)
    (takenCounters s) (notTakenCounters s).
Definition bimode_up_counters (c t n : list SatCounter8) s : BiModeBP :=
  mkBiMode (bm_cfg s) (bm_historyRegisterMask s) (bm_choiceThreshold s) (takenThreshold s) (globalHistoryReg s)
    c t n.

(** [choiceHistoryIdx] and [globalHistoryIdx] *)
Definition bimode_choiceIdx (addr : Z) s : Z :=
  Z.land (Z.shiftr addr (bm_instShiftAmt (bm_cfg s))) (bm_choicePredictorSize (bm_cfg s) - 1).
Definition bimode_globalIdx (addr g : Z) s : Z :=
  Z.land (Z.lxor (Z.shiftr addr (bm_instShiftAmt (bm_cfg s))) g) (bm_globalPredictorSize (bm_cfg s) - 1).

(** [updateGlobalHistReg(tid, taken)] *)
Definition bimode_updateGlobalHistReg (tid : Z) (taken : bool) s : res BiModeBP :=
  g ← vget (globalHistoryReg s) tid;
  l ← vset (globalHistoryReg s) tid (Z.land (Z.lor (u32 (Z.shiftl g 1)) (b2z taken)) (bm_historyRegisterMask s));
  Ok (bimode_up_reg l s).
(** [uncondBranch(tid, pc, bpHistory)] *)
Definition bimode_uncondBranch (tid addr : Z) s : res (BiModeBP * BiHistory) :=
  g ← vget (globalHistoryReg s) tid;
  s ← bimode_updateGlobalHistReg tid true s;
  Ok (s, mkBiHistory g true true true true).
(** [squash(tid, bpHistory)] *)
Definition bimode_squash (tid : Z) h s : res BiModeBP :=
  l ← vset (globalHistoryReg s) tid (bi_globalHistoryReg h);
  Ok (bimode_up_reg l s).
(** [lookup(tid, branchAddr, bpHistory)] *)
Definition bimode_lookup (tid addr : Z) s : res (BiModeBP * BiHistory * bool) :=
  g ← vget (globalHistoryReg s) tid;
  let ci := bimode_choiceIdx addr s in
  let gi := bimode_globalIdx addr g s in
  check (ci <? bm_choicePredictorSize (bm_cfg s));
  check (gi <? bm_globalPredictorSize (bm_cfg s));
  choicePrediction ← above (choiceCounters s) ci (bm_choiceThreshold s);
  takenGHBPrediction ← above (takenCounters s) gi (takenThreshold s);
  notTakenGHBPrediction ← above (notTakenCounters s) gi (takenThreshold s);
  let finalPrediction := if (choicePrediction : bool) then takenGHBPrediction else notTakenGHBPrediction in
  s ← bimode_updateGlobalHistReg tid finalPrediction s;
  Ok (s, mkBiHistory g choicePrediction takenGHBPrediction notTakenGHBPrediction finalPrediction, finalPrediction).
(** [btbUpdate(tid, branchAddr, bpHistory)] *)
Definition bimode_btbUpdate (tid addr : Z) s : res BiModeBP :=
  g ← vget (globalHistoryReg s) tid;
  l ← vset (globalHistoryReg s) tid (Z.land g (Z.land (bm_historyRegisterMask s) clearLSB));
  Ok (bimode_up_reg l s).
(** [update(tid, branchAddr, taken, bpHistory, squashed, inst, corrTarget)] *)
Definition bimode_update (tid addr : Z) (taken : bool) h (squashed : bool) s : res BiModeBP :=
  if squashed then
    l ← vset (globalHistoryReg s) tid (Z.lor (u32 (Z.shiftl (bi_globalHistoryReg h) 1)) (b2z taken));
    Ok (bimode_up_reg l s)
  else
    let ci := bimode_choiceIdx addr s in
    let gi := bimode_globalIdx addr (bi_globalHistoryReg h) s in
    check (ci <? bm_choicePredictorSize (bm_cfg s));
    check (gi <? bm_globalPredictorSize (bm_cfg s));
    t ← (if bi_takenUsed h then train taken (takenCounters s) gi else Ok (takenCounters s));
    n ← (if bi_takenUsed h then Ok (notTakenCounters s) else train taken (notTakenCounters s) gi);
    c ← (if eqb (bi_finalPred h) taken
         then if eqb (bi_finalPred h) (bi_takenUsed h) then train taken (choiceCounters s) ci
              else Ok (choiceCounters s)
         else train taken (choiceCounters s) ci);
    Ok (bimode_up_counters c t n s).
End bimode.

#[export] Instance bimode_predictor : DirectionPredictor := {|
  Dir := BiModeBP;
  BpHist := BiHistory;
  dp_lookup := bimode_lookup;
  dp_uncondBranch := bimode_uncondBranch;
  dp_btbUpdate := bimode_btbUpdate;
  dp_update := bimode_update;
  dp_squash := bimode_squash;
|}.
