(* ===== verification/BpDirectionProps.v ===== *)
(** * What the branch prediction unit relies on of a direction predictor

    [DirectionPredictorOk]: every operation returns, and squashing a record
    brings the predictor back to what it was before, but for the local
    histories of the branches in a list ([dp_eqv]).  The tournament, the local
    and the bi-mode predictor are instances. *)
From S2P Require Import Prelude PipeData BpTables BpTableProps BpDirection.

Class DirectionPredictorOk {DP : DirectionPredictor} := {
  Shape : Type;
  dp_shape : Dir → Shape;                     (* what never changes *)
  dp_ok : Z → Dir → Prop;                     (* for a number of threads *)
  dp_histOk : Shape → BpHist → Prop;
  dp_eqv : list Z → Dir → Dir → Prop;         (* the same but for what is kept of some addresses *)
  dp_apart : Dir → list Z → Z → Prop;         (* an address that shares nothing with those *)
  dp_lookup_ok n tid a d : dp_ok n d → 0 ≤ tid < n → returns (dp_lookup tid a d) (λ r,
    dp_ok n r.1.1 ∧ dp_shape r.1.1 = dp_shape d ∧ dp_histOk (dp_shape d) r.1.2);
  dp_uncondBranch_ok n tid a d : dp_ok n d → 0 ≤ tid < n → returns (dp_uncondBranch tid a d) (λ r,
    dp_ok n r.1 ∧ dp_shape r.1 = dp_shape d ∧ dp_histOk (dp_shape d) r.2);
  dp_btbUpdate_ok n tid a d : dp_ok n d → 0 ≤ tid < n → returns (dp_btbUpdate tid a d) (λ d',
    dp_ok n d' ∧ dp_shape d' = dp_shape d);
  dp_update_ok n tid a b h q d : dp_ok n d → 0 ≤ tid < n → dp_histOk (dp_shape d) h →
    returns (dp_update tid a b h q d) (λ d', dp_ok n d' ∧ dp_shape d' = dp_shape d);
  dp_squash_ok n tid h d : dp_ok n d → 0 ≤ tid < n → dp_histOk (dp_shape d) h →
    returns (dp_squash tid h d) (λ d', dp_ok n d' ∧ dp_shape d' = dp_shape d);
  dp_eqv_refl d : dp_eqv [] d d;
  dp_eqv_more a B d d' : dp_eqv B d d' → dp_eqv (a :: B) d d';
  dp_lookup_undo n tid a d d1 h b d1' B d2 d3 : dp_ok n d → 0 ≤ tid < n → dp_lookup tid a d = Ok (d1, h, b) →
    d1' = d1 ∨ dp_btbUpdate tid a d1 = Ok d1' → dp_eqv B d1' d2 → dp_squash tid h d2 = Ok d3 → dp_eqv B d d3;
  dp_uncondBranch_undo n tid a d d1 h B d2 d3 : dp_ok n d → 0 ≤ tid < n → dp_uncondBranch tid a d = Ok (d1, h) →
    dp_eqv B d1 d2 → dp_squash tid h d2 = Ok d3 → dp_eqv B d d3;
  dp_uncondBranch_btb_undo n tid a d d1 h d1' B d2 d3 : dp_ok n d → 0 ≤ tid < n → dp_uncondBranch tid a d = Ok (d1, h) →
    dp_btbUpdate tid a d1 = Ok d1' → dp_eqv B d1' d2 → dp_squash tid h d2 = Ok d3 → dp_eqv (a :: B) d d3;
  dp_answer n tid a d d1 h b A d' : dp_ok n d → dp_lookup tid a d = Ok (d1, h, b) → dp_eqv A d d' → dp_apart d A a →
    ∃ d1', dp_lookup tid a d' = Ok (d1', h, b);
  dp_apart_nil d a : dp_apart d [] a;
}.
Arguments DirectionPredictorOk DP : clear implicits.

(** ** The tournament predictor *)

(** tables that agree under a mask, but for some entries *)
Definition tableEqv (m : Z) (ex : list Z) (l l' : list Z) : Prop :=
  length l' = length l ∧
  ∀ j x x', j ∉ ex → vget l j = Ok x → vget l' j = Ok x' → Z.land x' m = Z.land x m.

Lemma tableEqv_refl m l : tableEqv m [] l l.
Proof. split; [done|]. intros j x x' _ Hx Hx'. rewrite Hx in Hx'. by injection Hx' as ->. Qed.

Lemma tableEqv_undo m ex l i x y l1 l2 l3 : vget l i = Ok x → vset l i y = Ok l1 → tableEqv m ex l1 l2 →
  vset l2 i (Z.land x m) = Ok l3 → tableEqv m ex l l3.
Proof.
  intros Hx H1 [Hlen H2] H3. split.
  { by rewrite (vset_length _ _ _ _ H3), Hlen, (vset_length _ _ _ _ H1). }
  intros j z z' Hj Hz Hz'. destruct (vset_cases _ _ _ _ _ _ H3 Hz') as [[-> ->]|[Hne Hz2]].
  - assert (z = x) as -> by congruence. by rewrite <- Z.land_assoc, Z.land_diag.
  - apply (H2 j); [done| |done]. by rewrite (vget_vset_ne _ _ _ _ _ H1).
Qed.

Lemma tableEqv_touch m ex l i y l1 l2 : vset l i y = Ok l1 → tableEqv m ex l1 l2 → tableEqv m (i :: ex) l l2.
Proof.
  intros H1 [Hlen H2]. split; [by rewrite Hlen, (vset_length _ _ _ _ H1)|].
  intros j z z' [Hne Hj]%not_elem_of_cons Hz Hz'. apply (H2 j); [done| |done]. by rewrite (vget_vset_ne _ _ _ _ _ H1).
Qed.

Section tournament.
Implicit Types (s : TournamentBP) (h : BPHistory).

Record tour_ok (n : Z) s : Prop := {
  tk_local : pow2 (localPredictorSize (tp_cfg s));
  tk_localMask : localPredictorMask s = localPredictorSize (tp_cfg s) - 1;
  tk_localCtrs : vec (localPredictorSize (tp_cfg s)) sat_ok (localCtrs s);
  tk_table : pow2 (localHistoryTableSize (tp_cfg s));
  tk_tableSize : localHistoryTableSize (tp_cfg s) < 2 ^ 32;
  tk_histories : Z.of_nat (length (localHistoryTable s)) = localHistoryTableSize (tp_cfg s);
  tk_global : pow2 (globalPredictorSize (tp_cfg s));
  tk_globalMask : globalHistoryMask s = globalPredictorSize (tp_cfg s) - 1;
  tk_globalCtrs : vec (globalPredictorSize (tp_cfg s)) sat_ok (globalCtrs s);
  tk_choice : pow2 (choicePredictorSize (tp_cfg s));
  tk_choiceMask : choiceHistoryMask s = choicePredictorSize (tp_cfg s) - 1;
  tk_choiceCtrs : vec (choicePredictorSize (tp_cfg s)) sat_ok (choiceCtrs s);
  tk_threads : Z.of_nat (length (globalHistory s)) = n;
}.

Definition tour_histOk (c : TournamentParams) h : Prop :=
  bh_localHistoryIdx h = invalidPredictorIndex ∨ 0 ≤ bh_localHistoryIdx h < localHistoryTableSize c.

Definition tour_eqv (A : list Z) s s' : Prop :=
  ∃ l, s' = tour_up_hist l (globalHistory s) s ∧
       tableEqv (localPredictorMask s) ((λ a, tour_calcLocHistIdx a s) <$> A) (localHistoryTable s) l.
Definition tour_apart s (A : list Z) (a : Z) : Prop :=
  tour_calcLocHistIdx a s ∉ (λ a, tour_calcLocHistIdx a s) <$> A.

Lemma tour_idx_range n a s : tour_ok n s → 0 ≤ tour_calcLocHistIdx a s < localHistoryTableSize (tp_cfg s).
Proof. intros []. unfold tour_calcLocHistIdx. by apply land_pow2. Qed.

Lemma tour_up_hist_ok n lh gh s : tour_ok n s → length lh = length (localHistoryTable s) →
  length gh = length (globalHistory s) → tour_ok n (tour_up_hist lh gh s).
Proof. intros [] H1 H2. split; cbn; try done; by rewrite ?H1, ?H2. Qed.

(** the histories of a thread and of a branch change *)
Definition tour_touch (tid idx : Z) s s' : Prop :=
  ∃ g x gh lh, vset (globalHistory s) tid g = Ok gh ∧ vset (localHistoryTable s) idx x = Ok lh ∧
    s' = tour_up_hist lh gh s.

Lemma tour_touch_ok n tid idx s s' : tour_ok n s → tour_touch tid idx s s' → tour_ok n s' ∧ tp_cfg s' = tp_cfg s.
Proof.
  intros Hs (g & x & gh & lh & H1 & H2 & ->). split; [|done].
  apply tour_up_hist_ok; [done|by apply vset_length in H2|by apply vset_length in H1].
Qed.
Lemma tour_touch_trans tid idx s s1 s2 : tour_touch tid idx s s1 → tour_touch tid idx s1 s2 → tour_touch tid idx s s2.
Proof.
  intros (g & x & gh & lh & H1 & H2 & ->) (g' & x' & gh' & lh' & H1' & H2' & ->). exists g', x', gh', lh'. cbn in *.
  split_and!; [by apply (vset_vset _ _ _ _ _ _ H1)|by apply (vset_vset _ _ _ _ _ _ H2)|done].
Qed.

Lemma tour_lookup_returns n tid a s : tour_ok n s → 0 ≤ tid < n → ∃ s' h b g x,
  tour_lookup tid a s = Ok (s', h, b) ∧ vget (globalHistory s) tid = Ok g ∧
  vget (localHistoryTable s) (tour_calcLocHistIdx a s) = Ok x ∧ bh_globalHistory h = g ∧
  bh_localHistoryIdx h = tour_calcLocHistIdx a s ∧ bh_localHistory h = Z.land x (localPredictorMask s) ∧
  tour_touch tid (tour_calcLocHistIdx a s) s s'.
Proof.
  intros Hs Ht. pose proof (tour_idx_range n a s Hs) as Hi. pose proof Hs as Hs'. destruct Hs'.
  destruct (vget_lt (globalHistory s) tid) as (g & Hg); [lia|].
  destruct (vget_lt (localHistoryTable s) (tour_calcLocHistIdx a s)) as (x & Hx); [lia|].
  unfold tour_lookup. rewrite Hx. cbn.
  destruct (above_returns (localCtrs s) _ (Z.land x (localPredictorMask s)) (localThreshold s) tk_localCtrs0) as (lp & -> & _).
  { rewrite tk_localMask0. by apply land_pow2. }
  cbn. rewrite Hg. cbn.
  destruct (above_returns (globalCtrs s) _ (Z.land g (globalHistoryMask s)) (globalThreshold s) tk_globalCtrs0) as (gp & -> & _).
  { rewrite tk_globalMask0. by apply land_pow2. }
  cbn.
  destruct (above_returns (choiceCtrs s) _ (Z.land g (choiceHistoryMask s)) (choiceThreshold s) tk_choiceCtrs0) as (cp & -> & _).
  { rewrite tk_choiceMask0. by apply land_pow2. }
  cbn. rewrite (proj2 (Z.ltb_lt _ _) (proj2 Hi)). cbn. unfold tour_updateGlobalHist. rewrite Hg. cbn.
  rewrite vset_lt by lia. cbn. unfold tour_updateLocalHist. cbn. rewrite Hx. cbn. rewrite vset_lt by lia. cbn.
  eexists _, _, _, g, x. split_and!; [done..|]. eexists _, _, _, _. split_and!; [apply vset_lt; lia..|done].
Qed.

Lemma tour_btbUpdate_returns n tid a s : tour_ok n s → 0 ≤ tid < n →
  returns (tour_btbUpdate tid a s) (tour_touch tid (tour_calcLocHistIdx a s) s).
Proof.
  intros Hs Ht. pose proof (tour_idx_range n a s Hs) as Hi. destruct Hs.
  destruct (vget_lt (globalHistory s) tid) as (g & Hg); [lia|].
  destruct (vget_lt (localHistoryTable s) (tour_calcLocHistIdx a s)) as (x & Hx); [lia|].
  unfold tour_btbUpdate. rewrite Hg. cbn. rewrite vset_lt by lia. cbn. rewrite Hx. cbn. rewrite vset_lt by lia.
  apply returns_ret. eexists _, _, _, _. split_and!; [apply vset_lt; lia..|done].
Qed.

Lemma tour_uncondBranch_returns n tid a s : tour_ok n s → 0 ≤ tid < n → ∃ s' h g g' gh,
  tour_uncondBranch tid a s = Ok (s', h) ∧ vget (globalHistory s) tid = Ok g ∧ vset (globalHistory s) tid g' = Ok gh ∧
  bh_globalHistory h = g ∧ bh_localHistoryIdx h = invalidPredictorIndex ∧
  s' = tour_up_hist (localHistoryTable s) gh s.
Proof.
  intros Hs Ht. destruct Hs. destruct (vget_lt (globalHistory s) tid) as (g & Hg); [lia|].
  unfold tour_uncondBranch, tour_updateGlobalHist. rewrite Hg. cbn. rewrite vset_lt by lia. cbn.
  eexists _, _, g, _, _. split_and!; [done|done|apply vset_lt; lia|done..].
Qed.

Lemma tour_squash_returns n tid h s : tour_ok n s → 0 ≤ tid < n → tour_histOk (tp_cfg s) h →
  returns (tour_squash tid h s) (λ s', tour_ok n s' ∧ tp_cfg s' = tp_cfg s).
Proof.
  intros Hs Ht Hh. pose proof Hs as Hs'. destruct Hs'. unfold tour_squash. rewrite vset_lt by lia. cbn.
  destruct (Z.eqb_spec (bh_localHistoryIdx h) invalidPredictorIndex) as [E|E]; cbn.
  - apply returns_ret. split; [|done]. apply tour_up_hist_ok; [done..|]. by rewrite length_insert.
  - destruct Hh as [|Hh]; [done|]. rewrite vset_lt by lia. cbn. apply returns_ret. split; [|done].
    apply tour_up_hist_ok; [done|..]; by rewrite length_insert.
Qed.

Lemma tour_train_ok n lc gc cc s : tour_ok n s → vec (localPredictorSize (tp_cfg s)) sat_ok lc →
  vec (globalPredictorSize (tp_cfg s)) sat_ok gc → vec (choicePredictorSize (tp_cfg s)) sat_ok cc →
  tour_ok n (tour_up_ctrs lc gc cc s).
Proof. intros [] H1 H2 H3. by split. Qed.

Lemma tour_update_returns n tid a b h q s : tour_ok n s → 0 ≤ tid < n →
  returns (tour_update tid a b h q s) (λ s', tour_ok n s' ∧ tp_cfg s' = tp_cfg s).
Proof.
  intros Hs Ht. pose proof (tour_idx_range n a s Hs) as Hi. pose proof Hs as Hs'. destruct Hs'. unfold tour_update.
  rewrite (proj2 (Z.ltb_lt _ _) (proj2 Hi)). cbn. destruct q.
  - rewrite vset_lt by lia. cbn. destruct (negb _); cbn; rewrite ?vset_lt by lia; cbn; apply returns_ret;
      (split; [|done]); apply tour_up_hist_ok; rewrite ?length_insert; done.
  - assert (0 ≤ Z.land (bh_localHistory h) (localPredictorMask s) < localPredictorSize (tp_cfg s)) as Hl.
    { rewrite tk_localMask0. by apply land_pow2. }
    assert (0 ≤ Z.land (bh_globalHistory h) (globalHistoryMask s) < globalPredictorSize (tp_cfg s)) as Hg.
    { rewrite tk_globalMask0. by apply land_pow2. }
    assert (0 ≤ Z.land (bh_globalHistory h) (choiceHistoryMask s) < choicePredictorSize (tp_cfg s)) as Hc.
    { rewrite tk_choiceMask0. by apply land_pow2. }
    rewrite (proj2 (Z.ltb_lt _ _) (proj2 Hl)). cbn. apply returns_bind.
    apply (returns_conseq _ (vec (choicePredictorSize (tp_cfg s)) sat_ok)).
    { repeat case_match; try (by apply returns_ret); by apply train_returns. }
    intros cc Hcc. apply returns_bind. eapply returns_conseq; [by apply train_returns|]. intros gc Hgc.
    apply returns_bind. apply (returns_conseq _ (vec (localPredictorSize (tp_cfg s)) sat_ok)).
    { case_match; [by apply train_returns|by apply returns_ret]. }
    intros lc Hlc. apply returns_ret. split; [|done]. by apply tour_train_ok.
Qed.

Lemma tour_eqv_global A s s' : tour_eqv A s s' → globalHistory s' = globalHistory s.
Proof. by intros (l & -> & _). Qed.

(** the thread's global history and the branch's local history are put back *)
Lemma tour_undo_touch n tid a s s1 h g x B s2 s3 : tour_ok n s → tour_touch tid (tour_calcLocHistIdx a s) s s1 →
  vget (globalHistory s) tid = Ok g → vget (localHistoryTable s) (tour_calcLocHistIdx a s) = Ok x →
  bh_globalHistory h = g → bh_localHistoryIdx h = tour_calcLocHistIdx a s →
  bh_localHistory h = Z.land x (localPredictorMask s) →
  tour_eqv B s1 s2 → tour_squash tid h s2 = Ok s3 → tour_eqv B s s3.
Proof.
  intros Hs (g1 & x1 & gh & lh & Hgh & Hlh & ->) Hg Hx E1 E2 E3 (l2 & -> & Hl2) Hq. unfold tour_squash in Hq. cbn in *.
  apply bind_Ok in Hq as (gl & Hgl & Hq). rewrite E1 in Hgl. pose proof (tour_idx_range n a s Hs) as Hi.
  pose proof (tk_tableSize _ _ Hs). rewrite E2, E3 in Hq. unfold invalidPredictorIndex in Hq.
  destruct (Z.eqb_spec (tour_calcLocHistIdx a s) (2 ^ 32 - 1)) as [|_]; [lia|]. cbn in Hq.
  apply bind_Ok in Hq as (ll & Hll & [= <-]). exists ll. cbn in *. split.
  - unfold tour_up_hist. cbn. f_equal. pose proof (vset_vset _ _ _ _ _ _ Hgh Hgl) as Hv.
    rewrite (vset_self _ _ _ Hg) in Hv. by injection Hv as <-.
  - by apply (tableEqv_undo _ _ _ _ _ _ _ _ _ Hx Hlh Hl2).
Qed.

(** an unconditional branch is put back *)
Lemma tour_undo_global tid s s1 h g g' gh A B s2 s3 :
  vget (globalHistory s) tid = Ok g → vset (globalHistory s) tid g' = Ok gh →
  bh_globalHistory h = g → bh_localHistoryIdx h = invalidPredictorIndex →
  (∃ l, s1 = tour_up_hist l gh s ∧ ∀ l2, tableEqv (localPredictorMask s) ((λ a, tour_calcLocHistIdx a s) <$> B) l l2 →
     tableEqv (localPredictorMask s) ((λ a, tour_calcLocHistIdx a s) <$> A) (localHistoryTable s) l2) →
  tour_eqv B s1 s2 → tour_squash tid h s2 = Ok s3 → tour_eqv A s s3.
Proof.
  intros Hg Hgh E1 E2 (l & -> & Hl) (l2 & -> & Hl2) Hq. unfold tour_squash in Hq. cbn in *.
  apply bind_Ok in Hq as (gl & Hgl & Hq). rewrite E1 in Hgl. rewrite E2 in Hq. cbn in Hq. injection Hq as <-.
  exists l2. split; [|by apply Hl]. unfold tour_up_hist. cbn. f_equal. pose proof (vset_vset _ _ _ _ _ _ Hgh Hgl) as Hv.
  rewrite (vset_self _ _ _ Hg) in Hv. by injection Hv as <-.
Qed.

Lemma tour_answer n tid a s s1 h b A s' : tour_ok n s → tour_lookup tid a s = Ok (s1, h, b) → tour_eqv A s s' →
  tour_apart s A a → ∃ s1', tour_lookup tid a s' = Ok (s1', h, b).
Proof.
  intros Hs E (l & -> & Hlen & Hl) Ha. pose proof (tour_idx_range n a s Hs) as Hi. pose proof (tk_histories _ _ Hs) as Hh.
  destruct (vget_lt l (tour_calcLocHistIdx a s)) as (x' & Hx'); [lia|]. unfold tour_lookup in *.
  change (tour_calcLocHistIdx a (tour_up_hist l (globalHistory s) s)) with (tour_calcLocHistIdx a s). cbn.
  apply bind_Ok in E as (x & Hx & E). rewrite Hx'. cbn. rewrite (Hl _ _ _ Ha Hx Hx').
  apply bind_Ok in E as (lp & -> & E). cbn. apply bind_Ok in E as (g & Hg & E). rewrite Hg. cbn.
  apply bind_Ok in E as (gp & -> & E). cbn. apply bind_Ok in E as (cp & -> & E). cbn.
  apply bind_Ok in E as (u & -> & E). cbn. apply bind_Ok in E as (s2 & E1 & E). apply bind_Ok in E as (s3 & E2 & [= <- <- <-]).
  unfold tour_updateGlobalHist in *. cbn. rewrite Hg in *. cbn in *. apply bind_Ok in E1 as (gl & -> & [= <-]). cbn.
  unfold tour_updateLocalHist. cbn. rewrite Hx'. cbn. rewrite vset_lt by lia. cbn. by eexists.
Qed.
End tournament.

#[export, refine] Instance tournament_ok : DirectionPredictorOk tournament_predictor :=
  @Build_DirectionPredictorOk tournament_predictor TournamentParams tp_cfg tour_ok tour_histOk tour_eqv tour_apart
    _ _ _ _ _ _ _ _ _ _ _ _.
Proof.
  all: cbn.
  - intros n tid a s Hs Ht. destruct (tour_lookup_returns n tid a s Hs Ht) as (s' & h & b & g & x & E & _ & _ & _ & Hi & _ & Hto).
    exists (s', h, b). cbn. destruct (tour_touch_ok n _ _ _ _ Hs Hto). split_and!; [done..|]. right. rewrite Hi.
    by apply (tour_idx_range n).
  - intros n tid a s Hs Ht. destruct (tour_uncondBranch_returns n tid a s Hs Ht) as (s' & h & g & g' & gh & E & _ & Hg & _ & Hi & ->).
    eexists (_, h). split; [done|]. cbn. split_and!; [|done|by left]. apply tour_up_hist_ok; [done..|].
    by apply vset_length in Hg.
  - intros n tid a s Hs Ht. eapply returns_conseq; [by eapply tour_btbUpdate_returns|]. intros s'. by apply tour_touch_ok.
  - intros n tid a b h q s Hs Ht _. by apply tour_update_returns.
  - apply tour_squash_returns.
  - intros s. exists (localHistoryTable s). split; [by destruct s|apply tableEqv_refl].
  - intros a B s s' (l & -> & Hlen & Hl). exists l. split; [done|]. split; [done|]. intros j x x' [_ Hj]%not_elem_of_cons.
    by apply Hl.
  - intros n tid a s s1 h b s1' B s2 s3 Hs Ht E Hb He Hq.
    destruct (tour_lookup_returns n tid a s Hs Ht) as (s1'' & h' & b' & g & x & E' & Hg & Hx & E1 & E2 & E3 & Hto).
    rewrite E in E'. injection E' as <- <- <-.
    assert (tour_touch tid (tour_calcLocHistIdx a s) s s1') as Hto'.
    { destruct Hb as [->|Hb]; [done|]. destruct (tour_touch_ok n _ _ _ _ Hs Hto) as [Hs1 Hc].
      destruct (tour_btbUpdate_returns n tid a s1 Hs1 Ht) as (s1'' & Hb' & Ht'). rewrite Hb in Hb'. injection Hb' as <-.
      eapply tour_touch_trans; [done|]. unfold tour_calcLocHistIdx in *. by rewrite Hc in Ht'. }
    by eapply (tour_undo_touch n).
  - intros n tid a s s1 h B s2 s3 Hs Ht E He Hq.
    destruct (tour_uncondBranch_returns n tid a s Hs Ht) as (s1' & h' & g & g' & gh & E' & Hg & Hgh & E1 & E2 & ->).
    rewrite E in E'. injection E' as -> <-. refine (tour_undo_global _ _ _ _ _ _ _ _ _ _ _ Hg Hgh E1 E2 _ He Hq). by eexists.
  - intros n tid a s s1 h s1' B s2 s3 Hs Ht E Hb He Hq.
    destruct (tour_uncondBranch_returns n tid a s Hs Ht) as (s1'' & h' & g & g' & gh & E' & Hg & Hgh & E1 & E2 & ->).
    rewrite E in E'. injection E' as -> <-.
    assert (tour_ok n (tour_up_hist (localHistoryTable s) gh s)) as Hs1.
    { apply tour_up_hist_ok; [done..|]. by apply vset_length in Hgh. }
    destruct (tour_btbUpdate_returns n tid a _ Hs1 Ht) as (s1'' & Hb' & g2 & x2 & gh2 & lh2 & H1 & H2 & ->).
    rewrite Hb in Hb'. injection Hb' as ->. cbn in *. pose proof (vset_vset _ _ _ _ _ _ Hgh H1) as Hgh2.
    refine (tour_undo_global _ _ _ _ _ _ _ _ _ _ _ Hg Hgh2 E1 E2 _ He Hq).
    exists lh2. split; [done|]. intros l2 Hl2. exact (tableEqv_touch _ _ _ _ _ _ _ H2 Hl2).
  - apply tour_answer.
  - intros s a H. by apply elem_of_nil in H.
Defined.

Lemma newSatCounter_ok bits c : 0 ≤ bits → newSatCounter bits = Ok c → sat_ok c.
Proof.
  unfold newSatCounter. destruct (8 <? bits); [done|]. intros H [= <-]. unfold sat_ok. cbn.
  pose proof (Z.pow_pos_nonneg 2 bits). lia.
Qed.

(** the parameters are [unsigned] *)
Definition tour_params (c : TournamentParams) : Prop :=
  0 ≤ localCtrBits c ∧ 0 ≤ globalCtrBits c ∧ 0 ≤ choiceCtrBits c ∧
  0 ≤ localPredictorSize c < 2 ^ 32 ∧ 0 ≤ localHistoryTableSize c < 2 ^ 32 ∧ 0 ≤ globalPredictorSize c ∧
  0 ≤ choicePredictorSize c.

(** the mask of the bits of a power of two *)
Lemma mask_bits n b : 0 ≤ n < 2 ^ 32 → isPowerOf2 n = true → ceilLog2 n = Ok b → u32 (mask b) = n - 1.
Proof.
  intros Hn Hp Hb. pose proof (ceilLog2_pow2 n ltac:(lia) Hp b Hb) as [Hb0 E]. pose proof (isPowerOf2_pow2 n ltac:(lia) Hp) as (k & Hk & E').
  assert (b < 32) by (apply (Z.pow_lt_mono_r_iff 2); lia). unfold mask.
  destruct (Z.leb_spec 64 b); [lia|]. rewrite <- E. apply u32_id. assert (0 < 2 ^ k) by (apply Z.pow_pos_nonneg; lia). lia.
Qed.

Lemma tour_new_ok c n s : 0 ≤ n → tour_params c → tour_new c n = Ok s → tour_ok n s.
Proof.
  intros Hn (H1 & H2 & H3 & H4 & H5 & H6 & H7). unfold tour_new.
  intros (lc & Elc & (lb & Elb & (gc & Egc & (gb & _ & (cb & _ & (cc & Ecc & E)%bind_Ok)%bind_Ok)%bind_Ok)%bind_Ok)%bind_Ok)%bind_Ok.
  destruct (isPowerOf2 (localPredictorSize c)) eqn:P1; [|done]. destruct (isPowerOf2 (globalPredictorSize c)) eqn:P2; [|done].
  destruct (isPowerOf2 (localHistoryTableSize c)) eqn:P3; [|done]. destruct (isPowerOf2 (choicePredictorSize c)) eqn:P4; [|done].
  cbn in E. destruct (_ <? _) in E; [done|]. destruct (_ <? _) in E; [done|]. injection E as <-.
  apply newSatCounter_ok in Elc, Egc, Ecc; [|done..].
  split; cbn; rewrite ?length_replicate; try lia; try (by apply isPowerOf2_pow2; [lia|done]);
    try (by apply vec_replicate; [lia|done]). by apply mask_bits.
Qed.

(** ** The local predictor *)

Record local_ok (n : Z) (s : LocalBP) : Prop := {
  lk_pow : pow2 (indexMask s + 1);
  lk_ctrs : vec (indexMask s + 1) sat_ok (lb_ctrs s);
}.

Lemma local_idx_range n a s : local_ok n s → 0 ≤ local_getLocalIndex a s < indexMask s + 1.
Proof.
  intros []. unfold local_getLocalIndex. pose proof (land_pow2 (Z.shiftr a (lb_instShiftAmt s)) _ lk_pow0) as H.
  by rewrite Z.add_simpl_r in H.
Qed.

Lemma local_lookup_returns n tid a s : local_ok n s → ∃ b, local_lookup tid a s = Ok (s, tt, b).
Proof.
  intros Hs. unfold local_lookup. destruct (vec_get _ _ _ _ (lk_ctrs _ _ Hs) (local_idx_range n a s Hs)) as (c & -> & _).
  by eexists.
Qed.

Lemma local_update_returns n tid a b h q s : local_ok n s → returns (local_update tid a b h q s) (local_ok n).
Proof.
  intros Hs. unfold local_update. destruct q; [by apply returns_ret|]. apply returns_bind.
  eapply returns_conseq; [eapply train_returns; [apply (lk_ctrs _ _ Hs)|by apply (local_idx_range n)]|].
  intros l Hl. apply returns_ret. destruct Hs. by split.
Qed.

Lemma local_new_ok n size bits sh s : 0 ≤ size → 0 < bits → local_new size bits sh = Ok s → local_ok n s.
Proof.
  intros Hs Hb. unfold local_new. intros (c & Hc & E)%bind_Ok. apply newSatCounter_ok in Hc; [|lia].
  destruct (isPowerOf2 size); [|done]. destruct (isPowerOf2 (size `div` bits)) eqn:P; [|done]. cbn in E. injection E as <-.
  assert (0 ≤ size `div` bits) by (apply Z.div_pos; lia). split; cbn; rewrite Z.sub_add.
  - by apply isPowerOf2_pow2.
  - by apply vec_replicate.
Qed.

#[export, refine] Instance local_predictor_ok : DirectionPredictorOk local_predictor :=
  @Build_DirectionPredictorOk local_predictor unit (λ _, tt) local_ok (λ _ _, True) (λ _, eq) (λ _ _ _, True)
    _ _ _ _ _ _ _ _ _ _ _ _.
Proof.
  all: cbn.
  - intros n tid a s Hs _. destruct (local_lookup_returns n tid a s Hs) as (b & E). by exists (s, tt, b).
  - intros n tid a s Hs _. by exists (s, tt).
  - intros n tid a s Hs _. by exists s.
  - intros n tid a b h q s Hs _ _. eapply returns_conseq; [by apply (local_update_returns n)|done].
  - intros n tid h s Hs _ _. by exists s.
  - done.
  - done.
  - intros n tid a s s1 h b s1' B s2 s3 Hs _ E Hb <- [= <-]. destruct (local_lookup_returns n tid a s Hs) as (b' & E').
    rewrite E in E'. injection E' as <- _ _. by destruct Hb as [->|[= <-]].
  - by intros n tid a s s1 h B s2 s3 Hs _ [= <- _] <- [= <-].
  - by intros n tid a s s1 h s1' B s2 s3 Hs _ [= <- _] [= <-] <- [= <-].
  - intros n tid a s s1 h b A s' Hs E <- _. by exists s1.
  - done.
Defined.

(** ** The bi-mode predictor *)

Section bimode.
Implicit Types (s : BiModeBP) (h : BiHistory).

Record bimode_ok (n : Z) s : Prop := {
  bk_global : pow2 (bm_globalPredictorSize (bm_cfg s));
  bk_choice : pow2 (bm_choicePredictorSize (bm_cfg s));
  bk_choiceCtrs : vec (bm_choicePredictorSize (bm_cfg s)) sat_ok (choiceCounters s);
  bk_takenCtrs : vec (bm_globalPredictorSize (bm_cfg s)) sat_ok (takenCounters s);
  bk_notTakenCtrs : vec (bm_globalPredictorSize (bm_cfg s)) sat_ok (notTakenCounters s);
  bk_threads : Z.of_nat (length (globalHistoryReg s)) = n;
}.

Lemma bimode_new_ok c n s : 0 ≤ n → 0 ≤ bm_globalCtrBits c → 0 ≤ bm_choiceCtrBits c → 0 ≤ bm_globalPredictorSize c →
  0 ≤ bm_choicePredictorSize c → bimode_new c n = Ok s → bimode_ok n s.
Proof.
  intros Hn H1 H2 H3 H4. unfold bimode_new. intros (b & _ & (cc & Ecc & (gc & Egc & E)%bind_Ok)%bind_Ok)%bind_Ok.
  destruct (isPowerOf2 (bm_choicePredictorSize c)) eqn:P1; [|done].
  destruct (isPowerOf2 (bm_globalPredictorSize c)) eqn:P2; [|done]. cbn in E. injection E as <-.
  apply newSatCounter_ok in Egc, Ecc; [|done..].
  split; cbn; rewrite ?length_replicate; try lia; try (by apply isPowerOf2_pow2); by apply vec_replicate.
Qed.

(** only the history of a thread changes *)
Definition bimode_touch (tid : Z) s s' : Prop :=
  ∃ g l, vset (globalHistoryReg s) tid g = Ok l ∧ s' = bimode_up_reg l s.

Lemma bimode_touch_ok n tid s s' : bimode_ok n s → bimode_touch tid s s' → bimode_ok n s'.
Proof. intros [] (g & l & H & ->). apply vset_length in H. split; cbn; try done. by rewrite H. Qed.
Lemma bimode_touch_trans tid s s1 s2 : bimode_touch tid s s1 → bimode_touch tid s1 s2 → bimode_touch tid s s2.
Proof.
  intros (g & l & H & ->) (g' & l' & H' & ->). exists g', l'. cbn in *. split; [by apply (vset_vset _ _ _ _ _ _ H)|done].
Qed.

Lemma bimode_set_returns n tid g s : bimode_ok n s → 0 ≤ tid < n →
  returns (l ← vset (globalHistoryReg s) tid g; Ok (bimode_up_reg l s)) (bimode_touch tid s).
Proof.
  intros [] Ht. rewrite vset_lt by lia. apply returns_ret. eexists _, _. split; [|done]. apply vset_lt. lia.
Qed.

Lemma bimode_lookup_returns n tid a s : bimode_ok n s → 0 ≤ tid < n → ∃ s' h b,
  bimode_lookup tid a s = Ok (s', h, b) ∧ vget (globalHistoryReg s) tid = Ok (bi_globalHistoryReg h) ∧ bimode_touch tid s s'.
Proof.
  intros Hs Ht. pose proof Hs as Hs'. destruct Hs'. destruct (vget_lt (globalHistoryReg s) tid) as (g & Hg); [lia|].
  assert (0 ≤ bimode_choiceIdx a s < bm_choicePredictorSize (bm_cfg s)) as Hc by by apply land_pow2.
  assert (0 ≤ bimode_globalIdx a g s < bm_globalPredictorSize (bm_cfg s)) as Hgi by by apply land_pow2.
  unfold bimode_lookup. rewrite Hg. cbn. rewrite (proj2 (Z.ltb_lt _ _) (proj2 Hc)), (proj2 (Z.ltb_lt _ _) (proj2 Hgi)). cbn.
  destruct (above_returns _ _ _ (bm_choiceThreshold s) bk_choiceCtrs0 Hc) as (x & -> & _). cbn.
  destruct (above_returns _ _ _ (takenThreshold s) bk_takenCtrs0 Hgi) as (y & -> & _). cbn.
  destruct (above_returns _ _ _ (takenThreshold s) bk_notTakenCtrs0 Hgi) as (z & -> & _). cbn.
  unfold bimode_updateGlobalHistReg. rewrite Hg.
  cbn. destruct (bimode_set_returns n tid (Z.land (Z.lor (u32 (Z.shiftl g 1)) (b2z (if x then y else z))) (bm_historyRegisterMask s)) s Hs Ht) as (s' & E & Hto).
  rewrite E. cbn. eexists _, _, _. by split_and!.
Qed.

Lemma bimode_uncondBranch_returns n tid a s : bimode_ok n s → 0 ≤ tid < n → ∃ s' h,
  bimode_uncondBranch tid a s = Ok (s', h) ∧ vget (globalHistoryReg s) tid = Ok (bi_globalHistoryReg h) ∧ bimode_touch tid s s'.
Proof.
  intros Hs Ht. destruct (vget_lt (globalHistoryReg s) tid) as (g & Hg); [destruct Hs; lia|].
  unfold bimode_uncondBranch, bimode_updateGlobalHistReg. rewrite Hg. cbn.
  match goal with |- context [vset _ tid ?g'] => destruct (bimode_set_returns n tid g' s Hs Ht) as (s' & E & Hto) end.
  rewrite E. cbn. eexists _, _. by split_and!.
Qed.

Lemma bimode_btbUpdate_returns n tid a s : bimode_ok n s → 0 ≤ tid < n → returns (bimode_btbUpdate tid a s) (bimode_touch tid s).
Proof.
  intros Hs Ht. destruct (vget_lt (globalHistoryReg s) tid) as (g & Hg); [destruct Hs; lia|].
  unfold bimode_btbUpdate. rewrite Hg. cbn. by apply (bimode_set_returns n).
Qed.

Lemma bimode_update_returns n tid a b h q s : bimode_ok n s → 0 ≤ tid < n → returns (bimode_update tid a b h q s) (bimode_ok n).
Proof.
  intros Hs Ht. unfold bimode_update. destruct q.
  { eapply returns_conseq; [by apply (bimode_set_returns n)|]. intros s'. by apply bimode_touch_ok. }
  pose proof Hs as Hs'. destruct Hs'.
  assert (0 ≤ bimode_choiceIdx a s < bm_choicePredictorSize (bm_cfg s)) as Hc by by apply land_pow2.
  assert (0 ≤ bimode_globalIdx a (bi_globalHistoryReg h) s < bm_globalPredictorSize (bm_cfg s)) as Hg by by apply land_pow2.
  rewrite (proj2 (Z.ltb_lt _ _) (proj2 Hc)), (proj2 (Z.ltb_lt _ _) (proj2 Hg)). cbn.
  apply returns_bind. apply (returns_conseq _ (vec (bm_globalPredictorSize (bm_cfg s)) sat_ok)).
  { case_match; [by apply train_returns|by apply returns_ret]. }
  intros t Hte. apply returns_bind. apply (returns_conseq _ (vec (bm_globalPredictorSize (bm_cfg s)) sat_ok)).
  { case_match; [by apply returns_ret|by apply train_returns]. }
  intros nt Hnt. apply returns_bind. apply (returns_conseq _ (vec (bm_choicePredictorSize (bm_cfg s)) sat_ok)).
  { repeat case_match; try (by apply returns_ret); by apply train_returns. }
  intros c Hcc. apply returns_ret. by split.
Qed.

(** the history of the thread is put back *)
Lemma bimode_undo tid s s1 h s3 : vget (globalHistoryReg s) tid = Ok (bi_globalHistoryReg h) → bimode_touch tid s s1 →
  bimode_squash tid h s1 = Ok s3 → s3 = s.
Proof.
  intros Hg (g & l & Hl & ->) (l' & Hl' & [= <-])%bind_Ok. cbn in *. pose proof (vset_vset _ _ _ _ _ _ Hl Hl') as Hv.
  rewrite (vset_self _ _ _ Hg) in Hv. injection Hv as <-. by destruct s.
Qed.
End bimode.

#[export, refine] Instance bimode_predictor_ok : DirectionPredictorOk bimode_predictor :=
  @Build_DirectionPredictorOk bimode_predictor unit (λ _, tt) bimode_ok (λ _ _, True) (λ _, eq) (λ _ _ _, True)
    _ _ _ _ _ _ _ _ _ _ _ _.
Proof.
  all: cbn.
  - intros n tid a s Hs Ht. destruct (bimode_lookup_returns n tid a s Hs Ht) as (s' & h & b & E & _ & Hto).
    exists (s', h, b). split_and!; [done| |done..]. by eapply bimode_touch_ok.
  - intros n tid a s Hs Ht. destruct (bimode_uncondBranch_returns n tid a s Hs Ht) as (s' & h & E & _ & Hto).
    exists (s', h). split_and!; [done| |done..]. by eapply bimode_touch_ok.
  - intros n tid a s Hs Ht. eapply returns_conseq; [by eapply bimode_btbUpdate_returns|]. intros s' Hto.
    split; [by eapply bimode_touch_ok|done].
  - intros n tid a b h q s Hs Ht _. eapply returns_conseq; [by apply (bimode_update_returns n)|done].
  - intros n tid h s Hs Ht _. eapply returns_conseq; [by apply (bimode_set_returns n)|]. intros s' Hto.
    split; [by eapply bimode_touch_ok|done].
  - done.
  - done.
  - intros n tid a s s1 h b s1' B s2 s3 Hs Ht E Hb <- Hq.
    destruct (bimode_lookup_returns n tid a s Hs Ht) as (s1'' & h' & b' & E' & Hg & Hto).
    rewrite E in E'. injection E' as <- <- <-. symmetry. refine (bimode_undo tid s s1' h s3 Hg _ Hq).
    destruct Hb as [->|Hb]; [done|]. pose proof (bimode_touch_ok n _ _ _ Hs Hto) as Hs1.
    destruct (bimode_btbUpdate_returns n tid a s1 Hs1 Ht) as (s1'' & Hb' & Ht'). rewrite Hb in Hb'. injection Hb' as <-.
    by eapply bimode_touch_trans.
  - intros n tid a s s1 h B s2 s3 Hs Ht E <- Hq.
    destruct (bimode_uncondBranch_returns n tid a s Hs Ht) as (s1' & h' & E' & Hg & Hto).
    rewrite E in E'. injection E' as <- <-. symmetry. exact (bimode_undo tid s s1 h s3 Hg Hto Hq).
  - intros n tid a s s1 h s1' B s2 s3 Hs Ht E Hb <- Hq.
    destruct (bimode_uncondBranch_returns n tid a s Hs Ht) as (s1'' & h' & E' & Hg & Hto).
    rewrite E in E'. injection E' as <- <-. pose proof (bimode_touch_ok n _ _ _ Hs Hto) as Hs1. symmetry.
    refine (bimode_undo tid s s1' h s3 Hg _ Hq).
    destruct (bimode_btbUpdate_returns n tid a s1 Hs1 Ht) as (s1'' & Hb' & Ht'). rewrite Hb in Hb'. injection Hb' as <-.
    by eapply bimode_touch_trans.
  - intros n tid a s s1 h b A s' Hs E <- _. by exists s1.
  - done.
Defined.
