(* ===== verification/BranchPred.v ===== *)
(** * The branch prediction unit (src/src/cpu/pred/bpred_unit.cc)

    [predict] asks the direction predictor, the return address stack, the
    branch target buffer and the indirect predictor, all of which change
    speculatively, and records what it did in the history of the thread.
    [update] trains with the branches that are done, [squash] undoes the ones
    that are not, and [squashWith] also corrects the branch that was
    mispredicted.  Random numbers are arguments. *)
From S2P Require Import Prelude PipeData BpTables BpDirection.

(** what the unit asks of an instruction *)
Class BranchIsa `{I : Isa} := {
  isUncondCtrl : StaticInst → bool;
  isDirectCtrl : StaticInst → bool;
  isCall : StaticInst → bool;
  isReturn : StaticInst → bool;
  buildRetPC : StaticInst → PCState → PCState → PCState;
}.
Arguments BranchIsa I : clear implicits.

Section unit.
Context `{I : Isa} {BI : BranchIsa I} {DP : DirectionPredictor}.

Record PredictorHistory := mkPH {
  ph_seqNum : Z;
  ph_pc : Z;
  ph_bpHistory : BpHist;
  ph_indirectHistory : option Z;
  ph_RASTarget : option PCState;
  ph_RASIndex : Z;
  ph_predTaken : bool;
  ph_usedRAS : bool;
  ph_pushedRAS : bool;
  ph_wasCall : bool;
  ph_wasReturn : bool;
  ph_wasIndirect : bool;
  ph_target : Z;
  ph_inst : StaticInst;
}.
Implicit Types (h : PredictorHistory) (hs : list PredictorHistory).

Record BPredUnit := mkBPredUnit {
  predHist : list (list PredictorHistory);     (* youngest first *)
  BTB : DefaultBTB;
  RAS : list ReturnAddrStack;
  predictPoison : Z;
  predictorEnable : bool;
  iPred : option SimpleIndirectPredictor;
  direction : Dir;
}.
Implicit Types (s : BPredUnit).

Record BPredParams := mkBPredParams {
  bp_numThreads : Z;
  BTBEntries : Z;
  BTBTagSize : Z;
  RASSize : Z;
  bp_instShiftAmt : Z;
  bp_predictPoison : Z;
  branchPredEn : bool;
  indirectBranchPred : option IndirectParams;
}.

(** [BPredUnit(params)]; the indirect predictor and the direction predictor
    are built before and after it *)
Definition newBPredUnit (q : BPredParams) (newDir : res Dir) : res BPredUnit :=
  ip ← match indirectBranchPred q with
       | Some c => p ← newIndirect c (bp_numThreads q); Ok (Some p)
       | None => Ok None
       end;
  t ← newBTB (BTBEntries q) (BTBTagSize q) (bp_instShiftAmt q) (bp_numThreads q);
  d ← newDir;
  Ok (mkBPredUnit (replicate (Z.to_nat (bp_numThreads q)) []) t
        (replicate (Z.to_nat (bp_numThreads q)) (ras_init (RASSize q)))
        (bp_predictPoison q) (branchPredEn q) ip d).

(** field updates *)
Definition bp_setDir (d : Dir) s : BPredUnit :=
  mkBPredUnit (predHist s) (BTB s) (RAS s) (predictPoison s) (predictorEnable s) (iPred s) d.
Definition bp_setIPred (ip : option SimpleIndirectPredictor) s : BPredUnit :=
  mkBPredUnit (predHist s) (BTB s) (RAS s) (predictPoison s) (predictorEnable s) ip (direction s).
Definition bp_setBTB (t : DefaultBTB) s : BPredUnit :=
  mkBPredUnit (predHist s) t (RAS s) (predictPoison s) (predictorEnable s) (iPred s) (direction s).
(** [RAS[tid] = f(RAS[tid])] *)
Definition bp_onRAS (tid : Z) (f : ReturnAddrStack → res ReturnAddrStack) s : res BPredUnit :=
  r ← vget (RAS s) tid;
  r ← f r;
  l ← vset (RAS s) tid r;
  Ok (mkBPredUnit (predHist s) (BTB s) l (predictPoison s) (predictorEnable s) (iPred s) (direction s)).
(** [if (iPred) iPred->f()] *)
Definition bp_onIPred (f : SimpleIndirectPredictor → res SimpleIndirectPredictor) s : res BPredUnit :=
  match iPred s with
  | Some p => p ← f p; Ok (bp_setIPred (Some p) s)
  | None => Ok s
  end.
(** [predHist[tid] = hs] *)
Definition bp_setHist (tid : Z) hs s : res BPredUnit :=
  l ← vset (predHist s) tid hs;
  Ok (mkBPredUnit l (BTB s) (RAS s) (predictPoison s) (predictorEnable s) (iPred s) (direction s)).

(** ** Prediction *)

(** whether the draw of [random_mt.random(0, 100)] turns a prediction round *)
Definition opposite_effect (rng : Z) s : bool := predictPoison s `mod` 2 ^ 8 <=? rng.

(** the direction, and what the direction predictor recorded *)
Definition predictDirection (rng : Z) (si : StaticInst) (addr tid : Z) s : res (BPredUnit * BpHist * bool) :=
  if isUncondCtrl si then
    ' (d, h) ← dp_uncondBranch tid addr (direction s);
    Ok (bp_setDir d s, h, true)
  else
    ' (d, h, taken) ← dp_lookup tid addr (direction s);
    let taken := if opposite_effect rng s then negb taken else taken in
    let taken := if negb (predictorEnable s) then false else taken in
    Ok (bp_setDir d s, h, taken).

(** what is known of the target: the prediction, whether it is still taken,
    and the record so far *)
Record Guess := mkGuess { gu_target : option PCState; gu_taken : bool; gu_record : PredictorHistory }.

(** a return: the top of the return address stack *)
Definition predictReturn (si : StaticInst) (pc : PCState) (tid : Z) h s : res (BPredUnit * Guess) :=
  r ← vget (RAS s) tid;
  top ← ras_top r;
  let target := match top with Some t => buildRetPC si pc t | None => pc end in
  s ← bp_onRAS tid (λ r, Ok (ras_pop r)) s;
  Ok (s, mkGuess (Some target) true
           (mkPH (ph_seqNum h) (ph_pc h) (ph_bpHistory h) (ph_indirectHistory h) top (tos r) true true
              (ph_pushedRAS h) (ph_wasCall h) true (ph_wasIndirect h) (ph_target h) (ph_inst h))).

(** a call is pushed *)
Definition predictCall (si : StaticInst) (pc : PCState) (tid : Z) s : res BPredUnit :=
  if isCall si then bp_onRAS tid (ras_push pc) s else Ok s.

(** a target is missing: the branch is predicted not taken; a conditional call
    is taken off the stack again *)
Definition missed (si : StaticInst) (pc : PCState) (tid : Z) h s : res (BPredUnit * Guess) :=
  let pops := isCall si && negb (isUncondCtrl si) in
  s ← (if pops then bp_onRAS tid (λ r, Ok (ras_pop r)) s else Ok s);
  Ok (s, mkGuess (Some (advancePC si pc)) false
           (mkPH (ph_seqNum h) (ph_pc h) (ph_bpHistory h) (ph_indirectHistory h) (ph_RASTarget h) (ph_RASIndex h)
              false (ph_usedRAS h) (if pops then false else ph_pushedRAS h) (ph_wasCall h) (ph_wasReturn h)
              (ph_wasIndirect h) (ph_target h) (ph_inst h))).

(** a direct branch, or there is no indirect predictor *)
Definition predictDirect (si : StaticInst) (pc : PCState) (tid : Z) h s : res (BPredUnit * Guess) :=
  valid ← btb_valid (BTB s) (instAddr pc) tid;
  if (valid : bool) then
    t ← btb_lookup (BTB s) (instAddr pc) tid;
    Ok (s, mkGuess t true h)
  else
    s ← (if negb (isCall si) && negb (isReturn si)
         then d ← dp_btbUpdate tid (instAddr pc) (direction s); Ok (bp_setDir d s)
         else Ok s);
    missed si pc tid h s.

(** an indirect branch *)
Definition predictIndirect (si : StaticInst) (pc : PCState) (tid : Z) h (p : SimpleIndirectPredictor) s
  : res (BPredUnit * Guess) :=
  let h := mkPH (ph_seqNum h) (ph_pc h) (ph_bpHistory h) (ph_indirectHistory h) (ph_RASTarget h) (ph_RASIndex h)
             (ph_predTaken h) (ph_usedRAS h) (ph_pushedRAS h) (ph_wasCall h) (ph_wasReturn h) true
             (ph_target h) (ph_inst h) in
  hit ← ind_lookup (instAddr pc) tid p;
  ' (s, g) ← match hit with
             | Some t => Ok (s, mkGuess (Some t) true h)
             | None => missed si pc tid h s
             end;
  t ← derefPtr (gu_target g);
  s ← bp_onIPred (recordIndirect (instAddr pc) (instAddr t) (ph_seqNum h) tid) s;
  Ok (s, g).

(** the target *)
Definition predictTarget (si : StaticInst) (pc : PCState) (tid : Z) (taken : bool) h s : res (BPredUnit * Guess) :=
  if taken then
    if isReturn si then predictReturn si pc tid h s
    else
      s ← predictCall si pc tid s;
      let h := mkPH (ph_seqNum h) (ph_pc h) (ph_bpHistory h) (ph_indirectHistory h) (ph_RASTarget h)
                 (ph_RASIndex h) (ph_predTaken h) (ph_usedRAS h) (isCall si) (isCall si) (ph_wasReturn h)
                 (ph_wasIndirect h) (ph_target h) (ph_inst h) in
      match iPred s with
      | Some p => if isDirectCtrl si then predictDirect si pc tid h s else predictIndirect si pc tid h p s
      | None => predictDirect si pc tid h s
      end
  else
    Ok (s, mkGuess (Some (advancePC si pc)) false
             (mkPH (ph_seqNum h) (ph_pc h) (ph_bpHistory h) (ph_indirectHistory h) (ph_RASTarget h) (ph_RASIndex h)
                (ph_predTaken h) (ph_usedRAS h) (ph_pushedRAS h) (ph_wasCall h) (isReturn si) (ph_wasIndirect h)
                (ph_target h) (ph_inst h))).

(** [predict(inst, seqNum, pc, tid)]: the predicted pc and whether it is taken *)
Definition predict (rng : Z) (si : StaticInst) (seqNum : Z) (pc : PCState) (tid : Z) s
  : res (BPredUnit * PCState * bool) :=
  ' (s, bph, taken) ← predictDirection rng si (instAddr pc) tid s;
  ih ← match iPred s with Some p => g ← genIndirectInfo tid p; Ok (Some g) | None => Ok None end;
  ' (s, g) ← predictTarget si pc tid taken
               (mkPH seqNum (instAddr pc) bph ih None 0 taken false false false false false (2 ^ 64 - 1) si) s;
  target ← derefPtr (gu_target g);
  let h := gu_record g in
  let h := mkPH (ph_seqNum h) (ph_pc h) (ph_bpHistory h) (ph_indirectHistory h) (ph_RASTarget h) (ph_RASIndex h)
             (ph_predTaken h) (ph_usedRAS h) (ph_pushedRAS h) (ph_wasCall h) (ph_wasReturn h) (ph_wasIndirect h)
             (instAddr target) (ph_inst h) in
  s ← bp_onIPred (updateDirectionInfo tid taken) s;
  hs ← vget (predHist s) tid;
  s ← bp_setHist tid (h :: hs) s;
  Ok (s, target, gu_taken g).

(** ** Training *)

(** the loop of [update]: the records, oldest first *)
Fixpoint commitHist (done_sn tid : Z) (old : list PredictorHistory) s : res (list PredictorHistory * BPredUnit) :=
  match old with
  | h :: rest =>
      if ph_seqNum h <=? done_sn then
        d ← dp_update tid (ph_pc h) (ph_predTaken h) (ph_bpHistory h) false (direction s);
        s ← bp_onIPred (ind_commit done_sn tid) (bp_setDir d s);
        commitHist done_sn tid rest s
      else Ok (old, s)
  | [] => Ok ([], s)
  end.

(** [update(done_sn, tid)] *)
Definition bp_update (done_sn tid : Z) s : res BPredUnit :=
  hs ← vget (predHist s) tid;
  ' (old, s) ← commitHist done_sn tid (reverse hs) s;
  bp_setHist tid (reverse old) s.

(** ** Squashing *)

(** one record is undone *)
Definition undo (tid : Z) h s : res BPredUnit :=
  s ← (if ph_usedRAS h then bp_onRAS tid (ras_restore (ph_RASIndex h) (ph_RASTarget h)) s
       else if ph_wasCall h && ph_pushedRAS h then bp_onRAS tid (λ r, Ok (ras_pop r)) s
       else Ok s);
  d ← dp_squash tid (ph_bpHistory h) (direction s);
  match iPred s, ph_indirectHistory h with
  | Some p, Some g => p ← deleteIndirectInfo tid g p; Ok (bp_setIPred (Some p) (bp_setDir d s))
  | Some _, None => Stop NullDeref
  | None, _ => Ok (bp_setDir d s)
  end.

(** the loop of [squash] *)
Fixpoint undoHist (squashed_sn tid : Z) hs s : res (list PredictorHistory * BPredUnit) :=
  match hs with
  | h :: rest =>
      if squashed_sn <? ph_seqNum h then s ← undo tid h s; undoHist squashed_sn tid rest s
      else Ok (hs, s)
  | [] => Ok ([], s)
  end.

(** [squash(squashed_sn, tid)] *)
Definition bp_squash (squashed_sn tid : Z) s : res BPredUnit :=
  s ← bp_onIPred (ind_squash squashed_sn tid) s;
  hs ← vget (predHist s) tid;
  ' (hs, s) ← undoHist squashed_sn tid hs s;
  bp_setHist tid hs s.

(** the record of the mispredicted branch gets the outcome *)
Definition corrected (target : Z) (taken : bool) h : PredictorHistory :=
  mkPH (ph_seqNum h) (ph_pc h) (ph_bpHistory h) (ph_indirectHistory h) (ph_RASTarget h) (ph_RASIndex h) taken
    (ph_usedRAS h) (ph_pushedRAS h) (ph_wasCall h) (ph_wasReturn h) (ph_wasIndirect h) target (ph_inst h).
Definition up_ras (used pushed : bool) h : PredictorHistory :=
  mkPH (ph_seqNum h) (ph_pc h) (ph_bpHistory h) (ph_indirectHistory h) (ph_RASTarget h) (ph_RASIndex h)
    (ph_predTaken h) used pushed (ph_wasCall h) (ph_wasReturn h) (ph_wasIndirect h) (ph_target h) (ph_inst h).

(** the stack and the tables of targets after a misprediction *)
Definition fixTargets (victim : Z) (corr_target : PCState) (taken : bool) (tid : Z) h s
  : res (PredictorHistory * BPredUnit) :=
  if taken then
    let late := ph_wasReturn h && negb (ph_usedRAS h) in
    s ← (if late then bp_onRAS tid (λ r, Ok (ras_pop r)) s else Ok s);
    let h := up_ras (if late then true else ph_usedRAS h) (ph_pushedRAS h) h in
    s ← (if ph_wasIndirect h then
           bp_onIPred (λ p, g ← derefPtr (ph_indirectHistory h); recordTarget victim g corr_target tid p) s
         else t ← btb_update (BTB s) (ph_pc h) corr_target tid; Ok (bp_setBTB t s));
    Ok (h, s)
  else if ph_usedRAS h then
    s ← bp_onRAS tid (ras_restore (ph_RASIndex h) (ph_RASTarget h)) s;
    Ok (up_ras false (ph_pushedRAS h) h, s)
  else if ph_wasCall h && ph_pushedRAS h then
    s ← bp_onRAS tid (λ r, Ok (ras_pop r)) s;
    Ok (up_ras (ph_usedRAS h) false h, s)
  else Ok (h, s).

(** [squash(squashed_sn, corr_target, actually_taken, tid)] *)
Definition squashWith (victim squashed_sn : Z) (corr_target : PCState) (taken : bool) (tid : Z) s : res BPredUnit :=
  s ← bp_squash squashed_sn tid s;
  hs ← vget (predHist s) tid;
  match hs with
  | [] => Ok s
  | h :: rest =>
      check (ph_seqNum h =? squashed_sn);
      let h := corrected (instAddr corr_target) taken h in
      d ← dp_update tid (ph_pc h) taken (ph_bpHistory h) true (direction s);
      s ← bp_onIPred (λ p, g ← derefPtr (ph_indirectHistory h); changeDirectionPrediction tid g taken p)
            (bp_setDir d s);
      ' (h, s) ← fixTargets victim corr_target taken tid h s;
      bp_setHist tid (h :: rest) s
  end.

(** [drainSanityCheck()] *)
Definition drainSanityCheck s : res unit :=
  assert_ (forallb (λ hs, match hs with [] => true | _ => false end) (predHist s)).
End unit.
