(* ===== verification/BranchPredInv.v ===== *)
(** * The branch prediction unit: what a prediction changes

    [bp_ok] is the well-formedness of the unit.  [predict_returns] says that a
    prediction returns, keeps it, and what it changes ([predicted]): one
    record is added, and the record says how the return address stack, the
    direction predictor and the indirect predictor are put back. *)
From S2P Require Import Prelude PipeData BpTables BpTableProps BpDirection BpDirectionProps BranchPred.

Section unit.
Context `{I : Isa} {BI : BranchIsa I} {DP : DirectionPredictor} {DO : DirectionPredictorOk DP}.
Implicit Types (h : PredictorHistory) (s : BPredUnit) (r : ReturnAddrStack) (p : SimpleIndirectPredictor).
Variable n R : Z.       (* threads, and the size of a return address stack *)

(** ** Well-formedness *)

Record rec_ok s h : Prop := {
  hk_dir : dp_histOk (dp_shape (direction s)) (ph_bpHistory h);
  hk_ras : 0 ≤ ph_RASIndex h < R;
  hk_ind : is_Some (iPred s) → is_Some (ph_indirectHistory h);
}.

Record bp_ok s : Prop := {
  bo_dir : dp_ok n (direction s);
  bo_btb : btb_ok (BTB s);
  bo_ras : vec n (ras_ok R) (RAS s);
  bo_ind p : iPred s = Some p → ind_ok n p;
  bo_len : Z.of_nat (length (predHist s)) = n;
  bo_recs t hs : vget (predHist s) t = Ok hs → Forall (rec_ok s) hs;
}.

(** what no operation changes *)
Definition bp_kind s : Shape * option IndirectParams := (dp_shape (direction s), ind_cfg <$> iPred s).

Lemma rec_ok_kind s s' h : bp_kind s' = bp_kind s → rec_ok s h → rec_ok s' h.
Proof.
  unfold bp_kind. intros E [H1 H2 H3]. injection E as E1 E2. split; [by rewrite E1|done|].
  intros [p' Hp']. rewrite Hp' in E2. apply H3. destruct (iPred s); [by eexists|done].
Qed.

(** a state with the same records is well formed if its parts are *)
Lemma bp_ok_parts s s' : bp_ok s → bp_kind s' = bp_kind s → predHist s' = predHist s →
  dp_ok n (direction s') → btb_ok (BTB s') → vec n (ras_ok R) (RAS s') → (∀ p, iPred s' = Some p → ind_ok n p) → bp_ok s'.
Proof.
  intros Hs Hk Hh H1 H2 H3 H4. split; try done; rewrite Hh; [apply (bo_len _ Hs)|]. intros t hs Ht.
  eapply Forall_impl; [by apply (bo_recs _ Hs t)|]. intros h. by apply rec_ok_kind.
Qed.

Lemma bp_ok_hist s tid hs : bp_ok s → 0 ≤ tid < n → Forall (rec_ok s) hs → returns (bp_setHist tid hs s) (λ s',
  bp_ok s' ∧ bp_kind s' = bp_kind s ∧ vset (predHist s) tid hs = Ok (predHist s') ∧
  s' = mkBPredUnit (predHist s') (BTB s) (RAS s) (predictPoison s) (predictorEnable s) (iPred s) (direction s)).
Proof.
  intros Hs Ht Hf. pose proof (bo_len _ Hs) as Hl. unfold bp_setHist. rewrite vset_lt by lia. cbn. apply returns_ret.
  split_and!; [|done..]. destruct Hs. split; cbn; try done; [by rewrite length_insert|]. intros t l Hv.
  eapply Forall_impl; [|intros h; by apply (rec_ok_kind s)].
  destruct (decide (tid = t)) as [<-|Hne].
  - rewrite vget_insert_eq in Hv by lia. by injection Hv as <-.
  - rewrite vget_insert_ne in Hv by lia. by apply (bo_recs0 t).
Qed.

(** ** The return address stack of a thread *)

(** [RAS[tid]] becomes [r'], and nothing else changes *)
Definition ras_put (tid : Z) r' s s' : Prop :=
  vset (RAS s) tid r' = Ok (RAS s') ∧
  s' = mkBPredUnit (predHist s) (BTB s) (RAS s') (predictPoison s) (predictorEnable s) (iPred s) (direction s).

Lemma ras_put_ok tid r' s s' : bp_ok s → 0 ≤ tid < n → ras_ok R r' → ras_put tid r' s s' → bp_ok s' ∧ bp_kind s' = bp_kind s.
Proof.
  intros Hs Ht Hr [Hv ->]. cbn in Hv. split; [|done]. apply (bp_ok_parts s); try done; cbn; try apply Hs.
  destruct (vec_set _ _ _ _ _ (bo_ras _ Hs) Ht Hr) as (l & E & _ & Hl). rewrite E in Hv. by injection Hv as <-.
Qed.
Lemma ras_put_trans tid r1 r2 s s1 s2 : ras_put tid r1 s s1 → ras_put tid r2 s1 s2 → ras_put tid r2 s s2.
Proof.
  intros [H1 ->] [H2 ->]. cbn in *. split; cbn; [by apply (vset_vset _ _ _ _ _ _ H1)|done].
Qed.
Lemma ras_put_self tid r s : vget (RAS s) tid = Ok r → ras_put tid r s s.
Proof. intros H. split; [by apply vset_self|by destruct s]. Qed.
Lemma ras_put_get tid r s s' : ras_put tid r s s' → vget (RAS s') tid = Ok r.
Proof. intros [H _]. by apply vget_vset_eq in H. Qed.

Lemma ras_put_frame tid r s s' : ras_put tid r s s' → predHist s' = predHist s ∧ BTB s' = BTB s ∧
  predictPoison s' = predictPoison s ∧ predictorEnable s' = predictorEnable s ∧ iPred s' = iPred s ∧ direction s' = direction s.
Proof. by intros [_ ->]. Qed.

Lemma bp_ras_get tid s : bp_ok s → 0 ≤ tid < n → ∃ r, vget (RAS s) tid = Ok r ∧ ras_ok R r.
Proof. intros Hs Ht. destruct (vec_get _ _ _ _ (bo_ras _ Hs) Ht) as (r & E & _ & Hr). by exists r. Qed.

Lemma bp_onRAS_returns tid f r r' s : vget (RAS s) tid = Ok r → f r = Ok r' →
  returns (bp_onRAS tid f s) (ras_put tid r' s).
Proof.
  intros Hr Hf. unfold bp_onRAS. rewrite Hr. cbn. rewrite Hf. cbn. apply vget_bound in Hr. rewrite vset_lt by done.
  apply returns_ret. split; [|done]. by apply vset_lt.
Qed.

(** what squashing a record does to the stack *)
Definition rasUndo h r : res ReturnAddrStack :=
  if ph_usedRAS h then ras_restore (ph_RASIndex h) (ph_RASTarget h) r
  else if ph_wasCall h && ph_pushedRAS h then Ok (ras_pop r) else Ok r.

Lemma rasUndo_ok h r : 0 ≤ ph_RASIndex h < R → ras_ok R r → returns (rasUndo h r) (ras_ok R).
Proof.
  intros Hi Hr. unfold rasUndo. destruct (ph_usedRAS h); [by apply ras_restore_ok|].
  destruct (_ && _); apply returns_ret; [by apply ras_pop_ok|done].
Qed.

(** the record puts the stack back but for [k] more slots above the top *)
Definition rasUndoes h (k : Z) r r' : Prop :=
  ras_ok R r' ∧ ∀ j r1, 0 ≤ j → ras_back R j r' r1 → returns (rasUndo h r1) (ras_back R (j + k) r).

Lemma rasUndoes_return h r a : ras_ok R r → ph_usedRAS h = true → ph_RASIndex h = tos r → ph_RASTarget h = a →
  vget (addrStack r) (tos r) = Ok a → rasUndoes h 0 r (ras_pop r).
Proof.
  intros Hr Hu Hi <- Ha. split; [by apply ras_pop_ok|]. intros j r1 Hj Hb. unfold rasUndo. rewrite Hu, Hi.
  destruct (ras_restore_ok R (tos r) (ph_RASTarget h) r1 (rb_ok _ _ _ _ Hb) (ro_tos _ _ Hr)) as (r2 & E & _).
  exists r2. split; [done|]. rewrite Z.add_0_r. by apply (ras_back_pop R j (ph_RASTarget h) r r1).
Qed.
Lemma rasUndoes_call h r r' a : ras_ok R r → ras_push a r = Ok r' → ph_usedRAS h = false → ph_wasCall h = true →
  ph_pushedRAS h = true → rasUndoes h 1 r r'.
Proof.
  intros Hr Ha Hu Hc Hp. destruct (ras_push_ok R a r Hr) as (r1 & E & Hok). rewrite Ha in E. injection E as <-.
  split; [done|]. intros j r1 Hj Hb. unfold rasUndo. rewrite Hu, Hc, Hp. apply returns_ret. by eapply ras_back_push.
Qed.
Lemma rasUndoes_missed h r r' a : ras_ok R r → ras_push a r = Ok r' → ph_usedRAS h = false → ph_pushedRAS h = false →
  rasUndoes h 1 r (ras_pop r').
Proof.
  intros Hr Ha Hu Hp. destruct (ras_push_ok R a r Hr) as (r1 & E & Hok). rewrite Ha in E. injection E as <-.
  split; [by apply ras_pop_ok|]. intros j r1 Hj Hb. unfold rasUndo. rewrite Hu, Hp, andb_false_r. apply returns_ret.
  by eapply ras_back_touch.
Qed.
Lemma rasUndoes_none h r : ras_ok R r → ph_usedRAS h = false → ph_wasCall h && ph_pushedRAS h = false → rasUndoes h 0 r r.
Proof.
  intros Hr Hu Hp. split; [done|]. intros j r1 Hj Hb. unfold rasUndo. rewrite Hu, Hp. apply returns_ret.
  by rewrite Z.add_0_r.
Qed.

Lemma rasUndoes_mono h k k' r r' : k ≤ k' → rasUndoes h k r r' → rasUndoes h k' r r'.
Proof.
  intros Hk [H1 H2]. split; [done|]. intros j r1 Hj Hb. eapply returns_conseq; [by apply H2|]. intros r2.
  apply ras_back_mono. lia.
Qed.

(** ** The indirect predictor of a thread *)

(** the thread's history gets at most one entry, of the prediction; [ext] says whether it does *)
Definition ind_step (tid seq : Z) (ext : bool) (ip ip' : option SimpleIndirectPredictor) : Prop :=
  match ip, ip' with
  | None, None => ext = false
  | Some p, Some p' =>
      ∃ i i', vget (threadInfo p) tid = Ok i ∧ ind_put tid i' p p' ∧ headHistEntry i' = headHistEntry i ∧
        if ext then ∃ e, he_seqNum e = seq ∧ pathHist i' = pathHist i ++ [e] else pathHist i' = pathHist i
  | _, _ => False
  end.

Lemma ind_step_self tid seq s : bp_ok s → 0 ≤ tid < n → ind_step tid seq false (iPred s) (iPred s).
Proof.
  intros Hs Ht. destruct (iPred s) as [p|] eqn:E; [|done]. destruct (ind_get n tid p (bo_ind _ Hs p E) Ht) as (i & Hi).
  exists i, i. split_and!; [done| |done..]. by apply ind_put_self.
Qed.
Lemma ind_step_more tid seq ext ip ip1 ip2 : ind_step tid seq ext ip ip1 → ind_step tid seq false ip1 ip2 → ind_step tid seq ext ip ip2.
Proof.
  destruct ip as [p|], ip1 as [p1|], ip2 as [p2|]; cbn; try done. intros (i & i1 & H1 & H2 & H3 & H4) (i1' & i2 & H1' & H2' & H3' & H4').
  rewrite (ind_put_get _ _ _ _ H2) in H1'. injection H1' as <-. exists i, i2. split_and!; [done| |congruence|].
  - by apply (ind_put_put _ _ _ _ _ _ H2).
  - by rewrite H4'.
Qed.

(** ** The target *)

(** what stays of a record while the target is looked for *)
Definition sameRecord h h' : Prop :=
  ph_seqNum h' = ph_seqNum h ∧ ph_pc h' = ph_pc h ∧ ph_bpHistory h' = ph_bpHistory h ∧
  ph_indirectHistory h' = ph_indirectHistory h.

(** [r] is the thread's stack before the prediction; [ext] says whether the indirect predictor has recorded it *)
Record guessed r (ext : bool) (tid : Z) (si : StaticInst) (pc : PCState) h s s' (g : Guess) : Prop := {
  gd_target : is_Some (gu_target g);
  gd_frame : predHist s' = predHist s ∧ BTB s' = BTB s ∧ predictPoison s' = predictPoison s ∧
    predictorEnable s' = predictorEnable s;
  gd_ok : bp_ok s' ∧ bp_kind s' = bp_kind s;
  gd_ras : ∃ r', vset (RAS s) tid r' = Ok (RAS s') ∧
    rasUndoes (gu_record g) (b2z (isCall si)) r r';
  gd_dir : direction s' = direction s ∨
    isCall si = false ∧ isReturn si = false ∧ dp_btbUpdate tid (instAddr pc) (direction s) = Ok (direction s');
  gd_ind : ind_step tid (ph_seqNum h) ext (iPred s) (iPred s');
  gd_rec : sameRecord h (gu_record g) ∧ 0 ≤ ph_RASIndex (gu_record g) < R;
}.

(** a record before a target is looked for *)
Definition freshRecord h : Prop := ph_RASIndex h = 0 ∧ ph_usedRAS h = false ∧ ph_pushedRAS h = false ∧
  ph_wasCall h = false ∧ ph_wasIndirect h = false.

Lemma R_pos tid s : bp_ok s → 0 ≤ tid < n → 0 < R.
Proof. intros Hs Ht. destruct (bp_ras_get tid s Hs Ht) as (r & _ & []). lia. Qed.

Lemma predictReturn_returns r tid si pc h s : bp_ok s → 0 ≤ tid < n → vget (RAS s) tid = Ok r → ras_ok R r → freshRecord h →
  returns (predictReturn si pc tid h s) (λ sg, guessed r false tid si pc h s sg.1 sg.2 ∧ ph_wasIndirect (gu_record sg.2) = ph_wasIndirect h).
Proof.
  intros Hs Ht Hr Hok (_ & _ & _ & _ & Hw). unfold predictReturn. rewrite Hr. cbn.
  destruct (ras_top_ok R r Hok) as (a & Ha & Htop). rewrite Ha. cbn.
  destruct (bp_onRAS_returns tid (λ r, Ok (ras_pop r)) r (ras_pop r) s Hr eq_refl) as (s1 & -> & Hput). cbn.
  apply returns_ret. destruct (ras_put_ok tid _ s s1 Hs Ht (ras_pop_ok R r Hok) Hput) as [Hs1 Hk]. pose proof Hput as [Hv _].
  destruct (ras_put_frame _ _ _ _ Hput) as (F1 & F2 & F3 & F4 & F5 & F6). split; [|done].
  split; cbn; try done.
  - exists (ras_pop r). split; [done|].
    eapply rasUndoes_mono; [|by apply (rasUndoes_return _ _ a)]. destruct (isCall si); cbn; lia.
  - by left.
  - rewrite F5. by apply ind_step_self.
  - destruct Hok. split; [done|lia].
Qed.

(** the call is pushed or not *)
Definition called (si : StaticInst) (pc : PCState) r r' : Prop := if isCall si then ras_push pc r = Ok r' else r' = r.

Lemma predictCall_returns tid si pc r s : bp_ok s → 0 ≤ tid < n → vget (RAS s) tid = Ok r → ras_ok R r →
  returns (predictCall si pc tid s) (λ s', ∃ r', called si pc r r' ∧ ras_put tid r' s s' ∧ ras_ok R r').
Proof.
  intros Hs Ht Hr Hok. unfold predictCall, called. destruct (isCall si).
  - destruct (ras_push_ok R pc r Hok) as (r' & Hp & Hok'). eapply returns_conseq; [by eapply bp_onRAS_returns|].
    intros s' Hput. by exists r'.
  - apply returns_ret. exists r. split_and!; [done|by apply ras_put_self|done].
Qed.

(** the record after the call *)
Definition calledRecord (si : StaticInst) h : Prop :=
  ph_RASIndex h = 0 ∧ ph_usedRAS h = false ∧ ph_pushedRAS h = isCall si ∧ ph_wasCall h = isCall si.

Lemma called_undoes si pc h r r' : ras_ok R r → called si pc r r' → calledRecord si h → rasUndoes h (b2z (isCall si)) r r'.
Proof.
  unfold called, calledRecord. intros Hr Hc (Hi & Hu & Hp & Hw). destruct (isCall si); cbn.
  - by eapply rasUndoes_call.
  - subst r'. apply rasUndoes_none; [done..|]. by rewrite Hw.
Qed.

Lemma missed_returns tid si pc h s r r' : bp_ok s → 0 ≤ tid < n → ras_ok R r → called si pc r r' → calledRecord si h →
  vget (RAS s) tid = Ok r' → ras_ok R r' →
  returns (missed si pc tid h s) (λ sg, ∃ r'', ras_put tid r'' s sg.1 ∧ ras_ok R r'' ∧
    rasUndoes (gu_record sg.2) (b2z (isCall si)) r r'' ∧
    is_Some (gu_target sg.2) ∧ sameRecord h (gu_record sg.2) ∧ ph_RASIndex (gu_record sg.2) = 0 ∧
    ph_wasIndirect (gu_record sg.2) = ph_wasIndirect h).
Proof.
  intros Hs Ht Hr Hc Hh Hv Hok. pose proof Hh as (Hi & Hu & Hp & Hw). unfold missed. unfold called in Hc.
  destruct (isCall si && negb (isUncondCtrl si)) eqn:E; cbn.
  - apply andb_true_iff in E as [E1 E2]. rewrite E1 in *.
    destruct (bp_onRAS_returns tid (λ r, Ok (ras_pop r)) r' (ras_pop r') s Hv eq_refl) as (s1 & -> & Hput). cbn.
    apply returns_ret. exists (ras_pop r'). cbn. split_and!; [done|by apply ras_pop_ok| |by eexists|done|done|done].
    by eapply rasUndoes_missed.
  - apply returns_ret. exists r'. cbn. split_and!; [by apply ras_put_self|done| |by eexists|done|done|done].
    apply (called_undoes si pc); [done| |]; unfold called, calledRecord; cbn; [done|by split_and!].
Qed.

Lemma bp_setDir_ok d s : bp_ok s → dp_ok n d → dp_shape d = dp_shape (direction s) →
  bp_ok (bp_setDir d s) ∧ bp_kind (bp_setDir d s) = bp_kind s.
Proof.
  intros Hs Hd Hk. assert (bp_kind (bp_setDir d s) = bp_kind s) as E by (unfold bp_kind; cbn; by rewrite Hk).
  split; [|done]. apply (bp_ok_parts s); try done; apply Hs.
Qed.
Lemma bp_setIPred_ok p p' s : bp_ok s → iPred s = Some p → ind_ok n p' → ind_cfg p' = ind_cfg p →
  bp_ok (bp_setIPred (Some p') s) ∧ bp_kind (bp_setIPred (Some p') s) = bp_kind s.
Proof.
  intros Hs Hp Hd Hk. assert (bp_kind (bp_setIPred (Some p') s) = bp_kind s) as E by (unfold bp_kind; cbn; by rewrite Hp, Hk).
  split; [|done]. apply (bp_ok_parts s); try done; try apply Hs. by intros p1 [= <-].
Qed.

(** a guess that did not touch the stack *)
Lemma guessed_hit r r' tid si pc h s t b : bp_ok s → 0 ≤ tid < n → ras_ok R r → called si pc r r' → calledRecord si h →
  vget (RAS s) tid = Ok r' → guessed r false tid si pc h s s (mkGuess (Some t) b h).
Proof.
  intros Hs Ht Hr Hc Hh Hv. split; try done.
  - exists r'. split; [by apply vset_self|]. by apply (called_undoes si pc).
  - by left.
  - by apply ind_step_self.
  - split; [done|]. cbn. destruct Hh as (-> & _). pose proof (R_pos tid s Hs Ht). lia.
Qed.

(** a guess after a miss *)
Lemma guessed_missed r r' tid si pc h s s1 : bp_ok s → 0 ≤ tid < n → ras_ok R r → called si pc r r' → calledRecord si h →
  vget (RAS s) tid = Ok r' → ras_ok R r' →
  bp_ok s1 → bp_kind s1 = bp_kind s → predHist s1 = predHist s → BTB s1 = BTB s → RAS s1 = RAS s →
  predictPoison s1 = predictPoison s → predictorEnable s1 = predictorEnable s → iPred s1 = iPred s →
  direction s1 = direction s ∨
    isCall si = false ∧ isReturn si = false ∧ dp_btbUpdate tid (instAddr pc) (direction s) = Ok (direction s1) →
  returns (missed si pc tid h s1) (λ sg, guessed r false tid si pc h s sg.1 sg.2 ∧
    ph_wasIndirect (gu_record sg.2) = ph_wasIndirect h).
Proof.
  intros Hs Ht Hr Hc Hh Hv Hok Hs1 Hk E1 E2 E3 E4 E5 E6 Hd.
  eapply returns_conseq; [eapply (missed_returns tid si pc h s1 r r'); try done; by rewrite E3|].
  intros [s2 g] (r'' & Hput & Hok'' & Hund & Htg & Hrec & Hri & Hwi). cbn in *.
  destruct (ras_put_frame _ _ _ _ Hput) as (F1 & F2 & F3 & F4 & F5 & F6).
  destruct (ras_put_ok tid _ _ _ Hs1 Ht Hok'' Hput) as [Hs2 Hk2].
  split; [|done]. split; cbn; [done|..].
  - split_and!; congruence.
  - split; [done|congruence].
  - exists r''. split; [|done]. destruct Hput as [Hput _]. by rewrite <- E3.
  - by rewrite F6.
  - rewrite F5, E6. by apply ind_step_self.
  - split; [done|]. rewrite Hri. pose proof (R_pos tid s Hs Ht). lia.
Qed.

Lemma predictDirect_returns r r' tid si pc h s : bp_ok s → 0 ≤ tid < n → ras_ok R r → called si pc r r' →
  calledRecord si h → vget (RAS s) tid = Ok r' → ras_ok R r' →
  returns (predictDirect si pc tid h s) (λ sg, guessed r false tid si pc h s sg.1 sg.2 ∧
    ph_wasIndirect (gu_record sg.2) = ph_wasIndirect h).
Proof.
  intros Hs Ht Hr Hc Hh Hv Hok. unfold predictDirect.
  destruct (btb_valid_returns (BTB s) (instAddr pc) tid (bo_btb _ Hs)) as (v & -> & Hvalid). cbn. destruct v.
  - destruct (Hvalid eq_refl) as (t & ->). cbn. apply returns_ret. split; [|done]. by eapply guessed_hit.
  - apply returns_bind. destruct (negb (isCall si) && negb (isReturn si)) eqn:Ec.
    + destruct (dp_btbUpdate_ok n tid (instAddr pc) (direction s) (bo_dir _ Hs) Ht) as (d & E & Hd & Hk). rewrite E. cbn.
      apply returns_ret. destruct (bp_setDir_ok d s Hs Hd Hk). eapply (guessed_missed r r'); try done. right.
      apply andb_true_iff in Ec as [Ec1%negb_true_iff Ec2%negb_true_iff]. by split_and!.
    + apply returns_ret. eapply (guessed_missed r r'); try done. by left.
Qed.
Lemma recordIndirect_returns a ta seq tid s : bp_ok s → 0 ≤ tid < n → is_Some (iPred s) →
  returns (bp_onIPred (recordIndirect a ta seq tid) s) (λ s', ∃ p', s' = bp_setIPred (Some p') s ∧
    bp_ok s' ∧ bp_kind s' = bp_kind s ∧ ind_step tid seq true (iPred s) (Some p')).
Proof.
  intros Hs Ht [p Hp]. pose proof (bo_ind _ Hs p Hp) as Hok. unfold bp_onIPred, recordIndirect. rewrite Hp.
  destruct (ind_get n tid p Hok Ht) as (i & Hi). rewrite Hi. cbn.
  destruct (ind_put_ok n tid (mkIThreadInfo (pathHist i ++ [mkHistoryEntry a ta seq]) (headHistEntry i) (ghr i)) p Hok Ht) as (p' & E & Hok' & Hput).
  rewrite E. cbn. apply returns_ret. exists p'. pose proof (ind_put_cfg _ _ _ _ Hput) as Hc.
  destruct (bp_setIPred_ok p p' s Hs Hp Hok' Hc). split_and!; [done..|]. eexists i, _. split_and!; [done..|]. by exists (mkHistoryEntry a ta seq).
Qed.

Lemma predictIndirect_returns r r' tid si pc h p s : bp_ok s → 0 ≤ tid < n → ras_ok R r → called si pc r r' →
  calledRecord si h → vget (RAS s) tid = Ok r' → ras_ok R r' → iPred s = Some p →
  returns (predictIndirect si pc tid h p s) (λ sg, guessed r true tid si pc h s sg.1 sg.2 ∧
    ph_wasIndirect (gu_record sg.2) = true).
Proof.
  intros Hs Ht Hr Hc Hh Hv Hok Hp. unfold predictIndirect.
  match goal with |- context [missed si pc tid ?h0 s] => set (h1 := h0) end.
  assert (calledRecord si h1) as Hh1 by done.
  destruct (ind_lookup_returns n (instAddr pc) tid p (bo_ind _ Hs p Hp) Ht) as (hit & -> & _). cbn.
  apply returns_bind. apply (returns_conseq _ (λ sg, guessed r false tid si pc h1 s sg.1 sg.2 ∧ ph_wasIndirect (gu_record sg.2) = true)).
  { destruct hit as [t|].
    - apply returns_ret. split; [|done]. by eapply guessed_hit.
    - eapply (guessed_missed r r'); try done. by left. }
  intros [s1 g] [[Ht1 HF [Hs1 Hk1] Hras Hdir Hind Hrec] Hwi]. cbn in *. destruct Ht1 as [t Htg]. rewrite Htg. cbn.
  assert (is_Some (iPred s1)) as HI.
  { rewrite Hp in Hind. destruct (iPred s1); [by eexists|done]. }
  destruct (recordIndirect_returns (instAddr pc) (instAddr t) (ph_seqNum h) tid s1 Hs1 Ht HI) as (s2 & -> & p' & -> & Hs2 & Hk2 & Hst).
  cbn. apply returns_ret. split; [|done]. split; cbn; [by eexists|done|split; [done|congruence]|done..| |done].
  rewrite Hp in *. destruct (iPred s1) as [p1|]; [|done]. destruct Hind as (i & i1 & A1 & A2 & A3 & A4).
  destruct Hst as (i1' & i2 & B1 & B2 & B3 & B4). rewrite (ind_put_get _ _ _ _ A2) in B1. injection B1 as <-.
  exists i, i2. split_and!; [done|by apply (ind_put_put _ _ _ _ _ _ A2)|congruence|]. by rewrite <- A4.
Qed.

Lemma guessed_put r r' ext tid si pc h s s1 s2 g : ras_put tid r' s s1 → bp_kind s1 = bp_kind s → guessed r ext tid si pc h s1 s2 g →
  guessed r ext tid si pc h s s2 g.
Proof.
  intros Hput Hk [H1 H2 H3 H4 H5 H6 H7]. destruct (ras_put_frame _ _ _ _ Hput) as (F1 & F2 & F3 & F4 & F5 & F6).
  split; [done|..].
  - rewrite <- F1, <- F2, <- F3, <- F4. done.
  - by rewrite <- Hk.
  - destruct H4 as (r'' & Hv & Hu). exists r''. split; [|done]. destruct Hput as [Hput _]. by apply (vset_vset _ _ _ _ _ _ Hput).
  - by rewrite <- F6.
  - by rewrite <- F5.
  - done.
Qed.

Lemma guessed_record r ext tid si pc h h' s s' g : sameRecord h h' → guessed r ext tid si pc h' s s' g → guessed r ext tid si pc h s s' g.
Proof.
  intros Hh [H1 H2 H3 H4 H5 H6 H7]. pose proof Hh as (E1 & E2 & E3 & E4). split; try done.
  - by rewrite <- E1.
  - destruct H7 as [(A1 & A2 & A3 & A4) H7]. split; [|done]. split_and!; congruence.
Qed.

Lemma predictTarget_returns r tid si pc taken h s : bp_ok s → 0 ≤ tid < n → vget (RAS s) tid = Ok r → ras_ok R r → freshRecord h →
  returns (predictTarget si pc tid taken h s) (λ sg, guessed r (ph_wasIndirect (gu_record sg.2)) tid si pc h s sg.1 sg.2).
Proof.
  intros Hs Ht Hr Hok Hf. pose proof Hf as (F1 & F2 & F3 & F4 & F5). unfold predictTarget. destruct taken.
  - destruct (isReturn si).
    { eapply returns_conseq; [by apply (predictReturn_returns r)|]. intros [s' g] [H ->]. by rewrite F5. }
    destruct (predictCall_returns tid si pc r s Hs Ht Hr Hok) as (s1 & -> & r' & Hc & Hput & Hok'). cbn.
    destruct (ras_put_ok tid _ _ _ Hs Ht Hok' Hput) as [Hs1 Hk]. pose proof (ras_put_get _ _ _ _ Hput) as Hv.
    match goal with |- context [predictDirect si pc tid ?h0 s1] => set (h1 := h0) end.
    assert (calledRecord si h1) as Hh1 by done. assert (sameRecord h h1) as HS by done.
    assert (returns (predictDirect si pc tid h1 s1) (λ sg, guessed r (ph_wasIndirect (gu_record sg.2)) tid si pc h s sg.1 sg.2)) as HD.
    { eapply returns_conseq; [by apply (predictDirect_returns r r')|]. intros [s' g] [H HW]. cbn in *. rewrite HW, F5.
      eapply guessed_put; [done..|]. by eapply guessed_record. }
    destruct (iPred s1) as [p|] eqn:Hp; [|done]. destruct (isDirectCtrl si); [done|].
    eapply returns_conseq; [by apply (predictIndirect_returns r r')|]. intros [s' g] [H HW]. cbn in *. rewrite HW.
    eapply guessed_put; [done..|]. by eapply guessed_record.
  - apply returns_ret. cbn. rewrite F5. split; cbn; try done.
    + exists r. split; [by apply vset_self|]. eapply rasUndoes_mono; [|apply rasUndoes_none; cbn; [done..|by rewrite F4]].
      destruct (isCall si); cbn; lia.
    + by left.
    + by apply ind_step_self.
    + rewrite F1. pose proof (R_pos tid s Hs Ht). split; [done|lia].
Qed.
(** ** The whole prediction *)

(** the branches whose local history is not put back: direct or indirect jumps that are neither calls nor returns *)
Definition jumps (si : StaticInst) (pc : PCState) : list Z :=
  if isUncondCtrl si && negb (isCall si) && negb (isReturn si) then [instAddr pc] else [].

Record predicted (tid : Z) (si : StaticInst) (seq : Z) (pc : PCState) s s' h : Prop := {
  pd_ok : bp_ok s' ∧ bp_kind s' = bp_kind s;
  pd_hist : ∃ hs, vget (predHist s) tid = Ok hs ∧ vset (predHist s) tid (h :: hs) = Ok (predHist s');
  pd_rec : ph_seqNum h = seq ∧ rec_ok s h;
  pd_frame : BTB s' = BTB s ∧ predictPoison s' = predictPoison s ∧ predictorEnable s' = predictorEnable s;
  pd_ras : ∃ r r', vget (RAS s) tid = Ok r ∧ ras_ok R r ∧ vset (RAS s) tid r' = Ok (RAS s') ∧
    rasUndoes h (b2z (isCall si)) r r';
  pd_dir B d2 d3 : dp_eqv B (direction s') d2 → dp_squash tid (ph_bpHistory h) d2 = Ok d3 →
    dp_eqv (jumps si pc ++ B) (direction s) d3;
  pd_ind : ind_step tid seq (ph_wasIndirect h) (iPred s) (iPred s');
  pd_ghr p i : iPred s = Some p → vget (threadInfo p) tid = Ok i → ph_indirectHistory h = Some (ghr i);
}.

Lemma updateDirectionInfo_returns tid seq taken s : bp_ok s → 0 ≤ tid < n →
  returns (bp_onIPred (updateDirectionInfo tid taken) s) (λ s', s' = bp_setIPred (iPred s') s ∧
    bp_ok s' ∧ bp_kind s' = bp_kind s ∧ ind_step tid seq false (iPred s) (iPred s')).
Proof.
  intros Hs Ht. unfold bp_onIPred. destruct (iPred s) as [p|] eqn:Hp.
  - pose proof (bo_ind _ Hs p Hp) as Hok. unfold updateDirectionInfo. destruct (ind_get n tid p Hok Ht) as (i & Hi). rewrite Hi. cbn.
    match goal with |- context [ind_setGhr tid ?g p] => destruct (ind_setGhr_returns n tid g i p Hok Hi) as (p' & -> & Hok' & Hput) end.
    cbn. apply returns_ret. pose proof (ind_put_cfg _ _ _ _ Hput) as Hc. destruct (bp_setIPred_ok p p' s Hs Hp Hok' Hc).
    split_and!; [done..|]. cbn. by eexists i, _.
  - apply returns_ret. rewrite Hp. split_and!; try done. destruct s. cbn in *. by rewrite Hp.
Qed.

(** the direction predictor is put back *)
Lemma predictDirection_returns rng tid si pc s : bp_ok s → 0 ≤ tid < n →
  returns (predictDirection rng si (instAddr pc) tid s) (λ x, ∃ d, x.1.1 = bp_setDir d s ∧ dp_ok n d ∧
    dp_shape d = dp_shape (direction s) ∧ dp_histOk (dp_shape (direction s)) x.1.2 ∧
    ∀ d1 B d2 d3, d1 = d ∨ isCall si = false ∧ isReturn si = false ∧ dp_btbUpdate tid (instAddr pc) d = Ok d1 →
      dp_eqv B d1 d2 → dp_squash tid x.1.2 d2 = Ok d3 → dp_eqv (jumps si pc ++ B) (direction s) d3).
Proof.
  intros Hs Ht. pose proof (bo_dir _ Hs) as Hd. unfold predictDirection, jumps. destruct (isUncondCtrl si).
  - destruct (dp_uncondBranch_ok n tid (instAddr pc) (direction s) Hd Ht) as ([d h] & E & Hok & Hk & Hh). rewrite E. cbn in *.
    apply returns_ret. exists d. split_and!; [done..|]. cbn. intros d1 B d2 d3 [->|(-> & -> & Hb)] He Hq.
    + pose proof (dp_uncondBranch_undo n tid _ _ _ _ _ _ _ Hd Ht E He Hq). destruct (_ && _); [by apply dp_eqv_more|done].
    + exact (dp_uncondBranch_btb_undo n tid _ _ _ _ _ _ _ _ Hd Ht E Hb He Hq).
  - destruct (dp_lookup_ok n tid (instAddr pc) (direction s) Hd Ht) as ([[d h] b] & E & Hok & Hk & Hh). rewrite E. cbn in *.
    apply returns_ret. exists d. split_and!; [done..|]. cbn. intros d1 B d2 d3 Hb He Hq.
    refine (dp_lookup_undo n tid _ _ _ _ _ _ _ _ _ Hd Ht E _ He Hq). destruct Hb as [->|(_ & _ & Hb)]; [by left|by right].
Qed.
Lemma predict_returns rng si seq pc tid s : bp_ok s → 0 ≤ tid < n →
  returns (predict rng si seq pc tid s) (λ x, ∃ h, predicted tid si seq pc s x.1.1 h).
Proof.
  intros Hs Ht. destruct (bp_ras_get tid s Hs Ht) as (r & Hr & Hrok).
  destruct (predictDirection_returns rng tid si pc s Hs Ht) as ([[s1 bph] taken] & E & d & E1 & Hd & Hdk & Hdh & Hdu).
  unfold predict. rewrite E. clear E. cbn in *. subst s1. destruct (bp_setDir_ok d s Hs Hd Hdk) as [Hs1 Hk1].
  apply returns_bind.
  apply (returns_conseq _ (λ ih, ∀ p, iPred s = Some p → ∃ i, vget (threadInfo p) tid = Ok i ∧ ih = Some (ghr i))).
  { cbn. destruct (iPred s) as [p|] eqn:Hp; [|by apply returns_ret]. destruct (ind_get n tid p (bo_ind _ Hs p Hp) Ht) as (i & Hi).
    unfold genIndirectInfo. rewrite Hi. cbn. apply returns_ret. intros p1 [= <-]. by exists i. }
  intros ih Hih. match goal with |- context [predictTarget si pc tid taken ?h0] => set (h := h0) end.
  destruct (predictTarget_returns r tid si pc taken h _ Hs1 Ht Hr Hrok) as ([s2 g] & -> & G); [done|]. cbn in G |- *.
  destruct G as [[t Htg] (F1 & F2 & F3 & F4) [Hs2 Hk2] (r' & Hras & Hundo) Hdir Hind [(R1 & R2 & R3 & R4) Hri]]. rewrite Htg. cbn.
  destruct (updateDirectionInfo_returns tid seq taken s2 Hs2 Ht) as (s3 & -> & E3 & Hs3 & Hk3 & Hst). cbn.
  destruct (vget_lt (predHist s3) tid) as (hs & Hhs); [rewrite (bo_len _ Hs3); lia|]. rewrite Hhs. cbn.
  match goal with |- context [bp_setHist tid (?h0 :: hs)] => set (h1 := h0) end.
  assert (rec_ok s h1) as Hrec.
  { split; cbn; [by rewrite R3|done|]. intros [p Hp]. rewrite R4. destruct (Hih p Hp) as (i & _ & ->). by eexists. }
  assert (bp_kind s3 = bp_kind s) as Hk by congruence.
  destruct (bp_ok_hist s3 tid (h1 :: hs) Hs3 Ht) as (s4 & -> & Hs4 & Hk4 & Hset & E4).
  { constructor; [by apply (rec_ok_kind s)|by apply (bo_recs _ Hs3 tid)]. }
  cbn. apply returns_ret. exists h1. cbn.
  assert (predHist s3 = predHist s2 ∧ BTB s3 = BTB s2 ∧ RAS s3 = RAS s2 ∧ predictPoison s3 = predictPoison s2 ∧
    predictorEnable s3 = predictorEnable s2 ∧ direction s3 = direction s2) as (A1 & A2 & A3 & A4 & A5 & A6) by by rewrite E3.
  assert (BTB s4 = BTB s3 ∧ RAS s4 = RAS s3 ∧ predictPoison s4 = predictPoison s3 ∧
    predictorEnable s4 = predictorEnable s3 ∧ direction s4 = direction s3 ∧ iPred s4 = iPred s3) as (B2 & B3 & B4 & B5 & B6 & B7)
    by by rewrite E4.
  clear E3 E4. cbn in F1, F2, F3, F4. split.
  - split; [done|congruence].
  - exists hs. rewrite A1, F1 in *. done.
  - done.
  - split_and!; congruence.
  - exists r, r'. split_and!; [done..| |done]. by rewrite B3, A3.
  - intros B d2 d3. rewrite B6, A6. cbn. rewrite R3. by apply Hdu.
  - rewrite B7. by eapply ind_step_more.
  - intros p i Hp Hi. cbn. rewrite R4. destruct (Hih p Hp) as (i' & Hi' & Eg). rewrite Hi in Hi'. by injection Hi' as <-.
Qed.
End unit.
