(* ===== verification/BranchPredProps.v ===== *)
(** * The branch prediction unit: theorems

    The predictions of a wrong path are undone by [squash] and change no later
    prediction; a misprediction corrects its own record; no operation of a
    history leaves the tables or fails an assertion. *)
From S2P Require Import Prelude PipeData BpTables BpTableProps BpDirection BpDirectionProps BranchPred BranchPredInv.

Section unit.
Context `{I : Isa} {BI : BranchIsa I} {DP : DirectionPredictor} {DO : DirectionPredictorOk DP}.
Implicit Types (h : PredictorHistory) (s : BPredUnit) (r : ReturnAddrStack) (p : SimpleIndirectPredictor).
Variable n R : Z.
Notation bp_ok := (bp_ok n R).

(** ** A wrong path *)

(** the path of a thread up to a branch *)
Definition trunc (sn : Z) (i : IThreadInfo) : IThreadInfo := mkIThreadInfo (upTo sn (pathHist i)) (headHistEntry i) (ghr i).

(** [s2] is [s] but for the branches [A] of the direction predictor, [k] slots
    of the stack and the entries of the path that are younger than [sn] *)
Record bp_back (tid sn k : Z) (A : list Z) s s2 : Prop := {
  bb_frame : BTB s2 = BTB s ∧ predictPoison s2 = predictPoison s ∧ predictorEnable s2 = predictorEnable s;
  bb_dirOk : dp_ok n (direction s2) ∧ dp_shape (direction s2) = dp_shape (direction s);
  bb_dir : dp_eqv A (direction s) (direction s2);
  bb_ras : ∃ r r2, vget (RAS s) tid = Ok r ∧ ras_back R k r r2 ∧ vset (RAS s) tid r2 = Ok (RAS s2);
  bb_ind : match iPred s, iPred s2 with
           | Some p, Some p2 => ∃ i, vget (threadInfo p) tid = Ok i ∧ ind_put tid (trunc sn i) p p2
           | None, None => True
           | _, _ => False
           end;
}.

(** undoing a record, part by part *)
Lemma undo_returns tid h s r r2 (Q : BPredUnit → Prop) : vget (RAS s) tid = Ok r → rasUndo h r = Ok r2 →
  (∀ l, vset (RAS s) tid r2 = Ok l →
     returns (d ← dp_squash tid (ph_bpHistory h) (direction s);
              match iPred s, ph_indirectHistory h with
              | Some p, Some g => p ← deleteIndirectInfo tid g p; Ok (Some p, d)
              | Some _, None => Stop NullDeref
              | None, _ => Ok (None, d)
              end) (λ x, Q (mkBPredUnit (predHist s) (BTB s) l (predictPoison s) (predictorEnable s) x.1 x.2))) →
  returns (undo tid h s) Q.
Proof.
  intros Hr Hu HQ. unfold undo. apply returns_bind.
  apply (returns_conseq _ (ras_put tid r2 s)).
  { unfold rasUndo in Hu. destruct (ph_usedRAS h); [by eapply bp_onRAS_returns|].
    destruct (_ && _); [by eapply bp_onRAS_returns|]. apply returns_ret. injection Hu as <-. by apply ras_put_self. }
  intros s1 [Hput E]. specialize (HQ _ Hput). rewrite E. cbn. destruct HQ as ([ip d] & H & HQ). cbn in HQ.
  apply bind_Ok in H as (d' & -> & H). cbn. destruct (iPred s) as [p|], (ph_indirectHistory h) as [g|]; try done.
  - apply bind_Ok in H as (p2 & -> & [= <- <-]). cbn. by apply returns_ret.
  - injection H as <- <-. by apply returns_ret.
  - injection H as <- <-. by apply returns_ret.
Qed.

Lemma upTo_snoc sn l e : sn < he_seqNum e → upTo sn (l ++ [e]) = upTo sn l.
Proof.
  intros He. induction l as [|x l IH]; cbn.
  - by rewrite (proj2 (Z.ltb_lt _ _) He).
  - by rewrite IH.
Qed.

Lemma deleteIndirectInfo_returns tid g i p : vget (threadInfo p) tid = Ok i →
  returns (deleteIndirectInfo tid g p) (ind_put tid (mkIThreadInfo (pathHist i) (headHistEntry i) g) p).
Proof.
  intros Hi. unfold deleteIndirectInfo, ind_setGhr. rewrite Hi. cbn. unfold ind_put, ind_set. apply vget_bound in Hi.
  rewrite vset_lt by done. by apply returns_ret.
Qed.

(** a prediction is undone by its record *)
Lemma undo_predicted tid si seq pc s s' h sn j B s1 : bp_ok s → 0 ≤ tid < n → predicted n R tid si seq pc s s' h →
  sn < seq → 0 ≤ j → bp_back tid sn j B s' s1 →
  returns (undo tid h s1) (bp_back tid sn (j + b2z (isCall si)) (jumps si pc ++ B) s).
Proof.
  intros Hs Ht [[Hs' Hk] _ [Hseq Hrec] (P1 & P2 & P3) (r & r' & Hr & Hrok & Hset & Hundo) Hdir Hind Hghr] Hsn Hj
    [(F1 & F2 & F3) [Hd1 Hdk1] Hdeq (r0 & r1 & Hr0 & Hback & Hset1) Hi1].
  rewrite (vget_vset_eq _ _ _ _ Hset) in Hr0. injection Hr0 as <-.
  destruct (proj2 Hundo j r1 Hj Hback) as (r2 & Hu & Hback2).
  eapply undo_returns; [by apply vget_vset_eq in Hset1|done|]. intros l Hl.
  assert (dp_shape (direction s') = dp_shape (direction s)) as Hdk by (by injection Hk).
  destruct (dp_squash_ok n tid (ph_bpHistory h) (direction s1) Hd1 Ht) as (d & Ed & Hd & Hdk2).
  { rewrite Hdk1, Hdk. apply Hrec. }
  rewrite Ed. cbn.
  assert (∀ ip, match iPred s, ip with
           | Some p, Some p2 => ∃ i, vget (threadInfo p) tid = Ok i ∧ ind_put tid (trunc sn i) p p2
           | None, None => True
           | _, _ => False
           end → bp_back tid sn (j + b2z (isCall si)) (jumps si pc ++ B) s
             (mkBPredUnit (predHist s1) (BTB s1) l (predictPoison s1) (predictorEnable s1) ip d)) as HB.
  { intros ip Hip. split; cbn; [split_and!; congruence|split; [done|congruence]|by eapply Hdir| |done].
    exists r, r2. split_and!; [done..|]. apply (vset_vset _ _ _ _ _ _ Hset). by apply (vset_vset _ _ _ _ _ _ Hset1). }
  destruct (iPred s) as [p|] eqn:Hp, (iPred s') as [p'|], (iPred s1) as [p1|]; try done.
  - destruct Hind as (i & i' & Hi & Hput & Hh & Hpath). destruct Hi1 as (i1 & Hi' & Hput1).
    rewrite (ind_put_get _ _ _ _ Hput) in Hi'. injection Hi' as <-. rewrite (Hghr p i eq_refl Hi).
    destruct (deleteIndirectInfo_returns tid (ghr i) _ p1 (ind_put_get _ _ _ _ Hput1)) as (p2 & -> & Hput2).
    apply returns_ret, HB. exists i. split; [done|]. cbn in Hput2. rewrite Hh in Hput2.
    assert (upTo sn (pathHist i') = upTo sn (pathHist i)) as E.
    { destruct (ph_wasIndirect h); [|by rewrite Hpath]. destruct Hpath as (e & He & ->). apply upTo_snoc. lia. }
    rewrite E in Hput2. exact (ind_put_put _ _ _ _ _ _ (ind_put_put _ _ _ _ _ _ Hput Hput1) Hput2).
  - by apply returns_ret, HB.
Qed.
(** *** Predictions in sequence *)

Record attempt := mkAttempt { at_rng : Z; at_inst : StaticInst; at_seqNum : Z; at_pc : PCState }.
Implicit Types (l : list attempt).

Definition predicts (tid : Z) l s : res BPredUnit :=
  mfold (λ s a, ' (s, _, _) ← predict (at_rng a) (at_inst a) (at_seqNum a) (at_pc a) tid s; Ok s) s l.

Definition calls l : Z := countb (λ a, isCall (at_inst a)) l.
Definition allJumps l : list Z := flat_map (λ a, jumps (at_inst a) (at_pc a)) l.

Definition undoAll (tid : Z) (hs : list PredictorHistory) s : res BPredUnit := mfold (λ s h, undo tid h s) s hs.

Lemma predicts_undone tid sn l s hs : bp_ok s → 0 ≤ tid < n → Forall (λ a, sn < at_seqNum a) l →
  vget (predHist s) tid = Ok hs → ∃ s1 hl, predicts tid l s = Ok s1 ∧ bp_ok s1 ∧
    vset (predHist s) tid (hl ++ hs) = Ok (predHist s1) ∧ Forall (λ h, sn < ph_seqNum h) hl ∧
    ∀ s1', bp_back tid sn 0 [] s1 s1' → returns (undoAll tid hl s1') (bp_back tid sn (calls l) (allJumps l) s).
Proof.
  revert s hs. induction l as [|a l IH]; intros s hs Hs Ht Hl Hhs.
  { exists s, []. split_and!; [done|done|by apply vset_self|done|]. intros s1' Hb. by apply returns_ret. }
  apply Forall_cons in Hl as [Ha Hl].
  destruct (predict_returns n R (at_rng a) (at_inst a) (at_seqNum a) (at_pc a) tid s Hs Ht) as ([[s' t] b] & E & h & Hpd).
  cbn in Hpd. pose proof (pd_ok _ _ _ _ _ _ _ _ _ Hpd) as [Hs' _].
  destruct (pd_hist _ _ _ _ _ _ _ _ _ Hpd) as (hs' & Hhs' & Hset). rewrite Hhs in Hhs'. injection Hhs' as <-.
  destruct (IH s' (h :: hs) Hs' Ht Hl (vget_vset_eq _ _ _ _ Hset)) as (s1 & hl & Ep & Hs1 & Hset1 & Hseq & Hundo).
  exists s1, (hl ++ [h]). split_and!.
  - unfold predicts. cbn. rewrite E. cbn. exact Ep.
  - done.
  - rewrite <- (assoc_L (++)). cbn. by apply (vset_vset _ _ _ _ _ _ Hset).
  - apply Forall_app. split; [done|]. constructor; [|done]. by rewrite (proj1 (pd_rec _ _ _ _ _ _ _ _ _ Hpd)).
  - intros s1' Hb. destruct (Hundo s1' Hb) as (s2 & E2 & Hb2). unfold undoAll in *. rewrite mfold_app, E2. cbn.
    destruct (undo_predicted tid (at_inst a) (at_seqNum a) (at_pc a) s s' h sn (calls l) (allJumps l) s2) as (s3 & E3 & Hb3); try done.
    { apply countb_nonneg. }
    rewrite E3. apply returns_ret. unfold calls. rewrite countb_cons, Z.add_comm. exact Hb3.
Qed.

Lemma undoHist_app sn tid hl hs s : Forall (λ h, sn < ph_seqNum h) hl → Forall (λ h, ph_seqNum h ≤ sn) hs →
  undoHist sn tid (hl ++ hs) s = (s2 ← undoAll tid hl s; Ok (hs, s2)).
Proof.
  intros H1 H2. revert s. induction hl as [|h hl IH]; intros s; cbn.
  - destruct hs as [|h hs]; [done|]. apply Forall_cons in H2 as [H2 _]. cbn. by destruct (Z.ltb_spec sn (ph_seqNum h)); [lia|].
  - apply Forall_cons in H1 as [H H1]. rewrite (proj2 (Z.ltb_lt _ _) H). destruct (undo tid h s) as [s'|]; cbn; [by apply IH|done].
Qed.

(** truncating the path *)
Lemma ind_squash_back tid sn s : bp_ok s → 0 ≤ tid < n →
  returns (bp_onIPred (ind_squash sn tid) s) (λ s', bp_back tid sn 0 [] s s' ∧ predHist s' = predHist s).
Proof.
  intros Hs Ht. destruct (bp_ras_get n R tid s Hs Ht) as (r & Hr & Hrok). unfold bp_onIPred, ind_squash.
  assert (∀ s', s' = bp_setIPred (iPred s') s → match iPred s, iPred s' with
           | Some p, Some p2 => ∃ i, vget (threadInfo p) tid = Ok i ∧ ind_put tid (trunc sn i) p p2
           | None, None => True
           | _, _ => False
           end → bp_back tid sn 0 [] s s') as HB.
  { intros s' E Hi. split; [by rewrite E| |rewrite E; cbn; apply dp_eqv_refl| |done].
    - rewrite E. cbn. split; [apply Hs|done].
    - exists r, r. split_and!; [done|by apply ras_back_refl|]. rewrite E. cbn. by apply vset_self. }
  destruct (iPred s) as [p|] eqn:Hp.
  - destruct (ind_get n tid p (bo_ind _ _ _ Hs p Hp) Ht) as (i & Hi). rewrite Hi. cbn.
    destruct (ind_put_ok n tid (trunc sn i) p (bo_ind _ _ _ Hs p Hp) Ht) as (p' & E & _ & Hput). unfold trunc in E. rewrite E.
    cbn. apply returns_ret. split; [|done]. apply HB; [done|]. cbn. by exists i.
  - apply returns_ret. split; [|done]. apply HB; [|by rewrite Hp]. rewrite Hp. destruct s. cbn in *. by rewrite Hp.
Qed.

(** nothing of the thread is younger than [sn] *)
Definition settled (tid sn : Z) s : Prop :=
  (∀ hs, vget (predHist s) tid = Ok hs → Forall (λ h, ph_seqNum h ≤ sn) hs) ∧
  (∀ p i, iPred s = Some p → vget (threadInfo p) tid = Ok i → Forall (λ e, he_seqNum e ≤ sn) (pathHist i)).

Lemma upTo_all sn (l : list HistoryEntry) : Forall (λ e, he_seqNum e ≤ sn) l → upTo sn l = l.
Proof.
  induction 1 as [|e l He _ IH]; cbn; [done|]. destruct (Z.ltb_spec sn (he_seqNum e)); [lia|]. by rewrite IH.
Qed.

Lemma undo_hist tid h s s' : undo tid h s = Ok s' → predHist s' = predHist s.
Proof.
  unfold undo. intros (s0 & E0 & (d & _ & E)%bind_Ok)%bind_Ok.
  assert (∀ f, bp_onRAS tid f s = Ok s0 → predHist s0 = predHist s) as HR.
  { unfold bp_onRAS. by intros f (? & _ & (? & _ & (? & _ & [= <-])%bind_Ok)%bind_Ok)%bind_Ok. }
  assert (predHist s0 = predHist s) as <-.
  { destruct (ph_usedRAS h); [by eapply HR|]. destruct (_ && _); [by eapply HR|by injection E0 as <-]. }
  destruct (iPred s0), (ph_indirectHistory h); try done; [apply bind_Ok in E as (p & _ & E)|..]; by injection E as <-.
Qed.
Lemma undoAll_hist tid hs s s' : undoAll tid hs s = Ok s' → predHist s' = predHist s.
Proof.
  revert s. induction hs as [|h hs IH]; intros s; [by intros [= <-]|]. unfold undoAll. cbn.
  intros (s1 & E%undo_hist & E')%bind_Ok. by rewrite (IH s1 E').
Qed.

(** what is left of a wrong path *)
Record forgotten (tid : Z) l s s2 : Prop := {
  fg_hist : predHist s2 = predHist s;
  fg_frame : BTB s2 = BTB s ∧ predictPoison s2 = predictPoison s ∧ predictorEnable s2 = predictorEnable s;
  fg_ind : iPred s2 = iPred s;
  fg_dir : dp_ok n (direction s2) ∧ dp_eqv (allJumps l) (direction s) (direction s2);
  fg_ras : ∃ r r2, vget (RAS s) tid = Ok r ∧ ras_back R (calls l) r r2 ∧ vset (RAS s) tid r2 = Ok (RAS s2);
}.

Lemma wrong_path_forgotten tid sn l s : bp_ok s → 0 ≤ tid < n → Forall (λ a, sn < at_seqNum a) l → settled tid sn s →
  ∃ s1 s2, predicts tid l s = Ok s1 ∧ bp_squash sn tid s1 = Ok s2 ∧
    dp_shape (direction s2) = dp_shape (direction s) ∧ forgotten tid l s s2.
Proof.
  intros Hs Ht Hl [Hold Hpath]. destruct (vget_lt (predHist s) tid) as (hs & Hhs); [rewrite (bo_len _ _ _ Hs); lia|].
  destruct (predicts_undone tid sn l s hs Hs Ht Hl Hhs) as (s1 & hl & Ep & Hs1 & Hset & Hseq & Hundo). exists s1.
  destruct (ind_squash_back tid sn s1 Hs1 Ht) as (s1' & E1 & Hb1 & Hh1). destruct (Hundo s1' Hb1) as (s2 & E2 & Hb2).
  unfold bp_squash. rewrite E1. cbn. rewrite Hh1, (vget_vset_eq _ _ _ _ Hset). cbn.
  rewrite undoHist_app by (try done; by apply Hold). rewrite E2. cbn.
  assert (predHist s2 = predHist s1) as Hh2 by (by rewrite (undoAll_hist _ _ _ _ E2)).
  unfold bp_setHist. rewrite Hh2, (vset_back _ _ _ _ _ Hhs Hset). cbn. eexists. split; [done|]. split; [done|].
  destruct Hb2 as [F [Hd Hk] Hdeq Hras Hi2]. split; [done|]. split; cbn; try done.
  destruct (iPred s) as [p|] eqn:Hp, (iPred s2) as [p2|]; try done. destruct Hi2 as (i & Hi & Hput). f_equal.
  unfold trunc in Hput. rewrite upTo_all in Hput by by apply (Hpath p). destruct i as [path head g]. cbn in *.
  pose proof (ind_put_self _ _ _ Hi) as Hself. unfold ind_put in *. rewrite Hput in Hself. by injection Hself.
Qed.
(** *** The answer of a prediction *)

(** the target of a branch predicted taken, from the branch target buffer *)
Definition btbAnswer (si : StaticInst) (pc : PCState) (tid : Z) s : res (PCState * bool) :=
  valid ← btb_valid (BTB s) (instAddr pc) tid;
  if (valid : bool) then t ← btb_lookup (BTB s) (instAddr pc) tid; t ← derefPtr t; Ok (t, true)
  else Ok (advancePC si pc, false).

(** what is predicted, as a function of the tables *)
Definition answer (si : StaticInst) (pc : PCState) (tid : Z) (taken : bool) s : res (PCState * bool) :=
  if negb taken then Ok (advancePC si pc, false)
  else if isReturn si then
    r ← vget (RAS s) tid;
    top ← ras_top r;
    Ok (match top with Some t => buildRetPC si pc t | None => pc end, true)
  else match iPred s with
       | Some p =>
           if isDirectCtrl si then btbAnswer si pc tid s
           else hit ← ind_lookup (instAddr pc) tid p;
                Ok (match hit with Some t => (t, true) | None => (advancePC si pc, false) end)
       | None => btbAnswer si pc tid s
       end.

Lemma bp_onRAS_frame tid f s s' : bp_onRAS tid f s = Ok s' → BTB s' = BTB s ∧ iPred s' = iPred s.
Proof. unfold bp_onRAS. by intros (? & _ & (? & _ & (? & _ & [= <-])%bind_Ok)%bind_Ok)%bind_Ok. Qed.

Lemma missed_answer si pc tid h s s' g : missed si pc tid h s = Ok (s', g) → gu_target g = Some (advancePC si pc) ∧ gu_taken g = false.
Proof. unfold missed. by intros (s1 & _ & [= _ <-])%bind_Ok. Qed.

Lemma predictDirect_answer si pc tid h s s' g t : predictDirect si pc tid h s = Ok (s', g) → derefPtr (gu_target g) = Ok t →
  btbAnswer si pc tid s = Ok (t, gu_taken g).
Proof.
  unfold predictDirect, btbAnswer. intros (v & -> & E)%bind_Ok Ht. cbn. destruct v.
  - apply bind_Ok in E as (t' & -> & [= <- <-]). cbn in *. by rewrite Ht.
  - apply bind_Ok in E as (s1 & _ & E). apply missed_answer in E as [E1 ->]. rewrite E1 in Ht. cbn in Ht. by injection Ht as ->.
Qed.

Lemma predictTarget_answer si pc tid taken h s s' g t : predictTarget si pc tid taken h s = Ok (s', g) →
  derefPtr (gu_target g) = Ok t → answer si pc tid taken s = Ok (t, gu_taken g).
Proof.
  unfold predictTarget, answer. destruct taken; cbn.
  - destruct (isReturn si).
    { unfold predictReturn. intros (r & Er & (top & Et & (s1 & _ & [= _ <-])%bind_Ok)%bind_Ok)%bind_Ok.
      rewrite Er. cbn. rewrite Et. cbn. by intros [= ->]. }
    intros (s1 & E1 & E)%bind_Ok Ht. assert (BTB s1 = BTB s ∧ iPred s1 = iPred s) as [F1 F2].
    { unfold predictCall in E1. destruct (isCall si); [by apply bp_onRAS_frame in E1|by injection E1 as <-]. }
    rewrite <- F2. unfold btbAnswer. rewrite <- F1. fold (btbAnswer si pc tid s1).
    destruct (iPred s1) as [p|]; [|by eapply predictDirect_answer]. destruct (isDirectCtrl si); [by eapply predictDirect_answer|].
    unfold predictIndirect in E. apply bind_Ok in E as (hit & -> & E). cbn. apply bind_Ok in E as ([s2 g2] & E2 & E).
    apply bind_Ok in E as (t2 & _ & E). apply bind_Ok in E as (s3 & _ & [= <- <-]). destruct hit as [t'|].
    + injection E2 as <- <-. cbn in *. by injection Ht as <-.
    + apply missed_answer in E2 as [A1 A2]. rewrite A1 in Ht. cbn in Ht. injection Ht as <-. by rewrite A2.
  - intros [= <- <-]. cbn. by intros [= <-].
Qed.

Lemma predict_answer rng si seq pc tid s s' t b : predict rng si seq pc tid s = Ok (s', t, b) →
  ∃ s1 bph taken, predictDirection rng si (instAddr pc) tid s = Ok (s1, bph, taken) ∧ answer si pc tid taken s = Ok (t, b).
Proof.
  unfold predict. intros ([[s1 bph] taken] & E1 & E)%bind_Ok. exists s1, bph, taken. split; [done|].
  apply bind_Ok in E as (ih & _ & E). apply bind_Ok in E as ([s2 g] & E2 & E). apply bind_Ok in E as (t' & Et & E).
  apply bind_Ok in E as (s3 & _ & E). apply bind_Ok in E as (hs & _ & E). apply bind_Ok in E as (s4 & _ & [= <- <- <-]).
  pose proof (predictTarget_answer _ _ _ _ _ _ _ _ _ E2 Et) as H.
  assert (∃ d, s1 = bp_setDir d s) as (d & ->).
  { unfold predictDirection in E1. destruct (isUncondCtrl si); [apply bind_Ok in E1 as ([d h] & _ & [= <- _ _])|
      apply bind_Ok in E1 as ([[d h] b] & _ & [= <- _ _])]; by eexists. }
  exact H.
Qed.

Lemma forgotten_answer tid l s s2 si pc taken : 0 < R → calls l < R → forgotten tid l s s2 → (∀ r, vget (RAS s) tid = Ok r → ras_ok R r) →
  answer si pc tid taken s2 = answer si pc tid taken s.
Proof.
  intros HR Hc [_ (F & _) Hi _ (r & r2 & Hr & Hb & Hset)] Hok. unfold answer, btbAnswer. rewrite F, Hi.
  destruct (negb taken); [done|]. destruct (isReturn si); [|done].
  rewrite Hr, (vget_vset_eq _ _ _ _ Hset). cbn. f_equal. specialize (Hok r Hr).
  pose proof (ras_back_entry R _ r r2 0 Hok Hb ltac:(lia) ltac:(lia)) as E. unfold rasEntry in E.
  rewrite !Z.sub_0_r, (ro_size _ _ Hok), (ro_size _ _ (rb_ok _ _ _ _ Hb)), (rb_tos _ _ _ _ Hb) in E.
  destruct Hok. rewrite Z.mod_small in E by done. unfold ras_top. by rewrite (rb_tos _ _ _ _ Hb).
Qed.

Lemma forgotten_direction tid l s s2 rng si pc s1 bph taken : bp_ok s → 0 ≤ tid < n → forgotten tid l s s2 →
  isUncondCtrl si = true ∨ dp_apart (direction s) (allJumps l) (instAddr pc) →
  predictDirection rng si (instAddr pc) tid s = Ok (s1, bph, taken) →
  ∃ s1' bph', predictDirection rng si (instAddr pc) tid s2 = Ok (s1', bph', taken).
Proof.
  intros Hs Ht [_ (_ & Hp & He) _ [Hd2 Heqv] _] Hsi. unfold predictDirection, opposite_effect. rewrite Hp, He.
  destruct (isUncondCtrl si) eqn:Hu.
  - intros ([d h] & _ & [= _ _ <-])%bind_Ok.
    destruct (dp_uncondBranch_ok n tid (instAddr pc) (direction s2) Hd2 Ht) as ([d' h'] & -> & _). cbn. by eexists _, _.
  - intros ([[d h] b] & E & [= _ _ <-])%bind_Ok. destruct Hsi as [|Hsi]; [done|].
    destruct (dp_answer n tid _ _ _ _ _ _ _ (bo_dir _ _ _ Hs) E Heqv Hsi) as (d' & ->). cbn. by eexists _, _.
Qed.

Lemma forgotten_ok tid l s s2 : bp_ok s → 0 ≤ tid < n → dp_shape (direction s2) = dp_shape (direction s) → forgotten tid l s s2 → bp_ok s2.
Proof.
  intros Hs Ht Hk [Hh (Hb & _) Hi [Hd _] (r & r2 & Hr & Hback & Hset)].
  apply (bp_ok_parts n R s); try done; [unfold bp_kind; by rewrite Hi, Hk|by rewrite Hb; apply Hs| |by rewrite Hi; apply Hs].
  destruct (vec_set _ _ _ _ _ (bo_ras _ _ _ Hs) Ht (rb_ok _ _ _ _ Hback)) as (l' & E & _ & Hl). rewrite E in Hset. by injection Hset as <-.
Qed.

(** C13: A wrong path leaves no trace in the branch predictor.  Whatever is
    predicted for a thread after the branch [sn], with fewer calls on the path
    than the return address stack has entries, and then squashed, returns;
    the records, the branch target buffer and the indirect predictor are what
    they were, and so are all entries of the return address stack that the
    calls of the path could not reach.  The next prediction is the one that
    would have been made without the wrong path, for every conditional branch
    that does not share its local history with a jump of the path. *)
Theorem wrong_path_leaves_no_trace tid sn l s : bp_ok s → 0 ≤ tid < n → Forall (λ a, sn < at_seqNum a) l → settled tid sn s →
  calls l < R → ∃ s1 s2, predicts tid l s = Ok s1 ∧ bp_squash sn tid s1 = Ok s2 ∧
    predHist s2 = predHist s ∧ BTB s2 = BTB s ∧ iPred s2 = iPred s ∧
    (∀ r r2 d, vget (RAS s) tid = Ok r → vget (RAS s2) tid = Ok r2 → 0 ≤ d → d + calls l < R → rasEntry r2 d = rasEntry r d) ∧
    ∀ rng si seq pc, isUncondCtrl si = true ∨ dp_apart (direction s) (allJumps l) (instAddr pc) →
      ∃ s' s2' target taken, predict rng si seq pc tid s = Ok (s', target, taken) ∧
        predict rng si seq pc tid s2 = Ok (s2', target, taken).
Proof.
  intros Hs Ht Hl Hset Hc. destruct (wrong_path_forgotten tid sn l s Hs Ht Hl Hset) as (s1 & s2 & E1 & E2 & Hk & Hf).
  exists s1, s2. pose proof Hf as [H1 (H2 & _) H3 _ (r0 & r2' & Hr0 & Hback & Hv)]. split_and!; try done.
  - intros r r2 d Hr Hr2 Hd Hdc. rewrite Hr0 in Hr. injection Hr as <-. rewrite (vget_vset_eq _ _ _ _ Hv) in Hr2. injection Hr2 as <-.
    eapply ras_back_entry; try done. by eapply (vec_at n); [apply Hs|].
  - intros rng si seq pc Hsi. pose proof (forgotten_ok tid l s s2 Hs Ht Hk Hf) as Hs2.
    destruct (predict_returns n R rng si seq pc tid s Hs Ht) as ([[s' t] b] & E & _).
    destruct (predict_returns n R rng si seq pc tid s2 Hs2 Ht) as ([[s2'' t2] b2] & E' & _).
    exists s', s2'', t, b. split; [done|]. destruct (predict_answer _ _ _ _ _ _ _ _ _ E) as (sa & ha & ta & Ed & Ea).
    destruct (predict_answer _ _ _ _ _ _ _ _ _ E') as (sb & hb & tb & Ed' & Ea').
    destruct (forgotten_direction tid l s s2 rng si pc sa ha ta Hs Ht Hf Hsi Ed) as (sc & hc & Ed2). rewrite Ed' in Ed2.
    injection Ed2 as -> -> ->. rewrite (forgotten_answer tid l s s2) in Ea'; try done; [rewrite Ea in Ea'; by injection Ea' as -> ->|by apply (R_pos n R tid s)|].
    intros r Hr. by eapply (vec_at n); [apply Hs|].
Qed.
End unit.
