(* ===== verification/BranchPredHistory.v ===== *)
(** * The branch prediction unit over whole histories

    Predictions with growing sequence numbers, updates, squashes and
    mispredictions of branches that are in the history: every operation
    returns, and a misprediction corrects the record of its branch. *)
From stdpp Require Import sorting.
From S2P Require Import Prelude PipeData BpTables BpTableProps BpDirection BpDirectionProps BranchPred BranchPredInv BranchPredProps.

Section unit.
Context `{I : Isa} {BI : BranchIsa I} {DP : DirectionPredictor} {DO : DirectionPredictorOk DP}.
Implicit Types (h : PredictorHistory) (hs : list PredictorHistory) (s : BPredUnit) (r : ReturnAddrStack)
  (p : SimpleIndirectPredictor) (path : list HistoryEntry).
Variable n R : Z.
Notation bp_ok := (bp_ok n R).
Notation rec_ok := (rec_ok R).

(** ** The order of the records *)

(** the path of a thread *)
Definition pathOf s (t : Z) : list HistoryEntry :=
  match iPred s with
  | Some p => match vget (threadInfo p) t with Ok i => pathHist i | Stop _ => [] end
  | None => []
  end.

(** the records of a thread, youngest first, and its path, oldest first, up to the number [m] *)
Record ordered (m : Z) hs path : Prop := {
  od_hist : StronglySorted (λ h h', ph_seqNum h' < ph_seqNum h) hs;
  od_path : StronglySorted (λ e e', he_seqNum e < he_seqNum e') path;
  od_histMax : Forall (λ h, ph_seqNum h ≤ m) hs;
  od_pathMax : Forall (λ e, he_seqNum e ≤ m) path;
  od_indirect : Forall (λ h, ph_wasIndirect h = true → ph_seqNum h ∈ he_seqNum <$> path) hs;
}.

Lemma StronglySorted_snoc {A} (Rel : A → A → Prop) l x : StronglySorted Rel l → Forall (λ y, Rel y x) l → StronglySorted Rel (l ++ [x]).
Proof.
  induction 1 as [|y l Hl IH Hy]; intros Hx; cbn; [by repeat constructor|]. apply Forall_cons in Hx as [Hyx Hx].
  constructor; [by apply IH|]. apply Forall_app. split; [done|]. by constructor.
Qed.

(** a prediction *)
Lemma ordered_push m h hs path path' : ordered m hs path → m < ph_seqNum h →
  (if ph_wasIndirect h then ∃ e, he_seqNum e = ph_seqNum h ∧ path' = path ++ [e] else path' = path) →
  ordered (ph_seqNum h) (h :: hs) path'.
Proof.
  intros [] Hm Hp.
  assert (Forall (λ h', ph_seqNum h' < ph_seqNum h) hs) as H1 by (eapply Forall_impl; [apply od_histMax0|]; cbn; lia).
  assert (Forall (λ e, he_seqNum e < ph_seqNum h) path) as H2 by (eapply Forall_impl; [apply od_pathMax0|]; cbn; lia).
  destruct (ph_wasIndirect h) eqn:Hw.
  - destruct Hp as (e & He & ->). split.
    + by constructor.
    + apply StronglySorted_snoc; [done|]. by rewrite He.
    + constructor; [done|]. eapply Forall_impl; [apply H1|]; cbn; lia.
    + apply Forall_app. split; [eapply Forall_impl; [apply H2|]; cbn; lia|]. constructor; [lia|done].
    + rewrite fmap_app. constructor; [intros _; rewrite elem_of_app; right; cbn; rewrite He; by apply list_elem_of_singleton|].
      eapply Forall_impl; [apply od_indirect0|]. cbn. intros h' Hh' Hw'. rewrite elem_of_app. left. by apply Hh'.
  - subst path'. split; try done.
    + by constructor.
    + constructor; [done|]. eapply Forall_impl; [apply H1|]; cbn; lia.
    + eapply Forall_impl; [apply H2|]; cbn; lia.
    + constructor; [by rewrite Hw|done].
Qed.

(** a squash *)
Fixpoint survivors (sn : Z) hs : list PredictorHistory :=
  match hs with
  | h :: rest => if sn <? ph_seqNum h then survivors sn rest else hs
  | [] => []
  end.

Lemma upTo_sublist sn path : upTo sn path `prefix_of` path ∧ Forall (λ e, he_seqNum e ≤ sn) (upTo sn path).
Proof.
  induction path as [|e path [IH1 IH2]]; cbn; [done|]. destruct (Z.ltb_spec sn (he_seqNum e)).
  - split; [apply prefix_nil|done].
  - split; [by apply prefix_cons|by constructor].
Qed.
Lemma upTo_elem sn path e : StronglySorted (λ e e', he_seqNum e < he_seqNum e') path → e ∈ path → he_seqNum e ≤ sn → e ∈ upTo sn path.
Proof.
  induction 1 as [|x path Hs IH Hx]; cbn; [by intros ?%elem_of_nil|]. intros He Hle. apply elem_of_cons in He.
  destruct (Z.ltb_spec sn (he_seqNum x)).
  - destruct He as [->|He]; [lia|]. rewrite Forall_forall in Hx. specialize (Hx e He). lia.
  - rewrite elem_of_cons. destruct He as [->|He]; [by left|right; by apply IH].
Qed.

Lemma StronglySorted_prefix {A} (Rel : A → A → Prop) l k : l `prefix_of` k → StronglySorted Rel k → StronglySorted Rel l.
Proof. intros [k' ->]. apply StronglySorted_app_1_l. Qed.
Lemma StronglySorted_suffix {A} (Rel : A → A → Prop) l k : l `suffix_of` k → StronglySorted Rel k → StronglySorted Rel l.
Proof. intros [k' ->]. apply StronglySorted_app_1_r. Qed.
Lemma Forall_prefix {A} (P : A → Prop) l k : l `prefix_of` k → Forall P k → Forall P l.
Proof. intros [k' ->]. by rewrite Forall_app; intros [? _]. Qed.
Lemma Forall_suffix {A} (P : A → Prop) l k : l `suffix_of` k → Forall P k → Forall P l.
Proof. intros [k' ->]. by rewrite Forall_app; intros [_ ?]. Qed.

Lemma survivors_spec sn hs : StronglySorted (λ h h', ph_seqNum h' < ph_seqNum h) hs →
  survivors sn hs `suffix_of` hs ∧ Forall (λ h, ph_seqNum h ≤ sn) (survivors sn hs).
Proof.
  induction 1 as [|h hs Hs [IH1 IH2] Hh]; cbn; [done|]. destruct (Z.ltb_spec sn (ph_seqNum h)).
  - split; [by apply suffix_cons_r|done].
  - split; [done|]. constructor; [done|]. eapply Forall_impl; [apply Hh|]. cbn. lia.
Qed.

Lemma ordered_squash m sn hs path : ordered m hs path → ordered m (survivors sn hs) (upTo sn path).
Proof.
  intros []. destruct (survivors_spec sn hs od_hist0) as [Hsuf Hle]. destruct (upTo_sublist sn path) as [Hpre _].
  split.
  - by eapply StronglySorted_suffix.
  - by eapply StronglySorted_prefix.
  - by eapply Forall_suffix.
  - by eapply Forall_prefix.
  - pose proof (Forall_suffix _ _ _ Hsuf od_indirect0) as H. clear od_indirect0 Hsuf. induction H as [|h l Hh Hl IH]; [done|].
    apply Forall_cons in Hle as [Hle1 Hle]. constructor; [|by apply IH]. intros Hw.
    apply list_elem_of_fmap in Hh as (e & He & Hin); [|done]. apply list_elem_of_fmap. exists e. split; [done|].
    apply upTo_elem; [done..|]. lia.
Qed.
(** ** The indirect predictor of a thread *)

(** only the thread changes, and the table of targets *)
Definition thread_put (tid : Z) (i' : IThreadInfo) p p' : Prop :=
  vset (threadInfo p) tid i' = Ok (threadInfo p') ∧ ind_cfg p' = ind_cfg p.

Lemma ind_put_thread tid i' p p' : ind_put tid i' p p' → thread_put tid i' p p'.
Proof. unfold ind_put, ind_set. intros (l & Hl & [= <-])%bind_Ok. done. Qed.

(** what an operation of the indirect predictor does to the paths *)
Definition onPath (tid : Z) (Q : list HistoryEntry → list HistoryEntry → Prop) s s' : Prop :=
  bp_ok s' ∧ bp_kind s' = bp_kind s ∧ predHist s' = predHist s ∧
  Q (pathOf s tid) (pathOf s' tid) ∧ ∀ t, t ≠ tid → pathOf s' t = pathOf s t.

Lemma bp_onIPred_returns tid f Q s : bp_ok s → 0 ≤ tid < n → Q [] [] →
  (∀ p i, iPred s = Some p → ind_ok n p → vget (threadInfo p) tid = Ok i →
     returns (f p) (λ p', ind_ok n p' ∧ ∃ i', thread_put tid i' p p' ∧ Q (pathHist i) (pathHist i'))) →
  returns (bp_onIPred f s) (onPath tid Q s).
Proof.
  intros Hs Ht H0 Hf. unfold bp_onIPred, onPath. destruct (iPred s) as [p|] eqn:Hp.
  - pose proof (bo_ind _ _ _ Hs p Hp) as Hok. destruct (ind_get n tid p Hok Ht) as (i & Hi).
    destruct (Hf p i eq_refl Hok Hi) as (p' & -> & Hok' & i' & [Hv Hc] & HQ). cbn. apply returns_ret.
    destruct (bp_setIPred_ok n R p p' s Hs Hp Hok' Hc). split_and!; [done..| |]; unfold pathOf; cbn; rewrite Hp.
    + by rewrite Hi, (vget_vset_eq _ _ _ _ Hv).
    + intros t Hne. by rewrite (vget_vset_ne _ _ _ _ _ Hv) by done.
  - apply returns_ret. split_and!; try done. unfold pathOf. by rewrite Hp.
Qed.

(** [commit] only loses entries that are done *)
Definition pathShrinks (done_sn : Z) path path' : Prop :=
  path' `suffix_of` path ∧ ∀ e, e ∈ path → done_sn < he_seqNum e → e ∈ path'.

Lemma pathShrinks_refl done_sn path : pathShrinks done_sn path path.
Proof. done. Qed.
Lemma pathShrinks_trans done_sn path path1 path2 : pathShrinks done_sn path path1 → pathShrinks done_sn path1 path2 → pathShrinks done_sn path path2.
Proof. intros [H1 H2] [H3 H4]. split; [by etrans|]. intros e He Hd. by apply H4; [apply H2|]. Qed.

Lemma ind_commit_returns done_sn tid p i : ind_ok n p → vget (threadInfo p) tid = Ok i → 0 ≤ tid < n →
  StronglySorted (λ e e', he_seqNum e < he_seqNum e') (pathHist i) →
  returns (ind_commit done_sn tid p) (λ p', ind_ok n p' ∧ ∃ i', thread_put tid i' p p' ∧ pathShrinks done_sn (pathHist i) (pathHist i')).
Proof.
  intros Hok Hi Ht Hs. unfold ind_commit. rewrite Hi. cbn.
  assert (returns (Ok p) (λ p', ind_ok n p' ∧ ∃ i', thread_put tid i' p p' ∧ pathShrinks done_sn (pathHist i) (pathHist i'))) as Hself.
  { apply returns_ret. split; [done|]. exists i. split; [|apply pathShrinks_refl]. split; [by apply vset_self|done]. }
  assert (∀ i', pathShrinks done_sn (pathHist i) (pathHist i') →
    returns (ind_set tid i' p) (λ p', ind_ok n p' ∧ ∃ i', thread_put tid i' p p' ∧ pathShrinks done_sn (pathHist i) (pathHist i'))) as Hset.
  { intros i' Hi'. eapply returns_conseq; [by apply (ind_put_ok n)|]. intros p' [Hp' Hput]. split; [done|]. exists i'.
    split; [by apply ind_put_thread|done]. }
  destruct (pathHist i) as [|x rest] eqn:Hpath; [done|]. destruct (vget (x :: rest) (headHistEntry i)) as [e|] eqn:He; [|done].
  destruct (Z.leb_spec (he_seqNum e) done_sn) as [Hle|]; [|done].
  destruct (_ <=? _); [|apply Hset; cbn; by apply pathShrinks_refl]. apply Hset. cbn. split; [by exists [x]|].
  intros e' [->|He']%elem_of_cons Hd; [|done]. exfalso. apply vget_Ok in He as [_ He]. apply list_elem_of_lookup_2 in He.
  apply elem_of_cons in He as [->|He]; [lia|]. apply StronglySorted_cons in Hs as [Hx _]. rewrite Forall_forall in Hx.
  specialize (Hx e He). lia.
Qed.
(** ** Updates *)

Lemma commitHist_returns done_sn tid old s : bp_ok s → 0 ≤ tid < n → Forall (rec_ok s) old →
  StronglySorted (λ e e', he_seqNum e < he_seqNum e') (pathOf s tid) →
  returns (commitHist done_sn tid old s) (λ x, onPath tid (pathShrinks done_sn) s x.2 ∧
    ∃ com, old = com ++ x.1 ∧ Forall (λ h, ph_seqNum h ≤ done_sn) com ∧ from_option (λ h, done_sn < ph_seqNum h) True (head x.1)).
Proof.
  revert s. induction old as [|h old IH]; intros s Hs Ht Ho Hp; cbn.
  { apply returns_ret. split; [|by exists []]. split_and!; done. }
  destruct (Z.leb_spec (ph_seqNum h) done_sn) as [Hle|Hlt].
  2:{ apply returns_ret. split; [split_and!; done|]. by exists []. }
  apply Forall_cons in Ho as [Hh Ho].
  destruct (dp_update_ok n tid (ph_pc h) (ph_predTaken h) (ph_bpHistory h) false (direction s) (bo_dir _ _ _ Hs) Ht (hk_dir _ _ _ Hh))
    as (d & -> & Hd & Hdk). cbn. destruct (bp_setDir_ok n R d s Hs Hd Hdk) as [Hs1 Hk1].
  destruct (bp_onIPred_returns tid (ind_commit done_sn tid) (pathShrinks done_sn) _ Hs1 Ht) as (s2 & -> & Hs2 & Hk2 & Hh2 & Hsh2 & Hne2);
    [done|intros p i Hip Hok Hi; apply ind_commit_returns; try done; cbn in Hip; unfold pathOf in Hp; by rewrite Hip, Hi in Hp|].
  cbn. change (pathOf (bp_setDir d s)) with (pathOf s) in *.
  eapply returns_conseq; [apply IH; [done..| |]|].
  - eapply Forall_impl; [done|]. intros h'. apply rec_ok_kind. congruence.
  - by eapply StronglySorted_suffix; [apply Hsh2|].
  - intros [old' s'] [(A1 & A2 & A3 & A4 & A5) (com & -> & Hcom & Hhd)]. cbn in *. split.
    + split_and!; [done|congruence|congruence|by eapply pathShrinks_trans|]. intros t Hne. by rewrite A5, Hne2.
    + exists (h :: com). split_and!; [done|by constructor|done].
Qed.

Lemma reverse_sorted hs : StronglySorted (λ h h', ph_seqNum h' < ph_seqNum h) hs →
  StronglySorted (λ h h', ph_seqNum h < ph_seqNum h') (reverse hs).
Proof.
  induction 1 as [|h hs Hs IH Hh]; [constructor|]. rewrite reverse_cons. apply StronglySorted_snoc; [done|].
  by apply Forall_reverse.
Qed.

(** what an operation on the records of a thread leaves *)
Definition histBecomes (tid : Z) (Q : list PredictorHistory → list PredictorHistory → Prop) s s' : Prop :=
  ∃ hs hs', vget (predHist s) tid = Ok hs ∧ vset (predHist s) tid hs' = Ok (predHist s') ∧ Q hs hs'.

Definition finished (done_sn : Z) hs hs' : Prop :=
  ∃ com, hs = hs' ++ com ∧ Forall (λ h, ph_seqNum h ≤ done_sn) com ∧ Forall (λ h, done_sn < ph_seqNum h) hs'.

Lemma bp_setHist_path s s' hs tid t : bp_setHist tid hs s = Ok s' → pathOf s' t = pathOf s t.
Proof. unfold bp_setHist. by intros (l & _ & [= <-])%bind_Ok. Qed.

Lemma bp_update_returns done_sn tid m s : bp_ok s → 0 ≤ tid < n →
  (∀ hs, vget (predHist s) tid = Ok hs → ordered m hs (pathOf s tid)) →
  returns (bp_update done_sn tid s) (λ s', bp_ok s' ∧ bp_kind s' = bp_kind s ∧ histBecomes tid (finished done_sn) s s' ∧
    pathShrinks done_sn (pathOf s tid) (pathOf s' tid) ∧ ∀ t, t ≠ tid → pathOf s' t = pathOf s t).
Proof.
  intros Hs Ht Hord. destruct (vget_lt (predHist s) tid) as (hs & Hhs); [rewrite (bo_len _ _ _ Hs); lia|].
  pose proof (Hord hs Hhs) as []. unfold bp_update. rewrite Hhs. cbn.
  pose proof (bo_recs _ _ _ Hs tid hs Hhs) as Hrec.
  destruct (commitHist_returns done_sn tid (reverse hs) s Hs Ht) as ([old s1] & -> & (Hs1 & Hk1 & Hh1 & Hsh & Hne) & com & Eold & Hcom & Hhd);
    [by apply Forall_reverse|done|]. cbn in *.
  assert (hs = reverse old ++ reverse com) as Ehs.
  { rewrite <- reverse_app, <- Eold. by rewrite reverse_involutive. }
  destruct (bp_ok_hist n R s1 tid (reverse old) Hs1 Ht) as (s2 & E2 & Hs2 & Hk2 & Hset & _).
  { rewrite Ehs in Hrec. apply Forall_app in Hrec as [Hrec _]. eapply Forall_impl; [done|]. intros h. by apply rec_ok_kind. }
  rewrite E2. apply returns_ret. split_and!; [done|congruence| | |].
  - exists hs, (reverse old). rewrite <- Hh1. split_and!; [by rewrite Hh1|done|]. exists (reverse com). split_and!; [done|by apply Forall_reverse|].
    apply Forall_reverse. apply reverse_sorted in od_hist0. rewrite Eold in od_hist0. apply StronglySorted_app_1_r in od_hist0.
    destruct old as [|h old]; [done|]. cbn in Hhd. apply StronglySorted_cons in od_hist0 as [H _]. constructor; [done|].
    eapply Forall_impl; [apply H|]. cbn. lia.
  - by rewrite (bp_setHist_path _ _ _ _ _ E2).
  - intros t Hne'. rewrite (bp_setHist_path _ _ _ _ _ E2). by apply Hne.
Qed.

Lemma ordered_update m done_sn hs hs' path path' : ordered m hs path → finished done_sn hs hs' → pathShrinks done_sn path path' →
  ordered m hs' path'.
Proof.
  intros [] (com & -> & Hcom & Hd) [Hsuf Hin]. split.
  - by eapply StronglySorted_app_1_l.
  - by eapply StronglySorted_suffix.
  - by apply Forall_app in od_histMax0 as [? _].
  - by eapply Forall_suffix.
  - apply Forall_app in od_indirect0 as [H _]. clear -H Hd Hin. induction H as [|h l Hh _ IH]; [done|].
    apply Forall_cons in Hd as [Hd1 Hd]. constructor; [|by apply IH]. intros Hw.
    apply list_elem_of_fmap in Hh as (e & He & Hel); [|done]. apply list_elem_of_fmap. exists e. split; [done|].
    apply Hin; [done|lia].
Qed.

(** ** Squashes *)

Lemma undo_ok tid h s : bp_ok s → 0 ≤ tid < n → rec_ok s h →
  returns (undo tid h s) (λ s', bp_ok s' ∧ bp_kind s' = bp_kind s ∧ predHist s' = predHist s ∧ ∀ t, pathOf s' t = pathOf s t).
Proof.
  intros Hs Ht Hh. destruct (bp_ras_get n R tid s Hs Ht) as (r & Hr & Hrok).
  destruct (rasUndo_ok R h r (hk_ras _ _ _ Hh) Hrok) as (r2 & Hu & Hrok2). eapply undo_returns; [done..|]. intros l Hl.
  destruct (dp_squash_ok n tid (ph_bpHistory h) (direction s) (bo_dir _ _ _ Hs) Ht (hk_dir _ _ _ Hh)) as (d & -> & Hd & Hdk). cbn.
  assert (vec n (ras_ok R) l) as Hvl.
  { destruct (vec_set _ _ _ _ _ (bo_ras _ _ _ Hs) Ht Hrok2) as (l' & E & _ & Hv). rewrite E in Hl. by injection Hl as <-. }
  destruct (iPred s) as [p|] eqn:Hp.
  - destruct (hk_ind _ _ _ Hh) as (g & ->); [by rewrite Hp|]. pose proof (bo_ind _ _ _ Hs p Hp) as Hok.
    destruct (ind_get n tid p Hok Ht) as (i & Hi). destruct (ind_setGhr_returns n tid g i p Hok Hi) as (p' & E & Hok' & Hput).
    unfold deleteIndirectInfo. rewrite E. cbn. apply returns_ret. cbn. pose proof (ind_put_cfg _ _ _ _ Hput) as Hc.
    split_and!; [|unfold bp_kind; cbn; by rewrite Hp, Hdk; cbn; rewrite Hc|done|].
    + apply (bp_ok_parts n R s); try done; cbn; [unfold bp_kind; cbn; by rewrite Hp, Hdk; cbn; rewrite Hc|apply Hs|by intros ? [= <-]].
    + intros t. unfold pathOf. cbn. rewrite Hp. destruct (decide (t = tid)) as [->|Hne].
      * by rewrite (ind_put_get _ _ _ _ Hput), Hi.
      * by rewrite (ind_put_ne _ _ _ _ _ Hput).
  - apply returns_ret. cbn. assert (bp_kind (mkBPredUnit (predHist s) (BTB s) l (predictPoison s) (predictorEnable s) None d) = bp_kind s) as Hk.
    { unfold bp_kind. cbn. by rewrite Hp, Hdk. }
    split_and!; [|done|done|intros t; unfold pathOf; cbn; by rewrite Hp].
    apply (bp_ok_parts n R s); try done; apply Hs.
Qed.

Lemma undoHist_returns sn tid hs s : bp_ok s → 0 ≤ tid < n → Forall (rec_ok s) hs →
  returns (undoHist sn tid hs s) (λ x, x.1 = survivors sn hs ∧ bp_ok x.2 ∧ bp_kind x.2 = bp_kind s ∧ predHist x.2 = predHist s ∧
    ∀ t, pathOf x.2 t = pathOf s t).
Proof.
  revert s. induction hs as [|h hs IH]; intros s Hs Ht Hr; cbn; [by apply returns_ret|].
  destruct (Z.ltb_spec sn (ph_seqNum h)); [|by apply returns_ret]. apply Forall_cons in Hr as [Hh Hr].
  destruct (undo_ok tid h s Hs Ht Hh) as (s1 & -> & Hs1 & Hk1 & Hh1 & Hp1). cbn.
  eapply returns_conseq; [apply IH; [done..|]|].
  - eapply Forall_impl; [done|]. intros h'. by apply rec_ok_kind.
  - intros [hs' s2] (-> & Hs2 & Hk2 & Hh2 & Hp2). cbn in *. split_and!; [done..|congruence|congruence|]. intros t. by rewrite Hp2.
Qed.

Lemma bp_squash_returns sn tid s : bp_ok s → 0 ≤ tid < n →
  returns (bp_squash sn tid s) (λ s', bp_ok s' ∧ bp_kind s' = bp_kind s ∧ histBecomes tid (λ hs hs', hs' = survivors sn hs) s s' ∧
    pathOf s' tid = upTo sn (pathOf s tid) ∧ ∀ t, t ≠ tid → pathOf s' t = pathOf s t).
Proof.
  intros Hs Ht. unfold bp_squash. destruct (vget_lt (predHist s) tid) as (hs & Hhs); [rewrite (bo_len _ _ _ Hs); lia|].
  destruct (bp_onIPred_returns tid (ind_squash sn tid) (λ a b, b = upTo sn a) s Hs Ht) as (s1 & -> & Hs1 & Hk1 & Hh1 & Hp1 & Hne1); [done| |].
  { intros p i Hp Hok Hi. unfold ind_squash. rewrite Hi. cbn. eapply returns_conseq; [by apply (ind_put_ok n)|]. intros p' [Hp' Hput].
    split; [done|]. eexists. split; [by apply ind_put_thread|done]. }
  cbn. rewrite Hh1, Hhs. cbn. assert (Forall (rec_ok s1) hs) as Hr.
  { eapply Forall_impl; [by apply (bo_recs _ _ _ Hs tid)|]. intros h. by apply rec_ok_kind. }
  destruct (undoHist_returns sn tid hs s1 Hs1 Ht Hr) as ([hs' s2] & -> & E & Hs2 & Hk2 & Hh2 & Hp2). cbn in *. subst hs'.
  destruct (bp_ok_hist n R s2 tid (survivors sn hs) Hs2 Ht) as (s3 & E3 & Hs3 & Hk3 & Hset & _).
  { assert (survivors sn hs `suffix_of` hs) as Hsuf.
    { clear. induction hs as [|h hs IH]; cbn; [done|]. destruct (_ <? _); [by apply suffix_cons_r|done]. }
    eapply Forall_impl; [by eapply Forall_suffix|]. intros h. by apply rec_ok_kind. }
  rewrite E3. apply returns_ret. split_and!; [done|congruence| | |].
  - exists hs, (survivors sn hs). split_and!; [done| |done]. by rewrite <- Hh1, <- Hh2.
  - by rewrite (bp_setHist_path _ _ _ _ _ E3), Hp2.
  - intros t Hne. rewrite (bp_setHist_path _ _ _ _ _ E3), Hp2. by apply Hne1.
Qed.
(** ** Mispredictions *)

Definition sameSeqs path path' : Prop := he_seqNum <$> path' = he_seqNum <$> path.

Lemma Forall_seqs (P : Z → Prop) path path' : sameSeqs path path' → Forall (λ e, P (he_seqNum e)) path → Forall (λ e, P (he_seqNum e)) path'.
Proof.
  intros E H. revert path' E. induction H as [|e path He _ IH]; intros [|e' path'] E; try done. injection E as E1 E2.
  constructor; [by rewrite E1|by apply IH].
Qed.

Lemma ordered_seqs m hs path path' : sameSeqs path path' → ordered m hs path → ordered m hs path'.
Proof.
  intros E []. split; [done| |done| |by rewrite E].
  - clear -E od_path0. revert path' E. induction od_path0 as [|e path Hs IH He]; intros path' E.
    { apply fmap_nil_inv in E as ->. constructor. }
    destruct path' as [|e' path']; [done|]. injection E as E1 E2. constructor; [by apply IH|]. rewrite E1.
    by apply (Forall_seqs (λ z, he_seqNum e < z) path).
  - by apply (Forall_seqs (λ z, z ≤ m) path).
Qed.

Lemma onPath_refl tid (Q : list HistoryEntry → list HistoryEntry → Prop) s s' : bp_ok s' → bp_kind s' = bp_kind s → predHist s' = predHist s →
  iPred s' = iPred s → (∀ path, Q path path) → onPath tid Q s s'.
Proof. intros H1 H2 H3 H4 HQ. unfold onPath, pathOf. rewrite H4. by split_and!. Qed.
Lemma onPath_trans tid s s1 s2 : onPath tid sameSeqs s s1 → onPath tid sameSeqs s1 s2 → onPath tid sameSeqs s s2.
Proof.
  intros (A1 & A2 & A3 & A4 & A5) (B1 & B2 & B3 & B4 & B5). unfold sameSeqs in *. split_and!; [done|congruence..|].
  intros t Hne. by rewrite B5, A5.
Qed.

Lemma onRAS_path tid f s : bp_ok s → 0 ≤ tid < n → (∀ r, ras_ok R r → returns (f r) (ras_ok R)) →
  returns (bp_onRAS tid f s) (onPath tid sameSeqs s).
Proof.
  intros Hs Ht Hf. destruct (bp_ras_get n R tid s Hs Ht) as (r & Hr & Hrok). destruct (Hf r Hrok) as (r' & Hfr & Hok').
  eapply returns_conseq; [by eapply bp_onRAS_returns|]. intros s' Hput.
  destruct (ras_put_ok n R tid _ _ _ Hs Ht Hok' Hput). destruct (ras_put_frame _ _ _ _ Hput) as (F1 & _ & _ & _ & F5 & _).
  by apply onPath_refl.
Qed.

(** the youngest entry of the path gets the target *)
Lemma recordTarget_path victim h target tid s : bp_ok s → 0 ≤ tid < n → rec_ok s h →
  (∀ p, iPred s = Some p → 0 ≤ victim < numWays (ind_cfg p) ∧ pathOf s tid ≠ []) →
  returns (bp_onIPred (λ p, g ← derefPtr (ph_indirectHistory h); recordTarget victim g target tid p) s) (onPath tid sameSeqs s).
Proof.
  intros Hs Ht Hh Hv. apply bp_onIPred_returns; [done..|]. intros p i Hp Hok Hi.
  destruct (hk_ind _ _ _ Hh) as (g & ->); [by rewrite Hp|]. cbn. destruct (Hv p Hp) as [Hv1 Hv2].
  unfold pathOf in Hv2. rewrite Hp, Hi in Hv2. destruct (last (pathHist i)) as [e|] eqn:Hl; [|by apply last_None in Hl].
  eapply returns_conseq; [by eapply recordTarget_returns|]. intros p' (Hok' & Hc & Hset). split; [done|].
  eexists. split; [by split|]. cbn. unfold sameSeqs. apply last_Some in Hl as (l' & E). rewrite E.
  by rewrite removelast_app by done; rewrite app_nil_r, !fmap_app.
Qed.

Lemma fixTargets_returns victim target taken tid h s : bp_ok s → 0 ≤ tid < n → rec_ok s h →
  (∀ p, iPred s = Some p → 0 ≤ victim < numWays (ind_cfg p)) → (ph_wasIndirect h = true → pathOf s tid ≠ []) →
  returns (fixTargets victim target taken tid h s) (λ x, onPath tid sameSeqs s x.2 ∧ rec_ok s x.1 ∧
    ph_seqNum x.1 = ph_seqNum h ∧ ph_wasIndirect x.1 = ph_wasIndirect h ∧ ph_predTaken x.1 = ph_predTaken h ∧ ph_target x.1 = ph_target h).
Proof.
  intros Hs Ht Hh Hv Hpath. pose proof Hh as [K1 K2 K3].
  assert (∀ s, onPath tid sameSeqs s s ↔ bp_ok s) as Hrefl.
  { intros s0. split; [by intros []|]. intros H. by apply onPath_refl. }
  unfold fixTargets. destruct taken.
  - apply returns_bind. apply (returns_conseq _ (onPath tid sameSeqs s)).
    { destruct (_ && _); [|by apply returns_ret, Hrefl]. apply onRAS_path; [done..|]. intros r Hr. apply returns_ret. by apply ras_pop_ok. }
    intros s1 H1. pose proof H1 as (Hs1 & Hk1 & _ & Hp1 & _).
    match goal with |- context [derefPtr (ph_indirectHistory ?h0)] => set (h1 := h0) end.
    assert (rec_ok s h1) as Hh1 by done. apply returns_bind. apply (returns_conseq _ (onPath tid sameSeqs s1)).
    + destruct (ph_wasIndirect h1) eqn:Hw.
      * apply recordTarget_path; [done|done|by apply (rec_ok_kind R s)|]. intros p Hp. split.
        { destruct (iPred s) as [p0|] eqn:Hp0; injection Hk1 as _ Hk1; rewrite Hp, Hp0 in Hk1; [|done]. injection Hk1 as ->. by apply Hv. }
        intros E. apply (Hpath Hw). rewrite E in Hp1. symmetry in Hp1. by apply fmap_nil_inv in Hp1.
      * destruct (btb_update_returns (BTB s1) (ph_pc h1) target tid (bo_btb _ _ _ Hs1)) as (t & -> & Ht1 & _). cbn. apply returns_ret.
        apply onPath_refl; try done. apply (bp_ok_parts n R s1); try done; apply Hs1.
    + intros s2 H2. apply returns_ret. split; [by eapply onPath_trans|]. by split_and!.
  - destruct (ph_usedRAS h).
    { apply returns_bind. eapply returns_conseq; [apply onRAS_path; [done..|]; intros r Hr; by apply ras_restore_ok|].
      intros s1 H1. apply returns_ret. split; [done|]. by split_and!. }
    destruct (_ && _); [|apply returns_ret; split; [by apply Hrefl|by split_and!]].
    apply returns_bind. eapply returns_conseq; [apply onRAS_path; [done..|]; intros r Hr; apply returns_ret; by apply ras_pop_ok|].
    intros s1 H1. apply returns_ret. split; [done|]. by split_and!.
Qed.
(** the records older than the branch, the branch, and the younger ones *)
Lemma survivors_at sn hs h : StronglySorted (λ h h', ph_seqNum h' < ph_seqNum h) hs → h ∈ hs → ph_seqNum h = sn →
  ∃ newer rest, hs = newer ++ h :: rest ∧ Forall (λ h, sn < ph_seqNum h) newer ∧ survivors sn hs = h :: rest.
Proof.
  intros Hs Hin Hsn. induction Hs as [|x hs Hs IH Hx]; [by apply elem_of_nil in Hin|]. apply elem_of_cons in Hin as [<-|Hin].
  - exists [], hs. cbn. destruct (Z.ltb_spec sn (ph_seqNum h)); [lia|done].
  - destruct (IH Hin) as (newer & rest & -> & Hn & E). exists (x :: newer), rest. cbn.
    rewrite Forall_forall in Hx. specialize (Hx h Hin). destruct (Z.ltb_spec sn (ph_seqNum x)); [|lia].
    split_and!; [done|by constructor; [lia|]|done].
Qed.
Lemma survivors_none sn hs : Forall (λ h, sn < ph_seqNum h) hs → survivors sn hs = [].
Proof. induction 1 as [|h hs Hh _ IH]; cbn; [done|]. destruct (Z.ltb_spec sn (ph_seqNum h)); [done|lia]. Qed.

(** the whole invariant: [m] is the youngest number that was predicted *)
Definition bp_inv (m : Z → Z) s : Prop := bp_ok s ∧ ∀ t hs, vget (predHist s) t = Ok hs → ordered (m t) hs (pathOf s t).

Lemma bp_inv_thread m m' tid hs' s s' : bp_inv m s → (∀ t, t ≠ tid → m' t = m t) → bp_ok s' →
  vset (predHist s) tid hs' = Ok (predHist s') → ordered (m' tid) hs' (pathOf s' tid) → (∀ t, t ≠ tid → pathOf s' t = pathOf s t) → bp_inv m' s'.
Proof.
  intros [Hs Ho] Hm Hs' Hset Hord Hne. split; [done|]. intros t hs Ht.
  destruct (vset_cases _ _ _ _ _ _ Hset Ht) as [[-> ->]|[Hne' Ht']]; [done|]. rewrite Hne, Hm by done.
  by apply Ho.
Qed.

Lemma squash_inv m sn tid s : bp_inv m s → 0 ≤ tid < n →
  returns (bp_squash sn tid s) (λ s', bp_inv m s' ∧ bp_kind s' = bp_kind s ∧ histBecomes tid (λ hs hs', hs' = survivors sn hs) s s').
Proof.
  intros Hi Ht. pose proof Hi as [Hs Ho]. eapply returns_conseq; [by apply bp_squash_returns|].
  intros s' (Hs' & Hk & (hs & hs' & Hh & Hset & ->) & Hp & Hne). split_and!; [|done|by exists hs, (survivors sn hs)].
  eapply (bp_inv_thread m m tid); [done..| |done]. rewrite Hp. apply ordered_squash. by apply Ho.
Qed.

(** the record of the mispredicted branch, after it is corrected *)
Definition mispredicted (tid sn : Z) (target : PCState) (taken : bool) s s' : Prop :=
  histBecomes tid (λ hs hs', ∃ h h' rest, survivors sn hs = h :: rest ∧ ph_seqNum h = sn ∧
    hs' = h' :: rest ∧ ph_seqNum h' = sn ∧ ph_predTaken h' = taken ∧ ph_target h' = instAddr target) s s'.

Lemma correct_returns m victim sn target taken tid h rest s : bp_inv m s → 0 ≤ tid < n → vget (predHist s) tid = Ok (h :: rest) →
  ph_seqNum h = sn → (∀ p, iPred s = Some p → 0 ≤ victim < numWays (ind_cfg p)) →
  returns (let h := corrected (instAddr target) taken h in
           d ← dp_update tid (ph_pc h) taken (ph_bpHistory h) true (direction s);
           s ← bp_onIPred (λ p, g ← derefPtr (ph_indirectHistory h); changeDirectionPrediction tid g taken p) (bp_setDir d s);
           ' (h, s) ← fixTargets victim target taken tid h s;
           bp_setHist tid (h :: rest) s)
    (λ s', bp_inv m s' ∧ bp_kind s' = bp_kind s ∧ ∃ h', vset (predHist s) tid (h' :: rest) = Ok (predHist s') ∧ ph_seqNum h' = sn ∧ ph_predTaken h' = taken ∧
       ph_target h' = instAddr target).
Proof.
  intros Hi Ht Hhs Hsn Hv. pose proof Hi as [Hs Ho]. pose proof (bo_recs _ _ _ Hs tid _ Hhs) as [Hr Hrest]%Forall_cons.
  cbn. destruct (dp_update_ok n tid (ph_pc h) taken (ph_bpHistory h) true (direction s) (bo_dir _ _ _ Hs) Ht (hk_dir _ _ _ Hr)) as (d & -> & Hd & Hdk).
  cbn. destruct (bp_setDir_ok n R d s Hs Hd Hdk) as [Hs1 Hk1]. pose proof (rec_ok_kind R _ _ _ Hk1 Hr) as Hr1.
  destruct (bp_onIPred_returns tid (λ p, g ← derefPtr (ph_indirectHistory h); changeDirectionPrediction tid g taken p) sameSeqs _ Hs1 Ht)
    as (s2 & -> & H2 & Hk2 & Hh2 & Hp2 & Hne2); [done| |].
  { intros p i Hp Hok Hi'. destruct (hk_ind _ _ _ Hr1) as (g & ->); [by rewrite Hp|]. cbn. unfold changeDirectionPrediction.
    eapply returns_conseq; [by eapply (ind_setGhr_returns n)|]. intros p' [Hp' Hput]. split; [done|]. eexists.
    split; [by apply ind_put_thread|done]. }
  cbn. change (pathOf (bp_setDir d s)) with (pathOf s) in *. set (h1 := corrected (instAddr target) taken h).
  assert (bp_kind s2 = bp_kind s) as Hk by congruence.
  destruct (fixTargets_returns victim target taken tid h1 s2 H2 Ht) as ([h2 s3] & -> & (H3 & Hk3 & Hh3 & Hp3 & Hne3) & Hr2 & E1 & E2 & E3 & E4).
  - split; [apply (rec_ok_kind R s s2 h Hk Hr)..].
  - intros p Hp. destruct (iPred s) as [p0|] eqn:Hp0; injection Hk as _ Hk; rewrite Hp, Hp0 in Hk; [|done]. injection Hk as ->. by apply Hv.
  - intros Hw E. rewrite E in Hp2. unfold sameSeqs in Hp2. cbn in Hp2. symmetry in Hp2. apply fmap_nil_inv in Hp2.
    destruct (Ho tid _ Hhs) as [_ _ _ _ Hind]. apply Forall_cons in Hind as [Hind _]. specialize (Hind Hw).
    rewrite Hp2 in Hind. by apply elem_of_nil in Hind.
  - cbn in *. destruct (bp_ok_hist n R s3 tid (h2 :: rest) H3 Ht) as (s4 & E & H4 & Hk4 & Hset & _).
    { constructor; [by apply (rec_ok_kind R s2)|]. eapply Forall_impl; [done|]. intros h'. apply rec_ok_kind. congruence. }
    rewrite E. apply returns_ret. assert (vset (predHist s) tid (h2 :: rest) = Ok (predHist s4)) as Hset' by (rewrite <- Hset; congruence).
    split; [|split; [congruence|exists h2; split_and!; congruence]].
    eapply (bp_inv_thread m m tid); [done..| |].
    + rewrite (bp_setHist_path _ _ _ _ _ E). apply (ordered_seqs (m tid) _ (pathOf s tid)).
      { unfold sameSeqs in *. congruence. }
      destruct (Ho tid _ Hhs) as [O1 O2 O3 O4 O5]. rewrite StronglySorted_cons in O1. rewrite Forall_cons in O3, O5.
      split; [by rewrite StronglySorted_cons, E1|done|by rewrite Forall_cons, E1|done|by rewrite Forall_cons, E1, E2].
    + intros t Hne. rewrite (bp_setHist_path _ _ _ _ _ E). by rewrite Hne3, Hne2.
Qed.

Lemma squashWith_returns m victim sn target taken tid hs h s : bp_inv m s → 0 ≤ tid < n → vget (predHist s) tid = Ok hs →
  h ∈ hs → ph_seqNum h = sn → (∀ p, iPred s = Some p → 0 ≤ victim < numWays (ind_cfg p)) →
  returns (squashWith victim sn target taken tid s) (λ s', bp_inv m s' ∧ bp_kind s' = bp_kind s ∧
    mispredicted tid sn target taken s s').
Proof.
  intros Hi Ht Hhs Hin Hsn Hv. destruct (squash_inv m sn tid s Hi Ht) as (s1 & E1 & Hi1 & Hk1 & hs0 & hs1 & Hhs0 & Hset & ->).
  rewrite Hhs in Hhs0. injection Hhs0 as <-.
  destruct (survivors_at sn hs h (od_hist _ _ _ (proj2 Hi tid hs Hhs)) Hin Hsn) as (newer & rest & E & Hnew & Es).
  rewrite Es in Hset. pose proof (vget_vset_eq _ _ _ _ Hset) as Hh1. unfold squashWith. rewrite E1. cbn. rewrite Hh1. cbn.
  rewrite (proj2 (Z.eqb_eq _ _) Hsn). cbn. eapply returns_conseq; [eapply (correct_returns m victim sn); try done|].
  - intros p Hp. destruct (iPred s) as [p0|] eqn:Hp0; injection Hk1 as _ Hk1; rewrite Hp, Hp0 in Hk1; [|done]. injection Hk1 as ->. by apply Hv.
  - intros s' (Hi' & Hk' & h' & Hset' & A1 & A2 & A3). split; [done|]. split; [congruence|]. exists hs, (h' :: rest). split_and!; [done| |].
    + by apply (vset_vset _ _ _ _ _ _ Hset).
    + by exists h, h', rest.
Qed.
End unit.

(** ** Histories *)

Section histories.
Context `{I : Isa} {BI : BranchIsa I} {DP : DirectionPredictor} {DO : DirectionPredictorOk DP}.
Implicit Types (s : BPredUnit) (m : Z → Z).
Variable q : BPredParams.
Variable newDir : res Dir.

Record bp_params : Prop := {
  bq_threads : 0 < bp_numThreads q;
  bq_btb : 0 ≤ BTBEntries q;
  bq_ras : 0 < RASSize q < 2 ^ 32;
  bq_ind c : indirectBranchPred q = Some c → 0 ≤ numSets c ∧ 0 < numWays c ∧ 0 < pathLength c;
  bq_dir d : newDir = Ok d → dp_ok (bp_numThreads q) d;
}.

Inductive bp_op :=
  | PredictOp (rng : Z) (si : StaticInst) (seq : Z) (pc : PCState) (tid : Z)
  | UpdateOp (done_sn tid : Z)
  | SquashOp (sn tid : Z)
  | MispredictOp (victim sn : Z) (target : PCState) (taken : bool) (tid : Z).

Definition bp_do (op : bp_op) s : res BPredUnit :=
  match op with
  | PredictOp rng si seq pc tid => ' (s, _, _) ← predict rng si seq pc tid s; Ok s
  | UpdateOp done_sn tid => bp_update done_sn tid s
  | SquashOp sn tid => bp_squash sn tid s
  | MispredictOp victim sn target taken tid => squashWith victim sn target taken tid s
  end.

Definition op_tid (op : bp_op) : Z :=
  match op with PredictOp _ _ _ _ tid | UpdateOp _ tid | SquashOp _ tid | MispredictOp _ _ _ _ tid => tid end.
(** the newest sequence numbers of the threads after the operation *)
Definition op_max m (op : bp_op) : Z → Z :=
  match op with PredictOp _ _ seq _ tid => λ t, if t =? tid then seq else m t | _ => m end.

(** what the callers keep to: the sequence numbers of a thread grow, and a misprediction is
    of a branch that still has a record, or older than all records *)
Definition bp_allowed m (op : bp_op) s : Prop :=
  0 ≤ op_tid op < bp_numThreads q ∧
  match op with
  | PredictOp _ _ seq _ tid => m tid < seq
  | MispredictOp victim sn _ _ tid =>
      (∀ c, indirectBranchPred q = Some c → 0 ≤ victim < numWays c) ∧
      ∀ hs, vget (predHist s) tid = Ok hs → sn ∈ ph_seqNum <$> hs ∨ Forall (λ h, sn < ph_seqNum h) hs
  | _ => True
  end.

Inductive bp_reach : (Z → Z) → BPredUnit → Prop :=
  | reach_new s : newBPredUnit q newDir = Ok s → bp_reach (λ _, 0) s
  | reach_op m s op s' : bp_reach m s → bp_allowed m op s → bp_do op s = Ok s' → bp_reach (op_max m op) s'.

(** what an operation does to the records of its thread *)
Definition bp_effect (op : bp_op) (hs hs' : list PredictorHistory) : Prop :=
  match op with
  | PredictOp _ _ seq pc _ => ∃ h, hs' = h :: hs ∧ ph_seqNum h = seq
  | UpdateOp done_sn _ => hs' = filter (λ h, done_sn < ph_seqNum h) hs
  | SquashOp sn _ => hs' = filter (λ h, ph_seqNum h ≤ sn) hs
  | MispredictOp _ sn target taken _ =>
      ph_seqNum <$> hs' = ph_seqNum <$> filter (λ h, ph_seqNum h ≤ sn) hs ∧
      ∀ h, head hs' = Some h → ph_seqNum h = sn ∧ ph_predTaken h = taken ∧ ph_target h = instAddr target
  end.

Lemma newBPredUnit_inv s : bp_params → newBPredUnit q newDir = Ok s →
  bp_inv (bp_numThreads q) (RASSize q) (λ _, 0) s ∧ ind_cfg <$> iPred s = indirectBranchPred q.
Proof.
  intros []. unfold newBPredUnit. intros (ip & Hip & (t & Ht & (d & Hd & [= <-])%bind_Ok)%bind_Ok)%bind_Ok.
  assert (∀ p, ip = Some p → ind_ok (bp_numThreads q) p ∧ ∀ i, i ∈ threadInfo p → pathHist i = []) as Hind.
  { intros p ->. destruct (indirectBranchPred q) as [c|]; [|done]. apply bind_Ok in Hip as (p' & Hp & [= ->]).
    destruct (bq_ind0 c eq_refl) as (H1 & H2 & H3). split; [by eapply newIndirect_ok; try done; lia|].
    unfold newIndirect in Hp. destruct (negb _); [done|]. destruct (_ <? _); [done|]. injection Hp as <-. cbn.
    by intros i [-> _]%elem_of_replicate. }
  assert (∀ tid hs, vget (replicate (Z.to_nat (bp_numThreads q)) []) tid = Ok hs → hs = ([] : list PredictorHistory)) as Hh.
  { intros tid hs [_ H]%vget_Ok. by apply lookup_replicate in H as [-> _]. }
  split; [split; [split; cbn|cbn]|cbn].
  - by apply bq_dir0.
  - by eapply newBTB_ok.
  - apply vec_replicate; [lia|]. by apply ras_init_ok.
  - intros p Hp. by apply Hind.
  - rewrite length_replicate. lia.
  - intros tid hs ->%Hh. done.
  - intros tid hs ->%Hh. unfold pathOf. cbn. assert (∀ l, l = [] → ordered 0 [] l) as HO by (intros l ->; split; constructor).
    apply HO. destruct ip as [p|]; [|done]. destruct (vget (threadInfo p) tid) as [i|] eqn:E; [|done].
    apply (Hind p eq_refl). apply vget_Ok in E as [_ E]. by apply list_elem_of_lookup_2 in E.
  - destruct (indirectBranchPred q) as [c|]; [|by injection Hip as <-]. apply bind_Ok in Hip as (p' & Hp & [= <-]).
    unfold newIndirect in Hp. destruct (negb _); [done|]. destruct (_ <? _); [done|]. by injection Hp as <-.
Qed.

Lemma filter_keep {A} (P : A → Prop) `{!∀ x, Decision (P x)} l : Forall P l → filter P l = l.
Proof. induction 1 as [|x l Hx _ IH]; [done|]. rewrite filter_cons_True by done. by rewrite IH. Qed.
Lemma filter_drop {A} (P : A → Prop) `{!∀ x, Decision (P x)} l : Forall (λ x, ¬ P x) l → filter P l = [].
Proof. induction 1 as [|x l Hx _ IH]; [done|]. by rewrite filter_cons_False. Qed.

Lemma survivors_filter sn hs : StronglySorted (λ h h', ph_seqNum h' < ph_seqNum h) hs →
  survivors sn hs = filter (λ h, ph_seqNum h ≤ sn) hs.
Proof.
  induction 1 as [|h hs Hs IH Hh]; [done|]. cbn [survivors]. destruct (Z.ltb_spec sn (ph_seqNum h)).
  - by rewrite filter_cons_False by lia.
  - rewrite filter_cons_True by lia. f_equal. symmetry. apply filter_keep. eapply Forall_impl; [apply Hh|]. cbn. lia.
Qed.

Lemma finished_filter sn hs hs' : finished sn hs hs' → hs' = filter (λ h, sn < ph_seqNum h) hs.
Proof.
  intros (com & -> & Hc & Hd). rewrite filter_app, filter_keep by done. rewrite filter_drop, app_nil_r; [done|].
  eapply Forall_impl; [apply Hc|]. cbn. lia.
Qed.

Lemma pathOf_step tid seq s s' ext : 0 ≤ tid → ind_step tid seq ext (iPred s) (iPred s') →
  (if ext then ∃ e, he_seqNum e = seq ∧ pathOf s' tid = pathOf s tid ++ [e] else pathOf s' tid = pathOf s tid) ∧
  ∀ t, t ≠ tid → pathOf s' t = pathOf s t.
Proof.
  intros _. unfold pathOf, ind_step. destruct (iPred s) as [p|], (iPred s') as [p'|]; try done; [|by intros ->].
  intros (i & i' & Hi & Hput & _ & Hp). rewrite Hi, (ind_put_get _ _ _ _ Hput). split.
  - by destruct ext.
  - intros t Hne. by rewrite (ind_put_ne _ _ _ _ _ Hput).
Qed.

(** every allowed operation keeps the invariant *)
Lemma bp_do_returns m op s : bp_inv (bp_numThreads q) (RASSize q) m s → ind_cfg <$> iPred s = indirectBranchPred q → bp_allowed m op s →
  returns (bp_do op s) (λ s', bp_inv (bp_numThreads q) (RASSize q) (op_max m op) s' ∧ bp_kind s' = bp_kind s ∧ histBecomes (op_tid op) (bp_effect op) s s').
Proof.
  intros Hi Hcfg [Ht Ha]. pose proof Hi as [Hs Ho]. destruct op as [rng si seq pc tid|done_sn tid|sn tid|victim sn target taken tid]; cbn in *.
  - destruct (predict_returns _ _ rng si seq pc tid s Hs Ht) as ([[s' t] b] & -> & h & Hpd). cbn in *. apply returns_ret.
    destruct Hpd as [[Hs' Hk] (hs & Hhs & Hset) [Hseq _] _ _ _ Hind _].
    destruct (pathOf_step tid seq s s' _ ltac:(lia) Hind) as [Hpath Hne]. rewrite <- Hseq in *. split; [|split; [done|]].
    + eapply (bp_inv_thread _ _ m _ tid); [done| |done|done| |done].
      { intros t' Hne'. by destruct (Z.eqb_spec t' tid). }
      cbn. rewrite Z.eqb_refl. by eapply ordered_push; [apply Ho| |].
    + exists hs, (h :: hs). split_and!; [done..|]. by exists h.
  - destruct (vget_lt (predHist s) tid) as (hs & Hhs); [rewrite (bo_len _ _ _ Hs); lia|].
    eapply returns_conseq; [apply (bp_update_returns _ _ done_sn tid (m tid) s Hs Ht); intros l Hl; by apply Ho|].
    intros s' (Hs' & Hk & (hs0 & hs' & Hhs0 & Hset & Hf) & Hp & Hne). split; [|split; [done|]].
    + eapply (bp_inv_thread _ _ m _ tid); [done..| |done]. eapply ordered_update; [by apply Ho|done|done].
    + exists hs0, hs'. split_and!; [done..|]. by apply finished_filter.
  - eapply returns_conseq; [by apply (squash_inv _ _ m sn tid s Hi Ht)|]. intros s' (Hi' & Hk & hs & hs' & Hhs & Hset & ->).
    split; [done|]. split; [done|]. exists hs, (survivors sn hs). split_and!; [done..|]. apply survivors_filter. by eapply od_hist, Ho.
  - destruct Ha as [Hv Hp]. destruct (vget_lt (predHist s) tid) as (hs & Hhs); [rewrite (bo_len _ _ _ Hs); lia|].
    pose proof (od_hist _ _ _ (Ho tid hs Hhs)) as Hsort. destruct (Hp hs Hhs) as [Hin|Hall].
    + apply list_elem_of_fmap in Hin as (h & Hh & Hin).
      eapply returns_conseq; [eapply (squashWith_returns _ _ m victim sn target taken tid hs h s); try done|].
      { intros p Hip. apply Hv. by rewrite <- Hcfg, Hip. }
      intros s' (Hi' & Hk & hs0 & hs' & Hhs0 & Hset & h0 & h' & rest & E & E0 & -> & E1 & E2 & E3). split; [done|]. split; [done|].
      exists hs0, (h' :: rest). split; [done|]. split; [done|]. split; [|by intros ? [= <-]]. rewrite Hhs in Hhs0. injection Hhs0 as <-.
      rewrite <- survivors_filter, E by done. cbn. by rewrite E0, E1.
    + destruct (squash_inv _ _ m sn tid s Hi Ht) as (s1 & E1 & Hi1 & Hk & hs0 & hs1 & Hhs0 & Hset & ->).
      rewrite Hhs in Hhs0. injection Hhs0 as <-. rewrite survivors_none in Hset by done. unfold squashWith. rewrite E1. cbn.
      rewrite (vget_vset_eq _ _ _ _ Hset). cbn. apply returns_ret. split; [done|]. split; [done|]. exists hs, [].
      split; [done|]. split; [done|]. split; [|done]. by rewrite <- survivors_filter, survivors_none.
Qed.

Lemma bp_reach_inv m s : bp_params → bp_reach m s →
  bp_inv (bp_numThreads q) (RASSize q) m s ∧ ind_cfg <$> iPred s = indirectBranchPred q.
Proof.
  intros Hq. induction 1 as [s E|m s op s' _ [IH Hc] Ha E]; [by apply newBPredUnit_inv|].
  destruct (bp_do_returns m op s IH Hc Ha) as (s1 & E1 & Hi & Hk & _). rewrite E in E1. injection E1 as <-. split; [done|].
  rewrite <- Hc. by injection Hk.
Qed.

Lemma inv_settled n R m tid sn s : bp_inv n R m s → m tid ≤ sn → settled tid sn s.
Proof.
  intros [Hs Ho] Hm. split.
  - intros hs Hhs. eapply Forall_impl; [eapply od_histMax, Ho, Hhs|]. cbn. lia.
  - intros p i Hp Hi. destruct (vget_lt (predHist s) tid) as (hs & Hhs).
    { rewrite (bo_len _ _ _ Hs), <- (io_threads _ _ (bo_ind _ _ _ Hs p Hp)). by eapply vget_bound. }
    pose proof (od_pathMax _ _ _ (Ho tid hs Hhs)) as H. unfold pathOf in H. rewrite Hp, Hi in H.
    eapply Forall_impl; [apply H|]. cbn. lia.
Qed.

(** C14: The branch predictor never fails.  From the constructor on, through
    any predictions with sequence numbers that grow within each thread, updates, squashes and
    mispredictions of recorded branches, of any threads, every operation
    returns: no index leaves the counters, the histories, the return address
    stacks, the branch target buffer or the sets of the indirect predictor, no
    null pointer is read, and the assertions hold.  A prediction adds the
    youngest record of its thread, an update removes exactly the records that
    are done, a squash exactly the younger ones, and a misprediction also gives
    its own record the outcome. *)
Theorem branch_predictor_never_fails m s op : bp_params → bp_reach m s → bp_allowed m op s →
  ∃ s', bp_do op s = Ok s' ∧ histBecomes (op_tid op) (bp_effect op) s s'.
Proof.
  intros Hq Hr Ha. destruct (bp_reach_inv m s Hq Hr) as [Hi Hc].
  destruct (bp_do_returns m op s Hi Hc Ha) as (s' & E & _ & _ & H). by exists s'.
Qed.
End histories.

(** ** A small predictor *)

Module BpToy.
#[local] Existing Instance Toy.isa.
#[local] Existing Instance tournament_predictor.

Definition ctrl (k : Z) : Toy.si := Toy.mkSi false false true k [] [] 0 false false.
Definition branch : Toy.si := ctrl 4.
Definition call : Toy.si := ctrl 5.
Definition ret : Toy.si := ctrl 6.
Definition jump : Toy.si := ctrl 7.
Definition indirect : Toy.si := ctrl 8.

#[export] Instance branchIsa : BranchIsa Toy.isa := @Build_BranchIsa Toy.isa
  (λ si, 5 <=? Toy.op si)
  (λ si, negb (Toy.op si =? 6) && negb (Toy.op si =? 8))
  (λ si, Toy.op si =? 5)
  (λ si, Toy.op si =? 6)
  (λ _ _ call, (fst call + 4, 0)).

Definition params : BPredParams := mkBPredParams 2 16 8 4 2 101 true (Some (mkIndirectParams true true 4 2 8 2 2 6)).
Definition tparams : TournamentParams := mkTournamentParams 8 2 8 16 2 16 2 2.
Definition newDir : res Dir := tour_new tparams 2.
Definition unit0 : res BPredUnit := newBPredUnit params newDir.

Lemma params_ok : bp_params params newDir.
Proof.
  split; cbn; try lia.
  - intros c [= <-]. cbn. lia.
  - intros d E. apply (tour_new_ok tparams); [lia|unfold tour_params; cbn; lia|done].
Qed.

(** a history of two threads: a branch that is mispredicted, and a call *)
Definition ops : list bp_op :=
  [PredictOp 0 branch 1 (36, 0) 1; MispredictOp 0 1 (64, 0) true 1; PredictOp 0 call 3 (64, 0) 1; PredictOp 0 jump 2 (32, 0) 0].

(** a wrong path of a call, a branch, an indirect branch, a jump and a return *)
Definition path : list attempt :=
  [mkAttempt 0 call 7 (68, 0); mkAttempt 0 branch 8 (128, 0); mkAttempt 0 indirect 9 (132, 0); mkAttempt 0 jump 10 (136, 0);
   mkAttempt 0 ret 11 (140, 0)].

(** running operations, each of which must be allowed *)
Definition allowedb (m : Z → Z) (op : bp_op) (s : BPredUnit) : bool :=
  (0 <=? op_tid op) && (op_tid op <? 2) &&
  match op with
  | PredictOp _ _ seq _ tid => m tid <? seq
  | MispredictOp victim sn _ _ tid =>
      (0 <=? victim) && (victim <? 2) &&
      match vget (predHist s) tid with Ok hs => existsb (λ h, ph_seqNum h =? sn) hs | Stop _ => false end
  | _ => true
  end.

Fixpoint run (ops : list bp_op) (m : Z → Z) (s : BPredUnit) : res ((Z → Z) * BPredUnit) :=
  match ops with
  | [] => Ok (m, s)
  | op :: ops => check (allowedb m op s); s ← bp_do op s; run ops (op_max m op) s
  end.

Lemma allowedb_ok m op s : allowedb m op s = true → bp_allowed params m op s.
Proof.
  unfold allowedb, bp_allowed. intros [[H1%Z.leb_le H2%Z.ltb_lt]%andb_true_iff H]%andb_true_iff. split; [cbn; lia|].
  destruct op as [rng si seq pc tid| | |victim sn target taken tid]; try done; [by apply Z.ltb_lt|].
  apply andb_true_iff in H as [[H3%Z.leb_le H4%Z.ltb_lt]%andb_true_iff H]. split; [intros c [= <-]; cbn; lia|].
  intros hs Hhs. rewrite Hhs in H. left. apply existsb_exists in H as (h & Hin & E%Z.eqb_eq). apply list_elem_of_fmap.
  exists h. split; [done|]. by apply list_elem_of_In.
Qed.

Lemma run_reach l m s m' s' : bp_reach params newDir m s → run l m s = Ok (m', s') → bp_reach params newDir m' s'.
Proof.
  revert m s. induction l as [|op l IH]; intros m s Hr; cbn; [by intros [= <- <-]|].
  intros (u & Ha%assert_Ok & (s1 & E & H)%bind_Ok)%bind_Ok. eapply IH; [|done]. eapply reach_op; [done| |done]. by apply allowedb_ok.
Qed.
End BpToy.

Section witnesses.
#[local] Existing Instance Toy.isa.
#[local] Existing Instance BpToy.branchIsa.
#[local] Existing Instance tournament_predictor.

(** a misprediction after the history of the small predictor *)
Lemma branch_predictor_never_fails_witness :
  ∃ s0 m s s', BpToy.unit0 = Ok s0 ∧ BpToy.run BpToy.ops (λ _, 0) s0 = Ok (m, s) ∧
    bp_do (MispredictOp 1 3 (96, 0) true 1) s = Ok s' ∧
    histBecomes 1 (bp_effect (MispredictOp 1 3 (96, 0) true 1)) s s'.
Proof.
  assert ((s0 ← BpToy.unit0; ' (m, s) ← BpToy.run BpToy.ops (λ _, 0) s0; Ok (BpToy.allowedb m (MispredictOp 1 3 (96, 0) true 1) s)) = Ok true) as H
    by (vm_compute; reflexivity).
  apply bind_Ok in H as (s0 & E0 & H). apply bind_Ok in H as ([m s] & E1 & H). injection H as H.
  assert (bp_reach BpToy.params BpToy.newDir m s) as Hr.
  { eapply BpToy.run_reach; [|exact E1]. apply reach_new. exact E0. }
  destruct (branch_predictor_never_fails BpToy.params BpToy.newDir m s _ BpToy.params_ok Hr (BpToy.allowedb_ok _ _ _ H)) as (s' & E2 & E3).
  exists s0, m, s, s'. split_and!; [exact E0|exact E1|exact E2|exact E3].
Defined.

(** the wrong path of the small predictor *)
Lemma wrong_path_leaves_no_trace_witness :
  ∃ s0 m s s1 s2, BpToy.unit0 = Ok s0 ∧ BpToy.run BpToy.ops (λ _, 0) s0 = Ok (m, s) ∧
    predicts 1 BpToy.path s = Ok s1 ∧ bp_squash 6 1 s1 = Ok s2 ∧ predHist s2 = predHist s ∧ iPred s2 = iPred s.
Proof.
  assert ((s0 ← BpToy.unit0; ' (m, s) ← BpToy.run BpToy.ops (λ _, 0) s0; Ok (m 1 <=? 6)) = Ok true) as H by (vm_compute; reflexivity).
  apply bind_Ok in H as (s0 & E0 & H). apply bind_Ok in H as ([m s] & E1 & H). injection H as H. apply Z.leb_le in H.
  assert (bp_reach BpToy.params BpToy.newDir m s) as Hr.
  { eapply BpToy.run_reach; [|exact E1]. apply reach_new. exact E0. }
  destruct (bp_reach_inv _ _ m s BpToy.params_ok Hr) as [Hi _].
  assert (Forall (λ a, 6 < at_seqNum a) BpToy.path) as Hp by (repeat constructor).
  assert (calls BpToy.path < 4) as Hc by (vm_compute; reflexivity).
  destruct (wrong_path_leaves_no_trace 2 4 1 6 BpToy.path s (proj1 Hi) ltac:(lia) Hp (inv_settled _ _ _ _ _ _ Hi H) Hc)
    as (s1 & s2 & A1 & A2 & A3 & _ & A4 & _).
  exists s0, m, s, s1, s2. split_and!; [exact E0|exact E1|exact A1|exact A2|exact A3|exact A4].
Defined.

(** three updates of a small branch target buffer *)
Definition toyUpdates : list (btbUpdate (I := Toy.isa)) := [mkUpdate 36 (64, 0) 0; mkUpdate 40 (80, 0) 1; mkUpdate 36 (96, 0) 0].

Lemma btb_refines_history_witness : ∃ t t', newBTB 16 8 2 2 = Ok t ∧ btb_updates toyUpdates t = Ok t' ∧
  btb_lookup t' 36 0 = Ok (Some (96, 0)) ∧ btb_lookup t' 36 1 = Ok None.
Proof.
  assert (∃ t, newBTB (I := Toy.isa) 16 8 2 2 = Ok t) as (t & E) by (eexists; vm_compute; reflexivity).
  destruct (btb_refines_history 16 8 2 2 t toyUpdates ltac:(lia) E) as (t' & E1 & E2).
  exists t, t'. split; [exact E|]. split; [exact E1|]. rewrite !E2. clear E1 E2 t'. vm_compute in E. injection E as <-.
  split; vm_compute; reflexivity.
Defined.
End witnesses.
