(* ===== verification/Registers.v ===== *)
(** * Registers of a thread (src/cpu/regfile.hh, simple_thread.hh, myminor/exec_context.hh)

    A register file is a vector of bytes in which a register has its place; a
    thread has one for every class of registers.  Instructions read and write
    them through their [ExecContext], by operand. *)
From S2P Require Import Prelude LVPT PipeData BpTables BpTableProps.

(** ** Bytes *)

(** [n] bytes of a number, little-endian *)
Fixpoint toBytes (n : nat) (v : Z) : list Z :=
  match n with O => [] | S n => v `mod` 256 :: toBytes n (v `div` 256) end.
Definition ofBytes (l : list Z) : Z := foldr (λ b acc, b + 256 * acc) 0 l.

(** reading and writing [n] bytes of a vector at an offset *)
Definition peek (l : list Z) (off n : Z) : res (list Z) :=
  if (0 <=? off) && (off + n <=? Z.of_nat (length l)) then Ok (take (Z.to_nat n) (drop (Z.to_nat off) l)) else Stop OutOfBounds.
Definition poke (l : list Z) (off : Z) (bs : list Z) : res (list Z) :=
  if (0 <=? off) && (off + Z.of_nat (length bs) <=? Z.of_nat (length l))
  then Ok (take (Z.to_nat off) l ++ bs ++ drop (Z.to_nat off + length bs) l)
  else Stop OutOfBounds.

(** ** Register files *)

Record RegFile := mkRegFile {
  rf_data : list Z;
  rf_size : Z;
  rf_regShift : Z;
  rf_regBytes : Z;
}.
Implicit Types (rf : RegFile).

(** [RegFile(info)], with the number and the size of the registers of the class *)
Definition newRegFile (numRegs regBytes : Z) : res RegFile :=
  shift ← ceilLog2 regBytes;
  Ok (mkRegFile (replicate (Z.to_nat (Z.shiftl numRegs shift)) 0) numRegs shift regBytes).
(** [reg(idx)] of 64 bits, read and assigned *)
Definition rf_reg (idx : Z) rf : res Z :=
  check ((8 =? rf_regBytes rf) && (idx <? rf_size rf));
  bs ← peek (rf_data rf) (Z.shiftl idx (rf_regShift rf)) 8;
  Ok (ofBytes bs).
Definition rf_setReg (idx val : Z) rf : res RegFile :=
  check ((8 =? rf_regBytes rf) && (idx <? rf_size rf));
  l ← poke (rf_data rf) (Z.shiftl idx (rf_regShift rf)) (toBytes 8 val);
  Ok (mkRegFile l (rf_size rf) (rf_regShift rf) (rf_regBytes rf)).
(** [get(idx, val)] and [set(idx, val)] *)
Definition rf_get (idx : Z) rf : res (list Z) := peek (rf_data rf) (Z.shiftl idx (rf_regShift rf)) (rf_regBytes rf).
Definition rf_set (idx : Z) (val : list Z) rf : res RegFile :=
  l ← poke (rf_data rf) (Z.shiftl idx (rf_regShift rf)) (take (Z.to_nat (rf_regBytes rf)) val);
  Ok (mkRegFile l (rf_size rf) (rf_regShift rf) (rf_regBytes rf)).
(** [clear()] *)
Definition rf_clear rf : RegFile :=
  mkRegFile (replicate (length (rf_data rf)) 0) (rf_size rf) (rf_regShift rf) (rf_regBytes rf).

(** ** Threads *)

Section thread.
Context `{I : Isa}.

Record SimpleThread := mkThread {
  regFiles : list RegFile;
  st_pcState : PCState;
  st_predicate : bool;
  st_memAccPredicate : bool;
}.
Implicit Types (t : SimpleThread) (si : StaticInst).

(** [SimpleThread(...)]: the classes are those of the ISA, up to [CCRegClass] *)
Definition newThread (regClasses : list (Z * Z)) (pc0 : PCState) : res SimpleThread :=
  fs ← mfold (λ fs c, f ← newRegFile (fst c) (snd c); Ok (fs ++ [f])) [] (take 6 regClasses);
  if negb (Nat.eqb (length fs) 6) then Stop OutOfBounds
  else Ok (mkThread (rf_clear <$> fs) pc0 true true).

(** [reg.classValue()] as an index *)
Definition classValue (c : RegClassType) : Z :=
  match c with
  | IntRegClass => 0 | FloatRegClass => 1 | VecRegClass => 2 | VecElemClass => 3 | VecPredRegClass => 4
  | CCRegClass => 5 | MiscRegClass => 6 | InvalidRegClass => -1
  end.
(** [reg.is(c)] *)
Definition reg_is (r : RegId) (c : RegClassType) : bool := bool_decide (regClass r = c).

Variable flattenRegId : RegId → RegId.

(** [getReg(arch_reg)] *)
Definition getReg (arch_reg : RegId) t : res Z :=
  let reg := flattenRegId arch_reg in
  rf ← vget (regFiles t) (classValue (regClass reg));
  rf_reg (regIdx reg) rf.
(** the file of a class is replaced *)
Definition st_setFile (c : RegClassType) rf t : res SimpleThread :=
  l ← vset (regFiles t) (classValue c) rf;
  Ok (mkThread l (st_pcState t) (st_predicate t) (st_memAccPredicate t)).
(** [setReg(arch_reg, val)] *)
Definition setReg (arch_reg : RegId) (val : Z) t : res SimpleThread :=
  let reg := flattenRegId arch_reg in
  if reg_is reg InvalidRegClass then Ok t
  else
    rf ← vget (regFiles t) (classValue (regClass reg));
    rf ← rf_setReg (regIdx reg) val rf;
    st_setFile (regClass reg) rf t.
(** [getReg(arch_reg, val)] and [setReg(arch_reg, val)] of bytes *)
Definition getRegBytes (arch_reg : RegId) t : res (list Z) :=
  let reg := flattenRegId arch_reg in
  rf ← vget (regFiles t) (classValue (regClass reg));
  rf_get (regIdx reg) rf.
Definition setRegBytes (arch_reg : RegId) (val : list Z) t : res SimpleThread :=
  let reg := flattenRegId arch_reg in
  rf ← vget (regFiles t) (classValue (regClass reg));
  rf ← rf_set (regIdx reg) val rf;
  st_setFile (regClass reg) rf t.
(** [clearArchRegs()], without the registers of the ISA *)
Definition clearArchRegs (pc0 : PCState) t : SimpleThread :=
  mkThread (rf_clear <$> regFiles t) pc0 (st_predicate t) (st_memAccPredicate t).

(** ** [ExecContext] *)

(** [getRegOperand(si, idx)] *)
Definition getRegOperand si (idx : Z) t : res Z :=
  reg ← vget (srcRegs si) idx;
  if reg_is reg InvalidRegClass then Ok 0 else getReg reg t.
(** [setRegOperand(si, idx, val)] *)
Definition setRegOperand si (idx val : Z) t : res SimpleThread :=
  reg ← vget (destRegs si) idx;
  if reg_is reg InvalidRegClass then Ok t else setReg reg val t.
(** [getRegOperand(si, idx, val)] and [setRegOperand(si, idx, val)] of bytes *)
Definition getRegOperandBytes si (idx : Z) t : res (list Z) := reg ← vget (srcRegs si) idx; getRegBytes reg t.
Definition setRegOperandBytes si (idx : Z) (val : list Z) t : res SimpleThread :=
  reg ← vget (destRegs si) idx; setRegBytes reg val t.
(** [setPredicate(val)], [setMemAccPredicate(val)] and [pcState(val)] *)
Definition xc_setPredicate (val : bool) t : SimpleThread := mkThread (regFiles t) (st_pcState t) val (st_memAccPredicate t).
Definition xc_setMemAccPredicate (val : bool) t : SimpleThread := mkThread (regFiles t) (st_pcState t) (st_predicate t) val.
Definition xc_pcState (val : PCState) t : SimpleThread := mkThread (regFiles t) val (st_predicate t) (st_memAccPredicate t).
(** what is not implemented *)
Definition initiateMemMgmtCmd (flags : Z) t : res Fault := Stop Panic.
Definition newHtmTransactionUid t : res Z := Stop Panic.
Definition getHtmTransactionUid t : res Z := Stop Panic.
Definition getHtmTransactionalDepth t : res Z := Stop Panic.
Definition inHtmTransactionalState t : bool := false.
End thread.

(** ** Lemmas on bytes *)

Lemma length_toBytes n v : length (toBytes n v) = n.
Proof. revert v. induction n as [|n IH]; intros v; cbn; [done|]. by rewrite IH. Qed.

Lemma ofBytes_toBytes n v : 0 ≤ v < 2 ^ (8 * Z.of_nat n) → ofBytes (toBytes n v) = v.
Proof.
  revert v. induction n as [|n IH]; intros v Hv; [cbn in *; lia|]. cbn [toBytes ofBytes foldr]. fold (ofBytes (toBytes n (v `div` 256))).
  rewrite IH.
  - pose proof (Z.div_mod v 256 ltac:(lia)). lia.
  - split; [apply Z.div_pos; lia|]. apply Z.div_lt_upper_bound; [lia|].
    replace (256 * 2 ^ (8 * Z.of_nat n)) with (2 ^ (8 * Z.of_nat (S n))); [lia|].
    rewrite Nat2Z.inj_succ, Z.mul_succ_r, Z.pow_add_r by lia. lia.
Qed.

Lemma peek_Ok l off n bs : peek l off n = Ok bs ↔ 0 ≤ off ∧ off + n ≤ Z.of_nat (length l) ∧ bs = take (Z.to_nat n) (drop (Z.to_nat off) l).
Proof.
  unfold peek. destruct (Z.leb_spec 0 off), (Z.leb_spec (off + n) (Z.of_nat (length l))); cbn; try (split; [done|lia]).
  split; [by intros [= <-]|by intros (_ & _ & ->)].
Qed.
Lemma peek_lt l off n : 0 ≤ off → off + n ≤ Z.of_nat (length l) → peek l off n = Ok (take (Z.to_nat n) (drop (Z.to_nat off) l)).
Proof. intros H1 H2. by apply peek_Ok. Qed.
Lemma poke_lt l off bs : 0 ≤ off → off + Z.of_nat (length bs) ≤ Z.of_nat (length l) →
  poke l off bs = Ok (take (Z.to_nat off) l ++ bs ++ drop (Z.to_nat off + length bs) l).
Proof. intros H1 H2. unfold poke. by rewrite (proj2 (Z.leb_le _ _) H1), (proj2 (Z.leb_le _ _) H2). Qed.
Lemma poke_Ok l off bs l' : poke l off bs = Ok l' →
  0 ≤ off ∧ off + Z.of_nat (length bs) ≤ Z.of_nat (length l) ∧ l' = take (Z.to_nat off) l ++ bs ++ drop (Z.to_nat off + length bs) l.
Proof.
  unfold poke. destruct (Z.leb_spec 0 off), (Z.leb_spec (off + Z.of_nat (length bs)) (Z.of_nat (length l))); cbn; try done. by intros [= <-].
Qed.

Lemma poke_length l off bs l' : poke l off bs = Ok l' → length l' = length l.
Proof. intros (H1 & H2 & ->)%poke_Ok. rewrite !length_app, length_take, length_drop. lia. Qed.

Lemma peek_poke_eq l off bs l' : poke l off bs = Ok l' → peek l' off (Z.of_nat (length bs)) = Ok bs.
Proof.
  intros H. pose proof (poke_length _ _ _ _ H) as Hl. apply poke_Ok in H as (H1 & H2 & ->). rewrite peek_lt by lia. f_equal.
  rewrite drop_app_length' by (rewrite length_take; lia). by rewrite Nat2Z.id, take_app_length.
Qed.

Lemma peek_poke_ne l off bs l' off2 n : poke l off bs = Ok l' → 0 ≤ n → off2 + n ≤ off ∨ off + Z.of_nat (length bs) ≤ off2 →
  peek l' off2 n = peek l off2 n.
Proof.
  intros H Hn Hd. pose proof (poke_length _ _ _ _ H) as Hl. apply poke_Ok in H as (H1 & H2 & E). unfold peek. rewrite Hl.
  destruct (Z.leb_spec 0 off2), (Z.leb_spec (off2 + n) (Z.of_nat (length l))); cbn; try done. f_equal. apply list_eq. intros k.
  destruct (decide (k < Z.to_nat n)%nat) as [Hk|Hk]; [|by rewrite !lookup_take_ge by lia]. rewrite !lookup_take_lt, !lookup_drop, E by done.
  destruct Hd as [Hd|Hd].
  - rewrite lookup_app_l by (rewrite length_take; lia). by rewrite lookup_take_lt by lia.
  - rewrite lookup_app_r by (rewrite length_take; lia). rewrite length_take. rewrite lookup_app_r by lia. rewrite lookup_drop. f_equal. lia.
Qed.

(** ** Register files of 64 bits *)

Record rf_ok (n : Z) rf : Prop := {
  fk_size : rf_size rf = n;
  fk_shift : rf_regShift rf = 3;
  fk_bytes : rf_regBytes rf = 8;
  fk_data : Z.of_nat (length (rf_data rf)) = 8 * n;
}.

Lemma rf_off rf n idx : rf_ok n rf → Z.shiftl idx (rf_regShift rf) = 8 * idx.
Proof. intros []. rewrite fk_shift0, Z.shiftl_mul_pow2 by lia. lia. Qed.

Lemma newRegFile_ok n : 0 ≤ n → returns (newRegFile n 8) (rf_ok n).
Proof.
  intros Hn. exists (mkRegFile (replicate (Z.to_nat (Z.shiftl n 3)) 0) n 3 8). split; [reflexivity|].
  split; [reflexivity..|]. cbn [rf_data]. rewrite length_replicate, Z.shiftl_mul_pow2 by lia. lia.
Qed.
Lemma rf_clear_ok n rf : rf_ok n rf → rf_ok n (rf_clear rf).
Proof. intros []. split; cbn; [done..|]. by rewrite length_replicate. Qed.
Lemma rf_clear_reg n rf idx : rf_ok n rf → 0 ≤ idx < n → rf_reg idx (rf_clear rf) = Ok 0.
Proof.
  intros Hr Hi. pose proof (rf_clear_ok n rf Hr) as Hc. unfold rf_reg. rewrite (rf_off _ n), (fk_bytes _ _ Hc), (fk_size _ _ Hc) by done.
  rewrite (proj2 (Z.ltb_lt _ _) (proj2 Hi)). cbn [andb assert_ rbind Z.eqb Pos.eqb rf_data rf_clear].
  pose proof (fk_data _ _ Hr). rewrite peek_lt by (rewrite ?length_replicate; lia). cbn [rbind]. f_equal. rewrite drop_replicate, take_replicate. by replace (Z.to_nat 8 `min` _)%nat with 8%nat by lia.
Qed.

Lemma rf_setReg_returns n rf idx val : rf_ok n rf → 0 ≤ idx < n → 0 ≤ val < 2 ^ 64 →
  returns (rf_setReg idx val rf) (λ rf', rf_ok n rf' ∧
    ∀ k, 0 ≤ k < n → rf_reg k rf' = if decide (k = idx) then Ok val else rf_reg k rf).
Proof.
  intros Hr Hi Hv. unfold rf_setReg. rewrite (rf_off _ n), (fk_bytes _ _ Hr), (fk_size _ _ Hr) by done.
  rewrite (proj2 (Z.ltb_lt _ _) (proj2 Hi)). cbn [andb assert_ rbind Z.eqb Pos.eqb]. pose proof (fk_data _ _ Hr) as Hd.
  pose proof (length_toBytes 8 val) as Hl. destruct (poke (rf_data rf) (8 * idx) (toBytes 8 val)) as [l|] eqn:E; [|rewrite poke_lt in E by lia; done].
  cbn [rbind]. apply returns_ret. pose proof (poke_length _ _ _ _ E) as Hl'.
  assert (rf_ok n (mkRegFile l n (rf_regShift rf) 8)) as Hr' by (destruct Hr; split; cbn; lia).
  split; [done|]. intros k Hk. unfold rf_reg. rewrite (rf_off _ n _ Hr'), (rf_off _ n _ Hr), (fk_bytes _ _ Hr), (fk_size _ _ Hr).
  cbn [rf_size rf_regBytes rf_data]. rewrite (proj2 (Z.ltb_lt _ _) (proj2 Hk)). cbn [andb assert_ rbind Z.eqb Pos.eqb].
  destruct (decide (k = idx)) as [->|Hne].
  - pose proof (peek_poke_eq _ _ _ _ E) as Hp. rewrite Hl in Hp. change (Z.of_nat 8) with 8 in Hp. rewrite Hp. cbn [rbind].
    by rewrite ofBytes_toBytes.
  - rewrite (peek_poke_ne _ _ _ _ (8 * k) 8 E); [done|lia|]. rewrite Hl. lia.
Qed.

(** ** Threads *)

Section history.
Context `{I : Isa}.
Variable flattenRegId : RegId → RegId.
Variable sizes : list Z.       (* the numbers of registers of the classes *)
Implicit Types (t : SimpleThread).

Record thread_ok t : Prop := {
  hk_files : length (regFiles t) = 6%nat;
  hk_file c rf : vget (regFiles t) c = Ok rf → ∃ n, vget sizes c = Ok n ∧ rf_ok n rf;
}.

(** a register that exists *)
Definition regOk (r : RegId) : Prop :=
  let reg := flattenRegId r in
  0 ≤ classValue (regClass reg) < 6 ∧ ∃ n, vget sizes (classValue (regClass reg)) = Ok n ∧ 0 ≤ regIdx reg < n.

Lemma classValue_inj c c' : classValue c = classValue c' → c = c'.
Proof. by destruct c, c'. Qed.

Lemma setReg_returns r val t : thread_ok t → regOk r → 0 ≤ val < 2 ^ 64 →
  returns (setReg flattenRegId r val t) (λ t', thread_ok t' ∧
    ∀ r', regOk r' → getReg flattenRegId r' t' = if decide (flattenRegId r' = flattenRegId r) then Ok val else getReg flattenRegId r' t).
Proof.
  intros Ht (Hc & n & Hn & Hi) Hv. pose proof Ht as [Hlen Hfile]. unfold setReg.
  assert (reg_is (flattenRegId r) InvalidRegClass = false) as ->.
  { unfold reg_is. apply bool_decide_eq_false. intros E. rewrite E in Hc. cbn in Hc. lia. }
  destruct (vget_lt (regFiles t) (classValue (regClass (flattenRegId r)))) as (rf & Hrf); [lia|]. rewrite Hrf. cbn.
  destruct (Hfile _ _ Hrf) as (n' & Hn' & Hok). rewrite Hn in Hn'. injection Hn' as <-.
  destruct (rf_setReg_returns n rf (regIdx (flattenRegId r)) val Hok Hi Hv) as (rf' & -> & Hok' & Hget). cbn.
  unfold st_setFile. destruct (vset (regFiles t) (classValue (regClass (flattenRegId r))) rf') as [l|] eqn:Hset; [|rewrite vset_lt in Hset by lia; done].
  cbn. apply returns_ret. split.
  - split; cbn; [by rewrite (vset_length _ _ _ _ Hset)|]. intros c rf0 Hg.
    destruct (vset_cases _ _ _ _ _ _ Hset Hg) as [[-> ->]|[_ Hg']]; [by exists n|by apply Hfile].
  - intros r' (Hc' & n' & Hn' & Hi'). unfold getReg. cbn. destruct (decide (flattenRegId r' = flattenRegId r)) as [E|E].
    + rewrite E, (vget_vset_eq _ _ _ _ Hset). cbn. rewrite Hget by done. by rewrite decide_True.
    + destruct (decide (classValue (regClass (flattenRegId r)) = classValue (regClass (flattenRegId r')))) as [Ec|Ec].
      * rewrite <- Ec, (vget_vset_eq _ _ _ _ Hset), Hrf. cbn. rewrite <- Ec, Hn in Hn'. injection Hn' as <-. rewrite Hget by done.
        rewrite decide_False; [done|]. intros Eidx. apply E. apply classValue_inj in Ec.
        destruct (flattenRegId r), (flattenRegId r'). cbn in *. congruence.
      * by rewrite (vget_vset_ne _ _ _ _ _ Hset) by done.
Qed.

(** *** Operands *)

(** a write of a destination operand *)
Record write := mkWrite { wr_inst : StaticInst; wr_idx : Z; wr_val : Z }.

Definition operandOk (regs : list RegId) (idx : Z) : Prop :=
  ∃ r, vget regs idx = Ok r ∧ (regClass r = InvalidRegClass ∨ regOk r).
Definition writeOk (w : write) : Prop := operandOk (destRegs (wr_inst w)) (wr_idx w) ∧ 0 ≤ wr_val w < 2 ^ 64.

Definition writes (ws : list write) t : res SimpleThread :=
  mfold (λ t w, setRegOperand flattenRegId (wr_inst w) (wr_idx w) (wr_val w) t) t ws.

(** what the writes, the newest first, say of a register *)
Fixpoint lastWrite (ws : list write) (r : RegId) : Z :=
  match ws with
  | [] => 0
  | w :: ws =>
      match vget (destRegs (wr_inst w)) (wr_idx w) with
      | Ok r' => if negb (reg_is r' InvalidRegClass) && bool_decide (flattenRegId r' = flattenRegId r) then wr_val w else lastWrite ws r
      | Stop _ => lastWrite ws r
      end
  end.

Lemma setRegOperand_returns w t : thread_ok t → writeOk w →
  returns (setRegOperand flattenRegId (wr_inst w) (wr_idx w) (wr_val w) t) (λ t', thread_ok t' ∧
    ∀ ws r, regOk r → getReg flattenRegId r t = Ok (lastWrite ws r) → getReg flattenRegId r t' = Ok (lastWrite (w :: ws) r)).
Proof.
  intros Ht [(r' & Hr' & Hok) Hv]. unfold setRegOperand. cbn [lastWrite]. rewrite Hr'. cbn.
  destruct (reg_is r' InvalidRegClass) eqn:Hinv; cbn; [by apply returns_ret|].
  destruct Hok as [E|Hok]; [by apply bool_decide_eq_false in Hinv|].
  eapply returns_conseq; [by apply setReg_returns|]. intros t' [Ht' Hget]. split; [done|]. intros ws r Hr Hold.
  rewrite Hget by done. destruct (decide (flattenRegId r = flattenRegId r')) as [E|E].
  - by rewrite bool_decide_true.
  - by rewrite bool_decide_false by congruence.
Qed.

Lemma writes_refine ws t : thread_ok t → (∀ r, regOk r → getReg flattenRegId r t = Ok 0) → Forall writeOk ws →
  ∃ t', writes ws t = Ok t' ∧ thread_ok t' ∧ ∀ r, regOk r → getReg flattenRegId r t' = Ok (lastWrite (reverse ws) r).
Proof.
  intros Ht H0 Hw. induction ws as [|w ws IH] using rev_ind; [by exists t|]. apply Forall_app in Hw as [Hws Hw].
  apply Forall_cons in Hw as [Hw _]. destruct (IH Hws) as (t1 & E1 & Ht1 & Hg1).
  destruct (setRegOperand_returns w t1 Ht1 Hw) as (t2 & E2 & Ht2 & Hg2). exists t2. unfold writes in *. rewrite mfold_app, E1. cbn. rewrite E2. cbn.
  split_and!; [done..|]. intros r Hr. rewrite reverse_snoc. by apply Hg2, Hg1.
Qed.

Lemma newFiles_ok (cs : list (Z * Z)) fs0 : Forall (λ c, 0 ≤ fst c ∧ snd c = 8) cs →
  ∃ fs, mfold (λ fs c, f ← newRegFile (fst c) (snd c); Ok (fs ++ [f])) fs0 cs = Ok (fs0 ++ fs) ∧ Forall2 (λ c f, rf_ok (fst c) f) cs fs.
Proof.
  intros H. revert fs0. induction H as [|[n b] cs [Hn Hb] _ IH]; intros fs0; [exists []; by rewrite app_nil_r|].
  cbn in Hn, Hb. subst b. destruct (newRegFile_ok n Hn) as (f & Ef & Hf). destruct (IH (fs0 ++ [f])) as (fs & E & Hfs).
  exists (f :: fs). cbn [mfold fst snd]. rewrite Ef. cbn [rbind]. rewrite E. rewrite <- (assoc_L (++)). by split; [|constructor].
Qed.

Lemma newThread_ok (cs : list (Z * Z)) pc0 : (6 ≤ length cs)%nat → Forall (λ c, 0 ≤ fst c ∧ snd c = 8) cs → sizes = fst <$> take 6 cs →
  returns (newThread cs pc0) (λ t, thread_ok t ∧ ∀ r, regOk r → getReg flattenRegId r t = Ok 0).
Proof.
  intros Hlen Hcs Hsz. unfold newThread. destruct (newFiles_ok (take 6 cs) []) as (fs & -> & Hfs); [by apply Forall_take|]. cbn [app rbind].
  pose proof (Forall2_length _ _ _ Hfs) as Hl. rewrite length_take in Hl. replace (length fs) with 6%nat by lia. cbn [Nat.eqb negb]. apply returns_ret.
  assert (∀ c rf, vget fs c = Ok rf → ∃ n, vget sizes c = Ok n ∧ rf_ok n rf) as Hf.
  { intros c rf [Hc Hrf]%vget_Ok. destruct (Forall2_lookup_r _ _ _ _ _ Hfs Hrf) as ([n b] & Hn & Hok). exists n. split; [|done].
    apply vget_Ok. split; [done|]. by rewrite Hsz, list_lookup_fmap, Hn. }
  split.
  - split; cbn; [rewrite length_fmap; lia|]. intros c rf. rewrite vget_fmap. intros (rf0 & H0 & [= <-])%bind_Ok.
    destruct (Hf c rf0 H0) as (n & Hn & Hok). exists n. split; [done|by apply rf_clear_ok].
  - intros r (Hc & n & Hn & Hi). unfold getReg. cbn [regFiles]. rewrite vget_fmap.
    destruct (vget_lt fs (classValue (regClass (flattenRegId r)))) as (rf & Hrf); [lia|]. rewrite Hrf. cbn [rbind].
    destruct (Hf _ _ Hrf) as (n' & Hn' & Hok). rewrite Hn in Hn'. injection Hn' as <-. by apply (rf_clear_reg n).
Qed.

(** C16: The registers are the history of the writes.  In a thread with
    registers of 64 bits, after any writes through destination operands every
    source operand reads the newest value written to its register (of its
    class, after flattening), 0 if there is none or the operand is invalid,
    although all registers of a class lie in one vector of bytes; no access
    leaves the vectors. *)
Theorem registers_refine_history (cs : list (Z * Z)) pc0 ws si idx : (6 ≤ length cs)%nat → Forall (λ c, 0 ≤ fst c ∧ snd c = 8) cs →
  sizes = fst <$> take 6 cs → Forall writeOk ws → operandOk (srcRegs si) idx →
  ∃ t0 t r, newThread cs pc0 = Ok t0 ∧ writes ws t0 = Ok t ∧ vget (srcRegs si) idx = Ok r ∧
    getRegOperand flattenRegId si idx t = Ok (if reg_is r InvalidRegClass then 0 else lastWrite (reverse ws) r).
Proof.
  intros Hlen Hcs Hsz Hws (r & Hr & Hok). destruct (newThread_ok cs pc0 Hlen Hcs Hsz) as (t0 & E0 & Ht0 & H0).
  destruct (writes_refine ws t0 Ht0 H0 Hws) as (t & E & Ht & Hg). exists t0, t, r. split_and!; [done..|].
  unfold getRegOperand. rewrite Hr. cbn. destruct (reg_is r InvalidRegClass) eqn:Hinv; [done|].
  destruct Hok as [Hok|Hok]; [by apply bool_decide_eq_false in Hinv|]. by apply Hg.
Qed.
End history.

Section witness.
#[local] Existing Instance Toy.isa.

Definition toyWrites : list (write (I := Toy.isa)) :=
  [mkWrite (I := Toy.isa) Toy.alu 0 7; mkWrite (I := Toy.isa) Toy.ld 0 9; mkWrite (I := Toy.isa) Toy.alu 0 11].

Lemma registers_refine_history_witness : ∃ t0 t, newThread [(33, 8); (32, 8); (1, 8); (2, 8); (1, 8); (0, 8); (122, 8)] (0, 0) = Ok t0 ∧
  writes (λ r, r) toyWrites t0 = Ok t ∧
  getRegOperand (I := Toy.isa) (λ r, r) Toy.st 1 t = Ok 11.
Proof.
  assert (∀ k, 0 ≤ k < 33 → regOk (λ r, r) [33; 32; 1; 2; 1; 0] (mkRegId IntRegClass k)) as Hreg.
  { intros k Hk. split; [cbn; lia|]. exists 33. split; [reflexivity|]. exact Hk. }
  destruct (registers_refine_history (I := Toy.isa) (λ r, r) [33; 32; 1; 2; 1; 0] [(33, 8); (32, 8); (1, 8); (2, 8); (1, 8); (0, 8); (122, 8)] (0, 0) toyWrites Toy.st 1)
    as (t0 & t & r & E0 & E1 & Er & Eg).
  - cbn. lia.
  - repeat constructor; cbn; lia.
  - reflexivity.
  - repeat constructor; try (cbn; lia); (eexists; split; [reflexivity|right; apply Hreg; lia]).
  - eexists. split; [reflexivity|right; apply Hreg; lia].
  - exists t0, t. split; [exact E0|]. split; [exact E1|]. rewrite Eg. vm_compute in Er. injection Er as <-. vm_compute. reflexivity.
Defined.
End witness.
