(* ===== verification/Scoreboard.v ===== *)
(** * The register scoreboard (src/cpu/myminor/scoreboard.cc, scoreboard.hh)

    [Scoreboard] keeps, for every register, the number of instructions in
    flight that will write it, how many of them have an unpredictable result
    time, the functional unit and the execute sequence number of the youngest
    writer and the cycle at which its result is expected.

    Register renaming by the thread context ([flattenRegId]) is an argument. *)
From S2P Require Import Prelude Buffers LVPT PipeData.

(** ** Data *)

Definition invalidFUIndex : Z := -1.

Record Scoreboard := mkScoreboard {
  floatRegOffset : Z;
  ccRegOffset : Z;
  vecRegOffset : Z;
  vecPredRegOffset : Z;
  numRegs : Z;
  numResults : list Z;
  numUnpredictableResults : list Z;
  fuIndices : list Z;
  returnCycle : list Z;
  writingInst : list Z;
}.

(** [Scoreboard(name, reg_classes)]; the arguments are the sizes of the classes *)
Definition newScoreboard (ints floats ccs vecElems vecPreds : Z) : Scoreboard :=
  let floatRegOffset := u32 ints in
  let ccRegOffset := u32 (floatRegOffset + floats) in
  let vecRegOffset := u32 (ccRegOffset + ccs) in
  let vecPredRegOffset := u32 (vecRegOffset + vecElems) in
  let numRegs := u32 (vecPredRegOffset + vecPreds) in
  let fill x := replicate (Z.to_nat numRegs) x in
  mkScoreboard floatRegOffset ccRegOffset vecRegOffset vecPredRegOffset numRegs
    (fill 0) (fill 0) (fill invalidFUIndex) (fill 0) (fill 0).

(** ** Operations *)

(** [bool findIndex(const RegId& reg, Index &scoreboard_index)]; the index is
    an [unsigned short] *)
Definition findIndex (sb : Scoreboard) (reg : RegId) : option Z :=
  match regClass reg with
  | IntRegClass => Some (u16 (regIdx reg))
  | FloatRegClass => Some (u16 (floatRegOffset sb + regIdx reg))
  | VecRegClass | VecElemClass => Some (u16 (vecRegOffset sb + regIdx reg))
  | VecPredRegClass => Some (u16 (vecPredRegOffset sb + regIdx reg))
  | CCRegClass => Some (u16 (ccRegOffset sb + regIdx reg))
  | MiscRegClass => None
  | InvalidRegClass => None
  end.

(** The five vectors at one register. *)
Record SbEntry := mkSbEntry {
  results : Z;
  unpredictable : Z;
  fu : Z;
  cycle : Z;
  writer : Z;
}.

Definition sb_get (sb : Scoreboard) (i : Z) : res SbEntry :=
  a ← vget (numResults sb) i; b ← vget (numUnpredictableResults sb) i;
  c ← vget (fuIndices sb) i; d ← vget (returnCycle sb) i; e ← vget (writingInst sb) i;
  Ok (mkSbEntry a b c d e).

Definition sb_put (sb : Scoreboard) (i : Z) (x : SbEntry) : res Scoreboard :=
  a ← vset (numResults sb) i (results x); b ← vset (numUnpredictableResults sb) i (unpredictable x);
  c ← vset (fuIndices sb) i (fu x); d ← vset (returnCycle sb) i (cycle x);
  e ← vset (writingInst sb) i (writer x);
  Ok (mkScoreboard (floatRegOffset sb) (ccRegOffset sb) (vecRegOffset sb) (vecPredRegOffset sb)
        (numRegs sb) a b c d e).

(** the effect of [markupInstDests] on the entry of one destination *)
Definition markEntry (execSeq fuIdx retire_time : Z) (mark_unpredictable : bool) (x : SbEntry) : SbEntry :=
  let newer := writer x <? execSeq in
  mkSbEntry (u16 (results x + 1))
    (if mark_unpredictable then u16 (unpredictable x + 1) else unpredictable x)
    (if newer then fuIdx else fu x) retire_time
    (if newer then execSeq else writer x).

(** the effect of [clearInstDests] on the entry of one destination *)
Definition clearEntry (clear_unpredictable : bool) (x : SbEntry) : SbEntry :=
  let n := u16 (results x - 1) in
  let u := if clear_unpredictable && negb (unpredictable x =? 0)
           then u16 (unpredictable x - 1) else unpredictable x in
  if n =? 0 then mkSbEntry n u invalidFUIndex 0 0
  else mkSbEntry n u (fu x) (cycle x) (writer x).

Section ops.
Context `{I : Isa} (flatten : RegId → RegId).
Notation DynInst := (MyMinorDynInst I).

Definition with_flat (f : list RegId) (e : ExecFields) : ExecFields :=
  mkExecFields (fuIndex e) (inLSQ e) (translationFault e) (inStoreBuffer e) (canEarlyIssue e)
    (predicate e) (memAccPredicate e) (instToWaitFor e) (extraCommitDelay e)
    (extraCommitDelayExpr e) (minimumCommitCycle e) f.

(** one round of the loop of [markupInstDests] *)
Definition markDest (execSeq fuIdx retire_time : Z) (unp : bool)
    (s : Scoreboard * list RegId) (kr : nat * RegId) : res (Scoreboard * list RegId) :=
  let '(sb, flat) := s in
  let '(dest_index, dest) := kr in
  let reg := flatten dest in
  match findIndex sb reg with
  | Some index =>
      x ← sb_get sb index;
      flat ← vset flat (Z.of_nat dest_index) reg;
      sb ← sb_put sb index (markEntry execSeq fuIdx retire_time unp x);
      Ok (sb, flat)
  | None => flat ← vset flat (Z.of_nat dest_index) RegId0; Ok (sb, flat)
  end.

(** [void markupInstDests(inst, retire_time, thread_context, mark_unpredictable)] *)
Definition markupInstDests (sb : Scoreboard) (inst : DynInst) (retire_time : Z) (unp : bool)
  : res (Scoreboard * DynInst) :=
  if isFault inst then Ok (sb, inst)
  else
    ' (sb, flat) ← mfold (markDest (execSeqNum (id inst)) (fuIndex (ex inst)) retire_time unp)
                     (sb, flatDestRegIdx (ex inst)) (imap pair (destRegs (staticInst inst)));
    Ok (sb, with_ex (with_flat flat) inst).

(** one round of the loop of [clearInstDests] *)
Definition clearDest (flat : list RegId) (unp : bool) (sb : Scoreboard) (dest_index : Z) : res Scoreboard :=
  reg ← vget flat dest_index;
  match findIndex sb reg with
  | Some index => x ← sb_get sb index; sb_put sb index (clearEntry unp x)
  | None => Ok sb
  end.

(** [void clearInstDests(inst, clear_unpredictable)] *)
Definition clearInstDests (sb : Scoreboard) (inst : DynInst) (unp : bool) : res Scoreboard :=
  if isFault inst then Ok sb
  else mfold (clearDest (flatDestRegIdx (ex inst)) unp) sb
         (zrange 0 (Z.of_nat (length (destRegs (staticInst inst))) - 1)).

(** [InstSeqNum execSeqNumToWaitFor(inst, thread_context)] *)
Definition execSeqNumToWaitFor (sb : Scoreboard) (inst : DynInst) : res Z :=
  if isFault inst then Ok 0
  else mfold (λ ret src,
         match findIndex sb (flatten src) with
         | Some index => w ← vget (writingInst sb) index; Ok (if ret <? w then w else ret)
         | None => Ok ret
         end) 0 (srcRegs (staticInst inst)).

(** the relative latency that applies to source [src_index] *)
Definition relativeLatency (lats : list Z) (cant_forward : bool) (src_index : nat) : Z :=
  if cant_forward then 0
  else match lats !! src_index with
       | Some l => l
       | None => default 0 (last lats)
       end.

(** the [while] loop of [canInstIssue] *)
Fixpoint canIssueLoop (sb : Scoreboard) (lats : list Z) (cantForward : list bool) (now : Z)
    (src_index : nat) (srcs : list RegId) : res bool :=
  match srcs with
  | [] => Ok true
  | src :: srcs =>
      match findIndex sb (flatten src) with
      | Some index =>
          src_reg_fu ← vget (fuIndices sb) index;
          let cant_forward :=
            negb (src_reg_fu =? invalidFUIndex) &&
            match cantForward !! Z.to_nat src_reg_fu with Some b => b | None => false end in
          rc ← vget (returnCycle sb) index;
          nu ← vget (numUnpredictableResults sb) index;
          if (u64 (now + relativeLatency lats cant_forward src_index) <? rc) || negb (nu =? 0)
          then Ok false
          else canIssueLoop sb lats cantForward now (S src_index) srcs
      | None => canIssueLoop sb lats cantForward now (S src_index) srcs
      end
  end.

(** [bool canInstIssue(inst, src_reg_relative_latencies,
    cant_forward_from_fu_indices, now, thread_context)]; a null vector is [[]] *)
Definition canInstIssue (sb : Scoreboard) (inst : DynInst) (lats : list Z) (cantForward : list bool)
    (now : Z) : res bool :=
  if isFault inst then Ok true
  else canIssueLoop sb lats cantForward now 0 (srcRegs (staticInst inst)).
End ops.

(** ** Well-formedness and access *)

Record sb_wf (sb : Scoreboard) : Prop := {
  sbw_num : 0 ≤ numRegs sb ≤ 2 ^ 16;
  sbw_1 : Z.of_nat (length (numResults sb)) = numRegs sb;
  sbw_2 : Z.of_nat (length (numUnpredictableResults sb)) = numRegs sb;
  sbw_3 : Z.of_nat (length (fuIndices sb)) = numRegs sb;
  sbw_4 : Z.of_nat (length (returnCycle sb)) = numRegs sb;
  sbw_5 : Z.of_nat (length (writingInst sb)) = numRegs sb;
}.

(** The constants of a scoreboard, which no operation changes. *)
Definition same_layout (a b : Scoreboard) : Prop :=
  floatRegOffset a = floatRegOffset b ∧ ccRegOffset a = ccRegOffset b
  ∧ vecRegOffset a = vecRegOffset b ∧ vecPredRegOffset a = vecPredRegOffset b
  ∧ numRegs a = numRegs b.

#[export] Instance same_layout_equiv : Equivalence same_layout.
Proof. split; unfold same_layout; red; intuition congruence. Qed.

#[export] Instance findIndex_proper : Proper (same_layout ==> eq ==> eq) findIndex.
Proof. intros a b (H1 & H2 & H3 & H4 & _) r ? <-. unfold findIndex. by rewrite H1, H2, H3, H4. Qed.

Lemma sb_get_Ok sb i : sb_wf sb → 0 ≤ i < numRegs sb → ∃ x, sb_get sb i = Ok x.
Proof.
  intros [_ H1 H2 H3 H4 H5] Hi. unfold sb_get.
  destruct (vget_lt (numResults sb) i) as (? & ->); [lia|].
  destruct (vget_lt (numUnpredictableResults sb) i) as (? & ->); [lia|].
  destruct (vget_lt (fuIndices sb) i) as (? & ->); [lia|].
  destruct (vget_lt (returnCycle sb) i) as (? & ->); [lia|].
  destruct (vget_lt (writingInst sb) i) as (? & ->); [lia|]. by eexists.
Qed.

Lemma sb_get_fields sb i x : sb_get sb i = Ok x →
  vget (numResults sb) i = Ok (results x) ∧ vget (numUnpredictableResults sb) i = Ok (unpredictable x)
  ∧ vget (fuIndices sb) i = Ok (fu x) ∧ vget (returnCycle sb) i = Ok (cycle x)
  ∧ vget (writingInst sb) i = Ok (writer x).
Proof. unfold sb_get. intros H. res_inv. done. Qed.

Lemma sb_get_range sb i x : sb_wf sb → sb_get sb i = Ok x → 0 ≤ i < numRegs sb.
Proof.
  intros [_ H1 _ _ _ _] H. apply sb_get_fields in H as [H _]. apply vget_bound in H. lia.
Qed.

Lemma sb_put_Ok sb i x : sb_wf sb → 0 ≤ i < numRegs sb →
  ∃ sb', sb_put sb i x = Ok sb' ∧ sb_wf sb' ∧ same_layout sb' sb
    ∧ sb_get sb' i = Ok x ∧ ∀ j, j ≠ i → sb_get sb' j = sb_get sb j.
Proof.
  intros [H0 H1 H2 H3 H4 H5] Hi. unfold sb_put. rewrite !vset_lt by lia. cbn [rbind].
  eexists. split; [done|]. split; [split; cbn; rewrite ?length_insert; done|].
  split; [done|]. unfold sb_get. cbn. split.
  - rewrite !vget_insert_eq by lia. cbn. by destruct x.
  - intros j Hj. by rewrite !vget_insert_ne by (done || lia).
Qed.

(** ** In-flight writes

    One element for every tracked destination of every instruction in flight. *)
Record write := mkWrite { w_idx : Z; w_exec : Z; w_unp : bool }.

Definition writers (W : list write) (i : Z) : Z := countb (λ w, w_idx w =? i) W.
Definition unpWriters (W : list write) (i : Z) : Z := countb (λ w, (w_idx w =? i) && w_unp w) W.

(** The entry of a register that nothing in flight writes. *)
Definition freeEntry : SbEntry := mkSbEntry 0 0 invalidFUIndex 0 0.

(** What an entry says about the writes in flight; [m] where all flags have
    matched so far. *)
Record entry_ok (m : bool) (W : list write) (i : Z) (x : SbEntry) : Prop := {
  eo_res : results x = writers W i;
  eo_unp : 0 ≤ unpredictable x ≤ unpWriters W i;
  eo_exact : m = true → unpredictable x = unpWriters W i;
  eo_free : writers W i = 0 → x = freeEntry;
  eo_wr : ∀ w, w ∈ W → w_idx w = i → w_exec w ≤ writer x;
}.

Record sb_inv (m : bool) (sb : Scoreboard) (W : list write) : Prop := {
  si_wf : sb_wf sb;
  si_ent : ∀ i x, sb_get sb i = Ok x → entry_ok m W i x;
}.

Lemma entry_ok_weaken (m m' : bool) W i x : (m' = true → m = true) → entry_ok m W i x → entry_ok m' W i x.
Proof. intros Hm [H1 H2 H3 H4 H5]. split; auto. Qed.

Lemma unpWriters_le W i : unpWriters W i ≤ writers W i.
Proof.
  induction W as [|w W IH]; [done|]. unfold writers, unpWriters in *. rewrite !countb_cons.
  destruct (w_idx w =? i), (w_unp w); cbn; lia.
Qed.

Lemma entry_ok_perm m W W' i x : W ≡ₚ W' → entry_ok m W i x → entry_ok m W' i x.
Proof.
  intros Hp [H1 H2 H3 H4 H5]. unfold writers, unpWriters in *.
  split; unfold writers, unpWriters; rewrite <- ?(countb_perm _ _ _ Hp); try done.
  intros w Hw. apply H5. by rewrite Hp.
Qed.

#[export] Instance sb_inv_perm : Proper (eq ==> eq ==> (≡ₚ) ==> iff) sb_inv.
Proof.
  intros m ? <- sb ? <- W W' Hp. split; intros [Hwf He]; split; try done; intros i x Hx;
    (eapply entry_ok_perm; [|by apply He]); [done|by symmetry].
Qed.

Lemma entry_ok_other m w W i x : w_idx w ≠ i → entry_ok m (w :: W) i x ↔ entry_ok m W i x.
Proof.
  intros Hne. assert (writers (w :: W) i = writers W i ∧ unpWriters (w :: W) i = unpWriters W i) as [E1 E2].
  { unfold writers, unpWriters. rewrite !countb_cons. destruct (Z.eqb_spec (w_idx w) i); [done|].
    cbn. lia. }
  split; intros [H1 H2 H3 H4 H5]; split; rewrite ?E1, ?E2 in *; try done.
  - intros w' Hw'. apply H5. by right.
  - intros w' Hw' Hi. apply elem_of_cons in Hw' as [->|Hw']; [done|by apply H5].
Qed.

Lemma markEntry_ok m W i x e f r u : Z.of_nat (length W) < 2 ^ 16 - 1 →
  entry_ok m W i x → entry_ok m (mkWrite i e u :: W) i (markEntry e f r u x).
Proof.
  intros Hlen [H1 H2 H3 H4 H5]. pose proof (countb_nonneg (λ w, w_idx w =? i) W) as Hp.
  pose proof (countb_le_length (λ w, w_idx w =? i) W) as Hq.
  pose proof (countb_nonneg (λ w, (w_idx w =? i) && w_unp w) W) as Hp'.
  pose proof (countb_le_length (λ w, (w_idx w =? i) && w_unp w) W) as Hq'.
  unfold writers, unpWriters in *. split; unfold writers, unpWriters; rewrite ?countb_cons; cbn;
    rewrite ?Z.eqb_refl; cbn.
  - rewrite u16_id by lia. lia.
  - destruct u; cbn; [rewrite u16_id by lia|]; lia.
  - intros Hm. specialize (H3 Hm). destruct u; cbn; [rewrite u16_id by lia|]; lia.
  - lia.
  - intros w Hw Hi. apply elem_of_cons in Hw as [->|Hw]; cbn.
    + destruct (Z.ltb_spec (writer x) e); lia.
    + specialize (H5 w Hw Hi). destruct (Z.ltb_spec (writer x) e); lia.
Qed.

(** A clear flag that keeps the count of unpredictable results exact: the flag
    of the markup, or there is nothing else to take away. *)
Definition faithful (c u : bool) (W : list write) : Prop := c = u ∨ Forall (λ w, w_unp w = false) W.

Lemma unpWriters_none W i : Forall (λ w, w_unp w = false) W → unpWriters W i = 0.
Proof.
  induction 1 as [|w W Hw _ IH]; [done|]. unfold unpWriters in *. rewrite countb_cons, Hw, andb_false_r. cbn. lia.
Qed.

Lemma clearEntry_ok (m m' c : bool) W w x : Z.of_nat (length W) < 2 ^ 16 - 1 → (w_unp w = true → c = true) →
  (m' = true → m = true ∧ faithful c (w_unp w) W) →
  entry_ok m (w :: W) (w_idx w) x → entry_ok m' W (w_idx w) (clearEntry c x).
Proof.
  intros Hlen Hcu Hm [H1 H2 H3 H4 H5]. pose proof (countb_nonneg (λ v, w_idx v =? w_idx w) W) as Hp.
  pose proof (countb_le_length (λ v, w_idx v =? w_idx w) W) as Hq.
  pose proof (countb_nonneg (λ v, (w_idx v =? w_idx w) && w_unp v) W) as Hp'.
  pose proof (unpWriters_le W (w_idx w)) as Hle.
  pose proof (unpWriters_none W (w_idx w)) as Hnone.
  unfold writers, unpWriters in *. rewrite countb_cons, Z.eqb_refl in H1, H2, H3. cbn in H1, H2, H3.
  assert (u16 (results x - 1) = writers W (w_idx w)) as Hn
    by (unfold writers; rewrite u16_id by lia; lia).
  set (unp := if c && negb (unpredictable x =? 0) then u16 (unpredictable x - 1) else unpredictable x).
  assert (0 ≤ unp ≤ unpWriters W (w_idx w) ∧ (m' = true → unp = unpWriters W (w_idx w))) as [Hb He].
  { unfold unp, unpWriters. destruct (w_unp w); cbn in *.
    all: destruct c; [|try by specialize (Hcu eq_refl)].
    all: destruct (Z.eqb_spec (unpredictable x) 0) as [E|E]; cbn; try (rewrite u16_id by lia).
    all: (split; [lia|]); intros E'; destruct (Hm E') as [Em Hf]; specialize (H3 Em); try lia.
    all: destruct Hf as [Hf|Hf]; [done|]; specialize (Hnone Hf); lia. }
  unfold clearEntry. fold unp. clearbody unp. rewrite Hn. unfold writers, unpWriters in *.
  destruct (Z.eqb_spec (countb (λ v, w_idx v =? w_idx w) W) 0) as [Hz|Hz].
  - split; cbn; unfold writers, unpWriters; [done|done|done| |].
    + intros _. unfold freeEntry. f_equal; lia.
    + intros v Hv Hi. exfalso. enough (0 < countb (λ v, w_idx v =? w_idx w) W) by lia.
      apply list_elem_of_lookup in Hv as [j Hj]. apply countb_pos. exists j, v.
      split; [done|]. by apply Z.eqb_eq.
  - split; cbn; unfold writers, unpWriters; [done..|].
    intros v Hv. apply H5. by right.
Qed.

Lemma sb_mark m sb W i e f r u : sb_inv m sb W → 0 ≤ i < numRegs sb → Z.of_nat (length W) < 2 ^ 16 - 1 →
  ∃ x sb', sb_get sb i = Ok x ∧ sb_put sb i (markEntry e f r u x) = Ok sb'
    ∧ same_layout sb' sb ∧ sb_inv m sb' (mkWrite i e u :: W).
Proof.
  intros [Hwf He] Hi Hlen. destruct (sb_get_Ok sb i Hwf Hi) as (x & Hx).
  destruct (sb_put_Ok sb i (markEntry e f r u x) Hwf Hi) as (sb' & Hput & Hwf' & Hlay & Hsame & Hother).
  exists x, sb'. split_and!; try done. split; [done|]. intros j y Hy.
  destruct (decide (j = i)) as [->|Hne].
  - rewrite Hsame in Hy. injection Hy as <-. apply markEntry_ok; [done|by apply He].
  - rewrite Hother in Hy by done. apply entry_ok_other; [cbn; congruence|by apply He].
Qed.

Lemma sb_clear (m m' c : bool) sb W w : sb_inv m sb (w :: W) → 0 ≤ w_idx w < numRegs sb →
  Z.of_nat (length W) < 2 ^ 16 - 1 → (w_unp w = true → c = true) → (m' = true → m = true ∧ faithful c (w_unp w) W) →
  ∃ x sb', sb_get sb (w_idx w) = Ok x ∧ sb_put sb (w_idx w) (clearEntry c x) = Ok sb'
    ∧ same_layout sb' sb ∧ sb_inv m' sb' W.
Proof.
  intros [Hwf He] Hi Hlen Hcu Hm. destruct (sb_get_Ok sb _ Hwf Hi) as (x & Hx).
  destruct (sb_put_Ok sb _ (clearEntry c x) Hwf Hi) as (sb' & Hput & Hwf' & Hlay & Hsame & Hother).
  exists x, sb'. split_and!; try done. split; [done|]. intros j y Hy.
  destruct (decide (j = w_idx w)) as [->|Hne].
  - rewrite Hsame in Hy. injection Hy as <-. by eapply clearEntry_ok, He.
  - rewrite Hother in Hy by done. apply (entry_ok_weaken m); [apply Hm|]. apply (entry_ok_other m w); [congruence|by apply He].
Qed.

(** ** Instructions in flight *)

Section inflight.
Context `{I : Isa} (flatten : RegId → RegId).
Notation DynInst := (MyMinorDynInst I).
Implicit Types (sb : Scoreboard) (inst : DynInst).

(** The register recorded in the instruction for a destination. *)
Definition recorded sb (d : RegId) : RegId :=
  match findIndex sb (flatten d) with Some _ => flatten d | None => RegId0 end.

(** The writes an instruction has in flight, from the recorded registers. *)
Definition writesOf sb (inst : DynInst) (unp : bool) : list write :=
  if isFault inst then []
  else (λ i, mkWrite i (execSeqNum (id inst)) unp) <$> omap (findIndex sb) (flatDestRegIdx (ex inst)).

(** Every tracked destination lies in the scoreboard. *)
Definition dests_ok sb inst : Prop :=
  ∀ d i, d ∈ destRegs (staticInst inst) → findIndex sb (flatten d) = Some i → 0 ≤ i < numRegs sb.

Lemma findIndex_RegId0 sb : findIndex sb RegId0 = None.
Proof. done. Qed.

Lemma omap_recorded sb (ds : list RegId) :
  omap (findIndex sb) (recorded sb <$> ds) = omap (λ d, findIndex sb (flatten d)) ds.
Proof.
  induction ds as [|d ds IH]; [done|]. cbn. unfold recorded at 1.
  destruct (findIndex sb (flatten d)) as [i|] eqn:E; [by rewrite E, IH|].
  by rewrite findIndex_RegId0, IH.
Qed.

Lemma layout_recorded sb sb1 (ds : list RegId) : same_layout sb1 sb →
  (recorded sb1 <$> ds) = (recorded sb <$> ds)
  ∧ omap (λ d, findIndex sb1 (flatten d)) ds = omap (λ d, findIndex sb (flatten d)) ds.
Proof.
  intros Hl. assert (∀ r, findIndex sb1 r = findIndex sb r) as Hf by (intros r; by rewrite Hl).
  induction ds as [|d ds [IH1 IH2]]; [done|]. cbn. rewrite IH1, IH2. unfold recorded.
  by rewrite Hf.
Qed.

Lemma markDests_Ok m e f r u ds : ∀ sb W (pre post : list RegId),
  sb_inv m sb W → length post = length ds →
  (∀ d i, d ∈ ds → findIndex sb (flatten d) = Some i → 0 ≤ i < numRegs sb) →
  Z.of_nat (length W + length ds) < 2 ^ 16 →
  ∃ sb', mfold (markDest flatten e f r u) (sb, pre ++ post) (imap (λ j d, (length pre + j, d)%nat) ds)
      = Ok (sb', pre ++ (recorded sb <$> ds))
    ∧ same_layout sb' sb
    ∧ sb_inv m sb' (((λ i, mkWrite i e u) <$> omap (λ d, findIndex sb (flatten d)) ds) ++ W).
Proof.
  induction ds as [|d ds IH]; intros sb W pre post Hinv Hpost Hds HW.
  { destruct post; [|done]. exists sb. cbn. by rewrite app_nil_r. }
  destruct post as [|p post]; [done|]. cbn [imap mfold]. unfold markDest at 1.
  rewrite Nat.add_0_r.
  assert (Hset : ∀ x, vset (pre ++ p :: post) (Z.of_nat (length pre)) x = Ok ((pre ++ [x]) ++ post)).
  { intros x. rewrite vset_lt by (rewrite length_app; cbn; lia). f_equal.
    rewrite Nat2Z.id, insert_app_r_alt, Nat.sub_diag by lia. cbn. by rewrite <- app_assoc. }
  assert (Himap : imap ((λ j d, (length pre + j, d)%nat) ∘ S) ds
    = imap (λ j y, (length (pre ++ [recorded sb d]) + j, y)%nat) ds).
  { apply imap_ext. intros j y _. cbn. f_equal. rewrite length_app. cbn. lia. }
  destruct (findIndex sb (flatten d)) as [i|] eqn:Ei; cbn [rbind].
  - assert (0 ≤ i < numRegs sb) as Hi by (eapply Hds; [left|done]).
    cbn [length] in HW. destruct (sb_mark m sb W i e f r u Hinv Hi) as (x & sb1 & -> & Hput & Hl1 & Hinv1); [lia|].
    cbn [rbind]. rewrite Hset. cbn [rbind]. rewrite Hput. cbn [rbind].
    rewrite Himap. replace (flatten d) with (recorded sb d) by (unfold recorded; by rewrite Ei).
    destruct (IH sb1 (mkWrite i e u :: W) (pre ++ [recorded sb d]) post) as (sb2 & -> & Hl2 & Hinv2);
      [done|cbn in Hpost; lia| |cbn; lia|].
    { intros d' i' Hd' Hi'. rewrite Hl1 in Hi'. destruct Hl1 as (_ & _ & _ & _ & ->).
      eapply Hds; [by right|done]. }
    destruct (layout_recorded sb sb1 ds Hl1) as [Hr Ho]. exists sb2. rewrite Hr, Ho in *.
    split; [cbn; by rewrite <- app_assoc|]. split; [by etrans|].
    cbn. rewrite Ei. cbn. rewrite <- Permutation_middle in Hinv2. done.
  - rewrite Hset. cbn [rbind]. rewrite Himap.
    replace RegId0 with (recorded sb d) by (unfold recorded; by rewrite Ei).
    cbn [length] in HW.
    destruct (IH sb W (pre ++ [recorded sb d]) post) as (sb2 & -> & Hl2 & Hinv2);
      [done|cbn in Hpost; lia| |lia|].
    { intros d' i' Hd' Hi'. eapply Hds; [by right|done]. }
    exists sb2. split; [cbn; by rewrite <- app_assoc|]. split; [done|]. cbn. by rewrite Ei.
Qed.

Lemma markupInstDests_Ok m sb W inst r u : sb_inv m sb W → dests_ok sb inst →
  length (flatDestRegIdx (ex inst)) = length (destRegs (staticInst inst)) →
  Z.of_nat (length W + length (destRegs (staticInst inst))) < 2 ^ 16 →
  ∃ sb' inst', markupInstDests flatten sb inst r u = Ok (sb', inst')
    ∧ same_layout sb' sb ∧ sb_inv m sb' (writesOf sb inst' u ++ W)
    ∧ length (flatDestRegIdx (ex inst')) = length (destRegs (staticInst inst'))
    ∧ staticInst inst' = staticInst inst ∧ isFault inst' = isFault inst
    ∧ (isFault inst = false → flatDestRegIdx (ex inst') = recorded sb <$> destRegs (staticInst inst)).
Proof.
  intros Hinv Hd Hlen HW. unfold markupInstDests. destruct (isFault inst) eqn:Ef.
  { exists sb, inst. unfold writesOf. rewrite Ef. by split_and!. }
  destruct (markDests_Ok m (execSeqNum (id inst)) (fuIndex (ex inst)) r u
    (destRegs (staticInst inst)) sb W [] (flatDestRegIdx (ex inst)))
    as (sb' & Hm & Hl & Hinv'); [done|done|exact Hd|done|]. cbn [length app Nat.add] in Hm.
  change (imap (λ j d, (j, d)) (destRegs (staticInst inst)))
    with (imap pair (destRegs (staticInst inst))) in Hm. rewrite Hm. cbn [rbind].
  eexists _, _. split; [done|]. split; [done|]. cbn. rewrite length_fmap.
  split; [|by split_and!]. unfold writesOf. cbn.
  change (isFault (with_ex _ inst)) with (isFault inst). rewrite Ef, omap_recorded. done.
Qed.

Lemma clearRegs_Ok (m m' c : bool) e (u : bool) regs : (u = true → c = true) → ∀ sb W,
  sb_inv m sb (((λ i, mkWrite i e u) <$> omap (findIndex sb) regs) ++ W) →
  (m' = true → m = true ∧ faithful c u W) →
  (∀ r i, r ∈ regs → findIndex sb r = Some i → 0 ≤ i < numRegs sb) →
  Z.of_nat (length W + length regs) < 2 ^ 16 →
  ∃ sb', mfold (λ sb reg, match findIndex sb reg with
                | Some index => x ← sb_get sb index; sb_put sb index (clearEntry c x)
                | None => Ok sb end) sb regs = Ok sb'
    ∧ same_layout sb' sb ∧ sb_inv m' sb' W.
Proof.
  intros Hcu. revert m. induction regs as [|r regs IH]; intros m sb W Hinv Hm Hr HW.
  { exists sb. split_and!; try done. destruct Hinv as [Hwf He]. split; [done|]. intros i x Hx.
    eapply entry_ok_weaken; [|by apply He]. apply Hm. }
  cbn [mfold]. cbn in Hinv. destruct (findIndex sb r) as [i|] eqn:Ei; cbn in Hinv.
  - set (w := mkWrite i e u) in *. cbn [length] in HW.
    assert (length (omap (findIndex sb) regs) ≤ length regs)%nat
      by (clear; induction regs as [|x l IH]; cbn; [lia|]; destruct (findIndex sb x); cbn; lia).
    destruct (sb_clear m m' c sb _ w Hinv) as (x & sb1 & Hg & Hp & Hl1 & Hinv1).
    { eapply Hr; [left|done]. }
    { rewrite length_app, length_fmap. lia. }
    { done. }
    { intros Em. destruct (Hm Em) as [? Hf]. split; [done|]. cbn. destruct Hf as [?|Hf]; [by left|].
      destruct (decide (c = u)); [by left|right]. apply Forall_app. split; [|done].
      apply Forall_fmap, Forall_true. intros j. cbn. destruct u, c; try done. by specialize (Hcu eq_refl). }
    cbn [w_idx w_unp w] in Hg, Hp. rewrite Hg. cbn [rbind]. rewrite Hp. cbn [rbind].
    destruct (IH m' sb1 W) as (sb2 & -> & Hl2 & Hinv2); [| | |lia|].
    { assert (omap (findIndex sb1) regs = omap (findIndex sb) regs) as ->; [|done].
      clear -Hl1. induction regs as [|y l IHl]; [done|]. cbn. by rewrite Hl1, IHl. }
    { intros Em. split; [done|apply (Hm Em)]. }
    { intros r' i' Hr' Hi'. rewrite Hl1 in Hi'. destruct Hl1 as (_ & _ & _ & _ & ->).
      eapply Hr; [by right|done]. }
    exists sb2. split; [done|]. split; [by etrans|done].
  - cbn [rbind]. destruct (IH m sb W) as (sb2 & -> & Hl2 & Hinv2); [done|done| |cbn in HW; lia|].
    { intros r' i' Hr' Hi'. eapply Hr; [by right|done]. }
    by exists sb2.
Qed.

Lemma clearInstDests_Ok (m m' c : bool) sb W inst (u : bool) : (u = true → c = true) →
  sb_inv m sb (writesOf sb inst u ++ W) → (m' = true → m = true ∧ faithful c u W) →
  length (flatDestRegIdx (ex inst)) = length (destRegs (staticInst inst)) →
  isFault inst = false →
  (∀ r i, r ∈ flatDestRegIdx (ex inst) → findIndex sb r = Some i → 0 ≤ i < numRegs sb) →
  Z.of_nat (length W + length (destRegs (staticInst inst))) < 2 ^ 16 →
  ∃ sb', clearInstDests sb inst c = Ok sb' ∧ same_layout sb' sb ∧ sb_inv m' sb' W.
Proof.
  unfold writesOf, clearInstDests. intros Hcu Hinv Hm Hlen Hf Hr HW. rewrite Hf in *.
  rewrite <- Hlen in *. unfold clearDest. rewrite mfold_vget. by eapply clearRegs_Ok.
Qed.

(** ** Histories

    Execute marks up an instruction when it issues it and clears it when it
    commits or discards it. *)
Definition inflight sb (F : list (DynInst * bool)) : list write :=
  mjoin ((λ iu, writesOf sb iu.1 iu.2) <$> F).

Definition destSlots (F : list (DynInst * bool)) : nat :=
  sum_list ((λ iu, length (destRegs (staticInst iu.1))) <$> F).

(** no instruction of [F] has an unpredictable result *)
Definition calm (F : list (DynInst * bool)) : bool := forallb (λ iu, negb iu.2) F.

(** a scoreboard, the instructions in flight with the flags of their markup, and
    whether all clear flags have matched so far *)
Notation sb_state := (Scoreboard * list (DynInst * bool) * bool)%type.

(** Execute marks an instruction as unpredictable only if it is a memory
    reference, and clears with [isMemRef]: the clear flag [c] is set where the
    markup's flag [u] was, and may be set where it was not. *)
Inductive sb_step : sb_state → sb_state → Prop :=
| sb_issue sb F m inst r u sb' inst' :
    dests_ok sb inst →
    length (flatDestRegIdx (ex inst)) = length (destRegs (staticInst inst)) →
    Z.of_nat (destSlots F + length (destRegs (staticInst inst))) < 2 ^ 16 →
    markupInstDests flatten sb inst r u = Ok (sb', inst') →
    sb_step (sb, F, m) (sb', F ++ [(inst', u)], m)
| sb_retire sb F1 m inst u (c : bool) F2 sb' :
    (u = true → c = true) →
    clearInstDests sb inst c = Ok sb' →
    sb_step (sb, F1 ++ (inst, u) :: F2, m) (sb', F1 ++ F2, m && (eqb c u || calm (F1 ++ F2))).

Record hist_ok (s : sb_state) : Prop := {
  ho_inv : sb_inv s.2 s.1.1 (inflight s.1.1 s.1.2);
  ho_len : ∀ iu, iu ∈ s.1.2 →
    length (flatDestRegIdx (ex iu.1)) = length (destRegs (staticInst iu.1));
  ho_reg : ∀ iu r i, iu ∈ s.1.2 → isFault iu.1 = false → r ∈ flatDestRegIdx (ex iu.1) →
    findIndex s.1.1 r = Some i → 0 ≤ i < numRegs s.1.1;
  ho_cap : Z.of_nat (destSlots s.1.2) < 2 ^ 16;
}.

Lemma calm_inflight sb F : calm F = true → Forall (λ w, w_unp w = false) (inflight sb F).
Proof.
  unfold calm, inflight. rewrite forallb_forall. intros H. apply Forall_forall. intros w Hw.
  apply list_elem_of_join in Hw as (l & Hw & Hl). apply list_elem_of_fmap in Hl as ([inst u] & -> & Hin).
  specialize (H (inst, u) (proj1 (list_elem_of_In _ _) Hin)). apply negb_true_iff in H. cbn in H. subst u.
  unfold writesOf in Hw. cbn in Hw. destruct (isFault inst); [by apply elem_of_nil in Hw|].
  by apply list_elem_of_fmap in Hw as (i & -> & _).
Qed.

Lemma writesOf_layout sb sb' inst u : same_layout sb' sb → writesOf sb' inst u = writesOf sb inst u.
Proof.
  intros Hl. unfold writesOf. destruct (isFault inst); [done|]. f_equal.
  induction (flatDestRegIdx (ex inst)) as [|r l IH]; [done|]. cbn. by rewrite Hl, IH.
Qed.

Lemma inflight_layout sb sb' F : same_layout sb' sb → inflight sb' F = inflight sb F.
Proof.
  intros Hl. unfold inflight. f_equal. apply list_fmap_ext. intros ? [i u] _. by apply writesOf_layout.
Qed.

Lemma inflight_length sb F :
  (∀ iu, iu ∈ F → length (flatDestRegIdx (ex iu.1)) = length (destRegs (staticInst iu.1))) →
  (length (inflight sb F) ≤ destSlots F)%nat.
Proof.
  induction F as [|[i u] F IH]; intros H; [cbn; lia|]. unfold inflight, destSlots in *. cbn.
  rewrite length_app. specialize (IH (λ x Hx, H x (list_elem_of_further _ _ _ Hx))).
  apply Nat.add_le_mono; [|exact IH].
  pose proof (H (i, u) ltac:(left)) as Hi. cbn in Hi. rewrite <- Hi. unfold writesOf. destruct (isFault i); [cbn; lia|].
  rewrite length_fmap. cbn. clear. induction (flatDestRegIdx (ex i)) as [|x l IH]; cbn; [lia|].
  destruct (findIndex sb x); cbn; lia.
Qed.

Lemma inflight_app sb F1 F2 : inflight sb (F1 ++ F2) = inflight sb F1 ++ inflight sb F2.
Proof. unfold inflight. by rewrite fmap_app, join_app. Qed.

Lemma destSlots_app F1 F2 : destSlots (F1 ++ F2) = (destSlots F1 + destSlots F2)%nat.
Proof. unfold destSlots. rewrite fmap_app. apply sum_list_with_app. Qed.

Lemma sb_issue_ok sb F m inst r u : hist_ok (sb, F, m) → dests_ok sb inst →
  length (flatDestRegIdx (ex inst)) = length (destRegs (staticInst inst)) →
  Z.of_nat (destSlots F + length (destRegs (staticInst inst))) < 2 ^ 16 →
  ∃ sb' inst', markupInstDests flatten sb inst r u = Ok (sb', inst') ∧ hist_ok (sb', F ++ [(inst', u)], m).
Proof.
  intros [Hinv Hlen Hreg Hcap] Hd Hl HF. cbn [fst snd] in *.
  pose proof (inflight_length sb F Hlen).
  destruct (markupInstDests_Ok m sb _ inst r u Hinv Hd Hl)
    as (sb' & inst' & Hmk & Hlay & Hinv' & Hl' & Hsi & Hfa & Hfl); [lia|].
  exists sb', inst'. split; [done|]. split; cbn [fst snd].
  - rewrite inflight_app, (inflight_layout sb sb' F Hlay). unfold inflight at 2. cbn.
    rewrite app_nil_r, (writesOf_layout sb sb'), Permutation_app_comm by done. done.
  - intros iu [Hi|Hi]%elem_of_app; [by apply Hlen|]. by apply list_elem_of_singleton in Hi as ->.
  - intros iu x i [Hi|Hi]%elem_of_app Hf Hx Hxi.
    + rewrite Hlay in Hxi. destruct Hlay as (_ & _ & _ & _ & ->). by eapply Hreg.
    + apply list_elem_of_singleton in Hi as ->. cbn in *.
      rewrite Hfa in Hf. rewrite (Hfl Hf) in Hx. apply list_elem_of_fmap in Hx as (d & -> & Hx).
      rewrite Hlay in Hxi. unfold recorded in Hxi.
      destruct (findIndex sb (flatten d)) as [j|] eqn:Ej; [|done].
      rewrite Ej in Hxi. injection Hxi as <-. destruct Hlay as (_ & _ & _ & _ & ->). by eapply Hd.
  - rewrite destSlots_app. unfold destSlots at 2. cbn. rewrite Hsi. lia.
Qed.

Lemma sb_retire_ok sb F1 m inst (u c : bool) F2 : hist_ok (sb, F1 ++ (inst, u) :: F2, m) → (u = true → c = true) →
  ∃ sb', clearInstDests sb inst c = Ok sb'
    ∧ hist_ok (sb', F1 ++ F2, m && (eqb c u || calm (F1 ++ F2))).
Proof.
  intros [Hinv Hlen Hreg Hcap] Hcu. cbn [fst snd] in *.
  assert ((inst, u) ∈ F1 ++ (inst, u) :: F2) as Hin by (apply elem_of_app; right; left).
  assert (Hsub : ∀ iu, iu ∈ F1 ++ F2 → iu ∈ F1 ++ (inst, u) :: F2).
  { intros iu [?|?]%elem_of_app; apply elem_of_app; [by left|right; by right]. }
  assert (destSlots (F1 ++ (inst, u) :: F2)
          = destSlots (F1 ++ F2) + length (destRegs (staticInst inst)))%nat as Hds.
  { rewrite !destSlots_app. unfold destSlots at 2. cbn. fold (destSlots F2). unfold destSlots. lia. }
  pose proof (inflight_length sb (F1 ++ F2) (λ x Hx, Hlen x (Hsub x Hx))) as Hil.
  set (m' := m && (eqb c u || calm (F1 ++ F2))).
  assert (m' = true → m = true ∧ faithful c u (inflight sb (F1 ++ F2))) as Hm'.
  { intros [-> [He|He]%orb_true_iff]%andb_true_iff; (split; [done|]).
    - left. by apply eqb_prop.
    - right. by apply calm_inflight. }
  assert (sb_inv m sb (writesOf sb inst u ++ inflight sb (F1 ++ F2))) as Hinv1.
  { rewrite inflight_app in *. unfold inflight at 2 in Hinv. cbn in Hinv.
    by rewrite Permutation_app_swap_app in Hinv. }
  assert (∃ sb', clearInstDests sb inst c = Ok sb' ∧ same_layout sb' sb ∧ sb_inv m' sb' (inflight sb (F1 ++ F2)))
    as (sb' & Hc & Hlay & Hinv').
  { destruct (isFault inst) eqn:Ef.
    - exists sb. unfold clearInstDests. rewrite Ef. split_and!; try done.
      unfold writesOf in Hinv1. rewrite Ef in Hinv1. destruct Hinv1 as [Hwf He].
      split; [done|]. intros i x Hx. eapply entry_ok_weaken; [apply Hm'|by apply He].
    - eapply clearInstDests_Ok; [done|done|done|by apply (Hlen (inst, u))|done| |lia].
      by intros; eapply (Hreg (inst, u)). }
  exists sb'. split; [done|]. split; cbn [fst snd].
  - by rewrite (inflight_layout sb sb').
  - intros iu Hi. by apply Hlen, Hsub.
  - intros iu x i Hi Hf Hx Hxi. rewrite Hlay in Hxi. destruct Hlay as (_ & _ & _ & _ & ->).
    eapply Hreg; [by apply Hsub|done..].
  - lia.
Qed.

Lemma sb_step_ok s s' : hist_ok s → sb_step s s' → hist_ok s'.
Proof.
  intros Hh Hstep. destruct Hstep as [sb F m inst r u sb' inst' Hd Hl HF Hm|sb F1 m inst u c F2 sb' Hcu Hc].
  - destruct (sb_issue_ok sb F m inst r u Hh Hd Hl HF) as (sb2 & inst2 & Hm2 & Hh2).
    rewrite Hm in Hm2. by simplify_eq.
  - destruct (sb_retire_ok sb F1 m inst u c F2 Hh Hcu) as (sb2 & Hc2 & Hh2). rewrite Hc in Hc2. by simplify_eq.
Qed.

Lemma newScoreboard_ok ints floats ccs vecElems vecPreds :
  0 ≤ ints → 0 ≤ floats → 0 ≤ ccs → 0 ≤ vecElems → 0 ≤ vecPreds →
  ints + floats + ccs + vecElems + vecPreds ≤ 2 ^ 16 →
  hist_ok (newScoreboard ints floats ccs vecElems vecPreds, [], true).
Proof.
  intros. assert (numRegs (newScoreboard ints floats ccs vecElems vecPreds)
                  = ints + floats + ccs + vecElems + vecPreds) as Hn.
  { cbn. rewrite (u32_id ints), (u32_id (ints + floats)), (u32_id (ints + floats + ccs)) by lia.
    rewrite (u32_id (ints + floats + ccs + vecElems)), u32_id by lia. done. }
  split; cbn [fst snd]; [|by intros ? ?%elem_of_nil|by intros ??? ?%elem_of_nil|done].
  split.
  - split; [rewrite Hn; lia|..]; unfold newScoreboard in *;
      cbn [numRegs numResults numUnpredictableResults fuIndices returnCycle writingInst] in *;
      rewrite length_replicate, Z2Nat.id by lia; done.
  - intros i x Hx. apply sb_get_fields in Hx as (Ha & Hb & Hc & Hd & He).
    unfold newScoreboard in *. cbn [numResults numUnpredictableResults fuIndices returnCycle writingInst] in *.
    repeat match goal with H : vget (replicate _ _) _ = Ok _ |- _ =>
      apply vget_Ok in H as [_ [? _]%lookup_replicate] end.
    assert (x = freeEntry) as -> by (destruct x; cbn in *; by subst).
    split; [done|done|done|done|]. by intros w ?%elem_of_nil.
Qed.

Lemma canIssueLoop_iff sb lats cf now srcs : ∀ k, sb_wf sb →
  (∀ r i, r ∈ srcs → findIndex sb (flatten r) = Some i → 0 ≤ i < numRegs sb) →
  ∃ b, canIssueLoop flatten sb lats cf now k srcs = Ok b
    ∧ (b = true ↔ ∀ j r i x, srcs !! j = Some r → findIndex sb (flatten r) = Some i →
         sb_get sb i = Ok x →
         unpredictable x = 0
         ∧ cycle x ≤ u64 (now + relativeLatency lats
             (negb (fu x =? invalidFUIndex) && default false (cf !! Z.to_nat (fu x))) (k + j))).
Proof.
  induction srcs as [|r srcs IH]; intros k Hwf Hr; [by exists true|]. cbn [canIssueLoop].
  destruct (IH (S k)) as (b & Hb & Hiff); [done|intros; by eapply Hr; [right|]|].
  destruct (findIndex sb (flatten r)) as [i|] eqn:Ei.
  - destruct (sb_get_Ok sb i Hwf) as (x & Hx); [eapply Hr; [left|done]|].
    destruct (sb_get_fields sb i x Hx) as (_ & Hu & Hf & Hc & _).
    rewrite Hf. cbn [rbind]. rewrite Hc. cbn [rbind]. rewrite Hu. cbn [rbind].
    change (match cf !! Z.to_nat (fu x) with Some b0 => b0 | None => false end)
      with (default false (cf !! Z.to_nat (fu x))).
    match goal with |- context [u64 (now + ?l) <? cycle x] =>
      destruct (Z.ltb_spec (u64 (now + l)) (cycle x)) as [Hlt|Hge] end; cbn [orb].
    + exists false. split; [done|]. split; [done|]. intros H.
      destruct (H 0%nat r i x eq_refl Ei Hx) as [_ Hle]. rewrite Nat.add_0_r in Hle. lia.
    + destruct (Z.eqb_spec (unpredictable x) 0) as [Hz|Hz]; cbn [negb].
      * exists b. split; [done|]. rewrite Hiff. split; intros H j r' i' x' Hj Hi' Hx'.
        -- destruct j as [|j]; cbn in Hj.
           ++ simplify_eq. rewrite Hx in Hx'. simplify_eq. rewrite Nat.add_0_r. done.
           ++ rewrite <- Nat.add_succ_comm. by eapply H.
        -- rewrite Nat.add_succ_comm. by eapply (H (S j)).
      * exists false. split; [done|]. split; [done|]. intros H.
        by destruct (H 0%nat r i x eq_refl Ei Hx) as [? _].
  - exists b. split; [done|]. rewrite Hiff. split; intros H j r' i' x' Hj Hi' Hx'.
    + destruct j as [|j]; cbn in Hj; [simplify_eq|]. rewrite <- Nat.add_succ_comm. by eapply H.
    + rewrite Nat.add_succ_comm. by eapply (H (S j)).
Qed.

Lemma waitFor_loop sb srcs : ∀ ret, sb_wf sb →
  (∀ r i, r ∈ srcs → findIndex sb (flatten r) = Some i → 0 ≤ i < numRegs sb) →
  ∃ n, mfold (λ ret src,
         match findIndex sb (flatten src) with
         | Some index => w ← vget (writingInst sb) index; Ok (if ret <? w then w else ret)
         | None => Ok ret
         end) ret srcs = Ok n
    ∧ ret ≤ n
    ∧ (∀ r i x, r ∈ srcs → findIndex sb (flatten r) = Some i → sb_get sb i = Ok x → writer x ≤ n)
    ∧ (n = ret ∨ ∃ r i x, r ∈ srcs ∧ findIndex sb (flatten r) = Some i ∧ sb_get sb i = Ok x
                          ∧ n = writer x).
Proof.
  induction srcs as [|r srcs IH]; intros ret Hwf Hr; cbn [mfold].
  { exists ret. split_and!; try done; [intros ??? Hx%elem_of_nil; done|by left]. }
  destruct (findIndex sb (flatten r)) as [i|] eqn:Ei.
  - destruct (sb_get_Ok sb i Hwf) as (x & Hx); [eapply Hr; [left|done]|].
    destruct (sb_get_fields sb i x Hx) as (_ & _ & _ & _ & Hw). rewrite Hw. cbn [rbind].
    destruct (IH (if ret <? writer x then writer x else ret)) as (n & -> & Hge & Hall & Hex);
      [done|intros; by eapply Hr; [right|]|].
    exists n. split; [done|].
    assert (ret ≤ n ∧ writer x ≤ n) as [Hle Hwle] by (destruct (Z.ltb_spec ret (writer x)); lia).
    split; [done|]. split.
    + intros r' i' x' [->|Hr']%elem_of_cons Hi' Hx'; [|by eapply Hall].
      rewrite Ei in Hi'. injection Hi' as <-. rewrite Hx in Hx'. by injection Hx' as <-.
    + destruct Hex as [->|(r' & i' & x' & ? & ? & ? & ?)].
      * destruct (Z.ltb_spec ret (writer x)); [|by left]. right. exists r, i, x. split_and!; try done. left.
      * right. exists r', i', x'. split_and!; try done. by right.
  - cbn [rbind]. destruct (IH ret) as (n & -> & Hge & Hall & Hex); [done|intros; by eapply Hr; [right|]|].
    exists n. split; [done|]. split; [done|]. split.
    + intros r' i' x' [->|Hr']%elem_of_cons Hi' Hx'; [congruence|by eapply Hall].
    + destruct Hex as [->|(r' & i' & x' & ? & ? & ? & ?)]; [by left|].
      right. exists r', i', x'. split_and!; try done. by right.
Qed.
End inflight.

(** The reachable states of a scoreboard with the given class sizes; [m] tells
    whether the clear flags matched so far. *)
Definition sb_reachable `{I : Isa} (flatten : RegId → RegId) (sb0 : Scoreboard)
    (sb : Scoreboard) (F : list (MyMinorDynInst I * bool)) (m : bool) : Prop :=
  rtc (sb_step flatten) (sb0, [], true) (sb, F, m).

Definition sizes_ok (ints floats ccs vecElems vecPreds : Z) : Prop :=
  0 ≤ ints ∧ 0 ≤ floats ∧ 0 ≤ ccs ∧ 0 ≤ vecElems ∧ 0 ≤ vecPreds
  ∧ ints + floats + ccs + vecElems + vecPreds ≤ 2 ^ 16.

Lemma sb_reachable_ok `{I : Isa} flatten ints floats ccs vecElems vecPreds sb
    (F : list (MyMinorDynInst I * bool)) m :
  sizes_ok ints floats ccs vecElems vecPreds →
  sb_reachable flatten (newScoreboard ints floats ccs vecElems vecPreds) sb F m → hist_ok (sb, F, m).
Proof.
  intros (?&?&?&?&?&?) Hr. eapply rtc_invariant; [|done|by apply newScoreboard_ok].
  intros s s'. apply sb_step_ok.
Qed.

(** C30: the scoreboard counts what is in flight, also with the flags Execute
    really passes: in every history of issues and retirements in which an
    instruction marked as unpredictable is cleared as such, and one that was
    not may be cleared either way (Execute marks [issued_mem_ref &&
    extra_assumed_lat == 0] and clears [isMemRef]), every register's entry
    shows exactly the number of in-flight writers of the register, its recorded
    writer is not older than any of them, and a register that nothing in flight
    writes has its initial entry again; the count of unpredictable results is
    never above the number of in-flight writers with an unpredictable result,
    and equals it as long as every clear flag so far matched its markup or was
    passed while nothing else unpredictable was in flight (as with memory units
    that all have an extra assumed latency); moreover every instruction in
    flight can be retired and every instruction whose destinations lie in the
    scoreboard can be issued (the counters hold up to 65535 writes). *)
Theorem scoreboard_counts_in_flight `{I : Isa} (flatten : RegId → RegId)
    (ints floats ccs vecElems vecPreds : Z) (sb : Scoreboard) (F : list (MyMinorDynInst I * bool)) (m : bool) :
  sizes_ok ints floats ccs vecElems vecPreds →
  sb_reachable flatten (newScoreboard ints floats ccs vecElems vecPreds) sb F m →
  (∀ i x, sb_get sb i = Ok x →
     results x = writers (inflight sb F) i
     ∧ 0 ≤ unpredictable x ≤ unpWriters (inflight sb F) i
     ∧ (m = true → unpredictable x = unpWriters (inflight sb F) i)
     ∧ (writers (inflight sb F) i = 0 → x = freeEntry)
     ∧ ∀ w, w ∈ inflight sb F → w_idx w = i → w_exec w ≤ writer x)
  ∧ (∀ inst u (c : bool), (inst, u) ∈ F → (u = true → c = true) → is_Ok (clearInstDests sb inst c))
  ∧ (∀ inst r u, dests_ok flatten sb inst →
       length (flatDestRegIdx (ex inst)) = length (destRegs (staticInst inst)) →
       Z.of_nat (destSlots F + length (destRegs (staticInst inst))) < 2 ^ 16 →
       is_Ok (markupInstDests flatten sb inst r u)).
Proof.
  intros Hsz Hr. pose proof (sb_reachable_ok flatten _ _ _ _ _ sb F m Hsz Hr) as Hh. split_and!.
  - intros i x Hx. destruct Hh as [[_ He] _ _ _]. destruct (He i x Hx) as [H1 H2 H3 H4 H5]. exact (conj H1 (conj H2 (conj H3 (conj H4 H5)))).
  - intros inst u c (F1 & F2 & ->)%list_elem_of_split Hcu.
    destruct (sb_retire_ok sb F1 m inst u c F2 Hh Hcu) as (sb' & ? & _). by exists sb'.
  - intros inst r u Hd Hl HF.
    destruct (sb_issue_ok flatten sb F m inst r u Hh Hd Hl HF) as (sb' & inst' & ? & _). by eexists.
Qed.

(** issue is exactly guarded: in every reachable state in which the clear flags
    matched, [canInstIssue]
    answers, and it answers yes exactly when for each tracked source register
    no writer with an unpredictable result is in flight and the expected
    result cycle is at most the current cycle plus the relative latency that
    applies to that source (none when the producing unit cannot forward). *)
Theorem canInstIssue_exact `{I : Isa} (flatten : RegId → RegId)
    (ints floats ccs vecElems vecPreds : Z) (sb : Scoreboard) (F : list (MyMinorDynInst I * bool))
    (inst : MyMinorDynInst I) (lats : list Z) (cantForward : list bool) (now : Z) :
  sizes_ok ints floats ccs vecElems vecPreds →
  sb_reachable flatten (newScoreboard ints floats ccs vecElems vecPreds) sb F true →
  isFault inst = false →
  (∀ r i, r ∈ srcRegs (staticInst inst) → findIndex sb (flatten r) = Some i → 0 ≤ i < numRegs sb) →
  ∃ b, canInstIssue flatten sb inst lats cantForward now = Ok b
    ∧ (b = true ↔ ∀ j r i x, srcRegs (staticInst inst) !! j = Some r →
         findIndex sb (flatten r) = Some i → sb_get sb i = Ok x →
         unpWriters (inflight sb F) i = 0
         ∧ cycle x ≤ u64 (now + relativeLatency lats
             (negb (fu x =? invalidFUIndex) && default false (cantForward !! Z.to_nat (fu x))) j)).
Proof.
  intros Hsz Hr Hf Hs. pose proof (sb_reachable_ok flatten _ _ _ _ _ sb F true Hsz Hr) as [[Hwf He] _ _ _].
  unfold canInstIssue. rewrite Hf.
  destruct (canIssueLoop_iff flatten sb lats cantForward now (srcRegs (staticInst inst)) 0 Hwf Hs)
    as (b & -> & Hiff). exists b. split; [done|]. rewrite Hiff. cbn [Nat.add fst snd] in *.
  split; intros H j r i x Hj Hi Hx; (specialize (H j r i x Hj Hi Hx)); rewrite (eo_exact _ _ _ _ (He i x Hx) eq_refl) in *; done.
Qed.

(** the wait-for number is safe and tight: in every reachable state
    [execSeqNumToWaitFor] returns a number that is at least the execute
    sequence number of every in-flight writer of the instruction's tracked
    sources, and it returns 0 when no tracked source has a writer in flight. *)
Theorem execSeqNumToWaitFor_safe `{I : Isa} (flatten : RegId → RegId)
    (ints floats ccs vecElems vecPreds : Z) (sb : Scoreboard) (F : list (MyMinorDynInst I * bool))
    (inst : MyMinorDynInst I) (m : bool) :
  sizes_ok ints floats ccs vecElems vecPreds →
  sb_reachable flatten (newScoreboard ints floats ccs vecElems vecPreds) sb F m →
  isFault inst = false →
  (∀ r i, r ∈ srcRegs (staticInst inst) → findIndex sb (flatten r) = Some i → 0 ≤ i < numRegs sb) →
  ∃ n, execSeqNumToWaitFor flatten sb inst = Ok n
    ∧ (∀ r i w, r ∈ srcRegs (staticInst inst) → findIndex sb (flatten r) = Some i →
         w ∈ inflight sb F → w_idx w = i → w_exec w ≤ n)
    ∧ ((∀ r i, r ∈ srcRegs (staticInst inst) → findIndex sb (flatten r) = Some i →
          writers (inflight sb F) i = 0) → n = 0).
Proof.
  intros Hsz Hr Hf Hs. pose proof (sb_reachable_ok flatten _ _ _ _ _ sb F m Hsz Hr) as [[Hwf He] _ _ _].
  unfold execSeqNumToWaitFor. rewrite Hf.
  destruct (waitFor_loop flatten sb (srcRegs (staticInst inst)) 0 Hwf Hs) as (n & -> & Hge & Hall & Hex).
  exists n. split; [done|]. split.
  - intros r i w Hin Hi Hw Hwi. destruct (sb_get_Ok sb i Hwf) as (x & Hx); [by eapply Hs|].
    etrans; [by eapply (eo_wr _ _ _ _ (He i x Hx))|]. by eapply Hall.
  - intros Hnone. destruct Hex as [->|(r & i & x & Hin & Hi & Hx & ->)]; [done|].
    by rewrite (eo_free _ _ _ _ (He i x Hx) (Hnone r i Hin Hi)).
Qed.

(** ** A state to evaluate: a load with an unpredictable result in flight *)

#[local] Existing Instance Toy.isa.

Definition demo_sb0 : Scoreboard := newScoreboard 4 2 1 2 1.
Definition demo_ld : MyMinorDynInst Toy.isa := Toy.inst Toy.ld 4096 1.
Definition demo_issued : Scoreboard * MyMinorDynInst Toy.isa :=
  match markupInstDests (λ r, r) demo_sb0 demo_ld 10 true with
  | Ok p => p
  | Stop _ => (demo_sb0, demo_ld)
  end.

Lemma demo_sizes : sizes_ok 4 2 1 2 1.
Proof. unfold sizes_ok. lia. Qed.

Lemma demo_reachable :
  sb_reachable (λ r, r) demo_sb0 demo_issued.1 [(demo_issued.2, true)] true.
Proof.
  apply rtc_once. apply (sb_issue (λ r, r) demo_sb0 [] true demo_ld 10 true); try done.
  intros d i [->|[]%elem_of_nil]%elem_of_cons [= <-]. done.
Qed.

(** A consumer of the loaded register. *)
Definition demo_use : MyMinorDynInst Toy.isa :=
  Toy.inst (Toy.mkSi false false false 1 [mkRegId IntRegClass 3] [] 0 false false) 4100 2.

Lemma demo_use_srcs : ∀ r i, r ∈ srcRegs (staticInst demo_use) →
  findIndex demo_issued.1 r = Some i → 0 ≤ i < numRegs demo_issued.1.
Proof. intros r i [->|[]%elem_of_nil]%elem_of_cons [= <-]. done. Qed.

(** A second load of the same register behind the first, predictable this time,
    that is cleared with the flag of a memory reference: it takes away the first
    one's count of unpredictable results. *)
Definition demo_late : Scoreboard * MyMinorDynInst Toy.isa :=
  match markupInstDests (λ r, r) demo_issued.1 (Toy.inst Toy.ld 4100 2) 12 false with
  | Ok p => p
  | Stop _ => demo_issued
  end.

Definition demo_cleared : Scoreboard :=
  match clearInstDests demo_late.1 demo_late.2 true with Ok sb => sb | Stop _ => demo_late.1 end.

Lemma demo_cleared_reachable :
  sb_reachable (λ r, r) demo_sb0 demo_cleared [(demo_issued.2, true)] false.
Proof.
  eapply rtc_r; [eapply rtc_r; [exact demo_reachable|]|].
  - apply (sb_issue (λ r, r) demo_issued.1 [(demo_issued.2, true)] true (Toy.inst Toy.ld 4100 2) 12 false); try done.
    intros d i [->|[]%elem_of_nil]%elem_of_cons [= <-]. done.
  - apply (sb_retire (λ r, r) demo_late.1 [(demo_issued.2, true)] true demo_late.2 false true [] demo_cleared); done.
Qed.

(** The flags of the markup and of the clear must match (scoreboard.hh, the
    comment of [clearInstDests]): when they do not, the scoreboard forgets an
    unpredictable result in flight and a consumer of it may issue. *)
Lemma mismatched_clear_forgets :
  ∃ (sb : Scoreboard) (F : list (MyMinorDynInst Toy.isa * bool)) (inst : MyMinorDynInst Toy.isa),
    sb_reachable (λ r, r) demo_sb0 sb F false
    ∧ unpWriters (inflight sb F) 3 = 1
    ∧ srcRegs (staticInst inst) = [mkRegId IntRegClass 3]
    ∧ findIndex sb (mkRegId IntRegClass 3) = Some 3
    ∧ canInstIssue (λ r, r) sb inst [] [] 12 = Ok true.
Proof.
  exists demo_cleared, [(demo_issued.2, true)], demo_use.
  split; [exact demo_cleared_reachable|]. split_and!; vm_compute; reflexivity.
Qed.

Lemma scoreboard_counts_in_flight_witness :
  (∀ i x, sb_get demo_cleared i = Ok x →
     results x = writers (inflight demo_cleared [(demo_issued.2, true)]) i
     ∧ 0 ≤ unpredictable x ≤ unpWriters (inflight demo_cleared [(demo_issued.2, true)]) i
     ∧ (false = true → unpredictable x = unpWriters (inflight demo_cleared [(demo_issued.2, true)]) i)
     ∧ (writers (inflight demo_cleared [(demo_issued.2, true)]) i = 0 → x = freeEntry)
     ∧ ∀ w, w ∈ inflight demo_cleared [(demo_issued.2, true)] → w_idx w = i → w_exec w ≤ writer x)
  ∧ (∀ i x, sb_get demo_issued.1 i = Ok x →
       unpredictable x = unpWriters (inflight demo_issued.1 [(demo_issued.2, true)]) i)
  ∧ (∀ inst u (c : bool), (inst, u) ∈ [(demo_issued.2, true)] → (u = true → c = true) →
       is_Ok (clearInstDests demo_issued.1 inst c)).
Proof.
  split; [apply (scoreboard_counts_in_flight (λ r, r) 4 2 1 2 1 demo_cleared _ false);
          [exact demo_sizes|exact demo_cleared_reachable]|].
  destruct (scoreboard_counts_in_flight (λ r, r) 4 2 1 2 1 demo_issued.1 [(demo_issued.2, true)] true)
    as (H1 & H2 & _); [exact demo_sizes|exact demo_reachable|].
  split; [|exact H2]. intros i x Hx. by apply (H1 i x Hx).
Defined.

Lemma canInstIssue_exact_witness :
  ∃ b, canInstIssue (λ r, r) demo_issued.1 demo_use [] [] 5 = Ok b
    ∧ (b = true ↔ ∀ j r i x, srcRegs (staticInst demo_use) !! j = Some r →
         findIndex demo_issued.1 r = Some i → sb_get demo_issued.1 i = Ok x →
         unpWriters (inflight demo_issued.1 [(demo_issued.2, true)]) i = 0
         ∧ cycle x ≤ u64 (5 + relativeLatency []
             (negb (fu x =? invalidFUIndex) && default false ([] !! Z.to_nat (fu x))) j)).
Proof.
  apply (canInstIssue_exact (λ r, r) 4 2 1 2 1);
    [exact demo_sizes|exact demo_reachable|reflexivity|exact demo_use_srcs].
Defined.

Lemma execSeqNumToWaitFor_safe_witness :
  ∃ n, execSeqNumToWaitFor (λ r, r) demo_issued.1 demo_use = Ok n
    ∧ (∀ r i w, r ∈ srcRegs (staticInst demo_use) → findIndex demo_issued.1 r = Some i →
         w ∈ inflight demo_issued.1 [(demo_issued.2, true)] → w_idx w = i → w_exec w ≤ n)
    ∧ ((∀ r i, r ∈ srcRegs (staticInst demo_use) → findIndex demo_issued.1 r = Some i →
          writers (inflight demo_issued.1 [(demo_issued.2, true)]) i = 0) → n = 0).
Proof.
  apply (execSeqNumToWaitFor_safe (λ r, r) 4 2 1 2 1 _ _ _ true);
    [exact demo_sizes|exact demo_reachable|reflexivity|exact demo_use_srcs].
Defined.

(** ** The layout of the register index space *)

(** The register exists in its class; vector registers are numbered in the
    space of vector elements. *)
Definition reg_in (ints floats ccs vecElems vecPreds : Z) (r : RegId) : Prop :=
  match regClass r with
  | IntRegClass => 0 ≤ regIdx r < ints
  | FloatRegClass => 0 ≤ regIdx r < floats
  | CCRegClass => 0 ≤ regIdx r < ccs
  | VecRegClass | VecElemClass => 0 ≤ regIdx r < vecElems
  | VecPredRegClass => 0 ≤ regIdx r < vecPreds
  | _ => True
  end.

(** The classes with entries of their own; the two vector classes share theirs. *)
Definition tracked_class (c : RegClassType) : RegClassType :=
  match c with VecElemClass => VecRegClass | c => c end.

(** register indices are well laid out: for class sizes of at most 65536
    registers in total, the index of a register that exists in its class lies
    inside the scoreboard, exactly the misc and invalid classes are untracked,
    and two tracked registers share an entry only when they have the same
    number and the same class (vector registers and vector elements counting
    as one class). *)
Theorem findIndex_layout (ints floats ccs vecElems vecPreds : Z) (r r' : RegId) :
  sizes_ok ints floats ccs vecElems vecPreds →
  reg_in ints floats ccs vecElems vecPreds r → reg_in ints floats ccs vecElems vecPreds r' →
  let sb := newScoreboard ints floats ccs vecElems vecPreds in
  (findIndex sb r = None ↔ regClass r = MiscRegClass ∨ regClass r = InvalidRegClass)
  ∧ (∀ i, findIndex sb r = Some i → 0 ≤ i < numRegs sb)
  ∧ (findIndex sb r = findIndex sb r' → is_Some (findIndex sb r) →
       tracked_class (regClass r) = tracked_class (regClass r') ∧ regIdx r = regIdx r').
Proof.
  intros (?&?&?&?&?&?) Hr Hr' sb.
  assert (floatRegOffset sb = ints ∧ ccRegOffset sb = ints + floats
    ∧ vecRegOffset sb = ints + floats + ccs ∧ vecPredRegOffset sb = ints + floats + ccs + vecElems
    ∧ numRegs sb = ints + floats + ccs + vecElems + vecPreds) as (E1 & E2 & E3 & E4 & E5).
  { cbn. rewrite (u32_id ints), (u32_id (ints + floats)), (u32_id (ints + floats + ccs)) by lia.
    rewrite (u32_id (ints + floats + ccs + vecElems)), u32_id by lia. done. }
  unfold findIndex. rewrite E1, E2, E3, E4, E5. unfold reg_in in *.
  split_and!.
  - destruct (regClass r); naive_solver.
  - intros i Hi. destruct (regClass r); simplify_eq; rewrite ?u16_id by lia; lia.
  - intros He Hs. destruct (regClass r), (regClass r'); cbn in *; simplify_eq;
      rewrite ?u16_id in * by lia; try (split; [done|lia]); try lia; by destruct Hs.
Qed.

Lemma findIndex_layout_witness :
  let sb := newScoreboard 4 2 1 2 1 in
  (findIndex sb (mkRegId CCRegClass 0) = None
     ↔ regClass (mkRegId CCRegClass 0) = MiscRegClass ∨ regClass (mkRegId CCRegClass 0) = InvalidRegClass)
  ∧ (∀ i, findIndex sb (mkRegId CCRegClass 0) = Some i → 0 ≤ i < numRegs sb)
  ∧ (findIndex sb (mkRegId CCRegClass 0) = findIndex sb (mkRegId IntRegClass 3) →
       is_Some (findIndex sb (mkRegId CCRegClass 0)) →
       tracked_class (regClass (mkRegId CCRegClass 0)) = tracked_class (regClass (mkRegId IntRegClass 3))
       ∧ regIdx (mkRegId CCRegClass 0) = regIdx (mkRegId IntRegClass 3)).
Proof. apply findIndex_layout; [exact demo_sizes|cbn; lia|cbn; lia]. Defined.
