(* ===== verification/FuncUnit.v ===== *)
(** * Functional units (src/cpu/myminor/func_unit.cc, func_unit.hh, with
    [FuncUnit::addCapability] and [provides] of src/cpu/func_unit.cc)

    A functional unit is a self-stalling pipeline of instructions with an
    issue latency, a set of operation classes, extra timing patterns and a
    list of units it cannot receive forwarded results from.  The number of
    operation classes, which comes from a generated header, and the current
    cycle of the time source are arguments. *)
From Stdlib Require Import Sorting.Sorted.
From S2P Require Import Prelude TimeBuf Buffers LVPT PipeData.

(** ** Data *)

(** [class MyMinorOpClassSet]: its [capabilityList] *)
Definition OpClassSet : Type := list bool.

(** [class MyMinorFUTiming] *)
Record MyMinorFUTiming := mkFUTiming {
  mask : Z;
  match_ : Z;
  suppress : bool;
  extraCommitLat : Z;
  extraCommitLatExpr : option Z;
  extraAssumedLat : Z;
  srcRegsRelativeLats : list Z;
  timingOpClasses : OpClassSet;
}.

(** [class MyMinorFU] *)
Record MyMinorFU := mkFU {
  fuOpClasses : list Z;
  opLat : Z;
  issueLat : Z;
  cantForwardParam : list Z;
  timings : list MyMinorFUTiming;
}.

(** ** Operations *)

(** [MyMinorOpClassSet(params)] *)
Definition newOpClassSet (Num_OpClasses : Z) (opClasses : list Z) : res OpClassSet :=
  let empty := match opClasses with [] => true | _ => false end in
  mfold (λ caps c, vset caps c true) (replicate (Z.to_nat Num_OpClasses) empty) opClasses.

(** [bool provides(OpClass op_class)] *)
Definition provides (set : OpClassSet) (op_class : Z) : res bool := vget set op_class.

(** [FuncUnit::addCapability(cap, oplat, pipeline)], the capability bits *)
Definition addCapability (oplat : Z) (caps : list bool) (cap : Z) : res (list bool) :=
  if oplat =? 0 then Stop Panic else vset caps cap true.

(** [v.resize(n, false)] of a bit vector *)
Definition resizeBits (v : list bool) (n : Z) : list bool :=
  take (Z.to_nat n) v ++ replicate (Z.to_nat n - length v) false.

(** the loop over [cant_forward] in the constructor of [FUPipeline] *)
Definition cantForwardBits (cant_forward : list Z) : res (list bool) :=
  mfold (λ v i, vset (resizeBits v (u32 (i + 1))) i true) [] cant_forward.

(** The elements of a unit's pipeline are [QueuedInst]s, pointers to
    instructions; here any type with bubbles. *)
Section fu.
Context {T : Type} `{IsBubble T} `{!Bubble T}.

Record FUPipeline := mkFUPipeline {
  description : MyMinorFU;
  capabilityList : list bool;
  cantForwardFromFUIndices : list bool;
  nextInsertCycle : Z;
  fuPipe : SelfStallingPipeline T;
}.

(** [FUPipeline(name, description_, timeSource_)] *)
Definition newFUPipeline (Num_OpClasses : Z) (d : MyMinorFU) : res FUPipeline :=
  pipe ← newSSP bubble (opLat d);
  caps ← addCapability (u32 (opLat d)) (replicate (Z.to_nat Num_OpClasses) false) No_OpClass;
  caps ← mfold (addCapability (u32 (opLat d))) caps (fuOpClasses d);
  cant ← cantForwardBits (cantForwardParam d);
  Ok (mkFUPipeline d caps cant 0 pipe).

(** [FuncUnit::provides(capability)] *)
Definition fu_provides (f : FUPipeline) (op_class : Z) : res bool := vget (capabilityList f) op_class.

(** [Cycles cyclesBeforeInsert()] *)
Definition cyclesBeforeInsert (f : FUPipeline) (curCycle : Z) : Z :=
  if (nextInsertCycle f =? 0) || (nextInsertCycle f <? curCycle) then 0
  else u64 (nextInsertCycle f - curCycle).

(** [bool canInsert() const] *)
Definition canInsert (f : FUPipeline) (curCycle : Z) : bool :=
  (nextInsertCycle f =? 0) || (nextInsertCycle f <=? curCycle).

(** [void advance()] *)
Definition fu_advance (f : FUPipeline) (curCycle : Z) : res FUPipeline :=
  let was_stalled := stalled (fuPipe f) in
  pushed ← alreadyPushed (fuPipe f);
  let next :=
    if (pushed : bool) then
      if nextInsertCycle f <=? curCycle then u64 (curCycle + issueLat (description f))
      else nextInsertCycle f
    else if was_stalled && negb (nextInsertCycle f =? 0) then u64 (nextInsertCycle f + 1)
    else nextInsertCycle f in
  pipe ← sspAdvance bubble (fuPipe f);
  Ok (mkFUPipeline (description f) (capabilityList f) (cantForwardFromFUIndices f) next pipe).

(** [push] of the base class *)
Definition fu_push (f : FUPipeline) (inst : T) : res FUPipeline :=
  pipe ← push (fuPipe f) inst;
  Ok (mkFUPipeline (description f) (capabilityList f) (cantForwardFromFUIndices f)
        (nextInsertCycle f) pipe).

(** the loop of [findTiming] *)
Fixpoint findTiming_loop (op_class mach_inst : Z) (ts : list MyMinorFUTiming)
  : res (option MyMinorFUTiming) :=
  match ts with
  | [] => Ok None
  | t :: ts =>
      p ← provides (timingOpClasses t) op_class;
      if (p : bool) && (Z.land mach_inst (mask t) =? match_ t) then Ok (Some t)
      else findTiming_loop op_class mach_inst ts
  end.

(** [MyMinorFUTiming *findTiming(const StaticInstPtr &inst)] *)
Definition findTiming `{I : Isa} (f : FUPipeline) (inst : StaticInst) : res (option MyMinorFUTiming) :=
  findTiming_loop (opClass inst) (u64 (getEMI inst)) (timings (description f)).

End fu.
Arguments FUPipeline T : clear implicits.

(** ** Operation class sets *)

Lemma vset_all_Ok (n : nat) (l : list Z) : ∀ caps : list bool, length caps = n →
  Forall (λ c, 0 ≤ c < Z.of_nat n) l →
  ∃ caps', mfold (λ caps c, vset caps c true) caps l = Ok caps' ∧ length caps' = n
    ∧ ∀ c b, vget caps c = Ok b → vget caps' c = Ok (b || bool_decide (c ∈ l)).
Proof.
  induction l as [|x l IH]; intros caps Hl Hf.
  { exists caps. split_and!; try done. intros c b Hb. rewrite bool_decide_eq_false_2 by by intros ?%elem_of_nil.
    by rewrite orb_false_r. }
  apply Forall_cons in Hf as [Hx Hf]. cbn [mfold]. rewrite vset_lt by lia. cbn [rbind].
  destruct (IH (<[Z.to_nat x := true]> caps)) as (caps' & -> & Hl' & Hc); [by rewrite length_insert|done|].
  exists caps'. split; [done|]. split; [done|]. intros c b Hb.
  destruct (decide (c = x)) as [->|Hne].
  - rewrite (Hc x true) by (apply vget_insert_eq; lia). cbn.
    rewrite (bool_decide_eq_true_2 (x ∈ x :: l)) by left. by rewrite orb_true_r.
  - rewrite (Hc c b) by (by rewrite vget_insert_ne by (done || lia)). do 2 f_equal.
    apply bool_decide_ext. rewrite elem_of_cons. naive_solver.
Qed.

(** ** Forwarding restrictions *)

(** Bit [i] is set by the loop over [l] exactly when [i] occurs in [l] and no
    later element of [l] is smaller. *)
Definition keeps (l : list Z) (i : Z) : Prop :=
  ∃ l1 l2, l = l1 ++ i :: l2 ∧ Forall (λ j, i ≤ j) l2.

Lemma cantForwardBits_exact l : Forall (λ i, 0 ≤ i < 2 ^ 32 - 1) l →
  ∃ v, cantForwardBits l = Ok v
    ∧ (∀ i, 0 ≤ i → default false (v !! Z.to_nat i) = true ↔ keeps l i)
    ∧ (∀ x, last l = Some x → Z.of_nat (length v) = x + 1).
Proof.
  unfold cantForwardBits. induction l as [|x l IH] using rev_ind; intros Hf.
  { exists []. split; [done|]. split; [|done]. intros i Hi. split; [done|].
    by intros (l1 & l2 & Hl & _); destruct l1. }
  apply Forall_app in Hf as [Hf Hx]. inversion_clear Hx as [|?? Hx' _].
  destruct (IH Hf) as (v & Hm & Hv & Hlast). rewrite mfold_app, Hm. cbn [rbind mfold].
  rewrite u32_id by lia.
  assert (length (resizeBits v (x + 1)) = Z.to_nat (x + 1)) as Hlen.
  { unfold resizeBits. rewrite length_app, length_take, length_replicate. lia. }
  rewrite vset_lt by lia. cbn [rbind]. eexists. split; [done|]. split.
  2:{ intros y. rewrite last_snoc. intros [= <-]. rewrite length_insert. lia. }
  intros i Hi. destruct (decide (i = x)) as [->|Hne].
  { rewrite list_lookup_insert_eq by lia. cbn. split; [|done]. intros _. by exists l, []. }
  rewrite list_lookup_insert_ne by lia. unfold resizeBits.
  assert (keeps (l ++ [x]) i ↔ keeps l i ∧ i ≤ x) as ->.
  { split.
    - intros (l1 & l2 & He & Hl2). destruct l2 as [|y l2] using rev_ind.
      + by apply app_inj_tail in He as [_ ->].
      + clear IHl2. rewrite app_comm_cons, app_assoc in He. apply app_inj_tail in He as [-> <-].
        apply Forall_app in Hl2 as [Hl2 Hy]. inversion_clear Hy.
        split; [by exists l1, l2|done].
    - intros [(l1 & l2 & -> & Hl2) Hle]. exists l1, (l2 ++ [x]).
      split; [by rewrite <- app_assoc|]. apply Forall_app. split; [done|]. by constructor. }
  rewrite <- (Hv i Hi). destruct (decide (i ≤ x)) as [Hle|Hgt].
  - destruct (decide (Z.to_nat i < length v)%nat) as [Hiv|Hiv].
    + rewrite lookup_app_l by (rewrite length_take; lia). rewrite lookup_take_lt by lia. naive_solver.
    + rewrite lookup_app_r by (rewrite length_take; lia).
      rewrite (lookup_ge_None_2 v) by lia. rewrite length_take.
      rewrite lookup_replicate_2 by lia. cbn. naive_solver.
  - rewrite lookup_ge_None_2; [|rewrite length_app, length_take, length_replicate; lia].
    cbn. naive_solver.
Qed.

Lemma sorted_after l1 i l2 : StronglySorted Z.le (l1 ++ i :: l2) → Forall (λ j, i ≤ j) l2.
Proof. induction l1; cbn; intros Hs; inversion_clear Hs; auto. Qed.

(** for a list of forbidden forwarding sources in ascending order the bit
    vector built by the constructor has exactly the listed bits; in general a
    bit survives only if no smaller index follows it in the list. *)
Theorem cantForward_exact (l : list Z) :
  Forall (λ i, 0 ≤ i < 2 ^ 32 - 1) l →
  ∃ v, cantForwardBits l = Ok v
    ∧ (∀ i, 0 ≤ i → default false (v !! Z.to_nat i) = true ↔ keeps l i)
    ∧ (StronglySorted Z.le l → ∀ i, 0 ≤ i → default false (v !! Z.to_nat i) = true ↔ i ∈ l).
Proof.
  intros Hf. destruct (cantForwardBits_exact l Hf) as (v & Hv & Hk & _). exists v.
  split; [done|]. split; [done|]. intros Hs i Hi. rewrite Hk by done. split.
  - intros (l1 & l2 & -> & _). apply elem_of_app. right. left.
  - intros (l1 & l2 & ->)%list_elem_of_split. exists l1, l2. split; [done|].
    by apply (sorted_after l1).
Qed.

Lemma cantForward_exact_witness :
  ∃ v, cantForwardBits [0; 2; 3] = Ok v
    ∧ (∀ i, 0 ≤ i → default false (v !! Z.to_nat i) = true ↔ keeps [0; 2; 3] i)
    ∧ (StronglySorted Z.le [0; 2; 3] →
         ∀ i, 0 ≤ i → default false (v !! Z.to_nat i) = true ↔ i ∈ [0; 2; 3]).
Proof. apply (cantForward_exact [0; 2; 3]). repeat constructor; lia. Defined.

(** A list that is not ascending loses restrictions: unit 3 is forgotten. *)
Lemma cantForward_descending_lost : cantForwardBits [3; 1] = Ok [false; true].
Proof. reflexivity. Qed.

(** ** Capabilities *)

Lemma addCapability_all (oplat : Z) caps l : oplat ≠ 0 →
  mfold (addCapability oplat) caps l = mfold (λ caps c, vset caps c true) caps l.
Proof.
  intros Ho. revert caps. induction l as [|x l IH]; intros caps; [done|]. cbn.
  unfold addCapability at 1. destruct (Z.eqb_spec oplat 0); [done|].
  destruct (vset caps x true); cbn; [apply IH|done].
Qed.

(** construction of a functional unit: with a latency of at least one and
    operation classes in range the constructor succeeds, the unit provides
    exactly the listed classes and [No_OpClass], and a new unit accepts an
    instruction at once. *)
Theorem newFUPipeline_capabilities {T} `{IsBubble T} `{!Bubble T} (Num_OpClasses : Z) (d : MyMinorFU) :
  0 < Num_OpClasses → 0 < opLat d < 2 ^ 30 →
  Forall (λ c, 0 ≤ c < Num_OpClasses) (fuOpClasses d) →
  Forall (λ i, 0 ≤ i < 2 ^ 32 - 1) (cantForwardParam d) →
  ∃ f : FUPipeline T, newFUPipeline Num_OpClasses d = Ok f
    ∧ (∀ c, 0 ≤ c < Num_OpClasses →
         fu_provides f c = Ok (bool_decide (c = No_OpClass ∨ c ∈ fuOpClasses d)))
    ∧ (∀ now, canInsert f now = true).
Proof.
  intros Hn Ho Hc Hf. unfold newFUPipeline.
  destruct (newSSP_Ok (bubble : T) (opLat d) Ho) as (p & -> & _). cbn [rbind].
  destruct (cantForwardBits_exact _ Hf) as (v & Hv & _).
  rewrite u32_id by lia.
  destruct (vset_all_Ok (Z.to_nat Num_OpClasses) (No_OpClass :: fuOpClasses d)
    (replicate (Z.to_nat Num_OpClasses) false)) as (caps & Hm & Hl & Hcaps).
  { by rewrite length_replicate. }
  { rewrite Z2Nat.id by lia. constructor; [unfold No_OpClass; lia|done]. }
  rewrite <- (addCapability_all (opLat d)) in Hm by lia. cbn [mfold] in Hm.
  apply bind_Ok in Hm as (caps1 & -> & Hm). cbn [rbind]. rewrite Hm. cbn [rbind]. rewrite Hv.
  cbn [rbind]. eexists. split; [done|]. split; [|done]. intros c Hcr. unfold fu_provides. cbn.
  rewrite (Hcaps c false) by (apply vget_replicate; lia). cbn. f_equal.
  apply bool_decide_ext. by rewrite elem_of_cons.
Qed.

Lemma newFUPipeline_capabilities_witness :
  ∃ f : FUPipeline (MyMinorDynInst Toy.isa), newFUPipeline 8 (mkFU [1; 2] 3 1 [0; 2] []) = Ok f
    ∧ (∀ c, 0 ≤ c < 8 →
         fu_provides f c = Ok (bool_decide (c = No_OpClass ∨ c ∈ [1; 2])))
    ∧ (∀ now, canInsert f now = true).
Proof.
  apply (newFUPipeline_capabilities 8 (mkFU [1; 2] 3 1 [0; 2] []));
    cbn; [lia|lia|repeat constructor; lia|repeat constructor; lia].
Defined.

(** ** Extra timing *)

Definition timing_matches (op_class mach_inst : Z) (t : MyMinorFUTiming) : bool :=
  match vget (timingOpClasses t) op_class with Ok b => b | Stop _ => false end
  && (Z.land mach_inst (mask t) =? match_ t).

(** [findTiming] returns the first timing pattern of the unit whose
    operation classes include the instruction's and whose masked encoding
    matches, and none when there is no such pattern. *)
Theorem findTiming_first {T} `{I : Isa} (f : FUPipeline T) (inst : StaticInst) :
  0 ≤ opClass inst →
  Forall (λ t, opClass inst < Z.of_nat (length (timingOpClasses t))) (timings (description f)) →
  findTiming f inst
  = Ok (List.find (timing_matches (opClass inst) (u64 (getEMI inst))) (timings (description f))).
Proof.
  intros Hc. unfold findTiming. generalize (timings (description f)) as ts.
  induction ts as [|t ts IH]; intros Hf; [done|]. apply Forall_cons in Hf as [Ht Hf].
  cbn [findTiming_loop List.find]. unfold provides. destruct (vget_lt (timingOpClasses t) (opClass inst)) as (b & Hb); [lia|].
  rewrite Hb. cbn [rbind]. unfold timing_matches at 1. rewrite Hb.
  destruct (b && _); [done|]. by apply IH.
Qed.

Lemma findTiming_first_witness :
  let t := mkFUTiming 6 2 false 1 None 0 [1] [false; false; true] in
  let f := mkFUPipeline (T := MyMinorDynInst Toy.isa) (mkFU [2] 3 1 [] [t]) [] [] 0
             (mkSSP (mkTimeBuffer 0 0 0 [] 0) false 0) in
  findTiming f (Toy.ld : @StaticInst Toy.isa)
  = Ok (List.find (timing_matches 2 (u64 2)) [t]).
Proof.
  intros t f. apply (findTiming_first f (Toy.ld : @StaticInst Toy.isa)); cbn; [lia|].
  repeat constructor.
Defined.

(** ** Issue latency

    A history of a unit: in each cycle (the cycles ascend, idle ones may be
    left out) Execute may take the instruction at the end of the pipe, may
    push one instruction if the unit can insert, and then advances the unit. *)
Section issue.
Context {T : Type} `{IsBubble T} `{!Bubble T}.
Notation FU := (FUPipeline T).

Record fu_cycle := mkFuCycle { at_ : Z; take_ : bool; push_ : option T }.

Definition fu_take (f : FU) : FU :=
  mkFUPipeline (description f) (capabilityList f) (cantForwardFromFUIndices f)
    (nextInsertCycle f) (unstall (fuPipe f)).

(** One cycle; the result says whether an instruction was pushed. *)
Definition fu_step (f : FU) (c : fu_cycle) : res (FU * bool) :=
  let f := if take_ c then fu_take f else f in
  pushed ← alreadyPushed (fuPipe f);
  match push_ c with
  | Some inst =>
      if canInsert f (at_ c) && negb pushed && negb (isBubble inst) then
        f ← fu_push f inst; f ← fu_advance f (at_ c); Ok (f, true)
      else f ← fu_advance f (at_ c); Ok (f, false)
  | None => f ← fu_advance f (at_ c); Ok (f, false)
  end.

(** The cycles at which instructions entered the unit, oldest first. *)
Fixpoint fu_run (f : FU) (cs : list fu_cycle) : res (FU * list Z) :=
  match cs with
  | [] => Ok (f, [])
  | c :: cs =>
      ' (f, p) ← fu_step f c; ' (f, ps) ← fu_run f cs;
      Ok (f, if (p : bool) then at_ c :: ps else ps)
  end.

Definition fu_ok (d : Z) (f : FU) : Prop :=
  ssp_wf bubble d (fuPipe f) ∧ d < 2 ^ 30.

Lemma fu_pushed d f : fu_ok d f → ∃ b, alreadyPushed (fuPipe f) = Ok b
  ∧ ∃ x, head (ssp_line bubble (fuPipe f)) = Some x ∧ b = negb (isBubble x).
Proof.
  intros [Hwf Hd]. destruct (ssp_access bubble d (fuPipe f) 0 Hwf) as (x & Ha & Hl).
  { pose proof (swf_depth _ _ _ Hwf). lia. }
  unfold alreadyPushed. rewrite Ha. cbn. eexists. split; [done|]. exists x.
  by rewrite head_lookup.
Qed.

(** The insertion cycle after [advance]. *)
Definition next_after (f : FU) (now : Z) (pushed : bool) : Z :=
  if pushed then
    if nextInsertCycle f <=? now then u64 (now + issueLat (description f)) else nextInsertCycle f
  else if stalled (fuPipe f) && negb (nextInsertCycle f =? 0) then u64 (nextInsertCycle f + 1)
  else nextInsertCycle f.

Lemma fu_advance_Ok d f now : fu_ok d f →
  ∃ f' b, alreadyPushed (fuPipe f) = Ok b ∧ fu_advance f now = Ok f' ∧ fu_ok d f'
    ∧ description f' = description f ∧ nextInsertCycle f' = next_after f now b.
Proof.
  intros Hf. destruct (fu_pushed d f Hf) as (b & Hb & _). destruct Hf as [Hwf Hd].
  destruct (last (ssp_line bubble (fuPipe f))) as [x|] eqn:El.
  2:{ apply last_None in El. pose proof (ssp_line_length bubble d _ Hwf) as Hl. by rewrite El in Hl. }
  destruct (sspAdvance_Ok bubble d (fuPipe f) x Hwf El Hd) as (p & Hp & Hwf' & _).
  unfold fu_advance. rewrite Hb. cbn [rbind]. rewrite Hp. cbn [rbind].
  eexists _, b. split; [done|]. split; [done|]. by split_and!.
Qed.

Lemma fu_push_Ok d f inst : fu_ok d f → alreadyPushed (fuPipe f) = Ok false → isBubble inst = false →
  ∃ f', fu_push f inst = Ok f' ∧ fu_ok d f' ∧ description f' = description f
    ∧ nextInsertCycle f' = nextInsertCycle f ∧ alreadyPushed (fuPipe f') = Ok true.
Proof.
  intros Hf Hap Hi. destruct (fu_pushed d f Hf) as (b & Hb & x & Hx & ->).
  rewrite Hap in Hb. injection Hb as Hb. destruct Hf as [Hwf Hd].
  destruct (push_Ok bubble d (fuPipe f) inst x Hwf Hx Hd) as [Hpush _].
  destruct Hpush as (p & Hp & Hwf' & Hl & _); [by destruct (isBubble x)|].
  unfold fu_push. rewrite Hp. cbn. eexists. split; [done|]. split; [by split|]. split; [done|].
  split; [done|]. cbn.
  destruct (fu_pushed d (mkFUPipeline (description f) (capabilityList f)
    (cantForwardFromFUIndices f) (nextInsertCycle f) p)) as (b' & Hb' & y & Hy & ->); [by split|].
  cbn in *. rewrite Hb'. rewrite Hl, head_lookup in Hy.
  pose proof (ssp_line_length bubble d _ Hwf) as Hlen.
  rewrite list_lookup_insert_eq in Hy by lia. injection Hy as <-. by rewrite Hi.
Qed.

Lemma fu_take_ok d f : fu_ok d f → fu_ok d (fu_take f).
Proof. intros [[? ? ? ? ? ?] ?]. split; [|done]. by split. Qed.

(** The clock stays far from overflow for the given number of cycles. *)
Definition clock_ok (L : Z) (next : Z) (cs : list fu_cycle) : Prop :=
  Forall (λ c, 0 ≤ at_ c ∧ at_ c + L + Z.of_nat (length cs) < 2 ^ 63) cs
  ∧ 0 ≤ next ∧ next + Z.of_nat (length cs) < 2 ^ 63.

(** After a push at [now] nothing can be inserted before [now + issueLat]. *)
Lemma fu_step_Ok d f c L : fu_ok d f → issueLat (description f) = L → 0 < L →
  0 ≤ at_ c → at_ c + L < 2 ^ 64 → 0 ≤ nextInsertCycle f → nextInsertCycle f + 1 < 2 ^ 64 →
  ∃ f' p, fu_step f c = Ok (f', p) ∧ fu_ok d f' ∧ description f' = description f
    ∧ nextInsertCycle f ≤ nextInsertCycle f' ≤ Z.max (nextInsertCycle f + 1) (at_ c + L)
    ∧ (p = true → (nextInsertCycle f = 0 ∨ nextInsertCycle f ≤ at_ c)
                  ∧ at_ c + L ≤ nextInsertCycle f').
Proof.
  intros Hf HL HL0 Hat Hatb Hn Hnb. unfold fu_step. cbn zeta.
  set (f0 := if take_ c then fu_take f else f).
  assert (fu_ok d f0 ∧ description f0 = description f ∧ nextInsertCycle f0 = nextInsertCycle f)
    as (Hf0 & Hd0 & Hn0) by (unfold f0; destruct (take_ c); split_and!; try done; by apply fu_take_ok).
  destruct (fu_pushed d f0 Hf0) as (b & Hb & _). rewrite Hb. cbn [rbind].
  assert (Hnopush : ∃ f' p, (f ← fu_advance f0 (at_ c); Ok (f, false)) = Ok (f', p) ∧ fu_ok d f'
    ∧ description f' = description f
    ∧ nextInsertCycle f ≤ nextInsertCycle f' ≤ Z.max (nextInsertCycle f + 1) (at_ c + L)
    ∧ (p = true → (nextInsertCycle f = 0 ∨ nextInsertCycle f ≤ at_ c)
                  ∧ at_ c + L ≤ nextInsertCycle f')).
  { destruct (fu_advance_Ok d f0 (at_ c) Hf0) as (f1 & b1 & _ & -> & Hok1 & Hd1 & Hn1). cbn [rbind].
    exists f1, false. split; [done|]. split; [done|]. rewrite Hd1. split; [done|]. split; [|done].
    rewrite Hn1. unfold next_after. rewrite Hn0, Hd0, HL.
    destruct b1; [destruct (Z.leb_spec (nextInsertCycle f) (at_ c));
                  rewrite ?u64_id by lia; lia|].
    destruct (stalled (fuPipe f0) && _); rewrite ?u64_id by lia; lia. }
  destruct (push_ c) as [inst|]; [|done].
  destruct (canInsert f0 (at_ c) && negb b && negb (isBubble inst)) eqn:Ec; [|done].
  apply andb_prop in Ec as [Ec Hi%negb_true_iff]. apply andb_prop in Ec as [Hc Hb'%negb_true_iff].
  subst b. destruct (fu_push_Ok d f0 inst Hf0 Hb Hi) as (f1 & -> & Hok1 & Hd1 & Hn1 & Hap). cbn [rbind].
  destruct (fu_advance_Ok d f1 (at_ c) Hok1) as (f2 & b2 & Hb2 & -> & Hok2 & Hd2 & Hn2). cbn [rbind].
  rewrite Hap in Hb2. injection Hb2 as <-.
  exists f2, true. split; [done|]. split; [done|]. rewrite Hd2, Hd1. split; [done|].
  rewrite Hn2. unfold next_after. rewrite Hn1, Hn0, Hd1, Hd0, HL.
  unfold canInsert in Hc. rewrite Hn0 in Hc. apply orb_prop in Hc as [Hc%Z.eqb_eq|Hc%Z.leb_le].
  all: destruct (Z.leb_spec (nextInsertCycle f) (at_ c)); rewrite ?u64_id by lia; lia.
Qed.

(** Consecutive elements are at least [L] apart. *)
Definition spaced (L : Z) (ps : list Z) : Prop :=
  ∀ j p q, ps !! j = Some p → ps !! S j = Some q → p + L ≤ q.

Lemma fu_run_Ok d L cs : ∀ f, fu_ok d f → issueLat (description f) = L → 0 < L →
  clock_ok L (nextInsertCycle f) cs →
  ∃ f' ps, fu_run f cs = Ok (f', ps) ∧ spaced L ps
    ∧ (nextInsertCycle f ≠ 0 → Forall (λ q, nextInsertCycle f ≤ q) ps).
Proof.
  induction cs as [|c cs IH]; intros f Hf HL HL0 [Hcs [Hn Hnb]].
  { exists f, []. split; [done|]. split; [done|]. constructor. }
  apply Forall_cons in Hcs as [[Hc Hcb] Hcs]. cbn [length] in *.
  destruct (fu_step_Ok d f c L Hf HL HL0) as (f1 & p & Hstep & Hf1 & Hd1 & Hn1 & Hp); [lia..|].
  destruct (IH f1 Hf1) as (f2 & ps & Hrun & Hsp & Hge); [by rewrite Hd1|done| |].
  { split; [|lia]. eapply Forall_impl; [apply Hcs|]. cbn. lia. }
  cbn [fu_run]. rewrite Hstep. cbn [rbind]. rewrite Hrun. cbn [rbind]. eexists _, _. split; [done|].
  destruct p.
  - destruct (Hp eq_refl) as [Hen Hnext]. specialize (Hge ltac:(lia)). split.
    + intros [|j] x y Hx Hy; cbn in Hx, Hy; [|by eapply Hsp].
      simplify_eq. apply list_elem_of_lookup_2 in Hy. rewrite Forall_forall in Hge.
      specialize (Hge y Hy). lia.
    + intros Hne. constructor; [lia|]. eapply Forall_impl; [apply Hge|]. cbn. lia.
  - split; [done|]. intros Hne. eapply Forall_impl; [apply Hge; lia|]. cbn. lia.
Qed.
End issue.
Arguments fu_cycle T : clear implicits.

(** a functional unit respects its issue latency: for every unit built
    from a description and every history of cycles (taking results, pushing
    when [canInsert] allows it, advancing), no assertion fails and two
    instructions never enter the unit less than [issueLat] cycles apart; and
    [canInsert] holds exactly when [cyclesBeforeInsert] is zero. *)
Theorem fu_issue_latency {T} `{IsBubble T} `{!Bubble T} (Num_OpClasses : Z) (d : MyMinorFU)
    (f : FUPipeline T) (cs : list (fu_cycle T)) :
  0 < opLat d < 2 ^ 30 → 0 < issueLat d < 2 ^ 61 → Z.of_nat (length cs) < 2 ^ 61 →
  Forall (λ c, 0 ≤ at_ c < 2 ^ 61) cs → newFUPipeline Num_OpClasses d = Ok f →
  (∃ f' ps, fu_run f cs = Ok (f', ps) ∧ spaced (issueLat d) ps)
  ∧ ∀ (g : FUPipeline T) now, 0 ≤ now < 2 ^ 64 → 0 ≤ nextInsertCycle g < 2 ^ 64 →
      canInsert g now = (cyclesBeforeInsert g now =? 0).
Proof.
  intros Hop Hil Hlen Hcs Hnew. split.
  - unfold newFUPipeline in Hnew.
    destruct (newSSP_Ok (bubble : T) (opLat d) Hop) as (p & Hp & Hwf & _).
    rewrite Hp in Hnew. cbn [rbind] in Hnew. res_inv.
    destruct (fu_run_Ok (opLat d) (issueLat d) cs
      (mkFUPipeline d r0 r1 0 p)) as (f' & ps & Hrun & Hsp & _);
      [split; [done|lia]|done|lia| |by exists f', ps].
    split; [|cbn; lia]. eapply Forall_impl; [apply Hcs|]. cbn. lia.
  - intros g now Hnow Hng. unfold canInsert, cyclesBeforeInsert.
    destruct (Z.eqb_spec (nextInsertCycle g) 0); cbn [orb]; [done|].
    destruct (Z.leb_spec (nextInsertCycle g) now), (Z.ltb_spec (nextInsertCycle g) now); try done; try lia.
    + rewrite u64_id by lia. symmetry. apply Z.eqb_eq. lia.
    + rewrite u64_id by lia. symmetry. apply Z.eqb_neq. lia.
Qed.

Lemma fu_issue_latency_witness :
  ∃ f : FUPipeline (MyMinorDynInst Toy.isa),
  let cs := [mkFuCycle 1 false (Some (Toy.inst Toy.alu 4096 1));
             mkFuCycle 2 false (Some (Toy.inst Toy.alu 4100 2));
             mkFuCycle 3 true (Some (Toy.inst Toy.alu 4104 3))] in
  newFUPipeline 8 (mkFU [1] 2 2 [] []) = Ok f
  ∧ (∃ f' ps, fu_run f cs = Ok (f', ps) ∧ spaced 2 ps)
  ∧ ∀ g now, 0 ≤ now < 2 ^ 64 → 0 ≤ nextInsertCycle g < 2 ^ 64 →
      canInsert (T := MyMinorDynInst Toy.isa) g now = (cyclesBeforeInsert g now =? 0).
Proof.
  eexists. split; [vm_compute; reflexivity|].
  apply (fu_issue_latency 8 (mkFU [1] 2 2 [] [])); cbn; try lia.
  - repeat (constructor; [cbn; lia|]). constructor.
  - vm_compute. reflexivity.
Defined.
