(* ===== verification/Repack.v ===== *)
(** * The common shape of the Decode and ExecuteDummy stages
    (src/cpu/myminor/decode.cc, src/cpu/myminor/executeDummy.cc)

    Both stages take bundles of instructions from per-thread input buffers,
    turn them one by one into output instructions and pack these into one
    output bundle per cycle.  They differ in what one instruction becomes;
    that part is the record [RepackOps].  [Repack_evaluate] is the whole
    [evaluate()] of the two stages.

    The specification is a transducer on the stream of instructions that
    ignores how the stream is cut into bundles. *)
From S2P Require Import Prelude TimeBuf Buffers Activity LVPT PipeData Cpu.

(** What a stage does with one instruction; [Info] is its per-thread record
    ([DecodeThreadInfo], [ExecuteDummyThreadInfo]). *)
Record RepackOps `{I : Isa} (Info : Type) := mkRepackOps {
  inputIndex : Info → Z;
  blocked : Info → bool;
  setBlocked : bool → Info → Info;
  skipBubble : Info → Info;
  emit : Info → MyMinorDynInst I → res (Info * MyMinorDynInst I);
  endOk : Info → bool;
  popReset : Info → Info;
}.
Arguments mkRepackOps {I Info} _ _ _ _ _ _ _.
Arguments inputIndex {I Info} _ _.
Arguments blocked {I Info} _ _.
Arguments setBlocked {I Info} _ _ _.
Arguments skipBubble {I Info} _ _.
Arguments emit {I Info} _ _ _.
Arguments endOk {I Info} _ _.
Arguments popReset {I Info} _ _.

(** The state of a stage. *)
Record Stage `{I : Isa} (Info : Type) := mkStage {
  outputWidth : Z;
  processMoreThanOneInput : bool;
  inputBuffer : list (InputBuffer (ForwardInstData I));
  stageInfo : list Info;
  threadPriority : Z;
}.
Arguments mkStage {I Info} _ _ _ _ _.
Arguments outputWidth {I Info} _.
Arguments processMoreThanOneInput {I Info} _.
Arguments inputBuffer {I Info} _.
Arguments stageInfo {I Info} _.
Arguments threadPriority {I Info} _.

(** What the stage shares with the rest of the CPU in one cycle: the element
    at the output of its input latch, its output slot, the next stage's input
    buffers and the activity recorder. *)
Record StageIo `{I : Isa} := mkStageIo {
  inp : ForwardInstData I;
  out : ForwardInstData I;
  nextStageReserve : list (InputBuffer (ForwardInstData I));
  activityRecorder : ActivityRecorder;
}.

Arguments mkStageIo {I} _ _ _ _.
Arguments inp {I} _.
Arguments out {I} _.
Arguments nextStageReserve {I} _.
Arguments activityRecorder {I} _.

Section stage.
Context `{I : Isa} {Info : Type} (ops : RepackOps Info).
Notation IB := (InputBuffer (ForwardInstData I)).

(** [getInput(tid)] *)
Definition getInput (b : IB) : res (option (ForwardInstData I)) :=
  if IB_empty b then Ok None
  else head ← IB_front b; Ok (if isBubble head then None else Some head).

(** [popInput(tid)] *)
Definition popInput (b : IB) : res IB := if IB_empty b then Ok b else IB_pop b.

(** the body of the packing loop up to the test for the end of the input *)
Definition packOne (outputWidth : Z) (info : Info) (inst : MyMinorDynInst I)
    (insts_out : ForwardInstData I) (output_index : Z)
  : res (Info * ForwardInstData I * Z) :=
  if isBubble inst then Ok (skipBubble ops info, insts_out, output_index)
  else
    ' (info, output_inst) ← emit ops info inst;
    insts_out ← (if output_index =? 0 then resize insts_out outputWidth else Ok insts_out);
    insts_out ← put_inst insts_out output_index output_inst;
    Ok (info, insts_out, u32 (output_index + 1)).

(** the packing loop *)
Fixpoint packLoop (fuel : nat) (outputWidth : Z) (more : bool) (b : IB) (info : Info)
    (insts_in : option (ForwardInstData I)) (insts_out : ForwardInstData I) (output_index : Z)
  : res (IB * Info * ForwardInstData I * Z) :=
  match insts_in with
  | None => Ok (b, info, insts_out, output_index)
  | Some d =>
      if (inputIndex ops info <? width d) && (output_index <? outputWidth) then
        match fuel with
        | O => Stop OutOfFuel
        | S fuel =>
            inst ← vget (insts d) (inputIndex ops info);
            ' (info, insts_out, output_index) ← packOne outputWidth info inst insts_out output_index;
            if inputIndex ops info =? width d then
              check (endOk ops info);
              b ← popInput b;
              insts_in ← (if more then getInput b else Ok None);
              packLoop fuel outputWidth more b (popReset ops info) insts_in insts_out output_index
            else packLoop fuel outputWidth more b info (Some d) insts_out output_index
        end
      else Ok (b, info, insts_out, output_index)
  end.

(** Enough rounds for the loop: each emits an instruction or skips a slot. *)
Definition packFuel (outputWidth : Z) (b : IB) : nat :=
  Z.to_nat outputWidth + length (mjoin (insts <$> contents b)).

(** the update of [blocked] for every thread *)
Definition blockAll (next : list IB) (infos : list Info) (numThreads : Z) : res (list Info) :=
  mfold (λ infos tid,
           n ← vget next tid; i ← vget infos tid;
           vset infos tid (setBlocked ops (negb (canReserve n)) i))
    infos (zrange 0 (numThreads - 1)).

(** [getScheduledThread()] *)
Definition getScheduledThread (bufs : list IB) (infos : list Info)
    (policy : ThreadPolicy) (numThreads priority : Z) (shuffled : list Z) : res (option Z) :=
  firstReady (λ tid, b ← vget bufs tid; i ← vget infos tid; d ← getInput b;
                     Ok (match d with Some _ => negb (blocked ops i) | None => false end))
    (priorityList policy numThreads priority shuffled).

(** the loop that marks the stage active *)
Fixpoint activateIfWork (stageId : Z) (bufs next : list IB) (ar : ActivityRecorder) (tids : list Z)
  : res ActivityRecorder :=
  match tids with
  | [] => Ok ar
  | i :: tids =>
      b ← vget bufs i; d ← getInput b;
      match d with
      | Some _ =>
          n ← vget next i;
          if canReserve n then activateStage ar stageId
          else activateIfWork stageId bufs next ar tids
      | None => activateIfWork stageId bufs next ar tids
      end
  end.

(** the work on the scheduled thread *)
Definition packThread (s : Stage Info) (bufs : list IB) (infos : list Info)
    (insts_out : ForwardInstData I) (tid : Z)
  : res (list IB * list Info * ForwardInstData I) :=
  b ← vget bufs tid; info ← vget infos tid;
  insts_in ← getInput b;
  ' (b, info, insts_out, _) ←
    packLoop (packFuel (outputWidth s) b) (outputWidth s) (processMoreThanOneInput s) b info
      insts_in insts_out 0;
  bufs ← vset bufs tid b; infos ← vset infos tid info;
  Ok (bufs, infos, insts_out).

(** [evaluate()] *)
Definition Repack_evaluate (stageId : Z) (policy : ThreadPolicy) (numThreads : Z) (shuffled : list Z)
    (s : Stage Info) (io : StageIo) : res (Stage Info * StageIo) :=
  let itid := instsThreadId (inp io) in
  bufs ← (if negb (isBubble (inp io)) then
            b ← vget (inputBuffer s) itid; b ← setTail b (inp io); vset (inputBuffer s) itid b
          else Ok (inputBuffer s));
  check (isBubble (out io));
  infos ← blockAll (nextStageReserve io) (stageInfo s) numThreads;
  sched ← getScheduledThread bufs infos policy numThreads (threadPriority s) shuffled;
  ' (bufs, infos, insts_out) ←
    match sched with
    | Some tid => packThread s bufs infos (out io) tid
    | None => Ok (bufs, infos, out io)
    end;
  let tid := default InvalidThreadID sched in
  ' (insts_out, ar, next) ←
    (if negb (isBubble insts_out) then
       ar ← activity (activityRecorder io);
       n ← vget (nextStageReserve io) tid;
       next ← vset (nextStageReserve io) tid (reserve n);
       Ok (mkInsts (insts insts_out) tid, ar, next)
     else Ok (insts_out, activityRecorder io, nextStageReserve io));
  ar ← activateIfWork stageId bufs next ar (zrange 0 (numThreads - 1));
  bufs ← (if negb (isBubble (inp io)) then
            b ← vget bufs itid; vset bufs itid (pushTail b)
          else Ok bufs);
  Ok (mkStage (outputWidth s) (processMoreThanOneInput s) bufs infos
        (default (threadPriority s) sched),
      mkStageIo (inp io) insts_out next ar).

End stage.

(** ** Specification *)

(** A transducer: one step turns the head of the stream into one output
    instruction and says whether the head is finished. *)
Definition Transducer `{I : Isa} (M : Type) : Type :=
  M → MyMinorDynInst I → M * MyMinorDynInst I * bool.

(** At most [n] steps: the outputs, the new state and the rest of the stream. *)
Fixpoint sp_take `{I : Isa} {M} (sp : Transducer M) (n : nat) (m : M) (l : list (MyMinorDynInst I))
  : list (MyMinorDynInst I) * M * list (MyMinorDynInst I) :=
  match n, l with
  | O, _ => ([], m, l)
  | S _, [] => ([], m, [])
  | S n, i :: r =>
      let '(m1, o, done) := sp m i in
      let '(os, m2, l2) := sp_take sp n m1 (if done then r else i :: r) in
      (o :: os, m2, l2)
  end.

(** What the proofs need of a stage: it implements the transducer [sp] on the
    abstraction [abs] of its thread record; [mid] says that the stage is
    between two outputs of one instruction and [iok] is an invariant of the
    thread record. *)
Class RepackOk `{I : Isa} {Info M} (ops : RepackOps Info) (abs : Info → M) (sp : Transducer M)
    (mid : M → bool) (good : MyMinorDynInst I → Prop) (iok : Info → Prop) := {
  ok_emit info inst : iok info → 0 ≤ inputIndex ops info < 2 ^ 31 → isBubble inst = false →
    good inst →
    ∃ info' o, emit ops info inst = Ok (info', o) ∧ iok info'
      ∧ ∃ done, sp (abs info) inst = (abs info', o, done)
      ∧ inputIndex ops info' = inputIndex ops info + b2z done
      ∧ isBubble o = false ∧ mid (abs info') = negb done;
  ok_skip info : iok info → 0 ≤ inputIndex ops info < 2 ^ 31 → mid (abs info) = false →
    iok (skipBubble ops info) ∧ abs (skipBubble ops info) = abs info
    ∧ inputIndex ops (skipBubble ops info) = inputIndex ops info + 1;
  ok_end info : iok info → mid (abs info) = false → endOk ops info = true;
  ok_pop info : iok info → mid (abs info) = false →
    iok (popReset ops info) ∧ abs (popReset ops info) = abs info ∧ inputIndex ops (popReset ops info) = 0;
  ok_block b info : (iok info → iok (setBlocked ops b info))
    ∧ abs (setBlocked ops b info) = abs info
    ∧ inputIndex ops (setBlocked ops b info) = inputIndex ops info
    ∧ blocked ops (setBlocked ops b info) = b;
}.

(** ** Streams *)

Section stream.
Context `{I : Isa}.
Notation IB := (InputBuffer (ForwardInstData I)).
Implicit Types (b : IB) (d : ForwardInstData I).

Definition slots b : list (MyMinorDynInst I) := mjoin (insts <$> contents b).

Definition nonBubble (i : MyMinorDynInst I) : bool := negb (isBubble i).

(** The instructions of the buffer from slot [idx] on. *)
Definition pend b (idx : Z) : list (MyMinorDynInst I) :=
  List.filter nonBubble (drop (Z.to_nat idx) (slots b)).

Lemma slots_cons b d r : contents b = d :: r → slots b = insts d ++ mjoin (insts <$> r).
Proof. intros Hc. unfold slots. by rewrite Hc. Qed.

Lemma slots_lookup b d r k : contents b = d :: r → (k < length (insts d))%nat →
  slots b !! k = insts d !! k.
Proof. intros Hc Hk. rewrite (slots_cons b d r) by done. by apply lookup_app_l. Qed.

Lemma pend_emit b d r idx inst : contents b = d :: r → 0 ≤ idx →
  insts d !! Z.to_nat idx = Some inst → isBubble inst = false →
  pend b idx = inst :: pend b (idx + 1).
Proof.
  intros Hc Hi Hl Hb. pose proof (lookup_lt_Some _ _ _ Hl) as Hlt. unfold pend.
  rewrite (drop_S (slots b) inst) by (by rewrite (slots_lookup b d r)). cbn.
  unfold nonBubble at 1. rewrite Hb. cbn. by replace (Z.to_nat (idx + 1)) with (S (Z.to_nat idx)) by lia.
Qed.

Lemma pend_skip b d r idx inst : contents b = d :: r → 0 ≤ idx →
  insts d !! Z.to_nat idx = Some inst → isBubble inst = true → pend b idx = pend b (idx + 1).
Proof.
  intros Hc Hi Hl Hb. pose proof (lookup_lt_Some _ _ _ Hl) as Hlt. unfold pend.
  rewrite (drop_S (slots b) inst) by (by rewrite (slots_lookup b d r)). cbn.
  unfold nonBubble at 1. rewrite Hb. cbn. by replace (Z.to_nat (idx + 1)) with (S (Z.to_nat idx)) by lia.
Qed.

Lemma pend_pop b b' d r : contents b = d :: r → contents b' = r →
  pend b (width d) = pend b' 0.
Proof.
  intros Hc Hc'. unfold pend, width. rewrite (slots_cons b d r), Nat2Z.id by done.
  rewrite drop_app_length. unfold slots. by rewrite Hc'.
Qed.

Lemma getInput_contents b : Forall (λ d, isBubble d = false) (contents b) →
  (is_Some (elementPtr b) → queue (ibQueue b) = []) →
  getInput b = Ok (head (contents b)).
Proof.
  unfold getInput, IB_empty, IB_front, contents, Queue_empty, Queue_front.
  intros Hf Hp. destruct (elementPtr b) as [d|]; cbn in *.
  - by rewrite (proj1 (proj1 (Forall_cons _ _ _) Hf)).
  - destruct (queue (ibQueue b)) as [|d l]; [done|]. cbn.
    by rewrite (proj1 (proj1 (Forall_cons _ _ _) Hf)).
Qed.

Lemma popInput_contents b d r : contents b = d :: r →
  (is_Some (elementPtr b) → queue (ibQueue b) = []) →
  ∃ b', popInput b = Ok b' ∧ contents b' = r ∧ elementPtr b' = None.
Proof.
  unfold popInput, IB_empty, IB_pop, contents, Queue_empty, Queue_pop.
  intros Hc Hp. destruct (elementPtr b) as [x|]; cbn in *.
  - injection Hc as -> Hr. eexists. by repeat split.
  - rewrite Hc. cbn. eexists. by repeat split.
Qed.
End stream.

Lemma sp_take_app `{I : Isa} {M} (sp : Transducer M) n k m l o1 m1 l1 o2 m2 l2 :
  sp_take sp n m l = (o1, m1, l1) → length o1 = n → sp_take sp k m1 l1 = (o2, m2, l2) →
  sp_take sp (n + k) m l = (o1 ++ o2, m2, l2).
Proof.
  revert m l o1. induction n as [|n IH]; intros m l o1 H1 Hl H2; cbn in *.
  { by simplify_eq. }
  destruct l as [|i r]; [by simplify_eq|].
  destruct (sp m i) as [[m' o] done]. destruct (sp_take sp n m' _) as [[os mm] ll] eqn:E.
  simplify_eq. rewrite (IH _ _ os E); [done|by cbn in Hl; lia|done].
Qed.

(** Instructions that arrive later do not change the outputs already made. *)
Lemma sp_take_more `{I : Isa} {M} (sp : Transducer M) n m l l' o1 m1 l1 :
  sp_take sp n m l = (o1, m1, l1) → length o1 = n →
  sp_take sp n m (l ++ l') = (o1, m1, l1 ++ l').
Proof.
  revert m l o1. induction n as [|n IH]; intros m l o1 H1 Hl; cbn in *.
  { by simplify_eq. }
  destruct l as [|i r]; [by simplify_eq|]. cbn [app].
  destruct (sp m i) as [[m' o] done]. destruct (sp_take sp n m' _) as [[os mm] ll] eqn:E.
  simplify_eq. specialize (IH _ _ os E ltac:(cbn in Hl; lia)).
  destruct done; cbn [app] in IH; by rewrite IH.
Qed.

(** ** The packing loop implements the transducer *)

Section loop.
Context `{I : Isa} {Info M : Type} (ops : RepackOps Info) (abs : Info → M) (sp : Transducer M).
Context (mid : M → bool) (good : MyMinorDynInst I → Prop) (iok : Info → Prop)
  `{ROK : !RepackOk ops abs sp mid good iok}.
Context (W : Z) (HW : 0 ≤ W < MAX_FORWARD_INSTS).
Notation IB := (InputBuffer (ForwardInstData I)).
Notation DynInst := (MyMinorDynInst I).
Implicit Types (b : IB) (d : ForwardInstData I) (info : Info).

Record line_ok d : Prop := {
  lo_bubble : isBubble d = false;
  lo_width : width d < 2 ^ 31;
  lo_good : ∀ k i, insts d !! k = Some i → isBubble i = false → good i;
}.

(** The position of a thread in its input. *)
Definition pos_ok b info : Prop :=
  match contents b with
  | [] => inputIndex ops info = 0 ∧ mid (abs info) = false
  | d :: _ =>
      0 ≤ inputIndex ops info < width d
      ∧ (mid (abs info) = true → ∃ i, insts d !! Z.to_nat (inputIndex ops info) = Some i
                                     ∧ isBubble i = false)
  end.

Record thread_wf b info : Prop := {
  tw_ptr : is_Some (elementPtr b) → queue (ibQueue b) = [];
  tw_lines : Forall line_ok (contents b);
  tw_pos : pos_ok b info;
  tw_iok : iok info;
}.

(** The output bundle after the outputs [outs]; [out0] is the empty one. *)
Definition out_is (out0 : ForwardInstData I) (outs : list DynInst) : ForwardInstData I :=
  match outs with
  | [] => out0
  | _ => mkInsts (outs ++ replicate (Z.to_nat W - length outs) bubbleInst) (instsThreadId out0)
  end.

Lemma line_nonempty d : line_ok d → 0 < width d.
Proof.
  intros [Hb _ _]. unfold width, isBubble, Insts_isBubble in *. destruct (insts d); [done|]. cbn. lia.
Qed.

(** After the last slot of the head bundle the thread is at the start of the next. *)
Lemma thread_wf_next b' info : elementPtr b' = None → Forall line_ok (contents b') →
  inputIndex ops info = 0 → mid (abs info) = false → iok info → thread_wf b' info.
Proof.
  intros Hp Hl Hi Hm Hio. split; [rewrite Hp; by intros []|done| |done]. unfold pos_ok.
  destruct (contents b') as [|d r]; [done|]. apply Forall_cons in Hl as [Hl _].
  pose proof (line_nonempty d Hl). rewrite Hi. split; [lia|]. by rewrite Hm.
Qed.

Lemma out_is_ne out0 outs : outs ≠ [] →
  out_is out0 outs
  = mkInsts (outs ++ replicate (Z.to_nat W - length outs) bubbleInst) (instsThreadId out0).
Proof. by destruct outs. Qed.

Lemma put_out out0 outs o : Z.of_nat (length outs) < W →
  (insts_out ← (if Z.of_nat (length outs) =? 0 then resize (out_is out0 outs) W
                else Ok (out_is out0 outs));
   put_inst insts_out (Z.of_nat (length outs)) o) = Ok (out_is out0 (outs ++ [o])).
Proof.
  intros Hlt. unfold put_inst. destruct outs as [|x outs].
  - change (Z.of_nat (length [])) with 0 in *. change (0 =? 0) with true. cbn [out_is]. unfold resize.
    rewrite assert_true by (apply Z.ltb_lt; lia). cbn [rbind insts instsThreadId app].
    rewrite vset_lt by (rewrite length_replicate; lia). cbn [rbind].
    replace (Z.to_nat W) with (S (Z.to_nat W - 1)) by lia. cbn.
    done.
  - rewrite (proj2 (Z.eqb_neq _ 0)) by (cbn; lia). cbn [rbind].
    rewrite !out_is_ne by (done || by destruct outs). generalize dependent (x :: outs). intros l Hlt.
    cbn [insts instsThreadId].
    rewrite vset_lt by (rewrite length_app, length_replicate; lia). cbn [rbind].
    do 2 f_equal. rewrite Nat2Z.id, insert_app_r_alt, Nat.sub_diag by lia.
    rewrite length_app. cbn [length].
    replace (Z.to_nat W - length l)%nat with (S (Z.to_nat W - (length l + 1))) by lia.
    cbn. by rewrite <- app_assoc.
Qed.

Lemma packOne_Ok b info d r inst out0 outs :
  thread_wf b info → contents b = d :: r → Z.of_nat (length outs) < W →
  insts d !! Z.to_nat (inputIndex ops info) = Some inst →
  ∃ info' outs1 step, packOne ops W info inst (out_is out0 outs) (Z.of_nat (length outs))
      = Ok (info', out_is out0 (outs ++ outs1), Z.of_nat (length (outs ++ outs1)))
    ∧ iok info' ∧ inputIndex ops info' = inputIndex ops info + b2z step
    ∧ mid (abs info') = negb step
    ∧ (step = false → isBubble inst = false)
    ∧ sp_take sp (length outs1) (abs info) (pend b (inputIndex ops info))
        = (outs1, abs info', pend b (inputIndex ops info'))
    ∧ Forall (λ o, isBubble o = false) outs1
    ∧ 1 ≤ Z.of_nat (length outs1) + b2z step ∧ (length outs1 ≤ 1)%nat.
Proof.
  intros [_ Hl Hp Hio] Hc Hlt Hi. unfold pos_ok in Hp. rewrite Hc in Hp, Hl.
  apply Forall_cons in Hl as [[_ Hw Hg] _]. destruct Hp as [Hidx Hmid].
  unfold packOne. destruct (isBubble inst) eqn:Hb.
  - assert (mid (abs info) = false) as Hm.
    { destruct (mid (abs info)); [|done]. destruct (Hmid eq_refl) as (? & ? & ?). congruence. }
    destruct (ok_skip info) as (Hio' & Ha & Hs); [done|lia|done|].
    exists (skipBubble ops info), [], true. rewrite app_nil_r, Hs, Ha. cbn [length sp_take b2z].
    rewrite <- (pend_skip b d r _ inst) by (done || lia). repeat split; try (done || lia).
  - destruct (ok_emit info inst) as (info' & o & He & Hio' & fin & Hsp & Hs & Ho & Hm);
      [done|lia|done|by eapply Hg|]. exists info', [o], fin. rewrite He. cbn [rbind].
    pose proof (put_out out0 outs o Hlt) as Hput. apply bind_Ok in Hput as (out1 & -> & Hput).
    cbn [rbind]. rewrite Hput. cbn [rbind]. rewrite length_app. cbn [length].
    rewrite u32_id by (unfold MAX_FORWARD_INSTS in HW; lia).
    replace (Z.of_nat (length outs) + 1) with (Z.of_nat (length outs + 1)) by lia.
    repeat (split; [done|]). split; [|split; [by constructor|destruct fin; cbn; lia]].
    rewrite (pend_emit b d r _ inst) by (done || lia). cbn [sp_take]. rewrite Hsp, Hs.
    destruct fin; cbn [b2z]; [done|]. rewrite Z.add_0_r.
    by rewrite (pend_emit b d r (inputIndex ops info) inst) by (done || lia).
Qed.

(** The thread record after a round that leaves the bundle [d] unfinished. *)
Lemma thread_wf_stay b info info' d r inst step : thread_wf b info → contents b = d :: r →
  insts d !! Z.to_nat (inputIndex ops info) = Some inst →
  inputIndex ops info' = inputIndex ops info + b2z step → mid (abs info') = negb step →
  (step = false → isBubble inst = false) → inputIndex ops info' ≠ width d → iok info' →
  thread_wf b info'.
Proof.
  intros [Hp Hl Hpos _] Hc Hi Hs Hm Hb Hne Hio. split; [done|done| |done].
  unfold pos_ok in *. rewrite Hc in *. destruct Hpos as [Hidx _].
  split; [destruct step; cbn in *; lia|]. intros Hmid. destruct step; [by rewrite Hm in Hmid|].
  exists inst. rewrite Hs. cbn [b2z]. rewrite Z.add_0_r. auto.
Qed.

Lemma packLoop_Ok more out0 fuel : ∀ b info insts_in outs,
  thread_wf b info → insts_in = None ∨ insts_in = head (contents b) →
  Z.of_nat (length outs) ≤ W →
  (Z.to_nat W - length outs + length (drop (Z.to_nat (inputIndex ops info)) (slots b)) ≤ fuel)%nat →
  ∃ b' info' outs',
    packLoop ops fuel W more b info insts_in (out_is out0 outs) (Z.of_nat (length outs))
      = Ok (b', info', out_is out0 (outs ++ outs'), Z.of_nat (length (outs ++ outs')))
    ∧ thread_wf b' info'
    ∧ sp_take sp (length outs') (abs info) (pend b (inputIndex ops info))
        = (outs', abs info', pend b' (inputIndex ops info'))
    ∧ Z.of_nat (length (outs ++ outs')) ≤ W
    ∧ Forall (λ o, isBubble o = false) outs'
    ∧ (b' = b ∨ elementPtr b' = None)
    ∧ (insts_in = head (contents b) →
         Z.of_nat (length (outs ++ outs')) = W ∨ contents b' = []
         ∨ (more = false ∧ contents b' = tail (contents b))).
Proof.
  induction fuel as [|fuel IH]; intros b info insts_in outs Hwf Hin HleW Hfuel.
  all: destruct insts_in as [d|]; cbn [packLoop];
    [|exists b, info, []; rewrite app_nil_r; split_and!; try (done || auto);
      intros Hh; right; left; destruct (contents b); done].
  all: destruct Hin as [Hin|Hin]; [done|];
    destruct (contents b) as [|d' r] eqn:Hc; [done|]; injection Hin as <-.
  all: pose proof (tw_pos _ _ Hwf) as Hpos; unfold pos_ok in Hpos; rewrite Hc in Hpos;
    destruct Hpos as [Hidx _].
  all: rewrite (proj2 (Z.ltb_lt _ (width d))) by lia; cbn [andb].
  all: destruct (Z.ltb_spec (Z.of_nat (length outs)) W) as [Hlt|Hge];
    [|exists b, info, []; rewrite app_nil_r; split_and!; try (done || auto); intros _; left; lia].
  { exfalso. lia. }
  destruct (vget_lt (insts d) (inputIndex ops info)) as (inst & Hget); [unfold width in Hidx; lia|].
  rewrite Hget. cbn [rbind]. apply vget_Ok in Hget as [_ Hget].
  destruct (packOne_Ok b info d r inst out0 outs)
    as (info1 & outs1 & step & -> & Hio1 & Hs & Hm & Hb & Hsp1 & Hnb1 & Hprog & Hle1); [done..|].
  cbn [rbind]. assert (Z.of_nat (length (outs ++ outs1)) ≤ W) as HleW1.
  { rewrite length_app. lia. }
  assert (Hcat : ∀ b' info' outs' , sp_take sp (length outs') (abs info1) (pend b (inputIndex ops info1))
      = (outs', abs info', pend b' (inputIndex ops info')) →
    sp_take sp (length (outs1 ++ outs')) (abs info) (pend b (inputIndex ops info))
      = (outs1 ++ outs', abs info', pend b' (inputIndex ops info'))).
  { intros b' info' outs' H. rewrite length_app. by eapply sp_take_app. }
  destruct (Z.eqb_spec (inputIndex ops info1) (width d)) as [Heq|Hne].
  - assert (step = true) as -> by (destruct step; [done|cbn in Hs; lia]).
    cbn [negb] in Hm. rewrite (ok_end info1) by done. cbn [assert_ rbind].
    destruct (popInput_contents b d r) as (b1 & -> & Hc1 & He1); [done|apply Hwf|]. cbn [rbind].
    destruct (ok_pop info1 Hio1 Hm) as (Hio2 & Habs1 & Hidx1).
    pose proof (tw_lines _ _ Hwf) as Hlines. rewrite Hc in Hlines.
    apply Forall_cons in Hlines as [Hd Hr]. rewrite <- Hc1 in Hr.
    assert (thread_wf b1 (popReset ops info1)) as Hwf1.
    { apply thread_wf_next; [done|done|done|by rewrite Habs1|done]. }
    rewrite (getInput_contents b1);
      [|by eapply Forall_impl; [apply Hr|by intros ? []]|apply Hwf1].
    replace (if more then Ok (head (contents b1)) else Ok None)
      with (Ok (if more then head (contents b1) else None)) by by destruct more. cbn [rbind].
    destruct (IH b1 (popReset ops info1) (if more then head (contents b1) else None) (outs ++ outs1))
      as (b' & info' & outs' & Hl & Hwf' & Hsp' & HW' & Hnb' & Hel & Hpr);
      [done|destruct more; auto|done| |].
    { rewrite Hidx1. change (Z.to_nat 0) with 0%nat. rewrite drop_0, length_app.
      assert (length (slots b) = (length (insts d) + length (slots b1))%nat) as Hlen.
      { rewrite (slots_cons b d r), length_app by done. unfold slots. by rewrite Hc1. }
      rewrite length_drop in Hfuel. unfold width in *. cbn in Hs. lia. }
    rewrite <- app_assoc in Hl, HW', Hpr. exists b', info', (outs1 ++ outs').
    split; [done|]. split; [done|]. split.
    { apply Hcat. rewrite Heq, (pend_pop b b1 d r) by done. by rewrite <- Habs1, <- Hidx1. }
    split; [done|]. split; [by apply Forall_app|]. split; [right; by destruct Hel as [->|]|].
    intros _. destruct more; [by destruct (Hpr eq_refl) as [|[|[]]]; auto|].
    clear -Hl Hc1. destruct fuel; cbn in Hl; simplify_eq; auto.
  - destruct (IH b info1 (Some d) (outs ++ outs1))
      as (b' & info' & outs' & Hl & Hwf' & Hsp' & HW' & Hnb' & Hel & Hpr);
      [by eapply thread_wf_stay|right; by rewrite Hc|done| |].
    { rewrite !length_drop in *. rewrite length_app.
      assert (width d ≤ Z.of_nat (length (slots b))).
      { rewrite (slots_cons b d r), length_app by done. unfold width. lia. }
      destruct step; cbn in Hs, Hprog; lia. }
    rewrite <- app_assoc in Hl, HW', Hpr. exists b', info', (outs1 ++ outs').
    split; [done|]. split; [done|]. split; [by apply Hcat|]. split; [done|].
    split; [by apply Forall_app|]. split; [done|]. intros _. rewrite Hc in Hpr. by apply Hpr.
Qed.

(** ** One thread over a cycle *)

Lemma setTail_thread b info d : elementPtr b = None → line_ok d → thread_wf b info →
  ∃ b', setTail b d = Ok b' ∧ thread_wf b' info
    ∧ pend b' (inputIndex ops info) = pend b (inputIndex ops info) ++ List.filter nonBubble (insts d).
Proof.
  intros He Hd [_ Hl Hp Hio].
  assert (∃ b', setTail b d = Ok b' ∧ (is_Some (elementPtr b') → queue (ibQueue b') = [])
                ∧ contents b' = contents b ++ [d]) as (b' & Hs & Hptr & Hc).
  { unfold setTail, contents. rewrite He. cbn [assert_ rbind]. rewrite (lo_bubble d Hd).
    unfold Queue_empty. destruct (queue (ibQueue b)) as [|x l] eqn:Eq; cbn.
    - eexists. split; [done|]. cbn. by rewrite Eq.
    - eexists. split; [done|]. cbn. rewrite Queue_push_len by apply Hd.
      split; [by intros []|by rewrite Eq]. }
  exists b'. split; [done|]. split.
  - split; [done|rewrite Hc; by apply Forall_app; split; [|constructor]| |done].
    unfold pos_ok in *. rewrite Hc. destruct (contents b) as [|x l]; [|done].
    destruct Hp as [-> ->]. cbn. pose proof (line_nonempty d Hd). split; [lia|done].
  - unfold pend, slots. rewrite Hc, fmap_app, join_app. cbn [fmap list_fmap mjoin list_join].
    rewrite app_nil_r, drop_app_le, List.filter_app; [done|].
    fold (slots b). unfold pos_ok in Hp. destruct (contents b) as [|x l] eqn:Ec.
    + destruct Hp as [-> _]. cbn. lia.
    + rewrite (slots_cons b x l), length_app by done. unfold width in Hp. lia.
Qed.

Lemma pushTail_thread b info : thread_wf b info →
  elementPtr (pushTail b) = None ∧ contents (pushTail b) = contents b
  ∧ thread_wf (pushTail b) info.
Proof.
  intros [Hptr Hl Hp Hio]. assert (contents (pushTail b) = contents b) as Hc.
  { unfold pushTail, contents in *. destruct (elementPtr b) as [d|]; [|done]. cbn in *.
    apply Forall_cons in Hl as [Hd _]. rewrite Queue_push_len by apply Hd. by rewrite Hptr. }
  split; [done|]. split; [done|].
  split; [by intros []|by rewrite Hc| |done]. unfold pos_ok. by rewrite Hc.
Qed.

Lemma thread_wf_blocked b info x : thread_wf b info → thread_wf b (setBlocked ops x info).
Proof.
  intros [? ? Hp Hio]. destruct (ok_block x info) as (Hb & Ha & Hi & _).
  split; [done|done| |auto]. unfold pos_ok in *. by rewrite Ha, Hi.
Qed.

(** [getInput] of a thread. *)
Lemma getInput_thread b info : thread_wf b info → getInput b = Ok (head (contents b)).
Proof.
  intros [Hp Hl _ _]. apply getInput_contents; [|done].
  eapply Forall_impl; [apply Hl|]. by intros ? [].
Qed.

Lemma packLoop_thread more out0 b info : thread_wf b info →
  ∃ b' info' outs n,
    packLoop ops (packFuel W b) W more b info (head (contents b)) out0 0
      = Ok (b', info', out_is out0 outs, n)
    ∧ thread_wf b' info' ∧ (b' = b ∨ elementPtr b' = None)
    ∧ sp_take sp (length outs) (abs info) (pend b (inputIndex ops info))
        = (outs, abs info', pend b' (inputIndex ops info'))
    ∧ Z.of_nat (length outs) ≤ W ∧ Forall (λ o, isBubble o = false) outs
    ∧ (Z.of_nat (length outs) = W ∨ contents b' = []
       ∨ (more = false ∧ contents b' = tail (contents b))).
Proof.
  intros Hwf. destruct (packLoop_Ok more out0 (packFuel W b) b info (head (contents b)) [])
    as (b' & info' & outs & H & ? & ? & ? & ? & ? & Hp); [done|by right|cbn; lia| |].
  { unfold packFuel. rewrite length_drop. fold (slots b). cbn [length]. lia. }
  exists b', info', outs, (Z.of_nat (length outs)). split_and!; try done. by apply Hp.
Qed.
End loop.

(** ** The whole stage over a cycle *)

Section evaluate.
Context `{I : Isa} {Info M : Type} (ops : RepackOps Info) (abs : Info → M) (sp : Transducer M).
Context (mid : M → bool) (good : MyMinorDynInst I → Prop) (iok : Info → Prop)
  `{ROK : !RepackOk ops abs sp mid good iok}.
Context (n : Z) (Hn : 0 < n).
Notation IB := (InputBuffer (ForwardInstData I)).
Notation DynInst := (MyMinorDynInst I).
Notation twf := (thread_wf ops abs mid good iok).
Implicit Types (s : Stage Info) (io : StageIo) (bufs next : list IB) (infos : list Info).

Record stage_wf s : Prop := {
  sw_width : 0 ≤ outputWidth s < MAX_FORWARD_INSTS;
  sw_bufs : Z.of_nat (length (inputBuffer s)) = n;
  sw_infos : Z.of_nat (length (stageInfo s)) = n;
  sw_ptr : ∀ t b, vget (inputBuffer s) t = Ok b → elementPtr b = None;
  sw_thr : ∀ t b i, vget (inputBuffer s) t = Ok b → vget (stageInfo s) t = Ok i → twf b i;
}.

Definition inp_ok (d : ForwardInstData I) : Prop :=
  isBubble d = true ∨ (0 ≤ instsThreadId d < n ∧ line_ok good d).

Record io_ok (stages L stageId : Z) io : Prop := {
  io_inp : inp_ok (inp io);
  io_out : isBubble (out io) = true;
  io_next : Z.of_nat (length (nextStageReserve io)) = n;
  io_ar : ar_wf stages L (activityRecorder io);
  io_stage : 0 ≤ stageId < stages ∧ stages < 2 ^ 29;
  io_lat : 0 ≤ L < 2 ^ 29;
}.

(** The instructions that arrive for thread [t] in a cycle with input [d]. *)
Definition arrivals (d : ForwardInstData I) (t : Z) : list DynInst :=
  if negb (isBubble d) && (instsThreadId d =? t) then List.filter nonBubble (insts d) else [].

(** Only the thread whose bundle has just arrived can have its tail unpushed. *)
Definition ptr_ok (d : ForwardInstData I) (t : Z) (b : IB) : Prop :=
  elementPtr b = None ∨ (isBubble d = false ∧ instsThreadId d = t).

Definition accept (d : ForwardInstData I) bufs : res (list IB) :=
  if negb (isBubble d) then
    b ← vget bufs (instsThreadId d); b ← setTail b d; vset bufs (instsThreadId d) b
  else Ok bufs.

Lemma accept_Ok s d : stage_wf s → inp_ok d →
  ∃ bufs, accept d (inputBuffer s) = Ok bufs ∧ length bufs = length (inputBuffer s)
    ∧ ∀ t b, vget bufs t = Ok b → ptr_ok d t b ∧
        ∃ b0, vget (inputBuffer s) t = Ok b0 ∧
          ∀ i, vget (stageInfo s) t = Ok i →
            twf b i ∧ pend b (inputIndex ops i) = pend b0 (inputIndex ops i) ++ arrivals d t.
Proof.
  intros [_ Hb Hi Hp Ht] Hd. unfold accept, arrivals, ptr_ok.
  destruct Hd as [Hd|[Htid Hd]].
  { rewrite Hd. cbn. exists (inputBuffer s). split_and!; try done. intros t b Hg.
    split; [left; by eapply Hp|]. exists b. split; [done|]. intros i Hgi. rewrite app_nil_r.
    split; [|done]. by eapply Ht. }
  pose proof (lo_bubble _ d Hd) as ->. cbn [negb andb].
  destruct (vget_lt (inputBuffer s) (instsThreadId d)) as (b0 & Hb0); [lia|].
  destruct (vget_lt (stageInfo s) (instsThreadId d)) as (i0 & Hi0); [lia|].
  rewrite Hb0. cbn [rbind].
  destruct (setTail_thread ops abs mid good iok b0 i0 d) as (b1 & -> & Hwf1 & Hpend1);
    [by eapply Hp|done|by eapply Ht|]. cbn [rbind].
  eexists. split; [apply vset_lt; lia|]. rewrite length_insert. split; [done|]. intros t b Hg.
  assert (vset (inputBuffer s) (instsThreadId d) b1
          = Ok (<[Z.to_nat (instsThreadId d):=b1]> (inputBuffer s))) as Hset by (apply vset_lt; lia).
  destruct (Z.eqb_spec (instsThreadId d) t) as [<-|Hne].
  - rewrite (vget_vset_eq _ _ _ _ Hset) in Hg. injection Hg as <-. split; [by right|].
    exists b0. split; [done|]. intros i Hgi. rewrite Hi0 in Hgi. injection Hgi as <-. done.
  - rewrite (vget_vset_ne _ _ _ _ _ Hset) in Hg by done. split; [left; by eapply Hp|].
    exists b. split; [done|]. intros i Hgi. rewrite app_nil_r. split; [|done]. by eapply Ht.
Qed.

Lemma blockAll_Ok next infos : Z.of_nat (length next) = n → Z.of_nat (length infos) = n →
  ∃ infos', blockAll ops next infos n = Ok infos' ∧ length infos' = length infos
    ∧ ∀ t i, vget infos' t = Ok i →
        ∃ i0 nb, vget infos t = Ok i0 ∧ vget next t = Ok nb
          ∧ i = setBlocked ops (negb (canReserve nb)) i0.
Proof.
  intros Hnx Hin. unfold blockAll.
  enough (∀ k : nat, Z.of_nat k ≤ n →
    ∃ infos', mfold (λ infos tid, nb ← vget next tid; i ← vget infos tid;
                  vset infos tid (setBlocked ops (negb (canReserve nb)) i))
                infos (zrange 0 (Z.of_nat k - 1)) = Ok infos'
      ∧ length infos' = length infos
      ∧ (∀ t, Z.of_nat k ≤ t → vget infos' t = vget infos t)
      ∧ (∀ t i, 0 ≤ t < Z.of_nat k → vget infos' t = Ok i →
           ∃ i0 nb, vget infos t = Ok i0 ∧ vget next t = Ok nb
             ∧ i = setBlocked ops (negb (canReserve nb)) i0)) as H.
  { destruct (H (Z.to_nat n)) as (infos' & Hm & Hl & _ & Hi); [lia|].
    rewrite Z2Nat.id in Hm by lia. exists infos'. split_and!; [done..|].
    intros t i Hg. apply Hi; [|done]. pose proof (vget_bound _ _ _ Hg). lia. }
  induction k as [|k IH]; intros Hk.
  { exists infos. split_and!; [done..|]. intros. lia. }
  destruct IH as (infos1 & Hm & Hl & Hge & Hlt); [lia|].
  rewrite (zrange_snoc 0 (Z.of_nat (S k) - 1)), mfold_app by lia.
  replace (Z.of_nat (S k) - 1 - 1) with (Z.of_nat k - 1) by lia. rewrite Hm. cbn [rbind mfold].
  replace (Z.of_nat (S k) - 1) with (Z.of_nat k) by lia.
  destruct (vget_lt next (Z.of_nat k)) as (nb & Hnb); [lia|]. rewrite Hnb. cbn [rbind].
  destruct (vget_lt infos (Z.of_nat k)) as (i0 & Hi0); [lia|].
  rewrite (Hge (Z.of_nat k)) by lia. rewrite Hi0. cbn [rbind].
  assert (vset infos1 (Z.of_nat k) (setBlocked ops (negb (canReserve nb)) i0)
          = Ok (<[Z.to_nat (Z.of_nat k) := setBlocked ops (negb (canReserve nb)) i0]> infos1))
    as Hset by (apply vset_lt; lia).
  rewrite Hset. cbn [rbind]. eexists. split; [done|]. rewrite length_insert. split; [done|]. split.
  - intros t Ht. rewrite (vget_vset_ne _ _ _ _ _ Hset) by lia. apply Hge. lia.
  - intros t i Ht Hg. destruct (decide (t = Z.of_nat k)) as [->|Hne].
    + rewrite (vget_vset_eq _ _ _ _ Hset) in Hg. injection Hg as <-. eauto.
    + rewrite (vget_vset_ne _ _ _ _ _ Hset) in Hg by done. apply Hlt; [lia|done].
Qed.

(** The priority lists name existing threads only. *)
Definition policy_ok (policy : ThreadPolicy) (shuffled : list Z) : Prop :=
  match policy with Random => Forall (λ t, 0 ≤ t < n) shuffled | _ => True end.

Lemma priorityList_range policy p shuffled : policy_ok policy shuffled →
  Forall (λ t, 0 ≤ t < n) (priorityList policy n p shuffled).
Proof.
  intros Hp. destruct policy; cbn in *; [constructor; [lia|done]| |done].
  apply Forall_forall. intros t Ht. by apply (roundRobin_range n Hn p).
Qed.

(** The buffers and records between the phases of a cycle. *)
Record threads_ok bufs infos : Prop := {
  to_bufs : Z.of_nat (length bufs) = n;
  to_infos : Z.of_nat (length infos) = n;
  to_thr : ∀ t b i, vget bufs t = Ok b → vget infos t = Ok i → twf b i;
}.

Lemma threads_get bufs infos t : threads_ok bufs infos → 0 ≤ t < n →
  ∃ b i, vget bufs t = Ok b ∧ vget infos t = Ok i ∧ twf b i ∧ getInput b = Ok (head (contents b)).
Proof.
  intros [Hb Hi Ht] Hr. destruct (vget_lt bufs t) as (b & Hgb); [lia|].
  destruct (vget_lt infos t) as (i & Hgi); [lia|]. exists b, i.
  assert (twf b i) by (by eapply Ht). split_and!; try done. by eapply getInput_thread.
Qed.

Lemma getScheduledThread_Ok bufs infos policy p shuffled :
  threads_ok bufs infos → policy_ok policy shuffled →
  ∃ sched, getScheduledThread ops bufs infos policy n p shuffled = Ok sched
    ∧ ∀ t, sched = Some t → 0 ≤ t < n ∧ ∃ i, vget infos t = Ok i ∧ blocked ops i = false.
Proof.
  intros Hth Hpol. unfold getScheduledThread.
  pose proof (priorityList_range policy p shuffled Hpol) as Hr. rewrite Forall_forall in Hr.
  match goal with |- context [firstReady ?f ?l] => destruct (firstReady_Ok f l) as (r & -> & H) end.
  { intros t Ht. destruct (threads_get bufs infos t Hth (Hr t Ht)) as (b & i & Hb & Hi & _ & Hg).
    rewrite Hb. cbn. rewrite Hi. cbn. rewrite Hg. by eexists. }
  exists r. split; [done|]. intros t Ht. destruct (H t Ht) as [Hin Hready].
  specialize (Hr t Hin). split; [done|].
  destruct (threads_get bufs infos t Hth Hr) as (b & i & Hb & Hi & _ & Hg).
  rewrite Hb in Hready. cbn in Hready. rewrite Hi in Hready. cbn in Hready.
  rewrite Hg in Hready. cbn in Hready.
  exists i. split; [done|]. destruct (head (contents b)); [|done].
  by destruct (blocked ops i).
Qed.

Lemma activateIfWork_Ok stages L stageId bufs infos next ar tids :
  0 ≤ stageId < stages → stages < 2 ^ 29 → 0 ≤ L < 2 ^ 29 → ar_wf stages L ar →
  threads_ok bufs infos → Z.of_nat (length next) = n → Forall (λ t, 0 ≤ t < n) tids →
  ∃ ar', activateIfWork stageId bufs next ar tids = Ok ar' ∧ ar_wf stages L ar'.
Proof.
  intros Hst Hs HL Har Hth Hnx. induction tids as [|t tids IH]; intros Hf; [by exists ar|].
  apply Forall_cons in Hf as [Ht Hf]. cbn.
  destruct (threads_get bufs infos t Hth Ht) as (b & i & -> & _ & _ & Hg). cbn. rewrite Hg. cbn.
  destruct (head (contents b)); [|by apply IH].
  destruct (vget_lt next t) as (nb & ->); [lia|]. cbn. destruct (Queue_canReserve _); [|by apply IH].
  destruct (activateStage_Ok stages L ltac:(lia) HL ar stageId) as (ar' & -> & ? & _); [done..|].
  by exists ar'.
Qed.

(** What thread [t] gives in a cycle that serves [sched] and outputs [outs]. *)
Definition outs_of (sched : option Z) (outs : list DynInst) (t : Z) : list DynInst :=
  if decide (sched = Some t) then outs else [].

Lemma packThread_Ok s bufs infos out0 t : 0 ≤ outputWidth s < MAX_FORWARD_INSTS →
  threads_ok bufs infos → 0 ≤ t < n →
  ∃ bufs' infos' outs, packThread ops s bufs infos out0 t
      = Ok (bufs', infos', out_is (outputWidth s) out0 outs)
    ∧ threads_ok bufs' infos'
    ∧ Z.of_nat (length outs) ≤ outputWidth s ∧ Forall (λ o, isBubble o = false) outs
    ∧ ∀ t' b' i', vget bufs' t' = Ok b' → vget infos' t' = Ok i' →
        ∃ b i, vget bufs t' = Ok b ∧ vget infos t' = Ok i ∧ (b' = b ∨ elementPtr b' = None)
          ∧ sp_take sp (length (outs_of (Some t) outs t')) (abs i) (pend b (inputIndex ops i))
            = (outs_of (Some t) outs t', abs i', pend b' (inputIndex ops i')).
Proof.
  intros HW Hth Ht. unfold packThread.
  destruct (threads_get bufs infos t Hth Ht) as (b & i & Hb & Hi & Hwf & Hg).
  rewrite Hb, Hi. cbn [rbind]. rewrite Hg. cbn [rbind].
  destruct (packLoop_thread ops abs sp mid good iok (outputWidth s) HW (processMoreThanOneInput s)
    out0 b i Hwf) as (b1 & i1 & outs & k & -> & Hwf1 & Hptr & Hsp & HleW & Hnb & _).
  destruct Hth as [Hlb Hli Hthr].
  assert (vset bufs t b1 = Ok (<[Z.to_nat t := b1]> bufs)) as Hsb by (apply vset_lt; lia).
  assert (vset infos t i1 = Ok (<[Z.to_nat t := i1]> infos)) as Hsi by (apply vset_lt; lia).
  cbn [rbind]. rewrite Hsb. cbn [rbind]. rewrite Hsi. cbn [rbind].
  eexists _, _, outs. split; [done|].
  assert (Hgt : ∀ t' b' i', vget (<[Z.to_nat t := b1]> bufs) t' = Ok b' →
     vget (<[Z.to_nat t := i1]> infos) t' = Ok i' →
     (t' = t ∧ b' = b1 ∧ i' = i1) ∨ (t' ≠ t ∧ vget bufs t' = Ok b' ∧ vget infos t' = Ok i')).
  { intros t' b' i' Hb' Hi'. destruct (decide (t' = t)) as [->|Hne].
    - rewrite (vget_vset_eq _ _ _ _ Hsb) in Hb'. rewrite (vget_vset_eq _ _ _ _ Hsi) in Hi'.
      left. by simplify_eq.
    - rewrite (vget_vset_ne _ _ _ _ _ Hsb) in Hb' by done.
      rewrite (vget_vset_ne _ _ _ _ _ Hsi) in Hi' by done. by right. }
  split; [|split; [done|split; [done|]]].
  - split; rewrite ?length_insert; [done..|]. intros t' b' i' Hb' Hi'.
    destruct (Hgt t' b' i' Hb' Hi') as [(-> & -> & ->)|(_ & ? & ?)]; [done|by eapply Hthr].
  - intros t' b' i' Hb' Hi'. unfold outs_of.
    destruct (Hgt t' b' i' Hb' Hi') as [(-> & -> & ->)|(Hne & ? & ?)].
    + rewrite decide_True by done. exists b, i. split_and!; try done.
    + rewrite decide_False by congruence. exists b', i'. split_and!; try done. by left.
Qed.

(** What a cycle leaves in the output slot and the next stage's buffers. *)
Definition cycle_out (W : Z) io io' (sched : option Z) (outs : list DynInst) : Prop :=
  match outs with
  | [] => out io' = out io ∧ nextStageReserve io' = nextStageReserve io
  | _ => ∃ t nb, sched = Some t ∧ vget (nextStageReserve io) t = Ok nb ∧ canReserve nb = true
      ∧ vset (nextStageReserve io) t (reserve nb) = Ok (nextStageReserve io')
      ∧ out io' = mkInsts (outs ++ replicate (Z.to_nat W - length outs) bubbleInst) t
  end.

(** the accounting at the end of [evaluate()] *)
Lemma cycle_out_Ok stages L io sched outs W :
  ar_wf stages L (activityRecorder io) → 0 ≤ stages < 2 ^ 29 → 0 ≤ L < 2 ^ 29 →
  isBubble (out io) = true → Forall (λ o, isBubble o = false) outs →
  (outs ≠ [] → ∃ t nb, sched = Some t ∧ vget (nextStageReserve io) t = Ok nb ∧ canReserve nb = true) →
  let insts_out := out_is W (out io) outs in
  let tid := default InvalidThreadID sched in
  ∃ out' ar' next',
    (if negb (isBubble insts_out) then
       ar ← activity (activityRecorder io);
       n ← vget (nextStageReserve io) tid;
       next ← vset (nextStageReserve io) tid (reserve n);
       Ok (mkInsts (insts insts_out) tid, ar, next)
     else Ok (insts_out, activityRecorder io, nextStageReserve io)) = Ok (out', ar', next')
    ∧ ar_wf stages L ar' ∧ length next' = length (nextStageReserve io)
    ∧ ∀ d ar, cycle_out W io (mkStageIo d out' next' ar) sched outs.
Proof.
  intros Har Hst HL Hob Hnb Hres. cbn zeta. destruct outs as [|o outs].
  { cbn [out_is]. rewrite Hob. cbn. eexists _, _, _. split_and!; done. }
  destruct (Hres ltac:(done)) as (t & nb & -> & Hg & Hcr). change (default InvalidThreadID (Some t)) with t.
  assert (isBubble (out_is W (out io) (o :: outs)) = false) as ->.
  { apply Forall_cons in Hnb as [Ho _]. done. }
  cbn [negb]. destruct (activity_Ok stages L Hst HL _ Har) as (ar' & -> & Har' & _). cbn [rbind].
  rewrite Hg. cbn [rbind]. pose proof (vget_bound _ _ _ Hg) as Hbd.
  assert (vset (nextStageReserve io) t (reserve nb)
    = Ok (<[Z.to_nat t := reserve nb]> (nextStageReserve io))) as Hset by (apply vset_lt; lia).
  rewrite Hset. cbn [rbind]. eexists _, _, _. split; [done|]. split; [done|].
  rewrite length_insert. split; [done|]. intros d ar. cbn. exists t, nb. split_and!; done.
Qed.

(** the [pushTail] at the end of [evaluate()] *)
Lemma pushAll_Ok d bufs infos : inp_ok d → threads_ok bufs infos →
  (∀ t b, vget bufs t = Ok b → ptr_ok d t b) →
  ∃ bufs', (if negb (isBubble d) then
              b ← vget bufs (instsThreadId d); vset bufs (instsThreadId d) (pushTail b)
            else Ok bufs) = Ok bufs'
    ∧ threads_ok bufs' infos ∧ (∀ t b, vget bufs' t = Ok b → elementPtr b = None)
    ∧ ∀ t b', vget bufs' t = Ok b' → ∃ b, vget bufs t = Ok b ∧ contents b' = contents b.
Proof.
  intros Hd Hth Hptr. destruct (isBubble d) eqn:Hbd; cbn [negb].
  { exists bufs. split_and!; try done; [|eauto].
    intros t b Hb. destruct (Hptr t b Hb) as [|[]]; [done|congruence]. }
  destruct Hd as [?|[Ht Hd]]; [congruence|].
  destruct (threads_get bufs infos _ Hth Ht) as (b & i & Hb & Hi & Hwf & _). rewrite Hb. cbn [rbind].
  destruct (pushTail_thread ops abs mid good iok b i Hwf) as (He & Hc & Hwf').
  destruct Hth as [Hlb Hli Hthr]. pose proof (vget_bound _ _ _ Hb) as Hbn.
  assert (vset bufs (instsThreadId d) (pushTail b)
    = Ok (<[Z.to_nat (instsThreadId d) := pushTail b]> bufs)) as Hset by (apply vset_lt; lia).
  rewrite Hset. eexists. split; [done|].
  assert (Hgt : ∀ t' b', vget (<[Z.to_nat (instsThreadId d) := pushTail b]> bufs) t' = Ok b' →
    (t' = instsThreadId d ∧ b' = pushTail b) ∨ (t' ≠ instsThreadId d ∧ vget bufs t' = Ok b')).
  { intros t' b' Hb'. destruct (decide (t' = instsThreadId d)) as [->|Hne].
    - rewrite (vget_vset_eq _ _ _ _ Hset) in Hb'. left. by simplify_eq.
    - rewrite (vget_vset_ne _ _ _ _ _ Hset) in Hb' by done. by right. }
  split_and!.
  - split; rewrite ?length_insert; [done..|]. intros t' b' i' Hb' Hi'.
    destruct (Hgt t' b' Hb') as [[-> ->]|[_ ?]]; [|by eapply Hthr].
    rewrite Hi in Hi'. by injection Hi' as <-.
  - intros t' b' Hb'. destruct (Hgt t' b' Hb') as [[-> ->]|[Hne Hb'']]; [done|].
    destruct (Hptr t' b' Hb'') as [|[_ ?]]; [done|congruence].
  - intros t' b' Hb'. destruct (Hgt t' b' Hb') as [[-> ->]|[_ ?]]; eauto.
Qed.

Lemma Repack_evaluate_Ok stages L stageId policy shuffled s io :
  stage_wf s → io_ok stages L stageId io → policy_ok policy shuffled →
  ∃ s' io' sched outs,
    Repack_evaluate ops stageId policy n shuffled s io = Ok (s', io')
    ∧ stage_wf s' ∧ outputWidth s' = outputWidth s
    ∧ inp io' = inp io ∧ ar_wf stages L (activityRecorder io')
    ∧ length (nextStageReserve io') = length (nextStageReserve io)
    ∧ (∀ t b' i', vget (inputBuffer s') t = Ok b' → vget (stageInfo s') t = Ok i' →
         ∃ b i, vget (inputBuffer s) t = Ok b ∧ vget (stageInfo s) t = Ok i
           ∧ sp_take sp (length (outs_of sched outs t)) (abs i)
               (pend b (inputIndex ops i) ++ arrivals (inp io) t)
             = (outs_of sched outs t, abs i', pend b' (inputIndex ops i')))
    ∧ cycle_out (outputWidth s) io io' sched outs
    ∧ Z.of_nat (length outs) ≤ outputWidth s ∧ Forall (λ o, isBubble o = false) outs.
Proof.
  intros Hs [Hinp Hout Hnext Har Hstage HL] Hpol. unfold Repack_evaluate. cbn zeta.
  destruct (accept_Ok s (inp io) Hs Hinp) as (bufs1 & Hacc & Hlb1 & Hb1).
  unfold accept in Hacc. rewrite Hacc. cbn [rbind]. rewrite Hout. cbn [assert_ rbind].
  destruct (blockAll_Ok (nextStageReserve io) (stageInfo s) Hnext) as (infos1 & -> & Hli1 & Hi1);
    [apply Hs|]. cbn [rbind].
  assert (threads_ok bufs1 infos1) as Hth1.
  { destruct Hs as [_ Hb Hi _ _]. split; [lia..|]. intros t b i Hgb Hgi.
    destruct (Hi1 t i Hgi) as (i0 & nb & Hgi0 & _ & ->). eapply thread_wf_blocked; [done|].
    destruct (Hb1 t b Hgb) as (_ & b0 & _ & H). by apply H. }
  destruct (getScheduledThread_Ok bufs1 infos1 policy (threadPriority s) shuffled Hth1 Hpol)
    as (sched & -> & Hsched). cbn [rbind].
  assert (∃ bufs2 infos2 outs,
    (match sched with
     | Some tid => packThread ops s bufs1 infos1 (out io) tid
     | None => Ok (bufs1, infos1, out io) end)
    = Ok (bufs2, infos2, out_is (outputWidth s) (out io) outs)
    ∧ threads_ok bufs2 infos2
    ∧ Z.of_nat (length outs) ≤ outputWidth s ∧ Forall (λ o, isBubble o = false) outs
    ∧ (outs ≠ [] → is_Some sched)
    ∧ ∀ t b' i', vget bufs2 t = Ok b' → vget infos2 t = Ok i' →
        ∃ b i, vget bufs1 t = Ok b ∧ vget infos1 t = Ok i ∧ (b' = b ∨ elementPtr b' = None)
          ∧ sp_take sp (length (outs_of sched outs t)) (abs i) (pend b (inputIndex ops i))
            = (outs_of sched outs t, abs i', pend b' (inputIndex ops i')))
    as (bufs2 & infos2 & outs & -> & Hth2 & HleW & Hnb & Hso & H2).
  { pose proof (sw_width s Hs). destruct sched as [t|].
    - destruct (Hsched t eq_refl) as [Ht _].
      destruct (packThread_Ok s bufs1 infos1 (out io) t) as (bufs2 & infos2 & outs & ? & ? & ? & ? & ?);
        [done..|]. exists bufs2, infos2, outs. split_and!; done.
    - exists bufs1, infos1, []. split_and!; try done; [cbn; lia|].
      intros t b i Hb Hi. exists b, i. split_and!; try done. by left. }
  cbn [rbind].
  destruct (cycle_out_Ok stages L io sched outs (outputWidth s)) as (out' & ar' & next' & -> & Har' & Hln & Hco);
    [done|lia|done|done|done| |].
  { intros Hne. destruct (Hso Hne) as [t ->]. destruct (Hsched t eq_refl) as (_ & i & Hi & Hbl).
    destruct (Hi1 t i Hi) as (i0 & nb & _ & Hnb' & ->). exists t, nb. split_and!; try done.
    destruct (ok_block (negb (canReserve nb)) i0) as (_ & _ & _ & Hbk). rewrite Hbk in Hbl.
    by destruct (canReserve nb). }
  cbn [rbind].
  destruct (activateIfWork_Ok stages L stageId bufs2 infos2 next' ar' (zrange 0 (n - 1)))
    as (ar2 & -> & Har2); [apply Hstage|apply Hstage|done|done|done|lia| |].
  { apply Forall_forall. intros t Ht%elem_of_zrange. lia. }
  cbn [rbind].
  destruct (pushAll_Ok (inp io) bufs2 infos2 Hinp Hth2) as (bufs3 & -> & Hth3 & Hp3 & Hc3).
  { intros t b Hb. destruct (threads_get bufs2 infos2 t Hth2) as (? & i & _ & Hi & _).
    { destruct Hth2 as [Hl2 _ _]. pose proof (vget_bound _ _ _ Hb). lia. }
    destruct (H2 t b i Hb Hi) as (b1 & i1 & Hg1 & _ & [->|]  & _); [|by left].
    by destruct (Hb1 t b1 Hg1) as [? _]. }
  cbn [rbind]. eexists _, _, sched, outs. split; [done|]. split_and!; try done.
  - destruct Hs, Hth3. split; done.
  - intros t b' i' Hb' Hi'. cbn in Hb', Hi'. destruct (Hc3 t b' Hb') as (b2 & Hg2 & Hcc).
    destruct (H2 t b2 i' Hg2 Hi') as (b1 & i1 & Hg1 & Hgi1 & _ & Hsp).
    destruct (Hi1 t i1 Hgi1) as (i0 & nb & Hgi0 & _ & ->).
    destruct (ok_block (negb (canReserve nb)) i0) as (_ & Ha & Hx & _). rewrite Ha, Hx in Hsp.
    destruct (Hb1 t b1 Hg1) as (_ & b0 & Hg0 & H). destruct (H i0 Hgi0) as [_ Hpd].
    exists b0, i0. split; [done|]. split; [done|]. rewrite <- Hpd, Hsp.
    unfold pend, slots. by rewrite Hcc.
Qed.

(** What the output slot carries for a thread is what the stage gave. *)
Lemma cycle_out_arrivals W io io' sched outs t : cycle_out W io io' sched outs →
  isBubble (out io) = true → Forall (λ o, isBubble o = false) outs →
  arrivals (out io') t = outs_of sched outs t.
Proof.
  intros Hc Hob Hnb. unfold arrivals, outs_of. destruct outs as [|o outs]; cbn [cycle_out] in Hc.
  { destruct Hc as [-> _]. rewrite Hob. cbn. by case_decide. }
  destruct Hc as (t' & nb & -> & _ & _ & _ & ->).
  assert (isBubble (mkInsts ((o :: outs) ++ replicate (Z.to_nat W - length (o :: outs)) bubbleInst) t')
          = false) as -> by (by apply Forall_cons in Hnb as [? _]).
  cbn [negb andb instsThreadId insts]. destruct (Z.eqb_spec t' t) as [->|Hne].
  - rewrite decide_True by done. rewrite List.filter_app.
    assert (∀ l, Forall (λ o, isBubble o = false) l → List.filter nonBubble l = l) as Hid.
    { clear. induction l as [|x l IH]; intros H; [done|]. apply Forall_cons in H as [Hx H]. cbn.
      unfold nonBubble at 1. rewrite Hx. cbn. by rewrite IH. }
    rewrite (Hid (o :: outs)) by done.
    assert (∀ k, List.filter nonBubble (replicate k (bubbleInst (I := I))) = []) as ->
      by (clear; by induction k). by rewrite app_nil_r.
  - by rewrite decide_False by congruence.
Qed.

(** A run of the stage: in each cycle the rest of the CPU provides the input
    and output slots, the next stage's buffers, the activity recorder and the
    random permutation. *)
Fixpoint stage_run (stageId : Z) (policy : ThreadPolicy) s (cycles : list (StageIo * list Z))
  : res (Stage Info * list StageIo) :=
  match cycles with
  | [] => Ok (s, [])
  | (io, shuffled) :: cycles =>
      ' (s, io') ← Repack_evaluate ops stageId policy n shuffled s io;
      ' (s, ios) ← stage_run stageId policy s cycles;
      Ok (s, io' :: ios)
  end.

Definition arrived (ios : list StageIo) (t : Z) : list DynInst :=
  mjoin ((λ io, arrivals (inp io) t) <$> ios).
Definition produced (ios : list StageIo) (t : Z) : list DynInst :=
  mjoin ((λ io, arrivals (out io) t) <$> ios).

Definition cycles_ok (stages L stageId : Z) (policy : ThreadPolicy)
    (cycles : list (StageIo * list Z)) : Prop :=
  Forall (λ c, io_ok stages L stageId c.1 ∧ policy_ok policy c.2) cycles.

Lemma stage_run_Ok stages L stageId policy cycles s :
  stage_wf s → cycles_ok stages L stageId policy cycles →
  ∃ s' ios, stage_run stageId policy s cycles = Ok (s', ios) ∧ stage_wf s'
    ∧ ∀ t b' i', vget (inputBuffer s') t = Ok b' → vget (stageInfo s') t = Ok i' →
         ∃ b i, vget (inputBuffer s) t = Ok b ∧ vget (stageInfo s) t = Ok i
           ∧ sp_take sp (length (produced ios t)) (abs i)
               (pend b (inputIndex ops i) ++ arrived cycles.*1 t)
             = (produced ios t, abs i', pend b' (inputIndex ops i')).
Proof.
  revert s. induction cycles as [|[io shuffled] cycles IH]; intros s Hs Hcy.
  { exists s, []. split_and!; try done. intros t b i Hb Hi. exists b, i.
    split_and!; try done. cbn. by rewrite app_nil_r. }
  apply Forall_cons in Hcy as [[Hio Hpol] Hcy].
  destruct (Repack_evaluate_Ok stages L stageId policy shuffled s io)
    as (s1 & io1 & sched & outs & Hev & Hs1 & _ & Hinp & _ & _ & Hth & Hco & _ & Hnb); [done..|].
  destruct (IH s1 Hs1 Hcy) as (s2 & ios & Hrun & Hs2 & Hth2).
  cbn [stage_run]. rewrite Hev. cbn [rbind]. rewrite Hrun. cbn [rbind].
  eexists _, _. split; [done|]. split; [done|]. intros t b2 i2 Hb2 Hi2.
  destruct (Hth2 t b2 i2 Hb2 Hi2) as (b1 & i1 & Hb1 & Hi1 & Hsp2).
  destruct (Hth t b1 i1 Hb1 Hi1) as (b0 & i0 & Hb0 & Hi0 & Hsp1).
  exists b0, i0. split; [done|]. split; [done|].
  unfold produced, arrived in *. cbn [fmap list_fmap mjoin list_join fst].
  rewrite <- (cycle_out_arrivals _ _ _ _ _ t Hco (io_out _ _ _ _ Hio) Hnb) in Hsp1.
  rewrite app_assoc, length_app. eapply sp_take_app; [|done|exact Hsp2].
  by apply sp_take_more.
Qed.

(** A stage whose buffers are all empty. *)
Lemma stage_wf_init W more cap info :
  0 ≤ W < MAX_FORWARD_INSTS → inputIndex ops info = 0 → mid (abs info) = false → iok info →
  stage_wf (mkStage W more (replicate (Z.to_nat n) (newInputBuffer cap))
              (replicate (Z.to_nat n) info) 0).
Proof.
  intros HW Hi Hm Hio. split; cbn; rewrite ?length_replicate; [done|lia|lia|..].
  - by intros t b [_ [-> _]%lookup_replicate]%vget_Ok.
  - intros t b i [_ [-> _]%lookup_replicate]%vget_Ok [_ [-> _]%lookup_replicate]%vget_Ok.
    split; [by intros []|constructor|done|done].
Qed.

Lemma IB_empty_pend (b : IB) idx : IB_empty b = true → pend b idx = [].
Proof.
  unfold IB_empty, pend, slots, contents, Queue_empty. intros H.
  destruct (elementPtr b); [done|]. destruct (queue (ibQueue b)); [|done]. cbn.
  by rewrite drop_nil.
Qed.

(** Every run from the empty stage is a run of the transducer; once all input
    buffers are empty the whole stream has been worked off. *)
Lemma stage_run_init stages L stageId policy cycles W more cap info :
  0 ≤ W < MAX_FORWARD_INSTS → inputIndex ops info = 0 → mid (abs info) = false → iok info →
  cycles_ok stages L stageId policy cycles →
  ∃ s' ios, stage_run stageId policy
      (mkStage W more (replicate (Z.to_nat n) (newInputBuffer cap))
         (replicate (Z.to_nat n) info) 0) cycles = Ok (s', ios)
    ∧ ∀ t, 0 ≤ t < n → ∃ m rest,
        sp_take sp (length (produced ios t)) (abs info) (arrived cycles.*1 t)
          = (produced ios t, m, rest)
        ∧ (forallb IB_empty (inputBuffer s') = true → rest = []).
Proof.
  intros HW Hi Hm Hio Hcy.
  destruct (stage_run_Ok stages L stageId policy cycles _ (stage_wf_init W more cap info HW Hi Hm Hio) Hcy)
    as (s' & ios & Hrun & Hs' & Hth).
  exists s', ios. split; [done|]. intros t Ht.
  destruct (vget_lt (inputBuffer s') t) as (b' & Hb'); [rewrite (sw_bufs s' Hs'); lia|].
  destruct (vget_lt (stageInfo s') t) as (i' & Hi'); [rewrite (sw_infos s' Hs'); lia|].
  destruct (Hth t b' i' Hb' Hi') as (b & i & Hb & Hgi & Hsp). cbn in Hb, Hgi.
  apply vget_Ok in Hb as [_ [-> _]%lookup_replicate].
  apply vget_Ok in Hgi as [_ [-> _]%lookup_replicate].
  rewrite (IB_empty_pend (newInputBuffer cap)) in Hsp by done. eexists _, _. split; [exact Hsp|].
  intros He. apply IB_empty_pend. rewrite forallb_forall in He. apply He, list_elem_of_In.
  apply vget_Ok in Hb' as [_ Hb']. by apply list_elem_of_lookup; eexists.
Qed.
End evaluate.
