(* ===== verification/Decode.v ===== *)
(** * The Decode stage (src/cpu/myminor/decode.cc, decode.hh)

    Decode takes bundles of instructions from Fetch2, splits macro-ops into
    micro-ops and gives every resulting instruction the next execute sequence
    number of its thread.  The packing machinery is in [Repack]; this file
    has the per-instruction part, the stage's constructor and what the stage
    as a whole does to the instruction stream. *)
From S2P Require Import Prelude TimeBuf Buffers Activity LVPT PipeData Cpu Repack.

(** ** Data *)

(** [struct DecodeThreadInfo] *)
Record DecodeThreadInfo `{I : Isa} := mkDecodeInfo {
  d_inputIndex : Z;
  d_inMacroop : bool;
  d_microopPC : option PCState;
  d_execSeqNum : Z;
  d_blocked : bool;
}.
Arguments mkDecodeInfo {I} _ _ _ _ _.

Section decode.
Context `{I : Isa}.
Notation DynInst := (MyMinorDynInst I).

(** the member initialisers *)
Definition newDecodeInfo : DecodeThreadInfo := mkDecodeInfo 0 false None firstExecSeqNum false.

(** ** Operations *)

(** one micro-op of the macro-op [inst] *)
Definition emitMicroop (info : DecodeThreadInfo) (inst : DynInst)
  : res (DecodeThreadInfo * DynInst) :=
  microopPC ← (if negb (d_inMacroop info) then derefPtr (pc inst) else derefPtr (d_microopPC info));
  let static_micro_inst := fetchMicroop (staticInst inst) (microPC microopPC) in
  let output_inst := with_pc (Some microopPC) (newDynInst static_micro_inst (id inst) None) in
  let output_inst :=
    if isLastMicroop static_micro_inst then
      with_prediction (triedToPredict output_inst) (predictedTaken inst) (predictedTarget inst) output_inst
    else output_inst in
  let next := Some (advancePC static_micro_inst microopPC) in
  Ok (if isLastMicroop static_micro_inst then
        mkDecodeInfo (u32 (d_inputIndex info + 1)) false next (d_execSeqNum info) (d_blocked info)
      else mkDecodeInfo (d_inputIndex info) true next (d_execSeqNum info) (d_blocked info),
      output_inst).

(** the non-bubble branch of the packing loop *)
Definition decode_emit (info : DecodeThreadInfo) (inst : DynInst) : res (DecodeThreadInfo * DynInst) :=
  ' (info, output_inst) ←
    (if isFault inst then
       Ok (mkDecodeInfo (u32 (d_inputIndex info + 1)) false (d_microopPC info)
             (d_execSeqNum info) (d_blocked info), inst)
     else
       static_inst ← derefInst (staticInst inst);
       if isMacroop static_inst then emitMicroop info inst
       else Ok (mkDecodeInfo (u32 (d_inputIndex info + 1)) false (d_microopPC info)
                  (d_execSeqNum info) (d_blocked info), inst));
  let output_inst := with_id (set_exec (d_execSeqNum info)) output_inst in
  let output_inst := with_lvptOut (lvptOut inst) output_inst in
  (* if (inst->staticInst->isLoad()) DPRINTF(...) *)
  _ ← derefInst (staticInst inst);
  Ok (mkDecodeInfo (d_inputIndex info) (d_inMacroop info) (d_microopPC info)
        (u64 (d_execSeqNum info + 1)) (d_blocked info), output_inst).

Definition decodeOps : RepackOps DecodeThreadInfo := {|
  inputIndex := d_inputIndex;
  blocked := d_blocked;
  setBlocked b i := mkDecodeInfo (d_inputIndex i) (d_inMacroop i) (d_microopPC i) (d_execSeqNum i) b;
  skipBubble i :=
    mkDecodeInfo (u32 (d_inputIndex i + 1)) false (d_microopPC i) (d_execSeqNum i) (d_blocked i);
  emit := decode_emit;
  endOk i := negb (d_inMacroop i);
  popReset i := mkDecodeInfo 0 false (d_microopPC i) (d_execSeqNum i) (d_blocked i);
|}.

(** [Decode(name, cpu, params, inp, out, next_stage_input_buffer)] *)
Definition newDecode (executeDummyInputWidth decodeInputBufferSize numThreads : Z)
    (decodeCycleInput : bool) : res (Stage DecodeThreadInfo) :=
  if executeDummyInputWidth <? 1 then Stop Fatal
  else if decodeInputBufferSize <? 1 then Stop Fatal
  else Ok (mkStage executeDummyInputWidth decodeCycleInput
             (replicate (Z.to_nat numThreads) (newInputBuffer decodeInputBufferSize))
             (replicate (Z.to_nat numThreads) newDecodeInfo) 0).

(** [Pipeline::DecodeStageId] *)
Definition DecodeStageId : Z := 3.

(** [Decode::evaluate()] *)
Definition Decode_evaluate (policy : ThreadPolicy) (numThreads : Z) (shuffled : list Z)
    (s : Stage DecodeThreadInfo) (io : StageIo) : res (Stage DecodeThreadInfo * StageIo) :=
  Repack_evaluate decodeOps DecodeStageId policy numThreads shuffled s io.

(** [bool isDrained()] *)
Definition Decode_isDrained (s : Stage DecodeThreadInfo) (inp : ForwardInstData I) : bool :=
  forallb IB_empty (inputBuffer s) && isBubble inp.

(** ** The transducer *)

(** The state between two outputs: the micro-pc inside a macro-op, and the
    next execute sequence number. *)
Definition dstate : Type := option PCState * Z.

Definition number (e : Z) (inst o : DynInst) : DynInst :=
  with_lvptOut (lvptOut inst) (with_id (set_exec e) o).

(** A fault or an ordinary instruction is passed on; a macro-op yields its
    micro-ops from the instruction's pc on, following [advancePC], up to the
    one marked last, which alone carries the branch prediction. *)
Definition decode_sp : Transducer dstate := λ '(m, e) inst,
  if isFault inst || negb (isMacroop (staticInst inst)) then
    ((None, u64 (e + 1)), number e inst inst, true)
  else
    match (match m with Some p => Some p | None => pc inst end) with
    | None => ((None, u64 (e + 1)), number e inst inst, true)
    | Some p =>
        let micro := fetchMicroop (staticInst inst) (microPC p) in
        let o := with_pc (Some p) (newDynInst micro (id inst) None) in
        if isLastMicroop micro then
          ((None, u64 (e + 1)),
           number e inst (with_prediction false (predictedTaken inst) (predictedTarget inst) o), true)
        else ((Some (advancePC micro p), u64 (e + 1)), number e inst o, false)
    end.

Definition decode_abs (i : DecodeThreadInfo) : dstate :=
  (if d_inMacroop i then d_microopPC i else None, d_execSeqNum i).

Definition decode_mid (s : dstate) : bool := match s.1 with Some _ => true | None => false end.

(** Decode dereferences the static instruction of every instruction, and the
    pc of every macro-op. *)
Definition decode_good (inst : DynInst) : Prop :=
  isNullInst (staticInst inst) = false
  ∧ (isFault inst = false → isMacroop (staticInst inst) = true → is_Some (pc inst)).

Definition decode_iok (i : DecodeThreadInfo) : Prop :=
  d_inMacroop i = true → is_Some (d_microopPC i).

Lemma emitMicroop_Ok info inst : decode_iok info → (d_inMacroop info = false → is_Some (pc inst)) →
  0 ≤ d_inputIndex info < 2 ^ 31 → isFault inst = false → isMacroop (staticInst inst) = true →
  ∃ info' o fin m', emitMicroop info inst = Ok (info', o) ∧ decode_iok info'
    ∧ decode_sp (decode_abs info) inst
        = ((m', u64 (d_execSeqNum info + 1)), number (d_execSeqNum info) inst o, fin)
    ∧ (if d_inMacroop info' then d_microopPC info' else None) = m'
    ∧ d_execSeqNum info' = d_execSeqNum info
    ∧ d_inputIndex info' = d_inputIndex info + b2z fin
    ∧ id o = id inst ∧ match m' with Some _ => true | None => false end = negb fin.
Proof.
  intros Hiok Hpc Hidx Hf Hmac. unfold emitMicroop, decode_sp, decode_abs.
  rewrite Hf, Hmac. cbn [orb negb].
  assert (∃ q, (if negb (d_inMacroop info) then derefPtr (pc inst) else derefPtr (d_microopPC info)) = Ok q
    ∧ match (if d_inMacroop info then d_microopPC info else None) with
      | Some p => Some p | None => pc inst end = Some q) as (q & -> & ->).
  { destruct (d_inMacroop info) eqn:Em; cbn.
    - destruct (Hiok Em) as [q Hq]. rewrite Hq. by exists q.
    - destruct (Hpc eq_refl) as [p ->]. by exists p. }
  cbn [rbind]. destruct (isLastMicroop _) eqn:El.
  - eexists _, _, true, None. split; [done|]. split; [by intros ?|]. split; [done|].
    cbn. rewrite u32_id by lia. split_and!; done.
  - eexists _, _, false, _. split; [done|]. split; [intros _; by eexists|]. split; [done|].
    cbn. split_and!; try done. lia.
Qed.

Lemma decode_emit_Ok info inst : decode_iok info → 0 ≤ d_inputIndex info < 2 ^ 31 → isBubble inst = false →
  isNullInst (staticInst inst) = false →
  (isFault inst = false → isMacroop (staticInst inst) = true → d_inMacroop info = false → is_Some (pc inst)) →
  ∃ info' o, decode_emit info inst = Ok (info', o) ∧ decode_iok info'
    ∧ ∃ done, decode_sp (decode_abs info) inst = (decode_abs info', o, done)
    ∧ d_inputIndex info' = d_inputIndex info + b2z done
    ∧ isBubble o = false ∧ decode_mid (decode_abs info') = negb done.
Proof.
  intros Hiok Hidx Hb Hn Hg.
  unfold decode_emit, derefInst. rewrite Hn. cbn [rbind]. destruct (isFault inst || negb (isMacroop (staticInst inst))) eqn:Hp.
  + assert ((if isFault inst then
       Ok (mkDecodeInfo (u32 (d_inputIndex info + 1)) false (d_microopPC info)
             (d_execSeqNum info) (d_blocked info), inst)
       else if isMacroop (staticInst inst) then emitMicroop info inst
       else Ok (mkDecodeInfo (u32 (d_inputIndex info + 1)) false (d_microopPC info)
              (d_execSeqNum info) (d_blocked info), inst))
      = Ok (mkDecodeInfo (u32 (d_inputIndex info + 1)) false (d_microopPC info)
             (d_execSeqNum info) (d_blocked info), inst)) as ->.
    { destruct (isFault inst); [done|]. by destruct (isMacroop (staticInst inst)). }
    cbn [rbind]. eexists _, _. split; [done|]. split; [by intros ?|]. exists true.
    unfold decode_sp, decode_abs. cbn. rewrite Hp, u32_id by lia. split_and!; done.
  + apply orb_false_iff in Hp as [Hf Hm%negb_false_iff]. rewrite Hf, Hm.
    destruct (emitMicroop_Ok info inst) as (info' & o & fin & m' & -> & Hio & Hsp & Hm' & He & Hi & Hid & Hfin);
      [done|by apply Hg|lia|done|done|].
    cbn [rbind]. eexists _, _. split; [done|]. split; [done|]. exists fin. rewrite Hsp.
    unfold decode_abs, decode_mid. cbn. rewrite Hm', He, Hi. split_and!; try done.
    unfold isBubble, DynInst_isBubble in *. cbn. by rewrite Hid.
Qed.

(** an instruction that goes through was fit to *)
Lemma decode_emit_fit info inst r : decode_emit info inst = Ok r →
  isNullInst (staticInst inst) = false
  ∧ (isFault inst = false → isMacroop (staticInst inst) = true → d_inMacroop info = false → is_Some (pc inst)).
Proof.
  intros E. unfold decode_emit in E. apply bind_Ok in E as ([i o] & E1 & E). apply bind_Ok in E as (x & Hx & _).
  unfold derefInst in *. destruct (isNullInst (staticInst inst)); [done|]. split; [done|]. intros Hf Hm Hi.
  rewrite Hf in E1. cbn [rbind] in E1. rewrite Hm in E1. unfold emitMicroop in E1. rewrite Hi in E1. cbn [negb] in E1.
  destruct (pc inst); [done|]. by cbn in E1.
Qed.

#[export] Instance decode_RepackOk :
  RepackOk decodeOps decode_abs decode_sp decode_mid decode_good decode_iok.
Proof.
  split.
  - intros info inst Hiok Hidx Hb [Hn Hg]. apply decode_emit_Ok; auto.
  - intros [ix im mp e bl] Hiok Hidx Hmid. cbn in *. rewrite u32_id by lia. split_and!; try done.
    unfold decode_abs, decode_mid, decode_iok in *. cbn in *. f_equal.
    destruct im; [|done]. by destruct (Hiok eq_refl) as [? ->].
  - intros [ix im mp e bl] Hiok Hmid. unfold decode_abs, decode_mid, decode_iok in *. cbn in *.
    destruct im; [|done]. by destruct (Hiok eq_refl) as [? ->].
  - intros [ix im mp e bl] Hiok Hmid. unfold decode_abs, decode_mid, decode_iok in *. cbn in *.
    split_and!; try done. destruct im; [|done]. by destruct (Hiok eq_refl) as [? ->].
  - intros b info. split_and!; done.
Qed.

(** The outputs carry consecutive execute sequence numbers. *)
Lemma decode_sp_numbers k : ∀ m e l os s' rest,
  sp_take decode_sp k (m, e) l = (os, s', rest) → 0 ≤ e < 2 ^ 64 →
  ∀ j o, os !! j = Some o → execSeqNum (id o) = u64 (e + Z.of_nat j).
Proof.
  induction k as [|k IH]; intros m e l os s' rest H He j o Hj; cbn [sp_take] in H.
  { by simplify_eq. }
  destruct l as [|i r]; [by simplify_eq|].
  destruct (decode_sp (m, e) i) as [[[m1 e1] o1] fin] eqn:Hsp.
  assert (execSeqNum (id o1) = e ∧ e1 = u64 (e + 1)) as [Ho1 ->].
  { unfold decode_sp in Hsp. destruct (isFault i || _); [by simplify_eq|].
    destruct (match m with Some _ => _ | None => _ end); [|by simplify_eq].
    destruct (isLastMicroop _); by simplify_eq. }
  destruct (sp_take decode_sp k (m1, u64 (e + 1)) _) as [[os2 m2] l2] eqn:Hk. simplify_eq.
  destruct j as [|j]; cbn in Hj.
  - simplify_eq. rewrite Z.add_0_r, u64_id by done. done.
  - rewrite (IH _ _ _ _ _ _ Hk (u64_range _) j o Hj). unfold u64.
    rewrite Zplus_mod_idemp_l. f_equal. lia.
Qed.
End decode.

(** Two cycles of a one-thread pipeline: a macro-op of three micro-ops and an
    ordinary instruction arrive, then nothing. *)
Definition demo_cycles : list (StageIo (I := Toy.isa) * list Z) :=
  let io d := mkStageIo d (newForwardInstData 0 InvalidThreadID) [newInputBuffer 2] idleRecorder in
  [(io (mkInsts [Toy.inst (Toy.macro 3) 4096 1; Toy.inst Toy.alu 4100 2] 0), []);
   (io (newForwardInstData 0 InvalidThreadID), [])].

Lemma demo_cycles_ok policy : policy_ok 1 policy [] →
  cycles_ok decode_good 1 6 3 DecodeStageId policy demo_cycles.
Proof.
  intros Hp. apply Forall_cons. split; [|apply Forall_singleton].
  all: split; [split; cbn; try (done || lia || apply idleRecorder_wf)|done].
  - right. split; [cbn; lia|]. split; [done|done|].
    intros [|[|k]] i [= <-] _; (split; [done|]); intros _ _; by eexists.
  - by left.
Qed.

(** C22: Decode is its specification, bundle boundaries and scheduling aside:
    for every configuration that the constructor accepts (with an output of
    at most 15 instructions), every thread policy and every history of cycles
    in which the bundles that arrive have no instruction without a static
    instruction (a fetch fault has none: Decode dereferences it, which
    [decode_null_inst_stops] shows) and every macro-op has a pc, no assertion
    fails, and for each thread the instructions that
    leave the stage are the outputs of the micro-op expansion [decode_sp] on
    the instructions that entered it, in order, without loss or duplication;
    when all input buffers are empty the whole input has been expanded. *)
Theorem decode_refines_expansion `{I : Isa} (W cap n stages L : Z) (more : bool)
    (policy : ThreadPolicy) (cycles : list (StageIo * list Z)) :
  1 ≤ W < MAX_FORWARD_INSTS → 1 ≤ cap → 0 < n →
  cycles_ok decode_good n stages L DecodeStageId policy cycles →
  ∃ s0 s ios, newDecode W cap n more = Ok s0
    ∧ stage_run decodeOps n DecodeStageId policy s0 cycles = Ok (s, ios)
    ∧ ∀ t, 0 ≤ t < n → ∃ m rest,
        sp_take decode_sp (length (produced ios t)) (None, firstExecSeqNum) (arrived cycles.*1 t)
          = (produced ios t, m, rest)
        ∧ (forallb IB_empty (inputBuffer s) = true → rest = []).
Proof.
  intros HW Hcap Hn Hcy. unfold newDecode.
  destruct (Z.ltb_spec W 1); [lia|]. destruct (Z.ltb_spec cap 1); [lia|].
  destruct (stage_run_init decodeOps decode_abs decode_sp decode_mid decode_good decode_iok n Hn
    stages L DecodeStageId policy cycles W more cap newDecodeInfo) as (s & ios & Hrun & Hth);
    [lia|done|done|by intros ?|done|].
  eexists _, s, ios. split; [done|]. split; [done|]. exact Hth.
Qed.

Lemma decode_refines_expansion_witness :
  ∃ s0 s ios, newDecode (I := Toy.isa) 2 2 1 true = Ok s0
    ∧ stage_run decodeOps 1 DecodeStageId RoundRobin s0 demo_cycles = Ok (s, ios)
    ∧ ∀ t, 0 ≤ t < 1 → ∃ m rest,
        sp_take decode_sp (length (produced ios t)) (None, firstExecSeqNum) (arrived demo_cycles.*1 t)
          = (produced ios t, m, rest)
        ∧ (forallb IB_empty (inputBuffer s) = true → rest = []).
Proof.
  apply (decode_refines_expansion 2 2 1 6 3 true RoundRobin demo_cycles);
    [unfold MAX_FORWARD_INSTS; lia|lia|lia|by apply demo_cycles_ok].
Defined.

(** Decode numbers instructions consecutively: in every history the
    execute sequence numbers of a thread's output are 1, 2, 3, ... in order. *)
Theorem decode_execSeqNums_consecutive `{I : Isa} (W cap n stages L : Z) (more : bool)
    (policy : ThreadPolicy) (cycles : list (StageIo * list Z)) :
  1 ≤ W < MAX_FORWARD_INSTS → 1 ≤ cap → 0 < n →
  cycles_ok decode_good n stages L DecodeStageId policy cycles →
  ∃ s0 s ios, newDecode W cap n more = Ok s0
    ∧ stage_run decodeOps n DecodeStageId policy s0 cycles = Ok (s, ios)
    ∧ ∀ t k o, 0 ≤ t < n → produced ios t !! k = Some o →
        execSeqNum (id o) = u64 (1 + Z.of_nat k).
Proof.
  intros HW Hcap Hn Hcy. unfold newDecode.
  destruct (Z.ltb_spec W 1); [lia|]. destruct (Z.ltb_spec cap 1); [lia|].
  destruct (stage_run_init decodeOps decode_abs decode_sp decode_mid decode_good decode_iok n Hn
    stages L DecodeStageId policy cycles W more cap newDecodeInfo) as (s & ios & Hrun & Hth);
    [lia|done|done|by intros ?|done|].
  eexists _, s, ios. split; [done|]. split; [done|]. intros t k o Ht Hk.
  destruct (Hth t Ht) as (m & rest & Hsp & _).
  by apply (decode_sp_numbers _ _ _ _ _ _ _ Hsp).
Qed.

Lemma decode_execSeqNums_consecutive_witness :
  ∃ s0 s ios, newDecode (I := Toy.isa) 2 2 1 true = Ok s0
    ∧ stage_run decodeOps 1 DecodeStageId SingleThreaded s0 demo_cycles = Ok (s, ios)
    ∧ ∀ t k o, 0 ≤ t < 1 → produced ios t !! k = Some o →
        execSeqNum (id o) = u64 (1 + Z.of_nat k).
Proof.
  apply (decode_execSeqNums_consecutive 2 2 1 6 3 true SingleThreaded demo_cycles);
    [unfold MAX_FORWARD_INSTS; lia|lia|lia|by apply demo_cycles_ok].
Defined.

(** A fetch fault is an instruction without a static instruction
    ([nullStaticInstPtr]), and Decode reads [inst->staticInst->isLoad()] for
    it as well: *)
Lemma decode_null_inst_stops `{I : Isa} (info : DecodeThreadInfo) (inst : MyMinorDynInst I) :
  isNullInst (staticInst inst) = true → decode_emit info inst = Stop NullDeref.
Proof.
  intros Hn. unfold decode_emit, derefInst. rewrite Hn. by destruct (isFault inst).
Qed.

(** so a fault that reaches the stage ends the simulation. *)
Lemma decode_fetch_fault_stops :
  let flt := newDynInst (I := Toy.isa) nullStaticInst (mkInstId 0 1 1 1 1 0) (Some 0) in
  (s ← newDecode 2 2 1 true;
   Decode_evaluate SingleThreaded 1 [] s
     (mkStageIo (mkInsts [flt] 0) (newForwardInstData 0 InvalidThreadID) [newInputBuffer 2]
        idleRecorder)) = Stop NullDeref.
Proof. vm_compute. reflexivity. Qed.
