(* ===== verification/ExecuteDummy.v ===== *)
(** * The ExecuteDummy stage (src/cpu/myminor/executeDummy.cc, executeDummy.hh)

    A stage between Decode and Execute that passes instructions on and
    renumbers them. *)
From S2P Require Import Prelude TimeBuf Buffers Activity LVPT PipeData Cpu Repack.

(** [enum DrainState] *)
Inductive ed_DrainState := ED_NotDraining | ED_DrainCurrentInst | ED_DrainHaltFetch | ED_DrainAllInsts.

(** [struct ExecuteDummyThreadInfo]; [streamSeqNum] is never read *)
Record ExecuteDummyThreadInfo := mkDummyInfo {
  e_inputIndex : Z;
  e_execSeqNum : Z;
  e_drainState : ed_DrainState;
  e_blocked : bool;
}.

(** the member initialisers; [drainState] has none, so it is an argument *)
Definition newDummyInfo (drain : ed_DrainState) : ExecuteDummyThreadInfo :=
  mkDummyInfo 0 firstExecSeqNum drain false.

Section dummy.
Context `{I : Isa}.
Notation DynInst := (MyMinorDynInst I).

(** the non-bubble branch of the packing loop *)
Definition dummy_emit (info : ExecuteDummyThreadInfo) (inst : DynInst)
  : res (ExecuteDummyThreadInfo * DynInst) :=
  let info := mkDummyInfo (u32 (e_inputIndex info + 1)) (u64 (e_execSeqNum info + 1))
                (e_drainState info) (e_blocked info) in
  let output_inst := with_id (set_exec (e_execSeqNum info)) inst in
  let output_inst := with_lvptOut (lvptOut inst) output_inst in
  (* if (inst->staticInst->isLoad()) DPRINTF(...) *)
  _ ← derefInst (staticInst inst);
  Ok (info, output_inst).

Definition dummyOps : RepackOps ExecuteDummyThreadInfo := {|
  inputIndex := e_inputIndex;
  blocked := e_blocked;
  setBlocked b i := mkDummyInfo (e_inputIndex i) (e_execSeqNum i) (e_drainState i) b;
  skipBubble i := mkDummyInfo (u32 (e_inputIndex i + 1)) (e_execSeqNum i) (e_drainState i) (e_blocked i);
  emit := dummy_emit;
  endOk _ := true;
  popReset i := mkDummyInfo 0 (e_execSeqNum i) (e_drainState i) (e_blocked i);
|}.

(** [ExecuteDummy(name, cpu, params, inp, out, next_stage_input_buffer)] *)
Definition newExecuteDummy (executeInputWidth executeDummyInputBufferSize numThreads : Z)
    (executeDummyCycleInput : bool) (drain : ed_DrainState) : res (Stage ExecuteDummyThreadInfo) :=
  if executeDummyInputBufferSize <? 1 then Stop Fatal
  else Ok (mkStage executeInputWidth executeDummyCycleInput
             (replicate (Z.to_nat numThreads) (newInputBuffer executeDummyInputBufferSize))
             (replicate (Z.to_nat numThreads) (newDummyInfo drain)) 0).

(** [Pipeline::ExecuteDummyStageId] *)
Definition ExecuteDummyStageId : Z := 4.

(** [ExecuteDummy::evaluate()] *)
Definition ExecuteDummy_evaluate (policy : ThreadPolicy) (numThreads : Z) (shuffled : list Z)
    (s : Stage ExecuteDummyThreadInfo) (io : StageIo) : res (Stage ExecuteDummyThreadInfo * StageIo) :=
  Repack_evaluate dummyOps ExecuteDummyStageId policy numThreads shuffled s io.

(** [void setDrainState(ThreadID thread_id, DrainState state)] *)
Definition ed_setDrainState (s : Stage ExecuteDummyThreadInfo) (tid : Z) (state : ed_DrainState)
  : res (Stage ExecuteDummyThreadInfo) :=
  i ← vget (stageInfo s) tid;
  infos ← vset (stageInfo s) tid
            (mkDummyInfo (e_inputIndex i) (e_execSeqNum i) state (e_blocked i));
  Ok (mkStage (outputWidth s) (processMoreThanOneInput s) (inputBuffer s) infos (threadPriority s)).

(** [bool isDrained()] *)
Definition ExecuteDummy_isDrained (s : Stage ExecuteDummyThreadInfo) (inp : ForwardInstData I) : bool :=
  forallb IB_empty (inputBuffer s) && isBubble inp.

(** ** What the stage does *)

Definition dummy_number (e : Z) (inst : DynInst) : DynInst :=
  with_lvptOut (lvptOut inst) (with_id (set_exec e) inst).

Definition dummy_sp : Transducer Z := λ e inst, (u64 (e + 1), dummy_number (u64 (e + 1)) inst, true).

(** The stage dereferences the static instruction of every instruction. *)
Definition dummy_good (inst : DynInst) : Prop := isNullInst (staticInst inst) = false.

#[export] Instance dummy_RepackOk :
  RepackOk dummyOps e_execSeqNum dummy_sp (λ _, false) dummy_good (λ _, True).
Proof.
  split.
  - intros info inst _ Hidx Hb Hn. cbn in *. unfold dummy_emit, derefInst. rewrite Hn. eexists _, _. split; [done|]. split; [done|].
    exists true. cbn. rewrite u32_id by lia. split_and!; done.
  - intros info _ Hidx _. cbn in *. rewrite u32_id by lia. split_and!; done.
  - done.
  - done.
  - done.
Qed.

(** The transducer in closed form. *)
Lemma dummy_sp_take k : ∀ e l, 0 ≤ e < 2 ^ 64 → (k ≤ length l)%nat →
  sp_take dummy_sp k e l
  = (imap (λ j i, dummy_number (u64 (e + 1 + Z.of_nat j)) i) (take k l), u64 (e + Z.of_nat k), drop k l).
Proof.
  induction k as [|k IH]; intros e l He Hk; cbn [sp_take].
  { by rewrite Z.add_0_r, u64_id. }
  destruct l as [|i r]; [cbn in Hk; lia|]. cbn [dummy_sp].
  rewrite IH by (apply u64_range || cbn in Hk; lia). cbn [take drop imap].
  f_equal. f_equal.
  - change (Z.of_nat 0) with 0. rewrite Z.add_0_r. f_equal. apply imap_ext. intros j x _. cbn. f_equal. unfold u64.
    replace ((e + 1) `mod` 2 ^ 64 + 1 + Z.of_nat j) with ((e + 1) `mod` 2 ^ 64 + (1 + Z.of_nat j)) by lia.
    rewrite Zplus_mod_idemp_l. f_equal. lia.
  - unfold u64. rewrite Zplus_mod_idemp_l. f_equal. lia.
Qed.

Lemma dummy_sp_take_short k : ∀ e l os m rest, sp_take dummy_sp k e l = (os, m, rest) →
  length os = k → (k ≤ length l)%nat.
Proof.
  induction k as [|k IH]; intros e l os m rest H Hl; [lia|]. cbn in H.
  destruct l as [|i r]; [by simplify_eq|].
  destruct (sp_take dummy_sp k _ r) as [[os2 m2] l2] eqn:E. simplify_eq. cbn in *.
  specialize (IH _ _ _ _ _ E ltac:(lia)). lia.
Qed.
End dummy.

(** ExecuteDummy neither reorders, drops nor duplicates: in every history
    and for each thread the instructions that leave the stage are the first
    ones that entered it, unchanged except for their execute sequence
    numbers, which are consecutive from 2 on; when all input buffers are
    empty they are all the instructions that entered. *)
Theorem executeDummy_passes_stream `{I : Isa} (W cap n stages L : Z) (more : bool)
    (drain : ed_DrainState) (policy : ThreadPolicy) (cycles : list (StageIo * list Z)) :
  0 ≤ W < MAX_FORWARD_INSTS → 1 ≤ cap → 0 < n →
  cycles_ok dummy_good n stages L ExecuteDummyStageId policy cycles →
  ∃ s0 s ios, newExecuteDummy W cap n more drain = Ok s0
    ∧ stage_run dummyOps n ExecuteDummyStageId policy s0 cycles = Ok (s, ios)
    ∧ ∀ t, 0 ≤ t < n →
        let k := length (produced ios t) in
        produced ios t = imap (λ j i, with_id (set_exec (u64 (2 + Z.of_nat j))) i)
                           (take k (arrived cycles.*1 t))
        ∧ (forallb IB_empty (inputBuffer s) = true → k = length (arrived cycles.*1 t)).
Proof.
  intros HW Hcap Hn Hcy. unfold newExecuteDummy. destruct (Z.ltb_spec cap 1); [lia|].
  destruct (stage_run_init dummyOps e_execSeqNum dummy_sp (λ _, false) dummy_good (λ _, True) n Hn
    stages L ExecuteDummyStageId policy cycles W more cap (newDummyInfo drain))
    as (s & ios & Hrun & Hth); [done..|].
  eexists _, s, ios. split; [done|]. split; [exact Hrun|]. intros t Ht. cbn zeta.
  destruct (Hth t Ht) as (m & rest & Hsp & Hdr).
  pose proof (dummy_sp_take_short _ _ _ _ _ _ Hsp eq_refl) as Hle.
  rewrite dummy_sp_take in Hsp by (cbn; lia || done). injection Hsp as Hp _ Hr. split.
  - rewrite <- Hp at 1. apply imap_ext. intros j i _. cbn. unfold dummy_number. by destruct i.
  - intros He. rewrite (Hdr He) in Hr.
    apply (f_equal length) in Hr. rewrite length_drop in Hr. cbn in Hr. lia.
Qed.

(** One cycle with two instructions. *)
Definition dummy_cycles : list (StageIo (I := Toy.isa) * list Z) :=
  [(mkStageIo (mkInsts [Toy.inst Toy.ld 4096 1; Toy.inst Toy.alu 4100 2] 0)
      (newForwardInstData 0 InvalidThreadID) [newInputBuffer 2] idleRecorder, [])].

Lemma executeDummy_passes_stream_witness :
  ∃ s0 s ios, newExecuteDummy (I := Toy.isa) 2 2 1 true ED_NotDraining = Ok s0
    ∧ stage_run dummyOps 1 ExecuteDummyStageId RoundRobin s0 dummy_cycles = Ok (s, ios)
    ∧ ∀ t, 0 ≤ t < 1 →
        let k := length (produced ios t) in
        produced ios t = imap (λ j i, with_id (set_exec (u64 (2 + Z.of_nat j))) i)
                           (take k (arrived dummy_cycles.*1 t))
        ∧ (forallb IB_empty (inputBuffer s) = true → k = length (arrived dummy_cycles.*1 t)).
Proof.
  apply (executeDummy_passes_stream 2 2 1 6 3); [unfold MAX_FORWARD_INSTS; lia|lia|lia|].
  apply Forall_singleton. split; [|done].
  split; cbn; try (done || lia || apply idleRecorder_wf).
  right. split; [cbn; lia|]. split; [done|done|].
  intros [|[|k]] i [= <-] _; done.
Defined.
