(* ===== verification/RepackPartial.v ===== *)
(** * Decode and ExecuteDummy without assumptions on their input

    The stages stop on an instruction whose static instruction or pc is
    missing.  Whatever the instructions are, a cycle that returns has done
    what the specification says: a stage that would stop is compared with one
    that goes on as its transducer does. *)
From S2P Require Import Prelude TimeBuf Buffers Activity LVPT PipeData Cpu Repack Decode ExecuteDummy.

(** [m'] returns whenever [m] does, with the same result *)
Definition extends {A} (m m' : res A) : Prop := ∀ a, m = Ok a → m' = Ok a.

Lemma extends_refl {A} (m : res A) : extends m m.
Proof. by intros a. Qed.

Lemma extends_bind {A B} (m m' : res A) (k k' : A → res B) :
  extends m m' → (∀ a, extends (k a) (k' a)) → extends (rbind m k) (rbind m' k').
Proof. intros Hm Hk b (a & H1%Hm & H2%Hk)%bind_Ok. by rewrite H1. Qed.

#[export] Hint Resolve extends_refl : core.

Section total.
Context `{I : Isa} {Info M : Type} (ops : RepackOps Info) (f : Info → MyMinorDynInst I → Info * MyMinorDynInst I).
Notation IB := (InputBuffer (ForwardInstData I)).

(** where [emit] stops, [f] goes on *)
Definition totalOps : RepackOps Info :=
  mkRepackOps (inputIndex ops) (blocked ops) (setBlocked ops) (skipBubble ops)
    (λ info inst, match emit ops info inst with Ok r => Ok r | Stop _ => Ok (f info inst) end)
    (endOk ops) (popReset ops).

Lemma packOne_total W info inst (d : ForwardInstData I) k :
  extends (packOne ops W info inst d k) (packOne totalOps W info inst d k).
Proof.
  unfold packOne. destruct (isBubble inst); [done|]. apply extends_bind; [|done].
  intros r H. cbn. by rewrite H.
Qed.

Lemma packLoop_total fuel W more b info inp d k :
  extends (packLoop ops fuel W more b info inp d k) (packLoop totalOps fuel W more b info inp d k).
Proof.
  revert b info inp d k. induction fuel as [|fuel IH]; intros b info inp d k; cbn [packLoop]; [done|].
  destruct inp as [l|]; [|done]. change (inputIndex totalOps) with (inputIndex ops). destruct (_ && _); [|done].
  apply extends_bind; [done|]. intros inst. apply extends_bind; [apply packOne_total|]. intros [[info' d'] k'].
  change (endOk totalOps) with (endOk ops). change (popReset totalOps) with (popReset ops).
  destruct (_ =? _); [|apply IH]. do 3 (apply extends_bind; [done|intros ?]). apply IH.
Qed.

Lemma Repack_total stageId policy n shuffled (s : Stage Info) io :
  extends (Repack_evaluate ops stageId policy n shuffled s io) (Repack_evaluate totalOps stageId policy n shuffled s io).
Proof.
  unfold Repack_evaluate. cbn zeta. apply extends_bind; [done|]. intros bufs. apply extends_bind; [done|]. intros _.
  apply extends_bind; [done|]. intros infos. apply extends_bind; [done|]. intros sched.
  apply extends_bind; [|done]. destruct sched as [t|]; [|done]. unfold packThread.
  do 3 (apply extends_bind; [done|intros ?]). apply extends_bind; [apply packLoop_total|done].
Qed.
End total.

(** ** Decode *)

Section decode.
Context `{I : Isa}.

(** the transducer on the stage's record *)
Definition decode_go (info : DecodeThreadInfo) (inst : MyMinorDynInst I) : DecodeThreadInfo * MyMinorDynInst I :=
  let '(m, e, o, done) := decode_sp (decode_abs info) inst in
  (mkDecodeInfo (d_inputIndex info + b2z done) (match m with Some _ => true | None => false end) m e (d_blocked info), o).

Definition decodeTotal : RepackOps DecodeThreadInfo := totalOps decodeOps decode_go.

Lemma decode_sp_result m e (inst : MyMinorDynInst I) m' e' o fin : decode_sp (m, e) inst = ((m', e'), o, fin) →
  isBubble o = isBubble inst ∧ match m' with Some _ => true | None => false end = negb fin.
Proof.
  unfold decode_sp. destruct (_ || _); [by intros [= <- <- <- <-]|].
  destruct (match m with Some _ => _ | None => _ end); [|by intros [= <- <- <- <-]].
  destruct (isLastMicroop _); by intros [= <- <- <- <-].
Qed.

#[export] Instance decodeTotal_ok :
  RepackOk decodeTotal decode_abs decode_sp decode_mid (λ _, True) decode_iok.
Proof.
  destruct decode_RepackOk. split; [|done..].
  intros info inst Hiok Hidx Hb _. cbn [emit decodeTotal totalOps inputIndex].
  destruct (emit decodeOps info inst) as [r|] eqn:E.
  - destruct (decode_emit_fit info inst r E) as [Hn Hg].
    destruct (decode_emit_Ok info inst Hiok Hidx Hb Hn Hg) as (info' & o & E' & H). cbn [emit decodeOps] in E.
    rewrite E in E'. injection E' as ->. by exists info', o.
  - unfold decode_go. destruct (decode_sp (decode_abs info) inst) as [[[m' e'] o] fin] eqn:Hsp.
    destruct (decode_abs info) as [m e] eqn:Ha. apply decode_sp_result in Hsp as H. destruct H as [Hbo Hm].
    eexists _, _. split; [done|]. split; [|exists fin]; unfold decode_iok, decode_abs, decode_mid; cbn.
    + destruct m'; [by eexists|done].
    + split_and!; try done; [by destruct m'|congruence|by destruct m'].
Qed.
End decode.

(** ** ExecuteDummy *)

Section dummy.
Context `{I : Isa}.

Definition dummy_go (info : ExecuteDummyThreadInfo) (inst : MyMinorDynInst I)
  : ExecuteDummyThreadInfo * MyMinorDynInst I :=
  (mkDummyInfo (e_inputIndex info + 1) (u64 (e_execSeqNum info + 1)) (e_drainState info) (e_blocked info),
   dummy_number (u64 (e_execSeqNum info + 1)) inst).

Definition dummyTotal : RepackOps ExecuteDummyThreadInfo := totalOps dummyOps dummy_go.

#[export] Instance dummyTotal_ok :
  RepackOk dummyTotal e_execSeqNum dummy_sp (λ _, false) (λ _, True) (λ _, True).
Proof.
  destruct dummy_RepackOk. split; [|done..].
  intros info inst _ Hidx Hb _. cbn [emit dummyTotal totalOps inputIndex dummyOps] in *.
  unfold dummy_emit. destruct (derefInst (staticInst inst)) as [x|]; cbn [rbind].
  - eexists _, _. split; [done|]. split; [done|]. exists true. cbn. rewrite u32_id by lia. by split_and!.
  - eexists _, _. split; [done|]. split; [done|]. exists true. by split_and!.
Qed.
End dummy.
