(* ===== verification/Fetch1.v ===== *)
(** * The Fetch1 stage (src/cpu/myminor/fetch1.cc, fetch1.hh)

    Fetch1 turns the fetch address of each thread into line requests, passes
    them through the instruction TLB ([requests]) and the instruction cache
    ([transfers]) and gives the lines to Fetch2, tagged with stream and
    prediction numbers.  It holds the load value prediction table: a line
    leaves with the table's prediction for its fetch address, and the table is
    updated with what Execute reports.

    A [FetchRequest] lives in one of the two queues from [fetchLine] to
    [popAndDiscard]; a pointer to it is its line sequence number.  The TLB and
    the cache are the environment: [finish], [recvTimingResp] and
    [recvReqRetry] are operations of their own, the answer to the n-th
    [sendTimingReq] is [f1_accept n] and a TLB that answers at once is the
    argument [reply] of [fetchLine]. *)
From S2P Require Import Prelude TimeBuf Buffers Activity LVPT PipeData Cpu.

(** ** State *)

Inductive FetchRequestState := NotIssued | InTranslation | Translated | RequestIssuing | Complete.

Inductive FetchState := FetchHalted | FetchWaitingForPC | FetchRunning.

Inductive IcacheState := IcacheRunning | IcacheNeedsRetry.

#[export] Instance FetchRequestState_eq_dec : EqDecision FetchRequestState.
Proof. solve_decision. Defined.
#[export] Instance FetchState_eq_dec : EqDecision FetchState.
Proof. solve_decision. Defined.
#[export] Instance IcacheState_eq_dec : EqDecision IcacheState.
Proof. solve_decision. Defined.

(** [FetchRequest]; [fr_vaddr] and [fr_size] are those of its [request] *)
Record FetchRequest := mkFetchRequest {
  fr_state : FetchRequestState;
  fr_id : InstId;
  fr_packet : option LinePacket;
  fr_vaddr : Z;
  fr_size : Z;
  fr_pc : Z;
  fr_fault : Fault;
}.

#[export] Instance FetchRequest_isBubble : IsBubble FetchRequest := NoBubble_isBubble.

Definition fr_setState (x : FetchRequestState) (r : FetchRequest) : FetchRequest :=
  mkFetchRequest x (fr_id r) (fr_packet r) (fr_vaddr r) (fr_size r) (fr_pc r) (fr_fault r).
Definition fr_setPacket (p : option LinePacket) (r : FetchRequest) : FetchRequest :=
  mkFetchRequest (fr_state r) (fr_id r) p (fr_vaddr r) (fr_size r) (fr_pc r) (fr_fault r).
Definition fr_setFault (f : Fault) (r : FetchRequest) : FetchRequest :=
  mkFetchRequest (fr_state r) (fr_id r) (fr_packet r) (fr_vaddr r) (fr_size r) (fr_pc r) f.

(** [FetchRequest(fetch_, id_, pc_)] *)
Definition newFetchRequest (id_ : InstId) (pc_ : Z) : FetchRequest :=
  mkFetchRequest NotIssued id_ None 0 0 pc_ None.

(** [request->setVirt(vaddr, size, ...)] *)
Definition fr_setVirt (vaddr size : Z) (r : FetchRequest) : FetchRequest :=
  mkFetchRequest (fr_state r) (fr_id r) (fr_packet r) vaddr size (fr_pc r) (fr_fault r).

(** [bool isComplete() const] *)
Definition fr_isComplete (r : FetchRequest) : bool := bool_decide (fr_state r = Complete).

(** [makePacket()]; the bytes of a request packet are not read *)
Definition fr_makePacket (r : FetchRequest) : FetchRequest :=
  fr_setPacket (Some (replicate (Z.to_nat (fr_size r)) 0)) r.

(** the number of a line stands for the pointer to its request *)
Definition fr_number (r : FetchRequest) : Z := lineSeqNum (fr_id r).

Section fetch1.
Context `{I : Isa}.
Notation Line := (ForwardLineData I).

Record Fetch1ThreadInfo := mkF1Info {
  f1_state : FetchState;
  f1_pc : option PCState;
  f1_fetchAddr : Z;
  f1_streamSeqNum : Z;
  f1_predictionSeqNum : Z;
  f1_blocked : bool;
  f1_wakeupGuard : bool;
}.

(** the member initialisers and the initial pc *)
Definition newF1Info (p : PCState) : Fetch1ThreadInfo :=
  mkF1Info FetchWaitingForPC (Some p) 0 firstStreamSeqNum firstPredictionSeqNum false false.

Record Fetch1 := mkFetch1 {
  f1_lineSnap : Z;
  f1_maxLineWidth : Z;
  f1_fetchLimit : Z;
  f1_fetchInfo : list Fetch1ThreadInfo;
  f1_threadPriority : Z;
  f1_requests : Queue FetchRequest;
  f1_transfers : Queue FetchRequest;
  f1_icacheState : IcacheState;
  f1_lineSeqNum : Z;
  f1_inMemorySystem : Z;
  f1_inITLB : Z;
  f1_lvpt : LVPT;
  f1_sends : Z;        (* the number of [sendTimingReq] calls so far *)
  f1_awake : bool;     (* [wakeupOnEvent(Fetch1StageId)] was called *)
  f1_activity : bool;  (* [activityRecorder->activity()] was called *)
}.

Notation M := (St Fetch1).
Implicit Types (s : Fetch1) (r : FetchRequest) (i : Fetch1ThreadInfo).

Definition f1_updInfo (f : list Fetch1ThreadInfo) s : Fetch1 :=
  mkFetch1 (f1_lineSnap s) (f1_maxLineWidth s) (f1_fetchLimit s) f (f1_threadPriority s)
    (f1_requests s) (f1_transfers s) (f1_icacheState s) (f1_lineSeqNum s) (f1_inMemorySystem s)
    (f1_inITLB s) (f1_lvpt s) (f1_sends s) (f1_awake s) (f1_activity s).
Definition f1_updPriority (p : Z) s : Fetch1 :=
  mkFetch1 (f1_lineSnap s) (f1_maxLineWidth s) (f1_fetchLimit s) (f1_fetchInfo s) p
    (f1_requests s) (f1_transfers s) (f1_icacheState s) (f1_lineSeqNum s) (f1_inMemorySystem s)
    (f1_inITLB s) (f1_lvpt s) (f1_sends s) (f1_awake s) (f1_activity s).
Definition f1_updQueues (q t : Queue FetchRequest) s : Fetch1 :=
  mkFetch1 (f1_lineSnap s) (f1_maxLineWidth s) (f1_fetchLimit s) (f1_fetchInfo s)
    (f1_threadPriority s) q t (f1_icacheState s) (f1_lineSeqNum s) (f1_inMemorySystem s)
    (f1_inITLB s) (f1_lvpt s) (f1_sends s) (f1_awake s) (f1_activity s).
Definition f1_updIcache (x : IcacheState) s : Fetch1 :=
  mkFetch1 (f1_lineSnap s) (f1_maxLineWidth s) (f1_fetchLimit s) (f1_fetchInfo s)
    (f1_threadPriority s) (f1_requests s) (f1_transfers s) x (f1_lineSeqNum s)
    (f1_inMemorySystem s) (f1_inITLB s) (f1_lvpt s) (f1_sends s) (f1_awake s) (f1_activity s).
Definition f1_stepLine s : Fetch1 :=
  mkFetch1 (f1_lineSnap s) (f1_maxLineWidth s) (f1_fetchLimit s) (f1_fetchInfo s)
    (f1_threadPriority s) (f1_requests s) (f1_transfers s) (f1_icacheState s)
    (u64 (f1_lineSeqNum s + 1)) (f1_inMemorySystem s) (f1_inITLB s) (f1_lvpt s) (f1_sends s) (f1_awake s) (f1_activity s).
Definition f1_addInMemory (d : Z) s : Fetch1 :=
  mkFetch1 (f1_lineSnap s) (f1_maxLineWidth s) (f1_fetchLimit s) (f1_fetchInfo s)
    (f1_threadPriority s) (f1_requests s) (f1_transfers s) (f1_icacheState s) (f1_lineSeqNum s)
    (u32 (f1_inMemorySystem s + d)) (f1_inITLB s) (f1_lvpt s) (f1_sends s) (f1_awake s) (f1_activity s).
Definition f1_addInITLB (d : Z) s : Fetch1 :=
  mkFetch1 (f1_lineSnap s) (f1_maxLineWidth s) (f1_fetchLimit s) (f1_fetchInfo s)
    (f1_threadPriority s) (f1_requests s) (f1_transfers s) (f1_icacheState s) (f1_lineSeqNum s)
    (f1_inMemorySystem s) (u32 (f1_inITLB s + d)) (f1_lvpt s) (f1_sends s) (f1_awake s) (f1_activity s).
Definition f1_updLvpt (t : LVPT) s : Fetch1 :=
  mkFetch1 (f1_lineSnap s) (f1_maxLineWidth s) (f1_fetchLimit s) (f1_fetchInfo s)
    (f1_threadPriority s) (f1_requests s) (f1_transfers s) (f1_icacheState s) (f1_lineSeqNum s)
    (f1_inMemorySystem s) (f1_inITLB s) t (f1_sends s) (f1_awake s) (f1_activity s).
Definition f1_countSend s : Fetch1 :=
  mkFetch1 (f1_lineSnap s) (f1_maxLineWidth s) (f1_fetchLimit s) (f1_fetchInfo s)
    (f1_threadPriority s) (f1_requests s) (f1_transfers s) (f1_icacheState s) (f1_lineSeqNum s)
    (f1_inMemorySystem s) (f1_inITLB s) (f1_lvpt s) (f1_sends s + 1) (f1_awake s) (f1_activity s).
Definition f1_setAwake (x : bool) s : Fetch1 :=
  mkFetch1 (f1_lineSnap s) (f1_maxLineWidth s) (f1_fetchLimit s) (f1_fetchInfo s)
    (f1_threadPriority s) (f1_requests s) (f1_transfers s) (f1_icacheState s) (f1_lineSeqNum s)
    (f1_inMemorySystem s) (f1_inITLB s) (f1_lvpt s) (f1_sends s) x (f1_activity s).
Definition f1_setActivity (x : bool) s : Fetch1 :=
  mkFetch1 (f1_lineSnap s) (f1_maxLineWidth s) (f1_fetchLimit s) (f1_fetchInfo s)
    (f1_threadPriority s) (f1_requests s) (f1_transfers s) (f1_icacheState s) (f1_lineSeqNum s)
    (f1_inMemorySystem s) (f1_inITLB s) (f1_lvpt s) (f1_sends s) (f1_awake s) x.

(** The parameters of the constructor, [MyMinorCPUParams] *)
Record Fetch1Params := mkF1Params {
  p_fetch1LineSnapWidth : Z;
  p_fetch1LineWidth : Z;
  p_fetch1FetchLimit : Z;
  p_numThreads : Z;
  p_cacheLineSize : Z;
  p_tableSizeLVPT : Z;
  p_thresholdLCT : Z;
  p_maxValueLCT : Z;
}.

(** [Fetch1(...)]; [inst_size] is the decoder's [moreBytesSize()] and [p0] the
    pc of [newPCState()] *)
Definition newFetch1 (ps : Fetch1Params) (inst_size : Z) (p0 : PCState) : res Fetch1 :=
  lvpt ← newLVPT (p_tableSizeLVPT ps) (p_thresholdLCT ps) (p_maxValueLCT ps);
  let lineSnap := if p_fetch1LineSnapWidth ps =? 0 then p_cacheLineSize ps else p_fetch1LineSnapWidth ps in
  let maxLineWidth := if p_fetch1LineWidth ps =? 0 then p_cacheLineSize ps else p_fetch1LineWidth ps in
  if negb (lineSnap `mod` inst_size =? 0) then Stop Fatal
  else if (lineSnap <=? maxLineWidth) && negb (maxLineWidth `mod` inst_size =? 0) then Stop Fatal
  else if p_fetch1FetchLimit ps <? 1 then Stop Fatal
  else Ok (mkFetch1 lineSnap maxLineWidth (p_fetch1FetchLimit ps)
             (replicate (Z.to_nat (p_numThreads ps)) (newF1Info p0)) 0
             (newQueue (p_fetch1FetchLimit ps)) (newQueue (p_fetch1FetchLimit ps)) IcacheRunning
             firstLineSeqNum 0 0 lvpt 0 false false).

(** ** Requests *)

Definition f1_thread (t : Z) : M Fetch1ThreadInfo := let! s := sget in slift (vget (f1_fetchInfo s) t).
Definition f1_setThread (t : Z) i : M unit :=
  let! s := sget in let! l := slift (vset (f1_fetchInfo s) t i) in smod (f1_updInfo l).

(** [cpu.wakeupOnEvent(Pipeline::Fetch1StageId)] *)
Definition wakeupOnEvent : M unit := smod (f1_setAwake true).

(** access to the request with number [n] *)
Definition f1_request (n : Z) : M FetchRequest :=
  let! s := sget in
  match List.find (λ r, fr_number r =? n) (queue (f1_requests s) ++ queue (f1_transfers s)) with
  | Some r => sret r
  | None => slift (Stop NullDeref)
  end.

Definition mapQueue (f : FetchRequest → FetchRequest) (q : Queue FetchRequest) : Queue FetchRequest :=
  mkQueue (f <$> queue q) (numReservedSlots q) (capacity q).

Definition f1_update (n : Z) (f : FetchRequest → FetchRequest) : M unit :=
  let g r := if fr_number r =? n then f r else r in
  smod (λ s, f1_updQueues (mapQueue g (f1_requests s)) (mapQueue g (f1_transfers s)) s).

(** [isDiscardable() const] *)
Definition isDiscardable (infos : list Fetch1ThreadInfo) r : res bool :=
  i ← vget infos (threadId (fr_id r));
  Ok (negb (bool_decide (fr_state r = InTranslation)) && negb (bool_decide (fr_state r = RequestIssuing))
      && (negb (streamSeqNum (fr_id r) =? f1_streamSeqNum i)
          || negb (predictionSeqNum (fr_id r) =? f1_predictionSeqNum i))).

(** [moveFromRequestsToTransfers(request)] *)
Definition f1_moveToTransfers (n : Z) : M unit :=
  let! s := sget in
  do! sassert (match queue (f1_requests s) with r :: _ => fr_number r =? n | [] => false end) in
  let! r := slift (Queue_front (f1_requests s)) in
  let! q := slift (Queue_pop (f1_requests s)) in
  smod (f1_updQueues q (Queue_push (f1_transfers s) r)).

Section accept.
Context (f1_accept : Z → bool).

(** [tryToSend(request)] *)
Definition f1_tryToSend (n : Z) : M bool :=
  let! s := sget in
  do! smod f1_countSend in
  if f1_accept (f1_sends s) then
    do! f1_update n (λ r, fr_setState RequestIssuing (fr_setPacket None r)) in
    do! smod (f1_addInMemory 1) in
    sret true
  else
    do! smod (f1_updIcache IcacheNeedsRetry) in
    sret false.

(** [tryToSendToTransfers(request)] *)
Definition f1_tryToSendToTransfers (n : Z) : M unit :=
  let! s := sget in
  if match queue (f1_requests s) with r :: _ => negb (fr_number r =? n) | [] => false end then sret tt
  else
    let! r := f1_request n in
    if decide (fr_state r = InTranslation) then sret tt
    else
      let! discardable := slift (isDiscardable (f1_fetchInfo s) r) in
      if discardable || faultSet (fr_fault r) then
        do! f1_update n (fr_setState Complete) in
        do! f1_moveToTransfers n in
        wakeupOnEvent
      else if decide (fr_state r = Translated) then
        do! (match fr_packet r with None => f1_update n fr_makePacket | Some _ => sret tt end) in
        let! sent := f1_tryToSend n in
        if sent : bool then f1_moveToTransfers n else sret tt
      else sret tt.

(** [handleTLBResponse(response)] *)
Definition handleTLBResponse (n : Z) : M unit :=
  do! smod (f1_addInITLB (-1)) in
  do! f1_update n (fr_setState Translated) in
  f1_tryToSendToTransfers n.

(** [FetchRequest::finish(fault_, ...)] *)
Definition f1_finish (n : Z) (fault_ : Fault) : M unit :=
  let! _ := f1_request n in
  do! f1_update n (λ r, fr_setState Translated (fr_setFault fault_ r)) in
  do! handleTLBResponse n in
  wakeupOnEvent.

(** [fetchLine(tid)]; [reply] is the TLB's answer if it comes at once *)
Definition fetchLine (tid : Z) (reply : option Fault) : M unit :=
  let! i := f1_thread tid in
  let! s := sget in
  let aligned_pc := Z.land (f1_fetchAddr i) (u64 (Z.lnot (u64 (f1_lineSnap s - 1)))) in
  let line_offset := u32 (aligned_pc `mod` f1_lineSnap s) in
  let request_size := u32 (f1_maxLineWidth s - line_offset) in
  let request_id := mkInstId tid (f1_streamSeqNum i) (f1_predictionSeqNum i) (f1_lineSeqNum s) 0 0 in
  let r := fr_setState InTranslation
             (fr_setVirt aligned_pc request_size (newFetchRequest request_id (f1_fetchAddr i))) in
  do! smod (f1_addInITLB 1) in
  do! smod (λ s, f1_updQueues (Queue_push (f1_requests s) r) (Queue_reserve (f1_transfers s)) s) in
  do! (match reply with Some f => f1_finish (fr_number r) f | None => sret tt end) in
  do! smod f1_stepLine in
  let! i := f1_thread tid in
  f1_setThread tid (mkF1Info (f1_state i) (f1_pc i) (u64 (aligned_pc + request_size))
                      (f1_streamSeqNum i) (f1_predictionSeqNum i) (f1_blocked i) (f1_wakeupGuard i)).

(** [stepQueues()] *)
Definition stepQueues : M unit :=
  let! s := sget in
  match f1_icacheState s, queue (f1_requests s) with
  | IcacheRunning, r :: _ => f1_tryToSendToTransfers (fr_number r)
  | _, _ => sret tt
  end.

(** [recvReqRetry()] *)
Definition f1_recvReqRetry : M unit :=
  let! s := sget in
  do! sassert (bool_decide (f1_icacheState s = IcacheNeedsRetry)) in
  do! sassert (negb (Queue_empty (f1_requests s))) in
  let! r := slift (Queue_front (f1_requests s)) in
  do! smod (f1_updIcache IcacheRunning) in
  let! sent := f1_tryToSend (fr_number r) in
  if sent : bool then f1_moveToTransfers (fr_number r) else sret tt.
End accept.

(** [recvTimingResp(response)]: the answer to request [n] *)
Definition f1_recvTimingResp (n : Z) (response : LinePacket) : M bool :=
  let! r := f1_request n in
  do! sassert (match fr_packet r with None => true | Some _ => false end) in
  do! f1_update n (fr_setPacket (Some response)) in
  do! smod (f1_addInMemory (-1)) in
  do! f1_update n (fr_setState Complete) in
  do! wakeupOnEvent in
  sret true.

(** [numInFlightFetches()] *)
Definition numInFlightFetches s : Z :=
  u32 (occupiedSpace (f1_requests s) + occupiedSpace (f1_transfers s)).

(** ** Streams *)

(** [updateExpectedSeqNums(branch)] *)
Definition updateExpectedSeqNums (branch : BranchData I) i : Fetch1ThreadInfo :=
  mkF1Info (f1_state i) (f1_pc i) (f1_fetchAddr i) (newStreamSeqNum branch) (newPredictionSeqNum branch)
    (f1_blocked i) (f1_wakeupGuard i).

(** [changeStream(branch)] *)
Definition changeStream (branch : BranchData I) : M unit :=
  let! i := f1_thread (brThreadId branch) in
  let i := updateExpectedSeqNums branch i in
  let st := match reason branch with
            | SuspendThread => if f1_wakeupGuard i then f1_state i else FetchWaitingForPC
            | HaltFetch => FetchHalted
            | _ => FetchRunning
            end in
  let! p := slift (derefPtr (target branch)) in
  f1_setThread (brThreadId branch)
    (mkF1Info st (target branch) (instAddr p) (f1_streamSeqNum i) (f1_predictionSeqNum i)
       (f1_blocked i) (f1_wakeupGuard i)).

(** a change of stream asked for by Execute *)
Definition executeBranch (b : BranchData I) : M unit :=
  if isStreamChange (reason b) then
    let! i := f1_thread (brThreadId b) in
    if decide (f1_state i = FetchHalted) then sret tt else changeStream b
  else sret tt.

(** a prediction of Fetch2 *)
Definition predictionBranch (b : BranchData I) : M unit :=
  let! i := f1_thread (brThreadId b) in
  if decide (f1_state i = FetchHalted) then sret tt
  else if isStreamChange (reason b) && (newStreamSeqNum b =? f1_streamSeqNum i) then changeStream b
  else sret tt.

(** the reaction of [evaluate()] to both *)
Definition f1_branches (execute_branch fetch2_branch : BranchData I) : M unit :=
  let etid := brThreadId execute_branch in
  let ftid := brThreadId fetch2_branch in
  if negb (etid =? InvalidThreadID) && (etid =? ftid) then
    let! _ := f1_thread etid in
    if isStreamChange (reason execute_branch) then executeBranch execute_branch
    else predictionBranch fetch2_branch
  else
    do! (if negb (etid =? InvalidThreadID) then executeBranch execute_branch else sret tt) in
    if negb (ftid =? InvalidThreadID) && isStreamChange (reason fetch2_branch)
    then predictionBranch fetch2_branch else sret tt.

(** ** One cycle *)

(** [processResponse(response, line)] *)
Definition processResponse r (line : Line) : M Line :=
  let tid := threadId (fr_id r) in
  let! i := f1_thread tid in
  let line := setFault line (fr_fault r) in
  let line := mkLine (bubbleFlag line) (fr_vaddr r) (f1_pc i) (fr_pc r) (lineWidth line) (lineLvptOut line)
                (lineFault line) (fr_id r) (lineBytes line) (packet line) in
  let! line :=
    (if faultSet (fr_fault r) then
       do! f1_setThread tid (mkF1Info FetchWaitingForPC (f1_pc i) (f1_fetchAddr i) (f1_streamSeqNum i)
                               (f1_predictionSeqNum i) (f1_blocked i) (f1_wakeupGuard i)) in
       sret line
     else
       let! p := slift (derefPtr (fr_packet r)) in
       slift (adoptPacketData line p)) in
  let! s := sget in
  let! d := slift (read (f1_lvpt s) (fetchAddr line)) in
  sret (mkLine (bubbleFlag line) (lineBaseAddr line) (linePc line) (fetchAddr line) (lineWidth line) d
          (lineFault line) (lineId line) (lineBytes line) (packet line)).

(** [getScheduledThread()]; [active] are the threads whose context is active *)
Definition f1_getScheduledThread (active : Z → bool) (policy : ThreadPolicy) (numThreads : Z)
    (shuffled : list Z) : M (option Z) :=
  let! s := sget in
  let! sched := slift (firstReady (λ tid,
      i ← vget (f1_fetchInfo s) tid;
      Ok (active tid && negb (f1_blocked i) && bool_decide (f1_state i = FetchRunning)))
    (priorityList policy numThreads (f1_threadPriority s) shuffled)) in
  do! (match sched with Some tid => smod (f1_updPriority tid) | None => sret tt end) in
  sret sched.

(** what Fetch1 shares with the rest of the CPU in one cycle; [f1_junk] is what
    the [lvptIn*] members hold that nobody has assigned *)
Record Fetch1Io := mkF1Io {
  f1_inp : BranchData I;
  f1_prediction : BranchData I;
  f1_out : Line;
  f1_nextStageReserve : list (InputBuffer Line);
  f1_active : Z → bool;
  f1_shuffled : list Z;
  f1_reply : option Fault;
  f1_junk : LvptIn;
}.

(** [fetchInfo[tid].blocked = !nextStageReserve[tid].canReserve()] *)
Definition f1_block (next : list (InputBuffer Line)) (infos : list Fetch1ThreadInfo) (tid : Z)
  : res (list Fetch1ThreadInfo) :=
  n ← vget next tid; i ← vget infos tid;
  vset infos tid (mkF1Info (f1_state i) (f1_pc i) (f1_fetchAddr i) (f1_streamSeqNum i)
                    (f1_predictionSeqNum i) (negb (canReserve n)) (f1_wakeupGuard i)).

Definition f1_blockAll (next : list (InputBuffer Line)) (numThreads : Z) : M unit :=
  let! s := sget in
  let! infos := slift (mfold (f1_block next) (f1_fetchInfo s) (zrange 0 (numThreads - 1))) in
  smod (f1_updInfo infos).

(** starting a fetch *)
Definition f1_startFetch (f1_accept : Z → bool) (policy : ThreadPolicy) (numThreads : Z) (io : Fetch1Io)
    (next : list (InputBuffer Line)) : M (list (InputBuffer Line)) :=
  let! s := sget in
  if numInFlightFetches s <? f1_fetchLimit s then
    let! sched := f1_getScheduledThread (f1_active io) policy numThreads (f1_shuffled io) in
    match sched with
    | Some tid =>
        do! fetchLine f1_accept tid (f1_reply io) in
        let! n := slift (vget next tid) in
        slift (vset next tid (reserve n))
    | None => sret next
    end
  else sret next.

(** taking the next response *)
Definition f1_takeResponse (line_out : Line) (next : list (InputBuffer Line))
  : M (Line * list (InputBuffer Line)) :=
  let! s := sget in
  match queue (f1_transfers s) with
  | response :: _ =>
      if fr_isComplete response then
        let! discardable := slift (isDiscardable (f1_fetchInfo s) response) in
        let! res :=
          (if discardable : bool then
             let! n := slift (vget next (threadId (fr_id response))) in
             let! next := slift (vset next (threadId (fr_id response)) (freeReservation n)) in
             do! wakeupOnEvent in
             sret (line_out, next)
           else
             let! line := processResponse response line_out in sret (line, next)) in
        let! s := sget in
        let! t := slift (Queue_pop (f1_transfers s)) in
        do! smod (f1_updQueues (f1_requests s) t) in
        sret res
      else sret (line_out, next)
  | [] => sret (line_out, next)
  end.

(** [evaluate()] *)
Definition Fetch1_evaluate (f1_accept : Z → bool) (policy : ThreadPolicy) (numThreads : Z) (io : Fetch1Io)
  : M (Line * list (InputBuffer Line)) :=
  do! smod (f1_setAwake false) in
  do! smod (f1_setActivity false) in
  do! sassert (isBubble (f1_out io)) in
  do! f1_blockAll (f1_nextStageReserve io) numThreads in
  do! f1_branches (f1_inp io) (f1_prediction io) in
  let! next := f1_startFetch f1_accept policy numThreads io (f1_nextStageReserve io) in
  do! stepQueues f1_accept in
  let! res := f1_takeResponse (f1_out io) next in
  do! (if negb (isBubble res.1) then smod (f1_setActivity true) else sret tt) in
  let! s := sget in
  let l := default (f1_junk io) (lvptIn (f1_inp io)) in
  let! t := slift (updateTable (f1_lvpt s) (lvptInValue l) (lvptInAddr l) (lvptInPC l)
                     (lvptInPredict l) (lvptInConstant l)) in
  do! smod (f1_updLvpt t) in
  do! smod (λ s, f1_updInfo ((λ i, mkF1Info (f1_state i) (f1_pc i) (f1_fetchAddr i) (f1_streamSeqNum i)
                               (f1_predictionSeqNum i) (f1_blocked i) false) <$> f1_fetchInfo s) s) in
  sret res.

(** [wakeupFetch(tid)]; [p] is the pc of the thread's context *)
Definition wakeupFetch (tid : Z) (p : PCState) : M unit :=
  let! i := f1_thread tid in
  do! f1_setThread tid (mkF1Info FetchRunning (Some p) (instAddr p) (f1_streamSeqNum i)
                          (f1_predictionSeqNum i) (f1_blocked i) true) in
  wakeupOnEvent.

(** [isDrained()] *)
Definition Fetch1_isDrained s (out : Line) : bool :=
  (numInFlightFetches s =? 0) && isBubble out
  && forallb (λ i, negb (bool_decide (f1_state i = FetchRunning))) (f1_fetchInfo s).
End fetch1.
