(* ===== verification/Fetch1Inv.v ===== *)
(** * The invariant of Fetch1 (src/cpu/myminor/fetch1.cc)

    The requests in flight (transfers, then requests) are in the order of
    their line numbers; for each thread, those of its current stream and
    prediction are for consecutive lines of memory, starting where the next
    line is due.  The counters count, the reservations match, and a request
    that cannot be answered is out of date. *)
From stdpp Require Import sorting.
From S2P Require Import Prelude TimeBuf Buffers Activity LVPT PipeData Cpu Repack Fetch1.

(** Configuration: thread count, line alignment and width, number of fetches
    in flight and the prediction table. *)
Record F1Config := mkF1Config {
  c_threads : Z;
  c_snap : Z;
  c_width : Z;
  c_limit : Z;
  c_table : Z;
  c_threshold : Z;
  c_max : Z;
}.

Record config_ok (c : F1Config) : Prop := {
  co_threads : 0 < c_threads c;
  co_snap : ∃ k, 0 ≤ k ≤ 31 ∧ c_snap c = 2 ^ k;
  co_width : 0 < c_width c < 2 ^ 31 ∧ (c_snap c | c_width c);
  co_limit : 1 ≤ c_limit c < 2 ^ 29;
  co_table : 4 ≤ c_table c < 2 ^ 31;
  co_thr : 0 ≤ c_threshold c ≤ c_max c ∧ c_max c < 2 ^ 32;
}.

(** Rounding an address down to a line. *)
Definition align (snap a : Z) : Z := a - a `mod` snap.

(** The code's [fetchAddr & ~(lineSnap - 1)]. *)
Lemma align_land snap k a : 0 ≤ k ≤ 31 → snap = 2 ^ k → 0 ≤ a < 2 ^ 64 →
  Z.land a (u64 (Z.lnot (u64 (snap - 1)))) = align snap a.
Proof.
  intros Hk -> Ha. assert (0 < 2 ^ k ≤ 2 ^ 31) by (split; [lia|apply Z.pow_le_mono_r; lia]).
  rewrite (u64_id (2 ^ k - 1)) by lia. unfold u64.
  rewrite <- (Z.land_ones (Z.lnot _) 64) by lia.
  rewrite (Z.land_comm (Z.lnot _)), Z.land_assoc, (Z.land_ones a 64) by lia.
  rewrite (Z.mod_small a) by lia. rewrite <- Z.ldiff_land.
  replace (2 ^ k - 1) with (Z.ones k) by (rewrite Z.ones_equiv; lia).
  rewrite Z.ldiff_ones_r, Z.shiftl_mul_pow2, Z.shiftr_div_pow2 by lia.
  unfold align. pose proof (Z.div_mod a (2 ^ k)). lia.
Qed.

Lemma align_range snap a : 0 < snap → 0 ≤ a → 0 ≤ align snap a ≤ a ∧ a < align snap a + snap ∧ (snap | align snap a).
Proof.
  intros Hs Ha. unfold align. pose proof (Z.mod_pos_bound a snap Hs). pose proof (Z.mod_le a snap Ha Hs).
  split; [lia|]. split; [lia|]. exists (a / snap). pose proof (Z.div_mod a snap). lia.
Qed.

Lemma align_multiple snap a : 0 < snap → (snap | a) → align snap a = a.
Proof. intros Hs [x ->]. unfold align. rewrite Z.mod_mul by lia. lia. Qed.

(** Wrapping at 2^64 keeps an address a multiple of a power of two. *)
Lemma divide_u64 k a : 0 ≤ k ≤ 31 → (2 ^ k | a) → (2 ^ k | u64 a).
Proof.
  intros Hk Ha. unfold u64. rewrite Z.mod_eq by lia. apply Z.divide_sub_r; [done|].
  apply Z.divide_mul_l. exists (2 ^ (64 - k)). rewrite <- Z.pow_add_r by lia. f_equal. lia.
Qed.

Lemma u64_add a b : u64 (u64 a + b) = u64 (a + b).
Proof. unfold u64. by rewrite Zplus_mod_idemp_l. Qed.

(** ** Tags *)

(** The numbers that date a line: stream, then prediction. *)
Definition Tag : Type := Z * Z.

Definition tag_lt (a b : Tag) : Prop := a.1 < b.1 ∨ (a.1 = b.1 ∧ a.2 < b.2).
Definition tag_le (a b : Tag) : Prop := tag_lt a b ∨ a = b.

Lemma tag_lt_irrefl a : ¬ tag_lt a a.
Proof. unfold tag_lt. lia. Qed.
Lemma tag_lt_trans a b d : tag_lt a b → tag_lt b d → tag_lt a d.
Proof. unfold tag_lt. lia. Qed.
Lemma tag_le_lt a b d : tag_le a b → tag_lt b d → tag_lt a d.
Proof. intros [?| ->]; [by eapply tag_lt_trans|done]. Qed.

Definition req_tag (r : FetchRequest) : Tag := (streamSeqNum (fr_id r), predictionSeqNum (fr_id r)).
Definition req_thread (r : FetchRequest) : Z := threadId (fr_id r).

(** ** The abstract source of lines

    What a thread is fetching: tag and pc of the current stream, the address
    of the next line to be given out, the state of the thread and whether it
    has just been woken up. *)
Record Source `{I : Isa} := mkSource {
  src_tag : Tag;
  src_pc : option PCState;
  src_next : Z;
  src_state : FetchState;
  src_guard : bool;
}.
Arguments mkSource {I}.

Section inv.
Context `{I : Isa} (c : F1Config).
Implicit Types (s : Fetch1) (r : FetchRequest) (i : Fetch1ThreadInfo) (src : Z → Source)
  (infos : list Fetch1ThreadInfo) (fl : list FetchRequest).

Definition info_tag i : Tag := (f1_streamSeqNum i, f1_predictionSeqNum i).

(** The requests in flight, oldest first. *)
Definition flight s : list FetchRequest := queue (f1_transfers s) ++ queue (f1_requests s).

(** What does not change while a request is in flight. *)
Definition core r : InstId * Z * Z * Z := (fr_id r, fr_vaddr r, fr_size r, fr_pc r).

(** The requests of thread [t] that are up to date. *)
Definition current (t : Z) i r : bool :=
  (req_thread r =? t) && bool_decide (req_tag r = info_tag i).

Record thread_src fl (t : Z) (a : Source) i : Prop := {
  ts_tag : src_tag a = info_tag i;
  ts_pc : src_pc a = f1_pc i;
  ts_state : src_state a = f1_state i;
  ts_guard : src_guard a = f1_wakeupGuard i;
  ts_addr : 0 ≤ f1_fetchAddr i < 2 ^ 64;
  ts_next : 0 ≤ src_next a < 2 ^ 64;
  ts_chain : ∀ k r, List.filter (current t i) fl !! k = Some r →
    fr_vaddr r = u64 (src_next a + Z.of_nat k * c_width c);
}.

Record req_common infos r : Prop := {
  rc_info : ∃ i, vget infos (req_thread r) = Ok i ∧ tag_le (req_tag r) (info_tag i);
  rc_size : fr_size r = c_width c;
  rc_pc : 0 ≤ fr_pc r < 2 ^ 64 ∧ align (c_snap c) (fr_pc r) = fr_vaddr r;
  rc_ids : fetchSeqNum (fr_id r) = 0 ∧ execSeqNum (fr_id r) = 0;
}.

(** A request in [requests]. *)
Definition req_ok r : Prop :=
  (fr_state r = InTranslation ∧ fr_fault r = None) ∨ fr_state r = Translated.

(** A request in [transfers]: out with the memory, or answered, or out of date. *)
Definition tr_ok infos r : Prop :=
  (fr_state r = RequestIssuing ∧ fr_packet r = None ∧ fr_fault r = None)
  ∨ (fr_state r = Complete ∧
     (faultSet (fr_fault r) = true
      ∨ (∃ bytes, fr_packet r = Some bytes ∧ Z.of_nat (length bytes) = c_width c)
      ∨ (∃ i, vget infos (req_thread r) = Ok i ∧ tag_lt (req_tag r) (info_tag i)))).

Definition inTlb r : bool := bool_decide (fr_state r = InTranslation).
Definition inMem r : bool := bool_decide (fr_state r = RequestIssuing).

Record f1_ok src (ops : list lvpt_op) s : Prop := {
  k_snap : f1_lineSnap s = c_snap c;
  k_width : f1_maxLineWidth s = c_width c;
  k_limit : f1_fetchLimit s = c_limit c;
  k_threads : Z.of_nat (length (f1_fetchInfo s)) = c_threads c;
  k_thread t i : vget (f1_fetchInfo s) t = Ok i → thread_src (flight s) t (src t) i;
  k_sorted : StronglySorted Z.lt (fr_number <$> flight s);
  k_common : Forall (req_common (f1_fetchInfo s)) (flight s);
  k_reqs : Forall req_ok (queue (f1_requests s));
  k_trs : Forall (tr_ok (f1_fetchInfo s)) (queue (f1_transfers s));
  k_itlb : f1_inITLB s = countb inTlb (queue (f1_requests s));
  k_mem : f1_inMemorySystem s = countb inMem (queue (f1_transfers s));
  k_cap : Z.of_nat (length (flight s)) ≤ c_limit c;
  k_res : numReservedSlots (f1_transfers s) = Z.of_nat (length (queue (f1_requests s)));
  k_retry : f1_icacheState s = IcacheNeedsRetry →
    ∃ r l, queue (f1_requests s) = r :: l ∧ fr_state r = Translated ∧ fr_fault r = None;
  k_lvpt : lvpt_rel (c_table c) (c_threshold c) (c_max c) ops (f1_lvpt s);
}.

(** Where the next request goes: its number is new and its line follows those
    in flight. *)
Record f1_ends src s : Prop := {
  e_number : Forall (λ r, fr_number r < f1_lineSeqNum s) (flight s);
  e_range : 0 ≤ f1_lineSeqNum s < 2 ^ 64;
  e_end t i : vget (f1_fetchInfo s) t = Ok i →
    align (c_snap c) (f1_fetchAddr i)
    = u64 (src_next (src t) + Z.of_nat (length (List.filter (current t i) (flight s))) * c_width c);
}.

(** ** Frames *)

Lemma filter_core (f : FetchRequest → bool) l l' : (∀ r r', core r = core r' → f r = f r') →
  core <$> l = core <$> l' → core <$> List.filter f l = core <$> List.filter f l'.
Proof.
  intros Hf. revert l'. induction l as [|r l IH]; intros [|r' l'] H; try done.
  injection H as H1 H2 H3 H4 H5. assert (core r = core r') as Hc by (unfold core; congruence).
  cbn [List.filter]. rewrite (Hf r r' Hc). destruct (f r'); [|by apply IH].
  cbn. rewrite Hc. f_equal. by apply IH.
Qed.

Lemma current_core t i r r' : core r = core r' → current t i r = current t i r'.
Proof. intros [= H1 _ _ _]. unfold current, req_thread, req_tag. by rewrite H1. Qed.

Lemma current_length t i fl fl' : core <$> fl = core <$> fl' →
  length (List.filter (current t i) fl) = length (List.filter (current t i) fl').
Proof.
  intros Hc. pose proof (filter_core (current t i) fl fl' (current_core t i) Hc) as Hfc.
  by rewrite <- (length_fmap core), Hfc, length_fmap.
Qed.

Lemma thread_src_core fl fl' t a i : core <$> fl = core <$> fl' → thread_src fl t a i → thread_src fl' t a i.
Proof.
  intros Hc [H1 H2 H2' H2'' H3 H4 H5].
  pose proof (filter_core (current t i) fl fl' (current_core t i) Hc) as Hfc.
  split; try done. intros k r Hk.
  assert ((core <$> List.filter (current t i) fl) !! k = Some (core r)) as Hk'.
  { rewrite Hfc, list_lookup_fmap, Hk. done. }
  rewrite list_lookup_fmap in Hk'. destruct (List.filter (current t i) fl !! k) as [r'|] eqn:E; [|done].
  injection Hk' as _ Hv _ _. rewrite <- Hv. by apply H5.
Qed.

Lemma req_common_core infos r r' : core r = core r' → req_common infos r → req_common infos r'.
Proof.
  intros [= H1 H2 H3 H4] [? ? ? ?]. split; unfold req_thread, req_tag in *; rewrite <- ?H1, <- ?H2, <- ?H3, <- ?H4; done.
Qed.

Lemma Forall_core infos fl fl' : core <$> fl = core <$> fl' →
  Forall (req_common infos) fl → Forall (req_common infos) fl'.
Proof.
  revert fl'. induction fl as [|r fl IH]; intros [|r' fl'] Hc Hf; try done.
  injection Hc as H1 H2 H3 H4 H5. apply Forall_cons in Hf as [Hr Hf]. constructor; [|by apply IH].
  eapply req_common_core; [|done]. unfold core. congruence.
Qed.

Lemma number_core fl fl' : core <$> fl = core <$> fl' → fr_number <$> fl = fr_number <$> fl'.
Proof.
  revert fl'. induction fl as [|r fl IH]; intros [|r' fl'] Hc; try done.
  injection Hc as H1 H2 H3 H4 H5. cbn. unfold fr_number at 1 3. rewrite H1. f_equal. by apply IH.
Qed.

(** A step that changes nothing but the states of requests, their place in the
    queues and the counters. *)
Lemma f1_ok_frame src ops s s' : f1_ok src ops s →
  f1_lineSnap s' = f1_lineSnap s → f1_maxLineWidth s' = f1_maxLineWidth s →
  f1_fetchLimit s' = f1_fetchLimit s → f1_fetchInfo s' = f1_fetchInfo s →
  f1_lvpt s' = f1_lvpt s →
  core <$> flight s' = core <$> flight s →
  Forall req_ok (queue (f1_requests s')) → Forall (tr_ok (f1_fetchInfo s)) (queue (f1_transfers s')) →
  f1_inITLB s' = countb inTlb (queue (f1_requests s')) →
  f1_inMemorySystem s' = countb inMem (queue (f1_transfers s')) →
  numReservedSlots (f1_transfers s') = Z.of_nat (length (queue (f1_requests s'))) →
  (f1_icacheState s' = IcacheNeedsRetry →
    ∃ r l, queue (f1_requests s') = r :: l ∧ fr_state r = Translated ∧ fr_fault r = None) →
  f1_ok src ops s'.
Proof.
  intros [H1 H2 H3 H4 H5 H6 H8 _ _ _ _ H13 _ _ H16] E1 E2 E3 E4 E6 Hc Hrq Htr Hi Hm Hr Hy.
  assert (fr_number <$> flight s' = fr_number <$> flight s) as Hn by (by apply number_core).
  split; rewrite ?E1, ?E2, ?E3, ?E4, ?E6; try done.
  - intros t i Hi'. eapply thread_src_core; [by symmetry|by apply H5].
  - by rewrite Hn.
  - eapply Forall_core; [by symmetry|done].
  - by rewrite <- (length_fmap core), Hc, length_fmap.
Qed.

(** ** Updating one request *)

Lemma map_other (f : FetchRequest → FetchRequest) n (l : list FetchRequest) : n ∉ fr_number <$> l →
  (λ r, if fr_number r =? n then f r else r) <$> l = l.
Proof.
  induction l as [|r l IH]; intros Hn; [done|]. cbn in *. apply not_elem_of_cons in Hn as [Hr Hn].
  rewrite (proj2 (Z.eqb_neq _ _)) by done. f_equal. by apply IH.
Qed.

Lemma map_one (f : FetchRequest → FetchRequest) (l1 : list FetchRequest) r l2 : NoDup (fr_number <$> l1 ++ r :: l2) →
  (λ x, if fr_number x =? fr_number r then f x else x) <$> (l1 ++ r :: l2) = l1 ++ f r :: l2.
Proof.
  intros Hnd. rewrite fmap_app in Hnd. rewrite fmap_app. cbn in Hnd |- *. apply NoDup_app in Hnd as (_ & H1 & H2).
  apply NoDup_cons in H2 as [H2 _]. rewrite Z.eqb_refl, !map_other; [done|done|].
  intros Hin. apply (H1 _ Hin). by left.
Qed.

Lemma mkQueue_eta (q : Queue FetchRequest) : mkQueue (queue q) (numReservedSlots q) (capacity q) = q.
Proof. by destruct q. Qed.

(** Replacing the list of a queue. *)
Definition withList (q : Queue FetchRequest) (l : list FetchRequest) : Queue FetchRequest :=
  mkQueue l (numReservedSlots q) (capacity q).

Lemma numbers_nodup s : StronglySorted Z.lt (fr_number <$> flight s) → NoDup (fr_number <$> flight s).
Proof. intros Hs. apply StronglySorted_Sorted, Sorted_StronglySorted in Hs; [|exact Z.lt_trans].
  induction Hs as [|x l _ IH Hf]; constructor; [|done]. rewrite Forall_forall in Hf.
  intros Hin. specialize (Hf x Hin). lia.
Qed.

Lemma nodup_split s : NoDup (fr_number <$> flight s) →
  NoDup (fr_number <$> queue (f1_requests s)) ∧ NoDup (fr_number <$> queue (f1_transfers s))
  ∧ ∀ n, n ∈ fr_number <$> queue (f1_requests s) → n ∉ fr_number <$> queue (f1_transfers s).
Proof.
  unfold flight. rewrite fmap_app. intros (H1 & H2 & H3)%NoDup_app. split_and!; try done.
  intros n Hr Ht. by apply (H2 n).
Qed.

Lemma update_request s f l1 r l2 : NoDup (fr_number <$> flight s) →
  queue (f1_requests s) = l1 ++ r :: l2 →
  f1_update (fr_number r) f s
  = Ok (tt, f1_updQueues (withList (f1_requests s) (l1 ++ f r :: l2)) (f1_transfers s) s).
Proof.
  intros Hnd Hq. destruct (nodup_split s Hnd) as (H1 & _ & H3). rewrite Hq in H1.
  unfold f1_update, smod, mapQueue, withList. do 2 f_equal. f_equal.
  - by rewrite Hq, map_one.
  - rewrite map_other; [apply mkQueue_eta|]. apply H3. rewrite Hq, fmap_app. set_solver.
Qed.

Lemma update_transfer s f l1 r l2 : NoDup (fr_number <$> flight s) →
  queue (f1_transfers s) = l1 ++ r :: l2 →
  f1_update (fr_number r) f s
  = Ok (tt, f1_updQueues (f1_requests s) (withList (f1_transfers s) (l1 ++ f r :: l2)) s).
Proof.
  intros Hnd Hq. destruct (nodup_split s Hnd) as (_ & H2 & H3). rewrite Hq in H2.
  unfold f1_update, smod, mapQueue, withList. do 2 f_equal. f_equal.
  - rewrite map_other; [apply mkQueue_eta|]. intros Hin. apply (H3 _ Hin). rewrite Hq, fmap_app. set_solver.
  - by rewrite Hq, map_one.
Qed.

Lemma request_found s r : NoDup (fr_number <$> flight s) → r ∈ flight s →
  f1_request (fr_number r) s = Ok (r, s).
Proof.
  intros Hnd Hin. unfold f1_request, sbind, sget.
  assert (NoDup (fr_number <$> queue (f1_requests s) ++ queue (f1_transfers s))) as Hnd'.
  { unfold flight in Hnd. rewrite fmap_app in Hnd. rewrite fmap_app.
    apply NoDup_app in Hnd. apply NoDup_app. set_solver. }
  assert (r ∈ queue (f1_requests s) ++ queue (f1_transfers s)) as Hin' by (unfold flight in Hin; set_solver).
  revert Hnd' Hin'. generalize (queue (f1_requests s) ++ queue (f1_transfers s)) as l. clear.
  induction l as [|x l IH]; intros Hnd Hin; [by apply not_elem_of_nil in Hin|].
  cbn [List.find]. cbn in Hnd. apply NoDup_cons in Hnd as [Hx Hnd].
  apply elem_of_cons in Hin as [<-|Hin]; [by rewrite Z.eqb_refl|].
  rewrite (proj2 (Z.eqb_neq _ _)); [by apply IH|]. intros He. apply Hx. rewrite He.
  by apply list_elem_of_fmap_2.
Qed.
End inv.
