(* ===== verification/Fetch1Steps.v ===== *)
(** * The steps of Fetch1 keep its invariant (src/cpu/myminor/fetch1.cc)

    Moving requests from the TLB to the cache and the answers of both, and the
    frame lemmas for the thread records. *)
From stdpp Require Import sorting.
From S2P Require Import Prelude TimeBuf Buffers Activity LVPT PipeData Cpu Repack Fetch1 Fetch1Inv.

Section steps.
Context `{I : Isa} (c : F1Config) (Hcfg : config_ok c).
Implicit Types (s : Fetch1) (r : FetchRequest) (i : Fetch1ThreadInfo) (src : Z → Source)
  (infos : list Fetch1ThreadInfo) (fl : list FetchRequest) (acc : Z → bool).
Notation ok := (f1_ok c).

(** Somebody will call Fetch1 back: the cache, the TLB or the memory. *)
Definition owes s : Prop :=
  f1_icacheState s = IcacheNeedsRetry ∨ 0 < f1_inITLB s ∨ 0 < f1_inMemorySystem s.

(** What moving requests along does not change. *)
Record f1_moved s s' : Prop := {
  fm_core : core <$> flight s' = core <$> flight s;
  fm_info : f1_fetchInfo s' = f1_fetchInfo s;
  fm_prio : f1_threadPriority s' = f1_threadPriority s;
  fm_line : f1_lineSeqNum s' = f1_lineSeqNum s;
  fm_lvpt : f1_lvpt s' = f1_lvpt s;
  fm_awake : f1_awake s = true → f1_awake s' = true;
}.

Lemma f1_moved_refl s : f1_moved s s.
Proof. by split. Qed.

Lemma f1_moved_trans s s' s'' : f1_moved s s' → f1_moved s' s'' → f1_moved s s''.
Proof. intros [] []. split; (congruence || auto). Qed.

Lemma f1_ends_moved src s s' : f1_moved s s' → f1_ends c src s → f1_ends c src s'.
Proof.
  intros [Hc Hi _ Hl _ _] [H1 H2 H3]. split; rewrite ?Hl; [|done|].
  - assert (Forall (λ x, x < f1_lineSeqNum s) (fr_number <$> flight s)) as H by (by apply Forall_fmap).
    rewrite <- (number_core _ _ Hc) in H. by apply Forall_fmap in H.
  - intros t i Ht. rewrite Hi in Ht. rewrite (current_length t i _ (flight s) Hc). by apply H3.
Qed.

Lemma ok_nodup src ops s : ok src ops s → NoDup (fr_number <$> flight s).
Proof. intros Hok. apply numbers_nodup, Hok. Qed.

Lemma Queue_push_reserved (q : Queue FetchRequest) r k : numReservedSlots q = Z.of_nat (S k) →
  Z.of_nat (S k) < 2 ^ 31 →
  queue (Queue_push q r) = queue q ++ [r] ∧ numReservedSlots (Queue_push q r) = Z.of_nat k.
Proof.
  intros Hr Hk. split; [done|]. unfold Queue_push. change (isBubble r) with false. cbn [negb].
  unfold Queue_freeReservation. cbn [numReservedSlots]. rewrite Hr, (proj2 (Z.eqb_neq _ 0)) by lia.
  cbn [negb]. rewrite u32_id by lia. lia.
Qed.

Lemma move_front s r l : queue (f1_requests s) = r :: l →
  f1_moveToTransfers (fr_number r) s
  = Ok (tt, f1_updQueues (withList (f1_requests s) l) (Queue_push (f1_transfers s) r) s).
Proof.
  intros Hq. unfold f1_moveToTransfers, sbind, sget, slift, sassert, smod, Queue_front, Queue_pop, withList.
  rewrite Hq, Z.eqb_refl. done.
Qed.

Lemma discard_iff infos r i : vget infos (req_thread r) = Ok i →
  fr_state r = Translated ∨ fr_state r = Complete →
  isDiscardable infos r = Ok (negb (bool_decide (req_tag r = info_tag i))).
Proof.
  intros Hi Hs. unfold isDiscardable. change (threadId (fr_id r)) with (req_thread r). rewrite Hi. cbn [rbind].
  f_equal. rewrite !bool_decide_false by (destruct Hs; congruence). cbn [negb andb].
  unfold req_tag, info_tag. case_bool_decide as H.
  - injection H as -> ->. by rewrite !Z.eqb_refl.
  - destruct (Z.eqb_spec (streamSeqNum (fr_id r)) (f1_streamSeqNum i)) as [E1|]; [|done].
    destruct (Z.eqb_spec (predictionSeqNum (fr_id r)) (f1_predictionSeqNum i)) as [E2|]; [|done].
    destruct H. by rewrite E1, E2.
Qed.

(** The state after the front request [r] has gone to [transfers] as [r']. *)
Definition sentFront s r' (l : list FetchRequest) : Fetch1 :=
  f1_updQueues (withList (f1_requests s) l) (Queue_push (f1_transfers s) r') s.

Lemma sentFront_ok src ops s s' r r' l : ok src ops s → queue (f1_requests s) = r :: l →
  core r' = core r → tr_ok c (f1_fetchInfo s) r' →
  f1_icacheState s' = IcacheRunning → fr_state r ≠ InTranslation →
  f1_lineSnap s' = f1_lineSnap s → f1_maxLineWidth s' = f1_maxLineWidth s →
  f1_fetchLimit s' = f1_fetchLimit s → f1_fetchInfo s' = f1_fetchInfo s →
  f1_threadPriority s' = f1_threadPriority s →
  f1_lineSeqNum s' = f1_lineSeqNum s → f1_lvpt s' = f1_lvpt s → f1_inITLB s' = f1_inITLB s →
  f1_inMemorySystem s' = f1_inMemorySystem s + b2z (inMem r') →
  (f1_awake s = true → f1_awake s' = true) →
  f1_requests s' = withList (f1_requests s) l → f1_transfers s' = Queue_push (f1_transfers s) r' →
  ok src ops s' ∧ f1_moved s s'.
Proof.
  intros Hok Hq Hc Ht Hic Hst E1 E2 E3 E4 Ep E5 E6 Ei Em Ea Eq Et.
  pose proof (k_cap _ _ _ _ Hok) as Hcap. pose proof (co_limit _ Hcfg). pose proof (k_res _ _ _ _ Hok) as Hres.
  unfold flight in Hcap. rewrite Hq, length_app in Hcap. rewrite Hq in Hres. cbn [length] in Hcap, Hres.
  destruct (Queue_push_reserved (f1_transfers s) r' (length l)) as [Hpq Hpr]; [done|lia|].
  assert (core <$> flight s' = core <$> flight s) as Hcore.
  { unfold flight. rewrite Eq, Et, Hpq, Hq. cbn [queue withList]. rewrite <- app_assoc. cbn [app].
    rewrite !fmap_app. cbn. by rewrite Hc. }
  assert (f1_moved s s') as Hmv by (split; congruence || done). split; [|done].
  eapply (f1_ok_frame c src ops s); try done.
  - rewrite Eq. cbn [queue withList]. pose proof (k_reqs _ _ _ _ Hok) as H'. rewrite Hq in H'. by inversion H'.
  - rewrite Et, Hpq. apply Forall_app. split; [apply Hok|by constructor].
  - rewrite Ei, (k_itlb _ _ _ _ Hok), Eq, Hq, countb_cons. cbn [queue withList]. unfold inTlb at 1.
    rewrite bool_decide_false by done. cbn. lia.
  - rewrite Em, (k_mem _ _ _ _ Hok), Et, Hpq, countb_app, countb_cons, countb_nil. lia.
  - rewrite Eq, Et, Hpr. done.
  - by rewrite Hic.
Qed.

Lemma mem_bound src ops s : ok src ops s → 0 ≤ f1_inMemorySystem s ≤ Z.of_nat (length (queue (f1_transfers s))).
Proof.
  intros Hok. rewrite (k_mem _ _ _ _ Hok). split; [apply countb_nonneg|apply countb_le_length].
Qed.

Lemma flight_bound src ops s : ok src ops s →
  Z.of_nat (length (queue (f1_transfers s))) + Z.of_nat (length (queue (f1_requests s))) < 2 ^ 29.
Proof.
  intros Hok. pose proof (k_cap _ _ _ _ Hok) as H. pose proof (co_limit _ Hcfg). unfold flight in H.
  rewrite length_app in H. lia.
Qed.

(** Offering the front request to the cache. *)
Lemma sendFront acc src ops s r l : ok src ops s → queue (f1_requests s) = r :: l →
  fr_state r = Translated → fr_fault r = None →
  wp (let! sent := f1_tryToSend acc (fr_number r) in
      if sent : bool then f1_moveToTransfers (fr_number r) else sret tt)
     (f1_updIcache IcacheRunning s)
     (λ _ s', ok src ops s' ∧ f1_moved s s' ∧ owes s').
Proof.
  intros Hok Hq Hst Hf. pose proof (ok_nodup src ops s Hok) as Hnd. apply wp_bind. unfold f1_tryToSend.
  apply wp_bind, wp_get. apply wp_bind, wp_mod. cbn [f1_sends f1_updIcache f1_countSend].
  destruct (acc (f1_sends s)).
  - apply wp_bind. set (s1 := f1_countSend (f1_updIcache IcacheRunning s)).
    assert (queue (f1_requests s1) = [] ++ r :: l) as Hq1 by done.
    eexists tt, _. split; [apply (update_request s1 _ [] r l); done|].
    apply wp_bind, wp_mod, wp_ret. set (r' := fr_setState RequestIssuing (fr_setPacket None r)).
    eexists tt, _. split; [apply (move_front _ r' l); done|].
    pose proof (mem_bound src ops s Hok). pose proof (flight_bound src ops s Hok). apply Logic.and_assoc. split.
    + eapply (sentFront_ok src ops s _ r r' l); try done; [by left|by rewrite Hst|].
      cbn. rewrite u32_id by lia. done.
    + right. right. cbn. rewrite u32_id by lia. lia.
  - apply wp_bind, wp_mod. apply wp_ret, wp_ret. split_and!; [|by split|by left].
    eapply (f1_ok_frame c src ops s); try done; try apply Hok. intros _. by exists r, l.
Qed.

Lemma updIcache_id s : f1_icacheState s = IcacheRunning → f1_updIcache IcacheRunning s = s.
Proof. intros H. destruct s. cbn in *. by subst. Qed.

Lemma common_front src ops s r l : ok src ops s → queue (f1_requests s) = r :: l →
  ∃ i, vget (f1_fetchInfo s) (req_thread r) = Ok i ∧ tag_le (req_tag r) (info_tag i).
Proof.
  intros Hok Hq. pose proof (k_common _ _ _ _ Hok) as H. unfold flight in H. rewrite Hq in H.
  apply Forall_app in H as [_ H]. apply Forall_cons in H as [[Hi _ _ _] _]. done.
Qed.

(** A packet can be made for the front request without effect on the rest. *)
Lemma packetFront src ops s r l p : ok src ops s → queue (f1_requests s) = r :: l →
  fr_state r = Translated →
  let s1 := f1_updQueues (withList (f1_requests s) (fr_setPacket p r :: l)) (f1_transfers s) s in
  ok src ops s1 ∧ f1_moved s s1.
Proof.
  intros Hok Hq Hst s1.
  assert (core <$> flight s1 = core <$> flight s) as Hcore.
  { unfold flight, s1. cbn [f1_requests f1_transfers f1_updQueues queue withList]. rewrite Hq, !fmap_app. done. }
  split; [|by split]. eapply (f1_ok_frame c src ops s); try done; cbn; try apply Hok.
  - pose proof (k_reqs _ _ _ _ Hok) as H. rewrite Hq in H. apply Forall_cons in H as [_ H].
    constructor; [by right|done].
  - rewrite (k_itlb _ _ _ _ Hok), Hq, !countb_cons. done.
  - rewrite (k_res _ _ _ _ Hok), Hq. done.
  - intros Hr. destruct (k_retry _ _ _ _ Hok Hr) as (r0 & l0 & Hq0 & ? & ?). rewrite Hq in Hq0.
    injection Hq0 as <- <-. by exists (fr_setPacket p r), l.
Qed.

Lemma inMem_complete r : inMem (fr_setState Complete r) = false.
Proof. done. Qed.

Lemma try_Ok acc src ops s r : ok src ops s → r ∈ queue (f1_requests s) →
  (f1_icacheState s = IcacheNeedsRetry → head (queue (f1_requests s)) ≠ Some r) →
  wp (f1_tryToSendToTransfers acc (fr_number r)) s
     (λ _ s', ok src ops s' ∧ f1_moved s s'
       ∧ (head (queue (f1_requests s)) = Some r → f1_awake s' = true ∨ owes s')).
Proof.
  intros Hok Hin Hret. pose proof (ok_nodup src ops s Hok) as Hnd. unfold f1_tryToSendToTransfers.
  apply wp_bind, wp_get. destruct (queue (f1_requests s)) as [|r0 l] eqn:Hq; [by apply not_elem_of_nil in Hin|].
  destruct (Z.eqb_spec (fr_number r0) (fr_number r)) as [He|Hne]; cbn [negb].
  2:{ apply wp_ret. split_and!; [done|by split|]. intros [= ->]. done. }
  assert (r0 = r) as ->.
  { destruct (nodup_split s Hnd) as (H1 & _). rewrite Hq in H1. cbn in H1. apply NoDup_cons in H1 as [H1 _].
    apply elem_of_cons in Hin as [->|Hin]; [done|]. destruct H1. rewrite He. by apply list_elem_of_fmap_2. }
  apply wp_bind. eexists r, s. split; [apply request_found; [done|]; unfold flight; rewrite Hq; set_solver|].
  pose proof (k_reqs _ _ _ _ Hok) as Hro. rewrite Hq in Hro. apply Forall_cons in Hro as [Hr Hro].
  destruct (decide (fr_state r = InTranslation)) as [Hit|Hit].
  { apply wp_ret. split_and!; [done|by split|]. intros _. right. right. left.
    rewrite (k_itlb _ _ _ _ Hok), Hq, countb_cons. unfold inTlb at 1. rewrite bool_decide_true by done.
    pose proof (countb_nonneg inTlb l). cbn [b2z]. lia. }
  destruct Hr as [[? _]|Hst]; [done|].
  destruct (common_front src ops s r l Hok Hq) as (i & Hi & Htag).
  apply wp_bind. eapply wp_lift; [apply (discard_iff _ _ i Hi); by left|].
  assert (Hrun : f1_icacheState s = IcacheRunning).
  { destruct (f1_icacheState s); [done|]. by destruct (Hret eq_refl). }
  case_bool_decide as Hcur; cbn [negb orb].
  - destruct (faultSet (fr_fault r)) eqn:Hf.
    + apply wp_bind. eexists tt, _. split; [apply (update_request s _ [] r l); done|].
      apply wp_bind. eexists tt, _. split; [apply (move_front _ (fr_setState Complete r) l); done|].
      apply wp_mod. apply Logic.and_assoc. split; [|intros _; by left].
      eapply (sentFront_ok src ops s _ r (fr_setState Complete r) l); try done; [|cbn; rewrite inMem_complete; cbn; lia].
      right. split; [done|]. by left.
    + assert (fr_fault r = None) as Hf' by (by destruct (fr_fault r)).
      rewrite decide_True by done. apply wp_bind.
      set (r1 := match fr_packet r with Some _ => r | None => fr_makePacket r end).
      assert (∃ s1, (match fr_packet r with None => f1_update (fr_number r) fr_makePacket | Some _ => sret tt end) s
                    = Ok (tt, s1) ∧ ok src ops s1 ∧ f1_moved s s1 ∧ queue (f1_requests s1) = r1 :: l
                    ∧ f1_icacheState s1 = IcacheRunning) as (s1 & Hs1 & Hok1 & Hmv1 & Hq1 & Hrun1).
      { unfold r1. destruct (fr_packet r) as [p|]; [by exists s|].
        eexists. split; [apply (update_request s fr_makePacket [] r l); done|].
        destruct (packetFront src ops s r l (Some (replicate (Z.to_nat (fr_size r)) 0)) Hok Hq Hst).
        by split_and!. }
      exists tt, s1. split; [exact Hs1|]. rewrite <- (updIcache_id s1) by done.
      assert (fr_number r = fr_number r1) as -> by (unfold r1; by destruct (fr_packet r)).
      eapply wp_conseq; [apply (sendFront acc src ops s1 r1 l); try done; unfold r1; by destruct (fr_packet r)|].
      intros _ s2 (Hok2 & Hmv2 & Ho). split_and!; [done|by eapply f1_moved_trans|by right].
  - apply wp_bind. eexists tt, _. split; [apply (update_request s _ [] r l); done|].
    apply wp_bind. eexists tt, _. split; [apply (move_front _ (fr_setState Complete r) l); done|].
    apply wp_mod. apply Logic.and_assoc. split; [|intros _; by left].
    eapply (sentFront_ok src ops s _ r (fr_setState Complete r) l); try done; [|cbn; rewrite inMem_complete; cbn; lia].
    right. split; [done|]. right. right. exists i. split; [done|]. by destruct Htag as [?|?].
Qed.

(** [stepQueues] *)
Lemma stepQueues_Ok acc src ops s : ok src ops s →
  wp (stepQueues acc) s (λ _ s', ok src ops s' ∧ f1_moved s s'
    ∧ (queue (f1_requests s') = [] ∨ f1_awake s' = true ∨ owes s')).
Proof.
  intros Hok. unfold stepQueues. apply wp_bind, wp_get. destruct (f1_icacheState s) eqn:Hs.
  - destruct (queue (f1_requests s)) as [|r l] eqn:Hq; [apply wp_ret; split_and!; [done|by split|by left]|].
    eapply wp_conseq; [apply (try_Ok acc src ops s r Hok)|].
    + rewrite Hq. by left.
    + by rewrite Hs.
    + rewrite Hq. cbn. intros _ s' (? & ? & H). split_and!; try done. right. by apply H.
  - apply wp_ret. split_and!; [done|by split|]. right. right. by left.
Qed.

(** ** The answers of TLB, memory and cache *)

Lemma elem_split {A} (x : A) l : x ∈ l → ∃ l1 l2, l = l1 ++ x :: l2.
Proof. apply list_elem_of_split. Qed.

(** The state after the TLB has answered. *)
Lemma translated_ok src ops s l1 r l2 f : ok src ops s → queue (f1_requests s) = l1 ++ r :: l2 →
  fr_state r = InTranslation →
  let s1 := f1_addInITLB (-1) (f1_updQueues
    (withList (f1_requests s) (l1 ++ fr_setState Translated (fr_setFault f r) :: l2)) (f1_transfers s) s) in
  ok src ops s1 ∧ f1_moved s s1.
Proof.
  intros Hok Hq Hst s1. assert (core <$> flight s1 = core <$> flight s) as Hcore.
  { unfold flight, s1. cbn. rewrite Hq, !fmap_app. done. }
  split; [|by split]. eapply (f1_ok_frame c src ops s); try done; cbn; try apply Hok.
  - pose proof (k_reqs _ _ _ _ Hok) as H. rewrite Hq in H. apply Forall_app in H as [H1 H2].
    apply Forall_cons in H2 as [_ H2]. apply Forall_app. split; [done|]. constructor; [by right|done].
  - rewrite (k_itlb _ _ _ _ Hok), Hq, !countb_app, !countb_cons. unfold inTlb at 2 5.
    rewrite bool_decide_true by done. cbn.
    rewrite (bool_decide_false (Translated = InTranslation)) by done. cbn [b2z]. rewrite u32_id; [lia|].
    pose proof (flight_bound src ops s Hok) as Hb. rewrite Hq, length_app in Hb. cbn [length] in Hb.
    pose proof (countb_le_length inTlb l1). pose proof (countb_le_length inTlb l2).
    pose proof (countb_nonneg inTlb l1). pose proof (countb_nonneg inTlb l2). lia.
  - rewrite (k_res _ _ _ _ Hok), Hq, !length_app. done.
  - intros Hr. destruct (k_retry _ _ _ _ Hok Hr) as (r0 & l0 & Hq0 & H1 & H2). rewrite Hq in Hq0.
    destruct l1 as [|r1 l1]; cbn in Hq0; injection Hq0 as -> <-; [congruence|]. by eexists _, _.
Qed.

Lemma finish_Ok acc src ops s r f : ok src ops s → r ∈ queue (f1_requests s) → fr_state r = InTranslation →
  wp (f1_finish acc (fr_number r) f) s (λ _ s', ok src ops s' ∧ f1_moved s s' ∧ f1_awake s' = true).
Proof.
  intros Hok Hin Hst. pose proof (ok_nodup src ops s Hok) as Hnd.
  destruct (elem_split _ _ Hin) as (l1 & l2 & Hq).
  apply wp_bind. exists r, s. split; [apply request_found; [done|]; unfold flight; set_solver|].
  apply wp_bind. eexists tt, _. split; [by apply (update_request s _ l1 r l2)|].
  apply wp_bind, wp_bind, wp_mod, wp_bind. set (r1 := fr_setState Translated (fr_setFault f r)).
  destruct (translated_ok src ops s l1 r l2 f Hok Hq Hst) as [Hok1 Hmv1].
  set (s1 := f1_addInITLB _ _) in *. exists tt, s1. split.
  { rewrite (update_request s1 _ l1 r1 l2); [done|by apply (ok_nodup src ops)|done]. }
  assert (fr_number r = fr_number r1) as -> by done.
  eapply wp_conseq; [apply (try_Ok acc src ops s1 r1 Hok1); [cbn; set_solver|]|].
  - intros Hr. destruct (k_retry _ _ _ _ Hok Hr) as (r0 & l0 & Hq0 & H1 & H2). rewrite Hq in Hq0. cbn.
    destruct l1 as [|r2 l1]; cbn in *; injection Hq0 as -> <-; [congruence|]. intros [= ->].
    destruct (nodup_split s1 (ok_nodup _ _ _ Hok1)) as (Hnr & _). cbn in Hnr.
    apply NoDup_cons in Hnr as [Hnr _]. apply Hnr. rewrite fmap_app. set_solver.
  - intros _ s2 (Hok2 & Hmv2 & _). apply wp_mod. split_and!; [| |done].
    + eapply (f1_ok_frame c src ops s2); try done; apply Hok2.
    + eapply f1_moved_trans; [exact Hmv1|]. eapply f1_moved_trans; [exact Hmv2|]. by split.
Qed.

Lemma response_Ok src ops s r bytes : ok src ops s → r ∈ queue (f1_transfers s) →
  fr_state r = RequestIssuing → Z.of_nat (length bytes) = c_width c →
  wp (f1_recvTimingResp (fr_number r) bytes) s
     (λ b s', b = true ∧ ok src ops s' ∧ f1_moved s s' ∧ f1_awake s' = true).
Proof.
  intros Hok Hin Hst Hlen. pose proof (ok_nodup src ops s Hok) as Hnd.
  destruct (elem_split _ _ Hin) as (l1 & l2 & Hq).
  apply wp_bind. exists r, s. split; [apply request_found; [done|]; unfold flight; set_solver|].
  pose proof (k_trs _ _ _ _ Hok) as Ht. rewrite Hq in Ht. apply Forall_app in Ht as [Ht1 Ht2].
  apply Forall_cons in Ht2 as [Htr Ht2]. destruct Htr as [(_ & Hpk & Hf)|[? _]]; [|congruence].
  apply wp_bind, wp_assert; [by rewrite Hpk|].
  apply wp_bind. eexists tt, _. split; [by apply (update_transfer s _ l1 r l2)|].
  apply wp_bind, wp_mod, wp_bind. set (s1 := f1_addInMemory _ _).
  set (r1 := fr_setPacket (Some bytes) r). set (r2 := fr_setState Complete r1).
  assert (core <$> flight s1 = core <$> flight s) as Hc1.
  { unfold flight, s1. cbn. rewrite Hq, !fmap_app. done. }
  eexists tt, _. split.
  { assert (fr_number r = fr_number r1) as -> by done. apply (update_transfer s1 _ l1 r1 l2); [|done].
    by rewrite (number_core _ _ Hc1). }
  apply wp_bind, wp_mod, wp_ret. split; [done|]. set (s2 := f1_setAwake true _).
  assert (core <$> flight s2 = core <$> flight s) as Hc2.
  { unfold flight, s2. cbn. rewrite Hq, !fmap_app. done. }
  split_and!; [|by split|done]. eapply (f1_ok_frame c src ops s); try done; cbn; try apply Hok.
  - apply Forall_app. split; [done|]. constructor; [|done]. right. split; [done|]. right. left. by exists bytes.
  - rewrite (k_mem _ _ _ _ Hok), Hq, !countb_app, !countb_cons. change (inMem _) with false at 2.
    unfold inMem at 2. rewrite bool_decide_true by done. cbn. rewrite u32_id; [lia|].
    pose proof (flight_bound src ops s Hok) as Hb. rewrite Hq, length_app in Hb. cbn [length] in Hb.
    pose proof (countb_le_length inMem l1). pose proof (countb_le_length inMem l2).
    pose proof (countb_nonneg inMem l1). pose proof (countb_nonneg inMem l2). lia.
Qed.

Lemma retry_Ok acc src ops s : ok src ops s → f1_icacheState s = IcacheNeedsRetry →
  wp (f1_recvReqRetry acc) s (λ _ s', ok src ops s' ∧ f1_moved s s' ∧ owes s').
Proof.
  intros Hok Hr. destruct (k_retry _ _ _ _ Hok Hr) as (r & l & Hq & Hst & Hf).
  apply wp_bind, wp_get. apply wp_bind, wp_assert; [by apply bool_decide_eq_true|].
  apply wp_bind, wp_assert; [unfold Queue_empty; by rewrite Hq|].
  apply wp_bind. eapply wp_lift; [unfold Queue_front; by rewrite Hq|].
  apply wp_bind, wp_mod. by apply (sendFront acc src ops s r l).
Qed.

(** ** Changes of the thread records *)

Lemma ok_infos src src' ops s infos' : ok src ops s → length infos' = length (f1_fetchInfo s) →
  (∀ t i, vget (f1_fetchInfo s) t = Ok i → ∃ i', vget infos' t = Ok i' ∧ tag_le (info_tag i) (info_tag i')) →
  (∀ t i', vget infos' t = Ok i' → thread_src c (flight s) t (src' t) i') →
  ok src' ops (f1_updInfo infos' s).
Proof.
  intros [] Hlen Htag Hsrc. split; try done.
  - cbn. by rewrite Hlen.
  - cbn. eapply Forall_impl; [exact k_common|]. intros r [(i & Hi & Hle) ? ? ?]. split; try done.
    destruct (Htag _ _ Hi) as (i' & Hi' & Hle'). exists i'. split; [done|].
    destruct Hle' as [Hlt|<-]; [left; by eapply tag_le_lt|done].
  - cbn. eapply Forall_impl; [exact k_trs|]. intros r [?|[Hst [Hf|[Hp|(i & Hi & Hlt)]]]]; [by left|right..].
    + split; [done|by left].
    + split; [done|right; by left].
    + split; [done|]. right. right. destruct (Htag _ _ Hi) as (i' & Hi' & Hle). exists i'. split; [done|].
      destruct Hle as [Hlt'|<-]; [by eapply tag_lt_trans|done].
Qed.

(** Changing a record where the invariant does not look. *)
Definition same_thread i i' : Prop :=
  info_tag i' = info_tag i ∧ f1_pc i' = f1_pc i ∧ f1_fetchAddr i' = f1_fetchAddr i
  ∧ f1_state i' = f1_state i ∧ f1_wakeupGuard i' = f1_wakeupGuard i.

Lemma thread_src_same fl t a i i' : same_thread i i' → thread_src c fl t a i → thread_src c fl t a i'.
Proof.
  intros (H1 & H2 & H3 & H4 & H5) [T1 T2 T2' T2'' T3 T4 T5].
  assert (∀ r, current t i' r = current t i r) as Hc by (intros r; unfold current; by rewrite H1).
  split; rewrite ?H1, ?H2, ?H3, ?H4, ?H5; try done. intros k r. rewrite (filter_ext _ _ Hc). apply T5.
Qed.

Lemma ok_same src ops s infos' : ok src ops s → f1_ends c src s → length infos' = length (f1_fetchInfo s) →
  (∀ t i', vget infos' t = Ok i' → ∃ i, vget (f1_fetchInfo s) t = Ok i ∧ same_thread i i') →
  ok src ops (f1_updInfo infos' s) ∧ f1_ends c src (f1_updInfo infos' s).
Proof.
  intros Hok He Hlen Hs. split.
  - apply (ok_infos src src ops s infos' Hok Hlen).
    + intros t i Hi. pose proof (vget_bound _ _ _ Hi). destruct (vget_lt infos' t) as (i' & Hi'); [lia|].
      exists i'. split; [done|]. destruct (Hs t i' Hi') as (i0 & Hi0 & (-> & _)). right. congruence.
    + intros t i' Hi'. destruct (Hs t i' Hi') as (i & Hi & Hsame).
      eapply thread_src_same; [done|]. by apply (k_thread _ _ _ _ Hok).
  - destruct He as [H1 H2 H3]. split; [done|done|]. intros t i' Hi'. cbn in Hi'.
    destruct (Hs t i' Hi') as (i & Hi & (E1 & _ & E3 & _)).
    assert (∀ r, current t i' r = current t i r) as Hc by (intros r; unfold current; by rewrite E1).
    rewrite E3, (filter_ext _ _ Hc). by apply H3.
Qed.

Lemma f1_thread_get src ops s t (Q : Fetch1ThreadInfo → Fetch1 → Prop) : ok src ops s → 0 ≤ t < c_threads c →
  (∀ i, vget (f1_fetchInfo s) t = Ok i → Q i s) → wp (f1_thread t) s Q.
Proof.
  intros Hok Ht HQ. apply wp_bind, wp_get. destruct (vget_lt (f1_fetchInfo s) t) as (i & Hi).
  { rewrite (k_threads _ _ _ _ Hok). lia. }
  eapply wp_lift; [exact Hi|]. by apply HQ.
Qed.

Lemma f1_setThread_set src ops s t i (Q : unit → Fetch1 → Prop) : ok src ops s → 0 ≤ t < c_threads c →
  Q tt (f1_updInfo (<[Z.to_nat t := i]> (f1_fetchInfo s)) s) → wp (f1_setThread t i) s Q.
Proof.
  intros Hok Ht HQ. apply wp_bind, wp_get, wp_bind. eapply wp_lift; [apply vset_lt|by apply wp_mod].
  rewrite (k_threads _ _ _ _ Hok). lia.
Qed.

(** [blocked] of all threads *)
Lemma f1_blockAll_Ok src ops s (next : list (InputBuffer (ForwardLineData I))) :
  ok src ops s → f1_ends c src s → Z.of_nat (length next) = c_threads c →
  wp (f1_blockAll next (c_threads c)) s
     (λ _ s', ok src ops s' ∧ f1_ends c src s' ∧ ∃ infos, s' = f1_updInfo infos s
       ∧ length infos = length (f1_fetchInfo s)
       ∧ ∀ t i', vget infos t = Ok i' → ∃ i, vget (f1_fetchInfo s) t = Ok i ∧ same_thread i i').
Proof.
  intros Hok He Hnx. apply wp_bind, wp_get, wp_bind.
  set (P := λ infos', length infos' = length (f1_fetchInfo s) ∧
    ∀ t i', vget infos' t = Ok i' → ∃ i, vget (f1_fetchInfo s) t = Ok i ∧ same_thread i i').
  destruct (mfold_inv (f1_block next) P (zrange 0 (c_threads c - 1)) (f1_fetchInfo s)) as (infos' & Hf & Hlen & HP).
  3:{ eapply wp_lift; [exact Hf|]. apply wp_mod.
      destruct (ok_same src ops s infos' Hok He Hlen) as [? ?].
      { done. }
      split_and!; try done. by exists infos'. }
  2:{ split; [done|]. intros t i Hi. by exists i. }
  intros infos t Ht%elem_of_zrange [Hlen HP]. unfold f1_block.
  pose proof (k_threads _ _ _ _ Hok) as Hth. destruct (vget_lt next t) as (nb & ->); [lia|]. cbn [rbind].
  destruct (vget_lt infos t) as (i & Hi); [lia|]. rewrite Hi. cbn [rbind]. rewrite vset_lt by lia.
  eexists. split; [done|]. split; [by rewrite length_insert|]. intros t' i' Hi'.
  destruct (vset_cases _ _ _ _ _ _ (vset_lt infos t _ ltac:(lia)) Hi') as [[-> ->]|[_ Hi'']]; [|by apply HP].
  destruct (HP t i Hi) as (i0 & Hi0 & (? & ? & ? & ? & ?)). exists i0. by split_and!.
Qed.
End steps.
