(* ===== verification/Fetch1Source.v ===== *)
(** * Fetch1 as a source of lines: the specification and the stage's parts
    (src/cpu/myminor/fetch1.cc)

    The abstract source has one [Source] per thread: what Execute and Fetch2
    ask for changes it, and a line that is given out is the next one of its
    thread's stream.  The requests in flight, the TLB and the cache are not
    visible in it. *)
From stdpp Require Import sorting.
From S2P Require Import Prelude TimeBuf Buffers Activity LVPT PipeData Cpu Repack Fetch1 Fetch1Inv Fetch1Steps.

Section source.
Context `{I : Isa} (c : F1Config).
Implicit Types (src : Z → Source) (a : Source) (b : BranchData I).

Definition src_upd src (t : Z) a : Z → Source := λ t', if t' =? t then a else src t'.

(** A new stream. *)
Definition src_change b (p : PCState) a : Source :=
  mkSource (newStreamSeqNum b, newPredictionSeqNum b) (Some p) (align (c_snap c) (instAddr p))
    (match reason b with
     | SuspendThread => if src_guard a then src_state a else FetchWaitingForPC
     | HaltFetch => FetchHalted
     | _ => FetchRunning
     end) (src_guard a).

Definition src_branch b a : Source :=
  match target b with Some p => src_change b p a | None => a end.

(** A halted thread does not follow branches; a prediction is followed only
    within its stream. *)
Definition src_execute b a : Source :=
  if isStreamChange (reason b) && negb (bool_decide (src_state a = FetchHalted)) then src_branch b a else a.
Definition src_predict b a : Source :=
  if isStreamChange (reason b) && negb (bool_decide (src_state a = FetchHalted))
     && (newStreamSeqNum b =? (src_tag a).1) then src_branch b a else a.

(** Execute goes before Fetch2. *)
Definition src_branches (eb pb : BranchData I) src : Z → Source := λ t,
  if (brThreadId eb =? t) && isStreamChange (reason eb) then src_execute eb (src t)
  else if brThreadId pb =? t then src_predict pb (src t) else src t.

(** The line after the current one; a line with a fault stops the thread. *)
Definition src_advance (faulty : bool) a : Source :=
  mkSource (src_tag a) (src_pc a) (u64 (src_next a + c_width c))
    (if faulty then FetchWaitingForPC else src_state a) (src_guard a).

Definition src_unguard a : Source := mkSource (src_tag a) (src_pc a) (src_next a) (src_state a) false.

Definition src_wakeup (p : PCState) a : Source :=
  mkSource (src_tag a) (Some p) (align (c_snap c) (instAddr p)) FetchRunning true.

(** ** What Fetch1 relies on *)

Definition addr_ok (p : PCState) : Prop := 0 ≤ instAddr p < 2 ^ 64.

Definition branch_ok b : Prop :=
  brThreadId b = InvalidThreadID
  ∨ 0 ≤ brThreadId b < c_threads c
    ∧ (isStreamChange (reason b) = true → ∃ p, target b = Some p ∧ addr_ok p).

(** Execute starts new streams, Fetch2 new predictions of the stream. *)
Definition newer src b : Prop :=
  brThreadId b ≠ InvalidThreadID → isStreamChange (reason b) = true →
  (src_tag (src (brThreadId b))).1 < newStreamSeqNum b.
Definition newer_prediction src b : Prop :=
  brThreadId b ≠ InvalidThreadID → isStreamChange (reason b) = true →
  newStreamSeqNum b = (src_tag (src (brThreadId b))).1 →
  (src_tag (src (brThreadId b))).2 < newPredictionSeqNum b.

End source.

Section parts.
Context `{I : Isa} (c : F1Config) (Hcfg : config_ok c).
Implicit Types (s : Fetch1) (r : FetchRequest) (i : Fetch1ThreadInfo) (src : Z → Source)
  (fl : list FetchRequest) (acc : Z → bool) (a : Source) (b : BranchData I).
Notation ok := (f1_ok c).
Notation ends := (f1_ends c).

(** ** New streams *)

Lemma snap_pos : 0 < c_snap c.
Proof. destruct (co_snap _ Hcfg) as (k & Hk & ->). lia. Qed.

(** Thread [t] starts anew, with nothing in flight for its tag. *)
Lemma restart_ok src ops s t i i' : ok src ops s → ends src s → vget (f1_fetchInfo s) t = Ok i →
  tag_le (info_tag i) (info_tag i') → List.filter (current t i') (flight s) = [] →
  0 ≤ f1_fetchAddr i' < 2 ^ 64 →
  let src' := src_upd src t (mkSource (info_tag i') (f1_pc i') (align (c_snap c) (f1_fetchAddr i'))
                               (f1_state i') (f1_wakeupGuard i')) in
  let s' := f1_updInfo (<[Z.to_nat t := i']> (f1_fetchInfo s)) s in
  ok src' ops s' ∧ ends src' s'.
Proof.
  intros Hok [H1 H2 H3] Hi Htag Hnil Haddr src' s'. pose proof snap_pos as Hsnap.
  pose proof (vget_bound _ _ _ Hi) as Hb. pose proof (vset_lt (f1_fetchInfo s) t i' Hb) as Hset.
  pose proof (align_range (c_snap c) (f1_fetchAddr i') Hsnap (proj1 Haddr)) as Har.
  split.
  - apply (ok_infos c src src' ops s); [done|by rewrite length_insert|..].
    + intros t0 i0 Hi0. destruct (decide (t0 = t)) as [->|Hne].
      * exists i'. split; [by apply (vget_vset_eq _ _ _ _ Hset)|]. rewrite Hi in Hi0. by injection Hi0 as <-.
      * exists i0. split; [|by right]. by rewrite (vget_vset_ne _ _ _ _ _ Hset).
    + intros t0 i0 Hi0. destruct (vset_cases _ _ _ _ _ _ Hset Hi0) as [[-> ->]|[Hne Hi0']].
      * unfold src', src_upd. rewrite Z.eqb_refl. split; cbn; try done; [lia|]. rewrite Hnil. done.
      * unfold src', src_upd. rewrite (proj2 (Z.eqb_neq _ _)) by done. by apply (k_thread _ _ _ _ Hok).
  - split; [done|done|]. intros t0 i0 Hi0. unfold src', src_upd.
    destruct (vset_cases _ _ _ _ _ _ Hset Hi0) as [[-> ->]|[Hne Hi0']].
    + rewrite Z.eqb_refl. unfold s', flight in *. cbn in *. rewrite Hnil. cbn. rewrite u64_id; lia.
    + rewrite (proj2 (Z.eqb_neq _ _)) by done. by apply H3.
Qed.

Lemma newer_none src ops s t i i' : ok src ops s → vget (f1_fetchInfo s) t = Ok i →
  tag_lt (info_tag i) (info_tag i') → List.filter (current t i') (flight s) = [].
Proof.
  intros Hok Hi Hlt. pose proof (k_common _ _ _ _ Hok) as Hc.
  induction (flight s) as [|r l IH]; [done|]. apply Forall_cons in Hc as [[(i0 & Hi0 & Hle) _ _ _] Hc].
  cbn [List.filter]. unfold current at 1. destruct (Z.eqb_spec (req_thread r) t) as [<-|]; [|by apply IH].
  rewrite Hi in Hi0. injection Hi0 as <-. rewrite bool_decide_false; [by apply IH|].
  intros He. rewrite He in Hle. destruct Hle as [Hle|Hle].
  - by eapply tag_lt_irrefl, tag_lt_trans.
  - rewrite Hle in Hlt. by eapply tag_lt_irrefl.
Qed.

(** Only the sources of existing threads matter. *)
Lemma ok_ext src src' ops s : (∀ t, 0 ≤ t < c_threads c → src' t = src t) →
  ok src ops s → ends src s → ok src' ops s ∧ ends src' s.
Proof.
  intros He Hok [H1 H2 H3].
  assert (∀ t i, vget (f1_fetchInfo s) t = Ok i → src' t = src t) as He'.
  { intros t i Hi. apply He. pose proof (vget_bound _ _ _ Hi). pose proof (k_threads _ _ _ _ Hok). lia. }
  split.
  - destruct Hok. split; try done. intros t i Hi. rewrite (He' t i Hi). by apply k_thread.
  - split; try done. intros t i Hi. rewrite (He' t i Hi). by apply H3.
Qed.

(** A step that changes thread records only. *)
Definition infos_only s s' : Prop := ∃ infos, s' = f1_updInfo infos s.

Lemma infos_only_refl s : infos_only s s.
Proof. exists (f1_fetchInfo s). by destruct s. Qed.
Lemma infos_only_trans s s' s'' : infos_only s s' → infos_only s' s'' → infos_only s s''.
Proof. intros [l1 ->] [l2 ->]. by exists l2. Qed.

(** A step from the sources [src] to [src'] that changes thread records only. *)
Definition turns src src' ops s : unit → Fetch1 → Prop :=
  λ _ s', ok src' ops s' ∧ ends src' s' ∧ infos_only s s'.

Lemma changeStream_Ok src ops s b p : ok src ops s → ends src s → 0 ≤ brThreadId b < c_threads c →
  target b = Some p → addr_ok p →
  tag_lt (src_tag (src (brThreadId b))) (newStreamSeqNum b, newPredictionSeqNum b) →
  wp (changeStream b) s (turns src (src_upd src (brThreadId b) (src_branch c b (src (brThreadId b)))) ops s).
Proof.
  intros Hok He Ht Hp Ha Htag. apply wp_bind. eapply f1_thread_get; try done. intros i Hi.
  apply wp_bind. rewrite Hp. eapply wp_lift; [done|]. eapply f1_setThread_set; try done.
  pose proof (k_thread _ _ _ _ Hok _ _ Hi) as [T1 T2 T3 T4 _ _ _]. rewrite T1 in Htag.
  cbn [updateExpectedSeqNums f1_wakeupGuard f1_state f1_streamSeqNum f1_predictionSeqNum f1_blocked].
  set (i' := mkF1Info _ _ _ _ _ _ _).
  edestruct (restart_ok src ops s (brThreadId b) i i') as [Hok' He']; try done.
  - by left.
  - by eapply newer_none.
  - assert (src_branch c b (src (brThreadId b)) = mkSource (info_tag i') (f1_pc i')
      (align (c_snap c) (f1_fetchAddr i')) (f1_state i') (f1_wakeupGuard i')) as ->.
    { unfold src_branch, src_change. rewrite Hp, T3, T4. done. }
    split_and!; [done|done|by eexists].
Qed.

Lemma turns_same src src' ops s : ok src ops s → ends src s →
  (∀ t, 0 ≤ t < c_threads c → src' t = src t) → turns src src' ops s tt s.
Proof.
  intros Hok He Hext. destruct (ok_ext src src' ops s Hext Hok He). split_and!; try done. apply infos_only_refl.
Qed.

Lemma src_upd_same src t a : a = src t → ∀ t', 0 ≤ t' < c_threads c → src_upd src t a t' = src t'.
Proof. intros -> t' _. unfold src_upd. destruct (Z.eqb_spec t' t) as [->|]; done. Qed.

Lemma executeBranch_Ok src ops s b : ok src ops s → ends src s → branch_ok c b → newer src b →
  brThreadId b ≠ InvalidThreadID →
  wp (executeBranch b) s (turns src (src_upd src (brThreadId b) (src_execute c b (src (brThreadId b)))) ops s).
Proof.
  intros Hok He Hb Hn Hv. destruct Hb as [?|[Ht Hp]]; [done|]. unfold executeBranch, src_execute.
  destruct (isStreamChange (reason b)) eqn:Hs; cbn [andb].
  2:{ apply wp_ret. apply turns_same; [done..|]. by apply src_upd_same. }
  apply wp_bind. eapply f1_thread_get; try done. intros i Hi.
  rewrite (ts_state _ _ _ _ _ (k_thread _ _ _ _ Hok _ _ Hi)). destruct (decide (f1_state i = FetchHalted)) as [Hh|Hh].
  { apply wp_ret. rewrite bool_decide_true by done. apply turns_same; [done..|]. by apply src_upd_same. }
  rewrite bool_decide_false by done. destruct (Hp eq_refl) as (p & Htg & Ha).
  eapply changeStream_Ok; try done. left. by apply Hn.
Qed.

Lemma predictionBranch_Ok src ops s b : ok src ops s → ends src s → branch_ok c b → newer_prediction src b →
  brThreadId b ≠ InvalidThreadID →
  wp (predictionBranch b) s (turns src (src_upd src (brThreadId b) (src_predict c b (src (brThreadId b)))) ops s).
Proof.
  intros Hok He Hb Hn Hv. destruct Hb as [?|[Ht Hp]]; [done|]. unfold predictionBranch, src_predict.
  apply wp_bind. eapply f1_thread_get; try done. intros i Hi.
  destruct (k_thread _ _ _ _ Hok _ _ Hi) as [T1 _ T3 _ _ _ _]. rewrite T3.
  destruct (decide (f1_state i = FetchHalted)) as [Hh|Hh].
  { apply wp_ret. rewrite (bool_decide_true _ Hh), andb_false_r. apply turns_same; [done..|]. by apply src_upd_same. }
  rewrite (bool_decide_false _ Hh), andb_true_r, T1.
  change ((info_tag i).1) with (f1_streamSeqNum i).
  destruct (isStreamChange (reason b)) eqn:Hs, (Z.eqb_spec (newStreamSeqNum b) (f1_streamSeqNum i)) as [Hst|Hst];
    cbn [andb]; try (apply wp_ret; apply turns_same; [done..|]; by apply src_upd_same).
  destruct (Hp eq_refl) as (p & Htg & Ha). eapply changeStream_Ok; try done.
  unfold newer_prediction in Hn. rewrite T1 in Hn. rewrite T1. right. split; [by cbn|]. cbn. by apply Hn.
Qed.

Lemma turns_ext src src1 src2 ops s s' : (∀ t, 0 ≤ t < c_threads c → src2 t = src1 t) →
  turns src src1 ops s tt s' → turns src src2 ops s tt s'.
Proof. intros He (H1 & H2 & H3). destruct (ok_ext src1 src2 ops s' He H1 H2). by split_and!. Qed.

Lemma invalid_ne t : 0 ≤ t < c_threads c → InvalidThreadID ≠ t.
Proof. unfold InvalidThreadID. lia. Qed.

Lemma execute_part src ops s b : ok src ops s → ends src s → branch_ok c b → newer src b →
  wp (if negb (brThreadId b =? InvalidThreadID) then executeBranch b else sret tt) s
     (turns src (λ t, if brThreadId b =? t then src_execute c b (src t) else src t) ops s).
Proof.
  intros Hok He Hb Hn. destruct (Z.eqb_spec (brThreadId b) InvalidThreadID) as [Hv|Hv]; cbn [negb].
  - apply wp_ret, turns_same; [done..|]. intros t Ht. rewrite Hv, (proj2 (Z.eqb_neq _ _)); [done|by apply invalid_ne].
  - eapply wp_conseq; [by apply executeBranch_Ok|]. intros [] s'. apply turns_ext. intros t _. unfold src_upd.
    rewrite (Z.eqb_sym t). destruct (Z.eqb_spec (brThreadId b) t) as [->|]; done.
Qed.

Lemma predict_part src ops s b : ok src ops s → ends src s → branch_ok c b → newer_prediction src b →
  wp (if negb (brThreadId b =? InvalidThreadID) && isStreamChange (reason b) then predictionBranch b else sret tt) s
     (turns src (λ t, if brThreadId b =? t then src_predict c b (src t) else src t) ops s).
Proof.
  intros Hok He Hb Hn. destruct (Z.eqb_spec (brThreadId b) InvalidThreadID) as [Hv|Hv]; cbn [negb andb].
  - apply wp_ret, turns_same; [done..|]. intros t Ht. rewrite Hv, (proj2 (Z.eqb_neq _ _)); [done|by apply invalid_ne].
  - destruct (isStreamChange (reason b)) eqn:Hs.
    + eapply wp_conseq; [apply predictionBranch_Ok; by auto|]. intros [] s'. apply turns_ext. intros t _. unfold src_upd.
      rewrite (Z.eqb_sym t). destruct (Z.eqb_spec (brThreadId b) t) as [->|]; done.
    + apply wp_ret, turns_same; [done..|]. intros t Ht. unfold src_predict. rewrite Hs. by destruct (_ =? t).
Qed.

Lemma src_execute_idle b a : isStreamChange (reason b) = false → src_execute c b a = a.
Proof. intros Hs. unfold src_execute. by rewrite Hs. Qed.

Lemma f1_branches_Ok src ops s eb pb : ok src ops s → ends src s →
  branch_ok c eb → newer src eb → branch_ok c pb → newer_prediction src pb →
  wp (f1_branches eb pb) s (turns src (src_branches c eb pb src) ops s).
Proof.
  intros Hok He Hb1 Hn1 Hb2 Hn2. unfold f1_branches. cbv zeta.
  destruct (negb (brThreadId eb =? InvalidThreadID) && (brThreadId eb =? brThreadId pb)) eqn:Hc.
  - apply andb_true_iff in Hc as [Hv%negb_true_iff%Z.eqb_neq Heq%Z.eqb_eq].
    pose proof Hb1 as [?|[Ht _]]; [done|]. apply wp_bind. eapply f1_thread_get; try done. intros i _.
    destruct (isStreamChange (reason eb)) eqn:Hs.
    + eapply wp_conseq; [by apply executeBranch_Ok|]. intros [] s'. apply turns_ext. intros t _.
      unfold src_upd, src_branches. rewrite Hs, <- Heq, andb_true_r, (Z.eqb_sym t).
      destruct (Z.eqb_spec (brThreadId eb) t) as [->|]; done.
    + eapply wp_conseq; [apply predictionBranch_Ok; try done; congruence|]. intros [] s'. apply turns_ext. intros t _.
      unfold src_upd, src_branches. rewrite Hs, andb_false_r, (Z.eqb_sym t).
      destruct (Z.eqb_spec (brThreadId pb) t) as [->|]; done.
  - apply wp_bind. eapply wp_conseq; [by apply execute_part|]. intros [] s1 (Hok1 & He1 & Hi1).
    set (src1 := λ t, _) in *.
    assert (brThreadId pb = InvalidThreadID ∨ src1 (brThreadId pb) = src (brThreadId pb)) as Hsame.
    { destruct (decide (brThreadId pb = InvalidThreadID)); [by left|right]. unfold src1.
      destruct (Z.eqb_spec (brThreadId eb) (brThreadId pb)) as [Heq|]; [|done].
      destruct (Z.eqb_spec (brThreadId eb) InvalidThreadID); [congruence|done]. }
    eapply wp_conseq; [apply (predict_part src1 ops s1); try done|].
    + intros Hpv. destruct Hsame as [?|Hsame]; [done|]. rewrite Hsame. by apply Hn2.
    + intros [] s2 (Hok2 & He2 & Hi2). eapply (turns_ext src); [|split_and!; [exact Hok2|exact He2|by eapply infos_only_trans]].
      intros t Ht. unfold src_branches, src1. destruct (Z.eqb_spec (brThreadId eb) t) as [Het|Het]; cbn [andb]; [|done].
      rewrite (proj2 (Z.eqb_neq (brThreadId pb) t)). 2:{ intros E. destruct (invalid_ne t Ht).
        rewrite Het, E in Hc. rewrite Z.eqb_refl, andb_true_r in Hc. by apply negb_false_iff, Z.eqb_eq in Hc. }
      destruct (isStreamChange (reason eb)) eqn:Hs; [done|by rewrite src_execute_idle].
Qed.
End parts.
