(* ===== verification/Fetch1Line.v ===== *)
(** * Starting a fetch and giving out a line (src/cpu/myminor/fetch1.cc)

    [fetchLine], the choice of the thread, and what becomes of a response. *)
From stdpp Require Import sorting.
From S2P Require Import Prelude TimeBuf Buffers Activity LVPT PipeData Cpu Repack Fetch1 Fetch1Inv Fetch1Steps Fetch1Source.

Section line.
Context `{I : Isa} (c : F1Config) (Hcfg : config_ok c).
Implicit Types (s : Fetch1) (r : FetchRequest) (i : Fetch1ThreadInfo) (src : Z → Source)
  (fl : list FetchRequest) (acc : Z → bool) (a : Source).
Notation ok := (f1_ok c).
Notation ends := (f1_ends c).

(** ** [fetchLine] *)

(** The request for the line at thread [t]'s fetch address. *)
Definition lineRequest s (t : Z) i : FetchRequest :=
  mkFetchRequest InTranslation
    (mkInstId t (f1_streamSeqNum i) (f1_predictionSeqNum i) (f1_lineSeqNum s) 0 0) None
    (align (c_snap c) (f1_fetchAddr i)) (c_width c) (f1_fetchAddr i) None.

Definition requested s r : Fetch1 :=
  f1_updQueues (Queue_push (f1_requests s) r) (Queue_reserve (f1_transfers s)) (f1_addInITLB 1 s).

Lemma width_multiple : ∃ k, 0 ≤ k ≤ 31 ∧ c_snap c = 2 ^ k ∧ (2 ^ k | c_width c) ∧ 0 < c_width c < 2 ^ 31.
Proof.
  destruct (co_snap _ Hcfg) as (k & Hk & E). destruct (co_width _ Hcfg) as [Hw Hd].
  exists k. by rewrite <- E.
Qed.

Lemma aligned_addr s t i src ops : ok src ops s → vget (f1_fetchInfo s) t = Ok i →
  let al := align (c_snap c) (f1_fetchAddr i) in
  Z.land (f1_fetchAddr i) (u64 (Z.lnot (u64 (f1_lineSnap s - 1)))) = al
  ∧ u32 (f1_maxLineWidth s - u32 (al `mod` f1_lineSnap s)) = c_width c
  ∧ 0 ≤ al < 2 ^ 64 ∧ (c_snap c | al).
Proof.
  intros Hok Hi al. destruct width_multiple as (k & Hk & Es & Hd & Hw).
  destruct (k_thread _ _ _ _ Hok _ _ Hi) as [_ _ _ _ Ha _ _].
  pose proof (snap_pos c Hcfg) as Hp. destruct (align_range (c_snap c) (f1_fetchAddr i) Hp (proj1 Ha)) as (H1 & H2 & H3).
  rewrite (k_snap _ _ _ _ Hok), (k_width _ _ _ _ Hok). split_and!; try done; [|..].
  - by apply (align_land _ k).
  - fold al in H3. apply Z.mod_divide in H3; [|lia]. rewrite H3, (u32_id 0), Z.sub_0_r by lia. apply u32_id. lia.
  - unfold al. lia.
  - unfold al. lia.
Qed.

Lemma current_request s t i t' i' : current t' i' (lineRequest s t i) = true → t' = t ∧ info_tag i' = info_tag i.
Proof. unfold current. rewrite andb_true_iff, bool_decide_eq_true. intros [H1%Z.eqb_eq H2]. by split. Qed.

Lemma requested_flight s r : flight (requested s r) = flight s ++ [r].
Proof. unfold flight, requested. cbn. by rewrite app_assoc. Qed.

Lemma requested_thread src ops s t i t' i' : ok src ops s → ends src s →
  vget (f1_fetchInfo s) t = Ok i → vget (f1_fetchInfo s) t' = Ok i' →
  thread_src c (flight s ++ [lineRequest s t i]) t' (src t') i'.
Proof.
  intros Hok [_ _ He] Hi Hi'. pose proof (He _ _ Hi') as Hend.
  destruct (k_thread _ _ _ _ Hok _ _ Hi') as [T1 T2 T3 T4 T5 T6 T7]. split; try done.
  intros k r. rewrite List.filter_app, lookup_app_Some. intros [?|[Hk Hr]]; [by apply T7|].
  cbn [List.filter] in Hr. destruct (current t' i' (lineRequest s t i)) eqn:Hc; [|done].
  apply current_request in Hc as [-> _]. rewrite Hi in Hi'. injection Hi' as <-.
  apply list_lookup_singleton_Some in Hr as [Hk0 <-]. cbn. rewrite Hend. do 3 f_equal. lia.
Qed.

Lemma Sorted_snoc_lt (l : list Z) x : StronglySorted Z.lt l → Forall (λ y, y < x) l → StronglySorted Z.lt (l ++ [x]).
Proof.
  induction 1 as [|y l Hs IH Hf]; intros Hall; cbn; [by repeat constructor|].
  apply Forall_cons in Hall as [? ?]. constructor; [by apply IH|]. apply Forall_app. split; [done|by constructor].
Qed.

Lemma requested_ok src ops s t i : ok src ops s → ends src s → vget (f1_fetchInfo s) t = Ok i →
  Z.of_nat (length (flight s)) < c_limit c → ok src ops (requested s (lineRequest s t i)).
Proof.
  intros Hok He Hi Hl. pose proof (co_limit _ Hcfg). pose proof (flight_bound c Hcfg src ops s Hok) as Hfb.
  set (r := lineRequest s t i). destruct (aligned_addr s t i src ops Hok Hi) as (_ & _ & Ha & _).
  pose proof (ts_addr _ _ _ _ _ (k_thread _ _ _ _ Hok _ _ Hi)) as Hfa.
  split; try apply Hok.
  - intros t' i' Hi'. rewrite requested_flight. by apply (requested_thread src ops).
  - rewrite requested_flight, fmap_app. apply Sorted_snoc_lt; [apply Hok|]. apply Forall_fmap, He.
  - rewrite requested_flight. apply Forall_app. split; [apply Hok|]. constructor; [|done]. split; try done.
    exists i. split; [done|by right].
  - apply Forall_app. split; [apply Hok|]. constructor; [by left|done].
  - cbn. rewrite (k_itlb _ _ _ _ Hok), countb_app, countb_cons, countb_nil. change (inTlb r) with true. cbn [b2z].
    pose proof (countb_nonneg inTlb (queue (f1_requests s))). pose proof (countb_le_length inTlb (queue (f1_requests s))).
    rewrite u32_id; lia.
  - rewrite requested_flight, length_app. cbn. lia.
  - cbn. rewrite (k_res _ _ _ _ Hok), length_app. cbn. rewrite u32_id; lia.
  - intros Hr. destruct (k_retry _ _ _ _ Hok Hr) as (r0 & l0 & Hq & ? & ?). cbn. rewrite Hq. by eexists _, _.
Qed.

Definition setAddr (x : Z) i : Fetch1ThreadInfo :=
  mkF1Info (f1_state i) (f1_pc i) x (f1_streamSeqNum i) (f1_predictionSeqNum i) (f1_blocked i) (f1_wakeupGuard i).

(** The next line's address, from the line's. *)
Lemma next_line src s t i : ends src s → vget (f1_fetchInfo s) t = Ok i → 0 ≤ f1_fetchAddr i < 2 ^ 64 →
  let al := align (c_snap c) (f1_fetchAddr i) in
  align (c_snap c) (u64 (al + c_width c))
  = u64 (src_next (src t) + (Z.of_nat (length (List.filter (current t i) (flight s))) + 1) * c_width c).
Proof.
  intros [_ _ He] Hi Ha al. destruct width_multiple as (k & Hk & Es & Hd & Hw). pose proof (snap_pos c Hcfg) as Hp.
  destruct (align_range (c_snap c) (f1_fetchAddr i) Hp (proj1 Ha)) as (_ & _ & H3).
  rewrite align_multiple; [|done|].
  - unfold al. rewrite (He t i Hi), u64_add. f_equal. lia.
  - rewrite Es. apply divide_u64; [done|]. apply Z.divide_add_r; [|done]. unfold al. by rewrite <- Es.
Qed.

Lemma fetched_ok src ops s t i s2 : ok src ops s2 → ends src s → f1_moved (requested s (lineRequest s t i)) s2 →
  vget (f1_fetchInfo s) t = Ok i → 0 ≤ f1_fetchAddr i < 2 ^ 64 → f1_lineSeqNum s + 1 < 2 ^ 64 →
  let i' := setAddr (u64 (align (c_snap c) (f1_fetchAddr i) + c_width c)) i in
  let s' := f1_updInfo (<[Z.to_nat t := i']> (f1_fetchInfo (f1_stepLine s2))) (f1_stepLine s2) in
  ok src ops s' ∧ ends src s'.
Proof.
  intros Hok He [Hc Hinf _ Hln _ _] Hi Ha Hl i' s'. cbn in Hinf, Hln. pose proof (e_range _ _ _ He) as Hrg.
  pose proof (vget_bound _ _ _ Hi) as Hb. pose proof (u64_range (align (c_snap c) (f1_fetchAddr i) + c_width c)) as Hu.
  assert (vset (f1_fetchInfo s2) t i' = Ok (<[Z.to_nat t := i']> (f1_fetchInfo s2))) as Hset by (apply vset_lt; by rewrite Hinf).
  rewrite requested_flight, fmap_app in Hc. split.
  - assert (ok src ops (f1_stepLine s2)) as Hok1 by (eapply (f1_ok_frame c src ops s2); try done; apply Hok).
    apply (ok_infos c src src ops (f1_stepLine s2)); [done|by rewrite length_insert|..].
    + intros t0 i0 Hi0. destruct (decide (t0 = t)) as [->|Hne].
      * exists i'. split; [by apply (vget_vset_eq _ _ _ _ Hset)|]. cbn in Hi0. rewrite Hinf, Hi in Hi0.
        injection Hi0 as <-. by right.
      * exists i0. split; [|by right]. by rewrite (vget_vset_ne _ _ _ _ _ Hset).
    + intros t0 i0 Hi0. destruct (vset_cases _ _ _ _ _ _ Hset Hi0) as [[-> ->]|[Hne Hi0']].
      * rewrite <- Hinf in Hi. destruct (k_thread _ _ _ _ Hok _ _ Hi). by split.
      * by apply (k_thread _ _ _ _ Hok).
  - assert (∀ t0 i0, length (List.filter (current t0 i0) (flight s2))
      = length (List.filter (current t0 i0) (flight s ++ [lineRequest s t i]))) as Hlen.
    { intros. apply current_length. by rewrite Hc, fmap_app. }
    split.
    + apply (Forall_fmap fr_number (λ x, x < u64 (f1_lineSeqNum s2 + 1))). change (flight s') with (flight s2).
      rewrite (number_core _ (flight s ++ [lineRequest s t i])) by (by rewrite Hc, fmap_app). apply Forall_fmap.
      rewrite Hln, u64_id by lia. apply Forall_app. split; [|constructor; [cbn; lia|done]].
      eapply Forall_impl; [apply He|]. cbn. intros. lia.
    + cbn. apply u64_range.
    + intros t0 i0 Hi0. change (flight s') with (flight s2). rewrite Hlen, List.filter_app, length_app.
      destruct (vset_cases _ _ _ _ _ _ Hset Hi0) as [[-> ->]|[Hne Hi0']].
      * change (current t i') with (current t i). cbn [List.filter].
        replace (current t i (lineRequest s t i)) with true.
        2:{ symmetry. unfold current. rewrite bool_decide_true by done. rewrite andb_true_r. by apply Z.eqb_eq. }
        cbn [length]. rewrite Nat2Z.inj_add. by apply next_line.
      * cbn [List.filter]. replace (current t0 i0 (lineRequest s t i)) with false.
        2:{ symmetry. apply not_true_iff_false. by intros [? _]%current_request. }
        cbn [length]. rewrite Nat.add_0_r. apply He. by rewrite <- Hinf.
Qed.

(** What [fetchLine] does: one more request of the thread in flight. *)
Record fetched (t : Z) s s' : Prop := {
  fd_flight : ∃ r, core <$> flight s' = core <$> (flight s ++ [r]) ∧ req_thread r = t ∧ fr_number r = f1_lineSeqNum s;
  fd_line : f1_lineSeqNum s' = f1_lineSeqNum s + 1;
  fd_lvpt : f1_lvpt s' = f1_lvpt s;
}.

Lemma fetchLine_Ok acc src ops s t reply : ok src ops s → ends src s → 0 ≤ t < c_threads c →
  Z.of_nat (length (flight s)) < c_limit c → f1_lineSeqNum s + 1 < 2 ^ 64 →
  wp (fetchLine acc t reply) s (λ _ s', ok src ops s' ∧ ends src s' ∧ fetched t s s').
Proof.
  intros Hok He Ht Hl Hn. apply wp_bind. eapply f1_thread_get; try done. intros i Hi. apply wp_bind, wp_get.
  pose proof (ts_addr _ _ _ _ _ (k_thread _ _ _ _ Hok _ _ Hi)) as Ha. pose proof (e_range _ _ _ He) as Hrg.
  destruct (aligned_addr s t i src ops Hok Hi) as (Eal & Esz & _ & _). cbv zeta. rewrite !Eal, !Esz.
  set (r := lineRequest s t i). change (fr_setState InTranslation _) with r.
  apply wp_bind, wp_mod. apply wp_bind, wp_mod. apply wp_bind. change (f1_updQueues _ _ _) with (requested s r).
  pose proof (requested_ok src ops s t i Hok He Hi Hl) as Hok1.
  assert (wp (match reply with Some f => f1_finish acc (fr_number r) f | None => sret tt end) (requested s r)
    (λ _ s2, ok src ops s2 ∧ f1_moved (requested s r) s2)) as Hfin.
  { destruct reply as [f|].
    - eapply wp_conseq; [apply (finish_Ok c Hcfg acc src ops _ r f Hok1); [cbn; set_solver|done]|].
      intros _ s2 (? & ? & _). done.
    - apply wp_ret. split; [done|apply f1_moved_refl]. }
  eapply wp_conseq; [exact Hfin|]. intros _ s2 [Hok2 Hmv]. apply wp_bind, wp_mod. apply wp_bind.
  pose proof (fm_info _ _ Hmv) as Hinf. pose proof (fm_line _ _ Hmv) as Hln. cbn in Hinf, Hln.
  assert (ok src ops (f1_stepLine s2)) as Hok3 by (eapply (f1_ok_frame c src ops s2); try done; apply Hok2).
  eapply f1_thread_get; try done. intros i2 Hi2. cbn in Hi2. rewrite Hinf, Hi in Hi2. injection Hi2 as <-.
  eapply f1_setThread_set; try done. fold (setAddr (u64 (align (c_snap c) (f1_fetchAddr i) + c_width c)) i).
  destruct (fetched_ok src ops s t i s2 Hok2 He Hmv Hi Ha Hn). split_and!; try done. split.
  - exists r. split_and!; try done. change (core <$> flight s2 = core <$> flight s ++ [r]).
    by rewrite (fm_core _ _ Hmv), requested_flight.
  - cbn. rewrite Hln, u64_id; lia.
  - apply (fm_lvpt _ _ Hmv).
Qed.

(** ** Starting a fetch *)

Lemma f1_sched_Ok src ops s active policy shuffled : ok src ops s → policy_ok (c_threads c) policy shuffled →
  wp (f1_getScheduledThread active policy (c_threads c) shuffled) s
     (λ sched s', match sched with
                  | Some t => 0 ≤ t < c_threads c ∧ s' = f1_updPriority t s
                      ∧ ∃ i, vget (f1_fetchInfo s) t = Ok i ∧ f1_state i = FetchRunning
                  | None => s' = s end).
Proof.
  intros Hok Hpol. apply wp_bind, wp_get, wp_bind. pose proof (co_threads _ Hcfg) as Hn.
  pose proof (priorityList_range (c_threads c) Hn policy (f1_threadPriority s) shuffled Hpol) as Hr.
  rewrite Forall_forall in Hr. pose proof (k_threads _ _ _ _ Hok) as Hl.
  match goal with |- context [firstReady ?f ?l] => destruct (firstReady_Ok f l) as (sched & Hs & H) end.
  { intros t Ht%Hr. destruct (vget_lt (f1_fetchInfo s) t) as (i & ->); [lia|]. by eexists. }
  eapply wp_lift; [exact Hs|]. apply wp_bind. destruct sched as [t|]; [|by apply wp_ret, wp_ret].
  apply wp_mod, wp_ret. destruct (H t eq_refl) as [Ht Hrdy]. split_and!; try by apply Hr. done.
  destruct (vget (f1_fetchInfo s) t) as [i|]; [|done]. cbn in Hrdy. exists i. split; [done|].
  injection Hrdy as Hrdy. by apply andb_true_iff in Hrdy as [_ ?%bool_decide_eq_true].
Qed.

Lemma prio_ok src ops s t : ok src ops s → ends src s →
  ok src ops (f1_updPriority t s) ∧ ends src (f1_updPriority t s).
Proof. intros [] []. by split; split. Qed.

Definition Lines := list (InputBuffer (ForwardLineData I)).

(** Either nothing is fetched, or one line of a running thread, for which a
    slot is reserved in Fetch2's buffer. *)
Definition started s (next : Lines) s' (next' : Lines) : Prop :=
  s' = s ∧ next' = next
  ∨ ∃ t n, 0 ≤ t < c_threads c ∧ fetched t s s' ∧ vget next t = Ok n ∧ vset next t (reserve n) = Ok next'.

Lemma f1_startFetch_Ok acc src ops policy io s (next : Lines) : ok src ops s → ends src s →
  policy_ok (c_threads c) policy (f1_shuffled io) → Z.of_nat (length next) = c_threads c →
  f1_lineSeqNum s + 1 < 2 ^ 64 →
  wp (f1_startFetch acc policy (c_threads c) io next) s
     (λ next' s', ok src ops s' ∧ ends src s' ∧ started s next s' next').
Proof.
  intros Hok He Hpol Hnx Hln. apply wp_bind, wp_get.
  destruct (Z.ltb_spec (numInFlightFetches s) (f1_fetchLimit s)) as [Hlt|_].
  2:{ apply wp_ret. split_and!; try done. by left. }
  assert (Z.of_nat (length (flight s)) < c_limit c) as Hlim.
  { pose proof (flight_bound c Hcfg src ops s Hok). unfold numInFlightFetches, occupiedSpace in Hlt.
    rewrite (k_limit _ _ _ _ Hok), (u32_id (Z.of_nat _)), (u32_id (Z.of_nat _)), u32_id in Hlt by lia.
    unfold flight. rewrite length_app. lia. }
  apply wp_bind. eapply wp_conseq; [by apply (f1_sched_Ok src ops)|]. intros [t|] s1; cbv beta iota.
  2:{ intros ->. apply wp_ret. split_and!; try done. by left. }
  intros (Ht & -> & _). destruct (prio_ok src ops s t Hok He) as [Hok1 He1]. apply wp_bind.
  eapply wp_conseq; [by apply (fetchLine_Ok acc src ops)|]. intros _ s2 (Hok2 & He2 & Hf).
  destruct (vget_lt next t) as (n & Hn); [lia|]. apply wp_bind. eapply wp_lift; [exact Hn|].
  eapply wp_lift; [apply vset_lt; lia|]. split_and!; try done. right. exists t, n. split_and!; try lia.
  - by destruct Hf.
  - done.
  - apply vset_lt. lia.
Qed.

(** ** Giving out a line *)

(** The front transfer [r] is gone; thread records may have changed. *)
Definition popped s (infos : list Fetch1ThreadInfo) (l : list FetchRequest) : Fetch1 :=
  f1_updQueues (f1_requests s) (withList (f1_transfers s) l) (f1_updInfo infos s).

Lemma popped_ok src src' ops s infos' r l : ok src ops s → ends src s → queue (f1_transfers s) = r :: l →
  fr_state r = Complete → length infos' = length (f1_fetchInfo s) →
  (∀ t i', vget infos' t = Ok i' → ∃ i, vget (f1_fetchInfo s) t = Ok i ∧ info_tag i' = info_tag i) →
  (∀ t i', vget infos' t = Ok i' → let fl := l ++ queue (f1_requests s) in
     thread_src c fl t (src' t) i'
     ∧ align (c_snap c) (f1_fetchAddr i')
       = u64 (src_next (src' t) + Z.of_nat (length (List.filter (current t i') fl)) * c_width c)) →
  ok src' ops (popped s infos' l) ∧ ends src' (popped s infos' l).
Proof.
  intros Hok He Hq Hst Hlen Htag Hth. assert (flight s = r :: l ++ queue (f1_requests s)) as Hfl.
  { unfold flight. by rewrite Hq. }
  assert (∀ t i, vget (f1_fetchInfo s) t = Ok i → ∃ i', vget infos' t = Ok i' ∧ info_tag i' = info_tag i) as Htag'.
  { intros t i Hi. pose proof (vget_bound _ _ _ Hi). destruct (vget_lt infos' t) as (i' & Hi'); [lia|].
    exists i'. split; [done|]. destruct (Htag t i' Hi') as (i0 & Hi0 & ->). rewrite Hi in Hi0. by injection Hi0 as <-. }
  split.
  - split; try apply Hok.
    + cbn. rewrite Hlen. apply Hok.
    + intros t i' Hi'. by apply Hth.
    + pose proof (k_sorted _ _ _ _ Hok) as H. rewrite Hfl in H. by inversion H.
    + pose proof (k_common _ _ _ _ Hok) as H. rewrite Hfl in H. apply Forall_cons in H as [_ H].
      eapply Forall_impl; [exact H|]. intros x [(i & Hi & Hle) ? ? ?]. split; try done.
      destruct (Htag' _ _ Hi) as (i' & Hi' & E). exists i'. by rewrite E.
    + pose proof (k_trs _ _ _ _ Hok) as H. rewrite Hq in H. apply Forall_cons in H as [_ H].
      eapply Forall_impl; [exact H|]. intros x [?|[? [?|[?|(i & Hi & Hlt)]]]]; [by left|right..]; (split; [done|]);
        [by left|right; by left|]. right. right. destruct (Htag' _ _ Hi) as (i' & Hi' & E). exists i'. by rewrite E.
    + cbn. rewrite (k_mem _ _ _ _ Hok), Hq, countb_cons. unfold inMem at 1. rewrite bool_decide_false by (by rewrite Hst).
      cbn. lia.
    + pose proof (k_cap _ _ _ _ Hok) as H. rewrite Hfl in H. cbn [length] in H. unfold flight. cbn. lia.
  - destruct He as [H1 H2 H3]. split; [|done|].
    + rewrite Hfl in H1. by apply Forall_cons in H1 as [_ H1].
    + intros t i' Hi'. by apply Hth.
Qed.

(** An out-of-date response is dropped. *)
Lemma dropped_ok src ops s r l : ok src ops s → ends src s → queue (f1_transfers s) = r :: l →
  fr_state r = Complete → (∀ i, vget (f1_fetchInfo s) (req_thread r) = Ok i → req_tag r ≠ info_tag i) →
  ok src ops (popped s (f1_fetchInfo s) l) ∧ ends src (popped s (f1_fetchInfo s) l).
Proof.
  intros Hok He Hq Hst Hold. assert (flight s = r :: l ++ queue (f1_requests s)) as Hfl by (unfold flight; by rewrite Hq).
  eapply popped_ok; try done; [intros t i Hi; by exists i|]. intros t i Hi fl.
  assert (List.filter (current t i) (flight s) = List.filter (current t i) fl) as Hf.
  { rewrite Hfl. cbn [List.filter]. replace (current t i r) with false; [done|]. symmetry. unfold current.
    destruct (Z.eqb_spec (req_thread r) t) as [<-|]; [|done]. by rewrite bool_decide_false by (by apply Hold). }
  destruct (k_thread _ _ _ _ Hok _ _ Hi). split.
  - split; try done. by rewrite <- Hf.
  - rewrite <- Hf. by apply He.
Qed.

Definition setFetchState (x : FetchState) i : Fetch1ThreadInfo :=
  mkF1Info x (f1_pc i) (f1_fetchAddr i) (f1_streamSeqNum i) (f1_predictionSeqNum i) (f1_blocked i) (f1_wakeupGuard i).

(** An up-to-date response is the next line of its thread. *)
Lemma given_thread src ops s r l i (faulty : bool) : ok src ops s → ends src s → queue (f1_transfers s) = r :: l →
  vget (f1_fetchInfo s) (req_thread r) = Ok i → req_tag r = info_tag i →
  let i' := setFetchState (if faulty then FetchWaitingForPC else f1_state i) i in
  let fl := l ++ queue (f1_requests s) in
  fr_vaddr r = src_next (src (req_thread r)) ∧
  thread_src c fl (req_thread r) (src_advance c faulty (src (req_thread r))) i'
  ∧ align (c_snap c) (f1_fetchAddr i')
    = u64 (src_next (src_advance c faulty (src (req_thread r)))
           + Z.of_nat (length (List.filter (current (req_thread r) i') fl)) * c_width c).
Proof.
  intros Hok He Hq Hi Htag i' fl. set (t := req_thread r) in *.
  assert (List.filter (current t i) (flight s) = r :: List.filter (current t i) fl) as Hf.
  { unfold flight. rewrite Hq. cbn [List.filter app]. unfold current at 1. fold t.
    by rewrite Z.eqb_refl, bool_decide_true. }
  destruct (k_thread _ _ _ _ Hok _ _ Hi) as [T1 T2 T3 T4 T5 T6 T7]. split_and!.
  - rewrite (T7 0%nat r) by (by rewrite Hf). rewrite u64_id; lia.
  - split; cbn; try done.
    + by destruct faulty.
    + apply u64_range.
    + change (current t i') with (current t i). intros k x Hx. rewrite u64_add.
      rewrite (T7 (S k) x) by (by rewrite Hf). f_equal. lia.
  - change (current t i') with (current t i). cbn. rewrite u64_add.
    etrans; [apply (e_end _ _ _ He t i Hi)|]. rewrite Hf. cbn [length]. f_equal. lia.
Qed.

Lemma setFetchState_id i : setFetchState (f1_state i) i = i.
Proof. by destruct i. Qed.

Definition given s (t : Z) i (faulty : bool) : list Fetch1ThreadInfo :=
  if faulty then <[Z.to_nat t := setFetchState FetchWaitingForPC i]> (f1_fetchInfo s) else f1_fetchInfo s.

Lemma given_insert s t i (faulty : bool) : vget (f1_fetchInfo s) t = Ok i →
  given s t i faulty
  = <[Z.to_nat t := setFetchState (if faulty then FetchWaitingForPC else f1_state i) i]> (f1_fetchInfo s).
Proof.
  intros Hi. destruct faulty; [done|]. cbn. rewrite setFetchState_id. symmetry. apply list_insert_id.
  by apply vget_Ok in Hi as [_ ?].
Qed.

Lemma given_ok src ops s r l i (faulty : bool) : ok src ops s → ends src s → queue (f1_transfers s) = r :: l →
  fr_state r = Complete → vget (f1_fetchInfo s) (req_thread r) = Ok i → req_tag r = info_tag i →
  let src' := src_upd src (req_thread r) (src_advance c faulty (src (req_thread r))) in
  let s' := popped s (given s (req_thread r) i faulty) l in
  ok src' ops s' ∧ ends src' s'.
Proof.
  intros Hok He Hq Hst Hi Htag src' s'. unfold s'. rewrite (given_insert s _ i faulty Hi).
  destruct (given_thread src ops s r l i faulty Hok He Hq Hi Htag) as (_ & H1 & H2).
  set (t := req_thread r) in *. set (i' := setFetchState _ i) in *.
  pose proof (vget_bound _ _ _ Hi) as Hb. pose proof (vset_lt (f1_fetchInfo s) t i' Hb) as Hset.
  eapply popped_ok; try done; [by rewrite length_insert|..]; intros t0 i0 Hi0;
    destruct (vset_cases _ _ _ _ _ _ Hset Hi0) as [[-> ->]|[Hne Hi0']].
  - by exists i.
  - by exists i0.
  - unfold src', src_upd. by rewrite Z.eqb_refl.
  - unfold src', src_upd. rewrite (proj2 (Z.eqb_neq _ _)) by done.
    assert (List.filter (current t0 i0) (flight s) = List.filter (current t0 i0) (l ++ queue (f1_requests s))) as Hf.
    { unfold flight. rewrite Hq. cbn [List.filter app]. unfold current at 1. fold t.
      by rewrite (proj2 (Z.eqb_neq t t0)) by done. }
    rewrite <- Hf. split; [|by apply He]. destruct (k_thread _ _ _ _ Hok _ _ Hi0'). split; try done. by rewrite <- Hf.
Qed.

(** A line of thread [t] whose source is at [a], with the prediction that
    follows from the updates [ops] of the table. *)
Record line_given (ops : list lvpt_op) (t : Z) a (l : ForwardLineData I) : Prop := {
  lg_bubble : isBubble l = false;
  lg_thread : threadId (lineId l) = t;
  lg_tag : (streamSeqNum (lineId l), predictionSeqNum (lineId l)) = src_tag a;
  lg_pc : linePc l = src_pc a;
  lg_base : lineBaseAddr l = src_next a;
  lg_fetch : lineBaseAddr l ≤ fetchAddr l < lineBaseAddr l + c_snap c ∧ fetchAddr l < 2 ^ 64;
  lg_bytes : faultSet (lineFault l) = false →
    ∃ bytes, lineBytes l = Some bytes ∧ Z.of_nat (length bytes) = c_width c ∧ lineWidth l = c_width c;
  lg_lvpt : lineLvptOut l = spec_read (c_table c) (c_threshold c) (c_max c) ops (fetchAddr l);
}.

(** [processResponse] *)
Lemma processResponse_Ok src ops s r l i : ok src ops s → ends src s → queue (f1_transfers s) = r :: l →
  fr_state r = Complete → vget (f1_fetchInfo s) (req_thread r) = Ok i → req_tag r = info_tag i →
  wp (processResponse r ForwardLineData0) s (λ line s',
    s' = f1_updInfo (given s (req_thread r) i (faultSet (fr_fault r))) s
    ∧ lineId line = fr_id r ∧ lineFault line = fr_fault r
    ∧ line_given ops (req_thread r) (src (req_thread r)) line).
Proof.
  intros Hok He Hq Hst Hi Htag. unfold processResponse. cbv zeta. change (threadId (fr_id r)) with (req_thread r).
  pose proof (vget_bound _ _ _ Hi) as Hb. pose proof (k_threads _ _ _ _ Hok) as Hth.
  destruct (given_thread src ops s r l i (faultSet (fr_fault r)) Hok He Hq Hi Htag) as (Hv & _ & _).
  pose proof (k_common _ _ _ _ Hok) as Hcm. unfold flight in Hcm. rewrite Hq in Hcm.
  apply Forall_cons in Hcm as [[_ Hsz [Hpc Hal] _] _].
  pose proof (k_trs _ _ _ _ Hok) as Htr. rewrite Hq in Htr. apply Forall_cons in Htr as [Htr _].
  destruct (k_thread _ _ _ _ Hok _ _ Hi) as [T1 T2 _ _ _ _ _].
  pose proof (align_range (c_snap c) (fr_pc r) (snap_pos c Hcfg) (proj1 Hpc)) as Har.
  pose proof (Z.mod_pos_bound (fr_pc r) (c_snap c) (snap_pos c Hcfg)) as Hmod. unfold align in Hal, Har.
  pose proof (co_width _ Hcfg) as [Hw _].
  apply wp_bind. eapply f1_thread_get; try done; [lia|]. intros i0 Hi0. rewrite Hi in Hi0. injection Hi0 as <-.
  pose proof (read_rel (c_table c) (c_threshold c) (c_max c) (co_table _ Hcfg) ops (f1_lvpt s) (fr_pc r)) as Hread.
  destruct (faultSet (fr_fault r)) eqn:Hf; apply wp_bind.
  - apply wp_bind. eapply f1_setThread_set; try done; [lia|]. apply wp_ret. apply wp_bind, wp_get, wp_bind.
    eapply wp_lift; [cbn; apply Hread; [done|apply Hok]|]. apply wp_ret. split_and!; try done.
    split; cbn; try done; try congruence; [by rewrite Hf|by rewrite T1, <- Htag|lia].
  - destruct Htr as [(Hx & _)|[_ [Hx|[(bytes & Hpk & Hlen)|(i0 & Hi0 & Hlt)]]]]; [congruence|congruence| |].
    2:{ rewrite Hi in Hi0. injection Hi0 as <-. rewrite Htag in Hlt. by destruct (tag_lt_irrefl _ Hlt). }
    rewrite Hpk. apply wp_bind. eapply wp_lift; [done|]. eapply wp_lift.
    { unfold adoptPacketData, line_isFault. cbn. rewrite Hf. done. }
    apply wp_bind, wp_get, wp_bind. eapply wp_lift; [cbn; apply Hread; [done|apply Hok]|]. apply wp_ret.
    split_and!; try done.
    + cbn. by destruct s.
    + split; cbn; try done; try congruence; [by rewrite T1, <- Htag|lia|]. intros _. exists bytes. rewrite u32_id by lia. done.
Qed.

Definition faulty (l : ForwardLineData I) : bool := faultSet (lineFault l).

(** What taking a response may do: nothing while the memory has not answered;
    drop an out-of-date line and its reservation; or give out the next line of
    a thread. *)
Inductive took src (ops : list lvpt_op) s (next : Lines)
  : ForwardLineData I → Lines → (Z → Source) → Fetch1 → Prop :=
| took_nothing : queue (f1_transfers s) = [] ∨ 0 < f1_inMemorySystem s →
    took src ops s next ForwardLineData0 next src s
| took_dropped r n next' s' : flight s = r :: flight s' →
    vget next (req_thread r) = Ok n → vset next (req_thread r) (freeReservation n) = Ok next' →
    f1_awake s' = true → f1_lineSeqNum s' = f1_lineSeqNum s →
    took src ops s next ForwardLineData0 next' src s'
| took_line r l s' : flight s = r :: flight s' → lineId l = fr_id r →
    line_given ops (req_thread r) (src (req_thread r)) l → f1_lineSeqNum s' = f1_lineSeqNum s →
    took src ops s next l next
      (src_upd src (req_thread r) (src_advance c (faulty l) (src (req_thread r)))) s'.

Lemma f1_takeResponse_Ok src ops s (next : Lines) : ok src ops s → ends src s →
  Z.of_nat (length next) = c_threads c →
  wp (f1_takeResponse ForwardLineData0 next) s (λ res s', ∃ src',
    ok src' ops s' ∧ ends src' s' ∧ took src ops s next res.1 res.2 src' s').
Proof.
  intros Hok He Hnx. apply wp_bind, wp_get. destruct (queue (f1_transfers s)) as [|r l] eqn:Hq.
  { apply wp_ret. exists src. split_and!; try done. apply took_nothing. by left. }
  pose proof (k_trs _ _ _ _ Hok) as Htr. rewrite Hq in Htr. apply Forall_cons in Htr as [Htr _].
  unfold fr_isComplete. destruct Htr as [(Hst & _)|[Hst _]]; rewrite Hst.
  { apply wp_ret. exists src. split_and!; try done. apply took_nothing. right.
    rewrite (k_mem _ _ _ _ Hok), Hq, countb_cons. unfold inMem at 1. rewrite bool_decide_true by done.
    pose proof (countb_nonneg inMem l). cbn [b2z]. lia. }
  rewrite bool_decide_true by done.
  pose proof (k_common _ _ _ _ Hok) as Hcm. unfold flight in Hcm. rewrite Hq in Hcm.
  apply Forall_cons in Hcm as [[(i & Hi & Hle) _ _ _] _].
  pose proof (vget_bound _ _ _ Hi) as Hb. pose proof (k_threads _ _ _ _ Hok) as Hth.
  apply wp_bind. eapply wp_lift; [apply (discard_iff _ _ i Hi); by right|]. apply wp_bind.
  assert (flight s = r :: l ++ queue (f1_requests s)) as Hfl by (unfold flight; by rewrite Hq).
  change (threadId (fr_id r)) with (req_thread r). case_bool_decide as Hcur; cbn [negb].
  - apply wp_bind. eapply wp_conseq; [by apply (processResponse_Ok src ops s r l i)|].
    intros line s1 (-> & Hid & Hf & Hg). apply wp_ret, wp_bind, wp_get, wp_bind.
    eapply wp_lift; [unfold Queue_pop; cbn; by rewrite Hq|]. apply wp_bind, wp_mod, wp_ret.
    destruct (given_ok src ops s r l i (faulty line) Hok He Hq Hst Hi Hcur) as [Hok' He'].
    unfold faulty in Hok', He'. rewrite Hf in Hok', He'. eexists. split; [exact Hok'|]. split; [exact He'|].
    rewrite <- Hf. by apply (took_line src ops s next r).
  - destruct (vget_lt next (req_thread r)) as (n & Hn); [lia|]. apply wp_bind. eapply wp_lift; [exact Hn|].
    apply wp_bind. eapply wp_lift; [apply vset_lt; lia|]. apply wp_bind, wp_mod, wp_ret, wp_bind, wp_get, wp_bind.
    eapply wp_lift; [unfold Queue_pop; cbn; by rewrite Hq|]. apply wp_bind, wp_mod, wp_ret.
    destruct (dropped_ok src ops s r l Hok He Hq Hst) as [Hok' He'].
    { intros i0 Hi0. rewrite Hi in Hi0. by injection Hi0 as <-. }
    exists src. set (s' := f1_updQueues _ _ _).
    assert (ok src ops s' ∧ ends src s') as [? ?] by (destruct Hok', He'; by split; split).
    split_and!; [done..|]. eapply (took_dropped src ops s next r n); try done. apply vset_lt. lia.
Qed.
End line.
