(* ===== verification/Fetch1Stage.v ===== *)
(** * One cycle of Fetch1 (src/cpu/myminor/fetch1.cc, [Fetch1::evaluate])

    A cycle takes the branches of Execute and Fetch2, gives out at most one
    line, which is the next line of its thread, updates the prediction table
    and leaves the stage either awake, idle, or waiting for an answer. *)
From stdpp Require Import sorting.
From S2P Require Import Prelude TimeBuf Buffers Activity LVPT PipeData Cpu Repack.
From S2P Require Import Fetch1 Fetch1Inv Fetch1Steps Fetch1Source Fetch1Line.

Section stage.
Context `{I : Isa} (c : F1Config) (Hcfg : config_ok c).
Implicit Types (s : Fetch1) (r : FetchRequest) (i : Fetch1ThreadInfo) (src : Z → Source)
  (acc : Z → bool) (io : Fetch1Io) (l : ForwardLineData I) (next : list (InputBuffer (ForwardLineData I))).
Notation ok := (f1_ok c).
Notation ends := (f1_ends c).

(** ** The abstract cycle *)

(** The update of the prediction table. *)
Definition io_update io : lvpt_op :=
  let u := default (f1_junk io) (lvptIn (f1_inp io)) in
  LvptUpdate (lvptInValue u) (lvptInAddr u) (lvptInPC u) (lvptInPredict u) (lvptInConstant u).

(** The line given out, if any, is the next one of its thread. *)
Definition gives ops src l : Prop :=
  l = ForwardLineData0
  ∨ 0 ≤ threadId (lineId l) < c_threads c
    ∧ line_given c ops (threadId (lineId l)) (src (threadId (lineId l))) l.

(** The sources after it. *)
Definition src_given l src : Z → Source :=
  if isBubble l then src
  else src_upd src (threadId (lineId l)) (src_advance c (faulty l) (src (threadId (lineId l)))).

(** ** What it relies on *)

(** The tag of a thread *)
Definition f1_tag s (t : Z) : Tag :=
  match vget (f1_fetchInfo s) t with Ok i => info_tag i | Stop _ => (0, 0) end.

Record f1_io_ok (policy : ThreadPolicy) s io : Prop := {
  fi_out : f1_out io = ForwardLineData0;
  fi_next : Z.of_nat (length (f1_nextStageReserve io)) = c_threads c;
  fi_policy : policy_ok (c_threads c) policy (f1_shuffled io);
  fi_inp : branch_ok c (f1_inp io);
  fi_prediction : branch_ok c (f1_prediction io);
  (* Execute's streams are new, Fetch2's predictions of the stream too *)
  fi_stream : isStreamChange (reason (f1_inp io)) = true →
    (f1_tag s (brThreadId (f1_inp io))).1 < newStreamSeqNum (f1_inp io);
  fi_newer : isStreamChange (reason (f1_prediction io)) = true →
    newStreamSeqNum (f1_prediction io) = (f1_tag s (brThreadId (f1_prediction io))).1 →
    (f1_tag s (brThreadId (f1_prediction io))).2 < newPredictionSeqNum (f1_prediction io);
  (* the pc of a reported load is an address *)
  fi_lvpt : lvpt_op_valid (io_update io);
}.

Lemma src_tag_of src ops s t : ok src ops s → 0 ≤ t < c_threads c → src_tag (src t) = f1_tag s t.
Proof.
  intros Hok Ht. unfold f1_tag. destruct (vget_lt (f1_fetchInfo s) t) as (i & Hi).
  { rewrite (k_threads _ _ _ _ Hok). lia. }
  rewrite Hi. by apply (k_thread _ _ _ _ Hok).
Qed.

Lemma io_newer policy src ops s io : ok src ops s → f1_io_ok policy s io →
  newer src (f1_inp io) ∧ newer_prediction src (f1_prediction io).
Proof.
  intros Hok [_ _ _ H1 H2 H3 H4 _]. split.
  - intros Hv. destruct H1 as [?|[Ht _]]; [done|]. by rewrite (src_tag_of src ops s _ Hok Ht).
  - intros Hv. destruct H2 as [?|[Ht _]]; [done|]. by rewrite (src_tag_of src ops s _ Hok Ht).
Qed.

(** ** The parts of the state the cycle touches last *)

Lemma awake_ok src ops s x : ok src ops s → ends src s →
  ok src ops (f1_setAwake x s) ∧ ends src (f1_setAwake x s).
Proof. intros [] []. by split; split. Qed.

Lemma activity_ok src ops s x : ok src ops s → ends src s →
  ok src ops (f1_setActivity x s) ∧ ends src (f1_setActivity x s).
Proof. intros [] []. by split; split. Qed.

Lemma lvpt_ok src ops ops' s t : ok src ops s → ends src s →
  lvpt_rel (c_table c) (c_threshold c) (c_max c) ops' t →
  ok src ops' (f1_updLvpt t s) ∧ ends src (f1_updLvpt t s).
Proof. intros [] [] ?. by split; split. Qed.

Definition unguard i : Fetch1ThreadInfo :=
  mkF1Info (f1_state i) (f1_pc i) (f1_fetchAddr i) (f1_streamSeqNum i) (f1_predictionSeqNum i) (f1_blocked i) false.

Lemma unguard_ok src ops s : ok src ops s → ends src s →
  let s' := f1_updInfo (unguard <$> f1_fetchInfo s) s in
  ok (src_unguard ∘ src) ops s' ∧ ends (src_unguard ∘ src) s'.
Proof.
  intros Hok He s'.
  assert (∀ t i', vget (unguard <$> f1_fetchInfo s) t = Ok i' → ∃ i, vget (f1_fetchInfo s) t = Ok i ∧ i' = unguard i) as Hg.
  { intros t i' [Ht Hl]%vget_Ok. rewrite list_lookup_fmap in Hl.
    destruct (f1_fetchInfo s !! Z.to_nat t) as [i|] eqn:E; [|done]. injection Hl as <-. exists i. split; [|done].
    by apply vget_Ok. }
  split.
  - apply (ok_infos c src _ ops s); [done|by rewrite length_fmap|..].
    + intros t i Hi. exists (unguard i). split; [|by right]. apply vget_Ok in Hi as [Ht Hl]. apply vget_Ok.
      split; [done|]. by rewrite list_lookup_fmap, Hl.
    + intros t i' Hi'. destruct (Hg t i' Hi') as (i & Hi & ->). destruct (k_thread _ _ _ _ Hok _ _ Hi). by split.
  - destruct He as [H1 H2 H3]. split; [done|done|]. intros t i' Hi'. destruct (Hg t i' Hi') as (i & Hi & ->).
    by apply (H3 t i).
Qed.

(** ** Numbers, reservations and wake-ups *)

(** Everything that is still to come is newer than line [last]. *)
Definition after (last : Z) s : Prop :=
  last < f1_lineSeqNum s ∧ Forall (λ n, last < n) (fr_number <$> flight s).

Definition last_given (last : Z) l : Z := if isBubble l then last else lineSeqNum (lineId l).

(** A line given out is newer than those before. *)
Definition in_order (last : Z) l : Prop := isBubble l = true ∨ last < lineSeqNum (lineId l).

(** Fetch1 will be called again if it has work to do. *)
Definition alive s : Prop := f1_awake s = true ∨ f1_activity s = true ∨ flight s = [] ∨ owes s.

(** The requests of thread [t] in flight, and the slots reserved for it. *)
Definition inflight (t : Z) (fl : list FetchRequest) : Z := countb (λ r, req_thread r =? t) fl.
Definition slots next (t : Z) : Z :=
  match vget next t with Ok n => numReservedSlots (ibQueue n) | Stop _ => 0 end.

Definition line_of (t : Z) l : bool := negb (isBubble l) && (threadId (lineId l) =? t).

Lemma inflight_core t fl fl' : core <$> fl = core <$> fl' → inflight t fl = inflight t fl'.
Proof.
  revert fl'. induction fl as [|r fl IH]; intros [|r' fl'] Hc; try done.
  injection Hc as H1 H2 H3 H4 H5. unfold inflight in *. rewrite !countb_cons. unfold req_thread at 1 3.
  rewrite H1. f_equal. by apply IH.
Qed.

Lemma slots_vset next t x next' t' : vset next t x = Ok next' →
  slots next' t' = if t' =? t then numReservedSlots (ibQueue x) else slots next t'.
Proof.
  intros Hs. unfold slots. destruct (Z.eqb_spec t' t) as [->|Hne].
  - by rewrite (vget_vset_eq _ _ _ _ Hs).
  - by rewrite (vget_vset_ne _ _ _ _ _ Hs).
Qed.

Lemma took_src src ops s next l next' src' s' : took c src ops s next l next' src' s' →
  src' = src_given l src.
Proof.
  destruct 1 as [| |r l s' Hf Hid Hg Hl]; [done..|]. unfold src_given. rewrite (lg_bubble _ _ _ _ _ Hg).
  unfold req_thread. by rewrite Hid.
Qed.

Lemma took_gives src ops s next l next' src' s' : ok src ops s → took c src ops s next l next' src' s' →
  gives ops src l.
Proof.
  intros Hok. destruct 1 as [| |r l s' Hf Hid Hg Hl]; [by left..|]. right.
  pose proof (lg_thread _ _ _ _ _ Hg) as ->. split; [|done].
  pose proof (k_common _ _ _ _ Hok) as Hc. rewrite Hf in Hc. apply Forall_cons in Hc as [[(i & Hi & _) _ _ _] _].
  rewrite <- (k_threads _ _ _ _ Hok). by apply (vget_bound _ _ i).
Qed.

Lemma took_after src ops s next l next' src' s' last : ok src ops s → ends src s →
  took c src ops s next l next' src' s' → after last s → in_order last l ∧ after (last_given last l) s'.
Proof.
  intros Hok He Ht [H1 H2]. pose proof (k_sorted _ _ _ _ Hok) as Hs. pose proof (e_number _ _ _ He) as Hn.
  destruct Ht as [|r n next' s' Hf _ _ _ Hl|r l s' Hf Hid Hg Hl]; [split; [by left|done]|..].
  - rewrite Hf in H2. cbn in H2. apply Forall_cons in H2 as [_ H2]. split; [by left|]. split; [|done].
    change (last < f1_lineSeqNum s'). by rewrite Hl.
  - unfold last_given. rewrite (lg_bubble _ _ _ _ _ Hg), Hid. rewrite Hf in Hs, Hn, H2. cbn in Hs, H2.
    apply Forall_cons in Hn as [Hn _]. apply Forall_cons in H2 as [H2 _]. inversion Hs; subst.
    split; [right; by rewrite Hid|]. split; [by rewrite Hl|done].
Qed.

Lemma took_slots src ops s next l next' src' s' t : took c src ops s next l next' src' s' →
  inflight t (flight s) ≤ slots next t < 2 ^ 32 →
  slots next' t - inflight t (flight s') = slots next t - inflight t (flight s) + b2z (line_of t l).
Proof.
  intros Ht Hb. unfold inflight in *.
  destruct Ht as [|r n next' s' Hf Hn Hset _ _|r l s' Hf Hid Hg _].
  - cbn. lia.
  - rewrite Hf, countb_cons in *. rewrite (slots_vset _ _ _ _ t Hset), (Z.eqb_sym t).
    pose proof (countb_nonneg (λ r0, req_thread r0 =? t) (flight s')). cbn [line_of isBubble] in *.
    destruct (Z.eqb_spec (req_thread r) t) as [<-|]; cbn in *; [|lia].
    unfold slots in *. rewrite Hn in *. rewrite (proj2 (Z.eqb_neq _ 0)) by lia. cbn. rewrite u32_id; lia.
  - rewrite Hf, countb_cons. unfold line_of. rewrite (lg_bubble _ _ _ _ _ Hg), Hid. cbn [negb andb].
    change (threadId (fr_id r)) with (req_thread r). lia.
Qed.

Lemma started_after s next s' next' last : started c s next s' next' → after last s → after last s'.
Proof.
  intros [[-> _]|(t & n & _ & [(r & Hc & _ & Hr) Hl _] & _)] [H1 H2]; [done|]. split; [lia|].
  rewrite (number_core _ _ Hc), fmap_app. apply Forall_app. split; [done|]. constructor; [lia|done].
Qed.

Lemma started_slots s next s' next' t : started c s next s' next' → 0 ≤ slots next t < 2 ^ 31 →
  slots next' t - inflight t (flight s') = slots next t - inflight t (flight s) ∧ slots next t ≤ slots next' t < 2 ^ 32.
Proof.
  intros [[-> ->]|(t0 & n & _ & [(r & Hc & Hr & _) _ _] & Hn & Hset)] Hb; [lia|].
  rewrite (inflight_core t _ _ Hc). unfold inflight. rewrite countb_app, countb_cons, countb_nil, Hr.
  rewrite (slots_vset _ _ _ _ t Hset), (Z.eqb_sym t). destruct (Z.eqb_spec t0 t) as [->|]; cbn; [|lia].
  unfold slots in *. rewrite Hn in *. rewrite u32_id; lia.
Qed.

(** ** The cycle *)

(** The first half: branches are followed and a fetch is started. *)
Lemma first_half acc policy src ops s io : ok src ops s → ends src s → f1_io_ok policy s io →
  f1_lineSeqNum s + 1 < 2 ^ 64 →
  let src1 := src_branches c (f1_inp io) (f1_prediction io) src in
  wp (do! f1_blockAll (f1_nextStageReserve io) (c_threads c) in
      do! f1_branches (f1_inp io) (f1_prediction io) in
      f1_startFetch acc policy (c_threads c) io (f1_nextStageReserve io)) s
     (λ next' s', ok src1 ops s' ∧ ends src1 s' ∧ ∃ s1, infos_only s s1
        ∧ started c s1 (f1_nextStageReserve io) s' next').
Proof.
  intros Hok He Hio Hn src1. pose proof Hio as [Hout Hnx Hpol Hb1 Hb2 _ _ _].
  destruct (io_newer policy src ops s io Hok Hio) as [Hn1 Hn2]. apply wp_bind.
  eapply wp_conseq; [by apply f1_blockAll_Ok|]. intros _ s1 (Hok1 & He1 & infos & Hs1 & _). apply wp_bind.
  eapply wp_conseq; [apply (f1_branches_Ok c Hcfg src ops s1); done|]. intros _ s2 (Hok2 & He2 & infos2 & Hs2).
  eapply wp_conseq; [apply (f1_startFetch_Ok c Hcfg acc src1 ops); try done; by subst|].
  intros next' s3 (Hok3 & He3 & Hst). split_and!; try done. exists s2. split; [|done]. subst. by eexists.
Qed.

(** The second half: requests move on and a response is taken. *)
Lemma second_half acc src ops s next : ok src ops s → ends src s → Z.of_nat (length next) = c_threads c →
  wp (do! stepQueues acc in f1_takeResponse ForwardLineData0 next) s (λ res s', ∃ s1,
    ok src ops s1 ∧ ends src s1 ∧ f1_moved s s1 ∧ took c src ops s1 next res.1 res.2 (src_given res.1 src) s'
    ∧ ok (src_given res.1 src) ops s' ∧ ends (src_given res.1 src) s'
    ∧ (isBubble res.1 = true → alive s')).
Proof.
  intros Hok He Hnx. apply wp_bind. eapply wp_conseq; [by apply (stepQueues_Ok c Hcfg acc src ops)|].
  intros _ s1 (Hok1 & Hmv & Hlive). pose proof (f1_ends_moved c src s s1 Hmv He) as He1.
  eapply wp_conseq; [by apply (f1_takeResponse_Ok c Hcfg src ops)|].
  intros [l next'] s2 (src' & Hok2 & He2 & Ht). exists s1. cbn [fst snd] in *.
  pose proof (took_src _ _ _ _ _ _ _ _ Ht) as E. subst src'. split_and!; try done.
  intros Hbub. destruct Ht as [Hw|r n next' s' _ _ _ Ha _|r l s' _ _ Hg _].
  - destruct Hw as [Hq|Hm]; [|by right; right; right; right; right].
    destruct Hlive as [Hr|[?|?]]; [do 2 right; left; unfold flight; by rewrite Hq, Hr|by left|by right; right; right].
  - by left.
  - by rewrite (lg_bubble _ _ _ _ _ Hg) in Hbub.
Qed.

(** What a cycle does. *)
Record cycle_ok src ops io s (res : ForwardLineData I * list (InputBuffer (ForwardLineData I))) s' : Prop := {
  cy_gives : gives ops (src_branches c (f1_inp io) (f1_prediction io) src) res.1;
  cy_ok : ok (src_unguard ∘ src_given res.1 (src_branches c (f1_inp io) (f1_prediction io) src))
             (ops ++ [io_update io]) s';
  cy_ends : ends (src_unguard ∘ src_given res.1 (src_branches c (f1_inp io) (f1_prediction io) src)) s';
  cy_line : f1_lineSeqNum s ≤ f1_lineSeqNum s' ≤ f1_lineSeqNum s + 1;
  cy_alive : alive s';
  cy_after last : after last s → in_order last res.1 ∧ after (last_given last res.1) s';
  cy_slots t : inflight t (flight s) ≤ slots (f1_nextStageReserve io) t < 2 ^ 31 →
    slots res.2 t - inflight t (flight s')
    = slots (f1_nextStageReserve io) t - inflight t (flight s) + b2z (line_of t res.1);
}.

Lemma started_line s next s' next' : started c s next s' next' →
  f1_lineSeqNum s ≤ f1_lineSeqNum s' ≤ f1_lineSeqNum s + 1.
Proof. intros [[-> _]|(t & n & _ & [_ H _] & _)]; lia. Qed.

Lemma took_number src ops s next l next' src' s' : took c src ops s next l next' src' s' →
  f1_lineSeqNum s' = f1_lineSeqNum s.
Proof. by destruct 1. Qed.

(** The end of the cycle. *)
Lemma last_part src ops io s (res : ForwardLineData I * list (InputBuffer (ForwardLineData I))) :
  ok src ops s → ends src s → lvpt_op_valid (io_update io) → (isBubble res.1 = true → alive s) →
  wp (do! (if negb (isBubble res.1) then smod (f1_setActivity true) else sret tt) in
      let! s := sget in
      let l := default (f1_junk io) (lvptIn (f1_inp io)) in
      let! t := slift (updateTable (f1_lvpt s) (lvptInValue l) (lvptInAddr l) (lvptInPC l)
                         (lvptInPredict l) (lvptInConstant l)) in
      do! smod (f1_updLvpt t) in
      do! smod (λ s, f1_updInfo (unguard <$> f1_fetchInfo s) s) in
      sret res) s
     (λ res' s', res' = res ∧ ok (src_unguard ∘ src) (ops ++ [io_update io]) s' ∧ ends (src_unguard ∘ src) s'
        ∧ alive s' ∧ flight s' = flight s ∧ f1_lineSeqNum s' = f1_lineSeqNum s).
Proof.
  intros Hok He Hval Hal.
  set (s1 := if negb (isBubble res.1) then f1_setActivity true s else s).
  assert (ok src ops s1 ∧ ends src s1 ∧ alive s1 ∧ flight s1 = flight s ∧ f1_lineSeqNum s1 = f1_lineSeqNum s)
    as (Hok1 & He1 & Hal1 & Hf1 & Hl1).
  { unfold s1. destruct (isBubble res.1) eqn:Hb; cbn [negb]; [split_and!; auto|].
    destruct (activity_ok src ops s true Hok He). split_and!; try done. by right; left. }
  destruct (lvpt_step_rel (c_table c) (c_threshold c) (c_max c) (co_table _ Hcfg) (proj2 (co_thr _ Hcfg))
    ops (f1_lvpt s1) (io_update io) Hval (k_lvpt _ _ _ _ Hok1)) as (t & Hst & Hrel).
  destruct (lvpt_ok src ops (ops ++ [io_update io]) s1 t Hok1 He1 Hrel) as [Hok2 He2].
  destruct (unguard_ok src _ _ Hok2 He2) as [Hok3 He3].
  apply wp_bind. apply (wp_conseq _ _ (λ _ s', s' = s1)); [unfold s1; by destruct (negb _); [apply wp_mod|apply wp_ret]|].
  intros _ ? ->. apply wp_bind, wp_get, wp_bind. eapply wp_lift; [exact Hst|].
  apply wp_bind, wp_mod, wp_bind, wp_mod, wp_ret. by split_and!.
Qed.

Lemma started_next s next s' next' : started c s next s' next' → length next' = length next.
Proof. intros [[_ ->]|(t & n & _ & _ & _ & Hset)]; [done|]. by apply vset_length in Hset. Qed.

Lemma slots_inflight_nonneg t fl : 0 ≤ inflight t fl.
Proof. apply countb_nonneg. Qed.

Lemma infos_only_after s s' last : infos_only s s' → after last s → after last s'.
Proof. by intros [infos ->]. Qed.

Lemma moved_after s s' last : f1_moved s s' → after last s → after last s'.
Proof. intros [Hc _ _ Hl _ _] [H1 H2]. split; [by rewrite Hl|]. by rewrite (number_core _ _ Hc). Qed.

Lemma Fetch1_evaluate_Ok acc policy src ops s io : ok src ops s → ends src s → f1_io_ok policy s io →
  f1_lineSeqNum s + 1 < 2 ^ 64 →
  wp (Fetch1_evaluate acc policy (c_threads c) io) s (cycle_ok src ops io s).
Proof.
  intros Hok He Hio Hn. set (src1 := src_branches c (f1_inp io) (f1_prediction io) src).
  apply wp_bind, wp_mod, wp_bind, wp_mod. set (s0 := f1_setActivity false (f1_setAwake false s)).
  destruct (awake_ok src ops s false Hok He) as [Hokw Hew].
  destruct (activity_ok src ops _ false Hokw Hew) as [Hok0 He0]. fold s0 in Hok0, He0.
  assert (f1_io_ok policy s0 io) as Hio0 by (destruct Hio; by split).
  apply wp_bind. rewrite (fi_out _ _ _ Hio). apply wp_assert; [done|].
  pose proof (first_half acc policy src ops s0 io Hok0 He0 Hio0 Hn) as H1.
  apply wp_bind. eapply wp_conseq; [exact (wp_bind_inv _ _ _ _ H1)|]. intros ? ? H2.
  apply wp_bind. eapply wp_conseq; [exact (wp_bind_inv _ _ _ _ H2)|]. intros ? ? H3.
  apply wp_bind. eapply wp_conseq; [exact H3|]. clear H1 H2 H3. intros next1 s1 (Hok1 & He1 & s00 & Hs00 & Hst).
  assert (Z.of_nat (length next1) = c_threads c) as Hnx by (rewrite (started_next _ _ _ _ Hst); apply Hio).
  pose proof (second_half acc src1 ops s1 next1 Hok1 He1 Hnx) as H4.
  apply wp_bind. eapply wp_conseq; [exact (wp_bind_inv _ _ _ _ H4)|]. intros ? ? H5.
  apply wp_bind. eapply wp_conseq; [exact H5|]. clear H4 H5.
  intros res s3 (s2 & Hok2 & He2 & Hmv & Ht & Hok3 & He3 & Hal).
  eapply wp_conseq; [apply (last_part _ ops io s3 res Hok3 He3 (fi_lvpt _ _ _ Hio) Hal)|].
  intros ? s4 (-> & Hok4 & He4 & Hal4 & Hf4 & Hl4).
  assert (infos_only s0 s00 ∧ flight s00 = flight s ∧ f1_lineSeqNum s00 = f1_lineSeqNum s) as (_ & Hf0 & Hl0).
  { destruct Hs00 as [infos ->]. split; [by eexists|done]. }
  pose proof (started_line _ _ _ _ Hst). pose proof (took_number _ _ _ _ _ _ _ _ Ht). pose proof (fm_line _ _ Hmv).
  split; try done.
  - exact (took_gives src1 ops s2 next1 _ _ _ s3 Hok2 Ht).
  - lia.
  - intros last Ha. assert (after last s00) as Ha0 by (by apply (infos_only_after s0)).
    pose proof (moved_after _ _ _ Hmv (started_after _ _ _ _ _ Hst Ha0)) as Ha2.
    pose proof (took_after _ _ _ _ _ _ _ _ last Hok2 He2 Ht Ha2) as [? [? ?]].
    split; [done|]. split; [by rewrite Hl4|by rewrite Hf4].
  - intros t Hb. pose proof (slots_inflight_nonneg t (flight s)).
    destruct (started_slots _ _ _ _ t Hst ltac:(lia)) as [E1 Hb1]. rewrite Hf0 in E1.
    rewrite <- (inflight_core t _ _ (fm_core _ _ Hmv)) in E1.
    pose proof (took_slots _ _ _ _ _ _ _ _ t Ht ltac:(lia)) as E2. rewrite Hf4. lia.
Qed.
End stage.
