(* ===== verification/Fetch1History.v ===== *)
(** * Fetch1 over time (src/cpu/myminor/fetch1.cc)

    The events of the stage are its cycles, the answers of TLB, memory and
    cache, and wake-ups by the CPU.  Over every sequence of events in which
    the others keep their side of the protocol, no assertion of the code fails
    and the lines given out are those of the abstract source. *)
From stdpp Require Import sorting.
From S2P Require Import Prelude TimeBuf Buffers Activity LVPT PipeData Cpu Repack.
From S2P Require Import Fetch1 Fetch1Inv Fetch1Steps Fetch1Source Fetch1Line Fetch1Stage.

Section history.
Context `{I : Isa} (c : F1Config).
Implicit Types (s : Fetch1) (r : FetchRequest) (i : Fetch1ThreadInfo) (src : Z → Source)
  (acc : Z → bool) (io : Fetch1Io) (l : ForwardLineData I).

(** ** Events *)

Inductive F1Event :=
| F1Cycle io
| F1Translated (n : Z) (f : Fault)
| F1Response (n : Z) (bytes : LinePacket)
| F1Retry
| F1Wakeup (t : Z) (p : PCState).

Definition f1_event acc (policy : ThreadPolicy) (e : F1Event) : St Fetch1 (ForwardLineData I) :=
  match e with
  | F1Cycle io => let! res := Fetch1_evaluate acc policy (c_threads c) io in sret res.1
  | F1Translated n f => do! f1_finish acc n f in sret ForwardLineData0
  | F1Response n bytes => let! _ := f1_recvTimingResp n bytes in sret ForwardLineData0
  | F1Retry => do! f1_recvReqRetry acc in sret ForwardLineData0
  | F1Wakeup t p => do! wakeupFetch t p in sret ForwardLineData0
  end.

Fixpoint f1_run acc (policy : ThreadPolicy) (es : list F1Event) : St Fetch1 (list (ForwardLineData I)) :=
  match es with
  | [] => sret []
  | e :: es =>
      let! l := f1_event acc policy e in
      let! ls := f1_run acc policy es in
      sret (l :: ls)
  end.

(** The protocol: the TLB answers a translation, the memory a request that was
    sent, with as many bytes as asked for; the cache asks for a retry after it
    refused; a thread is woken up when nothing of its stream is in flight. *)
Definition f1_allowed (policy : ThreadPolicy) s (e : F1Event) : Prop :=
  match e with
  | F1Cycle io => f1_io_ok c policy s io
  | F1Translated n _ => ∃ r, r ∈ queue (f1_requests s) ∧ fr_number r = n ∧ fr_state r = InTranslation
  | F1Response n bytes => Z.of_nat (length bytes) = c_width c
      ∧ ∃ r, r ∈ queue (f1_transfers s) ∧ fr_number r = n ∧ fr_state r = RequestIssuing
  | F1Retry => f1_icacheState s = IcacheNeedsRetry
  | F1Wakeup t p => addr_ok p ∧ ∃ i, vget (f1_fetchInfo s) t = Ok i
      ∧ List.filter (current t i) (flight s) = []
  end.

Fixpoint f1_obeys acc (policy : ThreadPolicy) s (es : list F1Event) : Prop :=
  match es with
  | [] => True
  | e :: es => f1_allowed policy s e ∧
      match f1_event acc policy e s with
      | Ok (_, s') => f1_obeys acc policy s' es
      | Stop _ => True
      end
  end.

(** ** The abstract source over time *)

Definition src_event (e : F1Event) l src : Z → Source :=
  match e with
  | F1Cycle io => src_unguard ∘ src_given c l (src_branches c (f1_inp io) (f1_prediction io) src)
  | F1Wakeup t p => src_upd src t (src_wakeup c p (src t))
  | _ => src
  end.

Definition ops_event (e : F1Event) (ops : list lvpt_op) : list lvpt_op :=
  match e with F1Cycle io => ops ++ [io_update io] | _ => ops end.

(** The line that may come with an event. *)
Definition source_step src ops (e : F1Event) l : Prop :=
  match e with
  | F1Cycle io => gives c ops (src_branches c (f1_inp io) (f1_prediction io) src) l
  | _ => l = ForwardLineData0
  end.

Fixpoint source_run src ops (es : list F1Event) (ls : list (ForwardLineData I)) : Prop :=
  match es, ls with
  | [], [] => True
  | e :: es, l :: ls => source_step src ops e l ∧ source_run (src_event e l src) (ops_event e ops) es ls
  | _, _ => False
  end.

(** The numbers of the lines given out. *)
Definition line_numbers (ls : list (ForwardLineData I)) : list Z :=
  (λ l, lineSeqNum (lineId l)) <$> List.filter (λ l, negb (isBubble l)) ls.

(** ** Events keep the invariant *)

Context (Hcfg : config_ok c).
Notation ok := (f1_ok c).
Notation ends := (f1_ends c).

Record f1_good src ops s : Prop := {
  fg_ok : ok src ops s;
  fg_ends : ends src s;
  fg_alive : alive s;
}.

(** An event gives [l] and leads to [s']. *)
Definition event_ok src ops (e : F1Event) s l s' : Prop :=
  source_step src ops e l ∧ f1_good (src_event e l src) (ops_event e ops) s'
  ∧ f1_lineSeqNum s' ≤ f1_lineSeqNum s + 1 ∧ ∀ last, after last s → in_order last l ∧ after (last_given last l) s'.

Lemma moved_event src ops s s' : f1_moved s s' → ok src ops s' → ends src s → alive s' →
  f1_good src ops s' ∧ f1_lineSeqNum s' ≤ f1_lineSeqNum s + 1
  ∧ ∀ last, after last s → in_order last (ForwardLineData0 : ForwardLineData I)
      ∧ after (last_given last (ForwardLineData0 : ForwardLineData I)) s'.
Proof.
  intros Hm Hok He Ha. split_and!.
  - split; [done|by eapply f1_ends_moved|done].
  - rewrite (fm_line _ _ Hm). lia.
  - intros last Haf. split; [by left|]. by apply (moved_after s).
Qed.

Lemma wakeup_Ok src ops s t p i : ok src ops s → ends src s → addr_ok p → vget (f1_fetchInfo s) t = Ok i →
  List.filter (current t i) (flight s) = [] →
  wp (wakeupFetch t p) s (λ _ s', f1_good (src_upd src t (src_wakeup c p (src t))) ops s'
    ∧ f1_lineSeqNum s' = f1_lineSeqNum s ∧ flight s' = flight s).
Proof.
  intros Hok He Hp Hi Hnil. pose proof (vget_bound _ _ _ Hi) as Hb. rewrite (k_threads _ _ _ _ Hok) in Hb.
  apply wp_bind. eapply f1_thread_get; try done. intros i0 Hi0. rewrite Hi in Hi0. injection Hi0 as <-.
  apply wp_bind. eapply f1_setThread_set; try done. apply wp_mod. set (i' := mkF1Info _ _ _ _ _ _ _).
  destruct (restart_ok c Hcfg src ops s t i i' Hok He Hi) as [Hok' He']; [by right|done|done|].
  assert (src_wakeup c p (src t) = mkSource (info_tag i') (f1_pc i') (align (c_snap c) (f1_fetchAddr i'))
    (f1_state i') (f1_wakeupGuard i')) as ->.
  { unfold src_wakeup. by rewrite (ts_tag _ _ _ _ _ (k_thread _ _ _ _ Hok _ _ Hi)). }
  destruct (awake_ok c _ ops _ true Hok' He') as [Hok2 He2]. split; [|done].
  split; [exact Hok2|exact He2|by left].
Qed.

Lemma f1_event_Ok acc policy src ops s e : f1_good src ops s → f1_allowed policy s e →
  f1_lineSeqNum s + 1 < 2 ^ 64 → wp (f1_event acc policy e) s (event_ok src ops e s).
Proof.
  intros [Hok He Ha] Hal Hn. destruct e as [io|n f|n bytes| |t p]; cbn in Hal.
  - apply wp_bind. eapply wp_conseq; [by apply (Fetch1_evaluate_Ok c Hcfg acc policy src ops)|].
    intros res s' [H1 H2 H3 H4 H5 H6 _]. apply wp_ret. split_and!; try done. lia.
  - destruct Hal as (r & Hr & <- & Hst). apply wp_bind.
    eapply wp_conseq; [by apply (finish_Ok c Hcfg acc src ops)|]. intros _ s' (Hok' & Hm & Hw). apply wp_ret.
    split; [done|]. apply moved_event; try done. by left.
  - destruct Hal as (Hlen & r & Hr & <- & Hst). apply wp_bind.
    eapply wp_conseq; [by apply (response_Ok c Hcfg src ops)|]. intros _ s' (_ & Hok' & Hm & Hw). apply wp_ret.
    split; [done|]. apply moved_event; try done. by left.
  - apply wp_bind. eapply wp_conseq; [by apply (retry_Ok c Hcfg acc src ops)|]. intros _ s' (Hok' & Hm & Ho).
    apply wp_ret. split; [done|]. apply moved_event; try done. by right; right; right.
  - destruct Hal as (Hp & i & Hi & Hnil). apply wp_bind. eapply wp_conseq; [by eapply wakeup_Ok|].
    intros _ s' (Hg & Hl & Hf). apply wp_ret. split_and!; [done|done|lia|]. intros last [H1 H2]. split; [by left|]. split; cbn.
    + change (last < f1_lineSeqNum s'). lia.
    + by rewrite Hf.
Qed.

Lemma f1_run_Ok acc policy es : ∀ src ops s last, f1_good src ops s → after last s →
  f1_lineSeqNum s + Z.of_nat (length es) < 2 ^ 64 → f1_obeys acc policy s es →
  wp (f1_run acc policy es) s (λ ls s', source_run src ops es ls
    ∧ StronglySorted Z.lt (last :: line_numbers ls)
    ∧ f1_lineSeqNum s' ≤ f1_lineSeqNum s + Z.of_nat (length es) ∧ ∃ src' ops', f1_good src' ops' s').
Proof.
  induction es as [|e es IH]; intros src ops s last Hg Haf Hn Hob.
  { apply wp_ret. split_and!; [done|by repeat constructor|cbn; lia|by exists src, ops]. }
  destruct Hob as [Hal Hob]. cbn [length] in Hn. apply wp_bind.
  destruct (f1_event_Ok acc policy src ops s e Hg Hal ltac:(lia)) as (l & s1 & E & Hst & Hg1 & Hl1 & Haf1).
  exists l, s1. split; [exact E|]. rewrite E in Hob. apply wp_bind.
  destruct (Haf1 last Haf) as [Hord Haf2].
  eapply wp_conseq; [apply (IH _ _ s1 (last_given last l) Hg1 Haf2); [lia|done]|].
  intros ls s2 (Hrun & Hsort & Hl2 & Hex). apply wp_ret. split_and!; [done| |cbn [length]; lia|done].
  unfold line_numbers, last_given in *. cbn [List.filter]. destruct (isBubble l) eqn:Hb; cbn [negb]; [done|].
  cbn [fmap list_fmap]. constructor; [done|].
  destruct Hord as [?|Hlt]; [congruence|].
  apply StronglySorted_inv in Hsort as [_ Hall]. constructor; [done|].
  eapply Forall_impl; [exact Hall|]. cbn. intros; lia.
Qed.

Lemma f1_obeys_app acc policy es es' : ∀ s ls s', f1_obeys acc policy s (es ++ es') →
  f1_run acc policy es s = Ok (ls, s') → f1_obeys acc policy s es ∧ f1_obeys acc policy s' es'.
Proof.
  induction es as [|e es IH]; intros s ls s' Hob Hrun.
  - by injection Hrun as _ <-.
  - destruct Hob as [Hal Hob]. cbn in Hrun. unfold sbind in Hrun.
    destruct (f1_event acc policy e s) as [[l s1]|] eqn:E; [|done].
    destruct (f1_run acc policy es s1) as [[ls1 s2]|] eqn:E2; [|done]. injection Hrun as _ <-.
    destruct (IH s1 ls1 s2 Hob E2) as [H1 H2]. split; [|done]. split; [done|]. by rewrite E.
Qed.
End history.

(** ** The beginning *)

Section start.
Context `{I : Isa}.

Definition f1_config (ps : Fetch1Params) : F1Config :=
  mkF1Config (p_numThreads ps)
    (if p_fetch1LineSnapWidth ps =? 0 then p_cacheLineSize ps else p_fetch1LineSnapWidth ps)
    (if p_fetch1LineWidth ps =? 0 then p_cacheLineSize ps else p_fetch1LineWidth ps)
    (p_fetch1FetchLimit ps) (p_tableSizeLVPT ps) (p_thresholdLCT ps) (p_maxValueLCT ps).

(** At first every thread waits for its pc. *)
Definition src_start (p0 : PCState) : Z → Source :=
  λ _, mkSource (firstStreamSeqNum, firstPredictionSeqNum) (Some p0) 0 FetchWaitingForPC false.

Lemma newFetch1_good ps inst_size p0 s : config_ok (f1_config ps) → newFetch1 ps inst_size p0 = Ok s →
  f1_good (f1_config ps) (src_start p0) [] s ∧ after 0 s ∧ f1_lineSeqNum s = firstLineSeqNum.
Proof.
  intros Hcfg Hnew. unfold newFetch1 in Hnew.
  destruct (newLVPT_rel (p_tableSizeLVPT ps) (p_thresholdLCT ps) (p_maxValueLCT ps)
    (co_table _ Hcfg) (proj1 (co_thr _ Hcfg))) as (t & Ht & Hrel).
  rewrite Ht in Hnew. cbn [rbind] in Hnew.
  destruct (negb (_ `mod` inst_size =? 0)); [done|]. destruct (_ && _); [done|].
  destruct (p_fetch1FetchLimit ps <? 1); [done|]. injection Hnew as <-.
  pose proof (co_threads _ Hcfg) as Hthr. pose proof (co_limit _ Hcfg) as Hlim.
  pose proof (snap_pos _ Hcfg) as Hsn. cbn in Hthr, Hlim.
  assert (∀ t i, vget (replicate (Z.to_nat (p_numThreads ps)) (newF1Info p0)) t = Ok i → i = newF1Info p0) as Hall.
  { intros ? ? [_ [? _]%lookup_replicate]%vget_Ok. done. }
  split_and!; [|by split; [|constructor]|done]. split; [| |by right; right; left].
  - split; try done; try (constructor; fail).
    + cbn. rewrite length_replicate. lia.
    + cbn. intros t0 i ->%Hall. by split.
    + cbn in *. lia.
  - split; [by constructor|done|]. cbn. intros t0 i ->%Hall. cbn. unfold align.
    rewrite Z.mod_0_l by (cbn in Hsn; lia). done.
Qed.

(** C24: Fetch1 implements the abstract source of lines.  From construction
    and over every history of cycles, TLB answers, memory responses, retries
    and wake-ups in which the others keep their side of the protocol, no
    assertion of the code fails.  Every line given out belongs to its thread's
    current stream and prediction, carries the stream's pc, starts where the
    line before it ended, contains the address it was fetched for, holds a
    full line of bytes unless it has a fault, and carries the load value
    prediction that follows from the updates reported before; the lines of all
    threads come in the order of their numbers. *)
Theorem fetch1_refines_line_source (ps : Fetch1Params) (inst_size : Z) (p0 : PCState) (s0 : Fetch1)
    (accept : Z → bool) (policy : ThreadPolicy) (es : list F1Event) :
  config_ok (f1_config ps) → newFetch1 ps inst_size p0 = Ok s0 → Z.of_nat (length es) < 2 ^ 63 →
  f1_obeys (f1_config ps) accept policy s0 es →
  ∃ lines s', f1_run (f1_config ps) accept policy es s0 = Ok (lines, s')
    ∧ source_run (f1_config ps) (src_start p0) [] es lines
    ∧ StronglySorted Z.lt (line_numbers lines).
Proof.
  intros Hcfg Hnew Hlen Hob. destruct (newFetch1_good ps inst_size p0 s0 Hcfg Hnew) as (Hg & Haf & Hl).
  unfold firstLineSeqNum in Hl.
  destruct (f1_run_Ok (f1_config ps) Hcfg accept policy es _ _ s0 0 Hg Haf ltac:(lia) Hob)
    as (lines & s' & Hrun & Hsrc & Hsort & _).
  exists lines, s'. split_and!; try done. by apply StronglySorted_inv in Hsort as [? _].
Qed.

(** C35: No wake-up is lost.  After every event of such a history Fetch1 has
    asked to be evaluated again, or has nothing in flight, or the TLB, the
    memory or the cache still has to call it back. *)
Theorem fetch1_no_lost_wakeup (ps : Fetch1Params) (inst_size : Z) (p0 : PCState) (s0 : Fetch1)
    (accept : Z → bool) (policy : ThreadPolicy) (es : list F1Event) :
  config_ok (f1_config ps) → newFetch1 ps inst_size p0 = Ok s0 → Z.of_nat (length es) < 2 ^ 63 →
  f1_obeys (f1_config ps) accept policy s0 es →
  ∃ lines s', f1_run (f1_config ps) accept policy es s0 = Ok (lines, s')
    ∧ (f1_awake s' = true ∨ f1_activity s' = true ∨ flight s' = [] ∨ f1_icacheState s' = IcacheNeedsRetry
       ∨ 0 < f1_inITLB s' ∨ 0 < f1_inMemorySystem s').
Proof.
  intros Hcfg Hnew Hlen Hob. destruct (newFetch1_good ps inst_size p0 s0 Hcfg Hnew) as (Hg & Haf & Hl).
  unfold firstLineSeqNum in Hl.
  destruct (f1_run_Ok (f1_config ps) Hcfg accept policy es _ _ s0 0 Hg Haf ltac:(lia) Hob)
    as (lines & s' & Hrun & _ & _ & _ & src' & ops' & [_ _ Ha]).
  exists lines, s'. split; [done|]. exact Ha.
Qed.

(** Reservations in Fetch2's input buffers are balanced.  A cycle of
    Fetch1, after any such history, reserves a slot for each request it puts
    in flight and frees one for each line it drops: the slots reserved for a
    thread exceed its requests in flight by what they did before, plus the
    line handed over to Fetch2 if it is the thread's. *)
Theorem fetch1_reservations_balanced (ps : Fetch1Params) (inst_size : Z) (p0 : PCState) (s0 : Fetch1)
    (accept : Z → bool) (policy : ThreadPolicy) (es : list F1Event) lines s (io : Fetch1Io) (t : Z) :
  config_ok (f1_config ps) → newFetch1 ps inst_size p0 = Ok s0 → Z.of_nat (length es) < 2 ^ 62 →
  f1_obeys (f1_config ps) accept policy s0 (es ++ [F1Cycle io]) →
  f1_run (f1_config ps) accept policy es s0 = Ok (lines, s) →
  inflight t (flight s) ≤ slots (f1_nextStageReserve io) t < 2 ^ 31 →
  ∃ l next s', Fetch1_evaluate accept policy (p_numThreads ps) io s = Ok ((l, next), s')
    ∧ slots next t - inflight t (flight s')
      = slots (f1_nextStageReserve io) t - inflight t (flight s) + b2z (line_of t l).
Proof.
  intros Hcfg Hnew Hlen Hob Hrun Hb. destruct (newFetch1_good ps inst_size p0 s0 Hcfg Hnew) as (Hg & Haf & Hl).
  unfold firstLineSeqNum in Hl. destruct (f1_obeys_app _ _ _ _ _ _ _ _ Hob Hrun) as [Hob1 [Hio _]].
  destruct (f1_run_Ok (f1_config ps) Hcfg accept policy es _ _ s0 0 Hg Haf ltac:(lia) Hob1)
    as (lines' & s1 & Hrun' & _ & _ & Hl1 & src' & ops' & [Hok He _]).
  rewrite Hrun in Hrun'. injection Hrun' as <- <-.
  destruct (Fetch1_evaluate_Ok (f1_config ps) Hcfg accept policy src' ops' s io Hok He Hio ltac:(lia))
    as ([l next] & s' & Hev & [_ _ _ _ _ _ Hs]).
  exists l, next, s'. split; [done|]. by apply Hs.
Qed.

(** Where [fetchLine] goes from, in any state. *)
Lemma fetchLine_step acc s t i k : f1_lineSnap s = 2 ^ k → 0 ≤ k ≤ 31 → 0 < f1_maxLineWidth s < 2 ^ 31 →
  vget (f1_fetchInfo s) t = Ok i → 0 ≤ f1_fetchAddr i < 2 ^ 64 →
  let al := align (2 ^ k) (f1_fetchAddr i) in
  ∃ s' r, fetchLine acc t None s = Ok (tt, s')
    ∧ queue (f1_requests s') = queue (f1_requests s) ++ [r] ∧ fr_vaddr r = al ∧ fr_size r = f1_maxLineWidth s
    ∧ fr_pc r = f1_fetchAddr i ∧ f1_lineSnap s' = f1_lineSnap s ∧ f1_maxLineWidth s' = f1_maxLineWidth s
    ∧ ∃ i', vget (f1_fetchInfo s') t = Ok i' ∧ f1_fetchAddr i' = u64 (al + f1_maxLineWidth s).
Proof.
  intros Hs Hk Hw Hi Ha al. pose proof (Z.pow_pos_nonneg 2 k) as Hp.
  destruct (align_range (2 ^ k) (f1_fetchAddr i) ltac:(lia) (proj1 Ha)) as (_ & _ & Hd). fold al in Hd.
  assert (u32 (f1_maxLineWidth s - u32 (al `mod` f1_lineSnap s)) = f1_maxLineWidth s) as Hsz.
  { rewrite Hs, (proj2 (Z.mod_divide al (2 ^ k) ltac:(lia)) Hd), (u32_id 0), Z.sub_0_r, u32_id; lia. }
  unfold fetchLine, sbind, f1_thread, sbind, sget, slift. rewrite Hi. cbn [rbind].
  rewrite !Hs, !(align_land _ k _ Hk eq_refl Ha). fold al. rewrite <- !Hs, !Hsz.
  cbn -[u32 u64 Z.pow vset]. rewrite Hi. unfold f1_setThread, sbind, sget, slift, smod.
  cbn -[u32 u64 Z.pow vset]. rewrite (vset_lt _ t) by (by apply (vget_bound _ _ i)).
  eexists _, _. split; [reflexivity|]. split; [reflexivity|]. cbn -[u64 Z.pow vget]. split_and!; try done.
  eexists. split; [apply (vget_vset_eq (f1_fetchInfo s)), vset_lt; by apply (vget_bound _ _ i)|done].
Qed.

(** A line width below the line alignment, which the constructor accepts
    because it checks the width only when it is at least the alignment, makes
    Fetch1 ask for the same line again and again: the second of two fetches
    in a row of a thread goes to the address of the first. *)
Theorem fetch1_narrow_line_repeats (accept : Z → bool) (s : Fetch1) (t : Z) (i : Fetch1ThreadInfo) (k : Z) :
  f1_lineSnap s = 2 ^ k → 0 ≤ k ≤ 31 → 0 < f1_maxLineWidth s < f1_lineSnap s →
  vget (f1_fetchInfo s) t = Ok i → 0 ≤ f1_fetchAddr i < 2 ^ 64 - 2 ^ 31 →
  ∃ s1 s2 r1 r2, fetchLine accept t None s = Ok (tt, s1) ∧ fetchLine accept t None s1 = Ok (tt, s2)
    ∧ queue (f1_requests s2) = queue (f1_requests s) ++ [r1; r2]
    ∧ fr_vaddr r1 = align (f1_lineSnap s) (f1_fetchAddr i) ∧ fr_vaddr r2 = fr_vaddr r1.
Proof.
  intros Hs Hk Hw Hi Ha. assert (2 ^ k ≤ 2 ^ 31) by (apply Z.pow_le_mono_r; lia).
  destruct (fetchLine_step accept s t i k Hs Hk ltac:(lia) Hi ltac:(lia))
    as (s1 & r1 & E1 & Hq1 & Hv1 & _ & _ & Hs1 & Hw1 & i1 & Hi1 & Ha1).
  destruct (align_range (2 ^ k) (f1_fetchAddr i) ltac:(lia) (proj1 Ha)) as (Hr1 & Hr2 & Hd).
  rewrite u64_id in Ha1 by lia.
  destruct (fetchLine_step accept s1 t i1 k ltac:(congruence) Hk ltac:(lia) Hi1 ltac:(lia))
    as (s2 & r2 & E2 & Hq2 & Hv2 & _). exists s1, s2, r1, r2. split_and!; try done.
  - by rewrite Hq2, Hq1, <- app_assoc.
  - by rewrite Hv1, Hs.
  - rewrite Hv2, Hv1, Ha1. unfold align at 1. destruct Hd as [q Hq]. rewrite Hq.
    rewrite Z.add_comm, Z.mod_add, Z.mod_small by lia. lia.
Qed.
End start.

(** ** A concrete history

    One thread, lines of 16 bytes and at most two fetches in flight: the
    thread is woken up at address 20, its first line is asked for, translated
    and answered, and given out in the next cycle. *)
Module ToyFetch.

Definition params : Fetch1Params := mkF1Params 16 16 2 1 64 16 1 3.
Definition p0 : PCState (Isa := Toy.isa) := (0, 0).
Definition p20 : PCState (Isa := Toy.isa) := (20, 0).

Definition io (slots : Z) : Fetch1Io (I := Toy.isa) :=
  mkF1Io BranchData0 BranchData0 ForwardLineData0
    [mkInputBuffer (mkQueue [] slots 4) None] (λ _, true) [] None (mkLvptIn false false 0 20 0 0).

Definition bytes : LinePacket := zrange 1 16.

Definition events : list (F1Event (I := Toy.isa)) :=
  [F1Wakeup 0 p20; F1Cycle (io 0); F1Translated 1 None; F1Response 1 bytes].

Definition start : Fetch1 (I := Toy.isa) :=
  mkFetch1 16 16 2 [newF1Info p0] 0 (newQueue 2) (newQueue 2) IcacheRunning firstLineSeqNum 0 0
    (mkLVPT 16 1 3 (replicate 16 lvptEntry0) (replicate 4 0) (mkLvptStats 0 0 0)) 0 false false.

Lemma start_built : newFetch1 params 4 p0 = Ok start.
Proof. reflexivity. Qed.

Lemma config : config_ok (f1_config params).
Proof.
  split; cbn; try lia.
  - exists 4. lia.
  - split; [lia|]. by exists 1.
Qed.

Lemma obeys_cons c acc policy (s : Fetch1 (I := Toy.isa)) e es l s' : f1_allowed c policy s e →
  f1_event c acc policy e s = Ok (l, s') → f1_obeys c acc policy s' es → f1_obeys c acc policy s (e :: es).
Proof. intros Ha He Ho. split; [done|]. by rewrite He. Qed.

Lemma io_ok n policy (s : Fetch1 (I := Toy.isa)) : policy ≠ Random → f1_io_ok (f1_config params) policy s (io n).
Proof. intros Hp. split; try done; [by destruct policy|by left..]. Qed.

Lemma obeys : f1_obeys (f1_config params) (λ _, true) RoundRobin start (events ++ [F1Cycle (io 1)]).
Proof.
  eapply obeys_cons; [|vm_compute; reflexivity|].
  { split; [unfold addr_ok; cbn; lia|]. eexists. split; [vm_compute; reflexivity|reflexivity]. }
  eapply obeys_cons; [by apply io_ok|vm_compute; reflexivity|].
  eapply obeys_cons; [|vm_compute; reflexivity|].
  { eexists. split; [by left|]. split; reflexivity. }
  eapply obeys_cons; [|vm_compute; reflexivity|].
  { split; [reflexivity|]. eexists. split; [by left|]. split; reflexivity. }
  eapply obeys_cons; [by apply io_ok|vm_compute; reflexivity|exact Logic.I].
Qed.

Lemma obeys_events : f1_obeys (f1_config params) (λ _, true) RoundRobin start events.
Proof.
  destruct (f1_run (f1_config params) (λ _, true) RoundRobin events start) as [[ls s]|] eqn:E.
  - exact (proj1 (f1_obeys_app _ _ _ _ _ _ _ _ obeys E)).
  - exfalso. vm_compute in E. discriminate E.
Qed.

(** the history gives out line 1 *)
Lemma gives_line : match f1_run (f1_config params) (λ _, true) RoundRobin (events ++ [F1Cycle (io 1)]) start with
                   | Ok (lines, _) => line_numbers lines = [1]
                   | Stop _ => False
                   end.
Proof. vm_compute. reflexivity. Qed.
End ToyFetch.

Lemma fetch1_refines_line_source_witness :
  ∃ lines s', f1_run (f1_config ToyFetch.params) (λ _, true) RoundRobin
      (ToyFetch.events ++ [F1Cycle (ToyFetch.io 1)]) ToyFetch.start = Ok (lines, s')
    ∧ source_run (f1_config ToyFetch.params) (src_start ToyFetch.p0) []
        (ToyFetch.events ++ [F1Cycle (ToyFetch.io 1)]) lines
    ∧ StronglySorted Z.lt (line_numbers lines).
Proof.
  apply (fetch1_refines_line_source ToyFetch.params 4 ToyFetch.p0 ToyFetch.start).
  - exact ToyFetch.config.
  - exact ToyFetch.start_built.
  - cbn. lia.
  - exact ToyFetch.obeys.
Defined.

Lemma fetch1_no_lost_wakeup_witness :
  ∃ lines s', f1_run (f1_config ToyFetch.params) (λ _, true) RoundRobin ToyFetch.events ToyFetch.start = Ok (lines, s')
    ∧ (f1_awake s' = true ∨ f1_activity s' = true ∨ flight s' = [] ∨ f1_icacheState s' = IcacheNeedsRetry
       ∨ 0 < f1_inITLB s' ∨ 0 < f1_inMemorySystem s').
Proof.
  apply (fetch1_no_lost_wakeup ToyFetch.params 4 ToyFetch.p0 ToyFetch.start).
  - exact ToyFetch.config.
  - exact ToyFetch.start_built.
  - cbn. lia.
  - exact ToyFetch.obeys_events.
Defined.

Lemma fetch1_reservations_balanced_witness :
  ∃ lines s l next s', f1_run (f1_config ToyFetch.params) (λ _, true) RoundRobin ToyFetch.events ToyFetch.start
      = Ok (lines, s)
    ∧ Fetch1_evaluate (λ _, true) RoundRobin 1 (ToyFetch.io 1) s = Ok ((l, next), s')
    ∧ slots next 0 - inflight 0 (flight s')
      = slots (f1_nextStageReserve (ToyFetch.io 1)) 0 - inflight 0 (flight s) + b2z (line_of 0 l).
Proof.
  destruct (f1_run (f1_config ToyFetch.params) (λ _, true) RoundRobin ToyFetch.events ToyFetch.start)
    as [[lines s]|] eqn:E; [|vm_compute in E; discriminate E].
  exists lines, s.
  assert (inflight 0 (flight s) = 1) as Hin by (vm_compute in E; injection E as _ <-; reflexivity).
  destruct (fetch1_reservations_balanced ToyFetch.params 4 ToyFetch.p0 ToyFetch.start (λ _, true) RoundRobin
    ToyFetch.events lines s (ToyFetch.io 1) 0 ToyFetch.config ToyFetch.start_built ltac:(cbn; lia) ToyFetch.obeys E)
    as (l & next & s' & H1 & H2).
  - rewrite Hin. change (slots (f1_nextStageReserve (ToyFetch.io 1)) 0) with 1. lia.
  - by exists l, next, s'.
Defined.

Lemma fetch1_narrow_line_repeats_witness :
  ∃ s0 s1 s2 r1 r2, newFetch1 (mkF1Params 64 32 2 1 64 16 1 3) 4 ToyFetch.p0 = Ok s0
    ∧ fetchLine (λ _, true) 0 None s0 = Ok (tt, s1) ∧ fetchLine (λ _, true) 0 None s1 = Ok (tt, s2)
    ∧ queue (f1_requests s2) = [] ++ [r1; r2] ∧ fr_vaddr r1 = 0 ∧ fr_vaddr r2 = fr_vaddr r1.
Proof.
  eexists. destruct (fetch1_narrow_line_repeats (λ _, true)
    (mkFetch1 64 32 2 [newF1Info ToyFetch.p0] 0 (newQueue 2) (newQueue 2) IcacheRunning firstLineSeqNum 0 0
      (mkLVPT 16 1 3 (replicate 16 lvptEntry0) (replicate 4 0) (mkLvptStats 0 0 0)) 0 false false)
    0 (newF1Info ToyFetch.p0) 6) as (s1 & s2 & r1 & r2 & H).
  - reflexivity.
  - lia.
  - cbn. lia.
  - reflexivity.
  - cbn. lia.
  - exists s1, s2, r1, r2. split; [reflexivity|exact H].
Defined.
