(* ===== verification/Fetch2.v ===== *)
(** * The Fetch2 stage (src/cpu/myminor/fetch2.cc, fetch2.hh)

    Fetch2 takes lines of bytes from Fetch1, offers them to the instruction
    decoder of the thread, packs the decoded instructions into bundles for
    Decode, asks the branch predictor about control instructions and sends
    its predictions back to Fetch1.

    The decoder of the instruction set ([InstDecoder],
    src/arch/generic/decoder.hh) is the class [Decoder].  The branch predictor
    (src/cpu/pred/bpred_unit.hh) is asked once per fetch sequence number, so its
    answers are a function [predict] of thread and number; the commands that
    Fetch2 gives it are part of the outcome of a cycle. *)
From S2P Require Import Prelude TimeBuf Buffers Activity LVPT PipeData Cpu.

(** [InstDecoder]: what Fetch2 uses of it. *)
Class Decoder `{I : Isa} := {
  Dec : Type;
  moreBytesSize : Z;
  pcMask : Z;
  dec_reset : Dec → Dec;
  dec_copy : Dec → list Z → Dec;               (* write to moreBytesPtr() *)
  moreBytes : Dec → PCState → Z → Dec;
  instReady : Dec → bool;
  needMoreBytes : Dec → bool;
  decode : Dec → PCState → StaticInst * PCState * Dec;   (* may update the pc *)
}.
Arguments Decoder : clear implicits.
Arguments Dec {I} _.

(** ** State *)

Section fetch2.
Context `{I : Isa} {DC : Decoder I}.
Notation DynInst := (MyMinorDynInst I).
Notation Line := (ForwardLineData I).
Notation IB := (InputBuffer Line).

(** [Fetch2ThreadInfo] *)
Record Fetch2ThreadInfo := mkF2Info {
  f2_inputIndex : Z;
  f2_pc : option PCState;
  f2_havePC : bool;
  f2_lastStreamSeqNum : Z;
  f2_fetchSeqNum : Z;
  f2_expectedStreamSeqNum : Z;
  f2_predictionSeqNum : Z;
  f2_blocked : bool;
}.

(** the member initialisers *)
Definition newF2Info : Fetch2ThreadInfo :=
  mkF2Info 0 None false firstStreamSeqNum firstFetchSeqNum firstStreamSeqNum firstPredictionSeqNum false.

Implicit Types (info : Fetch2ThreadInfo) (b : IB) (l : Line) (d : Dec DC).

Definition f2_setIndex (n : Z) info : Fetch2ThreadInfo :=
  mkF2Info n (f2_pc info) (f2_havePC info) (f2_lastStreamSeqNum info) (f2_fetchSeqNum info)
    (f2_expectedStreamSeqNum info) (f2_predictionSeqNum info) (f2_blocked info).
Definition f2_setPC (p : option PCState) info : Fetch2ThreadInfo :=
  mkF2Info (f2_inputIndex info) p (f2_havePC info) (f2_lastStreamSeqNum info) (f2_fetchSeqNum info)
    (f2_expectedStreamSeqNum info) (f2_predictionSeqNum info) (f2_blocked info).
Definition f2_setHavePC (h : bool) info : Fetch2ThreadInfo :=
  mkF2Info (f2_inputIndex info) (f2_pc info) h (f2_lastStreamSeqNum info) (f2_fetchSeqNum info)
    (f2_expectedStreamSeqNum info) (f2_predictionSeqNum info) (f2_blocked info).
Definition f2_setLastStream (n : Z) info : Fetch2ThreadInfo :=
  mkF2Info (f2_inputIndex info) (f2_pc info) (f2_havePC info) n (f2_fetchSeqNum info)
    (f2_expectedStreamSeqNum info) (f2_predictionSeqNum info) (f2_blocked info).
Definition f2_setFetchSeq (n : Z) info : Fetch2ThreadInfo :=
  mkF2Info (f2_inputIndex info) (f2_pc info) (f2_havePC info) (f2_lastStreamSeqNum info) n
    (f2_expectedStreamSeqNum info) (f2_predictionSeqNum info) (f2_blocked info).
Definition f2_setPrediction (stream n : Z) info : Fetch2ThreadInfo :=
  mkF2Info (f2_inputIndex info) (f2_pc info) (f2_havePC info) (f2_lastStreamSeqNum info)
    (f2_fetchSeqNum info) stream n (f2_blocked info).
Definition f2_setBlocked (x : bool) info : Fetch2ThreadInfo :=
  mkF2Info (f2_inputIndex info) (f2_pc info) (f2_havePC info) (f2_lastStreamSeqNum info)
    (f2_fetchSeqNum info) (f2_expectedStreamSeqNum info) (f2_predictionSeqNum info) x.

(** [Fetch2]; [f2_decoders] are the decoders of the thread contexts *)
Record Fetch2 := mkFetch2 {
  f2_outputWidth : Z;
  f2_processMoreThanOneInput : bool;
  f2_inputBuffer : list IB;
  f2_fetchInfo : list Fetch2ThreadInfo;
  f2_threadPriority : Z;
  f2_decoders : list (Dec DC);
}.

(** [Fetch2(...)] *)
Definition newFetch2 (decodeInputWidth fetch2InputBufferSize numThreads : Z) (fetch2CycleInput : bool)
    (decoders : list (Dec DC)) : res Fetch2 :=
  if (decodeInputWidth <? 1) || (fetch2InputBufferSize <? 1) then Stop Fatal
  else Ok (mkFetch2 decodeInputWidth fetch2CycleInput
             (replicate (Z.to_nat numThreads) (newInputBuffer fetch2InputBufferSize))
             (replicate (Z.to_nat numThreads) newF2Info) 0 decoders).

(** ** Input *)

(** [getInput(tid)] *)
Definition f2_getInput b : res (option Line) :=
  if negb (IB_empty b) then l ← IB_front b; Ok (Some l) else Ok None.

(** [popInput(tid)] *)
Definition f2_popInput b info : res (IB * Fetch2ThreadInfo) :=
  b ← (if negb (IB_empty b) then l ← IB_front b; _ ← freeLine l; IB_pop b else Ok b);
  Ok (b, f2_setIndex 0 info).

(** [dumpAllInput(tid)]; [n] bounds the rounds by the number of lines *)
Fixpoint dumpLoop (n : nat) b info : res (IB * Fetch2ThreadInfo) :=
  if IB_empty b then Ok (b, info)
  else match n with
       | O => Stop OutOfFuel
       | S n => ' (b, info) ← f2_popInput b info; dumpLoop n b info
       end.
Definition dumpAllInput b info : res (IB * Fetch2ThreadInfo) :=
  ' (b, info) ← dumpLoop (length (contents b)) b info; Ok (b, f2_setIndex 0 info).

(** ** Branch prediction *)

(** the commands to the branch predictor *)
Inductive BpCommand :=
  | BpSquash (squashed_sn : Z) (corr_target : option PCState) (actually_taken : bool) (tid : Z)
  | BpUpdate (done_sn : Z) (tid : Z).

(** [updateBranchPrediction(branch)] *)
Definition updateBranchPrediction (branch : BranchData I) : list BpCommand :=
  let inst := brInst branch in
  let sn := fetchSeqNum (id inst) in
  let tid := threadId (id inst) in
  if isFault inst || negb (triedToPredict inst) then []
  else match reason branch with
       | NoBranch | Interrupt | SuspendThread | HaltFetch | BranchPrediction => []
       | UnpredictedBranch => [BpSquash sn (target branch) true tid; BpUpdate sn tid]
       | CorrectlyPredictedBranch => [BpUpdate sn tid]
       | BadlyPredictedBranch => [BpSquash sn (target branch) false tid; BpUpdate sn tid]
       | BadlyPredictedBranchTarget => [BpSquash sn (target branch) true tid]
       end.

(** the predictor's answer for the instruction of a thread with a fetch
    sequence number: the target if it is predicted taken *)
Definition Predictor : Type := Z → Z → StaticInst → PCState → option PCState.

(** [predictBranch(inst, branch)]; the prediction, if there is one *)
Definition predictBranch (predict : Predictor) (inst : DynInst) info
  : res (DynInst * Fetch2ThreadInfo * option (BranchData I)) :=
  check (negb (predictedTaken inst));
  if isControl (staticInst inst) || isSyscall (staticInst inst) then
    inst_pc ← derefPtr (pc inst);
    match predict (threadId (id inst)) (fetchSeqNum (id inst)) (staticInst inst) inst_pc with
    | Some t =>
        let inst := with_prediction true true (Some t) inst in
        let n := u64 (f2_predictionSeqNum info + 1) in
        Ok (inst, f2_setPrediction (streamSeqNum (id inst)) n info,
            Some (newBranchData BranchPrediction (threadId (id inst)) (streamSeqNum (id inst)) n t inst))
    | None => Ok (with_prediction true false (predictedTarget inst) inst, info, None)
    end
  else Ok (inst, info, None).

(** ** Extracting instructions *)

(** the rest of an older prediction of the same stream *)
Definition mismatch info l : bool :=
  (f2_expectedStreamSeqNum info =? streamSeqNum (lineId l))
  && negb (f2_predictionSeqNum info =? predictionSeqNum (lineId l)).

(** loading a new pc from a line *)
Definition loadPC info l d : res (Fetch2ThreadInfo * Dec DC) :=
  p ← derefPtr (linePc l);
  let idx := u32 (Z.land (instAddr p) pcMask - lineBaseAddr l) in
  Ok (f2_setHavePC true (f2_setPC (linePc l) (f2_setIndex idx info)), dec_reset d).

(** an instruction made from a line *)
Definition lineInst (si : StaticInst) info l : res DynInst :=
  let inst := newDynInst si (lineId l) None in
  let inst := with_id (λ i, set_prediction (f2_predictionSeqNum info) (set_fetch (f2_fetchSeqNum info) i)) inst in
  check (execSeqNum (id inst) =? 0);
  Ok inst.

Definition with_fault (f : Fault) (i : DynInst) : DynInst :=
  mkDynInst (staticInst i) (id i) (pc i) f (lvptOut i) (triedToPredict i) (predictedTaken i)
    (predictedTarget i) (ex i).

(** a fault packed as an instruction *)
Definition faultInst info l : res DynInst :=
  inst ← lineInst nullStaticInst info l;
  Ok (with_fault (lineFault l) (with_pc (f2_pc info) inst)).

(** [memcpy(decoder->moreBytesPtr(), line + inputIndex, moreBytesSize)] *)
Definition lineChunk info l : res (list Z) :=
  bytes ← derefPtr (lineBytes l);
  if f2_inputIndex info + moreBytesSize <=? Z.of_nat (length bytes) then
    Ok (take (Z.to_nat moreBytesSize) (drop (Z.to_nat (f2_inputIndex info)) bytes))
  else Stop OutOfBounds.

(** offering the next bytes of a line to the decoder and taking an
    instruction from it, if one is ready; the counts of instruction classes
    are left out *)
Definition extract (predict : Predictor) info l d
  : res (Fetch2ThreadInfo * Dec DC * option DynInst * option (BranchData I)) :=
  chunk ← lineChunk info l;
  p ← derefPtr (f2_pc info);
  let d := dec_copy d chunk in
  let d := if instReady d then d else moreBytes d p (u64 (lineBaseAddr l + f2_inputIndex info)) in
  ' (info, d, inst, prediction) ←
    (if instReady d then
       let '(si, p, d) := decode d p in
       si ← derefInst si;
       inst ← lineInst si info l;
       let inst := with_pc (Some p) (with_lvptOut (lineLvptOut l) inst) in
       let info := f2_setPC (Some (advancePC si (uReset p))) info in
       ' (inst, info, prediction) ← predictBranch predict inst info;
       Ok (info, d, Some inst, prediction)
     else Ok (info, d, None, None));
  Ok (if needMoreBytes d then f2_setIndex (u32 (f2_inputIndex info + moreBytesSize)) info else info,
      d, inst, prediction).

(** the body of the packing loop up to the packing itself *)
Definition fetchOne (predict : Predictor) info l d
  : res (Fetch2ThreadInfo * Dec DC * option DynInst * option (BranchData I)) :=
  let discard_line := mismatch info l in
  let set_pc := negb (f2_lastStreamSeqNum info =? streamSeqNum (lineId l)) in
  ' (info, d) ← (if negb discard_line && (negb (f2_havePC info) || set_pc) then loadPC info l d
                 else Ok (info, d));
  if discard_line then Ok (info, d, None, None)
  else if line_isFault l then inst ← faultInst info l; Ok (info, d, Some inst, None)
  else extract predict info l d.

(** packing [inst] into the output *)
Definition packInst (W : Z) (inst : option DynInst) info (insts_out : ForwardInstData I) (output_index : Z)
  : res (Fetch2ThreadInfo * ForwardInstData I * Z) :=
  match inst with
  | None => Ok (info, insts_out, output_index)
  | Some i =>
      insts_out ← (if output_index =? 0 then resize insts_out W else Ok insts_out);
      insts_out ← put_inst insts_out output_index i;
      Ok (f2_setFetchSeq (u64 (f2_fetchSeqNum info + 1)) info, insts_out, u32 (output_index + 1))
  end.

(** what happens to the line at the end of a round; whether it is done with *)
Definition afterLine l (discard_line : bool) (prediction : option (BranchData I)) b info
  : res (IB * Fetch2ThreadInfo * bool) :=
  let info := f2_setLastStream (streamSeqNum (lineId l)) info in
  if (match prediction with Some _ => true | None => false end) || line_isFault l then
    ' (b, info) ← dumpAllInput b info; Ok (b, f2_setHavePC false info, true)
  else if discard_line then
    ' (b, info) ← f2_popInput b info; Ok (b, f2_setHavePC false info, true)
  else if f2_inputIndex info =? lineWidth l then
    ' (b, info) ← f2_popInput b info; Ok (b, info, true)
  else Ok (b, info, false).

(** the packing loop *)
Fixpoint f2_loop (fuel : nat) (predict : Predictor) (W : Z) (more : bool) b info d
    (line_in : option Line) (insts_out : ForwardInstData I) (output_index : Z)
    (prediction : option (BranchData I))
  : res (IB * Fetch2ThreadInfo * Dec DC * ForwardInstData I * option (BranchData I)) :=
  match line_in, prediction with
  | Some l, None =>
      if (line_isFault l || (f2_inputIndex info <? lineWidth l)) && (output_index <? W) then
        match fuel with
        | O => Stop OutOfFuel
        | S fuel =>
            let discard_line := mismatch info l in
            ' (info, d, inst, prediction) ← fetchOne predict info l d;
            ' (info, insts_out, output_index) ← packInst W inst info insts_out output_index;
            ' (b, info, done) ← afterLine l discard_line prediction b info;
            line_in ← (if done then if more then f2_getInput b else Ok None else Ok (Some l));
            f2_loop fuel predict W more b info d line_in insts_out output_index prediction
        end
      else Ok (b, info, d, insts_out, prediction)
  | _, _ => Ok (b, info, d, insts_out, prediction)
  end.

(** Enough rounds: each emits an instruction, moves on in a line or pops one. *)
Definition f2_fuel (W : Z) b : nat :=
  S (Z.to_nat W + length (contents b) + sum_list_with (λ l, Z.to_nat (lineWidth l)) (contents b)).

(** ** One cycle *)

(** discarding lines of an older prediction, even when blocked *)
Fixpoint discardLoop (n : nat) (more : bool) b info (line_in : option Line)
  : res (IB * Fetch2ThreadInfo) :=
  match line_in with
  | Some l =>
      if mismatch info l then
        match n with
        | O => Stop OutOfFuel
        | S n =>
            ' (b, info) ← f2_popInput b info;
            let info := f2_setHavePC false info in
            line_in ← (if more then f2_getInput b else Ok None);
            discardLoop n more b info line_in
        end
      else Ok (b, info)
  | None => Ok (b, info)
  end.

Definition discardThread (more blocked : bool) b info : res (IB * Fetch2ThreadInfo) :=
  let info := f2_setBlocked blocked info in
  line_in ← f2_getInput b;
  discardLoop (length (contents b)) more b info line_in.

Definition discardAll (more : bool) (next : list (InputBuffer (ForwardInstData I))) (numThreads : Z)
    (st : list IB * list Fetch2ThreadInfo) : res (list IB * list Fetch2ThreadInfo) :=
  mfold (λ st tid,
           n ← vget next tid; b ← vget st.1 tid; info ← vget st.2 tid;
           ' (b, info) ← discardThread more (negb (canReserve n)) b info;
           bufs ← vset st.1 tid b; infos ← vset st.2 tid info; Ok (bufs, infos))
    st (zrange 0 (numThreads - 1)).

(** [getScheduledThread()] *)
Definition f2_getScheduledThread (bufs : list IB) (infos : list Fetch2ThreadInfo)
    (policy : ThreadPolicy) (numThreads priority : Z) (shuffled : list Z) : res (option Z) :=
  firstReady (λ tid, b ← vget bufs tid; i ← vget infos tid; l ← f2_getInput b;
                     Ok (match l with Some _ => negb (f2_blocked i) | None => false end))
    (priorityList policy numThreads priority shuffled).

(** the work on the scheduled thread; the decoder is the one of the thread of
    the line, which is the thread whose buffer it is in *)
Definition f2_packThread (predict : Predictor) (W : Z) (more : bool) (bufs : list IB)
    (infos : list Fetch2ThreadInfo) (decs : list (Dec DC)) (insts_out : ForwardInstData I) (tid : Z)
  : res (list IB * list Fetch2ThreadInfo * list (Dec DC) * ForwardInstData I * option (BranchData I)) :=
  b ← vget bufs tid; info ← vget infos tid; d ← vget decs tid;
  line_in ← f2_getInput b;
  ' (b, info, d, insts_out, prediction) ←
    f2_loop (f2_fuel W b) predict W more b info d line_in insts_out 0 None;
  bufs ← vset bufs tid b; infos ← vset infos tid info; decs ← vset decs tid d;
  Ok (bufs, infos, decs, insts_out, prediction).

(** the loop that marks the stage active *)
Fixpoint f2_activate (stageId : Z) (bufs : list IB) (next : list (InputBuffer (ForwardInstData I)))
    (ar : ActivityRecorder) (tids : list Z) : res ActivityRecorder :=
  match tids with
  | [] => Ok ar
  | i :: tids =>
      b ← vget bufs i; l ← f2_getInput b;
      match l with
      | Some _ =>
          n ← vget next i;
          if canReserve n then activateStage ar stageId else f2_activate stageId bufs next ar tids
      | None => f2_activate stageId bufs next ar tids
      end
  end.

(** what Fetch2 shares with the rest of the CPU in one cycle *)
Record Fetch2Io := mkF2Io {
  f2_inp : Line;
  f2_branchInp : BranchData I;
  f2_out : ForwardInstData I;
  f2_nextStageReserve : list (InputBuffer (ForwardInstData I));
  f2_activityRecorder : ActivityRecorder;
}.

(** [Pipeline::Fetch2StageId] *)
Definition Fetch2StageId : Z := 2.

(** the reaction to a change of stream by Execute *)
Definition streamChange (branch : BranchData I) (bufs : list IB) (infos : list Fetch2ThreadInfo)
  : res (list IB * list Fetch2ThreadInfo) :=
  if isStreamChange (reason branch) then
    let tid := brThreadId branch in
    b ← vget bufs tid; info ← vget infos tid;
    ' (b, info) ← dumpAllInput b info;
    bufs ← vset bufs tid b; infos ← vset infos tid (f2_setHavePC false info);
    Ok (bufs, infos)
  else Ok (bufs, infos).

(** the end of a cycle: output, reservation and activity *)
Definition f2_finish (sched : option Z) (numThreads : Z) (bufs : list IB) (io : Fetch2Io)
    (insts_out : ForwardInstData I)
  : res (ForwardInstData I * ActivityRecorder * list (InputBuffer (ForwardInstData I))) :=
  check (match sched with Some _ => true | None => isBubble insts_out end);
  let tid := default InvalidThreadID sched in
  ' (insts_out, ar, next) ←
    (if negb (isBubble insts_out) then
       ar ← activity (f2_activityRecorder io);
       n ← vget (f2_nextStageReserve io) tid;
       next ← vset (f2_nextStageReserve io) tid (reserve n);
       Ok (mkInsts (insts insts_out) tid, ar, next)
     else Ok (insts_out, f2_activityRecorder io, f2_nextStageReserve io));
  ar ← f2_activate Fetch2StageId bufs next ar (zrange 0 (numThreads - 1));
  Ok (insts_out, ar, next).

(** the line in the latch slot at the end of a cycle: [freeLine()] acts on it
    when the buffer has popped it by reference ([elementPtr]) *)
Definition latchSlot (b0 b : IB) l : res Line :=
  match elementPtr b0, elementPtr b with Some _, None => freeLine l | _, _ => Ok l end.

(** the [pushTail()] at the end of a cycle; [bufs0] are the buffers after the
    line has arrived *)
Definition f2_pushTail (inp : Line) (bufs0 bufs : list IB) : res (list IB * Line) :=
  if negb (isBubble inp) then
    let itid := threadId (lineId inp) in
    b0 ← vget bufs0 itid; b ← vget bufs itid;
    slot ← latchSlot b0 b inp;
    bufs ← (if negb (isBubble slot) then vset bufs itid (pushTail b) else Ok bufs);
    Ok (bufs, slot)
  else Ok (bufs, inp).

(** [evaluate()]: the new state, the shared parts, the prediction sent to
    Fetch1 and the commands to the branch predictor *)
Definition Fetch2_evaluate (predict : Predictor) (policy : ThreadPolicy) (numThreads : Z)
    (shuffled : list Z) (s : Fetch2) (io : Fetch2Io)
  : res (Fetch2 * Fetch2Io * BranchData I * list BpCommand) :=
  let itid := threadId (lineId (f2_inp io)) in
  arrived ← (if negb (isBubble (f2_inp io)) then
               b ← vget (f2_inputBuffer s) itid; b ← setTail b (f2_inp io); vset (f2_inputBuffer s) itid b
             else Ok (f2_inputBuffer s));
  check (isBubble (f2_out io));
  let commands := updateBranchPrediction (f2_branchInp io) in
  ' (bufs, infos) ← streamChange (f2_branchInp io) arrived (f2_fetchInfo s);
  ' (bufs, infos) ← discardAll (f2_processMoreThanOneInput s) (f2_nextStageReserve io) numThreads (bufs, infos);
  sched ← f2_getScheduledThread bufs infos policy numThreads (f2_threadPriority s) shuffled;
  ' (bufs, infos, decs, insts_out, prediction) ←
    match sched with
    | Some tid => f2_packThread predict (f2_outputWidth s) (f2_processMoreThanOneInput s) bufs infos
                    (f2_decoders s) (f2_out io) tid
    | None => Ok (bufs, infos, f2_decoders s, f2_out io, None)
    end;
  ' (insts_out, ar, next) ← f2_finish sched numThreads bufs io insts_out;
  ' (bufs, inp) ← f2_pushTail (f2_inp io) arrived bufs;
  Ok (mkFetch2 (f2_outputWidth s) (f2_processMoreThanOneInput s) bufs infos
        (default (f2_threadPriority s) sched) decs,
      mkF2Io inp (f2_branchInp io) insts_out next ar,
      default BranchData0 prediction, commands).

(** [isDrained()] *)
Definition Fetch2_isDrained (s : Fetch2) (inp : Line) (predictionOut : BranchData I) : bool :=
  forallb IB_empty (f2_inputBuffer s) && isBubble inp && isBubble predictionOut.
End fetch2.
