(* ===== verification/Fetch2Spec.v ===== *)
(** * What Fetch2 computes for one thread (src/cpu/myminor/fetch2.cc)

    The specification of Fetch2 is an abstract machine [f2_step] that consumes
    the lines of a thread one by one, without widths, cycles, blocking or
    output bundles.  This file shows that the packing loop and the discarding
    of mispredicted lines are runs of that machine. *)
From S2P Require Import Prelude TimeBuf Buffers Activity LVPT PipeData Cpu Repack Fetch2.

(** What Fetch2 relies on of the decoder (src/arch/generic/decoder.hh): the
    decoder takes bytes in pieces of a fixed size, asks for more when it has
    no instruction after a piece, and [decode] gives an instruction. *)
Class DecoderOk {I : Isa} (DC : Decoder I) : Prop := {
  dk_size : 0 < moreBytesSize < 2 ^ 31;
  dk_progress d p a : instReady d = false → instReady (moreBytes d p a) = false →
    needMoreBytes (moreBytes d p a) = true;
  dk_decode d p : instReady d = true → isNullInst (decode d p).1.1 = false;
}.

(** ** The abstract machine *)

Section spec.
Context `{I : Isa} {DC : Decoder I}.
Notation DynInst := (MyMinorDynInst I).
Notation Line := (ForwardLineData I).
Implicit Types (l : Line) (ls : list Line).

(** Where a thread is: the pc, the offset in the line and the stream they
    belong to, or nothing when the next line gives a new pc. *)
Record Fetching := mkFetching {
  g_at : option (PCState * Z * Z);
  g_seq : Z;
  g_expected : Z;
  g_prediction : Z;
  g_dec : Dec DC;
}.
Implicit Types (g : Fetching).

(** What becomes of the lines: the first one is kept, it is finished, or all
    of them are dropped. *)
Inductive Fate := Keep | Next | Flush.

Definition rest (f : Fate) l ls : list Line :=
  match f with Keep => l :: ls | Next => ls | Flush => [] end.

Definition streamOf l : Z := streamSeqNum (lineId l).
Definition predictionOf l : Z := predictionSeqNum (lineId l).

(** The offset of the pc of a line in the line. *)
Definition entry (p : PCState) l : Z := Z.land (instAddr p) pcMask - lineBaseAddr l.

(** Where the next instruction of a line starts. *)
Definition start g l : option (PCState * Z * Dec DC) :=
  let anew := match linePc l with Some p => Some (p, entry p l, dec_reset (g_dec g)) | None => None end in
  match g_at g with
  | Some (p, i, s) => if s =? streamOf l then Some (p, i, g_dec g) else anew
  | None => anew
  end.

(** The instruction [si] found on line [l]. *)
Definition found g l (si : StaticInst) (p : PCState) (f : Fault) (lv : lvptData)
    (tried : bool) (guess : option PCState) : DynInst :=
  mkDynInst si
    (mkInstId (threadId (lineId l)) (streamOf l) (g_prediction g) (lineSeqNum (lineId l)) (g_seq g) 0)
    (Some p) f lv tried (match guess with Some _ => true | None => false end) guess
    (ex (newDynInst si InstId0 None)).

(** Going on in a line at offset [i]. *)
Definition goOn g l (seq : Z) (p : PCState) (i : Z) (d : Dec DC) (o : option DynInst)
  : Fetching * option DynInst * Fate :=
  let fin := i =? lineWidth l in
  (mkFetching (Some (p, if fin then 0 else i, streamOf l)) seq (g_expected g) (g_prediction g) d,
   o, if fin then Next else Keep).

(** The pieces of a line given to a decoder. *)
Definition offer l (bytes : list Z) (p : PCState) (i : Z) (d : Dec DC) : Dec DC :=
  let d := dec_copy d (take (Z.to_nat moreBytesSize) (drop (Z.to_nat i) bytes)) in
  if instReady d then d else moreBytes d p (u64 (lineBaseAddr l + i)).

Definition f2_step (predict : Predictor) g l : option (Fetching * option DynInst * Fate) :=
  if (g_expected g =? streamOf l) && negb (g_prediction g =? predictionOf l) then
    Some (mkFetching None (g_seq g) (g_expected g) (g_prediction g) (g_dec g), None, Next)
  else
    match start g l with
    | None => None
    | Some (p, i, d) =>
        if line_isFault l then
          Some (mkFetching None (u64 (g_seq g + 1)) (g_expected g) (g_prediction g) d,
                Some (found g l nullStaticInst p (lineFault l) lvptData0 false None), Flush)
        else
          match lineBytes l with
          | None => None
          | Some bytes =>
              let d := offer l bytes p i d in
              if instReady d then
                let '(si, p, d) := decode d p in
                let tried := isControl si || isSyscall si in
                let guess := if tried then predict (threadId (lineId l)) (g_seq g) si p else None in
                let inst := found g l si p None (lineLvptOut l) tried guess in
                match guess with
                | Some _ => Some (mkFetching None (u64 (g_seq g + 1)) (streamOf l)
                                    (u64 (g_prediction g + 1)) d, Some inst, Next)
                | None => Some (goOn g l (u64 (g_seq g + 1)) (advancePC si (uReset p))
                                  (if needMoreBytes d then i + moreBytesSize else i) d (Some inst))
                end
              else Some (goOn g l (g_seq g) p (i + moreBytesSize) d None)
          end
    end.

(** [fetches g ls os g' ls']: some steps of the machine lead from [g] with the
    lines [ls] waiting to [g'] with [ls'] waiting and give [os]. *)
Inductive fetches (predict : Predictor) : Fetching → list Line → list DynInst → Fetching → list Line → Prop :=
| fetches_nil g ls : fetches predict g ls [] g ls
| fetches_step g l ls g1 o f os g2 ls2 :
    f2_step predict g l = Some (g1, o, f) → fetches predict g1 (rest f l ls) os g2 ls2 →
    fetches predict g (l :: ls) (option_list o ++ os) g2 ls2.

Lemma fetches_one predict g l ls g1 o f : f2_step predict g l = Some (g1, o, f) →
  fetches predict g (l :: ls) (option_list o) g1 (rest f l ls).
Proof.
  intros H. rewrite <- (app_nil_r (option_list o)). eapply fetches_step; [exact H|constructor].
Qed.

Lemma fetches_trans predict g ls os g1 ls1 os2 g2 ls2 :
  fetches predict g ls os g1 ls1 → fetches predict g1 ls1 os2 g2 ls2 →
  fetches predict g ls (os ++ os2) g2 ls2.
Proof.
  induction 1 as [|g l ls g' o f os g1 ls1 Hs _ IH]; [done|]. intros H2.
  rewrite <- app_assoc. econstructor; [exact Hs|by apply IH].
Qed.

(** Lines of an older prediction of the stream are dropped without effect. *)
Lemma fetches_drop predict g ls : g_at g = None →
  Forall (λ l, g_expected g = streamOf l ∧ g_prediction g ≠ predictionOf l) ls →
  fetches predict g ls [] g [].
Proof.
  intros Hat. induction ls as [|l ls IH]; intros Hl; [constructor|].
  apply Forall_cons in Hl as [[He Hp] Hl]. change [] with (option_list (None : option DynInst) ++ []) at 1.
  apply (fetches_step _ _ _ _ g None Next); [|by apply IH].
  unfold f2_step. rewrite (proj2 (Z.eqb_eq _ _) He), (proj2 (Z.eqb_neq _ _) Hp). cbn.
  by destruct g; cbn in *; subst.
Qed.

(** The numbers of the outputs are consecutive. *)
Lemma f2_step_number predict g l g1 o f : f2_step predict g l = Some (g1, o, f) →
  match o with
  | Some i => fetchSeqNum (id i) = g_seq g ∧ g_seq g1 = u64 (g_seq g + 1)
  | None => g_seq g1 = g_seq g
  end.
Proof.
  unfold f2_step, goOn. destruct (_ && _); [by intros [= <- <- _]|].
  destruct (start g l) as [[[p i] d]|]; [|done].
  destruct (line_isFault l); [by intros [= <- <- _]|].
  destruct (lineBytes l) as [bytes|]; [|done].
  destruct (instReady _); [|by intros [= <- <- _]].
  destruct (decode _ p) as [[si p'] d'].
  destruct (if isControl si || isSyscall si then _ else _); by intros [= <- <- _].
Qed.

Lemma fetches_numbers predict g ls os g' ls' : fetches predict g ls os g' ls' → 0 ≤ g_seq g < 2 ^ 64 →
  g_seq g' = u64 (g_seq g + Z.of_nat (length os))
  ∧ ∀ k o, os !! k = Some o → fetchSeqNum (id o) = u64 (g_seq g + Z.of_nat k).
Proof.
  induction 1 as [|g l ls g1 o f os g2 ls2 Hs _ IH]; intros Hr.
  { split; [|done]. cbn. by rewrite Z.add_0_r, u64_id. }
  pose proof (f2_step_number _ _ _ _ _ _ Hs) as Hn.
  destruct o as [i|]; [change (option_list (Some i) ++ os) with (i :: os)|].
  - destruct Hn as [Hi Hn]. rewrite Hn in IH. destruct (IH (u64_range _)) as [Hg Ho]. split.
    + rewrite Hg. unfold u64. rewrite Zplus_mod_idemp_l. f_equal. cbn [length]. lia.
    + intros [|k] o Hk; cbn in Hk; [simplify_eq; by rewrite Z.add_0_r, u64_id|].
      rewrite (Ho k o Hk). unfold u64. rewrite Zplus_mod_idemp_l. f_equal. lia.
  - rewrite Hn in IH. by apply IH.
Qed.
End spec.

(** ** One thread of Fetch2 *)

Section thread.
Context `{I : Isa} {DC : Decoder I} {DK : DecoderOk DC} (predict : Predictor).
Notation DynInst := (MyMinorDynInst I).
Notation Line := (ForwardLineData I).
Notation IB := (InputBuffer Line).
Implicit Types (l : Line) (ls : list Line) (b : IB) (info : Fetch2ThreadInfo) (d : Dec DC).

(** A line as Fetch1 makes it: a fault, or bytes that are a whole number of
    pieces. *)
Record line_ok l : Prop := {
  lo_bubble : isBubble l = false;
  lo_exec : execSeqNum (lineId l) = 0;
  lo_pc : is_Some (linePc l);
  lo_bytes : line_isFault l = false → ∃ bytes, lineBytes l = Some bytes
    ∧ Z.of_nat (length bytes) = lineWidth l ∧ 0 < lineWidth l < 2 ^ 31 ∧ (moreBytesSize | lineWidth l);
}.

(** A line on which a thread can start at the pc of the line. *)
Definition entry_ok l : Prop :=
  line_isFault l = true ∨
  ∃ p, linePc l = Some p ∧ 0 ≤ entry p l < lineWidth l ∧ (moreBytesSize | entry p l).

Definition offset_ok (i : Z) l : Prop :=
  0 ≤ i ∧ (moreBytesSize | i) ∧ (if line_isFault l then i = 0 else i < lineWidth l).

(** A line that can be the first one: the thread reads on or starts there. *)
Definition continues info l : Prop :=
  (f2_havePC info = true ∧ f2_lastStreamSeqNum info = streamOf l)
  ∨ (f2_inputIndex info = 0 ∧ entry_ok l).

Definition head_ok info ls : Prop :=
  match ls with
  | [] => f2_inputIndex info = 0
  | l :: _ => offset_ok (f2_inputIndex info) l ∧ continues info l
  end.

(** The lines waiting for a thread: of one stream, and none of them of an
    older prediction. *)
Record lines_ok info ls : Prop := {
  ls_ok : Forall line_ok ls;
  ls_pred : Forall (λ l, predictionOf l ≤ f2_predictionSeqNum info) ls;
  ls_stream : ∀ l l', l ∈ ls → l' ∈ ls → streamOf l = streamOf l';
  ls_fresh : Forall (λ l, mismatch info l = false) ls;
}.

Record thread_ok b info : Prop := {
  to_tail : tail_ok b;
  to_lines : lines_ok info (contents b);
  to_head : head_ok info (contents b);
  to_pc : f2_havePC info = true → is_Some (f2_pc info);
  to_seq : 1 ≤ f2_fetchSeqNum info < 2 ^ 64;
  to_prd : 0 ≤ f2_predictionSeqNum info < 2 ^ 64;
}.

(** The abstraction of a thread's record and decoder. *)
Definition abs info d : Fetching :=
  mkFetching
    (if f2_havePC info then
       match f2_pc info with
       | Some p => Some (p, f2_inputIndex info, f2_lastStreamSeqNum info)
       | None => None
       end
     else None)
    (f2_fetchSeqNum info) (f2_expectedStreamSeqNum info) (f2_predictionSeqNum info) d.

Lemma lines_ok_nil info : lines_ok info [].
Proof. split; [constructor|constructor|by intros ?? ?%not_elem_of_nil|constructor]. Qed.

Lemma lines_ok_same info info' ls : lines_ok info ls →
  f2_expectedStreamSeqNum info' = f2_expectedStreamSeqNum info →
  f2_predictionSeqNum info' = f2_predictionSeqNum info → lines_ok info' ls.
Proof.
  intros [H1 H2 H3 H4] He Hp. split; [done|by rewrite Hp|done|]. unfold mismatch in *. by rewrite He, Hp.
Qed.

Lemma lines_ok_tail info info' l ls : lines_ok info (l :: ls) →
  f2_expectedStreamSeqNum info' = f2_expectedStreamSeqNum info →
  f2_predictionSeqNum info' = f2_predictionSeqNum info → lines_ok info' ls.
Proof.
  intros [H1 H2 H3 H4] He Hp. apply (lines_ok_same info); [|done..].
  apply Forall_cons in H1 as [_ H1]. apply Forall_cons in H2 as [_ H2]. apply Forall_cons in H4 as [_ H4].
  split; try done. intros x y ??. apply H3; by right.
Qed.

(** [mismatch] is the test of the abstract machine. *)
Lemma mismatch_abs info d l :
  mismatch info l
  = (g_expected (abs info d) =? streamOf l) && negb (g_prediction (abs info d) =? predictionOf l).
Proof. done. Qed.

Lemma getInput_head b : f2_getInput b = Ok (head (contents b)).
Proof.
  unfold f2_getInput. rewrite IB_empty_contents. destruct (contents b) as [|l ls] eqn:Hc; [done|].
  cbn [negb]. by rewrite (IB_front_contents b l ls).
Qed.

Lemma freeLine_Ok l : line_ok l → ∃ l', freeLine l = Ok l'.
Proof.
  intros [Hb _ _ Hy]. unfold freeLine. rewrite Hb. destruct (line_isFault l); [by eexists|].
  destruct (Hy eq_refl) as (bytes & -> & _). by eexists.
Qed.

Lemma popInput_Ok b info l ls : contents b = l :: ls → tail_ok b → line_ok l →
  ∃ b', f2_popInput b info = Ok (b', f2_setIndex 0 info) ∧ contents b' = ls ∧ elementPtr b' = None.
Proof.
  intros Hc Ht Hl. unfold f2_popInput. rewrite IB_empty_contents, Hc. cbn [negb].
  rewrite (IB_front_contents b l ls) by done. cbn [rbind].
  destruct (freeLine_Ok l Hl) as (l' & ->). cbn [rbind].
  destruct (IB_pop_contents b l ls Hc Ht) as (b' & -> & ? & ?). cbn [rbind]. by exists b'.
Qed.

Lemma dumpAllInput_Ok b info : tail_ok b → Forall line_ok (contents b) →
  ∃ b', dumpAllInput b info = Ok (b', f2_setIndex 0 info) ∧ contents b' = []
    ∧ (b' = b ∨ elementPtr b' = None).
Proof.
  intros Ht Hl. unfold dumpAllInput.
  enough (∀ n b info, n = length (contents b) → tail_ok b → Forall line_ok (contents b) →
    ∃ b' i, dumpLoop n b info = Ok (b', i) ∧ f2_setIndex 0 i = f2_setIndex 0 info ∧ contents b' = []
      ∧ (b' = b ∨ elementPtr b' = None)) as H.
  { destruct (H _ b info eq_refl Ht Hl) as (b' & i & -> & Hi & Hc & Hb). cbn. rewrite Hi. by exists b'. }
  clear b info Ht Hl. induction n as [|n IH]; intros b info Hn Ht Hl; cbn [dumpLoop];
    rewrite IB_empty_contents; destruct (contents b) as [|l ls] eqn:Hc; try done.
  { exists b, info. split_and!; try done. by left. }
  apply Forall_cons in Hl as [Hl Hls].
  destruct (popInput_Ok b info l ls) as (b1 & -> & Hc1 & He1); [done..|]. cbn [rbind].
  destruct (IH b1 (f2_setIndex 0 info)) as (b' & i & -> & Hi & Hc' & Hb').
  { rewrite Hc1. cbn in Hn. lia. }
  { by apply tail_ok_none. }
  { by rewrite Hc1. }
  exists b', i. split_and!; try done. right. destruct Hb' as [->|]; done.
Qed.

(** The prediction that goes back to Fetch1 with an instruction. *)
Definition prediction_of (o : DynInst) : option (BranchData I) :=
  match predictedTarget o with
  | Some t => Some (newBranchData BranchPrediction (threadId (id o)) (streamSeqNum (id o))
                      (u64 (predictionSeqNum (id o) + 1)) t o)
  | None => None
  end.

(** The step to the next sequence number when [o] has been packed. *)
Definition bump (o : option DynInst) info : Fetch2ThreadInfo :=
  match o with Some _ => f2_setFetchSeq (u64 (f2_fetchSeqNum info + 1)) info | None => info end.

(** The work left in the lines. *)
Definition work ls (i : Z) : Z :=
  Z.of_nat (sum_list_with (λ l, S (Z.to_nat (lineWidth l))) ls) - i.

(** The start of a round that does not discard the line. *)
Lemma start_Ok b info d l ls : thread_ok b info → contents b = l :: ls → mismatch info l = false →
  ∃ info0 d0 p i,
    (if negb (mismatch info l)
        && (negb (f2_havePC info) || negb (f2_lastStreamSeqNum info =? streamSeqNum (lineId l)))
     then loadPC info l d else Ok (info, d)) = Ok (info0, d0)
    ∧ start (abs info d) l = Some (p, i, d0)
    ∧ info0 = mkF2Info (f2_inputIndex info0) (Some p) true (f2_lastStreamSeqNum info) (f2_fetchSeqNum info)
                (f2_expectedStreamSeqNum info) (f2_predictionSeqNum info) (f2_blocked info)
    ∧ (line_isFault l = false →
         f2_inputIndex info0 = i ∧ offset_ok i l ∧ f2_inputIndex info ≤ i).
Proof.
  intros Hth Hc Hm. rewrite Hm. cbn [negb andb]. destruct Hth as [_ Hls Hh Hpc _ _].
  rewrite Hc in Hls, Hh. destruct Hls as [Hok _ _ _]. apply Forall_cons in Hok as [[_ _ [p Hp] Hby] _].
  destruct Hh as [Hoff Hcont]. unfold start, abs. cbn [g_at g_dec].
  assert (Hnew : (f2_havePC info = true ∧ f2_lastStreamSeqNum info = streamOf l → False) →
    ∃ info0 d0, loadPC info l d = Ok (info0, d0)
      ∧ Some (p, entry p l, dec_reset d) = Some (p, entry p l, d0)
      ∧ info0 = mkF2Info (f2_inputIndex info0) (Some p) true (f2_lastStreamSeqNum info)
                  (f2_fetchSeqNum info) (f2_expectedStreamSeqNum info) (f2_predictionSeqNum info)
                  (f2_blocked info)
      ∧ (line_isFault l = false → f2_inputIndex info0 = entry p l ∧ offset_ok (entry p l) l
                                  ∧ f2_inputIndex info ≤ entry p l)).
  { intros Hn. unfold loadPC. rewrite Hp. cbn [derefPtr rbind]. eexists _, _. split; [done|].
    split; [done|]. split; [done|]. intros Hf. cbn. destruct Hcont as [?|[Hi0 [?|He]]];
      [by destruct Hn|congruence|].
    destruct He as (p' & Hp' & Hr & Hdiv). simplify_eq. fold (entry p l).
    destruct (Hby Hf) as (_ & _ & _ & Hw & _). rewrite u32_id by lia.
    split; [done|]. unfold offset_ok. rewrite Hf. split_and!; try (done || lia). }
  destruct (f2_havePC info) eqn:Hh; cbn [negb orb].
  - destruct (Hpc eq_refl) as [q Hq]. rewrite Hq. fold (streamOf l).
    destruct (Z.eqb_spec (f2_lastStreamSeqNum info) (streamOf l)) as [He|He]; cbn [negb].
    + exists info, d, q, (f2_inputIndex info). split; [done|]. split; [done|].
      split; [by destruct info; cbn in *; subst|]. intros _. split; [done|]. split; [done|]. lia.
    + rewrite Hp. destruct Hnew as (info0 & d0 & ? & ? & ? & ?); [by intros [_ ?]|].
      by exists info0, d0, p, (entry p l).
  - rewrite Hp. destruct Hnew as (info0 & d0 & ? & ? & ? & ?); [by intros [? _]|].
    by exists info0, d0, p, (entry p l).
Qed.
(** What a round does with the first line. *)
Record round_ok b info d l ls (o : option DynInst) (prd : option (BranchData I)) d1 b' info' (fin : bool)
  : Prop := {
  ro_thread : thread_ok b' info';
  ro_spec : fetches predict (abs info d) (l :: ls) (option_list o) (abs info' d1) (contents b');
  ro_ptr : b' = b ∨ elementPtr b' = None;
  ro_keep : fin = false → b' = b;
  ro_prd : prd = match o with Some o => prediction_of o | None => None end;
  ro_out : Forall (λ o, isBubble o = false) (option_list o);
  ro_seq : f2_fetchSeqNum info' = f2_fetchSeqNum info + Z.of_nat (length (option_list o));
  ro_num : f2_predictionSeqNum info'
           = f2_predictionSeqNum info + match prd with Some _ => 1 | None => 0 end;
  ro_work : work (contents b') (f2_inputIndex info')
            < work (l :: ls) (f2_inputIndex info) + Z.of_nat (length (option_list o));
}.

Lemma thread_ok_empty b info : contents b = [] → tail_ok b → f2_inputIndex info = 0 →
  f2_havePC info = false → 1 ≤ f2_fetchSeqNum info < 2 ^ 64 → 0 ≤ f2_predictionSeqNum info < 2 ^ 64 →
  thread_ok b info.
Proof.
  intros Hc Ht Hi Hh ? ?. split; try done; [by rewrite Hc; apply lines_ok_nil|by rewrite Hc|].
  by rewrite Hh.
Qed.

Lemma work_nonneg l ls i : offset_ok i l → 0 < work (l :: ls) i.
Proof. intros (? & _ & Hi). unfold work. cbn [sum_list_with]. destruct (line_isFault l); lia. Qed.

Lemma work_next l ls i : offset_ok i l → work ls 0 < work (l :: ls) i.
Proof. intros (? & _ & Hi). unfold work. cbn [sum_list_with]. destruct (line_isFault l); lia. Qed.

Lemma offset_zero l : line_ok l → offset_ok 0 l.
Proof.
  intros [_ _ _ Hb]. unfold offset_ok. split; [lia|]. split; [apply Z.divide_0_r|].
  destruct (line_isFault l); [done|]. destruct (Hb eq_refl) as (_ & _ & _ & ? & _). lia.
Qed.

(** The thread after the first line has been read to its end. *)
Lemma thread_ok_next b b' info info' l ls : thread_ok b info → contents b = l :: ls →
  contents b' = ls → elementPtr b' = None → f2_inputIndex info' = 0 →
  f2_expectedStreamSeqNum info' = f2_expectedStreamSeqNum info →
  f2_predictionSeqNum info' = f2_predictionSeqNum info →
  1 ≤ f2_fetchSeqNum info' < 2 ^ 64 → f2_havePC info' = true → is_Some (f2_pc info') →
  f2_lastStreamSeqNum info' = streamOf l → thread_ok b' info'.
Proof.
  intros [_ Hls _ _ _ Hprd] Hc Hc' He Hi Hx Hn Hs Hh Hpc Hst. rewrite Hc in Hls.
  split; [by apply tail_ok_none|rewrite Hc'; by eapply lines_ok_tail| |done|done|by rewrite Hn].
  rewrite Hc'. unfold head_ok. destruct ls as [|l2 ls]; [done|]. destruct Hls as [H1 _ H3 _].
  apply Forall_cons in H1 as [_ [H1 _]%Forall_cons]. rewrite Hi. split; [by apply offset_zero|].
  left. split; [done|]. rewrite Hst. apply H3; [by left|by right; left].
Qed.

Lemma thread_head b info l ls : thread_ok b info → contents b = l :: ls →
  line_ok l ∧ offset_ok (f2_inputIndex info) l.
Proof.
  intros [_ [Hl _ _ _] Hh _ _ _] Hc. rewrite Hc in Hl, Hh. apply Forall_cons in Hl as [Hl _].
  by destruct Hh.
Qed.

(** A line of an older prediction of the stream is dropped. *)
Lemma drop_mismatch info d l info' : mismatch info l = true → f2_havePC info' = false →
  f2_fetchSeqNum info' = f2_fetchSeqNum info →
  f2_expectedStreamSeqNum info' = f2_expectedStreamSeqNum info →
  f2_predictionSeqNum info' = f2_predictionSeqNum info →
  fetches predict (abs info d) [l] [] (abs info' d) [].
Proof.
  intros Hm Hh Hs He Hp. apply (fetches_one predict _ l [] _ None Next). unfold f2_step.
  rewrite <- (mismatch_abs info d l), Hm. unfold abs. by rewrite Hh, Hs, He, Hp.
Qed.

(** The rest of the buffer after a prediction or a fault. *)
Lemma dump_all b info i : thread_ok b info →
  ∃ b', dumpAllInput b i = Ok (b', f2_setIndex 0 i) ∧ contents b' = [] ∧ tail_ok b'
    ∧ (b' = b ∨ elementPtr b' = None).
Proof.
  intros [Ht [Hl _ _ _] _ _ _ _]. destruct (dumpAllInput_Ok b i Ht Hl) as (b' & ? & ? & Hb).
  exists b'. split_and!; try done. destruct Hb as [->|]; [done|by apply tail_ok_none].
Qed.

Lemma lineId_found l n p : line_ok l →
  set_prediction p (set_fetch n (lineId l))
  = mkInstId (threadId (lineId l)) (streamOf l) p (lineSeqNum (lineId l)) n 0.
Proof. intros Hl. unfold set_prediction, set_fetch. cbn. by rewrite (lo_exec l Hl). Qed.

Lemma lineInst_Ok si info l : line_ok l →
  lineInst si info l
  = Ok (mkDynInst si (mkInstId (threadId (lineId l)) (streamOf l) (f2_predictionSeqNum info)
                        (lineSeqNum (lineId l)) (f2_fetchSeqNum info) 0)
          None None lvptData0 false false None (ex (newDynInst si InstId0 None))).
Proof.
  intros Hl. unfold lineInst, with_id. cbn [newDynInst id staticInst pc fault lvptOut triedToPredict
    predictedTaken predictedTarget ex]. by rewrite lineId_found.
Qed.

Lemma fetchOne_fault b info d l ls : thread_ok b info → contents b = l :: ls → mismatch info l = false →
  line_isFault l = true → f2_fetchSeqNum info + 1 < 2 ^ 64 →
  ∃ info1 d1 o, fetchOne predict info l d = Ok (info1, d1, Some o, None)
    ∧ ∃ b' info', afterLine l (mismatch info l) None b (bump (Some o) info1) = Ok (b', info', true)
    ∧ round_ok b info d l ls (Some o) None d1 b' info' true
    ∧ f2_havePC info' = false ∧ f2_expectedStreamSeqNum info' = f2_expectedStreamSeqNum info
    ∧ f2_predictionSeqNum info' = f2_predictionSeqNum info.
Proof.
  intros Hth Hc Hm Hf Hseq. destruct (thread_head b info l ls Hth Hc) as [Hl Hoff].
  destruct (start_Ok b info d l ls Hth Hc Hm) as (info0 & d0 & p & i & Hst & Hsp & Hi0 & _).
  unfold fetchOne. rewrite Hst. cbn [rbind]. rewrite Hm, Hf.
  unfold faultInst. rewrite lineInst_Ok by done. cbn [rbind]. eexists _, _, _. split; [done|].
  unfold afterLine. rewrite Hf, orb_true_r.
  match goal with |- context [dumpAllInput b ?i] => destruct (dump_all b info i Hth) as (b' & -> & Hc' & Ht' & Hb') end.
  cbn [rbind]. eexists _, _. split; [done|].
  rewrite Hi0. pose proof (to_seq b info Hth). pose proof (to_prd b info Hth).
  split; [split; try done|done].
  - apply thread_ok_empty; try done. cbn. rewrite u64_id; lia.
  - rewrite Hc'. change [] with (rest Flush l ls). apply fetches_one. unfold f2_step.
    rewrite <- (mismatch_abs info d l), Hm, Hsp, Hf. by destruct info0; simplify_eq/=.
  - repeat constructor. apply Z.eqb_neq. cbn. lia.
  - cbn. rewrite u64_id; lia.
  - cbn. lia.
  - rewrite Hc'. pose proof (work_nonneg l ls _ Hoff). change (0 < work (l :: ls) (f2_inputIndex info) + 1). lia.
Qed.
Lemma lineChunk_Ok info l bytes i : line_ok l → lineBytes l = Some bytes → line_isFault l = false →
  f2_inputIndex info = i → offset_ok i l →
  lineChunk info l = Ok (take (Z.to_nat moreBytesSize) (drop (Z.to_nat i) bytes))
  ∧ i + moreBytesSize ≤ lineWidth l.
Proof.
  intros [_ _ _ Hb] Hby Hf <- (Hi & Hdiv & Hlt). rewrite Hf in Hlt.
  destruct (Hb Hf) as (bytes' & Hby' & Hlen & Hw & Hdw). simplify_eq.
  assert (f2_inputIndex info + moreBytesSize ≤ lineWidth l) as Hle.
  { pose proof dk_size. destruct Hdiv as [x Hx], Hdw as [y Hy].
    assert (x < y) by nia. nia. }
  unfold lineChunk. rewrite Hby. cbn [derefPtr rbind]. rewrite (proj2 (Z.leb_le _ _)) by lia. done.
Qed.

(** The prediction for an instruction. *)
Lemma predictBranch_Ok info si p l lv : let seq := f2_fetchSeqNum info in
  let inst t g := mkDynInst si (mkInstId (threadId (lineId l)) (streamOf l) (f2_predictionSeqNum info)
       (lineSeqNum (lineId l)) seq 0) (Some p) None lv t
       (match g with Some _ => true | None => false end) g (ex (newDynInst si InstId0 None)) in
  let tried := isControl si || isSyscall si in
  let guess := if tried then predict (threadId (lineId l)) seq si p else None in
  predictBranch predict (inst false None) info
  = Ok (inst tried guess,
        match guess with
        | Some _ => f2_setPrediction (streamOf l) (u64 (f2_predictionSeqNum info + 1)) info
        | None => info
        end, prediction_of (inst tried guess)).
Proof.
  cbn zeta. unfold predictBranch. cbn [predictedTaken negb assert_ rbind staticInst pc derefPtr id threadId
    fetchSeqNum]. destruct (isControl si || isSyscall si); [|done]. by destruct (predict _ _ si p).
Qed.

(** The thread after a round that leaves the first line where it is or at its end. *)
Lemma goOn_round b info d l ls info0 p i (o : option DynInst) seq d1 :
  thread_ok b info → contents b = l :: ls → line_isFault l = false →
  info0 = mkF2Info i (Some p) true (streamOf l) seq
            (f2_expectedStreamSeqNum info) (f2_predictionSeqNum info) (f2_blocked info) →
  0 ≤ i ≤ lineWidth l → (moreBytesSize | i) → 1 ≤ seq < 2 ^ 64 →
  seq = f2_fetchSeqNum info + Z.of_nat (length (option_list o)) →
  f2_inputIndex info < i + Z.of_nat (length (option_list o)) →
  f2_step predict (abs info d) l = Some (goOn (abs info d) l seq p i d1 o) →
  Forall (λ o, isBubble o = false) (option_list o) →
  match o with Some o => prediction_of o = None | None => True end →
  ∃ b' info' fin,
    (if f2_inputIndex info0 =? lineWidth l then
       ' (b, info) ← f2_popInput b info0; Ok (b, info, true)
     else Ok (b, info0, false)) = Ok (b', info', fin)
    ∧ round_ok b info d l ls o None d1 b' info' fin.
Proof.
  intros Hth Hc Hf -> Hi Hdiv Hs Hseq Hadv Hstep Hnb Hpo. cbn [f2_inputIndex].
  destruct (thread_head b info l ls Hth Hc) as [Hl Hoff]. unfold goOn in Hstep.
  destruct (Z.eqb_spec i (lineWidth l)) as [Hw|Hw].
  - destruct (popInput_Ok b (mkF2Info i (Some p) true (streamOf l) seq (f2_expectedStreamSeqNum info)
      (f2_predictionSeqNum info) (f2_blocked info)) l ls) as (b' & -> & Hc' & He'); [done|apply Hth|done|].
    cbn [rbind]. eexists _, _, _. split; [done|]. split; try done.
    + by eapply (thread_ok_next b b' info).
    + rewrite Hc'. change ls with (rest Next l ls). by apply fetches_one.
    + by right.
    + by destruct o.
    + cbn. lia.
    + rewrite Hc'. cbn. pose proof (work_next l ls _ Hoff). lia.
  - eexists _, _, _. split; [done|]. split; try done.
    + destruct Hth as [Ht Hls _ _ _ Hprd]. split; try done; [by eapply lines_ok_same|]. rewrite Hc. cbn.
      split; [|by left]. unfold offset_ok. rewrite Hf. split_and!; try done; lia.
    + rewrite Hc. change (l :: ls) with (rest Keep l ls) at 2. by apply fetches_one.
    + by left.
    + by destruct o.
    + cbn. lia.
    + rewrite Hc. unfold work. cbn [f2_inputIndex]. lia.
Qed.
(** A predicted branch drops the lines behind it: they belong to the older
    prediction. *)
Lemma predicted_round b info d l ls info1 d1 (o : DynInst) t : thread_ok b info → contents b = l :: ls →
  f2_predictionSeqNum info + 1 < 2 ^ 64 → predictedTarget o = Some t → isBubble o = false →
  f2_fetchSeqNum info1 = f2_fetchSeqNum info + 1 → f2_fetchSeqNum info + 1 < 2 ^ 64 →
  f2_expectedStreamSeqNum info1 = streamOf l →
  f2_predictionSeqNum info1 = f2_predictionSeqNum info + 1 →
  f2_step predict (abs info d) l
  = Some (mkFetching None (f2_fetchSeqNum info1) (f2_expectedStreamSeqNum info1)
            (f2_predictionSeqNum info1) d1, Some o, Next) →
  ∃ b' info', afterLine l (mismatch info l) (prediction_of o) b info1 = Ok (b', info', true)
    ∧ round_ok b info d l ls (Some o) (prediction_of o) d1 b' info' true.
Proof.
  intros Hth Hc Hprd Ht Hnb Hs1 Hs2 He Hp Hstep.
  destruct (thread_head b info l ls Hth Hc) as [Hl Hoff].
  unfold afterLine. unfold prediction_of at 1. rewrite Ht. cbn [orb].
  match goal with |- context [dumpAllInput b ?i] =>
    destruct (dump_all b info i Hth) as (b' & -> & Hc' & Ht' & Hb') end.
  cbn [rbind]. eexists _, _. split; [done|].
  pose proof (to_seq b info Hth). pose proof (to_prd b info Hth). split; try done.
  - apply thread_ok_empty; try done; cbn; lia.
  - rewrite Hc'. rewrite <- (app_nil_r (option_list (Some o))). eapply fetches_step; [exact Hstep|].
    apply fetches_drop; [done|]. cbn [rest].
    destruct Hth as [_ [_ Hlp Hst _] _ _ _ _]. rewrite Hc in Hlp, Hst. apply Forall_cons in Hlp as [_ Hlp].
    rewrite Forall_forall in Hlp |- *. intros x Hx. specialize (Hlp x Hx). cbn in Hlp.
    split; [etrans; [exact He|apply Hst; [by left|by right]]|].
    change (f2_predictionSeqNum info1 ≠ predictionOf x). lia.
  - by repeat constructor.
  - cbn. unfold prediction_of. rewrite Ht. lia.
  - rewrite Hc'. pose proof (work_nonneg l ls _ Hoff). change (0 < work (l :: ls) (f2_inputIndex info) + 1). lia.
Qed.

Lemma fetchOne_extract b info d l ls : thread_ok b info → contents b = l :: ls → mismatch info l = false →
  line_isFault l = false → f2_fetchSeqNum info + 1 < 2 ^ 64 → f2_predictionSeqNum info + 1 < 2 ^ 64 →
  ∃ info1 d1 o prd, fetchOne predict info l d = Ok (info1, d1, o, prd)
    ∧ ∃ b' info' fin, afterLine l (mismatch info l) prd b (bump o info1) = Ok (b', info', fin)
    ∧ round_ok b info d l ls o prd d1 b' info' fin.
Proof.
  intros Hth Hc Hm Hf Hseq Hprd. destruct (thread_head b info l ls Hth Hc) as [Hl _].
  destruct (start_Ok b info d l ls Hth Hc Hm) as (info0 & d0 & p & i & Hst & Hsp & Hi0 & Hi).
  destruct (Hi Hf) as (Hidx & Hoff & Hle). clear Hi.
  destruct (lo_bytes l Hl Hf) as (bytes & Hby & _ & Hw & _).
  destruct (lineChunk_Ok info0 l bytes i Hl Hby Hf Hidx Hoff) as [Hchunk Hmore].
  pose proof (to_seq b info Hth) as Hs. pose proof (to_prd b info Hth) as Hpr. pose proof dk_size as Hsz.
  pose proof Hoff as (Hge & Hdiv & Hlt). rewrite Hf in Hlt.
  assert (Hstep : f2_step predict (abs info d) l = f2_step predict (abs info d) l) by done.
  revert Hstep. unfold f2_step at 2. rewrite <- (mismatch_abs info d l), Hm, Hsp, Hf, Hby.
  unfold fetchOne. rewrite Hst. cbn [rbind]. rewrite Hm, Hf. unfold extract. rewrite Hchunk, Hi0.
  cbn [rbind f2_pc derefPtr f2_inputIndex]. rewrite Hidx. fold (offer l bytes p i d0).
  set (d1 := offer l bytes p i d0).
  destruct (instReady d1) eqn:Hr.
  - pose proof (dk_decode d1 p Hr) as Hnn. destruct (decode d1 p) as [[si p'] d2]. cbn [fst] in Hnn.
    unfold derefInst. rewrite Hnn. cbn [rbind]. rewrite lineInst_Ok by done. cbn [rbind].
    match goal with |- context [f2_setPC (Some ?q) ?i] => set (info2 := f2_setPC (Some q) i) end.
    pose proof (predictBranch_Ok info2 si p' l (lineLvptOut l)) as Hpb. cbn zeta in Hpb.
    unfold with_pc, with_lvptOut. cbn [staticInst id fault triedToPredict predictedTaken predictedTarget ex pc lvptOut].
    change (f2_fetchSeqNum info2) with (f2_fetchSeqNum info) in Hpb.
    change (f2_predictionSeqNum info2) with (f2_predictionSeqNum info) in Hpb.
    cbn [f2_predictionSeqNum f2_fetchSeqNum]. rewrite Hpb. clear Hpb. cbn [rbind].
    fold (found (abs info d) l si p' None (lineLvptOut l) (isControl si || isSyscall si)
      (if isControl si || isSyscall si then predict (threadId (lineId l)) (f2_fetchSeqNum info) si p' else None)).
    cbn [g_seq abs].
    set (guess := if isControl si || isSyscall si then _ else None). clearbody guess.
    set (inst := found (abs info d) l si p' None (lineLvptOut l) (isControl si || isSyscall si) guess).
    destruct guess as [t|]; intros Hstep.
    + eexists _, d2, (Some inst), (prediction_of inst). split; [done|].
      set (info1 := bump (Some inst) _).
      destruct (predicted_round b info d l ls info1 d2 inst t Hth Hc Hprd eq_refl)
        as (b' & info' & Ha & Hro).
      * apply Z.eqb_neq. cbn. lia.
      * subst info1. destruct (needMoreBytes d2); cbn; rewrite u64_id; lia.
      * lia.
      * subst info1. by destruct (needMoreBytes d2).
      * subst info1. destruct (needMoreBytes d2); cbn; rewrite u64_id; lia.
      * rewrite Hstep. subst info1. by destruct (needMoreBytes d2).
      * exists b', info', true. split; [exact Ha|exact Hro].
    + eexists _, d2, (Some inst), None. split; [done|]. unfold afterLine. rewrite Hf. cbn [orb].
      set (info1 := f2_setLastStream _ _).
      eapply (goOn_round b info d l ls info1 _ (if needMoreBytes d2 then i + moreBytesSize else i)
        (Some inst) (u64 (f2_fetchSeqNum info + 1)) d2 Hth Hc Hf).
      * subst info1. destruct (needMoreBytes d2); [|done]. cbn. rewrite u32_id by lia. done.
      * destruct (needMoreBytes d2); lia.
      * destruct (needMoreBytes d2); [|done].
        apply Z.divide_add_r; [done|apply Z.divide_refl].
      * rewrite u64_id; lia.
      * rewrite u64_id by lia. cbn. lia.
      * cbn. destruct (needMoreBytes d2); lia.
      * exact Hstep.
      * repeat constructor. apply Z.eqb_neq. cbn. lia.
      * done.
  - intros Hstep. assert (needMoreBytes d1 = true) as Hn.
    { unfold d1, offer in Hr |- *. destruct (instReady (dec_copy _ _)) eqn:E; [congruence|].
      by apply dk_progress. }
    cbn [rbind]. rewrite Hn. eexists _, d1, None, None. split; [done|]. unfold afterLine. rewrite Hf. cbn [orb bump].
    set (info1 := f2_setLastStream _ _).
    eapply (goOn_round b info d l ls info1 _ (i + moreBytesSize) None (f2_fetchSeqNum info) d1 Hth Hc Hf).
    + subst info1. cbn. rewrite u32_id by lia. done.
    + lia.
    + apply Z.divide_add_r; [done|apply Z.divide_refl].
    + lia.
    + cbn. lia.
    + cbn. lia.
    + exact Hstep.
    + constructor.
    + done.
Qed.
Lemma round_Ok b info d l ls : thread_ok b info → contents b = l :: ls →
  f2_fetchSeqNum info + 1 < 2 ^ 64 → f2_predictionSeqNum info + 1 < 2 ^ 64 →
  ∃ info1 d1 o prd, fetchOne predict info l d = Ok (info1, d1, o, prd)
    ∧ ∃ b' info' fin, afterLine l (mismatch info l) prd b (bump o info1) = Ok (b', info', fin)
    ∧ round_ok b info d l ls o prd d1 b' info' fin.
Proof.
  intros Hth Hc Hs Hp. assert (mismatch info l = false) as Hm.
  { pose proof (ls_fresh _ _ (to_lines b info Hth)) as H. rewrite Hc in H. by apply Forall_cons in H as [? _]. }
  destruct (line_isFault l) eqn:Hf; [|by apply (fetchOne_extract b info d l ls)].
  destruct (fetchOne_fault b info d l ls) as (info1 & d1 & o & ? & b' & info' & ? & ? & _); [done..|].
  exists info1, d1, (Some o), None. split; [done|]. by exists b', info', true.
Qed.
(** ** The packing loop *)

Section loop.
Context (W : Z) (HW : 0 ≤ W < MAX_FORWARD_INSTS) (more : bool) (out0 : ForwardInstData I).

Lemma packInst_Ok info (o : option DynInst) (outs : list DynInst) : Z.of_nat (length outs) < W →
  packInst W o info (out_is W out0 outs) (Z.of_nat (length outs))
  = Ok (bump o info, out_is W out0 (outs ++ option_list o),
        Z.of_nat (length (outs ++ option_list o))).
Proof.
  intros Hlt. unfold packInst. destruct o as [o|]; [|cbn; by rewrite !app_nil_r].
  pose proof (put_out W HW out0 outs o Hlt) as Hput. apply bind_Ok in Hput as (out1 & -> & Hput).
  cbn [rbind]. rewrite Hput. cbn [rbind option_list bump]. rewrite length_app. cbn [length].
  rewrite u32_id by (unfold MAX_FORWARD_INSTS in HW; lia).
  by replace (Z.of_nat (length outs) + 1) with (Z.of_nat (length outs + 1)) by lia.
Qed.

(** The prediction of a bundle is the one of its last instruction. *)
Definition last_prediction (outs : list DynInst) : option (BranchData I) :=
  match last outs with Some o => prediction_of o | None => None end.

Record loop_ok b info d (outs : list DynInst) (prd : option (BranchData I)) b' info' d' : Prop := {
  lp_thread : thread_ok b' info';
  lp_spec : fetches predict (abs info d) (contents b) outs (abs info' d') (contents b');
  lp_ptr : b' = b ∨ elementPtr b' = None;
  lp_prd : prd = last_prediction outs;
  lp_out : Forall (λ o, isBubble o = false) outs;
  lp_seq : f2_fetchSeqNum info' = f2_fetchSeqNum info + Z.of_nat (length outs);
  lp_num : f2_predictionSeqNum info ≤ f2_predictionSeqNum info' ≤ f2_predictionSeqNum info + 1;
}.

Lemma loop_ok_refl b info d : thread_ok b info → loop_ok b info d [] None b info d.
Proof.
  intros Hth. split; [done|constructor|by left|done|constructor| |]; cbn; lia.
Qed.

(** A round without a prediction in front of the rest of the loop. *)
Lemma loop_ok_round b info d l ls o d1 b1 info1 fin outs prd b' info' d' : contents b = l :: ls →
  round_ok b info d l ls o None d1 b1 info1 fin → loop_ok b1 info1 d1 outs prd b' info' d' →
  loop_ok b info d (option_list o ++ outs) prd b' info' d'.
Proof.
  intros Hc [_ Hsp1 Hp1 _ Hprd Hnb1 Hs1 Hn1 _] [Hth Hsp2 Hp2 Hprd2 Hnb2 Hs2 Hn2]. split; try done.
  - rewrite Hc. by eapply fetches_trans.
  - destruct Hp2 as [->|]; [done|by right].
  - rewrite Hprd2. unfold last_prediction. destruct outs as [|x outs].
    + rewrite app_nil_r. by destruct o.
    + rewrite last_app. by destruct (last (x :: outs)) eqn:E; [|apply last_None in E].
  - by apply Forall_app.
  - rewrite length_app. lia.
  - lia.
Qed.

Lemma f2_loop_None fuel b info d out n prd :
  f2_loop fuel predict W more b info d None out n prd = Ok (b, info, d, out, prd).
Proof. by destruct fuel. Qed.

Lemma f2_loop_predicted fuel b info d line out n x :
  f2_loop fuel predict W more b info d line out n (Some x) = Ok (b, info, d, out, Some x).
Proof. destruct fuel; cbn; by destruct line. Qed.

Lemma head_continues b info l ls : thread_ok b info → contents b = l :: ls →
  line_isFault l || (f2_inputIndex info <? lineWidth l) = true.
Proof.
  intros Hth Hc. destruct (thread_head b info l ls Hth Hc) as [_ (_ & _ & Hi)].
  destruct (line_isFault l); [done|]. by apply Z.ltb_lt.
Qed.

Lemma f2_loop_Ok fuel : ∀ b info d line outs,
  thread_ok b info → line = None ∨ line = head (contents b) → Z.of_nat (length outs) ≤ W →
  f2_fetchSeqNum info + (W - Z.of_nat (length outs)) < 2 ^ 64 → f2_predictionSeqNum info + 1 < 2 ^ 64 →
  W - Z.of_nat (length outs) + work (contents b) (f2_inputIndex info) ≤ Z.of_nat fuel →
  ∃ b' info' d' outs' prd,
    f2_loop fuel predict W more b info d line (out_is W out0 outs) (Z.of_nat (length outs)) None
      = Ok (b', info', d', out_is W out0 (outs ++ outs'), prd)
    ∧ loop_ok b info d outs' prd b' info' d' ∧ Z.of_nat (length (outs ++ outs')) ≤ W.
Proof.
  induction fuel as [|fuel IH]; intros b info d line outs Hth Hin HleW Hseq Hprd Hfuel.
  all: assert (Hstop : ∃ b' info' d' outs' prd,
      Ok (b, info, d, out_is W out0 outs, None) = Ok (b', info', d', out_is W out0 (outs ++ outs'), prd)
      ∧ loop_ok b info d outs' prd b' info' d' ∧ Z.of_nat (length (outs ++ outs')) ≤ W)
    by (exists b, info, d, [], None; rewrite app_nil_r; split_and!; [done|by apply loop_ok_refl|done]).
  all: destruct line as [l|]; [|by rewrite f2_loop_None].
  all: destruct Hin as [Hin|Hin]; [done|]; destruct (contents b) as [|l' ls] eqn:Hc; [done|];
    injection Hin as <-; cbn [f2_loop]; rewrite (head_continues b info l ls Hth Hc); cbn [andb].
  all: destruct (Z.ltb_spec (Z.of_nat (length outs)) W) as [Hlt|Hge]; [|exact Hstop].
  { pose proof (work_nonneg l ls _ (proj2 (thread_head b info l ls Hth Hc))). lia. }
  destruct (round_Ok b info d l ls Hth Hc) as (info1 & d1 & o & prd & -> & b1 & info2 & fin & Ha & Hro);
    [lia|lia|]. cbn [rbind]. rewrite packInst_Ok by done. cbn [rbind]. rewrite Ha. cbn [rbind].
  assert (Z.of_nat (length (outs ++ option_list o)) ≤ W) as HleW1.
  { rewrite length_app. destruct o; cbn; lia. }
  assert (∃ line', (if fin then if more then f2_getInput b1 else Ok None else Ok (Some l)) = Ok line'
            ∧ (line' = None ∨ line' = head (contents b1))) as (line' & -> & Hline').
  { destruct fin; [|eexists; split; [done|right; by rewrite (ro_keep _ _ _ _ _ _ _ _ _ _ _ Hro), Hc]].
    destruct more; [rewrite getInput_head|]; eexists; (split; [done|]); auto. }
  cbn [rbind]. destruct prd as [x|].
  - rewrite f2_loop_predicted. eexists _, _, _, _, _. split; [done|]. split; [|done].
    destruct Hro as [? ? ? _ Hp ? ? Hn _]. split; try done; [by rewrite Hc| |lia].
    destruct o; [done|]. done.
  - pose proof Hro as [Hth1 _ _ _ _ _ Hs1 Hn1 Hw1].
    destruct (IH b1 info2 d1 line' (outs ++ option_list o))
      as (b' & info' & d' & outs' & prd & -> & Hlo & HW'); [done..| | | |].
    { rewrite length_app. lia. }
    { lia. }
    { rewrite length_app. lia. }
    rewrite <- app_assoc in *. exists b', info', d', (option_list o ++ outs'), prd.
    split; [done|]. split; [|done]. by eapply loop_ok_round.
Qed.
End loop.
(** ** Arriving and discarded lines *)

(** What Fetch1 may send to a thread: a line of an older prediction only when
    nothing is waiting, a line of the same stream behind others, and a line on
    which the thread can go on when it is the first one. *)
Definition arrival_ok b info l : Prop :=
  predictionOf l ≤ f2_predictionSeqNum info ∧
  match contents b with
  | [] => mismatch info l = true ∨ (f2_havePC info = true ∧ f2_lastStreamSeqNum info = streamOf l)
          ∨ entry_ok l
  | l' :: _ => mismatch info l = false ∧ streamOf l = streamOf l'
  end.

(** A thread whose only line may be of an older prediction. *)
Definition waiting b info : Prop :=
  thread_ok b info ∨
  (∃ l, contents b = [l] ∧ mismatch info l = true ∧ line_ok l ∧ tail_ok b
        ∧ 1 ≤ f2_fetchSeqNum info < 2 ^ 64 ∧ 0 ≤ f2_predictionSeqNum info < 2 ^ 64).

Lemma waiting_lines b info : waiting b info → tail_ok b ∧ Forall line_ok (contents b).
Proof.
  intros [[? [? _ _ _] _ _ _ _]|(l & -> & _ & ? & ? & _)]; [done|]. split; [done|by constructor].
Qed.

Lemma f2_setTail_thread b info l : thread_ok b info → elementPtr b = None → line_ok l →
  ∃ b', setTail b l = Ok b' ∧ tail_ok b' ∧ contents b' = contents b ++ [l]
    ∧ (arrival_ok b info l → waiting b' info).
Proof.
  intros Hth He Hl. destruct (setTail_contents b l He (lo_bubble l Hl)) as (b' & Hset & Ht & Hc).
  exists b'. split_and!; try done. intros [Hn Ha]. pose proof Hth as [_ [H1 H2 H3 H4] Hh Hpc Hs Hp].
  unfold waiting. destruct (contents b) as [|l' ls] eqn:Hcb.
  - destruct (mismatch info l) eqn:Hm; [right; by exists l|left]. destruct Ha as [?|Ha]; [done|].
    split; try done; rewrite Hc.
    + split; try (by constructor). intros x y ->%list_elem_of_singleton ->%list_elem_of_singleton. done.
    + cbn. cbn in Hh. rewrite Hh. split; [by apply offset_zero|]. destruct Ha; [by left|by right].
  - destruct Ha as [Hm Hst]. left. split; try done; rewrite Hc; [|exact Hh].
    split; [by apply Forall_app; split; [|constructor]|by apply Forall_app; split; [|constructor]|
      |by apply Forall_app; split; [|constructor]].
    assert (∀ x, x ∈ (l' :: ls) ++ [l] → streamOf x = streamOf l') as Hall.
    { intros x [Hx|Hx%list_elem_of_singleton]%elem_of_app; [by apply H3; [|left]|by subst]. }
    intros x y Hx Hy. by rewrite (Hall x Hx), (Hall y Hy).
Qed.

(** the loss of the pc in a change of stream *)
Definition forget (g : Fetching) : Fetching :=
  mkFetching None (g_seq g) (g_expected g) (g_prediction g) (g_dec g).

Lemma flush_thread b info d : tail_ok b → Forall line_ok (contents b) →
  1 ≤ f2_fetchSeqNum info < 2 ^ 64 → 0 ≤ f2_predictionSeqNum info < 2 ^ 64 →
  ∃ b', dumpAllInput b info = Ok (b', f2_setIndex 0 info) ∧ contents b' = []
    ∧ (b' = b ∨ elementPtr b' = None)
    ∧ thread_ok b' (f2_setHavePC false (f2_setIndex 0 info))
    ∧ abs (f2_setHavePC false (f2_setIndex 0 info)) d = forget (abs info d).
Proof.
  intros Ht Hl Hs Hp. destruct (dumpAllInput_Ok b info Ht Hl) as (b' & ? & Hc & Hb).
  exists b'. split_and!; try done. apply thread_ok_empty; try done.
  destruct Hb as [->|]; [done|by apply tail_ok_none].
Qed.

Lemma thread_ok_blocked b info x : thread_ok b info → thread_ok b (f2_setBlocked x info).
Proof. intros [? ? ? ? ? ?]. split; try done. by eapply lines_ok_same. Qed.

Lemma discardThread_Ok more blocked b info d : waiting b info →
  ∃ b' info', discardThread more blocked b info = Ok (b', info') ∧ thread_ok b' info'
    ∧ fetches predict (abs info d) (contents b) [] (abs info' d) (contents b')
    ∧ (b' = b ∨ elementPtr b' = None) ∧ f2_blocked info' = blocked
    ∧ f2_fetchSeqNum info' = f2_fetchSeqNum info ∧ f2_predictionSeqNum info' = f2_predictionSeqNum info.
Proof.
  intros Hw. unfold discardThread. rewrite getInput_head. cbn [rbind].
  destruct Hw as [Hth|(l & Hc & Hm & Hl & Ht & Hs & Hp)].
  - exists b, (f2_setBlocked blocked info). split_and!; try done; [|by apply thread_ok_blocked|constructor|by left].
    destruct (contents b) as [|l ls] eqn:Hc; [done|]. cbn [head length discardLoop].
    destruct (to_lines b info Hth) as [_ _ _ Hf]. rewrite Hc in Hf. apply Forall_cons in Hf as [Hf _].
    change (mismatch (f2_setBlocked blocked info) l) with (mismatch info l). by rewrite Hf.
  - rewrite Hc. cbn [head length discardLoop].
    change (mismatch (f2_setBlocked blocked info) l) with (mismatch info l). rewrite Hm.
    destruct (popInput_Ok b (f2_setBlocked blocked info) l [] Hc Ht Hl) as (b' & -> & Hc' & He').
    cbn [rbind]. rewrite getInput_head, Hc'. cbn [head].
    replace (if more then Ok None else Ok None) with (Ok (None : option Line)) by by destruct more.
    cbn [rbind discardLoop]. eexists _, _. split; [done|]. split_and!; try done.
    + apply thread_ok_empty; try done. by apply tail_ok_none.
    + rewrite Hc'. by apply drop_mismatch.
    + by right.
Qed.

Lemma f2_pushTail_thread b info : thread_ok b info →
  elementPtr (pushTail b) = None ∧ contents (pushTail b) = contents b ∧ thread_ok (pushTail b) info.
Proof.
  intros [Ht Hl Hh ? ? ?]. assert (contents (pushTail b) = contents b) as Hc.
  { apply pushTail_contents; [done|]. intros x Hx. destruct Hl as [Hl _ _ _]. unfold contents in Hl.
    rewrite Hx in Hl. apply Forall_cons in Hl as [[? _ _ _] _]. done. }
  split; [done|]. split; [done|]. split; try done; try by rewrite Hc. by apply tail_ok_none.
Qed.
End thread.
