(* ===== verification/Fetch2Stage.v ===== *)
(** * Fetch2 over a history of cycles (src/cpu/myminor/fetch2.cc)

    [evaluate()] of Fetch2 with all its threads, on top of the lemmas on one
    thread of [Fetch2Spec]: every history of cycles is, for each thread, a run
    of the abstract machine [f2_step]. *)
From S2P Require Import Prelude TimeBuf Buffers Activity LVPT PipeData Cpu Repack Fetch2 Fetch2Spec.

Section stage.
Context `{I : Isa} {DC : Decoder I} {DK : DecoderOk DC} (predict : Predictor).
Context (n : Z) (Hn : 0 < n).
Notation DynInst := (MyMinorDynInst I).
Notation Line := (ForwardLineData I).
Notation IB := (InputBuffer Line).
Implicit Types (s : Fetch2) (io : Fetch2Io) (bufs : list IB) (infos : list Fetch2ThreadInfo)
  (decs : list (Dec DC)) (b : IB) (i : Fetch2ThreadInfo) (d : Dec DC).

(** The line that a cycle brings for thread [t]. *)
Definition line_for io (t : Z) : list Line :=
  if negb (isBubble (f2_inp io)) && (threadId (lineId (f2_inp io)) =? t) then [f2_inp io] else [].

(** Does Execute change the stream of thread [t] in this cycle? *)
Definition flushed io (t : Z) : bool :=
  isStreamChange (reason (f2_branchInp io)) && (brThreadId (f2_branchInp io) =? t).

(** The beginning of a cycle for the abstract machine. *)
Definition cycle_start (g : Fetching) (q : list Line) io (t : Z) : Fetching * list Line :=
  if flushed io t then (forget g, []) else (g, q ++ line_for io t).

(** The invariant of the stage in cycle [k]; a cycle takes at most 16
    sequence numbers and one prediction number of a thread. *)
Record numbers_ok (k : Z) i : Prop := {
  no_seq : f2_fetchSeqNum i ≤ 1 + 16 * k;
  no_prd : f2_predictionSeqNum i ≤ 1 + k;
}.

Record threads_ok (k : Z) (good : IB → Fetch2ThreadInfo → Prop) bufs infos decs : Prop := {
  th_bufs : Z.of_nat (length bufs) = n;
  th_infos : Z.of_nat (length infos) = n;
  th_decs : Z.of_nat (length decs) = n;
  th_thr : ∀ t b i, vget bufs t = Ok b → vget infos t = Ok i → good b i ∧ numbers_ok k i;
}.

Record stage_ok (k : Z) s : Prop := {
  st_width : 0 ≤ f2_outputWidth s < MAX_FORWARD_INSTS;
  st_ptr : ∀ t b, vget (f2_inputBuffer s) t = Ok b → elementPtr b = None;
  st_thr : threads_ok k thread_ok (f2_inputBuffer s) (f2_fetchInfo s) (f2_decoders s);
}.

(** What the rest of the CPU guarantees in a cycle. *)
Record f2_io_ok (stages L : Z) s io : Prop := {
  fi_inp : isBubble (f2_inp io) = false →
    0 ≤ threadId (lineId (f2_inp io)) < n ∧ line_ok (f2_inp io);
  fi_arrival : isBubble (f2_inp io) = false → flushed io (threadId (lineId (f2_inp io))) = false →
    ∀ b i, vget (f2_inputBuffer s) (threadId (lineId (f2_inp io))) = Ok b →
      vget (f2_fetchInfo s) (threadId (lineId (f2_inp io))) = Ok i → arrival_ok b i (f2_inp io);
  fi_branch : isStreamChange (reason (f2_branchInp io)) = true → 0 ≤ brThreadId (f2_branchInp io) < n;
  fi_out : isBubble (f2_out io) = true;
  fi_next : Z.of_nat (length (f2_nextStageReserve io)) = n;
  fi_ar : ar_wf stages L (f2_activityRecorder io);
  fi_stages : Fetch2StageId < stages < 2 ^ 29;
  fi_lat : 0 ≤ L < 2 ^ 29;
}.

Lemma f2_threads_get k good bufs infos decs t : threads_ok k good bufs infos decs → 0 ≤ t < n →
  ∃ b i d, vget bufs t = Ok b ∧ vget infos t = Ok i ∧ vget decs t = Ok d ∧ good b i ∧ numbers_ok k i.
Proof.
  intros [Hb Hi Hd Ht] Hr. destruct (vget_lt bufs t) as (b & Hgb); [lia|].
  destruct (vget_lt infos t) as (i & Hgi); [lia|]. destruct (vget_lt decs t) as (d & Hgd); [lia|].
  destruct (Ht t b i Hgb Hgi). by exists b, i, d.
Qed.

(** Only the thread whose line has just arrived can have its tail unpushed. *)
Definition ptr_ok io (t : Z) b : Prop := elementPtr b = None ∨ line_for io t ≠ [].

(** ** The arrival of a line and a change of stream *)

Definition accept s io : res (list IB) :=
  let itid := threadId (lineId (f2_inp io)) in
  if negb (isBubble (f2_inp io)) then
    b ← vget (f2_inputBuffer s) itid; b ← setTail b (f2_inp io); vset (f2_inputBuffer s) itid b
  else Ok (f2_inputBuffer s).

Lemma f2_accept_Ok k stages L s io : stage_ok k s → f2_io_ok stages L s io →
  ∃ bufs, accept s io = Ok bufs ∧ length bufs = length (f2_inputBuffer s)
    ∧ ∀ t b, vget bufs t = Ok b → ptr_ok io t b ∧ tail_ok b ∧ Forall line_ok (contents b)
        ∧ ∃ b0, vget (f2_inputBuffer s) t = Ok b0 ∧ contents b = contents b0 ++ line_for io t
          ∧ ∀ i, vget (f2_fetchInfo s) t = Ok i → flushed io t = false → waiting b i.
Proof.
  intros [_ Hptr [Hlb Hli _ Hthr]] Hio. unfold accept, ptr_ok, line_for.
  assert (Hold : ∀ t b, vget (f2_inputBuffer s) t = Ok b →
    ∃ i, vget (f2_fetchInfo s) t = Ok i ∧ thread_ok b i ∧ tail_ok b ∧ Forall line_ok (contents b)).
  { intros t b Hb. pose proof (vget_bound _ _ _ Hb). destruct (vget_lt (f2_fetchInfo s) t) as (i & Hi); [lia|].
    destruct (Hthr t b i Hb Hi) as [Ht _]. exists i. split; [done|]. split; [done|].
    split; [apply Ht|apply (to_lines _ _ Ht)]. }
  destruct (isBubble (f2_inp io)) eqn:Hbub; cbn [negb andb].
  { exists (f2_inputBuffer s). split_and!; try done. intros t b Hb.
    destruct (Hold t b Hb) as (i & Hi & Hw & ? & ?). split; [left; by eapply Hptr|]. split_and!; try done.
    exists b. rewrite app_nil_r. split_and!; try done. intros i' Hi' _. rewrite Hi in Hi'. injection Hi' as <-. by left. }
  destruct (fi_inp _ _ _ _ Hio Hbub) as [Htid Hl].
  destruct (vget_lt (f2_inputBuffer s) (threadId (lineId (f2_inp io)))) as (b0 & Hb0); [lia|].
  rewrite Hb0. cbn [rbind]. destruct (Hold _ b0 Hb0) as (i0 & Hi0 & Hw0 & ? & Hf0).
  destruct (f2_setTail_thread b0 i0 (f2_inp io)) as (b1 & -> & Ht1 & Hc1 & Hw1); [done|by eapply Hptr|done|].
  cbn [rbind]. rewrite vset_lt by lia. eexists. split; [done|]. rewrite length_insert. split; [done|].
  intros t b Hb. destruct (vset_cases _ _ _ _ _ _ (vset_lt (f2_inputBuffer s) (threadId (lineId (f2_inp io)))
    b1 ltac:(lia)) Hb) as [[-> ->]|[Hne Hb']].
  - rewrite Z.eqb_refl. split; [by right|]. split; [done|].
    split; [rewrite Hc1; by apply Forall_app; split; [|constructor]|].
    exists b0. split_and!; try done. intros i Hi Hfl. rewrite Hi0 in Hi. injection Hi as <-. apply Hw1. by eapply fi_arrival.
  - rewrite (proj2 (Z.eqb_neq _ _)) by done. destruct (Hold t b Hb') as (i & Hi & Hw & ? & ?).
    split; [left; by eapply Hptr|]. split_and!; try done. exists b. rewrite app_nil_r.
    split_and!; try done. intros i' Hi' _. rewrite Hi in Hi'. injection Hi' as <-. by left.
Qed.

Lemma streamChange_Ok k stages L s io bufs : stage_ok k s → f2_io_ok stages L s io →
  accept s io = Ok bufs →
  ∃ bufs1 infos1, streamChange (f2_branchInp io) bufs (f2_fetchInfo s) = Ok (bufs1, infos1)
    ∧ threads_ok k waiting bufs1 infos1 (f2_decoders s)
    ∧ (∀ t b, vget bufs1 t = Ok b → ptr_ok io t b)
    ∧ ∀ t b1 i1 d, vget bufs1 t = Ok b1 → vget infos1 t = Ok i1 →
        ∃ b i, vget (f2_inputBuffer s) t = Ok b ∧ vget (f2_fetchInfo s) t = Ok i
          ∧ (abs i1 d, contents b1) = cycle_start (abs i d) (contents b) io t.
Proof.
  intros Hs Hio Hacc. destruct (f2_accept_Ok k stages L s io Hs Hio) as (bufs' & Hacc' & Hlen & Hb).
  rewrite Hacc in Hacc'. injection Hacc' as <-. pose proof Hs as [_ _ [Hlb Hli Hld Hthr]].
  unfold streamChange, cycle_start, flushed in *.
  destruct (isStreamChange (reason (f2_branchInp io))) eqn:Hsc; cbn [andb] in *.
  - pose proof (fi_branch _ _ _ _ Hio Hsc) as Hr. set (u := brThreadId (f2_branchInp io)) in *.
    destruct (vget_lt bufs u) as (b & Hgb); [lia|]. destruct (vget_lt (f2_fetchInfo s) u) as (i & Hgi); [lia|].
    rewrite Hgb. cbn [rbind]. rewrite Hgi. cbn [rbind].
    destruct (Hb u b Hgb) as (Hpt & Ht & Hf & b0 & Hb0 & _ & _).
    destruct (Hthr u b0 i Hb0 Hgi) as [Hth0 Hno].
    assert (∀ d, ∃ b', dumpAllInput b i = Ok (b', f2_setIndex 0 i) ∧ contents b' = []
      ∧ (b' = b ∨ elementPtr b' = None) ∧ thread_ok b' (f2_setHavePC false (f2_setIndex 0 i))
      ∧ abs (f2_setHavePC false (f2_setIndex 0 i)) d = forget (abs i d)) as Hfl.
    { intros d. by apply flush_thread; [| |apply Hth0|apply Hth0]. }
    destruct (vget_lt (f2_decoders s) u) as (d0 & _); [lia|].
    destruct (Hfl d0) as (b' & Hd & Hc' & Hb' & Hth' & _). rewrite Hd. cbn [rbind].
    rewrite vset_lt by lia. cbn [rbind]. rewrite vset_lt by lia. cbn [rbind].
    eexists _, _. split; [done|].
    pose proof (vset_lt bufs u b' ltac:(lia)) as Hsb.
    pose proof (vset_lt (f2_fetchInfo s) u (f2_setHavePC false (f2_setIndex 0 i)) ltac:(lia)) as Hsi.
    assert (Hcases : ∀ t x y, vget (<[Z.to_nat u := b']> bufs) t = Ok x →
      vget (<[Z.to_nat u := f2_setHavePC false (f2_setIndex 0 i)]> (f2_fetchInfo s)) t = Ok y →
      (t = u ∧ x = b' ∧ y = f2_setHavePC false (f2_setIndex 0 i))
      ∨ (t ≠ u ∧ vget bufs t = Ok x ∧ vget (f2_fetchInfo s) t = Ok y)).
    { intros t x y Hx Hy. destruct (vset_cases _ _ _ _ _ _ Hsb Hx) as [[-> ->]|[? ?]],
        (vset_cases _ _ _ _ _ _ Hsi Hy) as [[? ->]|[? ?]]; auto; congruence. }
    split_and!.
    + split; rewrite ?length_insert; [lia..|]. intros t x y Hx Hy.
      destruct (Hcases t x y Hx Hy) as [(-> & -> & ->)|(Hne & Hx' & Hy')].
      * split; [by left|]. destruct Hno. by split.
      * destruct (Hb t x Hx') as (_ & _ & _ & x0 & Hx0 & _ & Hw).
        destruct (Hthr t x0 y Hx0 Hy') as [_ ?]. split; [|done]. apply Hw; [done|].
        apply Z.eqb_neq. congruence.
    + intros t x Hx. destruct (vset_cases _ _ _ _ _ _ Hsb Hx) as [[-> ->]|[Hne Hx']]; [|by apply Hb].
      destruct Hb' as [->|]; [done|by left].
    + intros t x y d Hx Hy. destruct (Hcases t x y Hx Hy) as [(-> & -> & ->)|(Hne & Hx' & Hy')].
      * exists b0, i. rewrite Z.eqb_refl. split_and!; try done. destruct (Hfl d) as (_ & _ & _ & _ & _ & ->).
        by rewrite Hc'.
      * destruct (Hb t x Hx') as (_ & _ & _ & x0 & Hx0 & Hcx & _). exists x0, y.
        rewrite (proj2 (Z.eqb_neq u t)) by congruence. split_and!; try done. by rewrite Hcx.
  - eexists _, _. split; [done|]. split_and!.
    + split; [lia..|]. intros t x y Hx Hy. destruct (Hb t x Hx) as (_ & _ & _ & x0 & Hx0 & _ & Hw).
      destruct (Hthr t x0 y Hx0 Hy) as [_ ?]. split; [|done]. by apply Hw.
    + intros t x Hx. by apply Hb.
    + intros t x y d Hx Hy. destruct (Hb t x Hx) as (_ & _ & _ & x0 & Hx0 & Hcx & _).
      exists x0, y. split_and!; try done. by rewrite Hcx.
Qed.

(** ** The discarding of lines of older predictions *)

Lemma discardAll_Ok k io more next bufs infos decs : Z.of_nat (length next) = n →
  threads_ok k waiting bufs infos decs → (∀ t b, vget bufs t = Ok b → ptr_ok io t b) →
  ∃ bufs1 infos1, discardAll more next n (bufs, infos) = Ok (bufs1, infos1)
    ∧ threads_ok k thread_ok bufs1 infos1 decs
    ∧ (∀ t b, vget bufs1 t = Ok b → ptr_ok io t b)
    ∧ ∀ t b1 i1 d, vget bufs1 t = Ok b1 → vget infos1 t = Ok i1 →
        ∃ b i nb, vget bufs t = Ok b ∧ vget infos t = Ok i ∧ vget next t = Ok nb
          ∧ f2_blocked i1 = negb (canReserve nb) ∧ (b1 = b ∨ elementPtr b1 = None)
          ∧ fetches predict (abs i d) (contents b) [] (abs i1 d) (contents b1).
Proof.
  intros Hnx [Hlb Hli Hld Hthr] Hptr. unfold discardAll.
  set (R := λ t b i b1 i1, ∃ nb, vget next t = Ok nb ∧ thread_ok b1 i1 ∧ numbers_ok k i1
    ∧ f2_blocked i1 = negb (canReserve nb) ∧ (b1 = b ∨ elementPtr b1 = None)
    ∧ ∀ d, fetches predict (abs i d) (contents b) [] (abs i1 d) (contents b1)).
  set (step := λ (st : list IB * list Fetch2ThreadInfo) (tid : Z), _).
  enough (∀ m : nat, Z.of_nat m ≤ n → ∃ bufs1 infos1,
    mfold step (bufs, infos) (zrange 0 (Z.of_nat m - 1)) = Ok (bufs1, infos1)
    ∧ length bufs1 = length bufs ∧ length infos1 = length infos
    ∧ (∀ t, Z.of_nat m ≤ t → vget bufs1 t = vget bufs t ∧ vget infos1 t = vget infos t)
    ∧ ∀ t b1 i1, 0 ≤ t < Z.of_nat m → vget bufs1 t = Ok b1 → vget infos1 t = Ok i1 →
        ∃ b i, vget bufs t = Ok b ∧ vget infos t = Ok i ∧ R t b i b1 i1) as H.
  { destruct (H (Z.to_nat n)) as (bufs1 & infos1 & Hm & Hl1 & Hl2 & _ & Hr); [lia|].
    rewrite Z2Nat.id in Hm by lia. exists bufs1, infos1. split; [done|].
    assert (Hr' : ∀ t b1 i1, vget bufs1 t = Ok b1 → vget infos1 t = Ok i1 →
        ∃ b i, vget bufs t = Ok b ∧ vget infos t = Ok i ∧ R t b i b1 i1).
    { intros t b1 i1 Hb Hi. pose proof (vget_bound _ _ _ Hb). apply Hr; [lia|done..]. }
    split_and!.
    - split; [lia..|]. intros t b1 i1 Hb Hi. destruct (Hr' t b1 i1 Hb Hi) as (b & i & _ & _ & nb & _ & ? & ? & _).
      done.
    - intros t b1 Hb. pose proof (vget_bound _ _ _ Hb). destruct (vget_lt infos1 t) as (i1 & Hi); [lia|].
      destruct (Hr' t b1 i1 Hb Hi) as (b & i & Hgb & _ & nb & _ & _ & _ & _ & [->|?] & _); [by apply Hptr|by left].
    - intros t b1 i1 d Hb Hi. destruct (Hr' t b1 i1 Hb Hi) as (b & i & Hgb & Hgi & nb & Hnb & _ & _ & Hbl & Hp & Hf).
      exists b, i, nb. split_and!; try done. }
  induction m as [|m IH]; intros Hm.
  { exists bufs, infos. split_and!; try done. intros. lia. }
  destruct IH as (bufs1 & infos1 & Hf & Hl1 & Hl2 & Hge & Hlt); [lia|].
  rewrite (zrange_snoc 0 (Z.of_nat (S m) - 1)), mfold_app by lia.
  replace (Z.of_nat (S m) - 1 - 1) with (Z.of_nat m - 1) by lia. rewrite Hf. cbn [rbind mfold].
  replace (Z.of_nat (S m) - 1) with (Z.of_nat m) by lia.
  destruct (Hge (Z.of_nat m)) as [Hgb Hgi]; [lia|].
  destruct (vget_lt bufs (Z.of_nat m)) as (b & Hb); [lia|].
  destruct (vget_lt infos (Z.of_nat m)) as (i & Hi); [lia|].
  destruct (vget_lt next (Z.of_nat m)) as (nb & Hnb); [lia|].
  destruct (Hthr _ b i Hb Hi) as [Hw Hno].
  destruct (vget_lt decs (Z.of_nat m)) as (d0 & _); [lia|].
  assert (Hdis : ∀ d, ∃ b' i', discardThread more (negb (canReserve nb)) b i = Ok (b', i') ∧ thread_ok b' i'
    ∧ fetches predict (abs i d) (contents b) [] (abs i' d) (contents b')
    ∧ (b' = b ∨ elementPtr b' = None) ∧ f2_blocked i' = negb (canReserve nb)
    ∧ f2_fetchSeqNum i' = f2_fetchSeqNum i ∧ f2_predictionSeqNum i' = f2_predictionSeqNum i)
    by (intros d; by apply discardThread_Ok).
  destruct (Hdis d0) as (b' & i' & Hd & Hth' & _ & Hp' & Hbl' & Hs' & Hn').
  unfold step. rewrite Hnb. cbn [rbind fst snd]. rewrite Hgb, Hb. cbn [rbind]. rewrite Hgi, Hi. cbn [rbind].
  rewrite Hd. cbn [rbind]. rewrite vset_lt by lia. cbn [rbind]. rewrite vset_lt by lia. cbn [rbind].
  eexists _, _. split; [done|]. rewrite !length_insert. split; [done|]. split; [done|].
  pose proof (vset_lt bufs1 (Z.of_nat m) b' ltac:(lia)) as Hsb.
  pose proof (vset_lt infos1 (Z.of_nat m) i' ltac:(lia)) as Hsi. split.
  - intros t Ht. rewrite (vget_vset_ne _ _ _ _ _ Hsb), (vget_vset_ne _ _ _ _ _ Hsi) by lia. apply Hge. lia.
  - intros t x y Ht Hx Hy.
    destruct (vset_cases _ _ _ _ _ _ Hsb Hx) as [[-> ->]|[Hne Hx']],
      (vset_cases _ _ _ _ _ _ Hsi Hy) as [[? ->]|[Hne' Hy']]; try congruence.
    + exists b, i. split; [done|]. split; [done|]. exists nb. destruct Hno as [Hn1 Hn2]. split_and!; try done.
      * split; lia.
      * intros d. destruct (Hdis d) as (b2 & i2 & Hd2 & _ & ? & _). rewrite Hd in Hd2. by simplify_eq.
    + apply Hlt; [lia|done..].
Qed.

(** ** The scheduled thread *)

Lemma f2_sched_Ok k bufs infos decs policy p shuffled :
  threads_ok k thread_ok bufs infos decs → policy_ok n policy shuffled →
  ∃ sched, f2_getScheduledThread bufs infos policy n p shuffled = Ok sched
    ∧ ∀ t, sched = Some t → 0 ≤ t < n ∧ ∃ i, vget infos t = Ok i ∧ f2_blocked i = false.
Proof.
  intros Hth Hpol. unfold f2_getScheduledThread.
  pose proof (priorityList_range n Hn policy p shuffled Hpol) as Hr. rewrite Forall_forall in Hr.
  match goal with |- context [firstReady ?f ?l] => destruct (firstReady_Ok f l) as (r & -> & H) end.
  { intros t Ht. destruct (f2_threads_get _ _ _ _ _ t Hth (Hr t Ht)) as (b & i & _ & Hb & Hi & _).
    rewrite Hb. cbn [rbind]. rewrite Hi. cbn [rbind]. rewrite getInput_head. by eexists. }
  exists r. split; [done|]. intros t Ht. destruct (H t Ht) as [Hin Hready].
  specialize (Hr t Hin). split; [done|].
  destruct (f2_threads_get _ _ _ _ _ t Hth Hr) as (b & i & _ & Hb & Hi & _).
  rewrite Hb in Hready. cbn [rbind] in Hready. rewrite Hi in Hready. cbn [rbind] in Hready.
  rewrite getInput_head in Hready. cbn [rbind] in Hready. exists i. split; [done|].
  destruct (head (contents b)); [|done]. by destruct (f2_blocked i).
Qed.

Lemma f2_activate_Ok k stages L bufs infos decs (next : list (InputBuffer (ForwardInstData I))) ar tids :
  Fetch2StageId < stages < 2 ^ 29 → 0 ≤ L < 2 ^ 29 → ar_wf stages L ar →
  threads_ok k thread_ok bufs infos decs → Z.of_nat (length next) = n → Forall (λ t, 0 ≤ t < n) tids →
  ∃ ar', f2_activate Fetch2StageId bufs next ar tids = Ok ar' ∧ ar_wf stages L ar'.
Proof.
  intros Hst HL Har Hth Hnx. induction tids as [|t tids IH]; intros Hf; [by exists ar|].
  apply Forall_cons in Hf as [Ht Hf]. cbn [f2_activate].
  destruct (f2_threads_get _ _ _ _ _ t Hth Ht) as (b & i & _ & -> & _). cbn [rbind].
  rewrite getInput_head. cbn [rbind]. destruct (head (contents b)); [|by apply IH].
  destruct (vget_lt next t) as (nb & ->); [lia|]. cbn [rbind]. destruct (canReserve nb); [|by apply IH].
  unfold Fetch2StageId in *.
  destruct (activateStage_Ok stages L ltac:(lia) HL ar 2) as (ar' & -> & ? & _); [done|lia|]. by exists ar'.
Qed.

Lemma f2_fuel_enough W b i : 0 ≤ W → thread_ok b i →
  W + work (contents b) (f2_inputIndex i) ≤ Z.of_nat (f2_fuel W b).
Proof.
  intros HW Hth. unfold f2_fuel, work.
  assert (sum_list_with (λ l : Line, S (Z.to_nat (lineWidth l))) (contents b)
          = (length (contents b) + sum_list_with (λ l, Z.to_nat (lineWidth l)) (contents b))%nat) as ->.
  { induction (contents b) as [|l ls IH]; [done|]. cbn [sum_list_with length]. rewrite IH. lia. }
  assert (0 ≤ f2_inputIndex i).
  { pose proof (to_head b i Hth) as Hh. unfold head_ok in Hh. destruct (contents b); [lia|].
    destruct Hh as [[? _] _]. done. }
  lia.
Qed.

Lemma f2_packThread_Ok k W more bufs infos decs (out0 : ForwardInstData I) t :
  0 ≤ W < MAX_FORWARD_INSTS → 0 ≤ k < 2 ^ 59 → threads_ok k thread_ok bufs infos decs → 0 ≤ t < n →
  ∃ bufs' infos' decs' outs,
    f2_packThread predict W more bufs infos decs out0 t
      = Ok (bufs', infos', decs', out_is W out0 outs, last_prediction outs)
    ∧ threads_ok (k + 1) thread_ok bufs' infos' decs'
    ∧ Z.of_nat (length outs) ≤ W ∧ Forall (λ o, isBubble o = false) outs
    ∧ ∀ t' b' i' d', vget bufs' t' = Ok b' → vget infos' t' = Ok i' → vget decs' t' = Ok d' →
        ∃ b i d, vget bufs t' = Ok b ∧ vget infos t' = Ok i ∧ vget decs t' = Ok d
          ∧ (b' = b ∨ elementPtr b' = None)
          ∧ fetches predict (abs i d) (contents b) (outs_of (Some t) outs t') (abs i' d') (contents b').
Proof.
  intros HW Hk Hth Ht. destruct (f2_threads_get _ _ _ _ _ t Hth Ht) as (b & i & d & Hb & Hi & Hd & Hbi & Hno).
  destruct Hth as [Hlb Hli Hld Hthr]. unfold f2_packThread. rewrite Hb. cbn [rbind]. rewrite Hi. cbn [rbind].
  rewrite Hd. cbn [rbind]. rewrite getInput_head. cbn [rbind]. unfold MAX_FORWARD_INSTS in HW.
  destruct (f2_loop_Ok predict W HW more out0 (f2_fuel W b) b i d (head (contents b)) [])
    as (b' & i' & d' & outs & prd & Hl & Hlo & HleW); [done|by right|cbn; lia|..].
  { destruct Hno. cbn. lia. }
  { destruct Hno. lia. }
  { pose proof (f2_fuel_enough W b i ltac:(lia) Hbi). cbn [length]. lia. }
  change (Z.of_nat (length [])) with 0 in Hl. cbn [out_is app] in Hl. rewrite Hl. cbn [rbind].
  rewrite vset_lt by lia. cbn [rbind]. rewrite vset_lt by lia. cbn [rbind].
  rewrite vset_lt by lia. cbn [rbind]. destruct Hlo as [Hth' Hsp Hp' Hprd Hnb Hs Hnum].
  exists (<[Z.to_nat t := b']> bufs), (<[Z.to_nat t := i']> infos), (<[Z.to_nat t := d']> decs), outs.
  rewrite Hprd. split; [done|].
  pose proof (vset_lt bufs t b' ltac:(lia)) as Hsb. pose proof (vset_lt infos t i' ltac:(lia)) as Hsi.
  pose proof (vset_lt decs t d' ltac:(lia)) as Hsd. cbn [length app] in HleW.
  split_and!; try done.
  - split; rewrite ?length_insert; [done..|]. intros t' x y Hx Hy.
    destruct (vset_cases _ _ _ _ _ _ Hsb Hx) as [[-> ->]|[Hne Hx']],
      (vset_cases _ _ _ _ _ _ Hsi Hy) as [[? ->]|[Hne' Hy']]; try congruence.
    + split; [done|]. destruct Hno. split; lia.
    + destruct (Hthr t' x y Hx' Hy') as [? []]. split; [done|]. split; lia.
  - intros t' x y z Hx Hy Hz. unfold outs_of.
    destruct (vset_cases _ _ _ _ _ _ Hsb Hx) as [[-> ->]|[Hne Hx']],
      (vset_cases _ _ _ _ _ _ Hsi Hy) as [[? ->]|[Hne' Hy']],
      (vset_cases _ _ _ _ _ _ Hsd Hz) as [[? ->]|[Hne'' Hz']]; try congruence.
    + rewrite decide_True by done. exists b, i, d. split_and!; done.
    + rewrite decide_False by congruence. exists x, y, z. split_and!; try done; [by left|constructor].
Qed.

(** ** The end of a cycle *)

Lemma f2_finish_Ok k stages L W bufs infos decs io sched outs :
  threads_ok k thread_ok bufs infos decs → isBubble (f2_out io) = true →
  Z.of_nat (length (f2_nextStageReserve io)) = n → ar_wf stages L (f2_activityRecorder io) →
  Fetch2StageId < stages < 2 ^ 29 → 0 ≤ L < 2 ^ 29 →
  Forall (λ o, isBubble o = false) outs →
  (outs ≠ [] → ∃ t nb, sched = Some t ∧ vget (f2_nextStageReserve io) t = Ok nb ∧ canReserve nb = true) →
  ∃ out' ar' next', f2_finish sched n bufs io (out_is W (f2_out io) outs) = Ok (out', ar', next')
    ∧ ar_wf stages L ar' ∧ length next' = length (f2_nextStageReserve io)
    ∧ cycle_out W (mkStageIo (f2_out io) (f2_out io) (f2_nextStageReserve io) (f2_activityRecorder io))
        (mkStageIo (f2_out io) out' next' ar') sched outs.
Proof.
  intros Hth Hob Hnx Har Hst HL Hnb Hres. unfold f2_finish.
  assert (match sched with Some _ => true | None => isBubble (out_is W (f2_out io) outs) end = true) as ->.
  { destruct sched; [done|]. destruct outs; [done|]. by destruct Hres as (t & nb & ? & _). }
  cbn [assert_ rbind]. unfold Fetch2StageId in Hst.
  destruct (cycle_out_Ok stages L
    (mkStageIo (f2_out io) (f2_out io) (f2_nextStageReserve io) (f2_activityRecorder io)) sched outs W)
    as (out' & ar' & next' & Heq & Har' & Hln & Hco); [done|lia|done|done|done|done|].
  cbn [activityRecorder nextStageReserve out] in Heq, Hln. cbn zeta in Heq. rewrite Heq. cbn [rbind].
  destruct (f2_activate_Ok k stages L bufs infos decs next' ar' (zrange 0 (n - 1)))
    as (ar2 & -> & Har2); [done|done|done|done|lia| |].
  { apply Forall_forall. intros t Ht%elem_of_zrange. lia. }
  cbn [rbind]. eexists _, _, _. split; [done|]. split_and!; done.
Qed.

Lemma f2_pushTail_Ok k stages L s io bufs0 bufs infos decs : f2_io_ok stages L s io →
  Z.of_nat (length bufs0) = n → threads_ok k thread_ok bufs infos decs →
  (∀ t b, vget bufs t = Ok b → ptr_ok io t b) →
  ∃ bufs' inp, f2_pushTail (f2_inp io) bufs0 bufs = Ok (bufs', inp)
    ∧ threads_ok k thread_ok bufs' infos decs
    ∧ (∀ t b, vget bufs' t = Ok b → elementPtr b = None)
    ∧ ∀ t b', vget bufs' t = Ok b' → ∃ b, vget bufs t = Ok b ∧ contents b' = contents b.
Proof.
  intros Hio Hl0 Hth Hptr. unfold f2_pushTail, ptr_ok, line_for in *.
  destruct (isBubble (f2_inp io)) eqn:Hbub; cbn [negb andb] in *.
  { exists bufs, (f2_inp io). split_and!; try done; [|eauto]. intros t b Hb.
    destruct (Hptr t b Hb) as [|]; done. }
  destruct (fi_inp _ _ _ _ Hio Hbub) as [Ht Hl]. set (u := threadId (lineId (f2_inp io))) in *.
  destruct (vget_lt bufs0 u) as (b0 & ->); [lia|]. cbn [rbind].
  destruct (f2_threads_get _ _ _ _ _ u Hth Ht) as (b & i & _ & Hb & Hi & _ & Hbi & _). rewrite Hb. cbn [rbind].
  assert (Hother : ∀ t x, t ≠ u → vget bufs t = Ok x → elementPtr x = None).
  { intros t x Hne Hx. destruct (Hptr t x Hx) as [|Hx']; [done|].
    rewrite (proj2 (Z.eqb_neq u t)) in Hx' by congruence. done. }
  assert (∃ slot, latchSlot b0 b (f2_inp io) = Ok slot ∧ (isBubble slot = true → elementPtr b = None))
    as (slot & -> & Hslot).
  { unfold latchSlot. destruct (elementPtr b0), (elementPtr b); try (eexists; split; [done|]; congruence).
    destruct (freeLine_Ok _ Hl) as (l' & ->). by exists l'. }
  cbn [rbind]. destruct (isBubble slot) eqn:Hsl; cbn [negb rbind].
  { exists bufs, slot. split_and!; try done; [|eauto]. intros t x Hx.
    destruct (decide (t = u)) as [->|Hne]; [rewrite Hb in Hx; injection Hx as <-; by apply Hslot|by eapply Hother]. }
  destruct (f2_pushTail_thread b i Hbi) as (He & Hc & Hbi'). destruct Hth as [Hlb Hli Hld Hthr].
  rewrite vset_lt by lia. cbn [rbind]. eexists _, _. split; [done|].
  pose proof (vset_lt bufs u (pushTail b) ltac:(lia)) as Hsb. split_and!.
  - split; rewrite ?length_insert; [done..|]. intros t x y Hx Hy.
    destruct (vset_cases _ _ _ _ _ _ Hsb Hx) as [[-> ->]|[Hne Hx']]; [|by eapply Hthr].
    rewrite Hi in Hy. injection Hy as <-. split; [done|]. by destruct (Hthr u b i Hb Hi).
  - intros t x Hx. destruct (vset_cases _ _ _ _ _ _ Hsb Hx) as [[-> ->]|[Hne Hx']]; [done|by eapply Hother].
  - intros t x Hx. destruct (vset_cases _ _ _ _ _ _ Hsb Hx) as [[-> ->]|[Hne Hx']]; eauto.
Qed.

(** ** A cycle and a history *)

(** What a cycle does for thread [t] when it gives [outs]. *)
Definition cycle_spec s s' io (outs : list DynInst) (t : Z) : Prop :=
  ∀ b' i' d', vget (f2_inputBuffer s') t = Ok b' → vget (f2_fetchInfo s') t = Ok i' →
    vget (f2_decoders s') t = Ok d' →
    ∃ b i d g q, vget (f2_inputBuffer s) t = Ok b ∧ vget (f2_fetchInfo s) t = Ok i
      ∧ vget (f2_decoders s) t = Ok d ∧ cycle_start (abs i d) (contents b) io t = (g, q)
      ∧ fetches predict g q outs (abs i' d') (contents b').

Lemma Fetch2_evaluate_Ok k stages L policy shuffled s io :
  stage_ok k s → 0 ≤ k < 2 ^ 59 → f2_io_ok stages L s io → policy_ok n policy shuffled →
  ∃ s' io' sched outs,
    Fetch2_evaluate predict policy n shuffled s io
      = Ok (s', io', default BranchData0 (last_prediction outs), updateBranchPrediction (f2_branchInp io))
    ∧ stage_ok (k + 1) s'
    ∧ (∀ t, cycle_spec s s' io (outs_of sched outs t) t)
    ∧ (∀ t, arrivals (f2_out io') t = outs_of sched outs t) ∧ (outs ≠ [] → is_Some sched).
Proof.
  intros Hs Hk Hio Hpol. pose proof (st_width k s Hs) as HW. unfold Fetch2_evaluate.
  destruct (f2_accept_Ok k stages L s io Hs Hio) as (bufs0 & Hacc & Hl0 & _). pose proof Hacc as Hacc'.
  unfold accept in Hacc. rewrite Hacc. cbn [rbind]. rewrite (fi_out _ _ _ _ Hio). cbn [assert_ rbind].
  destruct (streamChange_Ok k stages L s io bufs0 Hs Hio Hacc') as (bufs1 & infos1 & -> & Hth1 & Hp1 & Hc1).
  cbn [rbind]. pose proof (fi_next _ _ _ _ Hio) as Hnx.
  destruct (discardAll_Ok k io (f2_processMoreThanOneInput s) (f2_nextStageReserve io) bufs1 infos1 _ Hnx Hth1 Hp1)
    as (bufs2 & infos2 & -> & Hth2 & Hp2 & Hc2). cbn [rbind].
  destruct (f2_sched_Ok k bufs2 infos2 _ policy (f2_threadPriority s) shuffled Hth2 Hpol)
    as (sched & -> & Hsched). cbn [rbind].
  assert (∃ bufs3 infos3 decs3 outs,
    match sched with
    | Some tid => f2_packThread predict (f2_outputWidth s) (f2_processMoreThanOneInput s) bufs2 infos2
                    (f2_decoders s) (f2_out io) tid
    | None => Ok (bufs2, infos2, f2_decoders s, f2_out io, None)
    end = Ok (bufs3, infos3, decs3, out_is (f2_outputWidth s) (f2_out io) outs, last_prediction outs)
    ∧ threads_ok (k + 1) thread_ok bufs3 infos3 decs3
    ∧ Z.of_nat (length outs) ≤ f2_outputWidth s ∧ Forall (λ o, isBubble o = false) outs
    ∧ (outs ≠ [] → is_Some sched)
    ∧ ∀ t' b' i' d', vget bufs3 t' = Ok b' → vget infos3 t' = Ok i' → vget decs3 t' = Ok d' →
        ∃ b i d, vget bufs2 t' = Ok b ∧ vget infos2 t' = Ok i ∧ vget (f2_decoders s) t' = Ok d
          ∧ (b' = b ∨ elementPtr b' = None)
          ∧ fetches predict (abs i d) (contents b) (outs_of sched outs t') (abs i' d') (contents b'))
    as (bufs3 & infos3 & decs3 & outs & -> & Hth3 & HleW & Hnb & Hso & Hc3).
  { destruct sched as [t|].
    - destruct (Hsched t eq_refl) as [Ht _].
      destruct (f2_packThread_Ok k (f2_outputWidth s) (f2_processMoreThanOneInput s) bufs2 infos2 (f2_decoders s)
        (f2_out io) t)
        as (bufs3 & infos3 & decs3 & outs & ? & ? & ? & ? & ?); [done..|].
      exists bufs3, infos3, decs3, outs. split_and!; done.
    - exists bufs2, infos2, (f2_decoders s), []. split_and!; try done; [|cbn; lia|].
      + destruct Hth2 as [? ? ? Ht]. split; [done..|]. intros t b i Hb Hi.
        destruct (Ht t b i Hb Hi) as [? []]. split; [done|]. split; lia.
      + intros t b i d Hb Hi Hd. exists b, i, d. split_and!; try done; [by left|]. constructor. }
  cbn [rbind]. destruct (f2_finish_Ok (k + 1) stages L (f2_outputWidth s) bufs3 infos3 decs3 io sched outs)
    as (out' & ar' & next' & -> & _ & _ & Hco); [done|apply Hio|done|apply Hio|apply Hio|apply Hio|done| |].
  { intros Hne. destruct (Hso Hne) as [t ->]. destruct (Hsched t eq_refl) as (Ht & i & Hi & Hbl).
    destruct (f2_threads_get _ _ _ _ _ t Hth2 Ht) as (b & i' & d & Hb & Hi' & _).
    rewrite Hi in Hi'. injection Hi' as <-. destruct (Hc2 t b i d Hb Hi) as (_ & _ & nb & _ & _ & Hnb' & Hbk & _).
    exists t, nb. split_and!; try done. rewrite Hbk in Hbl. by destruct (canReserve nb). }
  cbn [rbind]. destruct (f2_pushTail_Ok (k + 1) stages L s io bufs0 bufs3 infos3 decs3 Hio)
    as (bufs4 & inp & -> & Hth4 & Hp4 & Hc4); [destruct Hs as [_ _ []]; lia|done| |].
  { intros t b Hb. pose proof (vget_bound _ _ _ Hb).
    destruct (f2_threads_get _ _ _ _ _ t Hth3) as (? & i & d & _ & Hi & Hd & _); [destruct Hth3; lia|].
    destruct (Hc3 t b i d Hb Hi Hd) as (b2 & _ & _ & Hb2 & _ & _ & [->|] & _); [by apply Hp2|by left]. }
  cbn [rbind]. eexists _, _, sched, outs. split; [done|]. split_and!; try done.
  - intros t b4 i4 d4 Hb4 Hi4 Hd4. cbn in Hb4, Hi4, Hd4. destruct (Hc4 t b4 Hb4) as (b3 & Hb3 & Hcc).
    destruct (Hc3 t b3 i4 d4 Hb3 Hi4 Hd4) as (b2 & i2 & d & Hb2 & Hi2 & Hd & _ & Hf3).
    destruct (Hc2 t b2 i2 d Hb2 Hi2) as (b1 & i1 & _ & Hb1 & Hi1 & _ & _ & _ & Hf2).
    destruct (Hc1 t b1 i1 d Hb1 Hi1) as (b & i & Hb & Hi & Hst).
    exists b, i, d, (abs i1 d), (contents b1). split_and!; try done.
    rewrite Hcc. change (outs_of sched outs t) with ([] ++ outs_of sched outs t). by eapply fetches_trans.
  - intros t. cbn [f2_out]. by apply (cycle_out_arrivals (f2_outputWidth s) _ _ sched outs t Hco); [apply Hio|].
Qed.

(** A history: the shared parts of each cycle and the random permutation. *)
Fixpoint f2_run (policy : ThreadPolicy) s (cycles : list (Fetch2Io * list Z))
  : res (Fetch2 * list (Fetch2Io * BranchData I)) :=
  match cycles with
  | [] => Ok (s, [])
  | (io, shuffled) :: cycles =>
      ' (s, io', prd, _) ← Fetch2_evaluate predict policy n shuffled s io;
      ' (s, ios) ← f2_run policy s cycles;
      Ok (s, (io', prd) :: ios)
  end.

(** What the rest of the CPU guarantees along a history. *)
Fixpoint f2_obeys (stages L : Z) (policy : ThreadPolicy) s (cycles : list (Fetch2Io * list Z)) : Prop :=
  match cycles with
  | [] => True
  | (io, shuffled) :: cycles =>
      f2_io_ok stages L s io ∧ policy_ok n policy shuffled ∧
      match Fetch2_evaluate predict policy n shuffled s io with
      | Ok (s, _, _, _) => f2_obeys stages L policy s cycles
      | Stop _ => True
      end
  end.

(** The abstract machine over a history: in each cycle a line may arrive or
    the stream may change, and then the machine takes some steps. *)
Inductive fetch_run (t : Z) : Fetching → list Line → list Fetch2Io → list DynInst
    → Fetching → list Line → Prop :=
| fetch_run_nil g q : fetch_run t g q [] [] g q
| fetch_run_cycle g q io ios g0 q0 outs g1 q1 outs' g2 q2 :
    cycle_start g q io t = (g0, q0) → fetches predict g0 q0 outs g1 q1 →
    fetch_run t g1 q1 ios outs' g2 q2 → fetch_run t g q (io :: ios) (outs ++ outs') g2 q2.

Definition f2_produced (ios : list (Fetch2Io * BranchData I)) (t : Z) : list DynInst :=
  mjoin ((λ c, arrivals (f2_out c.1) t) <$> ios).

(** The prediction a cycle sends back belongs to the last instruction it gives. *)
Definition predicts_last (c : Fetch2Io * BranchData I) : Prop :=
  ∃ t outs, arrivals (f2_out c.1) t = outs ∧ (∀ t', t' ≠ t → arrivals (f2_out c.1) t' = [])
    ∧ c.2 = default BranchData0 (last_prediction outs).

Lemma f2_run_Ok stages L policy cycles : ∀ k s,
  stage_ok k s → 0 ≤ k → k + Z.of_nat (length cycles) ≤ 2 ^ 59 → f2_obeys stages L policy s cycles →
  ∃ s' ios, f2_run policy s cycles = Ok (s', ios)
    ∧ stage_ok (k + Z.of_nat (length cycles)) s' ∧ Forall predicts_last ios
    ∧ ∀ t b' i' d', vget (f2_inputBuffer s') t = Ok b' → vget (f2_fetchInfo s') t = Ok i' →
        vget (f2_decoders s') t = Ok d' →
        ∃ b i d, vget (f2_inputBuffer s) t = Ok b ∧ vget (f2_fetchInfo s) t = Ok i
          ∧ vget (f2_decoders s) t = Ok d
          ∧ fetch_run t (abs i d) (contents b) cycles.*1 (f2_produced ios t) (abs i' d') (contents b').
Proof.
  induction cycles as [|[io shuffled] cycles IH]; intros k s Hs Hk Hlen Hob.
  { exists s, []. cbn. rewrite Z.add_0_r. split_and!; try done.
    intros t b i d Hb Hi Hd. exists b, i, d. split_and!; try done. constructor. }
  destruct Hob as (Hio & Hpol & Hob). cbn [length] in Hlen.
  destruct (Fetch2_evaluate_Ok k stages L policy shuffled s io Hs ltac:(lia) Hio Hpol)
    as (s1 & io1 & sched & outs & Hev & Hs1 & Hcy & Hout & Hso).
  rewrite Hev in Hob. destruct (IH (k + 1) s1 Hs1) as (s2 & ios & Hrun & Hs2 & Hpl & Hth2); [lia|lia|done|].
  cbn [f2_run]. rewrite Hev. cbn [rbind]. rewrite Hrun. cbn [rbind]. eexists _, _. split; [done|].
  split; [by replace (k + Z.of_nat (length ((io, shuffled) :: cycles)))
            with (k + 1 + Z.of_nat (length cycles)) by (cbn [length]; lia)|]. split.
  - constructor; [|done]. unfold predicts_last. cbn [fst snd]. destruct sched as [t|].
    + exists t, outs. rewrite !Hout. unfold outs_of. rewrite decide_True by done. split_and!; try done.
      intros t' Hne. rewrite Hout. unfold outs_of. by rewrite decide_False by congruence.
    + destruct outs as [|o outs]; [|by destruct Hso as [? ?]].
      exists 0, []. setoid_rewrite Hout. done.
  - intros t b2 i2 d2 Hb2 Hi2 Hd2. destruct (Hth2 t b2 i2 d2 Hb2 Hi2 Hd2) as (b1 & i1 & d1 & Hb1 & Hi1 & Hd1 & Hr).
    destruct (Hcy t b1 i1 d1 Hb1 Hi1 Hd1) as (b & i & d & g & q & Hb & Hi & Hd & Hst & Hf).
    exists b, i, d. split_and!; try done. unfold f2_produced. cbn [fmap list_fmap mjoin list_join fst].
    rewrite Hout. by eapply fetch_run_cycle.
Qed.
End stage.

(** ** From the constructor *)

Section history.
Context `{I : Isa} {DC : Decoder I} {DK : DecoderOk DC}.
Notation Line := (ForwardLineData I).

(** Where the decoder of a thread starts. *)
Definition start_at (d : Dec DC) : Fetching :=
  mkFetching None firstFetchSeqNum firstStreamSeqNum firstPredictionSeqNum d.

Lemma newFetch2_ok W cap n more decs : 0 ≤ W < MAX_FORWARD_INSTS → 0 < n → Z.of_nat (length decs) = n →
  stage_ok n 0 (mkFetch2 W more (replicate (Z.to_nat n) (newInputBuffer cap))
                  (replicate (Z.to_nat n) newF2Info) 0 decs).
Proof.
  intros HW Hn Hd. split; cbn; [done| |].
  - by intros t b [_ [-> _]%lookup_replicate]%vget_Ok.
  - split; rewrite ?length_replicate; [lia|lia|done|].
    intros t b i [_ [-> _]%lookup_replicate]%vget_Ok [_ [-> _]%lookup_replicate]%vget_Ok.
    split; [|split; cbn; unfold firstFetchSeqNum, firstPredictionSeqNum; lia].
    apply thread_ok_empty; try done.
Qed.

(** Every history of the stage is a run of the machine for each thread. *)
Lemma f2_run_init predict n stages L policy cycles W cap more decs :
  0 ≤ W < MAX_FORWARD_INSTS → 0 < n → Z.of_nat (length decs) = n → Z.of_nat (length cycles) ≤ 2 ^ 59 →
  let s0 := mkFetch2 W more (replicate (Z.to_nat n) (newInputBuffer cap))
              (replicate (Z.to_nat n) newF2Info) 0 decs in
  f2_obeys predict n stages L policy s0 cycles →
  ∃ s ios, f2_run predict n policy s0 cycles = Ok (s, ios) ∧ Forall predicts_last ios
    ∧ ∀ t d, vget decs t = Ok d → ∃ g b, vget (f2_inputBuffer s) t = Ok b
        ∧ fetch_run predict t (start_at d) [] cycles.*1 (f2_produced ios t) g (contents b).
Proof.
  intros HW Hn Hd Hlen s0 Hob.
  destruct (f2_run_Ok predict n Hn stages L policy cycles 0 s0) as (s & ios & Hrun & Hs & Hpl & Hth);
    [by apply newFetch2_ok|done|lia|done|].
  exists s, ios. split; [done|]. split; [done|]. intros t d Hgd. pose proof (vget_bound _ _ _ Hgd).
  destruct (f2_threads_get n _ _ _ _ _ t (st_thr _ _ _ Hs)) as (b & i & d' & Hb & Hi & Hd' & _); [lia|].
  destruct (Hth t b i d' Hb Hi Hd') as (b0 & i0 & d0 & Hb0 & Hi0 & Hd0 & Hr). cbn in Hb0, Hi0, Hd0.
  apply vget_Ok in Hb0 as [_ [-> _]%lookup_replicate]. apply vget_Ok in Hi0 as [_ [-> _]%lookup_replicate].
  rewrite Hgd in Hd0. injection Hd0 as <-. by exists (abs i d'), b.
Qed.

Lemma fetch_run_numbers predict t g q ios outs g' q' : fetch_run predict t g q ios outs g' q' →
  0 ≤ g_seq g < 2 ^ 64 → ∀ k o, outs !! k = Some o → fetchSeqNum (id o) = u64 (g_seq g + Z.of_nat k).
Proof.
  induction 1 as [|g q io ios g0 q0 outs g1 q1 outs' g2 q2 Hst Hf _ IH]; intros Hr k o Hk; [done|].
  assert (g_seq g0 = g_seq g) as Hg0.
  { unfold cycle_start in Hst. destruct (flushed io t); by simplify_eq. }
  destruct (fetches_numbers _ _ _ _ _ _ Hf) as [Hg1 Ho]; [by rewrite Hg0|]. rewrite Hg0 in Hg1, Ho.
  destruct (decide (k < length outs)%nat) as [Hlt|Hge].
  - rewrite lookup_app_l in Hk by done. by apply Ho.
  - rewrite lookup_app_r in Hk by lia. rewrite (IH ltac:(rewrite Hg1; apply u64_range) _ _ Hk), Hg1.
    unfold u64. rewrite Zplus_mod_idemp_l. f_equal. lia.
Qed.
End history.

(** ** A small decoder

    Instructions of four bytes; a first byte 1 is a branch. *)
Module ToyDec.

#[export] Instance dec : Decoder Toy.isa := {|
  Dec := list Z * bool;
  moreBytesSize := 4;
  pcMask := -4;
  dec_reset _ := ([], false);
  dec_copy d bytes := (bytes, d.2);
  moreBytes d _ _ := (d.1, true);
  instReady d := d.2;
  needMoreBytes d := negb d.2;
  decode d p := ((match d.1 with 1 :: _ => Toy.br | _ => Toy.alu end : StaticInst (Isa := Toy.isa)), p, (d.1, false));
|}.

#[export] Instance dec_ok : DecoderOk dec.
Proof.
  split; [cbn; lia|done|]. intros [[|[|[]|] bytes] r] q _; done.
Qed.

(** every branch is predicted taken, to address 64 *)
Definition taken : Predictor (I := Toy.isa) := λ _ _ _ _, Some (64, 0).

Definition line (base w pcaddr seq : Z) (bytes : list Z) : ForwardLineData Toy.isa :=
  mkLine (I := Toy.isa) false base (Some (pcaddr, 0)) base w lvptData0 None (mkInstId 0 1 1 seq 0 0)
    (Some bytes) None.

Definition io (l : ForwardLineData Toy.isa) : Fetch2Io (I := Toy.isa) :=
  mkF2Io l BranchData0 (newForwardInstData 0 InvalidThreadID) [newInputBuffer 2] idleRecorder.

(** an ordinary instruction, a branch and one behind it; then nothing *)
Definition cycles : list (Fetch2Io (I := Toy.isa) * list Z) :=
  [(io (line 0 12 0 1 [0;0;0;0; 1;0;0;0; 0;0;0;0]), []); (io ForwardLineData0, [])].

Definition decoders : list (Dec dec) := [([], false)].

Definition stage : Fetch2 (DC := dec) :=
  mkFetch2 (DC := dec) 2 true [newInputBuffer 2] [newF2Info] 0 decoders.

Lemma cycles_obey : f2_obeys taken 1 6 3 SingleThreaded stage cycles.
Proof.
  split; [|split; [done|]].
  - split; cbn; try (done || lia || apply idleRecorder_wf).
    + intros _. split; [lia|]. split; try done. intros _. eexists. split; [done|]. cbn.
      split; [done|]. split; [lia|]. by exists 3.
    + intros _ _ b i [= <-] [= <-]. split; [cbn; unfold firstPredictionSeqNum; lia|].
      right. right. right. exists (0, 0). split; [done|]. split; [by vm_compute|]. by exists 0.
  - destruct (Fetch2_evaluate _ _ _ _ _ _) as [[[[s io'] prd] cmds]|]; [|done].
    split; [|split; [done|]].
    + split; cbn; try (done || lia || apply idleRecorder_wf).
    + destruct (Fetch2_evaluate _ _ _ _ _ _) as [[[[s2 io2] prd2] cmds2]|]; done.
Qed.
End ToyDec.

(** C23: Fetch2 computes its abstract machine, timing aside: for every
    configuration that the constructor accepts (with an output of at most 15
    instructions), every decoder that behaves, every predictor, thread policy
    and history of cycles in which Fetch1 sends lines in order, no assertion
    fails and no byte outside a line is read; for each thread the instructions
    that leave the stage are those of a run of [f2_step] over the lines that
    arrived, with a change of stream dropping what is left; the lines not used
    yet are those in the input buffer; and a prediction sent back to Fetch1 is
    the one of the last instruction of its cycle. *)
Theorem fetch2_refines_machine `{I : Isa} {DC : Decoder I} {DK : DecoderOk DC} (predict : Predictor)
    (W cap n stages L : Z) (more : bool) (policy : ThreadPolicy) (decs : list (Dec DC))
    (cycles : list (Fetch2Io * list Z)) (s0 : Fetch2) :
  newFetch2 W cap n more decs = Ok s0 → W < MAX_FORWARD_INSTS → 0 < n →
  Z.of_nat (length decs) = n → Z.of_nat (length cycles) ≤ 2 ^ 59 →
  f2_obeys predict n stages L policy s0 cycles →
  ∃ s ios, f2_run predict n policy s0 cycles = Ok (s, ios) ∧ Forall predicts_last ios
    ∧ ∀ t d, vget decs t = Ok d → ∃ g b, vget (f2_inputBuffer s) t = Ok b
        ∧ fetch_run predict t (start_at d) [] cycles.*1 (f2_produced ios t) g (contents b).
Proof.
  unfold newFetch2. intros Hnew HW Hn Hd Hlen Hob.
  destruct (Z.ltb_spec W 1); [done|]. destruct (Z.ltb_spec cap 1); [done|]. cbn in Hnew.
  injection Hnew as <-. apply (f2_run_init predict n stages L policy cycles W cap more decs);
    [lia|done..].
Qed.

Lemma fetch2_refines_machine_witness :
  ∃ s ios, f2_run ToyDec.taken 1 SingleThreaded ToyDec.stage ToyDec.cycles = Ok (s, ios)
    ∧ Forall predicts_last ios
    ∧ ∀ t d, vget ToyDec.decoders t = Ok d → ∃ g b, vget (f2_inputBuffer s) t = Ok b
        ∧ fetch_run ToyDec.taken t (start_at d) [] ToyDec.cycles.*1 (f2_produced ios t) g (contents b).
Proof.
  apply (fetch2_refines_machine (DC := ToyDec.dec) (DK := ToyDec.dec_ok) ToyDec.taken 2 2 1 6 3 true SingleThreaded ToyDec.decoders);
    [done|unfold MAX_FORWARD_INSTS; lia|lia|done|cbn; lia|exact ToyDec.cycles_obey].
Defined.

(** Fetch2 numbers instructions consecutively: in every history the fetch
    sequence numbers of a thread's output are 1, 2, 3, ... in order, also
    across faults, predictions and changes of stream. *)
Theorem fetch2_fetchSeqNums_consecutive `{I : Isa} {DC : Decoder I} {DK : DecoderOk DC}
    (predict : Predictor) (W cap n stages L : Z) (more : bool) (policy : ThreadPolicy)
    (decs : list (Dec DC)) (cycles : list (Fetch2Io * list Z)) (s0 : Fetch2) :
  newFetch2 W cap n more decs = Ok s0 → W < MAX_FORWARD_INSTS → 0 < n →
  Z.of_nat (length decs) = n → Z.of_nat (length cycles) ≤ 2 ^ 59 →
  f2_obeys predict n stages L policy s0 cycles →
  ∃ s ios, f2_run predict n policy s0 cycles = Ok (s, ios)
    ∧ ∀ t k o, 0 ≤ t < n → f2_produced ios t !! k = Some o → fetchSeqNum (id o) = u64 (1 + Z.of_nat k).
Proof.
  unfold newFetch2. intros Hnew HW Hn Hd Hlen Hob.
  destruct (Z.ltb_spec W 1); [done|]. destruct (Z.ltb_spec cap 1); [done|]. cbn in Hnew.
  injection Hnew as <-.
  destruct (f2_run_init predict n stages L policy cycles W cap more decs) as (s & ios & Hr & _ & Hth);
    [lia|done..|].
  exists s, ios. split; [done|]. intros t k o Ht Hk. destruct (vget_lt decs t) as (d & Hgd); [lia|].
  destruct (Hth t d Hgd) as (g & b & _ & Hrun).
  by apply (fetch_run_numbers _ _ _ _ _ _ _ _ Hrun).
Qed.

Lemma fetch2_fetchSeqNums_consecutive_witness :
  ∃ s ios, f2_run ToyDec.taken 1 SingleThreaded ToyDec.stage ToyDec.cycles = Ok (s, ios)
    ∧ ∀ t k o, 0 ≤ t < 1 → f2_produced ios t !! k = Some o → fetchSeqNum (id o) = u64 (1 + Z.of_nat k).
Proof.
  apply (fetch2_fetchSeqNums_consecutive (DC := ToyDec.dec) (DK := ToyDec.dec_ok) ToyDec.taken 2 2 1 6 3 true SingleThreaded
    ToyDec.decoders);
    [done|unfold MAX_FORWARD_INSTS; lia|lia|done|cbn; lia|exact ToyDec.cycles_obey].
Defined.

(** A line whose pc lies below the line cannot be the first one of a thread. *)
Lemma fetchOne_stale_pc `{I : Isa} {DC : Decoder I} {DK : DecoderOk DC} (predict : Predictor)
    (info : Fetch2ThreadInfo) (l : ForwardLineData I) (d : Dec DC) (p : PCState) (bytes : list Z) :
  f2_havePC info = false → mismatch info l = false → line_isFault l = false →
  linePc l = Some p → lineBytes l = Some bytes → Z.of_nat (length bytes) < 2 ^ 31 →
  - 2 ^ 31 ≤ entry p l < 0 → fetchOne predict info l d = Stop OutOfBounds.
Proof.
  intros Hh Hm Hf Hp Hb Hlen He. unfold fetchOne. rewrite Hm, Hh. cbn [negb andb orb].
  unfold loadPC. rewrite Hp. cbn [derefPtr rbind]. rewrite Hf. unfold extract, lineChunk. rewrite Hb.
  cbn [derefPtr rbind f2_inputIndex f2_setHavePC f2_setPC f2_setIndex]. fold (entry p l).
  assert (u32 (entry p l) = entry p l + 2 ^ 32) as ->.
  { unfold u32. rewrite <- (Z.mod_add _ 1) by lia. rewrite Z.mod_small; lia. }
  pose proof dk_size. rewrite (proj2 (Z.leb_gt _ _)) by lia. done.
Qed.

(** C38: A line behind a fault line is read out of bounds.  Fetch1 does not
    discard the requests behind a faulting one and gives all lines of a stream
    the pc at which the stream started; Fetch2 forgets its pc at a fault, so
    the next line of the stream is read at the offset of that pc, which is
    negative when the line lies behind it: the copy to the decoder then starts
    outside the line. *)
Theorem fetch2_line_after_fault_out_of_bounds `{I : Isa} {DC : Decoder I} {DK : DecoderOk DC}
    (predict : Predictor) (b : InputBuffer (ForwardLineData I)) (info : Fetch2ThreadInfo) (d : Dec DC)
    (l l2 : ForwardLineData I) (ls : list (ForwardLineData I)) (p : PCState) (bytes : list Z) :
  thread_ok b info → contents b = l :: ls → f2_fetchSeqNum info + 1 < 2 ^ 64 →
  line_isFault l = true → line_isFault l2 = false →
  streamOf l2 = streamOf l → predictionOf l2 = predictionOf l →
  linePc l2 = Some p → lineBytes l2 = Some bytes → Z.of_nat (length bytes) < 2 ^ 31 →
  - 2 ^ 31 ≤ entry p l2 < 0 →
  ∃ info1 d1 o b' info', fetchOne predict info l d = Ok (info1, d1, Some o, None)
    ∧ afterLine l (mismatch info l) None b (bump (Some o) info1) = Ok (b', info', true)
    ∧ fetchOne predict info' l2 d1 = Stop OutOfBounds.
Proof.
  intros Hth Hc Hseq Hf Hf2 Hst Hpr Hp Hb Hlen He. assert (mismatch info l = false) as Hm.
  { pose proof (ls_fresh _ _ (to_lines b info Hth)) as H. rewrite Hc in H. by apply Forall_cons in H as [? _]. }
  destruct (fetchOne_fault predict b info d l ls)
    as (info1 & d1 & o & Hone & b' & info' & Ha & _ & Hh & Hx & Hn); [done..|].
  exists info1, d1, o, b', info'. split; [done|]. split; [done|].
  apply (fetchOne_stale_pc predict info' l2 d1 p bytes); try done.
  revert Hm. unfold mismatch, streamOf, predictionOf in *. by rewrite Hx, Hn, Hst, Hpr.
Qed.

Lemma fetch2_line_after_fault_out_of_bounds_witness :
  let l := mkLine (I := Toy.isa) false 4096 (Some (4096, 0)) 4096 0 lvptData0 (Some 1)
             (mkInstId 0 1 1 1 0 0) None None in
  let l2 := ToyDec.line 4160 64 4096 2 (replicate 64 0) in
  let b := mkInputBuffer (newQueue 2) (Some l) in
  ∃ info1 d1 o b' info', fetchOne (DC := ToyDec.dec) ToyDec.taken newF2Info l ([], false) = Ok (info1, d1, Some o, None)
    ∧ afterLine l (mismatch newF2Info l) None b (bump (Some o) info1) = Ok (b', info', true)
    ∧ fetchOne ToyDec.taken info' l2 d1 = Stop OutOfBounds.
Proof.
  intros l l2 b. apply (fetch2_line_after_fault_out_of_bounds (DC := ToyDec.dec) (DK := ToyDec.dec_ok) ToyDec.taken b newF2Info
    ([], false) l l2 [] (4096, 0) (replicate 64 0)); try done.
  split; [by intros _|split| | |..]; try done.
  - repeat constructor; done.
  - by repeat constructor.
  - intros x y ->%list_elem_of_singleton ->%list_elem_of_singleton. done.
  - by repeat constructor.
  - split; [split; [done|split; [by exists 0|done]]|]. right. split; [done|by left].
Defined.
