(* ===== verification/RiscvDecoder.v ===== *)
(** * The RISC-V decoder and its pc (src/arch/riscv/decoder.cc, pcstate.hh)

    Fetch2 is modelled against the class [Decoder].  This file has the decoder
    that the processor is built with: it takes words of four bytes and finds
    instructions of two and of four bytes in them, also where one straddles two
    words, and keeps the instructions it has decoded in a map.  The
    instructions themselves are generated code, so the decoding of one machine
    instruction is a parameter. *)
From stdpp Require Import gmap.
From S2P Require Import Prelude TimeBuf Buffers Activity LVPT PipeData Cpu Fetch2 BpTables BranchPred.

(** ** The pc (GenericISA::UPCState<4>, RiscvISA::PCState) *)

Record RiscvPC := mkRPC {
  rp_pc : Z;
  rp_npc : Z;
  rp_upc : Z;
  rp_nupc : Z;
  rp_compressed : bool;
  rp_rv32 : bool;
}.
Implicit Types (p : RiscvPC).

(** [set(val)] *)
Definition rp_set (val : Z) : RiscvPC := mkRPC val (u64 (val + 4)) 0 1 false false.
(** [advance()] *)
Definition rp_advance p : RiscvPC :=
  mkRPC (rp_npc p) (u64 (rp_npc p + 4)) (rp_upc p) (rp_nupc p) (rp_compressed p) (rp_rv32 p).
(** [uAdvance()] *)
Definition rp_uAdvance p : RiscvPC :=
  mkRPC (rp_pc p) (rp_npc p) (rp_nupc p) (u16 (rp_nupc p + 1)) (rp_compressed p) (rp_rv32 p).
(** [uEnd()] *)
Definition rp_uEnd p : RiscvPC :=
  mkRPC (rp_npc p) (u64 (rp_npc p + 4)) 0 1 (rp_compressed p) (rp_rv32 p).
(** [uReset()] *)
Definition rp_uReset p : RiscvPC := mkRPC (rp_pc p) (rp_npc p) 0 1 (rp_compressed p) (rp_rv32 p).
(** [equals(other)] *)
Definition rp_equals p (other : RiscvPC) : bool :=
  (rp_pc p =? rp_pc other) && (rp_upc p =? rp_upc other) && (rp_npc p =? rp_npc other) && (rp_nupc p =? rp_nupc other).
(** [branching()] *)
Definition rp_branching p : bool :=
  negb (rp_npc p =? u64 (rp_pc p + (if rp_compressed p then 2 else 4))) || negb (rp_nupc p =? u16 (rp_upc p + 1)).
(** [npc(val)] and [compressed(c)] *)
Definition rp_setNext (npc : Z) (c : bool) p : RiscvPC := mkRPC (rp_pc p) npc (rp_upc p) (rp_nupc p) c (rp_rv32 p).

(** ** The instructions *)

Section riscv.
Context (G : Isa).       (* the generated instructions *)

(** [RiscvStaticInst::advancePC(pc)] and [RiscvMicroInst::advancePC(pc)] *)
Definition riscv_advancePC (si : @StaticInst G) p : RiscvPC :=
  if @isMicroop G si then if @isLastMicroop G si then rp_uEnd p else rp_uAdvance p else rp_advance p.
(** [buildRetPC(cur_pc, call_pc)] *)
Definition riscv_buildRetPC (si : @StaticInst G) (cur_pc call_pc : RiscvPC) : RiscvPC := rp_advance call_pc.

(** the instructions with the RISC-V pc *)
#[local] Instance riscv_isa : Isa := {|
  StaticInst := @StaticInst G;
  PCState := RiscvPC;
  instAddr := rp_pc;
  microPC := rp_upc;
  uReset := rp_uReset;
  pc_equals := rp_equals;
  isNullInst := @isNullInst G;
  nullStaticInst := @nullStaticInst G;
  nullStaticInst_isNull := @nullStaticInst_isNull G;
  opClass := @opClass G;
  getEMI := @getEMI G;
  srcRegs := @srcRegs G;
  destRegs := @destRegs G;
  isMemRef := @isMemRef G;
  isLoad := @isLoad G;
  isStore := @isStore G;
  isAtomic := @isAtomic G;
  isPrefetch := @isPrefetch G;
  isDataPrefetch := @isDataPrefetch G;
  isControl := @isControl G;
  isSyscall := @isSyscall G;
  isQuiesce := @isQuiesce G;
  isMacroop := @isMacroop G;
  isMicroop := @isMicroop G;
  isLastMicroop := @isLastMicroop G;
  isSerializeAfter := @isSerializeAfter G;
  isSquashAfter := @isSquashAfter G;
  isFullMemBarrier := @isFullMemBarrier G;
  fetchMicroop := @fetchMicroop G;
  advancePC := riscv_advancePC;
|}.

(** ** The decoder *)

Variable decodeInst : Z → @StaticInst G.

Record RiscvDecoder := mkRD {
  instMap : gmap Z (@StaticInst G);
  mid : bool;
  emi : Z;
  machInst : Z;
  instDone : bool;
  outOfBytes : bool;
}.
Implicit Types (d : RiscvDecoder).

(** [bits(val, first, last)] *)
Definition bits (val first last : Z) : Z := Z.land (Z.shiftr val last) (mask (first - last + 1)).
(** [insertBits(val, first, last, bit_val)] of 64 bits *)
Definition insertBits (val first last bit_val : Z) : Z :=
  let bmask := Z.shiftl (mask (first - last + 1)) last in
  Z.lor (Z.land val (u64 (Z.lnot bmask))) (Z.land (u64 (Z.shiftl bit_val last)) bmask).
(** [compressed(inst)] *)
Definition compressed (inst : Z) : bool := Z.land inst 3 <? 3.

(** [Decoder(p)]; [machInst] is not initialised *)
Definition newRiscvDecoder (garbage : Z) : RiscvDecoder := mkRD ∅ false 0 garbage false true.
(** [reset()]; [aligned] is never read *)
Definition rd_reset d : RiscvDecoder := mkRD (instMap d) false 0 (machInst d) (instDone d) (outOfBytes d).
(** the bytes written to [moreBytesPtr()], as a little-endian number *)
Definition rd_copy d (bytes : list Z) : RiscvDecoder :=
  mkRD (instMap d) (mid d) (emi d) (foldr (λ b acc, b + 256 * acc) 0 bytes) (instDone d) (outOfBytes d).
(** [moreBytes(pc, fetchPC)] *)
Definition rd_moreBytes d p (fetchPC : Z) : res RiscvDecoder :=
  let inst := machInst d in
  if rp_pc p `mod` 4 =? 0 then
    let e := if compressed inst then bits inst 15 0 else inst in
    Ok (mkRD (instMap d) (mid d) e inst true (negb (compressed e)))
  else if mid d then
    check (bits (emi d) 31 16 =? 0);
    Ok (mkRD (instMap d) false (insertBits (emi d) 31 16 inst) inst true false)
  else
    let e := bits inst 31 16 in
    Ok (mkRD (instMap d) (negb (compressed e)) e inst (compressed e) true).
(** [decode(mach_inst, addr)] *)
Definition rd_decodeInst d (mach_inst : Z) : StaticInst * RiscvDecoder :=
  let si := match instMap d !! mach_inst with Some si => si | None => nullStaticInst end in
  let si := if isNullInst si then decodeInst mach_inst else si in
  (si, mkRD (<[mach_inst := si]> (instMap d)) (mid d) (emi d) (machInst d) (instDone d) (outOfBytes d)).
(** [decode(next_pc)] *)
Definition rd_decode d p : StaticInst * RiscvPC * RiscvDecoder :=
  if negb (instDone d) then (nullStaticInst, p, d)
  else
    let d := mkRD (instMap d) (mid d) (emi d) (machInst d) false (outOfBytes d) in
    let p := rp_setNext (u64 (rp_pc p + (if compressed (emi d) then 2 else 4))) (compressed (emi d)) p in
    let '(si, d) := rd_decodeInst d (emi d) in
    (si, p, d).

(** the decoder as Fetch2 uses it; a failed assertion stays failed *)
#[local] Instance riscv_decoder : Decoder riscv_isa := {|
  Dec := res RiscvDecoder;
  moreBytesSize := 4;
  pcMask := u64 (Z.lnot (mask 2));
  dec_reset := λ x, d ← x; Ok (rd_reset d);
  dec_copy := λ x bytes, d ← x; Ok (rd_copy d bytes);
  moreBytes := λ x q a, d ← x; rd_moreBytes d q a;
  instReady := λ x, match x with Ok d => instDone d | Stop _ => false end;
  needMoreBytes := λ x, match x with Ok d => outOfBytes d | Stop _ => true end;
  decode := λ x q, match x with
                   | Ok d => let '(si, q, d) := rd_decode d q in (si, q, Ok d)
                   | Stop e => (nullStaticInst, q, Stop e)
                   end;
|}.
End riscv.
