(* ===== verification/RiscvFetch.v ===== *)
(** * Fetch2 with the RISC-V decoder parses memory

    The instructions that the machine of Fetch2 ([Fetch2Spec]) finds on the
    lines of a stream, with the RISC-V decoder, are those of a reference parse
    of memory: two bytes where the low bits of the first one say so, four
    otherwise, wherever the words and the lines are cut. *)
From stdpp Require Import gmap.
From S2P Require Import Prelude TimeBuf Buffers Activity LVPT PipeData Cpu Repack Fetch2 Fetch2Spec BpTables RiscvDecoder.

(** ** Bits *)

Lemma bits_mod w first : 0 ≤ first < 63 → bits w first 0 = w `mod` 2 ^ (first + 1).
Proof.
  intros H. unfold bits, mask. rewrite Z.shiftr_0_r, Z.sub_0_r. destruct (Z.leb_spec 64 (first + 1)); [lia|].
  rewrite Z.sub_1_r, <- Z.ones_equiv. by apply Z.land_ones; lia.
Qed.

Lemma bits_high w : 0 ≤ w < 2 ^ 32 → bits w 31 16 = w `div` 2 ^ 16.
Proof.
  intros H. unfold bits. change (mask (31 - 16 + 1)) with (Z.ones 16). rewrite Z.land_ones by lia.
  rewrite Z.shiftr_div_pow2 by lia. apply Z.mod_small. split; [by apply Z.div_pos; lia|]. apply Z.div_lt_upper_bound; lia.
Qed.

Lemma testbit_above e n k : 0 ≤ e < 2 ^ n → 0 ≤ n ≤ k → Z.testbit e k = false.
Proof.
  intros He Hk. rewrite <- (Z.mod_small e (2 ^ n)) by done. by apply Z.mod_pow2_bits_high; lia.
Qed.

Lemma insertBits_high e w : 0 ≤ e < 2 ^ 16 → 0 ≤ w < 2 ^ 32 → insertBits e 31 16 w = e + 2 ^ 16 * (w `mod` 2 ^ 16).
Proof.
  intros He Hw. unfold insertBits. change (Z.shiftl (mask (31 - 16 + 1)) 16) with (Z.shiftl (Z.ones 16) 16).
  assert (Z.land e (u64 (Z.lnot (Z.shiftl (Z.ones 16) 16))) = e) as ->.
  { apply Z.bits_inj'. intros k Hk. rewrite Z.land_spec. destruct (decide (k < 16)) as [Hlt|Hge].
    - unfold u64. rewrite Z.mod_pow2_bits_low by lia. rewrite Z.lnot_spec, Z.shiftl_spec_low by lia. by rewrite andb_true_r.
    - by rewrite (testbit_above e 16) by lia. }
  assert (Z.land (u64 (Z.shiftl w 16)) (Z.shiftl (Z.ones 16) 16) = Z.shiftl (w `mod` 2 ^ 16) 16) as ->.
  { rewrite Z.shiftl_mul_pow2 by lia. rewrite u64_id by lia. rewrite <- Z.shiftl_mul_pow2 by lia.
    rewrite <- Z.shiftl_land, Z.land_ones by lia. done. }
  assert (Z.land e (Z.shiftl (w `mod` 2 ^ 16) 16) = 0) as H0.
  { apply Z.bits_inj'. intros k Hk. rewrite Z.land_spec, Z.bits_0. destruct (decide (k < 16)).
    - by rewrite (Z.shiftl_spec_low _ 16) by lia; rewrite andb_false_r.
    - by rewrite (testbit_above e 16) by lia. }
  pose proof (Z.add_lor_land e (Z.shiftl (w `mod` 2 ^ 16) 16)) as E. rewrite Z.shiftl_mul_pow2 in * by lia. lia.
Qed.

Lemma compressed_mod x y : x `mod` 4 = y `mod` 4 → compressed x = compressed y.
Proof. intros H. unfold compressed. change 3 with (Z.ones 2). rewrite !Z.land_ones by lia. cbn [Z.pow]. change (2 ^ 2) with 4. by rewrite H. Qed.

(** ** Memory *)

Section parse.
Variable mem : Z → Z.       (* the byte at an address *)

Definition half (a : Z) : Z := mem a + 256 * mem (a + 1).
Definition word (a : Z) : Z := half a + 2 ^ 16 * half (a + 2).
(** the machine instruction at an address and its length *)
Definition parse (a : Z) : Z * Z := if half a `mod` 4 <? 3 then (half a, 2) else (word a, 4).
End parse.

Section decoder.
Context (G : Isa) (decodeInst : Z → @StaticInst G) (mem : Z → Z).
Hypothesis decodeInst_some : ∀ w, isNullInst (decodeInst w) = false.
Hypothesis mem_byte : ∀ a, 0 ≤ mem a < 256.
Implicit Types (d : RiscvDecoder G) (p : RiscvPC).

Lemma half_range a : 0 ≤ half mem a < 2 ^ 16.
Proof. unfold half. pose proof (mem_byte a). pose proof (mem_byte (a + 1)). lia. Qed.
Lemma word_range a : 0 ≤ word mem a < 2 ^ 32.
Proof. unfold word. pose proof (half_range a). pose proof (half_range (a + 2)). lia. Qed.
Lemma word_low a : word mem a `mod` 2 ^ 16 = half mem a.
Proof.
  unfold word. pose proof (half_range a). rewrite Z.mul_comm, Z.mod_add by lia. by apply Z.mod_small.
Qed.
Lemma word_high a : word mem a `div` 2 ^ 16 = half mem (a + 2).
Proof.
  unfold word. pose proof (half_range a). rewrite Z.mul_comm, Z.div_add by lia. rewrite Z.div_small by lia. lia.
Qed.
Lemma word_mod4 a : word mem a `mod` 4 = half mem a `mod` 4.
Proof. unfold word. replace (2 ^ 16 * half mem (a + 2)) with (2 ^ 14 * half mem (a + 2) * 4) by lia. by rewrite Z.mod_add. Qed.
Lemma compressed_half x : 0 ≤ x → compressed x = (x `mod` 4 <? 3).
Proof. intros H. unfold compressed. change 3 with (Z.ones 2) at 1. by rewrite Z.land_ones by lia. Qed.

Lemma parse_spec a : parse mem a = if compressed (half mem a) then (half mem a, 2) else (word mem a, 4).
Proof. unfold parse. by rewrite compressed_half by (pose proof (half_range a); lia). Qed.

(** ** The decoder on a word *)

(** the map only has what [decodeInst] gives *)
Definition cacheOk d : Prop := ∀ w si, instMap G d !! w = Some si → si = decodeInst w.

(** between two words: the next word is the one at [a], and the instruction at
    [pc] is in it, in its upper half, or has its first half before it *)
Record at_pos d (pc a : Z) : Prop := {
  ap_cache : cacheOk d;
  ap_done : instDone G d = false;
  ap_word : a `mod` 4 = 0;
  ap_pc : if mid G d then pc = a - 2 ∧ emi G d = half mem pc ∧ compressed (half mem pc) = false
          else pc = a ∨ pc = a + 2;
}.

(** after a word is given: an instruction that is ready, or the rest is awaited *)
Record ready d (pc a : Z) : Prop := {
  rd_cache : cacheOk d;
  rd_done : instDone G d = true;
  rd_mid : mid G d = false;
  rd_emi : emi G d = (parse mem pc).1;
  rd_next : a `mod` 4 = 0 ∧
    let a' := if outOfBytes G d then a + 4 else a in pc + (parse mem pc).2 = a' ∨ pc + (parse mem pc).2 = a' + 2;
}.

Lemma feed d p a x : at_pos d (rp_pc p) a → ∃ d', rd_moreBytes G (mkRD G (instMap G d) (mid G d) (emi G d) (word mem a) (instDone G d) (outOfBytes G d)) p x = Ok d' ∧
  if instDone G d' then ready d' (rp_pc p) a else outOfBytes G d' = true ∧ at_pos d' (rp_pc p) (a + 4).
Proof.
  intros [Hc Hd Ha Hpc]. pose proof (word_range a) as Hw. unfold rd_moreBytes. cbn.
  assert ((a + 4) `mod` 4 = 0) as Ha4 by (rewrite Z.add_mod, Ha by lia; done).
  destruct (mid G d) eqn:Hm.
  - destruct Hpc as (Hpc & He & Hcomp).
    destruct (Z.eqb_spec (rp_pc p `mod` 4) 0) as [E|_].
    { exfalso. rewrite Hpc in E. rewrite <- Zminus_mod_idemp_l, Ha in E. done. }
    rewrite He. pose proof (half_range (rp_pc p)) as Hh. rewrite bits_high, Z.div_small by lia. cbn.
    eexists. split; [done|]. cbn. split; cbn; try done.
    + rewrite insertBits_high by done. rewrite word_low, parse_spec, Hcomp. cbn. unfold word. by replace (rp_pc p + 2) with a by lia.
    + rewrite parse_spec, Hcomp. cbn. split; [done|]. right. lia.
  - destruct Hpc as [Hpc|Hpc].
    + destruct (Z.eqb_spec (rp_pc p `mod` 4) 0) as [_|E]; [|by rewrite Hpc, Ha in E]. eexists. split; [done|]. cbn.
      assert (compressed (word mem a) = compressed (half mem a)) as E by (apply compressed_mod, word_mod4). rewrite E.
      destruct (compressed (half mem a)) eqn:Hcomp.
      * rewrite bits_mod by lia. rewrite word_low. split; cbn; try done; rewrite Hpc, parse_spec, Hcomp; [done|].
        cbn. split; [done|]. right. lia.
      * rewrite E. split; cbn; try done; rewrite Hpc, parse_spec, Hcomp; [done|]. cbn. split; [done|]. left. lia.
    + destruct (Z.eqb_spec (rp_pc p `mod` 4) 0) as [E|_].
      { exfalso. rewrite Hpc in E. rewrite <- Zplus_mod_idemp_l, Ha in E. done. }
      rewrite bits_high, word_high by done. eexists. split; [done|]. cbn. rewrite <- Hpc.
      destruct (compressed (half mem (rp_pc p))) eqn:Hcomp.
      * split; cbn; try done; rewrite parse_spec, Hcomp; [done|]. cbn. split; [done|]. left. lia.
      * split; [done|]. split; cbn; try done. split_and!; [lia|done|done].
Qed.

Lemma decode_ready d p a : ready d (rp_pc p) a → ∃ d',
  rd_decode G decodeInst d p = (decodeInst (parse mem (rp_pc p)).1,
    rp_setNext (u64 (rp_pc p + (parse mem (rp_pc p)).2)) ((parse mem (rp_pc p)).2 =? 2) p, d') ∧
  outOfBytes G d' = outOfBytes G d ∧
  at_pos d' (rp_pc p + (parse mem (rp_pc p)).2) (if outOfBytes G d then a + 4 else a).
Proof.
  intros [Hc Hd Hm He [Ha Hn]]. unfold rd_decode. rewrite Hd. cbn. unfold rd_decodeInst. cbn. rewrite He.
  assert (compressed (parse mem (rp_pc p)).1 = ((parse mem (rp_pc p)).2 =? 2)) as E.
  { rewrite parse_spec. destruct (compressed (half mem (rp_pc p))) eqn:Hcomp; cbn; [done|].
    rewrite (compressed_mod _ (half mem (rp_pc p))) by apply word_mod4. done. }
  rewrite E.
  match goal with |- context [if isNullInst ?x then _ else _] => assert ((if isNullInst x then decodeInst (parse mem (rp_pc p)).1 else x) = decodeInst (parse mem (rp_pc p)).1) as -> end.
  { destruct (instMap G d !! _) as [si|] eqn:El; [rewrite (Hc _ _ El); by rewrite decodeInst_some|by rewrite nullStaticInst_isNull]. }
  assert ((if (parse mem (rp_pc p)).2 =? 2 then 2 else 4) = (parse mem (rp_pc p)).2) as ->.
  { rewrite parse_spec. by destruct (compressed (half mem (rp_pc p))). }
  eexists. split; [done|]. split; [done|].
  split; cbn; [|done| |by rewrite Hm].
  - intros w si Hw. cbn in Hw. apply lookup_insert_Some in Hw as [[<- <-]|[_ Hw]]; [done|by apply Hc].
  - destruct (outOfBytes G d); [|done]. rewrite Z.add_mod, Ha by lia. done.
Qed.
End decoder.

(** ** Fetch2 on the lines of a stream *)

Section stream.
Context (G : Isa) (decodeInst : Z → @StaticInst G) (mem : Z → Z).
Hypothesis decodeInst_some : ∀ w, isNullInst (decodeInst w) = false.
Hypothesis decodeInst_macro : ∀ w, isMicroop (decodeInst w) = false.
Hypothesis mem_byte : ∀ a, 0 ≤ mem a < 256.
#[local] Instance RI : Isa := riscv_isa G.
#[local] Instance RD : Decoder RI := riscv_decoder G decodeInst.
Notation DynInst := (MyMinorDynInst RI).
Notation Line := (ForwardLineData RI).
Notation at_pos := (at_pos G decodeInst mem).
Implicit Types (g : Fetching) (l : Line) (ls : list Line).

#[export] Instance riscv_decoder_ok : DecoderOk RD.
Proof.
  split; cbn; [lia|..].
  - intros [d|e] p a; [|done]. cbn. intros _. unfold rd_moreBytes. destruct (_ =? 0); [done|].
    destruct (mid G d); [|done]. by destruct (bits _ _ _ =? 0).
  - intros [d|e] p; [|done]. unfold rd_decode. intros ->. cbn.
    match goal with |- context [if ?b then decodeInst _ else _] => destruct b eqn:E end; [apply decodeInst_some|done].
Qed.

(** a line of a stream and a prediction that holds the memory from [a] on *)
Definition lineAt (s pn a : Z) l : Prop :=
  lineBaseAddr l = a ∧ streamOf l = s ∧ predictionOf l = pn ∧ line_isFault l = false ∧
  lineBytes l = Some ((λ k, mem (a + k)) <$> zrange 0 (lineWidth l - 1)) ∧
  a `mod` 4 = 0 ∧ lineWidth l `mod` 4 = 0 ∧ 0 < lineWidth l ∧ 0 ≤ a ∧ a + lineWidth l + 4 ≤ 2 ^ 64.

(** consecutive lines *)
Fixpoint linesAt (s pn a : Z) ls : Prop :=
  match ls with
  | [] => True
  | l :: ls => lineAt s pn a l ∧ linesAt s pn (a + lineWidth l) ls
  end.

(** the instruction of memory at [a] *)
Definition instAt (a : Z) (i : DynInst) : Prop :=
  staticInst i = decodeInst (parse mem a).1 ∧ fault i = None ∧
  ∃ p, pc i = Some p ∧ rp_pc p = a ∧ rp_npc p = u64 (a + (parse mem a).2) ∧ rp_compressed p = ((parse mem a).2 =? 2).

(** instructions one after the other from [a] on, up to one that is predicted taken *)
Fixpoint parses (a : Z) (os : list DynInst) : Prop :=
  match os with
  | [] => True
  | i :: os => instAt a i ∧ if predictedTaken i then os = [] else parses (a + (parse mem a).2) os
  end.

(** in the stream, before the instruction at [pc]; [a] is the address of the first line *)
Record inStream (s pn a pc : Z) g ls : Prop := {
  is_lines : linesAt s pn a ls;
  is_pred : g_prediction g = pn;
  is_at : ∃ p i d, g_at g = Some (p, i, s) ∧ g_dec g = Ok d ∧ rp_pc p = pc ∧ at_pos d pc (a + i) ∧ 0 ≤ i ∧
            match ls with [] => i = 0 | l :: _ => i < lineWidth l end;
}.

Lemma zrange_chunk f i w : 0 ≤ i → i + 4 ≤ w →
  take 4 (drop (Z.to_nat i) (f <$> zrange 0 (w - 1))) = [f i; f (i + 1); f (i + 2); f (i + 3)] :> list Z.
Proof.
  intros Hi Hw. apply list_eq. intros k. destruct (decide (k < 4)%nat) as [Hk|Hk].
  - rewrite lookup_take_lt, lookup_drop, list_lookup_fmap, zrange_lookup by lia. cbn.
    destruct k as [|[|[|[|k]]]]; [..|lia]; cbn [lookup list_lookup]; do 2 f_equal; lia.
  - rewrite lookup_take_ge by lia. symmetry. apply lookup_ge_None. cbn. lia.
Qed.

(** the bytes that the decoder gets *)
Lemma offer_word s pn a l p i d bytes : lineAt s pn a l → lineBytes l = Some bytes → 0 ≤ i → i + 4 ≤ lineWidth l →
  instDone G d = false →
  offer l bytes p i (Ok d) = rd_moreBytes G (mkRD G (instMap G d) (mid G d) (emi G d) (word mem (a + i)) false (outOfBytes G d)) p (u64 (lineBaseAddr l + i)).
Proof.
  intros (_ & _ & _ & _ & Hb & _) Hb' Hi Hw Hd. rewrite Hb in Hb'. injection Hb' as <-. unfold offer.
  change (Z.to_nat moreBytesSize) with 4%nat. rewrite (zrange_chunk (λ k, mem (a + k))) by done. cbn. rewrite Hd. unfold rd_copy. rewrite Hd.
  do 2 f_equal. cbn. unfold word, half. replace (a + i + 1) with (a + (i + 1)) by lia. replace (a + i + 2) with (a + (i + 2)) by lia.
  replace (a + (i + 2) + 1) with (a + (i + 3)) by lia. lia.
Qed.
(** going on after a word *)
Lemma goOn_inStream s pn a pc' g l ls seq p' i' d' g1 o f : lineAt s pn a l → linesAt s pn (a + lineWidth l) ls → g_prediction g = pn →
  goOn g l seq p' i' (Ok d') o = (g1, o, f) → rp_pc p' = pc' → at_pos d' pc' (a + i') → 0 ≤ i' ≤ lineWidth l →
  ∃ a1, inStream s pn a1 pc' g1 (rest f l ls).
Proof.
  intros Hl Hls Hp Hg Hpc Hpos Hi. pose proof Hl as (_ & Hs & _). unfold goOn in Hg. destruct (Z.eqb_spec i' (lineWidth l)) as [->|Hne];
    injection Hg as <- <-; cbn.
  - exists (a + lineWidth l). split; cbn; [done|done|]. exists p', 0, d'. rewrite Hs. split_and!; [done..|by rewrite Z.add_0_r|done|].
    destruct ls as [|l' ls]; [done|]. destruct Hls as [(_ & _ & _ & _ & _ & _ & _ & Hw & _) _]. done.
  - exists a. split; cbn; [by split|done|]. exists p', i', d'. rewrite Hs. split_and!; [done..|lia|lia].
Qed.

Lemma goOn_out g l seq p' i' (d' : Dec RD) o g1 o' f : goOn g l seq p' i' d' o = (g1, o', f) → o' = o.
Proof. unfold goOn. by intros [= _ -> _]. Qed.

Lemma stream_step s pn a pc0 predict g l ls g1 o f : inStream s pn a pc0 g (l :: ls) → f2_step predict g l = Some (g1, o, f) →
  match o with
  | None => ∃ a1, inStream s pn a1 pc0 g1 (rest f l ls)
  | Some i => instAt pc0 i ∧
      if predictedTaken i then f = Next ∧ g_at g1 = None ∧ g_expected g1 = s ∧ g_prediction g1 = u64 (pn + 1) ∧ is_Ok (g_dec g1)
      else ∃ a1, inStream s pn a1 (pc0 + (parse mem pc0).2) g1 (rest f l ls)
  end.
Proof.
  intros [[Hl Hls] Hp (p & i & d & Hat & Hdec & Hpc & Hpos & Hi & Hiw)] Hstep. unfold f2_step in Hstep.
  pose proof Hl as (Hb & Hs & Hpn & Hf & Hby & Ha & Hw4 & Hw & H0 & Hmax). rewrite Hp, Hpn, Z.eqb_refl, andb_false_r in Hstep.
  unfold start in Hstep. rewrite Hat, Hs, Z.eqb_refl, Hdec, Hf, Hby in Hstep.
  assert (i `mod` 4 = 0) as Hi4.
  { pose proof (ap_word _ _ _ _ _ _ Hpos) as E. rewrite Z.add_mod, Ha, Z.add_0_l, Z.mod_mod in E by lia. done. }
  assert (i + 4 ≤ lineWidth l) as Hi8.
  { apply Z.mod_divide in Hi4 as (u & ->); [|lia]. apply Z.mod_divide in Hw4 as (v & Hv); [|lia]. rewrite Hv in *. lia. }
  rewrite (offer_word s pn a l p i d _ Hl Hby) in Hstep; [|done|done|apply Hpos].
  rewrite <- Hpc in Hpos. destruct (feed G decodeInst mem mem_byte d p (a + i) (u64 (lineBaseAddr l + i)) Hpos) as (d1 & E1 & Hd1).
  rewrite (ap_done _ _ _ _ _ _ Hpos) in E1. rewrite E1 in Hstep. clear E1. cbn in Hstep. destruct (instDone G d1) eqn:Hdone.
  - destruct (decode_ready G decodeInst mem decodeInst_some mem_byte d1 p (a + i) Hd1) as (d2 & E2 & Hout & Hpos2). rewrite E2 in Hstep.
    cbn in Hstep. rewrite Hout in Hstep. rewrite Hpc in *. set (si := decodeInst (parse mem pc0).1) in *.
    set (p' := rp_setNext (u64 (pc0 + (parse mem pc0).2)) ((parse mem pc0).2 =? 2) p) in *.
    assert (∀ tr gu, instAt pc0 (found g l si p' None (lineLvptOut l) tr gu)) as Hinst.
    { intros tr gu. split_and!; [done..|]. exists p'. by split_and!. }
    assert (rp_pc (riscv_advancePC G si (rp_uReset p')) = pc0 + (parse mem pc0).2) as Hnext.
    { unfold riscv_advancePC. unfold si. rewrite decodeInst_macro. cbn. apply u64_id.
      destruct (rd_next _ _ _ _ _ _ Hd1) as [_ Hn]. cbn zeta in Hn. destruct (outOfBytes G d1); lia. }
    match type of Hstep with match ?x with _ => _ end = _ => destruct x as [t|] eqn:Hgu end.
    + injection Hstep as <- <- <-. split; [done|]. cbn. split_and!; try done. by eexists.
    + apply (inj Some) in Hstep as Hgo.
      assert (o = Some (found g l si p' None (lineLvptOut l) (isControl si || isSyscall si) None)) as ->.
      { by apply goOn_out in Hgo. }
      split; [done|]. cbn. eapply (goOn_inStream s pn a); [done..| |].
      * destruct (outOfBytes G d1); [by rewrite Z.add_assoc|done].
      * destruct (outOfBytes G d1); lia.
  - apply (inj Some) in Hstep as Hgo. assert (o = None) as -> by (by apply goOn_out in Hgo).
    destruct Hd1 as [Hout Hpos1]. rewrite Hpc in Hpos1. eapply (goOn_inStream s pn a); [done..| |lia].
    by rewrite Z.add_assoc.
Qed.

(** the rest of a stream after a prediction *)
Record dropping (s pn : Z) g ls : Prop := {
  dr_lines : ∃ a, linesAt s pn a ls;
  dr_at : g_at g = None;
  dr_expected : g_expected g = s;
  dr_pred : g_prediction g ≠ pn;
  dr_dec : is_Ok (g_dec g);
}.

Lemma dropping_step s pn predict g l ls : dropping s pn g (l :: ls) →
  ∃ g1, f2_step predict g l = Some (g1, None, Next) ∧ dropping s pn g1 ls.
Proof.
  intros [(a & (Hb & Hst & Hpn & _) & Hls) Hat He Hp Hd]. unfold f2_step. rewrite He, Hst, Z.eqb_refl, Hpn.
  rewrite (proj2 (Z.eqb_neq _ _) Hp). cbn. eexists. split; [done|]. split; try done. by eexists.
Qed.

Lemma next_prediction pn : 0 ≤ pn < 2 ^ 64 → u64 (pn + 1) ≠ pn.
Proof.
  intros Hpn E. unfold u64 in E. destruct (decide (pn + 1 = 2 ^ 64)) as [E'|]; [rewrite E', Z.mod_same in E by lia; lia|].
  rewrite Z.mod_small in E; lia.
Qed.

Lemma stream_next s pn a pc0 predict g l ls g1 o f : 0 ≤ pn < 2 ^ 64 → inStream s pn a pc0 g (l :: ls) →
  f2_step predict g l = Some (g1, o, f) →
  match o with
  | None => ∃ a1, inStream s pn a1 pc0 g1 (rest f l ls)
  | Some i => instAt pc0 i ∧ if predictedTaken i then dropping s pn g1 (rest f l ls)
                             else ∃ a1, inStream s pn a1 (pc0 + (parse mem pc0).2) g1 (rest f l ls)
  end.
Proof.
  intros Hpn Hi Hs. pose proof (stream_step s pn a pc0 predict g l ls g1 o f Hi Hs) as H. destruct o as [i|]; [|done].
  destruct H as [Hinst H]. split; [done|]. destruct (predictedTaken i); [|done].
  destruct H as (-> & Hat & He & Hp & Hd). pose proof (is_lines _ _ _ _ _ _ Hi) as [_ Hls].
  split; try done; [by eexists|]. rewrite Hp. by apply next_prediction.
Qed.

Lemma dropping_fetches s pn predict g ls os g' ls' : dropping s pn g ls → fetches predict g ls os g' ls' → os = [] ∧ dropping s pn g' ls'.
Proof.
  intros Hd Hf. induction Hf as [|g l ls g1 o f os g2 ls2 Hs _ IH]; [done|].
  destruct (dropping_step s pn predict g l ls Hd) as (g1' & E & Hd1). rewrite Hs in E. injection E as -> -> ->. by apply IH.
Qed.

Lemma stream_fetches s pn a pc0 predict g ls os g' ls' : 0 ≤ pn < 2 ^ 64 → inStream s pn a pc0 g ls → fetches predict g ls os g' ls' →
  parses pc0 os ∧ (dropping s pn g' ls' ∨ ∃ a' pc', inStream s pn a' pc' g' ls').
Proof.
  intros Hpn Hi Hf. revert a pc0 Hi. induction Hf as [|g l ls g1 o f os g2 ls2 Hs Hf IH]; intros a pc0 Hi; [by split; [|right; eauto]|].
  pose proof (stream_next s pn a pc0 predict g l ls g1 o f Hpn Hi Hs) as H. destruct o as [i|]; cbn.
  - destruct H as [Hinst H]. destruct (predictedTaken i).
    + destruct (dropping_fetches s pn predict _ _ _ _ _ H Hf) as [-> Hd]. by split; [split|left].
    + destruct H as (a1 & Hi1). destruct (IH _ _ Hi1) as [Hp Hr]. by split; [split|].
  - destruct H as (a1 & Hi1). exact (IH _ _ Hi1).
Qed.

(** the machine always has a next step on these lines, and the decoder has not failed *)
Lemma inStream_goes_on s pn a pc0 predict g l ls : inStream s pn a pc0 g (l :: ls) →
  is_Ok (g_dec g) ∧ is_Some (f2_step predict g l).
Proof.
  intros [[Hl Hls] Hp (p & i & d & Hat & Hdec & _)]. split; [by exists d|].
  pose proof Hl as (Hb & Hs & Hpn & Hf & Hby & _). unfold f2_step. rewrite Hp, Hpn, Z.eqb_refl, andb_false_r.
  unfold start. rewrite Hat, Hs, Z.eqb_refl, Hf, Hby. destruct (instReady _); [|done]. destruct (decode _ p) as [[si q] d'].
  by destruct (if _ || _ then _ else _).
Qed.

(** the first line of the stream gives the pc *)
Definition enter g l (p0 : RiscvPC) : Fetching :=
  mkFetching (Some (p0, entry p0 l, streamOf l)) (g_seq g) (g_expected g) (g_prediction g) (dec_reset (g_dec g)).

Lemma enter_step predict g l p0 : g_at g = None → linePc l = Some p0 → g_prediction g = predictionOf l →
  f2_step predict (enter g l p0) l = f2_step predict g l.
Proof.
  intros Hat Hpc Hp. unfold f2_step, start. cbn [enter g_at g_expected g_prediction g_seq g_dec].
  by rewrite Hat, Hpc, Hp, !Z.eqb_refl, andb_false_r.
Qed.

Lemma land_pcMask x : 0 ≤ x < 2 ^ 64 → Z.land x pcMask = x - x `mod` 4.
Proof.
  intros Hx. assert (Z.land x pcMask = Z.ldiff x (Z.ones 2)) as ->.
  { apply Z.bits_inj'. intros k Hk. rewrite Z.land_spec, Z.ldiff_spec. cbn. unfold u64. change (mask 2) with (Z.ones 2).
    destruct (decide (k < 64)).
    - by rewrite Z.mod_pow2_bits_low, Z.lnot_spec by lia.
    - by rewrite (testbit_above x 64) by lia. }
  rewrite Z.ldiff_ones_r by lia. rewrite Z.shiftl_mul_pow2, Z.shiftr_div_pow2 by lia. change (2 ^ 2) with 4.
  pose proof (Z.div_mod x 4). lia.
Qed.

Lemma enter_fetches predict g l ls os g' ls' p0 : g_at g = None → linePc l = Some p0 → g_prediction g = predictionOf l →
  fetches predict g (l :: ls) os g' ls' → fetches predict (enter g l p0) (l :: ls) os g' ls' ∨ os = [] ∧ g' = g ∧ ls' = l :: ls.
Proof.
  intros Hat Hpc Hp Hf. inversion Hf as [|? ? ? g1 o f os1 ? ? Hs1 Hf1]; subst; [by right|].
  left. econstructor; [|exact Hf1]. by rewrite enter_step.
Qed.

Lemma enter_inStream s pn a g l ls p0 d : linesAt s pn a (l :: ls) → rp_pc p0 `mod` 2 = 0 → a ≤ rp_pc p0 < a + lineWidth l →
  g_prediction g = pn → g_dec g = Ok d → cacheOk G decodeInst d → instDone G d = false →
  inStream s pn a (rp_pc p0) (enter g l p0) (l :: ls).
Proof.
  intros Hls Hev Hr Hp Hd Hc Hdone. pose proof (proj1 Hls) as (Hb & Hs & Hpl & _ & _ & Ha & _ & _ & H0 & Hmax).
  split; [done|done|]. exists (p0 : @PCState RI), (entry (p0 : @PCState RI) l), (rd_reset G d). unfold enter. cbn [g_at g_dec]. rewrite Hs, Hd.
  assert (entry (p0 : @PCState RI) l = rp_pc p0 - rp_pc p0 `mod` 4 - a) as E by (unfold entry; rewrite Hb; cbn -[pcMask]; rewrite land_pcMask; lia).
  pose proof (Z.mod_pos_bound (rp_pc p0) 4 ltac:(lia)) as Hm. pose proof (Z.div_mod (rp_pc p0) 4 ltac:(lia)) as D4.
  pose proof (Z.div_mod (rp_pc p0) 2 ltac:(lia)) as D2. rewrite E.
  split_and!; [done..| |apply Z.mod_divide in Ha as (u & ->); lia|lia].
  split; cbn; try done; [|lia]. rewrite Z.add_comm, Z.sub_add. rewrite Zminus_mod, Z.mod_mod, Z.sub_diag by lia. done.
Qed.

(** C15: With the RISC-V decoder Fetch2 finds exactly the instructions of
    memory.  On the consecutive lines of a stream, cut anywhere at words, that
    hold the memory from the pc on, the machine of Fetch2 gives the
    instructions of a reference parse one after the other: two bytes where the
    low bits say so and four otherwise, also across words and lines, each with
    its address and the address after it, decoded as without a decode cache, up
    to the first one that is predicted taken.  The decoder's assertion never
    fails, and the machine can always go on while there are lines. *)
Theorem riscv_fetch2_parses_memory s pn a predict g l ls p0 d os g' ls' : 0 ≤ pn < 2 ^ 64 →
  linesAt s pn a (l :: ls) → linePc l = Some p0 → rp_pc p0 `mod` 2 = 0 → a ≤ rp_pc p0 < a + lineWidth l →
  g_at g = None → g_prediction g = pn → g_dec g = Ok d → cacheOk G decodeInst d → instDone G d = false →
  fetches predict g (l :: ls) os g' ls' →
  parses (rp_pc p0) os ∧ is_Ok (g_dec g') ∧ ∀ l' rest', ls' = l' :: rest' → is_Some (f2_step predict g' l').
Proof.
  intros Hpn Hls Hpc Hev Hr Hat Hp Hd Hc Hdone Hf. pose proof (enter_inStream s pn a g l ls p0 d Hls Hev Hr Hp Hd Hc Hdone) as Hi.
  assert (g_prediction g = predictionOf l) as Hpl by (destruct Hls as [(_ & _ & Hpl & _) _]; congruence).
  destruct (enter_fetches predict g l ls os g' ls' p0 Hat Hpc Hpl Hf) as [Hf'|(-> & -> & ->)].
  - destruct (stream_fetches s pn a _ predict _ _ _ _ _ Hpn Hi Hf') as [Hpar [Hdr|(a' & pc' & Hin)]]; (split; [done|]).
    + split; [apply Hdr|]. intros l' rest' ->. destruct (dropping_step s pn predict g' l' rest' Hdr) as (g1 & -> & _). by eexists.
    + split; [|intros l' rest' ->; by apply (inStream_goes_on s pn a' pc' predict g' l' rest')].
      destruct (is_at _ _ _ _ _ _ Hin) as (p & i & d' & _ & Hd' & _). by exists d'.
  - split; [done|]. split; [by exists d|]. intros l' rest' [= <- <-]. rewrite <- (enter_step predict g l p0) by done.
    by apply (inStream_goes_on s pn a (rp_pc p0) predict _ l ls).
Qed.

End stream.

(** ** Two lines with instructions of two and of four bytes *)

Section run.
Context `{I : Isa} {DC : Decoder I}.

(** at most [n] steps of the machine of Fetch2 *)
Fixpoint f2_run (n : nat) (predict : Predictor) (g : Fetching) (ls : list (ForwardLineData I))
  : option (list (MyMinorDynInst I) * Fetching * list (ForwardLineData I)) :=
  match n, ls with
  | S n, l :: ls =>
      match f2_step predict g l with
      | Some (g1, o, f) =>
          match f2_run n predict g1 (rest f l ls) with
          | Some (os, g2, ls2) => Some (option_list o ++ os, g2, ls2)
          | None => None
          end
      | None => None
      end
  | _, _ => Some ([], g, ls)
  end.

Lemma f2_run_fetches n predict g ls os g' ls' : f2_run n predict g ls = Some (os, g', ls') → fetches predict g ls os g' ls'.
Proof.
  revert g ls os. induction n as [|n IH]; intros g ls os; cbn; [intros [= <- <- <-]; constructor|].
  destruct ls as [|l ls]; [intros [= <- <- <-]; constructor|].
  destruct (f2_step predict g l) as [[[g1 o] f]|] eqn:E; [|done].
  destruct (f2_run n predict g1 (rest f l ls)) as [[[os1 g2] ls2]|] eqn:E1; [|done]. intros [= <- <- <-].
  econstructor; [done|]. by apply IH.
Qed.
End run.

Section witness.

(** machine instructions decode to ordinary instructions, those that end in 0x6f to branches *)
Definition toyDecode (w : Z) : @StaticInst Toy.isa := if w `mod` 128 =? 111 then Toy.br else Toy.alu.

(** a compressed instruction, one of four bytes across two words, one across two lines, and a branch *)
Definition toyBytes : list Z := [1; 0; 3; 1; 2; 2; 7; 0; 19; 3; 5; 4; 111; 0; 0; 0].
Definition toyMem (a : Z) : Z := match vget toyBytes a with Ok b => b | Stop _ => 0 end.

#[local] Instance TI : Isa := riscv_isa Toy.isa.
#[local] Instance TD : Decoder TI := riscv_decoder Toy.isa toyDecode.

Definition toyLine (base w : Z) (first : RiscvPC) : ForwardLineData TI :=
  mkLine (I := TI) false base (Some first) base w lvptData0 None (mkInstId 0 1 1 1 0 0)
    (Some ((λ k, toyMem (base + k)) <$> zrange 0 (w - 1))) None.
Definition toyTaken : Predictor (I := TI) := λ _ _ _ _, Some (rp_set 64).
Definition toyStart : Fetching := mkFetching (I := TI) (DC := TD) None 1 1 1 (Ok (newRiscvDecoder Toy.isa 0)).
Definition toyLines : list (ForwardLineData TI) := [toyLine 0 8 (rp_set 0); toyLine 8 8 (rp_set 8)].

Lemma riscv_fetch2_parses_memory_witness : ∃ os g' ls', f2_run 20 toyTaken toyStart toyLines = Some (os, g', ls') ∧
  (λ i : MyMinorDynInst TI, rp_pc <$> pc i) <$> os = [Some 0; Some 2; Some 6; Some 10; Some 12] ∧
  parses Toy.isa toyDecode toyMem 0 os.
Proof.
  assert ((match f2_run 20 toyTaken toyStart toyLines with
           | Some (os, _, _) => Some ((λ i : MyMinorDynInst TI, rp_pc <$> pc i) <$> os)
           | None => None
           end) = Some [Some 0; Some 2; Some 6; Some 10; Some 12]) as H by (vm_compute; reflexivity).
  destruct (f2_run 20 toyTaken toyStart toyLines) as [[[os g'] ls']|] eqn:E; [|discriminate H]. injection H as Ho.
  exists os, g', ls'. split; [reflexivity|]. split; [exact Ho|].
  assert (∀ a, 0 ≤ toyMem a < 256) as Hmem.
  { intros a. unfold toyMem. destruct (vget toyBytes a) as [b|] eqn:Eb; [|lia]. apply vget_Ok in Eb as [_ Eb].
    assert (Forall (λ b, 0 ≤ b < 256) toyBytes) as Hb by (repeat constructor; lia). exact (Forall_lookup_1 _ _ _ _ Hb Eb). }
  assert (∀ w, isNullInst (toyDecode w) = false) as Hnull by (intros w; unfold toyDecode; by destruct (_ =? _)).
  assert (∀ w, isMicroop (toyDecode w) = false) as Hmic by (intros w; unfold toyDecode; by destruct (_ =? _)).
  assert (linesAt Toy.isa toyMem 1 1 0 toyLines) as Hl.
  { cbn. unfold lineAt. cbn. repeat split; lia. }
  assert (cacheOk Toy.isa toyDecode (newRiscvDecoder Toy.isa 0)) as Hc.
  { intros w si H. cbn in H. rewrite lookup_empty in H. discriminate H. }
  exact (proj1 (riscv_fetch2_parses_memory Toy.isa toyDecode toyMem Hnull Hmic Hmem 1 1 0 toyTaken toyStart _ _ (rp_set 0)
    (newRiscvDecoder Toy.isa 0) os g' ls' ltac:(lia) Hl eq_refl eq_refl ltac:(cbn; lia) eq_refl eq_refl eq_refl
    Hc eq_refl (f2_run_fetches _ _ _ _ _ _ _ E))).
Defined.
End witness.
