(* ===== verification/RiscvCsr.v ===== *)
(** * Control and status registers (src/arch/riscv/isa.cc)

    The miscellaneous registers that instructions read and write through
    [readMiscRegOperand] and [setMiscRegOperand] of their [ExecContext].  What
    the physical memory protection is told (src/arch/riscv/pmp.cc) is a list of
    commands; the counters and the pc of the CPU are arguments. *)
From S2P Require Import Prelude LVPT PipeData BpTables BpTableProps RiscvDecoder Registers.

(** ** Registers (regs/misc.hh) *)

Definition MISCREG_PRV : Z := 0.
Definition MISCREG_ISA : Z := 1.
Definition MISCREG_HARTID : Z := 5.
Definition MISCREG_STATUS : Z := 6.
Definition MISCREG_IP : Z := 7.
Definition MISCREG_IE : Z := 8.
Definition MISCREG_CYCLE : Z := 9.
Definition MISCREG_TIME : Z := 10.
Definition MISCREG_INSTRET : Z := 11.
Definition MISCREG_HPMCOUNTER03 : Z := 12.
Definition MISCREG_HPMCOUNTER31 : Z := 40.
Definition MISCREG_TSELECT : Z := 70.
Definition MISCREG_MCOUNTEREN : Z := 80.
Definition MISCREG_MEPC : Z := 82.
Definition MISCREG_PMPCFG0 : Z := 85.
Definition MISCREG_PMPCFG2 : Z := 86.
Definition MISCREG_PMPADDR00 : Z := 87.
Definition MISCREG_PMPADDR15 : Z := 102.
Definition MISCREG_SCOUNTEREN : Z := 106.
Definition MISCREG_SEPC : Z := 108.
Definition MISCREG_SATP : Z := 111.
Definition MISCREG_NMIE : Z := 120.
Definition NUM_MISCREGS : Z := 122.

Definition PRV_U : Z := 0.
Definition PRV_S : Z := 1.
Definition PRV_M : Z := 3.

Definition ISA_EXT_C_MASK : Z := Z.shiftl 1 2.
Definition STATUS_SXL_MASK : Z := Z.shiftl 3 34.
Definition STATUS_UXL_MASK : Z := Z.shiftl 3 32.
Definition NumInterruptTypes : Z := 12.

(** [CSRData]: the number of a CSR and its miscellaneous register (of two rows
    with one number the first counts) *)
Definition CSRData : list (Z * Z) := [
    (0x000, 6); (0x004, 8); (0x005, 112); (0x040, 113); (0x041, 114); (0x042, 115); (0x043, 116); (0x044, 7);
    (0x001, 117); (0x002, 118); (0x003, 117); (0xc00, 9); (0xc01, 10); (0xc02, 11); (0xc03, 12); (0xc04, 13);
    (0xc05, 14); (0xc06, 15); (0xc07, 16); (0xc08, 17); (0xc09, 18); (0xc0a, 19); (0xc0b, 20); (0xc0c, 21);
    (0xc0d, 22); (0xc0e, 23); (0xc0f, 24); (0xc10, 25); (0xc11, 26); (0xc12, 27); (0xc13, 28); (0xc14, 29);
    (0xc15, 30); (0xc16, 31); (0xc17, 32); (0xc18, 33); (0xc19, 34); (0xc1a, 35); (0xc1b, 36); (0xc1c, 37);
    (0xc1d, 38); (0xc1e, 39); (0xc1f, 40); (0x100, 6); (0x102, 103); (0x103, 104); (0x104, 8); (0x105, 105);
    (0x106, 106); (0x140, 107); (0x141, 108); (0x142, 109); (0x143, 110); (0x144, 7); (0x180, 111);
    (0xf11, 2); (0xf12, 3); (0xf13, 4); (0xf14, 5); (0x300, 6); (0x301, 1); (0x302, 77); (0x303, 78);
    (0x304, 8); (0x305, 79); (0x306, 80); (0x340, 81); (0x341, 82); (0x342, 83); (0x343, 84); (0x344, 7);
    (0x3a0, 85); (0x3a2, 86); (0x3b0, 87); (0x3b1, 88); (0x3b2, 89); (0x3b3, 90); (0x3b4, 91); (0x3b5, 92);
    (0x3b6, 93); (0x3b7, 94); (0x3b8, 95); (0x3b9, 96); (0x3ba, 97); (0x3bb, 98); (0x3bc, 99); (0x3bd, 100);
    (0x3be, 101); (0x3bf, 102); (0xb00, 9); (0xb02, 11); (0xc03, 12); (0xc04, 13); (0xc05, 14); (0xc06, 15);
    (0xc07, 16); (0xc08, 17); (0xc09, 18); (0xc0a, 19); (0xc0b, 20); (0xc0c, 21); (0xc0d, 22); (0xc0e, 23);
    (0xc0f, 24); (0xc10, 25); (0xc11, 26); (0xc12, 27); (0xc13, 28); (0xc14, 29); (0xc15, 30); (0xc16, 31);
    (0xc17, 32); (0xc18, 33); (0xc19, 34); (0xc1a, 35); (0xc1b, 36); (0xc1c, 37); (0xc1d, 38); (0xc1e, 39);
    (0xc1f, 40); (0x323, 41); (0x324, 42); (0x325, 43); (0x326, 44); (0x327, 45); (0x328, 46); (0x329, 47);
    (0x32a, 48); (0x32b, 49); (0x32c, 50); (0x32d, 51); (0x32e, 52); (0x32f, 53); (0x330, 54); (0x331, 55);
    (0x332, 56); (0x333, 57); (0x334, 58); (0x335, 59); (0x336, 60); (0x337, 61); (0x338, 62); (0x339, 63);
    (0x33a, 64); (0x33b, 65); (0x33c, 66); (0x33d, 67); (0x33e, 68); (0x33f, 69); (0x7a0, 70); (0x7a1, 71);
    (0x7a2, 72); (0x7a3, 73); (0x7b0, 74); (0x7b1, 75); (0x7b2, 76)
  ].
(** [CSRData.at(csr)]: [at] of a map throws where the key is missing *)
Definition CSRData_at (csr : Z) : res Z :=
  match List.find (λ row, row.1 =? csr) CSRData with Some row => Ok row.2 | None => Stop OutOfBounds end.

(** ** The state *)

Inductive PmpCommand :=
  | PmpUpdateCfg (index cfg : Z)
  | PmpUpdateAddr (index addr : Z).

Record RiscvISA := mkRiscvISA {
  miscRegFile : list Z;
  ic_ip : Z;                   (* the interrupt controller's pending and enabled interrupts *)
  ic_ie : Z;
  pmp : list PmpCommand;       (* newest first *)
}.
Implicit Types (s : RiscvISA).

(** what the registers read of the CPU and the thread *)
Record CsrEnv := mkCsrEnv { ce_contextId : Z; ce_curCycle : Z; ce_totalInsts : Z; ce_npc : Z }.
Implicit Types (e : CsrEnv).

Definition csr_put (reg val : Z) s : res RiscvISA :=
  l ← vset (miscRegFile s) reg val; Ok (mkRiscvISA l (ic_ip s) (ic_ie s) (pmp s)).

(** [clear()] *)
Definition isa_clear s : res RiscvISA :=
  let s := mkRiscvISA (replicate (length (miscRegFile s)) 0) (ic_ip s) (ic_ie s) (pmp s) in
  s ← csr_put MISCREG_PRV PRV_M s;
  s ← csr_put MISCREG_ISA (Z.lor (Z.shiftl 2 62) 1315117) s;
  s ← csr_put MISCREG_STATUS (Z.lor (Z.lor (Z.shiftl 2 32) (Z.shiftl 2 34)) (Z.shiftl 1 13)) s;
  s ← csr_put MISCREG_MCOUNTEREN 7 s;
  s ← csr_put MISCREG_SCOUNTEREN 7 s;
  s ← csr_put MISCREG_TSELECT 1 s;
  csr_put MISCREG_NMIE 1 s.
(** [ISA(p)] *)
Definition newRiscvISA : res RiscvISA :=
  isa_clear (mkRiscvISA (replicate (Z.to_nat NUM_MISCREGS) 0) 0 0 []).

(** ** Reading *)

(** [readMiscRegNoEffect(misc_reg)] *)
Definition readMiscRegNoEffect (misc_reg : Z) s : res Z :=
  if (NUM_MISCREGS <? misc_reg) || (misc_reg <? 0) then Stop Panic else vget (miscRegFile s) misc_reg.
(** [inUserMode()] *)
Definition inUserMode s : res bool := v ← vget (miscRegFile s) MISCREG_PRV; Ok (v =? PRV_U).
(** [hpmCounterEnabled(misc_reg)] *)
Definition hpmCounterEnabled (misc_reg : Z) s : res bool :=
  let hpmcounter := misc_reg - MISCREG_CYCLE in
  if (hpmcounter <? 0) || (31 <? hpmcounter) then Stop Panic
  else
    prv ← readMiscRegNoEffect MISCREG_PRV s;
    if prv =? PRV_M then Ok true
    else if (prv =? PRV_S) || (prv =? PRV_U) then
      v ← vget (miscRegFile s) (if prv =? PRV_S then MISCREG_MCOUNTEREN else MISCREG_SCOUNTEREN);
      Ok (0 <? Z.land v (Z.shiftl 1 hpmcounter))
    else Stop Panic.
(** a counter that is enabled, or 0 *)
Definition counterValue (misc_reg : Z) (v : res Z) s : res Z :=
  en ← hpmCounterEnabled misc_reg s; if (en : bool) then v else Ok 0.
(** [mbits(val, 63, last)] *)
Definition mbits63 (val last : Z) : Z := Z.land val (u64 (Z.lnot (mask last))).
(** [readMiscReg(misc_reg)] *)
Definition readMiscReg (misc_reg : Z) e s : res Z :=
  if misc_reg =? MISCREG_HARTID then Ok (ce_contextId e)
  else if misc_reg =? MISCREG_CYCLE then counterValue misc_reg (Ok (ce_curCycle e)) s
  else if misc_reg =? MISCREG_TIME then counterValue misc_reg (readMiscRegNoEffect MISCREG_TIME s) s
  else if misc_reg =? MISCREG_INSTRET then counterValue misc_reg (Ok (ce_totalInsts e)) s
  else if misc_reg =? MISCREG_IP then Ok (ic_ip s)
  else if misc_reg =? MISCREG_IE then Ok (ic_ie s)
  else if (misc_reg =? MISCREG_SEPC) || (misc_reg =? MISCREG_MEPC) then
    misa ← readMiscRegNoEffect MISCREG_ISA s;
    val ← readMiscRegNoEffect misc_reg s;
    Ok (if Z.land misa ISA_EXT_C_MASK =? 0 then mbits63 val 2 else mbits63 val 1)
  else if (MISCREG_HPMCOUNTER03 <=? misc_reg) && (misc_reg <=? MISCREG_HPMCOUNTER31) then
    counterValue misc_reg (Ok (ce_curCycle e)) s
  else readMiscRegNoEffect misc_reg s.

(** ** Writing *)

(** [setMiscRegNoEffect(misc_reg, val)] *)
Definition setMiscRegNoEffect (misc_reg val : Z) s : res RiscvISA :=
  if (NUM_MISCREGS <? misc_reg) || (misc_reg <? 0) then Stop Panic else csr_put misc_reg val s.
(** the PMP is told *)
Definition tellPmp (cmds : list PmpCommand) s : RiscvISA :=
  mkRiscvISA (miscRegFile s) (ic_ip s) (ic_ie s) (rev cmds ++ pmp s).
(** the eight configurations of a register *)
Definition pmpConfigs (misc_reg val : Z) : list PmpCommand :=
  (λ i, PmpUpdateCfg (i + 8 * (misc_reg - MISCREG_PMPCFG0)) (Z.land (Z.shiftr val (8 * i)) 255)) <$> zrange 0 7.
(** [SATP.mode] *)
Definition satp_mode (v : Z) : Z := bits v 63 60.
(** [setMiscReg(misc_reg, val)] *)
Definition setMiscReg (misc_reg val : Z) e s : res RiscvISA :=
  if (MISCREG_CYCLE <=? misc_reg) && (misc_reg <=? MISCREG_HPMCOUNTER31) then
    _ ← CSRData_at misc_reg; Ok s       (* the name in the warning *)
  else if (misc_reg =? MISCREG_PMPCFG0) || (misc_reg =? MISCREG_PMPCFG2) then
    prv ← readMiscRegNoEffect MISCREG_PRV s;
    check (prv =? PRV_M);
    setMiscRegNoEffect misc_reg val (tellPmp (pmpConfigs misc_reg val) s)
  else if (MISCREG_PMPADDR00 <=? misc_reg) && (misc_reg <=? MISCREG_PMPADDR15) then
    prv ← readMiscRegNoEffect MISCREG_PRV s;
    check (prv =? PRV_M);
    setMiscRegNoEffect misc_reg val (tellPmp [PmpUpdateAddr (misc_reg - MISCREG_PMPADDR00) val] s)
  else if misc_reg =? MISCREG_IP then Ok (mkRiscvISA (miscRegFile s) (val `mod` 2 ^ NumInterruptTypes) (ic_ie s) (pmp s))
  else if misc_reg =? MISCREG_IE then Ok (mkRiscvISA (miscRegFile s) (ic_ip s) (val `mod` 2 ^ NumInterruptTypes) (pmp s))
  else if misc_reg =? MISCREG_SATP then
    cur ← readMiscRegNoEffect misc_reg s;
    let new := if negb (satp_mode val =? 0) && negb (satp_mode val =? 8)
               then insertBits val 63 60 (satp_mode cur) else val in
    setMiscRegNoEffect misc_reg new s
  else if misc_reg =? MISCREG_TSELECT then setMiscRegNoEffect misc_reg (u64 (val + 1)) s
  else if misc_reg =? MISCREG_ISA then
    cur ← readMiscRegNoEffect misc_reg s;
    let val := if (Z.land val ISA_EXT_C_MASK =? 0) && negb (bits (ce_npc e) 2 0 =? 0)
               then Z.lor val (Z.land cur ISA_EXT_C_MASK) else val in
    setMiscRegNoEffect misc_reg val s
  else if misc_reg =? MISCREG_STATUS then
    cur ← readMiscRegNoEffect misc_reg s;
    let wired := Z.lor STATUS_SXL_MASK STATUS_UXL_MASK in
    setMiscRegNoEffect misc_reg (Z.lor (Z.land val (u64 (Z.lnot wired))) (Z.land cur wired)) s
  else setMiscRegNoEffect misc_reg val s.

(** ** Operands (myminor/exec_context.hh) *)

Section operands.
Context `{I : Isa}.

(** [readMiscRegOperand(si, idx)] *)
Definition readMiscRegOperand (si : StaticInst) (idx : Z) e s : res Z :=
  reg ← vget (srcRegs si) idx;
  check (reg_is reg MiscRegClass);
  readMiscReg (regIdx reg) e s.
(** [setMiscRegOperand(si, idx, val)] *)
Definition setMiscRegOperand (si : StaticInst) (idx val : Z) e s : res RiscvISA :=
  reg ← vget (destRegs si) idx;
  check (reg_is reg MiscRegClass);
  setMiscReg (regIdx reg) val e s.
End operands.

(** ** Legal values *)

Definition wiredMask : Z := Z.lor STATUS_SXL_MASK STATUS_UXL_MASK.
Definition wiredStatus : Z := Z.lor (Z.shiftl 2 32) (Z.shiftl 2 34).

Record csr_inv s : Prop := {
  ci_file : vec NUM_MISCREGS (λ v, 0 ≤ v < 2 ^ 64) (miscRegFile s);
  ci_status v : vget (miscRegFile s) MISCREG_STATUS = Ok v → Z.land v wiredMask = wiredStatus;
  ci_satp v : vget (miscRegFile s) MISCREG_SATP = Ok v → satp_mode v = 0 ∨ satp_mode v = 8;
}.

Lemma u64_bound v : 0 ≤ v < 2 ^ 64 ↔ 0 ≤ v ∧ Z.shiftr v 64 = 0.
Proof.
  rewrite Z.shiftr_div_pow2 by lia. split; intros [H1 H2]; (split; [done|]).
  - by apply Z.div_small.
  - apply Z.div_small_iff in H2; lia.
Qed.
Lemma lor_u64 x y : 0 ≤ x < 2 ^ 64 → 0 ≤ y < 2 ^ 64 → 0 ≤ Z.lor x y < 2 ^ 64.
Proof. rewrite !u64_bound. intros [H1 H2] [H3 H4]. rewrite Z.lor_nonneg, Z.shiftr_lor, H2, H4. done. Qed.
Lemma land_u64 x y : 0 ≤ x < 2 ^ 64 → 0 ≤ y → 0 ≤ Z.land x y < 2 ^ 64.
Proof. rewrite !u64_bound. intros [H1 H2] H3. rewrite Z.land_nonneg, Z.shiftr_land, H2, Z.land_0_l. auto. Qed.

Lemma wired_kept val cur : Z.land cur wiredMask = wiredStatus →
  Z.land (Z.lor (Z.land val (u64 (Z.lnot wiredMask))) (Z.land cur wiredMask)) wiredMask = wiredStatus.
Proof.
  intros H. rewrite H, Z.land_lor_distr_l. change (Z.land wiredStatus wiredMask) with wiredStatus.
  rewrite <- Z.land_assoc. change (Z.land (u64 (Z.lnot wiredMask)) wiredMask) with 0. by rewrite Z.land_0_r.
Qed.

Lemma satp_mode_range v : 0 ≤ satp_mode v < 16.
Proof. unfold satp_mode, bits. change (mask (63 - 60 + 1)) with (Z.ones 4). rewrite Z.land_ones by lia. apply Z.mod_pos_bound. lia. Qed.

Lemma satp_mode_insert val m : 0 ≤ val < 2 ^ 64 → 0 ≤ m < 16 → satp_mode (insertBits val 63 60 m) = m ∧ 0 ≤ insertBits val 63 60 m < 2 ^ 64.
Proof.
  intros Hv Hm. unfold satp_mode, bits, insertBits. change (63 - 60 + 1) with 4.
  assert (u64 (Z.shiftl m 60) = Z.shiftl m 60) as ->.
  { rewrite Z.shiftl_mul_pow2 by lia. apply u64_id. lia. }
  split.
  - rewrite Z.shiftr_lor, !Z.shiftr_land. change (Z.shiftr (u64 (Z.lnot (Z.shiftl (mask 4) 60))) 60) with 0.
    change (Z.shiftr (Z.shiftl (mask 4) 60) 60) with (mask 4). rewrite Z.land_0_r, Z.lor_0_l.
    rewrite Z.shiftr_shiftl_l, Z.sub_diag, Z.shiftl_0_r by lia. rewrite <- Z.land_assoc, Z.land_diag.
    change (mask 4) with (Z.ones 4). rewrite Z.land_ones by lia. by apply Z.mod_small.
  - apply lor_u64; apply land_u64; [exact Hv|apply Z.mod_pos_bound; lia| |rewrite Z.shiftl_nonneg; by vm_compute].
    rewrite Z.shiftl_mul_pow2 by lia. change (2 ^ 64) with (16 * 2 ^ 60). nia.
Qed.

Lemma readNoEffect_in reg s : 0 ≤ reg < NUM_MISCREGS → readMiscRegNoEffect reg s = vget (miscRegFile s) reg.
Proof.
  intros H. unfold readMiscRegNoEffect. destruct (Z.ltb_spec NUM_MISCREGS reg), (Z.ltb_spec reg 0); try done; lia.
Qed.

(** what a write of a value to a register does *)
Record written (reg v : Z) s s' : Prop := {
  wn_inv : csr_inv s';
  wn_reg : vget (miscRegFile s') reg = Ok v;
  wn_others r : r ≠ reg → vget (miscRegFile s') r = vget (miscRegFile s) r;
}.

Lemma setNoEffect_returns reg v s : csr_inv s → 0 ≤ reg < NUM_MISCREGS → 0 ≤ v < 2 ^ 64 →
  (reg = MISCREG_STATUS → Z.land v wiredMask = wiredStatus) → (reg = MISCREG_SATP → satp_mode v = 0 ∨ satp_mode v = 8) →
  returns (setMiscRegNoEffect reg v s) (written reg v s).
Proof.
  intros [Hf Hst Hsa] Hr Hv H1 H2. unfold setMiscRegNoEffect.
  destruct (Z.ltb_spec NUM_MISCREGS reg), (Z.ltb_spec reg 0); try lia. cbn. unfold csr_put.
  destruct (vec_set _ _ _ _ v Hf Hr Hv) as (l & E & _ & Hl). rewrite E. cbn [rbind]. apply returns_ret. split; cbn [miscRegFile].
  - split; cbn [miscRegFile]; [done|..]; intros w Hw; destruct (vset_cases _ _ _ _ _ _ E Hw) as [[<- ->]|[_ Hw']]; auto.
  - by apply vget_vset_eq in E.
  - intros r Hne. by apply (vget_vset_ne _ _ _ _ _ E).
Qed.

(** ** Histories *)

Definition counter (reg : Z) : bool := (MISCREG_CYCLE <=? reg) && (reg <=? MISCREG_HPMCOUNTER31).
Definition isPmp (reg : Z) : bool := (MISCREG_PMPCFG0 <=? reg) && (reg <=? MISCREG_PMPADDR15).
(** a write of any register but the counters; a PMP register is written in machine mode *)
Definition csr_allowed (reg val : Z) s : Prop :=
  0 ≤ reg < NUM_MISCREGS ∧ counter reg = false ∧ 0 ≤ val < 2 ^ 64 ∧ (isPmp reg = true → vget (miscRegFile s) MISCREG_PRV = Ok PRV_M).

Inductive csr_reach : RiscvISA → Prop :=
  | csr_reach_new s : newRiscvISA = Ok s → csr_reach s
  | csr_reach_set s reg val e s' : csr_reach s → csr_allowed reg val s → setMiscReg reg val e s = Ok s' → csr_reach s'.

Lemma newRiscvISA_inv s : newRiscvISA = Ok s → csr_inv s.
Proof.
  intros E. vm_compute in E. injection E as <-. split; cbn [miscRegFile].
  - split; [done|]. repeat constructor; lia.
  - intros v H. vm_compute in H. injection H as <-. vm_compute. done.
  - intros v H. vm_compute in H. injection H as <-. left. vm_compute. done.
Qed.

(** ** What a write leaves *)

Definition interrupts (reg : Z) : bool := (reg =? MISCREG_IP) || (reg =? MISCREG_IE).
(** registers that are stored as they are written, and read as they are stored *)
Definition plain (reg : Z) : bool :=
  negb (counter reg || interrupts reg) &&
  negb (existsb (Z.eqb reg) [MISCREG_HARTID; MISCREG_STATUS; MISCREG_TSELECT; MISCREG_ISA; MISCREG_MEPC; MISCREG_SEPC; MISCREG_SATP]).

(** [v] is what a register that held [cur] may hold after a write of [val] *)
Record legal (reg val : Z) e (cur v : Z) : Prop := {
  lg_status : reg = MISCREG_STATUS → Z.land v wiredMask = wiredStatus ∧ Z.ldiff v wiredMask = Z.ldiff val wiredMask;
  lg_satp_supported : reg = MISCREG_SATP → satp_mode val = 0 ∨ satp_mode val = 8 → v = val;
  lg_satp_other : reg = MISCREG_SATP → satp_mode val ≠ 0 → satp_mode val ≠ 8 →
                  satp_mode v = satp_mode cur ∧ bits v 59 0 = bits val 59 0;
  lg_tselect : reg = MISCREG_TSELECT → v ≠ val;
  lg_isa_aligned : reg = MISCREG_ISA → bits (ce_npc e) 2 0 = 0 → v = val;
  lg_isa_compressed : reg = MISCREG_ISA → bits (ce_npc e) 2 0 ≠ 0 → Z.testbit cur 2 = true → Z.testbit v 2 = true;
  lg_other : ¬ (reg ∈ [MISCREG_STATUS; MISCREG_SATP; MISCREG_TSELECT; MISCREG_ISA]) → v = val;
}.

(** ** The value of each register *)

Lemma legal_other reg val e cur : ¬ (reg ∈ [MISCREG_STATUS; MISCREG_SATP; MISCREG_TSELECT; MISCREG_ISA]) → legal reg val e cur val.
Proof. intros H. split; try done; intros ->; exfalso; apply H; set_solver. Qed.

Ltac other_register := try (intros; discriminate); try (let Hn := fresh in intros Hn; exfalso; apply Hn; set_solver).

Lemma legal_status val e cur : 0 ≤ val < 2 ^ 64 → Z.land cur wiredMask = wiredStatus →
  legal MISCREG_STATUS val e cur (Z.lor (Z.land val (u64 (Z.lnot wiredMask))) (Z.land cur wiredMask)).
Proof.
  intros Hv Hc. split; other_register. intros _. split; [by apply wired_kept|].
  rewrite Z.ldiff_land, Z.land_lor_distr_l, <- !Z.land_assoc, Z.land_lnot_diag, Z.land_0_r, Z.lor_0_r.
  rewrite Z.ldiff_land. apply Z.bits_inj'. intros i Hi. rewrite !Z.land_spec.
  destruct (decide (i < 64)) as [Hlt|Hge].
  - unfold u64. rewrite Z.mod_pow2_bits_low by lia. by destruct (Z.testbit val i), (Z.testbit (Z.lnot wiredMask) i).
  - assert (Z.testbit val i = false) as ->; [|done]. rewrite <- (Z.mod_small val (2 ^ 64)) by lia. apply Z.mod_pow2_bits_high. lia.
Qed.

Lemma legal_satp val e cur : 0 ≤ val < 2 ^ 64 → satp_mode cur = 0 ∨ satp_mode cur = 8 →
  let new := if negb (satp_mode val =? 0) && negb (satp_mode val =? 8) then insertBits val 63 60 (satp_mode cur) else val in
  legal MISCREG_SATP val e cur new ∧ (satp_mode new = 0 ∨ satp_mode new = 8) ∧ 0 ≤ new < 2 ^ 64.
Proof.
  intros Hv Hc. destruct (satp_mode_insert val (satp_mode cur)) as [Hm Hb]; [done|apply satp_mode_range|].
  destruct (Z.eqb_spec (satp_mode val) 0), (Z.eqb_spec (satp_mode val) 8); cbn [negb andb];
    (split; [split; other_register|split; [lia|done]]); try (intros _; lia).
  intros _ _ _. split; [done|]. unfold bits, insertBits. change (63 - 60 + 1) with 4. change (59 - 0 + 1) with 60.
  rewrite !Z.shiftr_0_r, Z.land_lor_distr_l, <- !Z.land_assoc.
  change (Z.land (Z.shiftl (mask 4) 60) (mask 60)) with 0. rewrite Z.land_0_r, Z.lor_0_r.
  by change (Z.land (u64 (Z.lnot (Z.shiftl (mask 4) 60))) (mask 60)) with (mask 60).
Qed.

Lemma legal_tselect val e cur : 0 ≤ val < 2 ^ 64 → legal MISCREG_TSELECT val e cur (u64 (val + 1)).
Proof.
  intros Hv. split; other_register. intros _ H. unfold u64 in H.
  destruct (decide (val + 1 = 2 ^ 64)) as [E|Hne]; [rewrite E, Z.mod_same in H by lia|rewrite Z.mod_small in H by lia]; lia.
Qed.

Lemma legal_isa val e cur : 0 ≤ val < 2 ^ 64 → 0 ≤ cur →
  let new := if (Z.land val ISA_EXT_C_MASK =? 0) && negb (bits (ce_npc e) 2 0 =? 0)
             then Z.lor val (Z.land cur ISA_EXT_C_MASK) else val in
  legal MISCREG_ISA val e cur new ∧ 0 ≤ new < 2 ^ 64.
Proof.
  intros Hv Hc. assert (0 ≤ Z.lor val (Z.land cur ISA_EXT_C_MASK) < 2 ^ 64).
  { apply lor_u64; [done|]. rewrite Z.land_comm. apply land_u64; [by vm_compute|done]. }
  assert (Hb : ∀ x, Z.testbit (Z.land x ISA_EXT_C_MASK) 2 = Z.testbit x 2).
  { intros x. rewrite Z.land_spec. change (Z.testbit ISA_EXT_C_MASK 2) with true. apply andb_true_r. }
  destruct (Z.eqb_spec (Z.land val ISA_EXT_C_MASK) 0) as [Ez|Ez], (Z.eqb_spec (bits (ce_npc e) 2 0) 0);
    cbn [negb andb]; (split; [split; other_register; try done|done]).
  - intros _ _ Ht. by rewrite Z.lor_spec, Hb, Ht, orb_true_r.
  - intros _ _ _. rewrite <- Hb. destruct (Z.testbit (Z.land val ISA_EXT_C_MASK) 2) eqn:Et; [done|]. exfalso. apply Ez.
    apply Z.bits_inj'. intros i Hi. rewrite Z.bits_0. destruct (decide (i = 2)) as [->|Hne]; [done|].
    rewrite Z.land_spec. unfold ISA_EXT_C_MASK. rewrite Z.shiftl_1_l, Z.pow2_bits_false by lia. apply andb_false_r.
Qed.

(** ** A write *)

Lemma tellPmp_inv cmds s : csr_inv s → csr_inv (tellPmp cmds s).
Proof. intros [H1 H2 H3]. by split. Qed.

(** the value a write stores, where it stores one *)
Record stores (reg val : Z) e s (v : Z) : Prop := {
  so_legal : ∃ cur, vget (miscRegFile s) reg = Ok cur ∧ legal reg val e cur v;
  so_range : 0 ≤ v < 2 ^ 64;
  so_status : reg = MISCREG_STATUS → Z.land v wiredMask = wiredStatus;
  so_satp : reg = MISCREG_SATP → satp_mode v = 0 ∨ satp_mode v = 8;
}.

Definition special (reg : Z) : bool := existsb (Z.eqb reg) [MISCREG_STATUS; MISCREG_SATP; MISCREG_TSELECT; MISCREG_ISA].

Lemma stores_other reg val e s : csr_inv s → 0 ≤ reg < NUM_MISCREGS → 0 ≤ val < 2 ^ 64 → special reg = false → stores reg val e s val.
Proof.
  intros Hi Hr Hv Hs.
  assert (¬ (reg ∈ [MISCREG_STATUS; MISCREG_SATP; MISCREG_TSELECT; MISCREG_ISA])) as Hn.
  { intros H. apply not_true_iff_false in Hs. apply Hs, existsb_exists. exists reg. by rewrite <- list_elem_of_In, Z.eqb_refl. }
  destruct (vec_get _ _ _ _ (ci_file _ Hi) Hr) as (cur & Ec & _).
  split; [exists cur; split; [done|by apply legal_other]|done|..]; intros ->; exfalso; apply Hn; set_solver.
Qed.

Lemma stores_special reg val e s : csr_inv s → 0 ≤ val < 2 ^ 64 → special reg = true →
  ∃ v, setMiscReg reg val e s = setMiscRegNoEffect reg v s ∧ stores reg val e s v.
Proof.
  intros Hi Hv Hs. pose proof Hi as [Hf Hst Hsa].
  assert (reg = MISCREG_STATUS ∨ reg = MISCREG_SATP ∨ reg = MISCREG_TSELECT ∨ reg = MISCREG_ISA) as Hreg.
  { apply existsb_exists in Hs as (r & Hin & ->%Z.eqb_eq). cbn in Hin. intuition auto. }
  assert (0 ≤ reg < NUM_MISCREGS) as Hr by (destruct Hreg as [->|[->|[->| ->]]]; by vm_compute).
  destruct (vec_get _ _ _ _ Hf Hr) as (cur & Ec & _ & Hcur).
  pose proof (readNoEffect_in reg s Hr) as Er. rewrite Ec in Er.
  destruct Hreg as [->|[->|[->| ->]]]; (eexists; split; [unfold setMiscReg; rewrite ?Er; reflexivity|]).
  - split; [exists cur; split; [done|by apply legal_status; auto]|..]; other_register.
    + apply lor_u64; apply land_u64; [done|apply u64_range|done|by vm_compute].
    + intros _. apply wired_kept. auto.
  - destruct (legal_satp val e cur) as (Hl & Hm & Hb); [by auto..|].
    split; [exists cur; split; done|exact Hb|intros; discriminate|intros _; exact Hm].
  - split; [exists cur; split; [done|by apply legal_tselect]|apply u64_range|..]; other_register.
  - destruct (legal_isa val e cur) as (Hl & Hb); [done|lia|].
    split; [exists cur; split; done|exact Hb|..]; intros; discriminate.
Qed.

(** a register with a value of its own in the register file *)
Definition inFile (reg : Z) : bool := negb (counter reg || interrupts reg).

Lemma setMiscReg_stores reg val e s : csr_inv s → csr_allowed reg val s → inFile reg = true →
  ∃ v cmds, setMiscReg reg val e s = setMiscRegNoEffect reg v (tellPmp cmds s) ∧ stores reg val e s v.
Proof.
  intros Hi (Hr & _ & Hv & Hp) Hf. destruct (special reg) eqn:Es.
  { destruct (stores_special reg val e s Hi Hv Es) as (v & E & Hs). exists v, []. split; [|done]. rewrite E. by destruct s. }
  pose proof (stores_other reg val e s Hi Hr Hv Es) as Hs. exists val.
  apply negb_true_iff, orb_false_iff in Hf as [Hc [HI HE]%orb_false_iff].
  cbn [special existsb] in Es. apply orb_false_iff in Es as [E1 [E2 [E3 [E4 _]%orb_false_iff]%orb_false_iff]%orb_false_iff].
  unfold setMiscReg. unfold counter in Hc. rewrite Hc, HI, HE, E1, E2, E3, E4.
  assert (isPmp reg = true → readMiscRegNoEffect MISCREG_PRV s = Ok PRV_M) as Hprv.
  { intros H. by rewrite readNoEffect_in by (by vm_compute); auto. }
  destruct ((reg =? MISCREG_PMPCFG0) || (reg =? MISCREG_PMPCFG2)) eqn:Ecfg;
    [|destruct ((MISCREG_PMPADDR00 <=? reg) && (reg <=? MISCREG_PMPADDR15)) eqn:Eaddr].
  - rewrite Hprv; [by eexists|]. apply orb_true_iff in Ecfg as [->%Z.eqb_eq| ->%Z.eqb_eq]; done.
  - rewrite Hprv; [by eexists|]. unfold isPmp, MISCREG_PMPCFG0, MISCREG_PMPADDR00 in *. lia.
  - exists []. split; [by destruct s|done].
Qed.

Lemma plain_reads reg v e s : plain reg = true → 0 ≤ reg < NUM_MISCREGS → vget (miscRegFile s) reg = Ok v → readMiscReg reg e s = Ok v.
Proof.
  intros Hp Hr Hv. unfold plain, counter, interrupts in Hp. cbn [existsb] in Hp. unfold readMiscReg.
  repeat match goal with |- context [if ?b then _ else _] =>
    let E := fresh in assert (b = false) as E by (unfold MISCREG_TIME, MISCREG_HPMCOUNTER03, MISCREG_HPMCOUNTER31, MISCREG_CYCLE, MISCREG_INSTRET in *; lia); rewrite E; clear E end.
  by rewrite readNoEffect_in.
Qed.

Lemma plain_stored reg val e s v : plain reg = true → stores reg val e s v → v = val.
Proof.
  intros Hp [(cur & _ & Hl) _ _ _]. apply (lg_other _ _ _ _ _ Hl). intros Hin. unfold plain in Hp. cbn [existsb] in Hp.
  rewrite !elem_of_cons, elem_of_nil in Hin. lia.
Qed.

(** what a write leaves *)
Record wrote (reg val : Z) e s s' : Prop := {
  wr_inv : csr_inv s';
  wr_others r : r ≠ reg → vget (miscRegFile s') r = vget (miscRegFile s) r;
  wr_file : inFile reg = true → ∃ cur v, vget (miscRegFile s) reg = Ok cur ∧ vget (miscRegFile s') reg = Ok v ∧ legal reg val e cur v;
  wr_reads e' : plain reg = true → readMiscReg reg e' s' = Ok val;
  wr_interrupts e' : interrupts reg = true → miscRegFile s' = miscRegFile s ∧ readMiscReg reg e' s' = Ok (val `mod` 2 ^ 12);
}.

Lemma setMiscReg_returns reg val e s : csr_inv s → csr_allowed reg val s → returns (setMiscReg reg val e s) (wrote reg val e s).
Proof.
  intros Hi Ha. destruct (inFile reg) eqn:Hf.
  - destruct (setMiscReg_stores reg val e s Hi Ha Hf) as (v & cmds & -> & Hs). destruct Ha as (Hr & _ & Hv & _).
    eapply returns_conseq; [apply setNoEffect_returns; [by apply tellPmp_inv|done|apply Hs..]|].
    intros s' [W1 W2 W3]. pose proof Hs as [(cur & Ec & Hl) _ _ _]. apply negb_true_iff, orb_false_iff in Hf as [Hc Hin].
    split; [done|done|by exists cur, v| |congruence].
    intros e' Hp. apply plain_reads; [done..|]. rewrite W2. f_equal. by eapply plain_stored.
  - assert (plain reg = false) as Hp by (unfold plain; unfold inFile in Hf; by rewrite Hf).
    apply negb_false_iff, orb_true_iff in Hf as [Hc|Hin]; [destruct Ha as (_ & ? & _); congruence|].
    apply orb_true_iff in Hin as [->%Z.eqb_eq| ->%Z.eqb_eq]; apply returns_ret; destruct Hi; by split.
Qed.

Lemma csr_reach_inv s : csr_reach s → csr_inv s.
Proof.
  induction 1 as [s E|s reg val e s' _ IH Ha E]; [by apply newRiscvISA_inv|].
  destruct (setMiscReg_returns reg val e s IH Ha) as (s1 & E1 & W). rewrite E in E1. injection E1 as ->. apply W.
Qed.

Lemma mbits63_even v n : 1 ≤ n < 64 → Z.even (mbits63 v n) = true.
Proof.
  intros Hn. rewrite <- Z.negb_odd, <- Z.bit0_odd. unfold mbits63. rewrite Z.land_spec. unfold u64.
  rewrite Z.mod_pow2_bits_low, Z.lnot_spec by lia. unfold mask. destruct (Z.leb_spec 64 n); [lia|].
  rewrite <- Z.ones_equiv || replace (2 ^ n - 1) with (Z.ones n) by (rewrite Z.ones_equiv; lia).
  rewrite Z.ones_spec_low by lia. by rewrite andb_false_r.
Qed.

(** the exception pcs read as addresses of instructions *)
Lemma epc_reads reg e s : csr_inv s → reg = MISCREG_MEPC ∨ reg = MISCREG_SEPC → returns (readMiscReg reg e s) (λ w, Z.even w = true).
Proof.
  intros Hi Hreg. assert (0 ≤ reg < NUM_MISCREGS) as Hr by (destruct Hreg as [->| ->]; by vm_compute).
  destruct (vec_get _ _ _ _ (ci_file _ Hi) Hr) as (v & Ev & _).
  destruct (vec_get _ _ _ MISCREG_ISA (ci_file _ Hi)) as (misa & Em & _); [by vm_compute|].
  assert (readMiscReg reg e s = Ok (if Z.land misa ISA_EXT_C_MASK =? 0 then mbits63 v 2 else mbits63 v 1)) as ->.
  { transitivity (misa ← readMiscRegNoEffect MISCREG_ISA s; val ← readMiscRegNoEffect reg s;
                  Ok (if Z.land misa ISA_EXT_C_MASK =? 0 then mbits63 val 2 else mbits63 val 1)).
    - by destruct Hreg as [->| ->].
    - rewrite !readNoEffect_in by (done || by vm_compute). rewrite Em. cbn [rbind]. by rewrite Ev. }
  apply returns_ret. destruct (_ =? 0); apply mbits63_even; lia.
Qed.

(** A write to a counter (cycle, time, instret, HPM counters) ends the
    simulation instead of being ignored: the warning looks the register up in
    the table of CSRs by its own index, and no CSR has such a number. *)
Lemma counter_write_stops reg val e s : counter reg = true → setMiscReg reg val e s = Stop OutOfBounds.
Proof.
  intros Hc. unfold setMiscReg. unfold counter in Hc. rewrite Hc. cbn [rbind].
  assert (CSRData_at reg = Stop OutOfBounds) as ->; [|done].
  assert (forallb (λ r, match CSRData_at r with Ok _ => false | Stop z => match z with OutOfBounds => true | _ => false end end)
            (zrange MISCREG_CYCLE MISCREG_HPMCOUNTER31) = true) as H by (vm_compute; reflexivity).
  rewrite forallb_forall in H. specialize (H reg). rewrite <- list_elem_of_In, elem_of_zrange in H.
  destruct (CSRData_at reg) as [|[]]; (done || (ospecialize (H _); [lia|done])).
Qed.


