(* ===== verification/LsqAddr.v ===== *)
(** * Memory requests and their address ranges

    The part of the load/store queue that is address arithmetic:
    [Request] (src/mem/request.hh) with the fields the queue reads, the block
    helpers of src/cpu/utils.hh, [LSQRequest::containsAddrRangeOf] and
    [SplitDataRequest::makeFragmentRequests] of src/cpu/myminor/lsq.cc. *)
From Stdlib Require Import Sorting.Sorted.
From S2P Require Import Prelude.

(** ** Data *)

(** the request flags that the load/store queue tests *)
Record Flags := mkFlags {
  strictlyOrdered : bool;   (* STRICT_ORDER *)
  llsc : bool;              (* LLSC *)
  swap : bool;              (* MEM_SWAP or MEM_SWAP_COND *)
  atomicOp : bool;          (* ATOMIC_RETURN_OP or ATOMIC_NO_RETURN_OP *)
  release : bool;           (* RELEASE *)
  cacheMaintenance : bool;  (* CLEAN or INVALIDATE *)
  storeNoData : bool;       (* STORE_NO_DATA *)
  noAccess : bool;          (* NO_ACCESS *)
}.

Definition noFlags : Flags := mkFlags false false false false false false false false.

(** [setFlags(flags)] adds flags *)
Definition addFlags (a b : Flags) : Flags :=
  mkFlags (strictlyOrdered a || strictlyOrdered b) (llsc a || llsc b) (swap a || swap b)
    (atomicOp a || atomicOp b) (release a || release b)
    (cacheMaintenance a || cacheMaintenance b) (storeNoData a || storeNoData b)
    (noAccess a || noAccess b).

(** [class Request]; [_paddr] is [None] while VALID_PADDR is clear *)
Record Request := mkRequest {
  q_vaddr : Z;
  q_size : Z;
  q_paddr : option Z;
  q_flags : Flags;
  q_byteEnable : list bool;
  q_localAccess : bool;
  q_useCvuValue : bool;
}.

Definition hasPaddr (r : Request) : bool := match q_paddr r with Some _ => true | None => false end.

Definition getPaddr (r : Request) : res Z :=
  match q_paddr r with Some a => Ok a | None => Stop AssertFail end.

Definition setPaddr (a : Z) (r : Request) : Request :=
  mkRequest (q_vaddr r) (q_size r) (Some a) (q_flags r) (q_byteEnable r) (q_localAccess r)
    (q_useCvuValue r).

Definition setFlags (f : Flags) (r : Request) : Request :=
  mkRequest (q_vaddr r) (q_size r) (q_paddr r) (addFlags (q_flags r) f) (q_byteEnable r)
    (q_localAccess r) (q_useCvuValue r).

(** there is a disabled byte *)
Definition isMasked (r : Request) : bool := existsb negb (q_byteEnable r).

(** ** Blocks *)

Definition addrBlockOffset (addr block_size : Z) : Z := Z.land addr (u64 (block_size - 1)).

Definition addrBlockAlign (addr block_size : Z) : Z := Z.ldiff addr (u64 (block_size - 1)).

Definition transferNeedsBurst (addr size block_size : Z) : bool :=
  block_size <? u64 (addrBlockOffset addr block_size + size).

(** [isAnyActiveElement(it_start, it_end)] on the bits of the range *)
Definition isAnyActiveElement (bits : list bool) : bool := existsb (λ b, b) bits.

(** ** Ranges *)

Inductive AddrRangeCoverage :=
| PartialAddrRangeCoverage
| FullAddrRangeCoverage
| NoAddrRangeCoverage.

#[export] Instance AddrRangeCoverage_eq_dec : EqDecision AddrRangeCoverage.
Proof. solve_decision. Defined.

(** [containsAddrRangeOf(req1_addr, req1_size, req2_addr, req2_size)] *)
Definition containsAddrRange (req1_addr req1_size req2_addr req2_size : Z) : AddrRangeCoverage :=
  let req2_end_addr := u64 (req2_addr + req2_size) in
  let req1_end_addr := u64 (req1_addr + req1_size) in
  if (req2_end_addr <=? req1_addr) || (req1_end_addr <=? req2_addr) then NoAddrRangeCoverage
  else if (req1_addr <=? req2_addr) && (req2_end_addr <=? req1_end_addr) then FullAddrRangeCoverage
  else PartialAddrRangeCoverage.

(** [containsAddrRangeOf(other_request)] *)
Definition containsAddrRangeOf (r other : Request) : res AddrRangeCoverage :=
  a ← getPaddr r;
  b ← getPaddr other;
  let ret := containsAddrRange a (q_size r) b (q_size other) in
  Ok (if decide (ret = FullAddrRangeCoverage) then
        if isMasked r then PartialAddrRangeCoverage else ret
      else ret).

(** ** Fragments *)

(** one iteration of the loop: the size of the fragment at [fragment_addr] *)
Definition fragmentSize (base_addr end_addr first_fragment_size line_width fragment_addr : Z) : Z :=
  if fragment_addr =? base_addr then first_fragment_size
  else if end_addr <? u64 (fragment_addr + line_width) then u32 (end_addr - fragment_addr)
  else line_width.

(** the range [it_start, it_end) of the byte enables; iterators past the end
    are undefined *)
Definition enableRange (byte_enable : list bool) (off size : Z) : res (list bool) :=
  if (0 <=? off) && (0 <=? size) && (off + size <=? Z.of_nat (length byte_enable))
  then Ok (take (Z.to_nat size) (drop (Z.to_nat off) byte_enable))
  else Stop OutOfBounds.

Fixpoint fragmentLoop (n : nat) (req : Request) (end_addr first_fragment_size line_width : Z)
    (fragment_addr : Z) (fragmentRequests : list Request) (num_disabled : Z)
  : res (list Request * Z) :=
  match n with
  | O => Ok (fragmentRequests, num_disabled)
  | S n =>
      let base_addr := q_vaddr req in
      let fragment_size :=
        fragmentSize base_addr end_addr first_fragment_size line_width fragment_addr in
      bits ← enableRange (q_byteEnable req) (u64 (fragment_addr - base_addr)) fragment_size;
      let '(fragmentRequests, num_disabled) :=
        if isAnyActiveElement bits then
          (fragmentRequests
             ++ [mkRequest fragment_addr fragment_size None (q_flags req) bits false false],
           num_disabled)
        else (fragmentRequests, u32 (num_disabled + 1)) in
      fragmentLoop n req end_addr first_fragment_size line_width
        (u64 (fragment_addr + fragment_size)) fragmentRequests num_disabled
  end.

(** [makeFragmentRequests()]: [numFragments] and [fragmentRequests] *)
Definition makeFragmentRequests (line_width : Z) (req : Request) : res (Z * list Request) :=
  let base_addr := q_vaddr req in
  let whole_size := q_size req in
  let first_fragment_offset := u32 (addrBlockOffset base_addr line_width) in
  let last_fragment_size := u32 (addrBlockOffset (u64 (base_addr + whole_size)) line_width) in
  let first_fragment_size := u32 (line_width - first_fragment_offset) in
  let middle_fragments_total_size :=
    u32 (whole_size - (first_fragment_size + last_fragment_size)) in
  check (addrBlockOffset middle_fragments_total_size line_width =? 0);
  let middle_fragment_count := middle_fragments_total_size / line_width in
  let numFragments :=
    u32 (1 + middle_fragment_count + (if last_fragment_size =? 0 then 0 else 1)) in
  check (u32 (middle_fragment_count * line_width + first_fragment_size + last_fragment_size)
         =? whole_size);
  let end_addr := u64 (base_addr + whole_size) in
  ' (frags, num_disabled) ←
    fragmentLoop (Z.to_nat numFragments) req end_addr first_fragment_size line_width base_addr [] 0;
  check (num_disabled <=? numFragments);
  Ok (u32 (numFragments - num_disabled), frags).

Lemma makeFragmentRequests_u32 w req n frags :
  makeFragmentRequests w req = Ok (n, frags) → 0 ≤ n < 2 ^ 32.
Proof.
  unfold makeFragmentRequests. intros H. res_inv. destruct r1. res_inv. apply u32_range.
Qed.

(** ** Ranges as sets of bytes *)

Definition inRange (a s x : Z) : Prop := a ≤ x < a + s.

Lemma containsAddrRange_spec a1 s1 a2 s2 :
  0 ≤ a1 → 0 < s1 → a1 + s1 < 2 ^ 64 → 0 ≤ a2 → 0 < s2 → a2 + s2 < 2 ^ 64 →
  match containsAddrRange a1 s1 a2 s2 with
  | FullAddrRangeCoverage => ∀ x, inRange a2 s2 x → inRange a1 s1 x
  | NoAddrRangeCoverage => ∀ x, ¬ (inRange a2 s2 x ∧ inRange a1 s1 x)
  | PartialAddrRangeCoverage =>
      (∃ x, inRange a2 s2 x ∧ inRange a1 s1 x) ∧ (∃ x, inRange a2 s2 x ∧ ¬ inRange a1 s1 x)
  end.
Proof.
  intros. unfold containsAddrRange, inRange. rewrite !u64_id by lia.
  destruct (Z.leb_spec (a2 + s2) a1), (Z.leb_spec (a1 + s1) a2); cbn [orb]; [lia..|].
  destruct (Z.leb_spec a1 a2), (Z.leb_spec (a2 + s2) (a1 + s1)); cbn [andb]; [lia|..].
  - split; [exists a2|exists (a1 + s1)]; lia.
  - split; [exists a1|exists a2]; lia.
  - split; [exists a1|exists a2]; lia.
Qed.

(** ** Blocks of a power of two *)

Lemma addrBlockOffset_pow2 a k : 0 ≤ a → 0 ≤ k ≤ 63 → addrBlockOffset a (2 ^ k) = a `mod` 2 ^ k.
Proof.
  intros Ha Hk. unfold addrBlockOffset.
  assert (0 < 2 ^ k ≤ 2 ^ 63) by (split; [lia|apply Z.pow_le_mono_r; lia]).
  rewrite u64_id by lia. rewrite Z.sub_1_r, <- Z.ones_equiv. apply Z.land_ones. lia.
Qed.

Section fragments.
Context (k : Z) (req : Request).
Notation lw := (2 ^ k).
Notation base := (q_vaddr req).
Notation whole := (q_size req).
Notation be := (q_byteEnable req).
Context (Hk : 0 ≤ k ≤ 31) (Hbase : 0 ≤ base) (Hwhole : 0 < whole < 2 ^ 32)
  (Hend : base + whole + lw ≤ 2 ^ 64) (Hbe : Z.of_nat (length be) = whole).

(** The [i]-th line that the request touches: where its piece starts and
    ends, and the request for it. *)
Definition pieceStart (i : Z) : Z := Z.max base ((base / lw + i) * lw).
Definition pieceStop (i : Z) : Z := Z.min (base + whole) ((base / lw + i + 1) * lw).
Definition piece (i : Z) : Request :=
  mkRequest (pieceStart i) (pieceStop i - pieceStart i) None (q_flags req)
    (take (Z.to_nat (pieceStop i - pieceStart i)) (drop (Z.to_nat (pieceStart i - base)) be))
    false false.
Definition pieceCount : Z := (base + whole - 1) / lw - base / lw + 1.
Definition pieces : list Request := piece <$> zrange 0 (pieceCount - 1).

Lemma lw_bounds : 1 ≤ lw ≤ 2 ^ 31.
Proof. split; [lia|apply Z.pow_le_mono_r; lia]. Qed.

Lemma pieceCount_spec i : i < pieceCount ↔ (base / lw + i) * lw < base + whole.
Proof.
  pose proof lw_bounds. unfold pieceCount.
  pose proof (Z.div_mod (base + whole - 1) lw). pose proof (Z.mod_pos_bound (base + whole - 1) lw).
  split; intros; nia.
Qed.

Lemma piece_bounds i : 0 ≤ i < pieceCount →
  base ≤ pieceStart i < pieceStop i ∧ pieceStop i ≤ base + whole
  ∧ pieceStop i - pieceStart i ≤ lw
  ∧ (i = 0 → pieceStart i = base) ∧ (0 < i → pieceStart i = (base / lw + i) * lw ∧ base < pieceStart i)
  ∧ (i + 1 < pieceCount → pieceStop i = pieceStart (i + 1) ∧ pieceStop i = (base / lw + i + 1) * lw).
Proof.
  intros [Hi Hc]. pose proof lw_bounds. unfold pieceStart, pieceStop.
  pose proof (proj1 (pieceCount_spec i) Hc).
  pose proof (pieceCount_spec (i + 1)) as Hn.
  pose proof (Z.div_mod base lw). pose proof (Z.mod_pos_bound base lw).
  assert (0 < i → base < (base / lw + i) * lw) by nia.
  assert ((base / lw + i + 1) * lw = (base / lw + i) * lw + lw) by lia.
  replace (base / lw + (i + 1)) with (base / lw + i + 1) in * by lia.
  assert (base < (base / lw + i) * lw + lw) by nia.
  split_and!; try lia.
Qed.

(** A piece lies within one line. *)
Lemma piece_line i x : 0 ≤ i < pieceCount → inRange (pieceStart i) (pieceStop i - pieceStart i) x →
  x / lw = base / lw + i.
Proof.
  intros Hi [Hx1 Hx2]. pose proof lw_bounds. unfold pieceStart, pieceStop in *.
  symmetry. apply Z.div_unique with (x - lw * (base / lw + i)); [|lia].
  left. lia.
Qed.

Lemma fragmentSize_piece i : 0 ≤ i < pieceCount → 
  lw < base `mod` lw + whole →
  fragmentSize base (base + whole) (lw - base `mod` lw) lw (pieceStart i)
  = pieceStop i - pieceStart i.
Proof.
  intros Hi Hb. pose proof lw_bounds. pose proof (piece_bounds i Hi) as (H1 & H2 & H3 & H4 & H5 & H6).
  pose proof (Z.div_mod base lw ltac:(lia)) as Hd. unfold fragmentSize.
  destruct (Z.eqb_spec (pieceStart i) base) as [He|He].
  - assert (i = 0) as -> by (destruct (decide (i = 0)); [done|lia]).
    unfold pieceStop, pieceStart in *. lia.
  - assert (0 < i) as Hp by (destruct (decide (i = 0)); [naive_solver|lia]).
    rewrite u64_id by lia.
    destruct (Z.ltb_spec (base + whole) (pieceStart i + lw)).
    + rewrite u32_id; unfold pieceStop in *; lia.
    + unfold pieceStop in *. lia.
Qed.

Lemma pieceCount_bounds : lw < base `mod` lw + whole → 1 < pieceCount < 2 ^ 32.
Proof.
  intros Hb. pose proof lw_bounds. pose proof (Z.div_mod base lw ltac:(lia)).
  split; [apply pieceCount_spec; lia|].
  unfold pieceCount. pose proof (Z.div_mod (base + whole - 1) lw ltac:(lia)).
  pose proof (Z.mod_pos_bound (base + whole - 1) lw ltac:(lia)). pose proof (Z.mod_pos_bound base lw ltac:(lia)). nia.
Qed.

Definition enabled (r : Request) : bool := isAnyActiveElement (q_byteEnable r).

Lemma fragmentLoop_pieces n : lw < base `mod` lw + whole → ∀ i A frags d,
  0 ≤ i → i + Z.of_nat n = pieceCount → (i < pieceCount → A = pieceStart i) → 0 ≤ d ≤ i →
  fragmentLoop n req (base + whole) (lw - base `mod` lw) lw A frags d
  = Ok (frags ++ List.filter enabled (piece <$> zrange i (pieceCount - 1)),
        d + countb (λ r, negb (enabled r)) (piece <$> zrange i (pieceCount - 1))).
Proof.
  intros Hb. pose proof lw_bounds. pose proof (pieceCount_bounds Hb).
  induction n as [|n IH]; intros i A frags d Hi Hn HA Hd; cbn [fragmentLoop].
  { rewrite zrange_nil by lia. cbn [fmap list_fmap List.filter].
    rewrite app_nil_r, countb_nil. by rewrite Z.add_0_r. }
  rewrite (zrange_cons i) by lia. rewrite HA by lia.
  pose proof (piece_bounds i ltac:(lia)) as (H1 & H2 & H3 & H4 & H5 & H6).
  rewrite fragmentSize_piece by (lia || done).
  assert (enableRange be (u64 (pieceStart i - base)) (pieceStop i - pieceStart i)
    = Ok (q_byteEnable (piece i))) as ->.
  { unfold enableRange. rewrite u64_id by lia.
    destruct (Z.leb_spec 0 (pieceStart i - base)); [|lia].
    destruct (Z.leb_spec 0 (pieceStop i - pieceStart i)); [|lia].
    destruct (Z.leb_spec (pieceStart i - base + (pieceStop i - pieceStart i)) (Z.of_nat (length be)));
      [done|lia]. }
  cbn [rbind fmap list_fmap List.filter]. rewrite countb_cons.
  change (isAnyActiveElement (q_byteEnable (piece i))) with (enabled (piece i)).
  replace (u64 (pieceStart i + (pieceStop i - pieceStart i))) with (pieceStop i)
    by (rewrite u64_id; lia).
  destruct (enabled (piece i)); cbn [negb b2z].
  - rewrite (IH (i + 1)) by (lia || (intros; apply H6; lia)). by rewrite <- app_assoc.
  - rewrite u32_id by lia. rewrite (IH (i + 1)) by (lia || (intros; apply H6; lia)). do 2 f_equal. lia.
Qed.

Lemma makeFragmentRequests_pieces : transferNeedsBurst base whole lw = true →
  makeFragmentRequests lw req
  = Ok (Z.of_nat (length (List.filter enabled pieces)), List.filter enabled pieces).
Proof.
  pose proof lw_bounds. unfold transferNeedsBurst.
  rewrite addrBlockOffset_pow2 by lia. pose proof (Z.mod_pos_bound base lw ltac:(lia)).
  rewrite u64_id by lia. intros Hb%Z.ltb_lt.
  pose proof (pieceCount_bounds Hb). unfold makeFragmentRequests.
  rewrite (u64_id (base + whole)) by lia. rewrite (addrBlockOffset_pow2 base), (addrBlockOffset_pow2 (base + whole)) by lia.
  pose proof (Z.div_mod base lw ltac:(lia)). pose proof (Z.div_mod (base + whole) lw ltac:(lia)).
  pose proof (Z.mod_pos_bound (base + whole) lw ltac:(lia)).
  set (q0 := base / lw) in *. set (q1 := (base + whole) / lw) in *.
  set (last := (base + whole) `mod` lw) in *. set (off := base `mod` lw) in *.
  assert (q0 + 1 ≤ q1) by nia.
  rewrite (u32_id off), (u32_id last), (u32_id (lw - off)) by lia.
  assert (whole - (lw - off + last) = (q1 - q0 - 1) * lw) as Hmid by nia.
  rewrite (u32_id (whole - (lw - off + last))) by nia. rewrite Hmid.
  rewrite addrBlockOffset_pow2 by nia. rewrite Z.mod_mul, Z.div_mul by lia.
  cbn [Z.eqb assert_ rbind].
  assert (pieceCount = 1 + (q1 - q0 - 1) + (if last =? 0 then 0 else 1)) as Hc.
  { unfold pieceCount. fold q0. destruct (Z.eqb_spec last 0).
    - rewrite <- (Z.div_unique (base + whole - 1) lw (q1 - 1) (lw - 1)); lia.
    - rewrite <- (Z.div_unique (base + whole - 1) lw q1 (last - 1)); lia. }
  rewrite <- Hc, (u32_id pieceCount) by lia.
  replace (u32 ((q1 - q0 - 1) * lw + (lw - off) + last)) with whole by (rewrite u32_id; lia).
  rewrite Z.eqb_refl. cbn [assert_ rbind].
  rewrite (fragmentLoop_pieces _ Hb 0); try (lia || done).
  2:{ intros. symmetry. by apply piece_bounds. }
  cbn [rbind]. fold pieces. cbn [app].
  assert (Z.of_nat (length (List.filter enabled pieces))
          + countb (λ r, negb (enabled r)) pieces = pieceCount) as Hsum.
  { replace pieceCount with (Z.of_nat (length pieces))
      by (unfold pieces; rewrite length_fmap, zrange_length; lia).
    induction pieces as [|p l IHl]; [done|]. cbn [List.filter length]. rewrite countb_cons.
    destruct (enabled p); cbn [length negb b2z]; lia. }
  pose proof (countb_nonneg (λ r, negb (enabled r)) pieces).
  destruct (Z.leb_spec (0 + countb (λ r, negb (enabled r)) pieces) pieceCount); [|lia].
  cbn [assert_ rbind]. rewrite u32_id by lia. do 2 f_equal. lia.
Qed.

Lemma elem_of_pieces f : f ∈ pieces ↔ ∃ i, 0 ≤ i < pieceCount ∧ f = piece i.
Proof.
  unfold pieces. rewrite list_elem_of_fmap. setoid_rewrite elem_of_zrange.
  split; [intros (i & -> & ?)|intros (i & ? & ->)]; exists i; split; auto with lia.
Qed.

Definition before (f g : Request) : Prop := q_vaddr f + q_size f ≤ q_vaddr g.

Lemma pieces_sorted i : 0 ≤ i → StronglySorted before (piece <$> zrange i (pieceCount - 1)).
Proof.
  intros Hi. remember (Z.to_nat (pieceCount - i)) as n eqn:Hn. revert i Hi Hn.
  induction n as [|n IH]; intros i Hi Hn.
  { rewrite zrange_nil by lia. constructor. }
  rewrite zrange_cons by lia. cbn [fmap list_fmap]. constructor; [apply IH; lia|].
  apply Forall_forall. intros f (j & -> & Hj%elem_of_zrange)%list_elem_of_fmap.
  unfold before, piece. cbn. pose proof lw_bounds.
  unfold pieceStart, pieceStop. nia.
Qed.

Lemma StronglySorted_filter (p : Request → bool) l :
  StronglySorted before l → StronglySorted before (List.filter p l).
Proof.
  induction 1 as [|x l Hs IH Hx]; cbn; [constructor|]. destruct (p x); [|done].
  constructor; [done|]. rewrite Forall_forall in Hx |- *. intros y Hy. apply Hx.
  rewrite list_elem_of_In in Hy |- *. by apply filter_In in Hy as [? _].
Qed.

Lemma piece_enable i j : 0 ≤ i < pieceCount → 0 ≤ j < pieceStop i - pieceStart i →
  q_byteEnable (piece i) !! Z.to_nat j = be !! Z.to_nat (pieceStart i - base + j).
Proof.
  intros Hi Hj. pose proof (piece_bounds i Hi). unfold piece. cbn.
  rewrite lookup_take_lt by lia. rewrite lookup_drop. f_equal. lia.
Qed.

Lemma piece_of_byte j : 0 ≤ j < whole →
  let i := (base + j) / lw - base / lw in
  0 ≤ i < pieceCount ∧ inRange (pieceStart i) (pieceStop i - pieceStart i) (base + j).
Proof.
  intros Hj i. pose proof lw_bounds.
  pose proof (Z.div_le_mono base (base + j) lw). pose proof (Z.div_mod (base + j) lw).
  pose proof (Z.mod_pos_bound (base + j) lw).
  assert (0 ≤ i < pieceCount) as Hi.
  { split; [unfold i; lia|]. apply pieceCount_spec. unfold i. nia. }
  split; [done|]. unfold inRange, pieceStart, pieceStop, i.
  replace (base / lw + ((base + j) / lw - base / lw)) with ((base + j) / lw) by lia. lia.
Qed.
End fragments.

(** The fragments of a request that needs a burst. *)
Lemma split_fragments_facts (k : Z) (req : Request) :
  0 ≤ k ≤ 31 → 0 ≤ q_vaddr req → 0 < q_size req < 2 ^ 32 →
  q_vaddr req + q_size req + 2 ^ k ≤ 2 ^ 64 →
  Z.of_nat (length (q_byteEnable req)) = q_size req →
  transferNeedsBurst (q_vaddr req) (q_size req) (2 ^ k) = true →
  ∃ frags, makeFragmentRequests (2 ^ k) req = Ok (Z.of_nat (length frags), frags)
    ∧ StronglySorted before frags
    ∧ (∀ f, f ∈ frags →
         0 < q_size f ∧ q_vaddr req ≤ q_vaddr f ∧ q_vaddr f + q_size f ≤ q_vaddr req + q_size req
         ∧ q_vaddr f / 2 ^ k = (q_vaddr f + q_size f - 1) / 2 ^ k
         ∧ q_flags f = q_flags req ∧ isAnyActiveElement (q_byteEnable f) = true
         ∧ ∀ j, 0 ≤ j < q_size f →
             q_byteEnable f !! Z.to_nat j = q_byteEnable req !! Z.to_nat (q_vaddr f - q_vaddr req + j))
    ∧ (∀ j, q_byteEnable req !! Z.to_nat j = Some true → 0 ≤ j →
         ∃ f, f ∈ frags ∧ inRange (q_vaddr f) (q_size f) (q_vaddr req + j)).
Proof.
  intros Hk Hb Hw He Hl Hburst. eexists. split; [by apply makeFragmentRequests_pieces|].
  split; [apply StronglySorted_filter, pieces_sorted; lia|]. split.
  - intros f Hf. rewrite list_elem_of_In in Hf. apply filter_In in Hf as [Hf Hen].
    rewrite <- list_elem_of_In in Hf. apply elem_of_pieces in Hf as (i & Hi & ->).
    pose proof (piece_bounds k req Hk Hb Hw He i Hi) as (H1 & H2 & H3 & _). cbn.
    split_and!; try lia.
    + rewrite (piece_line k req Hk i (pieceStart k req i)) by (done || (unfold inRange; lia)).
      symmetry. apply (piece_line k req Hk i); [done|unfold inRange; lia].
    + done.
    + done.
    + intros j Hj. by apply (piece_enable k req).
  - intros j Hj H0. assert (j < q_size req) by (apply lookup_lt_Some in Hj; lia).
    pose proof (piece_of_byte k req Hk j ltac:(lia)) as [Hi Hin].
    set (i := (q_vaddr req + j) / 2 ^ k - q_vaddr req / 2 ^ k) in *.
    exists (piece k req i). split; [|done].
    rewrite list_elem_of_In. apply filter_In. split.
    { rewrite <- list_elem_of_In. apply elem_of_pieces. by exists i. }
    apply existsb_exists. exists true. split; [|done]. apply list_elem_of_In.
    apply (list_elem_of_lookup_2 _ (Z.to_nat (q_vaddr req + j - pieceStart k req i))).
    rewrite (piece_enable k req) by (done || (unfold inRange in Hin; lia)).
    rewrite <- Hj. f_equal. unfold inRange in Hin. lia.
Qed.

(** a transfer that crosses a line is split correctly: for a line width
    that is a power of two and any request that needs a burst (and does not
    touch the last line of the address space) no assertion fails; the
    fragments are in ascending order without overlap, each is non-empty, lies
    inside the request and inside one line, has the request's flags and an enabled
    byte and carries its part of the byte enables; every enabled byte of the request is in a
    fragment; and [numFragments] is their number. *)
Theorem split_fragments_cover (k : Z) (req : Request) :
  0 ≤ k ≤ 31 → 0 ≤ q_vaddr req → 0 < q_size req < 2 ^ 32 →
  q_vaddr req + q_size req + 2 ^ k ≤ 2 ^ 64 →
  Z.of_nat (length (q_byteEnable req)) = q_size req →
  transferNeedsBurst (q_vaddr req) (q_size req) (2 ^ k) = true →
  ∃ frags, makeFragmentRequests (2 ^ k) req = Ok (Z.of_nat (length frags), frags)
    ∧ StronglySorted before frags
    ∧ (∀ f, f ∈ frags →
         0 < q_size f ∧ q_vaddr req ≤ q_vaddr f ∧ q_vaddr f + q_size f ≤ q_vaddr req + q_size req
         ∧ q_vaddr f / 2 ^ k = (q_vaddr f + q_size f - 1) / 2 ^ k
         ∧ q_flags f = q_flags req ∧ isAnyActiveElement (q_byteEnable f) = true
         ∧ ∀ j, 0 ≤ j < q_size f →
             q_byteEnable f !! Z.to_nat j = q_byteEnable req !! Z.to_nat (q_vaddr f - q_vaddr req + j))
    ∧ (∀ j, q_byteEnable req !! Z.to_nat j = Some true → 0 ≤ j →
         ∃ f, f ∈ frags ∧ inRange (q_vaddr f) (q_size f) (q_vaddr req + j)).
Proof. apply split_fragments_facts. Qed.

(** A 36-byte access at 0x103c with 16-byte lines, the second line disabled. *)
Lemma split_fragments_cover_witness :
  let req := mkRequest 4156 36 None noFlags
               (replicate 4 true ++ replicate 16 false ++ replicate 16 true) false false in
  ∃ frags, makeFragmentRequests (2 ^ 4) req = Ok (Z.of_nat (length frags), frags)
    ∧ StronglySorted before frags
    ∧ (∀ f, f ∈ frags →
         0 < q_size f ∧ q_vaddr req ≤ q_vaddr f ∧ q_vaddr f + q_size f ≤ q_vaddr req + q_size req
         ∧ q_vaddr f / 2 ^ 4 = (q_vaddr f + q_size f - 1) / 2 ^ 4
         ∧ q_flags f = q_flags req ∧ isAnyActiveElement (q_byteEnable f) = true
         ∧ ∀ j, 0 ≤ j < q_size f →
             q_byteEnable f !! Z.to_nat j = q_byteEnable req !! Z.to_nat (q_vaddr f - q_vaddr req + j))
    ∧ (∀ j, q_byteEnable req !! Z.to_nat j = Some true → 0 ≤ j →
         ∃ f, f ∈ frags ∧ inRange (q_vaddr f) (q_size f) (q_vaddr req + j)).
Proof. intros req. apply (split_fragments_cover 4 req); cbn; lia || reflexivity. Defined.

(** In the last line of the address space the test for the last fragment
    wraps around, and the fragment overruns the request. *)
Lemma split_last_line_overruns :
  makeFragmentRequests 16 (mkRequest (2 ^ 64 - 24) 20 None noFlags (replicate 20 true) false false)
  = Stop OutOfBounds.
Proof. vm_compute. reflexivity. Qed.
