(* ===== verification/LsqRequest.v ===== *)
(** * Requests of the load/store queue (src/cpu/myminor/lsq.hh, lsq.cc)

    [LSQRequest] and its subclasses: [SingleDataRequest] for an access within
    a line, [SplitDataRequest] for one that is broken into fragments,
    [FailedDataRequest] and [BarrierDataRequest], which access no memory.  The
    virtual methods become functions by cases on the kind.  A packet's
    payload is a buffer of bytes, where [None] is a byte not yet written. *)
From stdpp Require Import sorting.
From S2P Require Import Prelude Buffers LVPT PipeData LsqAddr.

(** ** Byte buffers *)

Notation Bytes := (list (option Z)).

(** [new uint8_t[n]] *)
Definition uninit (n : Z) : Bytes := replicate (Z.to_nat n) None.

(** the [n] bytes from [src + off] on, for reading *)
Definition readBytes (src : Bytes) (off n : Z) : res Bytes :=
  if (0 <=? off) && (0 <=? n) && (off + n <=? Z.of_nat (length src))
  then Ok (take (Z.to_nat n) (drop (Z.to_nat off) src)) else Stop OutOfBounds.

(** [memcpy(dst + off, src, n)] *)
Definition memcpy (dst : Bytes) (off : Z) (src : Bytes) (n : Z) : res Bytes :=
  b ← readBytes src 0 n;
  if (0 <=? off) && (off + n <=? Z.of_nat (length dst))
  then Ok (take (Z.to_nat off) dst ++ b ++ drop (Z.to_nat (off + n)) dst) else Stop OutOfBounds.

(** the bytes of an [unsigned long] in memory *)
Definition ulongBytes (v : Z) : Bytes := (λ i, Some (Z.land (Z.shiftr v (8 * i)) 255)) <$> zrange 0 7.

(** ** Packets *)

(** A packet with the request it carries; [pk_response] after
    [makeResponse()] or when it came back from memory. *)
Record Packet := mkPacket {
  pk_req : Request;
  pk_write : bool;
  pk_data : option Bytes;
  pk_error : bool;
  pk_response : bool;
}.

(** [makePacketForRequest(request, isLoad, sender_state, data)] *)
Definition makePacketForRequest (request : Request) (isLoad : bool) (data : option Bytes) : Packet :=
  mkPacket request (negb isLoad)
    (if isLoad then Some (uninit (q_size request))
     else if negb (cacheMaintenance (q_flags request)) then data
     else None) false false.

(** a request that carries a command which expects a response *)
Definition needsResponse (p : Packet) : bool := negb (pk_response p).

(** [makeResponse()] *)
Definition makeResponse (p : Packet) : res Packet :=
  check (needsResponse p);
  Ok (mkPacket (pk_req p) (pk_write p) (pk_data p) (pk_error p) true).

(** [copyError(pkt)] *)
Definition copyError (p : Packet) : Packet :=
  mkPacket (pk_req p) (pk_write p) (pk_data p) true (pk_response p).

Definition setPacketData (d : Bytes) (p : Packet) : Packet :=
  mkPacket (pk_req p) (pk_write p) (Some d) (pk_error p) (pk_response p).

Definition bytesOf (p : Packet) : res Bytes :=
  match pk_data p with Some d => Ok d | None => Stop NullDeref end.

(** ** Requests *)

Inductive LSQRequestState :=
| NotIssued | InTranslation | Translated | Failed | RequestIssuing | StoreToStoreBuffer
| RequestNeedsRetry | StoreInStoreBuffer | StoreBufferIssuing | StoreBufferNeedsRetry | Complete.

#[export] Instance LSQRequestState_eq_dec : EqDecision LSQRequestState.
Proof. solve_decision. Defined.

(** the members of [SplitDataRequest]; [translationEvent] is true while the
    event is scheduled *)
Record SplitFields := mkSplit {
  translationEvent : bool;
  numFragments : Z;
  numInTranslationFragments : Z;
  numTranslatedFragments : Z;
  numIssuedFragments : Z;
  numRetiredFragments : Z;
  fragmentRequests : list Request;
  fragmentPackets : list Packet;
}.

(** the subclass of a request with its own members *)
Inductive ReqKind :=
| SingleDataRequest (packetInFlight packetSent : bool)
| SplitDataRequest (s : SplitFields)
| FailedDataRequest
| BarrierDataRequest.

Section request.
Context `{I : Isa}.
Notation DynInst := (MyMinorDynInst I).

Record LSQRequest := mkLSQRequest {
  rq_inst : DynInst;
  rq_isLoad : bool;
  rq_data : option Bytes;
  rq_packet : option Packet;
  rq_request : Request;
  rq_skipped : bool;
  rq_issuedToMemory : bool;
  rq_isTranslationDelayed : bool;
  rq_state : LSQRequestState;
  rq_kind : ReqKind;
}.

Implicit Types (r : LSQRequest).

(** field updates *)
Definition setState (st : LSQRequestState) r : LSQRequest :=
  mkLSQRequest (rq_inst r) (rq_isLoad r) (rq_data r) (rq_packet r) (rq_request r) (rq_skipped r)
    (rq_issuedToMemory r) (rq_isTranslationDelayed r) st (rq_kind r).
Definition setSkipped r : LSQRequest :=
  mkLSQRequest (rq_inst r) (rq_isLoad r) (rq_data r) (rq_packet r) (rq_request r) true
    (rq_issuedToMemory r) (rq_isTranslationDelayed r) (rq_state r) (rq_kind r).
Definition setIssued r : LSQRequest :=
  mkLSQRequest (rq_inst r) (rq_isLoad r) (rq_data r) (rq_packet r) (rq_request r) (rq_skipped r)
    true (rq_isTranslationDelayed r) (rq_state r) (rq_kind r).
Definition markDelayed r : LSQRequest :=
  mkLSQRequest (rq_inst r) (rq_isLoad r) (rq_data r) (rq_packet r) (rq_request r) (rq_skipped r)
    (rq_issuedToMemory r) true (rq_state r) (rq_kind r).
Definition setKind (k : ReqKind) r : LSQRequest :=
  mkLSQRequest (rq_inst r) (rq_isLoad r) (rq_data r) (rq_packet r) (rq_request r) (rq_skipped r)
    (rq_issuedToMemory r) (rq_isTranslationDelayed r) (rq_state r) k.
Definition setPacket (p : option Packet) r : LSQRequest :=
  mkLSQRequest (rq_inst r) (rq_isLoad r) (rq_data r) p (rq_request r) (rq_skipped r)
    (rq_issuedToMemory r) (rq_isTranslationDelayed r) (rq_state r) (rq_kind r).
Definition setData (d : option Bytes) r : LSQRequest :=
  mkLSQRequest (rq_inst r) (rq_isLoad r) d (rq_packet r) (rq_request r) (rq_skipped r)
    (rq_issuedToMemory r) (rq_isTranslationDelayed r) (rq_state r) (rq_kind r).
Definition setRequest (q : Request) r : LSQRequest :=
  mkLSQRequest (rq_inst r) (rq_isLoad r) (rq_data r) (rq_packet r) q (rq_skipped r)
    (rq_issuedToMemory r) (rq_isTranslationDelayed r) (rq_state r) (rq_kind r).
Definition setInst (i : DynInst) r : LSQRequest :=
  mkLSQRequest i (rq_isLoad r) (rq_data r) (rq_packet r) (rq_request r) (rq_skipped r)
    (rq_issuedToMemory r) (rq_isTranslationDelayed r) (rq_state r) (rq_kind r).

(** [inst->translationFault = f], [inst->inLSQ = b], [inst->inStoreBuffer = b] *)
Definition setTranslationFault (f : Fault) (i : DynInst) : DynInst :=
  with_ex (λ e, mkExecFields (fuIndex e) (inLSQ e) f (inStoreBuffer e) (canEarlyIssue e)
    (predicate e) (memAccPredicate e) (instToWaitFor e) (extraCommitDelay e)
    (extraCommitDelayExpr e) (minimumCommitCycle e) (flatDestRegIdx e)) i.
Definition setInLSQ (b : bool) (i : DynInst) : DynInst :=
  with_ex (λ e, mkExecFields (fuIndex e) b (translationFault e) (inStoreBuffer e) (canEarlyIssue e)
    (predicate e) (memAccPredicate e) (instToWaitFor e) (extraCommitDelay e)
    (extraCommitDelayExpr e) (minimumCommitCycle e) (flatDestRegIdx e)) i.
Definition setInStoreBuffer (b : bool) (i : DynInst) : DynInst :=
  with_ex (λ e, mkExecFields (fuIndex e) (inLSQ e) (translationFault e) b (canEarlyIssue e)
    (predicate e) (memAccPredicate e) (instToWaitFor e) (extraCommitDelay e)
    (extraCommitDelayExpr e) (minimumCommitCycle e) (flatDestRegIdx e)) i.

(** the constructors: [request] is a fresh [Request], filled in by the caller *)
Definition emptyRequest : Request := mkRequest 0 0 None noFlags [] false false.
Definition newLSQRequest (inst : DynInst) (isLoad : bool) (data : option Bytes) (k : ReqKind)
    (st : LSQRequestState) : LSQRequest :=
  mkLSQRequest inst isLoad data None emptyRequest false false false st k.
Definition newSingle (inst : DynInst) (isLoad : bool) (data : option Bytes) : LSQRequest :=
  newLSQRequest inst isLoad data (SingleDataRequest false false) NotIssued.
Definition newSplit (inst : DynInst) (isLoad : bool) (data : option Bytes) : LSQRequest :=
  newLSQRequest inst isLoad data (SplitDataRequest (mkSplit false 0 0 0 0 0 [] [])) NotIssued.
Definition newFailed (inst : DynInst) : LSQRequest :=
  newLSQRequest inst true None FailedDataRequest Failed.
Definition newBarrier (inst : DynInst) : LSQRequest :=
  newLSQRequest inst true None BarrierDataRequest Complete.

(** ** Methods *)

Definition isComplete r : bool := bool_decide (rq_state r = Complete).

Definition needsToBeSentToStoreBuffer r : bool := bool_decide (rq_state r = StoreToStoreBuffer).

Definition isBarrier r : bool :=
  match rq_kind r with
  | BarrierDataRequest => true
  | _ => isInst (rq_inst r) && isFullMemBarrier (staticInst (rq_inst r))
  end.

(** [getHeadPacket()]; a null packet is dereferenced by every caller *)
Definition getHeadPacket r : res Packet :=
  match rq_kind r with
  | SingleDataRequest _ _ =>
      match rq_packet r with Some p => Ok p | None => Stop NullDeref end
  | SplitDataRequest s =>
      check (numIssuedFragments s <? numTranslatedFragments s);
      vget (fragmentPackets s) (numIssuedFragments s)
  | FailedDataRequest | BarrierDataRequest => Stop Fatal
  end.

(** [stepToNextPacket()] *)
Definition stepToNextPacket r : res LSQRequest :=
  match rq_kind r with
  | SingleDataRequest _ _ => Ok (setKind (SingleDataRequest true true) r)
  | SplitDataRequest s =>
      check (numIssuedFragments s <? numTranslatedFragments s);
      Ok (setKind (SplitDataRequest
            (mkSplit (translationEvent s) (numFragments s) (numInTranslationFragments s)
               (numTranslatedFragments s) (u32 (numIssuedFragments s + 1)) (numRetiredFragments s)
               (fragmentRequests s) (fragmentPackets s))) r)
  | FailedDataRequest | BarrierDataRequest => Ok r
  end.

(** [sentAllPackets()] *)
Definition sentAllPackets r : bool :=
  match rq_kind r with
  | SingleDataRequest _ packetSent => packetSent
  | SplitDataRequest s => numIssuedFragments s =? numTranslatedFragments s
  | FailedDataRequest | BarrierDataRequest => true
  end.

(** [hasPacketsInMemSystem()] *)
Definition hasPacketsInMemSystem r : bool :=
  match rq_kind r with
  | SingleDataRequest packetInFlight _ => packetInFlight
  | SplitDataRequest s => negb (numIssuedFragments s =? numRetiredFragments s)
  | FailedDataRequest | BarrierDataRequest => false
  end.

(** [makePacket()] *)
Definition makePacket r : res LSQRequest :=
  check (negb (faultSet (translationFault (ex (rq_inst r)))));
  match rq_packet r with
  | Some _ => Ok r
  | None =>
      Ok (setData None
            (setPacket (Some (makePacketForRequest (rq_request r) (rq_isLoad r) (rq_data r))) r))
  end.

(** the body of the loop of [makeFragmentPackets()] *)
Definition makeFragmentPacket (base_addr : Z) (st : LSQRequest * list Packet) (fragment : Request)
  : res (LSQRequest * list Packet) :=
  let '(r, packets) := st in
  request_data ←
    (if negb (rq_isLoad r) then
       match rq_data r with
       | Some d => b ← readBytes d (u64 (q_vaddr fragment - base_addr)) (q_size fragment); Ok (Some b)
       | None => Stop NullDeref
       end
     else Ok None);
  check (hasPaddr fragment);
  Ok (setRequest (setFlags (q_flags fragment) (rq_request r)) r,
      packets ++ [makePacketForRequest fragment (rq_isLoad r) request_data]).

(** [makeFragmentPackets()] *)
Definition makeFragmentPackets r : res LSQRequest :=
  match rq_kind r with
  | SplitDataRequest s =>
      check (0 <? numTranslatedFragments s);
      ' (r, packets) ←
        mfold (λ st fragment_index,
                 fragment ← vget (fragmentRequests s) fragment_index;
                 makeFragmentPacket (q_vaddr (rq_request r)) st fragment)
          (r, fragmentPackets s) (zrange 0 (numTranslatedFragments s - 1));
      first ← vget (fragmentRequests s) 0;
      paddr ← getPaddr first;
      let r := setRequest (setPaddr paddr (rq_request r)) r in
      makePacket (setKind (SplitDataRequest
        (mkSplit (translationEvent s) (numFragments s) (numInTranslationFragments s)
           (numTranslatedFragments s) (numIssuedFragments s) (numRetiredFragments s)
           (fragmentRequests s) packets)) r)
  | _ => Ok r
  end.

(** [SingleDataRequest::retireResponse(packet)] *)
Definition retireSingle r (response : Packet) (sent : bool) : LSQRequest :=
  setState Complete (setKind (SingleDataRequest false sent) (setPacket (Some response) r)).

(** the response's data goes into the request's buffer *)
Definition retireData r (response : Packet) : res LSQRequest :=
  if rq_skipped r then Ok r
  else if pk_error response then
    match rq_packet r with
    | Some p => Ok (setPacket (Some (copyError p)) (setSkipped r))
    | None => Stop NullDeref
    end
  else if rq_isLoad r then
    let data := match rq_data r with Some d => d | None => uninit (q_size (rq_request r)) end in
    src ← bytesOf response;
    data ← memcpy data (u64 (q_vaddr (pk_req response) - q_vaddr (rq_request r)))
             src (q_size (pk_req response));
    Ok (setData (Some data) r)
  else Ok r.

(** the end of [SplitDataRequest::retireResponse]: the complete packet *)
Definition finishBurst r : res LSQRequest :=
  let data := match rq_data r with Some d => d | None => uninit (q_size (rq_request r)) end in
  match rq_packet r with
  | None => Stop NullDeref
  | Some p =>
      p ← (if rq_isLoad r then
             dst ← bytesOf p;
             dst ← memcpy dst 0 data (q_size (rq_request r));
             Ok (setPacketData dst p)
           else Ok p);
      p ← makeResponse p;
      Ok (setPacket (Some p) (setData (Some data) r))
  end.

(** the early completion of a skipped burst *)
Definition skipBurst r : res LSQRequest :=
  if rq_skipped r && negb (hasPacketsInMemSystem r) then
    match rq_packet r with
    | None => Stop NullDeref
    | Some p =>
        p ← (if needsResponse p then makeResponse p else Ok p);
        Ok (setPacket (Some p) (setState Complete r))
    end
  else Ok r.

(** [SplitDataRequest::retireResponse(response)] *)
Definition retireSplit (s : SplitFields) r (response : Packet) : res LSQRequest :=
  check (negb (faultSet (translationFault (ex (rq_inst r)))));
  check (numRetiredFragments s <? numTranslatedFragments s);
  let numRetired := u32 (numRetiredFragments s + 1) in
  let r := setKind (SplitDataRequest
        (mkSplit (translationEvent s) (numFragments s) (numInTranslationFragments s)
           (numTranslatedFragments s) (numIssuedFragments s) numRetired
           (fragmentRequests s) (fragmentPackets s))) r in
  r ← retireData r response;
  r ← skipBurst r;
  let r := if numRetired =? numTranslatedFragments s then setState Complete r else r in
  if negb (rq_skipped r) && isComplete r then finishBurst r else Ok r.

(** [retireResponse(packet)] *)
Definition retireResponse r (response : Packet) : res LSQRequest :=
  match rq_kind r with
  | SingleDataRequest _ sent => Ok (retireSingle r response sent)
  | SplitDataRequest s => retireSplit s r response
  | FailedDataRequest | BarrierDataRequest => Ok r
  end.

(** ** Buffers byte by byte *)

Lemma readBytes_Ok src off n : 0 ≤ off → 0 ≤ n → off + n ≤ Z.of_nat (length src) →
  ∃ b, readBytes src off n = Ok b ∧ Z.of_nat (length b) = n
    ∧ ∀ j, 0 ≤ j < n → b !! Z.to_nat j = src !! Z.to_nat (off + j).
Proof.
  intros Ho Hn Hl. unfold readBytes. zcases; try lia. cbn [andb]. eexists. split; [done|].
  rewrite length_take, length_drop. split; [lia|]. intros j Hj.
  rewrite lookup_take_lt by lia. rewrite lookup_drop. f_equal. lia.
Qed.

Lemma memcpy_Ok dst off src n : 0 ≤ off → 0 ≤ n → n ≤ Z.of_nat (length src) →
  off + n ≤ Z.of_nat (length dst) →
  ∃ d, memcpy dst off src n = Ok d ∧ length d = length dst
    ∧ ∀ j, 0 ≤ j → d !! Z.to_nat j
        = if decide (off ≤ j < off + n) then src !! Z.to_nat (j - off) else dst !! Z.to_nat j.
Proof.
  intros Ho Hn Hs Hd. unfold memcpy.
  destruct (readBytes_Ok src 0 n) as (b & -> & Hb & Hlk); [lia..|]. cbn [rbind].
  zcases; try lia. cbn [andb]. eexists. split; [done|].
  rewrite !length_app, length_take, length_drop. split; [lia|]. intros j Hj.
  destruct (decide (off ≤ j < off + n)) as [Hin|Hout].
  - rewrite lookup_app_r by (rewrite length_take; lia).
    rewrite lookup_app_l by (rewrite length_take; lia). rewrite length_take.
    replace (Z.to_nat j - (Z.to_nat off `min` length dst))%nat with (Z.to_nat (j - off)) by lia.
    rewrite Hlk by lia. f_equal.
  - destruct (decide (j < off)).
    + rewrite lookup_app_l by (rewrite length_take; lia). by rewrite lookup_take_lt by lia.
    + rewrite lookup_app_r by (rewrite length_take; lia).
      rewrite lookup_app_r by (rewrite length_take; lia). rewrite lookup_drop, length_take.
      f_equal. lia.
Qed.

(** ** Assembling a split load *)

Section assemble.
Context (base size : Z) (mem : Z → Z).

Definition covers (f : Request) (x : Z) : bool := (q_vaddr f <=? x) && (x <? q_vaddr f + q_size f).

(** What memory answers for the fragment [f], where [mem] is the byte at a
    virtual address. *)
Definition responseFor (f : Request) : Packet :=
  mkPacket f false (Some ((λ j, Some (mem (q_vaddr f + j))) <$> zrange 0 (q_size f - 1))) false true.

(** [d] holds memory's bytes at the addresses that [fs] cover. *)
Definition assembled (fs : list Request) (d : Bytes) : Prop :=
  Z.of_nat (length d) = size
  ∧ ∀ j, 0 ≤ j < size →
      d !! Z.to_nat j = Some (if existsb (λ f, covers f (base + j)) fs then Some (mem (base + j)) else None).

Definition inside (f : Request) : Prop :=
  base ≤ q_vaddr f ∧ 0 < q_size f ∧ q_vaddr f + q_size f ≤ base + size.

Lemma assembled_nil : 0 ≤ size → assembled [] (uninit size).
Proof.
  intros Hs. unfold assembled, uninit. rewrite length_replicate. split; [lia|]. intros j Hj. cbn.
  apply lookup_replicate_2. lia.
Qed.

Lemma assembled_step fs f d : 0 ≤ base → base + size < 2 ^ 64 → assembled fs d → inside f →
  ∃ d', memcpy d (u64 (q_vaddr f - base))
          ((λ j, Some (mem (q_vaddr f + j))) <$> zrange 0 (q_size f - 1)) (q_size f) = Ok d'
    ∧ assembled (f :: fs) d'.
Proof.
  intros Hb Hbs [Hl Hd] (H1 & H2 & H3). rewrite u64_id by lia.
  destruct (memcpy_Ok d (q_vaddr f - base)
    ((λ j, Some (mem (q_vaddr f + j))) <$> zrange 0 (q_size f - 1)) (q_size f))
    as (d' & He & Hl' & Hd'); [lia|lia|rewrite length_fmap, zrange_length; lia|lia|].
  exists d'. split; [done|]. split; [lia|]. intros j Hj. rewrite Hd' by lia. cbn [existsb].
  unfold covers at 1. destruct (decide (q_vaddr f - base ≤ j < q_vaddr f - base + q_size f)).
  - rewrite list_lookup_fmap, zrange_lookup by lia. cbn.
    destruct (Z.leb_spec (q_vaddr f) (base + j)), (Z.ltb_spec (base + j) (q_vaddr f + q_size f)); try lia.
    cbn. do 3 f_equal. lia.
  - rewrite Hd by lia.
    destruct (Z.leb_spec (q_vaddr f) (base + j)), (Z.ltb_spec (base + j) (q_vaddr f + q_size f)); try lia; done.
Qed.

(** A split load of [T] fragments of which [fs] have been retired. *)
Record retiring (T : Z) (fs : list Request) (r : LSQRequest) : Prop := {
  rt_kind : ∃ s, rq_kind r = SplitDataRequest s ∧ numTranslatedFragments s = T
              ∧ numRetiredFragments s = Z.of_nat (length fs);
  rt_fault : translationFault (ex (rq_inst r)) = None;
  rt_skip : rq_skipped r = false;
  rt_load : rq_isLoad r = true;
  rt_state : rq_state r ≠ Complete;
  rt_base : q_vaddr (rq_request r) = base;
  rt_size : q_size (rq_request r) = size;
  rt_packet : ∃ p b, rq_packet r = Some p ∧ pk_response p = false ∧ pk_data p = Some b
                ∧ Z.of_nat (length b) = size;
  rt_data : assembled fs (match rq_data r with Some d => d | None => uninit size end);
}.

Context (Hbase : 0 ≤ base) (Hsize : 0 < size) (Hend : base + size < 2 ^ 64).

(** The common prefix of every retirement. *)
Lemma retireData_assembles T fs r s f : retiring T fs r → inside f →
  let r1 := setKind (SplitDataRequest s) r in
  ∃ d, retireData r1 (responseFor f) = Ok (setData (Some d) r1) ∧ assembled (f :: fs) d.
Proof.
  intros [] Hin r1.
  destruct (assembled_step fs f (match rq_data r with Some d => d | None => uninit size end))
    as (d & Hcpy & Hd); [done..|].
  exists d. split; [|done]. unfold retireData. cbn.
  rewrite rt_skip0, rt_load0, rt_base0, rt_size0. by rewrite Hcpy.
Qed.

Lemma retire_step T fs r f : retiring T fs r → inside f → Z.of_nat (length fs) + 1 < T < 2 ^ 32 →
  ∃ r', retireResponse r (responseFor f) = Ok r' ∧ retiring T (f :: fs) r'.
Proof.
  intros Hr Hin HT. pose proof Hr as []. destruct rt_kind0 as (s & Hk & Ht & Hn).
  unfold retireResponse. rewrite Hk. unfold retireSplit. rewrite rt_fault0, Ht, Hn.
  destruct (Z.ltb_spec (Z.of_nat (length fs)) T); [|lia]. cbn [faultSet negb assert_ rbind].
  rewrite u32_id by lia.
  edestruct (retireData_assembles T fs r) as (d & -> & Hd); [done..|]. cbn [rbind].
  unfold skipBurst. cbn. rewrite rt_skip0. cbn.
  destruct (Z.eqb_spec (Z.of_nat (length fs) + 1) T); [lia|]. cbn [rq_skipped setData setKind].
  rewrite rt_skip0. cbn [negb andb]. unfold isComplete. cbn [rq_state setData setKind].
  rewrite bool_decide_eq_false_2 by done. eexists. split; [done|].
  split; cbn; try done. eexists. split; [done|]. split; [done|]. cbn. lia.
Qed.

Lemma retire_last T fs r f : retiring T fs r → inside f → Z.of_nat (length fs) + 1 = T → T < 2 ^ 32 →
  ∃ r' p d, retireResponse r (responseFor f) = Ok r' ∧ isComplete r' = true
    ∧ rq_packet r' = Some p ∧ pk_response p = true ∧ pk_data p = Some d ∧ assembled (f :: fs) d.
Proof.
  intros Hr Hin HT HT2. pose proof Hr as []. destruct rt_kind0 as (s & Hk & Ht & Hn).
  destruct rt_packet0 as (p & b & Hp & Hpr & Hpd & Hpl).
  unfold retireResponse. rewrite Hk. unfold retireSplit. rewrite rt_fault0, Ht, Hn.
  destruct (Z.ltb_spec (Z.of_nat (length fs)) T); [|lia]. cbn [faultSet negb assert_ rbind].
  rewrite u32_id by lia.
  edestruct (retireData_assembles T fs r) as (d & -> & Hd); [done..|]. cbn [rbind].
  unfold skipBurst. cbn. rewrite rt_skip0. cbn.
  destruct (Z.eqb_spec (Z.of_nat (length fs) + 1) T); [|lia]. cbn. rewrite rt_skip0. cbn.
  unfold finishBurst. cbn. rewrite Hp, rt_load0. unfold bytesOf. rewrite Hpd. cbn [rbind].
  destruct Hd as [Hdl Hdj].
  destruct (memcpy_Ok b 0 d (q_size (rq_request r))) as (d' & -> & Hl' & Hj'); [lia..|].
  cbn [rbind]. unfold makeResponse, needsResponse. cbn. rewrite Hpr. cbn.
  eexists _, _, d'. split; [done|]. split; [done|]. split; [done|]. split; [done|]. split; [done|].
  split; [lia|]. intros j Hj. rewrite Hj' by lia. rewrite decide_True by lia.
  replace (j - 0) with j by lia. by apply Hdj.
Qed.

(** Retiring the fragments in any order completes the load. *)
Lemma retire_all T order : ∀ fs r, retiring T fs r → Forall inside order →
  Z.of_nat (length fs + length order) = T → order ≠ [] → T < 2 ^ 32 →
  ∃ r' p d, mfold retireResponse r (responseFor <$> order) = Ok r' ∧ isComplete r' = true
    ∧ rq_packet r' = Some p ∧ pk_response p = true ∧ pk_data p = Some d
    ∧ assembled (rev order ++ fs) d.
Proof.
  induction order as [|f order IH]; intros fs r Hr Hin HT Hne HT2; [done|].
  apply Forall_cons in Hin as [Hf Hin]. cbn [fmap list_fmap mfold length] in *.
  destruct order as [|g order].
  - destruct (retire_last T fs r f) as (r' & p & d & -> & H); [done|done|cbn in HT; lia|done|].
    exists r', p, d. done.
  - destruct (retire_step T fs r f) as (r' & -> & Hr'); [done|done|cbn in HT; lia|].
    cbn [rbind]. destruct (IH (f :: fs) r') as (r2 & p & d & H1 & H2 & H3 & H4 & H5 & H6);
      [done|done|cbn in *; lia|done|done|].
    exists r2, p, d. split_and!; try done. cbn [rev]. by rewrite <- app_assoc.
Qed.
End assemble.

(** ** Packets of a split request *)

(** The packet of a fragment: for a store it carries the fragment's part of
    the request's data. *)
Definition packet_ok (r : LSQRequest) (f : Request) (p : Packet) : Prop :=
  pk_req p = f ∧ pk_write p = negb (rq_isLoad r)
  ∧ (rq_isLoad r = false → cacheMaintenance (q_flags f) = false →
       ∃ d b, rq_data r = Some d ∧ pk_data p = Some b ∧ Z.of_nat (length b) = q_size f
         ∧ ∀ j, 0 ≤ j < q_size f →
             b !! Z.to_nat j = d !! Z.to_nat (q_vaddr f - q_vaddr (rq_request r) + j)).

Definition data_ok (r : LSQRequest) : Prop :=
  rq_isLoad r = false → ∃ d, rq_data r = Some d ∧ Z.of_nat (length d) = q_size (rq_request r).

(** Two requests that differ in their flags only. *)
Record same_access (r r' : LSQRequest) : Prop := {
  sa_inst : rq_inst r' = rq_inst r;
  sa_load : rq_isLoad r' = rq_isLoad r;
  sa_data : rq_data r' = rq_data r;
  sa_packet : rq_packet r' = rq_packet r;
  sa_kind : rq_kind r' = rq_kind r;
  sa_state : rq_state r' = rq_state r;
  sa_skip : rq_skipped r' = rq_skipped r;
  sa_vaddr : q_vaddr (rq_request r') = q_vaddr (rq_request r);
  sa_size : q_size (rq_request r') = q_size (rq_request r);
  sa_enable : q_byteEnable (rq_request r') = q_byteEnable (rq_request r);
  sa_local : q_localAccess (rq_request r') = q_localAccess (rq_request r);
  sa_issued : rq_issuedToMemory r' = rq_issuedToMemory r;
}.

Lemma makeFragmentPacket_loop fs : ∀ r packets,
  0 ≤ q_vaddr (rq_request r) → q_vaddr (rq_request r) + q_size (rq_request r) < 2 ^ 64 →
  data_ok r → Forall (inside (q_vaddr (rq_request r)) (q_size (rq_request r))) fs →
  Forall (λ f, hasPaddr f = true) fs →
  ∃ r' ps, mfold (makeFragmentPacket (q_vaddr (rq_request r))) (r, packets) fs
             = Ok (r', packets ++ ps)
    ∧ Forall2 (packet_ok r) fs ps ∧ same_access r r'.
Proof.
  induction fs as [|f fs IH]; intros r packets Hb Hend Hd Hin Hpa; cbn [mfold].
  { exists r, []. rewrite app_nil_r. split_and!; [done|constructor|by split]. }
  apply Forall_cons in Hin as [(H1 & H2 & H3) Hin], Hpa as [Hp Hpa].
  assert (∃ rd, (if negb (rq_isLoad r) then
       match rq_data r with
       | Some d => b ← readBytes d (u64 (q_vaddr f - q_vaddr (rq_request r))) (q_size f); Ok (Some b)
       | None => Stop NullDeref
       end else Ok None) = Ok rd
     ∧ packet_ok r f (makePacketForRequest f (rq_isLoad r) rd)) as (rd & Hrd & Hpk).
  { destruct (rq_isLoad r) eqn:El; cbn [negb].
    - exists None. split; [done|]. unfold packet_ok. by rewrite El.
    - destruct (Hd El) as (d & Hdd & Hdl). rewrite Hdd, u64_id by lia.
      destruct (readBytes_Ok d (q_vaddr f - q_vaddr (rq_request r)) (q_size f))
        as (b & -> & Hbl & Hbj); [lia..|].
      exists (Some b). split; [done|]. unfold packet_ok. rewrite El. split_and!; [done..|].
      intros _ Hcm. exists d, b. cbn. by rewrite Hcm. }
  unfold makeFragmentPacket at 1. rewrite Hrd. cbn [rbind]. rewrite Hp. cbn [assert_ rbind].
  set (r1 := setRequest _ r).
  destruct (IH r1 (packets ++ [makePacketForRequest f (rq_isLoad r) rd])) as (r' & ps & Heq & Hf2 & Hsa);
    try done.
  exists r', (makePacketForRequest f (rq_isLoad r) rd :: ps).
  split; [by rewrite <- app_assoc in Heq|]. split; [by constructor|].
  destruct Hsa. by split.
Qed.

Lemma makeFragmentPacket_loop_llsc fs base : ∀ r packets r' ps,
  mfold (makeFragmentPacket base) (r, packets) fs = Ok (r', ps) →
  Forall (λ f, llsc (q_flags f) = false) fs → llsc (q_flags (rq_request r)) = false →
  llsc (q_flags (rq_request r')) = false.
Proof.
  induction fs as [|f fs IH]; intros r packets r' ps Heq Hfs Hr; cbn [mfold] in Heq.
  { by injection Heq as -> _. }
  apply Forall_cons in Hfs as [Hf Hfs]. unfold makeFragmentPacket at 1 in Heq.
  destruct (if negb (rq_isLoad r) then _ else _); [|done]. cbn [rbind] in Heq.
  destruct (hasPaddr f); [|done]. cbn [assert_ rbind] in Heq.
  apply IH in Heq; [done..|]. cbn. by rewrite Hr, Hf.
Qed.

(** A split request all of whose fragments have been translated. *)
Definition translatedSplit (inst : DynInst) (isLoad : bool) (data : option Bytes) (req : Request)
    (frags : list Request) : LSQRequest :=
  let n := Z.of_nat (length frags) in
  setKind (SplitDataRequest (mkSplit false n 0 n 0 0 frags []))
    (setRequest req (newSplit inst isLoad data)).

Lemma makeFragmentPackets_Ok inst isLoad data req frags :
  let r := translatedSplit inst isLoad data req frags in
  let n := Z.of_nat (length frags) in
  translationFault (ex inst) = None → 0 ≤ q_vaddr req → q_vaddr req + q_size req < 2 ^ 64 →
  data_ok r → frags ≠ [] → Forall (inside (q_vaddr req) (q_size req)) frags →
  Forall (λ f, hasPaddr f = true) frags →
  ∃ r1 ps p, makeFragmentPackets r = Ok r1 ∧ Forall2 (packet_ok r) frags ps
    ∧ rq_kind r1 = SplitDataRequest (mkSplit false n 0 n 0 0 frags ps)
    ∧ rq_packet r1 = Some p ∧ pk_response p = false ∧ pk_write p = negb isLoad
    ∧ (isLoad = true → pk_data p = Some (uninit (q_size req)) ∧ rq_data r1 = None)
    ∧ rq_inst r1 = inst ∧ rq_isLoad r1 = isLoad ∧ rq_skipped r1 = false ∧ rq_state r1 = NotIssued
    ∧ q_vaddr (rq_request r1) = q_vaddr req ∧ q_size (rq_request r1) = q_size req.
Proof.
  intros r n Hf Hb He Hd Hne Hin Hpa. unfold makeFragmentPackets.
  cbn [r translatedSplit rq_kind setKind numTranslatedFragments fragmentRequests fragmentPackets].
  destruct (Z.ltb_spec 0 (Z.of_nat (length frags))); [|destruct frags; cbn in *; [done|lia]].
  cbn [assert_ rbind]. rewrite mfold_vget.
  destruct (makeFragmentPacket_loop frags r []) as (r' & ps & -> & Hps & []); try done.
  cbn [rbind app]. destruct frags as [|f frags]; [done|].
  apply Forall_cons in Hpa as [Hp _]. cbn [vget]. unfold vget. cbn [Z.leb Z.compare].
  change (Z.to_nat 0) with 0%nat. cbn [lookup list_lookup rbind].
  unfold getPaddr. unfold hasPaddr in Hp. destruct (q_paddr f) as [a|]; [|done]. cbn [rbind].
  unfold makePacket. cbn. rewrite sa_inst0, sa_packet0. cbn. rewrite Hf. cbn.
  eexists _, ps, _. split; [done|]. split; [done|]. split; [done|]. split; [done|].
  cbn. rewrite ?sa_inst0, ?sa_load0, ?sa_data0, ?sa_skip0, ?sa_state0, ?sa_vaddr0, ?sa_size0.
  cbn. split_and!; try done. intros ->. done.
Qed.

(** [n] packets are sent. *)
Definition issueAll (r : LSQRequest) (n : Z) : res LSQRequest :=
  mfold (λ r _, stepToNextPacket r) r (zrange 0 (n - 1)).

Lemma issueAll_Ok r s : rq_kind r = SplitDataRequest s → numIssuedFragments s = 0 →
  0 ≤ numTranslatedFragments s < 2 ^ 32 →
  issueAll r (numTranslatedFragments s)
  = Ok (setKind (SplitDataRequest (mkSplit (translationEvent s) (numFragments s)
      (numInTranslationFragments s) (numTranslatedFragments s) (numTranslatedFragments s)
      (numRetiredFragments s) (fragmentRequests s) (fragmentPackets s))) r).
Proof.
  intros Hk H0 HT. unfold issueAll. set (T := numTranslatedFragments s) in *.
  set (st := λ m, setKind (SplitDataRequest (mkSplit (translationEvent s) (numFragments s)
      (numInTranslationFragments s) T m
      (numRetiredFragments s) (fragmentRequests s) (fragmentPackets s))) r).
  assert (r = st 0) as Hr.
  { unfold st, T. rewrite <- H0. destruct r, s. cbn in *. by subst. }
  rewrite Hr at 1. change (setKind _ r) with (st T).
  enough (∀ m : nat, Z.of_nat m ≤ T → 
    mfold (λ r _, stepToNextPacket r) (st (T - Z.of_nat m)) (zrange (T - Z.of_nat m) (T - 1))
    = Ok (st T)) as Hm.
  { specialize (Hm (Z.to_nat T) ltac:(lia)). by replace (T - Z.of_nat (Z.to_nat T)) with 0 in Hm by lia. }
  induction m as [|m IH]; intros Hle.
  { rewrite zrange_nil by lia. cbn. do 2 f_equal. lia. }
  rewrite zrange_cons by lia. cbn [mfold].
  unfold stepToNextPacket at 1. cbn [st rq_kind setKind numIssuedFragments numTranslatedFragments].
  destruct (Z.ltb_spec (T - Z.of_nat (S m)) T); [|lia]. cbn [assert_ rbind].
  rewrite u32_id by lia. rewrite <- (IH ltac:(lia)).
  replace (T - Z.of_nat (S m) + 1) with (T - Z.of_nat m) by lia. done.
Qed.
End request.
Arguments LSQRequest : clear implicits.

(** Every fragment of a request, translated. *)
Definition translate (pa : Z → Z) (frags : list Request) : list Request :=
  (λ f, setPaddr (pa (q_vaddr f)) f) <$> frags.

Lemma translate_hasPaddr pa frags : Forall (λ f, hasPaddr f = true) (translate pa frags).
Proof. by apply Forall_fmap, Forall_true. Qed.

Lemma translate_inside b n pa frags :
  (∀ f, f ∈ frags → 0 < q_size f ∧ b ≤ q_vaddr f ∧ q_vaddr f + q_size f ≤ b + n) →
  Forall (inside b n) (translate pa frags).
Proof.
  intros H. apply Forall_fmap, Forall_forall. intros f Hf. destruct (H f Hf) as (? & ? & ?).
  unfold inside. cbn. lia.
Qed.

Lemma existsb_covers_perm (fs fs' : list Request) x : fs ≡ₚ fs' →
  existsb (λ f, covers f x) fs = existsb (λ f, covers f x) fs'.
Proof.
  intros Hp. apply eq_iff_eq_true. rewrite !existsb_exists. setoid_rewrite <- list_elem_of_In.
  split; intros (f & Hf & ?); exists f; split; try done; [by rewrite <- Hp|by rewrite Hp].
Qed.

(** C36: a load that crosses lines returns what memory holds: for any load
    request split into fragments and translated, once the packets are made
    and sent and memory has answered every fragment, in whatever order, the
    request is complete, its packet is a response, and each enabled byte of
    the packet is the byte of memory at that address. *)
Theorem split_load_assembles `{I : Isa} (k : Z) (req : Request) (inst : MyMinorDynInst I)
    (mem pa : Z → Z) (frags order : list Request) :
  0 ≤ k ≤ 31 → 0 ≤ q_vaddr req → 0 < q_size req < 2 ^ 32 →
  q_vaddr req + q_size req + 2 ^ k ≤ 2 ^ 64 →
  Z.of_nat (length (q_byteEnable req)) = q_size req →
  transferNeedsBurst (q_vaddr req) (q_size req) (2 ^ k) = true →
  translationFault (ex inst) = None →
  makeFragmentRequests (2 ^ k) req = Ok (Z.of_nat (length frags), frags) → frags ≠ [] →
  order ≡ₚ translate pa frags →
  ∃ r1 r2 r3 p d,
    makeFragmentPackets (translatedSplit inst true None req (translate pa frags)) = Ok r1
    ∧ issueAll r1 (Z.of_nat (length frags)) = Ok r2
    ∧ mfold retireResponse r2 (responseFor mem <$> order) = Ok r3
    ∧ isComplete r3 = true ∧ rq_packet r3 = Some p ∧ pk_response p = true ∧ pk_data p = Some d
    ∧ ∀ j, 0 ≤ j → q_byteEnable req !! Z.to_nat j = Some true →
        d !! Z.to_nat j = Some (Some (mem (q_vaddr req + j))).
Proof.
  intros Hk Hb Hs He Hl Hburst Hf Hmk Hne Hord.
  destruct (split_fragments_facts k req Hk Hb Hs He Hl Hburst) as (fr & Hmk' & _ & Hin & Hcov).
  rewrite Hmk in Hmk'. injection Hmk' as _ <-.
  assert (length (translate pa frags) = length frags) as Hlen by (unfold translate; by rewrite length_fmap).
  assert (0 < 2 ^ k) by lia.
  destruct (makeFragmentPackets_Ok inst true None req (translate pa frags))
    as (r1 & ps & p & H1 & _ & Hkd & Hp & Hpr & _ & Hpd & Hi & Hld & Hsk & Hst & Hv & Hsz);
    [done|done|lia|done|by intros ->%fmap_nil_inv| |apply translate_hasPaddr|].
  { apply translate_inside. intros f Hf'. destruct (Hin f Hf') as (? & ? & ? & _). lia. }
  destruct (Hpd eq_refl) as [Hpd1 Hpd2]. rewrite Hlen in Hkd.
  pose proof (makeFragmentRequests_u32 _ _ _ _ Hmk) as Hn32.
  pose proof (issueAll_Ok r1 _ Hkd eq_refl Hn32) as H2. cbn [numTranslatedFragments] in H2.
  set (r2 := setKind _ r1) in H2.
  assert (length order = length frags) as Hlo by (rewrite Hord; done).
  destruct (retire_all (q_vaddr req) (q_size req) mem Hb ltac:(lia) ltac:(lia)
    (Z.of_nat (length frags)) order [] r2) as (r3 & p3 & d & H3 & Hc & Hp3 & Hr3 & Hd3 & Hl3 & Hj3).
  { split; cbn; rewrite ?Hi, ?Hld, ?Hst, ?Hv, ?Hsz, ?Hpd2; try done.
    - eexists. done.
    - exists p, (uninit (q_size req)). split_and!; try done.
      unfold uninit. rewrite length_replicate. lia.
    - apply assembled_nil. lia. }
  { rewrite Hord. apply translate_inside. intros f Hf'. destruct (Hin f Hf') as (? & ? & ? & _). lia. }
  { cbn [length]. lia. } { intros ->. destruct frags; done. } { lia. }
  exists r1, r2, r3, p3, d. split_and!; try done. intros j Hj Hbe.
  assert (j < q_size req) by (apply lookup_lt_Some in Hbe; lia). rewrite Hj3 by lia.
  rewrite app_nil_r, (existsb_covers_perm _ (translate pa frags))
    by (rewrite <- Hord; symmetry; apply Permutation_rev).
  destruct (Hcov j Hbe Hj) as (f & Hff & Hr). replace (existsb _ _) with true; [done|].
  symmetry. apply existsb_exists. exists (setPaddr (pa (q_vaddr f)) f).
  split; [apply list_elem_of_In, list_elem_of_fmap; by exists f|].
  unfold inRange in Hr. unfold covers. cbn.
  destruct (Z.leb_spec (q_vaddr f) (q_vaddr req + j)), (Z.ltb_spec (q_vaddr req + j) (q_vaddr f + q_size f)); try lia; done.
Qed.

(** An 8-byte load at 0x103c with 16-byte lines. *)
Lemma split_load_assembles_witness :
  let req := mkRequest 4156 8 None noFlags (replicate 8 true) false false in
  let frags := [mkRequest 4156 4 None noFlags (replicate 4 true) false false;
                mkRequest 4160 4 None noFlags (replicate 4 true) false false] in
  let inst := Toy.inst Toy.ld 64 1 in
  ∃ r1 r2 r3 p d,
    makeFragmentPackets (translatedSplit inst true None req (translate Z.succ frags)) = Ok r1
    ∧ issueAll r1 2 = Ok r2
    ∧ mfold retireResponse r2 (responseFor (λ a, a `mod` 256) <$> rev (translate Z.succ frags)) = Ok r3
    ∧ isComplete r3 = true ∧ rq_packet r3 = Some p ∧ pk_response p = true ∧ pk_data p = Some d
    ∧ ∀ j, 0 ≤ j → q_byteEnable req !! Z.to_nat j = Some true →
        d !! Z.to_nat j = Some (Some ((q_vaddr req + j) `mod` 256)).
Proof.
  intros req frags inst.
  apply (split_load_assembles 4 req inst (λ a, a `mod` 256) Z.succ frags); cbn; try lia; try done.
  apply Permutation_swap.
Defined.

(** a store that crosses lines sends every byte where it belongs: the
    packets made for the fragments of a split store carry, in order, exactly
    the bytes of the store's data at the fragment's addresses, and every
    enabled byte of the store is carried by one of them. *)
Theorem split_store_packets `{I : Isa} (k : Z) (req : Request) (inst : MyMinorDynInst I)
    (data : Bytes) (pa : Z → Z) (frags : list Request) :
  0 ≤ k ≤ 31 → 0 ≤ q_vaddr req → 0 < q_size req < 2 ^ 32 →
  q_vaddr req + q_size req + 2 ^ k ≤ 2 ^ 64 →
  Z.of_nat (length (q_byteEnable req)) = q_size req →
  transferNeedsBurst (q_vaddr req) (q_size req) (2 ^ k) = true →
  translationFault (ex inst) = None → cacheMaintenance (q_flags req) = false →
  Z.of_nat (length data) = q_size req →
  makeFragmentRequests (2 ^ k) req = Ok (Z.of_nat (length frags), frags) → frags ≠ [] →
  ∃ r1 s, makeFragmentPackets (translatedSplit inst false (Some data) req (translate pa frags)) = Ok r1
    ∧ rq_kind r1 = SplitDataRequest s
    ∧ pk_req <$> fragmentPackets s = translate pa frags
    ∧ (∀ p, p ∈ fragmentPackets s → pk_write p = true ∧ ∃ b, pk_data p = Some b ∧
         Z.of_nat (length b) = q_size (pk_req p) ∧
         ∀ j, 0 ≤ j < q_size (pk_req p) →
           b !! Z.to_nat j = data !! Z.to_nat (q_vaddr (pk_req p) - q_vaddr req + j))
    ∧ (∀ j, 0 ≤ j → q_byteEnable req !! Z.to_nat j = Some true →
         ∃ p, p ∈ fragmentPackets s ∧ covers (pk_req p) (q_vaddr req + j) = true).
Proof.
  intros Hk Hb Hs He Hl Hburst Hf Hcm Hdl Hmk Hne.
  destruct (split_fragments_facts k req Hk Hb Hs He Hl Hburst) as (fr & Hmk' & _ & Hin & Hcov).
  rewrite Hmk in Hmk'. injection Hmk' as _ <-. assert (0 < 2 ^ k) by lia.
  destruct (makeFragmentPackets_Ok inst false (Some data) req (translate pa frags))
    as (r1 & ps & p & H1 & Hps & Hkd & _);
    [done|done|lia|by exists data|by intros ->%fmap_nil_inv| |apply translate_hasPaddr|].
  { apply translate_inside. intros f Hf'. destruct (Hin f Hf') as (? & ? & ? & _). lia. }
  eexists r1, _. split; [done|]. split; [done|]. cbn [fragmentPackets].
  assert (pk_req <$> ps = translate pa frags) as Hreq.
  { symmetry. apply list_eq_Forall2, Forall2_fmap_r. eapply Forall2_impl; [done|].
    by intros f q (<- & _). }
  split; [done|]. split.
  - intros q [i Hq]%list_elem_of_lookup.
    destruct (Forall2_lookup_r _ _ _ _ _ Hps Hq) as (f & Hfi & Hreqq & Hw & Hdd).
    apply list_elem_of_lookup_2, list_elem_of_fmap in Hfi as (f0 & -> & Hf0).
    destruct (Hin f0 Hf0) as (_ & _ & _ & _ & Hfl & _).
    destruct Hdd as (d & b & [= <-] & Hbd & Hbl & Hbj); [done|by cbn; rewrite Hfl|].
    rewrite Hreqq. split; [done|]. exists b. split_and!; try done.
  - intros j Hj Hbe. destruct (Hcov j Hbe Hj) as (f & Hff & Hr).
    assert (setPaddr (pa (q_vaddr f)) f ∈ pk_req <$> ps) as (q & Hq & Hqp)%list_elem_of_fmap.
    { rewrite Hreq. apply list_elem_of_fmap. by exists f. }
    exists q. split; [done|]. rewrite <- Hq. unfold inRange in Hr. unfold covers. cbn. zcases; lia || done.
Qed.

Lemma split_store_packets_witness :
  let req := mkRequest 4156 8 None noFlags (replicate 8 true) false false in
  let frags := [mkRequest 4156 4 None noFlags (replicate 4 true) false false;
                mkRequest 4160 4 None noFlags (replicate 4 true) false false] in
  let data := ulongBytes 81985529216486895 in
  ∃ r1 s, makeFragmentPackets
            (translatedSplit (Toy.inst Toy.st 64 1) false (Some data) req (translate Z.succ frags)) = Ok r1
    ∧ rq_kind r1 = SplitDataRequest s
    ∧ pk_req <$> fragmentPackets s = translate Z.succ frags
    ∧ (∀ p, p ∈ fragmentPackets s → pk_write p = true ∧ ∃ b, pk_data p = Some b ∧
         Z.of_nat (length b) = q_size (pk_req p) ∧
         ∀ j, 0 ≤ j < q_size (pk_req p) →
           b !! Z.to_nat j = data !! Z.to_nat (q_vaddr (pk_req p) - q_vaddr req + j))
    ∧ (∀ j, 0 ≤ j → q_byteEnable req !! Z.to_nat j = Some true →
         ∃ p, p ∈ fragmentPackets s ∧ covers (pk_req p) (q_vaddr req + j) = true).
Proof.
  intros req frags data.
  apply (split_store_packets 4 req (Toy.inst Toy.st 64 1) data Z.succ frags); cbn; lia || done.
Defined.
