(* ===== verification/Lsq.v ===== *)
(** * The load/store queue (src/cpu/myminor/lsq.cc, lsq.hh)

    [LSQ] with its three queues: [requests] (waiting for translation or for
    their turn), [transfers] (sent or waiting to be committed) and the store
    buffer's [slots] (committed stores on their way to memory).  The queues
    hold pointers into a store of requests, as in the code.  The memory
    system, the TLB, the instruction set's locked accesses and the two
    questions asked of Execute are the environment [LsqEnv]; each method that
    the environment calls back ([finish], [recvTimingResp], [recvReqRetry],
    the translation event) is an operation of its own. *)
From stdpp Require Import gmap.
From S2P Require Import Prelude Buffers LVPT CVU PipeData LsqAddr LsqRequest.

(** ** State *)

(** [LSQRequestPtr] *)
Definition Ptr : Type := Z.

#[export] Instance Ptr_isBubble : IsBubble Ptr := NoBubble_isBubble.

Inductive MemoryState := MemoryRunning | MemoryNeedsRetry.

#[export] Instance MemoryState_eq_dec : EqDecision MemoryState.
Proof. solve_decision. Defined.

(** the constant members *)
Record LsqConfig := mkLsqConfig {
  inMemorySystemLimit : Z;
  lineWidth : Z;
  numSlots : Z;
  storeLimitPerCycle : Z;
}.

(** the counters *)
Record Counters := mkCounters {
  numUnissuedAccesses : Z;          (* of the store buffer *)
  numAccessesInMemorySystem : Z;
  numAccessesInDTLB : Z;
  numStoresInTransfers : Z;
  numAccessesIssuedToMemory : Z;
}.

(** [std::find] and [erase] *)
Fixpoint eraseFirst (p : Ptr) (l : list Ptr) : list Ptr :=
  match l with [] => [] | q :: l => if q =? p then l else q :: eraseFirst p l end.

Section lsq.
Context `{I : Isa}.
Notation DynInst := (MyMinorDynInst I).

Record LSQ := mkLSQ {
  cfg : LsqConfig;
  heap : gmap Z (LSQRequest I);     (* the live requests *)
  nextPtr : Ptr;
  lastMemBarrier : list Z;
  mstate : MemoryState;
  requests : Queue Ptr;
  transfers : Queue Ptr;
  slots : list Ptr;                 (* storeBuffer.slots *)
  counters : Counters;
  retryRequest : option Ptr;
  cvu : CVU;
  numSends : Z;                     (* number of packets offered to memory *)
  lsqAwake : bool;                  (* [wakeupOnEvent(ExecuteStageId)] was called *)
}.

(** what surrounds the queue *)
Record LsqEnv := mkLsqEnv {
  instIsRightStream : DynInst → bool;
  instIsHeadInst : DynInst → bool;
  accept : Z → bool;                (* the answer to the n-th sendTimingReq *)
  lockedWrite : bool;               (* handleLockedWrite *)
  localAccessor : Packet → Packet;  (* the effect of a local access *)
}.

(** the reply of the TLB to one translation *)
Record TlbReply := mkTlbReply {
  t_fault : Fault;
  t_paddr : Z;
  t_flags : Flags;
  t_local : bool;
}.

Notation LM := (St LSQ).

(** field updates *)
Definition upd_heap (f : gmap Z (LSQRequest I) → gmap Z (LSQRequest I)) (s : LSQ) : LSQ :=
  mkLSQ (cfg s) (f (heap s)) (nextPtr s) (lastMemBarrier s) (mstate s) (requests s) (transfers s)
    (slots s) (counters s) (retryRequest s) (cvu s) (numSends s) (lsqAwake s).
Definition upd_barrier (b : list Z) (s : LSQ) : LSQ :=
  mkLSQ (cfg s) (heap s) (nextPtr s) b (mstate s) (requests s) (transfers s)
    (slots s) (counters s) (retryRequest s) (cvu s) (numSends s) (lsqAwake s).
Definition upd_mstate (m : MemoryState) (s : LSQ) : LSQ :=
  mkLSQ (cfg s) (heap s) (nextPtr s) (lastMemBarrier s) m (requests s) (transfers s)
    (slots s) (counters s) (retryRequest s) (cvu s) (numSends s) (lsqAwake s).
Definition upd_queues (q t : Queue Ptr) (s : LSQ) : LSQ :=
  mkLSQ (cfg s) (heap s) (nextPtr s) (lastMemBarrier s) (mstate s) q t
    (slots s) (counters s) (retryRequest s) (cvu s) (numSends s) (lsqAwake s).
Definition upd_slots (l : list Ptr) (s : LSQ) : LSQ :=
  mkLSQ (cfg s) (heap s) (nextPtr s) (lastMemBarrier s) (mstate s) (requests s) (transfers s)
    l (counters s) (retryRequest s) (cvu s) (numSends s) (lsqAwake s).
Definition upd_counters (f : Counters → Counters) (s : LSQ) : LSQ :=
  mkLSQ (cfg s) (heap s) (nextPtr s) (lastMemBarrier s) (mstate s) (requests s) (transfers s)
    (slots s) (f (counters s)) (retryRequest s) (cvu s) (numSends s) (lsqAwake s).
Definition upd_retry (p : option Ptr) (s : LSQ) : LSQ :=
  mkLSQ (cfg s) (heap s) (nextPtr s) (lastMemBarrier s) (mstate s) (requests s) (transfers s)
    (slots s) (counters s) p (cvu s) (numSends s) (lsqAwake s).
Definition upd_sends (s : LSQ) : LSQ :=
  mkLSQ (cfg s) (heap s) (nextPtr s) (lastMemBarrier s) (mstate s) (requests s) (transfers s)
    (slots s) (counters s) (retryRequest s) (cvu s) (numSends s + 1) (lsqAwake s).
Definition upd_awake (b : bool) (s : LSQ) : LSQ :=
  mkLSQ (cfg s) (heap s) (nextPtr s) (lastMemBarrier s) (mstate s) (requests s) (transfers s)
    (slots s) (counters s) (retryRequest s) (cvu s) (numSends s) b.

Definition addUnissued (d : Z) (c : Counters) : Counters :=
  mkCounters (u32 (numUnissuedAccesses c + d)) (numAccessesInMemorySystem c) (numAccessesInDTLB c)
    (numStoresInTransfers c) (numAccessesIssuedToMemory c).
Definition addInMemory (d : Z) (c : Counters) : Counters :=
  mkCounters (numUnissuedAccesses c) (u32 (numAccessesInMemorySystem c + d)) (numAccessesInDTLB c)
    (numStoresInTransfers c) (numAccessesIssuedToMemory c).
Definition addInDTLB (d : Z) (c : Counters) : Counters :=
  mkCounters (numUnissuedAccesses c) (numAccessesInMemorySystem c) (u32 (numAccessesInDTLB c + d))
    (numStoresInTransfers c) (numAccessesIssuedToMemory c).
Definition addStores (d : Z) (c : Counters) : Counters :=
  mkCounters (numUnissuedAccesses c) (numAccessesInMemorySystem c) (numAccessesInDTLB c)
    (u32 (numStoresInTransfers c + d)) (numAccessesIssuedToMemory c).
Definition addIssued (d : Z) (c : Counters) : Counters :=
  mkCounters (numUnissuedAccesses c) (numAccessesInMemorySystem c) (numAccessesInDTLB c)
    (numStoresInTransfers c) (u32 (numAccessesIssuedToMemory c + d)).

(** [cpu.wakeupOnEvent(Pipeline::ExecuteStageId)] *)
Definition wakeExecute : LM unit := smod (upd_awake true).

(** [*p], [new LSQRequest(...)], [delete p] and updates through [p] *)
Definition deref (p : Ptr) : LM (LSQRequest I) := λ s,
  match heap s !! p with Some r => Ok (r, s) | None => Stop NullDeref end.
Definition alloc (r : LSQRequest I) : LM Ptr := λ s,
  Ok (nextPtr s,
      mkLSQ (cfg s) (<[nextPtr s := r]> (heap s)) (nextPtr s + 1) (lastMemBarrier s) (mstate s)
        (requests s) (transfers s) (slots s) (counters s) (retryRequest s) (cvu s) (numSends s) (lsqAwake s)).
Definition free (p : Ptr) : LM unit := smod (upd_heap (delete p)).
Definition update (p : Ptr) (f : LSQRequest I → res (LSQRequest I)) : LM unit :=
  let! r := deref p in
  let! r := slift (f r) in
  smod (upd_heap <[p := r]>).
Definition set (p : Ptr) (f : LSQRequest I → LSQRequest I) : LM unit := update p (λ r, Ok (f r)).

(** [LSQ(...)] *)
Definition newLSQ (in_memory_system_limit line_width cacheLineSize requests_queue_size
    transfers_queue_size store_buffer_size store_buffer_cycle_store_limit cvu_table_size
    numThreads : Z) : res LSQ :=
  let lineWidth := if line_width =? 0 then cacheLineSize else line_width in
  if (in_memory_system_limit <? 1) || (store_buffer_cycle_store_limit <? 1)
     || (requests_queue_size <? 1) || (transfers_queue_size <? 1) || (store_buffer_size <? 1)
     || negb (Z.land lineWidth (u32 (lineWidth - 1)) =? 0)
  then Stop Fatal
  else Ok (mkLSQ (mkLsqConfig in_memory_system_limit lineWidth store_buffer_size
                    store_buffer_cycle_store_limit)
             ∅ 0 (replicate (Z.to_nat numThreads) 0) MemoryRunning
             (newQueue requests_queue_size) (newQueue transfers_queue_size) []
             (mkCounters 0 0 0 0 0) None (newCVU cvu_table_size) 0 false).

(** ** Barriers *)

(** [clearMemBarrier(inst)] *)
Definition clearMemBarrier (inst : DynInst) : LM unit :=
  let! s := sget in
  let! last := slift (vget (lastMemBarrier s) (threadId (id inst))) in
  if last <=? execSeqNum (id inst) then
    let! l := slift (vset (lastMemBarrier s) (threadId (id inst)) 0) in
    smod (upd_barrier l)
  else sret tt.

(** [issuedMemBarrierInst(inst)] *)
Definition issuedMemBarrierInst (inst : DynInst) : LM unit :=
  do! sassert (isInst inst && isFullMemBarrier (staticInst inst)) in
  let! s := sget in
  let! last := slift (vget (lastMemBarrier s) (threadId (id inst))) in
  do! sassert (last <? execSeqNum (id inst)) in
  let! l := slift (vset (lastMemBarrier s) (threadId (id inst)) (execSeqNum (id inst))) in
  smod (upd_barrier l).

(** [getLastMemBarrier(thread_id)] *)
Definition getLastMemBarrier (s : LSQ) (thread_id : Z) : res Z := vget (lastMemBarrier s) thread_id.

(** ** Store buffer *)

(** [canInsert()] *)
Definition canInsert (s : LSQ) : bool := Z.of_nat (length (slots s)) <? numSlots (cfg s).

(** [deleteRequest(request)] *)
Definition deleteRequest (p : Ptr) : LM unit :=
  let! s := sget in
  if existsb (Z.eqb p) (slots s) then
    do! smod (upd_slots (eraseFirst p (slots s))) in free p
  else sret tt.

(** [insert(request)]; the warning about a full buffer has no effect *)
Definition insert (p : Ptr) : LM unit :=
  do! wakeExecute in
  do! smod (upd_counters (addUnissued 1)) in
  let! r := deref p in
  do! (if isComplete r then sret tt else set p (setState StoreInStoreBuffer)) in
  let! s := sget in
  smod (upd_slots (slots s ++ [p])).

(** one slot of [canForwardDataToLoad] *)
Definition slotCoverage (slot load : LSQRequest I) : res AddrRangeCoverage :=
  match rq_packet slot with
  | Some _ =>
      if (threadId (id (rq_inst slot)) =? threadId (id (rq_inst load)))
         && negb (cacheMaintenance (q_flags (rq_request slot)))
      then containsAddrRangeOf (rq_request slot) (rq_request load)
      else Ok NoAddrRangeCoverage
  | None => Ok NoAddrRangeCoverage
  end.

(** the search, from the youngest slot to the oldest; [i] is [slot_index] *)
Fixpoint forwardSearch (load : LSQRequest I) (l : list Ptr) (i : Z) : LM (AddrRangeCoverage * Z) :=
  match l with
  | [] => sret (NoAddrRangeCoverage, 0)
  | p :: l =>
      let! slot := deref p in
      let! coverage := slift (slotCoverage slot load) in
      if decide (coverage = NoAddrRangeCoverage) then forwardSearch load l (i - 1)
      else sret (coverage, i)
  end.

(** [canForwardDataToLoad(request, found_slot)]; the second component is
    [found_slot], 0 when there is none (as its callers initialise it) *)
Definition canForwardDataToLoad (load : LSQRequest I) : LM (AddrRangeCoverage * Z) :=
  let! s := sget in
  forwardSearch load (rev (slots s)) (Z.of_nat (length (slots s)) - 1).

(** the copy of [forwardStoreData], from the store's packet to the load's *)
Definition forwardBytes (store load : LSQRequest I) : res (LSQRequest I) :=
  match rq_packet load with
  | None => Stop AssertFail
  | Some lp =>
      check (rq_isLoad load);
      match rq_packet store with
      | None => Stop AssertFail
      | Some sp =>
          coverage ← containsAddrRangeOf (rq_request store) (rq_request load);
          check (bool_decide (coverage = FullAddrRangeCoverage));
          load_addr ← getPaddr (rq_request load);
          store_addr ← getPaddr (rq_request store);
          dst ← bytesOf lp;
          src ← bytesOf sp;
          b ← readBytes src (u64 (load_addr - store_addr)) (q_size (rq_request load));
          d ← memcpy dst 0 b (q_size (rq_request load));
          Ok (setPacket (Some (setPacketData d lp)) load)
      end
  end.

(** [forwardStoreData(load, slot_number)] *)
Definition forwardStoreData (load : Ptr) (slot_number : Z) : LM unit :=
  let! s := sget in
  do! sassert (slot_number <? Z.of_nat (length (slots s))) in
  let! sp := slift (vget (slots s) slot_number) in
  let! store := deref sp in
  update load (forwardBytes store).

(** [countIssuedStore(request)] *)
Definition countIssuedStore (p : Ptr) : LM unit :=
  let! r := deref p in
  if isBarrier r then sret tt else smod (upd_counters (addUnissued (-1))).

(** ** Sending *)

(** [canSendToMemorySystem()] *)
Definition canSendToMemorySystem (s : LSQ) : bool :=
  bool_decide (mstate s = MemoryRunning)
  && (numAccessesInMemorySystem (counters s) <? inMemorySystemLimit (cfg s)).

(** [moveFromRequestsToTransfers(request)] *)
Definition moveFromRequestsToTransfers (p : Ptr) : LM unit :=
  let! s := sget in
  do! sassert (negb (Queue_empty (requests s))) in
  let! front := slift (Queue_front (requests s)) in
  do! sassert (front =? p) in
  do! sassert (negb (Queue_unreservedRemainingSpace (transfers s) =? 0)) in
  let! r := deref p in
  do! (if rq_isLoad r then sret tt else smod (upd_counters (addStores 1))) in
  let! q := slift (Queue_pop (requests s)) in
  smod (upd_queues q (Queue_push (transfers s) p)).

(** the local access of the head packet *)
Definition accessLocally (env : LsqEnv) (r : LSQRequest I) : res (LSQRequest I) :=
  match rq_kind r with
  | SingleDataRequest _ _ =>
      match rq_packet r with
      | Some p => Ok (setPacket (Some (localAccessor env p)) r)
      | None => Stop NullDeref
      end
  | SplitDataRequest s =>
      p ← vget (fragmentPackets s) (numIssuedFragments s);
      ps ← vset (fragmentPackets s) (numIssuedFragments s) (localAccessor env p);
      Ok (setKind (SplitDataRequest
        (mkSplit (translationEvent s) (numFragments s) (numInTranslationFragments s)
           (numTranslatedFragments s) (numIssuedFragments s) (numRetiredFragments s)
           (fragmentRequests s) ps)) r)
  | _ => Ok r
  end.

(** the state after a packet was accepted, and after it was refused *)
Definition stateSent (st : LSQRequestState) : res LSQRequestState :=
  match st with
  | Translated | RequestIssuing => Ok RequestIssuing
  | StoreInStoreBuffer | StoreBufferIssuing => Ok StoreBufferIssuing
  | _ => Stop Panic
  end.
Definition stateRefused (st : LSQRequestState) : res LSQRequestState :=
  match st with
  | Translated | RequestIssuing => Ok RequestNeedsRetry
  | StoreInStoreBuffer | StoreBufferIssuing => Ok StoreBufferNeedsRetry
  | _ => Stop Panic
  end.

(** [tryToSend(request)] *)
Definition tryToSend (env : LsqEnv) (p : Ptr) : LM bool :=
  let! s := sget in
  if negb (canSendToMemorySystem s) then sret false
  else
    let! r := deref p in
    do! slift (getHeadPacket r) in
    if q_localAccess (rq_request r) then
      do! update p (accessLocally env) in
      do! update p stepToNextPacket in
      let! r := deref p in
      let ret := sentAllPackets r in
      do! set p (setState (if ret then Complete else RequestIssuing)) in
      sret ret
    else
      let ok := accept env (numSends s) in
      do! smod upd_sends in
      if ok then
        do! smod (upd_counters (addInMemory 1)) in
        do! update p stepToNextPacket in
        let! r := deref p in
        let ret := sentAllPackets r in
        do! update p (λ r, st ← stateSent (rq_state r); Ok (setState st r)) in
        do! smod (upd_mstate MemoryRunning) in
        sret ret
      else
        do! smod (upd_mstate MemoryNeedsRetry) in
        do! smod (upd_retry (Some p)) in
        do! update p (λ r, st ← stateRefused (rq_state r); Ok (setState st r)) in
        sret false.

(** a request that is done without an access *)
Definition skipTransfer (p : Ptr) : LM unit :=
  do! set p (setState Complete) in
  do! set p setSkipped in
  moveFromRequestsToTransfers p.

(** the last part of [tryToSendToTransfers] *)
Definition issueTransfer (env : LsqEnv) (p : Ptr) (bufferable do_access : bool) : LM unit :=
  if do_access then
    let! s := sget in
    if negb (canSendToMemorySystem s) then sret tt
    else
      let! r := deref p in
      do! (if negb bufferable && negb (rq_issuedToMemory r) then
             do! smod (upd_counters (addIssued 1)) in set p setIssued
           else sret tt) in
      let! ret := tryToSend env p in
      if ret then moveFromRequestsToTransfers p else sret tt
  else
    do! set p (setState Complete) in
    moveFromRequestsToTransfers p.

(** the choice between forwarding, waiting and accessing memory *)
Definition accessOrForward (env : LsqEnv) (p : Ptr) (r : LSQRequest I) (bufferable : bool) : LM unit :=
  if negb (llsc (q_flags (rq_request r))) then
    if rq_isLoad r then
      let! fwd := canForwardDataToLoad r in
      match fwd.1 with
      | FullAddrRangeCoverage =>
          do! forwardStoreData p fwd.2 in
          do! update p (λ r, match rq_packet r with
                             | Some k => k ← makeResponse k; Ok (setPacket (Some k) r)
                             | None => Stop NullDeref
                             end) in
          issueTransfer env p bufferable false
      | PartialAddrRangeCoverage => sret tt
      | NoAddrRangeCoverage => issueTransfer env p bufferable true
      end
    else issueTransfer env p bufferable true
  else
    let! s := sget in
    if negb (canSendToMemorySystem s) then sret tt
    else issueTransfer env p bufferable (if rq_isLoad r then true else lockedWrite env).

(** an access that may wait in the store buffer *)
Definition isBufferable (f : Flags) : bool :=
  negb (strictlyOrdered f || llsc f || swap f || atomicOp f || release f).

(** the tests on a translated request at the head of [requests] *)
Definition sendTranslated (env : LsqEnv) (p : Ptr) (r : LSQRequest I) : LM unit :=
  let f := q_flags (rq_request r) in
  let bufferable := isBufferable f in
  let! s := sget in
  if rq_isLoad r && negb (numStoresInTransfers (counters s) =? 0) then sret tt
  else if negb (rq_isLoad r) && bufferable && negb (q_localAccess (rq_request r)) then
    do! set p (setState StoreToStoreBuffer) in
    moveFromRequestsToTransfers p
  else if ((negb (rq_isLoad r) && llsc f) || release f)
          && negb (match slots s with [] => true | _ => false end) then sret tt
  else if negb bufferable then
    if negb (instIsHeadInst env (rq_inst r)) then sret tt
    else
      let! fwd := canForwardDataToLoad r in
      if decide (fwd.1 = NoAddrRangeCoverage) then accessOrForward env p r bufferable
      else sret tt
  else accessOrForward env p r bufferable.

(** the states in which a request may be moved on *)
Definition movable (st : LSQRequestState) : bool :=
  match st with Translated | RequestIssuing | Failed | Complete => true | _ => false end.

(** [tryToSendToTransfers(request)] *)
Definition tryToSendToTransfers (env : LsqEnv) (p : Ptr) : LM unit :=
  let! s := sget in
  if bool_decide (mstate s = MemoryNeedsRetry) then sret tt
  else
    let! r := deref p in
    if bool_decide (rq_state r = InTranslation) then sret tt
    else
      do! sassert (movable (rq_state r)) in
      if negb (bool_decide (head (queue (requests s)) = Some p)) then sret tt
      else if Queue_unreservedRemainingSpace (transfers s) =? 0 then sret tt
      else if isComplete r || bool_decide (rq_state r = Failed) then skipTransfer p
      else if negb (instIsRightStream env (rq_inst r)) then
        if hasPacketsInMemSystem r then sret tt else skipTransfer p
      else if faultSet (translationFault (ex (rq_inst r))) then skipTransfer p
      else sendTranslated env p r.

(** the first loop of [StoreBuffer::step]: clear the leading barriers; [n]
    bounds the rounds by the number of slots *)
Fixpoint clearBarriers (n : nat) : LM unit :=
  match n with
  | O => sret tt
  | S n =>
      let! s := sget in
      match slots s with
      | [] => sret tt
      | p :: l =>
          let! barrier := deref p in
          if isComplete barrier && isBarrier barrier then
            do! smod (upd_counters (addUnissued (-1))) in
            do! clearMemBarrier (rq_inst barrier) in
            do! smod (upd_slots l) in
            do! free p in
            clearBarriers n
          else sret tt
      end
  end.

(** the second loop: issue stores in order *)
Fixpoint issueStores (env : LsqEnv) (l : list Ptr) (issue_count : Z) : LM unit :=
  match l with
  | [] => sret tt
  | p :: l =>
      let! s := sget in
      if negb ((issue_count <? storeLimitPerCycle (cfg s)) && canSendToMemorySystem s) then sret tt
      else
        let! r := deref p in
        if isBarrier r && isComplete r then sret tt
        else if negb (bool_decide (rq_state r = StoreBufferIssuing) && sentAllPackets r) then
          let! ret := tryToSend env p in
          if ret then
            do! countIssuedStore p in
            issueStores env l (u32 (issue_count + 1))
          else sret tt
        else issueStores env l issue_count
  end.

(** [StoreBuffer::step()] *)
Definition StoreBuffer_step (env : LsqEnv) : LM unit :=
  let! s := sget in
  if negb (numUnissuedAccesses (counters s) =? 0) && bool_decide (mstate s = MemoryRunning) then
    do! clearBarriers (length (slots s)) in
    let! s := sget in
    if bool_decide (mstate s = MemoryNeedsRetry) then sret tt
    else issueStores env (slots s) 0
  else sret tt.

(** [step()] *)
Definition LSQ_step (env : LsqEnv) : LM unit :=
  let! s := sget in
  do! (match queue (requests s) with
       | p :: _ => tryToSendToTransfers env p
       | [] => sret tt
       end) in
  StoreBuffer_step env.

(** ** Callbacks of the memory system *)

(** [recvTimingResp(response)], where [p] is the response's sender state *)
Definition recvTimingResp (p : Ptr) (response : Packet) : LM unit :=
  do! wakeExecute in
  do! smod (upd_counters (addInMemory (-1))) in
  let! r := deref p in
  match rq_state r with
  | RequestIssuing | RequestNeedsRetry => update p (λ r, retireResponse r response)
  | StoreBufferIssuing | StoreBufferNeedsRetry =>
      do! update p (λ r, retireResponse r response) in
      let! r := deref p in
      if isComplete r && negb (isBarrier r) then deleteRequest p else sret tt
  | _ => slift (Stop Panic)
  end.

(** [recvReqRetry()] *)
Definition recvReqRetry (env : LsqEnv) : LM unit :=
  let! s := sget in
  do! sassert (bool_decide (mstate s = MemoryNeedsRetry)) in
  match retryRequest s with
  | None => slift (Stop NullDeref)
  | Some p =>
      do! update p (λ r,
        match rq_state r with
        | RequestNeedsRetry => Ok (setState Translated r)
        | StoreBufferNeedsRetry => Ok (setState StoreInStoreBuffer r)
        | _ => Stop Panic
        end) in
      do! smod (upd_mstate MemoryRunning) in
      let! ret := tryToSend env p in
      if ret then
        let! r := deref p in
        do! (match rq_state r with
             | RequestIssuing => moveFromRequestsToTransfers p
             | StoreBufferIssuing => countIssuedStore p
             | _ => slift (Stop Panic)
             end) in
        smod (upd_retry None)
      else sret tt
  end.

(** ** Committing *)

(** [findResponse(inst)] *)
Definition findResponse (inst : DynInst) : LM (option Ptr) :=
  let! s := sget in
  match queue (transfers s) with
  | [] => sret None
  | p :: _ =>
      let! r := deref p in
      let! same := slift (InstId_eq (id (rq_inst r)) (id inst)) in
      let can_store := canInsert s in
      sret (if same && ((isComplete r && negb (isBarrier r && negb can_store))
                        || (needsToBeSentToStoreBuffer r && can_store))
            then Some p else None)
  end.

(** [popResponse(response)] *)
Definition popResponse (p : Ptr) : LM unit :=
  let! s := sget in
  do! sassert (bool_decide (head (queue (transfers s)) = Some p)) in
  let! q := slift (Queue_pop (transfers s)) in
  do! smod (upd_queues (requests s) q) in
  let! r := deref p in
  do! (if rq_isLoad r then sret tt else smod (upd_counters (addStores (-1)))) in
  do! (if rq_issuedToMemory r then smod (upd_counters (addIssued (-1))) else sret tt) in
  if bool_decide (rq_state r = StoreInStoreBuffer) then sret tt else free p.

(** [sendStoreToStoreBuffer(request)] *)
Definition sendStoreToStoreBuffer (p : Ptr) : LM unit :=
  let! r := deref p in
  do! sassert (bool_decide (rq_state r = StoreToStoreBuffer)) in
  do! set p (λ r, setInst (setInStoreBuffer true (rq_inst r)) r) in
  insert p.

(** [completeMemBarrierInst(inst, committed)] *)
Definition completeMemBarrierInst (inst : DynInst) (committed : bool) : LM unit :=
  if committed then
    if inStoreBuffer (ex inst) then sret tt
    else let! p := alloc (newBarrier inst) in insert p
  else clearMemBarrier inst.

(** [isDrained()] *)
Definition LSQ_isDrained (s : LSQ) : bool :=
  Queue_empty (requests s) && Queue_empty (transfers s)
  && match slots s with [] => true | _ => false end.

(** [needsToTick()] *)
Definition needsToTick (s : LSQ) : res bool :=
  if canSendToMemorySystem s then
    have ← (match queue (requests s) with
            | [] => Ok false
            | p :: _ =>
                match heap s !! p with
                | None => Stop NullDeref
                | Some r => Ok (negb (bool_decide (rq_state r = InTranslation))
                               && negb (Queue_unreservedRemainingSpace (transfers s) =? 0))
                end
            end);
    Ok (have || negb (numUnissuedAccesses (counters s) =? 0))
  else Ok false.

(** ** Translation *)

(** the effect of a successful translation on a request *)
Definition translated (t : TlbReply) (q : Request) : Request :=
  let q := setFlags (t_flags t) (setPaddr (t_paddr t) q) in
  mkRequest (q_vaddr q) (q_size q) (q_paddr q) (q_flags q) (q_byteEnable q)
    (q_localAccess q || t_local t) (q_useCvuValue q).

(** [tryToSuppressFault()]: [suppressed] is whether the instruction's
    [initiateAcc] reports no fault any more *)
Definition tryToSuppressFault (suppressed : bool) (r : LSQRequest I) : LSQRequest I :=
  if suppressed then setInst (setTranslationFault None (rq_inst r)) r else r.

(** [SingleDataRequest::finish(...)] up to the call of [tryToSendToTransfers] *)
Definition finishSingle (t : TlbReply) (suppressed : bool) (r : LSQRequest I)
  : res (LSQRequest I) :=
  if faultSet (t_fault t) then
    let r := setInst (setTranslationFault (t_fault t) (rq_inst r)) r in
    let r :=
      if rq_isTranslationDelayed r then
        let r := tryToSuppressFault suppressed r in
        if faultSet (translationFault (ex (rq_inst r))) then r else setState Complete r
      else r in
    Ok (setState Translated r)
  else makePacket (setState Translated (setRequest (translated t (rq_request r)) r)).

(** the members of a split request after a translation came back *)
Definition splitReplied (s : SplitFields) (frags : list Request) (event : bool)
    (translatedFragments : Z) : SplitFields :=
  mkSplit event (numFragments s) (u32 (numInTranslationFragments s - 1)) translatedFragments
    (numIssuedFragments s) (numRetiredFragments s) frags (fragmentPackets s).

(** [SplitDataRequest::finish(...)] for fragment [idx], up to the call of
    [tryToSendToTransfers]; the boolean tells whether that call is made *)
Definition finishSplit (t : TlbReply) (suppressed : bool) (idx : Z) (s : SplitFields)
    (r : LSQRequest I) : res (LSQRequest I * bool) :=
  let expected_fragment_index := numTranslatedFragments s in
  let done := u32 (numTranslatedFragments s + 1) in
  frags ← (if faultSet (t_fault t) then Ok (fragmentRequests s)
           else q ← vget (fragmentRequests s) idx; vset (fragmentRequests s) idx (translated t q));
  check (idx =? expected_fragment_index);
  let setSplit ev n := setKind (SplitDataRequest (splitReplied s frags ev n)) in
  if faultSet (t_fault t) then
    let r := setInst (setTranslationFault (t_fault t) (rq_inst r)) r in
    let r := if (0 <? expected_fragment_index) || rq_isTranslationDelayed r
             then tryToSuppressFault suppressed r else r in
    let nofault := negb (faultSet (translationFault (ex (rq_inst r)))) in
    if expected_fragment_index =? 0 then
      Ok (setSplit (translationEvent s) done
            (setState (if rq_isTranslationDelayed r && nofault then Complete else Translated) r), true)
    else if nofault then
      r ← makeFragmentPackets (setSplit (translationEvent s) (u32 (done - 1)) (setState Translated r));
      Ok (r, true)
    else Ok (setSplit (translationEvent s) done (setState Translated r), true)
  else if done =? numFragments s then
    r ← makeFragmentPackets (setSplit (translationEvent s) done r);
    Ok (setState Translated r, true)
  else
    check (negb (translationEvent s));
    Ok (setSplit true done r, false).

(** [finish(fault, request, tc, mode)], for the fragment [idx] of a split request *)
Definition finish (env : LsqEnv) (p : Ptr) (idx : Z) (t : TlbReply) (suppressed : bool) : LM unit :=
  let! r := deref p in
  match rq_kind r with
  | SingleDataRequest _ _ =>
      do! wakeExecute in
      do! smod (upd_counters (addInDTLB (-1))) in
      do! update p (finishSingle t suppressed) in
      tryToSendToTransfers env p
  | SplitDataRequest s =>
      do! wakeExecute in
      do! smod (upd_counters (addInDTLB (-1))) in
      let! x := slift (finishSplit t suppressed idx s r) in
      do! set p (λ _, x.1) in
      if x.2 then tryToSendToTransfers env p else sret tt
  | _ => sret tt
  end.

(** [sendNextFragmentToTranslation()], the call of the TLB aside; the index
    of the fragment that is sent *)
Definition sendNextFragmentToTranslation (p : Ptr) : LM Z :=
  let! r := deref p in
  match rq_kind r with
  | SplitDataRequest s =>
      do! smod (upd_counters (addInDTLB 1)) in
      do! slift (vget (fragmentRequests s) (numTranslatedFragments s)) in
      do! set p (setKind (SplitDataRequest
        (mkSplit false (numFragments s) (u32 (numInTranslationFragments s + 1))
           (numTranslatedFragments s) (numIssuedFragments s) (numRetiredFragments s)
           (fragmentRequests s) (fragmentPackets s)))) in
      sret (numTranslatedFragments s)
  | _ => sret 0
  end.

(** [startAddrTranslation()]; whether a translation was submitted *)
Definition startAddrTranslation (p : Ptr) : LM bool :=
  let! r := deref p in
  match rq_kind r with
  | SingleDataRequest _ _ =>
      if isAnyActiveElement (q_byteEnable (rq_request r)) then
        do! smod (upd_counters (addInDTLB 1)) in
        do! set p (setState InTranslation) in
        sret true
      else
        do! set p (setState Complete) in
        sret false
  | SplitDataRequest s =>
      let! st := sget in
      let! fr := slift (makeFragmentRequests (lineWidth (cfg st)) (rq_request r)) in
      do! set p (setKind (SplitDataRequest
        (mkSplit (translationEvent s) fr.1 0 0 (numIssuedFragments s)
           (numRetiredFragments s) (fragmentRequests s ++ fr.2) (fragmentPackets s)))) in
      if 0 <? fr.1 then
        do! set p (setState InTranslation) in
        do! sendNextFragmentToTranslation p in
        sret true
      else
        do! set p (setState Complete) in
        sret false
  | _ => sret false
  end.

(** ** New requests *)

(** [canRequest()] *)
Definition canRequest (s : LSQ) : bool := negb (Queue_unreservedRemainingSpace (requests s) =? 0).

(** [accessesInFlight()] *)
Definition accessesInFlight (s : LSQ) : bool := negb (numAccessesIssuedToMemory (counters s) =? 0).

(** the data that [pushRequest] gives to the request *)
Definition requestData (isLoad fromCVU : bool) (inst : DynInst) (flags : Flags) (data : Bytes)
    (size : Z) : res (option Bytes) :=
  if isLoad then
    if fromCVU then b ← readBytes (ulongBytes (outDataValue (lvptOut inst))) 0 size; Ok (Some b)
    else Ok None
  else if isAtomic (staticInst inst) || storeNoData flags then
    Ok (Some (replicate (Z.to_nat size) (Some 0)))
  else b ← readBytes data 0 size; Ok (Some b).

(** [pushRequest(...)]: the new request, or [None] when the instruction is in
    the queue already; [reply] is the TLB's answer when it comes at once *)
Definition pushRequest (env : LsqEnv) (inst : DynInst) (isLoad : bool) (data : Bytes)
    (size addr : Z) (flags : Flags) (byte_enable : list bool) (reply : option TlbReply)
  : LM (Fault * option Ptr) :=
  do! sassert (negb (faultSet (translationFault (ex inst))) || inLSQ (ex inst)) in
  if inLSQ (ex inst) then sret (translationFault (ex inst), None)
  else
    let! s := sget in
    let needs_burst := transferNeedsBurst addr size (lineWidth (cfg s)) in
    let l := lvptOut inst in
    let! hit := slift (verifyEntryInCVU (cvu s) addr (outDataIndex l) (outDataValue l) (outDataConstant l)) in
    let entry_in_CVU := match hit with Some _ => true | None => false end in
    if needs_burst && isAtomic (staticInst inst) then slift (Stop Panic)
    else
      let use_CVU := isLoad && outDataConstant l && entry_in_CVU in
      let! request_data := slift (requestData isLoad use_CVU inst flags data size) in
      let inst := setInLSQ true inst in
      let r := if needs_burst then newSplit inst isLoad request_data
               else newSingle inst isLoad request_data in
      do! sassert (Z.of_nat (length byte_enable) =? size) in
      let r := setRequest
        (mkRequest addr size None flags byte_enable (noAccess flags) use_CVU) r in
      let! p := alloc r in
      let! s := sget in
      do! smod (upd_queues (Queue_push (requests s) p) (transfers s)) in
      let! submitted := startAddrTranslation p in
      do! (match reply with
           | Some t => if submitted then finish env p 0 t false else sret tt
           | None => sret tt
           end) in
      let! s := sget in
      sret (match heap s !! p with
            | Some r => translationFault (ex (rq_inst r))
            | None => None
            end, Some p).

(** [pushFailedRequest(inst)] *)
Definition pushFailedRequest (inst : DynInst) : LM Ptr :=
  let! p := alloc (newFailed inst) in
  let! s := sget in
  do! smod (upd_queues (Queue_push (requests s) p) (transfers s)) in
  sret p.
End lsq.
Arguments LSQ : clear implicits.
