(* ===== verification/LsqForward.v ===== *)
(** * Store-to-load forwarding

    What [StoreBuffer::canForwardDataToLoad] and [forwardStoreData]
    (src/cpu/myminor/lsq.cc) promise: a load sees memory as it will be when
    the buffered stores of its thread have been written. *)
From stdpp Require Import gmap.
From S2P Require Import Prelude Buffers LVPT CVU PipeData LsqAddr LsqRequest Lsq.

Section forward.
Context `{I : Isa}.
Implicit Types (r load : LSQRequest I) (s : LSQ I).

(** A store that a load of thread [tid] may take data from. *)
Definition forwardable (tid : Z) r : bool :=
  match rq_packet r with
  | Some _ => (threadId (id (rq_inst r)) =? tid) && negb (cacheMaintenance (q_flags (rq_request r)))
  | None => false
  end.

(** The byte that a packet with request [q] writes at physical address [x]. *)
Definition packetByte (q : Request) (p : Packet) (x : Z) : option Z :=
  match q_paddr q with
  | Some a =>
      if (a <=? x) && (x <? a + q_size q) then
        match q_byteEnable q !! Z.to_nat (x - a), pk_data p with
        | Some true, Some d => mjoin (d !! Z.to_nat (x - a))
        | _, _ => None
        end
      else None
  | None => None
  end.

(** The byte that the whole request stands for at physical address [x], if its
    bytes lie side by side. *)
Definition wholeByte r (x : Z) : option Z :=
  match rq_packet r with Some p => packetByte (rq_request r) p x | None => None end.

(** The byte that the packets sent for a list of packets leave at [x]. *)
Definition packetsByte (ps : list Packet) (x : Z) : option Z :=
  foldl (λ v p, match packetByte (pk_req p) p x with Some b => Some b | None => v end) None ps.

(** The byte that the store writes at physical address [x]: an unsplit store
    sends its packet, a split store the packets of its fragments, each at the
    physical address of its fragment. *)
Definition storeByte r (x : Z) : option Z :=
  match rq_kind r with
  | SplitDataRequest f => packetsByte (fragmentPackets f) x
  | _ => wholeByte r x
  end.

(** Memory after the stores [l], oldest first, have been written. *)
Definition memAfter (mem : Z → Z) (l : list (LSQRequest I)) (x : Z) : Z :=
  foldl (λ v r, default v (storeByte r x)) (mem x) l.
Definition wholeAfter (mem : Z → Z) (l : list (LSQRequest I)) (x : Z) : Z :=
  foldl (λ v r, default v (wholeByte r x)) (mem x) l.

(** The physical address of byte [j] of an access: in the fragment of a split
    access that has it, if there is one. *)
Definition byteAddr r (j : Z) : option Z :=
  let v := q_vaddr (rq_request r) + j in
  match rq_kind r with
  | SplitDataRequest f =>
      match List.find (λ q, (q_vaddr q <=? v) && (v <? q_vaddr q + q_size q)) (fragmentRequests f) with
      | Some q => (λ a, a + (v - q_vaddr q)) <$> q_paddr q
      | None => None
      end
  | _ => (λ a, a + j) <$> q_paddr (rq_request r)
  end.

(** Byte [k] of a packet's data. *)
Definition dataAt (p : option Packet) (k : nat) : option Z :=
  match p with
  | Some p => match pk_data p with Some d => mjoin (d !! k) | None => None end
  | None => None
  end.

(** A fragment of a split store: its bytes are those of the store at its place,
    and it lies at that place behind the store's physical address [a]. *)
Record piece_ok r (a : Z) (p : Packet) : Prop := {
  pc_inside : let off := q_vaddr (pk_req p) - q_vaddr (rq_request r) in
              0 ≤ off ∧ 0 ≤ q_size (pk_req p) ∧ off + q_size (pk_req p) ≤ q_size (rq_request r);
  pc_paddr : q_paddr (pk_req p) = Some (a + (q_vaddr (pk_req p) - q_vaddr (rq_request r)));
  pc_bytes : ∀ j, 0 ≤ j < q_size (pk_req p) →
               let k := Z.to_nat (q_vaddr (pk_req p) - q_vaddr (rq_request r) + j) in
               q_byteEnable (pk_req p) !! Z.to_nat j = q_byteEnable (rq_request r) !! k
               ∧ dataAt (Some p) (Z.to_nat j) = dataAt (rq_packet r) k;
}.

(** An access whose fragments lie side by side in physical memory, from [a] on:
    every access that is not split, and a split one whose pages do. *)
Definition straightStore r (a : Z) : Prop :=
  match rq_kind r with
  | SplitDataRequest f =>
      Forall (piece_ok r a) (fragmentPackets f)
      ∧ ∀ j, 0 ≤ j → q_byteEnable (rq_request r) !! Z.to_nat j = Some true →
          Exists (λ p, inRange (q_vaddr (pk_req p)) (q_size (pk_req p)) (q_vaddr (rq_request r) + j)) (fragmentPackets f)
  | _ => True
  end.
Definition straightLoad r (a : Z) : Prop :=
  ∀ j x, 0 ≤ j < q_size (rq_request r) → byteAddr r j = Some x → x = a + j.

(** A request with a physical range inside the address space. *)
Record ranged r (a : Z) : Prop := {
  rg_paddr : q_paddr (rq_request r) = Some a;
  rg_low : 0 ≤ a;
  rg_size : 0 < q_size (rq_request r);
  rg_high : a + q_size (rq_request r) < 2 ^ 64;
}.

(** What holds of a store in the buffer. *)
Record slot_ok r : Prop := {
  sl_range : ∃ a, ranged r a;
  sl_enable : Z.of_nat (length (q_byteEnable (rq_request r))) = q_size (rq_request r);
  sl_data : ∀ p, rq_packet r = Some p → cacheMaintenance (q_flags (rq_request r)) = false →
              ∃ d : list Z, pk_data p = Some (Some <$> d) ∧ Z.of_nat (length d) = q_size (rq_request r);
}.

(** What holds of a load that asks. *)
Record load_ok load (a : Z) (dst : Bytes) (p : Packet) : Prop := {
  ld_range : ranged load a;
  ld_load : rq_isLoad load = true;
  ld_packet : rq_packet load = Some p;
  ld_data : pk_data p = Some dst;
  ld_len : Z.of_nat (length dst) = q_size (rq_request load);
}.

Lemma unmasked_enabled (q : Request) i : isMasked q = false → (i < length (q_byteEnable q))%nat →
  q_byteEnable q !! i = Some true.
Proof.
  intros Hm Hi. destruct (lookup_lt_is_Some_2 _ _ Hi) as [b Hb]. rewrite Hb. f_equal.
  destruct b; [done|]. exfalso. revert Hm. unfold isMasked.
  rewrite (proj2 (existsb_exists _ _)); [done|]. exists false. split; [|done].
  by apply list_elem_of_In, (list_elem_of_lookup_2 _ i).
Qed.

(** *** Fragments side by side *)

Lemma packetByte_dataAt q p a x : q_paddr q = Some a → inRange a (q_size q) x →
  packetByte q p x = match q_byteEnable q !! Z.to_nat (x - a) with
                     | Some true => dataAt (Some p) (Z.to_nat (x - a))
                     | _ => None
                     end.
Proof.
  intros Ha Hx. unfold packetByte, inRange in *. rewrite Ha.
  destruct (Z.leb_spec a x), (Z.ltb_spec x (a + q_size q)); try lia. cbn [andb dataAt].
  destruct (q_byteEnable q !! _) as [[]|]; by destruct (pk_data p).
Qed.
Lemma packetByte_out q p a x : q_paddr q = Some a → ¬ inRange a (q_size q) x → packetByte q p x = None.
Proof.
  intros Ha Hx. unfold packetByte, inRange in *. rewrite Ha.
  destruct (Z.leb_spec a x), (Z.ltb_spec x (a + q_size q)); try done. lia.
Qed.

(** The fragment's byte is the whole store's. *)
Lemma piece_byte r a p x : piece_ok r a p → q_paddr (rq_request r) = Some a → is_Some (rq_packet r) →
  packetByte (pk_req p) p x
  = if decide (inRange (a + (q_vaddr (pk_req p) - q_vaddr (rq_request r))) (q_size (pk_req p)) x) then wholeByte r x else None.
Proof.
  intros [Hin Hpa Hb] Ha [w Hw]. cbn zeta in *. set (off := q_vaddr (pk_req p) - q_vaddr (rq_request r)) in *.
  case_decide as Hx; [|by apply (packetByte_out _ _ (a + off))]. unfold wholeByte. rewrite Hw.
  rewrite (packetByte_dataAt _ _ (a + off)) by done.
  rewrite (packetByte_dataAt (rq_request r) w a) by (done || (unfold inRange in *; lia)).
  unfold inRange in Hx. destruct (Hb (x - (a + off))) as [-> Hd]; [lia|]. rewrite Hw in Hd. rewrite Hd.
  by replace (off + (x - (a + off))) with (x - a) by lia.
Qed.

Lemma packetsByte_snoc ps p x :
  packetsByte (ps ++ [p]) x = match packetByte (pk_req p) p x with Some b => Some b | None => packetsByte ps x end.
Proof. unfold packetsByte. by rewrite foldl_app. Qed.

Lemma straight_storeByte r a x : straightStore r a → q_paddr (rq_request r) = Some a → is_Some (rq_packet r) →
  storeByte r x = wholeByte r x.
Proof.
  intros Hs Ha Hp. unfold storeByte, straightStore in *. destruct (rq_kind r) as [|f| |]; try done.
  destruct Hs as [Hps Hcov].
  assert (∀ ps, Forall (piece_ok r a) ps → packetsByte ps x = wholeByte r x
    ∨ packetsByte ps x = None ∧ Forall (λ p, ¬ inRange (q_vaddr (pk_req p)) (q_size (pk_req p)) (q_vaddr (rq_request r) + (x - a))) ps) as Hall.
  { induction ps as [|p ps IH] using rev_ind; intros H; [by right|]. rewrite packetsByte_snoc.
    apply Forall_app in H as [H [Hp1 _]%Forall_cons_1]. rewrite (piece_byte r a p x) by done.
    case_decide as Hx; [left; destruct (wholeByte r x) eqn:Hw; [done|]|].
    - destruct (IH H) as [?|[? _]]; congruence.
    - destruct (IH H) as [->|[-> Hn]]; [by left|right]. split; [done|]. apply Forall_app. split; [done|].
      apply Forall_singleton. unfold inRange in *. lia. }
  destruct (Hall _ Hps) as [?|[-> Hn]]; [done|]. symmetry. unfold wholeByte. destruct (rq_packet r) as [w|]; [|done].
  destruct (decide (inRange a (q_size (rq_request r)) x)) as [Hx|Hx]; [|by apply (packetByte_out _ _ a)].
  rewrite (packetByte_dataAt _ _ a) by done. destruct (q_byteEnable _ !! _) as [[]|] eqn:He; try done.
  exfalso. unfold inRange in Hx. specialize (Hcov (x - a) ltac:(lia) He).
  apply Exists_exists in Hcov as (p & Hin & Hr). rewrite Forall_forall in Hn. by apply (Hn p).
Qed.

(** A slot without coverage does not write the load's bytes. *)
Lemma slotCoverage_None r load a : slot_ok r → ranged load a →
  containsAddrRangeOf (rq_request r) (rq_request load) = Ok NoAddrRangeCoverage →
  ∀ x, inRange a (q_size (rq_request load)) x → wholeByte r x = None.
Proof.
  intros [(b & []) _ _] [] Hc x Hx. unfold containsAddrRangeOf, getPaddr in Hc.
  rewrite rg_paddr0, rg_paddr1 in Hc. cbn [rbind] in Hc.
  pose proof (containsAddrRange_spec b (q_size (rq_request r)) a (q_size (rq_request load))
    rg_low0 rg_size0 rg_high0 rg_low1 rg_size1 rg_high1) as Hs.
  destruct (containsAddrRange _ _ _ _).
  - by rewrite decide_False in Hc.
  - rewrite decide_True in Hc by done. destruct (isMasked _); done.
  - unfold wholeByte. destruct (rq_packet r); [|done]. unfold packetByte. rewrite rg_paddr0.
    specialize (Hs x). unfold inRange in *.
    destruct (Z.leb_spec b x), (Z.ltb_spec x (b + q_size (rq_request r))); cbn [andb]; try done.
    exfalso. apply Hs. lia.
Qed.

(** A slot with full coverage writes all of the load's bytes, and forwarding
    copies them. *)
Lemma slotCoverage_Full r load a dst p : slot_ok r → load_ok load a dst p →
  forwardable (threadId (id (rq_inst load))) r = true →
  containsAddrRangeOf (rq_request r) (rq_request load) = Ok FullAddrRangeCoverage →
  ∃ d, forwardBytes r load = Ok (setPacket (Some (setPacketData d p)) load)
    ∧ Z.of_nat (length d) = q_size (rq_request load)
    ∧ ∀ j, 0 ≤ j < q_size (rq_request load) →
        ∃ v, wholeByte r (a + j) = Some v ∧ d !! Z.to_nat j = Some (Some v).
Proof.
  intros [(b & []) Hen Hdat] [[] Hl Hp Hd Hlen] Hf Hc.
  assert (isMasked (rq_request r) = false ∧ b ≤ a
    ∧ a + q_size (rq_request load) ≤ b + q_size (rq_request r)) as (Hm & H1 & H2).
  { revert Hc. unfold containsAddrRangeOf, getPaddr.
    rewrite rg_paddr0, rg_paddr1. cbn [rbind]. unfold containsAddrRange. rewrite !u64_id by lia.
    destruct (Z.leb_spec (a + q_size (rq_request load)) b),
      (Z.leb_spec (b + q_size (rq_request r)) a); cbn [orb]; try (by rewrite decide_False by done).
    destruct (Z.leb_spec b a), (Z.leb_spec (a + q_size (rq_request load)) (b + q_size (rq_request r)));
      cbn [andb]; try (by rewrite decide_False by done).
    rewrite decide_True by done. destruct (isMasked _); [done|]. lia. }
  unfold forwardable in Hf. destruct (rq_packet r) as [sp|] eqn:Hsp; [|done].
  apply andb_true_iff in Hf as [_ Hcm%negb_true_iff].
  destruct (Hdat sp eq_refl Hcm) as (bytes & Hsd & Hsl).
  unfold forwardBytes. rewrite Hp, Hl, Hsp, Hc. cbn [assert_ rbind].
  rewrite bool_decide_eq_true_2 by done. cbn [assert_ rbind].
  unfold getPaddr. rewrite rg_paddr0, rg_paddr1. cbn [rbind]. unfold bytesOf. rewrite Hd, Hsd.
  cbn [rbind]. rewrite u64_id by lia.
  destruct (readBytes_Ok (Some <$> bytes) (a - b) (q_size (rq_request load)))
    as (rb & -> & Hrl & Hrj); [lia|lia|rewrite length_fmap; lia|]. cbn [rbind].
  destruct (memcpy_Ok dst 0 rb (q_size (rq_request load))) as (d & -> & Hdl & Hdj); [lia..|].
  cbn [rbind]. exists d. split; [done|]. split; [lia|]. intros j Hj.
  destruct (lookup_lt_is_Some_2 bytes (Z.to_nat (a - b + j))) as [v Hv]; [lia|].
  exists v. split.
  - unfold wholeByte. rewrite Hsp. unfold packetByte. rewrite rg_paddr0, Hsd.
    destruct (Z.leb_spec b (a + j)), (Z.ltb_spec (a + j) (b + q_size (rq_request r))); try lia.
    cbn [andb]. rewrite unmasked_enabled by (done || lia).
    rewrite list_lookup_fmap. replace (a + j - b) with (a - b + j) by lia. by rewrite Hv.
  - rewrite Hdj by lia. rewrite decide_True by lia. replace (j - 0) with j by lia.
    rewrite Hrj by lia. rewrite list_lookup_fmap. by rewrite Hv.
Qed.

(** The requests behind a list of pointers. *)
Definition reqsOf s (l : list Ptr) : list (LSQRequest I) := omap (λ p, heap s !! p) l.

(** Every slot is a live request, and a well-formed one if it has a packet. *)
Definition slots_ok s (l : list Ptr) : Prop :=
  Forall (λ p, ∃ r, heap s !! p = Some r ∧ (is_Some (rq_packet r) → slot_ok r)) l.

Lemma forwardable_packet tid r : forwardable tid r = true → is_Some (rq_packet r).
Proof. unfold forwardable. destruct (rq_packet r); [by eexists|done]. Qed.

(** The stores of the load's thread among the slots [l]. *)
Definition visible s (tid : Z) (l : list Ptr) : list (LSQRequest I) :=
  List.filter (forwardable tid) (reqsOf s l).

Lemma visible_snoc s tid l p r : heap s !! p = Some r →
  visible s tid (l ++ [p]) = visible s tid l ++ (if forwardable tid r then [r] else []).
Proof.
  intros Hr. unfold visible, reqsOf. rewrite omap_app, List.filter_app. cbn. rewrite Hr. cbn.
  by destruct (forwardable tid r).
Qed.

Lemma wholeAfter_snoc mem l r x : wholeAfter mem (l ++ [r]) x = default (wholeAfter mem l x) (wholeByte r x).
Proof. unfold wholeAfter. by rewrite foldl_app. Qed.

Lemma slotCoverage_forwardable r load :
  slotCoverage r load
  = if forwardable (threadId (id (rq_inst load))) r
    then containsAddrRangeOf (rq_request r) (rq_request load) else Ok NoAddrRangeCoverage.
Proof. unfold slotCoverage, forwardable. by destruct (rq_packet r). Qed.

(** The search by cases on its result. *)
Lemma forwardSearch_spec s load a dst p mem l :
  load_ok load a dst p → slots_ok s l →
  let tid := threadId (id (rq_inst load)) in
  let after := wholeAfter mem (visible s tid l) in
  ∃ cov i, forwardSearch load (rev l) (Z.of_nat (length l) - 1) s = Ok ((cov, i), s)
    ∧ match cov with
      | NoAddrRangeCoverage => ∀ x, inRange a (q_size (rq_request load)) x → after x = mem x
      | FullAddrRangeCoverage =>
          ∃ sp r d, 0 ≤ i ∧ l !! Z.to_nat i = Some sp ∧ heap s !! sp = Some r
            ∧ forwardBytes r load = Ok (setPacket (Some (setPacketData d p)) load)
            ∧ Z.of_nat (length d) = q_size (rq_request load)
            ∧ ∀ j, 0 ≤ j < q_size (rq_request load) → d !! Z.to_nat j = Some (Some (after (a + j)))
      | PartialAddrRangeCoverage =>
          ∃ sp r, l !! Z.to_nat i = Some sp ∧ heap s !! sp = Some r ∧ forwardable tid r = true
            ∧ containsAddrRangeOf (rq_request r) (rq_request load) = Ok PartialAddrRangeCoverage
      end.
Proof.
  intros Hload Hs tid. induction l as [|q l IH] using rev_ind; cbn zeta.
  { eexists _, _. split; [done|]. done. }
  apply Forall_app in Hs as [Hs (r & Hr & Hok)%Forall_singleton].
  rewrite rev_app_distr. cbn [rev app forwardSearch].
  unfold sbind at 1, deref. rewrite Hr. rewrite slotCoverage_forwardable. fold tid.
  replace (Z.of_nat (length (l ++ [q])) - 1) with (Z.of_nat (length l)) by (rewrite length_app; cbn; lia).
  rewrite (visible_snoc _ _ _ _ _ Hr).
  assert (∃ cov, (if forwardable tid r then containsAddrRangeOf (rq_request r) (rq_request load)
            else Ok NoAddrRangeCoverage) = Ok cov) as [cov Hcov].
  { destruct (forwardable tid r) eqn:Hfw; [|by eexists].
    destruct (Hok (forwardable_packet _ _ Hfw)) as [(b & []) _ _], Hload as [[] _ _ _ _].
    unfold containsAddrRangeOf, getPaddr. rewrite rg_paddr0, rg_paddr1. by eexists. }
  rewrite Hcov. unfold sbind at 1, slift at 1. cbn [rbind].
  destruct (decide (cov = NoAddrRangeCoverage)) as [->|Hne].
  - destruct (IH Hs) as (c & i & Hrun & Hc). exists c, i. split; [exact Hrun|].
    assert (∀ x, inRange a (q_size (rq_request load)) x →
      wholeAfter mem (visible s tid l ++ (if forwardable tid r then [r] else [])) x
      = wholeAfter mem (visible s tid l) x) as Heq.
    { intros x Hx. destruct (forwardable tid r) eqn:Hfw; [|by rewrite app_nil_r].
      rewrite wholeAfter_snoc, (slotCoverage_None r load a); try done; [|by apply Hload].
      by apply Hok, (forwardable_packet tid). }
    destruct c.
    + destruct Hc as (sp & r0 & H1 & H2 & H3 & H4). exists sp, r0. split_and!; try done.
      by apply lookup_app_l_Some.
    + destruct Hc as (sp & r0 & d & Hi & H1 & H2 & H3 & H4 & H5). exists sp, r0, d. split_and!; try done.
      { by apply lookup_app_l_Some. }
      intros j Hj. rewrite Heq; [by apply H5|unfold inRange; lia].
    + intros x Hx. rewrite Heq by done. by apply Hc.
  - exists cov, (Z.of_nat (length l)). split; [done|].
    destruct (forwardable tid r) eqn:Hfw; [|by injection Hcov as <-].
    assert ((l ++ [q]) !! Z.to_nat (Z.of_nat (length l)) = Some q) as Hq.
    { rewrite Nat2Z.id. by apply list_lookup_middle. }
    destruct cov; [by exists q, r| |done].
    destruct (slotCoverage_Full r load a dst p (Hok (forwardable_packet _ _ Hfw)) Hload Hfw Hcov) as (d & H1 & H2 & H3).
    exists q, r, d. split_and!; try done; [lia|].
    intros j Hj. destruct (H3 j Hj) as (v & Hv & Hd). by rewrite Hd, wholeAfter_snoc, Hv.
Qed.

(** Where all stores are straight, memory after them is the whole stores'. *)
Lemma memAfter_whole mem l : Forall (λ r, ∃ a, straightStore r a ∧ q_paddr (rq_request r) = Some a ∧ is_Some (rq_packet r)) l →
  ∀ x, memAfter mem l x = wholeAfter mem l x.
Proof.
  intros Hl x. unfold memAfter, wholeAfter. generalize (mem x). induction Hl as [|r l (a & H1 & H2 & H3) _ IH]; intros v; [done|].
  cbn. by rewrite IH, (straight_storeByte r a).
Qed.

Lemma visible_whole s tid l : slots_ok s l →
  (∀ r b, r ∈ visible s tid l → q_paddr (rq_request r) = Some b → straightStore r b) →
  ∀ mem x, memAfter mem (visible s tid l) x = wholeAfter mem (visible s tid l) x.
Proof.
  intros Hs Hst mem. apply memAfter_whole, Forall_forall. intros r Hr. pose proof Hr as Hv.
  unfold visible in Hr. apply list_elem_of_In, filter_In in Hr as [Hin Hf]. pose proof (forwardable_packet _ _ Hf) as Hp.
  apply list_elem_of_In in Hin. unfold reqsOf in Hin. apply list_elem_of_omap in Hin as (q & Hq & Hr').
  unfold slots_ok in Hs. rewrite Forall_forall in Hs. destruct (Hs q Hq) as (r' & Hr1 & Hok). rewrite Hr1 in Hr'. injection Hr' as ->.
  destruct (Hok Hp) as [(b & []) _ _]. exists b. split_and!; [by apply Hst|done..].
Qed.

(** An overlap that does not supply all bytes. *)
Lemma partial_overlap r load a b : ranged r b → ranged load a →
  containsAddrRangeOf (rq_request r) (rq_request load) = Ok PartialAddrRangeCoverage →
  (∃ x, inRange a (q_size (rq_request load)) x ∧ inRange b (q_size (rq_request r)) x)
  ∧ (isMasked (rq_request r) = true ∨ ∃ x, inRange a (q_size (rq_request load)) x ∧ ¬ inRange b (q_size (rq_request r)) x).
Proof.
  intros [] [] Hc. unfold containsAddrRangeOf, getPaddr in Hc. rewrite rg_paddr0, rg_paddr1 in Hc. cbn [rbind] in Hc.
  pose proof (containsAddrRange_spec b (q_size (rq_request r)) a (q_size (rq_request load))
    rg_low0 rg_size0 rg_high0 rg_low1 rg_size1 rg_high1) as Hs.
  destruct (containsAddrRange _ _ _ _).
  - destruct Hs as [? ?]. auto.
  - rewrite decide_True in Hc by done. destruct (isMasked _); [|done]. split; [|by left].
    exists a. split; [unfold inRange; lia|]. apply Hs. unfold inRange. lia.
  - by rewrite decide_False in Hc.
Qed.
End forward.


(** An eight-byte store that crosses a page, with its second fragment at [hi],
    and a two-byte load at physical address [a]. *)
Section demo.
#[local] Existing Instance Toy.isa.

Definition demoBytes : Bytes := ulongBytes 81985529216486895.

(** the store before its packets are made *)
Definition demoSplit (hi : Z) : LSQRequest Toy.isa :=
  let q := mkRequest 4092 8 None noFlags (replicate 8 true) false false in
  let piece va pa := mkRequest va 4 (Some pa) noFlags (replicate 4 true) false false in
  mkLSQRequest (Toy.inst Toy.st 64 1) false (Some demoBytes) None q false false false
    StoreInStoreBuffer (SplitDataRequest (mkSplit false 2 0 2 0 0 [piece 4092 8188; piece 4096 hi] [])).
Definition demoStore (hi : Z) : LSQRequest Toy.isa :=
  Eval vm_compute in match makeFragmentPackets (demoSplit hi) with Ok r => r | Stop _ => demoSplit hi end.

Definition demoLoad : LSQRequest Toy.isa :=
  let q := mkRequest 12288 2 (Some 8192) noFlags (replicate 2 true) false false in
  mkLSQRequest (Toy.inst Toy.ld 68 2) true None
    (Some (mkPacket q false (Some (uninit 2)) false false)) q false false false
    Translated (SingleDataRequest false false).

Definition demoLSQ (hi : Z) : LSQ Toy.isa :=
  mkLSQ (mkLsqConfig 1 16 4 1) {[ 0 := demoStore hi; 1 := demoLoad ]} 2 [0] MemoryRunning
    (mkQueue [1] 0 2) (mkQueue [] 0 2) [0] (mkCounters 1 0 0 0 0) None (newCVU 2) 0 false.

(** With its second page somewhere else, the store is taken for one that covers
    the bytes behind its first page: the load gets the store's bytes, which the
    store does not write there. *)
Definition forwardedByte (hi : Z) (j : nat) : option Z :=
  match canForwardDataToLoad demoLoad (demoLSQ hi) with
  | Ok ((FullAddrRangeCoverage, i), s) =>
      match forwardStoreData 1 i s with
      | Ok (_, s') => match heap s' !! 1 with Some load' => dataAt (rq_packet load') j | None => None end
      | Stop _ => None
      end
  | _ => None
  end.
Lemma page_crossing_forwards_wrong :
  byteAddr demoLoad 0 = Some 8192 ∧ forwardedByte 20480 0 = Some 103
  ∧ memAfter (λ _, 0) (visible (demoLSQ 20480) 0 (slots (demoLSQ 20480))) 8192 = 0.
Proof. split_and!; vm_compute; reflexivity. Qed.

Lemma demoStore_straight : straightStore (demoStore 8192) 8188.
Proof.
  split.
  - repeat apply Forall_cons_2; [..|apply Forall_nil_2]; (split; [split_and!; by vm_compute|reflexivity|]);
      intros j Hj; change (q_size _) with 4 in Hj;
      assert (j = 0 ∨ j = 1 ∨ j = 2 ∨ j = 3) as [->|[->|[->| ->]]] by lia; split; reflexivity.
  - intros j Hj He. apply lookup_lt_Some in He. change (length _) with 8%nat in He.
    assert (j = 0 ∨ j = 1 ∨ j = 2 ∨ j = 3 ∨ j = 4 ∨ j = 5 ∨ j = 6 ∨ j = 7) as Hcases by lia.
    repeat destruct Hcases as [->|Hcases]; subst; solve [left; split; by vm_compute|right; left; split; by vm_compute].
Qed.

End demo.
