(* ===== verification/LsqInv.v ===== *)
(** * Invariant of the load/store queue

    The state that [Lsq] goes through when the memory system, the TLB and
    Execute follow their protocols: every pointer of a queue is live and in
    one queue only, every request is in a state that fits its queue, and each
    counter of the queue is the number of requests it is meant to count. *)
From stdpp Require Import gmap.
From S2P Require Import Prelude Buffers LVPT CVU PipeData LsqAddr LsqRequest Lsq LsqForward.

(** the three queues *)
Inductive Place := PR | PT | PB.

#[export] Instance Place_eq_dec : EqDecision Place.
Proof. solve_decision. Defined.

Section inv.
Context `{I : Isa}.
Implicit Types (r : LSQRequest I) (s : LSQ I) (H : gmap Z (LSQRequest I)) (p : Ptr) (pl : Place).

(** ** Counting packets *)

(** packets sent, packets sent and not answered, and all packets *)
Definition numIssued r : Z :=
  match rq_kind r with
  | SingleDataRequest _ sent => b2z sent
  | SplitDataRequest f => numIssuedFragments f
  | _ => 0
  end.
Definition numInFlight r : Z :=
  match rq_kind r with
  | SingleDataRequest fl _ => b2z fl
  | SplitDataRequest f => numIssuedFragments f - numRetiredFragments f
  | _ => 0
  end.
Definition numTotal r : Z :=
  match rq_kind r with
  | SingleDataRequest _ _ => 1
  | SplitDataRequest f => numTranslatedFragments f
  | _ => 0
  end.

(** packets that memory owes an answer to *)
Definition inflight r : Z := if q_localAccess (rq_request r) then 0 else numInFlight r.

(** ** Requests *)

(** the payload of the request's packet *)
Definition pkt_data r (k : Packet) : Prop :=
  (rq_isLoad r = true → ∃ d, pk_data k = Some d ∧ Z.of_nat (length d) = q_size (rq_request r))
  ∧ (rq_isLoad r = false → cacheMaintenance (q_flags (rq_request r)) = false →
       ∃ d : list Z, pk_data k = Some (Some <$> d) ∧ Z.of_nat (length d) = q_size (rq_request r)).

(** An access that has been translated and still owes packets or answers. *)
Record live r : Prop := {
  lv_fault : translationFault (ex (rq_inst r)) = None;
  lv_skip : rq_skipped r = true → numIssued r = numTotal r;
  lv_vaddr : 0 ≤ q_vaddr (rq_request r) ∧ q_vaddr (rq_request r) + q_size (rq_request r) < 2 ^ 64;
  lv_range : ∃ a, ranged r a;
  lv_enable : Z.of_nat (length (q_byteEnable (rq_request r))) = q_size (rq_request r);
  lv_packet : ∃ k, rq_packet r = Some k ∧ pk_response k = false ∧ pkt_data r k;
  lv_kind : match rq_kind r with
            | SingleDataRequest fl sent => fl = true → sent = true
            | SplitDataRequest f =>
                0 < numTranslatedFragments f < 2 ^ 32
                ∧ Z.of_nat (length (fragmentPackets f)) = numTranslatedFragments f
                ∧ llsc (q_flags (rq_request r)) = false
                ∧ ∀ d, rq_data r = Some d → Z.of_nat (length d) = q_size (rq_request r)
            | _ => False
            end;
  lv_count : 0 ≤ numInFlight r ≤ numIssued r ∧ numIssued r ≤ numTotal r;
  lv_left : numIssued r - numInFlight r < numTotal r;
}.

(** An access whose translation is under way. *)
Record translating r : Prop := {
  tr_fault : translationFault (ex (rq_inst r)) = None;
  tr_skip : rq_skipped r = false;
  tr_vaddr : 0 ≤ q_vaddr (rq_request r) ∧ q_vaddr (rq_request r) + q_size (rq_request r) < 2 ^ 64;
  tr_size : 0 < q_size (rq_request r);
  tr_enable : Z.of_nat (length (q_byteEnable (rq_request r))) = q_size (rq_request r);
  tr_packet : rq_packet r = None;
  tr_data : rq_isLoad r = false →
              ∃ d : list Z, rq_data r = Some (Some <$> d) ∧ Z.of_nat (length d) = q_size (rq_request r);
  tr_kind : match rq_kind r with
            | SingleDataRequest fl sent => fl = false ∧ sent = false
            | SplitDataRequest f =>
                numIssuedFragments f = 0 ∧ numRetiredFragments f = 0 ∧ fragmentPackets f = []
                ∧ 0 ≤ numTranslatedFragments f < numFragments f
                ∧ Z.of_nat (length (fragmentRequests f)) = numFragments f ∧ numFragments f < 2 ^ 32
                ∧ Forall (inside (q_vaddr (rq_request r)) (q_size (rq_request r))) (fragmentRequests f)
                ∧ Forall (λ q, hasPaddr q = true)
                    (take (Z.to_nat (numTranslatedFragments f)) (fragmentRequests f))
                ∧ (∀ q, fragmentRequests f !! 0%nat = Some q → 0 < numTranslatedFragments f →
                     ∃ a, q_paddr q = Some a ∧ 0 ≤ a ∧ a + q_size (rq_request r) < 2 ^ 64)
                ∧ numInTranslationFragments f = b2z (negb (translationEvent f))
                ∧ llsc (q_flags (rq_request r)) = false
                ∧ Forall (λ q, llsc (q_flags q) = false) (fragmentRequests f)
            | _ => False
            end;
}.

(** A request that memory owes nothing. *)
Definition quiet r : Prop := inflight r = 0.

Definition nonlocal r : Prop := q_localAccess (rq_request r) = false.

(** An access that goes to memory from [requests]. *)
Definition direct r : bool :=
  rq_isLoad r || negb (isBufferable (q_flags (rq_request r))) || q_localAccess (rq_request r).

(** The states in which a request may be in each queue. *)
Definition place_ok pl r : Prop :=
  match pl, rq_state r with
  | PR, InTranslation => translating r
  | PR, Translated =>
      (faultSet (translationFault (ex (rq_inst r))) = true ∧ quiet r) ∨ (live r ∧ numIssued r = 0)
  | PR, Failed => quiet r
  | PR, RequestIssuing => live r ∧ 0 < numIssued r < numTotal r ∧ direct r = true
  | PR, RequestNeedsRetry => live r ∧ numIssued r < numTotal r ∧ nonlocal r ∧ direct r = true
  | PR, Complete => quiet r
  | PT, RequestIssuing => live r ∧ numIssued r = numTotal r ∧ nonlocal r
  | PT, StoreToStoreBuffer => live r ∧ numIssued r = 0 ∧ nonlocal r ∧ rq_isLoad r = false
  | PT, Complete => quiet r
  | PB, StoreInStoreBuffer => live r ∧ numIssued r = 0 ∧ nonlocal r ∧ rq_isLoad r = false
  | PB, StoreBufferIssuing => live r ∧ 0 < numIssued r ∧ nonlocal r ∧ rq_isLoad r = false
  | PB, StoreBufferNeedsRetry => live r ∧ numIssued r < numTotal r ∧ nonlocal r ∧ rq_isLoad r = false
  | PB, Complete => isBarrier r = true ∧ quiet r ∧ (is_Some (rq_packet r) → slot_ok r)
  | _, _ => False
  end.

(** What each counter counts, per request and queue. *)
Definition storeIn pl r : Z := match pl with PT => b2z (negb (rq_isLoad r)) | _ => 0 end.
Definition issuedIn pl r : Z := match pl with PB => 0 | _ => b2z (rq_issuedToMemory r) end.
Definition flightIn (pl : Place) r : Z := inflight r.
Definition unissued r : bool :=
  isBarrier r || negb (bool_decide (rq_state r = StoreBufferIssuing) && sentAllPackets r).
Definition unissuedIn pl r : Z := match pl with PB => b2z (unissued r) | _ => 0 end.
Definition inTLB r : Z :=
  if bool_decide (rq_state r = InTranslation) then
    match rq_kind r with
    | SingleDataRequest _ _ => 1
    | SplitDataRequest f => numInTranslationFragments f
    | _ => 0
    end
  else 0.
Definition dtlbIn pl r : Z := match pl with PR => inTLB r | _ => 0 end.

(** ** The queues as one list *)

Definition tagged s : list (Place * Ptr) :=
  (pair PR <$> queue (requests s)) ++ (pair PT <$> queue (transfers s)) ++ (pair PB <$> slots s).

Definition sumOver (g : Place → LSQRequest I → Z) H (l : list (Place * Ptr)) : Z :=
  foldr (λ x acc, match H !! x.2 with Some r => g x.1 r | None => 0 end + acc) 0 l.

(** Every counter is exact. *)
Record counted s : Prop := {
  c_unissued : numUnissuedAccesses (counters s) = sumOver unissuedIn (heap s) (tagged s);
  c_memory : numAccessesInMemorySystem (counters s) = sumOver flightIn (heap s) (tagged s);
  c_dtlb : numAccessesInDTLB (counters s) = sumOver dtlbIn (heap s) (tagged s);
  c_stores : numStoresInTransfers (counters s) = sumOver storeIn (heap s) (tagged s);
  c_issued : numAccessesIssuedToMemory (counters s) = sumOver issuedIn (heap s) (tagged s);
}.

(** The constants of a configuration that the constructor accepts. *)
Record sized s : Prop := {
  z_limit : 1 ≤ inMemorySystemLimit (cfg s) < 2 ^ 32;
  z_slots : 1 ≤ numSlots (cfg s) < 2 ^ 30;
  z_line : ∃ k, 0 ≤ k ≤ 31 ∧ lineWidth (cfg s) = 2 ^ k;
  z_capR : 1 ≤ capacity (requests s) < 2 ^ 30;
  z_capT : 1 ≤ capacity (transfers s) < 2 ^ 30;
  z_resR : numReservedSlots (requests s) = 0;
  z_resT : numReservedSlots (transfers s) = 0;
  z_cvu : ∃ n, cvu_ok n (cvu s);
}.

(** No queue is over-full. *)
Record roomy s : Prop := {
  m_R : Z.of_nat (length (queue (requests s))) ≤ capacity (requests s);
  m_T : Z.of_nat (length (queue (transfers s))) ≤ capacity (transfers s);
  m_B : Z.of_nat (length (slots s)) ≤ numSlots (cfg s);
}.

(** a request that waits for a retry *)
Definition retrying r : bool :=
  match rq_state r with RequestNeedsRetry | StoreBufferNeedsRetry => true | _ => false end.

(** The request that waits for a retry, if any, is the recorded one. *)
Record retry_ok s : Prop := {
  y_one : ∀ p r, heap s !! p = Some r → retrying r = true →
            mstate s = MemoryNeedsRetry ∧ retryRequest s = Some p;
  y_some : mstate s = MemoryNeedsRetry → ∃ p r,
            retryRequest s = Some p ∧ heap s !! p = Some r
            ∧ numAccessesInMemorySystem (counters s) < inMemorySystemLimit (cfg s)
            ∧ ((rq_state r = RequestNeedsRetry ∧ head (queue (requests s)) = Some p
                ∧ Z.of_nat (length (queue (transfers s))) < capacity (transfers s))
               ∨ rq_state r = StoreBufferNeedsRetry);
}.

(** No buffered store overlaps the load. *)
Definition clear_of s load : Prop :=
  ∀ q r, q ∈ slots s → heap s !! q = Some r → slotCoverage r load = Ok NoAddrRangeCoverage.

(** a request that has offered a packet to memory *)
Definition begun r : Prop := 0 < numIssued r ∨ rq_state r = RequestNeedsRetry.

(** A request in [requests] that has offered a packet is at the head, and if it
    is a load there is no older store that it could conflict with. *)
Definition ahead s : Prop :=
  ∀ p r, p ∈ queue (requests s) → heap s !! p = Some r → begun r →
    head (queue (requests s)) = Some p
    ∧ (rq_isLoad r = true → numStoresInTransfers (counters s) = 0 ∧ clear_of s r).

Record Inv s : Prop := {
  i_nodup : NoDup (tagged s).*2;
  i_place : ∀ pl p, (pl, p) ∈ tagged s → ∃ r, heap s !! p = Some r ∧ place_ok pl r
              ∧ 0 ≤ threadId (id (rq_inst r)) < Z.of_nat (length (lastMemBarrier s));
  i_owned : ∀ p, is_Some (heap s !! p) → p ∈ (tagged s).*2;
  i_fresh : ∀ p, is_Some (heap s !! p) → p < nextPtr s;
  i_sized : sized s;
  i_roomy : roomy s;
  i_counted : counted s;
  i_limit : numAccessesInMemorySystem (counters s) ≤ inMemorySystemLimit (cfg s);
  i_retry : retry_ok s;
  i_ahead : ahead s;
}.

(** whether the processor was woken up does not matter to the queue *)
Lemma Inv_awake b s : Inv s → Inv (upd_awake b s).
Proof.
  intros [H1 H2 H3 H4 H5 H6 H7 H8 H9 H10]. split; try done; [by destruct H5|by destruct H6|by destruct H7|by destruct H9].
Qed.

(** ** Sums *)

Lemma sumOver_perm g H l l' : l ≡ₚ l' → sumOver g H l = sumOver g H l'.
Proof. unfold sumOver. induction 1; cbn; lia. Qed.

Lemma sumOver_cons g H pl p r l : H !! p = Some r →
  sumOver g H ((pl, p) :: l) = g pl r + sumOver g H l.
Proof. intros Hp. unfold sumOver. cbn. by rewrite Hp. Qed.

Lemma sumOver_notin g H p (o : option (LSQRequest I)) l : p ∉ l.*2 →
  sumOver g (partial_alter (λ _, o) p H) l = sumOver g H l.
Proof.
  unfold sumOver. induction l as [|[pl q] l IH]; cbn; intros Hp; [done|].
  apply not_elem_of_cons in Hp as [Hne Hp]. rewrite IH by done.
  by rewrite lookup_partial_alter_ne by congruence.
Qed.

Lemma sumOver_bounds g H l n : (∀ pl p r, (pl, p) ∈ l → H !! p = Some r → 0 ≤ g pl r ≤ n) → 0 ≤ n →
  0 ≤ sumOver g H l ≤ n * Z.of_nat (length l).
Proof.
  unfold sumOver. induction l as [|[pl q] l IH]; intros Hg Hn; cbn [foldr length]; [lia|].
  assert (0 ≤ match H !! q with Some r => g pl r | None => 0 end ≤ n).
  { destruct (H !! q) eqn:E; [|lia]. eapply Hg; [|done]. by left. }
  cbn [fst snd]. destruct IH as [? ?]; [|done|lia].
  intros pl' p' r' Hin. apply Hg. by right.
Qed.

(** ** Changing one request

    Every operation changes one request at a time: it updates it, moves it to
    another queue, creates it or deletes it.  [o] and [o'] are its queue and
    content before and after. *)

Definition contr (g : Place → LSQRequest I → Z) (o : option (Place * LSQRequest I)) : Z :=
  match o with Some (pl, r) => g pl r | None => 0 end.

Definition holds s p (o : option (Place * LSQRequest I)) (rest : list (Place * Ptr)) : Prop :=
  match o with
  | Some (pl, r) => tagged s ≡ₚ (pl, p) :: rest ∧ heap s !! p = Some r
  | None => tagged s ≡ₚ rest ∧ heap s !! p = None
  end.

(** the parts of the state that no operation on the queues changes *)
Record framed s s' : Prop := {
  fr_cfg : cfg s' = cfg s;
  fr_next : nextPtr s ≤ nextPtr s';
  fr_barrier : length (lastMemBarrier s') = length (lastMemBarrier s);
  fr_capR : capacity (requests s') = capacity (requests s);
  fr_capT : capacity (transfers s') = capacity (transfers s);
  fr_resR : numReservedSlots (requests s') = numReservedSlots (requests s);
  fr_resT : numReservedSlots (transfers s') = numReservedSlots (transfers s);
  fr_cvu : cvu s' = cvu s;
}.

(** the counters follow the change *)
Record recounted s s' o o' : Prop := {
  rc_unissued : numUnissuedAccesses (counters s')
                = numUnissuedAccesses (counters s) - contr unissuedIn o + contr unissuedIn o';
  rc_memory : numAccessesInMemorySystem (counters s')
                = numAccessesInMemorySystem (counters s) - contr flightIn o + contr flightIn o';
  rc_dtlb : numAccessesInDTLB (counters s')
                = numAccessesInDTLB (counters s) - contr dtlbIn o + contr dtlbIn o';
  rc_stores : numStoresInTransfers (counters s')
                = numStoresInTransfers (counters s) - contr storeIn o + contr storeIn o';
  rc_issued : numAccessesIssuedToMemory (counters s')
                = numAccessesIssuedToMemory (counters s) - contr issuedIn o + contr issuedIn o';
}.

Lemma sized_framed s s' : framed s s' → sized s → sized s'.
Proof.
  intros [] []. split; rewrite ?fr_cfg0, ?fr_capR0, ?fr_capT0, ?fr_resR0, ?fr_resT0, ?fr_cvu0; done.
Qed.

Lemma holds_notin s p o rest : Inv s → holds s p o rest → p ∉ rest.*2.
Proof.
  intros [] Hh. destruct o as [[pl r]|]; destruct Hh as [Hp Hl].
  - rewrite Hp in i_nodup0. by apply NoDup_cons in i_nodup0 as [? _].
  - intros ([pl q] & -> & Hin)%list_elem_of_fmap. cbn in *.
    rewrite <- Hp in Hin. destruct (i_place0 pl q Hin) as (r & Hr & _). congruence.
Qed.

Lemma holds_sum g s p o rest : holds s p o rest →
  sumOver g (heap s) (tagged s) = contr g o + sumOver g (heap s) rest.
Proof.
  destruct o as [[pl r]|]; intros [Hp Hl]; rewrite (sumOver_perm _ _ _ _ Hp); [|done].
  by apply sumOver_cons.
Qed.

Lemma Inv_change s s' p o o' rest :
  Inv s → holds s p o rest → holds s' p o' rest →
  heap s' = partial_alter (λ _, snd <$> o') p (heap s) →
  framed s s' → recounted s s' o o' → roomy s' →
  match o' with
  | Some (pl, r) => place_ok pl r ∧ p < nextPtr s'
                    ∧ 0 ≤ threadId (id (rq_inst r)) < Z.of_nat (length (lastMemBarrier s'))
  | None => True
  end →
  numAccessesInMemorySystem (counters s') ≤ inMemorySystemLimit (cfg s') → retry_ok s' → ahead s' → Inv s'.
Proof.
  intros Hinv Hh Hh' Hheap Hf Hc Hroom Hok Hlim Hretry Hahead.
  pose proof (holds_notin _ _ _ _ Hinv Hh) as Hni.
  assert (∀ q, q ≠ p → heap s' !! q = heap s !! q) as Hne.
  { intros q Hq. rewrite Hheap. by rewrite lookup_partial_alter_ne. }
  assert (∀ g, sumOver g (heap s') (tagged s')
    = sumOver g (heap s) (tagged s) - contr g o + contr g o') as Hsum.
  { intros g. rewrite (holds_sum _ _ _ _ _ Hh), (holds_sum _ _ _ _ _ Hh').
    rewrite Hheap, sumOver_notin by done. lia. }
  pose proof Hinv as []. destruct Hf as [] eqn:Ef. split.
  - destruct o' as [[pl r]|]; destruct Hh' as [-> _]; cbn [fmap list_fmap snd].
    + apply NoDup_cons. split; [done|].
      destruct o as [[pl0 r0]|]; destruct Hh as [Hp _]; rewrite Hp in i_nodup0; [|done].
      by apply NoDup_cons in i_nodup0 as [_ ?].
    + destruct o as [[pl0 r0]|]; destruct Hh as [Hp _]; rewrite Hp in i_nodup0; [|done].
      by apply NoDup_cons in i_nodup0 as [_ ?].
  - intros pl q Hin. rewrite fr_barrier0.
    assert (q ≠ p ∧ (pl, q) ∈ tagged s ∨ q = p ∧ ∃ r, o' = Some (pl, r)) as [[Hq Hin0]|(-> & r & ->)].
    { destruct (decide (q = p)) as [->|Hq].
      - right. split; [done|]. destruct o' as [[pl' r]|]; destruct Hh' as [Hp _]; rewrite Hp in Hin.
        + apply elem_of_cons in Hin as [[= ->]|Hin]; [by exists r|].
          exfalso. apply Hni, list_elem_of_fmap. by exists (pl, p).
        + exfalso. apply Hni, list_elem_of_fmap. by exists (pl, p).
      - left. split; [done|].
        assert ((pl, q) ∈ rest).
        { destruct o' as [[pl' r]|]; destruct Hh' as [Hp _]; rewrite Hp in Hin; [|done].
          apply elem_of_cons in Hin as [[= -> ->]|]; done. }
        destruct o as [[pl0 r0]|]; destruct Hh as [Hp _]; rewrite Hp; [by right|done]. }
    + rewrite Hne by done. by apply i_place0.
    + destruct Hh' as [_ Hl']. destruct Hok as (Hok & _ & Ht). exists r. rewrite fr_barrier0 in Ht. done.
  - intros q [r Hr]. destruct (decide (q = p)) as [->|Hq].
    + rewrite Hheap, lookup_partial_alter_eq in Hr. destruct o' as [[pl' r']|]; [|done].
      destruct Hh' as [-> _]. by left.
    + rewrite Hne in Hr by done.
      assert (q ∈ rest.*2).
      { specialize (i_owned0 q (ex_intro _ _ Hr)).
        destruct o as [[pl0 r0]|]; destruct Hh as [Hp _]; rewrite Hp in i_owned0; [|done].
        cbn in i_owned0. by apply elem_of_cons in i_owned0 as [->|?]. }
      destruct o' as [[pl' r']|]; destruct Hh' as [-> _]; [by right|done].
  - intros q [r Hr]. destruct (decide (q = p)) as [->|Hq].
    + rewrite Hheap, lookup_partial_alter_eq in Hr. by destruct o' as [[pl' r']|]; [apply Hok|].
    + rewrite Hne in Hr by done. specialize (i_fresh0 q (ex_intro _ _ Hr)). lia.
  - by eapply sized_framed.
  - done.
  - destruct Hc, i_counted0. split; rewrite Hsum; congruence.
  - done.
  - done.
  - done.
Qed.

(** ** Ranges of the counters *)

Lemma inflight_nonneg pl r : place_ok pl r → 0 ≤ inflight r.
Proof.
  assert (live r → 0 ≤ inflight r) as Hl.
  { intros []. unfold inflight. destruct (q_localAccess _); lia. }
  assert (translating r → 0 ≤ inflight r) as Ht.
  { intros []. unfold inflight, numInFlight. destruct (q_localAccess _); [lia|].
    destruct (rq_kind r); [|lia..]. by destruct tr_kind0 as [-> _]. }
  unfold place_ok, quiet. destruct pl, (rq_state r); intros; try done; try lia;
    repeat match goal with
    | H : _ ∧ _ |- _ => destruct H
    | H : _ ∨ _ |- _ => destruct H
    end; auto with lia.
Qed.

Lemma inTLB_range pl r : place_ok pl r → 0 ≤ inTLB r ≤ 1.
Proof.
  intros Hok. unfold inTLB. case_bool_decide as Hs; [|lia]. unfold place_ok in Hok. rewrite Hs in Hok.
  destruct pl; [|done..]. destruct Hok. destruct (rq_kind r) as [|f| |]; [lia| |done|done].
  destruct tr_kind0 as (_ & _ & _ & _ & _ & _ & _ & _ & _ & -> & _). destruct (translationEvent f); cbn; lia.
Qed.

Lemma b2z_range b : 0 ≤ b2z b ≤ 1.
Proof. destruct b; cbn; lia. Qed.

Lemma tagged_length s : sized s → roomy s → Z.of_nat (length (tagged s)) ≤ 3 * (2 ^ 30 - 1).
Proof. intros [] []. unfold tagged. rewrite !length_app, !length_fmap. lia. Qed.

(** A count of requests is at least what one of them contributes, and small. *)
Lemma count_range g s p o rest : Inv s → holds s p o rest →
  (∀ pl r, place_ok pl r → 0 ≤ g pl r ≤ 1) →
  0 ≤ contr g o ≤ sumOver g (heap s) (tagged s) ∧ sumOver g (heap s) (tagged s) ≤ 3 * (2 ^ 30 - 1).
Proof.
  intros Hinv Hh Hg. pose proof Hinv as [].
  assert (∀ pl q r, (pl, q) ∈ tagged s → heap s !! q = Some r → 0 ≤ g pl r ≤ 1) as Hg1.
  { intros pl q r Hin Hr. destruct (i_place0 pl q Hin) as (r' & Hr' & Hok & _). simplify_eq. auto. }
  pose proof (sumOver_bounds g (heap s) (tagged s) 1 Hg1 ltac:(lia)) as Hb.
  pose proof (tagged_length s i_sized0 i_roomy0).
  rewrite (holds_sum g _ _ _ _ Hh) in *.
  assert (0 ≤ sumOver g (heap s) rest ≤ 1 * Z.of_nat (length rest)) as Hr.
  { apply sumOver_bounds; [|lia]. intros pl q r Hin Hr. eapply Hg1; [|done].
    destruct o as [[pl0 r0]|]; destruct Hh as [-> _]; [by right|done]. }
  assert (0 ≤ contr g o).
  { destruct o as [[pl0 r0]|]; cbn; [|lia]. destruct Hh as [Hp Hl].
    apply (Hg1 _ p); [rewrite Hp; by left|done]. }
  lia.
Qed.

(** The same for the packets in flight. *)
Lemma flight_range s p o rest : Inv s → holds s p o rest →
  0 ≤ contr flightIn o ≤ numAccessesInMemorySystem (counters s)
  ∧ numAccessesInMemorySystem (counters s) < 2 ^ 32.
Proof.
  intros Hinv Hh. pose proof Hinv as []. destruct i_sized0, i_counted0. split; [|lia].
  rewrite c_memory0, (holds_sum _ _ _ _ _ Hh).
  assert (∀ pl q r, (pl, q) ∈ tagged s → heap s !! q = Some r → 0 ≤ flightIn pl r) as Hg.
  { intros pl q r Hin Hr. destruct (i_place0 pl q Hin) as (r' & Hr' & Hok & _). simplify_eq.
    by eapply inflight_nonneg. }
  assert (0 ≤ contr flightIn o).
  { destruct o as [[pl0 r0]|]; cbn; [|lia]. destruct Hh as [Hp Hl].
    apply (Hg pl0 p); [rewrite Hp; by left|done]. }
  assert (0 ≤ sumOver flightIn (heap s) rest); [|lia].
  assert (∀ pl q r, (pl, q) ∈ rest → heap s !! q = Some r → 0 ≤ flightIn pl r) as Hg'.
  { intros pl q r Hin. apply Hg. destruct o as [[pl0 r0]|]; destruct Hh as [-> _]; [by right|done]. }
  clear -Hg'. induction rest as [|[pl q] l IH]; cbn; [lia|].
  assert (0 ≤ sumOver flightIn (heap s) l) by (apply IH; intros; eapply Hg'; [by right|done]).
  destruct (heap s !! q) as [r|] eqn:E; [|unfold sumOver in *; lia].
  pose proof (Hg' pl q r ltac:(by left) E). unfold sumOver in *. lia.
Qed.

(** All counters at once. *)
Record ranges s o : Prop := {
  ra_unissued : 0 ≤ contr unissuedIn o ≤ numUnissuedAccesses (counters s)
                ∧ numUnissuedAccesses (counters s) ≤ 3 * (2 ^ 30 - 1);
  ra_memory : 0 ≤ contr flightIn o ≤ numAccessesInMemorySystem (counters s)
                ∧ numAccessesInMemorySystem (counters s) < 2 ^ 32;
  ra_dtlb : 0 ≤ contr dtlbIn o ≤ numAccessesInDTLB (counters s)
                ∧ numAccessesInDTLB (counters s) ≤ 3 * (2 ^ 30 - 1);
  ra_stores : 0 ≤ contr storeIn o ≤ numStoresInTransfers (counters s)
                ∧ numStoresInTransfers (counters s) ≤ 3 * (2 ^ 30 - 1);
  ra_issued : 0 ≤ contr issuedIn o ≤ numAccessesIssuedToMemory (counters s)
                ∧ numAccessesIssuedToMemory (counters s) ≤ 3 * (2 ^ 30 - 1);
}.

Lemma Inv_ranges s p o rest : Inv s → holds s p o rest → ranges s o.
Proof.
  intros Hinv Hh. pose proof Hinv as []. destruct i_counted0. split.
  - rewrite c_unissued0. apply (count_range _ s p o rest); [done..|].
    intros [] r _; cbn; try lia. apply b2z_range.
  - by apply (flight_range s p o rest).
  - rewrite c_dtlb0. apply (count_range _ s p o rest); [done..|].
    intros [] r Hok; cbn; try lia. by eapply inTLB_range.
  - rewrite c_stores0. apply (count_range _ s p o rest); [done..|].
    intros [] r _; cbn; try lia. apply b2z_range.
  - rewrite c_issued0. apply (count_range _ s p o rest); [done..|].
    intros [] r _; cbn; try lia; apply b2z_range.
Qed.

(** ** Where a request is *)

Lemma tagged_at s pl p : (pl, p) ∈ tagged s → ∃ rest, tagged s ≡ₚ (pl, p) :: rest.
Proof. intros (l1 & l2 & ->)%list_elem_of_split. exists (l1 ++ l2). by rewrite Permutation_middle. Qed.

Lemma tagged_R s p : (PR, p) ∈ tagged s ↔ p ∈ queue (requests s).
Proof. unfold tagged. rewrite !elem_of_app, !list_elem_of_fmap. naive_solver. Qed.
Lemma tagged_T s p : (PT, p) ∈ tagged s ↔ p ∈ queue (transfers s).
Proof. unfold tagged. rewrite !elem_of_app, !list_elem_of_fmap. naive_solver. Qed.
Lemma tagged_B s p : (PB, p) ∈ tagged s ↔ p ∈ slots s.
Proof. unfold tagged. rewrite !elem_of_app, !list_elem_of_fmap. naive_solver. Qed.

(** the pointers of the queues, with one set aside *)
Definition rest_of (R T B : list Ptr) : list (Place * Ptr) :=
  (pair PR <$> R) ++ (pair PT <$> T) ++ (pair PB <$> B).

Lemma rest_R_head R T B p : rest_of (p :: R) T B ≡ₚ (PR, p) :: rest_of R T B.
Proof. done. Qed.
Lemma rest_R_tail R T B p : rest_of (R ++ [p]) T B ≡ₚ (PR, p) :: rest_of R T B.
Proof. unfold rest_of. rewrite fmap_app. cbn. solve_Permutation. Qed.
Lemma rest_T_head R T B p : rest_of R (p :: T) B ≡ₚ (PT, p) :: rest_of R T B.
Proof. unfold rest_of. cbn. solve_Permutation. Qed.
Lemma rest_T_tail R T B p : rest_of R (T ++ [p]) B ≡ₚ (PT, p) :: rest_of R T B.
Proof. unfold rest_of. rewrite fmap_app. cbn. solve_Permutation. Qed.
Lemma rest_B_tail R T B p : rest_of R T (B ++ [p]) ≡ₚ (PB, p) :: rest_of R T B.
Proof. unfold rest_of. rewrite fmap_app. cbn. solve_Permutation. Qed.
Lemma eraseFirst_perm B p : p ∈ B → B ≡ₚ p :: eraseFirst p B.
Proof.
  intros Hp. induction B as [|q B IH]; [by apply elem_of_nil in Hp|]. cbn.
  destruct (Z.eqb_spec q p) as [->|Hq]; [done|].
  apply elem_of_cons in Hp as [->|Hp]; [done|]. rewrite (IH Hp) at 1. constructor.
Qed.

(** ** Reading and writing a request *)

Lemma deref_eq s p r : heap s !! p = Some r → deref p s = Ok (r, s).
Proof. intros Hp. unfold deref. by rewrite Hp. Qed.

Lemma update_eq s p r f r' : heap s !! p = Some r → f r = Ok r' →
  update p f s = Ok (tt, upd_heap <[p := r']> s).
Proof. intros Hp Hf. unfold update, sbind. rewrite (deref_eq _ _ _ Hp). unfold slift. by rewrite Hf. Qed.

Lemma set_eq s p r f : heap s !! p = Some r → set p f s = Ok (tt, upd_heap <[p := f r]> s).
Proof. intros Hp. by apply (update_eq _ _ r). Qed.

(** ** Sending a packet *)

Lemma ranged_same r r' a : rq_request r' = rq_request r → ranged r a → ranged r' a.
Proof. intros Hq []. by split; rewrite ?Hq. Qed.

Lemma step_live r : live r → numIssued r < numTotal r →
  ∃ r', stepToNextPacket r = Ok r' ∧ (∃ k, r' = setKind k r) ∧ live r'
    ∧ numIssued r' = numIssued r + 1 ∧ numInFlight r' = numInFlight r + 1 ∧ numTotal r' = numTotal r
    ∧ sentAllPackets r' = (numIssued r + 1 =? numTotal r).
Proof.
  intros [] Hlt. unfold stepToNextPacket.
  unfold numIssued, numInFlight, numTotal, sentAllPackets in *.
  destruct (rq_kind r) as [fl sent|f| |] eqn:Hk; [| |done|done].
  - destruct sent; [cbn in Hlt; lia|]. destruct fl; [by specialize (lv_kind0 eq_refl)|].
    eexists. split; [done|]. split; [by eexists|].
    split; [|cbn; split_and!; done].
    split; unfold numIssued, numInFlight, numTotal; cbn; try done.
    destruct lv_range0 as [a Ha]. exists a. by apply (ranged_same r).
  - cbn in *. destruct (Z.ltb_spec (numIssuedFragments f) (numTranslatedFragments f)); [|lia].
    cbn [assert_ rbind]. eexists. split; [done|]. split; [by eexists|].
    destruct lv_kind0 as (? & ? & ? & ?). rewrite u32_id by lia. cbn.
    split; [|split_and!; try done; lia].
    split; unfold numIssued, numInFlight, numTotal; cbn; try (done || lia).
    { intros Hs. specialize (lv_skip0 Hs). lia. }
    destruct lv_range0 as [a Ha]. exists a. by apply (ranged_same r).
Qed.

Lemma headPacket_live r : live r → numIssued r < numTotal r → ∃ k, getHeadPacket r = Ok k.
Proof.
  intros [] Hlt. unfold getHeadPacket, numIssued, numInFlight, numTotal in *.
  destruct (rq_kind r) as [fl sent|f| |] eqn:Hk; [| |done|done].
  - destruct lv_packet0 as (k & -> & _). by exists k.
  - destruct (Z.ltb_spec (numIssuedFragments f) (numTranslatedFragments f)); [|lia]. cbn.
    destruct lv_kind0 as (? & ? & ? & ?). apply vget_lt. lia.
Qed.

(** the queue after a packet of [p] was accepted, and after it was refused *)
Definition sentState s p r : LSQ I :=
  mkLSQ (cfg s) (<[p := r]> (heap s)) (nextPtr s) (lastMemBarrier s) MemoryRunning (requests s)
    (transfers s) (slots s) (addInMemory 1 (counters s)) (retryRequest s) (cvu s) (numSends s + 1) (lsqAwake s).
Definition refusedState s p r : LSQ I :=
  mkLSQ (cfg s) (<[p := r]> (heap s)) (nextPtr s) (lastMemBarrier s) MemoryNeedsRetry (requests s)
    (transfers s) (slots s) (counters s) (Some p) (cvu s) (numSends s + 1) (lsqAwake s).

Lemma tryToSend_live env s p r st1 st2 :
  canSendToMemorySystem s = true → heap s !! p = Some r → live r → nonlocal r →
  numIssued r < numTotal r → stateSent (rq_state r) = Ok st1 → stateRefused (rq_state r) = Ok st2 →
  ∃ r1, stepToNextPacket r = Ok r1 ∧
    tryToSend env p s
    = Ok (if accept env (numSends s)
          then (sentAllPackets r1, sentState s p (setState st1 r1))
          else (false, refusedState s p (setState st2 r))).
Proof.
  intros Hcan Hp Hl Hloc Hlt H1 H2.
  destruct (step_live r Hl Hlt) as (r1 & Hstep & (k & ->) & _). exists (setKind k r). split; [done|].
  destruct (headPacket_live r Hl Hlt) as [hp Hhp].
  unfold tryToSend, sbind, sget, smod, sret. rewrite Hcan. cbn [negb].
  rewrite (deref_eq _ _ _ Hp). unfold slift. rewrite Hhp. cbn [rbind]. rewrite Hloc.
  destruct (accept env (numSends s)).
  - rewrite (update_eq _ _ r _ (setKind k r)) by done.
    rewrite (deref_eq _ _ (setKind k r)) by (cbn; by rewrite lookup_insert_eq).
    rewrite (update_eq _ _ (setKind k r) _ (setState st1 (setKind k r)))
      by (cbn -[stateSent]; by rewrite ?lookup_insert_eq, ?H1).
    do 2 f_equal. unfold upd_mstate, upd_heap, upd_counters, upd_sends, sentState. cbn.
    by rewrite insert_insert_eq.
  - rewrite (update_eq _ _ r _ (setState st2 r)) by (done || (cbn -[stateRefused]; by rewrite H2)). done.
Qed.

(** ** Retries *)

Lemma no_retrying s p r : retry_ok s → mstate s = MemoryRunning → heap s !! p = Some r →
  retrying r = false.
Proof.
  intros [] Hm Hr. destruct (retrying r) eqn:E; [|done].
  destruct (y_one0 p r Hr E) as [Hm' _]. congruence.
Qed.

Lemma retry_running s : mstate s = MemoryRunning →
  (∀ p r, heap s !! p = Some r → retrying r = false) → retry_ok s.
Proof.
  intros Hm Hn. split; [|congruence]. intros p r Hr E. by rewrite (Hn p r Hr) in E.
Qed.

(** While memory runs, a change that starts no retry keeps the property. *)
Lemma retry_running_change s s' p o : retry_ok s → mstate s = MemoryRunning →
  mstate s' = MemoryRunning → heap s' = partial_alter (λ _, o) p (heap s) →
  (∀ r, o = Some r → retrying r = false) → retry_ok s'.
Proof.
  intros Hy Hm Hm' Hheap Ho. apply retry_running; [done|]. intros q r Hr. rewrite Hheap in Hr.
  destruct (decide (q = p)) as [->|Hne].
  - rewrite lookup_partial_alter_eq in Hr. auto.
  - rewrite lookup_partial_alter_ne in Hr by done. by eapply no_retrying.
Qed.

(** A change of a request that is not waiting for a retry, or leaves it so. *)
Lemma retry_keep s s' p o : retry_ok s → mstate s' = mstate s → retryRequest s' = retryRequest s →
  cfg s' = cfg s → capacity (transfers s') = capacity (transfers s) →
  heap s' = partial_alter (λ _, o) p (heap s) →
  (∀ r, heap s !! p = Some r → retrying r = true → ∃ r', o = Some r' ∧ rq_state r' = rq_state r) →
  (∀ r', o = Some r' → retrying r' = true → ∃ r, heap s !! p = Some r ∧ retrying r = true) →
  (mstate s = MemoryNeedsRetry →
     numAccessesInMemorySystem (counters s') ≤ numAccessesInMemorySystem (counters s)
     ∧ (length (queue (transfers s')) ≤ length (queue (transfers s)))%nat
     ∧ ∀ q, head (queue (requests s)) = Some q → head (queue (requests s')) = Some q) →
  retry_ok s'.
Proof.
  intros [] Hm Hrr Hcfg Hcap Hheap Hold Hnew Hq.
  assert (∀ q, q ≠ p → heap s' !! q = heap s !! q) as Hne.
  { intros q Hqp. rewrite Hheap. by rewrite lookup_partial_alter_ne. }
  split.
  - intros q r Hr E. rewrite Hm, Hrr. destruct (decide (q = p)) as [->|Hqp].
    + rewrite Hheap, lookup_partial_alter_eq in Hr. destruct (Hnew r Hr E) as (r0 & Hr0 & E0). by eapply y_one0.
    + rewrite Hne in Hr by done. by eapply y_one0.
  - intros Hn. rewrite Hm in Hn. destruct (y_some0 Hn) as (q & r & Hq1 & Hr & Hlim & Hcase).
    destruct (Hq Hn) as (Hc & Hl & Hh). rewrite Hrr, Hcfg, Hcap. exists q.
    assert (∃ r', heap s' !! q = Some r' ∧ rq_state r' = rq_state r) as (r' & Hr' & Hst).
    { destruct (decide (q = p)) as [->|Hqp]; [|rewrite Hne by done; by exists r].
      destruct (Hold r Hr) as (r' & -> & Hst); [unfold retrying; destruct Hcase as [[-> _]| ->]; done|].
      exists r'. by rewrite Hheap, lookup_partial_alter_eq. }
    exists r'. rewrite Hst. split_and!; try done; [lia|].
    destruct Hcase as [(? & ? & ?)|?]; [left|right]; [|done]. split_and!; auto. lia.
Qed.

(** ** Loads that have started *)

(** When a request changes, loads that have started stay clear of stores. *)
Lemma ahead_change s s' p : ahead s → (∀ q, q ≠ p → heap s' !! q = heap s !! q) →
  (queue (requests s') = queue (requests s) ∨ queue (requests s) = p :: queue (requests s')
   ∨ queue (requests s') = queue (requests s) ++ [p]) →
  (∀ q, q ≠ p → q ∈ slots s' → q ∈ slots s) →
  (queue (requests s) = p :: queue (requests s') ∨
   (numStoresInTransfers (counters s) = 0 → numStoresInTransfers (counters s') = 0)) →
  (∀ r, heap s' !! p = Some r → p ∈ queue (requests s') → begun r →
     head (queue (requests s')) = Some p
     ∧ (rq_isLoad r = true → numStoresInTransfers (counters s') = 0 ∧ clear_of s' r)) →
  (∀ r, p ∈ slots s' → heap s' !! p = Some r →
     numStoresInTransfers (counters s) ≠ 0
     ∨ (∀ load, slotCoverage r load = Ok NoAddrRangeCoverage)
     ∨ (p ∈ slots s ∧ ∃ r0, heap s !! p = Some r0
          ∧ ∀ load, slotCoverage r load = slotCoverage r0 load)) →
  ahead s'.
Proof.
  intros Ha Hne HR HB HS Hp Hs q r Hq Hr Hi. destruct (decide (q = p)) as [->|Hqp]; [auto|].
  rewrite Hne in Hr by done.
  assert (q ∈ queue (requests s)) as Hq0.
  { destruct HR as [<-|[->|E]]; [done|by right|]. rewrite E in Hq.
    apply elem_of_app in Hq as [?|?%list_elem_of_singleton]; done. }
  destruct (Ha q r Hq0 Hr Hi) as [Hhd Hld].
  destruct HR as [E|[E|E]].
  2:{ rewrite E in Hhd. cbn in Hhd. congruence. }
  1,2: split; [rewrite E; try done; by destruct (queue (requests s))|].
  1,2: intros El; destruct (Hld El) as [H0 Hc]; split;
    [destruct HS as [HS|HS]; [rewrite HS in Hhd; cbn in Hhd; congruence|auto]|].
  1,2: intros q' r' Hq' Hr'; destruct (decide (q' = p)) as [->|Hn];
    [|rewrite Hne in Hr' by done; eapply Hc; eauto].
  1,2: destruct (Hs r' Hq' Hr') as [?|[?|(Hin & r0 & Hr0 & Heq)]]; [done|done|];
    rewrite Heq; by eapply Hc.
Qed.

(** ** Receiving an answer *)

(** An answer that memory may give: the data of the request or fragment, or an
    error, for a fragment only when all fragments have been sent. *)
Definition response_ok r (resp : Packet) : Prop :=
  match rq_kind r with
  | SingleDataRequest _ _ => pkt_data r resp
  | SplitDataRequest _ =>
      (pk_error resp = true → numIssued r = numTotal r) ∧
      (pk_error resp = false → rq_isLoad r = true → ∃ d, pk_data resp = Some d ∧ Z.of_nat (length d) = q_size (pk_req resp)
        ∧ inside (q_vaddr (rq_request r)) (q_size (rq_request r)) (pk_req resp))
  | _ => False
  end.

(** what an answer leaves alone *)
Record same_request r r' : Prop := {
  sr_inst : rq_inst r' = rq_inst r;
  sr_load : rq_isLoad r' = rq_isLoad r;
  sr_req : rq_request r' = rq_request r;
  sr_issued : rq_issuedToMemory r' = rq_issuedToMemory r;
  sr_barrier : isBarrier r' = isBarrier r;
}.

(** The outcome of an answer: the last one completes the request. *)
Definition retired r r' : Prop :=
  same_request r r' ∧ numIssued r' = numIssued r ∧ numInFlight r' = numInFlight r - 1
  ∧ numTotal r' = numTotal r
  ∧ ((numIssued r - numInFlight r + 1 = numTotal r ∧ rq_state r' = Complete
      ∧ ∃ k, rq_packet r' = Some k ∧ pkt_data r k)
     ∨ (numIssued r - numInFlight r + 1 < numTotal r ∧ rq_state r' = rq_state r ∧ live r')).

Lemma retire_single_live r resp fl sent : live r → rq_kind r = SingleDataRequest fl sent →
  0 < numInFlight r → response_ok r resp → retired r (retireSingle r resp sent).
Proof.
  intros [] Hk Hfl Hresp. unfold response_ok in Hresp. unfold retired, numIssued, numInFlight, numTotal in *.
  rewrite Hk in *. cbn. destruct fl; [|cbn in Hfl; lia]. rewrite (lv_kind0 eq_refl) in *.
  split; [split; try done; unfold isBarrier; cbn; by rewrite Hk|]. split_and!; try done. left. split_and!; try done. by exists resp.
Qed.

(** a fragment's answer is taken: its bytes, or its error *)
Definition answered r (od : option Bytes) (k : Packet) (sk : bool) : LSQRequest I :=
  mkLSQRequest (rq_inst r) (rq_isLoad r) od (Some k) (rq_request r) sk (rq_issuedToMemory r)
    (rq_isTranslationDelayed r) (rq_state r) (rq_kind r).

Lemma retireData_live r resp f f' : live r → rq_kind r = SplitDataRequest f → response_ok r resp →
  ∃ od k sk, retireData (setKind (SplitDataRequest f') r) resp = Ok (answered (setKind (SplitDataRequest f') r) od k sk)
    ∧ (∀ d, od = Some d → Z.of_nat (length d) = q_size (rq_request r))
    ∧ pk_response k = false ∧ pkt_data r k ∧ (sk = true → numIssued r = numTotal r).
Proof.
  intros [] Hk Hresp. unfold response_ok in Hresp. rewrite Hk in *. destruct Hresp as [He Hresp].
  destruct lv_packet0 as (k & Hpk & Hkr & Hkd). destruct lv_kind0 as (_ & _ & _ & Hdl). destruct lv_range0 as [a []].
  unfold retireData, answered. cbn. rewrite Hpk. destruct (rq_skipped r) eqn:Es.
  { exists (rq_data r), k, true. split_and!; try done. by destruct r; cbn in *; subst. }
  destruct (pk_error resp) eqn:Ee; [by exists (rq_data r), (copyError k), true; split_and!; auto|].
  destruct (rq_isLoad r) eqn:El; [|by exists (rq_data r), k, false; split_and!; try done; destruct r; cbn in *; subst].
  destruct (Hresp eq_refl eq_refl) as (src & Hsrc & Hsl & H1 & H2 & H3). unfold bytesOf. rewrite Hsrc. cbn.
  set (data := match rq_data r with Some d => d | None => uninit (q_size (rq_request r)) end).
  assert (Z.of_nat (length data) = q_size (rq_request r)) as Hd.
  { unfold data. destruct (rq_data r); [by apply Hdl|]. unfold uninit. rewrite length_replicate. lia. }
  rewrite u64_id by lia.
  destruct (memcpy_Ok data (q_vaddr (pk_req resp) - q_vaddr (rq_request r)) src
    (q_size (pk_req resp))) as (d & -> & Hl & _); [lia..|].
  exists (Some d), k, false. split_and!; try done; [by destruct r; cbn in *; subst|]. intros ? [= <-]. lia.
Qed.

(** the packet of a complete load has the collected bytes *)
Lemma burst_packet r k data : pk_response k = false → pkt_data r k → 0 < q_size (rq_request r) →
  Z.of_nat (length data) = q_size (rq_request r) →
  ∃ k', (if rq_isLoad r then dst ← bytesOf k; dst ← memcpy dst 0 data (q_size (rq_request r));
        Ok (setPacketData dst k) else Ok k) = Ok k' ∧ pk_response k' = false ∧ pkt_data r k'.
Proof.
  intros Hkr [Hkl Hks] Hsz Hd. destruct (rq_isLoad r) eqn:El; [|exists k; split_and!; [done..|]; unfold pkt_data; by rewrite El].
  destruct (Hkl eq_refl) as (dst & Hdst & Hdl2). unfold bytesOf. rewrite Hdst. cbn.
  destruct (memcpy_Ok dst 0 data (q_size (rq_request r))) as (d & -> & Hl2 & _); [lia..|].
  cbn. eexists. split; [done|]. split; [done|]. unfold pkt_data. rewrite El. split; [|done].
  intros _. exists d. split; [done|]. lia.
Qed.

Lemma retire_split_live r resp f : live r → rq_kind r = SplitDataRequest f → rq_state r ≠ Complete →
  0 < numInFlight r → response_ok r resp → ∃ r', retireSplit f r resp = Ok r' ∧ retired r r'.
Proof.
  intros Hl Hk Hnc Hfl Hresp. pose proof Hl as []. unfold retireSplit. rewrite lv_fault0.
  cbn [faultSet negb assert_ rbind].
  edestruct (retireData_live r resp f) as (od & k & sk & Hrd & Hod & Hkr & Hkd & Hsk); [done..|].
  unfold retired, numIssued, numInFlight, numTotal in *. rewrite Hk in *.
  destruct lv_kind0 as (Ht & Hps & Hll & Hdl). destruct lv_range0 as [a Ha]. pose proof Ha as [].
  destruct (Z.ltb_spec (numRetiredFragments f) (numTranslatedFragments f)); [|lia].
  cbn [assert_ rbind]. rewrite Hrd, u32_id by lia. cbn [rbind]. clear Hrd.
  unfold skipBurst, hasPacketsInMemSystem, answered, isComplete.
  cbn [rq_skipped rq_kind rq_state setKind numIssuedFragments numRetiredFragments].
  destruct (Z.eqb_spec (numRetiredFragments f + 1) (numTranslatedFragments f)) as [Heq|Hne].
  - destruct sk; cbn [andb].
    + rewrite (Hsk eq_refl), Heq, Z.eqb_refl. cbn [negb rq_packet]. unfold makeResponse, needsResponse. rewrite Hkr. cbn.
      eexists. split; [done|]. cbn. split; [split; try done; unfold isBarrier; cbn; by rewrite Hk|]. split_and!; try (done || lia).
      left. split_and!; [lia|done|]. eexists. split; [done|]. done.
    + cbn [rbind rq_skipped setState rq_state negb andb]. rewrite bool_decide_eq_true_2 by done. unfold finishBurst. cbn.
      set (data := match od with Some d => d | None => uninit (q_size (rq_request r)) end).
      assert (Z.of_nat (length data) = q_size (rq_request r)) as Hd.
      { unfold data. destruct od; [by apply Hod|]. unfold uninit. rewrite length_replicate. lia. }
      destruct (burst_packet r k data) as (k' & Hk' & Hkr' & Hkd'); [done..|].
      cbn in Hk'. rewrite Hk'. cbn [rbind]. unfold makeResponse, needsResponse. rewrite Hkr'. cbn.
      eexists. split; [done|]. cbn. split; [split; try done; unfold isBarrier; cbn; by rewrite Hk|]. split_and!; try (done || lia).
      left. split_and!; [lia|done|]. eexists. split; [done|]. done.
  - assert (sk && negb (negb (numIssuedFragments f =? numRetiredFragments f + 1)) = false) as ->.
    { destruct sk; [|done]. rewrite (Hsk eq_refl). destruct (Z.eqb_spec (numTranslatedFragments f) (numRetiredFragments f + 1)); [lia|done]. }
    cbn [rbind rq_skipped rq_state]. rewrite bool_decide_eq_false_2 by done. rewrite andb_false_r.
    eexists. split; [done|]. cbn. split; [split; try done; unfold isBarrier; cbn; by rewrite Hk|]. split_and!; try (done || lia). right.
    split_and!; [lia|done|]. split; unfold numIssued, numInFlight, numTotal; cbn; try (done || lia).
    + exists a. by apply (ranged_same r).
    + by exists k.
Qed.

Lemma retire_live r resp : live r → rq_state r ≠ Complete → 0 < numInFlight r → response_ok r resp →
  ∃ r', retireResponse r resp = Ok r' ∧ retired r r'.
Proof.
  intros Hl Hnc Hfl Hresp. unfold retireResponse. destruct (rq_kind r) as [fl sent|f| |] eqn:Hk.
  - eexists. split; [done|]. by eapply retire_single_live.
  - by eapply retire_split_live.
  - unfold response_ok in Hresp. by rewrite Hk in Hresp.
  - unfold response_ok in Hresp. by rewrite Hk in Hresp.
Qed.
End inv.
