(* ===== verification/LsqSteps.v ===== *)
(** * The operations of the load/store queue keep its invariant

    For each method of [Lsq]: from a state with the invariant it returns, no
    assertion fails, the invariant holds again, and instructions leave the
    queue in the order in which they entered it. *)
From stdpp Require Import gmap.
From S2P Require Import Prelude Buffers LVPT CVU PipeData LsqAddr LsqRequest Lsq LsqForward LsqInv.

Section steps.
Context `{I : Isa}.
Implicit Types (r : LSQRequest I) (s : LSQ I) (p : Ptr) (env : LsqEnv (I := I)).

(** ** Program order *)

(** The instructions of the pointers [l]. *)
Definition idsOf (H : gmap Z (LSQRequest I)) (l : list Ptr) : list InstId :=
  omap (λ p, (λ r, id (rq_inst r)) <$> H !! p) l.

(** The instructions in the queue, oldest first. *)
Definition order s : list InstId := idsOf (heap s) (queue (transfers s) ++ queue (requests s)).

Lemma idsOf_insert H p r r' l : H !! p = Some r → id (rq_inst r') = id (rq_inst r) →
  idsOf (<[p := r']> H) l = idsOf H l.
Proof.
  intros Hp Hid. unfold idsOf. induction l as [|q l IH]; [done|]. cbn. rewrite IH.
  destruct (decide (q = p)) as [->|Hq].
  - rewrite lookup_insert_eq, Hp. cbn. by rewrite Hid.
  - by rewrite lookup_insert_ne.
Qed.

Lemma order_keep s s' p r r' : heap s !! p = Some r → id (rq_inst r') = id (rq_inst r) →
  heap s' = <[p := r']> (heap s) →
  queue (transfers s') ++ queue (requests s') = queue (transfers s) ++ queue (requests s) →
  order s' = order s.
Proof. intros Hp Hid Hh Hq. unfold order. rewrite Hq, Hh. by eapply idsOf_insert. Qed.

(** ** Space in the queues *)

Lemma room_eq (q : Queue Ptr) : numReservedSlots q = 0 → 1 ≤ capacity q < 2 ^ 30 →
  Z.of_nat (length (queue q)) ≤ capacity q →
  Queue_unreservedRemainingSpace q = capacity q - Z.of_nat (length (queue q)).
Proof.
  intros H0 Hc Hl. rewrite unreserved_room; unfold queue_room; [lia|split; lia|lia].
Qed.

(** ** Where a request can be *)

Lemma fst_unique {A} (l : list (A * Ptr)) a b p : NoDup l.*2 → (a, p) ∈ l → (b, p) ∈ l → a = b.
Proof.
  intros Hnd [i Hi]%list_elem_of_lookup [j Hj]%list_elem_of_lookup.
  assert (i = j) as ->; [|congruence].
  apply (NoDup_lookup l.*2 i j p); rewrite ?list_lookup_fmap, ?Hi, ?Hj; done.
Qed.

Lemma place_unique s p pl pl' : Inv s → (pl, p) ∈ tagged s → (pl', p) ∈ tagged s → pl = pl'.
Proof. intros []. by apply fst_unique. Qed.

Lemma NoDup_R s : Inv s → NoDup (queue (requests s)).
Proof.
  intros []. unfold tagged in i_nodup. rewrite !fmap_app, <- !list_fmap_compose in i_nodup.
  apply NoDup_app in i_nodup as (Hnd & _ & _). by apply NoDup_fmap_1 in Hnd.
Qed.

(** Coverage looks at the thread and the request of a load only. *)
Lemma slotCoverage_load r load load' : id (rq_inst load') = id (rq_inst load) →
  rq_request load' = rq_request load → slotCoverage r load' = slotCoverage r load.
Proof. intros Hi Hq. unfold slotCoverage. by rewrite Hi, Hq. Qed.

(** ... and at whether a slot has a packet. *)
Lemma slotCoverage_slot r r' : id (rq_inst r') = id (rq_inst r) → rq_request r' = rq_request r →
  (is_Some (rq_packet r') ↔ is_Some (rq_packet r)) → ∀ load, slotCoverage r' load = slotCoverage r load.
Proof.
  intros Hi Hq Hp load. unfold slotCoverage. rewrite Hi, Hq.
  destruct (rq_packet r), (rq_packet r'); try done;
    exfalso; eapply is_Some_None; apply Hp; by eexists.
Qed.

Lemma clear_of_load s load load' : id (rq_inst load') = id (rq_inst load) →
  rq_request load' = rq_request load → clear_of s load → clear_of s load'.
Proof. intros Hi Hq Hc q r Hin Hr. rewrite (slotCoverage_load _ load) by done. by apply (Hc q). Qed.

(** No other request waits for a retry. *)
Definition others_idle s p : Prop := ∀ q r, q ≠ p → heap s !! q = Some r → retrying r = false.

Lemma running_idle s p : Inv s → mstate s = MemoryRunning → others_idle s p.
Proof. intros [] Hm q r _ Hr. by eapply no_retrying. Qed.

Lemma idle_retry s p r c q t sl nx lb rt ns aw (cf := cfg s) (cv := cvu s) : others_idle s p →
  retrying r = false →
  retry_ok (mkLSQ cf (<[p := r]> (heap s)) nx lb MemoryRunning q t sl c rt cv ns aw).
Proof.
  intros Hidle Hr. apply retry_running; [done|]. intros p' r' Hp'. cbn in Hp'.
  destruct (decide (p' = p)) as [->|Hne]; [rewrite lookup_insert_eq in Hp'; congruence|].
  rewrite lookup_insert_ne in Hp' by done. by eapply Hidle.
Qed.

(** ** Moving the head of [requests] to [transfers] *)

(** [p], now [r], moved; [d] more packets in memory *)
Definition transferred s p (R : list Ptr) r (d sends : Z) : LSQ I :=
  let c := counters s in
  mkLSQ (cfg s) (<[p := r]> (heap s)) (nextPtr s) (lastMemBarrier s) MemoryRunning
    (mkQueue R (numReservedSlots (requests s)) (capacity (requests s)))
    (mkQueue (queue (transfers s) ++ [p]) (numReservedSlots (transfers s)) (capacity (transfers s)))
    (slots s)
    (mkCounters (numUnissuedAccesses c) (numAccessesInMemorySystem c + d) (numAccessesInDTLB c)
       (numStoresInTransfers c + b2z (negb (rq_isLoad r))) (numAccessesIssuedToMemory c))
    (retryRequest s) (cvu s) sends (lsqAwake s).

Lemma move_eq s p r R : mstate s = MemoryRunning → heap s !! p = Some r → queue (requests s) = p :: R →
  numReservedSlots (transfers s) = 0 → Queue_unreservedRemainingSpace (transfers s) ≠ 0 →
  0 ≤ numStoresInTransfers (counters s) < 2 ^ 32 - 1 →
  moveFromRequestsToTransfers p s = Ok (tt, transferred s p R r 0 (numSends s)).
Proof.
  intros Hm Hp HR H0 Hroom Hn. unfold moveFromRequestsToTransfers, sbind, sget, sassert, slift.
  unfold Queue_empty, Queue_front, Queue_pop. rewrite HR. cbn [negb assert_ rbind].
  rewrite Z.eqb_refl. cbn [assert_ rbind].
  destruct (Z.eqb_spec (Queue_unreservedRemainingSpace (transfers s)) 0); [done|].
  cbn [negb assert_ rbind]. rewrite (deref_eq _ _ _ Hp).
  unfold transferred. rewrite insert_id by done. rewrite Z.add_0_r, <- Hm.
  destruct s as [cf H nx lb ms [q1 n1 c1] [q2 n2 c2] sl [cu cm cd cs ci] rt cv ns]. cbn in *.
  unfold smod, sret, upd_queues, upd_counters, Queue_push, Queue_freeReservation. cbn.
  rewrite H0. cbn. destruct (rq_isLoad r); cbn.
  - do 2 f_equal. f_equal. f_equal. lia.
  - unfold addStores. cbn. rewrite u32_id by lia. done.
Qed.

Lemma Inv_transferred s p r R r' d sends :
  Inv s → others_idle s p → queue (requests s) = p :: R →
  Z.of_nat (length (queue (transfers s))) < capacity (transfers s) →
  heap s !! p = Some r → rq_state r ≠ InTranslation →
  place_ok PT r' → id (rq_inst r') = id (rq_inst r) → rq_isLoad r' = rq_isLoad r →
  rq_issuedToMemory r' = rq_issuedToMemory r → inflight r' = inflight r + d →
  numAccessesInMemorySystem (counters s) + d ≤ inMemorySystemLimit (cfg s) →
  Inv (transferred s p R r' d sends) ∧ order (transferred s p R r' d sends) = order s.
Proof.
  intros Hinv Hm HR Hroom Hp Hst Hok Hid Hload Hiss Hd Hlim. pose proof Hinv as [].
  assert ((PR, p) ∈ tagged s) as Hin by (apply tagged_R; rewrite HR; by left).
  destruct (i_place _ _ Hin) as (r0 & Hr0 & Hok0 & Htid). simplify_eq.
  split.
  - apply (Inv_change s _ p (Some (PR, r)) (Some (PT, r')) (rest_of R (queue (transfers s)) (slots s))).
    + done.
    + split; [|done]. unfold tagged. rewrite HR. apply rest_R_head.
    + split; [apply rest_T_tail|]. cbn. by rewrite lookup_insert_eq.
    + done.
    + by split.
    + split; cbn; unfold flightIn, inTLB; rewrite ?Hload, ?Hiss, ?bool_decide_eq_false_2 by done; lia.
    + destruct i_roomy. rewrite HR in m_R. cbn in m_R. split; cbn; rewrite ?length_app; cbn; lia.
    + cbn. split; [done|]. rewrite Hid. split; [|done]. by apply i_fresh.
    + done.
    + apply idle_retry; [done|]. unfold place_ok in Hok. unfold retrying. by destruct (rq_state r').
    + pose proof (NoDup_R s Hinv) as Hnd. rewrite HR in Hnd. apply NoDup_cons in Hnd as [Hni _].
      apply (ahead_change s _ p); cbn; auto.
      * intros q Hq. by rewrite lookup_insert_ne.
      * done.
      * intros r0 Hs. by discriminate (place_unique s p PR PB Hinv Hin (proj2 (tagged_B s p) Hs)).
  - eapply order_keep; [done..|]. cbn. rewrite HR. by rewrite <- app_assoc.
Qed.

(** ** Changing a request in its queue *)

Definition changed s p r (c : Counters) (ms : MemoryState) (rt : option Ptr) (sends : Z) : LSQ I :=
  mkLSQ (cfg s) (<[p := r]> (heap s)) (nextPtr s) (lastMemBarrier s) ms (requests s) (transfers s)
    (slots s) c rt (cvu s) sends (lsqAwake s).

(** what must hold of a request in [requests] that has offered a packet *)
Definition started s p r : Prop :=
  begun r → head (queue (requests s)) = Some p
  ∧ (rq_isLoad r = true → numStoresInTransfers (counters s) = 0 ∧ clear_of s r).

Lemma started_same s p r r' : Inv s → p ∈ queue (requests s) → heap s !! p = Some r →
  id (rq_inst r') = id (rq_inst r) → rq_request r' = rq_request r → rq_isLoad r' = rq_isLoad r →
  (begun r' → begun r) → started s p r'.
Proof.
  intros [] Hin Hp Hid Hq Hl Hn. unfold started. rewrite Hl. intros Hi%Hn.
  destruct (i_ahead p r Hin Hp Hi) as [Hh Hc]. split; [done|]. intros E. destruct (Hc E) as [H0 Hcl].
  split; [done|]. by eapply clear_of_load.
Qed.

Lemma started_head s p r r' R : queue (requests s) = p :: R →
  id (rq_inst r') = id (rq_inst r) → rq_request r' = rq_request r → rq_isLoad r' = rq_isLoad r →
  (rq_isLoad r = true → numStoresInTransfers (counters s) = 0 ∧ clear_of s r) → started s p r'.
Proof.
  intros HR Hid Hq Hl Hc _. rewrite HR, Hl. split; [done|]. intros E. destruct (Hc E) as [H0 Hcl].
  split; [done|]. by eapply clear_of_load.
Qed.

Lemma started_none s p r : numIssued r = 0 → rq_state r ≠ RequestNeedsRetry → started s p r.
Proof. intros ? ? [?|?]; [lia|done]. Qed.

Lemma Inv_changed s p pl r r' c ms rt sends :
  Inv s → (pl, p) ∈ tagged s → heap s !! p = Some r → place_ok pl r' →
  id (rq_inst r') = id (rq_inst r) → rq_isLoad r' = rq_isLoad r →
  recounted s (changed s p r' c ms rt sends) (Some (pl, r)) (Some (pl, r')) →
  numAccessesInMemorySystem c ≤ inMemorySystemLimit (cfg s) →
  retry_ok (changed s p r' c ms rt sends) →
  (pl = PR → started s p r') → (pl = PB → ∀ load, slotCoverage r' load = slotCoverage r load) →
  Inv (changed s p r' c ms rt sends) ∧ order (changed s p r' c ms rt sends) = order s.
Proof.
  intros Hinv Hin Hp Hok Hid Hld Hc Hlim Hy Hstart Hslot. pose proof Hinv as [].
  destruct (i_place _ _ Hin) as (r0 & Hr0 & Hok0 & Htid). simplify_eq.
  destruct (tagged_at _ _ _ Hin) as [rest Hrest]. split.
  - apply (Inv_change s _ p (Some (pl, r)) (Some (pl, r')) rest); try done.
    + split; [exact Hrest|]. cbn. by rewrite lookup_insert_eq.
    + by destruct i_roomy.
    + split; [done|]. cbn. rewrite Hid. split; [|done]. by apply i_fresh.
    + assert (numStoresInTransfers c = numStoresInTransfers (counters s)) as Hns.
      { destruct Hc. cbn in rc_stores. rewrite rc_stores. unfold storeIn. rewrite Hld. lia. }
      assert (∀ q, q ≠ p → <[p:=r']> (heap s) !! q = heap s !! q) as Hne
        by (intros; by rewrite lookup_insert_ne).
      apply (ahead_change s _ p); cbn; rewrite ?Hns; auto.
      * intros r0 Hr0 HpR Hi. rewrite lookup_insert_eq in Hr0. injection Hr0 as <-.
        assert (pl = PR) as -> by (eapply place_unique; [done|done|by apply tagged_R]).
        destruct (Hstart eq_refl Hi) as [Hh Hcl]. split; [done|]. intros E.
        destruct (Hcl E) as [H0 Hco]. split; [done|]. intros q rq Hq Hrq. cbn in *.
        rewrite Hne in Hrq; [by eapply Hco|]. intros ->.
        by discriminate (place_unique s p PR PB Hinv Hin (proj2 (tagged_B s p) Hq)).
      * intros r0 HpB Hr0. rewrite lookup_insert_eq in Hr0. injection Hr0 as <-. right; right.
        split; [done|]. exists r. split; [done|]. apply Hslot.
        eapply place_unique; [done|done|by apply tagged_B].
  - by eapply order_keep.
Qed.

Lemma changed_id s p r : heap s !! p = Some r → mstate s = MemoryRunning →
  changed s p r (counters s) MemoryRunning (retryRequest s) (numSends s) = s.
Proof. intros Hp <-. unfold changed. rewrite insert_id by done. by destruct s. Qed.

Lemma clear_of_changed s p r' c ms rt sends load : Inv s → p ∈ queue (requests s) →
  clear_of s load → clear_of (changed s p r' c ms rt sends) load.
Proof.
  intros Hinv Hp Hc q rq Hq Hrq. cbn in *. rewrite lookup_insert_ne in Hrq; [by eapply Hc|].
  intros <-. by discriminate (place_unique s p PR PB Hinv (proj2 (tagged_R s p) Hp) (proj2 (tagged_B s p) Hq)).
Qed.

Lemma ranges_at s p pl r : Inv s → (pl, p) ∈ tagged s → heap s !! p = Some r → ranges s (Some (pl, r)).
Proof.
  intros Hinv Hin Hp. destruct (tagged_at _ _ _ Hin) as [rest Hrest].
  by apply (Inv_ranges s p _ rest).
Qed.

Lemma at_place s pl p r : Inv s → (pl, p) ∈ tagged s → heap s !! p = Some r → place_ok pl r.
Proof. intros [] Hin Hp. destruct (i_place _ _ Hin) as (r0 & ? & ? & _). by simplify_eq. Qed.

(** ** Skipping a transfer *)

Lemma T_room s : Inv s → Queue_unreservedRemainingSpace (transfers s)
  = capacity (transfers s) - Z.of_nat (length (queue (transfers s))).
Proof. intros []. destruct i_sized, i_roomy. by apply room_eq. Qed.

Definition moves (m : St (LSQ I) unit) s : Prop := wp m s (λ _ s', Inv s' ∧ order s' = order s).

(** [set] followed by a move: the request changes to [f r] and moves. *)
Lemma set_move s p r R r' f : Inv s → mstate s = MemoryRunning → queue (requests s) = p :: R →
  Queue_unreservedRemainingSpace (transfers s) ≠ 0 →
  heap s !! p = Some r → rq_state r ≠ InTranslation → f r = Ok r' →
  place_ok PT r' → id (rq_inst r') = id (rq_inst r) → rq_isLoad r' = rq_isLoad r →
  rq_issuedToMemory r' = rq_issuedToMemory r → inflight r' = inflight r →
  moves (do! update p f in moveFromRequestsToTransfers p) s.
Proof.
  intros Hinv Hm HR Hroom Hp Hst Hf Hok Hid Hl Hi Hfl. unfold moves, wp, sbind.
  rewrite (update_eq _ _ _ _ _ Hp Hf). pose proof Hinv as []. destruct i_sized.
  assert ((PR, p) ∈ tagged s) as Hin by (apply tagged_R; rewrite HR; by left).
  destruct (ranges_at s p PR r Hinv Hin Hp).
  eexists tt, _. split.
  { apply (move_eq _ _ r' R); cbn; [done|by rewrite lookup_insert_eq|done..|lia]. }
  replace (transferred (upd_heap <[p:=r']> s) p R r' 0 (numSends (upd_heap <[p:=r']> s)))
    with (transferred s p R r' 0 (numSends s)) by (unfold transferred; cbn; by rewrite insert_insert_eq).
  pose proof (T_room s Hinv). destruct i_roomy.
  apply (Inv_transferred s p r); try (done || lia). by apply running_idle.
Qed.

Lemma skipTransfer_moves s p r R : Inv s → mstate s = MemoryRunning → queue (requests s) = p :: R →
  Queue_unreservedRemainingSpace (transfers s) ≠ 0 →
  heap s !! p = Some r → rq_state r ≠ InTranslation → quiet r → moves (skipTransfer p) s.
Proof.
  intros Hinv Hm HR Hroom Hp Hst Hq.
  assert (moves (do! update p (λ r, Ok (setSkipped (setState Complete r))) in
    moveFromRequestsToTransfers p) s) as Hmv.
  { by eapply (set_move s p r R (setSkipped (setState Complete r))). }
  destruct Hmv as (a & s' & Heq & HP). exists a, s'. split; [|done].
  revert Heq. unfold skipTransfer, sbind. rewrite (set_eq _ _ r) by done.
  rewrite (set_eq _ _ (setState Complete r)) by (cbn; by rewrite lookup_insert_eq).
  rewrite (update_eq _ _ r _ (setSkipped (setState Complete r))) by done.
  replace (upd_heap <[p:=setSkipped (setState Complete r)]> (upd_heap <[p:=setState Complete r]> s))
    with (upd_heap <[p:=setSkipped (setState Complete r)]> s)
    by (unfold upd_heap; cbn; by rewrite insert_insert_eq). done.
Qed.

(** ** Sending from [requests] *)

Lemma live_setState st r : live r → live (setState st r).
Proof.
  intros []. split; try done. destruct lv_range as [a Ha]. exists a. by apply (ranged_same r).
Qed.

Lemma live_setIssued r : live r → live (setIssued r).
Proof.
  intros []. split; try done. destruct lv_range as [a Ha]. exists a. by apply (ranged_same r).
Qed.

Lemma canSend_inv s : canSendToMemorySystem s = true →
  mstate s = MemoryRunning ∧ numAccessesInMemorySystem (counters s) < inMemorySystemLimit (cfg s).
Proof.
  unfold canSendToMemorySystem. intros [Hm Hn]%andb_true_iff. apply bool_decide_eq_true in Hm.
  split; [done|lia].
Qed.

(** The request is refused: it waits for a retry. *)
Lemma Inv_refused s p pl r st : Inv s → others_idle s p →
  numAccessesInMemorySystem (counters s) < inMemorySystemLimit (cfg s) → (pl, p) ∈ tagged s →
  heap s !! p = Some r → place_ok pl (setState st r) → retrying (setState st r) = true →
  (st = RequestNeedsRetry → head (queue (requests s)) = Some p
     ∧ Z.of_nat (length (queue (transfers s))) < capacity (transfers s)) →
  rq_state r ≠ InTranslation → unissuedIn pl (setState st r) = unissuedIn pl r →
  (pl = PR → started s p (setState st r)) →
  Inv (refusedState s p (setState st r)) ∧ order (refusedState s p (setState st r)) = order s.
Proof.
  intros Hinv Hidle Hn Hin Hp Hok Hrt Hhead Hst Hun Hstart. pose proof Hinv as [].
  change (refusedState s p (setState st r))
    with (changed s p (setState st r) (counters s) MemoryNeedsRetry (Some p) (numSends s + 1)).
  apply (Inv_changed s p pl r); try done.
  - split; cbn [contr changed counters]; rewrite ?Hun; try lia.
    + unfold flightIn, inflight, numInFlight. cbn. lia.
    + unfold dtlbIn, inTLB. cbn [rq_state setState].
      rewrite !bool_decide_eq_false_2 by (done || by intros ->). destruct pl; lia.
    + unfold storeIn. cbn. lia.
    + unfold issuedIn. cbn. lia.
  - split.
    + intros q r1 Hq E. cbn in *. destruct (decide (q = p)) as [->|Hne]; [done|].
      rewrite lookup_insert_ne in Hq by done. by rewrite (Hidle q r1) in E.
    + intros _. exists p, (setState st r). cbn. rewrite lookup_insert_eq. split_and!; try done.
      unfold retrying in Hrt. cbn in Hrt. destruct st; try done; [left|by right].
      split; [done|]. by apply Hhead.
Qed.

(** a packet was accepted and the request stays where it is *)
Lemma Inv_sent s p pl r r' : Inv s → others_idle s p →
  numAccessesInMemorySystem (counters s) < inMemorySystemLimit (cfg s) → (pl, p) ∈ tagged s →
  heap s !! p = Some r → rq_state r ≠ InTranslation → rq_state r' ≠ InTranslation →
  place_ok pl r' → retrying r' = false → id (rq_inst r') = id (rq_inst r) →
  inflight r' = inflight r + 1 → rq_isLoad r' = rq_isLoad r →
  rq_issuedToMemory r' = rq_issuedToMemory r →
  (pl = PR → started s p r') → (pl = PB → ∀ load, slotCoverage r' load = slotCoverage r load) → ∀ c,
  c = mkCounters (numUnissuedAccesses (counters s) - unissuedIn pl r + unissuedIn pl r')
        (numAccessesInMemorySystem (counters s) + 1) (numAccessesInDTLB (counters s))
        (numStoresInTransfers (counters s)) (numAccessesIssuedToMemory (counters s)) →
  Inv (changed s p r' c MemoryRunning (retryRequest s) (numSends s + 1))
  ∧ order (changed s p r' c MemoryRunning (retryRequest s) (numSends s + 1)) = order s.
Proof.
  intros Hinv Hidle Hn Hin Hp Hst Hst' Hok Hrt Hid Hfl Hl Hi Hstart Hslot c ->. pose proof Hinv as [].
  apply (Inv_changed s p pl r); try done.
  - split; cbn [contr changed counters numUnissuedAccesses numAccessesInMemorySystem
      numAccessesInDTLB numStoresInTransfers numAccessesIssuedToMemory];
      unfold flightIn, dtlbIn, storeIn, issuedIn, inTLB;
      rewrite ?Hl, ?Hi, ?bool_decide_eq_false_2 by done; destruct pl; lia.
  - cbn. lia.
  - by apply idle_retry.
Qed.

Lemma stateSent_R r : rq_state r = Translated ∨ rq_state r = RequestIssuing →
  stateSent (rq_state r) = Ok RequestIssuing ∧ stateRefused (rq_state r) = Ok RequestNeedsRetry
  ∧ rq_state r ≠ InTranslation.
Proof. by intros [-> | ->]. Qed.

(** Sending the next packet of the head of [requests], put into the state [st]. *)
Lemma sendR env s p r R st : Inv s → others_idle s p →
  numAccessesInMemorySystem (counters s) < inMemorySystemLimit (cfg s) →
  queue (requests s) = p :: R → Queue_unreservedRemainingSpace (transfers s) ≠ 0 →
  heap s !! p = Some r → rq_state r ≠ InTranslation → st = Translated ∨ st = RequestIssuing →
  live r → numIssued r < numTotal r → nonlocal r →
  (rq_isLoad r = true → numStoresInTransfers (counters s) = 0 ∧ clear_of s r) → direct r = true →
  ∃ ret s2,
    tryToSend env p (changed s p (setState st r) (counters s) MemoryRunning (retryRequest s) (numSends s))
      = Ok (ret, s2)
    ∧ if (ret : bool) then
        (∃ r2, heap s2 !! p = Some r2 ∧ rq_state r2 = RequestIssuing)
        ∧ ∃ s3, moveFromRequestsToTransfers p s2 = Ok (tt, s3) ∧ Inv s3 ∧ order s3 = order s
            ∧ mstate s3 = MemoryRunning
      else Inv s2 ∧ order s2 = order s.
Proof.
  intros Hinv Hidle Hn HR Hroom Hp Hnt Hst Hl Hlt Hnl Hclear Hdir. pose proof Hinv as [].
  pose proof (lv_count r Hl) as Hcnt. pose proof (T_room s Hinv) as HT.
  assert ((PR, p) ∈ tagged s) as Hin by (apply tagged_R; rewrite HR; by left).
  destruct (ranges_at s p PR r Hinv Hin Hp). destruct i_sized, i_roomy.
  set (s1 := changed _ _ _ _ _ _ _). set (r0 := setState st r) in *.
  destruct (step_live r0 (live_setState _ _ Hl) Hlt)
    as (r1 & Hstep & (k & ->) & Hl1 & Hn1 & Hf1 & Ht1 & Hsa).
  destruct (tryToSend_live env s1 p r0 RequestIssuing RequestNeedsRetry) as (r1 & Hstep' & ->); try done.
  { unfold canSendToMemorySystem. cbn. by apply Z.ltb_lt. }
  { cbn. by rewrite lookup_insert_eq. } { by apply live_setState. }
  { by destruct Hst as [-> | ->]. } { by destruct Hst as [-> | ->]. }
  rewrite Hstep in Hstep'. injection Hstep' as <-.
  set (r' := setState RequestIssuing (setKind k r0)) in *.
  assert (live r') as Hl' by by apply live_setState.
  assert (numIssued r' = numIssued r + 1 ∧ numTotal r' = numTotal r) as [HnI HnT] by done.
  assert (inflight r' = inflight r + 1) as Hfl.
  { unfold inflight, nonlocal in *. cbn. rewrite Hnl. exact Hf1. }
  destruct (accept env (numSends s1)).
  - rewrite Hsa. eexists _, _. split; [done|].
    replace (sentState s1 p r') with (changed s p r' (addInMemory 1 (counters s)) MemoryRunning
      (retryRequest s) (numSends s + 1)) by (unfold changed, sentState; cbn; by rewrite insert_insert_eq).
    destruct (Z.eqb_spec (numIssued r0 + 1) (numTotal r0)).
    + split; [exists r'; cbn; by rewrite lookup_insert_eq|]. eexists. split.
      { apply (move_eq _ _ r' R); cbn; [done|by rewrite lookup_insert_eq|done..|lia]. }
      replace (transferred _ _ _ _ _ _) with (transferred s p R r' 1 (numSends s + 1)).
      2:{ unfold transferred. cbn. rewrite insert_insert_eq. do 2 f_equal. rewrite u32_id by lia. lia. }
      destruct (Inv_transferred s p r R r' 1 (numSends s + 1)); try (done || lia).
      split; [done|]. split; [|done]. rewrite HnI, HnT. done.
    + apply (Inv_sent s p PR r r'); try done.
      * split; [done|]. rewrite HnI, HnT. change (numIssued r0) with (numIssued r) in *.
        change (numTotal r0) with (numTotal r) in *. split; [lia|done].
      * intros _. by apply (started_head s p r _ R).
      * cbn. unfold addInMemory. rewrite u32_id by lia. f_equal. lia.
  - eexists _, _. split; [done|].
    replace (refusedState s1 p (setState RequestNeedsRetry r0))
      with (refusedState s p (setState RequestNeedsRetry r))
      by (unfold refusedState; cbn; by rewrite insert_insert_eq).
    apply (Inv_refused s p PR r RequestNeedsRetry); try done.
    + split_and!; [by apply live_setState|done..].
    + intros _. rewrite HR. split; [done|lia].
    + intros _. by apply (started_head s p r _ R).
Qed.

Lemma sendR_nonlocal env s p r R : Inv s → canSendToMemorySystem s = true →
  queue (requests s) = p :: R → Queue_unreservedRemainingSpace (transfers s) ≠ 0 →
  heap s !! p = Some r → rq_state r = Translated ∨ rq_state r = RequestIssuing →
  live r → numIssued r < numTotal r → nonlocal r →
  (rq_isLoad r = true → numStoresInTransfers (counters s) = 0 ∧ clear_of s r) →
  direct r = true →
  moves (let! ret := tryToSend env p in
         if ret then moveFromRequestsToTransfers p else sret tt) s.
Proof.
  intros Hinv Hcan HR Hroom Hp Hst Hl Hlt Hnl Hclear Hdir. destruct (canSend_inv s Hcan) as [Hm Hn].
  destruct (stateSent_R r Hst) as (_ & _ & Hs3).
  destruct (sendR env s p r R (rq_state r) Hinv (running_idle s p Hinv Hm)) as (ret & s2 & Heq & Hret);
    try done.
  replace (setState (rq_state r) r) with r in Heq by by destruct r. rewrite changed_id in Heq by done.
  apply wp_bind. exists ret, s2. split; [done|]. destruct ret; [|by apply wp_ret].
  destruct Hret as (_ & s3 & ? & ? & ? & _). by exists tt, s3.
Qed.

(** a local access sends the head packet nowhere *)
Lemma local_step env r : live r → numIssued r < numTotal r →
  ∃ r1 r2, accessLocally env r = Ok r1 ∧ stepToNextPacket r1 = Ok r2 ∧ same_request r r2
    ∧ numIssued r2 = numIssued r + 1 ∧ numTotal r2 = numTotal r
    ∧ sentAllPackets r2 = (numIssued r + 1 =? numTotal r)
    ∧ (numIssued r + 1 < numTotal r → live r2).
Proof.
  intros Hl Hlt. pose proof Hl as []. unfold accessLocally.
  unfold numIssued, numInFlight, numTotal, sentAllPackets in *.
  destruct (rq_kind r) as [fl sent|f| |] eqn:Hk; [| |done|done].
  - destruct sent; [cbn in Hlt; lia|]. destruct lv_packet as (k & -> & _).
    eexists _, _. split; [done|]. unfold stepToNextPacket. cbn [rq_kind setPacket]. rewrite Hk.
    split; [done|]. cbn. split; [split; try done; unfold isBarrier; cbn; by rewrite Hk|]. split_and!; done || lia.
  - destruct lv_kind as (Ht & Hps & Hdl).
    destruct (vget_lt (fragmentPackets f) (numIssuedFragments f)) as [k ->]; [lia|]. cbn [rbind].
    rewrite vset_lt by lia. cbn [rbind]. eexists _, _. split; [done|]. cbn.
    destruct (Z.ltb_spec (numIssuedFragments f) (numTranslatedFragments f)); [|lia]. cbn.
    split; [done|]. rewrite u32_id by lia. split; [split; try done; unfold isBarrier; cbn; by rewrite Hk|]. split_and!; try done.
    intros _. split; unfold numIssued, numInFlight, numTotal; cbn; rewrite ?length_insert; try (done || lia).
    { intros Hs. specialize (lv_skip Hs). lia. }
    destruct lv_range as [a Ha]. exists a. by apply (ranged_same r).
Qed.

Lemma sendR_local env s p r R : Inv s → canSendToMemorySystem s = true →
  queue (requests s) = p :: R → Queue_unreservedRemainingSpace (transfers s) ≠ 0 →
  heap s !! p = Some r → rq_state r = Translated ∨ rq_state r = RequestIssuing →
  live r → numIssued r < numTotal r → q_localAccess (rq_request r) = true →
  (rq_isLoad r = true → numStoresInTransfers (counters s) = 0 ∧ clear_of s r) →
  direct r = true →
  moves (let! ret := tryToSend env p in
         if ret then moveFromRequestsToTransfers p else sret tt) s.
Proof.
  intros Hinv Hcan HR Hroom Hp Hst Hl Hlt Hloc Hclear Hdir. pose proof Hinv as [].
  pose proof (lv_count r Hl) as Hcnt. pose proof (T_room s Hinv) as HT.
  destruct (canSend_inv s Hcan) as [Hm Hn]. destruct (stateSent_R r Hst) as (_ & _ & Hs3).
  assert ((PR, p) ∈ tagged s) as Hin by (apply tagged_R; rewrite HR; by left).
  destruct (ranges_at s p PR r Hinv Hin Hp). destruct i_sized, i_roomy.
  destruct (local_step env r Hl Hlt) as (r1 & r2 & H1 & H2 & [] & Hn2 & Ht2 & Hsa & Hl2).
  destruct (headPacket_live r Hl Hlt) as [hp Hhp].
  assert (tryToSend env p s = Ok (sentAllPackets r2,
    upd_heap <[p := setState (if sentAllPackets r2 then Complete else RequestIssuing) r2]> s)) as Heq.
  { unfold tryToSend, sbind, sget, sret. rewrite Hcan. cbn [negb].
    rewrite (deref_eq _ _ _ Hp). unfold slift. rewrite Hhp. cbn [rbind]. rewrite Hloc.
    rewrite (update_eq _ _ r _ r1) by done.
    rewrite (update_eq _ _ r1 _ r2) by (done || (cbn; by rewrite lookup_insert_eq)).
    rewrite (deref_eq _ _ r2) by (cbn; by rewrite lookup_insert_eq).
    rewrite (set_eq _ _ r2) by (cbn; by rewrite lookup_insert_eq).
    unfold upd_heap. cbn. by rewrite !insert_insert_eq. }
  unfold moves, wp, sbind. rewrite Heq, Hsa.
  assert (∀ st, inflight (setState st r2) = inflight r) as Hfl.
  { intros st. unfold inflight. cbn. by rewrite sr_req, Hloc. }
  destruct (Z.eqb_spec (numIssued r + 1) (numTotal r)).
  - eexists tt, _. split.
    { apply (move_eq _ _ (setState Complete r2) R); cbn; [done|by rewrite lookup_insert_eq|done..|lia]. }
    replace (transferred _ _ _ _ _ _) with (transferred s p R (setState Complete r2) 0 (numSends s))
      by (unfold transferred; cbn; by rewrite insert_insert_eq).
    apply (Inv_transferred s p r); try (done || lia).
    + by apply running_idle.
    + unfold place_ok, quiet. cbn [rq_state setState]. rewrite Hfl. unfold inflight. by rewrite Hloc.
    + cbn. by rewrite sr_inst.
    + rewrite Hfl. lia.
  - eexists tt, _. split; [done|].
    change (upd_heap _ s) with (changed s p (setState RequestIssuing r2) (counters s) (mstate s)
      (retryRequest s) (numSends s)).
    apply (Inv_changed s p PR r); try done.
    + split; [apply live_setState, Hl2; lia|].
      unfold numIssued, numTotal, direct in *. cbn. rewrite sr_load, sr_req. split; [lia|done].
    + cbn. by rewrite sr_inst.
    + split; cbn [contr changed counters]; unfold flightIn, dtlbIn, storeIn, issuedIn, inTLB, unissuedIn;
        rewrite ?Hfl, ?bool_decide_eq_false_2 by done; cbn; rewrite ?sr_issued; lia.
    + eapply (retry_running_change s _ p (Some (setState RequestIssuing r2))); try done.
      by intros ? [= <-].
    + intros _. apply (started_head s p r _ R); cbn; try done. by rewrite sr_inst.
Qed.

Lemma sendR_moves env s p r R : Inv s → canSendToMemorySystem s = true →
  queue (requests s) = p :: R → Queue_unreservedRemainingSpace (transfers s) ≠ 0 →
  heap s !! p = Some r → rq_state r = Translated ∨ rq_state r = RequestIssuing →
  live r → numIssued r < numTotal r →
  (rq_isLoad r = true → numStoresInTransfers (counters s) = 0 ∧ clear_of s r) →
  direct r = true →
  moves (let! ret := tryToSend env p in
         if ret then moveFromRequestsToTransfers p else sret tt) s.
Proof.
  intros. destruct (q_localAccess (rq_request r)) eqn:E;
    [by eapply sendR_local|by eapply sendR_nonlocal].
Qed.

(** ** [tryToSendToTransfers] *)

(** the request at the head of [requests], ready to be sent *)
Record ready s p r (R : list Ptr) : Prop := {
  rd_head : queue (requests s) = p :: R;
  rd_room : Queue_unreservedRemainingSpace (transfers s) ≠ 0;
  rd_run : mstate s = MemoryRunning;
  rd_heap : heap s !! p = Some r;
  rd_state : rq_state r = Translated ∨ rq_state r = RequestIssuing;
  rd_live : live r;
  rd_left : numIssued r < numTotal r;
  rd_direct : direct r = true;
  rd_clear : rq_isLoad r = true → numStoresInTransfers (counters s) = 0 ∧ clear_of s r;
}.

Lemma issueTransfer_true env s p r R bufferable : Inv s → ready s p r R →
  moves (issueTransfer env p bufferable true) s.
Proof.
  intros Hinv [rd_h rd_r rd_ru rd_he rd_s rd_l rd_le rd_d rd_c]. unfold moves, issueTransfer. apply wp_bind, wp_get.
  destruct (canSendToMemorySystem s) eqn:Hcan; cbn [negb]; [|by apply wp_ret].
  apply wp_bind. exists r, s. split; [by apply deref_eq|].
  destruct (negb bufferable && negb (rq_issuedToMemory r)) eqn:E.
  2:{ apply wp_bind, wp_ret. by apply (sendR_moves env s p r R). }
  apply andb_true_iff in E as [_ Ei%negb_true_iff]. apply wp_bind.
  assert ((PR, p) ∈ tagged s) as Hin by (apply tagged_R; rewrite rd_h; by left).
  destruct (ranges_at s p PR r Hinv Hin rd_he). destruct (stateSent_R r rd_s) as (_ & _ & Hs3).
  set (s1 := changed s p (setIssued r) (addIssued 1 (counters s)) (mstate s) (retryRequest s) (numSends s)).
  exists tt, s1. split; [unfold sbind, smod; by rewrite (set_eq _ _ r) by done|].
  assert (Inv s1 ∧ order s1 = order s) as [Hinv1 Hord].
  { apply (Inv_changed s p PR r); try done.
    - pose proof (at_place s PR p r Hinv Hin rd_he) as Hok. unfold place_ok in *. cbn [rq_state setIssued].
      destruct rd_s as [Hs|Hs]; rewrite Hs in *.
      + destruct Hok as [Hok|[Hok ?]]; [left; exact Hok|right; split; [by apply live_setIssued|done]].
      + destruct Hok as [Hok ?]. split; [by apply live_setIssued|done].
    - split; cbn [contr changed counters addIssued numUnissuedAccesses numAccessesInMemorySystem
        numAccessesInDTLB numStoresInTransfers numAccessesIssuedToMemory];
        unfold flightIn, inflight, numInFlight, dtlbIn, storeIn, issuedIn, inTLB, unissuedIn; cbn; try lia.
      rewrite Ei. cbn in *. rewrite Ei in *. cbn in *. rewrite u32_id by lia. lia.
    - by destruct Hinv.
    - destruct Hinv. eapply (retry_running_change s _ p (Some (setIssued r))); try done.
      intros ? [= <-]. unfold retrying. cbn. by destruct rd_s as [-> | ->].
    - intros _. by apply (started_head s p r _ R). }
  eapply wp_conseq; [apply (sendR_moves env s1 p (setIssued r) R); try done|].
  - unfold s1. cbn. by rewrite lookup_insert_eq.
  - by apply live_setIssued.
  - intros E. destruct (rd_c E) as [H0 Hcl]. split; [done|].
    apply clear_of_changed; [done|rewrite rd_h; by left|]. by eapply clear_of_load.
  - cbn. intros _ s' [? Ho]. split; [done|congruence].
Qed.

(** ** Forwarding in a state with the invariant *)

Lemma live_slot_ok r : live r → rq_isLoad r = false → slot_ok r.
Proof.
  intros [] Hl. split; [done|done|]. intros k Hk Hcm. destruct lv_packet as (k' & Hk' & _ & _ & Hd).
  simplify_eq. auto.
Qed.

Lemma Inv_slots_ok s : Inv s → slots_ok s (slots s).
Proof.
  intros Hinv. pose proof Hinv as []. apply Forall_forall. intros p Hp%tagged_B.
  destruct (i_place _ _ Hp) as (r & Hr & Hok & _). exists r. split; [done|]. intros Hpk.
  unfold place_ok in Hok. destruct (rq_state r); try done; destruct Hok as (? & ? & Ho);
    try (by apply live_slot_ok; [|apply Ho]). auto.
Qed.

(** The search returns, and what it did not find does not overlap. *)
Lemma search_total s r a l k : ranged r a → slots_ok s l →
  ∃ cov i, forwardSearch r (rev l) k s = Ok ((cov, i), s)
    ∧ (cov = NoAddrRangeCoverage → ∀ q rq, q ∈ l → heap s !! q = Some rq →
         slotCoverage rq r = Ok NoAddrRangeCoverage)
    ∧ (cov ≠ NoAddrRangeCoverage → ∃ q rq, q ∈ l ∧ heap s !! q = Some rq ∧ slotCoverage rq r = Ok cov).
Proof.
  intros Ha Hs. revert k. induction l as [|p l IH] using rev_ind; intros k.
  { eexists _, _. split; [done|]. split; [|done]. intros _ q rq Hq. by apply elem_of_nil in Hq. }
  apply Forall_app in Hs as [Hs (rp & Hp & Hok)%Forall_singleton].
  rewrite rev_app_distr. cbn [rev app forwardSearch]. unfold sbind at 1. rewrite (deref_eq _ _ _ Hp).
  assert (∃ cov, slotCoverage rp r = Ok cov) as [cov Hcov].
  { rewrite slotCoverage_forwardable. destruct (forwardable _ rp) eqn:Hf; [|by eexists].
    destruct (Hok (forwardable_packet _ _ Hf)) as [(b & []) _ _]. destruct Ha as [Hpa _ _ _].
    unfold containsAddrRangeOf, getPaddr. rewrite rg_paddr, Hpa. by eexists. }
  unfold sbind at 1, slift. rewrite Hcov. cbn [rbind].
  destruct (decide (cov = NoAddrRangeCoverage)) as [->|Hne].
  - destruct (IH Hs (k - 1)) as (c & i & Hrun & H0 & H1). exists c, i. split; [done|]. split.
    + intros Hc q rq [Hq| ->%list_elem_of_singleton]%elem_of_app Hrq; [by eapply H0|congruence].
    + intros Hc. destruct (H1 Hc) as (q & rq & Hq & ? & ?). exists q, rq.
      split_and!; try done. apply elem_of_app. by left.
  - exists cov, k. split; [done|]. split; [done|]. intros _. exists p, rp. split_and!; try done.
    apply elem_of_app. right. by apply list_elem_of_singleton.
Qed.

(** A request that has sent nothing has nothing in flight. *)
Lemma live_quiet r : live r → numIssued r = 0 → quiet r.
Proof. intros [] H0. unfold quiet, inflight. destruct (q_localAccess _); lia. Qed.

(** [set p (setState Complete)] and a move *)
Lemma issueTransfer_false env s p r R bufferable : Inv s → mstate s = MemoryRunning →
  queue (requests s) = p :: R → Queue_unreservedRemainingSpace (transfers s) ≠ 0 →
  heap s !! p = Some r → rq_state r ≠ InTranslation → quiet r →
  moves (issueTransfer env p bufferable false) s.
Proof.
  intros Hinv Hm HR Hroom Hp Hst Hq. unfold issueTransfer.
  by apply (set_move s p r R (setState Complete r)).
Qed.

(** Full coverage: the load takes its data from the store buffer. *)
Lemma forward_moves env s p r R a dst k bufferable i sp rs d : Inv s → mstate s = MemoryRunning →
  queue (requests s) = p :: R → Queue_unreservedRemainingSpace (transfers s) ≠ 0 →
  heap s !! p = Some r → rq_state r ≠ InTranslation → quiet r →
  load_ok r a dst k → pk_response k = false →
  0 ≤ i → slots s !! Z.to_nat i = Some sp → heap s !! sp = Some rs →
  forwardBytes rs r = Ok (setPacket (Some (setPacketData d k)) r) →
  moves (do! forwardStoreData p i in
         do! update p (λ r, match rq_packet r with
                            | Some k => k ← makeResponse k; Ok (setPacket (Some k) r)
                            | None => Stop NullDeref
                            end) in
         issueTransfer env p bufferable false) s.
Proof.
  intros Hinv Hm HR Hroom Hp Hst Hq [] Hkr Hi Hsp Hrs Hfw.
  set (r' := setState Complete (setPacket
    (Some (mkPacket (pk_req k) (pk_write k) (Some d) (pk_error k) true)) r)).
  assert (moves (do! update p (λ _, Ok r') in moveFromRequestsToTransfers p) s) as Hmv
    by by apply (set_move s p r R r').
  destruct Hmv as (u & s' & Heq & HP). exists u, s'. split; [|done]. revert Heq.
  unfold issueTransfer, set, sbind. rewrite (update_eq s p r _ r') by done.
  assert (vget (slots s) i = Ok sp) as Hv by by apply vget_Ok.
  pose proof (vget_bound _ _ _ Hv).
  assert (forwardStoreData p i s = Ok (tt, upd_heap <[p := setPacket (Some (setPacketData d k)) r]> s)) as ->.
  { unfold forwardStoreData, sbind, sget, sassert, slift.
    destruct (Z.ltb_spec i (Z.of_nat (length (slots s)))); [|lia]. cbn [assert_ rbind].
    rewrite Hv. cbn [rbind]. rewrite (deref_eq _ _ _ Hrs). by apply (update_eq _ _ r). }
  rewrite (update_eq _ _ (setPacket (Some (setPacketData d k)) r) _ (setPacket
    (Some (mkPacket (pk_req k) (pk_write k) (Some d) (pk_error k) true)) r)).
  2,3: cbn; first [by rewrite lookup_insert_eq | unfold makeResponse, needsResponse; cbn; by rewrite Hkr].
  rewrite (update_eq _ _ (setPacket
    (Some (mkPacket (pk_req k) (pk_write k) (Some d) (pk_error k) true)) r) _ r')
    by (done || (cbn; by rewrite lookup_insert_eq)).
  unfold upd_heap. cbn. by rewrite !insert_insert_eq.
Qed.

(** the head of [requests], without the knowledge about stores *)
Record waiting s p r (R : list Ptr) : Prop := {
  wt_head : queue (requests s) = p :: R;
  wt_room : Queue_unreservedRemainingSpace (transfers s) ≠ 0;
  wt_run : mstate s = MemoryRunning;
  wt_heap : heap s !! p = Some r;
  wt_state : rq_state r = Translated ∨ rq_state r = RequestIssuing;
  wt_live : live r;
  wt_left : numIssued r < numTotal r;
  wt_direct : direct r = true;
}.

Lemma waiting_ready s p r R : waiting s p r R →
  (rq_isLoad r = true → numStoresInTransfers (counters s) = 0 ∧ clear_of s r) → ready s p r R.
Proof. intros []. by split. Qed.

(** A load that overlaps a buffered store has sent nothing. *)
Lemma overlap_quiet s p r R q rq cov : Inv s → waiting s p r R → rq_isLoad r = true →
  q ∈ slots s → heap s !! q = Some rq → slotCoverage rq r = Ok cov → cov ≠ NoAddrRangeCoverage →
  quiet r.
Proof.
  intros [] [Hh _ _ Hp _ Hl _ _] Hld Hq Hrq Hc Hne. apply live_quiet; [done|].
  destruct (decide (0 < numIssued r)) as [Hi|]; [|destruct Hl; lia].
  destruct (i_ahead p r) as [_ Hcl]; [rewrite Hh; by left|done|by left|].
  destruct (Hcl Hld) as [_ Hco]. rewrite (Hco q rq Hq Hrq) in Hc. congruence.
Qed.

Lemma accessOrForward_load env s p r R bufferable : Inv s → waiting s p r R → rq_isLoad r = true →
  numStoresInTransfers (counters s) = 0 → llsc (q_flags (rq_request r)) = false →
  moves (accessOrForward env p r bufferable) s.
Proof.
  intros Hinv Hw Hld H0 Hll. pose proof Hw as [Hh Hroom Hrun Hp Hst Hl Hlt Hdir].
  unfold accessOrForward. rewrite Hll, Hld. cbn [negb].
  destruct (lv_range _ Hl) as [a Ha]. destruct (lv_packet _ Hl) as (k & Hk & Hkr & Hkd & _).
  destruct (Hkd Hld) as (dst & Hdst & Hdl).
  assert (load_ok r a dst k) as Hload by by split.
  destruct (search_total s r a (slots s) (Z.of_nat (length (slots s)) - 1) Ha (Inv_slots_ok s Hinv))
    as (cov & i & Hrun1 & Hno & Hsome).
  destruct (forwardSearch_spec s r a dst k (λ _, 0) (slots s) Hload (Inv_slots_ok s Hinv))
    as (cov' & i' & Hrun2 & Hspec).
  rewrite Hrun1 in Hrun2. injection Hrun2 as <- <-.
  unfold moves. apply wp_bind. exists (cov, i), s. split; [exact Hrun1|]. cbn [fst snd].
  destruct (stateSent_R r Hst) as (_ & _ & Hs3).
  destruct cov.
  - by apply wp_ret.
  - destruct Hspec as (sp & rs & d & Hi & Hsp & Hrs & Hfw & _).
    destruct (Hsome ltac:(done)) as (q & rq & Hq & Hrq & Hc).
    apply (forward_moves env s p r R a dst k bufferable i sp rs d); try done.
    by eapply overlap_quiet.
  - apply (issueTransfer_true env s p r R); [done|]. apply waiting_ready; [done|]. intros _.
    split; [done|]. intros q rq Hq Hrq. by eapply Hno.
Qed.

Lemma accessOrForward_moves env s p r R bufferable : Inv s → waiting s p r R →
  (rq_isLoad r = true → numStoresInTransfers (counters s) = 0) →
  (llsc (q_flags (rq_request r)) = true → clear_of s r) →
  moves (accessOrForward env p r bufferable) s.
Proof.
  intros Hinv Hw H0 Hll. pose proof Hw as [Hh Hroom Hrun Hp Hst Hl Hlt Hdir].
  destruct (stateSent_R r Hst) as (_ & _ & Hs3).
  destruct (llsc (q_flags (rq_request r))) eqn:El; [|destruct (rq_isLoad r) eqn:Eld].
  - unfold accessOrForward. rewrite El. cbn [negb]. unfold moves. apply wp_bind, wp_get.
    destruct (canSendToMemorySystem s); cbn [negb]; [|by apply wp_ret].
    assert (ready s p r R) by (apply waiting_ready; auto).
    destruct (rq_isLoad r); [by eapply issueTransfer_true|].
    destruct (lockedWrite env); [by eapply issueTransfer_true|].
    apply (issueTransfer_false env s p r R); try done. apply live_quiet; [done|].
    destruct Hl. unfold numIssued, numTotal in *.
    destruct (rq_kind r) as [fl sent|f| |]; [destruct sent; cbn in *; lia| |done|done].
    destruct lv_kind as (_ & _ & ? & _). congruence.
  - by apply (accessOrForward_load env s p r R); auto.
  - unfold accessOrForward. rewrite El, Eld. cbn [negb]. apply (issueTransfer_true env s p r R); [done|].
    apply waiting_ready; [done|]. by rewrite Eld.
Qed.

Lemma sendTranslated_moves env s p r R : Inv s → queue (requests s) = p :: R →
  Queue_unreservedRemainingSpace (transfers s) ≠ 0 → mstate s = MemoryRunning →
  heap s !! p = Some r → rq_state r = Translated ∨ rq_state r = RequestIssuing →
  faultSet (translationFault (ex (rq_inst r))) = false → moves (sendTranslated env p r) s.
Proof.
  intros Hinv Hh Hroom Hrun Hp Hst Hfault.
  destruct (stateSent_R r Hst) as (_ & _ & Hs3).
  assert (live r ∧ numIssued r < numTotal r ∧ (numIssued r = 0 ∨ direct r = true)) as (Hl & Hlt & Hdir).
  { pose proof (at_place s PR p r Hinv (proj2 (tagged_R s p) ltac:(rewrite Hh; by left)) Hp) as Hok.
    unfold place_ok in Hok. destruct Hst as [E|E]; rewrite E in Hok.
    - destruct Hok as [[? _]|[Hl H0]]; [congruence|]. pose proof Hl as [].
      split_and!; [done| |by left]. unfold numTotal. destruct (rq_kind r); [lia|lia|done|done].
    - destruct Hok as (? & ? & ?). split_and!; auto; lia. }
  unfold sendTranslated. set (buf := isBufferable _). unfold moves. apply wp_bind, wp_get.
  destruct (rq_isLoad r && negb (numStoresInTransfers (counters s) =? 0)) eqn:E1; [by apply wp_ret|].
  assert (rq_isLoad r = true → numStoresInTransfers (counters s) = 0) as H0.
  { intros E. rewrite E in E1. cbn in E1. destruct (Z.eqb_spec (numStoresInTransfers (counters s)) 0); done. }
  destruct (negb (rq_isLoad r) && buf && negb (q_localAccess (rq_request r))) eqn:E2.
  { apply andb_true_iff in E2 as [[E2%negb_true_iff E3]%andb_true_iff E4%negb_true_iff].
    assert (numIssued r = 0) as Hi0.
    { destruct Hdir as [?|Hd]; [done|]. unfold direct in Hd. fold buf in Hd. by rewrite E2, E3, E4 in Hd. }
    apply (set_move s p r R (setState StoreToStoreBuffer r)); try done.
    split_and!; [by apply live_setState|done..]. }
  assert (waiting s p r R) as Hw.
  { split; try done. destruct Hdir as [_|?]; [|done]. unfold direct. fold buf.
    by destruct (rq_isLoad r), buf, (q_localAccess (rq_request r)). }
  destruct (((negb (rq_isLoad r) && llsc _) || release _) && _); [by apply wp_ret|].
  destruct buf eqn:Eb; cbn [negb].
  { apply (accessOrForward_moves env s p r R); try done. intros Ell. exfalso. revert Eb.
    unfold buf, isBufferable. rewrite Ell. by rewrite orb_true_r. }
  destruct (instIsHeadInst env (rq_inst r)); cbn [negb]; [|by apply wp_ret].
  destruct (lv_range _ Hl) as [a Ha].
  destruct (search_total s r a (slots s) (Z.of_nat (length (slots s)) - 1) Ha (Inv_slots_ok s Hinv))
    as (cov & i & Hrun1 & Hno & Hsome).
  apply wp_bind. exists (cov, i), s. split; [exact Hrun1|]. cbn [fst].
  destruct (decide (cov = NoAddrRangeCoverage)) as [->|]; [|by apply wp_ret].
  apply (accessOrForward_moves env s p r R); try done. intros _ q rq Hq Hrq. by eapply Hno.
Qed.

(** [tryToSendToTransfers] on any request in the queue *)
Lemma tryToSendToTransfers_moves env s p : Inv s → p ∈ queue (requests s) →
  moves (tryToSendToTransfers env p) s.
Proof.
  intros Hinv Hin. pose proof Hinv as []. unfold tryToSendToTransfers, moves. apply wp_bind, wp_get.
  case_bool_decide as Hm; [by apply wp_ret|].
  assert (mstate s = MemoryRunning) as Hrun by by destruct (mstate s).
  destruct (i_place PR p) as (r & Hp & Hok & _); [by apply tagged_R|].
  pose proof (no_retrying s p r i_retry Hrun Hp) as Hnr.
  apply wp_bind. exists r, s. split; [by apply deref_eq|].
  case_bool_decide as Hst; [by apply wp_ret|]. apply wp_bind, wp_assert.
  { unfold place_ok in Hok. unfold retrying in Hnr. by destruct (rq_state r). }
  case_bool_decide as Hh; cbn [negb]; [|by apply wp_ret].
  destruct (queue (requests s)) as [|p' R] eqn:HR; [done|]. cbn in Hh. injection Hh as ->.
  destruct (Z.eqb_spec (Queue_unreservedRemainingSpace (transfers s)) 0) as [|Hroom]; [by apply wp_ret|].
  destruct (isComplete r || bool_decide (rq_state r = Failed)) eqn:Ec.
  { apply (skipTransfer_moves s p r R); try done. unfold isComplete in Ec.
    apply orb_true_iff in Ec as [E%bool_decide_eq_true|E%bool_decide_eq_true];
      unfold place_ok in Hok; by rewrite E in Hok. }
  apply orb_false_iff in Ec as [E1%bool_decide_eq_false E2%bool_decide_eq_false].
  destruct (instIsRightStream env (rq_inst r)); cbn [negb].
  - destruct (faultSet (translationFault (ex (rq_inst r)))) eqn:Ef.
    + apply (skipTransfer_moves s p r R); try done. unfold place_ok in Hok. unfold retrying in Hnr.
      destruct (rq_state r); try done.
      * destruct Hok as [[_ ?]|[[] _]]; [done|]. by rewrite lv_fault in Ef.
      * destruct Hok as [[] _]. by rewrite lv_fault in Ef.
    + apply (sendTranslated_moves env s p r R); try done.
      unfold place_ok in Hok. unfold retrying in Hnr. destruct (rq_state r); auto; done.
  - destruct (hasPacketsInMemSystem r) eqn:Ehp; [by apply wp_ret|].
    apply (skipTransfer_moves s p r R); try done.
    unfold quiet, inflight, numInFlight, hasPacketsInMemSystem in *.
    destruct (q_localAccess _); [done|]. destruct (rq_kind r) as [fl sent|f| |]; [by subst| |done|done].
    apply negb_false_iff, Z.eqb_eq in Ehp. lia.
Qed.
End steps.
