(* ===== verification/LsqBuffer.v ===== *)
(** * Store buffer, answers, retries and commit keep the invariant

    The rest of the methods of [Lsq]: stepping the store buffer, the memory
    system's callbacks, and Execute taking completed requests out. *)
From stdpp Require Import gmap.
From S2P Require Import Prelude Buffers LVPT CVU PipeData LsqAddr LsqRequest Lsq LsqForward LsqInv.
From S2P Require Import LsqSteps.

Section buffer.
Context `{I : Isa}.
Implicit Types (r : LSQRequest I) (s : LSQ I) (p : Ptr) (env : LsqEnv (I := I)).

(** ** Sending from the store buffer *)

(** a state of the queue in which the step was good *)
Definition kept s s' : Prop := Inv s' ∧ order s' = order s ∧ slots s' = slots s.

Lemma sentAll_live r : live r → sentAllPackets r = (numIssued r =? numTotal r).
Proof.
  intros []. unfold sentAllPackets, numIssued, numTotal.
  destruct (rq_kind r) as [fl sent|f| |]; [by destruct sent|done..].
Qed.

Lemma isBarrier_kind r k st : rq_kind r ≠ BarrierDataRequest → k ≠ BarrierDataRequest →
  isBarrier (setState st (setKind k r)) = isBarrier r.
Proof. intros Hr Hk. unfold isBarrier. cbn. by destruct (rq_kind r), k. Qed.

Lemma live_not_barrier r : live r → rq_kind r ≠ BarrierDataRequest.
Proof. intros [] E. by rewrite E in lv_kind. Qed.

(** a slot that still has a packet to send *)
Record sendable s p r : Prop := {
  sb_slot : p ∈ slots s;
  sb_heap : heap s !! p = Some r;
  sb_live : live r;
  sb_left : numIssued r < numTotal r;
  sb_nonlocal : nonlocal r;
  sb_store : rq_isLoad r = false;
  sb_state : rq_state r ≠ InTranslation;
  sb_unissued : unissued r = true;
}.

Lemma sendB env s p r st : Inv s → others_idle s p →
  numAccessesInMemorySystem (counters s) < inMemorySystemLimit (cfg s) → sendable s p r →
  st = StoreInStoreBuffer ∨ st = StoreBufferIssuing →
  ∃ ret s2,
    tryToSend env p (changed s p (setState st r) (counters s) MemoryRunning (retryRequest s) (numSends s))
      = Ok (ret, s2)
    ∧ if (ret : bool) then
        (∃ r2, heap s2 !! p = Some r2 ∧ rq_state r2 = StoreBufferIssuing)
        ∧ ∃ s3, countIssuedStore p s2 = Ok (tt, s3) ∧ kept s s3 ∧ mstate s3 = MemoryRunning
      else kept s s2.
Proof.
  intros Hinv Hidle Hn [Hsl Hp Hl Hlt Hnl Hst Hnt Hun] Hst'. pose proof Hinv as []. destruct i_sized.
  set (s1 := changed _ _ _ _ _ _ _).
  assert ((PB, p) ∈ tagged s) as Hin by by apply tagged_B.
  destruct (ranges_at s p PB r Hinv Hin Hp). cbn [contr unissuedIn] in ra_unissued. rewrite Hun in ra_unissued. cbn [b2z] in ra_unissued.
  destruct (step_live (setState st r)) as (r1 & Hstep & (k & ->) & Hl1 & Hn1 & Hf1 & Ht1 & Hsa);
    [by apply live_setState|done|].
  destruct (tryToSend_live env s1 p (setState st r) StoreBufferIssuing StoreBufferNeedsRetry)
    as (r1 & Hstep' & Heq).
  { unfold canSendToMemorySystem. cbn. rewrite bool_decide_eq_true_2 by done. by apply Z.ltb_lt. }
  { cbn. by rewrite lookup_insert_eq. } { by apply live_setState. } { done. } { done. }
  { by destruct Hst' as [-> | ->]. } { by destruct Hst' as [-> | ->]. }
  rewrite Hstep in Hstep'. injection Hstep' as <-. rewrite Heq.
  set (r' := setState StoreBufferIssuing (setKind k (setState st r))).
  assert (live r') as Hl' by by apply live_setState.
  assert (inflight r' = inflight r + 1) as Hfl.
  { unfold inflight, nonlocal in *. cbn. rewrite Hnl. exact Hf1. }
  assert (isBarrier r' = isBarrier r) as Hbar.
  { apply (isBarrier_kind (setState st r)); [by apply live_not_barrier, live_setState|].
    intros ->. by destruct Hl1. }
  assert (numIssued r' = numIssued r + 1 ∧ numTotal r' = numTotal r) as [HnI HnT] by done.
  assert (sentAllPackets r' = (numIssued r + 1 =? numTotal r)) as Hsa' by done.
  assert (unissued r' = isBarrier r || negb (numIssued r + 1 =? numTotal r)) as Hun'.
  { unfold unissued. rewrite Hbar, Hsa'. by rewrite bool_decide_eq_true_2 by done. }
  assert (∀ c, c = mkCounters (numUnissuedAccesses (counters s) - 1 + b2z (unissued r'))
        (numAccessesInMemorySystem (counters s) + 1) (numAccessesInDTLB (counters s))
        (numStoresInTransfers (counters s)) (numAccessesIssuedToMemory (counters s)) →
      kept s (changed s p r' c MemoryRunning (retryRequest s) (numSends s + 1))) as Hsent.
  { intros c Hc. destruct (Inv_sent s p PB r r') with (c := c) as [? ?]; try done.
    - split; [done|]. rewrite HnI. destruct Hl. split_and!; try done. lia.
    - rewrite Hc. cbn [unissuedIn]. by rewrite Hun. }
  destruct (accept env (numSends s1)).
  - change (sentAllPackets (setKind k (setState st r))) with (sentAllPackets r'). rewrite Hsa'.
    eexists _, _. split; [done|]. fold r'.
    replace (sentState s1 p r') with (changed s p r' (addInMemory 1 (counters s)) MemoryRunning
      (retryRequest s) (numSends s + 1)) by (unfold changed, sentState; cbn; by rewrite insert_insert_eq).
    destruct (Z.eqb_spec (numIssued r + 1) (numTotal r)) as [Hall|Hpart].
    + split; [exists r'; cbn; by rewrite lookup_insert_eq|].
      unfold countIssuedStore, sbind. rewrite (deref_eq _ _ r') by (cbn; by rewrite lookup_insert_eq).
      rewrite Hbar. destruct (isBarrier r).
      * eexists. split; [done|]. split; [|done]. apply Hsent. rewrite Hun'. cbn.
        unfold addInMemory. rewrite u32_id by lia. f_equal. lia.
      * eexists. split; [done|]. split; [|done]. apply Hsent. rewrite Hun'. cbn.
        unfold addInMemory, addUnissued. cbn. rewrite !u32_id by lia. f_equal; lia.
    + apply Hsent. rewrite Hun'. destruct (isBarrier r); cbn; unfold addInMemory; rewrite u32_id by lia;
        f_equal; lia.
  - eexists _, _. split; [done|].
    replace (refusedState s1 p (setState StoreBufferNeedsRetry (setState st r)))
      with (refusedState s p (setState StoreBufferNeedsRetry r))
      by (unfold refusedState; cbn; by rewrite insert_insert_eq).
    destruct (Inv_refused s p PB r StoreBufferNeedsRetry) as [? ?]; try done.
    + split_and!; [by apply live_setState|done..].
    + cbn [unissuedIn]. rewrite Hun. unfold unissued. cbn. by rewrite orb_true_r.
Qed.

(** The slots after the leading completed barriers. *)
Lemma slot_sendable s p r : Inv s → mstate s = MemoryRunning → p ∈ slots s → heap s !! p = Some r →
  isBarrier r && isComplete r = false →
  bool_decide (rq_state r = StoreBufferIssuing) && sentAllPackets r = false →
  sendable s p r ∧ (rq_state r = StoreInStoreBuffer ∨ rq_state r = StoreBufferIssuing).
Proof.
  intros Hinv Hm Hin Hp Hb Hs. pose proof Hinv as [].
  pose proof (at_place s PB p r Hinv (proj2 (tagged_B s p) Hin) Hp) as Hok.
  pose proof (no_retrying s p r i_retry Hm Hp) as Hnr. unfold retrying in Hnr.
  unfold place_ok in Hok. destruct (rq_state r) eqn:Est; try done.
  - destruct Hok as (Hl & Hi & Hnl & Hld). split; [|by left]. split; try done.
    + pose proof Hl as []. unfold numTotal in *. destruct (rq_kind r); [lia|lia|done|done].
    + by rewrite Est.
    + unfold unissued. rewrite Est, Hs. by rewrite orb_true_r.
  - destruct Hok as (Hl & Hi & Hnl & Hld). split; [|by right]. split; try done.
    + rewrite bool_decide_eq_true_2 in Hs by done. cbn in Hs. rewrite sentAll_live in Hs by done.
      pose proof Hl as []. apply Z.eqb_neq in Hs. lia.
    + by rewrite Est.
    + unfold unissued. rewrite Est, Hs. by rewrite orb_true_r.
  - destruct Hok as (Hbar & _). unfold isComplete in Hb. rewrite Est, Hbar in Hb. done.
Qed.

Lemma kept_trans s s1 s2 : kept s s1 → kept s1 s2 → kept s s2.
Proof. intros (? & ? & ?) (? & ? & ?). split; [done|]. split; congruence. Qed.

(** the second loop of the store buffer's step *)
Lemma issueStores_kept env l : ∀ s n, Inv s → (∀ p, p ∈ l → p ∈ slots s) →
  wp (issueStores env l n) s (λ _ s', kept s s').
Proof.
  induction l as [|p l IH]; intros s n Hinv Hl; cbn [issueStores]; [by apply wp_ret|].
  apply wp_bind, wp_get.
  destruct (_ && canSendToMemorySystem s) eqn:Hc; cbn [negb]; [|by apply wp_ret].
  apply andb_true_iff in Hc as [_ Hcan]. destruct (canSend_inv s Hcan) as [Hm Hn].
  assert (p ∈ slots s) as Hin by (apply Hl; by left).
  destruct (i_place _ Hinv PB p) as (r & Hp & _); [by apply tagged_B|].
  apply wp_bind. exists r, s. split; [by apply deref_eq|].
  destruct (isBarrier r && isComplete r) eqn:Hb; [by apply wp_ret|].
  destruct (_ && sentAllPackets r) eqn:Hs; cbn [negb].
  { apply IH; [done|]. intros q Hq. apply Hl. by right. }
  destruct (slot_sendable s p r Hinv Hm Hin Hp Hb Hs) as [Hsend Hst].
  destruct (sendB env s p r (rq_state r) Hinv (running_idle s p Hinv Hm) Hn Hsend Hst)
    as (ret & s2 & Heq & Hret).
  replace (setState (rq_state r) r) with r in Heq by by destruct r. rewrite changed_id in Heq by done.
  apply wp_bind. exists ret, s2. split; [done|].
  destruct ret; [|by apply wp_ret].
  destruct Hret as (_ & s3 & Hcount & Hk & _). apply wp_bind. exists tt, s3. split; [done|].
  pose proof Hk as (Hinv3 & _ & Hsl). eapply wp_conseq.
  - apply (IH s3); [done|]. intros q Hq. rewrite Hsl. apply Hl. by right.
  - cbn. intros _ s' Hk'. by eapply kept_trans.
Qed.

(** ** Deleting requests *)

Lemma idsOf_delete (H : gmap Z (LSQRequest I)) p l : p ∉ l → idsOf (delete p H) l = idsOf H l.
Proof.
  unfold idsOf. induction l as [|q l IH]; intros Hp; [done|]. cbn.
  apply not_elem_of_cons in Hp as [Hne Hp]. rewrite IH by done. by rewrite lookup_delete_ne by congruence.
Qed.

Lemma notin_TR s p : Inv s → p ∈ slots s → p ∉ queue (transfers s) ++ queue (requests s).
Proof.
  intros Hinv Hp Hin. apply elem_of_app in Hin as [Hin|Hin].
  - by discriminate (place_unique s p PB PT Hinv (proj2 (tagged_B s p) Hp) (proj2 (tagged_T s p) Hin)).
  - by discriminate (place_unique s p PB PR Hinv (proj2 (tagged_B s p) Hp) (proj2 (tagged_R s p) Hin)).
Qed.

(** the queue without the slot [p] *)
Definition removedB s p (lb : list Z) (sl : list Ptr) (c : Counters) : LSQ I :=
  mkLSQ (cfg s) (delete p (heap s)) (nextPtr s) lb (mstate s) (requests s) (transfers s) sl c
    (retryRequest s) (cvu s) (numSends s) (lsqAwake s).

Lemma Inv_removedB s p r lb sl c : Inv s → p ∈ slots s → heap s !! p = Some r → retrying r = false →
  slots s ≡ₚ p :: sl → length lb = length (lastMemBarrier s) →
  c = mkCounters (numUnissuedAccesses (counters s) - b2z (unissued r))
        (numAccessesInMemorySystem (counters s) - inflight r) (numAccessesInDTLB (counters s))
        (numStoresInTransfers (counters s)) (numAccessesIssuedToMemory (counters s)) →
  Inv (removedB s p lb sl c) ∧ order (removedB s p lb sl c) = order s.
Proof.
  intros Hinv Hin Hp Hnr Hsl Hlb ->. pose proof Hinv as [].
  pose proof (at_place s PB p r Hinv (proj2 (tagged_B s p) Hin) Hp) as Hok.
  pose proof (inflight_nonneg _ _ Hok) as Hfl. split.
  - apply (Inv_change s _ p (Some (PB, r)) None (rest_of (queue (requests s)) (queue (transfers s)) sl)).
    + done.
    + split; [|done]. unfold tagged. rewrite Hsl. unfold rest_of. cbn. solve_Permutation.
    + split; [done|]. cbn. by rewrite lookup_delete_eq.
    + done.
    + by split.
    + split; cbn; unfold flightIn, dtlbIn, storeIn, issuedIn; lia.
    + destruct i_roomy. rewrite Hsl in m_B. cbn in m_B. split; cbn; lia.
    + done.
    + cbn. lia.
    + apply (retry_keep s _ p None); cbn; try done.
      * intros r0 Hr0. simplify_eq. by rewrite Hnr.
      * intros _. split; [lia|]. split; [done|]. done.
    + assert (p ∉ sl) as Hni.
      { unfold tagged in i_nodup. rewrite Hsl in i_nodup. rewrite !fmap_app in i_nodup.
        apply NoDup_app in i_nodup as (_ & _ & Hnd). apply NoDup_app in Hnd as (_ & _ & Hnd).
        cbn in Hnd. apply NoDup_cons in Hnd as [Hni _]. intros Hx. apply Hni.
        apply list_elem_of_fmap. exists (PB, p). split; [done|]. apply list_elem_of_fmap. by exists p. }
      apply (ahead_change s _ p); cbn; auto.
      * intros q Hq. by rewrite lookup_delete_ne.
      * intros q _ Hq. rewrite Hsl. by right.
      * intros r0. by rewrite lookup_delete_eq.
  - unfold order. cbn. by apply idsOf_delete, notin_TR.
Qed.

Lemma clearMemBarrier_eq s (inst : MyMinorDynInst I) :
  0 ≤ threadId (id inst) < Z.of_nat (length (lastMemBarrier s)) →
  ∃ lb, clearMemBarrier inst s = Ok (tt, upd_barrier lb s) ∧ length lb = length (lastMemBarrier s).
Proof.
  intros Ht. unfold clearMemBarrier, sbind, sget, slift.
  destruct (vget_lt _ _ Ht) as [last ->]. cbn [rbind]. destruct (last <=? _).
  - rewrite vset_lt by done. cbn [rbind]. eexists. split; [done|]. by rewrite length_insert.
  - exists (lastMemBarrier s). split; [|done]. by destruct s.
Qed.

(** the first loop of the store buffer's step *)
Lemma clearBarriers_kept n : ∀ s, Inv s →
  wp (clearBarriers n) s (λ _ s', Inv s' ∧ order s' = order s ∧ mstate s' = mstate s).
Proof.
  induction n as [|n IH]; intros s Hinv; cbn [clearBarriers]; [by apply wp_ret|].
  apply wp_bind, wp_get. destruct (slots s) as [|p l] eqn:Hsl; [by apply wp_ret|].
  assert (p ∈ slots s) as Hin by (rewrite Hsl; by left).
  pose proof Hinv as []. destruct (i_place PB p) as (r & Hp & Hok & Ht); [by apply tagged_B|].
  apply wp_bind. exists r, s. split; [by apply deref_eq|].
  destruct (isComplete r && isBarrier r) eqn:E; [|by apply wp_ret].
  apply andb_true_iff in E as [E1%bool_decide_eq_true E2].
  destruct (clearMemBarrier_eq (upd_counters (addUnissued (-1)) s) (rq_inst r) Ht) as (lb & Hcl & Hlb).
  destruct (ranges_at s p PB r Hinv (proj2 (tagged_B s p) Hin) Hp).
  assert (unissued r = true) as Hun by (unfold unissued; by rewrite E2).
  cbn [contr unissuedIn] in ra_unissued. rewrite Hun in ra_unissued. cbn [b2z] in ra_unissued.
  assert (quiet r) as Hq by (unfold place_ok in Hok; rewrite E1 in Hok; apply Hok).
  set (s1 := removedB s p lb l (addUnissued (-1) (counters s))).
  assert (Inv s1 ∧ order s1 = order s) as [Hinv1 Hord].
  { apply (Inv_removedB s p r); try done.
    - unfold retrying. by rewrite E1.
    - by rewrite Hsl.
    - rewrite Hun, Hq. unfold addUnissued. cbn. rewrite u32_id by lia. f_equal; lia. }
  apply wp_bind, wp_mod, wp_bind. eexists tt, _. split; [exact Hcl|].
  apply wp_bind, wp_mod, wp_bind, wp_mod.
  eapply wp_conseq; [apply (IH s1 Hinv1)|]. cbn. intros _ s' (? & ? & ?). split_and!; congruence || done.
Qed.

Lemma StoreBuffer_step_moves env s : Inv s → moves (StoreBuffer_step env) s.
Proof.
  intros Hinv. unfold moves, StoreBuffer_step. apply wp_bind, wp_get.
  destruct (_ && _); [|by apply wp_ret]. apply wp_bind.
  eapply wp_conseq; [by apply clearBarriers_kept|]. cbn. intros _ s1 (Hinv1 & Ho & _).
  apply wp_bind, wp_get. destruct (bool_decide _); [by apply wp_ret|].
  eapply wp_conseq; [by apply (issueStores_kept env (slots s1) s1)|]. cbn.
  intros _ s' (? & ? & _). split; [done|congruence].
Qed.

Lemma LSQ_step_moves env s : Inv s → moves (LSQ_step env) s.
Proof.
  intros Hinv. unfold moves, LSQ_step. apply wp_bind, wp_get, wp_bind.
  apply wp_conseq with (Q := λ _ s', Inv s' ∧ order s' = order s).
  - destruct (queue (requests s)) eqn:E; [by apply wp_ret|].
    apply tryToSendToTransfers_moves; [done|]. rewrite E. by left.
  - intros _ s1 [Hinv1 Ho]. eapply wp_conseq; [by apply StoreBuffer_step_moves|]. cbn.
    intros _ s' [? ?]. split; [done|congruence].
Qed.
End buffer.
