(* ===== verification/LsqEvents.v ===== *)
(** * Answers, retries and commit keep the invariant

    The callbacks of the memory system and the methods with which Execute
    takes requests out of the load/store queue. *)
From stdpp Require Import gmap.
From S2P Require Import Prelude Buffers LVPT CVU PipeData LsqAddr LsqRequest Lsq LsqForward LsqInv.
From S2P Require Import LsqSteps LsqBuffer.

Section events.
Context `{I : Isa}.
Implicit Types (r : LSQRequest I) (s : LSQ I) (p : Ptr) (env : LsqEnv (I := I)).

(** ** Answers *)

(** The states in which memory may owe an answer. *)
Definition answerable pl r : Prop :=
  match pl, rq_state r with
  | PR, RequestIssuing | PR, RequestNeedsRetry | PB, StoreBufferNeedsRetry => numIssued r < numTotal r
  | PT, RequestIssuing | PB, StoreBufferIssuing => True
  | _, _ => False
  end.

Lemma place_answerable pl r : place_ok pl r → 0 < inflight r →
  live r ∧ 0 < numInFlight r ∧ answerable pl r.
Proof.
  intros Hok Hfl.
  assert (0 < numInFlight r) as Hn by (unfold inflight in Hfl; by destruct (q_localAccess _)).
  assert (live r → numIssued r = 0 → False) as H0 by (intros []; lia).
  unfold place_ok, quiet, answerable in *.
  destruct pl, (rq_state r); try done; try lia;
    try (by destruct Hok as (? & ? & _); try (exfalso; by apply H0); split_and!; auto with lia).
  - destruct Hok. unfold numInFlight in Hn. destruct (rq_kind r) as [fl sent|f| |]; try done.
    + by destruct tr_kind as [-> _].
    + destruct tr_kind as (? & ? & _). lia.
  - destruct Hok as [[_ ?]|[? ?]]; [lia|]. exfalso. by apply H0.
Qed.

(** The state after the answer that makes [p] the request [r]. *)
Definition answeredState s p r : LSQ I :=
  changed s p r (addInMemory (-1) (counters s)) (mstate s) (retryRequest s) (numSends s).

Lemma retired_inflight r r' : nonlocal r → retired r r' → inflight r' = inflight r - 1.
Proof.
  intros Hnl ([] & _ & Hf & _). unfold inflight, nonlocal in *. rewrite sr_req, Hnl. done.
Qed.

Lemma Inv_answered s p pl r r' : Inv s → (pl, p) ∈ tagged s → heap s !! p = Some r →
  0 < inflight r → nonlocal r → retired r r' → place_ok pl r' → rq_state r ≠ InTranslation →
  (retrying r = true → rq_state r' = rq_state r) → (retrying r' = true → retrying r = true) →
  unissuedIn pl r' = unissuedIn pl r → is_Some (rq_packet r) → is_Some (rq_packet r') →
  Inv (answeredState s p r') ∧ order (answeredState s p r') = order s.
Proof.
  intros Hinv Hin Hp Hfl Hnl Hret Hok Hnt Ht1 Ht2 Hun Hpk Hpk'. pose proof Hinv as [].
  pose proof (retired_inflight r r' Hnl Hret) as Hfl'.
  destruct Hret as ([] & Hni & _ & _ & Hcase). destruct (ranges_at s p pl r Hinv Hin Hp).
  cbn [contr flightIn] in ra_memory. unfold flightIn in ra_memory.
  assert (rq_state r' ≠ InTranslation) as Hnt'.
  { destruct Hcase as [(_ & -> & _)|(_ & -> & _)]; done. }
  apply (Inv_changed s p pl r); try done.
  - by rewrite sr_inst.
  - split; cbn [contr changed counters addInMemory numUnissuedAccesses numAccessesInMemorySystem
      numAccessesInDTLB numStoresInTransfers numAccessesIssuedToMemory]; rewrite ?Hun;
      unfold flightIn, dtlbIn, storeIn, issuedIn, inTLB;
      rewrite ?Hfl', ?sr_load, ?sr_issued, ?bool_decide_eq_false_2 by done; try (destruct pl; lia).
    rewrite u32_id by lia. lia.
  - cbn. rewrite u32_id by lia. lia.
  - apply (retry_keep s _ p (Some r')); try done.
    + intros r0 Hr0 E. simplify_eq. exists r'. auto.
    + intros r0 [= <-] E. exists r. auto.
    + intros _. cbn. rewrite u32_id by lia. split_and!; auto; lia.
  - intros ->. apply (started_same s p r); try done; [by apply tagged_R|by rewrite sr_inst|].
    unfold begun. rewrite Hni. destruct Hcase as [(_ & -> & _)|(_ & -> & _)]; [|done].
    intros [?|?]; [by left|done].
  - intros _. apply slotCoverage_slot; [by rewrite sr_inst|done|]. by split.
Qed.

(** An answer that is not the last one, or the last one outside the buffer. *)
Lemma answered_place pl r r' : place_ok pl r → live r → nonlocal r → answerable pl r →
  0 < numInFlight r → retired r r' → (pl = PB → isComplete r' = true → isBarrier r' = true) →
  place_ok pl r'.
Proof.
  intros Hok Hl Hnl Ha Hn Hret Hbar. pose proof (retired_inflight r r' Hnl Hret) as Hfl.
  pose proof Hret as ([] & Hni & Hnf & Hnt & Hcase).
  assert (0 ≤ numInFlight r ≤ numIssued r ∧ numIssued r ≤ numTotal r) as Hcnt by apply Hl.
  destruct Hcase as [(Hlast & Hst & k & Hk & Hd)|(Hlast & Hst & Hl')].
  - assert (inflight r' = 0) as Hq.
    { unfold inflight, nonlocal in *. rewrite Hnl in Hfl. rewrite sr_req, Hnl in *. lia. }
    unfold place_ok. rewrite Hst. destruct pl; try done. split_and!; [|done|].
    + apply Hbar; [done|]. unfold isComplete. by rewrite Hst.
    + intros _. destruct Hl. assert (rq_isLoad r = false) as Hld.
      { unfold place_ok, answerable in *. destruct (rq_state r); try done; apply Hok. }
      split; rewrite ?sr_req; try done.
      * destruct lv_range as [a Hra]. exists a. by apply (ranged_same r).
      * intros k' Hk' Hcm. simplify_eq. destruct Hd as [_ Hd]. auto.
  - unfold place_ok, answerable in *. rewrite Hst, Hni, Hnt. unfold nonlocal, direct in *.
    rewrite sr_req, sr_load. destruct pl, (rq_state r); try done; naive_solver lia.
Qed.

Lemma answered_unissued pl r r' : place_ok pl r → live r → answerable pl r → retired r r' →
  (pl = PB → isComplete r' = true → isBarrier r' = true) → unissuedIn pl r' = unissuedIn pl r.
Proof.
  intros Hok Hl Ha ([] & Hni & Hnf & Hnt & Hcase) Hbar. destruct pl; try done. cbn. f_equal.
  unfold unissued. rewrite sr_barrier. destruct Hcase as [(Hlast & Hst & _)|(Hlast & Hst & Hl')].
  - rewrite <- sr_barrier, Hbar; [done|done|]. unfold isComplete. by rewrite Hst.
  - rewrite Hst. by rewrite !sentAll_live, Hni, Hnt by done.
Qed.

(** The last answer to a store in the buffer that is not a barrier. *)
Lemma Inv_finished s p r r' : Inv s → p ∈ slots s → heap s !! p = Some r → live r → nonlocal r →
  answerable PB r → 0 < numInFlight r → retired r r' → isComplete r' = true → isBarrier r' = false →
  wp (deleteRequest p) (answeredState s p r') (λ _ s', Inv s' ∧ order s' = order s).
Proof.
  intros Hinv Hin Hp Hl Hnl Ha Hn Hret Hc Hb. pose proof Hret as ([] & Hni & Hnf & Hnt & Hcase).
  assert (0 ≤ numInFlight r ≤ numIssued r ∧ numIssued r ≤ numTotal r) as Hcnt by apply Hl.
  destruct (ranges_at s p PB r Hinv (proj2 (tagged_B s p) Hin) Hp).
  apply bool_decide_eq_true in Hc.
  destruct Hcase as [(Hlast & _)|(_ & Hst & _)]; [|rewrite Hc in Hst; unfold answerable in Ha; by rewrite <- Hst in Ha].
  assert (rq_state r = StoreBufferIssuing) as Hst.
  { unfold answerable in Ha. destruct (rq_state r); try done; lia. }
  assert (inflight r = 1) as Hfl by (unfold inflight, nonlocal in *; rewrite Hnl; lia).
  unfold wp, deleteRequest, sbind, sget.
  assert (existsb (Z.eqb p) (slots (answeredState s p r')) = true) as ->.
  { apply existsb_exists. exists p. split; [by apply list_elem_of_In|lia]. }
  eexists tt, (removedB s p (lastMemBarrier s) (eraseFirst p (slots s)) (addInMemory (-1) (counters s))).
  split.
  - unfold smod, free, removedB, upd_heap, upd_slots, answeredState, changed, smod. cbn. by rewrite delete_insert_eq.
  - apply (Inv_removedB s p r); try done.
    + unfold retrying. by rewrite Hst.
    + by apply eraseFirst_perm.
    + cbn [contr flightIn] in ra_memory. unfold flightIn in ra_memory. rewrite Hfl in *.
      unfold unissued. rewrite <- sr_barrier, Hb, Hst, sentAll_live by done.
      rewrite (proj2 (Z.eqb_eq _ _)), bool_decide_eq_true_2 by (done || lia). cbn. unfold addInMemory. rewrite u32_id by lia. f_equal; lia.
Qed.

(** [recvTimingResp] on an answer that memory owes. *)
Lemma recvTimingResp_moves s p r resp : Inv s → heap s !! p = Some r → 0 < inflight r →
  response_ok r resp → moves (recvTimingResp p resp) s.
Proof.
  intros Hinv%(Inv_awake true) Hp Hfl Hresp. unfold moves, recvTimingResp. apply wp_bind, wp_mod.
  change (heap (upd_awake true s) !! p = Some r) in Hp. change (order s) with (order (upd_awake true s)).
  revert Hinv Hp. generalize (upd_awake true s). clear s. intros s Hinv Hp. pose proof Hinv as [].
  destruct (list_elem_of_fmap_1 _ _ _ (i_owned p (ex_intro _ _ Hp))) as ([pl p'] & ? & Hin).
  cbn in *. subst p'. pose proof (at_place s pl p r Hinv Hin Hp) as Hok.
  destruct (place_answerable pl r Hok Hfl) as (Hl & Hn & Ha).
  assert (nonlocal r) as Hnl by (unfold nonlocal, inflight in *; by destruct (q_localAccess _)).
  destruct (retire_live r resp Hl) as (r' & Hr' & Hret); [|done..|].
  { intros E. unfold answerable in Ha. rewrite E in Ha. by destruct pl. }
  assert (rq_state r ≠ InTranslation) as Hnt.
  { intros E. unfold answerable in Ha. rewrite E in Ha. by destruct pl. }
  assert (is_Some (rq_packet r)) as Hpk by (destruct Hl as [_ _ _ _ _ (k & -> & _) _ _ _]; by eexists).
  assert ((pl = PB → isComplete r' = true → isBarrier r' = true) →
    Inv (answeredState s p r') ∧ order (answeredState s p r') = order s) as Hgood.
  { intros Hbar. apply (Inv_answered s p pl r); try done.
    - by eapply answered_place.
    - destruct Hret as (_ & _ & _ & _ & [(Hlast & _)|(_ & ? & _)]); [|done]. intros E.
      unfold answerable, retrying in *. pose proof (lv_count r Hl). destruct pl, (rq_state r); try done; lia.
    - unfold retrying. destruct Hret as (_ & _ & _ & _ & [(_ & -> & _)|(_ & -> & _)]); done.
    - by eapply answered_unissued.
    - destruct Hret as (_ & _ & _ & _ & [(_ & _ & k & -> & _)|(_ & _ & Hl')]); [by eexists|].
      destruct Hl' as [_ _ _ _ _ (k & -> & _) _ _ _]. by eexists. }
  assert (update p (λ r, retireResponse r resp) (upd_counters (addInMemory (-1)) s)
    = Ok (tt, answeredState s p r')) as Hupd by by rewrite (update_eq _ _ r _ r').
  apply wp_bind, wp_mod, wp_bind. exists r, (upd_counters (addInMemory (-1)) s).
  split; [by apply deref_eq|].
  assert ((rq_state r = RequestIssuing ∨ rq_state r = RequestNeedsRetry) ∧ pl ≠ PB
    ∨ (rq_state r = StoreBufferIssuing ∨ rq_state r = StoreBufferNeedsRetry) ∧ pl = PB) as Hwhere.
  { unfold answerable in Ha. destruct pl, (rq_state r); try done; auto. }
  destruct Hwhere as [[Hst Hpl]|[Hst ->]].
  - assert (wp (update p (λ r, retireResponse r resp)) (upd_counters (addInMemory (-1)) s)
      (λ _ s', Inv s' ∧ order s' = order s)) as Hw.
    { eexists tt, _. split; [exact Hupd|]. by apply Hgood. }
    destruct Hst as [-> | ->]; exact Hw.
  - assert (wp (do! update p (λ r, retireResponse r resp) in let! r := deref p in
        if isComplete r && negb (isBarrier r) then deleteRequest p else sret tt)
      (upd_counters (addInMemory (-1)) s) (λ _ s', Inv s' ∧ order s' = order s)) as Hw.
    { apply wp_bind. eexists tt, _. split; [exact Hupd|]. apply wp_bind.
      exists r', (answeredState s p r'). split; [apply deref_eq; cbn; by rewrite lookup_insert_eq|].
      destruct (isComplete r' && negb (isBarrier r')) eqn:E.
      - apply andb_true_iff in E as [E1 E2%negb_true_iff]. apply (Inv_finished s p r); try done. by apply tagged_B.
      - apply wp_ret, Hgood. intros _ Hc. rewrite Hc in E. by apply negb_false_iff in E. }
    destruct Hst as [-> | ->]; exact Hw.
Qed.

(** ** Retries *)

Lemma Inv_upd_retry s rt : Inv s → mstate s = MemoryRunning →
  Inv (upd_retry rt s) ∧ order (upd_retry rt s) = order s.
Proof.
  intros [] Hm. split; [|done]. split; try done.
  - by destruct i_sized.
  - by destruct i_roomy.
  - by destruct i_counted.
  - apply retry_running; [done|]. intros p r Hr. by eapply no_retrying.
Qed.

Lemma retrying_others s p : Inv s → retryRequest s = Some p → others_idle s p.
Proof.
  intros [] Hrt q r Hne Hr. destruct (retrying r) eqn:E; [|done].
  destruct (y_one _ i_retry q r Hr E). congruence.
Qed.

(** what [recvReqRetry] does after it has put the request back *)
Definition resend env p : St (LSQ I) unit :=
  let! ret := tryToSend env p in
  if ret then
    let! r := deref p in
    do! (match rq_state r with
         | RequestIssuing => moveFromRequestsToTransfers p
         | StoreBufferIssuing => countIssuedStore p
         | _ => slift (Stop Panic)
         end) in
    smod (upd_retry None)
  else sret tt.

Lemma resend_B env s p r : Inv s → mstate s = MemoryNeedsRetry → retryRequest s = Some p →
  numAccessesInMemorySystem (counters s) < inMemorySystemLimit (cfg s) →
  heap s !! p = Some r → rq_state r = StoreBufferNeedsRetry →
  wp (resend env p) (changed s p (setState StoreInStoreBuffer r) (counters s) MemoryRunning
                       (retryRequest s) (numSends s)) (λ _ s', Inv s' ∧ order s' = order s).
Proof.
  intros Hinv Hm Hrt Hlim Hp Hst. pose proof Hinv as [].
  destruct (list_elem_of_fmap_1 _ _ _ (i_owned p (ex_intro _ _ Hp))) as ([pl p'] & ? & Hin).
  cbn in *. subst p'. pose proof (at_place s pl p r Hinv Hin Hp) as Hok.
  unfold place_ok in Hok. rewrite Hst in Hok. destruct pl; try done. destruct Hok as (Hl & Hlt & Hnl & Hld).
  destruct (sendB env s p r StoreInStoreBuffer) as (ret & s2 & Heq & Hret); try done.
  - by apply retrying_others.
  - split; try done; [by apply tagged_B|by rewrite Hst|]. unfold unissued. rewrite Hst. by rewrite orb_true_r.
  - by left.
  - unfold resend. apply wp_bind. exists ret, s2. split; [exact Heq|]. destruct ret.
    + destruct Hret as ((r2 & Hp2 & Hst2) & s3 & Hc & (Hinv3 & Ho & _) & Hm3).
      apply wp_bind. exists r2, s2. split; [by apply deref_eq|]. rewrite Hst2.
      apply wp_bind. exists tt, s3. split; [done|]. apply wp_mod. rewrite <- Ho. by apply Inv_upd_retry.
    + destruct Hret as (? & ? & _). by apply wp_ret.
Qed.

Lemma resend_R env s p r : Inv s → mstate s = MemoryNeedsRetry → retryRequest s = Some p →
  numAccessesInMemorySystem (counters s) < inMemorySystemLimit (cfg s) →
  heap s !! p = Some r → rq_state r = RequestNeedsRetry → head (queue (requests s)) = Some p →
  Z.of_nat (length (queue (transfers s))) < capacity (transfers s) →
  wp (resend env p) (changed s p (setState Translated r) (counters s) MemoryRunning
                       (retryRequest s) (numSends s)) (λ _ s', Inv s' ∧ order s' = order s).
Proof.
  intros Hinv Hm Hrt Hlim Hp Hst Hhd Hroom. pose proof Hinv as []. destruct i_sized, i_roomy.
  assert (∃ R, queue (requests s) = p :: R) as [R HR].
  { destruct (queue (requests s)); cbn in Hhd; [done|]. injection Hhd as ->. by eexists. }
  assert ((PR, p) ∈ tagged s) as Hin by (apply tagged_R; rewrite HR; by left).
  pose proof (at_place s PR p r Hinv Hin Hp) as Hok. unfold place_ok in Hok. rewrite Hst in Hok.
  destruct Hok as (Hl & Hlt & Hnl & Hdir). pose proof (lv_count r Hl) as Hcnt.
  destruct (sendR env s p r R Translated) as (ret & s2 & Heq & Hret); try done.
  - by apply retrying_others.
  - rewrite T_room by done. lia.
  - by rewrite Hst.
  - by left.
  - apply (i_ahead p r); [by apply tagged_R|done|by right].
  - unfold resend. apply wp_bind. exists ret, s2. split; [exact Heq|]. destruct ret; [|by apply wp_ret].
    destruct Hret as ((r2 & Hp2 & Hst2) & s3 & Hc & Hinv3 & Ho & Hm3).
    apply wp_bind. exists r2, s2. split; [by apply deref_eq|]. rewrite Hst2.
    apply wp_bind. exists tt, s3. split; [done|]. apply wp_mod. rewrite <- Ho. by apply Inv_upd_retry.
Qed.

(** [recvReqRetry] when memory had refused a packet. *)
Lemma recvReqRetry_moves env s : Inv s → mstate s = MemoryNeedsRetry → moves (recvReqRetry env) s.
Proof.
  intros Hinv Hm. pose proof Hinv as [].
  destruct (y_some _ i_retry Hm) as (p & r & Hrt & Hp & Hlim & Hcase).
  unfold moves, recvReqRetry. apply wp_bind, wp_get, wp_bind, wp_assert; [by apply bool_decide_eq_true|].
  rewrite Hrt. apply wp_bind. destruct Hcase as [(Hst & Hhd & Hroom)|Hst].
  - eexists tt, _. split; [by rewrite (update_eq _ _ r _ (setState Translated r)); rewrite ?Hst|].
    apply wp_bind, wp_mod. by apply (resend_R env s p r).
  - eexists tt, _. split; [by rewrite (update_eq _ _ r _ (setState StoreInStoreBuffer r)); rewrite ?Hst|].
    apply wp_bind, wp_mod. by apply (resend_B env s p r).
Qed.

(** ** Taking requests out *)

(** The oldest instruction [i] has left the queue. *)
Definition taken s (i : InstId) s' : Prop := Inv s' ∧ order s = i :: order s'.

Lemma idsOf_cons (H : gmap Z (LSQRequest I)) p r l : H !! p = Some r →
  idsOf H (p :: l) = id (rq_inst r) :: idsOf H l.
Proof. intros Hp. unfold idsOf. cbn. by rewrite Hp. Qed.

Lemma T_head_notin s p T : Inv s → queue (transfers s) = p :: T →
  p ∉ T ++ queue (requests s) ∧ p ∉ slots s.
Proof.
  intros Hinv HT. pose proof Hinv as [].
  assert ((PT, p) ∈ tagged s) as Hin by (apply tagged_T; rewrite HT; by left).
  assert (tagged s ≡ₚ (PT, p) :: rest_of (queue (requests s)) T (slots s)) as Hperm.
  { unfold tagged. rewrite HT. apply rest_T_head. }
  rewrite Hperm in i_nodup. cbn in i_nodup. apply NoDup_cons in i_nodup as [Hni _].
  rewrite list_elem_of_fmap in Hni.
  split; [intros [Hx|Hx]%elem_of_app|intros Hx]; apply Hni;
    [exists (PT, p)|exists (PR, p)|exists (PB, p)]; (split; [done|]); unfold rest_of;
    rewrite !elem_of_app, !list_elem_of_fmap; naive_solver.
Qed.

(** the counters after [r] has left [transfers] *)
Definition popCounters (c : Counters) r (unissuedAdded : Z) : Counters :=
  mkCounters (numUnissuedAccesses c + unissuedAdded) (numAccessesInMemorySystem c) (numAccessesInDTLB c)
    (numStoresInTransfers c - b2z (negb (rq_isLoad r)))
    (numAccessesIssuedToMemory c - b2z (rq_issuedToMemory r)).

(** the queue without the head of [transfers], which is put into the slots [sl] *)
Definition poppedState s (T : list Ptr) (H : gmap Z (LSQRequest I)) (sl : list Ptr) (c : Counters)
  : LSQ I :=
  mkLSQ (cfg s) H (nextPtr s) (lastMemBarrier s) (mstate s) (requests s)
    (mkQueue T (numReservedSlots (transfers s)) (capacity (transfers s))) sl c
    (retryRequest s) (cvu s) (numSends s) (lsqAwake s).

Lemma Inv_popped s p r T : Inv s → queue (transfers s) = p :: T → heap s !! p = Some r → quiet r →
  retrying r = false →
  taken s (id (rq_inst r)) (poppedState s T (delete p (heap s)) (slots s) (popCounters (counters s) r 0)).
Proof.
  intros Hinv HT Hp Hq Hnr. pose proof Hinv as []. destruct (T_head_notin s p T Hinv HT) as [Hni Hnb].
  assert ((PT, p) ∈ tagged s) as Hin by (apply tagged_T; rewrite HT; by left).
  destruct (ranges_at s p PT r Hinv Hin Hp). split.
  - apply (Inv_change s _ p (Some (PT, r)) None (rest_of (queue (requests s)) T (slots s))).
    + done.
    + split; [|done]. unfold tagged. rewrite HT. apply rest_T_head.
    + split; [done|]. cbn. by rewrite lookup_delete_eq.
    + done.
    + by split.
    + split; cbn; unfold flightIn; rewrite ?Hq; lia.
    + destruct i_roomy. rewrite HT in m_T. cbn in m_T. split; cbn; lia.
    + done.
    + done.
    + apply (retry_keep s _ p None); cbn; try done.
      * intros r0 Hr0. simplify_eq. by rewrite Hnr.
      * intros _. split; [lia|]. rewrite HT. cbn. split; [lia|done].
    + apply (ahead_change s _ p); cbn; auto.
      * intros q Hne. by rewrite lookup_delete_ne.
      * right. cbn in ra_stores. lia.
      * intros r0. by rewrite lookup_delete_eq.
  - unfold order. cbn [transfers requests poppedState queue heap]. rewrite HT.
    cbn [app]. by rewrite (idsOf_cons _ _ r), idsOf_delete.
Qed.

Lemma live_setInst r (i : MyMinorDynInst I) : translationFault (ex i) = None → live r → live (setInst i r).
Proof.
  intros Hf []. split; try done. destruct lv_range as [a Ha]. exists a. by apply (ranged_same r).
Qed.

Lemma Inv_buffered s p r r' T : Inv s → queue (transfers s) = p :: T → heap s !! p = Some r →
  rq_state r = StoreToStoreBuffer → canInsert s = true →
  r' = setState StoreInStoreBuffer (setInst (setInStoreBuffer true (rq_inst r)) r) →
  taken s (id (rq_inst r))
    (poppedState s T (<[p := r']> (heap s)) (slots s ++ [p]) (popCounters (counters s) r 1)).
Proof.
  intros Hinv HT Hp Hst Hcan Hr'. pose proof Hinv as []. destruct (T_head_notin s p T Hinv HT) as [Hni Hnb].
  assert ((PT, p) ∈ tagged s) as Hin by (apply tagged_T; rewrite HT; by left).
  destruct (i_place _ _ Hin) as (r0 & Hr0 & Hok & Htid). simplify_eq.
  destruct (ranges_at s p PT r Hinv Hin Hp). unfold place_ok in Hok. rewrite Hst in Hok.
  destruct Hok as (Hl & Hi & Hnl & Hld). apply Z.ltb_lt in Hcan.
  set (r' := setState _ _). assert (live r') as Hl' by (apply live_setState, live_setInst; [apply Hl|done]).
  assert (unissued r' = true) as Hun by (unfold unissued; cbn; by rewrite orb_true_r).
  split.
  - apply (Inv_change s _ p (Some (PT, r)) (Some (PB, r')) (rest_of (queue (requests s)) T (slots s))).
    + done.
    + split; [|done]. unfold tagged. rewrite HT. apply rest_T_head.
    + split; [apply rest_B_tail|]. cbn. by rewrite lookup_insert_eq.
    + done.
    + by split.
    + split; cbn [contr unissuedIn]; rewrite ?Hun; cbn; unfold flightIn, inflight, numInFlight; cbn; lia.
    + destruct i_roomy. rewrite HT in m_T. cbn in m_T. split; cbn; rewrite ?length_app; cbn; lia.
    + split; [split_and!; done|]. split; [|done]. by apply i_fresh.
    + done.
    + apply (retry_keep s _ p (Some r')); cbn; try done.
      * intros r0 Hr0. simplify_eq. unfold retrying. by rewrite Hst.
      * by intros ? [= <-].
      * intros _. split; [lia|]. rewrite HT. cbn. split; [lia|done].
    + cbn in ra_stores. rewrite Hld in ra_stores. cbn in ra_stores.
      apply (ahead_change s _ p); cbn; auto.
      * intros q Hne. by rewrite lookup_insert_ne.
      * intros q Hne [?|?%list_elem_of_singleton]%elem_of_app; done.
      * right. lia.
      * intros r0 _ Hx. exfalso. apply Hni, elem_of_app. by right.
      * intros r0 _ _. left. lia.
  - unfold order. cbn [transfers requests poppedState queue heap]. rewrite HT.
    cbn [app]. by rewrite (idsOf_cons _ _ r), (idsOf_insert _ _ r).
Qed.

(** [popResponse], in one step. *)
Lemma popResponse_eq s p r T : Inv s → queue (transfers s) = p :: T → heap s !! p = Some r → ∀ s1 r1,
  heap s1 !! p = Some r1 → rq_isLoad r1 = rq_isLoad r → rq_issuedToMemory r1 = rq_issuedToMemory r →
  transfers s1 = transfers s → numStoresInTransfers (counters s1) = numStoresInTransfers (counters s) →
  numAccessesIssuedToMemory (counters s1) = numAccessesIssuedToMemory (counters s) →
  popResponse p s1 = Ok (tt, poppedState s1 T
    (if bool_decide (rq_state r1 = StoreInStoreBuffer) then heap s1 else delete p (heap s1))
    (slots s1) (popCounters (counters s1) r 0)).
Proof.
  intros Hinv HT Hp s1 r1 Hp1 Hl Hi Htr Hc1 Hc2.
  assert ((PT, p) ∈ tagged s) as Hin by (apply tagged_T; rewrite HT; by left).
  destruct (ranges_at s p PT r Hinv Hin Hp). cbn in ra_stores, ra_issued.
  unfold popResponse, sbind, sget, sassert, slift, Queue_pop. rewrite Htr, HT. cbn [head].
  rewrite bool_decide_eq_true_2 by done. cbn [assert_ rbind smod].
  rewrite (deref_eq _ _ r1) by done. rewrite Hl, Hi. unfold smod, sret.
  unfold poppedState, popCounters, free, smod, upd_heap, upd_queues, upd_counters, addStores, addIssued.
  destruct (rq_isLoad r), (rq_issuedToMemory r); cbn in *;
    rewrite ?u32_id by lia; rewrite ?Z.sub_0_r, ?Z.add_0_r, Htr; case_bool_decide; cbn;
    by destruct (counters s1).
Qed.

Lemma popResponse_taken s p r T : Inv s → queue (transfers s) = p :: T → heap s !! p = Some r →
  rq_state r = Complete ∨ rq_state r = StoreToStoreBuffer →
  wp (popResponse p) s (λ _ s', taken s (id (rq_inst r)) s').
Proof.
  intros Hinv HT Hp Hst. eexists tt, _. split; [by apply (popResponse_eq s p r T)|].
  rewrite bool_decide_eq_false_2 by (by destruct Hst as [-> | ->]).
  assert ((PT, p) ∈ tagged s) as Hin by (apply tagged_T; rewrite HT; by left).
  pose proof (at_place s PT p r Hinv Hin Hp) as Hok. unfold place_ok in Hok.
  apply Inv_popped; try done.
  - destruct Hst as [E|E]; rewrite E in Hok; [done|]. destruct Hok as ([] & ? & Hnl & _).
    unfold quiet, inflight, nonlocal in *. rewrite Hnl. lia.
  - unfold retrying. by destruct Hst as [-> | ->].
Qed.

(** A committed store goes to the store buffer. *)
Lemma sendStore_taken s p r T : Inv s → queue (transfers s) = p :: T → heap s !! p = Some r →
  rq_state r = StoreToStoreBuffer → canInsert s = true →
  wp (do! sendStoreToStoreBuffer p in popResponse p) s (λ _ s', taken s (id (rq_inst r)) s').
Proof.
  intros Hinv HT Hp Hst Hcan.
  assert ((PT, p) ∈ tagged s) as Hin by (apply tagged_T; rewrite HT; by left).
  destruct (ranges_at s p PT r Hinv Hin Hp).
  set (r1 := setInst (setInStoreBuffer true (rq_inst r)) r).
  apply wp_bind. unfold sendStoreToStoreBuffer. apply wp_bind. exists r, s. split; [by apply deref_eq|].
  apply wp_bind, wp_assert; [by apply bool_decide_eq_true|].
  apply wp_bind. eexists tt, _. split; [by apply (set_eq _ _ r)|].
  unfold insert. apply wp_bind, wp_mod, wp_bind, wp_mod, wp_bind. exists r1. eexists.
  split; [apply deref_eq; cbn; by rewrite lookup_insert_eq|].
  unfold isComplete. cbn [rq_state r1 setInst]. rewrite Hst, bool_decide_eq_false_2 by done.
  apply wp_bind. eexists tt, _. split; [apply (set_eq _ _ r1); cbn; by rewrite lookup_insert_eq|].
  apply wp_bind, wp_get, wp_mod. eexists tt, _. split.
  - apply (popResponse_eq s p r T Hinv HT Hp _ (setState StoreInStoreBuffer r1)); try done.
    cbn. by rewrite lookup_insert_eq.
  - rewrite bool_decide_eq_true_2 by done.
    replace (poppedState _ _ _ _ _) with (poppedState (upd_awake true s) T (<[p := setState StoreInStoreBuffer r1]> (heap s))
      (slots s ++ [p]) (popCounters (counters s) r 1)).
    + by apply (Inv_buffered (upd_awake true s) p r); [apply Inv_awake|..].
    + unfold poppedState, popCounters, upd_slots, upd_heap, upd_counters, addUnissued. cbn.
      rewrite insert_insert_eq, u32_id by lia. by rewrite Z.add_0_r.
Qed.

(** [findResponse] finds the head of [transfers] only, and only when it can
    be taken. *)
Lemma findResponse_spec s (inst : MyMinorDynInst I) : Inv s →
  (∀ i, i ∈ order s → ∃ b, InstId_eq i (id inst) = Ok b) →
  wp (findResponse inst) s (λ o s', s' = s ∧ match o with
    | None => True
    | Some p => ∃ r T, queue (transfers s) = p :: T ∧ heap s !! p = Some r
        ∧ InstId_eq (id (rq_inst r)) (id inst) = Ok true
        ∧ (rq_state r = Complete ∨ rq_state r = StoreToStoreBuffer ∧ canInsert s = true)
    end).
Proof.
  intros Hinv Hid. unfold findResponse. apply wp_bind, wp_get.
  destruct (queue (transfers s)) as [|p T] eqn:HT; [by apply wp_ret|].
  destruct (i_place _ Hinv PT p) as (r & Hp & _); [apply tagged_T; rewrite HT; by left|].
  apply wp_bind. exists r, s. split; [by apply deref_eq|].
  destruct (Hid (id (rq_inst r))) as [same Hsame].
  { unfold order. rewrite HT. cbn [app]. rewrite (idsOf_cons _ _ r) by done. by left. }
  apply wp_bind. exists same, s. split; [unfold slift; by rewrite Hsame|]. apply wp_ret. split; [done|].
  destruct (same && _) eqn:E; [|done]. apply andb_true_iff in E as [-> E].
  exists r, T. split_and!; try done. apply orb_true_iff in E as [E|E]; apply andb_true_iff in E as [E1 E2].
  - left. by apply bool_decide_eq_true in E1.
  - right. by apply bool_decide_eq_true in E1.
Qed.
End events.
