(* ===== verification/LsqPush.v ===== *)
(** * Translation, new requests and barriers keep the invariant

    The callbacks of the TLB, and the methods with which Execute puts requests
    and barriers into the load/store queue. *)
From stdpp Require Import gmap.
From S2P Require Import Prelude Buffers LVPT CVU PipeData LsqAddr LsqRequest Lsq LsqForward LsqInv.
From S2P Require Import LsqSteps LsqBuffer LsqEvents.

Section push.
Context `{I : Isa}.
Implicit Types (r : LSQRequest I) (s : LSQ I) (p : Ptr) (env : LsqEnv (I := I)) (f : SplitFields).

(** ** A translated access *)

(** what a translation leaves alone *)
Record same_inst r r' : Prop := {
  si_id : id (rq_inst r') = id (rq_inst r);
  si_load : rq_isLoad r' = rq_isLoad r;
  si_issued : rq_issuedToMemory r' = rq_issuedToMemory r;
}.

Lemma makePacket_data r a : translating r → q_paddr (rq_request r) = Some a → 0 ≤ a →
  a + q_size (rq_request r) < 2 ^ 64 →
  ∃ k, makePacket r = Ok (setData None (setPacket (Some k) r)) ∧ pk_response k = false
    ∧ pkt_data r k ∧ ranged r a.
Proof.
  intros [] Ha H0 H1. unfold makePacket. rewrite tr_fault, tr_packet. cbn.
  eexists. split; [done|]. split; [done|]. split; [|by split]. split; intros El; cbn; rewrite El.
  - eexists. split; [done|]. unfold uninit. rewrite length_replicate. lia.
  - intros ->. destruct (tr_data El) as (d & -> & Hl). by exists d.
Qed.

Lemma single_live r fl sent : translating r → rq_kind r = SingleDataRequest fl sent → ∀ a k,
  ranged r a → pk_response k = false → pkt_data r k →
  live (setData None (setPacket (Some k) r)) ∧ numIssued r = 0 ∧ numInFlight r = 0.
Proof.
  intros [] Hk a k Hra Hkr Hkd. rewrite Hk in tr_kind. destruct tr_kind as [-> ->].
  split; [|unfold numIssued, numInFlight; by rewrite Hk].
  split; unfold numIssued, numInFlight, numTotal; cbn; rewrite ?Hk; cbn; try (done || lia).
  - congruence.
  - exists a. by apply (ranged_same r).
  - by exists k.
Qed.

(** a split request whose first fragments have been translated *)
Record prepared r f : Prop := {
  pr_kind : rq_kind r = SplitDataRequest f;
  pr_fault : translationFault (ex (rq_inst r)) = None;
  pr_skip : rq_skipped r = false;
  pr_vaddr : 0 ≤ q_vaddr (rq_request r) ∧ q_vaddr (rq_request r) + q_size (rq_request r) < 2 ^ 64;
  pr_size : 0 < q_size (rq_request r);
  pr_enable : Z.of_nat (length (q_byteEnable (rq_request r))) = q_size (rq_request r);
  pr_packet : rq_packet r = None;
  pr_data : rq_isLoad r = false →
              ∃ d : list Z, rq_data r = Some (Some <$> d) ∧ Z.of_nat (length d) = q_size (rq_request r);
  pr_none : numIssuedFragments f = 0 ∧ numRetiredFragments f = 0 ∧ fragmentPackets f = [];
  pr_some : 0 < numTranslatedFragments f ≤ Z.of_nat (length (fragmentRequests f));
  pr_small : numTranslatedFragments f < 2 ^ 32;
  pr_inside : Forall (inside (q_vaddr (rq_request r)) (q_size (rq_request r))) (fragmentRequests f);
  pr_paddr : Forall (λ q, hasPaddr q = true)
               (take (Z.to_nat (numTranslatedFragments f)) (fragmentRequests f));
  pr_first : ∀ q, fragmentRequests f !! 0%nat = Some q →
               ∃ a, q_paddr q = Some a ∧ 0 ≤ a ∧ a + q_size (rq_request r) < 2 ^ 64;
  pr_llsc : llsc (q_flags (rq_request r)) = false;
  pr_llscs : Forall (λ q, llsc (q_flags q) = false) (fragmentRequests f);
}.

Lemma prepared_live r f : prepared r f → ∃ r', makeFragmentPackets r = Ok r' ∧ live r'
  ∧ numIssued r' = 0 ∧ numInFlight r' = 0 ∧ same_inst r r' ∧ rq_state r' = rq_state r.
Proof.
  intros [Hkind Hfault Hskip Hva Hsz Hen Hpkt Hdata Hnone Hsome Hsmall Hins Hpa Hfirst Hllsc Hllscs].
  unfold makeFragmentPackets. rewrite Hkind.
  destruct (Z.ltb_spec 0 (numTranslatedFragments f)); [|lia]. cbn [assert_ rbind].
  destruct Hnone as (Hi & Hr & Hnil). rewrite Hnil.
  replace (numTranslatedFragments f - 1) with (Z.of_nat (Z.to_nat (numTranslatedFragments f)) - 1) by lia.
  rewrite (mfold_vget_take (makeFragmentPacket (q_vaddr (rq_request r)))) by lia. set (fs := take _ (fragmentRequests f)) in *.
  destruct (makeFragmentPacket_loop fs r []) as (r1 & ps & Heq & Hps & []); try done; try lia.
  { intros El. destruct (Hdata El) as (d & -> & Hd). eexists. split; [done|]. by rewrite length_fmap. }
  { by apply Forall_take. }
  pose proof (makeFragmentPacket_loop_llsc _ _ _ _ _ _ Heq) as Hll.
  rewrite Heq. cbn [rbind app].
  destruct (vget_lt (fragmentRequests f) 0) as [q Hq]; [lia|]. rewrite Hq. cbn [rbind].
  apply vget_Ok in Hq as [_ Hq]. destruct (Hfirst q Hq) as (a & Ha & Ha0 & Ha1).
  unfold getPaddr. rewrite Ha. cbn [rbind]. unfold makePacket. cbn.
  rewrite sa_inst, sa_packet, Hfault, Hpkt. cbn. eexists. split; [done|].
  assert (Z.of_nat (length ps) = numTranslatedFragments f) as Hlen.
  { apply Forall2_length in Hps. unfold fs in Hps. rewrite length_take in Hps. lia. }
  split; [|split_and!; try done; unfold numIssued, numInFlight; cbn; try lia; split; cbn; congruence].
  split; unfold numIssued, numInFlight, numTotal; cbn;
    rewrite ?sa_inst, ?sa_skip, ?sa_vaddr, ?sa_size, ?sa_enable; try (done || lia).
  - congruence.
  - exists a. split; cbn; rewrite ?sa_size; done || lia.
  - eexists. split; [done|]. split; [done|]. split; cbn; rewrite sa_load; intros El; rewrite ?El.
    + eexists. split; [done|]. unfold uninit. rewrite length_replicate, sa_size. lia.
    + intros ->. destruct (Hdata El) as (d & Hd & Hl). exists d. by rewrite sa_data, sa_size.
  - split_and!; try done; try lia. apply Hll; [by apply Forall_take|done].
Qed.

(** ** Replies of the TLB *)

(** A reply that the TLB may give: a physical address in range; for a split
    request, for the fragment that is being translated, which is no LL/SC
    access.  A fault of an unsplit access that was delayed is not suppressed. *)
Definition reply_ok r (idx : Z) (t : TlbReply) (suppressed : bool) : Prop :=
  match rq_kind r with
  | SingleDataRequest _ _ =>
      if faultSet (t_fault t) then rq_isTranslationDelayed r && suppressed = false
      else 0 ≤ t_paddr t ∧ t_paddr t + q_size (rq_request r) < 2 ^ 64
  | SplitDataRequest f =>
      idx = numTranslatedFragments f ∧ translationEvent f = false
      ∧ (faultSet (t_fault t) = false → llsc (t_flags t) = false
           ∧ (idx = 0 → 0 ≤ t_paddr t ∧ t_paddr t + q_size (rq_request r) < 2 ^ 64))
  | _ => False
  end.

(** What a reply makes of a request. *)
Definition replied r r' (dtlb : Z) : Prop :=
  same_inst r r' ∧ place_ok PR r' ∧ inflight r' = 0 ∧ numIssued r' = 0 ∧ inTLB r' = dtlb
  ∧ rq_state r' ≠ RequestNeedsRetry.

Lemma inflight_zero r : numInFlight r = 0 → inflight r = 0.
Proof. intros H0. unfold inflight. rewrite H0. by destruct (q_localAccess _). Qed.

Lemma translating_setters r q st : translating r → q_vaddr q = q_vaddr (rq_request r) →
  q_size q = q_size (rq_request r) → q_byteEnable q = q_byteEnable (rq_request r) →
  (∀ f, rq_kind r = SplitDataRequest f → llsc (q_flags q) = false) →
  translating (setState st (setRequest q r)).
Proof.
  intros [] H1 H2 H3 Hll. split; cbn; rewrite ?H1, ?H2, ?H3; try done.
  destruct (rq_kind r) as [|f| |]; try done. specialize (Hll f eq_refl).
  destruct tr_kind as (?&?&?&?&?&?&?&?&?&?&?&?). split_and!; done || lia.
Qed.

Lemma finishSingle_replied r fl sent t suppressed : translating r → rq_state r = InTranslation →
  rq_kind r = SingleDataRequest fl sent → reply_ok r 0 t suppressed →
  ∃ r', finishSingle t suppressed r = Ok r' ∧ replied r r' 0 ∧ inTLB r = 1.
Proof.
  intros Htr Hst Hk Hrep. unfold reply_ok in Hrep. rewrite Hk in Hrep.
  assert (inTLB r = 1) as H1 by (unfold inTLB; by rewrite Hst, Hk).
  pose proof Htr as []. rewrite Hk in tr_kind. destruct tr_kind as [-> ->].
  unfold finishSingle. destruct (faultSet (t_fault t)) eqn:Hf.
  - eexists. split; [done|]. split; [|done].
    set (r1 := setInst _ r). set (r2 := if rq_isTranslationDelayed r1 then _ else r1).
    assert (r2 = r1) as ->.
    { unfold r2. change (rq_isTranslationDelayed r1) with (rq_isTranslationDelayed r).
      destruct (rq_isTranslationDelayed r); [|done]. cbn in Hrep. subst suppressed. cbn. by rewrite Hf. }
    assert (numInFlight (setState Translated r1) = 0 ∧ numIssued (setState Translated r1) = 0) as [Hn0 Hi0]
      by (unfold numInFlight, numIssued; cbn; by rewrite Hk).
    split; [done|]. split; [|split_and!; try done; by apply inflight_zero].
    cbn. left. split; [done|]. by apply inflight_zero.
  - set (r1 := setState _ _).
    assert (translating r1) as Htr1 by (by apply translating_setters; try done; intros f; rewrite Hk).
    destruct (makePacket_data r1 (t_paddr t) Htr1) as (k & -> & Hkr & Hkd & Hra); try done; try apply Hrep.
    destruct (single_live r1 false false Htr1 Hk _ k Hra Hkr Hkd) as (Hl & Hi0 & Hn0).
    eexists. split; [done|]. split; [|done]. split; [done|]. split; [by right|].
    split_and!; try done. by apply inflight_zero.
Qed.

(** The fragments after a reply without a fault. *)
Lemma frags_translated r f t q n : translating r → rq_kind r = SplitDataRequest f →
  n = Z.to_nat (numTranslatedFragments f) → fragmentRequests f !! n = Some q →
  llsc (t_flags t) = false →
  (numTranslatedFragments f = 0 → 0 ≤ t_paddr t ∧ t_paddr t + q_size (rq_request r) < 2 ^ 64) →
  let frags := <[n := translated t q]> (fragmentRequests f) in
  Forall (inside (q_vaddr (rq_request r)) (q_size (rq_request r))) frags
  ∧ Forall (λ q, hasPaddr q = true) (take (S n) frags)
  ∧ (∀ q, frags !! 0%nat = Some q →
       ∃ a, q_paddr q = Some a ∧ 0 ≤ a ∧ a + q_size (rq_request r) < 2 ^ 64)
  ∧ Forall (λ q, llsc (q_flags q) = false) frags.
Proof.
  intros [] Hk Hn Hq Ht Ha frags. rewrite Hk in tr_kind.
  destruct tr_kind as (_ & _ & _ & Hlt & Hlen & _ & Hin & Hpa & Hfirst & _ & _ & Hll). subst frags.
  split_and!.
  - apply Forall_insert; [done|]. rewrite Forall_lookup in Hin. exact (Hin _ _ Hq).
  - assert (n < length (fragmentRequests f))%nat as Hnl by by eapply lookup_lt_Some.
    rewrite (take_S_r _ _ (translated t q)) by by rewrite list_lookup_insert_eq.
    apply Forall_app. split; [|by constructor]. rewrite take_insert_ge by lia. by rewrite Hn.
  - intros q0 Hq0. destruct (decide (n = 0%nat)) as [E|E].
    + rewrite E, list_lookup_insert_eq in Hq0 by (rewrite <- E; by eapply lookup_lt_Some).
      injection Hq0 as <-. exists (t_paddr t). split; [done|]. apply Ha. lia.
    + rewrite list_lookup_insert_ne in Hq0 by done. apply Hfirst; [done|lia].
  - apply Forall_insert; [done|]. rewrite Forall_lookup in Hll. cbn. by rewrite (Hll _ _ Hq), Ht.
Qed.

(** A split request whose translation goes on. *)
Lemma translating_next r f t q : translating r → rq_kind r = SplitDataRequest f →
  fragmentRequests f !! Z.to_nat (numTranslatedFragments f) = Some q →
  translationEvent f = false → llsc (t_flags t) = false →
  (numTranslatedFragments f = 0 → 0 ≤ t_paddr t ∧ t_paddr t + q_size (rq_request r) < 2 ^ 64) →
  numTranslatedFragments f + 1 < numFragments f →
  translating (setKind (SplitDataRequest (splitReplied f
    (<[Z.to_nat (numTranslatedFragments f) := translated t q]> (fragmentRequests f)) true
    (numTranslatedFragments f + 1))) r).
Proof.
  intros Htr Hk Hq He Ht Ha Hlt. destruct (frags_translated r f t q _ Htr Hk eq_refl Hq Ht Ha)
    as (Hin & Hpa & Hfirst & Hll). pose proof Htr as []. rewrite Hk in tr_kind.
  destruct tr_kind as (? & ? & ? & Hr & Hlen & ? & _ & _ & _ & Hnt & Hl & _).
  split; cbn; try done. rewrite length_insert, Hnt, He. split_and!; try (done || lia); auto.
  by replace (Z.to_nat (numTranslatedFragments f + 1)) with (S (Z.to_nat (numTranslatedFragments f))) by lia.
Qed.

(** A split request whose translation has ended. *)
Lemma prepared_done r f t q : translating r → rq_kind r = SplitDataRequest f →
  fragmentRequests f !! Z.to_nat (numTranslatedFragments f) = Some q →
  llsc (t_flags t) = false →
  (numTranslatedFragments f = 0 → 0 ≤ t_paddr t ∧ t_paddr t + q_size (rq_request r) < 2 ^ 64) →
  let f' := splitReplied f
    (<[Z.to_nat (numTranslatedFragments f) := translated t q]> (fragmentRequests f))
    (translationEvent f) (numTranslatedFragments f + 1) in
  prepared (setKind (SplitDataRequest f') r) f'.
Proof.
  intros Htr Hk Hq Ht Ha f'. destruct (frags_translated r f t q _ Htr Hk eq_refl Hq Ht Ha)
    as (Hin & Hpa & Hfirst & Hll). pose proof Htr as []. rewrite Hk in tr_kind.
  destruct tr_kind as (? & ? & ? & Hr & Hlen & ? & _ & _ & _ & Hnt & Hl & _).
  split; cbn; try done; rewrite ?length_insert; try lia.
  by replace (Z.to_nat (numTranslatedFragments f + 1)) with (S (Z.to_nat (numTranslatedFragments f))) by lia.
Qed.

(** A split request whose fault was suppressed after some fragments. *)
Lemma prepared_suppressed r f (i : MyMinorDynInst I) : translating r → rq_kind r = SplitDataRequest f →
  0 < numTranslatedFragments f → translationFault (ex i) = None →
  let f' := splitReplied f (fragmentRequests f) (translationEvent f) (numTranslatedFragments f) in
  prepared (setKind (SplitDataRequest f') (setState Translated (setInst i r))) f'.
Proof.
  intros [] Hk H0 Hi f'. rewrite Hk in tr_kind.
  destruct tr_kind as (? & ? & ? & Hr & Hlen & ? & ? & ? & Hfirst & ? & ? & ?).
  split; cbn; try done; try lia. intros q Hq. by apply Hfirst.
Qed.

(** A split request that ends with a fault, or without packets. *)
Lemma faulted_replied r f st frags ev n i : translating r → rq_kind r = SplitDataRequest f →
  id i = id (rq_inst r) → st = Complete ∨ st = Translated ∧ faultSet (translationFault (ex i)) = true →
  replied r (setKind (SplitDataRequest (splitReplied f frags ev n)) (setState st (setInst i r))) 0.
Proof.
  intros [] Hk Hid Hst. rewrite Hk in tr_kind. destruct tr_kind as (Hi0 & Hr0 & _). set (r' := setKind _ _).
  assert (numInFlight r' = 0 ∧ numIssued r' = 0) as [H1 H2] by (unfold numInFlight, numIssued; cbn; lia).
  pose proof (inflight_zero r' H1) as H3. split; [by split|].
  destruct Hst as [-> | [-> Hf]]; (split; [|split_and!; done]).
  - exact H3.
  - left. by split.
Qed.

Lemma finishSplit_replied r f idx t suppressed : translating r → rq_state r = InTranslation →
  rq_kind r = SplitDataRequest f → reply_ok r idx t suppressed →
  ∃ r' b, finishSplit t suppressed idx f r = Ok (r', b) ∧ replied r r' 0 ∧ inTLB r = 1.
Proof.
  intros Htr Hst Hk Hrep. unfold reply_ok in Hrep. rewrite Hk in Hrep. destruct Hrep as (-> & Hev & Hok).
  pose proof Htr as []. rewrite Hk in tr_kind.
  destruct tr_kind as (_ & _ & _ & Hr & Hlen & Hsm & _ & _ & _ & Hnt & _ & _).
  assert (inTLB r = 1) as H1 by (unfold inTLB; by rewrite Hst, Hk, bool_decide_eq_true_2, Hnt, Hev).
  unfold finishSplit. rewrite Z.eqb_refl, (u32_id (numTranslatedFragments f + 1)) by lia.
  destruct (faultSet (t_fault t)) eqn:Hf; cbn [rbind assert_].
  - set (r1 := setInst _ r). set (r2 := if _ || _ then _ else r1).
    assert (∃ i, r2 = setInst i r ∧ id i = id (rq_inst r)
      ∧ (translationFault (ex i) = None ∨ translationFault (ex i) = t_fault t)
      ∧ (translationFault (ex i) = None → 0 < numTranslatedFragments f ∨ rq_isTranslationDelayed r = true))
      as (i & -> & Hid & Hor & Hwhy).
    { unfold r2, r1. change (rq_isTranslationDelayed (setInst _ r)) with (rq_isTranslationDelayed r).
      destruct (_ || _) eqn:E.
      - apply orb_true_iff in E. rewrite Z.ltb_lt in E. destruct suppressed; eexists; split_and!; try done; auto.
      - eexists. split_and!; try done; auto. intros E2. cbn in E2. by rewrite E2 in Hf. }
    cbn [rq_inst setInst]. change (rq_isTranslationDelayed (setInst i r)) with (rq_isTranslationDelayed r).
    destruct (Z.eqb_spec (numTranslatedFragments f) 0) as [E0|E0].
    + eexists _, _. split; [done|]. split; [|done]. apply faulted_replied; try done.
      destruct Hor as [Hn|Hn]; rewrite Hn.
      * destruct (Hwhy Hn) as [?| ->]; [lia|]. by left.
      * rewrite Hf, andb_false_r. by right.
    + destruct Hor as [Hn|Hn]; rewrite Hn, ?Hf; cbn [negb faultSet].
      * rewrite u32_id by lia. replace (numTranslatedFragments f + 1 - 1) with (numTranslatedFragments f) by lia.
        destruct (prepared_live _ _ (prepared_suppressed r f i Htr Hk ltac:(lia) Hn))
          as (r' & -> & Hl & Hi0 & Hn0 & [] & Hs). cbn in *. eexists _, _. split; [done|]. split; [|done].
        split; [split; congruence|]. unfold place_ok, inTLB. rewrite Hs. split; [by right|].
        split_and!; try done. by apply inflight_zero.
      * eexists _, _. split; [done|]. split; [|done]. apply faulted_replied; try done.
        right. by rewrite Hn.
  - destruct (Hok eq_refl) as [Ht Ha].
    destruct (vget_lt (fragmentRequests f) (numTranslatedFragments f)) as [q Hq]; [lia|].
    rewrite Hq. apply vget_Ok in Hq as [_ Hq]. cbn [rbind]. rewrite vset_lt by lia. cbn [rbind].
    destruct (Z.eqb_spec (numTranslatedFragments f + 1) (numFragments f)) as [E|E].
    + destruct (prepared_live _ _ (prepared_done r f t q Htr Hk Hq Ht Ha))
        as (r' & -> & Hl & Hi0 & Hn0 & [] & Hs). cbn in *. eexists _, _. split; [done|]. split; [|done].
      split; [split; done|]. split; [right; split; [by apply live_setState|done]|].
      split_and!; try done. by apply inflight_zero.
    + rewrite Hev. cbn [negb assert_ rbind]. eexists _, _. split; [done|]. split; [|done].
      pose proof (translating_next r f t q Htr Hk Hq Hev Ht Ha ltac:(lia)) as Hnext.
      set (r' := setKind _ r) in *. pose proof Hnext as []. cbn in tr_kind.
      destruct tr_kind as (Hi0 & Hr0 & _).
      split; [by split|]. unfold place_ok. change (rq_state r') with (rq_state r). rewrite Hst.
      split; [done|]. split_and!; try done.
      * apply inflight_zero. unfold numInFlight. cbn. lia.
      * unfold inTLB. cbn. rewrite Hst, bool_decide_eq_true_2, Hnt, Hev by done. done.
Qed.

(** ** [finish] *)

Lemma Inv_replied s p r r' : Inv s → p ∈ queue (requests s) → heap s !! p = Some r →
  rq_state r = InTranslation → inTLB r = 1 → replied r r' 0 →
  let s' := changed s p r' (addInDTLB (-1) (counters s)) (mstate s) (retryRequest s) (numSends s) in
  Inv s' ∧ order s' = order s.
Proof.
  intros Hinv Hin%tagged_R Hp Hst H1 ([Hid Hld Hiss] & Hok & Hfl & Hi0 & Ht0 & Hnr). pose proof Hinv as [].
  destruct (ranges_at s p PR r Hinv Hin Hp). cbn in ra_dtlb. rewrite H1 in ra_dtlb.
  pose proof (at_place s PR p r Hinv Hin Hp) as Hok0. unfold place_ok in Hok0. rewrite Hst in Hok0.
  assert (inflight r = 0) as Hfl0.
  { apply inflight_zero. destruct Hok0. unfold numInFlight. destruct (rq_kind r); try done.
    - by destruct tr_kind as [-> _].
    - destruct tr_kind as (? & ? & _). lia. }
  apply (Inv_changed s p PR r); try done.
  - split; cbn [contr changed counters addInDTLB numUnissuedAccesses numAccessesInMemorySystem
      numAccessesInDTLB numStoresInTransfers numAccessesIssuedToMemory];
      unfold flightIn, dtlbIn, storeIn, issuedIn, unissuedIn;
      rewrite ?Hfl, ?Hfl0, ?Hiss, ?H1, ?Ht0; rewrite ?u32_id by lia; lia.
  - apply (retry_keep s _ p (Some r')); try done.
    + intros r0 Hr0. simplify_eq. unfold retrying. by rewrite Hst.
    + intros r0 [= <-] E. unfold retrying, place_ok in *. by destruct (rq_state r').
  - intros _. by apply started_none.
Qed.

Lemma changed_in s p r' c : heap (changed s p r' c (mstate s) (retryRequest s) (numSends s)) !! p = Some r'.
Proof. cbn. by rewrite lookup_insert_eq. Qed.

(** [finish] on a reply of the TLB to a translation that is under way. *)
Lemma finish_moves env s p r idx t suppressed : Inv s → p ∈ queue (requests s) → heap s !! p = Some r →
  rq_state r = InTranslation → reply_ok r idx t suppressed → moves (finish env p idx t suppressed) s.
Proof.
  intros Hinv Hin Hp Hst Hrep.
  pose proof (at_place s PR p r Hinv (proj2 (tagged_R s p) Hin) Hp) as Htr. unfold place_ok in Htr.
  set (s0 := upd_awake true s). pose proof (Inv_awake true s Hinv : Inv s0) as Hinv0.
  rewrite Hst in Htr. unfold moves, finish. apply wp_bind. exists r, s. split; [by apply deref_eq|].
  assert (∀ r', replied r r' 0 → inTLB r = 1 →
    let s' := changed s0 p r' (addInDTLB (-1) (counters s0)) (mstate s0) (retryRequest s0) (numSends s0) in
    (Inv s' ∧ order s' = order s) ∧ wp (tryToSendToTransfers env p) s' (λ _ s', Inv s' ∧ order s' = order s))
    as Hgo.
  { intros r' Hr' H1 s'. destruct (Inv_replied s0 p r r') as [Hinv' Ho]; try done. split; [done|].
    eapply wp_conseq; [by apply tryToSendToTransfers_moves|]. cbn. intros _ s2 [? ?]. split; [done|by etrans]. }
  destruct (rq_kind r) as [fl sent|f| |] eqn:Hk; [| |by apply wp_ret..].
  - assert (reply_ok r 0 t suppressed) as Hrep0 by (unfold reply_ok in *; by rewrite Hk in *).
    destruct (finishSingle_replied r fl sent t suppressed) as (r' & Hr' & Hrd & H1); try done.
    apply wp_bind, wp_mod, wp_bind, wp_mod, wp_bind. eexists tt, _. split; [by apply (update_eq _ _ r)|]. by apply Hgo.
  - destruct (finishSplit_replied r f idx t suppressed) as (r' & b & Hr' & Hrd & H1); try done.
    apply wp_bind, wp_mod, wp_bind, wp_mod, wp_bind. eexists _, _. split; [unfold slift; by rewrite Hr'|].
    apply wp_bind. eexists tt, _. split; [by apply (set_eq _ _ r)|]. cbn [fst snd].
    destruct b; [by apply Hgo|by apply wp_ret; apply Hgo].
Qed.

(** The translation event of a split request sends its next fragment. *)
Lemma sendNextFragment_moves s p r f : Inv s → p ∈ queue (requests s) → heap s !! p = Some r →
  rq_state r = InTranslation → rq_kind r = SplitDataRequest f → translationEvent f = true →
  wp (sendNextFragmentToTranslation p) s (λ _ s', Inv s' ∧ order s' = order s).
Proof.
  intros Hinv Hin Hp Hst Hk Hev. pose proof Hinv as []. apply tagged_R in Hin.
  pose proof (at_place s PR p r Hinv Hin Hp) as Htr. unfold place_ok in Htr. rewrite Hst in Htr.
  pose proof Htr as []. rewrite Hk in tr_kind.
  destruct tr_kind as (Hi0 & Hr0 & Hps & Hr & Hlen & Hsm & Hins & Hpa & Hfirst & Hnt & Hll & Hlls).
  rewrite Hev in Hnt. cbn in Hnt. destruct (ranges_at s p PR r Hinv Hin Hp).
  unfold sendNextFragmentToTranslation. apply wp_bind. exists r, s. split; [by apply deref_eq|]. rewrite Hk.
  apply wp_bind, wp_mod, wp_bind. destruct (vget_lt (fragmentRequests f) (numTranslatedFragments f)) as [q Hq]; [lia|].
  eexists q, _. split; [unfold slift; by rewrite Hq|]. apply wp_bind.
  eexists tt, _. split; [by apply (set_eq _ _ r)|]. apply wp_ret. set (r' := setKind _ r).
  change (upd_heap _ _) with (changed s p r' (addInDTLB 1 (counters s)) (mstate s) (retryRequest s) (numSends s)).
  assert (inTLB r = 0) as H0 by (unfold inTLB; by rewrite Hst, Hk, bool_decide_eq_true_2, Hnt).
  assert (inTLB r' = 1) as H1.
  { unfold inTLB. cbn. by rewrite Hst, bool_decide_eq_true_2, Hnt. }
  apply (Inv_changed s p PR r); try done.
  - unfold place_ok. cbn [rq_state r' setKind]. rewrite Hst. split; cbn; try done. rewrite Hnt.
    split_and!; done || lia.
  - split; cbn [contr changed counters addInDTLB numUnissuedAccesses numAccessesInMemorySystem
      numAccessesInDTLB numStoresInTransfers numAccessesIssuedToMemory];
      unfold flightIn, dtlbIn, storeIn, issuedIn, unissuedIn; rewrite ?H0, ?H1; try (cbn; lia).
    + unfold inflight, numInFlight. cbn. rewrite Hk. lia.
    + rewrite u32_id by (cbn in ra_dtlb; lia). lia.
  - apply (retry_keep s _ p (Some r')); try done.
    + intros r0 Hr0'. simplify_eq. unfold retrying. by rewrite Hst.
    + intros r0 [= <-]. unfold retrying. cbn. by rewrite Hst.
  - intros _. apply started_none; [done|]. cbn. by rewrite Hst.
Qed.

(** The TLB marks a translation as delayed. *)
Lemma markDelayed_moves s p r : Inv s → p ∈ queue (requests s) → heap s !! p = Some r →
  rq_state r = InTranslation → moves (set p markDelayed) s.
Proof.
  intros Hinv Hin Hp Hst. pose proof Hinv as []. apply tagged_R in Hin.
  pose proof (at_place s PR p r Hinv Hin Hp) as Htr. unfold place_ok in Htr. rewrite Hst in Htr.
  eexists tt, _. split; [by apply (set_eq _ _ r)|]. set (r' := markDelayed r).
  change (upd_heap _ _) with (changed s p r' (counters s) (mstate s) (retryRequest s) (numSends s)).
  apply (Inv_changed s p PR r); try done.
  - unfold place_ok. cbn [rq_state r' markDelayed]. rewrite Hst. by destruct Htr.
  - split; cbn; unfold flightIn, inflight, numInFlight, inTLB; cbn; lia.
  - apply (retry_keep s _ p (Some r')); try done.
    + intros r0 Hr0'. simplify_eq. unfold retrying. by rewrite Hst.
    + intros r0 [= <-]. unfold retrying. cbn. by rewrite Hst.
  - intros _. apply (started_same s p r); try done. by apply tagged_R.
Qed.

(** ** Barriers *)

Lemma Inv_upd_barrier s lb : Inv s → length lb = length (lastMemBarrier s) →
  Inv (upd_barrier lb s) ∧ order (upd_barrier lb s) = order s.
Proof.
  intros [] Hl. split; [|done]. split; try done.
  - intros pl p Hin. cbn. rewrite Hl. by apply i_place.
  - by destruct i_sized.
  - by destruct i_roomy.
  - by destruct i_counted.
  - by destruct i_retry.
Qed.

Lemma issuedMemBarrier_moves s (inst : MyMinorDynInst I) last : Inv s →
  isInst inst && isFullMemBarrier (staticInst inst) = true →
  getLastMemBarrier s (threadId (id inst)) = Ok last → last < execSeqNum (id inst) →
  moves (issuedMemBarrierInst inst) s.
Proof.
  intros Hinv Hb Hlast Hlt. unfold moves, issuedMemBarrierInst. apply wp_bind, wp_assert; [done|].
  apply wp_bind, wp_get, wp_bind. unfold getLastMemBarrier in Hlast.
  exists last, s. split; [unfold slift; by rewrite Hlast|]. apply wp_bind, wp_assert; [by apply Z.ltb_lt|].
  apply vget_Ok in Hlast as [H0 Hl]. apply lookup_lt_Some in Hl.
  apply wp_bind. eexists _, _. split; [unfold slift; by rewrite vset_lt by lia|].
  apply wp_mod. apply Inv_upd_barrier; [done|]. by rewrite length_insert.
Qed.

Lemma clearMemBarrier_moves s (inst : MyMinorDynInst I) : Inv s →
  0 ≤ threadId (id inst) < Z.of_nat (length (lastMemBarrier s)) → moves (clearMemBarrier inst) s.
Proof.
  intros Hinv Ht. destruct (clearMemBarrier_eq s inst Ht) as (lb & Heq & Hl).
  exists tt, (upd_barrier lb s). split; [done|]. by apply Inv_upd_barrier.
Qed.

Lemma fresh_ptr s : Inv s → heap s !! nextPtr s = None.
Proof. intros []. apply eq_None_not_Some. intros H. specialize (i_fresh _ H). lia. Qed.

(** the queue with a barrier *)
Definition barredState s r : LSQ I :=
  mkLSQ (cfg s) (<[nextPtr s := r]> (heap s)) (nextPtr s + 1) (lastMemBarrier s) (mstate s) (requests s)
    (transfers s) (slots s ++ [nextPtr s]) (addUnissued 1 (counters s)) (retryRequest s) (cvu s) (numSends s) (lsqAwake s).

Lemma idsOf_fresh (H : gmap Z (LSQRequest I)) p r l : p ∉ l → idsOf (<[p := r]> H) l = idsOf H l.
Proof.
  unfold idsOf. induction l as [|q l IH]; intros Hp; [done|]. cbn.
  apply not_elem_of_cons in Hp as [Hne Hp]. rewrite IH by done. by rewrite lookup_insert_ne by congruence.
Qed.

Lemma fresh_notin s pl p : Inv s → (pl, p) ∈ tagged s → p ≠ nextPtr s.
Proof.
  intros Hinv Hin ->. destruct (i_place _ Hinv _ _ Hin) as (r & Hr & _).
  pose proof (fresh_ptr s Hinv). congruence.
Qed.

Lemma fresh_order s : Inv s → nextPtr s ∉ queue (transfers s) ++ queue (requests s).
Proof.
  intros Hinv [Hx|Hx]%elem_of_app.
  - by apply (fresh_notin s PT (nextPtr s) Hinv (proj2 (tagged_T s _) Hx)).
  - by apply (fresh_notin s PR (nextPtr s) Hinv (proj2 (tagged_R s _) Hx)).
Qed.

Lemma Inv_barred s (inst : MyMinorDynInst I) : Inv s → canInsert s = true →
  0 ≤ threadId (id inst) < Z.of_nat (length (lastMemBarrier s)) →
  Inv (barredState s (newBarrier inst)) ∧ order (barredState s (newBarrier inst)) = order s.
Proof.
  intros Hinv Hcan%Z.ltb_lt Ht. pose proof Hinv as []. pose proof (fresh_ptr s Hinv) as Hf.
  destruct (Inv_ranges s (nextPtr s) None (tagged s) Hinv); [done|]. split.
  - apply (Inv_change s _ (nextPtr s) None (Some (PB, newBarrier inst)) (tagged s)).
    + done.
    + done.
    + split; [apply rest_B_tail|]. cbn. by rewrite lookup_insert_eq.
    + done.
    + split; try done. cbn. lia.
    + split; cbn; rewrite ?u32_id by lia; unfold flightIn, inflight; cbn; lia.
    + destruct i_roomy. split; cbn; rewrite ?length_app; cbn; lia.
    + split; [split_and!; try done; by intros []|]. cbn. split; [lia|done].
    + done.
    + apply (retry_keep s _ (nextPtr s) (Some (newBarrier inst))); cbn; try done.
      * intros r Hr. congruence.
      * by intros ? [= <-].
    + apply (ahead_change s _ (nextPtr s)); cbn; auto.
      * intros q Hne. by rewrite lookup_insert_ne.
      * intros q Hne [?|?%list_elem_of_singleton]%elem_of_app; done.
      * intros r _ Hx. by destruct (fresh_notin s PR (nextPtr s) Hinv (proj2 (tagged_R s _) Hx)).
      * intros r _ Hr. rewrite lookup_insert_eq in Hr. injection Hr as <-. right; left. done.
  - unfold order. cbn. by apply idsOf_fresh, fresh_order.
Qed.

(** [completeMemBarrierInst]; a committed barrier needs a slot. *)
Lemma completeMemBarrier_moves s (inst : MyMinorDynInst I) committed : Inv s →
  (committed = true → inStoreBuffer (ex inst) = false → canInsert s = true) →
  0 ≤ threadId (id inst) < Z.of_nat (length (lastMemBarrier s)) →
  moves (completeMemBarrierInst inst committed) s.
Proof.
  intros Hinv Hcan Ht. unfold moves, completeMemBarrierInst. destruct committed; [|by apply clearMemBarrier_moves].
  destruct (inStoreBuffer (ex inst)) eqn:E; [by apply wp_ret|].
  apply wp_bind. eexists _, _. split; [done|]. unfold insert. apply wp_bind, wp_mod, wp_bind, wp_mod, wp_bind.
  exists (newBarrier inst). eexists. split; [apply deref_eq; cbn; by rewrite lookup_insert_eq|].
  cbn [isComplete newBarrier newLSQRequest rq_state]. unfold isComplete. cbn.
  rewrite bool_decide_eq_true_2 by done. apply wp_bind, wp_ret, wp_bind, wp_get, wp_mod.
  apply (Inv_barred (upd_awake true s) inst); auto using Inv_awake.
Qed.

(** ** New requests *)

(** the queue with the new request [r]; [d] translations were started *)
Definition pushedState s r (d : Z) : LSQ I :=
  let c := counters s in
  mkLSQ (cfg s) (<[nextPtr s := r]> (heap s)) (nextPtr s + 1) (lastMemBarrier s) (mstate s)
    (mkQueue (queue (requests s) ++ [nextPtr s]) (numReservedSlots (requests s)) (capacity (requests s)))
    (transfers s) (slots s)
    (mkCounters (numUnissuedAccesses c) (numAccessesInMemorySystem c) (numAccessesInDTLB c + d)
       (numStoresInTransfers c) (numAccessesIssuedToMemory c)) (retryRequest s) (cvu s) (numSends s) (lsqAwake s).

Lemma canRequest_room s : Inv s → canRequest s = true →
  Z.of_nat (length (queue (requests s))) < capacity (requests s).
Proof.
  intros [] H%negb_true_iff%Z.eqb_neq. destruct i_sized, i_roomy. rewrite room_eq in H by done. lia.
Qed.

Lemma Inv_pushed s r d : Inv s → canRequest s = true → place_ok PR r →
  0 ≤ threadId (id (rq_inst r)) < Z.of_nat (length (lastMemBarrier s)) →
  inflight r = 0 → numIssued r = 0 → rq_state r ≠ RequestNeedsRetry → inTLB r = d →
  rq_issuedToMemory r = false →
  Inv (pushedState s r d) ∧ order (pushedState s r d) = order s ++ [id (rq_inst r)].
Proof.
  intros Hinv Hcan Hok Ht Hfl Hi0 Hnr Hd Hiss. pose proof Hinv as []. pose proof (fresh_ptr s Hinv) as Hf.
  pose proof (canRequest_room s Hinv Hcan) as Hroom. split.
  - apply (Inv_change s _ (nextPtr s) None (Some (PR, r)) (tagged s)).
    + done.
    + done.
    + split; [apply rest_R_tail|]. cbn. by rewrite lookup_insert_eq.
    + done.
    + split; try done. cbn. lia.
    + split; cbn; unfold flightIn; rewrite ?Hfl, ?Hiss, ?Hd; cbn; lia.
    + destruct i_roomy. split; cbn; rewrite ?length_app; cbn; lia.
    + split; [done|]. cbn. split; [lia|done].
    + done.
    + apply (retry_keep s _ (nextPtr s) (Some r)); cbn; try done.
      * intros r0 Hr. congruence.
      * intros r0 [= <-] E. unfold retrying, place_ok in *. by destruct (rq_state r).
      * intros _. split; [lia|]. split; [lia|]. intros q. by destruct (queue (requests s)).
    + apply (ahead_change s _ (nextPtr s)); cbn; auto.
      * intros q Hne. by rewrite lookup_insert_ne.
      * intros r0 Hr _ [Hx|Hx]; rewrite lookup_insert_eq in Hr; injection Hr as <-; [lia|done].
      * intros r0 Hx _. by destruct (fresh_notin s PB (nextPtr s) Hinv (proj2 (tagged_B s _) Hx)).
  - unfold order. cbn. rewrite app_assoc. unfold idsOf. rewrite omap_app. cbn. rewrite lookup_insert_eq. cbn.
    f_equal. by apply idsOf_fresh, fresh_order.
Qed.

(** [alloc] and [push] *)
Lemma wp_push {B} s r (k : Ptr → St (LSQ I) B) Q : Inv s → wp (k (nextPtr s)) (pushedState s r 0) Q →
  wp (let! p := alloc r in let! s := sget in
      do! smod (upd_queues (Queue_push (requests s) p) (transfers s)) in k p) s Q.
Proof.
  intros [] Hk. destruct i_sized. apply wp_bind. eexists _, _. split; [done|].
  apply wp_bind, wp_get, wp_bind, wp_mod. revert Hk.
  unfold pushedState, upd_queues, Queue_push, Queue_freeReservation. cbn. rewrite z_resR. cbn.
  rewrite Z.add_0_r. by destruct (counters s).
Qed.

Lemma pushFailed_pushes s (inst : MyMinorDynInst I) : Inv s → canRequest s = true →
  0 ≤ threadId (id inst) < Z.of_nat (length (lastMemBarrier s)) →
  wp (pushFailedRequest inst) s (λ _ s', Inv s' ∧ order s' = order s ++ [id inst]).
Proof. intros Hinv Hcan Ht. apply wp_push; [done|]. apply wp_ret. by apply Inv_pushed. Qed.

(** a new access, as [pushRequest] builds it *)
Record fresh_access (lw : Z) r : Prop := {
  fa_fault : translationFault (ex (rq_inst r)) = None;
  fa_skip : rq_skipped r = false;
  fa_issued : rq_issuedToMemory r = false;
  fa_vaddr : 0 ≤ q_vaddr (rq_request r);
  fa_end : q_vaddr (rq_request r) + q_size (rq_request r) + lw ≤ 2 ^ 64;
  fa_size : 0 < q_size (rq_request r) < 2 ^ 32;
  fa_enable : Z.of_nat (length (q_byteEnable (rq_request r))) = q_size (rq_request r);
  fa_packet : rq_packet r = None;
  fa_data : rq_isLoad r = false →
              ∃ d : list Z, rq_data r = Some (Some <$> d) ∧ Z.of_nat (length d) = q_size (rq_request r);
  fa_kind : rq_kind r = SingleDataRequest false false
            ∨ rq_kind r = SplitDataRequest (mkSplit false 0 0 0 0 0 [] [])
              ∧ transferNeedsBurst (q_vaddr (rq_request r)) (q_size (rq_request r)) lw = true
              ∧ llsc (q_flags (rq_request r)) = false;
}.

(** the same access after [startAddrTranslation], which submitted a
    translation ([b]) or not *)
Definition started_access r r' (b : bool) : Prop :=
  rq_inst r' = rq_inst r ∧ rq_issuedToMemory r' = false ∧ inflight r' = 0 ∧ numIssued r' = 0
  ∧ inTLB r' = b2z b ∧ place_ok PR r' ∧ rq_request r' = rq_request r
  ∧ rq_isTranslationDelayed r' = rq_isTranslationDelayed r
  ∧ rq_state r' = (if b then InTranslation else Complete)
  ∧ match rq_kind r' with
    | SingleDataRequest _ _ => ∃ fl sent, rq_kind r = SingleDataRequest fl sent
    | SplitDataRequest f => (∃ f0, rq_kind r = SplitDataRequest f0)
        ∧ (b = true → numTranslatedFragments f = 0 ∧ translationEvent f = false)
    | _ => False
    end.

Lemma pushed_heap s r d : heap (pushedState s r d) !! nextPtr s = Some r.
Proof. cbn. by rewrite lookup_insert_eq. Qed.

Lemma pushed_set s r d g : upd_heap <[nextPtr s := g r]> (pushedState s r d) = pushedState s (g r) d.
Proof. unfold upd_heap, pushedState. cbn. by rewrite insert_insert_eq. Qed.

Lemma wp_set_pushed s r d g (Q : unit → LSQ I → Prop) : Q tt (pushedState s (g r) d) →
  wp (set (nextPtr s) g) (pushedState s r d) Q.
Proof.
  intros HQ. eexists tt, _. split; [apply (set_eq _ _ r), pushed_heap|]. by rewrite pushed_set.
Qed.

Lemma pushed_dtlb s r : Inv s → upd_counters (addInDTLB 1) (pushedState s r 0) = pushedState s r 1.
Proof.
  intros Hinv. destruct (Inv_ranges s (nextPtr s) None (tagged s) Hinv) as [_ _ [_ Hd] _ _];
    [split; [done|by apply fresh_ptr]|].
  assert (0 ≤ numAccessesInDTLB (counters s)).
  { destruct (Inv_ranges s (nextPtr s) None (tagged s) Hinv) as [_ _ [[? ?] _] _ _];
      [split; [done|by apply fresh_ptr]|]. cbn in *. lia. }
  unfold upd_counters, pushedState, addInDTLB. cbn. rewrite Z.add_0_r, u32_id by lia. done.
Qed.

Lemma start_single s r : Inv s → fresh_access (lineWidth (cfg s)) r →
  rq_kind r = SingleDataRequest false false →
  wp (startAddrTranslation (nextPtr s)) (pushedState s r 0) (λ b s',
    ∃ r', s' = pushedState s r' (b2z b) ∧ started_access r r' b).
Proof.
  intros Hinv [Hf Hsk Hiss Hva Hend Hsz Hen Hpk Hdat _] Hk. pose proof (i_sized _ Hinv) as [_ _ (k & Hk2 & Hlw) _ _ _ _ _].
  assert (0 ≤ 2 ^ k) by (apply Z.pow_nonneg; lia). rewrite Hlw in *.
  unfold startAddrTranslation. apply wp_bind. eexists r, _. split; [apply deref_eq, pushed_heap|]. rewrite Hk.
  assert (∀ st, inflight (setState st r) = 0 ∧ numIssued (setState st r) = 0) as H0.
  { intros st. split; [apply inflight_zero; unfold numInFlight|unfold numIssued]; cbn; by rewrite Hk. }
  destruct (isAnyActiveElement _).
  - apply wp_bind, wp_mod. rewrite pushed_dtlb by done. apply wp_bind, wp_set_pushed, wp_ret.
    eexists. split; [done|]. destruct (H0 InTranslation). split_and!; try done.
    + unfold inTLB. cbn. by rewrite Hk.
    + cbn. split; cbn; try done; try lia. by rewrite Hk.
    + cbn. rewrite Hk. by do 2 eexists.
  - apply wp_bind, wp_set_pushed, wp_ret. eexists. split; [done|]. destruct (H0 Complete).
    split_and!; try done. cbn. rewrite Hk. by do 2 eexists.
Qed.

Lemma start_split s r : Inv s → fresh_access (lineWidth (cfg s)) r →
  rq_kind r = SplitDataRequest (mkSplit false 0 0 0 0 0 [] []) →
  transferNeedsBurst (q_vaddr (rq_request r)) (q_size (rq_request r)) (lineWidth (cfg s)) = true →
  llsc (q_flags (rq_request r)) = false →
  wp (startAddrTranslation (nextPtr s)) (pushedState s r 0) (λ b s',
    ∃ r', s' = pushedState s r' (b2z b) ∧ started_access r r' b).
Proof.
  intros Hinv [Hf Hsk Hiss Hva Hend Hsz Hen Hpk Hdat _] Hk Hburst Hll.
  pose proof (i_sized _ Hinv) as [_ _ (k & Hk2 & Hlw) _ _ _ _ _].
  assert (0 ≤ 2 ^ k) by (apply Z.pow_nonneg; lia).
  destruct (split_fragments_facts k (rq_request r)) as (frags & Hfr & _ & Hfs & _); rewrite <- ?Hlw; try done.
  pose proof (makeFragmentRequests_u32 _ _ _ _ Hfr) as Hu.
  unfold startAddrTranslation. apply wp_bind. eexists r, _. split; [apply deref_eq, pushed_heap|]. rewrite Hk.
  apply wp_bind, wp_get, wp_bind. eapply wp_lift; [cbn; by rewrite Hlw|]. cbn [fst snd].
  apply wp_bind, wp_set_pushed. set (r1 := setKind _ r).
  destruct (Z.ltb_spec 0 (Z.of_nat (length frags))) as [Hn|Hn].
  - apply wp_bind, wp_set_pushed, wp_bind. unfold sendNextFragmentToTranslation. apply wp_bind.
    eexists (setState InTranslation r1), _. split; [apply deref_eq, pushed_heap|]. cbn [rq_kind r1 setState setKind].
    apply wp_bind, wp_mod. rewrite pushed_dtlb by done. apply wp_bind. cbn [fragmentRequests numTranslatedFragments app].
    destruct (vget_lt frags 0) as [q Hq]; [lia|]. eapply wp_lift; [done|].
    apply wp_bind, wp_set_pushed, wp_ret, wp_ret. eexists. split; [done|].
    split_and!; try done; try (by apply inflight_zero); try (cbn; split; [by eexists|done]).
    split; cbn; try done; try lia. split_and!; try (done || lia).
    + rewrite Forall_forall. intros g Hg. destruct (Hfs g Hg) as (? & ? & ? & _). split_and!; lia.
    + rewrite Forall_forall. intros g Hg. destruct (Hfs g Hg) as (_ & _ & _ & _ & -> & _). done.
  - apply wp_bind, wp_set_pushed, wp_ret. eexists. split; [done|].
    split_and!; try done; try (by apply inflight_zero). cbn. split; [by eexists|done].
Qed.

Lemma start_pushed s r : Inv s → fresh_access (lineWidth (cfg s)) r →
  wp (startAddrTranslation (nextPtr s)) (pushedState s r 0) (λ b s',
    ∃ r', s' = pushedState s r' (b2z b) ∧ started_access r r' b).
Proof.
  intros Hinv Hfa. destruct (fa_kind _ _ Hfa) as [Hk|(Hk & ? & ?)]; [by apply start_single|by apply start_split].
Qed.

(** What Execute and the instruction set guarantee of an access, and the TLB of
    a reply that it gives at once. *)
Record push_ok s (inst : MyMinorDynInst I) (isLoad : bool) (data : Bytes) (size addr : Z) (flags : Flags)
    (byte_enable : list bool) (reply : option TlbReply) : Prop := {
  po_fault : translationFault (ex inst) = None;
  po_new : inLSQ (ex inst) = false;
  po_room : canRequest s = true;
  po_thread : 0 ≤ threadId (id inst) < Z.of_nat (length (lastMemBarrier s));
  po_size : 0 < size < 2 ^ 32;
  po_addr : 0 ≤ addr ∧ addr + size + lineWidth (cfg s) ≤ 2 ^ 64;
  po_enable : Z.of_nat (length byte_enable) = size;
  po_data : isLoad = false → ∃ d : list Z, data = Some <$> d ∧ size ≤ Z.of_nat (length d);
  po_value : isLoad = true → outDataConstant (lvptOut inst) = true → size ≤ 8;
  po_burst : transferNeedsBurst addr size (lineWidth (cfg s)) = true →
               isAtomic (staticInst inst) = false ∧ llsc flags = false;
  po_reply : ∀ t, reply = Some t → faultSet (t_fault t) = false →
               0 ≤ t_paddr t ∧ t_paddr t + size < 2 ^ 64
               ∧ (transferNeedsBurst addr size (lineWidth (cfg s)) = true → llsc (t_flags t) = false);
}.

Lemma requestData_ok isLoad fromCVU (inst : MyMinorDynInst I) flags data size : 0 < size →
  (isLoad = false → ∃ d : list Z, data = Some <$> d ∧ size ≤ Z.of_nat (length d)) →
  (isLoad = true → fromCVU = true → size ≤ 8) →
  ∃ od, requestData isLoad fromCVU inst flags data size = Ok od
    ∧ (isLoad = false → ∃ d : list Z, od = Some (Some <$> d) ∧ Z.of_nat (length d) = size).
Proof.
  intros Hs Hd Hv. unfold requestData. destruct isLoad; [destruct fromCVU|].
  - destruct (readBytes_Ok (ulongBytes (outDataValue (lvptOut inst))) 0 size) as (b & -> & _); [lia..| |].
    { specialize (Hv eq_refl eq_refl). unfold ulongBytes. by rewrite length_fmap. }
    eexists. split; [done|]. done.
  - by eexists.
  - destruct (isAtomic _ || _).
    + eexists. split; [done|]. intros _. exists (replicate (Z.to_nat size) 0).
      rewrite fmap_replicate, length_replicate. split; [done|lia].
    + destruct (Hd eq_refl) as (d & -> & Hl).
      destruct (readBytes_Ok (Some <$> d) 0 size) as (b & -> & Hbl & Hbj); [lia..|rewrite length_fmap; lia|].
      eexists. split; [done|]. intros _. exists (take (Z.to_nat size) d). rewrite length_take. split; [|lia].
      f_equal. apply list_eq. intros j. destruct (decide (j < Z.to_nat size)%nat).
      * specialize (Hbj (Z.of_nat j) ltac:(lia)). rewrite Nat2Z.id in Hbj. rewrite Hbj.
        rewrite !list_lookup_fmap, lookup_take_lt by lia. do 2 f_equal. lia.
      * rewrite !lookup_ge_None_2; [done|rewrite length_fmap, length_take; lia|lia].
Qed.

(** [pushRequest] *)
Lemma pushRequest_pushes env s (inst : MyMinorDynInst I) isLoad data size addr flags byte_enable reply :
  Inv s → push_ok s inst isLoad data size addr flags byte_enable reply →
  wp (pushRequest env inst isLoad data size addr flags byte_enable reply) s
    (λ _ s', Inv s' ∧ order s' = order s ++ [id inst]).
Proof.
  intros Hinv [Hf Hnew Hroom Ht Hsz [Ha0 Ha1] Hen Hdat Hval Hburst Hrep]. pose proof (i_sized _ Hinv) as [].
  unfold pushRequest. rewrite Hf, Hnew. apply wp_bind, wp_assert; [done|]. apply wp_bind, wp_get, wp_bind.
  destruct z_cvu as [n Hcvu]. eapply wp_lift; [by apply (verifyEntryInCVU_Ok n)|].
  set (use := isLoad && _ && _). set (nb := transferNeedsBurst addr size (lineWidth (cfg s))) in *.
  assert (nb && isAtomic (staticInst inst) = false) as ->.
  { destruct nb; [|done]. by destruct (Hburst eq_refl) as [-> _]. }
  apply wp_bind. destruct (requestData_ok isLoad use inst flags data size) as (od & Hod & Hdd); [lia|done| |].
  { intros El Eu. apply Hval; [done|]. unfold use in Eu. by destruct isLoad, (outDataConstant (lvptOut inst)). }
  eapply wp_lift; [exact Hod|]. apply wp_bind, wp_assert; [by apply Z.eqb_eq|].
  set (r := setRequest _ _). apply wp_push; [done|].
  assert (fresh_access (lineWidth (cfg s)) r) as Hfa.
  { unfold r. destruct nb eqn:E; split; cbn; try done; try lia; [right|by left].
    split_and!; [done..|]. by destruct (Hburst eq_refl). }
  assert (rq_inst r = setInLSQ true inst ∧ rq_isTranslationDelayed r = false
    ∧ q_size (rq_request r) = size) as (Hinst & Hdel & Hqs) by (unfold r; by destruct nb).
  apply wp_bind. eapply wp_conseq; [by apply start_pushed|]. cbn beta.
  intros b s1 (r' & -> & Hi & Hiss & Hfl & Hn0 & Htlb & Hok & Hq & Hdl & Hst & Hkind).
  destruct (Inv_pushed s r' (b2z b) Hinv Hroom Hok) as [Hinv1 Ho1]; try done.
  { by rewrite Hi, Hinst. } { rewrite Hst. by destruct b. }
  rewrite Hi, Hinst in Ho1. change (id (setInLSQ true inst)) with (id inst) in Ho1.
  apply wp_bind. apply wp_conseq with (Q := λ _ s', Inv s' ∧ order s' = order s ++ [id inst]).
  2:{ intros _ s2 Hs2. apply wp_bind, wp_get, wp_ret. done. }
  destruct reply as [t|]; [|by apply wp_ret]. destruct b; [|by apply wp_ret].
  eapply wp_conseq; [apply (finish_moves env _ (nextPtr s) r')|].
  - done.
  - cbn. apply elem_of_app. right. by left.
  - apply pushed_heap.
  - done.
  - specialize (Hrep t eq_refl). unfold reply_ok. rewrite Hdl, Hdel, Hq, Hqs.
    destruct (rq_kind r') as [|f| |]; try done.
    + destruct (faultSet (t_fault t)); [done|]. by destruct (Hrep eq_refl) as (? & ? & _).
    + destruct Hkind as [[f0 Hk0] Hkf]. destruct (Hkf eq_refl) as [-> ->]. split_and!; try done.
      intros E. destruct (Hrep E) as (? & ? & Hll). split; [|done]. apply Hll. unfold r in Hk0. by destruct nb.
  - cbn. intros _ s2 [? ?]. split; [done|]. by etrans.
Qed.
End push.
