(* ===== verification/LsqHistory.v ===== *)
(** * Histories of the load/store queue

    Any sequence of calls that Execute, the TLB and the memory system may make
    on a new load/store queue, and what holds after each of them. *)
From stdpp Require Import gmap.
From S2P Require Import Prelude Buffers LVPT CVU PipeData LsqAddr LsqRequest Lsq LsqForward LsqInv.
From S2P Require Import LsqSteps LsqBuffer LsqEvents LsqPush.

(** ** Calls *)
Section events.
Context `{I : Isa}.
Notation DynInst := (MyMinorDynInst I).
Implicit Types (s : LSQ I) (p : Ptr) (env : LsqEnv (I := I)).

Inductive LsqEvent :=
  | Push (env : LsqEnv (I := I)) (inst : DynInst) (isLoad : bool) (data : Bytes) (size addr : Z)
      (flags : Flags) (byte_enable : list bool) (reply : option TlbReply)
  | PushFailed (inst : DynInst)
  | Finish (env : LsqEnv (I := I)) (p : Ptr) (idx : Z) (t : TlbReply) (suppressed : bool)
  | NextFragment (p : Ptr)
  | Delayed (p : Ptr)
  | Step (env : LsqEnv (I := I))
  | Response (p : Ptr) (response : Packet)
  | Retry (env : LsqEnv (I := I))
  | Commit (inst : DynInst) (toBuffer : bool)
  | IssuedBarrier (inst : DynInst)
  | CompleteBarrier (inst : DynInst) (committed : bool).

(** [Commit inst toBuffer]: Execute asks for the response of its oldest
    instruction and, if it has one, moves a committed store to the store buffer
    ([toBuffer], false when the instruction is discarded or its completion
    faults) and takes the response out. *)
Definition commitResponse (inst : DynInst) (toBuffer : bool) : St (LSQ I) (list InstId) :=
  let! response := findResponse inst in
  match response with
  | None => sret []
  | Some p =>
      let! r := deref p in
      do! (if toBuffer && needsToBeSentToStoreBuffer r then
             do! sendStoreToStoreBuffer p in popResponse p
           else popResponse p) in
      sret [id (rq_inst r)]
  end.

(** One call; the instructions that left the queue. *)
Definition runEvent (e : LsqEvent) : St (LSQ I) (list InstId) :=
  match e with
  | Push env inst isLoad data size addr flags be reply =>
      do! pushRequest env inst isLoad data size addr flags be reply in sret []
  | PushFailed inst => do! pushFailedRequest inst in sret []
  | Finish env p idx t suppressed => do! finish env p idx t suppressed in sret []
  | NextFragment p => do! sendNextFragmentToTranslation p in sret []
  | Delayed p => do! set p markDelayed in sret []
  | Step env => do! LSQ_step env in sret []
  | Response p response => do! recvTimingResp p response in sret []
  | Retry env => do! recvReqRetry env in sret []
  | Commit inst toBuffer => commitResponse inst toBuffer
  | IssuedBarrier inst => do! issuedMemBarrierInst inst in sret []
  | CompleteBarrier inst committed => do! completeMemBarrierInst inst committed in sret []
  end.

(** All calls, in order. *)
Fixpoint runEvents (es : list LsqEvent) : St (LSQ I) (list InstId) :=
  match es with
  | [] => sret []
  | e :: es => let! out := runEvent e in let! outs := runEvents es in sret (out ++ outs)
  end.

(** The instruction that a call puts into the queue. *)
Definition entered (e : LsqEvent) : list InstId :=
  match e with
  | Push _ inst _ _ _ _ _ _ _ | PushFailed inst => [id inst]
  | _ => []
  end.

(** ** Protocol *)

(** a translation of [p] is under way *)
Definition inTranslation s p : Prop :=
  ∃ r, p ∈ queue (requests s) ∧ heap s !! p = Some r ∧ rq_state r = InTranslation.

(** When a call may be made. *)
Definition allowed s (e : LsqEvent) : Prop :=
  match e with
  | Push env inst isLoad data size addr flags be reply =>
      push_ok s inst isLoad data size addr flags be reply
  | PushFailed inst =>
      canRequest s = true ∧ 0 ≤ threadId (id inst) < Z.of_nat (length (lastMemBarrier s))
  | Finish env p idx t suppressed =>
      ∃ r, p ∈ queue (requests s) ∧ heap s !! p = Some r ∧ rq_state r = InTranslation
        ∧ reply_ok r idx t suppressed
  | NextFragment p =>
      ∃ r f, p ∈ queue (requests s) ∧ heap s !! p = Some r ∧ rq_state r = InTranslation
        ∧ rq_kind r = SplitDataRequest f ∧ translationEvent f = true
  | Delayed p => inTranslation s p
  | Step env => True
  | Response p response => ∃ r, heap s !! p = Some r ∧ 0 < inflight r ∧ response_ok r response
  | Retry env => mstate s = MemoryNeedsRetry
  | Commit inst _ => ∀ i, i ∈ order s → ∃ b, InstId_eq i (id inst) = Ok b
  | IssuedBarrier inst =>
      isInst inst && isFullMemBarrier (staticInst inst) = true
      ∧ ∃ last, getLastMemBarrier s (threadId (id inst)) = Ok last ∧ last < execSeqNum (id inst)
  | CompleteBarrier inst committed =>
      (committed = true → inStoreBuffer (ex inst) = false → canInsert s = true)
      ∧ 0 ≤ threadId (id inst) < Z.of_nat (length (lastMemBarrier s))
  end.

(** Every call is allowed in the state in which it is made. *)
Fixpoint obeys s (es : list LsqEvent) : Prop :=
  match es with
  | [] => True
  | e :: es => allowed s e ∧ ∀ out s', runEvent e s = Ok (out, s') → obeys s' es
  end.

(** ** One call *)

Lemma wp_moves (m : St (LSQ I) unit) s : moves m s →
  wp (do! m in sret []) s (λ out s', Inv s' ∧ (out : list InstId) ++ order s' = order s ++ []).
Proof.
  intros H. apply wp_bind. eapply wp_conseq; [exact H|]. cbn. intros _ s' [? ?]. apply wp_ret.
  split; [done|]. by rewrite app_nil_r.
Qed.

Lemma commit_keeps s inst toBuffer : Inv s → (∀ i, i ∈ order s → ∃ b, InstId_eq i (id inst) = Ok b) →
  wp (commitResponse inst toBuffer) s (λ out s', Inv s' ∧ out ++ order s' = order s ++ []).
Proof.
  intros Hinv Hid. apply wp_bind. eapply wp_conseq; [by apply findResponse_spec|]. cbn.
  intros [p|] s' [-> Hp]; [|apply wp_ret; by rewrite app_nil_r].
  destruct Hp as (r & T & HT & Hp & _ & Hst). apply wp_bind. exists r, s. split; [by apply deref_eq|].
  apply wp_bind. apply wp_conseq with (Q := λ _ s', taken s (id (rq_inst r)) s').
  - destruct (toBuffer && needsToBeSentToStoreBuffer r) eqn:E.
    + apply andb_true_iff in E as [_ E%bool_decide_eq_true]. destruct Hst as [Hst|[_ Hcan]]; [congruence|].
      by apply (sendStore_taken s p r T).
    + apply (popResponse_taken s p r T); try done. destruct Hst as [?|[? _]]; auto.
  - intros _ s' [? Ho]. apply wp_ret. split; [done|]. by rewrite app_nil_r, Ho.
Qed.

Lemma runEvent_keeps s e : Inv s → allowed s e →
  wp (runEvent e) s (λ out s', Inv s' ∧ out ++ order s' = order s ++ entered e).
Proof.
  intros Hinv Ha. destruct e; cbn [runEvent entered allowed] in *.
  - apply wp_bind. eapply wp_conseq; [by apply pushRequest_pushes|]. cbn. intros _ s' ?. by apply wp_ret.
  - apply wp_bind. eapply wp_conseq; [by apply pushFailed_pushes; try apply Ha|]. cbn. intros _ s' ?. by apply wp_ret.
  - destruct Ha as (r & ? & ? & ? & ?). by apply wp_moves, (finish_moves _ s p r).
  - destruct Ha as (r & f & ? & ? & ? & ? & ?). apply wp_bind.
    eapply wp_conseq; [by apply (sendNextFragment_moves s p r f)|]. cbn. intros _ s' [? ?]. apply wp_ret.
    by rewrite app_nil_r.
  - destruct Ha as (r & ? & ? & ?). by apply wp_moves, (markDelayed_moves s p r).
  - by apply wp_moves, LSQ_step_moves.
  - destruct Ha as (r & ? & ? & ?). by apply wp_moves, (recvTimingResp_moves s p r).
  - by apply wp_moves, recvReqRetry_moves.
  - by apply commit_keeps.
  - destruct Ha as (? & last & ? & ?). by apply wp_moves, (issuedMemBarrier_moves s inst last).
  - destruct Ha as (? & ?). by apply wp_moves, completeMemBarrier_moves.
Qed.

Lemma runEvents_keeps es : ∀ s, Inv s → obeys s es →
  wp (runEvents es) s (λ out s', Inv s' ∧ out ++ order s' = order s ++ mjoin (entered <$> es)).
Proof.
  induction es as [|e es IH]; intros s Hinv Hob; cbn [runEvents].
  { apply wp_ret. cbn. by rewrite app_nil_r. }
  destruct Hob as [Ha Hob]. destruct (runEvent_keeps s e Hinv Ha) as (out & s1 & Heq & Hinv1 & Ho).
  apply wp_bind. exists out, s1. split; [done|]. apply wp_bind.
  eapply wp_conseq; [apply (IH s1 Hinv1 (Hob _ _ Heq))|]. cbn. intros outs s2 [? Ho2]. apply wp_ret.
  split; [done|]. cbn. rewrite <- app_assoc, Ho2, app_assoc, Ho. by rewrite <- app_assoc.
Qed.

(** ** A new queue *)

(** parameters that the constructor accepts, with a line width that is a power
    of two and queues of less than 2^30 entries *)
Record LsqParams := mkLsqParams {
  in_memory_system_limit : Z;
  line_width : Z;
  cache_line_size : Z;
  requests_queue_size : Z;
  transfers_queue_size : Z;
  store_buffer_size : Z;
  store_buffer_cycle_store_limit : Z;
  cvu_table_size : Z;
  numThreads : Z;
}.

Definition makeLSQ (q : LsqParams) : res (LSQ I) :=
  newLSQ (in_memory_system_limit q) (line_width q) (cache_line_size q) (requests_queue_size q)
    (transfers_queue_size q) (store_buffer_size q) (store_buffer_cycle_store_limit q) (cvu_table_size q) (numThreads q).

Record params_ok (q : LsqParams) : Prop := {
  pa_limit : 1 ≤ in_memory_system_limit q < 2 ^ 32;
  pa_line : ∃ k, 0 ≤ k ≤ 31 ∧ (if line_width q =? 0 then cache_line_size q else line_width q) = 2 ^ k;
  pa_requests : 1 ≤ requests_queue_size q < 2 ^ 30;
  pa_transfers : 1 ≤ transfers_queue_size q < 2 ^ 30;
  pa_slots : 1 ≤ store_buffer_size q < 2 ^ 30;
  pa_stores : 1 ≤ store_buffer_cycle_store_limit q;
  pa_cvu : 0 ≤ cvu_table_size q < 2 ^ 32;
}.

Lemma makeLSQ_Ok q : params_ok q → ∃ s, makeLSQ q = Ok s ∧ Inv s ∧ order s = []
  ∧ in_memory_system_limit q = inMemorySystemLimit (cfg s).
Proof.
  intros [Hlim (k & Hk & Hlw) HR HT HB Hst Hcvu]. unfold makeLSQ, newLSQ. rewrite Hlw.
  assert (Z.land (2 ^ k) (u32 (2 ^ k - 1)) = 0) as ->.
  { assert (1 ≤ 2 ^ k ≤ 2 ^ 31).
    { split; [apply (Z.pow_le_mono_r 2 0); lia|apply Z.pow_le_mono_r; lia]. }
    rewrite u32_id by lia. replace (2 ^ k - 1) with (Z.ones k) by (rewrite Z.ones_equiv; lia).
    rewrite Z.land_ones by lia. apply Z.mod_same. lia. }
  repeat match goal with |- context [?a <? 1] => destruct (Z.ltb_spec a 1); [lia|] end.
  cbn [orb negb Z.eqb]. eexists. split; [done|]. split; [|done]. split; cbn; try done.
  - apply NoDup_nil_2.
  - by intros pl p ?%elem_of_nil.
  - intros p [r Hr]. by rewrite lookup_empty in Hr.
  - intros p [r Hr]. by rewrite lookup_empty in Hr.
  - split; cbn; try done. { by exists k. } exists (cvu_table_size q). apply newCVU_ok. lia.
  - split; cbn; lia.
  - lia.
Qed.

Lemma history q es s0 : params_ok q → makeLSQ q = Ok s0 → obeys s0 es →
  ∃ out s, runEvents es s0 = Ok (out, s) ∧ Inv s ∧ out ++ order s = mjoin (entered <$> es)
    ∧ order s0 = [].
Proof.
  intros Hq Hs0 Hob. destruct (makeLSQ_Ok q Hq) as (s & Hs & Hinv & Ho & _).
  rewrite Hs in Hs0. injection Hs0 as <-.
  destruct (runEvents_keeps es s Hinv Hob) as (out & s' & Heq & Hinv' & Ho'). exists out, s'.
  rewrite Ho in Ho'. done.
Qed.

(** the pointers in the three queues *)
Definition queued s : list Ptr := queue (requests s) ++ queue (transfers s) ++ slots s.

Lemma tagged_snd s : (tagged s).*2 = queued s.
Proof. unfold tagged, queued. by rewrite !fmap_app, <- !list_fmap_compose, !list_fmap_id. Qed.


(** C17: instructions leave the load/store queue in the order in which they
    entered it: after any history, the instructions that Execute took out,
    followed by those still in [transfers] and [requests], are the instructions
    that were pushed, in order. *)
Theorem lsq_commit_order q es s0 : params_ok q → makeLSQ q = Ok s0 → obeys s0 es →
  ∃ out s, runEvents es s0 = Ok (out, s) ∧ out ++ order s = mjoin (entered <$> es).
Proof.
  intros Hq Hs0 Hob. destruct (history q es s0 Hq Hs0 Hob) as (out & s & Heq & _ & Ho & _). by exists out, s.
Qed.

(** a drained load/store queue has nothing left: when [isDrained] answers
    true after a history, no request is live, every counter is zero, memory is
    not waiting for a retry, and every instruction that was pushed was taken
    out. *)
Theorem lsq_drained_empty q es s0 : params_ok q → makeLSQ q = Ok s0 → obeys s0 es →
  ∃ out s, runEvents es s0 = Ok (out, s) ∧ (LSQ_isDrained s = true →
    heap s = ∅ ∧ counters s = mkCounters 0 0 0 0 0 ∧ mstate s = MemoryRunning
    ∧ accessesInFlight s = false ∧ out = mjoin (entered <$> es)).
Proof.
  intros Hq Hs0 Hob. destruct (history q es s0 Hq Hs0 Hob) as (out & s & Heq & [] & Ho & _).
  exists out, s. split; [done|]. unfold LSQ_isDrained, Queue_empty. intros Hd.
  assert (queue (requests s) = [] ∧ queue (transfers s) = [] ∧ slots s = []) as (HR & HT & HB).
  { destruct (queue (requests s)), (queue (transfers s)), (slots s); done. }
  assert (tagged s = []) as Htag by (unfold tagged; by rewrite HR, HT, HB).
  assert (heap s = ∅) as Hh.
  { apply map_eq. intros p. rewrite lookup_empty. apply eq_None_not_Some. intros Hp.
    specialize (i_owned p Hp). rewrite Htag in i_owned. by apply elem_of_nil in i_owned. }
  assert (counters s = mkCounters 0 0 0 0 0) as Hc.
  { destruct i_counted. rewrite Htag in *. destruct (counters s). cbn in *. congruence. }
  split_and!; try done.
  - destruct (mstate s) eqn:E; [done|]. destruct (y_some _ i_retry E) as (p & r & _ & Hr & _).
    by rewrite Hh, lookup_empty in Hr.
  - unfold accessesInFlight. by rewrite Hc.
  - rewrite <- Ho. unfold order. by rewrite HR, HT, app_nil_r.
Qed.

(** C25: Loads do not overtake stores they depend on.  In any state of a
    history (as in the property of the whole queue), a load in [requests] that
    has offered a packet to memory is the oldest request there, no store waits
    in [transfers], and no store of its thread in the buffer writes a byte that
    it reads, cache maintenance operations apart, where load and store lie side
    by side in physical memory, as unsplit ones do. *)
Theorem lsq_loads_wait q es s0 : params_ok q → makeLSQ q = Ok s0 → obeys s0 es →
  ∃ out s, runEvents es s0 = Ok (out, s) ∧ ∀ p r, p ∈ queue (requests s) → heap s !! p = Some r →
    rq_isLoad r = true → 0 < numIssued r ∨ rq_state r = RequestNeedsRetry →
    head (queue (requests s)) = Some p
    ∧ (∀ p' r', p' ∈ queue (transfers s) → heap s !! p' = Some r' → rq_isLoad r' = true)
    ∧ (∀ p' r' a b, p' ∈ slots s → heap s !! p' = Some r' → forwardable (threadId (id (rq_inst r))) r' = true →
         ranged r a → straightLoad r a → q_paddr (rq_request r') = Some b → straightStore r' b →
         ∀ j x, 0 ≤ j < q_size (rq_request r) → byteAddr r j = Some x → storeByte r' x = None).
Proof.
  intros Hq Hs0 Hob. destruct (history q es s0 Hq Hs0 Hob) as (out & s & Heq & Hinv & _ & _).
  exists out, s. split; [done|]. intros p r Hp Hr Hl Hb. pose proof Hinv as [].
  destruct (i_ahead p r Hp Hr Hb) as [Hh Hc]. destruct (Hc Hl) as [H0 Hclear]. split_and!; try done.
  - intros p' r' Hp' Hr'. destruct (ranges_at s p' PT r' Hinv (proj2 (tagged_T s p') Hp') Hr').
    cbn in ra_stores. rewrite H0 in ra_stores. destruct (rq_isLoad r'); [done|]. cbn in ra_stores. lia.
  - intros p' r' a b Hp' Hr' Hf Ha Hst Hb' Hst' j x Hj Hx.
    pose proof (Inv_slots_ok s Hinv) as Hok. unfold slots_ok in Hok. rewrite Forall_forall in Hok.
    destruct (Hok p' Hp') as (r'' & Hr'' & Hslot). rewrite Hr' in Hr''. injection Hr'' as <-.
    pose proof (forwardable_packet _ _ Hf) as Hpk. rewrite (straight_storeByte r' b) by done.
    apply (slotCoverage_None r' r a); [by apply Hslot|done| |rewrite (Hst j x Hj Hx); unfold inRange; lia].
    specialize (Hclear p' r' Hp' Hr'). by rewrite slotCoverage_forwardable, Hf in Hclear.
Qed.

Lemma idle_step env s : Inv s → canSendToMemorySystem s = true → needsToTick s = Ok false →
  LSQ_step env s = Ok (tt, s).
Proof.
  intros Hinv Hcan. pose proof Hinv as []. destruct (canSend_inv s Hcan) as [Hm _].
  unfold needsToTick. rewrite Hcan. intros Ht. unfold LSQ_step, sbind, sget.
  assert (numUnissuedAccesses (counters s) = 0) as Hu.
  { destruct (match queue (requests s) with [] => _ | _ => _ end); [|done]. cbn in Ht. injection Ht as Ht.
    apply orb_false_iff in Ht as [_ Ht]. by apply negb_false_iff, Z.eqb_eq in Ht. }
  assert (StoreBuffer_step env s = Ok (tt, s)) as Hsb.
  { unfold StoreBuffer_step, sbind, sget. by rewrite Hu. }
  destruct (queue (requests s)) as [|p R] eqn:HR; [done|].
  destruct (i_place PR p) as (r & Hr & Hok & _); [apply tagged_R; rewrite HR; by left|].
  rewrite Hr in Ht. cbn [rbind] in Ht. injection Ht as Ht. apply orb_false_iff in Ht as [Ht _].
  unfold tryToSendToTransfers, sbind, sget. rewrite Hm, bool_decide_eq_false_2 by done.
  rewrite (deref_eq _ _ _ Hr).
  destruct (bool_decide (rq_state r = InTranslation)) eqn:Es; cbn [negb andb] in Ht; [done|].
  apply negb_false_iff in Ht. pose proof (no_retrying s p r i_retry Hm Hr) as Hnr.
  assert (movable (rq_state r) = true) as Hmv.
  { unfold place_ok, retrying in *. by destruct (rq_state r). }
  unfold sassert. rewrite Hmv. cbn. rewrite HR. cbn. rewrite bool_decide_eq_true_2 by done. cbn. by rewrite Ht.
Qed.

Lemma sumOver_pos (g : Place → LSQRequest I → Z) H l : 0 < sumOver g H l →
  ∃ pl p r, (pl, p) ∈ l ∧ H !! p = Some r ∧ 0 < g pl r.
Proof.
  unfold sumOver. induction l as [|[pl p] l IH]; cbn; intros Hs; [lia|].
  destruct (H !! p) as [r|] eqn:E; [destruct (decide (0 < g pl r))|].
  - exists pl, p, r. split_and!; [by left|done..].
  - destruct IH as (pl' & p' & r' & ? & ? & ?); [lia|]. exists pl', p', r'. split_and!; [by right|done..].
  - destruct IH as (pl' & p' & r' & ? & ? & ?); [lia|]. exists pl', p', r'. split_and!; [by right|done..].
Qed.

Lemma needsToTick_total s : Inv s → ∃ b, needsToTick s = Ok b.
Proof.
  intros []. unfold needsToTick. destruct (canSendToMemorySystem s); [|by eexists].
  destruct (queue (requests s)) as [|p R] eqn:HR; [by eexists|].
  destruct (i_place PR p) as (r & Hr & _); [apply tagged_R; rewrite HR; by left|].
  rewrite Hr. by eexists.
Qed.

(** C34: the load/store queue never sleeps on work: whenever [needsToTick]
    answers false in a state of a history, stepping the queue would change
    nothing, or memory owes it a retry or an answer (which wake it up). *)
Theorem lsq_no_lost_wakeup q es s0 env : params_ok q → makeLSQ q = Ok s0 → obeys s0 es →
  ∃ out s b, runEvents es s0 = Ok (out, s) ∧ needsToTick s = Ok b ∧ (b = false →
    LSQ_step env s = Ok (tt, s) ∨ mstate s = MemoryNeedsRetry
    ∨ ∃ p r, p ∈ queued s ∧ heap s !! p = Some r ∧ 0 < inflight r).
Proof.
  intros Hq Hs0 Hob. destruct (history q es s0 Hq Hs0 Hob) as (out & s & Heq & Hinv & _ & _).
  destruct (needsToTick_total s Hinv) as [b Hb]. exists out, s, b. split_and!; try done. intros ->.
  destruct (canSendToMemorySystem s) eqn:Hcan; [left; by apply idle_step|right]. pose proof Hinv as [].
  unfold canSendToMemorySystem in Hcan. destruct (mstate s); [right|by left]. cbn in Hcan.
  destruct i_sized, i_counted. apply Z.ltb_ge in Hcan. rewrite c_memory in Hcan.
  destruct (sumOver_pos flightIn (heap s) (tagged s)) as (pl & p & r & Hin & Hr & Hf); [lia|].
  exists p, r. split_and!; try done. rewrite <- tagged_snd. apply list_elem_of_fmap. by exists (pl, p).
Qed.
End events.

(** ** Checking the protocol

    A decision procedure that is sound for [obeys]. *)
Section checking.
Context `{I : Isa}.
Implicit Types (s : LSQ I) (r : LSQRequest I) (p : Ptr).

(** all bytes are set *)
Definition allSet (b : Bytes) : bool := forallb (λ x, match x with Some _ => true | None => false end) b.

Definition pkt_datab r (k : Packet) : bool :=
  match pk_data k with
  | Some d => (Z.of_nat (length d) =? q_size (rq_request r)) && (rq_isLoad r || allSet d)
  | None => false
  end.

Definition response_okb r (resp : Packet) : bool :=
  match rq_kind r with
  | SingleDataRequest _ _ => pkt_datab r resp
  | SplitDataRequest _ =>
      (negb (pk_error resp) || (numIssued r =? numTotal r)) && (pk_error resp || negb (rq_isLoad r) ||
      (let q := pk_req resp in
       match pk_data resp with Some d => Z.of_nat (length d) =? q_size q | None => false end
       && (q_vaddr (rq_request r) <=? q_vaddr q) && (0 <? q_size q)
       && (q_vaddr q + q_size q <=? q_vaddr (rq_request r) + q_size (rq_request r))))
  | _ => false
  end.

Definition reply_okb r (idx : Z) (t : TlbReply) (suppressed : bool) : bool :=
  let inRangeb := (0 <=? t_paddr t) && (t_paddr t + q_size (rq_request r) <? 2 ^ 64) in
  match rq_kind r with
  | SingleDataRequest _ _ =>
      if faultSet (t_fault t) then negb (rq_isTranslationDelayed r && suppressed) else inRangeb
  | SplitDataRequest f =>
      (idx =? numTranslatedFragments f) && negb (translationEvent f)
      && (faultSet (t_fault t) || (negb (llsc (t_flags t)) && (negb (idx =? 0) || inRangeb)))
  | _ => false
  end.

Definition threadb s (inst : MyMinorDynInst I) : bool :=
  (0 <=? threadId (id inst)) && (threadId (id inst) <? Z.of_nat (length (lastMemBarrier s))).

Definition push_okb s (inst : MyMinorDynInst I) (isLoad : bool) (data : Bytes) (size addr : Z)
    (flags : Flags) (byte_enable : list bool) (reply : option TlbReply) : bool :=
  let burst := transferNeedsBurst addr size (lineWidth (cfg s)) in
  negb (faultSet (translationFault (ex inst))) && negb (inLSQ (ex inst)) && canRequest s && threadb s inst
  && (0 <? size) && (size <? 2 ^ 32) && (0 <=? addr) && (addr + size + lineWidth (cfg s) <=? 2 ^ 64)
  && (Z.of_nat (length byte_enable) =? size)
  && (isLoad || (allSet data && (size <=? Z.of_nat (length data))))
  && (negb (isLoad && outDataConstant (lvptOut inst)) || (size <=? 8))
  && (negb burst || (negb (isAtomic (staticInst inst)) && negb (llsc flags)))
  && match reply with
     | Some t => faultSet (t_fault t)
         || ((0 <=? t_paddr t) && (t_paddr t + size <? 2 ^ 64) && (negb burst || negb (llsc (t_flags t))))
     | None => true
     end.

(** a test of the request at [p] while it is in translation *)
Definition translatingb s p (test : LSQRequest I → bool) : bool :=
  existsb (Z.eqb p) (queue (requests s))
  && match heap s !! p with
     | Some r => bool_decide (rq_state r = InTranslation) && test r
     | None => false
     end.

Definition allowedb s (e : LsqEvent) : bool :=
  match e with
  | Push env inst isLoad data size addr flags be reply => push_okb s inst isLoad data size addr flags be reply
  | PushFailed inst => canRequest s && threadb s inst
  | Finish env p idx t suppressed => translatingb s p (λ r, reply_okb r idx t suppressed)
  | NextFragment p => translatingb s p (λ r,
      match rq_kind r with SplitDataRequest f => translationEvent f | _ => false end)
  | Delayed p => translatingb s p (λ _, true)
  | Step env => true
  | Response p response =>
      match heap s !! p with Some r => (0 <? inflight r) && response_okb r response | None => false end
  | Retry env => bool_decide (mstate s = MemoryNeedsRetry)
  | Commit inst _ =>
      forallb (λ i, match InstId_eq i (id inst) with Ok _ => true | Stop _ => false end) (order s)
  | IssuedBarrier inst =>
      isInst inst && isFullMemBarrier (staticInst inst)
      && match getLastMemBarrier s (threadId (id inst)) with
         | Ok last => last <? execSeqNum (id inst)
         | Stop _ => false
         end
  | CompleteBarrier inst committed =>
      (negb committed || inStoreBuffer (ex inst) || canInsert s) && threadb s inst
  end.

Fixpoint obeysb s (es : list LsqEvent) : bool :=
  match es with
  | [] => true
  | e :: es => allowedb s e && match runEvent e s with Ok (_, s') => obeysb s' es | Stop _ => true end
  end.

Lemma allSet_values b : allSet b = true → ∃ d : list Z, b = Some <$> d.
Proof.
  induction b as [|[x|] b IH]; cbn; [by exists []| |done]. intros H.
  destruct (IH H) as [d ->]. by exists (x :: d).
Qed.

(** splits a conjunction of tests *)
Ltac tests :=
  repeat match goal with
  | H : _ && _ = true |- _ => apply andb_true_iff in H as [? ?]
  | H : negb _ = true |- _ => apply negb_true_iff in H
  | H : (_ =? _) = true |- _ => apply Z.eqb_eq in H
  | H : (_ <? _) = true |- _ => apply Z.ltb_lt in H
  | H : (_ <=? _) = true |- _ => apply Z.leb_le in H
  | H : bool_decide _ = true |- _ => apply bool_decide_eq_true in H
  end.

Lemma pkt_datab_sound r k : pkt_datab r k = true → pkt_data r k.
Proof.
  unfold pkt_datab, pkt_data. destruct (pk_data k) as [d|]; [|done]. intros H. tests. split; intros El.
  - by exists d.
  - rewrite El in *. cbn in *. destruct (allSet_values d) as [d' ->]; [done|]. intros _. exists d'.
    rewrite length_fmap in *. done.
Qed.

Lemma response_okb_sound r resp : response_okb r resp = true → response_ok r resp.
Proof.
  unfold response_okb, response_ok. intros H. destruct (rq_kind r); try done; [by apply pkt_datab_sound|]. tests.
  split; [intros E; rewrite E in *; cbn in *; tests; done|]. intros E El. rewrite E, El in *. cbn in *.
  destruct (pk_data resp) as [d|]; [|done]. tests. exists d. unfold inside. split_and!; done || lia.
Qed.

Lemma reply_okb_sound r idx t suppressed : reply_okb r idx t suppressed = true → reply_ok r idx t suppressed.
Proof.
  unfold reply_okb, reply_ok. destruct (rq_kind r); try done.
  - destruct (faultSet (t_fault t)); intros H; tests; done.
  - intros H. tests. split_and!; try done. intros Hf. rewrite Hf in *. cbn in *. tests.
    split; [done|]. intros ->. cbn in *. tests. done.
Qed.

Lemma threadb_sound s inst : threadb s inst = true →
  0 ≤ threadId (id inst) < Z.of_nat (length (lastMemBarrier s)).
Proof. unfold threadb. intros H. tests. done. Qed.

Lemma push_okb_sound s inst isLoad data size addr flags be reply :
  push_okb s inst isLoad data size addr flags be reply = true →
  push_ok s inst isLoad data size addr flags be reply.
Proof.
  unfold push_okb. intros H. tests. split; try done.
  - by destruct (translationFault (ex inst)).
  - by apply threadb_sound.
  - intros ->. cbn in *. tests. destruct (allSet_values data) as [d ->]; [done|]. exists d.
    rewrite length_fmap in *. done.
  - intros -> Hc. rewrite Hc in *. cbn in *. tests. done.
  - intros Hb. rewrite Hb in *. cbn in *. tests. done.
  - intros t -> Hf. rewrite Hf in *. cbn in *. tests. split_and!; try done. intros Hb. rewrite Hb in *.
    cbn in *. tests. done.
Qed.

Lemma translatingb_sound s p test : translatingb s p test = true →
  ∃ r, p ∈ queue (requests s) ∧ heap s !! p = Some r ∧ rq_state r = InTranslation ∧ test r = true.
Proof.
  unfold translatingb. intros [Hin H]%andb_true_iff. destruct (heap s !! p) as [r|]; [|done]. tests.
  exists r. split_and!; try done. apply existsb_exists in Hin as (q & Hq & E%Z.eqb_eq). subst q.
  by apply list_elem_of_In.
Qed.

Lemma allowedb_sound s e : allowedb s e = true → allowed s e.
Proof.
  destruct e; cbn [allowed allowedb]; intros H.
  - by apply push_okb_sound.
  - tests. split; [done|]. by apply threadb_sound.
  - apply translatingb_sound in H as (r & ? & ? & ? & ?). exists r. split_and!; try done. by apply reply_okb_sound.
  - apply translatingb_sound in H as (r & ? & ? & ? & E). destruct (rq_kind r) as [|f| |] eqn:Hk; try done.
    by exists r, f.
  - apply translatingb_sound in H as (r & ? & ? & ? & _). by exists r.
  - done.
  - destruct (heap s !! p) as [r|]; [|done]. tests. exists r. split_and!; try done. by apply response_okb_sound.
  - by tests.
  - intros i Hi. rewrite forallb_forall in H. specialize (H i (proj1 (list_elem_of_In _ _) Hi)).
    destruct (InstId_eq i (id inst)) as [b|]; [by exists b|done].
  - apply andb_true_iff in H as [? H]. split; [done|].
    destruct (getLastMemBarrier s (threadId (id inst))) as [last|]; [|done]. tests. by exists last.
  - apply andb_true_iff in H as [H ?]. split; [|by apply threadb_sound]. intros -> E. by rewrite E in H.
Qed.

Lemma obeysb_sound es : ∀ s, obeysb s es = true → obeys s es.
Proof.
  induction es as [|e es IH]; intros s H; [done|]. cbn in H. apply andb_true_iff in H as [Ha H].
  split; [by apply allowedb_sound|]. intros out s' Hr. rewrite Hr in H. auto.
Qed.
End checking.

(** ** A concrete history

    A store is pushed and committed to the buffer; a load that crosses a line
    is pushed, translated in two fragments, refused once and retried, answered
    and committed; then the buffered store is sent and answered. *)
Section demo.
#[local] Existing Instance Toy.isa.

Definition demoParams : LsqParams := mkLsqParams 2 16 64 2 2 2 1 2 1.

Definition demoEnv : LsqEnv (I := Toy.isa) :=
  mkLsqEnv (λ _, true) (λ _, true) (λ n, negb (n =? 0)) true (λ p, p).

Definition demoReply (paddr : Z) : TlbReply := mkTlbReply None paddr noFlags false.

Definition demoBytes (b : Z) (n : nat) : Bytes := replicate n (Some b).

Definition demoAnswer (vaddr size : Z) (write : bool) : Packet :=
  mkPacket (mkRequest vaddr size None noFlags [] false false) write
    (Some (demoBytes 7 (Z.to_nat size))) false true.

Definition demoEvents : list LsqEvent :=
  [ Push demoEnv (Toy.inst Toy.st 64 1) false (demoBytes 9 4) 4 4096 noFlags (replicate 4 true)
      (Some (demoReply 8192));
    Commit (Toy.inst Toy.st 64 1) true;
    Push demoEnv (Toy.inst Toy.ld 68 2) true [] 8 4108 noFlags (replicate 8 true)
      (Some (demoReply 12300));
    NextFragment 1;
    Delayed 1;
    Finish demoEnv 1 1 (demoReply 12304) false;
    Retry demoEnv;
    Step demoEnv;
    Response 1 (demoAnswer 4112 4 false);
    Response 1 (demoAnswer 4108 4 false);
    Commit (Toy.inst Toy.ld 68 2) false;
    Step demoEnv;
    Response 0 (demoAnswer 4096 4 true) ].

Definition demoStart : LSQ Toy.isa :=
  match makeLSQ demoParams with Ok s => s | Stop _ => demoLSQ 8192 end.

Lemma demoParams_ok : params_ok demoParams.
Proof. split; cbn; try lia. by exists 4. Qed.

Lemma demoEvents_obey : obeys demoStart demoEvents.
Proof. apply obeysb_sound. vm_compute. reflexivity. Qed.

Lemma demoEvents_prefix n : obeysb demoStart (take n demoEvents) = true → obeys demoStart (take n demoEvents).
Proof. apply obeysb_sound. Qed.


Lemma lsq_commit_order_witness :
  ∃ out s, runEvents demoEvents demoStart = Ok (out, s)
    ∧ out ++ order s = [mkInstId 0 1 1 1 1 0; mkInstId 0 1 1 1 2 0].
Proof.
  destruct (lsq_commit_order demoParams demoEvents demoStart) as (out & s & Heq & Ho);
    [exact demoParams_ok|reflexivity|exact demoEvents_obey|].
  exists out, s. split; [exact Heq|]. rewrite Ho. reflexivity.
Defined.

Lemma lsq_drained_empty_witness :
  ∃ out s, runEvents demoEvents demoStart = Ok (out, s) ∧ LSQ_isDrained s = true
    ∧ heap s = ∅ ∧ counters s = mkCounters 0 0 0 0 0
    ∧ out = [mkInstId 0 1 1 1 1 0; mkInstId 0 1 1 1 2 0].
Proof.
  destruct (lsq_drained_empty demoParams demoEvents demoStart) as (out & s & Heq & Hd);
    [exact demoParams_ok|reflexivity|exact demoEvents_obey|].
  assert (match runEvents demoEvents demoStart with
          | Ok (_, s) => LSQ_isDrained s | Stop _ => false end = true) as H by (vm_compute; reflexivity).
  rewrite Heq in H. destruct (Hd H) as (H1 & H2 & _ & _ & H3). exists out, s.
  split; [exact Heq|]. split; [exact H|]. split; [exact H1|]. split; [exact H2|]. rewrite H3. reflexivity.
Defined.

(** the [n] bytes of an access lie side by side from [a] on *)
Definition readsAt (r : LSQRequest Toy.isa) (a n : Z) : bool :=
  bool_decide (q_paddr (rq_request r) = Some a) && (q_size (rq_request r) =? n)
  && forallb (λ j, bool_decide (byteAddr r j = Some (a + j))) (zrange 0 (n - 1)).
Lemma readsAt_sound r a n : readsAt r a n = true → 0 ≤ a → 0 < n → a + n < 2 ^ 64 → ranged r a ∧ straightLoad r a.
Proof.
  unfold readsAt. intros [[H1%bool_decide_eq_true H2%Z.eqb_eq]%andb_true_iff H3]%andb_true_iff Ha Hn Han.
  split; [split; lia || done|]. intros j x Hj Hx. rewrite forallb_forall in H3.
  specialize (H3 j). rewrite <- list_elem_of_In, elem_of_zrange in H3.
  specialize (H3 ltac:(lia)). apply bool_decide_eq_true in H3. congruence.
Qed.

(** after the refusal of the load's first packet *)
Lemma lsq_loads_wait_witness :
  ∃ out s r r', runEvents (take 6 demoEvents) demoStart = Ok (out, s)
    ∧ heap s !! 1 = Some r ∧ rq_isLoad r = true ∧ rq_state r = RequestNeedsRetry
    ∧ head (queue (requests s)) = Some 1 ∧ slots s = [0] ∧ heap s !! 0 = Some r'
    ∧ ∀ j x, 0 ≤ j < q_size (rq_request r) → byteAddr r j = Some x → storeByte r' x = None.
Proof.
  destruct (lsq_loads_wait demoParams (take 6 demoEvents) demoStart) as (out & s & Heq & Hw);
    [exact demoParams_ok|reflexivity|apply demoEvents_prefix; vm_compute; reflexivity|].
  assert (match runEvents (take 6 demoEvents) demoStart with
          | Ok (_, s) => match heap s !! 1, heap s !! 0 with
              | Some r, Some r' => rq_isLoad r && bool_decide (rq_state r = RequestNeedsRetry)
                  && bool_decide (queue (requests s) = [1]) && bool_decide (slots s = [0])
                  && readsAt r 12300 8 && forwardable (threadId (id (rq_inst r))) r'
                  && bool_decide (q_paddr (rq_request r') = Some 8192)
                  && match rq_kind r' with SingleDataRequest _ _ => true | _ => false end
              | _, _ => false end
          | Stop _ => false end = true) as H by (vm_compute; reflexivity).
  rewrite Heq in H. destruct (heap s !! 1) as [r|] eqn:Hr; [|discriminate H].
  destruct (heap s !! 0) as [r'|] eqn:Hr'; [|discriminate H].
  apply andb_true_iff in H as [[[[[[[H1 H2%bool_decide_eq_true]%andb_true_iff H3%bool_decide_eq_true]%andb_true_iff
    H4%bool_decide_eq_true]%andb_true_iff H5]%andb_true_iff H6]%andb_true_iff H7%bool_decide_eq_true]%andb_true_iff H8].
  destruct (readsAt_sound r 12300 8 H5) as [Ha Hs]; [lia..|].
  destruct (Hw 1 r) as (Hh & _ & Hst); [rewrite H3; by left|exact Hr|exact H1|right; exact H2|].
  exists out, s, r, r'. split_and!; try assumption.
  apply (Hst 0 r' 12300 8192); try assumption; [rewrite H4; by left|].
  unfold straightStore. by destruct (rq_kind r').
Defined.

(** with both packets of the load in memory, at the limit *)
Lemma lsq_no_lost_wakeup_witness :
  ∃ out s, runEvents (take 8 demoEvents) demoStart = Ok (out, s) ∧ needsToTick s = Ok false
    ∧ (LSQ_step demoEnv s = Ok (tt, s) ∨ mstate s = MemoryNeedsRetry
       ∨ ∃ p r, p ∈ queued s ∧ heap s !! p = Some r ∧ 0 < inflight r).
Proof.
  destruct (lsq_no_lost_wakeup demoParams (take 8 demoEvents) demoStart demoEnv)
    as (out & s & b & Heq & Hb & Hw);
    [exact demoParams_ok|reflexivity|apply demoEvents_prefix; vm_compute; reflexivity|].
  assert (match runEvents (take 8 demoEvents) demoStart with
          | Ok (_, s) => match needsToTick s with Ok b => negb b | Stop _ => false end
          | Stop _ => false end = true) as H by (vm_compute; reflexivity).
  rewrite Heq, Hb in H. apply negb_true_iff in H. subst b.
  exists out, s. split; [exact Heq|]. split; [exact Hb|]. exact (Hw eq_refl).
Defined.

(** ** Outside the protocol *)

Definition stopsWith (es : list LsqEvent) (z : stop) : bool :=
  match runEvents es demoStart with Stop z' => bool_decide (z' = z) | Ok _ => false end.

(** [SingleDataRequest::finish] sets the state of a request whose fault was
    suppressed to [Complete] and then to [Translated]: the request, which has no
    packet, is sent. *)
Definition suppressedEvents : list LsqEvent :=
  [ Push demoEnv (Toy.inst Toy.ld 64 1) true [] 4 4096 noFlags (replicate 4 true) None;
    Delayed 0 ].
Lemma suppressed_fault_stops :
  obeys demoStart suppressedEvents
  ∧ stopsWith (suppressedEvents ++ [Finish demoEnv 0 0 (mkTlbReply (Some 1) 0 noFlags false) true]) NullDeref = true.
Proof. split; [apply obeysb_sound|]; vm_compute; reflexivity. Qed.

(** An error for the first fragment, when nothing is in memory any more,
    completes the request while it waits to send the second one again. *)
Definition refuseSecond : LsqEnv (I := Toy.isa) :=
  mkLsqEnv (λ _, true) (λ _, true) (λ n, n =? 0) true (λ p, p).
Definition fragmentEvents : list LsqEvent :=
  [ Push refuseSecond (Toy.inst Toy.ld 64 1) true [] 8 4108 noFlags (replicate 8 true) (Some (demoReply 12300));
    NextFragment 0;
    Finish refuseSecond 0 1 (demoReply 12304) false;
    Step refuseSecond ].
Lemma fragment_error_stops :
  obeys demoStart fragmentEvents
  ∧ stopsWith (fragmentEvents ++ [Response 0 (copyError (demoAnswer 4108 4 false)); Retry refuseSecond]) Panic = true.
Proof. split; [apply obeysb_sound|]; vm_compute; reflexivity. Qed.
End demo.
