(* ===== verification/Runs.v ===== *)
(** * Code that ends (Runs)

    A loop whose recursion is not structural has a step bound in its model and
    stops with [OutOfFuel] when it reaches it.  [ends m] says that [m] does not
    stop for that reason, and [runs m s Q] that [m] ends and that, where it
    returns, its result and new state satisfy [Q].  The tactic [ends_tac] shows
    [ends] of code without such loops by following its structure; the lemmas of
    this file do so for the operations of the components that Execute calls. *)
From stdpp Require Import gmap.
From S2P Require Import Prelude TimeBuf Buffers Activity LVPT CVU PipeData Cpu Scoreboard FuncUnit.
From S2P Require Import LsqAddr LsqRequest Lsq.

(** ** Definitions *)

Definition ends {A} (m : res A) : Prop := m ≠ Stop OutOfFuel.

Definition runs {S A} (m : St S A) (s : S) (Q : A → S → Prop) : Prop :=
  match m s with Ok (a, s') => Q a s' | Stop x => x ≠ OutOfFuel end.

(** [m] ends from every state *)
Definition endsM {S A} (m : St S A) : Prop := ∀ s, ends (m s).

Create HintDb ends discriminated.

(** ** Rules *)

Lemma ends_Ok {A} (a : A) : ends (Ok a).
Proof. done. Qed.

Lemma ends_bind {A B} (m : res A) (f : A → res B) : ends m → (∀ a, m = Ok a → ends (f a)) → ends (rbind m f).
Proof. intros H Hf. destruct m as [a|x]; cbn; [by apply Hf|]. intros [=]. apply H. by subst. Qed.

Lemma ends_assert b : ends (assert_ b).
Proof. by destruct b. Qed.

Lemma ends_mfold {S A} (f : S → A → res S) l s : (∀ s a, ends (f s a)) → ends (mfold f s l).
Proof. intros Hf. revert s. induction l as [|x l IH]; intros s; cbn; [done|]. apply ends_bind; auto. Qed.

Lemma ends_vget {A} (l : list A) i : ends (vget l i).
Proof. unfold vget. by repeat case_match. Qed.

Lemma ends_vset {A} (l : list A) i x : ends (vset l i x).
Proof. unfold vset. by repeat case_match. Qed.

Section rules.
Context {S A : Type}.
Implicit Types (m : St S A) (s : S).

Lemma runs_ends m s Q : runs m s Q → ends (m s).
Proof. unfold runs, ends. destruct (m s) as [[]|x]; [done|]. congruence. Qed.

Lemma runs_Ok m s Q a s' : runs m s Q → m s = Ok (a, s') → Q a s'.
Proof. unfold runs. intros H E. by rewrite E in H. Qed.

Lemma ends_runs m s : ends (m s) → runs m s (λ _ _, True).
Proof. unfold runs, ends. destruct (m s) as [[]|x]; [done|]. congruence. Qed.

Lemma runs_conseq m s (Q Q' : A → S → Prop) : runs m s Q → (∀ a s', m s = Ok (a, s') → Q a s' → Q' a s') → runs m s Q'.
Proof. unfold runs. destruct (m s) as [[]|x]; auto. Qed.

Lemma runs_ret (a : A) s (Q : A → S → Prop) : Q a s → runs (sret a) s Q.
Proof. done. Qed.

Lemma runs_bind {B} (m : St S B) (k : B → St S A) s Q :
  runs m s (λ b s', runs (k b) s' Q) → runs (sbind m k) s Q.
Proof. unfold runs, sbind. by destruct (m s) as [[]|x]. Qed.

Lemma runs_assoc {B C} (m : St S B) (k : B → St S C) (h : C → St S A) s Q :
  runs (sbind (sbind m k) h) s Q → runs (sbind m (λ b, sbind (k b) h)) s Q.
Proof. unfold runs, sbind. by destruct (m s) as [[]|x]. Qed.

Lemma runs_get s (Q : S → S → Prop) : Q s s → runs sget s Q.
Proof. done. Qed.

Lemma runs_mod f s (Q : unit → S → Prop) : Q tt (f s) → runs (smod f) s Q.
Proof. done. Qed.

Lemma runs_lift (x : res A) s (Q : A → S → Prop) : ends x → (∀ a, x = Ok a → Q a s) → runs (slift x) s Q.
Proof. unfold runs, slift, ends. destruct x; cbn; intros H Hq; [by apply Hq|congruence]. Qed.

Lemma runs_assert b s (Q : unit → S → Prop) : (b = true → Q tt s) → runs (sassert b) s Q.
Proof. destruct b; cbn; auto. Qed.

Lemma endsM_ret (a : A) : endsM (S:=S) (sret a).
Proof. done. Qed.

Lemma endsM_bind {B} (m : St S B) (k : B → St S A) : endsM m → (∀ b, endsM (k b)) → endsM (sbind m k).
Proof.
  intros Hm Hk s. unfold sbind. specialize (Hm s). destruct (m s) as [[b s1]|x]; [apply Hk|].
  unfold ends in *. congruence.
Qed.

Lemma endsM_get : endsM (S:=S) sget.
Proof. done. Qed.

Lemma endsM_mod f : endsM (S:=S) (smod f).
Proof. done. Qed.

Lemma endsM_assert b : endsM (S:=S) (sassert b).
Proof. by destruct b. Qed.
End rules.

Lemma endsM_lift {S A} (x : res A) : ends x → endsM (S:=S) (slift x).
Proof. intros H s. unfold slift. by apply ends_bind. Qed.

#[export] Hint Resolve ends_Ok ends_assert ends_vget ends_vset endsM_ret endsM_get endsM_mod endsM_assert : ends.

(** follows the structure of code; definitions are unfolded as they are met *)
Ltac ends_head t := lazymatch t with ?f _ => ends_head f | _ => t end.
Ltac ends_step :=
  first
    [ solve [eauto 2 with ends]
    | progress intros
    | match goal with
      | |- ends (Stop _) => discriminate
      | |- ends (rbind _ _) => apply ends_bind
      | |- ends (mfold _ _ _) => apply ends_mfold
      | |- endsM (sbind _ _) => apply endsM_bind
      | |- endsM (slift _) => apply endsM_lift
      | |- endsM (λ _, _) => intros ?; cbn
      | |- ends (let '(_, _) := ?x in _) => destruct x
      | |- endsM (let '(_, _) := ?x in _) => destruct x
      | |- ends (match ?x with _ => _ end) => destruct x eqn:?
      | |- endsM (match ?x with _ => _ end) => destruct x eqn:?
      | |- ends ?t => let h := ends_head t in unfold h
      | |- endsM ?t => let h := ends_head t in unfold h
      end ].
Ltac ends_tac := repeat ends_step.

(** ** Relations that code keeps *)

(** [m] ends, and where it returns its states are related *)
Definition keepsM {S A} (R : S → S → Prop) (m : St S A) : Prop := ∀ s, runs m s (λ _ s', R s s').

Section keeps.
Context {S : Type} (R : S → S → Prop) `{!PreOrder R}.

Lemma keeps_ret {A} (a : A) : keepsM R (sret a).
Proof. intros s. apply runs_ret. reflexivity. Qed.

Lemma keeps_get : keepsM R sget.
Proof. intros s. apply runs_get. reflexivity. Qed.

Lemma keeps_lift {A} (m : res A) : ends m → keepsM R (slift m).
Proof. intros H s. apply runs_lift; [done|]. reflexivity. Qed.

Lemma keeps_assert b : keepsM R (sassert b).
Proof. intros s. apply runs_assert. reflexivity. Qed.

Lemma keeps_mod f : (∀ s, R s (f s)) → keepsM R (smod f).
Proof. intros H s. by apply runs_mod. Qed.

Lemma keeps_bind {A B} (m : St S A) (k : A → St S B) :
  keepsM R m → (∀ a, keepsM R (k a)) → keepsM R (sbind m k).
Proof.
  intros Hm Hk s. apply runs_bind. eapply runs_conseq; [apply Hm|]. cbn. intros a s1 _ H1.
  eapply runs_conseq; [apply Hk|]. cbn. intros b s2 _ H2. by etrans.
Qed.
End keeps.

Create HintDb keeps discriminated.

(** follows the structure of code, as [ends_tac] does *)
Ltac keeps_step :=
  first
    [ solve [eauto 2 with keeps]
    | progress intros
    | match goal with
      | |- PreOrder _ => typeclasses eauto
      | |- keepsM _ (sret _) => apply (keeps_ret _)
      | |- keepsM _ sget => apply (keeps_get _)
      | |- keepsM _ (sassert _) => apply (keeps_assert _)
      | |- keepsM _ (sbind _ _) => apply keeps_bind
      | |- keepsM _ (slift _) => apply keeps_lift; ends_tac
      | |- keepsM _ (let '(_, _) := ?x in _) => destruct x
      | |- keepsM _ (match ?x with _ => _ end) => destruct x eqn:?
      | |- keepsM _ ?t => let h := ends_head t in unfold h
      end ].
Ltac keeps_tac := repeat keeps_step.

(** ** Relations between the states where code returns *)

Definition onlyM {S A} (R : S → S → Prop) (m : St S A) : Prop := ∀ s a s', m s = Ok (a, s') → R s s'.

Section only.
Context {S : Type} (R : S → S → Prop) `{!PreOrder R}.

Lemma only_ret {A} (a : A) : onlyM R (sret a).
Proof. intros s ? ? [= _ <-]. reflexivity. Qed.

Lemma only_get : onlyM R sget.
Proof. intros s ? ? [= _ <-]. reflexivity. Qed.

Lemma only_lift {A} (m : res A) : onlyM R (slift m).
Proof. intros s a s'. unfold slift. destruct m; [|done]. intros [= _ <-]. reflexivity. Qed.

Lemma only_assert b : onlyM R (sassert b).
Proof. apply only_lift. Qed.

Lemma only_mod f : (∀ s, R s (f s)) → onlyM R (smod f).
Proof. intros H s ? ? [= _ <-]. apply H. Qed.

Lemma only_bind {A B} (m : St S A) (k : A → St S B) :
  onlyM R m → (∀ a, onlyM R (k a)) → onlyM R (sbind m k).
Proof.
  intros Hm Hk s b s' (a & s1 & H1 & H2)%sbind_Ok. etrans; [by eapply Hm|by eapply Hk].
Qed.
End only.

Create HintDb only discriminated.

(** follows the structure of code, as [ends_tac] does *)
Ltac only_step :=
  first
    [ solve [eauto 2 with only]
    | progress intros
    | match goal with
      | |- PreOrder _ => typeclasses eauto
      | |- onlyM _ (sret _) => apply (only_ret _)
      | |- onlyM _ sget => apply (only_get _)
      | |- onlyM _ (sassert _) => apply (only_assert _)
      | |- onlyM _ (sbind _ _) => apply only_bind
      | |- onlyM _ (slift _) => apply (only_lift _)
      | |- onlyM _ (let '(_, _) := ?x in _) => destruct x
      | |- onlyM _ (match ?x with _ => _ end) => destruct x eqn:?
      | |- onlyM _ ?t => let h := ends_head t in unfold h
      end ].
Ltac only_tac := repeat only_step.

(** ** The components *)

(** buffers and functional units *)
Section buffers.
Context {T : Type} `{IsBubble T} `{!Bubble T}.

Lemma ends_access (tb : TimeBuffer T) i : ends (access tb i).
Proof. ends_tac. Qed.
Lemma ends_store (tb : TimeBuffer T) i x : ends (store tb i x).
Proof. ends_tac. Qed.
Lemma ends_advance d (tb : TimeBuffer T) : ends (advance d tb).
Proof. ends_tac. Qed.
#[local] Hint Resolve ends_access ends_store ends_advance : ends.

Lemma ends_front (q : SelfStallingPipeline T) : ends (front q).
Proof. ends_tac. Qed.
Lemma ends_alreadyPushed (q : SelfStallingPipeline T) : ends (alreadyPushed q).
Proof. ends_tac. Qed.
Lemma ends_fu_push (f : FUPipeline T) x : ends (fu_push f x).
Proof. ends_tac. Qed.
Lemma ends_fu_advance (f : FUPipeline T) n : ends (fu_advance f n).
Proof. ends_tac. Qed.
Lemma ends_Queue_front (q : Queue T) : ends (Queue_front q).
Proof. ends_tac. Qed.
Lemma ends_Queue_pop (q : Queue T) : ends (Queue_pop q).
Proof. ends_tac. Qed.
Lemma ends_IB_front (b : InputBuffer T) : ends (IB_front b).
Proof. ends_tac. Qed.
Lemma ends_IB_pop (b : InputBuffer T) : ends (IB_pop b).
Proof. ends_tac. Qed.
Lemma ends_setTail (b : InputBuffer T) x : ends (setTail b x).
Proof. ends_tac. Qed.
Lemma ends_findTiming `{I : Isa} (f : FUPipeline T) i : ends (findTiming f i).
Proof.
  unfold findTiming. ends_tac. generalize (timings (description f)) as ts.
  induction ts; cbn; ends_tac.
Qed.
End buffers.
#[export] Hint Resolve ends_front ends_alreadyPushed ends_fu_push ends_fu_advance ends_Queue_front
  ends_Queue_pop ends_IB_front ends_IB_pop ends_setTail ends_findTiming : ends.

(** instructions and scoreboard *)
Section insts.
Context `{I : Isa}.

Lemma ends_derefInst i : ends (derefInst i).
Proof. ends_tac. Qed.
Lemma ends_derefPtr {A} (p : option A) : ends (derefPtr p).
Proof. ends_tac. Qed.
Lemma ends_InstId_eq a b : ends (InstId_eq a b).
Proof. ends_tac. Qed.
#[local] Hint Resolve ends_derefInst ends_derefPtr ends_InstId_eq : ends.

Lemma ends_markup f sb (i : MyMinorDynInst I) t u : ends (markupInstDests f sb i t u).
Proof. ends_tac. Qed.
Lemma ends_clearInstDests sb (i : MyMinorDynInst I) u : ends (clearInstDests sb i u).
Proof. ends_tac. Qed.
Lemma ends_execSeqNumToWaitFor f sb (i : MyMinorDynInst I) : ends (execSeqNumToWaitFor f sb i).
Proof. ends_tac. Qed.
Lemma ends_canInstIssue f sb (i : MyMinorDynInst I) l c n : ends (canInstIssue f sb i l c n).
Proof.
  unfold canInstIssue. ends_tac. generalize 0%nat. generalize (srcRegs (staticInst i)) as srcs.
  induction srcs; cbn; ends_tac.
Qed.
End insts.
#[export] Hint Resolve ends_derefInst ends_derefPtr ends_InstId_eq ends_markup ends_clearInstDests
  ends_execSeqNumToWaitFor ends_canInstIssue : ends.

(** the constant verification unit and requests *)
Lemma ends_verifyEntryInCVU c a i d k : ends (verifyEntryInCVU c a i d k).
Proof.
  unfold verifyEntryInCVU. ends_tac. generalize (zrange 0 (cvuTableSize c - 1)) as l.
  induction l; cbn; ends_tac.
Qed.
Lemma ends_AddEntryToCVU c r d i v p : ends (AddEntryToCVU c r d i v p).
Proof. ends_tac. Qed.
Lemma ends_storeInvalidate c v p : ends (storeInvalidate c v p).
Proof. ends_tac. Qed.
Lemma ends_getPaddr q : ends (getPaddr q).
Proof. ends_tac. Qed.
Lemma ends_readBytes b o n : ends (readBytes b o n).
Proof. ends_tac. Qed.
Lemma ends_memcpy a b c d : ends (memcpy a b c d).
Proof. ends_tac. Qed.
Lemma ends_bytesOf p : ends (bytesOf p).
Proof. ends_tac. Qed.
Lemma ends_makeResponse p : ends (makeResponse p).
Proof. ends_tac. Qed.
Lemma ends_containsAddrRangeOf a b : ends (containsAddrRangeOf a b).
Proof. ends_tac. Qed.
Lemma ends_fragmentLoop n q a b w f l d : ends (fragmentLoop n q a b w f l d).
Proof. revert f l d. induction n; intros; cbn [fragmentLoop]; ends_tac. Qed.
#[local] Hint Resolve ends_fragmentLoop : ends.
Lemma ends_makeFragmentRequests w q : ends (makeFragmentRequests w q).
Proof. unfold makeFragmentRequests. ends_tac. Qed.
#[export] Hint Resolve ends_verifyEntryInCVU ends_AddEntryToCVU ends_storeInvalidate ends_getPaddr
  ends_readBytes ends_memcpy ends_bytesOf ends_makeResponse ends_containsAddrRangeOf
  ends_makeFragmentRequests : ends.

(** the load/store queue *)
Section lsq.
Context `{I : Isa}.
Implicit Types (env : LsqEnv) (r : LSQRequest I) (p : Ptr) (inst : MyMinorDynInst I).

Lemma ends_getHeadPacket r : ends (getHeadPacket r).
Proof. ends_tac. Qed.
Lemma ends_stepToNextPacket r : ends (stepToNextPacket r).
Proof. ends_tac. Qed.
Lemma ends_makePacket r : ends (makePacket r).
Proof. ends_tac. Qed.
Lemma ends_makeFragmentPackets r : ends (makeFragmentPackets r).
Proof. ends_tac. Qed.
Lemma ends_forwardBytes a b : ends (forwardBytes (I:=I) a b).
Proof. ends_tac. Qed.
Lemma ends_accessLocally env r : ends (accessLocally env r).
Proof. ends_tac. Qed.
#[local] Hint Resolve ends_getHeadPacket ends_stepToNextPacket ends_makePacket ends_makeFragmentPackets
  ends_forwardBytes ends_accessLocally : ends.

Lemma ends_deref p : endsM (deref (I:=I) p).
Proof. intros s. unfold deref. ends_tac. Qed.
Lemma ends_alloc r : endsM (alloc r).
Proof. intros s. unfold alloc. ends_tac. Qed.
#[local] Hint Resolve ends_deref ends_alloc : ends.
Lemma ends_update p f : (∀ r, ends (f r)) → endsM (update (I:=I) p f).
Proof. intros. unfold update. ends_tac. Qed.
Lemma ends_set p f : endsM (set (I:=I) p f).
Proof. unfold set. apply ends_update. ends_tac. Qed.
#[local] Hint Resolve ends_set : ends.
#[local] Hint Extern 3 (endsM (update _ _)) => apply ends_update; intros : ends.

Lemma ends_tryToSend env p : endsM (tryToSend env p).
Proof. ends_tac. Qed.
Lemma ends_deleteRequest p : endsM (deleteRequest (I:=I) p).
Proof. ends_tac. Qed.
Lemma ends_insert p : endsM (insert (I:=I) p).
Proof. ends_tac. Qed.
#[local] Hint Resolve ends_tryToSend ends_deleteRequest ends_insert : ends.
Lemma ends_forwardSearch r l i : endsM (forwardSearch r l i).
Proof. revert i. induction l; intros; cbn [forwardSearch]; ends_tac. Qed.
#[local] Hint Resolve ends_forwardSearch : ends.
Lemma ends_tryToSendToTransfers env p : endsM (tryToSendToTransfers env p).
Proof. ends_tac. Qed.
#[local] Hint Resolve ends_tryToSendToTransfers : ends.
Lemma ends_clearBarriers n : endsM (clearBarriers (I:=I) n).
Proof. induction n; cbn [clearBarriers]; ends_tac. Qed.
Lemma ends_issueStores env l n : endsM (issueStores env l n).
Proof. revert n. induction l; intros; cbn [issueStores]; ends_tac. Qed.
#[local] Hint Resolve ends_clearBarriers ends_issueStores : ends.

Lemma ends_LSQ_step env : endsM (LSQ_step env).
Proof. ends_tac. Qed.
Lemma ends_finish env p i t b : endsM (finish env p i t b).
Proof. ends_tac. Qed.
#[local] Hint Resolve ends_finish : ends.
Lemma ends_sendNextFragment p : endsM (sendNextFragmentToTranslation (I:=I) p).
Proof. ends_tac. Qed.
Lemma ends_findResponse inst : endsM (findResponse inst).
Proof. ends_tac. Qed.
Lemma ends_retireResponse r pkt : ends (retireResponse r pkt).
Proof. ends_tac. Qed.
#[local] Hint Resolve ends_retireResponse : ends.
Lemma ends_recvTimingResp p pkt : endsM (recvTimingResp (I:=I) p pkt).
Proof. ends_tac. Qed.
Lemma ends_recvReqRetry env : endsM (recvReqRetry env).
Proof. ends_tac. Qed.
Lemma ends_popResponse p : endsM (popResponse (I:=I) p).
Proof. ends_tac. Qed.
Lemma ends_sendStoreToStoreBuffer p : endsM (sendStoreToStoreBuffer (I:=I) p).
Proof. ends_tac. Qed.
Lemma ends_completeMemBarrierInst inst b : endsM (completeMemBarrierInst inst b).
Proof. ends_tac. Qed.
Lemma ends_issuedMemBarrierInst inst : endsM (issuedMemBarrierInst inst).
Proof. ends_tac. Qed.
Lemma ends_pushRequest env inst b d n a f e t : endsM (pushRequest env inst b d n a f e t).
Proof. ends_tac. Qed.
Lemma ends_pushFailedRequest inst : endsM (pushFailedRequest inst).
Proof. ends_tac. Qed.
Lemma ends_needsToTick (l : LSQ I) : ends (needsToTick l).
Proof. ends_tac. Qed.
End lsq.
#[export] Hint Resolve ends_finish ends_sendNextFragment ends_recvTimingResp ends_recvReqRetry ends_deref ends_set ends_LSQ_step ends_findResponse ends_popResponse
  ends_sendStoreToStoreBuffer ends_completeMemBarrierInst ends_issuedMemBarrierInst ends_pushRequest
  ends_pushFailedRequest ends_needsToTick : ends.
