(* ===== verification/Execute.v ===== *)
(** * The Execute stage (src/cpu/myminor/execute.cc, execute.hh)

    Execute issues instructions to the functional units in program order when
    the scoreboard allows it, starts memory accesses in the load/store queue,
    commits instructions in order and tells Fetch1 and Fetch2 about changes of
    stream.  It also compares loaded values with their predictions, trains the
    prediction table and keeps the constant verification unit up to date.

    An instruction is an object that the queue of instructions in flight, the
    queue of memory references, the functional units and the load/store queue
    share: it lives in the store [x_insts] and a [QueuedInst] is a pointer to
    it.  What instructions do to the state of their thread, faults, interrupts
    and pc events are the class [ThreadSem]; the environment of one cycle is
    [ExecEnv].  The functional units' and the queue's own code is in
    [FuncUnit], [Scoreboard] and [Lsq]. *)
From stdpp Require Import gmap.
From S2P Require Import Prelude TimeBuf Buffers Activity LVPT CVU PipeData Cpu Scoreboard FuncUnit.
From S2P Require Import LsqAddr LsqRequest Lsq.

(** ** What surrounds the stage *)

(** What [initiateAcc] of an instruction does: it ends with a fault or without,
    or makes one access of memory and goes on with the access's fault. *)
Inductive AccStep (TC : Type) :=
| AccDone (tc : TC) (f : Fault)
| AccMem (isLoad : bool) (data : Bytes) (size addr : Z) (flags : Flags) (byte_enable : list bool)
    (tc : TC) (k : Fault → TC * Fault).
Arguments AccDone {TC}.
Arguments AccMem {TC}.

(** [ThreadContext::Status] *)
Inductive ThreadStatus := Active | Suspended | Halting | Halted.
#[export] Instance ThreadStatus_eq_dec : EqDecision ThreadStatus.
Proof. solve_decision. Defined.

(** The state of a thread and what acts on it: [ThreadContext] and the virtual
    methods of instructions, faults, timing expressions and pc events. *)
Class ThreadSem `{I : Isa} := {
  TC : Type;
  tc_pcState : TC → PCState;
  tc_setPC : PCState → TC → TC;
  tc_status : TC → ThreadStatus;
  tc_setStatus : ThreadStatus → TC → TC;
  tc_useForClone : TC → bool;
  tc_predicate : TC → bool;
  tc_setPredicate : bool → TC → TC;
  tc_memAccPredicate : TC → bool;
  tc_setMemAccPredicate : bool → TC → TC;
  sem_execute : StaticInst → TC → TC * Fault;
  sem_initiateAcc : StaticInst → TC → AccStep TC;
  sem_completeAcc : StaticInst → option Packet → TC → TC * Fault;
  sem_invoke : Fault → StaticInst → TC → TC;
  sem_timingExpr : Z → StaticInst → TC → Z;
  sem_pcEvents : TC → TC;
  sem_flatten : TC → RegId → RegId;
}.
Arguments ThreadSem I : clear implicits.
Arguments TC {I} _.

Definition tc_suspended `{I : Isa} {TS : ThreadSem I} (tc : TC TS) : bool := bool_decide (tc_status tc = Suspended).

(** ** State *)

(** [QueuedInst]: a pointer to an instruction; [None] points to the bubble *)
Definition QueuedInst : Type := option Z.
#[export] Instance QueuedInst_isBubble : IsBubble QueuedInst := λ q, match q with None => true | Some _ => false end.
#[export] Instance QueuedInst_Bubble : Bubble QueuedInst := {| bubble := None; bubble_isBubble := eq_refl |}.

Inductive DrainState := NotDraining | DrainCurrentInst | DrainHaltFetch | DrainAllInsts.
#[export] Instance DrainState_eq_dec : EqDecision DrainState.
Proof. solve_decision. Defined.

Record ExecuteThreadInfo := mkExecInfo {
  inFlightInsts : Queue QueuedInst;
  inFUMemInsts : Queue QueuedInst;
  x_inputIndex : Z;
  lastCommitWasEndOfMacroop : bool;
  x_streamSeqNum : Z;
  lastPredictionSeqNum : Z;
  drainState : DrainState;
}.

Definition set_inFlight (q : Queue QueuedInst) (i : ExecuteThreadInfo) : ExecuteThreadInfo :=
  mkExecInfo q (inFUMemInsts i) (x_inputIndex i) (lastCommitWasEndOfMacroop i) (x_streamSeqNum i)
    (lastPredictionSeqNum i) (drainState i).
Definition set_inFUMem (q : Queue QueuedInst) (i : ExecuteThreadInfo) : ExecuteThreadInfo :=
  mkExecInfo (inFlightInsts i) q (x_inputIndex i) (lastCommitWasEndOfMacroop i) (x_streamSeqNum i)
    (lastPredictionSeqNum i) (drainState i).
Definition set_inputIndex (n : Z) (i : ExecuteThreadInfo) : ExecuteThreadInfo :=
  mkExecInfo (inFlightInsts i) (inFUMemInsts i) n (lastCommitWasEndOfMacroop i) (x_streamSeqNum i)
    (lastPredictionSeqNum i) (drainState i).
Definition set_lastCommit (b : bool) (i : ExecuteThreadInfo) : ExecuteThreadInfo :=
  mkExecInfo (inFlightInsts i) (inFUMemInsts i) (x_inputIndex i) b (x_streamSeqNum i)
    (lastPredictionSeqNum i) (drainState i).
Definition set_stream (n : Z) (i : ExecuteThreadInfo) : ExecuteThreadInfo :=
  mkExecInfo (inFlightInsts i) (inFUMemInsts i) (x_inputIndex i) (lastCommitWasEndOfMacroop i) n
    (lastPredictionSeqNum i) (drainState i).
Definition set_lastPrediction (n : Z) (i : ExecuteThreadInfo) : ExecuteThreadInfo :=
  mkExecInfo (inFlightInsts i) (inFUMemInsts i) (x_inputIndex i) (lastCommitWasEndOfMacroop i)
    (x_streamSeqNum i) n (drainState i).
Definition set_drain (d : DrainState) (i : ExecuteThreadInfo) : ExecuteThreadInfo :=
  mkExecInfo (inFlightInsts i) (inFUMemInsts i) (x_inputIndex i) (lastCommitWasEndOfMacroop i)
    (x_streamSeqNum i) (lastPredictionSeqNum i) d.

(** the constant members, and those of the CPU *)
Record ExecConfig := mkExecConfig {
  x_policy : ThreadPolicy;
  x_numThreads : Z;
  issueLimit : Z;
  memoryIssueLimit : Z;
  commitLimit : Z;
  memoryCommitLimit : Z;
  x_processMoreThanOneInput : bool;
  numFuncUnits : Z;
  allowEarlyMemIssue : bool;
  noCostFUIndex : Z;
  thresholdLCT : Z;
}.

Section execute.
Context `{I : Isa} {TS : ThreadSem I}.
Notation DynInst := (MyMinorDynInst I).

Record Execute := mkExecute {
  x_cfg : ExecConfig;
  x_lsq : LSQ I;
  x_scoreboard : list Scoreboard;
  x_funcUnits : list (FUPipeline QueuedInst);
  x_inputBuffer : list (InputBuffer (ForwardInstData I));
  x_info : list ExecuteThreadInfo;
  interruptPriority : Z;
  issuePriority : Z;
  commitPriority : Z;
  x_insts : gmap Z DynInst;     (* the instructions that have been issued *)
  x_nextInst : Z;
  x_threads : list (TC TS);     (* the thread contexts *)
  x_numInst : list Z;           (* committed instructions per thread *)
  x_numOp : list Z;             (* and micro-ops *)
  x_branch : BranchData I;      (* [*out.inputWire] *)
  x_awake : bool;               (* [wakeupOnEvent(ExecuteStageId)] was called *)
  x_activity : bool;            (* [activityRecorder->activity()] was called *)
}.

(** one cycle's surroundings *)
Record ExecEnv := mkExecEnv {
  x_now : Z;                              (* [cpu.curCycle()] *)
  x_accept : Z → bool;                    (* answers of the data cache *)
  x_lockedWrite : bool;
  x_localAccessor : Packet → Packet;
  x_tlbReply : DynInst → option TlbReply; (* answers of the TLB that come at once *)
  x_rand : Z;                             (* [std::rand()] *)
  x_shuffledCommit : list Z;              (* the results of [randomPriority()] *)
  x_shuffledIssue : list Z;
  x_beyond : Z → Z;                       (* bytes that a packet's data does not provide *)
  x_hasController : Z → bool;             (* [FullSystem && getInterruptController(tid)] *)
  x_checkInterrupts : Z → TC TS → bool;
  x_getInterrupt : Z → TC TS → Fault;
  x_pcEventFuel : nat;                    (* bound on the chain of pc events *)
}.

Notation M := (St Execute).
Implicit Types (s : Execute) (e : ExecEnv) (i : ExecuteThreadInfo).

(** field updates *)
Definition xu_lsq (l : LSQ I) s : Execute :=
  mkExecute (x_cfg s) l (x_scoreboard s) (x_funcUnits s) (x_inputBuffer s) (x_info s) (interruptPriority s)
    (issuePriority s) (commitPriority s) (x_insts s) (x_nextInst s) (x_threads s) (x_numInst s) (x_numOp s)
    (x_branch s) (x_awake s) (x_activity s).
Definition xu_scoreboard (l : list Scoreboard) s : Execute :=
  mkExecute (x_cfg s) (x_lsq s) l (x_funcUnits s) (x_inputBuffer s) (x_info s) (interruptPriority s)
    (issuePriority s) (commitPriority s) (x_insts s) (x_nextInst s) (x_threads s) (x_numInst s) (x_numOp s)
    (x_branch s) (x_awake s) (x_activity s).
Definition xu_funcUnits (l : list (FUPipeline QueuedInst)) s : Execute :=
  mkExecute (x_cfg s) (x_lsq s) (x_scoreboard s) l (x_inputBuffer s) (x_info s) (interruptPriority s)
    (issuePriority s) (commitPriority s) (x_insts s) (x_nextInst s) (x_threads s) (x_numInst s) (x_numOp s)
    (x_branch s) (x_awake s) (x_activity s).
Definition xu_inputBuffer (l : list (InputBuffer (ForwardInstData I))) s : Execute :=
  mkExecute (x_cfg s) (x_lsq s) (x_scoreboard s) (x_funcUnits s) l (x_info s) (interruptPriority s)
    (issuePriority s) (commitPriority s) (x_insts s) (x_nextInst s) (x_threads s) (x_numInst s) (x_numOp s)
    (x_branch s) (x_awake s) (x_activity s).
Definition xu_info (l : list ExecuteThreadInfo) s : Execute :=
  mkExecute (x_cfg s) (x_lsq s) (x_scoreboard s) (x_funcUnits s) (x_inputBuffer s) l (interruptPriority s)
    (issuePriority s) (commitPriority s) (x_insts s) (x_nextInst s) (x_threads s) (x_numInst s) (x_numOp s)
    (x_branch s) (x_awake s) (x_activity s).
Definition xu_priorities (a b c : Z) s : Execute :=
  mkExecute (x_cfg s) (x_lsq s) (x_scoreboard s) (x_funcUnits s) (x_inputBuffer s) (x_info s) a b c
    (x_insts s) (x_nextInst s) (x_threads s) (x_numInst s) (x_numOp s) (x_branch s) (x_awake s) (x_activity s).
Definition xu_insts (m : gmap Z DynInst) (n : Z) s : Execute :=
  mkExecute (x_cfg s) (x_lsq s) (x_scoreboard s) (x_funcUnits s) (x_inputBuffer s) (x_info s) (interruptPriority s)
    (issuePriority s) (commitPriority s) m n (x_threads s) (x_numInst s) (x_numOp s)
    (x_branch s) (x_awake s) (x_activity s).
Definition xu_threads (l : list (TC TS)) s : Execute :=
  mkExecute (x_cfg s) (x_lsq s) (x_scoreboard s) (x_funcUnits s) (x_inputBuffer s) (x_info s) (interruptPriority s)
    (issuePriority s) (commitPriority s) (x_insts s) (x_nextInst s) l (x_numInst s) (x_numOp s)
    (x_branch s) (x_awake s) (x_activity s).
Definition xu_counts (a b : list Z) s : Execute :=
  mkExecute (x_cfg s) (x_lsq s) (x_scoreboard s) (x_funcUnits s) (x_inputBuffer s) (x_info s) (interruptPriority s)
    (issuePriority s) (commitPriority s) (x_insts s) (x_nextInst s) (x_threads s) a b
    (x_branch s) (x_awake s) (x_activity s).
Definition xu_branch (b : BranchData I) s : Execute :=
  mkExecute (x_cfg s) (x_lsq s) (x_scoreboard s) (x_funcUnits s) (x_inputBuffer s) (x_info s) (interruptPriority s)
    (issuePriority s) (commitPriority s) (x_insts s) (x_nextInst s) (x_threads s) (x_numInst s) (x_numOp s)
    b (x_awake s) (x_activity s).
Definition xu_flags (w a : bool) s : Execute :=
  mkExecute (x_cfg s) (x_lsq s) (x_scoreboard s) (x_funcUnits s) (x_inputBuffer s) (x_info s) (interruptPriority s)
    (issuePriority s) (commitPriority s) (x_insts s) (x_nextInst s) (x_threads s) (x_numInst s) (x_numOp s)
    (x_branch s) w a.

(** ** Access *)

Definition callLsq {A} (m : St (LSQ I) A) : M A := λ s,
  match m (x_lsq s) with Ok (a, l) => Ok (a, xu_lsq l s) | Stop x => Stop x end.

Definition x_thread (tid : Z) : M ExecuteThreadInfo := let! s := sget in slift (vget (x_info s) tid).
Definition x_updThread (tid : Z) (f : ExecuteThreadInfo → ExecuteThreadInfo) : M unit :=
  let! i := x_thread tid in
  let! s := sget in let! l := slift (vset (x_info s) tid (f i)) in smod (xu_info l).

(** [cpu.getContext(tid)] and writing through it *)
Definition getContext (tid : Z) : M (TC TS) := let! s := sget in slift (vget (x_threads s) tid).
Definition setContext (tid : Z) (tc : TC TS) : M unit :=
  let! s := sget in let! l := slift (vset (x_threads s) tid tc) in smod (xu_threads l).

(** [*p] of an instruction pointer and writing through it *)
Definition instAt (p : Z) : M DynInst := λ s,
  match x_insts s !! p with Some x => Ok (x, s) | None => Stop NullDeref end.
Definition instOf (q : QueuedInst) : M DynInst := match q with Some p => instAt p | None => sret bubbleInst end.
Definition setInstAt (p : Z) (f : DynInst → DynInst) : M unit :=
  let! x := instAt p in smod (λ s, xu_insts (<[p := f x]> (x_insts s)) (x_nextInst s) s).
Definition newInst (x : DynInst) : M Z :=
  let! s := sget in
  do! smod (xu_insts (<[x_nextInst s := x]> (x_insts s)) (x_nextInst s + 1)) in
  sret (x_nextInst s).

Definition x_unit (k : Z) : M (FUPipeline QueuedInst) := let! s := sget in slift (vget (x_funcUnits s) k).
Definition x_setUnit (k : Z) (f : FUPipeline QueuedInst) : M unit :=
  let! s := sget in let! l := slift (vset (x_funcUnits s) k f) in smod (xu_funcUnits l).

(** [funcUnits[k]->front().inst] *)
Definition unitFront (k : Z) : M QueuedInst := let! f := x_unit k in slift (front (fuPipe f)).

Definition wakeupExecute : M unit := let! s := sget in smod (xu_flags true (x_activity s)).
Definition markActivity : M unit := let! s := sget in smod (xu_flags (x_awake s) true).

(** the surroundings of the load/store queue *)
Definition rightStream s (x : DynInst) : bool :=
  match vget (x_info s) (threadId (id x)) with
  | Ok i => streamSeqNum (id x) =? x_streamSeqNum i
  | Stop _ => false
  end.
Definition headInst s (x : DynInst) : bool :=
  match vget (x_info s) (threadId (id x)) with
  | Ok i => match queue (inFlightInsts i) with
            | Some p :: _ => match x_insts s !! p with
                             | Some h => match InstId_eq (id h) (id x) with Ok b => b | Stop _ => false end
                             | None => false
                             end
            | _ => false
            end
  | Stop _ => false
  end.
Definition lsqEnv e s : LsqEnv :=
  mkLsqEnv (rightStream s) (headInst s) (x_accept e) (x_lockedWrite e) (x_localAccessor e).

(** ** Streams *)

(** [updateBranchData(tid, reason, inst, target, branch)] *)
Definition updateBranchData (tid : Z) (r : Reason) (inst : DynInst) (t : PCState) : M unit :=
  match r with
  | NoBranch => sret tt
  | _ =>
      do! (if isStreamChange r then x_updThread tid (λ i, set_stream (u64 (x_streamSeqNum i + 1)) i)
           else sret tt) in
      let! i := x_thread tid in
      smod (xu_branch (newBranchData r tid (x_streamSeqNum i)
                         (if isBubble inst then lastPredictionSeqNum i else predictionSeqNum (id inst)) t inst))
  end.

(** the reason [tryToBranch] finds *)
Definition branchReason (inst : DynInst) (force_branch must_branch : bool) (t : PCState) : res Reason :=
  if predictedTaken inst && negb force_branch then
    if negb must_branch then Ok BadlyPredictedBranch
    else p ← derefPtr (predictedTarget inst);
         Ok (if pc_equals p t then CorrectlyPredictedBranch else BadlyPredictedBranchTarget)
  else if must_branch then Ok UnpredictedBranch
  else Ok NoBranch.

(** [force_branch] *)
Definition forceBranch (inst : DynInst) (tc : TC TS) : bool :=
  negb (tc_suspended tc) && negb (isFault inst) && isLastOpInInst inst
  && (isSerializeAfter (staticInst inst) || isSquashAfter (staticInst inst)).

(** [tryToBranch(inst, fault, branch)] *)
Definition tryToBranch (inst : DynInst) (fault_ : Fault) : M unit :=
  let tid := threadId (id inst) in
  let! tc := getContext tid in
  let! pc_before := slift (derefPtr (pc inst)) in
  let target0 := tc_pcState tc in
  let force_branch := forceBranch inst tc in
  let must_branch := negb (pc_equals pc_before target0) || faultSet fault_ || force_branch in
  let! target1 :=
    (if negb (faultSet fault_) then
       let! si := slift (derefInst (staticInst inst)) in
       let t := advancePC si target0 in
       do! setContext tid (tc_setPC t tc) in
       sret t
     else sret target0) in
  let! r := slift (branchReason inst force_branch must_branch target1) in
  updateBranchData tid r inst target1.

(** [doInstCommitAccounting(inst)], the counts of the thread *)
Definition doInstCommitAccounting (inst : DynInst) : M unit :=
  do! sassert (negb (isFault inst)) in
  let tid := threadId (id inst) in
  let! si := slift (derefInst (staticInst inst)) in
  let! s := sget in
  let! ni := slift (if negb (isMicroop si) || isLastMicroop si
                    then n ← vget (x_numInst s) tid; vset (x_numInst s) tid (u64 (n + 1))
                    else Ok (x_numInst s)) in
  let! no := slift (n ← vget (x_numOp s) tid; vset (x_numOp s) tid (u64 (n + 1))) in
  smod (xu_counts ni no).

(** ** Memory references *)

(** the constructor and the destructor of [ExecContext] *)
Definition enterContext (inst : DynInst) (tc : TC TS) : res (TC TS) :=
  p ← derefPtr (pc inst);
  Ok (tc_setMemAccPredicate (memAccPredicate (ex inst)) (tc_setPredicate (predicate (ex inst)) (tc_setPC p tc))).
Definition set_predicates (a b : bool) (x : ExecFields) : ExecFields :=
  mkExecFields (fuIndex x) (inLSQ x) (translationFault x) (inStoreBuffer x) (canEarlyIssue x) a b
    (instToWaitFor x) (extraCommitDelay x) (extraCommitDelayExpr x) (minimumCommitCycle x) (flatDestRegIdx x).
Definition leaveContext (tc : TC TS) : DynInst → DynInst :=
  with_ex (set_predicates (tc_predicate tc) (tc_memAccPredicate tc)).

(** [*((unsigned long * )(packet->data))]: eight bytes, whatever the size *)
Definition packetWord e (d : Bytes) : Z :=
  fold_right (λ k n, n + (match d !! k with Some (Some b) => b | _ => x_beyond e (Z.of_nat k) end)
                         * 2 ^ (8 * Z.of_nat k)) 0 (seq 0 8).

Definition set_lvptIn (predict constant : bool) (value pc_ addr : Z) (b : BranchData I) : BranchData I :=
  mkBranchData (reason b) (brThreadId b) (newStreamSeqNum b) (newPredictionSeqNum b) (target b) (brInst b)
    (Some (mkLvptIn predict constant value pc_
             (match lvptIn b with Some l => lvptInIndex l | None => 0 end) addr)).

(** the value of a constant load takes the place of the packet's data *)
Definition cvuData (c : CVU) (inst : DynInst) (pkt : Packet) : res Packet :=
  let l := lvptOut inst in
  hit ← verifyEntryInCVU c (q_vaddr (pk_req pkt)) (outDataIndex l) (outDataValue l) (outDataConstant l);
  match hit with
  | Some _ => b ← readBytes (ulongBytes (outDataValue l)) 0 (q_size (pk_req pkt)); Ok (setPacketData b pkt)
  | None => Ok pkt
  end.

(** a load whose prediction has become constant enters the unit *)
Definition cvuTrain (threshold rnd : Z) (c : CVU) (inst : DynInst) (pkt : Packet) (word : Z) : res CVU :=
  let l := lvptOut inst in
  if outDataCounter l =? threshold then
    hit ← verifyEntryInCVU c (q_vaddr (pk_req pkt)) (outDataIndex l) (outDataValue l) true;
    match hit with
    | None => pa ← getPaddr (pk_req pkt);
              AddEntryToCVU c rnd word (outDataIndex l) (q_vaddr (pk_req pkt)) pa
    | Some _ => Ok c
    end
  else Ok c.

Definition lsq_updCvu (f : CVU → res CVU) : M unit :=
  callLsq (let! l := sget in let! c := slift (f (cvu l)) in
           smod (λ l, mkLSQ (cfg l) (heap l) (nextPtr l) (lastMemBarrier l) (mstate l) (requests l) (transfers l)
                        (slots l) (counters l) (retryRequest l) c (numSends l) (lsqAwake l))).

(** the part of [handleMemResponse] for an access that has its data *)
Definition completeAccess e (p : Z) (inst : DynInst) (si : StaticInst) (response : Ptr) (pkt : Packet)
  : M Fault :=
  let tid := threadId (id inst) in
  let l := lvptOut inst in
  let! s := sget in
  let! pkt := slift (cvuData (cvu (x_lsq s)) inst pkt) in
  do! callLsq (set response (setPacket (Some pkt))) in
  let! tc := getContext tid in
  let '(tc, fault_) := sem_completeAcc si (Some pkt) tc in
  do! setContext tid tc in
  let! d := slift (bytesOf pkt) in
  let word := packetWord e d in
  let matches := outDataPredict l && (word =? outDataValue l) in
  do! (if isLoad si && matches
       then lsq_updCvu (λ c, cvuTrain (thresholdLCT (x_cfg s)) (x_rand e) c inst pkt word) else sret tt) in
  if faultSet fault_ then
    do! setContext tid (sem_invoke fault_ si tc) in sret fault_
  else
    let! r := callLsq (deref response) in
    do! (if needsToBeSentToStoreBuffer r then
           let! pa := slift (getPaddr (pk_req pkt)) in
           do! lsq_updCvu (λ c, storeInvalidate c (q_vaddr (pk_req pkt)) pa) in
           do! callLsq (sendStoreToStoreBuffer response) in
           setInstAt p (setInStoreBuffer true)
         else sret tt) in
    let! pc_ := slift (derefPtr (pc inst)) in
    do! smod (λ s, xu_branch (set_lvptIn (isLoad si && matches) (isLoad si) word (instAddr pc_)
                                (u32 (q_vaddr (pk_req pkt))) (x_branch s)) s) in
    sret None.

(** [handleMemResponse(inst, response, branch, fault)] *)
Definition handleMemResponse e (p : Z) (response : Ptr) : M Fault :=
  let! inst := instAt p in
  let tid := threadId (id inst) in
  let! r := callLsq (deref response) in
  let! tc := getContext tid in
  let! tc := slift (enterContext inst tc) in
  do! setContext tid tc in
  let! si := slift (derefInst (staticInst inst)) in
  let tfault := translationFault (ex (rq_inst r)) in
  let! fault_ :=
    (if faultSet tfault then
       if isPrefetch si then sret None
       else do! setContext tid (sem_invoke tfault si tc) in sret tfault
     else
       match rq_packet r with
       | None =>
           do! (if negb (tc_memAccPredicate tc) then setContext tid (sem_completeAcc si None tc).1 else sret tt) in
           sret None
       | Some pkt =>
           if pk_error pkt then slift (Stop Fatal)
           else if isStore si || isLoad si || isDataPrefetch si || isAtomic si
                then completeAccess e p inst si response pkt
                else slift (Stop Fatal)
       end) in
  do! callLsq (popResponse response) in
  do! doInstCommitAccounting inst in
  do! tryToBranch inst fault_ in
  let! tc := getContext tid in
  do! setInstAt p (leaveContext tc) in
  sret fault_.

(** the access of [initiateAcc] and its request *)
Definition initiateAcc e (p : Z) (inst : DynInst) (si : StaticInst) (tc : TC TS)
  : M (TC TS * Fault * option Ptr) :=
  match sem_initiateAcc si tc with
  | AccDone tc f => sret (tc, f, None)
  | AccMem isLoad data size addr flags byte_enable tc k =>
      do! sassert (Z.of_nat (length byte_enable) =? size) in
      do! setContext (threadId (id inst)) tc in
      let! s := sget in
      let! fp := callLsq (pushRequest (lsqEnv e s) inst isLoad data size addr flags byte_enable (x_tlbReply e inst)) in
      do! (match fp.2 with
           | Some _ => setInstAt p (λ x, setTranslationFault fp.1 (setInLSQ true x))
           | None => sret tt
           end) in
      sret (k fp.1, fp.2)
  end.

(** [inst->translationFault = NoFault], which the request sees too *)
Definition clearTranslationFault (p : Z) (request : option Ptr) : M unit :=
  do! setInstAt p (setTranslationFault None) in
  match request with
  | Some q => callLsq (set q (λ r, setInst (setTranslationFault None (rq_inst r)) r))
  | None => sret tt
  end.

(** [executeMemRefInst(inst, branch, passed_predicate, fault)]: whether the
    instruction was issued, and its fault *)
Definition executeMemRefInst e (p : Z) : M (bool * Fault) :=
  let! s := sget in
  if negb (canRequest (x_lsq s)) then sret (false, None)
  else
    let! inst := instAt p in
    let tid := threadId (id inst) in
    let! tc := getContext tid in
    let old_pc := tc_pcState tc in
    let! tc := slift (enterContext inst tc) in
    let! si := slift (derefInst (staticInst inst)) in
    do! setContext tid tc in
    let! res := initiateAcc e p inst si tc in
    let '(tc, init_fault, request) := res in
    do! setContext tid tc in
    let! inst := instAt p in
    let! init_fault :=
      (if inLSQ (ex inst) then
         if faultSet init_fault then
           do! sassert (faultSet (translationFault (ex inst))) in sret None
         else do! clearTranslationFault p request in sret None
       else sret init_fault) in
    let! fault_ :=
      (if faultSet init_fault then sret init_fault
       else
         do! (if negb (tc_memAccPredicate tc) then sassert (tc_predicate tc) else sret tt) in
         let! inst := instAt p in
         do! (if negb (inLSQ (ex inst)) then
                let! _ := callLsq (pushFailedRequest inst) in setInstAt p (setInLSQ true)
              else sret tt) in
         sret None) in
    do! setContext tid (tc_setPC old_pc tc) in
    do! setInstAt p (leaveContext tc) in
    sret (true, fault_).

(** ** Committing one instruction *)

(** what [commitInst] gives back *)
Record Commit := mkCommit {
  cm_completed : bool;
  cm_fault : Fault;
  cm_committed : bool;
  cm_memIssue : bool;
}.

Definition set_canEarlyIssue (b : bool) (x : ExecFields) : ExecFields :=
  mkExecFields (fuIndex x) (inLSQ x) (translationFault x) (inStoreBuffer x) b (predicate x) (memAccPredicate x)
    (instToWaitFor x) (extraCommitDelay x) (extraCommitDelayExpr x) (minimumCommitCycle x) (flatDestRegIdx x).

(** [isInterrupted(thread_id)] *)
Definition isInterrupted e (tid : Z) : M bool :=
  let! tc := getContext tid in sret (x_checkInterrupts e tid tc).

(** a fault that arrives as an instruction *)
Definition commitFault (p : Z) (inst : DynInst) : M Commit :=
  let tid := threadId (id inst) in
  let! tc := getContext tid in
  let! tc := slift (enterContext inst tc) in
  do! setContext tid (sem_invoke (fault inst) nullStaticInst tc) in
  do! tryToBranch inst (fault inst) in
  let! tc := getContext tid in
  do! setInstAt p (leaveContext tc) in
  sret (mkCommit true (fault inst) false false).

(** a memory reference *)
Definition commitMemRef e (p : Z) (inst : DynInst) (early_memory_issue : bool) : M Commit :=
  let tid := threadId (id inst) in
  let! res := executeMemRefInst e p in
  let '(completed_mem_inst, fault_) := res in
  if completed_mem_inst && faultSet fault_ then
    if early_memory_issue then
      do! setInstAt p (with_ex (set_canEarlyIssue false)) in
      sret (mkCommit false fault_ false false)
    else
      let! tc := getContext tid in
      do! setContext tid (sem_invoke fault_ nullStaticInst tc) in
      let! inst := instAt p in
      do! tryToBranch inst fault_ in
      sret (mkCommit true fault_ false true)
  else sret (mkCommit completed_mem_inst fault_ false completed_mem_inst).

(** any other instruction *)
Definition commitPlain (p : Z) (inst : DynInst) (si : StaticInst) : M Commit :=
  let tid := threadId (id inst) in
  let! tc := getContext tid in
  let! tc := slift (enterContext inst tc) in
  let '(tc, fault_) := sem_execute si tc in
  do! setContext tid (if faultSet fault_ then sem_invoke fault_ si tc else tc) in
  do! doInstCommitAccounting inst in
  do! tryToBranch inst fault_ in
  let! tc := getContext tid in
  do! setInstAt p (leaveContext tc) in
  sret (mkCommit true fault_ true false).

(** [commitInst(inst, early_memory_issue, branch, fault, committed,
    completed_mem_issue)] *)
Definition commitInst e (p : Z) (early_memory_issue : bool) : M Commit :=
  let! inst := instAt p in
  let tid := threadId (id inst) in
  let! tc := getContext tid in
  let! s := sget in
  let! c :=
    (if tc_suspended tc && negb (x_checkInterrupts e tid tc) then slift (Stop Panic)
     else if isFault inst then commitFault p inst
     else
       let! si := slift (derefInst (staticInst inst)) in
       if isMemRef si then commitMemRef e p inst early_memory_issue
       else if isInst inst && isFullMemBarrier si && negb (canInsert (x_lsq s))
            then sret (mkCommit false None false false)
       else if isInst inst && isQuiesce si && negb (isBubble (x_branch s))
            then sret (mkCommit false None false false)
       else commitPlain p inst si) in
  if cm_completed c then
    do! x_updThread tid (set_lastPrediction (predictionSeqNum (id inst))) in
    let! tc := getContext tid in
    let! s := sget in
    do! (if negb (isFault inst) && tc_suspended tc && isBubble (x_branch s) && negb (x_checkInterrupts e tid tc)
         then do! sassert (microPC (tc_pcState tc) =? 0) in
              updateBranchData tid SuspendThread inst (tc_pcState tc)
         else sret tt) in
    sret c
  else sret c.

(** ** Input *)

Definition x_buffer (tid : Z) : M (InputBuffer (ForwardInstData I)) :=
  let! s := sget in slift (vget (x_inputBuffer s) tid).

(** [getInput(tid)] *)
Definition x_getInput (tid : Z) : M (option (ForwardInstData I)) :=
  let! b := x_buffer tid in
  if IB_empty b then sret None
  else let! h := slift (IB_front b) in sret (if isBubble h then None else Some h).

(** [popInput(tid)] *)
Definition x_popInput (tid : Z) : M unit :=
  let! b := x_buffer tid in
  do! (if IB_empty b then sret tt
       else let! b := slift (IB_pop b) in
            let! s := sget in
            let! l := slift (vset (x_inputBuffer s) tid b) in smod (xu_inputBuffer l)) in
  x_updThread tid (set_inputIndex 0).

(** ** Issue *)

(** the fields that issuing sets *)
Definition set_issue (fu : Z) (delay : Z) (expr : option Z) (x : ExecFields) : ExecFields :=
  mkExecFields fu (inLSQ x) (translationFault x) (inStoreBuffer x) (canEarlyIssue x) (predicate x)
    (memAccPredicate x) (instToWaitFor x) delay expr (minimumCommitCycle x) (flatDestRegIdx x).
Definition set_wait (n : Z) (x : ExecFields) : ExecFields :=
  mkExecFields (fuIndex x) (inLSQ x) (translationFault x) (inStoreBuffer x) true (predicate x)
    (memAccPredicate x) n (extraCommitDelay x) (extraCommitDelayExpr x) (minimumCommitCycle x) (flatDestRegIdx x).

(** [scoreboard[tid].markupInstDests(...)], on the instruction [inst] *)
Definition x_markup (tid : Z) (inst : DynInst) (retire_time : Z) (unp : bool) : M DynInst :=
  let! s := sget in
  let! sb := slift (vget (x_scoreboard s) tid) in
  let! tc := getContext tid in
  let! r := slift (markupInstDests (sem_flatten tc) sb inst retire_time unp) in
  let! l := slift (vset (x_scoreboard s) tid r.1) in
  do! smod (xu_scoreboard l) in
  sret r.2.

(** [thread.inFlightInsts->push(fu_inst)], [thread.inFUMemInsts->push(fu_inst)] *)
Definition pushInFlight (tid : Z) (q : QueuedInst) : M unit :=
  x_updThread tid (λ i, set_inFlight (Queue_push (inFlightInsts i) q) i).
Definition pushInFUMem (tid : Z) (q : QueuedInst) : M unit :=
  x_updThread tid (λ i, set_inFUMem (Queue_push (inFUMemInsts i) q) i).

(** an instruction that needs no unit *)
Definition issueNoCost e (tid : Z) (inst : DynInst) : M unit :=
  do! markActivity in
  let! inst := x_markup tid inst (x_now e) false in
  let! s := sget in
  let! p := newInst (with_ex (set_issue (noCostFUIndex (x_cfg s)) 0 None) inst) in
  pushInFlight tid (Some p).

(** what a memory reference has to wait for *)
Definition waitFor (tid : Z) (inst : DynInst) : M DynInst :=
  let! s := sget in
  if allowEarlyMemIssue (x_cfg s) then
    let! sb := slift (vget (x_scoreboard s) tid) in
    let! tc := getContext tid in
    let! n := slift (execSeqNumToWaitFor (sem_flatten tc) sb inst) in
    let! b := slift (getLastMemBarrier (x_lsq s) tid) in
    sret (with_ex (set_wait (if n <? b then b else n)) inst)
  else sret inst.

(** the instruction [inst], at [p], enters unit [k] and the queue of
    instructions in flight *)
Definition enterUnit (tid : Z) (inst : DynInst) (p k : Z) (f : FUPipeline QueuedInst) (retire_time : Z)
    (unp : bool) : M unit :=
  let! f := slift (fu_push f (Some p)) in
  do! x_setUnit k f in
  do! markActivity in
  let! inst := x_markup tid inst retire_time unp in
  do! setInstAt p (λ _, inst) in
  pushInFlight tid (Some p).

(** an instruction is issued to unit [k]: whether it is a memory reference *)
Definition issueTo e (tid : Z) (inst : DynInst) (k : Z) (f : FUPipeline QueuedInst)
    (timing : option MyMinorFUTiming) : M bool :=
  let lat := match timing with Some t => extraCommitLat t | None => 0 end in
  let expr := match timing with Some t => extraCommitLatExpr t | None => None end in
  let assumed := match timing with Some t => extraAssumedLat t | None => 0 end in
  let issued_mem_ref := inst_isMemRef inst in
  let inst := with_ex (set_issue k lat expr) inst in
  let! inst := (if issued_mem_ref then waitFor tid inst else sret inst) in
  let! p := newInst inst in
  do! (if issued_mem_ref then pushInFUMem tid (Some p) else sret tt) in
  do! enterUnit tid inst p k f (u64 (x_now e + opLat (description f) + lat + assumed))
        (issued_mem_ref && (assumed =? 0)) in
  sret issued_mem_ref.

(** one round of the loop over the units: the new unit index, whether the
    instruction was issued and whether as a memory reference *)
Definition tryUnit e (tid : Z) (inst : DynInst) (k : Z) : M (Z * bool * bool) :=
  let! f := x_unit k in
  let! capable := (if isFault inst then sret true
                   else let! si := slift (derefInst (staticInst inst)) in slift (fu_provides f (opClass si))) in
  if isNoCostInst inst then
    do! issueNoCost e tid inst in
    let! s := sget in sret (noCostFUIndex (x_cfg s), true, false)
  else
    let! pushed := (if capable : bool then slift (alreadyPushed (fuPipe f)) else sret true) in
    if pushed : bool then sret (k, false, false)
    else if stalled (fuPipe f) then sret (k, false, false)
    else if negb (FuncUnit.canInsert f (x_now e)) then sret (k, false, false)
    else
      let! timing := (if isFault inst then sret None else slift (findTiming f (staticInst inst))) in
      if match timing with Some t => suppress t | None => false end then sret (k, false, false)
      else
        let! s := sget in
        let! sb := slift (vget (x_scoreboard s) tid) in
        let! tc := getContext tid in
        let! can := slift (canInstIssue (sem_flatten tc) sb inst
                             (match timing with Some t => srcRegsRelativeLats t | None => [] end)
                             (cantForwardFromFUIndices f) (x_now e)) in
        if can : bool then
          let! m := issueTo e tid inst k f timing in sret (k, true, m)
        else sret (k, false, false).

(** the loop over the units, from unit [k] on; [n] bounds the units left *)
Fixpoint tryUnits e (tid : Z) (inst : DynInst) (n : nat) (k : Z) : M (Z * bool * bool) :=
  match n with
  | O => slift (Stop OutOfFuel)
  | S n =>
      let! r := tryUnit e tid inst k in
      let '(k, issued, mem) := r in
      let k := u32 (k + 1) in
      let! s := sget in
      if negb (k =? numFuncUnits (x_cfg s)) && negb issued then tryUnits e tid inst n k
      else sret (k, issued, mem)
  end.

(** the counts of [issue] *)
Record Issuing := mkIssuing {
  is_fuIndex : Z;
  is_issued : Z;
  is_memIssued : Z;
}.

(** one instruction of the input: issued or not, discarded, memory reference *)
Definition issueOne e (tid : Z) (inst : DynInst) (fu_index : Z) : M (Z * bool * bool * bool) :=
  let! i := x_thread tid in
  if isBubble inst then sret (fu_index, true, false, false)
  else
    let! tc := getContext tid in
    if tc_suspended tc then sret (fu_index, true, true, false)
    else if negb (streamSeqNum (id inst) =? x_streamSeqNum i) then sret (fu_index, true, true, false)
    else
      let! s := sget in
      let! r := tryUnits e tid inst (S (Z.to_nat (numFuncUnits (x_cfg s)))) 0 in
      let '(k, issued, mem) := r in sret (k, issued, false, mem).

(** the next line of the input once the current one is used up *)
Definition nextLine (tid : Z) (insts_in : ForwardInstData I) : M (option (ForwardInstData I)) :=
  let! i := x_thread tid in
  let! s := sget in
  if x_inputIndex i =? width insts_in then
    do! x_popInput tid in
    if x_processMoreThanOneInput (x_cfg s) then x_getInput tid else sret None
  else sret (Some insts_in).

(** one round of the loop of [issue]: the line to go on with, whether the
    instruction was taken from the input, and the counts *)
Definition issueRound e (tid : Z) (insts_in : ForwardInstData I) (st : Issuing)
  : M (option (ForwardInstData I) * bool * Issuing) :=
  let! i := x_thread tid in
  let! inst := slift (vget (insts insts_in) (x_inputIndex i)) in
  let! r := issueOne e tid inst (is_fuIndex st) in
  let '(k, issued, discarded, mem) := r in
  do! (if issued && negb discarded && isInst inst && isFullMemBarrier (staticInst inst)
       then callLsq (issuedMemBarrierInst inst) else sret tt) in
  let n := if issued && negb discarded && negb (isBubble inst) then u32 (is_issued st + 1) else is_issued st in
  let m := if issued && mem then u32 (is_memIssued st + 1) else is_memIssued st in
  do! (if issued then x_updThread tid (λ i, set_inputIndex (u32 (x_inputIndex i + 1)) i) else sret tt) in
  let! next := nextLine tid insts_in in
  sret (next, issued, mkIssuing k n m).

(** the loop of [issue]; it ends with the number of instructions issued *)
Fixpoint issueLoop e (fuel : nat) (tid : Z) (insts_in : ForwardInstData I) (st : Issuing) : M Z :=
  match fuel with
  | O => slift (Stop OutOfFuel)
  | S fuel =>
      let! r := issueRound e tid insts_in st in
      let '(next, issued, st) := r in
      let! i := x_thread tid in
      let! s := sget in
      match next with
      | Some insts_in =>
          if (x_inputIndex i <? width insts_in) && negb (is_fuIndex st =? numFuncUnits (x_cfg s)) && issued
             && negb (is_issued st =? issueLimit (x_cfg s)) && negb (is_memIssued st =? memoryIssueLimit (x_cfg s))
          then issueLoop e fuel tid insts_in st
          else sret (is_issued st)
      | None => sret (is_issued st)
      end
  end.

(** rounds that are certainly enough: one for each slot of the input buffer *)
Definition issueFuel s (tid : Z) : nat :=
  match vget (x_inputBuffer s) tid with
  | Ok b => S (sum_list (length ∘ insts <$> contents b))
  | Stop _ => 1
  end.

(** [issue(thread_id)] *)
Definition issue e (tid : Z) : M Z :=
  let! insts_in := x_getInput tid in
  match insts_in with
  | None => sret 0
  | Some insts_in => let! s := sget in issueLoop e (issueFuel s tid) tid insts_in (mkIssuing 0 0 0)
  end.

(** ** Commit *)

(** [isInbetweenInsts(thread_id)] *)
Definition isInbetweenInsts (tid : Z) : M bool :=
  let! i := x_thread tid in
  let! s := sget in sret (lastCommitWasEndOfMacroop i && negb (accessesInFlight (x_lsq s))).

(** the loop of [tryPCEvents]; it counts its rounds *)
Fixpoint pcEventLoop (fuel : nat) (tid : Z) (checks : Z) : M Z :=
  match fuel with
  | O => slift (Stop OutOfFuel)
  | S fuel =>
      let! tc := getContext tid in
      let oldPC := instAddr (tc_pcState tc) in
      let tc := sem_pcEvents tc in
      do! setContext tid tc in
      if oldPC =? instAddr (tc_pcState tc) then sret (u32 (checks + 1))
      else pcEventLoop fuel tid (u32 (checks + 1))
  end.

(** [tryPCEvents(thread_id)] *)
Definition tryPCEvents e (tid : Z) : M bool :=
  let! n := pcEventLoop (x_pcEventFuel e) tid 0 in sret (1 <? n).

(** the memory reference that may leave its unit early *)
Definition earlyInst (tid : Z) (head_exec_seq_num : Z) : M (option Z) :=
  let! i := x_thread tid in
  let! s := sget in
  if negb (Queue_empty (inFUMemInsts i)) && canRequest (x_lsq s) then
    let! q := slift (Queue_front (inFUMemInsts i)) in
    let! head_mem_ref_inst := instOf q in
    let! f := unitFront (fuIndex (ex head_mem_ref_inst)) in
    let! fu_inst := instOf f in
    sret (if negb (isBubble fu_inst) && negb (inLSQ (ex fu_inst)) && canEarlyIssue (ex fu_inst)
             && (x_streamSeqNum i =? streamSeqNum (id fu_inst))
             && (instToWaitFor (ex fu_inst) <? head_exec_seq_num)
          then f else None)
  else sret None.

(** the instruction to commit, if any: early, or the head [inst] *)
Definition chooseInst (tid p : Z) (inst : DynInst) : M (option (Z * bool)) :=
  let! early := earlyInst tid (execSeqNum (id inst)) in
  match early with
  | Some q => sret (Some (q, true))
  | None =>
      if isNoCostInst inst then sret (Some (p, false))
      else if inLSQ (ex inst) then sret None
      else
        let! f := unitFront (fuIndex (ex inst)) in
        let! fu_inst := instOf f in
        if isBubble fu_inst then sret None
        else if negb (execSeqNum (id fu_inst) =? execSeqNum (id inst)) then sret None
        else let! same := slift (InstId_eq (id fu_inst) (id inst)) in
             sret (if same : bool then Some (p, false) else None)
  end.

Definition set_delay (delay : Z) (x : ExecFields) : ExecFields :=
  mkExecFields (fuIndex x) (inLSQ x) (translationFault x) (inStoreBuffer x) (canEarlyIssue x) (predicate x)
    (memAccPredicate x) (instToWaitFor x) delay None (minimumCommitCycle x) (flatDestRegIdx x).
Definition set_minimum (cycle : Z) (x : ExecFields) : ExecFields :=
  mkExecFields (fuIndex x) (inLSQ x) (translationFault x) (inStoreBuffer x) (canEarlyIssue x) (predicate x)
    (memAccPredicate x) (instToWaitFor x) 0 (extraCommitDelayExpr x) cycle (flatDestRegIdx x).

(** the extra delay of an instruction becomes its earliest commit cycle *)
Definition delayCommit e (tid p : Z) : M unit :=
  let! inst := instAt p in
  do! (match extraCommitDelayExpr (ex inst) with
       | Some x =>
           let! tc := getContext tid in
           let extra := u64 (sem_timingExpr x (staticInst inst) tc) in
           setInstAt p (with_ex (λ y, set_delay (if extra <? 128 then u64 (extraCommitDelay y + extra)
                                                 else extraCommitDelay y) y))
       | None => sret tt
       end) in
  let! inst := instAt p in
  if extraCommitDelay (ex inst) =? 0 then sret tt
  else setInstAt p (with_ex (set_minimum (u64 (x_now e + extraCommitDelay (ex inst))))).

(** what one round of the loop of [commit] found *)
Record Round := mkRound {
  rd_inst : Z;
  rd_completed : bool;
  rd_fault : Fault;
  rd_committed : bool;
  rd_discard : bool;
  rd_memRef : bool;
  rd_memIssue : bool;
}.

(** [stalled = false] of the unit of an instruction *)
Definition unstallUnit (p : Z) : M unit :=
  let! inst := instAt p in
  let! s := sget in
  if fuIndex (ex inst) =? noCostFUIndex (x_cfg s) then sret tt
  else let! f := x_unit (fuIndex (ex inst)) in x_setUnit (fuIndex (ex inst)) (fu_take f).

(** an instruction that may commit now *)
Definition commitReady e (tid p : Z) (early_memory_issue : bool) : M Commit :=
  do! delayCommit e tid p in
  let! inst := instAt p in
  let! s := sget in
  let! barrier := slift (if negb (isFault inst) && inst_isMemRef inst
                         then getLastMemBarrier (x_lsq s) tid else Ok 0) in
  if (barrier <? execSeqNum (id inst)) && negb (barrier =? 0) then sret (mkCommit false None false false)
  else if x_now e <? minimumCommitCycle (ex inst) then sret (mkCommit false None false false)
  else commitInst e p early_memory_issue.

(** the [try_to_commit] part *)
Definition commitFromUnit e (tid p : Z) (early_memory_issue discard : bool) : M Round :=
  let! inst := instAt p in
  let! i := x_thread tid in
  let discard_inst := negb (streamSeqNum (id inst) =? x_streamSeqNum i) || discard in
  let! c := (if discard_inst then sret (mkCommit true None false false)
             else commitReady e tid p early_memory_issue) in
  do! (if cm_completed c then unstallUnit p else sret tt) in
  sret (mkRound p (cm_completed c) (cm_fault c) (cm_committed c) discard_inst false (cm_memIssue c)).

(** what becomes of the instruction at the head *)
Definition commitHead e (tid : Z) (only_commit_microops discard : bool) (num_mem_refs_committed : Z) : M Round :=
  let! i := x_thread tid in
  let! q := slift (Queue_front (inFlightInsts i)) in
  let! p := slift (derefPtr q) in
  let! inst := instAt p in
  let can_commit_insts := negb (only_commit_microops && lastCommitWasEndOfMacroop i) in
  let! mem_response := (if inLSQ (ex inst) then callLsq (findResponse inst) else sret None) in
  let! between := isInbetweenInsts tid in
  let! event := (if between : bool then tryPCEvents e tid else sret false) in
  if event : bool then
    let! tc := getContext tid in
    do! updateBranchData tid UnpredictedBranch bubbleInst (tc_pcState tc) in
    sret (mkRound p false None false false false false)
  else
    let! s := sget in
    match (if num_mem_refs_committed <? memoryCommitLimit (x_cfg s) then mem_response else None) with
    | Some r =>
        if negb (streamSeqNum (id inst) =? x_streamSeqNum i) || discard then
          do! callLsq (popResponse r) in
          sret (mkRound p true None false true true false)
        else
          let! f := handleMemResponse e p r in
          sret (mkRound p true f true false true false)
    | None =>
        if can_commit_insts then
          let! c := chooseInst tid p inst in
          match c with
          | Some (q, early) => commitFromUnit e tid q early discard
          | None => sret (mkRound p false None false false false false)
          end
        else sret (mkRound p false None false false false false)
    end.

Definition set_inMemory (x : ExecFields) : ExecFields :=
  mkExecFields 0 true (translationFault x) (inStoreBuffer x) (canEarlyIssue x) (predicate x)
    (memAccPredicate x) (instToWaitFor x) (extraCommitDelay x) (extraCommitDelayExpr x)
    (minimumCommitCycle x) (flatDestRegIdx x).

(** [ex_info.inFUMemInsts->pop()] if its head is [p] *)
Definition popInFUMem (tid p : Z) : M unit :=
  let! i := x_thread tid in
  if bool_decide (head (queue (inFUMemInsts i)) = Some (Some p)) then
    let! q := slift (Queue_pop (inFUMemInsts i)) in x_updThread tid (set_inFUMem q)
  else sret tt.

(** an instruction leaves the queue of instructions in flight *)
Definition retire (tid : Z) (inst : DynInst) (committed_inst : bool) : M unit :=
  do! x_updThread tid (λ i, set_lastPrediction (predictionSeqNum (id inst))
                              (set_lastCommit (isFault inst || isLastOpInInst inst) i)) in
  let! i := x_thread tid in
  let! q := slift (Queue_pop (inFlightInsts i)) in
  do! x_updThread tid (set_inFlight q) in
  do! (if isInst inst && isFullMemBarrier (staticInst inst)
       then callLsq (completeMemBarrierInst inst committed_inst) else sret tt) in
  let! s := sget in
  let! sb := slift (vget (x_scoreboard s) tid) in
  let! sb := slift (clearInstDests sb inst (inst_isMemRef inst)) in
  let! l := slift (vset (x_scoreboard s) tid sb) in
  smod (xu_scoreboard l).

(** the end of a round *)
Definition finishRound (tid : Z) (r : Round) : M unit :=
  let p := rd_inst r in
  do! sassert (negb (rd_discard r && negb (rd_completed r))) in
  do! (if rd_memIssue r then setInstAt p (with_ex set_inMemory) else sret tt) in
  let! inst := instAt p in
  do! (if rd_completed r && inst_isMemRef inst then popInFUMem tid p else sret tt) in
  if rd_completed r && negb (rd_memIssue r && negb (faultSet (rd_fault r)))
  then retire tid inst (rd_committed r) else sret tt.

(** the loop of [commit] *)
Fixpoint commitLoop e (fuel : nat) (tid : Z) (only_commit_microops discard : bool)
    (num_insts_committed num_mem_refs_committed : Z) : M unit :=
  match fuel with
  | O => slift (Stop OutOfFuel)
  | S fuel =>
      let! i := x_thread tid in
      let! s := sget in
      if Queue_empty (inFlightInsts i) || isStreamChange (reason (x_branch s))
         || (num_insts_committed =? commitLimit (x_cfg s))
      then sret tt
      else
        let! r := commitHead e tid only_commit_microops discard num_mem_refs_committed in
        do! finishRound tid r in
        let! inst := instAt (rd_inst r) in
        let n := if rd_committed r && negb (isNoCostInst inst) then u32 (num_insts_committed + 1)
                 else num_insts_committed in
        let m := if rd_committed r && rd_memRef r then u32 (num_mem_refs_committed + 1)
                 else num_mem_refs_committed in
        if faultSet (rd_fault r) || negb (rd_completed r) then sret tt
        else commitLoop e fuel tid only_commit_microops discard n m
  end.

(** rounds that are certainly enough: a round that does not end the loop takes
    an instruction out of the queue or moves one into the load/store queue *)
Definition commitFuel s (tid : Z) : nat :=
  match vget (x_info s) tid with
  | Ok i => S (length (queue (inFlightInsts i)) + base.size (x_insts s))
  | Stop _ => 1
  end.

(** [commit(thread_id, only_commit_microops, discard, branch)] *)
Definition commit e (tid : Z) (only_commit_microops discard : bool) : M unit :=
  let! s := sget in commitLoop e (commitFuel s tid) tid only_commit_microops discard 0 0.

(** ** Interrupts *)

(** [takeInterrupt(thread_id, branch)] *)
Definition takeInterrupt e (tid : Z) : M bool :=
  let! tc := getContext tid in
  let interrupt := x_getInterrupt e tid tc in
  if faultSet interrupt then
    let tc := sem_invoke interrupt nullStaticInst tc in
    do! setContext tid tc in
    let! s := sget in
    do! sassert (negb (accessesInFlight (x_lsq s))) in
    do! updateBranchData tid Interrupt bubbleInst (tc_pcState tc) in
    sret true
  else sret false.

(** [hasInterrupt(thread_id)] *)
Definition hasInterrupt e (tid : Z) : M bool :=
  if x_hasController e tid then
    let! i := x_thread tid in
    let! b := isInterrupted e tid in
    sret (bool_decide (drainState i = NotDraining) && b)
  else sret false.

(** the loop of [checkInterrupts]: the thread that takes an interrupt, and
    whether any thread is interrupted *)
Fixpoint interruptLoop e (fuel : nat) (tid : Z) (interrupted : bool) : M (option Z * bool) :=
  match fuel with
  | O => slift (Stop OutOfFuel)
  | S fuel =>
      let! thread_interrupted := hasInterrupt e tid in
      let interrupted := interrupted || thread_interrupted in
      let! between := isInbetweenInsts tid in
      let! s := sget in
      let! took :=
        (if thread_interrupted && between then
           let! t := takeInterrupt e tid in sret (t, tid)
         else sret (false, (tid + 1) `mod` x_numThreads (x_cfg s))) in
      let '(t, next) := took in
      if t : bool then
        do! smod (λ s, xu_priorities tid (issuePriority s) (commitPriority s) s) in
        sret (Some tid, interrupted)
      else if next =? interruptPriority s then sret (None, interrupted)
      else interruptLoop e fuel next interrupted
  end.

(** [checkInterrupts(branch, interrupted)]; a round for each thread is enough
    where a signalled interrupt has a fault *)
Definition checkInterrupts e : M (option Z * bool) :=
  let! s := sget in interruptLoop e (S (Z.to_nat (x_numThreads (x_cfg s)))) (interruptPriority s) false.

(** ** The choice of a thread *)

(** whether [getCommittingThread] may choose [tid] *)
Definition canCommit (tid : Z) : M bool :=
  let! i := x_thread tid in
  if Queue_empty (inFlightInsts i) then sret false
  else
    let! q := slift (Queue_front (inFlightInsts i)) in
    let! inst := instOf q in
    let! s := sget in
    if inLSQ (ex inst) then
      let! r := callLsq (findResponse inst) in sret (match r with Some _ => true | None => false end)
    else
      let! can_transfer_mem_inst :=
        (if negb (Queue_empty (inFUMemInsts i)) && canRequest (x_lsq s) then
           let! h := slift (Queue_front (inFUMemInsts i)) in
           let! head_mem_ref_inst := instOf h in
           let! f := unitFront (fuIndex (ex head_mem_ref_inst)) in
           let! fu_inst := instOf f in
           sret (negb (isBubble fu_inst) && (threadId (id fu_inst) =? tid) && negb (inLSQ (ex fu_inst))
                 && canEarlyIssue (ex fu_inst) && (instToWaitFor (ex fu_inst) <? execSeqNum (id inst)))
         else sret false) in
      let no_cost := fuIndex (ex inst) =? noCostFUIndex (x_cfg s) in
      let! can_execute_fu_inst :=
        (if negb can_transfer_mem_inst && negb no_cost then
           let! f := unitFront (fuIndex (ex inst)) in
           let! fu_inst := instOf f in
           if isBubble fu_inst then sret false else slift (InstId_eq (id fu_inst) (id inst))
         else sret no_cost) in
      sret (can_transfer_mem_inst || can_execute_fu_inst).

(** the first thread of a priority list that is ready *)
Fixpoint firstThread (ready : Z → M bool) (l : list Z) : M (option Z) :=
  match l with
  | [] => sret None
  | tid :: l => let! b := ready tid in if b : bool then sret (Some tid) else firstThread ready l
  end.

(** [getCommittingThread()] *)
Definition getCommittingThread e : M (option Z) :=
  let! s := sget in
  match x_policy (x_cfg s) with
  | SingleThreaded => sret (Some 0)
  | policy =>
      let! t := firstThread canCommit
                  (priorityList policy (x_numThreads (x_cfg s)) (commitPriority s) (x_shuffledCommit e)) in
      match t with
      | Some tid =>
          do! smod (λ s, xu_priorities (interruptPriority s) (issuePriority s) tid s) in sret t
      | None => sret t
      end
  end.

(** [getIssuingThread()] *)
Definition getIssuingThread e : M (option Z) :=
  let! s := sget in
  match x_policy (x_cfg s) with
  | SingleThreaded => sret (Some 0)
  | policy =>
      let! t := firstThread (λ tid, let! l := x_getInput tid in sret (match l with Some _ => true | None => false end))
                  (priorityList policy (x_numThreads (x_cfg s)) (issuePriority s) (x_shuffledIssue e)) in
      match t with
      | Some tid =>
          do! smod (λ s, xu_priorities (interruptPriority s) tid (commitPriority s) s) in sret t
      | None => sret t
      end
  end.

(** ** Draining *)

(** [setDrainState(thread_id, state)] *)
Definition setDrainState (tid : Z) (d : DrainState) : M unit := x_updThread tid (set_drain d).

(** [isDrained()] *)
Definition x_isDrained : M bool :=
  let! s := sget in
  sret (LSQ_isDrained (x_lsq s) && forallb IB_empty (x_inputBuffer s)
        && forallb (λ i, Queue_empty (inFlightInsts i)) (x_info s)).

(** [f(tid)] for each thread *)
Fixpoint eachThread (f : Z → M unit) (l : list Z) : M unit :=
  match l with [] => sret tt | tid :: l => do! f tid in eachThread f l end.

(** [drain()]: 0 once drained *)
Definition x_drain : M Z :=
  let! s := sget in
  do! eachThread (λ tid,
    let! i := x_thread tid in
    if bool_decide (drainState i = NotDraining) then
      do! wakeupExecute in
      let! between := isInbetweenInsts tid in
      setDrainState tid (if between : bool then DrainHaltFetch else DrainCurrentInst)
    else sret tt) (zrange 0 (x_numThreads (x_cfg s) - 1)) in
  let! d := x_isDrained in sret (if d : bool then 0 else 1).

(** [drainResume()] *)
Definition x_drainResume : M unit :=
  let! s := sget in
  do! eachThread (λ tid, setDrainState tid NotDraining) (zrange 0 (x_numThreads (x_cfg s) - 1)) in
  wakeupExecute.

(** ** The cycle *)

(** the input of the cycle enters its thread's buffer *)
Definition x_setTail (inp : ForwardInstData I) : M unit :=
  if isBubble inp then sret tt
  else
    let! b := x_buffer (instsThreadId inp) in
    let! b := slift (setTail b inp) in
    let! s := sget in
    let! l := slift (vset (x_inputBuffer s) (instsThreadId inp) b) in
    smod (xu_inputBuffer l).
Definition x_pushTail (inp : ForwardInstData I) : M unit :=
  if isBubble inp then sret tt
  else
    let! b := x_buffer (instsThreadId inp) in
    let! s := sget in
    let! l := slift (vset (x_inputBuffer s) (instsThreadId inp) (pushTail b)) in
    smod (xu_inputBuffer l).

(** [while (getInput(tid)) popInput(tid);] *)
Fixpoint killInput (fuel : nat) (tid : Z) : M unit :=
  match fuel with
  | O => slift (Stop OutOfFuel)
  | S fuel =>
      let! l := x_getInput tid in
      match l with Some _ => do! x_popInput tid in killInput fuel tid | None => sret tt end
  end.

Definition inputLines s (tid : Z) : nat :=
  match vget (x_inputBuffer s) tid with Ok b => length (contents b) | Stop _ => 0 end.

(** the commit of the chosen thread, as its drain state wants it *)
Definition commitThread e (tid : Z) (interrupted : bool) : M unit :=
  let! i := x_thread tid in
  do! (match drainState i with
       | DrainCurrentInst =>
           do! commit e tid true false in
           let! between := isInbetweenInsts tid in
           do! (if between : bool then setDrainState tid DrainHaltFetch else sret tt) in
           smod (xu_branch BranchData0)
       | DrainAllInsts =>
           let! s := sget in
           do! killInput (S (inputLines s tid)) tid in
           commit e tid false true
       | DrainHaltFetch => sret tt
       | NotDraining =>
           let! h := (if interrupted then hasInterrupt e tid else sret false) in
           commit e tid h false
       end) in
  let! i := x_thread tid in
  if bool_decide (drainState i = DrainHaltFetch) then
    let! tc := getContext tid in
    do! updateBranchData tid HaltFetch bubbleInst (tc_pcState tc) in
    do! wakeupExecute in
    setDrainState tid DrainAllInsts
  else sret tt.

(** the part of [evaluate] that commits and issues *)
Definition commitAndIssue e (interrupted : bool) : M Z :=
  let! t := getCommittingThread e in
  do! (match t with Some tid => commitThread e tid interrupted | None => sret tt end) in
  let! t := getIssuingThread e in
  match t with Some tid => issue e tid | None => sret 0 end.

(** the instructions that could issue next, and whether a fault could *)
Fixpoint nextIssuable (tids : list Z) : M (list DynInst * bool) :=
  match tids with
  | [] => sret ([], false)
  | tid :: tids =>
      let! l := x_getInput tid in
      let! r :=
        (match l with
         | Some l =>
             let! i := x_thread tid in
             let! inst := slift (vget (insts l) (x_inputIndex i)) in
             sret (if isFault inst then ([], true) else if isBubble inst then ([], false) else ([inst], false))
         | None => sret ([], false)
         end) in
      let! rest := nextIssuable tids in
      sret (r.1 ++ rest.1, r.2 || rest.2)
  end.

(** whether one of the instructions could go to unit [f] in the next cycle *)
Fixpoint couldIssue e (f : FUPipeline QueuedInst) (l : list DynInst) : M bool :=
  match l with
  | [] => sret false
  | inst :: l =>
      let! b :=
        (if stalled (fuPipe f) then sret false
         else
           let! si := slift (derefInst (staticInst inst)) in
           let! c := slift (fu_provides f (opClass si)) in
           if c : bool then
             let! s := sget in
             let! sb := slift (vget (x_scoreboard s) (threadId (id inst))) in
             let! tc := getContext (threadId (id inst)) in
             slift (canInstIssue (sem_flatten tc) sb inst [] [] (u64 (x_now e + 1)))
           else sret false) in
      if b : bool then sret true else couldIssue e f l
  end.

(** the units advance: whether one can still move, and whether an instruction
    could issue next *)
Fixpoint advanceUnits e (next : list DynInst) (ks : list Z) : M (bool * bool) :=
  match ks with
  | [] => sret (false, false)
  | k :: ks =>
      let! f := x_unit k in
      let! f := slift (fu_advance f (x_now e)) in
      do! x_setUnit k f in
      let moving := negb (occupancy (fuPipe f) =? 0) && negb (stalled (fuPipe f)) in
      let! could := couldIssue e f next in
      let! rest := advanceUnits e next ks in
      sret (moving || rest.1, could || rest.2)
  end.

(** whether the head of some thread might commit; [might] is the finding so far *)
Fixpoint headMightCommit (l : list ExecuteThreadInfo) (might : bool) : M bool :=
  match l with
  | [] => sret might
  | i :: l =>
      if Queue_empty (inFlightInsts i) then headMightCommit l might
      else
        let! q := slift (Queue_front (inFlightInsts i)) in
        let! inst := instOf q in
        if isNoCostInst inst then headMightCommit l true
        else
          let! f := x_unit (fuIndex (ex inst)) in
          let! at_end :=
            (if stalled (fuPipe f) then
               let! x := slift (front (fuPipe f)) in
               let! fu_inst := instOf x in slift (InstId_eq (id fu_inst) (id inst))
             else sret false) in
          let! b := (if at_end : bool then sret true
                     else let! r := callLsq (findResponse inst) in
                          sret (match r with Some _ => true | None => false end)) in
          if b : bool then sret true else headMightCommit l might
  end.

(** the units advance, and the stage asks to be woken if it has to tick again *)
Definition advanceAndWake e (num_issued : Z) (interrupted : bool) : M unit :=
  let! s := sget in
  let! next := nextIssuable (zrange 0 (x_numThreads (x_cfg s) - 1)) in
  let! units := advanceUnits e next.1 (zrange 0 (numFuncUnits (x_cfg s) - 1)) in
  let! s := sget in
  let! might := headMightCommit (x_info s) false in
  let! tick := slift (needsToTick (x_lsq s)) in
  do! (if negb (num_issued =? 0) || units.1 || next.2 || units.2 || might || tick || interrupted
       then wakeupExecute else sret tt) in
  let! s := sget in
  if negb (isBubble (x_branch s)) then markActivity else sret tt.

(** [evaluate()] on the input [inp] *)
Definition Execute_evaluate e (inp : ForwardInstData I) : M unit :=
  do! x_setTail inp in
  let! s := sget in
  do! callLsq (LSQ_step (lsqEnv e s)) in
  let! r := checkInterrupts e in
  let! s := sget in
  let! num_issued :=
    (match r.1 with
     | Some _ => sret 0
     | None => if isBubble (x_branch s) then commitAndIssue e r.2 else sret 0
     end) in
  do! advanceAndWake e num_issued r.2 in
  x_pushTail inp.

(** ** Construction *)

(** the parameters of the CPU *)
Record ExecParams := mkExecParams {
  xp_cfg : ExecConfig;              (* [numFuncUnits] and [noCostFUIndex] are those of the units *)
  xp_inputBufferSize : Z;
  xp_units : list MyMinorFU;
  xp_numOpClasses : Z;
  xp_regs : Z * Z * Z * Z * Z;      (* the sizes of the register classes *)
  xp_lsq : res (LSQ I);             (* [LSQ(...)] *)
  xp_threads : list (TC TS);        (* the thread contexts of the CPU *)
}.

(** [Execute(name, cpu, params, inp, out)] *)
Definition newExecute (pr : ExecParams) : res Execute :=
  let c := xp_cfg pr in
  let n := Z.to_nat (x_numThreads c) in
  lsq ← xp_lsq pr;
  if commitLimit c <? 1 then Stop Fatal
  else if issueLimit c <? 1 then Stop Fatal
  else if memoryIssueLimit c <? 1 then Stop Fatal
  else if commitLimit c <? memoryCommitLimit c then Stop Fatal
  else if xp_inputBufferSize pr <? 1 then Stop Fatal
  else
    let num := Z.of_nat (length (xp_units pr)) in
    let total_slots := foldl (λ t d, u32 (t + opLat d)) 0 (xp_units pr) in
    units ← mfold (λ l d, f ← newFUPipeline (xp_numOpClasses pr) d; Ok (l ++ [f])) [] (xp_units pr);
    let cfg := mkExecConfig (x_policy c) (x_numThreads c) (issueLimit c) (memoryIssueLimit c) (commitLimit c)
                 (memoryCommitLimit c) (x_processMoreThanOneInput c) num (allowEarlyMemIssue c) (u32 (num + 1))
                 (thresholdLCT c) in
    let info := mkExecInfo (newQueue total_slots) (newQueue total_slots) 0 true firstStreamSeqNum
                  firstPredictionSeqNum NotDraining in
    let '(ints, floats, ccs, vecElems, vecPreds) := xp_regs pr in
    Ok (mkExecute cfg lsq (replicate n (newScoreboard ints floats ccs vecElems vecPreds)) units
          (replicate n (newInputBuffer (xp_inputBufferSize pr))) (replicate n info) 0 0 0 ∅ 0
          (xp_threads pr) (replicate n 0) (replicate n 0) BranchData0 false false).
End execute.
