(* ===== verification/ExecuteFrame.v ===== *)
(** * What the parts of a commit leave alone

    The code that completes one instruction ([handleMemResponse],
    [commitInst] and what they call) works on one instruction, its thread's
    context and the load/store queue.  [frame] says what it keeps: the
    configuration, the queues, the input and everything about the instructions
    but the fields that execution sets;
    [inLSQ] is only ever set.  [calm] code does not change streams either, and
    [told] relates a change of stream to the branch that Fetch1 is sent. *)
From stdpp Require Import gmap.
From S2P Require Import Prelude TimeBuf Buffers Activity LVPT CVU PipeData Cpu Scoreboard FuncUnit.
From S2P Require Import LsqAddr LsqRequest Lsq Runs Execute.

(** one step of code under [runs] *)
Ltac runs_step :=
  match goal with
  | |- runs (sbind _ _) _ _ => apply runs_bind
  | |- runs (sret _) _ _ => apply runs_ret
  | |- runs sget _ _ => apply runs_get
  | |- runs (smod _) _ _ => apply runs_mod
  | |- runs (slift _) _ _ => apply runs_lift; [by eauto with ends|intros]
  | |- runs (sassert _) _ _ => apply runs_assert; intros
  | |- runs (if ?b then _ else _) _ _ => destruct b eqn:?
  | |- runs (match ?x with _ => _ end) _ _ => destruct x eqn:?
  end.

#[global] Arguments updateBranchData : simpl never.

(** ** Relations *)

Section frame.
Context `{I : Isa} {TS : ThreadSem I}.
Notation DynInst := (MyMinorDynInst I).
Implicit Types (s : Execute) (e : ExecEnv) (i : ExecuteThreadInfo) (x y : DynInst).

Record inst_le x y : Prop := {
  le_static : staticInst y = staticInst x;
  le_id : id y = id x;
  le_pc : pc y = pc x;
  le_fault : fault y = fault x;
  le_lvpt : lvptOut y = lvptOut x;
  le_taken : predictedTaken y = predictedTaken x;
  le_target : predictedTarget y = predictedTarget x;
  le_inLSQ : inLSQ (ex x) = true → inLSQ (ex y) = true;
}.

#[export] Instance inst_le_preorder : PreOrder inst_le.
Proof.
  split; [by intros x; split|].
  intros x y z [] []. split; try congruence. auto.
Qed.

Record quiet i i' : Prop := {
  qu_inFlight : inFlightInsts i' = inFlightInsts i;
  qu_inFUMem : inFUMemInsts i' = inFUMemInsts i;
  qu_index : x_inputIndex i' = x_inputIndex i;
  qu_last : lastCommitWasEndOfMacroop i' = lastCommitWasEndOfMacroop i;
  qu_drain : drainState i' = drainState i;
}.

#[export] Instance quiet_preorder : PreOrder quiet.
Proof.
  split; [by intros x; split|].
  intros x y z [] []. split; congruence.
Qed.

Definition insts_le (m m' : gmap Z DynInst) : Prop := ∀ p, option_Forall2 inst_le (m !! p) (m' !! p).

#[export] Instance insts_le_preorder : PreOrder insts_le.
Proof.
  split.
  - intros m p. destruct (m !! p); constructor. reflexivity.
  - intros m m' m'' H H' p. specialize (H p). specialize (H' p).
    destruct H as [x y Hx|]; inversion H'; subst; constructor. by etrans.
Qed.

Record frame s s' : Prop := {
  fr_cfg : x_cfg s' = x_cfg s;
  fr_insts : insts_le (x_insts s) (x_insts s');
  fr_next : x_nextInst s' = x_nextInst s;
  fr_info : Forall2 quiet (x_info s) (x_info s');
  fr_threads : length (x_threads s') = length (x_threads s);
  fr_units : length (x_funcUnits s') = length (x_funcUnits s);
  fr_input : x_inputBuffer s' = x_inputBuffer s;
  fr_prio : interruptPriority s' = interruptPriority s;
}.

#[export] Instance frame_preorder : PreOrder frame.
Proof.
  split.
  - intros s. split; try done; reflexivity.
  - intros s s1 s2 [] []. split; try congruence; by etrans.
Qed.

(** the stream numbers of the threads *)
Definition streams s : list Z := x_streamSeqNum <$> x_info s.

Definition changing s : bool := isStreamChange (reason (x_branch s)).

(** ** Code that does not change streams *)

Record calm s s' : Prop := {
  ca_frame : frame s s';
  ca_streams : streams s' = streams s;
  ca_reason : reason (x_branch s') = reason (x_branch s);
}.

#[export] Instance calm_preorder : PreOrder calm.
Proof.
  split.
  - intros s. split; [reflexivity|done..].
  - intros s s1 s2 [] []. split; [by etrans|congruence..].
Qed.

Notation calmM := (keepsM calm).

Lemma calm_callLsq {A} (m : St (LSQ I) A) : endsM m → calmM (callLsq m).
Proof.
  intros H s. unfold runs, callLsq. specialize (H (x_lsq s)). destruct (m (x_lsq s)) as [[a l]|x].
  - by split; [split|..].
  - unfold ends in H. congruence.
Qed.

Lemma calm_instAt p : calmM (instAt p).
Proof. intros s. unfold runs, instAt. destruct (x_insts s !! p); [reflexivity|done]. Qed.

Lemma calm_setContext tid tc : calmM (setContext tid tc).
Proof.
  intros s. unfold setContext. repeat runs_step. split; [split|..]; try done. cbn. by eapply vset_length.
Qed.

Lemma calm_setInstAt p f : (∀ x, inst_le x (f x)) → calmM (setInstAt p f).
Proof.
  intros Hf s. unfold setInstAt, runs, sbind, instAt, smod.
  destruct (x_insts s !! p) as [x|] eqn:E; [|done].
  split; [split|..]; try done; cbn. intros q. destruct (decide (q = p)) as [->|].
  - rewrite E, lookup_insert_eq. by constructor.
  - rewrite lookup_insert_ne by done. destruct (x_insts s !! q); constructor. reflexivity.
Qed.

Lemma calm_flags w a s : calm s (xu_flags w a s).
Proof. by split; [split|..]. Qed.

Lemma calm_counts a b s : calm s (xu_counts a b s).
Proof. by split; [split|..]. Qed.

Lemma calm_setUnit k f : calmM (x_setUnit k f).
Proof.
  intros s. unfold x_setUnit. repeat runs_step. split; [split|..]; try done. cbn. by eapply vset_length.
Qed.

Lemma calm_lvptIn p c v pc_ a s : calm s (xu_branch (set_lvptIn p c v pc_ a (x_branch s)) s).
Proof. by split; [split|..]. Qed.

Lemma calm_branch0 s : changing s = false → frame s (xu_branch BranchData0 s).
Proof. by split. Qed.

Lemma le_with_ex f x : (inLSQ (ex x) = true → inLSQ (f (ex x)) = true) → inst_le x (with_ex f x).
Proof. by split. Qed.
End frame.

#[export] Hint Resolve calm_instAt calm_setContext calm_setUnit : keeps.
#[export] Hint Extern 2 (keepsM calm (smod _)) => apply keeps_mod; intros;
  solve [apply calm_flags|apply calm_counts|apply calm_lvptIn] : keeps.
#[export] Hint Extern 2 (keepsM calm (setInstAt _ _)) => apply calm_setInstAt; intros; by (apply le_with_ex || split) : keeps.
#[export] Hint Extern 2 (keepsM calm (callLsq _)) => apply calm_callLsq; ends_tac : keeps.

Notation calmM := (keepsM calm).

Section parts.
Context `{I : Isa} {TS : ThreadSem I}.
Notation DynInst := (MyMinorDynInst I).
Implicit Types (s : Execute) (e : ExecEnv) (i : ExecuteThreadInfo) (x y inst : DynInst).

Lemma calm_doInstCommitAccounting inst : calmM (doInstCommitAccounting inst).
Proof. keeps_tac. Qed.
#[local] Hint Resolve calm_doInstCommitAccounting : keeps.

Lemma calm_completeAccess e p inst si r pkt : calmM (completeAccess e p inst si r pkt).
Proof. keeps_tac. Qed.
#[local] Hint Resolve calm_completeAccess : keeps.

Lemma calm_initiateAcc e p inst si tc : calmM (initiateAcc e p inst si tc).
Proof. keeps_tac. Qed.
#[local] Hint Resolve calm_initiateAcc : keeps.

Lemma calm_clearTranslationFault p q : calmM (clearTranslationFault p q).
Proof. keeps_tac. Qed.
#[local] Hint Resolve calm_clearTranslationFault : keeps.

Lemma calm_executeMemRefInst e p : calmM (executeMemRefInst e p).
Proof. keeps_tac. Qed.

Lemma calm_delayCommit e tid p : calmM (delayCommit e tid p).
Proof. keeps_tac. Qed.

Lemma calm_findResponse inst : calmM (callLsq (findResponse inst)).
Proof. keeps_tac. Qed.

Lemma calm_popResponse p : calmM (callLsq (popResponse p)).
Proof. keeps_tac. Qed.
End parts.

(** ** Changes of stream *)

Section told.
Context `{I : Isa} {TS : ThreadSem I}.
Notation DynInst := (MyMinorDynInst I).
Implicit Types (s : Execute) (e : ExecEnv) (i : ExecuteThreadInfo) (x y inst : DynInst).

(** Nothing has changed and the branch asks for no change of stream, or the
    branch asks for the next stream of its thread, which is the one that the
    thread is now in; no other thread's stream has changed. *)
Definition told s s' : Prop :=
  if changing s' then
    ∃ n, vget (streams s) (brThreadId (x_branch s')) = Ok n
    ∧ newStreamSeqNum (x_branch s') = u64 (n + 1)
    ∧ vset (streams s) (brThreadId (x_branch s')) (u64 (n + 1)) = Ok (streams s')
  else streams s' = streams s.

Record turn s s' : Prop := {
  tu_frame : frame s s';
  tu_told : told s s';
}.

Lemma turn_refl s : changing s = false → turn s s.
Proof. intros H. split; [reflexivity|]. unfold told. by rewrite H. Qed.

Lemma calm_changing s s' : calm s s' → changing s' = changing s.
Proof. intros [_ _ H]. unfold changing. by rewrite H. Qed.

Lemma calm_turn s s' : calm s s' → changing s = false → turn s s'.
Proof.
  intros Hc Hs. split; [apply Hc|]. unfold told. rewrite (calm_changing _ _ Hc), Hs. apply Hc.
Qed.

Lemma turn_after_calm s s1 s2 : calm s s1 → turn s1 s2 → turn s s2.
Proof.
  intros [Hf Hs _] [Hf' Ht]. split; [by etrans|]. unfold told in *. by rewrite <- Hs.
Qed.

Lemma calm_keeps_turn s s1 s2 : turn s s1 → calm s1 s2 → brThreadId (x_branch s2) = brThreadId (x_branch s1) →
  newStreamSeqNum (x_branch s2) = newStreamSeqNum (x_branch s1) → turn s s2.
Proof.
  intros [Hf Ht] Hc Hb Hn. split; [etrans; [done|apply Hc]|]. unfold told in *.
  rewrite (calm_changing _ _ Hc), Hb, Hn. by rewrite (ca_streams _ _ Hc).
Qed.

Lemma quiet_stream n i : quiet i (set_stream n i).
Proof. by split. Qed.

Lemma Forall2_quiet_set l t i' l' : (∀ i, vget l t = Ok i → quiet i i') → vset l t i' = Ok l' → Forall2 quiet l l'.
Proof.
  intros Hq (Ht & ->)%vset_Ok. apply Forall2_same_length_lookup_2; [by rewrite length_insert|].
  intros k a b Ha Hb. destruct (decide (k = Z.to_nat t)) as [->|Hk].
  - rewrite list_lookup_insert_eq in Hb by lia. injection Hb as <-.
    apply Hq. apply vget_Ok. split; [lia|]. done.
  - rewrite list_lookup_insert_ne in Hb by done. rewrite Ha in Hb. injection Hb as ->. reflexivity.
Qed.

(** [updateBranchData] *)
Lemma updateBranchData_runs tid r inst t s : changing s = false →
  runs (updateBranchData tid r inst t) s (λ _ s', turn s s'
    ∧ match r with
      | NoBranch => s' = s
      | _ => reason (x_branch s') = r ∧ brThreadId (x_branch s') = tid ∧ target (x_branch s') = Some t
             ∧ brInst (x_branch s') = inst
      end ∧ x_threads s' = x_threads s).
Proof.
  intros Hs. unfold updateBranchData.
  assert (runs (do! (if isStreamChange r then x_updThread tid (λ i, set_stream (u64 (x_streamSeqNum i + 1)) i)
           else sret tt) in
      let! i := x_thread tid in
      smod (xu_branch (newBranchData r tid (x_streamSeqNum i)
                         (if isBubble inst then lastPredictionSeqNum i else predictionSeqNum (id inst)) t inst)))
    s (λ _ s', turn s s' ∧ (reason (x_branch s') = r ∧ brThreadId (x_branch s') = tid
        ∧ target (x_branch s') = Some t ∧ brInst (x_branch s') = inst) ∧ x_threads s' = x_threads s)) as H.
  { destruct (isStreamChange r) eqn:Er.
    - unfold x_updThread, x_thread. repeat runs_step. cbn in *.
      split; [|done]. split.
      + split; try done; cbn. eapply Forall2_quiet_set; [|done]. intros ? Hi.
        rewrite Hi in H. injection H as ->. apply quiet_stream.
      + unfold told, changing. cbn. rewrite Er. unfold streams. rewrite vget_fmap, H. cbn.
        eexists. split; [done|]. apply vget_vset_eq in H0 as H2. rewrite H2 in H1. injection H1 as <-.
        split; [done|]. by apply (vset_fmap x_streamSeqNum) in H0.
    - unfold x_thread. repeat runs_step. split; [|done].
      split; [by split|]. unfold told, changing. cbn. by rewrite Er. }
  destruct r; try exact H. repeat runs_step. by split_and!; [apply turn_refl|..].
Qed.

(** where an instruction goes next: [tc] is its thread's state after it *)
Definition nextPC inst (f : Fault) (tc : TC TS) : PCState :=
  if faultSet f then tc_pcState tc else advancePC (staticInst inst) (tc_pcState tc).

(** what [tryToBranch] decides *)
Record resolved inst (f : Fault) (tc : TC TS) s s' : Prop := {
  re_context : x_threads s' = x_threads s
    ∨ vset (x_threads s) (threadId (id inst)) (tc_setPC (nextPC inst f tc) tc) = Ok (x_threads s');
  re_moved : faultSet f = false → vget (x_threads s') (threadId (id inst)) = Ok (tc_setPC (nextPC inst f tc) tc);
  re_change : changing s' = true → target (x_branch s') = Some (nextPC inst f tc)
    ∧ brThreadId (x_branch s') = threadId (id inst) ∧ brInst (x_branch s') = inst;
  re_stay : changing s' = false → forceBranch inst tc = false
    ∧ if predictedTaken inst
      then ∃ p, predictedTarget inst = Some p ∧ pc_equals p (nextPC inst f tc) = true
      else faultSet f = false ∧ ∃ p, pc inst = Some p ∧ pc_equals p (tc_pcState tc) = true;
}.

Lemma branchReason_ends inst a b t : ends (branchReason inst a b t).
Proof. unfold branchReason. ends_tac. Qed.

Lemma branchReason_stay inst a b t r : branchReason inst a b t = Ok r → isStreamChange r = false →
  if predictedTaken inst && negb a then b = true ∧ ∃ p, predictedTarget inst = Some p ∧ pc_equals p t = true
  else b = false.
Proof.
  unfold branchReason. destruct (predictedTaken inst && negb a).
  - destruct b; [|by intros [= <-]]. cbn. destruct (predictedTarget inst) as [p|]; [|done]. cbn.
    destruct (pc_equals p t) eqn:E; intros [= <-]; [|done]. eauto.
  - by destruct b; intros [= <-].
Qed.

Lemma derefInst_Ok (a b : StaticInst) : derefInst a = Ok b → b = a.
Proof. unfold derefInst. destruct (isNullInst a); [done|]. congruence. Qed.

(** the decision, from a state [s1] in which the pc has been advanced *)
Lemma branch_resolved inst f tc p r s s1 s' : changing s = false →
  pc inst = Some p →
  branchReason inst (forceBranch inst tc)
    (negb (pc_equals p (tc_pcState tc)) || faultSet f || forceBranch inst tc) (nextPC inst f tc) = Ok r →
  (if faultSet f then x_threads s1 = x_threads s
   else vset (x_threads s) (threadId (id inst)) (tc_setPC (nextPC inst f tc) tc) = Ok (x_threads s1)) →
  changing s1 = false →
  match r with
  | NoBranch => s' = s1
  | _ => reason (x_branch s') = r ∧ brThreadId (x_branch s') = threadId (id inst)
         ∧ target (x_branch s') = Some (nextPC inst f tc) ∧ brInst (x_branch s') = inst
  end → x_threads s' = x_threads s1 → resolved inst f tc s s'.
Proof.
  intros Hs Hp Hr Ht Hs1 Hb Hts.
  assert (changing s' = isStreamChange r) as Hc.
  { destruct r; first [by subst | unfold changing; by destruct Hb as [-> _]]. }
  split; rewrite ?Hts, ?Hc.
  - destruct (faultSet f); auto.
  - intros Hf. rewrite Hf in Ht. by apply vget_vset_eq in Ht.
  - intros H. destruct r; try done; naive_solver.
  - intros H. apply branchReason_stay in Hr; [|done].
    destruct (predictedTaken inst), (forceBranch inst tc) eqn:Hforce; cbn in Hr;
      rewrite ?orb_true_r in Hr; try done.
    + destruct Hr as [_ Hr]. by split.
    + apply orb_false_iff in Hr as [[Hr Hf]%orb_false_iff _]. apply negb_false_iff in Hr. eauto.
Qed.

(** [updateBranchData] after the decision, from a state [s1] that is [s] but
    for the context of the thread *)
Lemma branch_runs inst f tc p s s1 : changing s = false → calm s s1 →
  vget (x_threads s) (threadId (id inst)) = Ok tc → pc inst = Some p →
  (if faultSet f then x_threads s1 = x_threads s
   else vset (x_threads s) (threadId (id inst)) (tc_setPC (nextPC inst f tc) tc) = Ok (x_threads s1)) →
  runs (let! r := slift (branchReason inst (forceBranch inst tc)
           (negb (pc_equals p (tc_pcState tc)) || faultSet f || forceBranch inst tc) (nextPC inst f tc)) in
        updateBranchData (threadId (id inst)) r inst (nextPC inst f tc)) s1
    (λ _ s', turn s s' ∧ ∃ tc, vget (x_threads s) (threadId (id inst)) = Ok tc ∧ resolved inst f tc s s').
Proof.
  intros Hs Hc Htc Hp Ht. assert (changing s1 = false) as Hs1 by (by rewrite (calm_changing _ _ Hc)).
  apply runs_bind, runs_lift; [apply branchReason_ends|]. intros r Hr.
  eapply runs_conseq; [by apply updateBranchData_runs|]. intros [] s' _ (Htu & Hb & Hts).
  split; [by eapply turn_after_calm|]. exists tc. split; [done|]. by eapply branch_resolved.
Qed.

Lemma tryToBranch_runs inst f s : changing s = false →
  runs (tryToBranch inst f) s (λ _ s', turn s s'
    ∧ ∃ tc, vget (x_threads s) (threadId (id inst)) = Ok tc ∧ resolved inst f tc s s').
Proof.
  intros Hs. unfold tryToBranch, getContext.
  apply runs_bind, runs_bind, runs_get, runs_lift; [auto with ends|]. intros tc Htc.
  apply runs_bind, runs_lift; [auto with ends|]. intros p Hp.
  assert (pc inst = Some p) as Hp' by (destruct (pc inst); [by injection Hp as ->|done]).
  apply runs_bind. destruct (faultSet f) eqn:Hf.
  - apply runs_ret. pose proof (branch_runs inst f tc p s s) as H. unfold nextPC in H. rewrite Hf in H.
    by apply H.
  - cbn. apply runs_bind, runs_lift; [auto with ends|]. intros si ->%derefInst_Ok.
    apply runs_bind. unfold setContext.
    apply runs_bind, runs_get, runs_bind, runs_lift; [auto with ends|]. intros l Hl. apply runs_mod, runs_ret.
    pose proof (branch_runs inst f tc p s (xu_threads l s)) as H. unfold nextPC in H. rewrite Hf in H.
    apply H; try done. split; [split|..]; try done. by eapply vset_length.
Qed.

(** ** Completing an instruction *)

Definition turnM {A} (m : St Execute A) : Prop := ∀ s, changing s = false → runs m s (λ _ s', turn s s').

Lemma turn_calm {A} (m : St Execute A) : calmM m → turnM m.
Proof. intros H s Hs. eapply runs_conseq; [apply H|]. cbn. intros _ s' _ Hc. by apply calm_turn. Qed.

Lemma turn_bind {A B} (m : St Execute A) (k : A → St Execute B) :
  calmM m → (∀ a, turnM (k a)) → turnM (sbind m k).
Proof.
  intros Hm Hk s Hs. apply runs_bind. eapply runs_conseq; [apply Hm|]. cbn. intros a s1 _ H1.
  eapply runs_conseq; [apply Hk; by rewrite (calm_changing _ _ H1)|]. cbn. intros b s2 _ H2.
  by eapply turn_after_calm.
Qed.

(** what follows a branch: the instruction and its thread's records change *)
Definition tailM {A} (m : St Execute A) : Prop :=
  ∀ s, runs m s (λ _ s', calm s s' ∧ x_branch s' = x_branch s).

Lemma turn_tail {A B} (m : St Execute A) (k : A → St Execute B) :
  turnM m → (∀ a, tailM (k a)) → turnM (sbind m k).
Proof.
  intros Hm Hk s Hs. apply runs_bind. eapply runs_conseq; [by apply Hm|]. cbn. intros a s1 _ H1.
  eapply runs_conseq; [apply Hk|]. cbn. intros b s2 _ [H2 Hb].
  by apply (calm_keeps_turn s s1 s2); rewrite ?Hb.
Qed.

Lemma tail_leaveContext {A} tid p (a : A) :
  tailM (let! tc := getContext tid in do! setInstAt p (leaveContext tc) in sret a).
Proof.
  intros s. unfold getContext. repeat runs_step. eapply runs_conseq.
  - eapply (calm_setInstAt p (leaveContext a0)). intros x. by apply le_with_ex.
  - cbn. intros [] s' E Hc. apply runs_ret. split; [done|].
    unfold setInstAt, instAt, sbind, smod in E. destruct (x_insts s !! p); [|done].
    by injection E as <-.
Qed.

Lemma turn_tryToBranch inst f : turnM (tryToBranch inst f).
Proof. intros s Hs. eapply runs_conseq; [by apply tryToBranch_runs|]. by cbn; intros ? ? ? []. Qed.

Lemma turn_handleMemResponse e p r : turnM (handleMemResponse e p r).
Proof.
  unfold handleMemResponse.
  repeat (apply turn_bind; [solve [keeps_tac]|intros]).
  apply turn_tail; [apply turn_tryToBranch|]. intros. apply tail_leaveContext.
Qed.

Lemma turn_trans s s1 s2 : turn s s1 → changing s1 = false → turn s1 s2 → turn s s2.
Proof.
  intros [Hf Ht] Hs [Hf' Ht']. split; [by etrans|]. unfold told in Ht. rewrite Hs in Ht.
  unfold told in *. by rewrite <- Ht.
Qed.

Lemma turn_commitFault p inst : turnM (commitFault p inst).
Proof.
  unfold commitFault. repeat (apply turn_bind; [solve [keeps_tac]|intros]).
  apply turn_tail; [apply turn_tryToBranch|]. intros. apply tail_leaveContext.
Qed.

Lemma tail_ret {A} (a : A) : tailM (sret a).
Proof. intros s. by apply runs_ret. Qed.

Lemma turn_commitMemRef e p inst b : turnM (commitMemRef e p inst b).
Proof.
  unfold commitMemRef. apply turn_bind; [apply calm_executeMemRefInst|]. intros [c f].
  destruct (c && faultSet f); [|apply turn_calm; keeps_tac].
  destruct b; [apply turn_calm; keeps_tac|].
  repeat (apply turn_bind; [solve [keeps_tac]|intros]).
  apply turn_tail; [apply turn_tryToBranch|]. intros. apply tail_ret.
Qed.

Lemma turn_commitPlain p inst si : turnM (commitPlain p inst si).
Proof.
  unfold commitPlain. repeat (apply turn_bind; [solve [keeps_tac]|intros]).
  destruct (sem_execute si _) as [tc f]. repeat (apply turn_bind; [solve [keeps_tac]|intros]).
  apply turn_tail; [apply turn_tryToBranch|]. intros. apply tail_leaveContext.
Qed.

Lemma tail_updThread tid f : (∀ i, quiet i (f i) ∧ x_streamSeqNum (f i) = x_streamSeqNum i) →
  tailM (x_updThread tid f).
Proof.
  intros Hf s. unfold x_updThread, x_thread. repeat runs_step. split; [|done].
  destruct (Hf a) as [Hq Hs].
  split; [split|..]; try done; cbn.
  - eapply Forall2_quiet_set; [|done]. intros i Hi. rewrite Hi in H. by injection H as ->.
  - unfold streams. cbn. apply (vset_fmap x_streamSeqNum) in H0 as (_ & ->)%vset_Ok.
    rewrite Hs. apply list_insert_id. rewrite list_lookup_fmap.
    apply vget_Ok in H as [_ ->]. done.
Qed.

(** what every result of a method satisfies *)
Definition resM {A} (P : A → Prop) (m : St Execute A) : Prop := ∀ s a s', m s = Ok (a, s') → P a.

Lemma res_bind {A B} (P : B → Prop) (m : St Execute A) (k : A → St Execute B) :
  (∀ a, resM P (k a)) → resM P (sbind m k).
Proof.
  intros Hk s b s'. unfold sbind. destruct (m s) as [[a s1]|]; [apply Hk|done].
Qed.

Lemma res_bind' {A B} (R : A → Prop) (P : B → Prop) (m : St Execute A) (k : A → St Execute B) :
  resM R m → (∀ a, R a → resM P (k a)) → resM P (sbind m k).
Proof.
  intros Hm Hk s b s'. unfold sbind. destruct (m s) as [[a s1]|] eqn:E; [|done]. apply Hk. by eapply Hm.
Qed.

Lemma res_ret {A} (P : A → Prop) a : P a → resM P (sret a).
Proof. by intros H s ? ? [= <- _]. Qed.

Lemma res_stop {A} (P : A → Prop) z : resM P (slift (Stop z)).
Proof. by intros s ? ?. Qed.

(** the instruction that was sent to memory, if one was *)
Definition memRefAt p s : Prop :=
  ∃ x, x_insts s !! p = Some x ∧ isFault x = false ∧ isMemRef (staticInst x) = true.

Ltac res_step :=
  first
    [ apply res_stop
    | apply res_ret; try done
    | apply res_bind; intros
    | match goal with
      | |- resM _ (match ?x with _ => _ end) => destruct x eqn:?
      end ].

Lemma commitFault_result p inst : resM (λ c, cm_memIssue c = false) (commitFault p inst).
Proof. unfold commitFault. repeat res_step. Qed.
Lemma commitPlain_result p inst si : resM (λ c, cm_memIssue c = false) (commitPlain p inst si).
Proof. unfold commitPlain. repeat res_step. Qed.

Lemma commitInst_memIssue e p b s c s' :
  commitInst e p b s = Ok (c, s') → cm_memIssue c = true → memRefAt p s.
Proof.
  unfold commitInst, sbind at 1, instAt. destruct (x_insts s !! p) as [x|] eqn:Ex; [|done].
  match goal with |- ?m s = _ → _ => assert (resM (λ c, cm_memIssue c = true → memRefAt p s) m) as H end;
    [|by apply H].
  do 2 (apply res_bind; intros).
  apply (res_bind' (λ c, cm_memIssue c = true → memRefAt p s)).
  - destruct (_ && _); [apply res_stop|]. destruct (isFault x) eqn:Ef.
    + intros s1 c1 s2 H. apply commitFault_result in H. congruence.
    + apply (res_bind' (λ si, si = staticInst x)).
      { intros s1 si s2. unfold slift. destruct (derefInst _) eqn:E; [|done]. intros [= <- _].
        by apply derefInst_Ok. }
      intros si ->. destruct (isMemRef (staticInst x)) eqn:Em.
      { intros ? ? ? _ _. by exists x. }
      repeat (destruct (_ && _); [by apply res_ret|]).
      intros s1 c1 s2 H. apply commitPlain_result in H. congruence.
  - intros c1 Hc. destruct (cm_completed c1); repeat res_step.
Qed.

(** [commitInst] *)
Lemma turn_commitInst e p b : turnM (commitInst e p b).
Proof.
  unfold commitInst. do 3 (apply turn_bind; [solve [keeps_tac]|intros]).
  intros s Hs. apply runs_bind. eapply runs_conseq with (Q := λ _ s', turn s s').
  { revert s Hs. destruct (_ && _); [apply turn_calm; keeps_tac|]. destruct (isFault _); [apply turn_commitFault|].
    apply turn_bind; [keeps_tac|]. intros si. destruct (isMemRef si); [apply turn_commitMemRef|].
    repeat (destruct (_ && _); [apply turn_calm; keeps_tac|]). apply turn_commitPlain. }
  cbn. intros c s1 _ H1. destruct (cm_completed c); [|by apply runs_ret].
  apply runs_bind. eapply runs_conseq; [by apply tail_updThread; split|]. cbn. intros [] s2 _ [H2 Hb].
  assert (turn s s2) as Ht by (by apply (calm_keeps_turn s s1 s2); rewrite ?Hb).
  unfold getContext. do 5 runs_step. runs_step. apply runs_bind. destruct (_ && _) eqn:Ec.
  - apply runs_bind, runs_assert. intros _. apply andb_true_iff in Ec as [[_ Hbub]%andb_true_iff _].
    assert (changing s2 = false) as Hch.
    { unfold changing. unfold isBubble, BranchData_isBubble in Hbub. by destruct (reason (x_branch s2)). }
    eapply runs_conseq; [by apply updateBranchData_runs|]. cbn. intros [] s3 _ [H3 _].
    apply runs_ret. by eapply turn_trans.
  - by apply runs_ret, runs_ret.
Qed.
End told.
