(* ===== verification/ExecuteCommit.v ===== *)
(** * The commit loop of Execute ends

    A round of the loop of [commit] that is followed by another one takes an
    instruction out of the queue of instructions in flight or moves one from a
    functional unit to the load/store queue.  Neither can go on for ever: the
    number of instructions in flight and the number of instructions that are
    not in the load/store queue never grow during a commit. *)
From stdpp Require Import gmap.
From S2P Require Import Prelude TimeBuf Buffers Activity LVPT CVU PipeData Cpu Scoreboard FuncUnit.
From S2P Require Import LsqAddr LsqRequest Lsq Runs Execute ExecuteFrame.

Section commit.
Context `{I : Isa} {TS : ThreadSem I}.
Notation DynInst := (MyMinorDynInst I).
Implicit Types (s : Execute) (e : ExecEnv) (i : ExecuteThreadInfo) (x y inst : DynInst).

(** ** Instructions not yet in the load/store queue *)

Definition outside (m : gmap Z DynInst) : gset Z := dom (filter (λ kv, inLSQ (ex kv.2) = false) m).

Lemma elem_of_outside m p : p ∈ outside m ↔ ∃ x, m !! p = Some x ∧ inLSQ (ex x) = false.
Proof.
  unfold outside. rewrite elem_of_dom. split.
  - intros [x [Hx Hf]%map_lookup_filter_Some]. eauto.
  - intros (x & Hx & Hf). exists x. by apply map_lookup_filter_Some.
Qed.

Lemma outside_le m m' : insts_le m m' → outside m' ⊆ outside m.
Proof.
  intros H p (x & Hx & Hf)%elem_of_outside. apply elem_of_outside. specialize (H p). rewrite Hx in H.
  inversion H as [y z Hl E|]; subst. exists y. split; [done|]. destruct (inLSQ (ex y)) eqn:Ey; [|done].
  apply (le_inLSQ _ _ Hl) in Ey. congruence.
Qed.

(** the number of instructions that a commit of thread [tid] can still move *)
Definition work s (tid : Z) : nat :=
  (match vget (x_info s) tid with Ok i => length (queue (inFlightInsts i)) | Stop _ => 0 end)
  + base.size (outside (x_insts s)).

Lemma work_fuel s tid i : vget (x_info s) tid = Ok i → (work s tid < commitFuel s tid)%nat.
Proof.
  intros H. unfold work, commitFuel. rewrite H.
  assert (base.size (outside (x_insts s)) ≤ base.size (x_insts s))%nat; [|lia].
  rewrite <- (size_dom (x_insts s)). apply subseteq_size. unfold outside. apply dom_filter_subseteq.
Qed.

(** ** Rounds *)

(** the chain of pc events that starts in [tc] ends within [n] services *)
Fixpoint settles (n : nat) (tc : TC TS) : Prop :=
  match n with
  | O => False
  | S n => instAddr (tc_pcState tc) = instAddr (tc_pcState (sem_pcEvents tc)) ∨ settles n (sem_pcEvents tc)
  end.

Lemma pcEventLoop_runs n tid k s : n ≠ O →
  (∀ tc, vget (x_threads s) tid = Ok tc → settles n tc) → runs (pcEventLoop n tid k) s (λ _ s', calm s s').
Proof.
  revert k s. induction n as [|n IH]; intros k s Hn0 Hn; [done|]. cbn [pcEventLoop]. unfold getContext.
  do 4 runs_step. cbn. apply runs_bind. unfold setContext. do 4 runs_step. runs_step.
  assert (calm s (xu_threads a0 s)) as Hc.
  { split; [split|..]; try done. by eapply vset_length. }
  destruct (_ =? _) eqn:E; [by apply runs_ret|].
  destruct (Hn _ H) as [Heq|Hset]; [apply Z.eqb_neq in E; congruence|].
  eapply runs_conseq; [apply IH|].
  - by intros ->.
  - cbn. intros tc Htc. apply vget_vset_eq in H0. rewrite H0 in Htc. by injection Htc as <-.
  - cbn. intros _ s' _ Hs'. by etrans.
Qed.

(** every chain of pc events ends within the bound of the model *)
Definition eventsSettle e : Prop := x_pcEventFuel e ≠ O ∧ ∀ tc, settles (x_pcEventFuel e) tc.

Lemma calm_tryPCEvents e tid : eventsSettle e → calmM (tryPCEvents e tid).
Proof.
  intros [Hn He]. unfold tryPCEvents. apply (keeps_bind _); [|keeps_tac].
  intros s. apply pcEventLoop_runs; [done|]. intros. apply He.
Qed.

Lemma calm_unstallUnit p : calmM (unstallUnit p).
Proof. keeps_tac. Qed.

Lemma turn_commitReady e tid p b : turnM (commitReady e tid p b).
Proof.
  unfold commitReady. apply turn_bind; [apply calm_delayCommit|intros].
  do 3 (apply turn_bind; [solve [keeps_tac]|intros]).
  destruct (_ && _); [apply turn_calm; keeps_tac|].
  destruct (_ <? _); [apply turn_calm; keeps_tac|]. apply turn_commitInst.
Qed.

Lemma memRefAt_le p s s' : insts_le (x_insts s) (x_insts s') → memRefAt p s' → memRefAt p s.
Proof.
  intros H (y & Hy & Hf & Hm). specialize (H p). rewrite Hy in H. inversion H as [x z Hl E|]; subst.
  exists x. unfold isFault in *. by rewrite <- (le_fault _ _ Hl), <- (le_static _ _ Hl).
Qed.

Lemma commitReady_memIssue e tid p b s c s' :
  commitReady e tid p b s = Ok (c, s') → cm_memIssue c = true → memRefAt p s.
Proof.
  intros E Hc. unfold commitReady in E. unfold sbind at 1 in E.
  pose proof (calm_delayCommit e tid p s) as Hd. unfold runs in Hd.
  destruct (delayCommit e tid p s) as [[[] s1]|]; [|done].
  apply (memRefAt_le p s s1); [apply Hd|]. unfold sbind at 1, instAt in E.
  destruct (x_insts s1 !! p) as [inst|]; [|done]. unfold sbind at 1, sget in E.
  assert (∀ m : res Z, (let! barrier := slift m in
      if (barrier <? execSeqNum (id inst)) && negb (barrier =? 0) then sret (mkCommit false None false false)
      else if x_now e <? minimumCommitCycle (ex inst) then sret (mkCommit false None false false)
      else commitInst e p b) s1 = Ok (c, s') → memRefAt p s1) as H; [|by eapply H].
  clear E. intros [barrier|] E; [|done]. cbn in E.
  destruct (_ && _); [by injection E as <- _|]. destruct (_ <? _); [by injection E as <- _|].
  by eapply commitInst_memIssue.
Qed.

Lemma tail_unstallUnit p : tailM (unstallUnit p).
Proof.
  intros s. eapply runs_conseq; [apply calm_unstallUnit|]. cbn. intros [] s' E Hc. split; [done|].
  unfold unstallUnit, sbind, instAt, sget, x_unit, x_setUnit, slift, smod, sret in E.
  destruct (x_insts s !! p); [|done]. destruct (_ =? _); [by injection E as <-|].
  cbn in E. destruct (vget _ _); [|done]. cbn in E. destruct (vset _ _ _); [|done]. cbn in E. by injection E as <-.
Qed.

(** what a round reports, from its first state *)
Definition reported p (r : Round) s : Prop := rd_memIssue r = true → rd_inst r = p ∧ memRefAt p s.

Lemma commitFromUnit_runs e tid p b d s : changing s = false →
  runs (commitFromUnit e tid p b d) s (λ r s', turn s s' ∧ reported p r s).
Proof.
  intros Hs. unfold commitFromUnit. apply runs_bind. eapply runs_conseq; [apply calm_instAt|].
  cbn. intros x s1 E1 _. assert (s1 = s) as ->.
  { unfold instAt in E1. destruct (_ !! _); [|done]. by injection E1. }
  unfold x_thread. do 4 runs_step. apply runs_bind.
  eapply runs_conseq with (Q := λ c s', turn s s' ∧ (cm_memIssue c = true → memRefAt p s)).
  - destruct (_ || d); [apply runs_ret; split; [by apply turn_refl|done]|].
    eapply runs_conseq; [by apply turn_commitReady|]. cbn. intros c s1 E Ht. split; [done|].
    by eapply commitReady_memIssue.
  - cbn. intros c s1 _ [Ht Hm]. apply runs_bind.
    eapply runs_conseq with (Q := λ _ s', calm s1 s' ∧ x_branch s' = x_branch s1).
    + destruct (cm_completed c); [apply tail_unstallUnit|apply tail_ret].
    + cbn. intros [] s2 _ [Hc Hb]. apply runs_ret. split.
      * by apply (calm_keeps_turn s s1 s2); rewrite ?Hb.
      * intros Hi. by split; [|apply Hm].
Qed.

(** ** The head of the queue *)

Lemma runs_instAt p s (Q : DynInst → Execute → Prop) :
  (∀ x, x_insts s !! p = Some x → Q x s) → runs (instAt p) s Q.
Proof. intros H. unfold runs, instAt. destruct (x_insts s !! p); [by apply H|done]. Qed.

Lemma runs_instOf q s (Q : DynInst → Execute → Prop) :
  (∀ x, match q with Some p => x_insts s !! p = Some x | None => x = bubbleInst end → Q x s) → runs (instOf q) s Q.
Proof. intros H. destruct q as [p|]; cbn; [by apply runs_instAt|]. by apply runs_ret, H. Qed.

Lemma runs_x_thread tid s (Q : ExecuteThreadInfo → Execute → Prop) :
  (∀ i, vget (x_info s) tid = Ok i → Q i s) → runs (x_thread tid) s Q.
Proof. intros H. unfold x_thread. apply runs_bind, runs_get, runs_lift; auto with ends. Qed.

Lemma runs_unitFront k s (Q : QueuedInst → Execute → Prop) : (∀ q, Q q s) → runs (unitFront k) s Q.
Proof.
  intros H. unfold unitFront, x_unit. apply runs_bind, runs_bind, runs_get, runs_lift; [auto with ends|].
  intros. apply runs_lift; auto with ends.
Qed.

Lemma earlyInst_runs tid n s :
  runs (earlyInst tid n) s (λ c s', s' = s ∧ ∀ q, c = Some q → q ∈ outside (x_insts s)).
Proof.
  unfold earlyInst. apply runs_bind, runs_x_thread. intros i Hi. apply runs_bind, runs_get.
  destruct (_ && _); [|by apply runs_ret]. apply runs_bind, runs_lift; [auto with ends|]. intros q _.
  apply runs_bind, runs_instOf. intros h _. apply runs_bind, runs_unitFront. intros f.
  apply runs_bind, runs_instOf. intros x Hx. apply runs_ret. split; [done|].
  intros p. destruct (_ && _) eqn:E; [|done]. intros ->. apply elem_of_outside. exists x. split; [done|].
  rewrite !andb_true_iff, !negb_true_iff in E. tauto.
Qed.

Lemma chooseInst_runs tid p inst s :
  runs (chooseInst tid p inst) s (λ c s', s' = s ∧
    ∀ q b, c = Some (q, b) → q ∈ outside (x_insts s)
      ∨ (q = p ∧ (isNoCostInst inst = true ∨ inLSQ (ex inst) = false))).
Proof.
  unfold chooseInst. apply runs_bind. eapply runs_conseq; [apply earlyInst_runs|]. cbn.
  intros c s1 _ [-> Hc]. destruct c as [q|].
  { apply runs_ret. split; [done|]. intros ? ? [= <- _]. left. by apply Hc. }
  destruct (isNoCostInst inst); [apply runs_ret; split; [done|]; intros ? ? [= <- _]; tauto|].
  destruct (inLSQ (ex inst)) eqn:El; [by apply runs_ret|].
  apply runs_bind, runs_unitFront. intros f. apply runs_bind, runs_instOf. intros x _.
  destruct (isBubble x); [by apply runs_ret|]. destruct (negb _); [by apply runs_ret|].
  apply runs_bind, runs_lift; [auto with ends|]. intros same _. apply runs_ret. split; [done|].
  destruct same; [|done]. intros ? ? [= <- _]. tauto.
Qed.

(** instructions that need no unit are not memory references *)
Definition noCostIsaOk : Prop := ∀ si : StaticInst, opClass si = No_OpClass → isMemRef si = false.

Lemma calm_isInbetweenInsts tid : calmM (isInbetweenInsts tid).
Proof. keeps_tac. Qed.

Lemma commitHead_runs e tid o d n s : noCostIsaOk → eventsSettle e → changing s = false →
  runs (commitHead e tid o d n) s (λ r s', turn s s' ∧ (rd_memIssue r = true → rd_inst r ∈ outside (x_insts s))).
Proof.
  intros HI He Hs. unfold commitHead. apply runs_bind, runs_x_thread. intros i Hi.
  do 2 (apply runs_bind, runs_lift; [auto with ends|intros ? _]).
  apply runs_bind, runs_instAt. intros inst Hinst.
  apply runs_bind. eapply runs_conseq with (Q := λ _ s', calm s s').
  { destruct (inLSQ _); [apply calm_findResponse|apply (keeps_ret _)]. }
  cbn. intros resp s1 _ H1. apply runs_bind. eapply runs_conseq; [apply calm_isInbetweenInsts|].
  cbn. intros between s2 _ H2. apply runs_bind. eapply runs_conseq with (Q := λ _ s', calm s2 s').
  { destruct between; [by apply calm_tryPCEvents|apply (keeps_ret _)]. }
  cbn. intros event s3 _ H3.
  assert (calm s s3) as Hc by (by do 2 (etrans; [done|])). clear H1 H2 H3 s1 s2.
  assert (changing s3 = false) as Hs3 by (by rewrite (calm_changing _ _ Hc)).
  destruct event.
  { unfold getContext. do 4 runs_step. apply runs_bind.
    eapply runs_conseq; [by apply updateBranchData_runs|]. cbn. intros _ s4 _ [H4 _].
    apply runs_ret. split; [by eapply turn_after_calm|done]. }
  apply runs_bind, runs_get.
  match goal with |- context [if ?b then resp else None] => destruct (if b then resp else None) as [r|] end.
  { destruct (_ || d).
    - apply runs_bind. eapply runs_conseq; [apply calm_popResponse|]. cbn. intros _ s4 _ H4.
      apply runs_ret. split; [|done]. apply calm_turn; [by etrans|done].
    - apply runs_bind. eapply runs_conseq; [by apply turn_handleMemResponse|]. cbn. intros f s4 _ H4.
      apply runs_ret. split; [by eapply turn_after_calm|done]. }
  destruct (negb _); [|apply runs_ret; split; [by apply calm_turn|done]].
  apply runs_bind. eapply runs_conseq; [apply chooseInst_runs|]. cbn. intros c s4 _ [-> Hch].
  destruct c as [[q early]|]; [|apply runs_ret; split; [by apply calm_turn|done]].
  eapply runs_conseq; [by apply commitFromUnit_runs|]. cbn. intros r s4 _ [H4 Hr].
  split; [by eapply turn_after_calm|]. intros Hmi. destruct (Hr Hmi) as [-> Hmem].
  assert (insts_le (x_insts s) (x_insts s3)) as Hle by apply Hc.
  destruct (Hch q early eq_refl) as [Hq|[-> [Hno|Hin]]].
  - by apply (outside_le _ _ Hle).
  - apply (memRefAt_le _ _ _ Hle) in Hmem as (x & Hx & _ & Hm). rewrite Hinst in Hx. injection Hx as <-.
    unfold isNoCostInst in Hno. apply andb_true_iff in Hno as [_ Hno%Z.eqb_eq]. apply HI in Hno. congruence.
  - apply elem_of_outside. eauto.
Qed.

(** ** The end of a round *)

(** what a whole commit keeps *)
Record steady i i' : Prop := {
  st_index : x_inputIndex i' = x_inputIndex i;
  st_drain : drainState i' = drainState i;
  st_queue : queue (inFlightInsts i') `suffix_of` queue (inFlightInsts i);
}.

#[export] Instance steady_preorder : PreOrder steady.
Proof. split; [by intros i; split|]. intros i j k [] []. split; [congruence..|by etrans]. Qed.

Record passed s s' : Prop := {
  pa_cfg : x_cfg s' = x_cfg s;
  pa_insts : insts_le (x_insts s) (x_insts s');
  pa_next : x_nextInst s' = x_nextInst s;
  pa_info : Forall2 steady (x_info s) (x_info s');
  pa_threads : length (x_threads s') = length (x_threads s);
  pa_units : length (x_funcUnits s') = length (x_funcUnits s);
  pa_input : x_inputBuffer s' = x_inputBuffer s;
  pa_prio : interruptPriority s' = interruptPriority s;
}.

#[export] Instance passed_preorder : PreOrder passed.
Proof.
  split.
  - intros s. split; try done; reflexivity.
  - intros s s1 s2 [] []. split; try congruence; by etrans.
Qed.

Lemma frame_passed s s' : frame s s' → passed s s'.
Proof.
  intros []. split; try done. eapply Forall2_impl; [done|]. intros i i' [Hq]. split; [done..|by rewrite Hq].
Qed.

(** [k] instructions have left the queue of thread [tid] *)
Record left_ tid (k : nat) s s' : Prop := {
  lf_passed : passed s s';
  lf_branch : x_branch s' = x_branch s;
  lf_streams : streams s' = streams s;
  lf_queue : ∀ i, vget (x_info s) tid = Ok i → ∃ i', vget (x_info s') tid = Ok i'
    ∧ length (queue (inFlightInsts i)) = (k + length (queue (inFlightInsts i')))%nat;
}.

Lemma left_trans tid j k s s1 s2 : left_ tid j s s1 → left_ tid k s1 s2 → left_ tid (j + k) s s2.
Proof.
  intros [Hp Hb Hs Hq] [Hp' Hb' Hs' Hq']. split; [by etrans|congruence..|].
  intros i (i1 & (i2 & H2 & Hl2)%Hq' & Hl1)%Hq. exists i2. split; [done|lia].
Qed.

Lemma left_same tid s s' : passed s s' → x_branch s' = x_branch s → x_info s' = x_info s → left_ tid 0 s s'.
Proof. intros Hp Hb Hi. split; [done..| |]; unfold streams; rewrite Hi; eauto. Qed.

Lemma updThread_left tid f k s :
  (∀ i, vget (x_info s) tid = Ok i → steady i (f i) ∧ x_streamSeqNum (f i) = x_streamSeqNum i
    ∧ length (queue (inFlightInsts i)) = (k + length (queue (inFlightInsts (f i))))%nat) →
  runs (x_updThread tid f) s (λ _ s', left_ tid k s s').
Proof.
  intros Hf. unfold x_updThread. apply runs_bind, runs_x_thread. intros i Hi.
  destruct (Hf i Hi) as (Hst & Hss & Hlen).
  apply runs_bind, runs_get, runs_bind, runs_lift; [auto with ends|]. intros l Hl. apply runs_mod.
  apply vset_Ok in Hl as [Ht ->]. apply vget_Ok in Hi as Hi'. destruct Hi' as [_ Hi'].
  split; cbn; [split; try done; cbn|done| |].
  - apply Forall2_same_length_lookup_2; [by rewrite length_insert|]. intros n a b Ha Hb.
    apply list_lookup_insert_Some in Hb as [(<- & <- & _)|[_ Hb]].
    + rewrite Hi' in Ha. by injection Ha as <-.
    + rewrite Ha in Hb. injection Hb as ->. reflexivity.
  - unfold streams. cbn. rewrite list_fmap_insert, Hss. apply list_insert_id. by rewrite list_lookup_fmap, Hi'.
  - intros j Hj. rewrite Hi in Hj. injection Hj as <-. exists (f i).
    split; [by apply vget_insert_eq|done].
Qed.

Lemma callLsq_left {A} (m : St (LSQ I) A) tid s : endsM m → runs (callLsq m) s (λ _ s', left_ tid 0 s s').
Proof.
  intros H. unfold runs, callLsq. specialize (H (x_lsq s)). destruct (m (x_lsq s)) as [[a l]|z].
  - apply left_same; [|done..]. by split.
  - unfold ends in H. congruence.
Qed.

Lemma retire_left tid inst c s : runs (retire tid inst c) s (λ _ s', left_ tid 1 s s').
Proof.
  unfold retire. apply runs_bind. eapply runs_conseq; [by apply (updThread_left _ _ 0); intros; split_and!|].
  cbn. intros [] s1 _ H1. apply runs_bind, runs_x_thread. intros i Hi.
  apply runs_bind, runs_lift; [auto with ends|]. intros q Hq. apply runs_bind.
  eapply runs_conseq; [apply (updThread_left _ _ 1)|].
  { intros j Hj. rewrite Hi in Hj. injection Hj as <-.
    unfold Queue_pop in Hq. destruct (queue (inFlightInsts i)) as [|p l] eqn:El; [done|]. injection Hq as <-.
    split_and!; [split|..]; try done. rewrite El. by apply suffix_cons_r. }
  cbn. intros [] s2 _ H2. apply runs_bind. eapply runs_conseq with (Q := λ _ s', left_ tid 0 s2 s').
  { destruct (_ && _); [apply callLsq_left; auto with ends|]. apply runs_ret. by apply left_same. }
  cbn. intros [] s3 _ H3. apply runs_bind, runs_get.
  do 3 (apply runs_bind, runs_lift; [auto with ends|intros ? _]). apply runs_mod.
  apply (left_trans tid 0 1 s s1); [done|]. apply (left_trans tid 1 0 s1 s2); [done|].
  apply (left_trans tid 0 0 s2 s3); [done|]. apply left_same; [|done..]. by split.
Qed.

Lemma popInFUMem_left tid p s : runs (popInFUMem tid p) s (λ _ s', left_ tid 0 s s').
Proof.
  unfold popInFUMem. apply runs_bind, runs_x_thread. intros i Hi.
  destruct (bool_decide _); [|by apply runs_ret, left_same].
  apply runs_bind, runs_lift; [auto with ends|]. intros q _. by apply updThread_left.
Qed.

Lemma setInstAt_left tid p f s : (∀ x, inst_le x (f x)) →
  runs (setInstAt p f) s (λ _ s', left_ tid 0 s s' ∧ ∃ x, x_insts s' !! p = Some (f x)).
Proof.
  intros Hf. eapply runs_conseq; [by apply calm_setInstAt|]. cbn. intros [] s' E Hc.
  unfold setInstAt, instAt, sbind, smod in E. destruct (x_insts s !! p) as [x|]; [|done]. injection E as <-.
  split; [by apply left_same; [apply frame_passed, Hc|..]|]. exists x. cbn. by rewrite lookup_insert_eq.
Qed.

Lemma outside_set m p x : m !! p = Some x → inLSQ (ex x) = true → p ∉ outside m.
Proof. intros Hx Hi (y & Hy & Hf)%elem_of_outside. congruence. Qed.

(** how many instructions leave the queue at the end of a round *)
Definition leaving (r : Round) : nat :=
  if rd_completed r && negb (rd_memIssue r && negb (faultSet (rd_fault r))) then 1 else 0.

Lemma finishRound_left tid r s :
  runs (finishRound tid r) s (λ _ s', left_ tid (leaving r) s s'
    ∧ (rd_memIssue r = true → rd_inst r ∉ outside (x_insts s'))).
Proof.
  unfold finishRound. apply runs_bind, runs_assert. intros _. apply runs_bind.
  eapply runs_conseq with (Q := λ _ s', left_ tid 0 s s' ∧ (rd_memIssue r = true → rd_inst r ∉ outside (x_insts s'))).
  { destruct (rd_memIssue r); [|by apply runs_ret; split; [apply left_same|]].
    eapply runs_conseq; [apply (setInstAt_left tid); intros; by apply le_with_ex|]. cbn.
    intros [] s1 _ [H1 [x Hx]]. split; [done|]. intros _. by apply (outside_set _ _ _ Hx). }
  cbn. intros [] s1 _ [H1 Ho]. apply runs_bind, runs_instAt. intros inst _. apply runs_bind.
  eapply runs_conseq with (Q := λ _ s', left_ tid 0 s1 s').
  { destruct (_ && _); [apply popInFUMem_left|]. by apply runs_ret, left_same. }
  cbn. intros [] s2 _ H2.
  assert (∀ k s3, left_ tid k s2 s3 → left_ tid k s s3
    ∧ (rd_memIssue r = true → rd_inst r ∉ outside (x_insts s3))) as H.
  { intros k s3 H3. split; [by apply (left_trans tid 0 k s s1), (left_trans tid 0 k s1 s2)|].
    intros Hm. specialize (Ho Hm). contradict Ho.
    apply (outside_le _ (x_insts s3)); [|done]. etrans; [apply H2|apply H3]. }
  unfold leaving. destruct (_ && _).
  - eapply runs_conseq; [apply retire_left|]. cbn. intros [] s3 _ H3. by apply H.
  - apply runs_ret, H. by apply left_same.
Qed.

(** ** The loop *)

Lemma told_trans s s1 s2 : told s s1 → changing s1 = false → told s1 s2 → told s s2.
Proof. unfold told. intros H Hs H'. rewrite Hs in H. by rewrite <- H. Qed.

Lemma told_keep s s1 s2 : told s s1 → x_branch s2 = x_branch s1 → streams s2 = streams s1 → told s s2.
Proof. unfold told, changing. intros H -> ->. done. Qed.

Lemma work_left s s1 s2 tid k : turn s s1 → left_ tid k s1 s2 → is_Ok (vget (x_info s) tid) →
  (work s2 tid + k + base.size (outside (x_insts s) ∖ outside (x_insts s2)) = work s tid)%nat.
Proof.
  intros [Hf _] [Hp _ _ Hq] [i Hi]. unfold work. rewrite Hi.
  apply vget_Ok in Hi as [Ht Hi].
  destruct (Forall2_lookup_l _ _ _ _ _ (fr_info _ _ Hf) Hi) as (i1 & Hi1 & Hqu).
  destruct (Hq i1) as (i2 & -> & Hl); [by apply vget_Ok|]. rewrite <- (qu_inFlight _ _ Hqu), Hl.
  assert (outside (x_insts s2) ⊆ outside (x_insts s)) as Hsub.
  { apply outside_le. etrans; [apply Hf|apply Hp]. }
  pose proof (subseteq_size _ _ Hsub). rewrite size_difference by done. lia.
Qed.

(** one round, up to the test that decides on the next one *)
Lemma round_runs e tid o d n s (Q : unit → Execute → Prop) (k : Round → St Execute unit) :
  noCostIsaOk → eventsSettle e → changing s = false → is_Ok (vget (x_info s) tid) →
  (∀ r s2, passed s s2 → told s s2 →
     (rd_completed r = true → faultSet (rd_fault r) = false → (work s2 tid < work s tid)%nat) → runs (k r) s2 Q) →
  runs (let! r := commitHead e tid o d n in do! finishRound tid r in k r) s Q.
Proof.
  intros HI He Hs Hi Hk. apply runs_bind. eapply runs_conseq; [by apply commitHead_runs|]. cbn.
  intros r s1 _ [H1 Hout]. apply runs_bind. eapply runs_conseq; [apply finishRound_left|]. cbn.
  intros [] s2 _ [H2 Hin]. apply Hk.
  - etrans; [apply frame_passed, H1|apply H2].
  - eapply told_keep; [apply H1|apply H2..].
  - intros Hcomp Hf. pose proof (work_left s s1 s2 tid _ H1 H2 Hi) as Hw. unfold leaving in Hw.
    rewrite Hcomp, Hf in Hw. destruct (rd_memIssue r); cbn in Hw; [|lia].
    assert (base.size (outside (x_insts s) ∖ outside (x_insts s2)) ≠ 0%nat); [|lia].
    intros Hz%size_empty_inv. set_solver.
Qed.

Lemma commitLoop_runs e tid o d fuel a b s : noCostIsaOk → eventsSettle e →
  (is_Ok (vget (x_info s) tid) → (work s tid < fuel)%nat) → fuel ≠ O →
  runs (commitLoop e fuel tid o d a b) s (λ _ s', passed s s' ∧ if changing s then s' = s else told s s').
Proof.
  intros HI He. revert a b s. induction fuel as [|fuel IH]; intros a b s Hw H0; [done|].
  cbn [commitLoop]. apply runs_bind, runs_x_thread. intros i Hi. apply runs_bind, runs_get.
  fold (changing s). destruct (changing s) eqn:Hs.
  { rewrite orb_true_r. by apply runs_ret. }
  destruct (_ || _).
  { apply runs_ret. split; [reflexivity|]. unfold told. by rewrite Hs. }
  apply round_runs; [done..|by exists i|]. intros r s2 Hp Ht Hdec. apply runs_bind, runs_instAt. intros x _.
  destruct (faultSet (rd_fault r)) eqn:Hf; [by apply runs_ret|].
  destruct (rd_completed r) eqn:Hcomp; [|by apply runs_ret]. cbn.
  specialize (Hdec eq_refl eq_refl). assert (work s tid < S fuel)%nat by (apply Hw; by exists i).
  eapply runs_conseq; [apply IH; lia|]. cbn. intros [] s3 _ [Hp' Ht']. split; [by etrans|].
  destruct (changing s2) eqn:Hs2; [by subst|]. by eapply told_trans.
Qed.

Lemma commit_runs e tid o d s : noCostIsaOk → eventsSettle e → changing s = false →
  runs (commit e tid o d) s (λ _ s', passed s s' ∧ told s s').
Proof.
  intros HI He Hs. unfold commit. apply runs_bind, runs_get.
  eapply runs_conseq; [apply commitLoop_runs; try done|].
  - intros [i Hi]. by eapply work_fuel.
  - unfold commitFuel. by destruct (vget _ _).
  - cbn. intros [] s' _ [Hp H]. by rewrite Hs in H.
Qed.
End commit.
