(* ===== verification/ExecuteIssue.v ===== *)
(** * Issue in order

    [issue] takes instructions from the input of a thread.  What it takes is a
    prefix of the instructions that wait there; those that are of the thread's
    current stream enter the queue of instructions in flight, in their order,
    and the memory references among them the queue of memory references. *)
From stdpp Require Import gmap.
From S2P Require Import Prelude TimeBuf Buffers Activity LVPT CVU PipeData Cpu Scoreboard FuncUnit.
From S2P Require Import LsqAddr LsqRequest Lsq Runs Execute ExecuteFrame ExecuteCommit.

Section issue.
Context `{I : Isa} {TS : ThreadSem I}.
Notation DynInst := (MyMinorDynInst I).
Implicit Types (s : Execute) (e : ExecEnv) (i : ExecuteThreadInfo) (x y inst : DynInst).

(** ** What issuing instructions does *)

(** pointers to the instructions [l], the first of which is at [n] *)
Fixpoint ptrs (n : Z) (l : list DynInst) : list QueuedInst :=
  match l with [] => [] | _ :: l => Some n :: ptrs (n + 1) l end.

(** and to the memory references among them *)
Fixpoint memPtrs (n : Z) (l : list DynInst) : list QueuedInst :=
  match l with
  | [] => []
  | x :: l => (if inst_isMemRef x then [Some n] else []) ++ memPtrs (n + 1) l
  end.

Lemma ptrs_app n l k : ptrs n (l ++ k) = ptrs n l ++ ptrs (n + Z.of_nat (length l)) k.
Proof.
  revert n. induction l as [|x l IH]; intros n; cbn [ptrs app length]; [by rewrite Z.add_0_r|].
  rewrite IH. cbn. do 3 f_equal. lia.
Qed.

Lemma memPtrs_app n l k : memPtrs n (l ++ k) = memPtrs n l ++ memPtrs (n + Z.of_nat (length l)) k.
Proof.
  revert n. induction l as [|x l IH]; intros n; cbn [memPtrs app length]; [by rewrite Z.add_0_r|].
  rewrite IH, app_assoc. do 2 f_equal. lia.
Qed.

(** the record of the thread once [l] has been issued, the first at [n] *)
Record entered (n : Z) (l : list DynInst) i i' : Prop := {
  en_inFlight : queue (inFlightInsts i') = queue (inFlightInsts i) ++ ptrs n l;
  en_inFUMem : queue (inFUMemInsts i') = queue (inFUMemInsts i) ++ memPtrs n l;
  en_stream : x_streamSeqNum i' = x_streamSeqNum i;
  en_drain : drainState i' = drainState i;
}.

(** input has only been taken, and by thread [tid] *)
Definition fewer tid s s' : Prop :=
  ∀ t b', vget (x_inputBuffer s') t = Ok b' →
    ∃ b, vget (x_inputBuffer s) t = Ok b ∧ (b' = b ∨ t = tid ∧ elementPtr b' = None).

Lemma fewer_same tid s s' : x_inputBuffer s' = x_inputBuffer s → fewer tid s s'.
Proof. intros He t b'. rewrite He. eauto. Qed.

Lemma fewer_trans tid s s1 s2 : fewer tid s s1 → fewer tid s1 s2 → fewer tid s s2.
Proof. intros H H' t b2 (b1 & (b & Hb & Hor)%H & Hor')%H'. exists b. split; [done|]. naive_solver. Qed.

(** the instructions [l] of thread [tid] have been issued *)
Record took tid (l : list DynInst) s s' : Prop := {
  tk_cfg : x_cfg s' = x_cfg s;
  tk_units : length (x_funcUnits s') = length (x_funcUnits s);
  tk_threads : x_threads s' = x_threads s;
  tk_branch : x_branch s' = x_branch s;
  tk_prio : interruptPriority s' = interruptPriority s;
  tk_next : x_nextInst s' = x_nextInst s + Z.of_nat (length l);
  tk_old : ∀ p, p < x_nextInst s → x_insts s' !! p = x_insts s !! p;
  tk_new : ∀ k x, l !! k = Some x → ∃ y, x_insts s' !! (x_nextInst s + Z.of_nat k) = Some y ∧ inst_le x y;
  tk_info : ∀ i, vget (x_info s) tid = Ok i →
    ∃ i', vset (x_info s) tid i' = Ok (x_info s') ∧ entered (x_nextInst s) l i i';
  tk_input : fewer tid s s';
}.

(** and the input of the thread is as it was *)
Record put tid (l : list DynInst) s s' : Prop := {
  pu_took : took tid l s s';
  pu_input : x_inputBuffer s' = x_inputBuffer s;
  pu_index : ∀ i i', vget (x_info s) tid = Ok i → vget (x_info s') tid = Ok i' → x_inputIndex i' = x_inputIndex i;
}.

Lemma took_same tid s s' : x_cfg s' = x_cfg s → length (x_funcUnits s') = length (x_funcUnits s) →
  x_threads s' = x_threads s → x_branch s' = x_branch s → interruptPriority s' = interruptPriority s →
  x_nextInst s' = x_nextInst s → x_insts s' = x_insts s → fewer tid s s' →
  (∀ i, vget (x_info s) tid = Ok i → ∃ i', vset (x_info s) tid i' = Ok (x_info s')
    ∧ queue (inFlightInsts i') = queue (inFlightInsts i) ∧ queue (inFUMemInsts i') = queue (inFUMemInsts i)
    ∧ x_streamSeqNum i' = x_streamSeqNum i ∧ drainState i' = drainState i) → took tid [] s s'.
Proof.
  intros ????? Hn Hx Hin Hi. split; try done; rewrite ?Hn, ?Hx; [cbn; lia|done|].
  intros i (i' & Hs & Hf & Hm & Hst & Hd)%Hi. exists i'. split; [done|]. split; cbn; by rewrite ?app_nil_r.
Qed.

Lemma put_refl tid s : put tid [] s s.
Proof.
  split; [apply took_same; try done; [by apply fewer_same|]|done|congruence].
  intros i Hi. exists i. split_and!; try done. by apply vset_self.
Qed.

Lemma entered_trans n l k i i1 i2 :
  entered n l i i1 → entered (n + Z.of_nat (length l)) k i1 i2 → entered n (l ++ k) i i2.
Proof.
  intros [] []. split; try congruence.
  - rewrite ptrs_app, app_assoc. congruence.
  - rewrite memPtrs_app, app_assoc. congruence.
Qed.

Lemma took_trans tid l k s s1 s2 : took tid l s s1 → took tid k s1 s2 → took tid (l ++ k) s s2.
Proof.
  intros H1 H2. split; [etrans; [apply H2|apply H1]..| | | | |].
  - rewrite (tk_next _ _ _ _ H2), (tk_next _ _ _ _ H1), length_app. lia.
  - intros p Hp. rewrite (tk_old _ _ _ _ H2); [by apply H1|]. rewrite (tk_next _ _ _ _ H1). lia.
  - intros n x [Hx|[Hn Hx]]%lookup_app_Some.
    + destruct (tk_new _ _ _ _ H1 _ _ Hx) as (y & Hy & Hl). exists y. split; [|done].
      rewrite (tk_old _ _ _ _ H2); [done|]. rewrite (tk_next _ _ _ _ H1). apply lookup_lt_Some in Hx. lia.
    + destruct (tk_new _ _ _ _ H2 _ _ Hx) as (y & Hy & Hl). exists y. split; [|done].
      rewrite <- Hy, (tk_next _ _ _ _ H1). f_equal. lia.
  - intros i Hi. destruct (tk_info _ _ _ _ H1 i Hi) as (i1 & Hs1 & He1).
    destruct (tk_info _ _ _ _ H2 i1) as (i2 & Hs2 & He2); [by eapply vget_vset_eq|].
    exists i2. split; [by eapply vset_vset|].
    rewrite (tk_next _ _ _ _ H1) in He2. by eapply entered_trans.
  - eapply fewer_trans; [apply H1|apply H2].
Qed.

(** ** One instruction *)

Lemma runs_updThread tid f s (Q : unit → Execute → Prop) :
  (∀ i l, vget (x_info s) tid = Ok i → vset (x_info s) tid (f i) = Ok l → Q tt (xu_info l s)) →
  runs (x_updThread tid f) s Q.
Proof.
  intros H. unfold x_updThread. apply runs_bind, runs_x_thread. intros i Hi.
  apply runs_bind, runs_get, runs_bind, runs_lift; [auto with ends|]. intros l Hl. by apply runs_mod, (H i).
Qed.

Lemma runs_getContext tid s (Q : TC TS → Execute → Prop) :
  (∀ tc, vget (x_threads s) tid = Ok tc → Q tc s) → runs (getContext tid) s Q.
Proof. intros H. unfold getContext. apply runs_bind, runs_get, runs_lift; auto with ends. Qed.

Lemma markup_le f sb inst t u r : markupInstDests f sb inst t u = Ok r → inst_le inst r.2.
Proof.
  unfold markupInstDests. destruct (isFault inst); [intros [= <-]; reflexivity|].
  destruct (mfold _ _ _) as [[sb' flat]|]; [|done]. intros [= <-]. by apply le_with_ex.
Qed.

Lemma runs_markup tid inst t u s (Q : DynInst → Execute → Prop) :
  (∀ inst' l, inst_le inst inst' → Q inst' (xu_scoreboard l s)) → runs (x_markup tid inst t u) s Q.
Proof.
  intros H. unfold x_markup. apply runs_bind, runs_get, runs_bind, runs_lift; [auto with ends|]. intros sb _.
  apply runs_bind, runs_getContext. intros tc _. apply runs_bind, runs_lift; [auto with ends|].
  intros r Hr%markup_le. apply runs_bind, runs_lift; [auto with ends|]. intros l _.
  by apply runs_bind, runs_mod, runs_ret, H.
Qed.

(** what issuing does not touch *)
Record aside s s' : Prop := {
  as_cfg : x_cfg s' = x_cfg s;
  as_units : length (x_funcUnits s') = length (x_funcUnits s);
  as_input : x_inputBuffer s' = x_inputBuffer s;
  as_threads : x_threads s' = x_threads s;
  as_branch : x_branch s' = x_branch s;
  as_prio : interruptPriority s' = interruptPriority s;
}.

(** the state after an instruction has entered the queues of its thread *)
Lemma put_one tid inst inst' i i' s s' : aside s s' →
  x_nextInst s' = x_nextInst s + 1 → x_insts s' = <[x_nextInst s := inst']> (x_insts s) → inst_le inst inst' →
  vget (x_info s) tid = Ok i → vset (x_info s) tid i' = Ok (x_info s') →
  entered (x_nextInst s) [inst] i i' → x_inputIndex i' = x_inputIndex i → put tid [inst] s s'.
Proof.
  intros [] Hn Hm Hle Hi Hl He Hx. split; [split; try done|done|].
  - intros p Hp. rewrite Hm, lookup_insert_ne; [done|lia].
  - intros [|k] x; [|done]. intros [= <-]. exists inst'. rewrite Hm, Z.add_0_r, lookup_insert_eq. done.
  - intros j Hj. rewrite Hi in Hj. injection Hj as <-. by exists i'.
  - by apply fewer_same.
  - intros j j' Hj Hj'. apply vget_vset_eq in Hl. rewrite Hi in Hj. rewrite Hl in Hj'.
    by injection Hj as <-; injection Hj' as <-.
Qed.

Lemma issueNoCost_runs e tid inst s : inst_isMemRef inst = false →
  runs (issueNoCost e tid inst) s (λ _ s', put tid [inst] s s').
Proof.
  intros Hm. unfold issueNoCost, markActivity. apply runs_bind, runs_bind, runs_get, runs_mod.
  apply runs_bind, runs_markup. intros inst' sb Hle. apply runs_bind, runs_get.
  unfold newInst. apply runs_bind, runs_bind, runs_get, runs_bind, runs_mod, runs_ret.
  unfold pushInFlight. apply runs_updThread. cbn. intros i l Hi Hl.
  eapply put_one with (6 := Hl); try done; cbn; [etrans; [done|by apply le_with_ex]|].
  split; try done; cbn; by rewrite ?Hm, ?app_nil_r.
Qed.

Lemma waitFor_runs tid inst s : runs (waitFor tid inst) s (λ inst' s', s' = s ∧ inst_le inst inst').
Proof.
  unfold waitFor. apply runs_bind, runs_get. destruct (allowEarlyMemIssue _); [|by apply runs_ret].
  apply runs_bind, runs_lift; [auto with ends|]. intros sb _. apply runs_bind, runs_getContext. intros tc _.
  apply runs_bind, runs_lift; [auto with ends|]. intros n _. apply runs_bind, runs_lift; [ends_tac|].
  intros b _. apply runs_ret. split; [done|]. by apply le_with_ex.
Qed.

Lemma enterUnit_runs tid inst p k f t u s :
  runs (enterUnit tid inst p k f t u) s (λ _ s', ∃ i inst', aside s s' ∧ x_nextInst s' = x_nextInst s
    ∧ x_insts s' = <[p := inst']> (x_insts s) ∧ inst_le inst inst' ∧ vget (x_info s) tid = Ok i
    ∧ vset (x_info s) tid (set_inFlight (Queue_push (inFlightInsts i) (Some p)) i) = Ok (x_info s')).
Proof.
  unfold enterUnit. apply runs_bind, runs_lift; [auto with ends|]. intros f' _. apply runs_bind.
  unfold x_setUnit. apply runs_bind, runs_get, runs_bind, runs_lift; [auto with ends|]. intros us Hus.
  apply runs_mod. apply runs_bind. unfold markActivity. apply runs_bind, runs_get, runs_mod.
  apply runs_bind, runs_markup. intros inst' sb Hle. apply runs_bind. unfold setInstAt.
  apply runs_bind, runs_instAt. intros x Hx. apply runs_mod. unfold pushInFlight.
  apply runs_updThread. cbn. intros i l Hi Hl. exists i, inst'. split_and!; try done.
  split; try done. cbn. by eapply vset_length.
Qed.

Lemma issueTo_runs e tid inst k f t s :
  runs (issueTo e tid inst k f t) s (λ _ s', put tid [inst] s s').
Proof.
  unfold issueTo. apply runs_bind.
  eapply runs_conseq with (Q := λ inst' s', s' = s ∧ inst_le inst inst').
  { destruct (inst_isMemRef inst).
    - eapply runs_conseq; [apply waitFor_runs|]. cbn. intros inst' s' _ [-> H]. split; [done|].
      etrans; [|done]. by apply le_with_ex.
    - apply runs_ret. split; [done|]. by apply le_with_ex. }
  cbn. intros inst1 s1 _ [-> H1]. unfold newInst.
  apply runs_bind, runs_bind, runs_get, runs_bind, runs_mod, runs_ret. apply runs_bind.
  destruct (inst_isMemRef inst) eqn:Hm.
  - unfold pushInFUMem. apply runs_updThread. cbn. intros i l Hi Hl. apply runs_bind.
    eapply runs_conseq; [apply enterUnit_runs|]. cbn. intros [] s' _ (i1 & inst' & [] & Hn & Hx & Hle & Hi1 & Hs).
    apply runs_ret. cbn in *. apply vget_vset_eq in Hl as Hi1'. rewrite Hi1' in Hi1. injection Hi1 as <-.
    apply (put_one tid inst inst' i _ s s') with (6 := vset_vset _ _ _ _ _ _ Hl Hs); try done.
    + by rewrite Hx, insert_insert_eq.
    + by etrans.
    + split; cbn; by rewrite ?Hm.
  - apply runs_ret, runs_bind.
    eapply runs_conseq; [apply enterUnit_runs|]. cbn. intros [] s' _ (i1 & inst' & [] & Hn & Hx & Hle & Hi1 & Hs).
    apply runs_ret. cbn in *. apply (put_one tid inst inst' i1 _ s s') with (6 := Hs); try done.
    + by rewrite Hx, insert_insert_eq.
    + by etrans.
    + split; cbn; by rewrite ?Hm, ?app_nil_r.
Qed.

(** ** The units *)

(** the outcome of trying unit [k] *)
Definition tried tid inst (k : Z) s (r : Z * bool * bool) s' : Prop :=
  let '(k', issued, mem) := r in
  if issued : bool then put tid [inst] s s' else s' = s ∧ k' = k ∧ mem = false.

Lemma tryUnit_runs e tid inst k s : noCostIsaOk →
  runs (tryUnit e tid inst k) s (λ r s', tried tid inst k s r s' ∧ 0 ≤ k < Z.of_nat (length (x_funcUnits s))).
Proof.
  intros HI. unfold tryUnit, x_unit. apply runs_bind, runs_bind, runs_get, runs_lift; [auto with ends|].
  intros f Hk%vget_bound. apply runs_bind.
  eapply runs_conseq with (Q := λ _ s', s' = s).
  { destruct (isFault inst); [by apply runs_ret|]. apply runs_bind, runs_lift; [auto with ends|]. intros.
    by apply runs_lift; [ends_tac|]. }
  cbn. intros capable s1 _ ->. destruct (isNoCostInst inst) eqn:Hno.
  { apply runs_bind. eapply runs_conseq; [apply issueNoCost_runs|].
    - apply andb_true_iff in Hno as [_ Hno%Z.eqb_eq]. unfold inst_isMemRef. by rewrite HI, andb_false_r.
    - intros [] s1 _ Hp. apply runs_bind, runs_get, runs_ret. by split. }
  apply runs_bind. eapply runs_conseq with (Q := λ _ s', s' = s).
  { destruct capable; [by apply runs_lift; [auto with ends|]|by apply runs_ret]. }
  cbn. intros pushed s1 _ ->. destruct pushed; [by apply runs_ret|].
  destruct (stalled _); [by apply runs_ret|]. destruct (negb _); [by apply runs_ret|]. apply runs_bind.
  eapply runs_conseq with (Q := λ _ s', s' = s).
  { destruct (isFault inst); [by apply runs_ret|]. by apply runs_lift; [auto with ends|]. }
  intros timing s1 _ ->.
  match goal with |- context [if match timing with _ => _ end then _ else _] =>
    destruct (match timing with Some t => suppress t | None => false end); [by apply runs_ret|] end.
  apply runs_bind, runs_get, runs_bind, runs_lift; [auto with ends|]. intros sb _.
  apply runs_bind, runs_getContext. intros tc _. apply runs_bind, runs_lift; [auto with ends|]. intros can _.
  destruct can; [|by apply runs_ret]. apply runs_bind. eapply runs_conseq; [apply issueTo_runs|].
  intros m s1 _ Hp. by apply runs_ret.
Qed.

(** the units fit their number, which is an [unsigned int] *)
Record units_ok s : Prop := {
  uo_len : Z.of_nat (length (x_funcUnits s)) = numFuncUnits (x_cfg s);
  uo_max : numFuncUnits (x_cfg s) < 2 ^ 32;
}.

Lemma tryUnits_runs e tid inst n k s : noCostIsaOk → units_ok s → 0 ≤ k → n ≠ O →
  numFuncUnits (x_cfg s) - k < Z.of_nat n →
  runs (tryUnits e tid inst n k) s (λ '(_, issued, mem) s',
    if issued : bool then put tid [inst] s s' else s' = s ∧ mem = false).
Proof.
  intros HI Hu. revert k. induction n as [|n IH]; intros k Hk H0 Hn; [done|]. cbn [tryUnits].
  apply runs_bind. eapply runs_conseq; [by apply tryUnit_runs|]. intros [[k' issued] mem] s1 _ [Ht Hkb].
  apply runs_bind, runs_get. cbn in Ht. destruct issued.
  { rewrite andb_false_r. by apply runs_ret. }
  destruct Ht as (-> & -> & ->). destruct Hu as [Hlen Hmax]. rewrite u32_id by lia.
  destruct (Z.eqb_spec (k + 1) (numFuncUnits (x_cfg s))); [by apply runs_ret|].
  apply IH; lia.
Qed.

(** ** One instruction of the input *)

(** whether an instruction of the input is issued rather than dropped *)
Definition live (tc : TC TS) (n : Z) inst : bool :=
  negb (isBubble inst) && negb (tc_suspended tc) && (streamSeqNum (id inst) =? n).

Lemma issueOne_runs e tid inst k i tc s : noCostIsaOk → units_ok s →
  vget (x_info s) tid = Ok i → vget (x_threads s) tid = Ok tc →
  runs (issueOne e tid inst k) s (λ '(_, issued, discarded, mem) s',
    put tid (if issued && live tc (x_streamSeqNum i) inst then [inst] else []) s s'
    ∧ (issued && negb discarded && negb (isBubble inst)) = (issued && live tc (x_streamSeqNum i) inst)
    ∧ (issued = false → mem = false)).
Proof.
  intros HI Hu Hi Htc. unfold issueOne, live. apply runs_bind, runs_x_thread. intros j Hj.
  rewrite Hi in Hj. injection Hj as <-.
  destruct (isBubble inst); [apply runs_ret; split; [apply put_refl|done]|].
  apply runs_bind, runs_getContext. intros tc' Htc'. rewrite Htc in Htc'. injection Htc' as <-.
  destruct (tc_suspended tc); [apply runs_ret; split; [apply put_refl|done]|].
  destruct (_ =? _) eqn:Es; cbn [negb andb]; [|apply runs_ret; split; [apply put_refl|done]].
  apply runs_bind, runs_get, runs_bind. eapply runs_conseq; [apply tryUnits_runs; [done|done|lia|done|lia]|].
  intros [[k' issued] mem] s1 _ Ht. apply runs_ret. destruct issued; cbn; [done|].
  destruct Ht as [-> ->]. by split; [apply put_refl|].
Qed.

(** ** The input of a thread *)

(** the instructions of thread [tid] that wait in its input *)
Definition waiting s (tid : Z) : list DynInst :=
  match vget (x_inputBuffer s) tid, vget (x_info s) tid with
  | Ok b, Ok i => drop (Z.to_nat (x_inputIndex i)) (concat (insts <$> contents b))
  | _, _ => []
  end.

(** the input of the thread, its index and its first line *)
Record facing s tid (b : InputBuffer (ForwardInstData I)) i line rest : Prop := {
  fc_buffer : vget (x_inputBuffer s) tid = Ok b;
  fc_info : vget (x_info s) tid = Ok i;
  fc_contents : contents b = line :: rest;
}.

Lemma facing_waiting s tid b i line rest inst : facing s tid b i line rest →
  vget (insts line) (x_inputIndex i) = Ok inst →
  waiting s tid = inst :: drop (S (Z.to_nat (x_inputIndex i))) (concat (insts <$> contents b)).
Proof.
  intros [Hb Hi Hc] [_ Hv]%vget_Ok. unfold waiting. rewrite Hb, Hi, Hc. cbn.
  apply drop_S. by apply lookup_app_l_Some.
Qed.

(** the number of instructions in the first line of a buffer *)
Definition firstWidth (b : InputBuffer (ForwardInstData I)) : Z :=
  match contents b with [] => 0 | line :: _ => width line end.

(** a line holds no more instructions than its array has elements, and the
    index of a thread is in the first line of its input *)
Record lines_ok s : Prop := {
  lo_width : ∀ t b line, vget (x_inputBuffer s) t = Ok b → line ∈ contents b → width line ≤ MAX_FORWARD_INSTS;
  lo_index : ∀ t b i, vget (x_inputBuffer s) t = Ok b → vget (x_info s) t = Ok i →
    0 ≤ x_inputIndex i ≤ firstWidth b;
}.

Lemma x_getInput_runs tid s :
  runs (x_getInput tid) s (λ l s', s' = s ∧ ∀ line, l = Some line →
    ∃ b rest, vget (x_inputBuffer s) tid = Ok b ∧ contents b = line :: rest).
Proof.
  unfold x_getInput, x_buffer. apply runs_bind, runs_bind, runs_get, runs_lift; [auto with ends|]. intros b Hb.
  destruct (IB_empty b); [by apply runs_ret|]. apply runs_bind, runs_lift; [auto with ends|].
  intros h [r Hr]%IB_front_inv. apply runs_ret. split; [done|]. intros line. destruct (isBubble h); [done|].
  intros [= ->]. eauto.
Qed.

(** a state that differs in the input only *)
Lemma took_input tid s s' i i' : x_cfg s' = x_cfg s → x_funcUnits s' = x_funcUnits s →
  x_threads s' = x_threads s → x_branch s' = x_branch s → interruptPriority s' = interruptPriority s →
  x_nextInst s' = x_nextInst s → x_insts s' = x_insts s → fewer tid s s' → vget (x_info s) tid = Ok i →
  vset (x_info s) tid i' = Ok (x_info s') → i' = set_inputIndex (x_inputIndex i') i → took tid [] s s'.
Proof.
  intros ? Hu ?????? Hi Hs He. apply took_same; try done; [by rewrite Hu|].
  intros j Hj. rewrite Hi in Hj. injection Hj as <-. exists i'. split; [done|]. by rewrite He.
Qed.

Lemma x_popInput_runs tid b i line rest s : facing s tid b i line rest → lines_ok s →
  runs (x_popInput tid) s (λ _ s', ∃ b', took tid [] s s' ∧ lines_ok s'
    ∧ vget (x_inputBuffer s') tid = Ok b' ∧ contents b' = rest ∧ vget (x_info s') tid = Ok (set_inputIndex 0 i)).
Proof.
  intros [Hb Hi Hc] Hok. unfold x_popInput, x_buffer.
  apply runs_bind, runs_bind, runs_get, runs_lift; [auto with ends|]. intros b0 Hb0.
  rewrite Hb in Hb0. injection Hb0 as <-. rewrite IB_empty_contents, Hc.
  do 2 apply runs_bind. apply runs_lift; [auto with ends|]. intros b' Hb'.
  apply runs_bind, runs_get, runs_bind, runs_lift; [auto with ends|]. intros l Hl. apply runs_mod.
  apply runs_updThread. cbn. intros j l' Hj Hl'. rewrite Hi in Hj. injection Hj as <-.
  assert (contents b' = rest) as Hr by (by eapply IB_pop_tail).
  exists b'. split_and!; cbn.
  - eapply took_input with (10 := Hl'); try done. intros t c Ht. cbn in Ht.
    destruct (vset_cases _ _ _ _ _ _ Hl Ht) as [[-> ->]|[_ Hv]]; [|by eauto].
    exists b. split; [done|]. right. split; [done|]. by eapply IB_pop_none.
  - split; intros t c; cbn.
    + intros ln Ht Hln. destruct (vset_cases _ _ _ _ _ _ Hl Ht) as [[-> ->]|[_ Hv]].
      * rewrite Hr in Hln. apply (lo_width _ Hok tid b); [done|]. rewrite Hc. by right.
      * by apply (lo_width _ Hok t c).
    + intros j Ht Hj. destruct (vset_cases _ _ _ _ _ _ Hl' Hj) as [[-> ->]|[Hne Hj']].
      { cbn. unfold firstWidth, width. destruct (contents c); lia. }
      destruct (vset_cases _ _ _ _ _ _ Hl Ht) as [[-> _]|[_ Hv]]; [done|]. by apply (lo_index _ Hok t c).
  - by eapply vget_vset_eq.
  - done.
  - by eapply vget_vset_eq.
Qed.

Lemma nextLine_runs tid b i line rest s : facing s tid b i line rest → lines_ok s →
  0 ≤ x_inputIndex i ≤ width line →
  runs (nextLine tid line) s (λ next s', took tid [] s s' ∧ lines_ok s' ∧ waiting s' tid = waiting s tid
    ∧ ∀ l, next = Some l → ∃ b' i' rest', facing s' tid b' i' l rest').
Proof.
  intros Hf Hok Hx. unfold nextLine. apply runs_bind, runs_x_thread. intros j Hj.
  rewrite (fc_info _ _ _ _ _ _ Hf) in Hj. injection Hj as <-. apply runs_bind, runs_get.
  destruct (Z.eqb_spec (x_inputIndex i) (width line)) as [Heq|].
  - apply runs_bind. eapply runs_conseq; [by eapply x_popInput_runs|].
    intros [] s1 _ (b1 & Ht & Hok1 & Hb1 & Hc1 & Hi1).
    assert (waiting s1 tid = waiting s tid) as Hw.
    { unfold waiting. destruct Hf as [-> -> Hc]. rewrite Hb1, Hi1, Hc, Hc1. cbn.
      unfold width in Heq. rewrite Heq, Nat2Z.id, drop_app_length. done. }
    destruct (x_processMoreThanOneInput _); [|by apply runs_ret].
    eapply runs_conseq; [apply x_getInput_runs|]. intros next s2 _ [-> Hn]. split_and!; try done.
    intros l Hl. destruct (Hn l Hl) as (b2 & r2 & Hb2 & Hc2). exists b2, (set_inputIndex 0 i), r2. by split.
  - apply runs_ret. split_and!; try done; [apply put_refl|]. intros l [= <-]. by exists b, i, rest.
Qed.

(** ** The loop *)

(** the state after the first part of a round: the index has moved on *)
Lemma advance_runs tid b i line rest inst w (issued : bool) s : facing s tid b i line rest → lines_ok s →
  vget (insts line) (x_inputIndex i) = Ok inst → waiting s tid = inst :: w →
  runs (do! (if issued then x_updThread tid (λ i, set_inputIndex (u32 (x_inputIndex i + 1)) i) else sret tt) in
        nextLine tid line) s
    (λ next s', took tid [] s s' ∧ lines_ok s' ∧ waiting s' tid = (if issued then w else inst :: w)
      ∧ ∀ l, next = Some l → ∃ b' i' rest', facing s' tid b' i' l rest').
Proof.
  intros Hf Hok Hinst Hw. pose proof (facing_waiting _ _ _ _ _ _ _ Hf Hinst) as Hw'.
  rewrite Hw in Hw'. injection Hw' as Hw'. apply vget_bound in Hinst as Hlt. fold (width line) in Hlt.
  apply runs_bind. destruct issued.
  - apply runs_updThread. intros j l Hj Hl. destruct Hf as [Hb Hi Hc]. rewrite Hi in Hj. injection Hj as <-.
    assert (width line ≤ MAX_FORWARD_INSTS) as Hmax by (apply (lo_width _ Hok tid b); [done|rewrite Hc; left]).
    unfold MAX_FORWARD_INSTS in Hmax. rewrite u32_id in Hl by lia.
    eapply runs_conseq.
    { eapply (nextLine_runs tid b).
      - split; [done| |done]. by eapply vget_vset_eq.
      - split; intros t c; cbn; [apply (lo_width _ Hok)|]. intros j Hcb Hj.
        destruct (vset_cases _ _ _ _ _ _ Hl Hj) as [[-> ->]|[_ Hj']]; [|by apply (lo_index _ Hok t)].
        rewrite Hb in Hcb. injection Hcb as <-. unfold firstWidth. rewrite Hc. cbn. lia.
      - cbn. lia. }
    intros next s' _ (Ht & Hok' & Hw2 & Hn). split_and!; try done.
    + apply (took_trans tid [] [] s (xu_info l s)); [|done]. eapply took_input with (10 := Hl); try done. by apply fewer_same.
    + rewrite Hw2, Hw'. unfold waiting. cbn. rewrite Hb, (vget_vset_eq _ _ _ _ Hl). cbn. f_equal. lia.
  - apply runs_ret. eapply runs_conseq; [by eapply nextLine_runs; [done..|lia]|].
    intros next s' _ (Ht & Hok' & Hw2 & Hn). by rewrite Hw2.
Qed.

Lemma put_facing tid l s s' b i line rest : put tid l s s' → facing s tid b i line rest →
  ∃ i', facing s' tid b i' line rest ∧ x_inputIndex i' = x_inputIndex i.
Proof.
  intros [Ht Hin Hix] [Hb Hi Hc]. destruct (tk_info _ _ _ _ Ht i Hi) as (i' & Hs & _).
  apply vget_vset_eq in Hs. exists i'. split; [|by apply Hix]. split; [by rewrite Hin|done|done].
Qed.

Lemma put_index tid l s s' t j : put tid l s s' → is_Ok (vget (x_info s) tid) → vget (x_info s') t = Ok j →
  ∃ j', vget (x_info s) t = Ok j' ∧ x_inputIndex j = x_inputIndex j'.
Proof.
  intros [Ht _ Hix] [i Hi] Hj. destruct (tk_info _ _ _ _ Ht i Hi) as (i' & Hs & _).
  destruct (vset_cases _ _ _ _ _ _ Hs Hj) as [[-> ->]|[_ Hv]]; [|by exists j].
  exists i. split; [done|]. apply Hix; [done|]. by eapply vget_vset_eq.
Qed.

(** what one round takes from the input, and what it issues *)
Definition roundDone tid tc n s (st : Issuing) (r : option (ForwardInstData I) * bool * Issuing) s' : Prop :=
  let '(next, issued, st') := r in
  ∃ l, waiting s tid = l ++ waiting s' tid ∧ (issued = true → length l = 1%nat)
  ∧ took tid (List.filter (live tc n) l) s s'
  ∧ is_issued st' = is_issued st + Z.of_nat (length (List.filter (live tc n) l))
  ∧ (length (List.filter (live tc n) l) ≤ 1)%nat
  ∧ lines_ok s' ∧ ∀ line, next = Some line → ∃ b i rest, facing s' tid b i line rest.

Lemma issueRound_runs e tid line st b i rest tc s : noCostIsaOk → units_ok s → lines_ok s →
  facing s tid b i line rest → vget (x_threads s) tid = Ok tc → 0 ≤ is_issued st < 2 ^ 32 - 1 →
  runs (issueRound e tid line st) s (λ r s', roundDone tid tc (x_streamSeqNum i) s st r s').
Proof.
  intros HI Hu Hok Hf Htc Hst. unfold issueRound. apply runs_bind, runs_x_thread. intros j Hj.
  rewrite (fc_info _ _ _ _ _ _ Hf) in Hj. injection Hj as <-.
  apply runs_bind, runs_lift; [auto with ends|]. intros inst Hinst. apply runs_bind.
  pose proof (facing_waiting _ _ _ _ _ _ _ Hf Hinst) as Hw.
  eapply runs_conseq; [by apply issueOne_runs; [done..|apply Hf|]|].
  intros [[[k issued] discarded] mem] s1 _ (Hp & Hlive & _). apply runs_bind.
  eapply runs_conseq with (Q := λ _ s2, ∃ l, s2 = xu_lsq l s1).
  { destruct (_ && isFullMemBarrier _).
    - unfold runs, callLsq. pose proof (ends_issuedMemBarrierInst inst (x_lsq s1)) as He.
      destruct (issuedMemBarrierInst inst (x_lsq s1)) as [[? l]|]; [by exists l|]. unfold ends in He. congruence.
    - apply runs_ret. exists (x_lsq s1). by destruct s1. }
  intros [] s2 _ [lsq' ->]. rewrite Hlive.
  destruct (put_facing _ _ _ _ _ _ _ _ Hp Hf) as (i1 & Hf1 & Hx1).
  pose proof (λ t j, put_index _ _ _ _ t j Hp (ex_intro _ i (fc_info _ _ _ _ _ _ Hf))) as Hpi.
  destruct Hp as [Ht Hin _].
  set (s2 := xu_lsq lsq' s1).
  assert (facing s2 tid b i1 line rest) as Hf2 by (by destruct Hf1).
  assert (lines_ok s2) as Hok2.
  { split; intros t c; cbn; rewrite Hin; [apply (lo_width _ Hok)|]. intros j Hcb Hj.
    destruct (Hpi t j) as (j' & Hj' & ->); [done|].
    by apply (lo_index _ Hok t). }
  rewrite <- Hx1 in Hinst. pose proof (facing_waiting _ _ _ _ _ _ _ Hf2 Hinst) as Hw2.
  rewrite Hx1 in Hw2.
  apply runs_assoc, runs_bind. eapply runs_conseq; [by eapply advance_runs|].
  intros next s3 _ (Ht3 & Hok3 & Hw3 & Hn). apply runs_ret.
  assert (∀ l, took tid l s s1 → took tid l s s3) as Htook.
  { intros l Hl. rewrite <- (app_nil_r l). eapply took_trans; [|done]. by destruct Hl. }
  exists (if issued then [inst] else []). rewrite Hw, Hw3.
  destruct issued; cbn in *; [destruct (live tc (x_streamSeqNum i) inst); cbn in *|];
    split_and!; try done; try (by apply Htook); try lia. rewrite u32_id; lia.
Qed.

(** the number [r] of instructions that left the input of [tid] for the units,
    after [k] earlier ones; [tc] and [n] are the thread's context and stream *)
Definition issuedFrom tid tc n (k : Z) s (r : Z) s' : Prop :=
  ∃ l, waiting s tid = l ++ waiting s' tid ∧ took tid (List.filter (live tc n) l) s s'
  ∧ r = k + Z.of_nat (length (List.filter (live tc n) l)) ∧ r ≤ issueLimit (x_cfg s) ∧ lines_ok s'.

Lemma took_units tid l s s' : took tid l s s' → units_ok s → units_ok s'.
Proof. intros [] []. split; congruence. Qed.

Lemma took_facing tid l s s' i b i' line rest : took tid l s s' → vget (x_info s) tid = Ok i →
  facing s' tid b i' line rest → x_streamSeqNum i' = x_streamSeqNum i.
Proof.
  intros Ht Hi [_ Hi' _]. destruct (tk_info _ _ _ _ Ht i Hi) as (j & Hs%vget_vset_eq & He).
  rewrite Hs in Hi'. injection Hi' as <-. apply He.
Qed.

Lemma issueLoop_runs e tid fuel line st b i rest tc s : noCostIsaOk → units_ok s → lines_ok s →
  facing s tid b i line rest → vget (x_threads s) tid = Ok tc →
  0 ≤ is_issued st < issueLimit (x_cfg s) → issueLimit (x_cfg s) < 2 ^ 32 →
  (length (waiting s tid) < fuel)%nat →
  runs (issueLoop e fuel tid line st) s (issuedFrom tid tc (x_streamSeqNum i) (is_issued st) s).
Proof.
  intros HI. revert line st b i rest s. induction fuel as [|fuel IH];
    intros line st b i rest s Hu Hok Hf Htc Hst Hlim Hfuel; [lia|].
  cbn [issueLoop]. apply runs_bind. eapply runs_conseq; [eapply issueRound_runs; try done; lia|].
  intros [[next issued] st'] s1 _ (l & Hw & Hone & Ht & Hn & Hle & Hok1 & Hnext).
  apply runs_bind, runs_x_thread. intros i1 Hi1. apply runs_bind, runs_get.
  assert (issuedFrom tid tc (x_streamSeqNum i) (is_issued st) s (is_issued st') s1) as Hdone.
  { exists l. split_and!; try done. lia. }
  destruct next as [line'|]; [|by apply runs_ret]. destruct (_ && _) eqn:Ec; [|by apply runs_ret].
  rewrite !andb_true_iff, !negb_true_iff, !Z.eqb_neq, (tk_cfg _ _ _ _ Ht) in Ec. destruct Ec as [[[_ ->] Hnl] _].
  destruct (Hnext line' eq_refl) as (b' & i' & rest' & Hf'). specialize (Hone eq_refl).
  pose proof (took_facing _ _ _ _ _ _ _ _ _ Ht (fc_info _ _ _ _ _ _ Hf) Hf') as Hstream.
  eapply runs_conseq; [eapply IH; try done|].
  - by eapply took_units.
  - by rewrite (tk_threads _ _ _ _ Ht).
  - rewrite (tk_cfg _ _ _ _ Ht). lia.
  - by rewrite (tk_cfg _ _ _ _ Ht).
  - rewrite Hw, length_app in Hfuel. lia.
  - rewrite Hstream. intros r s2 _ (l2 & Hw2 & Ht2 & Hr2 & Hr2' & Hok2). exists (l ++ l2).
    rewrite List.filter_app, length_app, Hw, Hw2, app_assoc. rewrite (tk_cfg _ _ _ _ Ht) in Hr2'.
    split_and!; try done; [by eapply took_trans|lia].
Qed.

Lemma concat_length {A B} (f : A → list B) l : length (concat (f <$> l)) = sum_list (length ∘ f <$> l).
Proof. induction l as [|a l IH]; cbn; [done|]. by rewrite length_app, IH. Qed.

(** [issue] returns, and takes a prefix of the instructions that wait *)
Lemma issue_runs e tid i tc s : noCostIsaOk → units_ok s → lines_ok s →
  vget (x_info s) tid = Ok i → vget (x_threads s) tid = Ok tc → 1 ≤ issueLimit (x_cfg s) < 2 ^ 32 →
  runs (issue e tid) s (issuedFrom tid tc (x_streamSeqNum i) 0 s).
Proof.
  intros HI Hu Hok Hi Htc Hlim. unfold issue. apply runs_bind. eapply runs_conseq; [apply x_getInput_runs|].
  intros l s1 _ [-> Hl]. destruct l as [line|].
  - destruct (Hl line eq_refl) as (b & rest & Hb & Hc). apply runs_bind, runs_get.
    apply (issueLoop_runs e tid _ line (mkIssuing 0 0 0) b i rest tc s); try done; [cbn; lia|lia|].
    unfold waiting, issueFuel. rewrite Hb, Hi, length_drop, concat_length. lia.
  - apply runs_ret. exists []. split_and!; try done; [apply put_refl|cbn; lia].
Qed.
End issue.
