(* ===== verification/ExecuteFlow.v ===== *)
(** * The path of the instructions

    How instructions go from the input of a thread to its queue of instructions
    in flight and out of it: a relation between two states that composes. *)
From stdpp Require Import gmap.
From S2P Require Import Prelude TimeBuf Buffers Activity LVPT CVU PipeData Cpu Scoreboard FuncUnit.
From S2P Require Import LsqAddr LsqRequest Lsq Runs Execute ExecuteFrame ExecuteCommit ExecuteIssue.

Section flow.
Context `{I : Isa} {TS : ThreadSem I}.
Notation DynInst := (MyMinorDynInst I).
Implicit Types (s : Execute) (i : ExecuteThreadInfo) (x y inst : DynInst).

(** the queue of instructions in flight of thread [t] *)
Definition flying s (t : Z) : list QueuedInst :=
  match vget (x_info s) t with Ok i => queue (inFlightInsts i) | Stop _ => [] end.

(** the instruction [x] has been allocated at [p] *)
Definition isAt s (p : Z) x : Prop := p < x_nextInst s ∧ ∃ y, x_insts s !! p = Some y ∧ inst_le x y.

(** the allocated instructions stay *)
Record stay s s' : Prop := {
  sy_next : x_nextInst s ≤ x_nextInst s';
  sy_insts : ∀ p x, p < x_nextInst s → x_insts s !! p = Some x → ∃ y, x_insts s' !! p = Some y ∧ inst_le x y;
}.

Lemma stay_at s s' p x : stay s s' → isAt s p x → isAt s' p x.
Proof.
  intros [Hn Hi] [Hp (y & Hy & Hl)]. split; [lia|]. destruct (Hi p y Hp Hy) as (z & Hz & Hl').
  exists z. split; [done|]. by etrans.
Qed.

Lemma stay_same s s' : x_nextInst s' = x_nextInst s → x_insts s' = x_insts s → stay s s'.
Proof. intros Hn Hx. split; [lia|]. intros p x _ Hp. exists x. by rewrite Hx. Qed.

#[export] Instance stay_preorder : PreOrder stay.
Proof.
  split.
  - intros s. split; [done|]. intros p x _ Hx. by exists x.
  - intros s s1 s2 H1 H2. split; [etrans; [apply H1|apply H2]|]. intros p x Hp Hx.
    destruct (stay_at s1 s2 p x) as [_ H]; [done| |done].
    split; [|by apply H1]. pose proof (sy_next _ _ H1). lia.
Qed.

(** Thread [t] has been given the instructions [fed].  It has taken a prefix of
    what waited, has allocated the instructions [l] of that prefix at [ps] and
    has put them behind those in flight, the first of which have left. *)
Record flow t (fed : list DynInst) s s' : Prop := {
  fl_stay : stay s s';
  fl_path : ∃ c l ps, waiting s t ++ fed = c ++ waiting s' t ∧ l `sublist_of` c ∧ Forall2 (isAt s') ps l
    ∧ flying s' t `suffix_of` flying s t ++ (Some <$> ps);
}.

Lemma flow_same t s s' : stay s s' → waiting s' t = waiting s t → flying s' t `suffix_of` flying s t →
  flow t [] s s'.
Proof.
  intros Hs Hw Hf. split; [done|]. exists [], [], []. rewrite Hw. cbn. by rewrite !app_nil_r.
Qed.

Lemma flow_trans t f f' s s1 s2 : flow t f s s1 → flow t f' s1 s2 → flow t (f ++ f') s s2.
Proof.
  intros [Hs (c & l & ps & Hw & Hl & Hps & Hf)] [Hs' (c' & l' & ps' & Hw' & Hl' & Hps' & Hf')].
  split; [by etrans|]. exists (c ++ c'), (l ++ l'), (ps ++ ps'). split_and!.
  - by rewrite app_assoc, Hw, <- !app_assoc, Hw'.
  - by apply sublist_app.
  - apply Forall2_app; [|done]. eapply Forall2_impl; [done|]. intros. by eapply stay_at.
  - etrans; [done|]. destruct Hf as [k Hk]. exists k.
    by rewrite fmap_app, (app_assoc (flying s t)), Hk, app_assoc.
Qed.

(** ** The parts *)

Lemma flow_equal t s s' : x_info s' = x_info s → x_inputBuffer s' = x_inputBuffer s → stay s s' → flow t [] s s'.
Proof.
  intros Hi Hin Hs. apply flow_same; [done|..]; unfold waiting, flying; by rewrite ?Hi, ?Hin.
Qed.

Lemma passed_flow t s s' : passed s s' → flow t [] s s'.
Proof.
  intros [_ Hx Hn Hi _ _ Hin _]. apply flow_same.
  - split; [lia|]. intros p x _ Hp. specialize (Hx p). rewrite Hp in Hx. inversion Hx; subst. eauto.
  - unfold waiting. rewrite Hin. destruct (vget (x_info s) t) as [i|] eqn:E.
    + apply vget_Ok in E as [Ht E]. destruct (Forall2_lookup_l _ _ _ _ _ Hi E) as (i' & Hi' & [Hx' _ _]).
      assert (vget (x_info s') t = Ok i') as -> by (by apply vget_Ok). by rewrite Hx'.
    + destruct (vget (x_info s') t) as [i'|] eqn:E'; [|done].
      apply vget_Ok in E' as [Ht E']. destruct (Forall2_lookup_r _ _ _ _ _ Hi E') as (i & Hi' & _).
      assert (vget (x_info s) t = Ok i) by (by apply vget_Ok). congruence.
  - unfold flying. destruct (vget (x_info s') t) as [i'|] eqn:E'; [|apply suffix_nil].
    apply vget_Ok in E' as [Ht E']. destruct (Forall2_lookup_r _ _ _ _ _ Hi E') as (i & Hi' & [_ _ Hq]).
    assert (vget (x_info s) t = Ok i) as -> by (by apply vget_Ok). done.
Qed.

(** the pointers from [n] on to the instructions [l] *)
Lemma ptrs_at s n l : (∀ k x, l !! k = Some x → isAt s (n + Z.of_nat k) x) →
  ∃ ps, ptrs n l = Some <$> ps ∧ Forall2 (isAt s) ps l.
Proof.
  revert n. induction l as [|x l IH]; intros n Hl; [by exists []|].
  destruct (IH (n + 1)) as (ps & Hps & Hat).
  { intros k y Hy. specialize (Hl (S k) y Hy). by replace (n + 1 + Z.of_nat k) with (n + Z.of_nat (S k)) by lia. }
  exists (n :: ps). cbn [ptrs]. rewrite Hps. split; [done|]. constructor; [|done].
  specialize (Hl 0%nat x eq_refl). by rewrite Z.add_0_r in Hl.
Qed.

Lemma took_stay tid l s s' : took tid l s s' → stay s s'.
Proof.
  intros Ht. split; [rewrite (tk_next _ _ _ _ Ht); lia|]. intros p x Hp Hx.
  exists x. by rewrite (tk_old _ _ _ _ Ht).
Qed.

(** the thread that issues *)
Lemma took_flow tid i c l s s' : took tid l s s' → vget (x_info s) tid = Ok i →
  waiting s tid = c ++ waiting s' tid → l `sublist_of` c → flow tid [] s s'.
Proof.
  intros Ht Hi Hw Hl. split; [by eapply took_stay|].
  destruct (ptrs_at s' (x_nextInst s) l) as (ps & Hps & Hat).
  { intros k x Hk. split; [|by apply Ht]. rewrite (tk_next _ _ _ _ Ht). apply lookup_lt_Some in Hk. lia. }
  exists c, l, ps. split_and!; [by rewrite app_nil_r|done..|].
  destruct (tk_info _ _ _ _ Ht i Hi) as (i' & Hs%vget_vset_eq & He). unfold flying. rewrite Hi, Hs, <- Hps.
  by rewrite (en_inFlight _ _ _ _ He).
Qed.

(** the other threads *)
Lemma took_others tid i l s s' t : took tid l s s' → vget (x_info s) tid = Ok i → t ≠ tid → flow t [] s s'.
Proof.
  intros Ht Hi Hne. split; [by eapply took_stay|].
  destruct (tk_info _ _ _ _ Ht i Hi) as (i' & Hs & _). pose proof (vget_vset_ne _ _ _ _ _ Hs (not_eq_sym Hne)) as He.
  assert (flying s' t = flying s t) as Hf by (unfold flying; by rewrite He).
  destruct (vget (x_inputBuffer s') t) as [b'|] eqn:Eb.
  - destruct (tk_input _ _ _ _ Ht t b' Eb) as (b & Hb & [->|[-> _]]); [|done].
    exists [], [], []. rewrite Hf. cbn. rewrite !app_nil_r. unfold waiting. by rewrite He, Eb, Hb.
  - exists (waiting s t), [], []. rewrite Hf. cbn. rewrite !app_nil_r. unfold waiting at 3. rewrite Eb.
    split_and!; [by rewrite app_nil_r|apply sublist_nil_l|constructor|done].
Qed.

Lemma took_flows tid i c l s s' : took tid l s s' → vget (x_info s) tid = Ok i →
  waiting s tid = c ++ waiting s' tid → l `sublist_of` c → ∀ t, flow t [] s s'.
Proof. intros Ht Hi Hw Hl t. destruct (decide (t = tid)) as [->|]; [by eapply took_flow|by eapply took_others]. Qed.
End flow.
