(* ===== verification/ExecuteStage.v ===== *)
(** * One cycle of Execute

    [Execute_evaluate] returns: its loops end.  A cycle of a CPU that does not
    drain tells Fetch1 of exactly the changes of stream that it makes. *)
From stdpp Require Import gmap.
From S2P Require Import Prelude TimeBuf Buffers Activity LVPT CVU PipeData Cpu Scoreboard FuncUnit.
From S2P Require Import LsqAddr LsqRequest Lsq Runs Execute ExecuteFrame ExecuteCommit ExecuteIssue ExecuteFlow.

Section stage.
Context `{I : Isa} {TS : ThreadSem I}.
Notation DynInst := (MyMinorDynInst I).
Implicit Types (s : Execute) (e : ExecEnv) (i : ExecuteThreadInfo) (x y inst : DynInst).

(** ** Code beside commit and issue *)

Record misc s s' : Prop := {
  mi_cfg : x_cfg s' = x_cfg s;
  mi_info : x_info s' = x_info s;
  mi_input : x_inputBuffer s' = x_inputBuffer s;
  mi_threads : x_threads s' = x_threads s;
  mi_branch : x_branch s' = x_branch s;
  mi_units : length (x_funcUnits s') = length (x_funcUnits s);
  mi_prio : interruptPriority s' = interruptPriority s;
  mi_insts : x_insts s' = x_insts s;
  mi_next : x_nextInst s' = x_nextInst s;
}.

#[export] Instance misc_preorder : PreOrder misc.
Proof. split; [by intros s; split|]. intros s s1 s2 [] []. split; congruence. Qed.

Lemma misc_callLsq {A} (m : St (LSQ I) A) : endsM m → keepsM misc (callLsq m).
Proof.
  intros H s. unfold runs, callLsq. specialize (H (x_lsq s)). destruct (m (x_lsq s)) as [[a l]|z]; [by split|].
  unfold ends in H. congruence.
Qed.

Lemma misc_instAt p : keepsM misc (instAt p).
Proof. intros s. unfold runs, instAt. destruct (x_insts s !! p); [reflexivity|done]. Qed.

Lemma misc_setUnit k f : keepsM misc (x_setUnit k f).
Proof. intros s. unfold x_setUnit. repeat runs_step. split; try done. cbn. by eapply vset_length. Qed.

Lemma misc_flags w a s : misc s (xu_flags w a s).
Proof. by split. Qed.

Lemma misc_priorities f g s : misc s (xu_priorities (interruptPriority s) (f s) (g s) s).
Proof. by split. Qed.
End stage.

#[export] Hint Resolve misc_instAt misc_setUnit : keeps.
#[export] Hint Extern 2 (keepsM misc (callLsq _)) => apply misc_callLsq; ends_tac : keeps.
#[export] Hint Extern 2 (keepsM misc (smod _)) => apply keeps_mod; intros; by split : keeps.

Section parts.
Context `{I : Isa} {TS : ThreadSem I}.
Notation DynInst := (MyMinorDynInst I).
Implicit Types (s : Execute) (e : ExecEnv) (i : ExecuteThreadInfo) (x y inst : DynInst).

Lemma misc_canCommit tid : keepsM misc (canCommit tid).
Proof. keeps_tac. Qed.

Lemma misc_firstThread (f : Z → St Execute bool) l : (∀ t, keepsM misc (f t)) → keepsM misc (firstThread f l).
Proof. intros H. induction l; cbn; keeps_tac. Qed.

Lemma misc_getCommittingThread e : keepsM misc (getCommittingThread e).
Proof.
  unfold getCommittingThread. keeps_tac; apply misc_firstThread, misc_canCommit.
Qed.

Lemma misc_nextIssuable l : keepsM misc (nextIssuable l).
Proof. induction l; cbn [nextIssuable]; keeps_tac. Qed.

Lemma misc_couldIssue e f l : keepsM misc (couldIssue e f l).
Proof. induction l; cbn [couldIssue]; keeps_tac. Qed.

Lemma misc_advanceUnits e l ks : keepsM misc (advanceUnits e l ks).
Proof. induction ks; cbn [advanceUnits]; keeps_tac. apply misc_couldIssue. Qed.

Lemma misc_headMightCommit l b : keepsM misc (headMightCommit l b).
Proof. revert b. induction l; intros b; cbn [headMightCommit]; keeps_tac. Qed.

Lemma misc_LSQ_step env : keepsM misc (callLsq (LSQ_step env)).
Proof. keeps_tac. Qed.

Lemma misc_wakeup : keepsM misc wakeupExecute.
Proof. keeps_tac. Qed.

Lemma misc_hasInterrupt e tid : keepsM misc (hasInterrupt e tid).
Proof. keeps_tac. Qed.

Lemma misc_isInbetweenInsts tid : keepsM misc (isInbetweenInsts tid).
Proof. keeps_tac. Qed.
End parts.

(** ** Sizes *)

Section cycle.
Context `{I : Isa} {TS : ThreadSem I}.
Notation DynInst := (MyMinorDynInst I).
Implicit Types (s : Execute) (e : ExecEnv) (i : ExecuteThreadInfo) (x y inst : DynInst).

Record sized s : Prop := {
  sz_units : units_ok s;
  sz_lines : lines_ok s;
  sz_prio : 0 ≤ interruptPriority s < x_numThreads (x_cfg s);
  sz_limit : 1 ≤ issueLimit (x_cfg s) < 2 ^ 32;
  sz_info : Z.of_nat (length (x_info s)) = x_numThreads (x_cfg s);
  sz_threads : Z.of_nat (length (x_threads s)) = x_numThreads (x_cfg s);
}.

(** what the surroundings of a cycle promise *)
Record env_ok e : Prop := {
  eo_events : eventsSettle e;
  eo_interrupt : ∀ tid tc, x_checkInterrupts e tid tc = true → faultSet (x_getInterrupt e tid tc) = true;
}.

(** the drain states of the threads *)
Definition drains s : list DrainState := drainState <$> x_info s.

Record going s s' : Prop := {
  go_sized : sized s';
  go_drains : drains s' = drains s;
  go_told : told s s';
}.

Lemma misc_sized s s' : misc s s' → sized s → sized s'.
Proof.
  intros [] [[] [Hl Hx] ? ? ? ?]. split; [split; congruence| |congruence..].
  by split; rewrite mi_input0, ?mi_info0.
Qed.

Lemma misc_told s s' : misc s s' → changing s = false → told s s'.
Proof.
  intros [] Hs. unfold told, changing. rewrite mi_branch0. unfold changing in Hs. rewrite Hs.
  unfold streams. by rewrite mi_info0.
Qed.

Lemma misc_going s s' : misc s s' → sized s → changing s = false → going s s'.
Proof.
  intros Hm Hz Hs. split; [by eapply misc_sized| |by apply misc_told].
  unfold drains. by rewrite (mi_info _ _ Hm).
Qed.

Lemma going_trans s s1 s2 : going s s1 → changing s1 = false → going s1 s2 → going s s2.
Proof. intros [Hz Hd Ht] Hs [Hz' Hd' Ht']. split; [done|congruence|by eapply told_trans]. Qed.

Lemma going_misc s s1 s2 : going s s1 → misc s1 s2 → going s s2.
Proof.
  intros [Hz Hd Ht] Hm. split; [by eapply misc_sized| |].
  - unfold drains in *. by rewrite (mi_info _ _ Hm).
  - eapply told_keep; [done|apply Hm|]. unfold streams. by rewrite (mi_info _ _ Hm).
Qed.

Lemma misc_changing s s' : misc s s' → changing s' = changing s.
Proof. intros Hm. unfold changing. by rewrite (mi_branch _ _ Hm). Qed.

Lemma passed_sized s s' : passed s s' → sized s → sized s'.
Proof.
  intros [Hc _ _ Hi Ht Hu Hin Hp] [[] [Hl Hx] ? ? ? ?]. split; [split; congruence| |congruence|congruence| |congruence].
  - split; rewrite Hin; [done|]. intros t b i Hb [H0 Hv]%vget_Ok.
    destruct (Forall2_lookup_r _ _ _ _ _ Hi Hv) as (j & Hj & [-> _ _]). apply (Hx t); [done|]. by apply vget_Ok.
  - by rewrite <- (Forall2_length _ _ _ Hi), Hc.
Qed.

Lemma passed_going s s' : passed s s' → told s s' → sized s → going s s'.
Proof.
  intros Hp Ht Hz. split; [by eapply passed_sized| |done].
  pose proof (pa_info _ _ Hp) as Hi. unfold drains. induction Hi as [|i i' l l' [_ Hd] _ IH]; cbn; [done|].
  by rewrite Hd, IH.
Qed.

(** ** What every part does to the instructions *)

Record moves s s' : Prop := {
  mv_sized : sized s';
  mv_flow : ∀ t, flow t [] s s';
  mv_input : ∀ t b', vget (x_inputBuffer s') t = Ok b' →
    ∃ b, vget (x_inputBuffer s) t = Ok b ∧ (b' = b ∨ elementPtr b' = None);
}.

Lemma moves_trans s s1 s2 : moves s s1 → moves s1 s2 → moves s s2.
Proof.
  intros [Hz Hf Hi] [Hz' Hf' Hi']. split; [done|intros t; by apply (flow_trans t [] [] s s1)|].
  intros t b2 (b1 & (b & Hb & H)%Hi & H')%Hi'. exists b. split; [done|]. naive_solver.
Qed.

Lemma moves_equal s s' : sized s' → x_info s' = x_info s → x_inputBuffer s' = x_inputBuffer s → stay s s' → moves s s'.
Proof.
  intros Hz Hi Hin Hs. split; [done|intros; by apply flow_equal|]. intros t b'. rewrite Hin. eauto.
Qed.

Lemma misc_moves s s' : misc s s' → sized s → moves s s'.
Proof.
  intros Hm Hz. apply moves_equal; [by eapply misc_sized|apply Hm..|]. apply stay_same; apply Hm.
Qed.

Lemma moves_refl s : sized s → moves s s.
Proof. by apply misc_moves. Qed.

Lemma passed_moves s s' : passed s s' → sized s → moves s s'.
Proof.
  intros Hp Hz. split; [by eapply passed_sized|intros; by apply passed_flow|].
  intros t b'. rewrite (pa_input _ _ Hp). eauto.
Qed.

Lemma took_sized tid l s s' : took tid l s s' → lines_ok s' → is_Ok (vget (x_info s) tid) → sized s → sized s'.
Proof.
  intros Ht Hl [i Hi] [Hu _ ? ? Hn Hth]. destruct (tk_info _ _ _ _ Ht i Hi) as (i' & Hs%vset_length & _).
  split; [by eapply took_units|done|..]; rewrite ?(tk_cfg _ _ _ _ Ht), ?(tk_prio _ _ _ _ Ht), ?(tk_threads _ _ _ _ Ht), ?Hs; done.
Qed.

Lemma branch_moves b s : sized s → moves s (xu_branch b s).
Proof.
  intros [[] [] ? ? ? ?]. apply moves_equal; [|done..|by apply stay_same]. by split; [split|split|..].
Qed.

Lemma took_moves tid i c l s s' : took tid l s s' → lines_ok s' → vget (x_info s) tid = Ok i →
  waiting s tid = c ++ waiting s' tid → l `sublist_of` c → sized s → moves s s'.
Proof.
  intros Ht Hl Hi Hw Hs Hz. split; [eapply took_sized; try done; by exists i|by eapply took_flows|].
  intros t b' (b & Hb & H)%(tk_input _ _ _ _ Ht). exists b. naive_solver.
Qed.

Lemma updThread_moves tid f s : sized s →
  (∀ i, inFlightInsts (f i) = inFlightInsts i ∧ x_inputIndex (f i) = x_inputIndex i) →
  runs (x_updThread tid f) s (λ _ s', moves s s' ∧ x_branch s' = x_branch s).
Proof.
  intros [[] [Hl Hx] ? ? Hi ?] Hf. apply runs_updThread. intros i l Hv Hs. split; [|done].
  assert (∀ t j, vget l t = Ok j → ∃ j', vget (x_info s) t = Ok j'
    ∧ inFlightInsts j = inFlightInsts j' ∧ x_inputIndex j = x_inputIndex j') as Hj.
  { intros t j Hj. destruct (vset_cases _ _ _ _ _ _ Hs Hj) as [[-> ->]|[_ Hj']]; [|by exists j].
    exists i. split; [done|]. apply Hf. }
  split.
  - split; try done; [split; [done|]|]; cbn.
    + intros t b j Hb (j' & Hj' & _ & ->)%Hj. by apply (Hx t).
    + by rewrite (vset_length _ _ _ _ Hs).
  - intros t. apply vset_fmap with (f := λ i, (queue (inFlightInsts i), x_inputIndex i)) in Hs.
    destruct (Hf i) as [Hq Hn]. rewrite Hq, Hn, vset_self in Hs; [|by rewrite vget_fmap, Hv].
    injection Hs as Hs. pose proof (vget_fmap (λ i, (queue (inFlightInsts i), x_inputIndex i)) (x_info s) t) as H1.
    rewrite Hs, vget_fmap in H1.
    apply flow_same; [by apply stay_same|..]; unfold waiting, flying; cbn;
      destruct (vget l t), (vget (x_info s) t); cbn in H1; try done; injection H1 as H1 H2; by rewrite ?H1, ?H2.
  - intros t b'. cbn. eauto.
Qed.

(** ** Interrupts *)

Lemma hasInterrupt_runs e tid s :
  runs (hasInterrupt e tid) s (λ b s', s' = s ∧
    (b = true → ∃ tc, vget (x_threads s) tid = Ok tc ∧ x_checkInterrupts e tid tc = true)).
Proof.
  unfold hasInterrupt. destruct (x_hasController e tid); [|by apply runs_ret].
  apply runs_bind, runs_x_thread. intros i _. unfold isInterrupted.
  apply runs_bind, runs_bind, runs_getContext. intros tc Htc. apply runs_ret, runs_ret. split; [done|].
  intros [_ Hb]%andb_true_iff. eauto.
Qed.

Lemma isInbetween_runs tid s : runs (isInbetweenInsts tid) s (λ _ s', s' = s).
Proof. unfold isInbetweenInsts. apply runs_bind, runs_x_thread. intros i _. by apply runs_bind, runs_get, runs_ret. Qed.

(** a taken interrupt: the context and the stream of its thread change *)
Lemma takeInterrupt_runs e tid tc s : env_ok e → sized s → changing s = false →
  vget (x_threads s) tid = Ok tc → x_checkInterrupts e tid tc = true →
  runs (takeInterrupt e tid) s (λ t s', t = true ∧ 0 ≤ tid < x_numThreads (x_cfg s) ∧ passed s s' ∧ told s s').
Proof.
  intros He Hz Hs Htc Hi. unfold takeInterrupt. apply runs_bind, runs_getContext. intros tc' Htc'.
  rewrite Htc in Htc'. injection Htc' as <-. rewrite (eo_interrupt _ He _ _ Hi).
  apply runs_bind. unfold setContext. apply runs_bind, runs_get, runs_bind, runs_lift; [auto with ends|].
  intros l Hl. apply runs_mod, runs_bind, runs_get, runs_bind, runs_assert. intros _. apply runs_bind.
  eapply runs_conseq; [by apply updateBranchData_runs|]. intros [] s' _ [[Hf Ht] _].
  apply runs_ret. apply vget_bound in Htc. rewrite (sz_threads _ Hz) in Htc. split_and!; try done; try lia.
  etrans; [|by apply frame_passed]. split; try done; [reflexivity..|]. by eapply vset_length.
Qed.

Lemma rounds_step n p t : 0 < n → 0 ≤ t < n → 0 ≤ p < n → (t + 1) `mod` n ≠ p →
  (p - (t + 1) `mod` n - 1) `mod` n = (p - t - 1) `mod` n - 1.
Proof.
  intros Hn Ht Hp Hne. set (u := (t + 1) `mod` n) in *.
  assert (0 ≤ u < n) as Hu by (apply Z.mod_pos_bound; lia).
  assert ((p - t - 1) `mod` n = (p - u) `mod` n) as ->.
  { unfold u. rewrite Zminus_mod_idemp_r. f_equal. lia. }
  assert (0 ≤ (p - u) `mod` n < n) as Hr by (apply Z.mod_pos_bound; lia).
  assert ((p - u) `mod` n ≠ 0).
  { intros Hz. apply Z.mod_divide in Hz as [k Hk]; [|lia]. assert (k = 0) by nia. lia. }
  rewrite <- Zminus_mod_idemp_l. apply Z.mod_small. lia.
Qed.

(** from thread [tid] on, [fuel] rounds are enough *)
Lemma interruptLoop_runs e fuel tid b s : env_ok e → sized s → changing s = false →
  0 ≤ tid < x_numThreads (x_cfg s) →
  (interruptPriority s - tid - 1) `mod` x_numThreads (x_cfg s) < Z.of_nat fuel →
  runs (interruptLoop e fuel tid b) s (λ r s', moves s s' ∧ going s s' ∧ (r.1 = None → s' = s)).
Proof.
  intros He. revert tid b s. induction fuel as [|fuel IH]; intros tid b s Hz Hs Htid Hfuel.
  { pose proof (Z.mod_pos_bound (interruptPriority s - tid - 1) (x_numThreads (x_cfg s))). lia. }
  cbn [interruptLoop]. apply runs_bind. eapply runs_conseq; [apply hasInterrupt_runs|].
  intros ti s1 _ [-> Hti]. apply runs_bind. eapply runs_conseq; [apply isInbetween_runs|].
  intros bt s1 _ ->. apply runs_bind, runs_get, runs_bind. destruct (ti && bt) eqn:E.
  - apply andb_true_iff in E as [-> ->]. destruct (Hti eq_refl) as (tc & Htc & Hc).
    apply runs_bind. eapply runs_conseq; [by eapply takeInterrupt_runs|].
    intros t s1 _ (-> & Ht & Hp & Hto). apply runs_ret, runs_bind, runs_mod, runs_ret.
    destruct (passed_going s s1) as [Hz1 Hd _]; [done..|].
    assert (sized (xu_priorities tid (issuePriority s1) (commitPriority s1) s1)) as Hz2.
    { destruct Hz1 as [[] [] ? ? ? ?]. split; [by split|by split| |done..]. cbn. by rewrite (pa_cfg _ _ Hp). }
    split_and!; [|by split|done]. apply (moves_trans s s1); [by apply passed_moves|].
    apply moves_equal; [done..|]. by apply stay_same.
  - apply runs_ret. pose proof (sz_prio _ Hz) as Hp.
    destruct (Z.eqb_spec ((tid + 1) `mod` x_numThreads (x_cfg s)) (interruptPriority s)).
    + apply runs_ret. split_and!; try done; [by apply moves_refl|]. apply misc_going; [reflexivity|done..].
    + apply IH; try done; [apply Z.mod_pos_bound; lia|]. rewrite rounds_step; lia.
Qed.

Lemma checkInterrupts_runs e s : env_ok e → sized s → changing s = false →
  runs (checkInterrupts e) s (λ r s', moves s s' ∧ going s s' ∧ (r.1 = None → s' = s)).
Proof.
  intros He Hz Hs. unfold checkInterrupts. apply runs_bind, runs_get.
  pose proof (sz_prio _ Hz). eapply runs_conseq; [apply interruptLoop_runs; try done|].
  - pose proof (Z.mod_pos_bound (interruptPriority s - interruptPriority s - 1) (x_numThreads (x_cfg s))). lia.
  - cbn. tauto.
Qed.

(** ** Commit and issue *)

Lemma updateBranchData_frame tid r inst t s : runs (updateBranchData tid r inst t) s (λ _ s', frame s s').
Proof.
  assert (∀ m : St Execute unit, (∀ s, runs m s (λ _ s', frame s s')) → runs (do! m in let! i := x_thread tid in
      smod (xu_branch (newBranchData r tid (x_streamSeqNum i)
        (if isBubble inst then lastPredictionSeqNum i else predictionSeqNum (id inst)) t inst))) s
    (λ _ s', frame s s')) as H.
  { intros m Hm. apply runs_bind. eapply runs_conseq; [apply Hm|]. intros [] s1 _ H1.
    apply runs_bind, runs_x_thread. intros i _. apply runs_mod. etrans; [done|]. by split. }
  unfold updateBranchData. destruct r; try (apply H; intros s1; cbn; try (apply runs_ret; reflexivity)).
  { apply runs_ret. reflexivity. }
  all: apply runs_updThread; intros i l Hi Hl; split; try done; cbn.
  all: eapply Forall2_quiet_set; [|done]; intros j Hj; rewrite Hi in Hj; injection Hj as <-; apply quiet_stream.
Qed.

Lemma took_Ok tid l s s' : took tid l s s' → is_Ok (vget (x_info s) tid) → is_Ok (vget (x_info s') tid).
Proof.
  intros Ht [i Hi]. destruct (tk_info _ _ _ _ Ht i Hi) as (i' & Hs%vget_vset_eq & _). by exists i'.
Qed.

Lemma killInput_runs n tid s : sized s → is_Ok (vget (x_info s) tid) → (inputLines s tid < n)%nat →
  runs (killInput n tid) s (λ _ s', moves s s' ∧ x_branch s' = x_branch s).
Proof.
  revert s. induction n as [|n IH]; intros s Hz Hok Hn; [lia|]. cbn [killInput]. apply runs_bind.
  eapply runs_conseq; [apply x_getInput_runs|]. intros l s1 _ [-> Hl].
  destruct l as [line|]; [|by apply runs_ret; split; [apply moves_refl|]].
  destruct (Hl line eq_refl) as (b & rest & Hb & Hc). destruct Hok as [i Hi]. apply runs_bind.
  eapply runs_conseq; [eapply x_popInput_runs; [by split|apply Hz]|].
  intros [] s1 _ (b' & Ht & Hl1 & Hb1 & Hc1 & Hi1).
  assert (moves s s1) as Hm.
  { eapply (took_moves tid i (drop (Z.to_nat (x_inputIndex i)) (insts line)) []); [done..| |apply sublist_nil_l|done].
    pose proof (lo_index _ (sz_lines _ Hz) tid b i Hb Hi) as Hx. unfold firstWidth, width in Hx. rewrite Hc in Hx.
    unfold waiting. rewrite Hb, Hi, Hb1, Hi1, Hc, Hc1. cbn. apply drop_app_le. lia. }
  eapply runs_conseq; [apply IH|].
  - apply Hm.
  - by eexists.
  - unfold inputLines in *. rewrite Hb, Hc in Hn. rewrite Hb1, Hc1. cbn in Hn. lia.
  - intros [] s2 _ [Hm2 Hb2]. split; [by eapply moves_trans|]. by rewrite Hb2, (tk_branch _ _ _ _ Ht).
Qed.

Lemma going_drain s s' tid i i' : going s s' → vget (x_info s) tid = Ok i → vget (x_info s') tid = Ok i' →
  drainState i' = drainState i.
Proof.
  intros Hg Hi Hi'. pose proof (vget_fmap drainState (x_info s) tid) as H1.
  pose proof (vget_fmap drainState (x_info s') tid) as H2. fold (drains s) in H1. fold (drains s') in H2.
  rewrite (go_drains _ _ Hg) in H2. rewrite Hi in H1. rewrite Hi' in H2. cbn in *. congruence.
Qed.

Lemma commit_going e tid o d s : noCostIsaOk → env_ok e → sized s → changing s = false →
  runs (commit e tid o d) s (λ _ s', moves s s' ∧ going s s').
Proof.
  intros HI He Hz Hs. eapply runs_conseq; [apply commit_runs; [done|apply He|done]|].
  intros [] s' _ [Hp Ht]. split; [by apply passed_moves|by apply passed_going].
Qed.

(** the commit itself: a thread that does not drain keeps its state *)
Lemma drainCommit_runs e tid i b s : noCostIsaOk → env_ok e → sized s → changing s = false →
  vget (x_info s) tid = Ok i →
  runs (match drainState i with
       | DrainCurrentInst =>
           do! commit e tid true false in
           let! between := isInbetweenInsts tid in
           do! (if between : bool then setDrainState tid DrainHaltFetch else sret tt) in
           smod (xu_branch BranchData0)
       | DrainAllInsts =>
           let! s := sget in
           do! killInput (S (inputLines s tid)) tid in
           commit e tid false true
       | DrainHaltFetch => sret tt
       | NotDraining =>
           let! h := (if b : bool then hasInterrupt e tid else sret false) in
           commit e tid h false
       end) s (λ _ s', moves s s' ∧ (drainState i = NotDraining → going s s')).
Proof.
  intros HI He Hz Hs Hi. destruct (drainState i).
  - apply runs_bind. eapply runs_conseq with (Q := λ _ s', s' = s).
    { destruct b; [|by apply runs_ret]. eapply runs_conseq; [apply hasInterrupt_runs|]. by intros ? ? _ [-> _]. }
    intros h s1 _ ->. eapply runs_conseq; [by apply commit_going|]. intros [] s' _ []. by split.
  - apply runs_bind. eapply runs_conseq; [by apply commit_going|]. intros [] s1 _ [Hm1 _]. apply runs_bind.
    eapply runs_conseq; [apply isInbetween_runs|]. intros bt s2 _ ->. apply runs_bind.
    eapply runs_conseq with (Q := λ _ s', moves s s').
    { destruct bt; [|by apply runs_ret]. eapply runs_conseq; [apply updThread_moves; [apply Hm1|done]|].
      intros [] s2 _ [Hm2 _]. by eapply moves_trans. }
    intros [] s2 _ Hm2. apply runs_mod. split; [|done]. apply (moves_trans s s2); [done|].
    by apply branch_moves, Hm2.
  - apply runs_ret. split; [by apply moves_refl|done].
  - apply runs_bind, runs_get, runs_bind. eapply runs_conseq; [apply killInput_runs; [done|by exists i|lia]|].
    intros [] s1 _ [Hm1 Hb1]. eapply runs_conseq; [apply commit_going; try done|].
    + apply Hm1.
    + unfold changing. by rewrite Hb1.
    + intros [] s2 _ [Hm2 _]. split; [by eapply moves_trans|done].
Qed.

Lemma commitThread_runs e tid b s : noCostIsaOk → env_ok e → sized s → changing s = false →
  runs (commitThread e tid b) s (λ _ s', moves s s' ∧ (NotDraining = default NotDraining (drains s !! Z.to_nat tid) → going s s')).
Proof.
  intros HI He Hz Hs. unfold commitThread. apply runs_bind, runs_x_thread. intros i Hi.
  assert (drains s !! Z.to_nat tid = Some (drainState i)) as Hd.
  { unfold drains. rewrite list_lookup_fmap. apply vget_Ok in Hi as [_ ->]. done. }
  apply runs_bind. eapply runs_conseq; [by apply drainCommit_runs|]. intros [] s1 _ [Hm1 Hg].
  apply runs_bind, runs_x_thread. intros i1 Hi1. rewrite Hd. cbn. case_bool_decide as Hdr.
  - apply runs_bind, runs_getContext. intros tc _. apply runs_bind.
    eapply runs_conseq; [apply updateBranchData_frame|]. intros [] s2 _ Hf%frame_passed.
    apply passed_moves in Hf; [|apply Hm1].
    apply runs_bind. eapply runs_conseq; [apply misc_wakeup|]. intros [] s3 _ Hm3%misc_moves; [|apply Hf].
    eapply runs_conseq; [apply updThread_moves; [apply Hm3|done]|].
    intros [] s4 _ [Hm4 _]. split; [by apply (moves_trans s s1), (moves_trans s1 s2), (moves_trans s2 s3)|]. intros Hn.
    assert (drainState i1 = drainState i) by (eapply going_drain; [by apply Hg|done..]). congruence.
  - apply runs_ret. split; [done|]. intros Hn. by apply Hg.
Qed.

(** what issue and the input keep *)
Record level s s' : Prop := {
  lv_sized : sized s';
  lv_drains : drains s' = drains s;
  lv_streams : streams s' = streams s;
  lv_branch : x_branch s' = x_branch s;
}.

Lemma level_refl s : sized s → level s s.
Proof. by split. Qed.

Lemma going_level s s1 s2 : going s s1 → level s1 s2 → going s s2.
Proof. intros [Hz Hd Ht] [Hz' Hd' Hs Hb]. split; [done|congruence|by eapply told_keep]. Qed.

Lemma took_level tid l s s' i : took tid l s s' → lines_ok s' → vget (x_info s) tid = Ok i → sized s → level s s'.
Proof.
  intros Ht Hl Hi Hz. destruct (tk_info _ _ _ _ Ht i Hi) as (i' & Hs & He). split.
  - eapply took_sized; try done. by exists i.
  - unfold drains. apply (vset_fmap drainState) in Hs. rewrite (en_drain _ _ _ _ He) in Hs.
    rewrite vset_self in Hs; [congruence|]. by rewrite vget_fmap, Hi.
  - unfold streams. apply (vset_fmap x_streamSeqNum) in Hs. rewrite (en_stream _ _ _ _ He) in Hs.
    rewrite vset_self in Hs; [congruence|]. by rewrite vget_fmap, Hi.
  - apply Ht.
Qed.

Lemma filter_sublist {A} (f : A → bool) l : List.filter f l `sublist_of` l.
Proof. induction l as [|a l IH]; cbn; [constructor|]. destruct (f a); by constructor. Qed.

Lemma issue_level e tid s : noCostIsaOk → sized s → runs (issue e tid) s (λ _ s', level s s' ∧ moves s s').
Proof.
  intros HI Hz. destruct (vget (x_info s) tid) as [i|] eqn:Hi.
  - destruct (vget_lt (x_threads s) tid) as [tc Htc].
    { rewrite (sz_threads _ Hz), <- (sz_info _ Hz). by eapply vget_bound. }
    eapply runs_conseq; [by apply issue_runs; try apply Hz|].
    intros n s' _ (l & Hw & Ht & _ & _ & Hl). split; [by eapply took_level|].
    eapply took_moves; try done. apply filter_sublist.
  - unfold issue. apply runs_bind. eapply runs_conseq; [apply x_getInput_runs|]. intros l s1 _ [-> _].
    destruct l as [line|]; [|apply runs_ret; split; [by apply level_refl|by apply moves_refl]].
    apply runs_bind, runs_get. unfold issueFuel. destruct (vget (x_inputBuffer s) tid); cbn [issueLoop];
      apply runs_bind; unfold issueRound; apply runs_bind, runs_x_thread; intros ? ?; congruence.
Qed.

Lemma misc_getIssuingThread e : keepsM misc (getIssuingThread e).
Proof.
  unfold getIssuingThread. keeps_tac; apply misc_firstThread; intros; keeps_tac.
Qed.

Definition awake s : Prop := Forall (λ d, d = NotDraining) (drains s).

Lemma awake_drain s n : awake s → NotDraining = default NotDraining (drains s !! n).
Proof.
  intros Ha. destruct (drains s !! n) eqn:E; [|done]. unfold awake in Ha. rewrite Forall_lookup in Ha.
  symmetry. by eapply Ha.
Qed.

Lemma commitAndIssue_runs e b s : noCostIsaOk → env_ok e → sized s → changing s = false →
  runs (commitAndIssue e b) s (λ _ s', moves s s' ∧ (awake s → going s s')).
Proof.
  intros HI He Hz Hs. unfold commitAndIssue. apply runs_bind.
  eapply runs_conseq; [apply misc_getCommittingThread|]. intros t s1 _ Hm. apply runs_bind.
  assert (going s s1) as Hg1 by (by apply misc_going). assert (moves s s1) as Hm1 by (by apply misc_moves).
  assert (changing s1 = false) as Hs1 by (by rewrite (misc_changing _ _ Hm)).
  eapply runs_conseq with (Q := λ _ s2, moves s s2 ∧ (awake s → going s s2)).
  { destruct t as [tid|]; [|by apply runs_ret].
    eapply runs_conseq; [apply commitThread_runs; try done; apply Hg1|]. intros [] s2 _ [Hm2 Hg2].
    split; [by eapply moves_trans|]. intros Ha. eapply going_trans; [done..|]. apply Hg2.
    rewrite (go_drains _ _ Hg1). by apply awake_drain. }
  intros [] s2 _ [Hm2 Hg2]. apply runs_bind. eapply runs_conseq; [apply misc_getIssuingThread|].
  intros t2 s3 _ Hm3. assert (moves s s3) as Hm3'.
  { eapply moves_trans; [done|]. apply misc_moves; [done|apply Hm2]. }
  destruct t2 as [tid|].
  - eapply runs_conseq; [apply issue_level; [done|apply Hm3']|]. intros n s4 _ [Hl Hm4].
    split; [by eapply moves_trans|]. intros Ha.
    apply (going_level s s3 s4); [|done]. apply (going_misc s s2 s3); [by apply Hg2|done].
  - apply runs_ret. split; [done|]. intros Ha. apply (going_misc s s2 s3); [by apply Hg2|done].
Qed.

(** ** The cycle *)

Definition inp_ok (inp : ForwardInstData I) : Prop := width inp ≤ MAX_FORWARD_INSTS.

(** the instructions of [inp] for thread [t] *)
Definition fedTo t (inp : ForwardInstData I) : list DynInst :=
  if isBubble inp then [] else if instsThreadId inp =? t then insts inp else [].

(** lines are added to the input of thread [tid] *)
Lemma added_sized tid b b' l ls s : sized s → vget (x_inputBuffer s) tid = Ok b →
  vset (x_inputBuffer s) tid b' = Ok l → contents b' = contents b ++ ls → Forall inp_ok ls →
  sized (xu_inputBuffer l s).
Proof.
  intros [[] [Hl Hx] ? ? ? ?] Hb Hs Hc Hok. split; try done. split; cbn.
  - intros t c line Ht Hline. destruct (vset_cases _ _ _ _ _ _ Hs Ht) as [[-> ->]|[_ Hv]]; [|by eapply Hl].
    rewrite Hc in Hline. apply elem_of_app in Hline as [|]; [by eapply (Hl tid b)|]. rewrite Forall_forall in Hok. by apply Hok.
  - intros t c i Ht Hi. destruct (vset_cases _ _ _ _ _ _ Hs Ht) as [[-> ->]|[_ Hv]]; [|by apply (Hx t)].
    specialize (Hx tid b i Hb Hi). unfold firstWidth in *. rewrite Hc. destruct (contents b); cbn; [|done].
    destruct ls as [|line ls]; [done|]. unfold width. lia.
Qed.

Lemma added_flow tid b b' l ls s t : sized s → vget (x_inputBuffer s) tid = Ok b →
  vset (x_inputBuffer s) tid b' = Ok l → contents b' = contents b ++ ls →
  flow t (if tid =? t then concat (insts <$> ls) else []) s (xu_inputBuffer l s).
Proof.
  intros Hz Hb Hs Hc. split; [by apply stay_same|].
  assert (flying (xu_inputBuffer l s) t = flying s t) as Hf by done.
  assert (∀ f, waiting s t ++ f = waiting (xu_inputBuffer l s) t → ∃ c l0 ps,
    waiting s t ++ f = c ++ waiting (xu_inputBuffer l s) t ∧ l0 `sublist_of` c ∧ Forall2 (isAt (xu_inputBuffer l s)) ps l0
    ∧ flying (xu_inputBuffer l s) t `suffix_of` flying s t ++ (Some <$> ps)) as H.
  { intros f Hw. exists [], [], []. rewrite Hf, Hw. cbn. by rewrite app_nil_r. }
  unfold waiting in *. cbn in *. destruct (Z.eqb_spec tid t) as [<-|Hne].
  - destruct (vget (x_info s) tid) as [i|] eqn:Hi.
    + apply H. rewrite Hb, (vget_vset_eq _ _ _ _ Hs), Hc, fmap_app, concat_app. symmetry. apply drop_app_le.
      pose proof (lo_index _ (sz_lines _ Hz) _ _ _ Hb Hi) as Hx. unfold firstWidth, width in Hx.
      destruct (contents b); cbn in *; [lia|]. rewrite length_app. lia.
    + exists (concat (insts <$> ls)), [], []. rewrite Hf, Hb, (vget_vset_eq _ _ _ _ Hs). cbn. rewrite !app_nil_r.
      split_and!; [done|apply sublist_nil_l|constructor|done].
  - apply H. rewrite (vget_vset_ne _ _ _ _ _ Hs Hne). apply app_nil_r.
Qed.

(** an element that waits to be pushed is the input of this cycle *)
Definition tails (inp : ForwardInstData I) s : Prop :=
  ∀ t b, vget (x_inputBuffer s) t = Ok b → tail_ok b
    ∧ ∀ line, elementPtr b = Some line → isBubble line = false ∧ isBubble inp = false ∧ t = instsThreadId inp.

(** nothing waits to be pushed *)
Definition pushed s : Prop := ∀ t b, vget (x_inputBuffer s) t = Ok b → elementPtr b = None.

Lemma pushed_tails inp s : pushed s → tails inp s.
Proof. intros Hp t b Hb%Hp. split; [by apply tail_ok_none|]. by rewrite Hb. Qed.

Lemma moves_tails inp s s' : moves s s' → tails inp s → tails inp s'.
Proof.
  intros Hm Ht t b' (b & Hb & [->|Hn])%(mv_input _ _ Hm); [by apply Ht|].
  split; [by apply tail_ok_none|]. by rewrite Hn.
Qed.

Lemma x_setTail_runs inp s : sized s → inp_ok inp → pushed s →
  runs (x_setTail inp) s (λ _ s', level s s' ∧ (∀ t, flow t (fedTo t inp) s s') ∧ tails inp s').
Proof.
  intros Hz Hinp Hp. unfold x_setTail, x_buffer, fedTo. destruct (isBubble inp) eqn:Ei.
  { apply runs_ret. split_and!; [by apply level_refl|intros; by apply flow_same|by apply pushed_tails]. }
  apply runs_bind, runs_bind, runs_get, runs_lift; [auto with ends|]. intros b Hb.
  apply runs_bind, runs_lift; [auto with ends|]. intros b' Hb'.
  apply runs_bind, runs_get, runs_bind, runs_lift; [auto with ends|]. intros l Hl. apply runs_mod.
  destruct (setTail_contents b inp) as (b1 & Hb1 & Hok & Hc); [by eapply Hp|done|].
  rewrite Hb' in Hb1. injection Hb1 as <-. split_and!.
  - split; [eapply added_sized; try done; by constructor|done..].
  - intros t. pose proof (added_flow _ _ _ _ _ s t Hz Hb Hl Hc) as Hf. cbn in Hf. by rewrite app_nil_r in Hf.
  - intros t c. cbn. intros Ht. destruct (vset_cases _ _ _ _ _ _ Hl Ht) as [[-> ->]|[_ Hv]].
    + split; [done|]. intros x Hx. split_and!; [|done..]. unfold contents in Hc. rewrite Hx, (Hp _ _ Hb) in Hc.
      cbn in Hc. rewrite (Hok (mk_is_Some _ _ Hx)) in Hc. destruct (queue (ibQueue b)) as [|y q]; [by injection Hc as ->|].
      destruct q; done.
    + by apply (pushed_tails inp s Hp).
Qed.

Lemma x_pushTail_runs inp s : sized s → tails inp s →
  runs (x_pushTail inp) s (λ _ s', level s s' ∧ (∀ t, flow t [] s s') ∧ pushed s').
Proof.
  intros Hz Ht. unfold x_pushTail, x_buffer. destruct (isBubble inp) eqn:Ei.
  { apply runs_ret. split_and!; [by apply level_refl|intros; by apply flow_same|].
    intros t b Hb. destruct (elementPtr b) eqn:E; [|done]. apply Ht in Hb as [_ Hb]. apply Hb in E as (_ & E & _). congruence. }
  apply runs_bind, runs_bind, runs_get, runs_lift; [auto with ends|]. intros b Hb.
  apply runs_bind, runs_get, runs_bind, runs_lift; [auto with ends|]. intros l Hl. apply runs_mod.
  assert (contents (pushTail b) = contents b ++ []) as Hc.
  { rewrite app_nil_r. destruct (Ht _ _ Hb) as [Hok Hx]. apply pushTail_contents; [done|]. intros x Hx'. by apply Hx. }
  split_and!.
  - split; [eapply added_sized; try done; by constructor|done..].
  - intros t. pose proof (added_flow _ _ _ _ _ s t Hz Hb Hl Hc) as Hf. cbn in Hf. by destruct (_ =? _).
  - intros t c. cbn. intros Hc'. destruct (vset_cases _ _ _ _ _ _ Hl Hc') as [[-> ->]|[Hne Hv]]; [done|].
    destruct (elementPtr c) eqn:E; [|done]. apply Ht in Hv as [_ Hv]. apply Hv in E as (_ & _ & E). done.
Qed.

Lemma misc_advanceAndWake e n b : keepsM misc (advanceAndWake e n b).
Proof.
  unfold advanceAndWake. repeat (apply (keeps_bind _); [first [apply misc_nextIssuable|apply misc_advanceUnits
      |apply misc_headMightCommit|solve [keeps_tac]]|intros]). keeps_tac.
Qed.

Lemma misc_level s s' : misc s s' → sized s → level s s'.
Proof.
  intros Hm Hz. split; [by eapply misc_sized|..]; unfold drains, streams; by rewrite ?(mi_info _ _ Hm), ?(mi_branch _ _ Hm).
Qed.

Lemma level_going s s1 s2 : level s s1 → going s1 s2 → going s s2.
Proof.
  intros [Hz Hd Hst Hb] [Hz' Hd' Ht]. split; [done|congruence|]. unfold told in *. by rewrite <- Hst.
Qed.

Lemma going_refl s : sized s → changing s = false → going s s.
Proof. intros. by apply misc_going. Qed.

Lemma bubble_changing s : isBubble (x_branch s) = true → changing s = false.
Proof. unfold changing, isBubble, BranchData_isBubble. by destruct (reason (x_branch s)). Qed.

Lemma Execute_evaluate_runs e inp s : noCostIsaOk → env_ok e → sized s → inp_ok inp → pushed s →
  isBubble (x_branch s) = true →
  runs (Execute_evaluate e inp) s (λ _ s', sized s' ∧ pushed s' ∧ (∀ t, flow t (fedTo t inp) s s')
    ∧ (awake s → going s s')).
Proof.
  intros HI He Hz Hinp Hp Hb. unfold Execute_evaluate. apply runs_bind.
  eapply runs_conseq; [by apply x_setTail_runs|]. intros [] s1 _ (H1 & Hf1 & Ht1). apply runs_bind, runs_get, runs_bind.
  eapply runs_conseq; [apply misc_LSQ_step|]. intros [] s2 _ Hm2.
  assert (moves s1 s2) as Hv2 by (apply misc_moves; [done|apply H1]).
  assert (level s s2) as H2.
  { destruct H1 as [Hz1 Hd1 Hs1 Hb1]. apply misc_level in Hm2 as [Hz2 Hd2 Hs2 Hb2]; [|done]. split; congruence. }
  assert (changing s2 = false) as Hs2 by (apply bubble_changing; by rewrite (lv_branch _ _ H2)).
  apply runs_bind. eapply runs_conseq; [by apply checkInterrupts_runs; [|apply H2|]|].
  intros r s3 _ (Hv3 & Hg3 & Hnone). apply runs_bind, runs_get, runs_bind.
  eapply runs_conseq with (Q := λ _ s4, moves s2 s4 ∧ (awake s → going s2 s4)).
  { destruct r as [[t|] intr]; cbn [fst snd] in *; [by apply runs_ret|].
    specialize (Hnone eq_refl) as ->.
    destruct (isBubble (x_branch s2)); [|by apply runs_ret].
    eapply runs_conseq; [by apply commitAndIssue_runs; [..|apply H2|]|]. intros n s4 _ [Hz4 Hg4]. split; [done|].
    intros Ha. apply Hg4. unfold awake. by rewrite (lv_drains _ _ H2). }
  intros n s4 _ [Hv4 Hg4]. apply runs_bind. eapply runs_conseq; [apply misc_advanceAndWake|].
  intros [] s5 _ Hm5. assert (moves s1 s5) as Hv5.
  { apply (moves_trans s1 s2), (moves_trans s2 s4); [done..|]. apply misc_moves; [done|apply Hv4]. }
  eapply runs_conseq; [apply (x_pushTail_runs inp); [apply Hv5|by eapply moves_tails]|].
  intros [] s6 _ (H6 & Hf6 & Hp6). split_and!; [apply H6|done| |].
  - intros t. rewrite <- (app_nil_r (fedTo t inp)). apply (flow_trans t _ [] s s1); [done|].
    apply (flow_trans t [] [] s1 s5); [apply Hv5|done].
  - intros Ha. apply (level_going s s2); [done|]. apply (going_level s2 s5); [|done].
    apply (going_misc s2 s4); [by apply Hg4|done].
Qed.
End cycle.
