(* ===== verification/ExecuteHistory.v ===== *)
(** * Execute over time

    Histories of cycles from construction.  The output wire is empty at the
    start of a cycle, as the latch to Fetch1 provides it. *)
From stdpp Require Import gmap.
From S2P Require Import Prelude TimeBuf Buffers Activity LVPT CVU PipeData Cpu Scoreboard FuncUnit.
From S2P Require Import LsqAddr LsqRequest Lsq Runs Execute ExecuteFrame ExecuteCommit ExecuteIssue ExecuteFlow ExecuteStage.
From S2P Require Import Fetch1 Fetch1Inv Fetch1Source Fetch1History.

Section history.
Context `{I : Isa} {TS : ThreadSem I}.
Notation DynInst := (MyMinorDynInst I).
Implicit Types (s : Execute) (e : ExecEnv) (i : ExecuteThreadInfo).

(** ** Events *)

(** what happens to the stage: its cycles, the callbacks of the memory system
    and of the TLB, the translation events of split requests, and requests to
    drain and to go on *)
Inductive XEvent :=
| XCycle (e : ExecEnv) (inp : ForwardInstData I)
| XResponse (p : Ptr) (pkt : Packet)
| XRetry (e : ExecEnv)
| XTranslated (e : ExecEnv) (p : Ptr) (idx : Z) (t : TlbReply) (suppressed : bool)
| XFragment (p : Ptr)
| XDrain
| XResume.

(** one event, and what it puts on the wire to Fetch1 *)
Definition x_event (ev : XEvent) : St Execute (BranchData I) :=
  match ev with
  | XCycle e inp =>
      do! Execute_evaluate e inp in
      let! s := sget in
      do! smod (xu_branch BranchData0) in
      sret (x_branch s)
  | XResponse p pkt => do! callLsq (recvTimingResp p pkt) in sret BranchData0
  | XRetry e => let! s := sget in do! callLsq (recvReqRetry (lsqEnv e s)) in sret BranchData0
  | XTranslated e p idx t b =>
      let! s := sget in do! callLsq (finish (lsqEnv e s) p idx t b) in sret BranchData0
  | XFragment p => do! callLsq (sendNextFragmentToTranslation p) in sret BranchData0
  | XDrain => let! _ := x_drain in sret BranchData0
  | XResume => do! x_drainResume in sret BranchData0
  end.

Fixpoint x_run (es : list XEvent) : St Execute (list (BranchData I)) :=
  match es with
  | [] => sret []
  | ev :: es => let! b := x_event ev in let! bs := x_run es in sret (b :: bs)
  end.

(** ** The beginning *)

Record params_ok (pr : ExecParams) : Prop := {
  po_units : Z.of_nat (length (xp_units pr)) < 2 ^ 32;
  po_issue : issueLimit (xp_cfg pr) < 2 ^ 32;
  po_numThreads : 1 ≤ x_numThreads (xp_cfg pr);
  po_threads : Z.of_nat (length (xp_threads pr)) = x_numThreads (xp_cfg pr);
}.

Lemma units_length {T} `{IsBubble T} `{!Bubble T} n ds (us0 us : list (FUPipeline T)) :
  mfold (λ l d, f ← newFUPipeline n d; Ok (l ++ [f])) us0 ds = Ok us → length us = (length us0 + length ds)%nat.
Proof.
  revert us0. induction ds as [|d ds IH]; intros us0; cbn; [intros [= ->]; lia|].
  destruct (newFUPipeline n d); [|done]. cbn. intros Hl%IH. rewrite Hl, length_app. cbn. lia.
Qed.

Lemma newExecute_start pr s : newExecute pr = Ok s → params_ok pr →
  sized s ∧ awake s ∧ x_branch s = BranchData0 ∧ pushed s ∧ (∀ t, waiting s t = [] ∧ flying s t = [])
  ∧ streams s = replicate (Z.to_nat (x_numThreads (xp_cfg pr))) firstStreamSeqNum.
Proof.
  intros Hn [Hu Hi Ht Hth]. unfold newExecute in Hn. destruct (xp_lsq pr) as [l|]; [|done]. cbn [rbind] in Hn.
  destruct (commitLimit _ <? 1); [done|]. destruct (Z.ltb_spec (issueLimit (xp_cfg pr)) 1); [done|].
  destruct (memoryIssueLimit _ <? 1); [done|]. destruct (_ <? _); [done|].
  destruct (xp_inputBufferSize pr <? 1); [done|].
  destruct (mfold _ _ _) as [us|] eqn:Eu; [|done]. cbn [rbind] in Hn. apply units_length in Eu.
  destruct (xp_regs pr) as [[[[? ?] ?] ?] ?]. injection Hn as <-. cbn in Eu.
  split_and!; [split; cbn|..].
  - split; cbn; lia.
  - split; cbn.
    + intros t b line [_ [-> _]%lookup_replicate]%vget_Ok. cbn. by intros ?%not_elem_of_nil.
    + intros t b i [_ [-> _]%lookup_replicate]%vget_Ok [_ [-> _]%lookup_replicate]%vget_Ok. done.
  - lia.
  - lia.
  - rewrite length_replicate. lia.
  - done.
  - unfold awake, drains. cbn. rewrite fmap_replicate. apply Forall_replicate. done.
  - done.
  - intros t b [_ [-> _]%lookup_replicate]%vget_Ok. done.
  - intros t. unfold waiting, flying. cbn. set (li := replicate _ (mkExecInfo _ _ _ _ _ _ _)).
    destruct (vget li t) as [i|] eqn:Ei; [|by match goal with |- context [vget ?b t] => destruct (vget b t) end]. subst li.
    apply vget_Ok in Ei as [_ [-> _]%lookup_replicate]. destruct (vget _ _) as [b|] eqn:Eb; [|done].
    apply vget_Ok in Eb as [_ [-> _]%lookup_replicate]. done.
  - unfold streams. cbn. by rewrite fmap_replicate.
Qed.

(** ** Every run ends *)

Definition event_ok (ev : XEvent) : Prop :=
  match ev with XCycle e inp => env_ok e ∧ inp_ok inp | _ => True end.

Definition isDrain (ev : XEvent) : bool := match ev with XDrain | XResume => true | _ => false end.

(** between two events the wire is empty, and the input is in the queues *)
Record ready s : Prop := {
  rd_sized : sized s;
  rd_wire : isBubble (x_branch s) = true;
  rd_pushed : pushed s;
}.

(** code beside a cycle *)
Record rests s s' : Prop := {
  rs_moves : moves s s';
  rs_branch : x_branch s' = x_branch s;
}.

Lemma rests_ready s s' : rests s s' → ready s → ready s'.
Proof.
  intros [Hm Hb] [Hz Hw Hp]. split; [apply Hm|by rewrite Hb|].
  intros t b' (b & Hb' & [->|])%(mv_input _ _ Hm); [by eapply Hp|done].
Qed.

Lemma rests_trans s s1 s2 : rests s s1 → rests s1 s2 → rests s s2.
Proof. intros [Hm Hb] [Hm' Hb']. split; [by eapply moves_trans|congruence]. Qed.

Lemma rests_refl s : sized s → rests s s.
Proof. split; [by apply moves_refl|done]. Qed.

Lemma misc_rests s s' : misc s s' → sized s → rests s s'.
Proof. intros Hm Hz. split; [by apply misc_moves|apply Hm]. Qed.

Lemma setDrain_rests tid d s : sized s → runs (x_updThread tid (set_drain d)) s (λ _ s', rests s s').
Proof. intros Hz. eapply runs_conseq; [by apply updThread_moves|]. intros [] s' _ []. by split. Qed.

Lemma eachThread_rests (f : Z → St Execute unit) l s :
  (∀ t s, sized s → runs (f t) s (λ _ s', rests s s')) → sized s → runs (eachThread f l) s (λ _ s', rests s s').
Proof.
  intros Hf. revert s. induction l as [|t l IH]; intros s Hz; cbn [eachThread]; [by apply runs_ret, rests_refl|].
  apply runs_bind. eapply runs_conseq; [by apply Hf|]. intros [] s1 _ H1.
  eapply runs_conseq; [apply IH, H1|]. intros [] s2 _ H2. by eapply rests_trans.
Qed.

Lemma x_drain_rests s : sized s → runs x_drain s (λ _ s', rests s s').
Proof.
  intros Hz. unfold x_drain. apply runs_bind, runs_get, runs_bind.
  eapply runs_conseq; [apply eachThread_rests; [|done]|].
  - clear s Hz. intros t s Hz. apply runs_bind, runs_x_thread. intros i _.
    case_bool_decide; [|by apply runs_ret, rests_refl].
    apply runs_bind. eapply runs_conseq; [apply misc_wakeup|]. intros [] s1 _ H1%misc_rests; [|done]. apply runs_bind.
    eapply runs_conseq; [apply isInbetween_runs|]. intros b s2 _ ->.
    eapply runs_conseq; [apply setDrain_rests, H1|]. intros [] s2 _ H2. by eapply rests_trans.
  - intros [] s1 _ H1. apply runs_bind. unfold x_isDrained. by apply runs_bind, runs_get, runs_ret, runs_ret.
Qed.

Lemma x_drainResume_rests s : sized s → runs x_drainResume s (λ _ s', rests s s').
Proof.
  intros Hz. unfold x_drainResume. apply runs_bind, runs_get, runs_bind.
  eapply runs_conseq; [apply eachThread_rests; [|done]; intros; by apply setDrain_rests|].
  intros [] s1 _ H1. eapply runs_conseq; [apply misc_wakeup|]. intros [] s2 _ H2%misc_rests; [|apply H1].
  by eapply rests_trans.
Qed.

Lemma lsq_event {A} (m : St (LSQ I) A) s : endsM m → ready s → runs (do! callLsq m in sret (BranchData0 : BranchData I)) s
  (λ b s', misc s s' ∧ b = BranchData0).
Proof.
  intros Hm Hr. apply runs_bind. eapply runs_conseq; [by apply misc_callLsq|]. intros a s1 _ H1. by apply runs_ret.
Qed.

(** every event but the start and the end of a drain *)
Definition quietly s (ev : XEvent) (b : BranchData I) s' : Prop :=
  awake s → isDrain ev = false → awake s' ∧ ∃ s1, told s s1 ∧ x_branch s1 = b ∧ streams s' = streams s1.

Lemma misc_quietly s ev s' : ready s → misc s s' → quietly s ev (BranchData0 : BranchData I) s'.
Proof.
  intros Hr Hm Ha _. split.
  - unfold awake, drains in *. by rewrite (mi_info _ _ Hm).
  - exists (xu_branch BranchData0 s'). split_and!; try done. unfold told, changing. cbn.
    unfold streams. cbn. by rewrite (mi_info _ _ Hm).
Qed.

(** the instructions that an event brings for thread [t] *)
Definition fedBy t (ev : XEvent) : list DynInst :=
  match ev with XCycle _ inp => fedTo t inp | _ => [] end.

Definition delivered t (es : list XEvent) : list DynInst := es ≫= fedBy t.

Lemma x_event_runs ev s : noCostIsaOk → event_ok ev → ready s →
  runs (x_event ev) s (λ b s', ready s' ∧ (∀ t, flow t (fedBy t ev) s s') ∧ quietly s ev b s').
Proof.
  intros HI Hev Hr. pose proof (rd_sized _ Hr) as Hz.
  assert (∀ {A} (m : St (LSQ I) A), endsM m → (∀ t, fedBy t ev = []) → runs (do! callLsq m in sret (BranchData0 : BranchData I)) s
    (λ b s', ready s' ∧ (∀ t, flow t (fedBy t ev) s s') ∧ quietly s ev b s')) as Hlsq.
  { intros A m Hm Hno. eapply runs_conseq; [by apply lsq_event|]. intros b s1 _ (H1 & ->).
    split_and!; [by eapply rests_ready; [apply misc_rests|]| |by apply misc_quietly].
    intros t. rewrite Hno. by apply misc_moves. }
  destruct ev as [e inp|p pkt|e|e p idx t b|p| |]; cbn [x_event fedBy] in *.
  - destruct Hev as [He Hi], Hr as [_ Hb Hp]. apply runs_bind.
    eapply runs_conseq; [by apply Execute_evaluate_runs|]. intros [] s1 _ (Hz1 & Hp1 & Hf & Hg).
    apply runs_bind, runs_get, runs_bind, runs_mod, runs_ret. split_and!; [split; [|done|done]| |].
    + by apply (branch_moves BranchData0).
    + intros t. rewrite <- (app_nil_r (fedTo t inp)). eapply flow_trans; [done|]. by apply branch_moves.
    + intros Ha _. destruct (Hg Ha) as [_ Hd Ht]. split; [|by exists s1].
      unfold awake, drains in *. cbn. by rewrite Hd.
  - apply Hlsq; auto with ends.
  - apply runs_bind, runs_get, Hlsq; auto with ends.
  - apply runs_bind, runs_get, Hlsq; auto with ends.
  - apply Hlsq; auto with ends.
  - apply runs_bind. eapply runs_conseq; [by apply x_drain_rests|]. intros n s1 _ H1. apply runs_ret.
    split_and!; [by apply (rests_ready s)|apply H1|done].
  - apply runs_bind. eapply runs_conseq; [by apply x_drainResume_rests|]. intros [] s1 _ H1. apply runs_ret.
    split_and!; [by apply (rests_ready s)|apply H1|done].
Qed.

Lemma flow_refl t s : flow t [] s s.
Proof. by apply flow_same. Qed.

Lemma x_run_runs es s : noCostIsaOk → Forall event_ok es → ready s →
  runs (x_run es) s (λ _ s', ready s' ∧ ∀ t, flow t (delivered t es) s s').
Proof.
  intros HI Hes. revert s. induction Hes as [|ev es Hev Hes IH]; intros s Hr; cbn [x_run].
  { apply runs_ret. split; [done|]. intros t. apply flow_refl. }
  apply runs_bind. eapply runs_conseq; [by apply x_event_runs|]. intros b s1 _ (H1 & Hf & _).
  apply runs_bind. eapply runs_conseq; [by apply IH|]. intros bs s2 _ [Hr2 H2]. apply runs_ret. split; [done|].
  intros t. cbn. by eapply flow_trans.
Qed.

Lemma newExecute_ready pr s : newExecute pr = Ok s → params_ok pr → ready s.
Proof.
  intros Hn Hp. destruct (newExecute_start pr s Hn Hp) as (Hz & _ & Hb & Hpu & _). split; [done|by rewrite Hb|done].
Qed.

Lemma run_ready pr s0 es bs s : noCostIsaOk → newExecute pr = Ok s0 → params_ok pr → Forall event_ok es →
  x_run es s0 = Ok (bs, s) → ready s.
Proof.
  intros HI Hn Hp Hes Hr.
  by apply (runs_Ok _ _ _ _ _ (x_run_runs es s0 HI Hes (newExecute_ready _ _ Hn Hp))) in Hr as [? _].
Qed.

(** C21: The loops of Execute end.  From construction and over any sequence of
    cycles, answers of the memory system and the TLB and drain requests, none
    of the loops of the stage goes on for ever: issue, the search for a
    functional unit, commit, the interrupt check, the emptying of the input of
    a draining thread and pc event handling all end, whatever the memory
    system, the TLB and the instructions do.  It is enough that chains of pc
    events settle, that a signalled interrupt has a fault to raise, and that
    instructions without a unit are not memory references. *)
Theorem execute_terminates (pr : ExecParams) (s0 : Execute) (es : list XEvent) :
  noCostIsaOk → newExecute pr = Ok s0 → params_ok pr → Forall event_ok es →
  x_run es s0 ≠ Stop OutOfFuel.
Proof.
  intros HI Hn Hp Hes. eapply runs_ends, x_run_runs; [done..|]. by eapply newExecute_ready.
Qed.


(** ** Stream numbers *)

(** the new streams of thread [t] that the branches [bs] announce *)
Definition announced (t : Z) (bs : list (BranchData I)) : list Z :=
  newStreamSeqNum <$> List.filter (λ b, isStreamChange (reason b) && (brThreadId b =? t)) bs.

(** [l] counts on from [n], and ends with [m] *)
Fixpoint consecutive (n : Z) (l : list Z) (m : Z) : Prop :=
  match l with
  | [] => m = n
  | k :: l => k = u64 (n + 1) ∧ consecutive k l m
  end.

(** what a cycle tells of thread [t] *)
Lemma told_thread s s1 t n : told s s1 → vget (streams s) t = Ok n →
  ∃ m, vget (streams s1) t = Ok m ∧
    if isStreamChange (reason (x_branch s1)) && (brThreadId (x_branch s1) =? t)
    then newStreamSeqNum (x_branch s1) = u64 (n + 1) ∧ m = u64 (n + 1) else m = n.
Proof.
  unfold told, changing. intros Ht Hn. destruct (isStreamChange (reason (x_branch s1))); cbn [andb].
  - destruct Ht as (k & Hk & Hb & Hs). destruct (Z.eqb_spec (brThreadId (x_branch s1)) t) as [<-|Hne].
    + rewrite Hn in Hk. injection Hk as <-. exists (u64 (n + 1)). split; [by eapply vget_vset_eq|done].
    + exists n. split; [|done]. rewrite (vget_vset_ne _ _ _ _ _ Hs); done.
  - exists n. by rewrite Ht.
Qed.

(** the first event of a run *)
Lemma run_cons ev es s bs s' : noCostIsaOk → event_ok ev → isDrain ev = false → ready s → awake s →
  x_run (ev :: es) s = Ok (bs, s') →
  ∃ s1 bs1 s1', told s s1 ∧ streams s1' = streams s1 ∧ ready s1' ∧ awake s1' ∧ bs = x_branch s1 :: bs1
    ∧ x_run es s1' = Ok (bs1, s').
Proof.
  intros HI Hev Hd Hr Ha Hrun. cbn [x_run] in Hrun. unfold sbind in Hrun.
  pose proof (x_event_runs ev s HI Hev Hr) as H1. unfold runs in H1.
  destruct (x_event ev s) as [[b s1']|]; [|done]. destruct H1 as (Hr1 & _ & Hq).
  destruct (Hq Ha Hd) as (Ha1 & s1 & Ht & <- & Hst).
  destruct (x_run es s1') as [[bs1 s2]|] eqn:Er; [|done]. injection Hrun as <- <-.
  exists s1, bs1, s1'. done.
Qed.

Definition calmEvent (ev : XEvent) : Prop := event_ok ev ∧ isDrain ev = false.

Lemma streams_run es s bs s' t n : noCostIsaOk → Forall calmEvent es → ready s → awake s →
  x_run es s = Ok (bs, s') → vget (streams s) t = Ok n →
  ∃ m, vget (streams s') t = Ok m ∧ consecutive n (announced t bs) m.
Proof.
  intros HI Hes. revert s bs n. induction Hes as [|ev es [Hev Hd] Hes IH]; intros s bs n Hr Ha Hrun Hn.
  { injection Hrun as <- <-. by exists n. }
  destruct (run_cons ev es s bs s') as (s1 & bs1 & s1' & Ht & Hst & Hr1 & Ha1 & -> & Hrun1); try done.
  destruct (told_thread s s1 t n Ht Hn) as (m & Hm & Hch). rewrite <- Hst in Hm.
  destruct (IH s1' bs1 m) as (m' & Hm' & Hc'); try done. exists m'. split; [done|].
  unfold announced in *. cbn [List.filter]. destruct (_ && _); [|by subst]. destruct Hch as [Hk ->].
  cbn. by rewrite Hk.
Qed.

(** C28: Streams are numbered without gaps, and Fetch1 is told of each.  Over
    any history of a CPU that is not asked to drain, the branches that change the stream
    of a thread carry the numbers after the first one in order, one by one
    (modulo the width of a sequence number), and the thread is in the last
    stream that was announced: an instruction is discarded by Execute exactly
    when Fetch1 has been, or is now being, told to leave its stream. *)
Theorem execute_streams_consecutive (pr : ExecParams) (s0 s' : Execute) (es : list XEvent)
    (bs : list (BranchData I)) (t : Z) :
  noCostIsaOk → newExecute pr = Ok s0 → params_ok pr → Forall calmEvent es → x_run es s0 = Ok (bs, s') →
  0 ≤ t < x_numThreads (xp_cfg pr) →
  ∃ i, vget (x_info s') t = Ok i ∧ consecutive firstStreamSeqNum (announced t bs) (x_streamSeqNum i).
Proof.
  intros HI Hn Hp Hes Hr Ht. pose proof (newExecute_ready pr s0 Hn Hp) as Hrd.
  destruct (newExecute_start pr s0 Hn Hp) as (_ & Ha & _ & _ & _ & Hs).
  destruct (streams_run es s0 bs s' t firstStreamSeqNum) as (m & Hm & Hc); try done.
  - rewrite Hs. apply vget_Ok. split; [lia|]. apply lookup_replicate. split; [done|lia].
  - unfold streams in Hm. rewrite vget_fmap in Hm. destruct (vget (x_info s') t) as [i|]; [|done].
    injection Hm as <-. by exists i.
Qed.

(** ** Fetch1 behind Execute *)

(** Fetch1's abstract source follows the branches [bs] of Execute, with a
    branch of Fetch2 and anything that leaves the tags alone in each cycle;
    every branch of Execute is newer than the stream that the source is in. *)
Fixpoint follows (c : F1Config) (src : Z → Source) (bs : list (BranchData I))
    (others : list (BranchData I * ((Z → Source) → Z → Source))) : Prop :=
  match bs, others with
  | b :: bs, (pb, f) :: others => newer src b ∧ follows c (f (src_branches c b pb src)) bs others
  | _, _ => True
  end.

Definition keepsTags (f : (Z → Source) → Z → Source) : Prop := ∀ src t, src_tag (f src t) = src_tag (src t).

(** the source is not ahead of Execute *)
Definition behind (src : Z → Source) s : Prop :=
  ∀ t n, vget (streams s) t = Ok n → (src_tag (src t)).1 ≤ n.

Lemma src_predict_stream c b (a : Source) : (src_tag (src_predict c b a)).1 = (src_tag a).1.
Proof.
  unfold src_predict, src_branch. destruct (_ && _) eqn:E; [|done]. destruct (target b); [|done]. cbn.
  apply andb_true_iff in E as [_ E%Z.eqb_eq]. done.
Qed.

Lemma src_execute_stream c b (a : Source) :
  (src_tag (src_execute c b a)).1 = newStreamSeqNum b ∨ src_tag (src_execute c b a) = src_tag a.
Proof.
  unfold src_execute, src_branch. destruct (_ && _); [|by right]. destruct (target b); [by left|by right].
Qed.

Lemma behind_step c src s s1 pb : told s s1 → behind src s →
  (∀ t n, vget (streams s) t = Ok n → n + 1 < 2 ^ 64) → (∀ t n, vget (streams s) t = Ok n → 0 ≤ n) →
  newer src (x_branch s1) ∧ behind (src_branches c (x_branch s1) pb src) s1.
Proof.
  intros Ht Hbe Hmax Hpos. split.
  - intros _ Hch. unfold told, changing in Ht. rewrite Hch in Ht. destruct Ht as (n & Hn & -> & _).
    rewrite u64_id by (split; [specialize (Hpos _ _ Hn); lia|by eapply Hmax]). specialize (Hbe _ _ Hn). lia.
  - intros t m Hm. destruct (vget (streams s) t) as [n|] eqn:Hn.
    + destruct (told_thread s s1 t n Ht Hn) as (m' & Hm' & Hif). rewrite Hm in Hm'. injection Hm' as <-.
      specialize (Hbe t n Hn). specialize (Hmax t n Hn). specialize (Hpos t n Hn).
      unfold src_branches. rewrite andb_comm. destruct (_ && _).
      * destruct Hif as [Hk ->]. rewrite u64_id in * by lia.
        destruct (src_execute_stream c (x_branch s1) (src t)) as [->| ->]; lia.
      * subst m. destruct (brThreadId pb =? t); [|done]. by rewrite src_predict_stream.
    + exfalso. apply vget_bound in Hm. assert (length (streams s1) = length (streams s)) as Hl.
      { unfold told in Ht. destruct (changing s1); [|by rewrite Ht]. destruct Ht as (? & _ & _ & Hs).
        by apply vset_length in Hs. }
      destruct (vget_lt (streams s) t) as [k Hk]; [lia|congruence].
Qed.

Lemma told_bound s s1 N : told s s1 → N + 1 < 2 ^ 64 → (∀ t n, vget (streams s) t = Ok n → 0 ≤ n ≤ N) →
  ∀ t n, vget (streams s1) t = Ok n → 0 ≤ n ≤ N + 1.
Proof.
  intros Ht HN Hb t m Hm. unfold told in Ht. destruct (changing s1).
  - destruct Ht as (n & Hn & _ & Hs). apply Hb in Hn. rewrite u64_id in Hs by lia.
    destruct (vset_cases _ _ _ _ _ _ Hs Hm) as [[-> ->]|[_ Hv]]; [lia|]. apply Hb in Hv. lia.
  - rewrite Ht in Hm. apply Hb in Hm. lia.
Qed.

Lemma follows_run c es s bs s' N others src : noCostIsaOk → Forall calmEvent es → ready s → awake s →
  x_run es s = Ok (bs, s') →
  (∀ t n, vget (streams s) t = Ok n → 0 ≤ n ≤ N) → N + Z.of_nat (length es) < 2 ^ 64 → behind src s →
  Forall (λ o, keepsTags o.2) others → follows c src bs others.
Proof.
  intros HI Hes. revert s bs N others src.
  induction Hes as [|ev es [Hev Hd] Hes IH]; intros s bs N others src Hr Ha Hrun HN Hlen Hbe Ho.
  { by injection Hrun as <- <-. }
  destruct (run_cons ev es s bs s') as (s1 & bs1 & s1' & Ht & Hst & Hr1 & Ha1 & -> & Hrun1); try done.
  destruct others as [|[pb f] others]; [done|]. apply Forall_cons in Ho as [Hf Ho]. cbn [length] in Hlen.
  destruct (behind_step c src s s1 pb Ht Hbe) as [Hnew Hbe'].
  { intros t n Hn. apply HN in Hn. lia. }
  { intros t n Hn. apply HN in Hn. lia. }
  split; [done|]. apply (IH s1' bs1 (N + 1)); try done; [|lia|].
  - intros t n. rewrite Hst. apply (told_bound s s1 N); [done|lia|done].
  - intros t n. rewrite Hst. intros Hn. rewrite Hf. by apply Hbe'.
Qed.

(** C19: Execute meets what Fetch1 relies on.  Over any history of a CPU that is
    not asked to drain, every change of stream that Execute asks for has a number
    larger than the one of the stream that Fetch1's thread is in, whatever
    predictions of Fetch2 and whatever other events Fetch1 handles in between:
    the premise [newer] of Fetch1's refinement theorem. *)
Theorem execute_branches_are_newer (pr : ExecParams) (s0 s' : Execute) (es : list XEvent)
    (bs : list (BranchData I)) (c : F1Config) (p0 : PCState)
    (others : list (BranchData I * ((Z → Source) → Z → Source))) :
  noCostIsaOk → newExecute pr = Ok s0 → params_ok pr → Forall calmEvent es → x_run es s0 = Ok (bs, s') →
  Z.of_nat (length es) < 2 ^ 63 → Forall (λ o, keepsTags o.2) others →
  follows c (src_start p0) bs others.
Proof.
  intros HI Hn Hp Hes Hr Hlen Ho. pose proof (newExecute_ready pr s0 Hn Hp) as Hrd.
  destruct (newExecute_start pr s0 Hn Hp) as (_ & Ha & _ & _ & _ & Hs).
  assert (∀ t n, vget (streams s0) t = Ok n → n = 1) as H1.
  { intros t n. rewrite Hs. by intros [_ [-> _]%lookup_replicate]%vget_Ok. }
  apply (follows_run c es s0 bs s' 1); try done; [|lia|].
  - intros t n ->%H1. lia.
  - intros t n ->%H1. done.
Qed.
End history.

(** ** A machine to run

    The thread semantics of the small instruction set, with one thread and one
    functional unit. *)
Module ToyExec.

#[local] Existing Instance Toy.isa.

Record tc := mkTc {
  t_pc : Z * Z;
  t_status : ThreadStatus;
  t_pred : bool;
  t_mem : bool;
  t_reg : Z;       (* the register that loads write *)
}.

Definition setPC (p : Z * Z) (t : tc) : tc := mkTc p (t_status t) (t_pred t) (t_mem t) (t_reg t).

#[export] Instance sem : ThreadSem Toy.isa := {|
  TC := tc;
  tc_pcState := t_pc;
  tc_setPC := setPC;
  tc_status := t_status;
  tc_setStatus x t := mkTc (t_pc t) x (t_pred t) (t_mem t) (t_reg t);
  tc_useForClone _ := false;
  tc_predicate := t_pred;
  tc_setPredicate b t := mkTc (t_pc t) (t_status t) b (t_mem t) (t_reg t);
  tc_memAccPredicate := t_mem;
  tc_setMemAccPredicate b t := mkTc (t_pc t) (t_status t) (t_pred t) b (t_reg t);
  sem_execute i t := (if Toy.control i then setPC ((t_pc t).1 + 64, 0) t else t, None);
  sem_initiateAcc i t :=
    AccMem (Toy.load i) (if Toy.load i then [] else replicate 8 (Some 9)) 8 4096 noFlags (replicate 8 true)
      t (λ f, (t, f));
  sem_completeAcc i p t :=
    (match p with
     | Some (mkPacket _ false (Some (Some b :: _)) _ _) => mkTc (t_pc t) (t_status t) (t_pred t) (t_mem t) b
     | _ => t
     end, None);
  sem_invoke f i t := setPC (512, 0) t;
  sem_timingExpr _ _ _ := 0;
  sem_pcEvents t := t;
  sem_flatten t r := r;
|}.

Definition reply : TlbReply := mkTlbReply None 4096 noFlags false.

(** a cycle's surroundings; the TLB answers at once, or later *)
Definition envWith (now : Z) (tlb : option TlbReply) : ExecEnv (TS := sem) :=
  mkExecEnv now (λ _, true) true (λ p, p) (λ _, tlb) 0 [] [] (λ _, 0)
    (λ _, false) (λ _ _, false) (λ _ _, None) 1.
Definition env (now : Z) : ExecEnv (TS := sem) := envWith now (Some reply).

Definition params : ExecParams (TS := sem) :=
  mkExecParams (mkExecConfig SingleThreaded 1 2 1 2 1 true 0 true 0 3) 2
    [mkFU [1; 2; 3; 4] 2 1 [] []] 8 (4, 2, 1, 2, 1) (newLSQ 1 64 64 2 2 2 2 4 1)
    [mkTc (0, 0) Active true true 0].

(** the [k]-th instruction of stream [st], at address [4 * k] *)
Definition inst (i : Toy.si) (st k : Z) : MyMinorDynInst Toy.isa :=
  with_pc (Some (4 * k, 0)) (newDynInst (I := Toy.isa) i (mkInstId 0 st 1 1 k k) None).

Definition line (l : list (MyMinorDynInst Toy.isa)) : ForwardInstData Toy.isa := mkInsts l 0.
Definition none : ForwardInstData Toy.isa := newForwardInstData 0 InvalidThreadID.

Definition start : res (Execute (TS := sem)) := newExecute params.

Definition quietCycles (from to : Z) : list (XEvent (TS := sem)) := (λ n, XCycle (env n) none) <$> zrange from to.

(** a line with a branch, and an instruction after the branch *)
Definition branching : list (XEvent (TS := sem)) :=
  XCycle (env 1) (line [inst Toy.alu 1 1; inst Toy.br 1 2; inst Toy.alu 1 3]) :: quietCycles 2 8.

(** what the prediction table says of the line that holds the load and the
    store below: a constant load of the value 7 *)
Definition sevens : Z := 0x0707070707070707.
Definition constant : lvptData := mkLvptData true true sevens 0 5 4096 3.
Definition predicted (i : MyMinorDynInst Toy.isa) : MyMinorDynInst Toy.isa := with_lvptOut constant i.

Definition response : Packet :=
  mkPacket (mkRequest 4096 8 (Some 4096) noFlags (replicate 8 true) false false) false
    (Some (replicate 8 (Some 7))) false true.

(** a load that finds 7, then a store of 9 to the same address *)
Definition storing : list (XEvent (TS := sem)) :=
  XCycle (env 1) (line [predicted (inst Toy.ld 1 1)]) :: quietCycles 2 4 ++ [XResponse 0 response]
  ++ quietCycles 5 7 ++ [XCycle (env 8) (line [predicted (inst Toy.st 1 2)]); XCycle (env 9) none;
     XCycle (envWith 10 None) none; XTranslated (env 10) 1 0 reply false] ++ quietCycles 11 13.

(** the state after a history *)
Definition after (es : list (XEvent (TS := sem))) : res (Execute (TS := sem)) :=
  s ← start; match x_run es s with Ok (_, s') => Ok s' | Stop x => Stop x end.

Lemma isa_ok : noCostIsaOk (I := Toy.isa).
Proof. intros si H. cbn in *. unfold No_OpClass in H. by rewrite H. Qed.

Lemma params_fine : params_ok params.
Proof. by split. Qed.

Lemma env_fine n : env_ok (env n).
Proof. split; [|done]. split; [done|]. by left. Qed.

Lemma quiet_fine a b : Forall calmEvent (quietCycles a b).
Proof.
  unfold quietCycles. apply Forall_fmap, Forall_forall. intros n _. split; [|done]. split; [apply env_fine|done].
Qed.

Lemma branching_fine : Forall calmEvent branching.
Proof. constructor; [|apply quiet_fine]. split; [|done]. split; [apply env_fine|done]. Qed.
End ToyExec.

Lemma toy_ready es s : Forall event_ok es → ToyExec.after es = Ok s → ready s.
Proof.
  intros Hes. unfold ToyExec.after. destruct ToyExec.start as [s0|] eqn:E0; [|done]. cbn.
  destruct (x_run es s0) as [[bs s1]|] eqn:Er; [|done]. intros [= <-].
  exact (run_ready ToyExec.params s0 es bs s1 ToyExec.isa_ok E0 ToyExec.params_fine Hes Er).
Qed.

Lemma branching_events : Forall event_ok ToyExec.branching.
Proof. eapply Forall_impl; [apply ToyExec.branching_fine|]. by intros ev []. Qed.

Lemma execute_terminates_witness :
  ∃ s0, ToyExec.start = Ok s0 ∧ x_run ToyExec.branching s0 ≠ Stop OutOfFuel.
Proof.
  eexists. split; [vm_compute; reflexivity|].
  apply (execute_terminates ToyExec.params);
    [exact ToyExec.isa_ok|vm_compute; reflexivity|exact ToyExec.params_fine|exact branching_events].
Defined.

(** one stream is announced, by the branch *)
Lemma execute_streams_consecutive_witness :
  ∃ s0 bs s', ToyExec.start = Ok s0 ∧ x_run ToyExec.branching s0 = Ok (bs, s') ∧ announced 0 bs = [2]
    ∧ ∃ i, vget (x_info s') 0 = Ok i ∧ consecutive firstStreamSeqNum (announced 0 bs) (x_streamSeqNum i).
Proof.
  eexists _, _, _. split; [vm_compute; reflexivity|]. split; [vm_compute; reflexivity|]. split; [vm_compute; reflexivity|].
  eapply (execute_streams_consecutive ToyExec.params _ _ ToyExec.branching);
    [exact ToyExec.isa_ok|vm_compute; reflexivity|exact ToyExec.params_fine|exact ToyExec.branching_fine
    |vm_compute; reflexivity|done].
Defined.

Lemma execute_branches_are_newer_witness :
  ∃ s0 bs s', ToyExec.start = Ok s0 ∧ x_run ToyExec.branching s0 = Ok (bs, s') ∧ announced 0 bs = [2]
    ∧ follows (mkF1Config 1 64 64 2 16 3 7) (src_start (I := Toy.isa) (0, 0)) bs (replicate 7 (BranchData0, λ src, src)).
Proof.
  eexists _, _, _. split; [vm_compute; reflexivity|]. split; [vm_compute; reflexivity|]. split; [vm_compute; reflexivity|].
  eapply (execute_branches_are_newer ToyExec.params _ _ ToyExec.branching);
    [exact ToyExec.isa_ok|vm_compute; reflexivity|exact ToyExec.params_fine|exact ToyExec.branching_fine
    |vm_compute; reflexivity|done|by apply Forall_replicate].
Defined.

