(* ===== verification/ExecuteCvu.v ===== *)
(** * Stores and the constant verification unit in Execute

    [handleMemResponse] looks every access up in the constant verification
    unit, stores included, and puts the predicted value in the place of the
    access's data when it finds it.  Fetch2 gives all instructions of a line
    the prediction of the line, so that a store can carry the prediction made
    for a load of the same line. *)
From stdpp Require Import gmap.
From S2P Require Import Prelude TimeBuf Buffers Activity LVPT CVU PipeData Cpu Scoreboard FuncUnit.
From S2P Require Import LsqAddr LsqRequest Lsq Runs Execute ExecuteFrame ExecuteCommit ExecuteIssue ExecuteStage.
From S2P Require Import ExecuteHistory.

Section cvu.
Context `{I : Isa} {TS : ThreadSem I}.
Notation DynInst := (MyMinorDynInst I).
Implicit Types (s : Execute) (e : ExecEnv) (l : LSQ I) (r : LSQRequest I).

(** ** The load/store queue *)

(** the request [p] will send the packet [pkt] and waits for the store buffer *)
Record going_out (p : Ptr) (pkt : Packet) l : Prop := {
  ou_request : ∃ r, heap l !! p = Some r ∧ getHeadPacket r = Ok pkt ∧ rq_state r = StoreToStoreBuffer;
}.

(** or is in it *)
Definition gone_out (p : Ptr) (pkt : Packet) l : Prop :=
  p ∈ slots l ∧ ∃ r, heap l !! p = Some r ∧ getHeadPacket r = Ok pkt ∧ rq_state r = StoreInStoreBuffer.

Lemma set_Ok p (f : LSQRequest I → LSQRequest I) l u l' r : set p f l = Ok (u, l') → heap l !! p = Some r →
  l' = upd_heap <[p := f r]> l.
Proof.
  unfold set, update, sbind, deref, slift, smod. intros H Hr. rewrite Hr in H. cbn in H. by injection H as _ <-.
Qed.

Lemma sendStore_out p pkt l u l' : sendStoreToStoreBuffer p l = Ok (u, l') → going_out p pkt l → gone_out p pkt l'.
Proof.
  intros H [(r & Hr & Hp & Hst)]. unfold sendStoreToStoreBuffer in H.
  apply sbind_Ok in H as (r0 & l0 & H0 & H). unfold deref in H0. rewrite Hr in H0. injection H0 as <- <-.
  apply sbind_Ok in H as ([] & l1 & H1 & H).
  assert (l1 = l) as -> by (unfold sassert, slift in H1; destruct (assert_ _); [by injection H1|done]). clear H1.
  apply sbind_Ok in H as ([] & l1 & H1 & H). eapply set_Ok in H1; [|done]. subst l1.
  apply sbind_Ok in H as ([] & l1 & [= <-] & H). apply sbind_Ok in H as ([] & l1 & [= <-] & H).
  apply sbind_Ok in H as (r1 & l1 & H1 & H).
  unfold deref in H1. cbn in H1. rewrite lookup_insert_eq in H1. injection H1 as <- <-.
  assert (isComplete (setInst (setInStoreBuffer true (rq_inst r)) r) = false) as Hc
    by (unfold isComplete; cbn; by rewrite Hst). rewrite Hc in H.
  apply sbind_Ok in H as ([] & l1 & H1 & [= _ <-]). eapply set_Ok in H1; [|cbn; apply lookup_insert_eq]. subst l1.
  split; cbn; [apply elem_of_app; right; by left|]. eexists. rewrite lookup_insert_eq. by split_and!.
Qed.

Lemma popResponse_out p pkt l u l' : popResponse p l = Ok (u, l') → gone_out p pkt l → gone_out p pkt l'.
Proof.
  intros H [Hs (r & Hr & Hp & Hst)]. unfold popResponse in H.
  apply sbind_Ok in H as (? & ? & [= <- <-] & H). apply sbind_Ok in H as ([] & l1 & H1 & H).
  assert (l1 = l) as -> by (unfold sassert, slift in H1; destruct (assert_ _); [by injection H1|done]). clear H1.
  apply sbind_Ok in H as (q & l1 & H1 & H).
  assert (l1 = l) as -> by (unfold slift in H1; destruct (Queue_pop _); [by injection H1|done]). clear H1.
  apply sbind_Ok in H as ([] & l1 & [= <-] & H). apply sbind_Ok in H as (r0 & l1 & H1 & H).
  unfold deref in H1. cbn in H1. rewrite Hr in H1. injection H1 as <- <-. rewrite (bool_decide_eq_true_2 _ Hst) in H.
  apply sbind_Ok in H as ([] & l2 & H2 & H). apply sbind_Ok in H as ([] & l3 & H3 & [= _ <-]).
  split.
  - destruct (rq_isLoad r), (rq_issuedToMemory r); 
      injection H2 as <-; injection H3 as <-; exact Hs.
  - destruct (rq_isLoad r), (rq_issuedToMemory r); injection H2 as <-; injection H3 as <-; cbn; eauto.
Qed.

(** ** Code that does not touch the load/store queue *)

Definition sameLsq s s' : Prop := x_lsq s' = x_lsq s.

#[export] Instance sameLsq_preorder : PreOrder sameLsq.
Proof. unfold sameLsq. split; [by intros s|]. intros s s1 s2 H H'. congruence. Qed.

Lemma keeps_Ok {A} (R : Execute → Execute → Prop) (m : St Execute A) s a s' :
  keepsM R m → m s = Ok (a, s') → R s s'.
Proof. intros H E. specialize (H s). unfold runs in H. by rewrite E in H. Qed.

Lemma sameLsq_instAt p : keepsM sameLsq (instAt p).
Proof. intros s. unfold runs, instAt. destruct (x_insts s !! p); done. Qed.

Lemma sameLsq_mod f : (∀ s, x_lsq (f s) = x_lsq s) → keepsM sameLsq (smod f).
Proof. intros H s. apply runs_mod, H. Qed.

Lemma sameLsq_tryToBranch inst f : keepsM sameLsq (tryToBranch inst f).
Proof.
  unfold tryToBranch, updateBranchData, x_updThread, setInstAt, setContext, getContext, x_thread.
  repeat first [ solve [apply sameLsq_instAt] | solve [apply sameLsq_mod; done] | keeps_step ].
Qed.

Lemma sameLsq_accounting inst : keepsM sameLsq (doInstCommitAccounting inst).
Proof. unfold doInstCommitAccounting. repeat first [ solve [apply sameLsq_mod; done] | keeps_step ]. Qed.

Lemma sameLsq_setInstAt p f : keepsM sameLsq (setInstAt p f).
Proof.
  unfold setInstAt. repeat first [ solve [apply sameLsq_instAt] | solve [apply sameLsq_mod; done] | keeps_step ].
Qed.

Lemma sameLsq_setContext tid tc : keepsM sameLsq (setContext tid tc).
Proof. unfold setContext. repeat first [ solve [apply sameLsq_mod; done] | keeps_step ]. Qed.

Lemma callLsq_Ok {A} (m : St (LSQ I) A) s a s' : callLsq m s = Ok (a, s') →
  ∃ l, m (x_lsq s) = Ok (a, l) ∧ s' = xu_lsq l s.
Proof. unfold callLsq. destruct (m (x_lsq s)) as [[b l]|]; [|done]. intros [= <- <-]. eauto. Qed.

(** ** The store *)

(** the packet of an access whose prediction is in the unit *)
Definition replaced (pkt : Packet) (v : Z) : Packet :=
  setPacketData (take (Z.to_nat (q_size (pk_req pkt))) (ulongBytes v)) pkt.

Lemma cvuData_hit c (inst : DynInst) pkt pa :
  verifyEntryInCVU c (q_vaddr (pk_req pkt)) (outDataIndex (lvptOut inst)) (outDataValue (lvptOut inst))
    (outDataConstant (lvptOut inst)) = Ok (Some pa) → 0 ≤ q_size (pk_req pkt) ≤ 8 →
  cvuData c inst pkt = Ok (replaced pkt (outDataValue (lvptOut inst))).
Proof.
  intros Hv Hs. unfold cvuData. rewrite Hv. cbn [rbind]. unfold readBytes.
  assert (length (ulongBytes (outDataValue (lvptOut inst))) = 8%nat) as Hl by done. rewrite Hl.
  rewrite !(proj2 (Z.leb_le _ _)) by lia. cbn [andb rbind]. done.
Qed.

(** the store enters the buffer *)
Lemma storeOut p response (pkt pkt' : Packet) (f : Z → CVU → res CVU) s u s' :
  (let! pa := slift (getPaddr (pk_req pkt)) in
   do! lsq_updCvu (f pa) in
   do! callLsq (sendStoreToStoreBuffer response) in
   setInstAt p (setInStoreBuffer true)) s = Ok (u, s') →
  going_out response pkt' (x_lsq s) → gone_out response pkt' (x_lsq s').
Proof.
  intros H Hout. apply sbind_Ok in H as (pa & s1 & H1 & H).
  apply (keeps_Ok sameLsq) in H1; [|solve [keeps_tac]]. rewrite <- H1 in Hout. clear H1.
  apply sbind_Ok in H as ([] & s2 & H2 & H). unfold lsq_updCvu in H2. apply callLsq_Ok in H2 as (l2 & H2 & ->).
  apply sbind_Ok in H2 as (? & ? & [= <- <-] & H2). apply sbind_Ok in H2 as (c & l3 & H3 & [= <-]).
  unfold slift in H3. destruct (f pa _); [|done]. injection H3 as <- <-.
  apply sbind_Ok in H as ([] & s3 & H3 & H). apply callLsq_Ok in H3 as (l3 & H3 & ->).
  apply (keeps_Ok sameLsq) in H; [|apply sameLsq_setInstAt]. rewrite H. eapply sendStore_out; [done|].
  destruct Hout as [Ho]. by split.
Qed.

(** [completeAccess] of a store *)
Lemma completeAccess_store e p (inst : DynInst) si response pkt pa r a b s s' :
  isLoad si = false → rq_kind r = SingleDataRequest a b →
  verifyEntryInCVU (cvu (x_lsq s)) (q_vaddr (pk_req pkt)) (outDataIndex (lvptOut inst)) (outDataValue (lvptOut inst))
    (outDataConstant (lvptOut inst)) = Ok (Some pa) → 0 ≤ q_size (pk_req pkt) ≤ 8 →
  heap (x_lsq s) !! response = Some r → rq_state r = StoreToStoreBuffer →
  completeAccess e p inst si response pkt s = Ok (None, s') →
  gone_out response (replaced pkt (outDataValue (lvptOut inst))) (x_lsq s').
Proof.
  intros Hload Hk Hv Hsz Hr Hst H. unfold completeAccess in H. rewrite Hload in H. cbn [andb] in H.
  apply sbind_Ok in H as (? & ? & [= <- <-] & H). rewrite (cvuData_hit _ _ _ _ Hv Hsz) in H.
  apply sbind_Ok in H as (? & ? & [= <- <-] & H). apply sbind_Ok in H as ([] & s1 & H1 & H).
  apply callLsq_Ok in H1 as (l1 & H1 & ->). eapply set_Ok in H1; [|done]. subst l1.
  set (s1 := xu_lsq _ s) in H.
  assert (going_out response (replaced pkt (outDataValue (lvptOut inst))) (x_lsq s1)) as Hout.
  { split. eexists. cbn. rewrite lookup_insert_eq. split; [done|]. split; [|done].
    unfold getHeadPacket. cbn. by rewrite Hk. }
  clearbody s1. clear Hr Hst Hv.
  apply sbind_Ok in H as (tc & s2 & H2 & H). apply (keeps_Ok sameLsq) in H2; [|solve [keeps_tac]].
  rewrite <- H2 in Hout. clear H2. destruct (sem_completeAcc si _ tc) as [tc' f].
  apply sbind_Ok in H as ([] & s3 & H3 & H). apply (keeps_Ok sameLsq) in H3; [|apply sameLsq_setContext].
  rewrite <- H3 in Hout. clear H3.
  apply sbind_Ok in H as (d & s4 & H4 & H). apply (keeps_Ok sameLsq) in H4; [|solve [keeps_tac]].
  rewrite <- H4 in Hout. clear H4. apply sbind_Ok in H as (? & ? & [= _ <-] & H).
  destruct (faultSet f) eqn:Hf.
  { apply sbind_Ok in H as (? & ? & _ & [= -> _]). done. }
  destruct Hout as [(r1 & Hr1 & Hp1 & Hst1)]. apply sbind_Ok in H as (r2 & s5 & H5 & H).
  apply callLsq_Ok in H5 as (l5 & H5 & ->). unfold deref in H5. rewrite Hr1 in H5. injection H5 as <- <-.
  unfold needsToBeSentToStoreBuffer in H. rewrite (bool_decide_eq_true_2 _ Hst1) in H.
  apply sbind_Ok in H as (? & s6 & H6 & H).
  assert (x_lsq s' = x_lsq s6) as ->.
  { apply sbind_Ok in H as (pc_ & s7 & H7 & H). apply (keeps_Ok sameLsq) in H7; [|solve [keeps_tac]].
    apply sbind_Ok in H as (? & ? & [= _ <-] & [= <-]). done. }
  apply (storeOut _ _ _ _ (λ pa c, storeInvalidate c _ pa) _ _ _ H6). split. eauto.
Qed.

(** C40: A constant prediction destroys a store.  When a store that is not split and
    writes at most 8 bytes carries a constant prediction, and this is found in the
    constant verification unit for the store's address, [handleMemResponse]
    replaces the bytes that the store was to write by the predicted value before
    it moves the store to the store buffer: where the store has no translation
    fault and completing it raises none, the packet that the buffer sends to memory
    has the bytes of the prediction, whatever the store's data. *)
Theorem constant_prediction_overwrites_store e p response (inst : DynInst) r pkt pa a b s s' :
  x_insts s !! p = Some inst → isLoad (staticInst inst) = false → isStore (staticInst inst) = true →
  heap (x_lsq s) !! response = Some r → rq_kind r = SingleDataRequest a b →
  rq_packet r = Some pkt → rq_state r = StoreToStoreBuffer →
  translationFault (ex (rq_inst r)) = None → 0 ≤ q_size (pk_req pkt) ≤ 8 →
  verifyEntryInCVU (cvu (x_lsq s)) (q_vaddr (pk_req pkt)) (outDataIndex (lvptOut inst)) (outDataValue (lvptOut inst))
    (outDataConstant (lvptOut inst)) = Ok (Some pa) →
  handleMemResponse e p response s = Ok (None, s') →
  response ∈ slots (x_lsq s') ∧ ∃ r' pkt', heap (x_lsq s') !! response = Some r' ∧ getHeadPacket r' = Ok pkt'
    ∧ pk_req pkt' = pk_req pkt
    ∧ pk_data pkt' = Some (take (Z.to_nat (q_size (pk_req pkt))) (ulongBytes (outDataValue (lvptOut inst)))).
Proof.
  intros Hinst Hload Hstore Hr Hk Hp Hst Htf Hsz Hv H. unfold handleMemResponse in H.
  apply sbind_Ok in H as (x & s1 & H1 & H). unfold instAt in H1. rewrite Hinst in H1. injection H1 as <- <-.
  apply sbind_Ok in H as (r1 & s1 & H1 & H). apply callLsq_Ok in H1 as (l1 & H1 & ->).
  unfold deref in H1. rewrite Hr in H1. injection H1 as <- <-. rewrite Htf, Hp in H.
  apply sbind_Ok in H as (tc & s1 & H1 & H). apply (keeps_Ok sameLsq) in H1; [|solve [keeps_tac]].
  apply sbind_Ok in H as (tc1 & s2 & H2 & H). apply (keeps_Ok sameLsq) in H2; [|solve [keeps_tac]].
  apply sbind_Ok in H as ([] & s3 & H3 & H). apply (keeps_Ok sameLsq) in H3; [|apply sameLsq_setContext].
  apply sbind_Ok in H as (si & s4 & H4 & H). unfold slift in H4.
  destruct (derefInst (staticInst inst)) as [si'|] eqn:Esi; [|done]. injection H4 as <- <-.
  apply derefInst_Ok in Esi. subst si'.
  assert (x_lsq s3 = x_lsq s) as Hl3 by (unfold sameLsq in *; cbn in H1; congruence). clear H1 H2 H3.
  apply sbind_Ok in H as (f & s4 & H4 & H). rewrite Hstore in H4. cbn [faultSet orb] in H4.
  destruct (pk_error pkt); [done|].
  assert (f = None) as ->.
  { do 4 (apply sbind_Ok in H as (? & ? & _ & H)). apply sbind_Ok in H as (? & ? & _ & [= -> _]). done. }
  eapply completeAccess_store in H4; [|done|done|by rewrite Hl3|done|by rewrite Hl3|done].
  apply sbind_Ok in H as ([] & s5 & H5 & H). apply callLsq_Ok in H5 as (l5 & H5 & ->).
  eapply popResponse_out in H4; [|done].
  apply sbind_Ok in H as ([] & s6 & H6 & H). apply (keeps_Ok sameLsq) in H6; [|apply sameLsq_accounting].
  apply sbind_Ok in H as ([] & s7 & H7 & H). apply (keeps_Ok sameLsq) in H7; [|apply sameLsq_tryToBranch].
  apply sbind_Ok in H as (tc2 & s8 & H8 & H). apply (keeps_Ok sameLsq) in H8; [|solve [keeps_tac]].
  apply sbind_Ok in H as ([] & s9 & H9 & [= <-]). apply (keeps_Ok sameLsq) in H9; [|apply sameLsq_setInstAt].
  assert (x_lsq s9 = l5) as -> by (unfold sameLsq in *; cbn in H6; congruence).
  destruct H4 as [Hin (r' & Hr' & Hp' & _)]. split; [done|]. by exists r', (replaced pkt (outDataValue (lvptOut inst))).
Qed.
End cvu.

(** A load of 7 becomes constant; the store of 9 that follows it in the line is
    about to leave for the store buffer, which gets 7. *)
Lemma constant_prediction_overwrites_store_witness :
  ∃ s s' inst r pkt, ToyExec.after (take 12 ToyExec.storing) = Ok s
    ∧ x_insts s !! 1 = Some inst ∧ heap (x_lsq s) !! 1 = Some r ∧ rq_packet r = Some pkt
    ∧ pk_data pkt = Some (replicate 8 (Some 9)) ∧ handleMemResponse (ToyExec.env 11) 1 1 s = Ok (None, s')
    ∧ take (Z.to_nat (q_size (pk_req pkt))) (ulongBytes (outDataValue (lvptOut inst))) = replicate 8 (Some 7)
    ∧ 1 ∈ slots (x_lsq s') ∧ ∃ r' pkt', heap (x_lsq s') !! 1 = Some r' ∧ getHeadPacket r' = Ok pkt'
      ∧ pk_req pkt' = pk_req pkt
      ∧ pk_data pkt' = Some (take (Z.to_nat (q_size (pk_req pkt))) (ulongBytes (outDataValue (lvptOut inst)))).
Proof.
  let r := eval vm_compute in (ToyExec.after (take 12 ToyExec.storing)) in
  lazymatch r with Ok ?s => exists s; eexists _, _, _, _; do 7 (split; [vm_compute; reflexivity|]);
    eapply (constant_prediction_overwrites_store (ToyExec.env 11) 1 1 _ _ _ _ _ _ s) end;
    lazymatch goal with |- _ ≤ _ ≤ _ => cbn; lia | _ => vm_compute; reflexivity end.
Defined.
