(* ===== verification/ExecuteProps.v ===== *)
(** * Operations of Execute

    What single operations of the stage do: branch resolution and issue. *)
From stdpp Require Import gmap.
From S2P Require Import Prelude TimeBuf Buffers Activity LVPT CVU PipeData Cpu Scoreboard FuncUnit.
From S2P Require Import LsqAddr LsqRequest Lsq Runs Execute ExecuteFrame ExecuteCommit ExecuteIssue ExecuteFlow ExecuteStage.
From S2P Require Import ExecuteHistory.

Lemma vset_get {A} (l : list A) k a b : vget l k = Ok a → is_Ok (vset l k b).
Proof. intros Hk. rewrite vset_lt by (by eapply vget_bound). by eexists. Qed.

Section props.
Context `{I : Isa} {TS : ThreadSem I}.
Notation DynInst := (MyMinorDynInst I).
Implicit Types (s : Execute) (e : ExecEnv) (i : ExecuteThreadInfo) (inst : DynInst).

(** ** Branches *)

Lemma updThread_total tid f i s : vget (x_info s) tid = Ok i →
  ∃ l, vset (x_info s) tid (f i) = Ok l ∧ x_updThread tid f s = Ok (tt, xu_info l s).
Proof.
  intros Hi. destruct (vset_get (x_info s) tid i (f i) Hi) as [l Hl]. exists l. split; [done|].
  unfold x_updThread, x_thread, sbind, sget, slift, smod. rewrite Hi. cbn. by rewrite Hl.
Qed.

Lemma updateBranchData_total tid r inst t i s : vget (x_info s) tid = Ok i → is_Ok (updateBranchData tid r inst t s).
Proof.
  intros Hi. unfold updateBranchData.
  assert (∀ m : St Execute unit, (∃ i s1, m s = Ok (tt, s1) ∧ vget (x_info s1) tid = Ok i) →
    is_Ok ((do! m in let! i := x_thread tid in
      smod (xu_branch (newBranchData r tid (x_streamSeqNum i)
        (if isBubble inst then lastPredictionSeqNum i else predictionSeqNum (id inst)) t inst))) s)) as H.
  { intros m (i1 & s1 & Hm & Hi1). unfold sbind. rewrite Hm. unfold x_thread, sbind, sget, slift, smod. rewrite Hi1.
    by eexists. }
  destruct (updThread_total tid (λ i, set_stream (u64 (x_streamSeqNum i + 1)) i) i s Hi) as (l & Hl & Hu).
  destruct r; cbn [isStreamChange]; try (apply H; eexists _, _; split; [first [done|exact Hu]|cbn; try done; by eapply vget_vset_eq]).
  by eexists.
Qed.

(** the thread of [inst] can be branched in *)
Record branchable inst s : Prop := {
  ba_context : is_Ok (vget (x_threads s) (threadId (id inst)));
  ba_info : is_Ok (vget (x_info s) (threadId (id inst)));
  ba_pc : is_Some (pc inst);
  ba_static : isNullInst (staticInst inst) = false;
  ba_target : predictedTaken inst = true → is_Some (predictedTarget inst);
}.

Lemma tryToBranch_total inst f s : branchable inst s → is_Ok (tryToBranch inst f s).
Proof.
  intros [[tc Htc] [i Hi] [p Hp] Hst Htg]. unfold tryToBranch, getContext, sbind, sget, slift. rewrite Htc, Hp.
  cbn [derefPtr]. unfold derefInst. rewrite Hst.
  assert (∀ a b t, is_Ok (branchReason inst a b t)) as Hr.
  { intros a b t. unfold branchReason. destruct (predictedTaken inst); cbn.
    - destruct (Htg eq_refl) as [q ->]. destruct a, b; by eexists.
    - destruct b; by eexists. }
  destruct (faultSet f); cbn [negb].
  - cbn. match goal with |- context [branchReason inst ?a ?b ?t] => destruct (Hr a b t) as [r ->] end.
    by eapply updateBranchData_total.
  - unfold setContext, sbind, sget, slift, smod. cbn.
    destruct (vset_get (x_threads s) (threadId (id inst)) tc
      (tc_setPC (advancePC (staticInst inst) (tc_pcState tc)) tc) Htc) as [l ->]. cbn.
    match goal with |- context [branchReason inst ?a ?b ?t] => destruct (Hr a b t) as [r ->] end.
    by eapply updateBranchData_total.
Qed.

(** C20: A branch is resolved once and for all.  When an instruction has done its work,
    [tryToBranch] returns.  If it leaves the stream alone, the instructions that
    Fetch1 sends next are the right ones: the target that was predicted is where
    the instruction went, or nothing was predicted and the instruction did not
    branch (pcs compared by the instruction set's [equals]).  Otherwise the branch for Fetch1 has the true target and the number
    of a new stream, which the thread has entered.  Where there is no fault the
    thread is at the next pc. *)
Theorem tryToBranch_resolves inst f tc n s :
  branchable inst s → changing s = false →
  vget (x_threads s) (threadId (id inst)) = Ok tc → vget (streams s) (threadId (id inst)) = Ok n →
  ∃ s', tryToBranch inst f s = Ok (tt, s')
    ∧ (faultSet f = false → vget (x_threads s') (threadId (id inst)) = Ok (tc_setPC (nextPC inst f tc) tc))
    ∧ if changing s'
      then target (x_branch s') = Some (nextPC inst f tc) ∧ brThreadId (x_branch s') = threadId (id inst)
        ∧ newStreamSeqNum (x_branch s') = u64 (n + 1) ∧ vget (streams s') (threadId (id inst)) = Ok (u64 (n + 1))
      else streams s' = streams s
        ∧ if predictedTaken inst then ∃ q, predictedTarget inst = Some q ∧ pc_equals q (nextPC inst f tc) = true
          else faultSet f = false ∧ ∃ q, pc inst = Some q ∧ pc_equals q (tc_pcState tc) = true.
Proof.
  intros Hb Hs Htc Hn. destruct (tryToBranch_total inst f s Hb) as [[[] s'] Hrun]. exists s'. split; [done|].
  pose proof (tryToBranch_runs inst f s Hs) as H. unfold runs in H. rewrite Hrun in H.
  destruct H as ([_ Ht] & tc' & Htc' & [_ Hmv Hch Hst]). rewrite Htc in Htc'. injection Htc' as <-.
  split; [done|]. unfold told in Ht. destruct (changing s').
  - destruct Ht as (k & Hk & Hnew & Hset). destruct (Hch eq_refl) as (Htg & Hid & _). rewrite Hid in *.
    rewrite Hn in Hk. injection Hk as <-. split_and!; try done. by eapply vget_vset_eq.
  - by destruct (Hst eq_refl) as [_ Hst'].
Qed.

(** ** Discarded instructions *)

(** instructions only leave the queues of instructions in flight *)
Definition shrinks (l l' : list ExecuteThreadInfo) : Prop := ∀ t i', vget l' t = Ok i' →
  ∃ i, vget l t = Ok i ∧ queue (inFlightInsts i') ⊆ queue (inFlightInsts i).

#[export] Instance shrinks_preorder : PreOrder shrinks.
Proof.
  unfold shrinks. split; [by eauto|]. intros l l1 l2 H1 H2 t i' Hi'.
  destruct (H2 t i' Hi') as (i & Hi & Hsub). destruct (H1 t i Hi) as (j & Hj & Hsub'). exists j. split; [done|].
  by etrans.
Qed.

(** what stands at the ends of the functional units *)
Definition fronts s : list (res QueuedInst) := (λ f, front (fuPipe f)) <$> x_funcUnits s.

(** nothing that a program or the memory system sees has changed *)
Record inert s s' : Prop := {
  ie_queues : shrinks (x_info s) (x_info s');
  ie_fronts : fronts s' = fronts s;
  ie_threads : x_threads s' = x_threads s;
  ie_numInst : x_numInst s' = x_numInst s;
  ie_numOp : x_numOp s' = x_numOp s;
  ie_branch : x_branch s' = x_branch s;
  ie_slots : slots (x_lsq s') = slots (x_lsq s);
  ie_cvu : cvu (x_lsq s') = cvu (x_lsq s);
  ie_streams : streams s' = streams s;
  ie_insts : x_insts s' = x_insts s;
}.

#[export] Instance inert_preorder : PreOrder inert.
Proof. split; [by intros s; split|]. intros s s1 s2 [] []. split; [by etrans|congruence..]. Qed.

(** the same for the load/store queue alone *)
Definition sameStores (l l' : LSQ I) : Prop := slots l' = slots l ∧ cvu l' = cvu l.

#[export] Instance sameStores_preorder : PreOrder sameStores.
Proof. unfold sameStores. split; [done|]. intros l l1 l2 [] []. split; congruence. Qed.

Lemma sameStores_deref p : keepsM sameStores (deref (I:=I) p).
Proof. intros l. unfold runs, deref. by destruct (heap l !! p). Qed.

Lemma inert_callLsq {A} (m : St (LSQ I) A) : keepsM sameStores m → keepsM inert (callLsq m).
Proof.
  intros Hm s. specialize (Hm (x_lsq s)). unfold runs, callLsq in *. destruct (m (x_lsq s)) as [[a l]|]; [|done].
  by destruct Hm.
Qed.

Lemma inert_instAt p : keepsM inert (instAt p).
Proof. intros s. unfold runs, instAt. by destruct (x_insts s !! p). Qed.

Lemma inert_setThread tid i i' l s : vget (x_info s) tid = Ok i → vset (x_info s) tid i' = Ok l →
  x_streamSeqNum i' = x_streamSeqNum i → queue (inFlightInsts i') ⊆ queue (inFlightInsts i) →
  inert s (xu_info l s).
Proof.
  intros Hi Hl Hs Hq. split; try done.
  - cbn. intros t j Hj. destruct (decide (t = tid)) as [->|Hne].
    + rewrite (vget_vset_eq _ _ _ _ Hl) in Hj. injection Hj as <-. eauto.
    + rewrite (vget_vset_ne _ _ _ _ _ Hl (not_eq_sym Hne)) in Hj. eauto.
  - unfold streams. cbn. apply (vset_fmap x_streamSeqNum) in Hl. rewrite Hs, vset_self in Hl; [congruence|].
    by rewrite vget_fmap, Hi.
Qed.

Lemma inert_updThread tid f :
  (∀ i, x_streamSeqNum (f i) = x_streamSeqNum i ∧ queue (inFlightInsts (f i)) ⊆ queue (inFlightInsts i)) →
  keepsM inert (x_updThread tid f).
Proof. intros Hf s. apply runs_updThread. intros i l Hi Hl. by eapply inert_setThread; [..|apply Hf|apply Hf]. Qed.

Lemma inert_popInFlight {A} tid (k : St Execute A) : keepsM inert k →
  keepsM inert (let! i := x_thread tid in
    let! q := slift (Queue_pop (inFlightInsts i)) in do! x_updThread tid (set_inFlight q) in k).
Proof.
  intros Hk s. apply runs_bind, runs_x_thread. intros i Hi.
  apply runs_bind, runs_lift; [auto with ends|]. intros q Hq. apply runs_bind, runs_updThread. intros i' l Hi' Hl.
  rewrite Hi in Hi'. injection Hi' as <-. eapply runs_conseq; [apply Hk|]. cbn. intros a s' _ H. etrans; [|exact H].
  eapply inert_setThread; [done..|]. cbn.
  unfold Queue_pop in Hq. destruct (queue (inFlightInsts i)) as [|x r]; [done|]. injection Hq as <-. cbn. set_solver.
Qed.

Lemma inert_unstallUnit p : keepsM inert (unstallUnit p).
Proof.
  intros s. unfold unstallUnit. apply runs_bind, runs_instAt. intros inst _. apply runs_bind, runs_get.
  destruct (_ =? _); [by apply runs_ret|]. unfold x_unit, x_setUnit.
  apply runs_bind, runs_bind, runs_get, runs_lift; [auto with ends|]. intros f Hf.
  apply runs_bind, runs_get, runs_bind, runs_lift; [auto with ends|]. intros l Hl. apply runs_mod.
  split; try done. unfold fronts. cbn. apply (vset_fmap (λ f, front (fuPipe f))) in Hl.
  change (front (fuPipe (fu_take f))) with (front (fuPipe f)) in Hl. rewrite vset_self in Hl; [congruence|].
  by rewrite vget_fmap, Hf.
Qed.
End props.

#[export] Hint Resolve sameStores_deref inert_instAt : keeps.
#[export] Hint Extern 2 (keepsM sameStores (smod _)) => apply keeps_mod; intros; by split : keeps.
#[export] Hint Extern 2 (keepsM inert (smod _)) => apply keeps_mod; intros; by split : keeps.
#[export] Hint Extern 2 (keepsM inert (callLsq _)) => apply inert_callLsq; keeps_tac : keeps.
#[export] Hint Extern 2 (keepsM inert (x_updThread _ _)) => apply inert_updThread; intros; done : keeps.

Section discard.
Context `{I : Isa} {TS : ThreadSem I}.
Notation DynInst := (MyMinorDynInst I).
Implicit Types (s : Execute) (e : ExecEnv) (i : ExecuteThreadInfo) (inst : DynInst).

Lemma inert_retire tid inst : keepsM inert (retire tid inst false).
Proof.
  unfold retire. apply (keeps_bind _); [keeps_tac|]. intros []. apply inert_popInFlight. keeps_tac.
Qed.

Lemma inert_popInFUMem tid p : keepsM inert (popInFUMem tid p).
Proof. keeps_tac. Qed.

Lemma inert_findResponse inst : keepsM inert (callLsq (findResponse inst)).
Proof. keeps_tac. Qed.

Lemma inert_popResponse p : keepsM inert (callLsq (popResponse p)).
Proof. keeps_tac. Qed.

Lemma inert_isInbetweenInsts tid : keepsM inert (isInbetweenInsts tid).
Proof. keeps_tac. Qed.

(** no pc event is pending for thread [tid] *)
Definition idle tid s : Prop := ∀ tc, vget (x_threads s) tid = Ok tc → sem_pcEvents tc = tc.

(** commit discards all it meets: it is told to, or everything that the thread
    [tid] has in flight, and what stands at the ends of the functional units, is
    of another stream than the one that the thread is in *)
Definition stale (discard : bool) tid s : Prop :=
  discard = true ∨ ∀ i p inst, vget (x_info s) tid = Ok i →
    Some p ∈ queue (inFlightInsts i) ∨ Ok (Some p) ∈ fronts s →
    x_insts s !! p = Some inst → streamSeqNum (id inst) ≠ x_streamSeqNum i.

Lemma inert_idle tid s s' : inert s s' → idle tid s → idle tid s'.
Proof. intros Hi. unfold idle. by rewrite (ie_threads _ _ Hi). Qed.

Lemma inert_stream tid s s' i i' : inert s s' → vget (x_info s) tid = Ok i → vget (x_info s') tid = Ok i' →
  x_streamSeqNum i' = x_streamSeqNum i.
Proof.
  intros Hi H H'. pose proof (ie_streams _ _ Hi) as Hs. unfold streams in Hs.
  pose proof (vget_fmap x_streamSeqNum (x_info s) tid) as E. rewrite <- Hs, vget_fmap, H, H' in E. by injection E.
Qed.

Lemma inert_stale d tid s s' : inert s s' → stale d tid s → stale d tid s'.
Proof.
  intros Hi [->|Hst]; [by left|right]. intros i' p inst Hi' Hin Hp. destruct (ie_queues _ _ Hi tid i' Hi') as (i & H & Hq).
  rewrite (inert_stream tid s s' i i') by done. rewrite (ie_insts _ _ Hi) in Hp. rewrite (ie_fronts _ _ Hi) in Hin.
  eapply Hst; [done| |done]. set_solver.
Qed.

Lemma stale_discards d tid s i p inst : stale d tid s → vget (x_info s) tid = Ok i →
  Some p ∈ queue (inFlightInsts i) ∨ Ok (Some p) ∈ fronts s → x_insts s !! p = Some inst →
  negb (streamSeqNum (id inst) =? x_streamSeqNum i) || d = true.
Proof.
  intros [->|Hst] Hi Hin Hp; [by rewrite orb_true_r|].
  destruct (Z.eqb_spec (streamSeqNum (id inst)) (x_streamSeqNum i)); [|done]. by destruct (Hst i p inst).
Qed.

Lemma runs_unitAt k s (Q : QueuedInst → Execute → Prop) : (∀ q, Ok q ∈ fronts s → Q q s) → runs (unitFront k) s Q.
Proof.
  intros H. unfold unitFront, x_unit. apply runs_bind, runs_bind, runs_get, runs_lift; [auto with ends|].
  intros f Hf. apply runs_lift; [auto with ends|]. intros q Hq. apply H.
  apply vget_Ok in Hf as [_ Hf]. apply list_elem_of_fmap. exists f. split; [done|by eapply list_elem_of_lookup_2].
Qed.

(** the instruction that is chosen is the head or stands at the end of a unit *)
Lemma chooseInst_inFlight tid p inst s :
  runs (chooseInst tid p inst) s (λ c s', s' = s ∧ ∀ q b, c = Some (q, b) → q = p ∨ Ok (Some q) ∈ fronts s).
Proof.
  unfold chooseInst. apply runs_bind.
  eapply runs_conseq with (Q := λ c s', s' = s ∧ ∀ q, c = Some q → Ok (Some q) ∈ fronts s).
  { unfold earlyInst. apply runs_bind, runs_x_thread. intros i Hi. apply runs_bind, runs_get.
    destruct (_ && _); [|by apply runs_ret]. apply runs_bind, runs_lift; [auto with ends|]. intros q _.
    apply runs_bind, runs_instOf. intros h _. apply runs_bind, runs_unitAt. intros f Hf.
    apply runs_bind, runs_instOf. intros x Hx. apply runs_ret. split; [done|]. destruct (_ && _); [by intros ? ->|done]. }
  intros c s1 _ [-> Hc]. destruct c as [q|].
  { apply runs_ret. split; [done|]. intros ? ? [= <- _]. right. by apply Hc. }
  destruct (isNoCostInst inst); [apply runs_ret; split; [done|]; intros ? ? [= <- _]; tauto|].
  destruct (inLSQ (ex inst)); [by apply runs_ret|].
  apply runs_bind, runs_unitFront. intros f. apply runs_bind, runs_instOf. intros x _.
  destruct (isBubble x); [by apply runs_ret|]. destruct (negb _); [by apply runs_ret|].
  apply runs_bind, runs_lift; [auto with ends|]. intros same _. apply runs_ret. split; [done|].
  destruct same; [|done]. intros ? ? [= <- _]. tauto.
Qed.

Lemma tryPCEvents_inert e tid s : x_pcEventFuel e ≠ O → idle tid s →
  runs (tryPCEvents e tid) s (λ b s', inert s s' ∧ b = false).
Proof.
  intros He Hid. unfold tryPCEvents. destruct (x_pcEventFuel e) as [|n]; [done|]. cbn [pcEventLoop].
  apply runs_bind, runs_bind, runs_getContext. intros tc Htc. rewrite (Hid tc Htc).
  apply runs_bind. unfold setContext. apply runs_bind, runs_get, runs_bind, runs_lift; [auto with ends|].
  intros l Hl. apply runs_mod. rewrite Z.eqb_refl. apply runs_ret, runs_ret.
  rewrite (vset_self _ _ _ Htc) in Hl. injection Hl as <-. split; [by split|done].
Qed.

(** a round that discards *)
Record discards (r : Round) : Prop := {
  di_memIssue : rd_memIssue r = false;
  di_fault : rd_fault r = None;
  di_committed : rd_committed r = false;
}.

Lemma commitFromUnit_inert e tid p early d i0 s0 s : stale d tid s0 → inert s0 s → vget (x_info s0) tid = Ok i0 →
  Some p ∈ queue (inFlightInsts i0) ∨ Ok (Some p) ∈ fronts s0 →
  runs (commitFromUnit e tid p early d) s (λ r s', inert s s' ∧ discards r).
Proof.
  intros Hst H0 Hi0 Hin. unfold commitFromUnit. apply runs_bind, runs_instAt. intros inst Hinst.
  apply runs_bind, runs_x_thread. intros i Hi. rewrite (inert_stream _ _ _ _ _ H0 Hi0 Hi).
  rewrite (ie_insts _ _ H0) in Hinst. rewrite (stale_discards d tid s0 i0 p inst) by done. apply runs_bind, runs_ret. cbn. apply runs_bind.
  eapply runs_conseq; [apply inert_unstallUnit|]. intros [] s1 _ H1. by apply runs_ret.
Qed.

Lemma commitHead_inert e tid o d n s : x_pcEventFuel e ≠ O → idle tid s → stale d tid s →
  runs (commitHead e tid o d n) s (λ r s', inert s s' ∧ discards r).
Proof.
  intros He Hid Hst. unfold commitHead. apply runs_bind, runs_x_thread. intros i Hi.
  apply runs_bind, runs_lift; [auto with ends|]. intros q Hq. apply runs_bind, runs_lift; [auto with ends|]. intros p Hp.
  assert (Some p ∈ queue (inFlightInsts i)) as Hhead.
  { unfold Queue_front in Hq. destruct q as [q|]; [|done]. injection Hp as ->.
    destruct (queue (inFlightInsts i)); [done|]. injection Hq as ->. left. }
  apply runs_bind, runs_instAt. intros inst Hinst. apply runs_bind.
  eapply runs_conseq with (Q := λ _ s', inert s s').
  { destruct (inLSQ _); [apply inert_findResponse|apply (keeps_ret _)]. }
  intros resp s1 _ H1. apply runs_bind. eapply runs_conseq; [apply inert_isInbetweenInsts|].
  intros between s2 _ H2. cbn in H2. assert (inert s s2) as H02 by (by etrans). apply runs_bind.
  eapply runs_conseq with (Q := λ b s', inert s s' ∧ b = false).
  { destruct between; [|by apply runs_ret].
    eapply runs_conseq; [apply tryPCEvents_inert; [done|by eapply inert_idle]|].
    intros b s3 _ [H3 ->]. split; [by etrans|done]. }
  intros event s3 _ [H3 ->]. clear H1 H2 H02 s1 s2. apply runs_bind, runs_get.
  rewrite (stale_discards d tid s i p inst) by auto.
  match goal with |- context [if ?b then resp else None] => destruct (if b then resp else None) as [r|] end.
  { apply runs_bind. eapply runs_conseq; [apply inert_popResponse|]. intros [] s4 _ H4. apply runs_ret.
    split; [by etrans|done]. }
  destruct (negb _); [|by apply runs_ret]. apply runs_bind. eapply runs_conseq; [apply chooseInst_inFlight|].
  intros c s4 _ [-> Hc]. destruct c as [[q' early]|]; [|by apply runs_ret].
  eapply runs_conseq; [eapply (commitFromUnit_inert _ _ _ _ _ i s); [done..|]|].
  { destruct (Hc _ _ eq_refl) as [->|Hf]; [by left|right]. by rewrite <- (ie_fronts _ _ H3). }
  intros r s5 _ [H5 Hr]. split; [by etrans|done].
Qed.

Lemma finishRound_inert tid r s : discards r → runs (finishRound tid r) s (λ _ s', inert s s').
Proof.
  intros [Hm Hf Hc]. unfold finishRound. rewrite Hm, Hc. apply (keeps_bind _); [apply (keeps_assert _)|]. intros [].
  apply (keeps_bind _); [apply (keeps_ret _)|]. intros []. apply (keeps_bind _); [apply inert_instAt|]. intros inst.
  apply (keeps_bind _); [destruct (_ && _); [apply inert_popInFUMem|apply (keeps_ret _)]|]. intros [].
  destruct (_ && _); [apply inert_retire|apply (keeps_ret _)].
Qed.

Lemma commitLoop_inert e tid o d fuel a b s u s' : x_pcEventFuel e ≠ O → idle tid s → stale d tid s →
  commitLoop e fuel tid o d a b s = Ok (u, s') → inert s s'.
Proof.
  intros He. revert a b s. induction fuel as [|fuel IH]; intros a b s Hid Hst H; [done|]. cbn [commitLoop] in H.
  apply sbind_Ok in H as (i & s1 & H1 & H).
  assert (s1 = s) as -> by (unfold x_thread, sbind, sget, slift in H1; cbn in H1; destruct (vget _ _); [by injection H1|done]).
  apply sbind_Ok in H as (? & ? & [= <- <-] & H). destruct (_ || _); [by injection H as _ <-|].
  apply sbind_Ok in H as (r & s1 & Hr & H). apply (runs_Ok _ _ _ _ _ (commitHead_inert e tid o d b s He Hid Hst)) in Hr as [H01 Hd].
  apply sbind_Ok in H as ([] & s2 & Hf & H). apply (runs_Ok _ _ _ _ _ (finishRound_inert tid r s1 Hd)) in Hf.
  assert (inert s s2) as H02 by (by etrans). apply sbind_Ok in H as (inst & s3 & H3 & H).
  apply (runs_Ok _ _ _ _ _ (inert_instAt _ s2)) in H3. assert (inert s s3) as H03 by (by etrans).
  destruct (_ || _); [by injection H as _ <-|].
  etrans; [exact H03|]. eapply IH; [by eapply inert_idle|by eapply inert_stale|exact H].
Qed.

(** C27: What is discarded leaves no trace.  When everything that a thread has in
    flight and everything at the ends of the functional units is of a stream that
    the thread has left, or when commit is told to discard, and no pc event is
    pending for the thread, commit ends, and where no assertion stops it the
    instructions are retired without an effect: the thread contexts and with them
    all registers and pcs, the instruction counts, the branch for Fetch1, the
    stores in the store buffer and the constant verification unit are as before.
    (Instructions without a unit are taken not to be memory references, and
    chains of pc events to settle.) *)
Theorem commit_discards e tid o d s :
  noCostIsaOk → eventsSettle e → changing s = false → idle tid s → stale d tid s →
  commit e tid o d s ≠ Stop OutOfFuel ∧
  ∀ u s', commit e tid o d s = Ok (u, s') →
  x_threads s' = x_threads s ∧ x_numInst s' = x_numInst s ∧ x_numOp s' = x_numOp s ∧ x_branch s' = x_branch s
  ∧ slots (x_lsq s') = slots (x_lsq s) ∧ cvu (x_lsq s') = cvu (x_lsq s).
Proof.
  intros HI He Hs Hid Hst. split; [by eapply runs_ends, commit_runs|]. intros u s' H.
  unfold commit in H. apply sbind_Ok in H as (? & ? & [= <- <-] & H).
  by destruct (commitLoop_inert _ _ _ _ _ _ _ _ _ _ (proj1 He) Hid Hst H).
Qed.
End discard.

(** ** Issue *)

Section issuing.
Context `{I : Isa} {TS : ThreadSem I}.
Notation DynInst := (MyMinorDynInst I).
Implicit Types (s : Execute) (e : ExecEnv) (i : ExecuteThreadInfo) (inst : DynInst).

(** C29: Issue takes what it should.  [issue] ends, and what it takes from a
    thread's input is a prefix of the instructions that wait there.  Of these
    exactly the ones that are neither bubbles nor of a stream that the thread
    has left enter the queue of instructions in flight, in order, if the thread
    is not suspended; the memory references among them also enter the queue of
    memory references.  The result counts them and is within the issue limit.
    No thread context changes. *)
Theorem issue_takes_prefix e tid i tc s :
  noCostIsaOk → sized s → vget (x_info s) tid = Ok i → vget (x_threads s) tid = Ok tc →
  issue e tid s ≠ Stop OutOfFuel ∧
  ∀ r s', issue e tid s = Ok (r, s') →
  ∃ l i', waiting s tid = l ++ waiting s' tid ∧ vget (x_info s') tid = Ok i'
    ∧ let issued := List.filter (live tc (x_streamSeqNum i)) l in
      queue (inFlightInsts i') = queue (inFlightInsts i) ++ ptrs (x_nextInst s) issued
    ∧ queue (inFUMemInsts i') = queue (inFUMemInsts i) ++ memPtrs (x_nextInst s) issued
    ∧ (∀ k x, issued !! k = Some x → isAt s' (x_nextInst s + Z.of_nat k) x)
    ∧ r = Z.of_nat (length issued) ∧ r ≤ issueLimit (x_cfg s) ∧ x_threads s' = x_threads s.
Proof.
  intros HI Hz Hi Htc.
  pose proof (issue_runs e tid i tc s HI (sz_units _ Hz) (sz_lines _ Hz) Hi Htc (sz_limit _ Hz)) as Hr.
  split; [by eapply runs_ends|]. intros r s' E. apply (runs_Ok _ _ _ _ _ Hr) in E as (l & Hw & Ht & -> & Hle & _).
  destruct (tk_info _ _ _ _ Ht i Hi) as (i' & Hi'%vget_vset_eq & [Hq Hm _ _]). exists l, i'. cbn zeta. split_and!; try done.
  - intros k x Hk. split; [|by apply Ht]. rewrite (tk_next _ _ _ _ Ht). apply lookup_lt_Some in Hk. lia.
  - apply Ht.
Qed.
End issuing.

(** ** Examples *)

(** the instruction at 8 has taken the thread to 0, so that it goes on at 4 *)
Lemma tryToBranch_resolves_witness :
  ∃ s s', ToyExec.start = Ok s ∧ tryToBranch (ToyExec.inst Toy.br 1 2) None s = Ok (tt, s')
    ∧ changing s' = true ∧ target (x_branch s') = Some (4, 0) ∧ newStreamSeqNum (x_branch s') = 2.
Proof.
  let r := eval vm_compute in ToyExec.start in
  lazymatch r with Ok ?s => exists s;
    assert (branchable (TS := ToyExec.sem) (ToyExec.inst Toy.br 1 2) s) as Hb by
      (split; [eexists; vm_compute; reflexivity|eexists; vm_compute; reflexivity|eexists; reflexivity|reflexivity|discriminate]);
    destruct (tryToBranch_resolves (TS := ToyExec.sem) (ToyExec.inst Toy.br 1 2) None
      (ToyExec.mkTc (0, 0) Active true true 0) 1 s Hb eq_refl eq_refl eq_refl) as (s' & Hrun & _ & Hif) end.
  exists s'. split; [vm_compute; reflexivity|]. split; [exact Hrun|].
  assert (changing s' = true) as Hc by (vm_compute in Hrun; injection Hrun as <-; reflexivity).
  rewrite Hc in Hif. destruct Hif as (Ht & _ & Hn & _). split; [exact Hc|]. split; [exact Ht|exact Hn].
Defined.

(** after the branch the third instruction is in flight, and stale *)
Definition staleb (s : Execute (TS := ToyExec.sem)) (n : Z) : bool :=
  forallb (λ p, match p with
                | Some p => match x_insts s !! p with Some x => negb (streamSeqNum (id x) =? n) | None => true end
                | None => true end)
    (flying s 0 ++ omap (λ r, match r with Ok q => Some q | Stop _ => None end) (fronts s)).

Lemma staleb_stale s i : vget (x_info s) 0 = Ok i → staleb s (x_streamSeqNum i) = true → stale false 0 s.
Proof.
  intros Hi Hb. right. intros i' p inst Hi' Hin Hp. rewrite Hi in Hi'. injection Hi' as <-.
  unfold staleb in Hb. rewrite forallb_forall in Hb. specialize (Hb (Some p)). cbv beta iota in Hb. rewrite Hp in Hb.
  apply Z.eqb_neq, negb_true_iff, Hb, list_elem_of_In, elem_of_app. destruct Hin as [Hin|Hin]; [left|right].
  - unfold flying. by rewrite Hi.
  - apply list_elem_of_omap. by exists (Ok (Some p)).
Qed.

Lemma commit_discards_witness :
  ∃ s s', ToyExec.after (take 4 ToyExec.branching) = Ok s ∧ flying s 0 ≠ []
    ∧ commit (ToyExec.env 5) 0 false false s = Ok (tt, s')
    ∧ x_threads s' = x_threads s ∧ x_numInst s' = x_numInst s ∧ x_numOp s' = x_numOp s ∧ x_branch s' = x_branch s
    ∧ slots (x_lsq s') = slots (x_lsq s) ∧ cvu (x_lsq s') = cvu (x_lsq s).
Proof.
  let r := eval vm_compute in (ToyExec.after (take 4 ToyExec.branching)) in
  lazymatch r with Ok ?s => exists s; eexists; split; [vm_compute; reflexivity|]; split; [done|];
    split; [vm_compute; reflexivity|];
    eapply (commit_discards (ToyExec.env 5) 0 false false s);
      [exact ToyExec.isa_ok| |vm_compute; reflexivity|intros ? _; reflexivity| |vm_compute; reflexivity] end.
  - apply (eo_events _ (ToyExec.env_fine 5)).
  - eapply staleb_stale; vm_compute; reflexivity.
Defined.

(** one instruction of the line is issued, and two go on waiting *)
Lemma issue_takes_prefix_witness :
  ∃ s s' i tc l i', ToyExec.after (take 1 ToyExec.branching) = Ok s ∧ vget (x_info s) 0 = Ok i
    ∧ vget (x_threads s) 0 = Ok tc ∧ issue (ToyExec.env 2) 0 s = Ok (1, s')
    ∧ waiting s 0 = l ++ waiting s' 0 ∧ vget (x_info s') 0 = Ok i'
    ∧ queue (inFlightInsts i') = queue (inFlightInsts i) ++ ptrs (x_nextInst s) (List.filter (live tc (x_streamSeqNum i)) l).
Proof.
  let r := eval vm_compute in (ToyExec.after (take 1 ToyExec.branching)) in
  lazymatch r with Ok ?s =>
    assert (ToyExec.after (take 1 ToyExec.branching) = Ok s) as Hs by (vm_compute; reflexivity);
    pose proof (rd_sized _ (toy_ready _ _ (Forall_take _ _ _ branching_events) Hs)) as Hz;
    exists s; eexists _, _, _;
    edestruct (issue_takes_prefix (ToyExec.env 2) 0 _ _ s ToyExec.isa_ok Hz eq_refl eq_refl) as [_ H] end.
  edestruct H as (l & i' & Hw & Hi' & Hq & _); [vm_compute; reflexivity|]. exists l, i'.
  split; [exact Hs|]. split; [reflexivity|]. split; [reflexivity|]. split; [vm_compute; reflexivity|].
  split; [exact Hw|]. split; [exact Hi'|exact Hq].
Defined.
