(* ===== verification/Pipeline.v ===== *)
(** * The pipeline (src/cpu/myminor/pipeline.cc, pipeline.hh)

    [Pipeline] owns the stages, the latches between them and the activity
    recorder.  Each tick it evaluates the stages from the last to the first,
    steps the latches and the recorder, and stops its clock when the recorder
    says that nothing is going on.

    A stage tells the CPU to go on with [wakeupOnEvent] and [activity()].  The
    models of Fetch1, Execute and the load/store queue note these calls in
    flags; the pipeline passes them on to the recorder and to [Ticked::start]
    right after the call of the stage, and clears the flags.  (Both calls are
    idempotent within a cycle, and the clock runs while stages are evaluated.)
    The clock event is scheduled exactly when [running] is set. *)
From stdpp Require Import gmap.
From S2P Require Import Prelude TimeBuf Buffers Activity LVPT PipeData Cpu Repack Decode ExecuteDummy.
From S2P Require Import Fetch1 Fetch2 LsqRequest Lsq Execute ExecuteHistory.

(** [Pipeline::StageId] *)
Definition CPUStageId : Z := 0.
Definition Fetch1StageId : Z := 1.
Definition ExecuteStageId : Z := 5.
Definition Num_StageId : Z := 6.

Section pipeline.
Context `{I : Isa} {TS : ThreadSem I} {DC : Decoder I}.
Notation Line := (ForwardLineData I).
Notation Insts := (ForwardInstData I).
Notation Branch := (BranchData I).

(** the elements a latch is filled with *)
Definition noLine : Line := ForwardLineData0.
Definition noInsts : Insts := newForwardInstData 0 InvalidThreadID.
Definition noBranch : Branch := BranchData0.

Record Pipeline := mkPipeline {
  allow_idling : bool;
  f1ToF2 : Latch Line;
  f2ToF1 : Latch Branch;
  f2ToD : Latch Insts;
  dToE : Latch Insts;
  eToE : Latch Insts;
  eToF1 : Latch Branch;
  execute : Execute;
  executeDummy : Stage ExecuteDummyThreadInfo;
  decoder : Stage DecodeThreadInfo;
  fetch2 : Fetch2;
  fetch1 : Fetch1;
  recorder : ActivityRecorder;
  needToSignalDrained : bool;
  running : bool;               (* [Ticked::running] *)
}.

Implicit Types (p : Pipeline).

(** ** Construction *)

Record PipelineParams := mkPipelineParams {
  pp_enableIdling : bool;
  fetch1ToFetch2ForwardDelay : Z;
  fetch1ToFetch2BackwardDelay : Z;
  fetch2ToDecodeForwardDelay : Z;
  decodeToExecuteForwardDelay : Z;
  executeDummyToExecuteForwardDelay : Z;
  executeBranchDelay : Z;
  pp_execute : ExecParams;
  executeInputWidth : Z;
  executeDummyInputBufferSize : Z;
  executeDummyCycleInput : bool;
  pp_dummyDrain : ed_DrainState;
  executeDummyInputWidth : Z;
  decodeInputBufferSize : Z;
  decodeCycleInput : bool;
  decodeInputWidth : Z;
  fetch2InputBufferSize : Z;
  fetch2CycleInput : bool;
  pp_decoders : list (Dec DC);
  pp_fetch1 : Fetch1Params;
  pp_instSize : Z;
  pp_pc : PCState;
}.

(** the depth of the activity recorder *)
Definition longestDelay (q : PipelineParams) : Z :=
  Z.max (fetch1ToFetch2ForwardDelay q)
    (Z.max (fetch2ToDecodeForwardDelay q)
       (Z.max (decodeToExecuteForwardDelay q)
          (Z.max (executeDummyToExecuteForwardDelay q) (executeBranchDelay q)))).

(** [Pipeline(cpu, params)] *)
Definition newPipeline (q : PipelineParams) : res Pipeline :=
  let n := x_numThreads (xp_cfg (pp_execute q)) in
  l1 ← newLatch noLine (fetch1ToFetch2ForwardDelay q);
  l2 ← newLatch noBranch (fetch1ToFetch2BackwardDelay q);
  l3 ← newLatch noInsts (fetch2ToDecodeForwardDelay q);
  l4 ← newLatch noInsts (decodeToExecuteForwardDelay q);
  l5 ← newLatch noInsts (executeDummyToExecuteForwardDelay q);
  l6 ← newLatch noBranch (executeBranchDelay q);
  x ← newExecute (pp_execute q);
  e ← newExecuteDummy (executeInputWidth q) (executeDummyInputBufferSize q) n (executeDummyCycleInput q)
        (pp_dummyDrain q);
  d ← newDecode (executeDummyInputWidth q) (decodeInputBufferSize q) n (decodeCycleInput q);
  f2 ← newFetch2 (decodeInputWidth q) (fetch2InputBufferSize q) n (fetch2CycleInput q) (pp_decoders q);
  f1 ← newFetch1 (pp_fetch1 q) (pp_instSize q) (pp_pc q);
  ar ← newActivityRecorder Num_StageId (longestDelay q) 0;
  if (fetch1ToFetch2ForwardDelay q <? 1) || (fetch2ToDecodeForwardDelay q <? 1)
     || (decodeToExecuteForwardDelay q <? 1) || (executeDummyToExecuteForwardDelay q <? 1)
     || (executeBranchDelay q <? 1)
  then Stop Fatal
  else Ok (mkPipeline (pp_enableIdling q) l1 l2 l3 l4 l5 l6 x e d f2 f1 ar false false).

(** ** Signals *)

(** field updates *)
Definition up_execute (x : Execute) p : Pipeline :=
  mkPipeline (allow_idling p) (f1ToF2 p) (f2ToF1 p) (f2ToD p) (dToE p) (eToE p) (eToF1 p) x
    (executeDummy p) (decoder p) (fetch2 p) (fetch1 p) (recorder p) (needToSignalDrained p) (running p).
Definition up_fetch1 (f : Fetch1) p : Pipeline :=
  mkPipeline (allow_idling p) (f1ToF2 p) (f2ToF1 p) (f2ToD p) (dToE p) (eToE p) (eToF1 p) (execute p)
    (executeDummy p) (decoder p) (fetch2 p) f (recorder p) (needToSignalDrained p) (running p).
Definition up_clock (ar : ActivityRecorder) (r : bool) p : Pipeline :=
  mkPipeline (allow_idling p) (f1ToF2 p) (f2ToF1 p) (f2ToD p) (dToE p) (eToE p) (eToF1 p) (execute p)
    (executeDummy p) (decoder p) (fetch2 p) (fetch1 p) ar (needToSignalDrained p) r.
Definition up_drain (b : bool) p : Pipeline :=
  mkPipeline (allow_idling p) (f1ToF2 p) (f2ToF1 p) (f2ToD p) (dToE p) (eToE p) (eToF1 p) (execute p)
    (executeDummy p) (decoder p) (fetch2 p) (fetch1 p) (recorder p) b (running p).

(** [MyMinorCPU::wakeupOnEvent(stage_id)]; [start()] makes the clock run *)
Definition cpu_wakeupOnEvent (stage : Z) p : res Pipeline :=
  ar ← activateStage (recorder p) stage; Ok (up_clock ar true p).

(** [cpu.activityRecorder->activity()] *)
Definition cpu_activity p : res Pipeline :=
  ar ← activity (recorder p); Ok (up_clock ar (running p) p).

(** the calls that a stage has made *)
Definition signals (stage : Z) (awake active : bool) p : res Pipeline :=
  p ← (if awake then cpu_wakeupOnEvent stage p else Ok p);
  if active then cpu_activity p else Ok p.

Definition fromExecute (x : Execute) p : res Pipeline :=
  signals ExecuteStageId (x_awake x || lsqAwake (x_lsq x)) (x_activity x)
    (up_execute (xu_flags false false (xu_lsq (upd_awake false (x_lsq x)) x)) p).

Definition fromFetch1 (f : Fetch1) p : res Pipeline :=
  signals Fetch1StageId (f1_awake f) (f1_activity f) (up_fetch1 (f1_setActivity false (f1_setAwake false f)) p).

(** ** A cycle *)

(** what surrounds the pipeline in one cycle *)
Record PlEnv := mkPlEnv {
  pe_execute : ExecEnv;
  pe_shuffledDummy : list Z;     (* the results of [randomPriority()] *)
  pe_shuffledDecode : list Z;
  pe_shuffledFetch2 : list Z;
  pe_shuffledFetch1 : list Z;
  pe_predict : Predictor;
  pe_itlbReply : option Fault;
  pe_junk : LvptIn;
}.

Definition pl_policy p : ThreadPolicy := x_policy (x_cfg (execute p)).
Definition pl_numThreads p : Z := x_numThreads (x_cfg (execute p)).

(** [execute.evaluate()] *)
Definition evalExecute (e : PlEnv) p : res Pipeline :=
  inp ← Latch_output (eToE p);
  ' (branch, x) ← x_event (XCycle (pe_execute e) inp) (execute p);
  l ← Latch_write (eToF1 p) branch;
  fromExecute x
    (mkPipeline (allow_idling p) (f1ToF2 p) (f2ToF1 p) (f2ToD p) (dToE p) (eToE p) l x
       (executeDummy p) (decoder p) (fetch2 p) (fetch1 p) (recorder p) (needToSignalDrained p) (running p)).

(** [executeDummy.evaluate()] *)
Definition evalDummy (e : PlEnv) p : res Pipeline :=
  inp ← Latch_output (dToE p);
  out ← Latch_input (eToE p);
  ' (s, io) ← ExecuteDummy_evaluate (pl_policy p) (pl_numThreads p) (pe_shuffledDummy e) (executeDummy p)
                (mkStageIo inp out (x_inputBuffer (execute p)) (recorder p));
  l ← Latch_write (eToE p) (Repack.out io);
  Ok (mkPipeline (allow_idling p) (f1ToF2 p) (f2ToF1 p) (f2ToD p) (dToE p) l (eToF1 p)
        (xu_inputBuffer (nextStageReserve io) (execute p)) s (decoder p) (fetch2 p) (fetch1 p)
        (activityRecorder io) (needToSignalDrained p) (running p)).

(** [decode.evaluate()] *)
Definition evalDecode (e : PlEnv) p : res Pipeline :=
  inp ← Latch_output (f2ToD p);
  out ← Latch_input (dToE p);
  ' (s, io) ← Decode_evaluate (pl_policy p) (pl_numThreads p) (pe_shuffledDecode e) (decoder p)
                (mkStageIo inp out (inputBuffer (executeDummy p)) (recorder p));
  l ← Latch_write (dToE p) (Repack.out io);
  let ed := executeDummy p in
  Ok (mkPipeline (allow_idling p) (f1ToF2 p) (f2ToF1 p) (f2ToD p) l (eToE p) (eToF1 p) (execute p)
        (mkStage (outputWidth ed) (processMoreThanOneInput ed) (nextStageReserve io) (stageInfo ed)
           (threadPriority ed))
        s (fetch2 p) (fetch1 p) (activityRecorder io) (needToSignalDrained p) (running p)).

(** assignment to [*Latch::output().outputWire] *)
Definition Latch_writeOutput {T} (l : Latch T) (x : T) : res (Latch T) :=
  w ← getWire (buffer l) (i32 (- delay l));
  b ← store (buffer l) w x;
  Ok (mkLatch (delay l) b).

(** [fetch2.evaluate()], with the commands for the branch predictor *)
Definition evalFetch2 (e : PlEnv) p : res (Pipeline * list BpCommand) :=
  inp ← Latch_output (f1ToF2 p);
  branch ← Latch_output (eToF1 p);
  out ← Latch_input (f2ToD p);
  ' (s, io, prediction, commands) ←
    Fetch2_evaluate (pe_predict e) (pl_policy p) (pl_numThreads p) (pe_shuffledFetch2 e) (fetch2 p)
      (mkF2Io inp branch out (inputBuffer (decoder p)) (recorder p));
  l1 ← Latch_writeOutput (f1ToF2 p) (f2_inp io);
  l2 ← Latch_write (f2ToF1 p) prediction;
  l3 ← Latch_write (f2ToD p) (f2_out io);
  let d := decoder p in
  Ok (mkPipeline (allow_idling p) l1 l2 l3 (dToE p) (eToE p) (eToF1 p) (execute p) (executeDummy p)
        (mkStage (outputWidth d) (processMoreThanOneInput d) (f2_nextStageReserve io) (stageInfo d)
           (threadPriority d))
        s (fetch1 p) (f2_activityRecorder io) (needToSignalDrained p) (running p), commands).

(** [cpu.getContext(tid)->status() == ThreadContext::Active] *)
Definition isActive p (tid : Z) : bool :=
  match vget (x_threads (execute p)) tid with
  | Ok tc => bool_decide (tc_status tc = Active)
  | Stop _ => false
  end.

(** [fetch1.evaluate()]; [icache] are the answers of the instruction cache *)
Definition evalFetch1 (icache : Z → bool) (e : PlEnv) p : res Pipeline :=
  branch ← Latch_output (eToF1 p);
  prediction ← Latch_output (f2ToF1 p);
  out ← Latch_input (f1ToF2 p);
  ' (res, f) ← Fetch1_evaluate icache (pl_policy p) (pl_numThreads p)
                 (mkF1Io branch prediction out (f2_inputBuffer (fetch2 p)) (isActive p)
                    (pe_shuffledFetch1 e) (pe_itlbReply e) (pe_junk e)) (fetch1 p);
  l ← Latch_write (f1ToF2 p) res.1;
  let f2 := fetch2 p in
  fromFetch1 f
    (mkPipeline (allow_idling p) l (f2ToF1 p) (f2ToD p) (dToE p) (eToE p) (eToF1 p) (execute p)
       (executeDummy p) (decoder p)
       (mkFetch2 (f2_outputWidth f2) (f2_processMoreThanOneInput f2) res.2 (f2_fetchInfo f2)
          (f2_threadPriority f2) (f2_decoders f2))
       f (recorder p) (needToSignalDrained p) (running p)).

(** the latches and the activity recorder *)
Definition evalLatches p : res Pipeline :=
  l1 ← Latch_evaluate noLine (f1ToF2 p);
  l2 ← Latch_evaluate noBranch (f2ToF1 p);
  l3 ← Latch_evaluate noInsts (f2ToD p);
  l4 ← Latch_evaluate noInsts (dToE p);
  l5 ← Latch_evaluate noInsts (eToE p);
  l6 ← Latch_evaluate noBranch (eToF1 p);
  ar ← ar_advance (recorder p);
  Ok (mkPipeline (allow_idling p) l1 l2 l3 l4 l5 l6 (execute p) (executeDummy p) (decoder p) (fetch2 p)
        (fetch1 p) ar (needToSignalDrained p) (running p)).

(** becoming idle, and the deactivation of all stages *)
Definition evalIdle p : res Pipeline :=
  if allow_idling p then
    let r := if negb (active (recorder p)) && negb (needToSignalDrained p) then false else running p in
    ar ← mfold deactivateStage (recorder p)
           [CPUStageId; Fetch1StageId; Fetch2StageId; DecodeStageId; ExecuteDummyStageId; ExecuteStageId];
    Ok (up_clock ar r p)
  else Ok p.

(** [isDrained()] *)
Definition Pipeline_isDrained p : res bool :=
  w1 ← Latch_input (f1ToF2 p);
  w2 ← Latch_output (f1ToF2 p);
  w3 ← Latch_input (f2ToF1 p);
  w4 ← Latch_output (f2ToD p);
  w5 ← Latch_output (dToE p);
  ' (execute_drained, _) ← x_isDrained (execute p);
  f1_to_f2_drained ← Latch_empty (f1ToF2 p);
  f2_to_f1_drained ← Latch_empty (f2ToF1 p);
  f2_to_d_drained ← Latch_empty (f2ToD p);
  d_to_e_drained ← Latch_empty (dToE p);
  e_to_e_drained ← Latch_empty (eToE p);
  Ok (Fetch1_isDrained (fetch1 p) w1 && Fetch2_isDrained (fetch2 p) w2 w3 && Decode_isDrained (decoder p) w4
      && execute_drained && f1_to_f2_drained && f2_to_f1_drained && f2_to_d_drained && d_to_e_drained
      && ExecuteDummy_isDrained (executeDummy p) w5 && e_to_e_drained).

(** the end of a drain; the boolean tells whether [signalDrainDone] is called *)
Definition evalDrain p : res (Pipeline * bool) :=
  if needToSignalDrained p then
    drained ← Pipeline_isDrained p;
    Ok (if (drained : bool) then (up_clock (recorder p) false (up_drain false p), true) else (p, false))
  else Ok (p, false).

(** [evaluate()] *)
Definition Pipeline_evaluate (icache : Z → bool) (e : PlEnv) p : res (Pipeline * list BpCommand * bool) :=
  p ← evalExecute e p;
  p ← evalDummy e p;
  p ← evalDecode e p;
  ' (p, commands) ← evalFetch2 e p;
  p ← evalFetch1 icache e p;
  p ← evalLatches p;
  p ← evalIdle p;
  ' (p, done) ← evalDrain p;
  Ok (p, commands, done).

(** ** Between cycles *)

(** [wakeupFetch(tid)] *)
Definition Pipeline_wakeupFetch p (tid : Z) : res Pipeline :=
  tc ← vget (x_threads (execute p)) tid;
  ' (_, f) ← wakeupFetch tid (tc_pcState tc) (fetch1 p);
  fromFetch1 f p.

(** [drain()] *)
Definition Pipeline_drain p : res (Pipeline * bool) :=
  ' (_, x) ← x_drain (execute p);
  p ← fromExecute x p;
  drained ← Pipeline_isDrained p;
  Ok (up_drain (negb drained) p, drained).

(** [drainResume()] *)
Definition Pipeline_drainResume p : res Pipeline :=
  p ← mfold Pipeline_wakeupFetch p (zrange 0 (pl_numThreads p - 1));
  ' (_, x) ← x_drainResume (execute p);
  fromExecute x p.

(** ** Everything that happens to the pipeline *)

Inductive PlEvent :=
| PlCycle (e : PlEnv)                           (* the clock event *)
| PlResponse (r : Ptr) (pkt : Packet)           (* the data cache, the data TLB *)
| PlRetry (e : ExecEnv)
| PlTranslated (e : ExecEnv) (r : Ptr) (idx : Z) (t : TlbReply) (suppressed : bool)
| PlFragment (r : Ptr)
| PlFetchTranslated (k : Z) (f : Fault)         (* the instruction TLB and cache *)
| PlFetchResponse (k : Z) (bytes : LinePacket)
| PlFetchRetry
| PlDrain                                       (* the CPU *)
| PlResume
| PlWakeup
| PlWakeupFetch (tid : Z)
| PlContext (tid : Z) (tc : TC TS).             (* a change of a thread's state from outside *)

(** a callback of the load/store queue *)
Definition memEvent (ev : XEvent) p : res Pipeline :=
  ' (_, x) ← x_event ev (execute p); fromExecute x p.

(** the clock event is scheduled while the clock runs only *)
Definition pl_event (icache : Z → bool) p (ev : PlEvent) : res Pipeline :=
  match ev with
  | PlCycle e => if running p then ' (p, _, _) ← Pipeline_evaluate icache e p; Ok p else Ok p
  | PlResponse r pkt => memEvent (XResponse r pkt) p
  | PlRetry e => memEvent (XRetry e) p
  | PlTranslated e r idx t b => memEvent (XTranslated e r idx t b) p
  | PlFragment r => memEvent (XFragment r) p
  | PlFetchTranslated k f => ' (_, f1) ← f1_finish icache k f (fetch1 p); fromFetch1 f1 p
  | PlFetchResponse k bytes => ' (_, f1) ← f1_recvTimingResp k bytes (fetch1 p); fromFetch1 f1 p
  | PlFetchRetry => ' (_, f1) ← f1_recvReqRetry icache (fetch1 p); fromFetch1 f1 p
  | PlDrain => ' (p, _) ← Pipeline_drain p; Ok p
  | PlResume => Pipeline_drainResume p
  | PlWakeup => cpu_wakeupOnEvent CPUStageId p
  | PlWakeupFetch tid => Pipeline_wakeupFetch p tid
  | PlContext tid tc => ' (_, x) ← setContext tid tc (execute p); Ok (up_execute x p)
  end.

Definition pl_run (icache : Z → bool) : list PlEvent → Pipeline → res Pipeline :=
  λ es p, mfold (pl_event icache) p es.
End pipeline.
