(* ===== verification/PipelineParts.v ===== *)
(** * What the stages do to shared things

    The input buffers of a stage, the activity recorder and the latches are
    shared between the stages.  For each stage this file says what a cycle
    that returns has done to them: its own input buffers received the input
    and gave up elements at their heads, one slot of the next stage's buffers
    was reserved for an output, and an output was reported as activity. *)
From stdpp Require Import gmap.
From S2P Require Import Prelude TimeBuf Buffers Activity LVPT PipeData Cpu Repack Decode ExecuteDummy.
From S2P Require Import Fetch1 Fetch1Inv Fetch1Stage Fetch2 LsqRequest Lsq Runs Execute ExecuteHistory Pipeline.

(** ** Input buffers under the reservation protocol *)

Section buffers.
Context {T : Type} `{IsBubble T}.
Implicit Types (b : InputBuffer T) (bufs : list (InputBuffer T)).

(** [b] follows the protocol, with [n] reservations still to be delivered *)
Definition buf_ok (cap : Z) b (n : Z) : Prop := ∃ a p, ib_inv cap (mkIbState b n a p).

Lemma buf_ok_room cap b n : buf_ok cap b n →
  Z.of_nat (length (queue (ibQueue b))) + numReservedSlots (ibQueue b) ≤ cap.
Proof. intros (a & p & [Hc _ _ _ _ Hr _]). unfold queue_room in Hr. cbn in *. lia. Qed.

Lemma buf_ok_none cap b n : buf_ok cap b n → elementPtr b = None → numReservedSlots (ibQueue b) = n.
Proof. intros (a & p & [_ _ _ Hr _ _ _]) He. cbn in Hr. rewrite He in Hr. cbn in Hr. lia. Qed.

Lemma buf_ok_new cap : 0 ≤ cap → buf_ok cap (newInputBuffer cap) 0.
Proof.
  intros Hc. exists [], []. split; cbn; try done; unfold queue_room; cbn; lia.
Qed.

Context (cap : Z) (Hcap : 0 ≤ cap < 2 ^ 31).

Lemma buf_ok_step b n b' n' : buf_ok cap b n →
  (∀ a p, ∃ a' p', ib_step (mkIbState b n a p) (mkIbState b' n' a' p')) → buf_ok cap b' n'.
Proof.
  intros (a & p & Hi) Hs. destruct (Hs a p) as (a' & p' & Hst). exists a', p'. by eapply ib_step_inv.
Qed.

Lemma buf_ok_reserve b n : buf_ok cap b n → canReserve b = true → buf_ok cap (reserve b) (n + 1).
Proof. intros Hb Hc. eapply buf_ok_step; [done|]. intros a p. exists a, p. by constructor. Qed.

Lemma buf_ok_cancel b n : buf_ok cap b n → 0 < n → buf_ok cap (freeReservation b) (n - 1).
Proof. intros Hb Hn. eapply buf_ok_step; [done|]. intros a p. exists a, p. by constructor. Qed.

Lemma buf_ok_arrive b b' n x : buf_ok cap b n → 0 < n → isBubble x = false → setTail b x = Ok b' →
  buf_ok cap b' (n - 1).
Proof.
  intros Hb Hn Hx Hs. assert (elementPtr b = None) as He.
  { unfold setTail in Hs. by destruct (elementPtr b). }
  eapply buf_ok_step; [done|]. intros a p. eexists _, p. by econstructor.
Qed.

Lemma buf_ok_pop b b' n : buf_ok cap b n → IB_pop b = Ok b' → buf_ok cap b' n.
Proof.
  intros Hb Hp. assert (∃ x, IB_front b = Ok x) as [x Hx].
  { unfold IB_pop, Queue_pop, IB_front, Queue_front in *. destruct (elementPtr b); [by eexists|].
    destruct (queue (ibQueue b)); [done|by eexists]. }
  eapply buf_ok_step; [done|]. intros a p. eexists _, _. by econstructor.
Qed.

Lemma buf_ok_pushTail b n : buf_ok cap b n → buf_ok cap (pushTail b) n.
Proof. intros Hb. eapply buf_ok_step; [done|]. intros a p. eexists _, _. by econstructor. Qed.

(** [b'] is [b] after some pops *)
Definition pops : relation (InputBuffer T) := rtc (λ b b', IB_pop b = Ok b').

Lemma pops_ok b b' n : buf_ok cap b n → pops b b' → buf_ok cap b' n.
Proof.
  intros Hb Hp. eapply (rtc_invariant _ (λ b, buf_ok cap b n)); [|done..].
  intros x y Hx Hy. by eapply buf_ok_pop.
Qed.

Lemma pops_ptr b b' : pops b b' → elementPtr b = None → elementPtr b' = None.
Proof.
  intros Hp. eapply (rtc_invariant _ (λ b, elementPtr b = None)); [|done..].
  intros x y _ Hy. by apply (IB_pop_none x).
Qed.

(** a stage's buffers; [ns t] reservations are to be delivered to thread [t] *)
Definition bank bufs (ns : Z → Z) : Prop := ∀ t b, vget bufs t = Ok b → buf_ok cap b (ns t).

Definition settled bufs : Prop := ∀ t b, vget bufs t = Ok b → elementPtr b = None.

Definition popsAll bufs bufs' : Prop :=
  length bufs' = length bufs ∧ ∀ t b', vget bufs' t = Ok b' → ∃ b, vget bufs t = Ok b ∧ pops b b'.

(** [f] with [d] added for thread [t0] if [c] holds *)
Definition plus (c : bool) (t0 d : Z) (f : Z → Z) : Z → Z := λ t, f t + (if c && (t0 =? t) then d else 0).

#[export] Instance popsAll_preorder : PreOrder popsAll.
Proof.
  split.
  - intros bufs. split; [done|]. intros t b Hb. exists b. split; [done|]. reflexivity.
  - intros l1 l2 l3 [Hl1 H1] [Hl2 H2]. split; [congruence|]. intros t b3 (b2 & Hb2 & H23)%H2.
    destruct (H1 _ _ Hb2) as (b1 & Hb1 & H12). exists b1. split; [done|]. by etrans.
Qed.

Lemma popsAll_set bufs t b b' bufs' : vget bufs t = Ok b → pops b b' → vset bufs t b' = Ok bufs' → popsAll bufs bufs'.
Proof.
  intros Hb Hp Hs. split; [by eapply vset_length|]. intros t' x Hx. destruct (decide (t = t')) as [<-|Hne].
  - rewrite (vget_vset_eq _ _ _ _ Hs) in Hx. injection Hx as <-. by exists b.
  - rewrite (vget_vset_ne _ _ _ _ _ Hs) in Hx by done. exists x. split; [done|]. reflexivity.
Qed.

Lemma bank_popsAll bufs bufs' ns : bank bufs ns → popsAll bufs bufs' → bank bufs' ns.
Proof. intros Hb [_ Hp] t b' (b & Hg & Hpo)%Hp. eapply pops_ok; [by apply Hb|done]. Qed.

Lemma bank_set bufs ns t n b' bufs' ns' : bank bufs ns → vset bufs t b' = Ok bufs' → buf_ok cap b' n →
  ns' t = n → (∀ t', t ≠ t' → ns' t' = ns t') → bank bufs' ns'.
Proof.
  intros Hb Hs Hb' Hn Hne t' x Hx. destruct (decide (t = t')) as [<-|Hd].
  - rewrite (vget_vset_eq _ _ _ _ Hs) in Hx. injection Hx as <-. by rewrite Hn.
  - rewrite (vget_vset_ne _ _ _ _ _ Hs) in Hx by done. rewrite Hne by done. by apply Hb.
Qed.

Lemma bank_ext bufs ns ns' : bank bufs ns → (∀ t, ns' t = ns t) → bank bufs ns'.
Proof. intros Hb He t b Hg. rewrite He. by apply Hb. Qed.

Lemma plus_eq c t d f : plus c t d f t = f t + (if c then d else 0).
Proof. unfold plus. by rewrite Z.eqb_refl, andb_true_r. Qed.

Lemma plus_ne c t t' d f : t ≠ t' → plus c t d f t' = f t'.
Proof. intros Hne. unfold plus. apply Z.eqb_neq in Hne. rewrite Hne, andb_false_r. lia. Qed.

(** the input [x] of thread [t] arrives, the stage pops, the tail is pushed *)
Lemma bank_cycle bufs bufs1 bufs2 bufs3 t x b b1 b2 ns : bank bufs ns → settled bufs →
  isBubble x = false → 0 < ns t →
  vget bufs t = Ok b → setTail b x = Ok b1 → vset bufs t b1 = Ok bufs1 → popsAll bufs1 bufs2 →
  vget bufs2 t = Ok b2 → vset bufs2 t (pushTail b2) = Ok bufs3 →
  bank bufs3 (plus true t (-1) ns) ∧ settled bufs3.
Proof.
  intros Hb Hset Hx Hn Hg Ht Hs1 Hp Hg2 Hs3.
  assert (bank bufs1 (plus true t (-1) ns)) as Hb1.
  { eapply bank_set; [done..| | |].
    - eapply (buf_ok_arrive b b1 (ns t) x); [by apply Hb|done..].
    - rewrite plus_eq. lia.
    - intros. by apply plus_ne. }
  pose proof (bank_popsAll _ _ _ Hb1 Hp) as Hb2. split.
  - eapply bank_set; [exact Hb2|exact Hs3|by apply buf_ok_pushTail, Hb2|done|done].
  - intros t' y Hy. destruct (decide (t = t')) as [<-|Hne].
    + rewrite (vget_vset_eq _ _ _ _ Hs3) in Hy. by injection Hy as <-.
    + rewrite (vget_vset_ne _ _ _ _ _ Hs3) in Hy by done. destruct Hp as [_ Hp].
      destruct (Hp _ _ Hy) as (y1 & Hy1 & Hpo). eapply pops_ptr; [done|].
      rewrite (vget_vset_ne _ _ _ _ _ Hs1) in Hy1 by done. by eapply Hset.
Qed.

Lemma settled_popsAll bufs bufs' : settled bufs → popsAll bufs bufs' → settled bufs'.
Proof. intros Hs [_ Hp] t b' (b & Hg & Hpo)%Hp. eapply pops_ptr; [done|]. by eapply Hs. Qed.

(** a slot is reserved for thread [t] *)
Lemma bank_reserve bufs bufs' t b ns : bank bufs ns → vget bufs t = Ok b → canReserve b = true →
  vset bufs t (reserve b) = Ok bufs' → bank bufs' (plus true t 1 ns).
Proof.
  intros Hb Hg Hc Hs. eapply bank_set; [done..|apply buf_ok_reserve; [by apply Hb|done]| |].
  - by rewrite plus_eq.
  - intros. by apply plus_ne.
Qed.
End buffers.

(** ** What a stage hands on *)

(** [ar'] is [ar] after calls of the stages, of [activity()] if [c] holds *)
Definition reported (stages L : Z) (c : bool) (ar ar' : ActivityRecorder) : Prop :=
  ar_wf stages L ar' ∧ ar_line ar' = (if c then <[0%nat := true]> (ar_line ar) else ar_line ar).

Lemma reported_refl stages L ar : ar_wf stages L ar → reported stages L false ar ar.
Proof. by split. Qed.

Lemma reported_trans stages L c c' ar ar1 ar2 :
  reported stages L c ar ar1 → reported stages L c' ar1 ar2 → reported stages L (c || c') ar ar2.
Proof.
  intros [_ H1] [Hw H2]. split; [done|]. rewrite H2, H1. destruct c, c'; cbn [orb]; try done.
  by rewrite list_insert_insert_eq.
Qed.

(** reservations aside, the buffers are the same *)
Definition sameLines {T} (bufs bufs' : list (InputBuffer T)) : Prop :=
  length bufs' = length bufs
  ∧ ∀ t b', vget bufs' t = Ok b' → ∃ b, vget bufs t = Ok b
      ∧ queue (ibQueue b') = queue (ibQueue b) ∧ elementPtr b' = elementPtr b.

Lemma sameLines_refl {T} (bufs : list (InputBuffer T)) : sameLines bufs bufs.
Proof. split; [done|]. intros t b Hb. by exists b. Qed.

Lemma sameLines_reserve {T} `{IsBubble T} (bufs bufs' : list (InputBuffer T)) t b : vget bufs t = Ok b →
  vset bufs t (reserve b) = Ok bufs' → sameLines bufs bufs'.
Proof.
  intros Hg Hs. split; [by eapply vset_length|]. intros t' b' Hb'. destruct (decide (t = t')) as [<-|Hne].
  - rewrite (vget_vset_eq _ _ _ _ Hs) in Hb'. injection Hb' as <-. by exists b.
  - rewrite (vget_vset_ne _ _ _ _ _ Hs) in Hb' by done. by exists b'.
Qed.

(** a cycle with an input for thread [ti] (if [ci] holds) and an output for
    thread [to] (if [co] holds), on the stage's buffers, those of the next
    stage and the recorder *)
Record handed {T U : Type} `{IsBubble T} `{IsBubble U} (stages L : Z)
    (ci : bool) (ti : Z) (co : bool) (to : Z) (bufs bufs' : list (InputBuffer T))
    (next next' : list (InputBuffer U)) (ar ar' : ActivityRecorder) : Prop := {
  ha_own cap ns : 0 ≤ cap < 2 ^ 31 → bank cap bufs ns → settled bufs → (ci = true → 0 < ns ti) →
    bank cap bufs' (plus ci ti (-1) ns) ∧ settled bufs';
  ha_length : length bufs' = length bufs;
  ha_next cap ns : 0 ≤ cap < 2 ^ 31 → bank cap next ns → bank cap next' (plus co to 1 ns);
  ha_settled : settled next → settled next';
  ha_same : sameLines next next';
  ha_thread : co = true → 0 ≤ to < Z.of_nat (length next);
  ha_reported : ar_wf stages L ar → reported stages L co ar ar';
}.

Lemma firstReady_Some (ready : Z → res bool) l t : firstReady ready l = Ok (Some t) → ready t = Ok true.
Proof.
  induction l as [|x l IH]; cbn; [done|]. destruct (ready x) as [[]|] eqn:E; cbn; [by intros [= <-]|done|done].
Qed.

Lemma settled_set {T} (bufs bufs' : list (InputBuffer T)) t b b' : settled bufs → vget bufs t = Ok b →
  elementPtr b' = elementPtr b → vset bufs t b' = Ok bufs' → settled bufs'.
Proof.
  intros Hs Hg He Hv t' x Hx. destruct (decide (t = t')) as [<-|Hne].
  - rewrite (vget_vset_eq _ _ _ _ Hv) in Hx. injection Hx as <-. rewrite He. by eapply Hs.
  - rewrite (vget_vset_ne _ _ _ _ _ Hv) in Hx by done. by eapply Hs.
Qed.

(** what happens to a stage's own buffers *)
Lemma own_cycle {T} `{IsBubble T} cap (bufs bufs1 bufs2 bufs3 : list (InputBuffer T)) t x ns :
  0 ≤ cap < 2 ^ 31 → bank cap bufs ns → settled bufs → (negb (isBubble x) = true → 0 < ns t) →
  (if negb (isBubble x) then b ← vget bufs t; b ← setTail b x; vset bufs t b else Ok bufs) = Ok bufs1 →
  popsAll bufs1 bufs2 →
  (if negb (isBubble x) then b ← vget bufs2 t; vset bufs2 t (pushTail b) else Ok bufs2) = Ok bufs3 →
  bank cap bufs3 (plus (negb (isBubble x)) t (-1) ns) ∧ settled bufs3.
Proof.
  intros Hcap Hb Hs Hn H1 Hp H3. destruct (isBubble x) eqn:Hx; cbn [negb] in *; res_inv.
  - split; [|by eapply settled_popsAll]. eapply bank_ext; [by eapply bank_popsAll|].
    intros t'. unfold plus. cbn. lia.
  - by eapply bank_cycle; eauto.
Qed.

Lemma own_length {T} `{IsBubble T} (bufs bufs1 bufs2 bufs3 : list (InputBuffer T)) t x :
  (if negb (isBubble x) then b ← vget bufs t; b ← setTail b x; vset bufs t b else Ok bufs) = Ok bufs1 →
  popsAll bufs1 bufs2 →
  (if negb (isBubble x) then b ← vget bufs2 t; vset bufs2 t (pushTail b) else Ok bufs2) = Ok bufs3 →
  length bufs3 = length bufs.
Proof.
  intros H1 [Hp _] H3. destruct (negb (isBubble x)); res_inv; [|done].
  apply vset_length in H1, H3. congruence.
Qed.

(** the end of a cycle with the output [out] of thread [tid], for which a slot
    can be reserved *)
Lemma output_handed {I : Isa} stages L (next next' : list (InputBuffer (ForwardInstData I))) ar ar' tid
    (out out' : ForwardInstData I) : stages < 2 ^ 29 → 0 ≤ stages → 0 ≤ L < 2 ^ 29 →
  (isBubble out = false → ∀ nb, vget next tid = Ok nb → canReserve nb = true) →
  (if negb (isBubble out) then
     ar ← activity ar; nb ← vget next tid; next ← vset next tid (reserve nb);
     Ok (mkInsts (insts out) tid, ar, next)
   else Ok (out, ar, next)) = Ok (out', ar', next') →
  (∀ cap ns, 0 ≤ cap < 2 ^ 31 → bank cap next ns →
     bank cap next' (plus (negb (isBubble out')) (instsThreadId out') 1 ns))
  ∧ (settled next → settled next') ∧ sameLines next next'
  ∧ (negb (isBubble out') = true → 0 ≤ instsThreadId out' < Z.of_nat (length next))
  ∧ (ar_wf stages L ar → reported stages L (negb (isBubble out')) ar ar').
Proof.
  intros Hs Hs0 HL Hc E. destruct (isBubble out) eqn:Hb; cbn [negb] in E; res_inv.
  - rewrite Hb. cbn [negb]. split_and!; [|done|apply sameLines_refl|done|by apply reported_refl].
    intros cap ns _ Hbk. eapply bank_ext; [done|]. intros t. unfold plus. cbn. lia.
  - cbn [instsThreadId].
    assert (isBubble (mkInsts (insts out) tid) = false) as -> by (rewrite <- Hb; by destruct out). cbn [negb].
    split_and!.
    + intros cap ns Hcap Hbk. eapply bank_reserve; [done|done|done|by apply Hc|done].
    + intros Hst. by apply (settled_set next next' tid r0 (reserve r0)).
    + by eapply sameLines_reserve.
    + intros _. by eapply vget_bound.
    + intros Har. destruct (activity_Ok stages L ltac:(lia) HL ar Har) as (ar1 & E1 & ? & ? & _).
      rewrite Hr in E1. injection E1 as <-. by split.
Qed.

(** ** Decode and ExecuteDummy *)

Section repack.
Context `{I : Isa} {Info : Type} (ops : RepackOps Info) (stageId n stages L : Z).
Context (Hblock : ∀ b info, blocked ops (setBlocked ops b info) = b).
Context (Hst : 0 ≤ stageId < stages) (Hstages : stages < 2 ^ 29) (HL : 0 ≤ L < 2 ^ 29).
Notation IB := (InputBuffer (ForwardInstData I)).
Implicit Types (b : IB) (bufs next : list IB) (infos : list Info) (info : Info).

Lemma popInput_pops b b' : popInput b = Ok b' → pops b b'.
Proof. unfold popInput. destruct (IB_empty b); [intros [= ->]; reflexivity|]. intros Hp. by apply rtc_once. Qed.

Lemma packLoop_pops fuel W more : ∀ b info d out k b' info' out' k',
  packLoop ops fuel W more b info d out k = Ok (b', info', out', k') → pops b b'.
Proof.
  induction fuel as [|fuel IH]; intros b info [d|] out k b' info' out' k'; cbn [packLoop].
  1,3: destruct (_ && _); [|by intros [= -> _ _ _]; reflexivity].
  2-4: try by intros [= -> _ _ _]; reflexivity.
  - done.
  - intros E. res_inv. destruct r0 as [[info1 out1] k1]. cbn in E. destruct (_ =? _).
    + res_inv. etrans; [by apply popInput_pops|]. by eapply IH.
    + by eapply IH.
Qed.

Lemma blockAll_blocked next infos infos' t i : Z.of_nat (length next) = n → Z.of_nat (length infos) = n →
  0 < n → blockAll ops next infos n = Ok infos' → vget infos' t = Ok i →
  ∃ nb, vget next t = Ok nb ∧ blocked ops i = negb (canReserve nb).
Proof.
  intros Hx Hi Hn Hb Hg. destruct (blockAll_Ok ops n Hn next infos Hx Hi) as (l & Hl & _ & Hall).
  rewrite Hb in Hl. injection Hl as <-. destruct (Hall t i Hg) as (i0 & nb & _ & Hnb & ->). by exists nb.
Qed.

Lemma activateIfWork_reported bufs next ar tids ar' : ar_wf stages L ar →
  activateIfWork stageId bufs next ar tids = Ok ar' → reported stages L false ar ar'.
Proof.
  intros Har. induction tids as [|t tids IH]; cbn; [intros [= <-]; by apply reported_refl|].
  intros E. res_inv. destruct r0 as [d|]; [|by apply IH]. res_inv. destruct (Queue_canReserve _); [|by apply IH].
  destruct (activateStage_Ok stages L ltac:(lia) HL ar stageId Har Hst) as (ar1 & E1 & ? & ? & _).
  rewrite E in E1. injection E1 as <-. by split.
Qed.

Lemma packThread_pops (s : Stage Info) bufs infos out tid bufs' infos' out' :
  packThread ops s bufs infos out tid = Ok (bufs', infos', out') → popsAll bufs bufs'.
Proof.
  unfold packThread. intros E. res_inv. destruct r2 as [[[b' info'] o] k]. cbn in E. res_inv.
  eapply popsAll_set; [done| |done]. by eapply packLoop_pops.
Qed.

Lemma Repack_handed policy shuffled (s s' : Stage Info) (io io' : StageIo) : 0 < n →
  Z.of_nat (length (stageInfo s)) = n → Z.of_nat (length (nextStageReserve io)) = n →
  Repack_evaluate ops stageId policy n shuffled s io = Ok (s', io') →
  handed stages L (negb (isBubble (inp io))) (instsThreadId (inp io))
    (negb (isBubble (Repack.out io'))) (instsThreadId (Repack.out io'))
    (inputBuffer s) (inputBuffer s') (nextStageReserve io) (nextStageReserve io')
    (activityRecorder io) (activityRecorder io')
  ∧ isBubble (Repack.out io) = true ∧ length (stageInfo s') = length (stageInfo s).
Proof.
  intros Hn Hi Hx E. unfold Repack_evaluate in E. cbn zeta in E.
  apply bind_Ok in E as (bufs1 & H1 & E). apply bind_Ok in E as ([] & Hout%assert_Ok & E).
  apply bind_Ok in E as (infos1 & Hbl & E). apply bind_Ok in E as (sched & Hsch & E).
  apply bind_Ok in E as ([[bufs2 infos2] out1] & Hpk & E). apply bind_Ok in E as ([[out2 ar1] next'] & Hfin & E).
  apply bind_Ok in E as (ar2 & Hact & E). apply bind_Ok in E as (bufs3 & H3 & [= <- <-]).
  cbn [inputBuffer stageInfo nextStageReserve activityRecorder Repack.out].
  assert (popsAll bufs1 bufs2 ∧ length infos2 = length infos1) as [Hp Hl2].
  { destruct sched; [|injection Hpk as <- <- _; by split; [reflexivity|]]. split; [by eapply packThread_pops|].
    unfold packThread in Hpk. res_inv. destruct r2 as [[[? ?] ?] ?]. cbn in Hpk. res_inv.
    by eapply vset_length. }
  assert (length infos1 = length (stageInfo s)) as Hl1.
  { destruct (blockAll_Ok ops n Hn _ _ Hx Hi) as (l & Hl & Hlen & _). rewrite Hbl in Hl. by injection Hl as <-. }
  assert (isBubble out1 = false → ∀ nb, vget (nextStageReserve io) (default InvalidThreadID sched) = Ok nb →
    canReserve nb = true) as Hc.
  { intros Ho nb Hnb. destruct sched as [tid|]; [|injection Hpk as _ _ <-; congruence]. cbn in Hnb.
    pose proof (λ i, blockAll_blocked _ _ _ tid i Hx Hi Hn Hbl) as Hall.
    unfold getScheduledThread in Hsch. apply firstReady_Some in Hsch. res_inv. destruct r1; [|done].
    destruct (Hall r0) as (nb' & Hnb' & Hbk); [done|].
    rewrite Hnb in Hnb'. injection Hnb' as <-. rewrite Hbk, negb_involutive in Hsch. by res_inv. }
  destruct (output_handed stages L _ _ _ _ _ _ _ Hstages ltac:(lia) HL Hc Hfin) as (Hnx & Hse & Hle & Hth & Har).
  split_and!; [split|done|congruence].
  - intros cap ns Hcap Hbk Hset Hns. by eapply own_cycle.
  - by eapply own_length.
  - done.
  - done.
  - done.
  - done.
  - intros Hwf. pose proof (Har Hwf) as Hrep. rewrite <- (orb_false_r (negb _)).
    eapply reported_trans; [done|]. destruct Hrep as [Hwf1 _]. by eapply activateIfWork_reported.
Qed.
End repack.

(** ** Fetch2 *)

Section fetch2.
Context `{I : Isa} {DC : Decoder I} (n stages L : Z).
Context (Hst : 0 ≤ Fetch2StageId < stages) (Hstages : stages < 2 ^ 29) (HL : 0 ≤ L < 2 ^ 29).
Notation Line := (ForwardLineData I).
Notation IB := (InputBuffer Line).
Implicit Types (b : IB) (bufs : list IB) (info : Fetch2ThreadInfo) (infos : list Fetch2ThreadInfo) (l : Line).

Lemma f2_popInput_pops b info b' info' : f2_popInput b info = Ok (b', info') → pops b b'.
Proof.
  unfold f2_popInput. intros E. res_inv. destruct (IB_empty b); cbn in Hr; res_inv; [reflexivity|].
  by apply rtc_once.
Qed.

Lemma dumpLoop_pops k b info b' info' : dumpLoop k b info = Ok (b', info') → pops b b'.
Proof.
  revert b info. induction k as [|k IH]; intros b info; cbn;
    destruct (IB_empty b); try (intros [= -> _]; reflexivity).
  intros E. apply bind_Ok in E as ([b1 info1] & H1 & E). etrans; [by eapply f2_popInput_pops|by eapply IH].
Qed.

Lemma dumpAllInput_pops b info b' info' : dumpAllInput b info = Ok (b', info') → pops b b'.
Proof.
  unfold dumpAllInput. intros E. apply bind_Ok in E as ([b1 info1] & H1 & [= -> _]). by eapply dumpLoop_pops.
Qed.

Lemma discardLoop_pops k more b info x b' info' : discardLoop k more b info x = Ok (b', info') →
  pops b b' ∧ f2_blocked info' = f2_blocked info.
Proof.
  revert b info x. induction k as [|k IH]; intros b info [l|]; cbn [discardLoop];
    try (intros [= -> ->]; by split; [reflexivity|]); destruct (mismatch info l);
    try (intros [= -> ->]; by split; [reflexivity|]).
  intros E. apply bind_Ok in E as ([b1 info1] & H1 & E). res_inv. destruct (IH _ _ _ E) as [Hp Hb]. split.
  - etrans; [by eapply f2_popInput_pops|done].
  - rewrite Hb. cbn. unfold f2_popInput in H1. apply bind_Ok in H1 as (? & _ & [= _ <-]). done.
Qed.

Lemma discardThread_pops more bl b info b' info' : discardThread more bl b info = Ok (b', info') →
  pops b b' ∧ f2_blocked info' = bl.
Proof. unfold discardThread. intros E. res_inv. by eapply discardLoop_pops in E as [? ->]. Qed.

Lemma streamChange_pops br bufs infos bufs' infos' : streamChange br bufs infos = Ok (bufs', infos') →
  popsAll bufs bufs' ∧ length infos' = length infos.
Proof.
  unfold streamChange. destruct (isStreamChange _); [|intros [= -> ->]; by split; [reflexivity|]].
  intros E. res_inv. destruct r1 as [b1 i1]. cbn in E. res_inv. split; [|by eapply vset_length].
  eapply popsAll_set; [done| |done]. by eapply dumpAllInput_pops.
Qed.

(** every thread has discarded what it could, and knows whether it is blocked *)
Lemma discardAll_pops more (next : list (InputBuffer (ForwardInstData I))) bufs infos bufs' infos' :
  Z.of_nat (length infos) = n → discardAll more next n (bufs, infos) = Ok (bufs', infos') →
  popsAll bufs bufs' ∧ length infos' = length infos
  ∧ ∀ t i, vget infos' t = Ok i → ∃ nb, vget next t = Ok nb ∧ f2_blocked i = negb (canReserve nb).
Proof.
  unfold discardAll. intros Hn. set (f := λ (st : list IB * list Fetch2ThreadInfo) tid, _).
  assert (∀ k st, mfold f (bufs, infos) (zrange 0 (Z.of_nat k - 1)) = Ok st →
    popsAll bufs st.1 ∧ length st.2 = length infos
    ∧ ∀ t i, 0 ≤ t < Z.of_nat k → vget st.2 t = Ok i →
        ∃ nb, vget next t = Ok nb ∧ f2_blocked i = negb (canReserve nb)) as H.
  { induction k as [|k IH]; intros st.
    { intros [= <-]. split_and!; [reflexivity|done|]. intros; lia. }
    rewrite (zrange_snoc 0), mfold_app by lia. intros E. apply bind_Ok in E as (st1 & E1 & E).
    replace (Z.of_nat (S k) - 1 - 1) with (Z.of_nat k - 1) in E1 by lia.
    destruct (IH _ E1) as (Hp & Hl & Hb). clear IH E1. cbn [mfold] in E.
    apply bind_Ok in E as (st2 & E2 & [= <-]). replace (Z.of_nat (S k) - 1) with (Z.of_nat k) in E2 by lia.
    unfold f in E2. apply bind_Ok in E2 as (nb & Hnb & E2). apply bind_Ok in E2 as (b & Hgb & E2).
    apply bind_Ok in E2 as (i & Hgi & E2). apply bind_Ok in E2 as ([b1 i1] & Hd & E2).
    apply bind_Ok in E2 as (bufs1 & Hsb & E2). apply bind_Ok in E2 as (infos1 & Hsi & [= <-]). cbn [fst snd].
    apply discardThread_pops in Hd as [Hpo Hbl]. split_and!.
    - etrans; [done|]. by eapply popsAll_set.
    - apply vset_length in Hsi. congruence.
    - intros t i' Ht Hi'. destruct (decide (Z.of_nat k = t)) as [<-|Hne].
      + rewrite (vget_vset_eq _ _ _ _ Hsi) in Hi'. injection Hi' as <-. by exists nb.
      + rewrite (vget_vset_ne _ _ _ _ _ Hsi) in Hi' by done. apply (Hb t i'); [lia|done]. }
  intros E. destruct (H (Z.to_nat n) (bufs', infos')) as (Hp & Hl & Hb); [by rewrite Z2Nat.id by lia|].
  cbn [fst snd] in *. split_and!; [done|done|]. intros t i Hi. apply Hb; [|done].
  apply vget_bound in Hi. lia.
Qed.

Lemma afterLine_pops l dl pred b info b' info' dn : afterLine l dl pred b info = Ok (b', info', dn) → pops b b'.
Proof.
  unfold afterLine. intros E. destruct (_ || _).
  - apply bind_Ok in E as ([b1 i1] & H1%dumpAllInput_pops & [= <- _ _]). done.
  - destruct dl; [|destruct (_ =? _)].
    1,2: apply bind_Ok in E as ([b1 i1] & H1%f2_popInput_pops & [= <- _ _]); done.
    injection E as <- _ _. reflexivity.
Qed.

Lemma f2_loop_pops predict W more fuel : ∀ b info (d : Dec DC) x out k pred b' info' d' out' pred',
  f2_loop fuel predict W more b info d x out k pred = Ok (b', info', d', out', pred') → pops b b'.
Proof.
  induction fuel as [|fuel IH]; intros b info d x out k pred b' info' d' out' pred' E; cbn [f2_loop] in E.
  all: destruct x as [l|], pred as [pd|]; try (injection E as <- _ _ _ _; reflexivity).
  all: destruct (_ && _); [|injection E as <- _ _ _ _; reflexivity].
  { done. }
  apply bind_Ok in E as ([[[i1 d1] inst] pd] & _ & E). apply bind_Ok in E as ([[i2 o2] k2] & _ & E).
  apply bind_Ok in E as ([[b3 i3] dn] & H3%afterLine_pops & E). apply bind_Ok in E as (x' & _ & E).
  etrans; [done|]. by eapply IH.
Qed.

Lemma f2_packThread_pops predict W more bufs infos decs out tid bufs' infos' decs' out' pred :
  f2_packThread predict W more bufs infos decs out tid = Ok (bufs', infos', decs', out', pred) →
  popsAll bufs bufs' ∧ length infos' = length infos.
Proof.
  unfold f2_packThread. intros E. res_inv. destruct r3 as [[[[b1 i1] d1] o1] p1]. cbn in E. res_inv.
  apply f2_loop_pops in Hr3. split; [|by eapply vset_length]. by eapply popsAll_set.
Qed.

Lemma f2_activate_reported bufs (next : list (InputBuffer (ForwardInstData I))) ar tids ar' : ar_wf stages L ar →
  f2_activate Fetch2StageId bufs next ar tids = Ok ar' → reported stages L false ar ar'.
Proof.
  intros Har. induction tids as [|t tids IH]; cbn [f2_activate]; [intros [= <-]; by apply reported_refl|].
  intros E. res_inv. destruct r0 as [d|]; [|by apply IH]. res_inv. destruct (canReserve _); [|by apply IH].
  destruct (activateStage_Ok stages L ltac:(lia) HL ar Fetch2StageId Har Hst) as (ar1 & E1 & ? & ? & _).
  rewrite E in E1. injection E1 as <-. by split.
Qed.

Lemma f2_pushTail_eq (x x' : Line) bufs0 bufs bufs' : f2_pushTail x bufs0 bufs = Ok (bufs', x') →
  (if negb (isBubble x) then b ← vget bufs (threadId (lineId x)); vset bufs (threadId (lineId x)) (pushTail b)
   else Ok bufs) = Ok bufs' ∧ (isBubble x = true → isBubble x' = true).
Proof.
  unfold f2_pushTail. destruct (isBubble x) eqn:Hx; cbn [negb]; [intros [= -> <-]; by split|]. cbn zeta. intros E.
  apply bind_Ok in E as (b0 & H0 & E). apply bind_Ok in E as (b & Hb & E). apply bind_Ok in E as (sl & Hsl & E).
  apply bind_Ok in E as (bufs1 & H1 & [= <- <-]). split; [|done]. rewrite Hb. cbn [rbind].
  destruct (isBubble sl) eqn:Hs; cbn [negb] in H1; [|done]. injection H1 as <-.
  assert (pushTail b = b) as ->.
  { unfold latchSlot in Hsl. destruct (elementPtr b0), (elementPtr b) eqn:Ee; try congruence.
    destruct b as [q e]. cbn in Ee. by subst e. }
  apply vget_Ok in Hb as [Ht Hg]. apply vset_Ok. split; [apply lookup_lt_Some in Hg; lia|].
  by rewrite list_insert_id.
Qed.

(** a bundle that the stage has packed fits *)
Definition narrow (d : ForwardInstData I) : Prop := width d ≤ MAX_FORWARD_INSTS.

Lemma packInst_narrow W inst info (out : ForwardInstData I) k info' out' k' :
  packInst W inst info out k = Ok (info', out', k') → k = 0 ∨ narrow out → (out' = out ∧ k' = k) ∨ narrow out'.
Proof.
  unfold packInst. destruct inst as [x|]; [|intros [= _ <- <-]; by left]. intros E Hk. right.
  apply bind_Ok in E as (o1 & H1 & E). apply bind_Ok in E as (o2 & H2 & [= _ <- _]).
  assert (narrow o1) as Hn.
  { destruct (Z.eqb_spec k 0) as [->|Hne]; [|injection H1 as <-; by destruct Hk]. unfold resize in H1.
    apply bind_Ok in H1 as ([] & Hw%assert_Ok%Z.ltb_lt & [= <-]). unfold narrow, width. cbn.
    rewrite length_replicate. unfold MAX_FORWARD_INSTS in *. lia. }
  unfold put_inst in H2. apply bind_Ok in H2 as (l & Hl%vset_length & [= <-]). unfold narrow, width in *. cbn. lia.
Qed.

Lemma f2_loop_narrow predict W more fuel : ∀ b info (d : Dec DC) x (out : ForwardInstData I) k pred b' info' d' out' pred',
  f2_loop fuel predict W more b info d x out k pred = Ok (b', info', d', out', pred') →
  k = 0 ∨ narrow out → out' = out ∨ narrow out'.
Proof.
  induction fuel as [|fuel IH]; intros b info d x out k pred b' info' d' out' pred' E Hk; cbn [f2_loop] in E.
  all: destruct x as [l|], pred as [pd|]; try (injection E as _ _ _ <- _; by left).
  all: destruct (_ && _); [|injection E as _ _ _ <- _; by left].
  { done. }
  apply bind_Ok in E as ([[[i1 d1] inst] pd] & _ & E). apply bind_Ok in E as ([[i2 o2] k2] & H2 & E).
  apply bind_Ok in E as ([[b3 i3] dn] & _ & E). apply bind_Ok in E as (x' & _ & E).
  destruct (packInst_narrow _ _ _ _ _ _ _ _ H2 Hk) as [[-> ->]|Hn]; [by eapply IH|].
  destruct (IH _ _ _ _ _ _ _ _ _ _ _ _ E (or_intror Hn)) as [->|]; by right.
Qed.

Lemma Fetch2_narrow predict policy shuffled (s s' : Fetch2) (io io' : Fetch2Io) pred cmds :
  Fetch2_evaluate predict policy n shuffled s io = Ok (s', io', pred, cmds) →
  narrow (f2_out io) → narrow (f2_out io').
Proof.
  intros E Hb. unfold Fetch2_evaluate in E. cbn zeta in E.
  apply bind_Ok in E as (bufs1 & H1 & E). apply bind_Ok in E as ([] & Hout%assert_Ok & E).
  apply bind_Ok in E as ([bufs2 infos2] & _ & E). apply bind_Ok in E as ([bufs3 infos3] & _ & E).
  apply bind_Ok in E as (sched & _ & E). apply bind_Ok in E as ([[[[bufs4 infos4] decs] out1] pr] & Hpk & E).
  apply bind_Ok in E as ([[out2 ar] next'] & Hfin & E). apply bind_Ok in E as ([bufs5 x'] & _ & [= _ <- _ _]).
  cbn [f2_out] in *. unfold f2_finish in Hfin. apply bind_Ok in Hfin as ([] & _ & Hfin). cbn zeta in Hfin.
  apply bind_Ok in Hfin as ([[out3 ar1] next1] & Hfin & Hact). apply bind_Ok in Hact as (ar2 & _ & [= <- _ _]).
  assert (out1 = f2_out io ∨ narrow out1) as Hn.
  { destruct sched; [|injection Hpk as _ _ _ <- _; by left]. unfold f2_packThread in Hpk.
    do 4 apply bind_Ok in Hpk as (? & _ & Hpk). apply bind_Ok in Hpk as ([[[[b1 i1] d1] o1] p1] & Hl & Hpk).
    do 2 apply bind_Ok in Hpk as (? & _ & Hpk). apply bind_Ok in Hpk as (? & _ & [= _ _ _ <- _]).
    eapply f2_loop_narrow; [done|by left]. }
  assert (narrow out1) as Hn1 by (by destruct Hn as [->|Hn]).
  destruct (isBubble out1); cbn [negb] in Hfin; [by injection Hfin as <- _ _|].
  do 2 apply bind_Ok in Hfin as (? & _ & Hfin). by apply bind_Ok in Hfin as (? & _ & [= <- _ _]).
Qed.

Lemma Fetch2_handed predict policy shuffled (s s' : Fetch2) (io io' : Fetch2Io) pred cmds : 0 < n →
  Z.of_nat (length (f2_fetchInfo s)) = n → Z.of_nat (length (f2_nextStageReserve io)) = n →
  Fetch2_evaluate predict policy n shuffled s io = Ok (s', io', pred, cmds) →
  handed stages L (negb (isBubble (f2_inp io))) (threadId (lineId (f2_inp io)))
    (negb (isBubble (f2_out io'))) (instsThreadId (f2_out io'))
    (f2_inputBuffer s) (f2_inputBuffer s') (f2_nextStageReserve io) (f2_nextStageReserve io')
    (f2_activityRecorder io) (f2_activityRecorder io')
  ∧ isBubble (f2_out io) = true ∧ length (f2_fetchInfo s') = length (f2_fetchInfo s)
  ∧ (isBubble (f2_inp io) = true → isBubble (f2_inp io') = true).
Proof.
  intros Hn Hi Hx E. unfold Fetch2_evaluate in E. cbn zeta in E.
  apply bind_Ok in E as (bufs1 & H1 & E). apply bind_Ok in E as ([] & Hout%assert_Ok & E).
  apply bind_Ok in E as ([bufs2 infos2] & [H2 Hl2]%streamChange_pops & E).
  apply bind_Ok in E as ([bufs3 infos3] & H3 & E). apply discardAll_pops in H3 as (H3 & Hl3 & Hbl); [|congruence].
  apply bind_Ok in E as (sched & Hsch & E).
  apply bind_Ok in E as ([[[[bufs4 infos4] decs] out1] pr] & Hpk & E).
  apply bind_Ok in E as ([[out2 ar] next'] & Hfin & E). apply bind_Ok in E as ([bufs5 x'] & [H5 Hx']%f2_pushTail_eq & E).
  injection E as <- <- _ _. cbn [f2_inputBuffer f2_fetchInfo f2_nextStageReserve f2_activityRecorder f2_out f2_inp].
  unfold f2_finish in Hfin. apply bind_Ok in Hfin as ([] & _ & Hfin). cbn zeta in Hfin.
  apply bind_Ok in Hfin as ([[out3 ar1] next1] & Hfin & Hact). apply bind_Ok in Hact as (ar2 & Hact & [= <- <- <-]).
  assert (popsAll bufs3 bufs4 ∧ length infos4 = length infos3) as [H4 Hl4].
  { destruct sched; [by eapply f2_packThread_pops|]. injection Hpk as <- <- _ _ _. by split; [reflexivity|]. }
  assert (popsAll bufs1 bufs4) as Hp by (by do 2 (etrans; [done|])).
  assert (isBubble out1 = false → ∀ nb, vget (f2_nextStageReserve io) (default InvalidThreadID sched) = Ok nb →
    canReserve nb = true) as Hc.
  { intros Ho nb Hnb. destruct sched as [tid|]; [|injection Hpk as _ _ _ <- _; congruence]. cbn in Hnb.
    unfold f2_getScheduledThread in Hsch. apply firstReady_Some in Hsch. apply bind_Ok in Hsch as (b & _ & Hsch).
    apply bind_Ok in Hsch as (i & Hgi & Hsch). apply bind_Ok in Hsch as (x & _ & Hsch). destruct x; [|done].
    destruct (Hbl _ _ Hgi) as (nb' & Hnb' & Hb). rewrite Hnb in Hnb'. injection Hnb' as <-.
    rewrite Hb, negb_involutive in Hsch. by injection Hsch. }
  destruct (output_handed stages L _ _ _ _ _ _ _ Hstages ltac:(lia) HL Hc Hfin) as (Hnx & Hse & Hle & Hth & Har).
  split_and!; [split|done|congruence|done].
  - intros cap ns Hcap Hbk Hset Hns. by eapply own_cycle.
  - by eapply own_length.
  - done.
  - done.
  - done.
  - done.
  - intros Hwf. pose proof (Har Hwf) as Hrep. rewrite <- (orb_false_r (negb _)).
    eapply reported_trans; [done|]. destruct Hrep as [Hwf1 _]. by eapply f2_activate_reported.
Qed.
End fetch2.

(** ** Execute *)

Section execute.
Context `{I : Isa} {TS : ThreadSem I}.
Notation DynInst := (MyMinorDynInst I).
Implicit Types (s : Execute) (e : ExecEnv).

(** code that takes input at most *)
Record popsX s s' : Prop := {
  px_input : popsAll (x_inputBuffer s) (x_inputBuffer s');
  px_cfg : x_cfg s' = x_cfg s;
}.

#[export] Instance popsX_preorder : PreOrder popsX.
Proof.
  split; [intros s; by split; [reflexivity|]|].
  intros s s1 s2 [H1 E1] [H2 E2]. split; [by etrans|congruence].
Qed.

Lemma popsX_same s s' : x_inputBuffer s' = x_inputBuffer s → x_cfg s' = x_cfg s → popsX s s'.
Proof. intros H1 H2. split; [by rewrite H1|done]. Qed.

Lemma popsX_callLsq {A} (m : St (LSQ I) A) : onlyM popsX (callLsq m).
Proof. intros s a s'. unfold callLsq. destruct (m _) as [[? ?]|]; [|done]. intros [= _ <-]. by apply popsX_same. Qed.

Lemma popsX_instAt p : onlyM popsX (instAt p).
Proof. intros s a s'. unfold instAt. destruct (_ !! p); [|done]. intros [= _ <-]. reflexivity. Qed.

Lemma popsX_popBuffer tid : onlyM popsX (let! x := x_buffer tid in
  if IB_empty x then sret tt
  else let! b := slift (IB_pop x) in let! s := sget in
       let! l := slift (vset (x_inputBuffer s) tid b) in smod (xu_inputBuffer l)).
Proof.
  intros s a s' E. unfold x_buffer, sbind, sget, slift, smod, sret in E.
  destruct (vget (x_inputBuffer s) tid) as [x|] eqn:Ex; [|done]. cbn in E.
  destruct (IB_empty x); [injection E as _ <-; reflexivity|].
  destruct (IB_pop x) as [y|] eqn:Ey; [|done]. cbn in E.
  destruct (vset _ _ _) as [l|] eqn:El; [|done]. injection E as _ <-. split; [|done].
  eapply popsAll_set; [done| |done]. by apply rtc_once.
Qed.
End execute.
#[export] Hint Resolve popsX_callLsq popsX_instAt : only.
#[export] Hint Extern 2 (onlyM popsX (smod _)) => apply only_mod; intros; by apply popsX_same : only.

Section executeParts.
Context `{I : Isa} {TS : ThreadSem I}.
Notation DynInst := (MyMinorDynInst I).
Implicit Types (s : Execute) (e : ExecEnv).

Lemma popsX_popInput tid : onlyM popsX (x_popInput tid).
Proof.
  intros s a s' E. unfold x_popInput in E. apply sbind_Ok in E as (x & s1 & H1 & E).
  apply sbind_Ok in E as ([] & s2 & H2 & E). trans s2.
  - assert ((let! x := x_buffer tid in
      if IB_empty x then sret tt
      else let! b := slift (IB_pop x) in let! s := sget in
           let! l := slift (vset (x_inputBuffer s) tid b) in smod (xu_inputBuffer l)) s = Ok (tt, s2)) as H.
    { unfold sbind at 1. by rewrite H1. }
    by eapply popsX_popBuffer in H.
  - assert (onlyM popsX (x_updThread tid (set_inputIndex 0))) as H by only_tac. by eapply H.
Qed.
#[local] Hint Resolve popsX_popInput : only.

Lemma popsX_tryUnits e tid inst n k : onlyM popsX (tryUnits e tid inst n k).
Proof. revert k. induction n; intros; cbn [tryUnits]; only_tac. Qed.
#[local] Hint Resolve popsX_tryUnits : only.
Lemma popsX_issueLoop e n tid d st : onlyM popsX (issueLoop e n tid d st).
Proof. revert d st. induction n; intros; cbn [issueLoop]; only_tac. Qed.
#[local] Hint Resolve popsX_issueLoop : only.
Lemma popsX_pcEventLoop n tid k : onlyM popsX (pcEventLoop n tid k).
Proof. revert k. induction n; intros; cbn [pcEventLoop]; only_tac. Qed.
#[local] Hint Resolve popsX_pcEventLoop : only.
Lemma popsX_commitInst e p b : onlyM popsX (commitInst e p b).
Proof. only_tac. Qed.
#[local] Hint Resolve popsX_commitInst : only.
Lemma popsX_commitLoop e n tid b c k m : onlyM popsX (commitLoop e n tid b c k m).
Proof. revert k m. induction n; intros; cbn [commitLoop]; only_tac. Qed.
#[local] Hint Resolve popsX_commitLoop : only.
Lemma popsX_interruptLoop e n tid b : onlyM popsX (interruptLoop e n tid b).
Proof. revert tid b. induction n; intros; cbn [interruptLoop]; only_tac. Qed.
#[local] Hint Resolve popsX_interruptLoop : only.
Lemma popsX_firstThread (f : Z → St Execute bool) l : (∀ t, onlyM popsX (f t)) → onlyM popsX (firstThread f l).
Proof. intros. induction l; intros; cbn [firstThread]; only_tac. Qed.
Lemma popsX_eachThread (f : Z → St Execute unit) l : (∀ t, onlyM popsX (f t)) → onlyM popsX (eachThread f l).
Proof. intros. induction l; intros; cbn [eachThread]; only_tac. Qed.
#[local] Hint Extern 2 (onlyM popsX (firstThread _ _)) => apply popsX_firstThread; only_tac : only.
#[local] Hint Extern 2 (onlyM popsX (eachThread _ _)) => apply popsX_eachThread; only_tac : only.
Lemma popsX_killInput n tid : onlyM popsX (killInput n tid).
Proof. induction n; intros; cbn [killInput]; only_tac. Qed.
Lemma popsX_nextIssuable l : onlyM popsX (nextIssuable l).
Proof. induction l; intros; cbn [nextIssuable]; only_tac. Qed.
Lemma popsX_couldIssue e f l : onlyM popsX (couldIssue e f l).
Proof. induction l; intros; cbn [couldIssue]; only_tac. Qed.
#[local] Hint Resolve popsX_killInput popsX_nextIssuable popsX_couldIssue : only.
Lemma popsX_advanceUnits e l ks : onlyM popsX (advanceUnits e l ks).
Proof. induction ks; intros; cbn [advanceUnits]; only_tac. Qed.
Lemma popsX_headMightCommit l b : onlyM popsX (headMightCommit l b).
Proof. revert b. induction l; intros; cbn [headMightCommit]; only_tac. Qed.
#[local] Hint Resolve popsX_advanceUnits popsX_headMightCommit : only.
Lemma popsX_checkInterrupts e : onlyM popsX (checkInterrupts e).
Proof. only_tac. Qed.
Lemma popsX_commitAndIssue e b : onlyM popsX (commitAndIssue e b).
Proof. only_tac. Qed.
Lemma popsX_advanceAndWake e k b : onlyM popsX (advanceAndWake e k b).
Proof. only_tac. Qed.
Lemma popsX_drain : onlyM popsX x_drain.
Proof. only_tac. Qed.
Lemma popsX_drainResume : onlyM popsX x_drainResume.
Proof. only_tac. Qed.

Lemma x_setTail_eq (d : ForwardInstData I) s s' : x_setTail d s = Ok (tt, s') →
  (if negb (isBubble d) then b ← vget (x_inputBuffer s) (instsThreadId d); b ← setTail b d;
                             vset (x_inputBuffer s) (instsThreadId d) b
   else Ok (x_inputBuffer s)) = Ok (x_inputBuffer s') ∧ x_cfg s' = x_cfg s.
Proof.
  unfold x_setTail. destruct (isBubble d); cbn [negb]; [intros [= <-]; by split|].
  unfold x_buffer, sbind, sget, slift, smod. intros E.
  destruct (vget _ _) as [b|]; [|done]. cbn in *.
  destruct (setTail b d) as [b'|]; [|done]. cbn in *. destruct (vset _ _ _) as [l|]; [|done].
  by injection E as <-.
Qed.

Lemma x_pushTail_eq (d : ForwardInstData I) s s' : x_pushTail d s = Ok (tt, s') →
  (if negb (isBubble d) then b ← vget (x_inputBuffer s) (instsThreadId d);
                             vset (x_inputBuffer s) (instsThreadId d) (pushTail b)
   else Ok (x_inputBuffer s)) = Ok (x_inputBuffer s') ∧ x_cfg s' = x_cfg s
  ∧ x_branch s' = x_branch s ∧ x_activity s' = x_activity s.
Proof.
  unfold x_pushTail. destruct (isBubble d); cbn [negb]; [intros [= <-]; by split|].
  unfold x_buffer, sbind, sget, slift, smod. intros E.
  destruct (vget _ _) as [b|]; [|done]. cbn in *.
  destruct (vset _ _ _) as [l|]; [|done]. by injection E as <-.
Qed.

Lemma advanceAndWake_activity e k b s u s' : advanceAndWake e k b s = Ok (u, s') →
  isBubble (x_branch s') = false → x_activity s' = true.
Proof.
  unfold advanceAndWake. intros E. do 7 (apply sbind_Ok in E as (? & ? & _ & E)).
  apply sbind_Ok in E as (? & ? & [= -> <-] & E). destruct (isBubble (x_branch _)) eqn:Hb; cbn [negb] in E.
  - injection E as _ <-. congruence.
  - by injection E as _ <-.
Qed.

(** a cycle of Execute; its output goes to Fetch1 and Fetch2 *)
Lemma Execute_handed e d s u s' : Execute_evaluate e d s = Ok (u, s') →
  (∀ cap ns, 0 ≤ cap < 2 ^ 31 → bank cap (x_inputBuffer s) ns → settled (x_inputBuffer s) →
     (negb (isBubble d) = true → 0 < ns (instsThreadId d)) →
     bank cap (x_inputBuffer s') (plus (negb (isBubble d)) (instsThreadId d) (-1) ns) ∧ settled (x_inputBuffer s'))
  ∧ length (x_inputBuffer s') = length (x_inputBuffer s) ∧ x_cfg s' = x_cfg s
  ∧ (isBubble (x_branch s') = false → x_activity s' = true).
Proof.
  intros E. unfold Execute_evaluate in E. apply sbind_Ok in E as ([] & s1 & [H1 C1]%x_setTail_eq & E).
  apply sbind_Ok in E as (? & ? & [= <- <-] & E). apply sbind_Ok in E as ([] & s2 & H2%popsX_callLsq & E).
  apply sbind_Ok in E as (r & s3 & H3%popsX_checkInterrupts & E). apply sbind_Ok in E as (? & ? & [= <- <-] & E).
  apply sbind_Ok in E as (k & s4 & H4 & E).
  apply sbind_Ok in E as ([] & s5 & H5 & E). pose proof (advanceAndWake_activity _ _ _ _ _ _ H5) as Ha.
  apply popsX_advanceAndWake in H5. destruct u. apply x_pushTail_eq in E as (H6 & C6 & Hb & Hact).
  assert (popsX s3 s4) as H4'.
  { destruct r.1; [injection H4 as _ <-; reflexivity|]. destruct (isBubble (x_branch s3)); [by apply popsX_commitAndIssue in H4|].
    injection H4 as _ <-; reflexivity. }
  assert (popsX s1 s5) as [Hp Hc] by (do 3 (etrans; [done|]); done).
  split_and!; [|by eapply own_length|congruence|by rewrite Hb, Hact].
  intros cap ns Hcap Hbk Hset Hns. by eapply own_cycle.
Qed.
End executeParts.

(** ** Fetch1 *)

Section fetch1.
Context `{I : Isa}.
Notation Line := (ForwardLineData I).
Implicit Types (s : Fetch1) (r : FetchRequest) (i : Fetch1ThreadInfo).

(** the requests in flight stay in flight, in order, and threads blocked *)
Record f1_same s s' : Prop := {
  fs_ids : fr_id <$> flight s' = fr_id <$> flight s;
  fs_blocked : f1_blocked <$> f1_fetchInfo s' = f1_blocked <$> f1_fetchInfo s;
  fs_limit : f1_fetchLimit s' = f1_fetchLimit s;
}.

(** the requests are within the limit, which is an [unsigned] *)
Definition f1_fit s : Prop := Z.of_nat (length (flight s)) ≤ f1_fetchLimit s < 2 ^ 32.

Lemma fit_same s s' : f1_same s s' → f1_fit s → f1_fit s'.
Proof.
  intros [Hi _ Hl]. apply (f_equal length) in Hi. rewrite !length_fmap in Hi. unfold f1_fit. by rewrite Hi, Hl.
Qed.

Lemma fit_count s : f1_fit s → numInFlightFetches s = Z.of_nat (length (flight s)).
Proof.
  unfold f1_fit, numInFlightFetches, occupiedSpace, flight. rewrite length_app. intros H.
  rewrite (u32_id (Z.of_nat (length (queue (f1_requests s))))) by lia.
  rewrite (u32_id (Z.of_nat (length (queue (f1_transfers s))))) by lia. rewrite u32_id; lia.
Qed.

#[export] Instance f1_same_preorder : PreOrder f1_same.
Proof.
  split; [by intros s; split|]. intros s s1 s2 [H1 E1 L1] [H2 E2 L2]. split; congruence.
Qed.

Lemma same_update k f : (∀ r, fr_id (f r) = fr_id r) → onlyM f1_same (f1_update k f).
Proof.
  intros Hf. apply only_mod. intros s. split; [|done|done]. unfold flight. cbn. rewrite !fmap_app, <- !list_fmap_compose.
  f_equal; apply list_fmap_ext; intros j r _; cbn; by destruct (_ =? k).
Qed.

Lemma same_move k : onlyM f1_same (f1_moveToTransfers k).
Proof.
  intros s u s' E. unfold f1_moveToTransfers in E. apply sbind_Ok in E as (? & ? & [= <- <-] & E).
  apply sbind_Ok in E as ([] & s1 & H1 & E). apply (only_assert eq) in H1. subst s1.
  unfold sbind, slift, smod, Queue_front, Queue_pop in E.
  destruct (queue (f1_requests s)) as [|r q] eqn:Eq; [done|]. injection E as _ <-. split; [|done|done].
  unfold flight. cbn. by rewrite Eq, <- app_assoc.
Qed.

(** writing a record of the thread that keeps [blocked] *)
Lemma same_setThread t i i' s u s' : vget (f1_fetchInfo s) t = Ok i → f1_blocked i' = f1_blocked i →
  f1_setThread t i' s = Ok (u, s') → f1_same s s'.
Proof.
  intros Hi Hb E. unfold f1_setThread, sbind, sget, slift, smod in E.
  destruct (vset _ _ _) as [l|] eqn:El; [|done]. injection E as _ <-. split; [done| |done]. cbn.
  apply vset_Ok in El as [Ht ->]. rewrite list_fmap_insert. apply list_insert_id.
  apply vget_Ok in Hi as [_ Hi]. by rewrite list_lookup_fmap, Hi, Hb.
Qed.
End fetch1.
#[export] Hint Resolve same_move : only.
#[export] Hint Extern 2 (onlyM f1_same (f1_update _ _)) => apply same_update; done : only.
#[export] Hint Extern 2 (onlyM f1_same (smod _)) => apply only_mod; intros; by split : only.

Section fetch1Parts.
Context `{I : Isa}.
Notation Line := (ForwardLineData I).
Implicit Types (s : Fetch1) (r : FetchRequest) (i : Fetch1ThreadInfo) (next : list (InputBuffer Line)).

Lemma same_thread t s i s' : f1_thread t s = Ok (i, s') → s' = s ∧ vget (f1_fetchInfo s) t = Ok i.
Proof.
  unfold f1_thread, sbind, sget, slift. destruct (vget _ _); [|done]. by intros [= -> <-].
Qed.

Lemma same_changeStream b : onlyM f1_same (changeStream (I:=I) b).
Proof.
  intros s u s' E. unfold changeStream in E. apply sbind_Ok in E as (i & s1 & [-> Hi]%same_thread & E).
  apply sbind_Ok in E as (p & s1 & H1 & E). apply (only_lift eq) in H1. subst s1.
  by eapply same_setThread in E.
Qed.
#[local] Hint Resolve same_changeStream : only.

Lemma same_branches a b : onlyM f1_same (f1_branches (I:=I) a b).
Proof. only_tac. Qed.

Lemma same_finish acc k f : onlyM f1_same (f1_finish (I:=I) acc k f).
Proof. only_tac. Qed.

Lemma same_stepQueues acc : onlyM f1_same (stepQueues (I:=I) acc).
Proof. only_tac. Qed.

Lemma same_retry acc : onlyM f1_same (f1_recvReqRetry (I:=I) acc).
Proof. only_tac. Qed.

Lemma same_response k pkt : onlyM f1_same (f1_recvTimingResp (I:=I) k pkt).
Proof. only_tac. Qed.

Lemma same_wakeup t p : onlyM f1_same (wakeupFetch (I:=I) t p).
Proof.
  intros s u s' E. unfold wakeupFetch in E. apply sbind_Ok in E as (i & s1 & [-> Hi]%same_thread & E).
  apply sbind_Ok in E as ([] & s1 & H1 & [= _ <-]). eapply same_setThread in H1; [|done..].
  etrans; [done|by split].
Qed.

(** a new request *)
Lemma fetchLine_flight acc tid reply s u s' : fetchLine (I:=I) acc tid reply s = Ok (u, s') →
  (∃ x, threadId x = tid ∧ fr_id <$> flight s' = (fr_id <$> flight s) ++ [x])
  ∧ f1_blocked <$> f1_fetchInfo s' = f1_blocked <$> f1_fetchInfo s ∧ f1_fetchLimit s' = f1_fetchLimit s.
Proof.
  intros E. unfold fetchLine in E. cbn zeta in E. apply sbind_Ok in E as (i & s1 & [-> Hi]%same_thread & E).
  apply sbind_Ok in E as (? & ? & [= <- <-] & E). apply sbind_Ok in E as ([] & s1 & [= <-] & E).
  apply sbind_Ok in E as ([] & s2 & [= H2] & E). apply sbind_Ok in E as ([] & s3 & H3 & E).
  apply sbind_Ok in E as ([] & s4 & [= <-] & E). apply sbind_Ok in E as (i' & s5 & [-> Hi']%same_thread & E).
  eapply same_setThread in E as [E1 E2 E3]; [|exact Hi'|done].
  assert (f1_same s2 s3) as [H31 H32 H33].
  { destruct reply; [by apply same_finish in H3|]. injection H3 as <-. reflexivity. }
  rewrite E1, E2, E3. change (flight (f1_stepLine s3)) with (flight s3). cbn [f1_stepLine f1_fetchInfo f1_fetchLimit].
  rewrite H31, H32, H33. subst s2. split; [|done]. unfold flight. cbn. rewrite app_assoc, fmap_app. cbn.
  eexists. split; [|reflexivity]. done.
Qed.

Lemma inflight_ids t (fl : list FetchRequest) : inflight t fl = countb (λ x, threadId x =? t) (fr_id <$> fl).
Proof.
  unfold inflight. induction fl as [|r fl IH]; [done|]. cbn [fmap list_fmap]. by rewrite !countb_cons, IH.
Qed.

Lemma processResponse_line r (l l' : Line) s s' : processResponse r l s = Ok (l', s') →
  isBubble l' = false ∧ lineId l' = fr_id r ∧ f1_same s s' ∧ f1_activity s' = f1_activity s
  ∧ f1_requests s' = f1_requests s ∧ f1_transfers s' = f1_transfers s.
Proof.
  intros E. unfold processResponse in E. cbn zeta in E. apply sbind_Ok in E as (i & s1 & [-> Hi]%same_thread & E).
  apply sbind_Ok in E as (l1 & s1 & H1 & E). apply sbind_Ok in E as (? & ? & [= <- <-] & E).
  apply sbind_Ok in E as (d & s2 & H2 & E). apply (only_lift eq) in H2. subst s2. injection E as <- <-.
  unfold isBubble, Line_isBubble. cbn. destruct (faultSet (fr_fault r)) eqn:Ef.
  - apply sbind_Ok in H1 as ([] & s2 & H2 & [= <- <-]). cbn. unfold setFault. cbn. rewrite Ef.
    pose proof H2 as H3. eapply same_setThread in H2; [|done..].
    unfold f1_setThread, sbind, sget, slift, smod in H3. destruct (vset _ _ _); [|done]. by injection H3 as <-.
  - apply sbind_Ok in H1 as (p & s2 & H2 & H1). apply (only_lift eq) in H2. subst s2.
    unfold slift, adoptPacketData in H1. cbn in H1. res_inv. by split_and!.
Qed.

Lemma f1_blockAll_blocked next n s u s' : Z.of_nat (length (f1_fetchInfo s)) = n →
  f1_blockAll next n s = Ok (u, s') →
  flight s' = flight s ∧ f1_fetchLimit s' = f1_fetchLimit s ∧ length (f1_fetchInfo s') = length (f1_fetchInfo s)
  ∧ ∀ t i, vget (f1_fetchInfo s') t = Ok i → ∃ nb, vget next t = Ok nb ∧ f1_blocked i = negb (canReserve nb).
Proof.
  intros Hn E. unfold f1_blockAll in E. apply sbind_Ok in E as (? & ? & [= <- <-] & E).
  apply sbind_Ok in E as (infos & s1 & H1 & [= _ <-]). unfold slift in H1.
  apply bind_Ok in H1 as (l & H1 & [= -> ->]). cbn. split; [done|]. split; [done|].
  assert (∀ k l', mfold (f1_block next) (f1_fetchInfo s1) (zrange 0 (Z.of_nat k - 1)) = Ok l' →
    length l' = length (f1_fetchInfo s1)
    ∧ ∀ t i, 0 ≤ t < Z.of_nat k → vget l' t = Ok i → ∃ nb, vget next t = Ok nb ∧ f1_blocked i = negb (canReserve nb))
    as H.
  { clear infos H1. induction k as [|k IH]; intros l'; [intros [= <-]; split; [done|lia]|].
    rewrite (zrange_snoc 0), mfold_app by lia. intros E. apply bind_Ok in E as (l1 & E1 & E).
    replace (Z.of_nat (S k) - 1 - 1) with (Z.of_nat k - 1) in E1 by lia. destruct (IH _ E1) as [Hl Hb].
    cbn [mfold] in E. apply bind_Ok in E as (l2 & E2 & [= <-]).
    replace (Z.of_nat (S k) - 1) with (Z.of_nat k) in E2 by lia. unfold f1_block in E2.
    apply bind_Ok in E2 as (nb & Hnb & E2). apply bind_Ok in E2 as (i & Hi & E2).
    split; [apply vset_length in E2; congruence|]. intros t i' Ht Hi'. destruct (decide (Z.of_nat k = t)) as [<-|Hne].
    - rewrite (vget_vset_eq _ _ _ _ E2) in Hi'. injection Hi' as <-. by exists nb.
    - rewrite (vget_vset_ne _ _ _ _ _ E2) in Hi' by done. apply (Hb t i'); [lia|done]. }
  destruct (H (Z.to_nat n) infos) as [Hl Hb]; [by rewrite Z2Nat.id by lia|]. split; [done|].
  intros t i Hi. apply (Hb t i); [|done]. apply vget_bound in Hi. lia.
Qed.

(** starting a fetch reserves a slot for it *)
Lemma f1_startFetch_handed acc policy n io next s next' s' :
  (∀ t i, vget (f1_fetchInfo s) t = Ok i → ∃ nb, vget next t = Ok nb ∧ f1_blocked i = negb (canReserve nb)) →
  f1_startFetch acc policy n io next s = Ok (next', s') →
  (∀ cap ns, 0 ≤ cap < 2 ^ 31 → bank cap next (λ t, ns t + inflight t (flight s)) →
     bank cap next' (λ t, ns t + inflight t (flight s')))
  ∧ (settled next → settled next') ∧ length next' = length next
  ∧ length (f1_fetchInfo s') = length (f1_fetchInfo s) ∧ (f1_fit s → f1_fit s').
Proof.
  intros Hbl E. unfold f1_startFetch in E. apply sbind_Ok in E as (? & ? & [= <- <-] & E).
  destruct (Z.ltb_spec (numInFlightFetches s) (f1_fetchLimit s)) as [Hlim|_]; [|injection E as <- <-; done].
  apply sbind_Ok in E as (sched & s1 & H1 & E). unfold f1_getScheduledThread in H1.
  apply sbind_Ok in H1 as (? & ? & [= <- <-] & H1). apply sbind_Ok in H1 as (sc & s2 & H2 & H1).
  unfold slift in H2. apply bind_Ok in H2 as (sc' & H2 & [= -> ->]).
  apply sbind_Ok in H1 as ([] & s3 & H3 & [= -> ->]). destruct sched as [tid|].
  - injection H3 as <-. apply firstReady_Some in H2. apply bind_Ok in H2 as (i & Hi & H2). injection H2 as H2.
    apply andb_true_iff in H2 as [[_ Hnb%negb_true_iff]%andb_true_iff _].
    destruct (Hbl _ _ Hi) as (nb & Hgn & Hb). rewrite Hnb in Hb. symmetry in Hb. apply negb_false_iff in Hb.
    apply sbind_Ok in E as ([] & s3 & H3 & E). apply fetchLine_flight in H3 as ((x & Hx & Hfl) & Hbk & Hli).
    apply sbind_Ok in E as (nb' & s4 & H4 & E). unfold slift in H4, E. rewrite Hgn in H4. injection H4 as <- <-.
    apply bind_Ok in E as (l & Hs & [= -> ->]). split_and!.
    + intros cap ns Hcap Hbank. eapply bank_ext; [by eapply bank_reserve|].
      intros t. cbn. rewrite !inflight_ids, Hfl, countb_app, countb_cons, countb_nil.
      change (flight (f1_updPriority tid s2)) with (flight s2). unfold plus. rewrite inflight_ids, Hx.
      destruct (tid =? t); cbn; lia.
    + intros Hset. by apply (settled_set next next' tid nb (reserve nb)).
    + by eapply vset_length.
    + apply (f_equal length) in Hbk. by rewrite !length_fmap in Hbk.
    + intros Hfit. pose proof (fit_count _ Hfit) as Hc. unfold f1_fit in *. apply (f_equal length) in Hfl.
      rewrite length_app, !length_fmap in Hfl. cbn in Hfl, Hli.
      change (flight (f1_updPriority tid s2)) with (flight s2) in Hfl. lia.
  - injection H3 as <-. by injection E as <- <-.
Qed.

(** taking a response frees a slot, or fills it with a line *)
Lemma f1_takeResponse_handed (l : Line) next s res s' : isBubble l = true →
  f1_takeResponse l next s = Ok (res, s') →
  (∀ cap ns, 0 ≤ cap < 2 ^ 31 → (∀ t, 0 ≤ ns t) → bank cap next (λ t, ns t + inflight t (flight s)) →
     bank cap res.2 (λ t, ns t + b2z (line_of t res.1) + inflight t (flight s')))
  ∧ (settled next → settled res.2) ∧ length res.2 = length next
  ∧ length (f1_fetchInfo s') = length (f1_fetchInfo s) ∧ f1_activity s' = f1_activity s ∧ (f1_fit s → f1_fit s').
Proof.
  intros Hl E. unfold f1_takeResponse in E. apply sbind_Ok in E as (? & ? & [= <- <-] & E).
  assert (∀ cap ns, bank cap next (λ t, ns t + inflight t (flight s)) →
    bank cap next (λ t, ns t + b2z (line_of t l) + inflight t (flight s))) as Hsame.
  { intros cap ns Hb. eapply bank_ext; [done|]. intros t. unfold line_of. rewrite Hl. cbn. lia. }
  destruct (queue (f1_transfers s)) as [|r q] eqn:Eq; [injection E as <- <-; split_and!; auto|].
  destruct (fr_isComplete r); [|injection E as <- <-; split_and!; auto].
  apply sbind_Ok in E as (disc & s1 & H1 & E). apply (only_lift eq) in H1. subst s1.
  apply sbind_Ok in E as (res1 & s2 & H2 & E). apply sbind_Ok in E as (? & ? & [= <- <-] & E).
  apply sbind_Ok in E as (q' & s3 & H3 & E). unfold slift in H3. apply bind_Ok in H3 as (q1 & H3 & [= -> ->]).
  apply sbind_Ok in E as ([] & s4 & [= <-] & [= <- <-]). cbn [f1_updQueues f1_fetchInfo f1_activity].
  assert (∀ t, inflight t (flight s) = b2z (threadId (fr_id r) =? t) + inflight t (q ++ queue (f1_requests s))) as Hfl.
  { intros t. unfold flight, inflight. rewrite Eq. cbn [app]. by rewrite countb_cons. }
  assert (∀ s2, f1_requests s2 = f1_requests s → f1_transfers s2 = f1_transfers s → Queue_pop (f1_transfers s2) = Ok q' →
    flight (f1_updQueues (f1_requests s2) q' s2) = q ++ queue (f1_requests s)) as Hq.
  { intros s0 Hr Ht Hp. rewrite Ht in Hp. unfold Queue_pop in Hp. rewrite Eq in Hp. injection Hp as <-.
    unfold flight. cbn. by rewrite Hr. }
  assert (∀ s2, f1_fetchLimit s2 = f1_fetchLimit s → flight s2 = q ++ queue (f1_requests s) → f1_fit s → f1_fit s2) as Hfit.
  { intros s0 Hlim Hf. unfold f1_fit. rewrite Hlim, Hf. unfold flight. rewrite Eq. cbn. lia. }
  destruct disc.
  - apply sbind_Ok in H2 as (nb & s4 & H4 & H2). unfold slift in H4. apply bind_Ok in H4 as (nb' & Hnb & [= -> <-]).
    apply sbind_Ok in H2 as (next1 & s5 & H5 & H2). unfold slift in H5. apply bind_Ok in H5 as (n1 & Hs & [= -> <-]).
    apply sbind_Ok in H2 as ([] & s6 & [= <-] & [= <- <-]). cbn [fst snd]. rewrite Hq by done. split_and!; try done.
    + intros cap ns Hcap Hns Hb. set (tid := threadId (fr_id r)) in *.
      pose proof (Hns tid). pose proof (slots_inflight_nonneg tid (q ++ queue (f1_requests s))).
      eapply (bank_set cap next _ tid (ns tid + inflight tid (flight s) - 1)); [exact Hb|exact Hs| | |].
      * apply buf_ok_cancel; [done|exact (Hb _ _ Hnb)|]. rewrite Hfl, Z.eqb_refl. cbn. lia.
      * rewrite Hfl, Z.eqb_refl. unfold line_of. rewrite Hl. cbn. lia.
      * intros t' Hne%Z.eqb_neq. cbn. rewrite (Hfl t'), Hne. unfold line_of. rewrite Hl. cbn. lia.
    + intros Hset. by eapply (settled_set next _ (threadId (fr_id r)) nb (freeReservation nb)).
    + by eapply vset_length.
    + apply Hfit; [done|by apply Hq].
  - apply sbind_Ok in H2 as (l' & s4 & H4 & [= <- <-]).
    apply processResponse_line in H4 as (Hl' & Hid & [_ Hbk Hli] & Hact & Hr & Ht). cbn [fst snd].
    rewrite Hq by done. split_and!; try done.
    + intros cap ns Hcap Hns Hb. eapply bank_ext; [done|]. intros t. cbn. rewrite Hfl. unfold line_of.
      rewrite Hl', Hid. cbn. lia.
    + apply (f_equal length) in Hbk. by rewrite !length_fmap in Hbk.
    + apply Hfit; [done|by apply Hq].
Qed.

(** a cycle of Fetch1; [ns t] lines are on the way to thread [t]'s buffer *)
Lemma Fetch1_handed acc policy n io s res s' : Z.of_nat (length (f1_fetchInfo s)) = n →
  Fetch1_evaluate (I:=I) acc policy n io s = Ok (res, s') →
  (∀ cap ns, 0 ≤ cap < 2 ^ 31 → (∀ t, 0 ≤ ns t) →
     bank cap (f1_nextStageReserve io) (λ t, ns t + inflight t (flight s)) →
     bank cap res.2 (λ t, ns t + b2z (line_of t res.1) + inflight t (flight s')))
  ∧ (settled (f1_nextStageReserve io) → settled res.2) ∧ length res.2 = length (f1_nextStageReserve io)
  ∧ length (f1_fetchInfo s') = length (f1_fetchInfo s)
  ∧ isBubble (f1_out io) = true ∧ (isBubble res.1 = false → f1_activity s' = true) ∧ (f1_fit s → f1_fit s').
Proof.
  intros Hn E. unfold Fetch1_evaluate in E. do 2 (apply sbind_Ok in E as ([] & ? & [= <-] & E)).
  apply sbind_Ok in E as ([] & s1 & H1 & E). unfold sassert, slift in H1.
  apply bind_Ok in H1 as ([] & Hout%assert_Ok & [= <-]).
  apply sbind_Ok in E as ([] & s2 & H2 & E). apply f1_blockAll_blocked in H2 as (Hf2 & Hm2 & Hl2 & Hb2); [|done].
  apply sbind_Ok in E as ([] & s3 & H3%same_branches & E). pose proof H3 as [Hf3 Hb3 Hm3].
  apply sbind_Ok in E as (next & s4 & H4 & E). apply sbind_Ok in E as ([] & s5 & H5%same_stepQueues & E).
  pose proof H5 as [Hf5 Hb5 Hm5].
  apply sbind_Ok in E as (res' & s6 & H6 & E). apply f1_takeResponse_handed in H6 as (H6 & Hs6 & Hn6 & Hl6 & _ & Hfit6); [|done].
  apply sbind_Ok in E as ([] & s7 & H7 & E). apply sbind_Ok in E as (? & ? & [= <- <-] & E). cbn zeta in E.
  apply sbind_Ok in E as (tb & s8 & H8 & E). apply (only_lift eq) in H8. subst s8.
  do 2 (apply sbind_Ok in E as ([] & ? & [= <-] & E)). injection E as <- <-. cbn [f1_updInfo f1_updLvpt f1_fetchInfo f1_activity].
  apply f1_startFetch_handed in H4 as (H4 & Hs4 & Hn4 & Hl4 & Hfit4).
  2:{ intros t i Hi. assert (f1_blocked <$> f1_fetchInfo s3 = f1_blocked <$> f1_fetchInfo s2) as Hb by done.
      apply vget_Ok in Hi as [Ht Hi]. apply (f_equal (λ l, l !! Z.to_nat t)) in Hb.
      rewrite !list_lookup_fmap, Hi in Hb. cbn in Hb. destruct (f1_fetchInfo s2 !! Z.to_nat t) as [i2|] eqn:E2; [|done].
      injection Hb as Hb. destruct (Hb2 t i2) as (nb & Hg & Hc); [by apply vget_Ok|]. exists nb. by rewrite Hb. }
  assert (flight s7 = flight s6 ∧ f1_fetchInfo s7 = f1_fetchInfo s6 ∧ f1_fetchLimit s7 = f1_fetchLimit s6
    ∧ (isBubble res'.1 = false → f1_activity s7 = true)) as (Hf7 & Hi7 & Hm7 & Ha7).
  { destruct (isBubble res'.1); injection H7 as <-; done. }
  assert (∀ sa sb t, fr_id <$> flight sb = fr_id <$> flight sa → inflight t (flight sb) = inflight t (flight sa)) as Hids.
  { intros sa sb t Hi. by rewrite !inflight_ids, Hi. }
  split_and!; [| |congruence| |done|done|].
  - intros cap ns Hcap Hns Hb. change (flight (f1_updInfo _ _)) with (flight s7). rewrite Hf7.
    apply H6; [done|done|]. eapply bank_ext; [apply (H4 cap ns Hcap)|intros t; cbn; by rewrite (Hids s4 s5)].
    eapply bank_ext; [exact Hb|]. intros t. cbn. rewrite (Hids s2 s3) by done. by rewrite Hf2.
  - auto.
  - rewrite length_fmap, Hi7, Hl6. apply (f_equal length) in Hb3, Hb5. rewrite !length_fmap in Hb3, Hb5.
    rewrite Hb5, Hl4, Hb3, Hl2. done.
  - intros Hfit. change (f1_fit s7). unfold f1_fit. rewrite Hf7, Hm7.
    apply Hfit6, (fit_same s4), Hfit4, (fit_same s2); [done|done|]. unfold f1_fit. by rewrite Hf2, Hm2.
Qed.
End fetch1Parts.
