(* ===== verification/PipelineInv.v ===== *)
(** * The pipeline over time

    An invariant of the whole pipeline: every slot reserved in an input buffer
    is for an element on its way there (in the latch, or a line still being
    fetched), no buffer is over-full, and whatever is in a latch has been
    reported to the activity recorder within its window.  It holds after
    construction and is kept by cycles and by everything that happens between
    cycles. *)
From stdpp Require Import gmap.
From S2P Require Import Prelude TimeBuf Buffers Activity LVPT PipeData Cpu Repack Decode ExecuteDummy.
From S2P Require Import Fetch1 Fetch1Inv Fetch1Stage Fetch2 LsqRequest Lsq Runs Execute ExecuteHistory.
From S2P Require Import Pipeline PipelineParts.

(** ** Latches *)

Section latch.
Context {T : Type} `{IsBubble T} (dflt : T) (Hdflt : isBubble dflt = true) (tid : T → Z).
Implicit Types (l : Latch T) (ar : ActivityRecorder).

(** the elements of thread [t] in a line *)
Definition onWay (t : Z) (xs : list T) : Z := countb (λ x, negb (isBubble x) && (tid x =? t)) xs.

(** what is still to be delivered, once the output has been read if [c] holds *)
Definition way (c : bool) l : list T := if c then removelast (latch_line dflt l) else latch_line dflt l.

(** every element has been reported in the cycle in which it was written *)
Definition covered l ar : Prop :=
  ∀ j x, latch_line dflt l !! j = Some x → isBubble x = false → ar_line ar !! j = Some true.

Lemma onWay_nonneg t xs : 0 ≤ onWay t xs.
Proof. apply countb_nonneg. Qed.

Lemma Latch_input_Ok l : latch_wf l → ∃ x, Latch_input l = Ok x ∧ latch_line dflt l !! 0%nat = Some x.
Proof.
  intros [Hwf Hf Hp]. pose proof (wf_past _ Hwf). pose proof (wf_size _ Hwf). unfold Latch_input, getWire.
  rewrite valid_Ok by lia. cbn. destruct (access_line dflt (buffer l) 0) as (x & Hx & Hl); [done|lia|].
  exists x. split; [done|]. unfold latch_line. replace 0%nat with (pos (buffer l) 0) by (unfold pos; lia). done.
Qed.

Lemma Latch_writeOutput_Ok l x : latch_wf l →
  ∃ l', Latch_writeOutput l x = Ok l' ∧ latch_wf l' ∧ delay l' = delay l
    ∧ latch_line dflt l' = <[Z.to_nat (delay l) := x]> (latch_line dflt l).
Proof.
  intros [Hwf Hf Hp]. pose proof (wf_past _ Hwf). pose proof (wf_small _ Hwf). pose proof (wf_size _ Hwf).
  unfold Latch_writeOutput, getWire. rewrite i32_id by lia. rewrite valid_Ok by lia. cbn.
  destruct (store_Ok dflt (buffer l) (- delay l) x) as (tb & -> & Hwf' & Hl & Hp' & Hf' & _); [done|lia|].
  cbn. exists (mkLatch (delay l) tb). split; [done|]. split; [split; cbn; lia || done|].
  split; [done|]. unfold latch_line. cbn. rewrite Hl. unfold pos. rewrite Hf. by replace (0 - - delay l) with (delay l) by lia.
Qed.

Lemma line_last l x : latch_wf l → Latch_output l = Ok x → last (latch_line dflt l) = Some x.
Proof.
  intros Hwf Ho. destruct (Latch_output_Ok dflt l Hwf) as (y & Hy & Hl). rewrite Ho in Hy. injection Hy as <-.
  by rewrite last_lookup, (latch_line_length dflt l Hwf).
Qed.

(** the output is read *)
Lemma way_read l x t : latch_wf l → Latch_output l = Ok x →
  onWay t (way false l) = onWay t (way true l) + (if negb (isBubble x) && (tid x =? t) then 1 else 0).
Proof.
  intros Hwf Ho. unfold way, onWay. rewrite (countb_removelast _ _ _ (line_last l x Hwf Ho)).
  destruct (_ && _); cbn; lia.
Qed.

(** the input is written *)
Lemma way_write l l' x t : latch_wf l → 1 ≤ delay l → (∀ y, Latch_input l = Ok y → isBubble y = true) →
  Latch_write l x = Ok l' →
  onWay t (way true l') = onWay t (way true l) + (if negb (isBubble x) && (tid x =? t) then 1 else 0).
Proof.
  intros Hwf Hd Hy Hw. destruct (Latch_write_Ok dflt l x Hwf) as (l1 & Hw1 & _ & _ & Hl). rewrite Hw in Hw1.
  injection Hw1 as <-. destruct (Latch_input_Ok l Hwf) as (y & Hiy & H0). specialize (Hy _ Hiy).
  unfold way, onWay. rewrite Hl. pose proof (latch_line_length dflt l Hwf) as Hlen.
  destruct (latch_line dflt l) as [|z [|z' r]]; [done|cbn in Hlen; lia|]. injection H0 as ->.
  change (<[0%nat := x]> (y :: z' :: r)) with (x :: z' :: r).
  change (removelast (x :: z' :: r)) with (x :: removelast (z' :: r)).
  change (removelast (y :: z' :: r)) with (y :: removelast (z' :: r)).
  rewrite !countb_cons, Hy. cbn [negb andb b2z]. destruct (_ && _); cbn; lia.
Qed.

(** the output's element is replaced *)
Lemma way_writeOutput l l' x t : latch_wf l → Latch_writeOutput l x = Ok l' →
  onWay t (way true l') = onWay t (way true l).
Proof.
  intros Hwf Hw. destruct (Latch_writeOutput_Ok l x Hwf) as (l1 & Hw1 & _ & _ & Hl). rewrite Hw in Hw1.
  injection Hw1 as <-. unfold way. rewrite Hl. f_equal. pose proof (latch_line_length dflt l Hwf) as Hlen.
  rewrite !removelast_firstn_len, length_insert, Hlen. cbn [pred]. by rewrite take_insert_ge by lia.
Qed.

(** the latch is stepped *)
Lemma way_step l l' t : latch_wf l → Latch_evaluate dflt l = Ok l' →
  onWay t (way false l') = onWay t (way true l).
Proof.
  intros Hwf Hw. destruct (Latch_evaluate_Ok dflt l Hwf) as (l1 & Hw1 & _ & _ & Hl). rewrite Hw in Hw1.
  injection Hw1 as <-. unfold way. rewrite Hl. unfold shift, onWay. rewrite countb_cons, Hdflt. cbn. lia.
Qed.

Lemma covered_reported stages L c l ar ar' : covered l ar → reported stages L c ar ar' → covered l ar'.
Proof.
  intros Hc [_ Hl] j x Hj Hx. specialize (Hc j x Hj Hx). rewrite Hl. destruct c; [|done].
  destruct j; [|by rewrite list_lookup_insert_ne]. rewrite list_lookup_insert_eq; [done|]. by eapply lookup_lt_Some.
Qed.

Lemma covered_write stages L c l l' x ar ar' : latch_wf l → ar_wf stages L ar → 0 ≤ L → covered l ar →
  Latch_write l x = Ok l' → reported stages L c ar ar' → (isBubble x = false → c = true) → covered l' ar'.
Proof.
  intros Hwf Har HL Hc Hw [Hwf' Hl] Hx. destruct (Latch_write_Ok dflt l x Hwf) as (l1 & Hw1 & _ & _ & Hl1).
  rewrite Hw in Hw1. injection Hw1 as <-. intros j y Hj Hy. rewrite Hl1 in Hj. destruct j.
  - rewrite list_lookup_insert_eq in Hj by (rewrite (latch_line_length dflt l Hwf); lia).
    injection Hj as <-. rewrite Hl, (Hx Hy). rewrite list_lookup_insert_eq; [done|].
    rewrite (ar_line_len stages L ar Har). lia.
  - rewrite list_lookup_insert_ne in Hj by done. specialize (Hc _ _ Hj Hy). rewrite Hl.
    destruct c; [by rewrite list_lookup_insert_ne|done].
Qed.

Lemma covered_writeOutput l l' x y ar : latch_wf l → covered l ar → Latch_output l = Ok y →
  (isBubble y = true → isBubble x = true) → Latch_writeOutput l x = Ok l' → covered l' ar.
Proof.
  intros Hwf Hc Ho Hxy Hw. destruct (Latch_writeOutput_Ok l x Hwf) as (l1 & Hw1 & _ & _ & Hl). rewrite Hw in Hw1.
  injection Hw1 as <-. destruct (Latch_output_Ok dflt l Hwf) as (y' & Hy' & Hly). rewrite Ho in Hy'.
  injection Hy' as <-. intros j z Hj Hz. rewrite Hl in Hj.
  destruct (decide (Z.to_nat (delay l) = j)) as [<-|Hne].
  - apply (Hc _ y Hly). rewrite list_lookup_insert_eq in Hj by (by eapply lookup_lt_Some). injection Hj as <-.
    destruct (isBubble y); [by rewrite Hxy in Hz|done].
  - rewrite list_lookup_insert_ne in Hj by done. by eapply Hc.
Qed.

(** a step of the latch and of the recorder *)
Lemma covered_step stages L l l' ar ar' : 0 ≤ stages < 2 ^ 29 → 0 ≤ L < 2 ^ 29 → latch_wf l → ar_wf stages L ar →
  delay l ≤ L → covered l ar → Latch_evaluate dflt l = Ok l' → ar_advance ar = Ok ar' → covered l' ar'.
Proof.
  intros Hst HL Hwf Har Hd Hc Hw Ha. destruct (Latch_evaluate_Ok dflt l Hwf) as (l1 & Hw1 & _ & _ & Hl).
  rewrite Hw in Hw1. injection Hw1 as <-. destruct (ar_advance_Ok stages L Hst HL ar Har) as (a1 & Ha1 & _ & Hla & _).
  rewrite Ha in Ha1. injection Ha1 as <-. intros [|j] x Hj Hx; rewrite Hl in Hj; unfold shift in Hj; cbn in Hj.
  - injection Hj as <-. congruence.
  - rewrite Hla. unfold shift. cbn. rewrite removelast_firstn_len in Hj |- *. apply lookup_take_Some in Hj as [Hj Hlt].
    rewrite (latch_line_length dflt l Hwf) in Hlt. cbn in Hlt.
    apply lookup_take_Some. split; [by eapply Hc|]. rewrite (ar_line_len stages L ar Har). lia.
Qed.

(** an inactive recorder covers empty latches only *)
Lemma covered_inactive stages L l ar : 0 ≤ stages → latch_wf l → ar_wf stages L ar → covered l ar →
  active ar = false → Latch_empty l = Ok true.
Proof.
  intros Hst Hwf Har Hc Ha. unfold Latch_empty. rewrite (MyMinorBuffer_empty_Ok dflt _ (lwf_buf _ Hwf)).
  f_equal. apply forallb_forall. intros x (j & Hj)%list_elem_of_In%list_elem_of_lookup.
  destruct (isBubble x) eqn:Hx; [done|]. pose proof (Hc j x Hj Hx) as Hja.
  assert (0 < countb Datatypes.id (ar_line ar)) by (apply countb_pos; by exists j, true).
  pose proof (countb_nonneg Datatypes.id (stageActive ar)). pose proof (ar_count _ _ _ Har).
  unfold active in Ha. apply negb_false_iff, Z.eqb_eq in Ha. unfold id in *. lia.
Qed.
End latch.

#[global] Arguments way : simpl never.

(** ** The invariant *)

Section inv.
Context `{I : Isa} {TS : ThreadSem I} {DC : Decoder I}.
Context (n L capF capD capU capX : Z) (Hn : 0 < n) (HL : 0 ≤ L < 2 ^ 29).
Context (HF : 0 ≤ capF < 2 ^ 31) (HD : 0 ≤ capD < 2 ^ 31) (HU : 0 ≤ capU < 2 ^ 31) (HX : 0 ≤ capX < 2 ^ 31).
Notation Line := (ForwardLineData I).
Notation Insts := (ForwardInstData I).
Implicit Types (p : Pipeline) (ar : ActivityRecorder).

Definition lineThread (l : Line) : Z := threadId (lineId l).

Record link_ok {T} `{IsBubble T} (dflt : T) (l : Latch T) ar : Prop := {
  lk_wf : latch_wf l;
  lk_delay : 1 ≤ delay l ≤ L;
  lk_covered : covered dflt l ar;
}.

(** the input buffers of a stage, with [ns t] elements on their way to thread [t] *)
Record stock {T} `{IsBubble T} (cap : Z) (bufs : list (InputBuffer T)) (ns : Z → Z) : Prop := {
  st_length : Z.of_nat (length bufs) = n;
  st_bank : bank cap bufs ns;
  st_settled : settled bufs;
}.

(** the pipeline in the middle of a cycle: [c1] to [c4] tell whether Fetch2,
    Decode, ExecuteDummy and Execute have read their inputs *)
Record pl_at (c1 c2 c3 c4 : bool) p : Prop := {
  at_recorder : ar_wf Num_StageId L (recorder p);
  at_f1ToF2 : link_ok noLine (f1ToF2 p) (recorder p);
  at_f2ToF1 : latch_wf (f2ToF1 p);
  at_f2ToD : link_ok noInsts (f2ToD p) (recorder p);
  at_dToE : link_ok noInsts (dToE p) (recorder p);
  at_eToE : link_ok noInsts (eToE p) (recorder p);
  at_eToF1 : link_ok noBranch (eToF1 p) (recorder p);
  at_threads : pl_numThreads p = n;
  at_fit : f1_fit (fetch1 p);
  at_infoF1 : Z.of_nat (length (f1_fetchInfo (fetch1 p))) = n;
  at_infoF2 : Z.of_nat (length (f2_fetchInfo (fetch2 p))) = n;
  at_infoD : Z.of_nat (length (stageInfo (decoder p))) = n;
  at_infoU : Z.of_nat (length (stageInfo (executeDummy p))) = n;
  at_F : stock capF (f2_inputBuffer (fetch2 p))
           (λ t, onWay lineThread t (way noLine c1 (f1ToF2 p)) + inflight t (flight (fetch1 p)));
  at_D : stock capD (inputBuffer (decoder p)) (λ t, onWay instsThreadId t (way noInsts c2 (f2ToD p)));
  at_U : stock capU (inputBuffer (executeDummy p)) (λ t, onWay instsThreadId t (way noInsts c3 (dToE p)));
  at_X : stock capX (x_inputBuffer (execute p)) (λ t, onWay instsThreadId t (way noInsts c4 (eToE p)));
}.

Lemma stages_ok : 0 ≤ Num_StageId < 2 ^ 29.
Proof. unfold Num_StageId. lia. Qed.

Lemma link_reported {T} `{IsBubble T} (dflt : T) c l ar ar' :
  reported Num_StageId L c ar ar' → link_ok dflt l ar → link_ok dflt l ar'.
Proof. intros Hr [H1 H2 H3]. split; [done|done|]. by eapply covered_reported. Qed.

Lemma link_write {T} `{IsBubble T} (dflt : T) c l l' x ar ar' : ar_wf Num_StageId L ar →
  reported Num_StageId L c ar ar' → (isBubble x = false → c = true) → Latch_write l x = Ok l' →
  link_ok dflt l ar → link_ok dflt l' ar'.
Proof.
  intros Har Hr Hx Hw [H1 H2 H3]. pose proof Hw as Hw'.
  destruct (Latch_write_Ok dflt l x H1) as (l1 & Hw1 & Hwf & Hd & _). rewrite Hw in Hw1. injection Hw1 as <-.
  split; [done|by rewrite Hd|]. by eapply (covered_write dflt _ L c l l' x ar); [..|lia| | | |].
Qed.

(** ** Signals *)

Lemma clock_at c1 c2 c3 c4 c p ar r : reported Num_StageId L c (recorder p) ar → pl_at c1 c2 c3 c4 p →
  pl_at c1 c2 c3 c4 (up_clock ar r p).
Proof.
  intros Hr []. pose proof Hr as [? _]. split; cbn; try done; by eapply link_reported.
Qed.

Lemma wakeup_clock stage p p' : 0 ≤ stage < Num_StageId → ar_wf Num_StageId L (recorder p) →
  cpu_wakeupOnEvent stage p = Ok p' → ∃ ar, p' = up_clock ar true p ∧ reported Num_StageId L false (recorder p) ar.
Proof.
  intros Hst Har E. unfold cpu_wakeupOnEvent in E. apply bind_Ok in E as (ar & Ha & [= <-]). exists ar. split; [done|].
  destruct (activateStage_Ok _ L stages_ok HL _ stage Har Hst) as (ar1 & E1 & ? & ? & _).
  rewrite Ha in E1. injection E1 as <-. by split.
Qed.

Lemma signals_clock stage awake active p p' : 0 ≤ stage < Num_StageId → ar_wf Num_StageId L (recorder p) →
  signals stage awake active p = Ok p' →
  ∃ ar r, p' = up_clock ar r p ∧ reported Num_StageId L active (recorder p) ar
    ∧ (r = true ∨ r = running p) .
Proof.
  intros Hst Har E. unfold signals in E. apply bind_Ok in E as (p1 & H1 & E).
  assert (∃ ar r, p1 = up_clock ar r p ∧ reported Num_StageId L false (recorder p) ar ∧ (r = true ∨ r = running p))
    as (ar & r & -> & Hr & Hrun).
  { destruct awake; [|injection H1 as <-; exists (recorder p), (running p); destruct p; split_and!; auto using reported_refl].
    apply wakeup_clock in H1 as (ar & -> & Hr); [|done|done]. exists ar, true. auto. }
  destruct active; [|injection E as <-; by exists ar, r].
  unfold cpu_activity in E. apply bind_Ok in E as (ar2 & Ha & [= <-]). exists ar2, r. split_and!; auto.
  destruct (activity_Ok _ L stages_ok HL _ (proj1 Hr)) as (ar1 & E1 & ? & ? & _). cbn in Ha.
  rewrite Ha in E1. injection E1 as <-. apply (reported_trans _ _ false true _ ar); [done|by split].
Qed.

(** ** Consumers and producers *)

(** a stage reads its latch *)
Lemma stock_read {T} `{IsBubble T} (dflt : T) (tid : T → Z) cap (bufs bufs' : list (InputBuffer T)) l x :
  0 ≤ cap < 2 ^ 31 → latch_wf l → Latch_output l = Ok x → length bufs' = length bufs →
  (∀ cap ns, 0 ≤ cap < 2 ^ 31 → bank cap bufs ns → settled bufs → (negb (isBubble x) = true → 0 < ns (tid x)) →
     bank cap bufs' (plus (negb (isBubble x)) (tid x) (-1) ns) ∧ settled bufs') →
  ∀ ms : Z → Z, (∀ t, 0 ≤ ms t) → stock cap bufs (λ t, onWay tid t (way dflt false l) + ms t) →
  stock cap bufs' (λ t, onWay tid t (way dflt true l) + ms t).
Proof.
  intros Hcap Hwf Ho Hlen Hown ms Hms [Hl Hb Hs].
  destruct (Hown cap (λ t, onWay tid t (way dflt false l) + ms t)) as [Hb' Hs']; try done.
  - intros Hx. cbn. rewrite (way_read dflt tid l x) by done. rewrite Hx, Z.eqb_refl. cbn.
    pose proof (onWay_nonneg tid (tid x) (way dflt true l)). pose proof (Hms (tid x)). lia.
  - split; [congruence| |done]. eapply bank_ext; [done|]. intros t. unfold plus. rewrite (way_read dflt tid l x) by done.
    destruct (_ && _); lia.
Qed.

(** a stage writes its latch *)
Lemma stock_write {T} `{IsBubble T} (dflt : T) (tid : T → Z) cap (bufs bufs' : list (InputBuffer T)) l l' x :
  0 ≤ cap < 2 ^ 31 → latch_wf l → 1 ≤ delay l → (∀ y, Latch_input l = Ok y → isBubble y = true) →
  Latch_write l x = Ok l' → length bufs' = length bufs → (settled bufs → settled bufs') →
  (∀ cap ns, 0 ≤ cap < 2 ^ 31 → bank cap bufs ns → bank cap bufs' (plus (negb (isBubble x)) (tid x) 1 ns)) →
  stock cap bufs (λ t, onWay tid t (way dflt true l)) → stock cap bufs' (λ t, onWay tid t (way dflt true l')).
Proof.
  intros Hcap Hwf Hd Hy Hw Hlen Hset Hnext [Hl Hb Hs]. split; [congruence| |auto].
  eapply bank_ext; [by apply Hnext|]. intros t. unfold plus.
  rewrite (way_write dflt tid l l' x) by done. destruct (_ && _); lia.
Qed.

Lemma stock_ext {T} `{IsBubble T} cap (bufs : list (InputBuffer T)) ns ns' :
  stock cap bufs ns → (∀ t, ns' t = ns t) → stock cap bufs ns'.
Proof. intros [Hl Hb Hs] He. split; [done| |done]. by eapply bank_ext. Qed.

Lemma stock_read0 {T} `{IsBubble T} (dflt : T) (tid : T → Z) cap (bufs bufs' : list (InputBuffer T)) l x :
  0 ≤ cap < 2 ^ 31 → latch_wf l → Latch_output l = Ok x → length bufs' = length bufs →
  (∀ cap ns, 0 ≤ cap < 2 ^ 31 → bank cap bufs ns → settled bufs → (negb (isBubble x) = true → 0 < ns (tid x)) →
     bank cap bufs' (plus (negb (isBubble x)) (tid x) (-1) ns) ∧ settled bufs') →
  stock cap bufs (λ t, onWay tid t (way dflt false l)) → stock cap bufs' (λ t, onWay tid t (way dflt true l)).
Proof.
  intros Hcap Hwf Ho Hlen Hown Hs. eapply stock_ext.
  - eapply (stock_read dflt tid cap bufs bufs' l x Hcap Hwf Ho Hlen Hown (λ _, 0)); [done|].
    eapply stock_ext; [exact Hs|]. intros t. cbn. lia.
  - intros t. cbn. lia.
Qed.

(** ** The stages *)

Lemma execute_at c1 c2 c3 e p p' : pl_at c1 c2 c3 false p → evalExecute e p = Ok p' → pl_at c1 c2 c3 true p'.
Proof.
  intros Hat E. unfold evalExecute in E. apply bind_Ok in E as (inp & Hinp & E).
  apply bind_Ok in E as ([branch x] & Hx & E). apply bind_Ok in E as (l & Hl & E).
  cbn [x_event] in Hx. apply sbind_Ok in Hx as ([] & s1 & Hx1 & Hx). apply sbind_Ok in Hx as (? & ? & [= <- <-] & Hx).
  apply sbind_Ok in Hx as ([] & s2 & [= <-] & [= <- <-]).
  apply Execute_handed in Hx1 as (Hown & Hlen & Hcfg & Hact). destruct Hat.
  unfold fromExecute in E. apply signals_clock in E as (ar & r & -> & Hr & _); [|done|done].
  cbn in Hr. split; cbn; try done; try (by eapply link_reported); [by destruct Hr|..].
  - by eapply link_write.
  - unfold pl_numThreads in *. cbn. congruence.
  - eapply stock_read0; [done|apply at_eToE0|done|done|done|done].
Qed.

Lemma dummy_at c1 c2 e p p' : pl_at c1 c2 false true p → evalDummy e p = Ok p' → pl_at c1 c2 true true p'.
Proof.
  intros Hat E. unfold evalDummy in E. apply bind_Ok in E as (inp & Hinp & E).
  apply bind_Ok in E as (out & Hout & E). apply bind_Ok in E as ([s io] & Hs & E).
  apply bind_Ok in E as (l & Hl & [= <-]). destruct Hat. rewrite at_threads0 in Hs.
  eapply (Repack_handed _ _ n Num_StageId L) in Hs as ([Hown Hlen Hnx Hst [Hnl _] _ Hr] & Hb & Hi); try done;
    [|apply at_X0]. cbn in *.
  specialize (Hr at_recorder0). split; cbn; try done; try (by eapply link_reported); [by destruct Hr| |congruence|..].
  - eapply link_write; [exact at_recorder0|exact Hr|by intros ->|exact Hl|done].
  - eapply stock_read0; [done|apply at_dToE0|done|done|done|done].
  - eapply stock_write; [done|apply at_eToE0|apply at_eToE0| |done|done|done|done|done]. intros y Hy. congruence.
Qed.

Lemma decode_at c1 e p p' : pl_at c1 false true true p → evalDecode e p = Ok p' → pl_at c1 true true true p'.
Proof.
  intros Hat E. unfold evalDecode in E. apply bind_Ok in E as (inp & Hinp & E).
  apply bind_Ok in E as (out & Hout & E). apply bind_Ok in E as ([s io] & Hs & E).
  apply bind_Ok in E as (l & Hl & [= <-]). destruct Hat. rewrite at_threads0 in Hs.
  eapply (Repack_handed _ _ n Num_StageId L) in Hs as ([Hown Hlen Hnx Hst [Hnl _] _ Hr] & Hb & Hi); try done;
    [|apply at_U0]. cbn in *.
  specialize (Hr at_recorder0). split; cbn; try done; try (by eapply link_reported); [by destruct Hr| |congruence|..].
  - eapply link_write; [exact at_recorder0|exact Hr|by intros ->|exact Hl|done].
  - eapply stock_read0; [done|apply at_f2ToD0|done|done|done|done].
  - eapply stock_write; [done|apply at_dToE0|apply at_dToE0| |done|done|done|done|done]. intros y Hy. congruence.
Qed.

Lemma fetch2_at e p p' cmds : pl_at false true true true p → evalFetch2 e p = Ok (p', cmds) →
  pl_at true true true true p'.
Proof.
  intros Hat E. unfold evalFetch2 in E. apply bind_Ok in E as (inp & Hinp & E).
  apply bind_Ok in E as (branch & Hbr & E). apply bind_Ok in E as (out & Hout & E).
  apply bind_Ok in E as ([[[s io] pred] cs] & Hs & E). apply bind_Ok in E as (l1 & Hl1 & E).
  apply bind_Ok in E as (l2 & Hl2 & E). apply bind_Ok in E as (l3 & Hl3 & [= <- _]).
  destruct Hat. rewrite at_threads0 in Hs.
  eapply (Fetch2_handed n Num_StageId L) in Hs as ([Hown Hlen Hnx Hst [Hnl _] _ Hr] & Hb & Hi & Hfree); try done;
    [|apply at_D0]. cbn in *.
  specialize (Hr at_recorder0). destruct at_f1ToF3 as [Hwf Hd Hc].
  destruct (Latch_writeOutput_Ok noLine _ (f2_inp io) Hwf) as (l1' & Hl1' & Hwf1 & Hd1 & _).
  rewrite Hl1 in Hl1'. injection Hl1' as <-.
  destruct (Latch_write_Ok noBranch _ pred at_f2ToF2) as (l2' & Hl2' & Hwf2 & _). rewrite Hl2 in Hl2'. injection Hl2' as <-.
  split; cbn; try done; try (by eapply link_reported); [by destruct Hr|..|congruence| |].
  - split; [done|by rewrite Hd1|]. eapply covered_reported; [|exact Hr].
    eapply covered_writeOutput; [exact Hwf|exact Hc|exact Hinp|exact Hfree|exact Hl1].
  - eapply link_write; [exact at_recorder0|exact Hr|by intros ->|exact Hl3|done].
  - eapply stock_ext.
    + eapply (stock_read noLine lineThread capF _ _ _ _ HF Hwf Hinp Hlen Hown (λ t, inflight t (flight (fetch1 p))));
        [|exact at_F0]. intros t. apply slots_inflight_nonneg.
    + intros t. cbn. f_equal. by eapply way_writeOutput.
  - eapply stock_write; [done|apply at_f2ToD0|apply at_f2ToD0| |done|done|done|done|]. { intros y Hy. congruence. }
    done.
Qed.

Lemma fetch1_at icache e p p' : pl_at true true true true p → evalFetch1 icache e p = Ok p' →
  pl_at true true true true p'.
Proof.
  intros Hat E. unfold evalFetch1 in E. apply bind_Ok in E as (branch & Hbr & E).
  apply bind_Ok in E as (prd & Hprd & E). apply bind_Ok in E as (out & Hout & E).
  apply bind_Ok in E as ([res f] & Hf & E). apply bind_Ok in E as (l & Hl & E). cbn zeta in E.
  destruct Hat. rewrite at_threads0 in Hf. apply Fetch1_handed in Hf as (Hnx & Hst & Hlen & Hi & Hb & Hact & Hfit); [|done].
  cbn in Hnx, Hst, Hlen, Hb. unfold fromFetch1 in E. apply signals_clock in E as (ar & r & -> & Hr & _); [|done|done].
  cbn in Hr. split; cbn; try done; try (by eapply link_reported); [by destruct Hr| |by apply Hfit|congruence|].
  - eapply link_write; [exact at_recorder0|exact Hr|exact Hact|exact Hl|done].
  - destruct at_F0 as [HlF HbF HsF], at_f1ToF3 as [Hwf Hd Hc]. split; [congruence| |auto].
    eapply bank_ext; [apply (Hnx capF (λ t, onWay lineThread t (way noLine true (f1ToF2 p))) HF)|].
    + intros t. apply onWay_nonneg.
    + done.
    + intros t. cbn. change (flight (f1_setActivity _ _)) with (flight f).
      rewrite (way_write noLine lineThread (f1ToF2 p) l res.1) by (done || lia || (intros; congruence)).
      unfold line_of, lineThread. destruct (_ && _); cbn; lia.
Qed.

Lemma link_step {T} `{IsBubble T} (dflt : T) l l' ar ar' : isBubble dflt = true → ar_wf Num_StageId L ar →
  Latch_evaluate dflt l = Ok l' → ar_advance ar = Ok ar' → link_ok dflt l ar → link_ok dflt l' ar'.
Proof.
  intros Hd Har Hl Ha [H1 H2 H3]. destruct (Latch_evaluate_Ok dflt l H1) as (l1 & Hl1 & Hwf & Hdl & _).
  rewrite Hl in Hl1. injection Hl1 as <-. split; [done|by rewrite Hdl|].
  eapply (covered_step dflt Hd _ L l l' ar ar' stages_ok HL); try done. lia.
Qed.

Lemma latches_at p p' : pl_at true true true true p → evalLatches p = Ok p' → pl_at false false false false p'.
Proof.
  intros Hat E. unfold evalLatches in E. res_inv. destruct Hat.
  destruct (Latch_evaluate_Ok noBranch _ at_f2ToF2) as (l2 & Hl2 & Hwf2 & _). rewrite Hr0 in Hl2. injection Hl2 as <-.
  destruct (ar_advance_Ok _ L stages_ok HL _ at_recorder0) as (ar & Ha & Hwf & _). rewrite Hr5 in Ha. injection Ha as <-.
  split; cbn; try done; try (by eapply link_step; [|exact at_recorder0|..]).
  - eapply stock_ext; [done|]. intros t. cbn. f_equal. by eapply way_step; [|apply at_f1ToF3|].
  - eapply stock_ext; [done|]. intros t. by eapply way_step; [|apply at_f2ToD0|].
  - eapply stock_ext; [done|]. intros t. by eapply way_step; [|apply at_dToE0|].
  - eapply stock_ext; [done|]. intros t. by eapply way_step; [|apply at_eToE0|].
Qed.

Lemma deactivate_reported ar l ar' : ar_wf Num_StageId L ar → Forall (λ i, 0 ≤ i < Num_StageId) l →
  mfold deactivateStage ar l = Ok ar' → reported Num_StageId L false ar ar'.
Proof.
  intros Har Hl. revert ar Har. induction Hl as [|i l Hi Hl IH]; intros ar Har; cbn;
    [intros [= <-]; by apply reported_refl|].
  destruct (deactivateStage_Ok _ L stages_ok HL ar i Har Hi) as (ar1 & -> & H1 & Hl1 & _). cbn. intros E.
  apply (reported_trans _ _ false false _ ar1); [by split|by apply IH].
Qed.

Lemma stage_ids_ok : Forall (λ i, 0 ≤ i < Num_StageId)
  [CPUStageId; Fetch1StageId; Fetch2StageId; DecodeStageId; ExecuteDummyStageId; ExecuteStageId].
Proof. by repeat constructor. Qed.

Lemma idle_at p p' : pl_at false false false false p → evalIdle p = Ok p' → pl_at false false false false p'.
Proof.
  intros Hat E. unfold evalIdle in E. destruct (allow_idling p); [|by injection E as <-].
  apply bind_Ok in E as (ar & Ha & [= <-]). apply deactivate_reported in Ha; [|apply Hat|apply stage_ids_ok].
  by eapply clock_at.
Qed.

Lemma drain_flag_at c1 c2 c3 c4 b p : pl_at c1 c2 c3 c4 p → pl_at c1 c2 c3 c4 (up_drain b p).
Proof. by intros []. Qed.

Lemma evalDrain_at p p' b : pl_at false false false false p → evalDrain p = Ok (p', b) → pl_at false false false false p'.
Proof.
  intros Hat E. unfold evalDrain in E. destruct (needToSignalDrained p); [|by injection E as <- _].
  apply bind_Ok in E as ([] & _ & E); injection E as <- _; [|done].
  eapply (clock_at _ _ _ _ false); [apply reported_refl, Hat|by apply drain_flag_at].
Qed.

Definition pl_ok p : Prop := pl_at false false false false p.

Lemma stages_at icache e p p1 p2 p3 p4 cs p5 p6 : pl_ok p → evalExecute e p = Ok p1 →
  evalDummy e p1 = Ok p2 → evalDecode e p2 = Ok p3 → evalFetch2 e p3 = Ok (p4, cs) →
  evalFetch1 icache e p4 = Ok p5 → evalLatches p5 = Ok p6 → pl_ok p6.
Proof.
  intros H0 H1 H2 H3 H4 H5 H6. eapply latches_at; [|done]. eapply fetch1_at; [|done].
  eapply fetch2_at; [|done]. eapply decode_at; [|done]. eapply dummy_at; [|done]. by eapply execute_at.
Qed.

Lemma evaluate_at icache e p p' cmds d : pl_ok p → Pipeline_evaluate icache e p = Ok (p', cmds, d) → pl_ok p'.
Proof.
  intros H0 E. unfold Pipeline_evaluate in E. apply bind_Ok in E as (p1 & H1 & E).
  apply bind_Ok in E as (p2 & H2 & E). apply bind_Ok in E as (p3 & H3 & E).
  apply bind_Ok in E as ([p4 cs] & H4 & E). apply bind_Ok in E as (p5 & H5 & E).
  apply bind_Ok in E as (p6 & H6 & E). apply bind_Ok in E as (p7 & H7 & E).
  apply bind_Ok in E as ([p8 dn] & H8 & [= <- _ _]).
  eapply evalDrain_at; [|done]. eapply idle_at; [|done]. by eapply (stages_at icache e p p1 p2 p3 p4).
Qed.

(** ** Between cycles *)

Lemma stock_popsAll {T} `{IsBubble T} cap (bufs bufs' : list (InputBuffer T)) ns :
  0 ≤ cap < 2 ^ 31 → stock cap bufs ns → popsAll bufs bufs' → stock cap bufs' ns.
Proof.
  intros Hcap [Hl Hb Hs] Hp. pose proof Hp as [Hlen _].
  split; [congruence|by eapply bank_popsAll|by eapply settled_popsAll].
Qed.

Lemma popped_at c1 c2 c3 c4 x p : pl_at c1 c2 c3 c4 p → popsX (execute p) x → pl_at c1 c2 c3 c4 (up_execute x p).
Proof.
  intros [] [Hp Hc]. split; cbn; try done.
  - unfold pl_numThreads in *. cbn. congruence.
  - by eapply stock_popsAll.
Qed.

Lemma fromExecute_at x p p' : pl_ok p → popsX (execute p) x → fromExecute x p = Ok p' → pl_ok p'.
Proof.
  intros Hat Hp E. unfold fromExecute in E. set (y := xu_flags _ _ _) in E.
  assert (popsX (execute p) y) as Hy by (etrans; [done|by apply popsX_same]).
  pose proof (popped_at _ _ _ _ y p Hat Hy) as Hat'.
  apply signals_clock in E as (ar & r & -> & Hr & _); [|done|apply Hat'].
  by eapply clock_at.
Qed.

Lemma fetched_at f p : pl_ok p → f1_same (fetch1 p) f → pl_ok (up_fetch1 f p).
Proof.
  intros [] Hf. pose proof Hf as [Hi Hb _]. apply (f_equal length) in Hb. rewrite !length_fmap in Hb. split; cbn; try done; [by eapply fit_same|congruence|].
  eapply stock_ext; [done|]. intros t. cbn. by rewrite !inflight_ids, Hi.
Qed.

Lemma fromFetch1_at f p p' : pl_ok p → f1_same (fetch1 p) f → fromFetch1 f p = Ok p' → pl_ok p'.
Proof.
  intros Hat Hp E. unfold fromFetch1 in E. set (y := f1_setActivity _ _) in E.
  assert (f1_same (fetch1 p) y) as Hy by (etrans; [done|by split]).
  pose proof (fetched_at y p Hat Hy) as Hat'.
  apply signals_clock in E as (ar & r & -> & Hr & _); [|done|apply Hat'].
  by eapply clock_at.
Qed.

Lemma wakeupFetch_at p tid p' : pl_ok p → Pipeline_wakeupFetch p tid = Ok p' → pl_ok p'.
Proof.
  intros Hat E. unfold Pipeline_wakeupFetch in E. apply bind_Ok in E as (tc & _ & E).
  apply bind_Ok in E as ([u f] & Hf%same_wakeup & E). by eapply fromFetch1_at.
Qed.

Lemma drainResume_at p p' : pl_ok p → Pipeline_drainResume p = Ok p' → pl_ok p'.
Proof.
  intros Hat E. unfold Pipeline_drainResume in E. apply bind_Ok in E as (p1 & H1 & E).
  apply bind_Ok in E as ([u x] & Hx%popsX_drainResume & E). eapply fromExecute_at; [|done|done].
  revert H1. generalize (zrange 0 (pl_numThreads p - 1)). intros l. clear E Hx. revert p Hat.
  induction l as [|t l IH]; intros p Hat; cbn; [by intros [= <-]|].
  destruct (Pipeline_wakeupFetch p t) as [p2|] eqn:E; [|done]. cbn. apply IH. by eapply wakeupFetch_at.
Qed.

Lemma memEvent_at ev p p' : pl_ok p →
  match ev with XCycle _ _ => False | _ => True end → memEvent ev p = Ok p' → pl_ok p'.
Proof.
  intros Hat Hev E. unfold memEvent in E. apply bind_Ok in E as ([b x] & Hx & E).
  eapply fromExecute_at; [done| |done]. destruct ev; try done; cbn [x_event] in Hx;
    repeat (apply sbind_Ok in Hx as (? & ? & [= <- <-] & Hx)); apply sbind_Ok in Hx as (? & ? & H1 & [= <- <-]);
    first [by apply popsX_callLsq in H1|by apply popsX_drain in H1|by apply popsX_drainResume in H1].
Qed.

Lemma event_at icache ev p p' : pl_ok p → pl_event icache p ev = Ok p' → pl_ok p'.
Proof.
  intros Hat E. destruct ev; cbn [pl_event] in E; try (eapply memEvent_at; [exact Hat| |exact E]; done).
  - destruct (running p); [|by injection E as <-]. apply bind_Ok in E as ([[p1 cs] d] & E & [= <-]).
    by eapply evaluate_at.
  - apply bind_Ok in E as ([u f1] & Hf%same_finish & E). by eapply fromFetch1_at.
  - apply bind_Ok in E as ([u f1] & Hf%same_response & E). by eapply fromFetch1_at.
  - apply bind_Ok in E as ([u f1] & Hf%same_retry & E). by eapply fromFetch1_at.
  - apply bind_Ok in E as ([p1 b] & E & [= <-]). unfold Pipeline_drain in E.
    apply bind_Ok in E as ([u x] & Hx%popsX_drain & E). apply bind_Ok in E as (p2 & H2 & E).
    apply bind_Ok in E as (d & _ & [= <- _]). apply drain_flag_at. by eapply fromExecute_at.
  - by eapply drainResume_at.
  - apply wakeup_clock in E as (ar & -> & Hr); [by eapply clock_at|done|apply Hat].
  - by eapply wakeupFetch_at.
  - apply bind_Ok in E as ([u x] & Hx & [= <-]). apply popped_at; [done|]. unfold setContext in Hx.
    apply sbind_Ok in Hx as (? & ? & [= <- <-] & Hx). apply sbind_Ok in Hx as (l & s1 & Hl & [= _ <-]).
    apply (only_lift eq) in Hl. subst s1. by apply popsX_same.
Qed.

Lemma run_at icache es p p' : pl_ok p → pl_run icache es p = Ok p' → pl_ok p'.
Proof.
  unfold pl_run. revert p. induction es as [|ev es IH]; intros p Hat; cbn; [by intros [= <-]|].
  destruct (pl_event icache p ev) as [p1|] eqn:E; [|done]. cbn. apply IH. by eapply event_at.
Qed.
End inv.
