(* ===== verification/PipelineProps.v ===== *)
(** * Properties of the whole pipeline

    For every pipeline that the constructor builds and every sequence of
    cycles, memory events, drains and wake-ups: no input buffer overflows, a
    pipeline whose clock has stopped has nothing on its way between stages,
    and when the end of a drain is signalled every input buffer is as it was
    built. *)
From stdpp Require Import gmap.
From S2P Require Import Prelude TimeBuf Buffers Activity LVPT PipeData Cpu Repack Decode ExecuteDummy.
From S2P Require Import Fetch1 Fetch1Inv Fetch1Stage Fetch1History Fetch2 Fetch2Stage LsqRequest Lsq Runs Execute.
From S2P Require Import ExecuteHistory Pipeline PipelineParts PipelineInv.

Section props.
Context `{I : Isa} {TS : ThreadSem I} {DC : Decoder I}.
Notation Line := (ForwardLineData I).
Notation Insts := (ForwardInstData I).
Implicit Types (p : Pipeline) (q : PipelineParams).

(** ** Construction *)

Definition pp_numThreads q : Z := x_numThreads (xp_cfg (pp_execute q)).
Definition executeInputBufferSize q : Z := xp_inputBufferSize (pp_execute q).

(** parameters at their machine widths; the delays also fit the activity recorder *)
Record pl_params q : Prop := {
  pq_threads : 0 < pp_numThreads q;
  pq_fetch1 : p_numThreads (pp_fetch1 q) = pp_numThreads q;
  pq_fetchLimit : p_fetch1FetchLimit (pp_fetch1 q) < 2 ^ 32;
  pq_delays : 0 ≤ longestDelay q < 2 ^ 29;
  pq_backward : 0 ≤ fetch1ToFetch2BackwardDelay q < 2 ^ 30;
  pq_fetch2 : 0 ≤ fetch2InputBufferSize q < 2 ^ 31;
  pq_decode : 0 ≤ decodeInputBufferSize q < 2 ^ 31;
  pq_dummy : 0 ≤ executeDummyInputBufferSize q < 2 ^ 31;
  pq_execute : 0 ≤ executeInputBufferSize q < 2 ^ 31;
}.

Definition pl_inv q p : Prop :=
  pl_ok (pp_numThreads q) (longestDelay q) (fetch2InputBufferSize q) (decodeInputBufferSize q)
    (executeDummyInputBufferSize q) (executeInputBufferSize q) p.

Lemma newExecute_parts pr s : newExecute pr = Ok s →
  1 ≤ xp_inputBufferSize pr ∧ x_numThreads (x_cfg s) = x_numThreads (xp_cfg pr)
  ∧ x_inputBuffer s = replicate (Z.to_nat (x_numThreads (xp_cfg pr))) (newInputBuffer (xp_inputBufferSize pr)).
Proof.
  intros E. unfold newExecute in E. apply bind_Ok in E as (l & _ & E).
  destruct (_ <? 1); [done|]. destruct (_ <? 1); [done|]. destruct (_ <? 1); [done|]. destruct (_ <? _); [done|].
  destruct (Z.ltb_spec (xp_inputBufferSize pr) 1); [done|]. apply bind_Ok in E as (us & _ & E).
  destruct (xp_regs pr) as [[[[? ?] ?] ?] ?]. injection E as <-. by split_and!.
Qed.

Lemma link_new {T} `{IsBubble T} (dflt : T) L d l ar : newLatch dflt d = Ok l →
  isBubble dflt = true → 1 ≤ d ≤ L → L < 2 ^ 29 → link_ok L dflt l ar ∧ ∀ (tid : T → Z) t, onWay tid t (way dflt false l) = 0.
Proof.
  intros E Hd H1 HL. destruct (newLatch_Ok dflt d) as (l1 & E1 & Hwf & Hdl & Hl); [lia|]. rewrite E in E1.
  injection E1 as <-. split; [split; [done|by rewrite Hdl|]|].
  - intros j x Hj Hx. rewrite Hl in Hj. apply lookup_replicate in Hj as [-> _]. congruence.
  - intros tid t. unfold way, onWay. rewrite Hl. apply countb_replicate_false. by rewrite Hd.
Qed.

Lemma stock_new {T} `{IsBubble T} n cap (ns : Z → Z) : 0 ≤ n → 0 ≤ cap → (∀ t, ns t = 0) →
  stock (T := T) n cap (replicate (Z.to_nat n) (newInputBuffer cap)) ns.
Proof.
  intros Hn Hc Hns. split.
  - rewrite length_replicate. lia.
  - intros t b [_ [-> _]%lookup_replicate]%vget_Ok. rewrite Hns. by apply buf_ok_new.
  - by intros t b [_ [-> _]%lookup_replicate]%vget_Ok.
Qed.

(** nothing on its way between the stages that hold instructions *)
Definition emptyLinks p : Prop :=
  Latch_empty (f1ToF2 p) = Ok true ∧ Latch_empty (f2ToD p) = Ok true
  ∧ Latch_empty (dToE p) = Ok true ∧ Latch_empty (eToE p) = Ok true.

Lemma Latch_empty_new {T} `{IsBubble T} (dflt : T) d l : isBubble dflt = true → 0 ≤ d < 2 ^ 30 →
  newLatch dflt d = Ok l → Latch_empty l = Ok true.
Proof.
  intros Hd Hr E. destruct (newLatch_Ok dflt d Hr) as (l1 & E1 & Hwf & _ & Hl). rewrite E in E1. injection E1 as <-.
  unfold Latch_empty. rewrite (MyMinorBuffer_empty_Ok dflt _ (lwf_buf _ Hwf)). f_equal.
  apply forallb_forall. unfold latch_line in Hl. rewrite Hl. by intros x ->%list_elem_of_In%elem_of_replicate_inv.
Qed.

Lemma newPipeline_ok q p : pl_params q → newPipeline q = Ok p → pl_inv q p ∧ running p = false ∧ emptyLinks p.
Proof.
  intros [] E. unfold newPipeline in E. fold (pp_numThreads q) in E. unfold longestDelay in pq_delays0.
  apply bind_Ok in E as (l1 & H1 & E). apply bind_Ok in E as (l2 & H2 & E). apply bind_Ok in E as (l3 & H3 & E).
  apply bind_Ok in E as (l4 & H4 & E). apply bind_Ok in E as (l5 & H5 & E). apply bind_Ok in E as (l6 & H6 & E).
  apply bind_Ok in E as (x & Hx & E). apply bind_Ok in E as (ed & He & E). apply bind_Ok in E as (d & Hd & E).
  apply bind_Ok in E as (f2 & Hf2 & E). apply bind_Ok in E as (f1 & Hf1 & E). apply bind_Ok in E as (ar & Ha & E).
  destruct (_ || _) eqn:Ed; [done|]. repeat (apply orb_false_iff in Ed as [Ed ?%Z.ltb_ge]). apply Z.ltb_ge in Ed.
  injection E as <-. apply newExecute_parts in Hx as (Hxs & Hxn & Hxb).
  unfold newExecuteDummy in He. destruct (Z.ltb_spec (executeDummyInputBufferSize q) 1); [done|]. injection He as <-.
  unfold newDecode in Hd. destruct (_ <? 1); [done|]. destruct (Z.ltb_spec (decodeInputBufferSize q) 1); [done|].
  injection Hd as <-. unfold newFetch2 in Hf2. destruct (_ <? 1); [done|]. cbn [orb] in Hf2.
  destruct (Z.ltb_spec (fetch2InputBufferSize q) 1); [done|]. injection Hf2 as <-.
  unfold newFetch1 in Hf1. apply bind_Ok in Hf1 as (lv & _ & Hf1). destruct (negb _); [done|].
  destruct (_ && _); [done|]. destruct (Z.ltb_spec (p_fetch1FetchLimit (pp_fetch1 q)) 1); [done|]. injection Hf1 as <-.
  split; [|split; [done|split_and!; by eapply Latch_empty_new; [| |eassumption]; [|lia]]].
  assert (0 ≤ longestDelay q < 2 ^ 29) as HL by (unfold longestDelay; lia).
  destruct (newActivityRecorder_Ok Num_StageId _ stages_ok HL) as (ar1 & Ha1 & Hwf & _).
  rewrite Ha in Ha1. injection Ha1 as <-. destruct (newLatch_Ok noBranch _ pq_backward0) as (l2' & E2 & Hwf2 & _).
  rewrite H2 in E2. injection E2 as <-.
  destruct (link_new noLine (longestDelay q) _ l1 ar H1 eq_refl) as [? W1]; [unfold longestDelay; lia..|].
  destruct (link_new noInsts (longestDelay q) _ l3 ar H3 eq_refl) as [? W3]; [unfold longestDelay; lia..|].
  destruct (link_new noInsts (longestDelay q) _ l4 ar H4 eq_refl) as [? W4]; [unfold longestDelay; lia..|].
  destruct (link_new noInsts (longestDelay q) _ l5 ar H5 eq_refl) as [? W5]; [unfold longestDelay; lia..|].
  destruct (link_new noBranch (longestDelay q) _ l6 ar H6 eq_refl) as [? _]; [unfold longestDelay; lia..|].
  split; cbn; try done; try (rewrite length_replicate; lia); try (split; cbn; lia).
  - apply stock_new; [lia|lia|]. intros t. by rewrite W1.
  - apply stock_new; [lia|lia|]. intros t. by rewrite W3.
  - apply stock_new; [lia|lia|]. intros t. by rewrite W4.
  - rewrite Hxb. fold (pp_numThreads q). apply stock_new; [lia|unfold executeInputBufferSize; lia|]. intros t. by rewrite W5.
Qed.

(** ** Sleeping *)

(** what happens between cycles leaves the latches alone and does not stop the clock *)
Record calm p p' : Prop := {
  cl_f1ToF2 : f1ToF2 p' = f1ToF2 p;
  cl_f2ToD : f2ToD p' = f2ToD p;
  cl_dToE : dToE p' = dToE p;
  cl_eToE : eToE p' = eToE p;
  cl_running : running p' = true ∨ running p' = running p;
  cl_pending : needToSignalDrained p' = needToSignalDrained p;
}.

#[local] Instance calm_preorder : PreOrder calm.
Proof.
  split; [by intros p; split; auto|]. intros p p1 p2 [] []. split; try congruence.
  destruct cl_running1 as [?| ->]; auto.
Qed.

Lemma calm_wakeup stage p p' : cpu_wakeupOnEvent stage p = Ok p' → calm p p'.
Proof. unfold cpu_wakeupOnEvent. intros (ar & _ & [= <-])%bind_Ok. split; auto. Qed.

Lemma calm_signals stage awake active p p' : signals stage awake active p = Ok p' → calm p p'.
Proof.
  unfold signals. intros (p1 & H1 & E)%bind_Ok. trans p1.
  - destruct awake; [by eapply calm_wakeup|by injection H1 as <-].
  - destruct active; [|by injection E as <-]. unfold cpu_activity in E. apply bind_Ok in E as (ar & _ & [= <-]). split; auto.
Qed.

Lemma calm_fromExecute x p p' : fromExecute x p = Ok p' → calm p p'.
Proof. unfold fromExecute. intros []%calm_signals. by split. Qed.

Lemma calm_fromFetch1 f p p' : fromFetch1 f p = Ok p' → calm p p'.
Proof. unfold fromFetch1. intros []%calm_signals. by split. Qed.

Lemma calm_wakeupFetch p tid p' : Pipeline_wakeupFetch p tid = Ok p' → calm p p'.
Proof.
  unfold Pipeline_wakeupFetch. intros (tc & _ & E)%bind_Ok. apply bind_Ok in E as ([u f] & _ & E).
  by eapply calm_fromFetch1.
Qed.

Lemma calm_wakeups l p p' : mfold Pipeline_wakeupFetch p l = Ok p' → calm p p'.
Proof.
  revert p. induction l as [|t l IH]; intros p; cbn; [by intros [= <-]|].
  intros (p1 & H1%calm_wakeupFetch & H2%IH)%bind_Ok. by trans p1.
Qed.

Lemma calm_event icache ev p p' : match ev with PlCycle _ | PlDrain => False | _ => True end →
  pl_event icache p ev = Ok p' → calm p p'.
Proof.
  intros Hev E. destruct ev; try done; cbn [pl_event] in E; unfold memEvent in E;
    try (apply bind_Ok in E as ([u x] & _ & E); first [by eapply calm_fromExecute|by eapply calm_fromFetch1]).
  - unfold Pipeline_drainResume in E. apply bind_Ok in E as (p1 & H1%calm_wakeups & E).
    apply bind_Ok in E as ([u x] & _ & E%calm_fromExecute). by trans p1.
  - by eapply calm_wakeup.
  - by eapply calm_wakeupFetch.
  - apply bind_Ok in E as ([u x] & _ & [= <-]). by split; auto.
Qed.

Lemma calm_drain p p' b : Pipeline_drain p = Ok (p', b) → ∃ p1, calm p p1 ∧ p' = up_drain (negb b) p1.
Proof.
  unfold Pipeline_drain. intros ([u x] & _ & E)%bind_Ok. apply bind_Ok in E as (p1 & H1%calm_fromExecute & E).
  apply bind_Ok in E as (d & _ & [= <- <-]). by exists p1.
Qed.

(** a stage does not stop the clock *)
Lemma stages_running icache e p p1 p2 p3 p4 cs p5 p6 : running p = true → evalExecute e p = Ok p1 →
  evalDummy e p1 = Ok p2 → evalDecode e p2 = Ok p3 → evalFetch2 e p3 = Ok (p4, cs) →
  evalFetch1 icache e p4 = Ok p5 → evalLatches p5 = Ok p6 →
  running p6 = true ∧ needToSignalDrained p6 = needToSignalDrained p.
Proof.
  intros Hr H1 H2 H3 H4 H5 H6.
  unfold evalExecute in H1. apply bind_Ok in H1 as (? & _ & H1). apply bind_Ok in H1 as ([? ?] & _ & H1).
  apply bind_Ok in H1 as (? & _ & [_ _ _ _ R1 N1]%calm_fromExecute). cbn in R1, N1.
  unfold evalDummy in H2. apply bind_Ok in H2 as (? & _ & H2). apply bind_Ok in H2 as (? & _ & H2).
  apply bind_Ok in H2 as ([? ?] & _ & H2). apply bind_Ok in H2 as (? & _ & [= <-]).
  unfold evalDecode in H3. apply bind_Ok in H3 as (? & _ & H3). apply bind_Ok in H3 as (? & _ & H3).
  apply bind_Ok in H3 as ([? ?] & _ & H3). apply bind_Ok in H3 as (? & _ & [= <-]).
  unfold evalFetch2 in H4. do 3 apply bind_Ok in H4 as (? & _ & H4). apply bind_Ok in H4 as ([[[? ?] ?] ?] & _ & H4).
  do 2 apply bind_Ok in H4 as (? & _ & H4). apply bind_Ok in H4 as (? & _ & [= <- _]).
  unfold evalFetch1 in H5. do 3 apply bind_Ok in H5 as (? & _ & H5). apply bind_Ok in H5 as ([? ?] & _ & H5).
  apply bind_Ok in H5 as (? & _ & [_ _ _ _ R5 N5]%calm_fromFetch1). cbn in R5, N5.
  unfold evalLatches in H6. do 6 apply bind_Ok in H6 as (? & _ & H6). apply bind_Ok in H6 as (? & _ & [= <-]). cbn.
  split; [|congruence]. destruct R5 as [?| ->]; [done|]. destruct R1 as [?| ->]; done.
Qed.

Lemma link_inactive {T} `{IsBubble T} (dflt : T) L l ar : link_ok L dflt l ar → ar_wf Num_StageId L ar →
  active ar = false → Latch_empty l = Ok true.
Proof. intros [Hwf _ Hc] Har Ha. eapply (covered_inactive dflt Num_StageId L); done. Qed.

Lemma inv_links q p : pl_params q → pl_inv q p → active (recorder p) = false →
  emptyLinks p ∧ Latch_empty (eToF1 p) = Ok true.
Proof.
  intros _ [] Ha. split; [split_and!|]; by eapply link_inactive.
Qed.

Lemma idle_sleeps q p p' : pl_params q → pl_inv q p → running p = true → evalIdle p = Ok p' →
  running p' = false → emptyLinks p' ∧ Latch_empty (eToF1 p') = Ok true.
Proof.
  intros Hq Hp Hr E Hs. unfold evalIdle in E. destruct (allow_idling p); [|injection E as <-; congruence].
  apply bind_Ok in E as (ar & _ & [= <-]). cbn in Hs. destruct (active (recorder p)) eqn:Ha; [cbn in Hs; congruence|].
  exact (inv_links q p Hq Hp Ha).
Qed.

Lemma forallb_Forall {A} (f : A → bool) (P : A → Prop) l : (∀ x, f x = true → P x) → forallb f l = true → Forall P l.
Proof. intros HP Hf. apply Forall_forall. intros x Hx. apply HP. by eapply forallb_forall, list_elem_of_In. Qed.

(** what [isDrained()] has looked at *)
Record drained p : Prop := {
  dr_fetch1 : numInFlightFetches (fetch1 p) = 0;
  dr_running : Forall (λ i, f1_state i ≠ FetchRunning) (f1_fetchInfo (fetch1 p));
  dr_fetch2 : Forall (λ b, IB_empty b = true) (f2_inputBuffer (fetch2 p));
  dr_decode : Forall (λ b, IB_empty b = true) (inputBuffer (decoder p));
  dr_dummy : Forall (λ b, IB_empty b = true) (inputBuffer (executeDummy p));
  dr_execute : Forall (λ b, IB_empty b = true) (x_inputBuffer (execute p));
  dr_insts : Forall (λ i, queue (inFlightInsts i) = []) (x_info (execute p));
  dr_lsq : LSQ_isDrained (x_lsq (execute p)) = true;
  dr_links : emptyLinks p;
  dr_prediction : Latch_empty (f2ToF1 p) = Ok true;
}.

Lemma isDrained_true p : Pipeline_isDrained p = Ok true → drained p.
Proof.
  intros E. unfold Pipeline_isDrained in E. do 5 apply bind_Ok in E as (? & _ & E).
  apply bind_Ok in E as ([xd x'] & Hx & E). injection Hx as <- _.
  apply bind_Ok in E as (b1 & H1 & E). apply bind_Ok in E as (b2 & H2 & E). apply bind_Ok in E as (b3 & H3 & E).
  apply bind_Ok in E as (b4 & H4 & E). apply bind_Ok in E as (b5 & H5 & E). injection E as E.
  repeat (apply andb_true_iff in E as [E ?]). subst.
  repeat match goal with H : _ && _ = true |- _ => apply andb_true_iff in H as [? H] end.
  unfold Fetch1_isDrained, Fetch2_isDrained, Decode_isDrained, ExecuteDummy_isDrained in *.
  repeat match goal with H : _ && _ = true |- _ => apply andb_true_iff in H as [? ?] end.
  split; try done; try (by eapply forallb_Forall; [|eassumption]); [by apply Z.eqb_eq| |].
  - eapply forallb_Forall; [|eassumption]. intros i Hi%negb_true_iff%bool_decide_eq_false. done.
  - eapply forallb_Forall; [|eassumption]. intros i Hi. unfold Queue_empty in Hi. by destruct (queue _).
Qed.

Lemma evalDrain_cases p p' d : evalDrain p = Ok (p', d) →
  if d : bool then Pipeline_isDrained p = Ok true ∧ p' = up_clock (recorder p) false (up_drain false p)
  else p' = p.
Proof.
  unfold evalDrain. destruct (needToSignalDrained p); [|by intros [= <- <-]].
  intros (b & Hb & E)%bind_Ok. destruct b; injection E as <- <-; done.
Qed.

(** a cycle up to idling and draining *)
Lemma evaluate_parts q icache e p p' cmds d : pl_params q → pl_inv q p → running p = true →
  Pipeline_evaluate icache e p = Ok (p', cmds, d) →
  ∃ p6 p7, pl_inv q p6 ∧ running p6 = true ∧ needToSignalDrained p6 = needToSignalDrained p
    ∧ evalIdle p6 = Ok p7 ∧ evalDrain p7 = Ok (p', d).
Proof.
  intros Hq H0 Hrun E. pose proof Hq as []. unfold Pipeline_evaluate in E. apply bind_Ok in E as (p1 & H1 & E).
  apply bind_Ok in E as (p2 & H2 & E). apply bind_Ok in E as (p3 & H3 & E).
  apply bind_Ok in E as ([p4 cs] & H4 & E). apply bind_Ok in E as (p5 & H5 & E).
  apply bind_Ok in E as (p6 & H6 & E). apply bind_Ok in E as (p7 & H7 & E).
  apply bind_Ok in E as ([p8 dn] & H8 & [= <- _ <-]).
  destruct (stages_running _ _ _ _ _ _ _ _ _ _ Hrun H1 H2 H3 H4 H5 H6) as [Hr6 Hn6].
  exists p6, p7. split_and!; try done.
  by eapply (stages_at (pp_numThreads q) (longestDelay q)) with (p := p) (icache := icache) (cs := cs).
Qed.

(** the cycle in which the clock stops *)
Lemma evaluate_stops q icache e p p' cmds d : pl_params q → pl_inv q p → running p = true →
  Pipeline_evaluate icache e p = Ok (p', cmds, d) →
  (running p' = false → emptyLinks p') ∧ (d = true → running p' = false ∧ drained p').
Proof.
  intros Hq H0 Hrun E. destruct (evaluate_parts q icache e p p' cmds d Hq H0 Hrun E) as (p6 & p7 & Hp6 & Hr6 & _ & H7 & H8).
  apply evalDrain_cases in H8. destruct d.
  - destruct H8 as [Hd%isDrained_true ->]. pose proof (dr_links _ Hd). split; [done|]. intros _. split; [done|]. by destruct Hd.
  - subst p'. split; [|done]. intros Hs. by eapply idle_sleeps.
Qed.

Lemma run_inv q icache es p0 p : pl_params q → newPipeline q = Ok p0 → pl_run icache es p0 = Ok p → pl_inv q p.
Proof.
  intros Hq H0 E. pose proof Hq as []. apply newPipeline_ok in H0 as [Hp _]; [|done].
  by eapply (run_at (pp_numThreads q) (longestDelay q)); [..|exact E].
Qed.

Lemma event_sleeps q icache ev p p' : pl_params q → pl_inv q p → (running p = false → emptyLinks p) →
  pl_event icache p ev = Ok p' → running p' = false → emptyLinks p'.
Proof.
  intros Hq Hp Hs E. destruct ev as [e| | | | | | | | | | | |].
  { cbn in E. destruct (running p) eqn:Hr; [|injection E as <-; auto].
    apply bind_Ok in E as ([[p1 cs] d] & E & [= <-]). by eapply evaluate_stops. }
  8: (cbn in E; apply bind_Ok in E as ([p1 b] & (p2 & Hc & ->)%calm_drain & [= <-])).
  all: (try apply calm_event in E as Hc; try done; destruct Hc as [H1 H2 H3 H4 [Hr|Hr] _]; [cbn; congruence|]; intros Hr';
    cbn in Hr'; rewrite Hr in Hr'; specialize (Hs Hr'); unfold emptyLinks in *; cbn; by rewrite H1, H2, H3, H4).
Qed.

Lemma run_sleeps q icache es p0 p : pl_params q → newPipeline q = Ok p0 → pl_run icache es p0 = Ok p →
  running p = false → emptyLinks p.
Proof.
  intros Hq H0 E. pose proof Hq as []. apply newPipeline_ok in H0 as (Hp & _ & Hl); [|done].
  assert (running p0 = false → emptyLinks p0) as Hs by done. clear Hl. revert p0 Hp Hs E. unfold pl_run.
  induction es as [|ev es IH]; intros p0 Hp Hs; cbn; [by intros [= <-]|].
  intros (p1 & H1 & E)%bind_Ok. eapply IH; [| |done].
  - by eapply (event_at (pp_numThreads q) (longestDelay q)); [..|exact H1].
  - by eapply event_sleeps.
Qed.

(** ** The theorems *)

(** the buffers hold the room they promised: [ns t] elements are still to come for thread [t] *)
Definition within {T} `{IsBubble T} (cap : Z) (bufs : list (InputBuffer T)) (ns : Z → Z) : Prop :=
  ∀ t b, vget bufs t = Ok b →
    numReservedSlots (ibQueue b) = ns t ∧ Z.of_nat (length (queue (ibQueue b))) + ns t ≤ cap.

Lemma stock_within {T} `{IsBubble T} n cap (bufs : list (InputBuffer T)) ns : stock n cap bufs ns → within cap bufs ns.
Proof.
  intros [_ Hb Hs] t b Hg. pose proof (Hb t b Hg) as Hok. pose proof (Hs t b Hg) as He.
  pose proof (buf_ok_none _ _ _ Hok He). pose proof (buf_ok_room _ _ _ Hok). lia.
Qed.

(** C4: No input buffer of the pipeline overflows.  Whatever the order of
    cycles, memory events, wake-ups and drains, in every state the pipeline
    reaches each slot reserved in an input buffer of Fetch2, Decode,
    ExecuteDummy and Execute belongs to exactly one element on its way there
    (in the latch in front, or, for Fetch2, a line fetch in flight), and the
    elements in the buffer together with those on their way are within its
    capacity. *)
Theorem pipeline_buffers_never_overflow icache q es p0 p : pl_params q → newPipeline q = Ok p0 →
  pl_run icache es p0 = Ok p →
  within (fetch2InputBufferSize q) (f2_inputBuffer (fetch2 p))
    (λ t, onWay lineThread t (latch_line noLine (f1ToF2 p)) + inflight t (flight (fetch1 p)))
  ∧ within (decodeInputBufferSize q) (inputBuffer (decoder p))
      (λ t, onWay instsThreadId t (latch_line noInsts (f2ToD p)))
  ∧ within (executeDummyInputBufferSize q) (inputBuffer (executeDummy p))
      (λ t, onWay instsThreadId t (latch_line noInsts (dToE p)))
  ∧ within (executeInputBufferSize q) (x_inputBuffer (execute p))
      (λ t, onWay instsThreadId t (latch_line noInsts (eToE p))).
Proof.
  intros Hq H0 E. destruct (run_inv q icache es p0 p Hq H0 E). split_and!; by eapply stock_within.
Qed.

Lemma empty_onWay {T} `{IsBubble T} (dflt : T) (tid : T → Z) l t : latch_wf l → Latch_empty l = Ok true →
  onWay tid t (latch_line dflt l) = 0.
Proof.
  intros Hwf E. unfold Latch_empty in E. rewrite (MyMinorBuffer_empty_Ok dflt _ (lwf_buf _ Hwf)) in E. injection E as E.
  pose proof (onWay_nonneg tid t (latch_line dflt l)). destruct (Z.lt_total (onWay tid t (latch_line dflt l)) 0) as [?|[?|Hp]];
    [lia|done|]. apply countb_pos in Hp as (j & x & Hj & Hx). rewrite forallb_forall in E.
  rewrite E in Hx; [done|]. by apply list_elem_of_In, list_elem_of_lookup; exists j.
Qed.

(** C6: A pipeline that sleeps has nothing under way.  When the clock of the
    pipeline does not run, because it went idle, was drained or has never
    been started, the latches that carry lines and instructions forward from
    stage to stage are empty; no slot of the input buffers of Decode,
    ExecuteDummy and Execute is reserved, and those of Fetch2 are for the line
    fetches in flight, whose responses wake the pipeline up. *)
Theorem pipeline_sleeps_empty icache q es p0 p : pl_params q → newPipeline q = Ok p0 →
  pl_run icache es p0 = Ok p → running p = false →
  Latch_empty (f1ToF2 p) = Ok true ∧ Latch_empty (f2ToD p) = Ok true
  ∧ Latch_empty (dToE p) = Ok true ∧ Latch_empty (eToE p) = Ok true
  ∧ within (fetch2InputBufferSize q) (f2_inputBuffer (fetch2 p)) (λ t, inflight t (flight (fetch1 p)))
  ∧ within (decodeInputBufferSize q) (inputBuffer (decoder p)) (λ _, 0)
  ∧ within (executeDummyInputBufferSize q) (inputBuffer (executeDummy p)) (λ _, 0)
  ∧ within (executeInputBufferSize q) (x_inputBuffer (execute p)) (λ _, 0).
Proof.
  intros Hq H0 E Hr. destruct (run_sleeps q icache es p0 p Hq H0 E Hr) as (E1 & E2 & E3 & E4).
  destruct (run_inv q icache es p0 p Hq H0 E). split_and!; try done; eapply stock_within, stock_ext;
    [exact at_F|..|exact at_D| |exact at_U| |exact at_X|]; intros t; cbn; unfold way; symmetry.
  - rewrite empty_onWay; [done|apply at_f1ToF2|done].
  - apply empty_onWay; [apply at_f2ToD|done].
  - apply empty_onWay; [apply at_dToE|done].
  - apply empty_onWay; [apply at_eToE|done].
Qed.

Lemma stock_fresh {T} `{IsBubble T} n cap (bufs : list (InputBuffer T)) ns : stock n cap bufs ns →
  (∀ t, ns t = 0) → Forall (λ b, IB_empty b = true) bufs → bufs = replicate (Z.to_nat n) (newInputBuffer cap).
Proof.
  intros [Hl Hb Hs] Hns He. symmetry. replace (Z.to_nat n) with (length bufs) by lia. apply replicate_as_Forall; split; [done|].
  apply Forall_lookup. intros j b Hj. rewrite Forall_lookup in He. specialize (He j b Hj).
  assert (vget bufs (Z.of_nat j) = Ok b) as Hg.
  { apply vget_Ok. rewrite Nat2Z.id. split; [|done]. apply lookup_lt_Some in Hj. lia. }
  pose proof (Hs _ _ Hg) as Hp. pose proof (buf_ok_none _ _ _ (Hb _ _ Hg) Hp) as Hr. rewrite Hns in Hr.
  destruct (Hb _ _ Hg) as (a & x & [Hc _ _ _ _ _ _]). cbn in Hc. unfold IB_empty, Queue_empty in He.
  destruct b as [[qu nr cp] el]. cbn in *. subst. destruct qu; done.
Qed.

(** C5: The end of a drain is the state of a new pipeline.  When a cycle
    signals that the drain is done, the clock is stopped, every input buffer
    of Fetch2, Decode, ExecuteDummy and Execute is exactly the empty buffer
    that the constructor built (no element, no reservation), no line fetch is
    in flight and no thread fetches, no instruction is in flight in Execute,
    the load/store queue is drained, and all latches between the stages are
    empty but the one from Execute to Fetch1, which is not asked. *)
Theorem pipeline_drained_is_fresh icache q es p0 p e p' cmds : pl_params q → newPipeline q = Ok p0 →
  pl_run icache es p0 = Ok p → running p = true → Pipeline_evaluate icache e p = Ok (p', cmds, true) →
  let n := Z.to_nat (pp_numThreads q) in
  running p' = false
  ∧ f2_inputBuffer (fetch2 p') = replicate n (newInputBuffer (fetch2InputBufferSize q))
  ∧ inputBuffer (decoder p') = replicate n (newInputBuffer (decodeInputBufferSize q))
  ∧ inputBuffer (executeDummy p') = replicate n (newInputBuffer (executeDummyInputBufferSize q))
  ∧ x_inputBuffer (execute p') = replicate n (newInputBuffer (executeInputBufferSize q))
  ∧ flight (fetch1 p') = []
  ∧ Forall (λ i, f1_state i ≠ FetchRunning) (f1_fetchInfo (fetch1 p'))
  ∧ Forall (λ i, queue (inFlightInsts i) = []) (x_info (execute p'))
  ∧ LSQ_isDrained (x_lsq (execute p')) = true
  ∧ emptyLinks p' ∧ Latch_empty (f2ToF1 p') = Ok true.
Proof.
  intros Hq H0 E Hr Ev n. pose proof Hq as []. pose proof (run_inv q icache es p0 p Hq H0 E) as Hp.
  destruct (evaluate_stops q icache e p p' cmds true Hq Hp Hr Ev) as [_ [Hs []]]; [done|].
  assert (pl_inv q p') as [] by (by eapply (evaluate_at (pp_numThreads q) (longestDelay q)); [..|exact Ev]).
  destruct dr_links0 as (E1 & E2 & E3 & E4).
  assert (flight (fetch1 p') = []) as Hf.
  { rewrite (fit_count _ at_fit) in dr_fetch3. by destruct (flight (fetch1 p')). }
  split_and!; try done; eapply stock_fresh; try eassumption; intros t; cbn; unfold way.
  - rewrite empty_onWay; [by rewrite Hf|apply at_f1ToF2|done].
  - apply empty_onWay; [apply at_f2ToD|done].
  - apply empty_onWay; [apply at_dToE|done].
  - apply empty_onWay; [apply at_eToE|done].
Qed.

(** ** A pending drain *)

(** the first thread is not draining, as after construction and after a resume *)
Definition notDraining p : Prop := ∃ i, vget (x_info (execute p)) 0 = Ok i ∧ drainState i = NotDraining.

(** a drain is asked for when none is under way *)
Fixpoint drainsInTurn (icache : Z → bool) p (es : list PlEvent) : Prop :=
  match es with
  | [] => True
  | ev :: es =>
      match ev with PlDrain => notDraining p | _ => True end
      ∧ match pl_event icache p ev with Ok p => drainsInTurn icache p es | Stop _ => True end
  end.

Definition keepsAwake (s s' : Execute) : Prop := x_awake s = true → x_awake s' = true.
#[local] Instance keepsAwake_preorder : PreOrder keepsAwake.
Proof. split; [intros s H; exact H|]. intros s s1 s2 H1 H2 H. auto. Qed.

(** [drain()] on one thread *)
Definition drainOne (tid : Z) : St Execute unit :=
  let! i := x_thread tid in
  if bool_decide (drainState i = NotDraining) then
    do! wakeupExecute in
    let! between := isInbetweenInsts tid in
    setDrainState tid (if between : bool then DrainHaltFetch else DrainCurrentInst)
  else sret tt.

Lemma keepsAwake_mod (f : Execute → Execute) : (∀ s, x_awake (f s) = x_awake s) → onlyM keepsAwake (smod f).
Proof. intros Hf. apply only_mod. intros s H. by rewrite Hf. Qed.

Lemma keepsAwake_setDrain tid d : onlyM keepsAwake (setDrainState tid d).
Proof. unfold setDrainState, x_updThread. only_tac. by apply keepsAwake_mod. Qed.

Lemma keepsAwake_drainOne tid : onlyM keepsAwake (drainOne tid).
Proof.
  unfold drainOne. only_tac; apply only_mod; intros s' H; exact H || done.
Qed.

Lemma drainOne_wakes tid i s u s' : vget (x_info s) tid = Ok i → drainState i = NotDraining →
  drainOne tid s = Ok (u, s') → x_awake s' = true.
Proof.
  intros Hi Hd E. unfold drainOne in E. apply sbind_Ok in E as (i' & s1 & H1 & E).
  unfold x_thread, sbind, sget, slift in H1. rewrite Hi in H1. injection H1 as <- <-.
  rewrite bool_decide_true in E by done. apply sbind_Ok in E as ([] & s2 & [= <-] & E).
  assert (onlyM keepsAwake (let! between := isInbetweenInsts tid in
    setDrainState tid (if between : bool then DrainHaltFetch else DrainCurrentInst))) as H.
  { only_tac. by apply keepsAwake_mod. }
  exact (H _ _ _ E eq_refl).
Qed.

Lemma x_drain_wakes (s : Execute) r s' : 0 < x_numThreads (x_cfg s) →
  (∃ i, vget (x_info s) 0 = Ok i ∧ drainState i = NotDraining) → x_drain s = Ok (r, s') → x_awake s' = true.
Proof.
  intros Hn (i & Hi & Hd) E. unfold x_drain in E. apply sbind_Ok in E as (? & ? & [= <- <-] & E).
  apply sbind_Ok in E as ([] & s1 & H1 & E).
  rewrite (zrange_cons 0) in H1 by lia. cbn [eachThread] in H1. apply sbind_Ok in H1 as ([] & s2 & H2 & H1).
  apply (drainOne_wakes 0 i) in H2; [|done|done].
  assert (∀ l, onlyM keepsAwake (eachThread drainOne l)) as Hl.
  { induction l as [|t l IH]; cbn [eachThread]; [apply (only_ret _)|]. apply (only_bind _); [apply keepsAwake_drainOne|done]. }
  specialize (Hl _ _ _ _ H1 H2). by injection E as _ <-.
Qed.

Lemma drain_pending q p p' b : pl_params q → pl_inv q p → notDraining p → Pipeline_drain p = Ok (p', b) →
  running p' = true.
Proof.
  intros Hq Hp Hd E. unfold Pipeline_drain in E. apply bind_Ok in E as ([u x] & Hx & E).
  apply bind_Ok in E as (p1 & H1 & E). apply bind_Ok in E as (d & _ & [= <- _]).
  apply x_drain_wakes in Hx; [|rewrite (at_threads _ _ _ _ _ _ _ _ _ _ _ Hp : x_numThreads (x_cfg (execute p)) = _); apply Hq|done].
  unfold fromExecute in H1. rewrite Hx in H1. cbn [orb] in H1. unfold signals in H1.
  apply bind_Ok in H1 as (p2 & H2 & H1). unfold cpu_wakeupOnEvent in H2. apply bind_Ok in H2 as (ar & _ & [= <-]).
  destruct (x_activity x); [|by injection H1 as <-]. unfold cpu_activity in H1. by apply bind_Ok in H1 as (ar2 & _ & [= <-]).
Qed.

(** the end of a cycle during a drain *)
Lemma evaluate_pending q icache e p p' cmds d : pl_params q → pl_inv q p → running p = true →
  Pipeline_evaluate icache e p = Ok (p', cmds, d) →
  if needToSignalDrained p then
    Pipeline_isDrained p' = Ok d ∧ needToSignalDrained p' = negb d ∧ running p' = negb d
  else needToSignalDrained p' = false.
Proof.
  intros Hq H0 Hrun E. destruct (evaluate_parts q icache e p p' cmds d Hq H0 Hrun E) as (p6 & p7 & _ & Hr6 & Hn6 & H7 & H8).
  assert (needToSignalDrained p7 = needToSignalDrained p ∧ (needToSignalDrained p = true → running p7 = true)) as [Hn7 Hr7].
  { unfold evalIdle in H7. destruct (allow_idling p6); [|injection H7 as <-; split; congruence].
    apply bind_Ok in H7 as (ar & _ & [= <-]). cbn. rewrite Hn6. split; [done|]. intros ->. by rewrite andb_false_r. }
  unfold evalDrain in H8. rewrite Hn7 in H8. destruct (needToSignalDrained p); [|injection H8 as <- <-; congruence].
  apply bind_Ok in H8 as ([] & Hd & E'); injection E' as <- <-; cbn; auto.
Qed.

Lemma run_pending q icache es p0 p : pl_params q → newPipeline q = Ok p0 → drainsInTurn icache p0 es →
  pl_run icache es p0 = Ok p → needToSignalDrained p = true → running p = true.
Proof.
  intros Hq H0. assert (needToSignalDrained p0 = true → running p0 = true) as Hs.
  { unfold newPipeline in H0. do 12 apply bind_Ok in H0 as (? & _ & H0). destruct (_ || _); [done|]. by injection H0 as <-. }
  apply newPipeline_ok in H0 as [Hp _]; [|done]. revert p0 Hp Hs. unfold pl_run.
  induction es as [|ev es IH]; intros p0 Hp Hs Ht; cbn; [by intros [= <-]|].
  intros (p1 & H1 & E)%bind_Ok. cbn in Ht. rewrite H1 in Ht. destruct Ht as [Hd Ht]. pose proof Hq as [].
  assert (pl_inv q p1) as Hp1 by (by eapply (event_at (pp_numThreads q) (longestDelay q)); [..|exact H1]).
  eapply IH; [exact Hp1| |exact Ht|exact E]. clear IH E Ht.
  destruct ev as [e| | | | | | | | | | | |].
  { cbn in H1. destruct (running p0) eqn:Hr; [|injection H1 as <-; rewrite Hr; auto].
    apply bind_Ok in H1 as ([[p2 cs] d] & E & [= <-]). apply (evaluate_pending q) in E; [|done..].
    destruct (needToSignalDrained p0); [by destruct E as (_ & -> & ->)|congruence]. }
  8: (cbn in H1; apply bind_Ok in H1 as ([p2 b] & E & [= <-]); intros _; exact (drain_pending q _ _ _ Hq Hp Hd E)).
  all: (apply calm_event in H1 as [_ _ _ _ [Hr|Hr] Hn]; [by intros _|intros Hpend; rewrite Hr; apply Hs; congruence|done]).
Qed.

(** one drain in a history *)
Lemma drainsInTurn_split k icache es p p1 : pl_run icache (take k es) p = Ok p1 → notDraining p1 →
  Forall (λ ev, match ev with PlDrain => False | _ => True end) (take k es) →
  Forall (λ ev, match ev with PlDrain => False | _ => True end) (drop (S k) es) → drainsInTurn icache p es.
Proof.
  assert (∀ es p, Forall (λ ev, match ev with PlDrain => False | _ => True end) es → drainsInTurn icache p es) as Hall.
  { clear. intros es p Hf. revert p. induction Hf as [|ev es Hev Hf IH]; intros p; [done|]. cbn. split; [by destruct ev|].
    destruct (pl_event icache p ev); [apply IH|done]. }
  revert p es. induction k as [|k IH]; intros p es E Hd Hf1 Hf2.
  - injection E as <-. destruct es as [|ev es]; [done|]. cbn. split; [by destruct ev|].
    destruct (pl_event icache p ev); [by apply Hall|done].
  - destruct es as [|ev es]; [done|]. cbn in *. apply Forall_cons in Hf1 as [Hev Hf1]. split; [by destruct ev|].
    unfold pl_run in E. cbn in E. apply bind_Ok in E as (p2 & -> & E). by eapply IH.
Qed.

(** C7: A drain that has been asked for is never forgotten.  If drains are asked
    for in turn, then as long as the end of a drain is to be signalled the clock
    runs, however idle the stages are; and each cycle signals the end exactly
    when it leaves the pipeline drained, and then stops the clock. *)
Theorem pipeline_drain_stays_awake icache q es p0 p : pl_params q → newPipeline q = Ok p0 →
  drainsInTurn icache p0 es → pl_run icache es p0 = Ok p → needToSignalDrained p = true →
  running p = true
  ∧ ∀ e p' cmds d, Pipeline_evaluate icache e p = Ok (p', cmds, d) →
      Pipeline_isDrained p' = Ok d ∧ needToSignalDrained p' = negb d ∧ running p' = negb d.
Proof.
  intros Hq H0 Ht E Hpend. pose proof (run_pending q icache es p0 p Hq H0 Ht E Hpend) as Hr. split; [done|].
  intros e p' cmds d Ev. pose proof (run_inv q icache es p0 p Hq H0 E) as Hp.
  pose proof (evaluate_pending q icache e p p' cmds d Hq Hp Hr Ev) as H. by rewrite Hpend in H.
Qed.
End props.

(** ** A pipeline to run

    The small instruction set, decoder and machine put together; all delays
    are one cycle and all buffers hold two elements. *)
Module ToyPipe.

#[local] Existing Instance Toy.isa.
#[local] Existing Instance ToyExec.sem.
#[local] Existing Instance ToyDec.dec.

Definition params : PipelineParams :=
  mkPipelineParams true 1 1 1 1 1 1 ToyExec.params 2 2 true ED_NotDraining 2 2 true 2 2 true
    ToyDec.decoders ToyFetch.params 4 (0, 0).

Definition env (now : Z) : PlEnv :=
  mkPlEnv (ToyExec.env now) [] [] [] [] ToyDec.taken (Some None) (mkLvptIn false false 0 20 0 0).
Definition cycles (from to : Z) : list PlEvent := (λ n, PlCycle (env n)) <$> zrange from to.

Definition icache : Z → bool := λ _, true.

Definition after (es : list PlEvent) : res Pipeline := p ← newPipeline params; pl_run icache es p.

(** two lines are asked for, and nothing is answered *)
Definition waiting : list PlEvent := PlWakeupFetch 0 :: cycles 1 6.

(** the first line is answered, and its instructions reach Execute *)
Definition flowing : list PlEvent :=
  PlWakeupFetch 0 :: cycles 1 2 ++ PlFetchResponse 1 ToyFetch.bytes :: cycles 3 7.

(** a drain, and all that is still to be answered *)
Definition draining : list PlEvent :=
  PlWakeupFetch 0 :: cycles 1 2
  ++ PlFetchResponse 1 ToyFetch.bytes :: PlFetchResponse 2 ToyFetch.bytes :: cycles 3 3
  ++ PlDrain :: cycles 4 12 ++ [PlFetchResponse 3 ToyFetch.bytes].

Lemma pipe_fine : pl_params params.
Proof. split; by vm_compute. Qed.
End ToyPipe.

(** Execute holds a line and Fetch1 has two fetches in flight *)
Lemma pipeline_buffers_never_overflow_witness :
  ∃ p0 p, newPipeline ToyPipe.params = Ok p0 ∧ pl_run ToyPipe.icache ToyPipe.flowing p0 = Ok p
    ∧ (length ∘ queue ∘ ibQueue) <$> x_inputBuffer (execute p) = [1%nat] ∧ length (flight (fetch1 p)) = 2%nat
    ∧ within 2 (f2_inputBuffer (fetch2 p))
        (λ t, onWay lineThread t (latch_line noLine (f1ToF2 p)) + inflight t (flight (fetch1 p))).
Proof.
  assert ((p0 ← newPipeline ToyPipe.params; p ← pl_run ToyPipe.icache ToyPipe.flowing p0;
    Ok ((length ∘ queue ∘ ibQueue) <$> x_inputBuffer (execute p), length (flight (fetch1 p))))
    = Ok ([1%nat], 2%nat)) as H by (vm_compute; reflexivity).
  apply bind_Ok in H as (p0 & E0 & H). apply bind_Ok in H as (p & E & H). injection H as H1 H2.
  exists p0, p. do 4 (split; [done|]).
  exact (proj1 (pipeline_buffers_never_overflow _ _ _ p0 p ToyPipe.pipe_fine E0 E)).
Defined.

(** asleep, with two fetches in flight *)
Lemma pipeline_sleeps_empty_witness :
  ∃ p0 p, newPipeline ToyPipe.params = Ok p0 ∧ pl_run ToyPipe.icache ToyPipe.waiting p0 = Ok p
    ∧ running p = false ∧ length (flight (fetch1 p)) = 2%nat ∧ Latch_empty (f1ToF2 p) = Ok true.
Proof.
  assert ((p0 ← newPipeline ToyPipe.params; p ← pl_run ToyPipe.icache ToyPipe.waiting p0;
    Ok (running p, length (flight (fetch1 p)))) = Ok (false, 2%nat)) as H
    by (vm_compute; reflexivity).
  apply bind_Ok in H as (p0 & E0 & H). apply bind_Ok in H as (p & E & H). injection H as H1 H2.
  exists p0, p. do 4 (split; [done|]).
  exact (proj1 (pipeline_sleeps_empty _ _ _ p0 p ToyPipe.pipe_fine E0 E H1)).
Defined.

Lemma pipeline_drained_is_fresh_witness :
  ∃ p0 p p' cmds, newPipeline ToyPipe.params = Ok p0 ∧ pl_run ToyPipe.icache ToyPipe.draining p0 = Ok p
    ∧ running p = true ∧ Pipeline_evaluate ToyPipe.icache (ToyPipe.env 13) p = Ok (p', cmds, true)
    ∧ running p' = false.
Proof.
  assert ((p0 ← newPipeline ToyPipe.params; p ← pl_run ToyPipe.icache ToyPipe.draining p0;
    r ← Pipeline_evaluate ToyPipe.icache (ToyPipe.env 13) p; Ok (running p, r.2))
    = Ok (true, true)) as H by (vm_compute; reflexivity).
  apply bind_Ok in H as (p0 & E0 & H). apply bind_Ok in H as (p & E & H).
  apply bind_Ok in H as ([[p' cmds] d] & Ev & H). injection H as H1 H2. cbn in H2. subst d.
  exists p0, p, p', cmds. do 4 (split; [done|]).
  exact (proj1 (pipeline_drained_is_fresh _ _ _ p0 p _ p' cmds ToyPipe.pipe_fine E0 E H1 Ev)).
Defined.

(** the drain waits for the last fetch *)
Lemma pipeline_drain_stays_awake_witness :
  ∃ p0 p, newPipeline ToyPipe.params = Ok p0 ∧ pl_run ToyPipe.icache (take 15 ToyPipe.draining) p0 = Ok p
    ∧ needToSignalDrained p = true ∧ length (flight (fetch1 p)) = 1%nat ∧ running p = true.
Proof.
  assert ((p0 ← newPipeline ToyPipe.params; p ← pl_run ToyPipe.icache (take 15 ToyPipe.draining) p0;
    Ok (needToSignalDrained p, length (flight (fetch1 p)))) = Ok (true, 1%nat)) as H by (vm_compute; reflexivity).
  assert ((p0 ← newPipeline ToyPipe.params; p ← pl_run ToyPipe.icache (take 6 (take 15 ToyPipe.draining)) p0;
    i ← vget (x_info (execute p)) 0; Ok (drainState i)) = Ok NotDraining) as Hd by (vm_compute; reflexivity).
  apply bind_Ok in H as (p0 & E0 & H). apply bind_Ok in H as (p & E & H). injection H as H1 H2.
  rewrite E0 in Hd. cbn [rbind] in Hd. apply bind_Ok in Hd as (p1 & E1 & Hd). apply bind_Ok in Hd as (i & Hi & [= Hd]).
  exists p0, p. do 4 (split; [done|]).
  refine (proj1 (pipeline_drain_stays_awake _ _ _ p0 p ToyPipe.pipe_fine E0 _ E H1)).
  apply (drainsInTurn_split 6 _ _ _ p1 E1); [by exists i|..]; by repeat constructor.
Defined.
