(* ===== verification/PipelineVectors.v ===== *)
(** * The vectors of the pipeline's parts

    Execute's scoreboards and counts, the load/store queue's barriers and the
    decoders that Fetch2 uses are vectors with an entry for each thread: no
    operation changes their lengths. *)
From stdpp Require Import gmap.
From S2P Require Import Prelude TimeBuf Buffers Activity LVPT CVU PipeData Cpu Scoreboard FuncUnit Repack Decode ExecuteDummy.
From S2P Require Import Fetch1 Fetch2 LsqAddr LsqRequest Lsq Runs Execute ExecuteHistory Pipeline PipelineParts PipelineProps.

(** ** The load/store queue *)

Section barriers.
Context `{I : Isa}.
Implicit Types (l : LSQ I).

Definition sameBarriers l l' : Prop := length (lastMemBarrier l') = length (lastMemBarrier l).

#[export] Instance sameBarriers_preorder : PreOrder sameBarriers.
Proof. unfold sameBarriers. split; [by intros l|]. intros l l1 l2 H H'. congruence. Qed.

Lemma sameBarriers_deref p : onlyM sameBarriers (deref (I:=I) p).
Proof. intros l a l'. unfold deref. destruct (heap l !! p); [|done]. by intros [= _ <-]. Qed.

Lemma sameBarriers_alloc r : onlyM sameBarriers (alloc (I:=I) r).
Proof. intros l a l'. unfold alloc. by intros [= _ <-]. Qed.

Lemma sameBarriers_clear inst : onlyM sameBarriers (clearMemBarrier (I:=I) inst).
Proof.
  intros l a l' E. unfold clearMemBarrier, sbind, sget, slift, smod, sret in E.
  destruct (vget _ _) as [n|]; [|done]. cbn in E. destruct (_ <=? _); [|by injection E as _ <-].
  destruct (vset _ _ _) as [b|] eqn:Hb; [|done]. injection E as _ <-. by eapply vset_length.
Qed.

Lemma sameBarriers_issued inst : onlyM sameBarriers (issuedMemBarrierInst (I:=I) inst).
Proof.
  intros l a l' E. unfold issuedMemBarrierInst, sassert, sbind, sget, slift, smod in E.
  destruct (assert_ _); [|done]. cbn in E. destruct (vget _ _) as [n|]; [|done]. cbn in E.
  destruct (assert_ _); [|done]. cbn in E. destruct (vset _ _ _) as [b|] eqn:Hb; [|done]. injection E as _ <-.
  by eapply vset_length.
Qed.
End barriers.
#[export] Hint Resolve sameBarriers_deref sameBarriers_alloc sameBarriers_clear sameBarriers_issued : only.
#[export] Hint Extern 2 (onlyM sameBarriers (smod _)) => apply only_mod; intros; done : only.

Section barrierLoops.
Context `{I : Isa}.

Lemma sameBarriers_forwardSearch load l i : onlyM sameBarriers (forwardSearch (I:=I) load l i).
Proof. revert i. induction l; intros; cbn [forwardSearch]; only_tac. Qed.
#[local] Hint Resolve sameBarriers_forwardSearch : only.
Lemma sameBarriers_clearBarriers n : onlyM sameBarriers (clearBarriers (I:=I) n).
Proof. induction n; intros; cbn [clearBarriers]; only_tac. Qed.
#[local] Hint Resolve sameBarriers_clearBarriers : only.
Lemma sameBarriers_issueStores env l i : onlyM sameBarriers (issueStores (I:=I) env l i).
Proof. revert i. induction l; intros; cbn [issueStores]; only_tac. Qed.
End barrierLoops.
#[export] Hint Resolve sameBarriers_forwardSearch sameBarriers_clearBarriers sameBarriers_issueStores : only.

(** ** Execute *)

Section vectors.
Context `{I : Isa} {TS : ThreadSem I}.
Notation DynInst := (MyMinorDynInst I).
Implicit Types (s : Execute) (e : ExecEnv).

Record vecs s s' : Prop := {
  ve_scoreboard : length (x_scoreboard s') = length (x_scoreboard s);
  ve_numInst : length (x_numInst s') = length (x_numInst s);
  ve_numOp : length (x_numOp s') = length (x_numOp s);
  ve_barriers : sameBarriers (x_lsq s) (x_lsq s');
}.

#[export] Instance vecs_preorder : PreOrder vecs.
Proof.
  split; [by intros s; split|]. intros s s1 s2 [] []. split; try congruence.
Qed.

Lemma vecs_callLsq {A} (m : St (LSQ I) A) : onlyM sameBarriers m → onlyM vecs (callLsq m).
Proof.
  intros Hm s a s'. unfold callLsq. destruct (m _) as [[? ?]|] eqn:E; [|done]. intros [= _ <-]. split; try done. by eapply Hm.
Qed.

Lemma vecs_instAt p : onlyM vecs (instAt p).
Proof. intros s a s'. unfold instAt. destruct (_ !! p); [|done]. intros [= _ <-]. reflexivity. Qed.

Lemma vecs_markup tid inst t u : onlyM vecs (x_markup tid inst t u).
Proof.
  intros s a s' E. unfold x_markup, getContext, sbind, sget, slift, smod, sret in E.
  destruct (vget (x_scoreboard s) tid) as [sb|]; [|done]. cbn in E.
  destruct (vget (x_threads s) tid) as [tc|]; [|done]. cbn in E.
  destruct (markupInstDests _ _ _ _ _) as [r|]; [|done]. cbn in E.
  destruct (vset _ _ _) as [l|] eqn:El; [|done]. injection E as _ <-. split; try done. by eapply vset_length.
Qed.

Lemma vecs_clear tid inst u : onlyM vecs (let! s := sget in
  let! sb := slift (vget (x_scoreboard s) tid) in
  let! sb := slift (clearInstDests sb inst u) in
  let! l := slift (vset (x_scoreboard s) tid sb) in
  smod (xu_scoreboard l)).
Proof.
  intros s a s' E. unfold sbind, sget, slift, smod in E.
  destruct (vget (x_scoreboard s) tid) as [sb|]; [|done]. cbn in E.
  destruct (clearInstDests _ _ _) as [sb'|]; [|done]. cbn in E.
  destruct (vset _ _ _) as [l|] eqn:El; [|done]. injection E as _ <-. split; try done. by eapply vset_length.
Qed.

Lemma vset_count (l l' : list Z) t : (n ← vget l t; vset l t (u64 (n + 1))) = Ok l' → length l' = length l.
Proof. intros (n & _ & H)%bind_Ok. by eapply vset_length. Qed.

Lemma slift_inv {S A} (m : res A) (s s2 : S) a : slift m s = Ok (a, s2) → m = Ok a ∧ s2 = s.
Proof. unfold slift. destruct m; [|done]. by intros [= <- <-]. Qed.

Lemma vecs_accounting inst : onlyM vecs (doInstCommitAccounting inst).
Proof.
  intros s a s' E. unfold doInstCommitAccounting in E. apply sbind_Ok in E as ([] & s1 & [_ ->]%slift_inv & E).
  apply sbind_Ok in E as (si & s1 & [_ ->]%slift_inv & E). apply sbind_Ok in E as (? & ? & [= <- <-] & E).
  apply sbind_Ok in E as (ni & s1 & [Hi ->]%slift_inv & E). apply sbind_Ok in E as (no & s1 & [Ho ->]%slift_inv & [= _ <-]).
  split; try done; cbn; [|by eapply vset_count]. destruct (_ || _); [by eapply vset_count|congruence].
Qed.
End vectors.
#[export] Hint Resolve vecs_instAt vecs_markup vecs_clear vecs_accounting : only.
#[export] Hint Extern 2 (onlyM vecs (smod _)) => apply only_mod; intros; by split : only.
#[export] Hint Extern 2 (onlyM vecs (callLsq _)) => apply vecs_callLsq; only_tac : only.

Section executeVectors.
Context `{I : Isa} {TS : ThreadSem I}.
Implicit Types (s : Execute) (e : ExecEnv).

Lemma vecs_tryUnits e tid inst n k : onlyM vecs (tryUnits e tid inst n k).
Proof. revert k. induction n; intros; cbn [tryUnits]; only_tac. Qed.
#[local] Hint Resolve vecs_tryUnits : only.
Lemma vecs_issueLoop e n tid d st : onlyM vecs (issueLoop e n tid d st).
Proof. revert d st. induction n; intros; cbn [issueLoop]; only_tac. Qed.
#[local] Hint Resolve vecs_issueLoop : only.
Lemma vecs_pcEventLoop n tid k : onlyM vecs (pcEventLoop n tid k).
Proof. revert k. induction n; intros; cbn [pcEventLoop]; only_tac. Qed.
#[local] Hint Resolve vecs_pcEventLoop : only.
Lemma vecs_retire tid inst b : onlyM vecs (retire tid inst b).
Proof. unfold retire. do 5 (apply (only_bind _); [solve [only_tac]|intros]). apply vecs_clear. Qed.
#[local] Hint Resolve vecs_retire : only.
Lemma vecs_commitInst e p b : onlyM vecs (commitInst e p b).
Proof. only_tac. Qed.
#[local] Hint Resolve vecs_commitInst : only.
Lemma vecs_commitLoop e n tid b c k m : onlyM vecs (commitLoop e n tid b c k m).
Proof. revert k m. induction n; intros; cbn [commitLoop]; only_tac. Qed.
#[local] Hint Resolve vecs_commitLoop : only.
Lemma vecs_interruptLoop e n tid b : onlyM vecs (interruptLoop e n tid b).
Proof. revert tid b. induction n; intros; cbn [interruptLoop]; only_tac. Qed.
#[local] Hint Resolve vecs_interruptLoop : only.
Lemma vecs_firstThread (f : Z → St Execute bool) l : (∀ t, onlyM vecs (f t)) → onlyM vecs (firstThread f l).
Proof. intros. induction l; intros; cbn [firstThread]; only_tac. Qed.
Lemma vecs_eachThread (f : Z → St Execute unit) l : (∀ t, onlyM vecs (f t)) → onlyM vecs (eachThread f l).
Proof. intros. induction l; intros; cbn [eachThread]; only_tac. Qed.
#[local] Hint Extern 2 (onlyM vecs (firstThread _ _)) => apply vecs_firstThread; only_tac : only.
#[local] Hint Extern 2 (onlyM vecs (eachThread _ _)) => apply vecs_eachThread; only_tac : only.
Lemma vecs_killInput n tid : onlyM vecs (killInput n tid).
Proof. induction n; intros; cbn [killInput]; only_tac. Qed.
Lemma vecs_nextIssuable l : onlyM vecs (nextIssuable l).
Proof. induction l; intros; cbn [nextIssuable]; only_tac. Qed.
Lemma vecs_couldIssue e f l : onlyM vecs (couldIssue e f l).
Proof. induction l; intros; cbn [couldIssue]; only_tac. Qed.
#[local] Hint Resolve vecs_killInput vecs_nextIssuable vecs_couldIssue : only.
Lemma vecs_advanceUnits e l ks : onlyM vecs (advanceUnits e l ks).
Proof. induction ks; intros; cbn [advanceUnits]; only_tac. Qed.
Lemma vecs_headMightCommit l b : onlyM vecs (headMightCommit l b).
Proof. revert b. induction l; intros; cbn [headMightCommit]; only_tac. Qed.
#[local] Hint Resolve vecs_advanceUnits vecs_headMightCommit : only.
Lemma vecs_checkInterrupts e : onlyM vecs (checkInterrupts e).
Proof. only_tac. Qed.
Lemma vecs_commitAndIssue e b : onlyM vecs (commitAndIssue e b).
Proof. only_tac. Qed.
Lemma vecs_advanceAndWake e k b : onlyM vecs (advanceAndWake e k b).
Proof. only_tac. Qed.
#[local] Hint Resolve vecs_checkInterrupts vecs_commitAndIssue vecs_advanceAndWake : only.
Lemma vecs_event ev : onlyM vecs (x_event ev).
Proof. unfold x_event. destruct ev; only_tac. Qed.
End executeVectors.

(** ** The pipeline *)

Section pipeline.
Context `{I : Isa} {TS : ThreadSem I} {DC : Decoder I}.
Implicit Types (p : Pipeline).

Record pvecs p p' : Prop := {
  pw_execute : vecs (execute p) (execute p');
  pw_decoders : length (f2_decoders (fetch2 p')) = length (f2_decoders (fetch2 p));
}.

#[export] Instance pvecs_preorder : PreOrder pvecs.
Proof. split; [by intros p; split|]. intros p p1 p2 [] []. split; [by etrans|congruence]. Qed.

Lemma pvecs_same p p' : execute p' = execute p → fetch2 p' = fetch2 p → pvecs p p'.
Proof. intros H1 H2. split; by rewrite ?H1, ?H2. Qed.

Lemma pvecs_signals stage awake active p p' : signals stage awake active p = Ok p' → pvecs p p'.
Proof.
  unfold signals. intros (p1 & H1 & E)%bind_Ok. trans p1.
  - destruct awake; [|by injection H1 as <-]. apply bind_Ok in H1 as (ar & _ & [= <-]). by apply pvecs_same.
  - destruct active; [|by injection E as <-]. apply bind_Ok in E as (ar & _ & [= <-]). by apply pvecs_same.
Qed.

Lemma pvecs_fromExecute x p p' : vecs (execute p) x → fromExecute x p = Ok p' → pvecs p p'.
Proof.
  unfold fromExecute. intros Hx E%pvecs_signals. etrans; [|exact E]. split; [|done]. etrans; [exact Hx|]. by split.
Qed.

Lemma pvecs_fromFetch1 f p p' : fromFetch1 f p = Ok p' → pvecs p p'.
Proof. unfold fromFetch1. intros E%pvecs_signals. etrans; [|exact E]. by apply pvecs_same. Qed.

Lemma Fetch2_decoders predict policy n shuffled (s s' : Fetch2) (io io' : Fetch2Io) pred cmds :
  Fetch2_evaluate predict policy n shuffled s io = Ok (s', io', pred, cmds) →
  length (f2_decoders s') = length (f2_decoders s).
Proof.
  intros E. unfold Fetch2_evaluate in E. cbn zeta in E.
  apply bind_Ok in E as (bufs1 & H1 & E). apply bind_Ok in E as ([] & _ & E).
  apply bind_Ok in E as ([bufs2 infos2] & _ & E). apply bind_Ok in E as ([bufs3 infos3] & _ & E).
  apply bind_Ok in E as (sched & _ & E). apply bind_Ok in E as ([[[[bufs4 infos4] decs] out1] pr] & Hpk & E).
  apply bind_Ok in E as ([[out2 ar] next'] & _ & E). apply bind_Ok in E as ([bufs5 x'] & _ & [= <- _ _ _]). cbn.
  destruct sched; [|by injection Hpk as _ _ <- _ _]. unfold f2_packThread in Hpk.
  do 4 apply bind_Ok in Hpk as (? & _ & Hpk). apply bind_Ok in Hpk as ([[[[b1 i1] d1] o1] p1] & _ & Hpk).
  do 2 apply bind_Ok in Hpk as (? & _ & Hpk). apply bind_Ok in Hpk as (? & Hd & [= _ _ <- _ _]). by eapply vset_length.
Qed.

Lemma pvecs_evaluate icache e p p' cmds d : Pipeline_evaluate icache e p = Ok (p', cmds, d) → pvecs p p'.
Proof.
  unfold Pipeline_evaluate. intros (p1 & H1 & E)%bind_Ok. apply bind_Ok in E as (p2 & H2 & E).
  apply bind_Ok in E as (p3 & H3 & E). apply bind_Ok in E as ([p4 cs] & H4 & E). apply bind_Ok in E as (p5 & H5 & E).
  apply bind_Ok in E as (p6 & H6 & E). apply bind_Ok in E as (p7 & H7 & E). apply bind_Ok in E as ([p8 dn] & H8 & [= <- _ _]).
  trans p1; [|trans p2; [|trans p3; [|trans p4; [|trans p5; [|trans p6; [|trans p7]]]]]].
  - unfold evalExecute in H1. apply bind_Ok in H1 as (inp & _ & H1). apply bind_Ok in H1 as ([b x] & Hx & H1).
    apply bind_Ok in H1 as (l & _ & H1). apply vecs_event in Hx.
    apply pvecs_fromExecute in H1; [|cbn; reflexivity]. etrans; [|exact H1]. by split.
  - unfold evalDummy in H2. do 2 apply bind_Ok in H2 as (? & _ & H2). apply bind_Ok in H2 as ([s io] & _ & H2).
    apply bind_Ok in H2 as (l & _ & [= <-]). by split; [split|].
  - unfold evalDecode in H3. do 2 apply bind_Ok in H3 as (? & _ & H3). apply bind_Ok in H3 as ([s io] & _ & H3).
    apply bind_Ok in H3 as (l & _ & [= <-]). by apply pvecs_same.
  - unfold evalFetch2 in H4. do 3 apply bind_Ok in H4 as (? & _ & H4). apply bind_Ok in H4 as ([[[s io] pred] cs'] & Hs & H4).
    do 3 apply bind_Ok in H4 as (? & _ & H4). injection H4 as <- _. split; [done|]. by eapply Fetch2_decoders.
  - unfold evalFetch1 in H5. do 3 apply bind_Ok in H5 as (? & _ & H5). apply bind_Ok in H5 as ([res f] & _ & H5).
    apply bind_Ok in H5 as (l & _ & H5). apply pvecs_fromFetch1 in H5. etrans; [|exact H5]. by split; [split|].
  - unfold evalLatches in H6. do 7 apply bind_Ok in H6 as (? & _ & H6). injection H6 as <-. by apply pvecs_same.
  - unfold evalIdle in H7. destruct (allow_idling p6); [|by injection H7 as <-]. apply bind_Ok in H7 as (ar & _ & [= <-]).
    by apply pvecs_same.
  - apply evalDrain_cases in H8. destruct dn; [destruct H8 as [_ ->]|subst p8]; by apply pvecs_same.
Qed.

Lemma pvecs_wakeupFetch p tid p' : Pipeline_wakeupFetch p tid = Ok p' → pvecs p p'.
Proof.
  unfold Pipeline_wakeupFetch. intros (tc & _ & E)%bind_Ok. apply bind_Ok in E as ([u f] & _ & E). by eapply pvecs_fromFetch1.
Qed.

Lemma pvecs_memEvent ev p p' : memEvent ev p = Ok p' → pvecs p p'.
Proof. unfold memEvent. intros ([b x] & Hx%vecs_event & E)%bind_Ok. by eapply pvecs_fromExecute. Qed.

Lemma vecs_setContext tid (tc : TC TS) : onlyM vecs (setContext tid tc).
Proof. only_tac. Qed.

Lemma pvecs_event icache p ev p' : pl_event icache p ev = Ok p' → pvecs p p'.
Proof.
  intros E. destruct ev; cbn [pl_event] in E; try (by eapply pvecs_memEvent);
    try (apply bind_Ok in E as ([u f1] & _ & E); by eapply pvecs_fromFetch1).
  - destruct (running p); [|by injection E as <-]. apply bind_Ok in E as ([[p2 cs] d] & Ev & [= <-]). by eapply pvecs_evaluate.
  - apply bind_Ok in E as ([p1 b] & E & [= <-]). unfold Pipeline_drain in E. apply bind_Ok in E as ([r x] & Hx & E).
    apply bind_Ok in E as (p2 & H2 & E). apply bind_Ok in E as (d & _ & [= <- _]).
    assert (x_event XDrain (execute p) = Ok (BranchData0, x)) as Hx'%vecs_event by (cbn [x_event]; unfold sbind; by rewrite Hx).
    etrans; [by eapply pvecs_fromExecute|]. by apply pvecs_same.
  - unfold Pipeline_drainResume in E. apply bind_Ok in E as (p1 & H1 & E). apply bind_Ok in E as ([u x] & Hx & E).
    assert (x_event XResume (execute p1) = Ok (BranchData0, x)) as Hx'%vecs_event by (cbn [x_event]; unfold sbind; by rewrite Hx).
    trans p1; [|by eapply pvecs_fromExecute]. revert H1. clear. generalize (zrange 0 (pl_numThreads p - 1)) as l.
    intros l. revert p. induction l as [|t l IH]; intros p; cbn; [by intros [= <-]|].
    intros (p2 & H2%pvecs_wakeupFetch & H)%bind_Ok. etrans; [exact H2|by apply IH].
  - unfold cpu_wakeupOnEvent in E. apply bind_Ok in E as (ar & _ & [= <-]). by apply pvecs_same.
  - by eapply pvecs_wakeupFetch.
  - apply bind_Ok in E as ([u x] & Hx%vecs_setContext & [= <-]). by split.
Qed.

(** no history changes the lengths *)
Lemma pvecs_run icache es p p' : pl_run icache es p = Ok p' → pvecs p p'.
Proof.
  unfold pl_run. revert p. induction es as [|ev es IH]; intros p; cbn; [by intros [= <-]|].
  intros (p1 & H1%pvecs_event & E)%bind_Ok. etrans; [exact H1|by apply IH].
Qed.
End pipeline.
