(* ===== verification/PipelineOrder.v ===== *)
(** * Program order through the pipeline

    What reaches Execute, and what Execute holds, is an in-order selection of
    the micro-op expansion of what Fetch2 has put out.  The stages' own
    refinement theorems are put together through the latches between them. *)
From stdpp Require Import gmap.
From S2P Require Import Prelude TimeBuf Buffers Activity LVPT PipeData Cpu Repack Decode ExecuteDummy RepackPartial.
From S2P Require Import Fetch1 Fetch1Inv Fetch1Stage Fetch1History Fetch2 Fetch2Stage LsqRequest Lsq Runs Execute.
From S2P Require Import ExecuteCommit ExecuteIssue ExecuteFlow ExecuteStage ExecuteHistory Pipeline PipelineParts PipelineInv PipelineProps PipelineVectors.

(** ** A repacking stage *)

Section stage.
Context `{I : Isa} {Info M : Type} (ops : RepackOps Info).
Context (go : Info → MyMinorDynInst I → Info * MyMinorDynInst I) (abs : Info → M) (sp : Transducer M).
Context (mid : M → bool) (iok : Info → Prop).
Context `{ROK : !RepackOk (totalOps ops go) abs sp mid (λ _, True) iok} (n : Z) (Hn : 0 < n).
Notation DynInst := (MyMinorDynInst I).
Implicit Types (s : Stage Info) (io : StageIo) (d : ForwardInstData I).

Definition sound s : Prop := stage_wf (totalOps ops go) abs mid (λ _, True) iok n s.

(** a bundle between stages *)
Definition fits d : Prop := narrow d ∧ (isBubble d = true ∨ 0 ≤ instsThreadId d < n).

(** of the stream [l] of thread [t] the stage has made [os] *)
Definition worked s (t : Z) (m0 : M) (l os : list DynInst) : Prop :=
  ∀ b i, vget (inputBuffer s) t = Ok b → vget (stageInfo s) t = Ok i →
    sp_take sp (length os) m0 l = (os, abs i, pend b (inputIndex ops i)).

Lemma stage_step stages L stageId policy shuffled s io s' io' :
  sound s → fits (inp io) → fits (Repack.out io) → isBubble (Repack.out io) = true → Z.of_nat (length (nextStageReserve io)) = n →
  ar_wf stages L (activityRecorder io) → 0 ≤ stageId < stages → stages < 2 ^ 29 → 0 ≤ L < 2 ^ 29 →
  policy_ok n policy shuffled → Repack_evaluate ops stageId policy n shuffled s io = Ok (s', io') →
  sound s' ∧ fits (Repack.out io')
  ∧ ∀ t m0 l os, worked s t m0 l os →
      worked s' t m0 (l ++ arrivals (inp io) t) (os ++ arrivals (Repack.out io') t).
Proof.
  intros Hs [Hw Hd] Ho Hout Hnx Har Hst Hsts HL Hpol E. apply (Repack_total ops go) in E.
  destruct (Repack_evaluate_Ok (totalOps ops go) abs sp mid (λ _, True) iok n Hn stages L stageId policy shuffled s io)
    as (s1 & io1 & sched & outs & E1 & Hs1 & _ & _ & _ & _ & Hth & Hco & HW & Hnb); [done| |done|].
  { split; try done. destruct (isBubble (inp io)) eqn:Hb; [by left|]. destruct Hd as [?|Ht]; [congruence|].
    right. split; [done|]. split; [done|unfold narrow, MAX_FORWARD_INSTS in *; lia|done]. }
  rewrite E in E1. injection E1 as <- <-. split; [done|]. split.
  - destruct outs as [|o outs]; cbn [cycle_out] in Hco; [by destruct Hco as [-> _]|].
    destruct Hco as (t & nb & _ & Hg%vget_bound & _ & _ & ->). split; [|right; cbn; lia].
    pose proof (sw_width _ _ _ _ _ _ _ Hs). unfold narrow, width. cbn [insts].
    rewrite length_app, length_replicate. unfold MAX_FORWARD_INSTS in *. lia.
  - intros t m0 l os Hwk b' i' Hb' Hi'. destruct (Hth t b' i' Hb' Hi') as (b & i & Hb & Hi & Hsp).
    rewrite <- (cycle_out_arrivals _ _ _ _ _ t Hco Hout Hnb) in Hsp. specialize (Hwk b i Hb Hi).
    rewrite length_app. eapply sp_take_app; [|done|exact Hsp]. by apply sp_take_more.
Qed.

(** a slot is reserved in the stage's buffers *)
Definition withBuffers bufs s : Stage Info :=
  mkStage (outputWidth s) (processMoreThanOneInput s) bufs (stageInfo s) (threadPriority s).

Lemma sameLines_contents {T} (bufs bufs' : list (InputBuffer T)) t b' : sameLines bufs bufs' →
  vget bufs' t = Ok b' → ∃ b, vget bufs t = Ok b ∧ contents b' = contents b ∧ elementPtr b' = elementPtr b.
Proof.
  intros [_ Hs] (b & Hb & Hq & He)%Hs. exists b. split_and!; try done. unfold contents. by rewrite Hq, He.
Qed.

Lemma sound_same s bufs : sameLines (inputBuffer s) bufs → sound s → sound (withBuffers bufs s).
Proof.
  intros Hs [Hw Hb Hi Hp Ht]. pose proof Hs as [Hl _]. split; cbn; [done|congruence|done|..].
  - intros t b' (b & Hg & _ & He)%(sameLines_contents _ _ _ _ Hs). rewrite He. by eapply Hp.
  - intros t b' i Hb' Hi'. destruct Hs as [_ Hs]. destruct (Hs t b' Hb') as (b & Hg & Hq & He).
    assert (contents b' = contents b) as Hc by (unfold contents; by rewrite Hq, He).
    destruct (Ht t b i Hg Hi') as [H1 H2 H3 H4]. split; [by rewrite He, Hq|by rewrite Hc| |done].
    unfold pos_ok in *. by rewrite Hc.
Qed.

Lemma worked_same s bufs t m0 l os : sameLines (inputBuffer s) bufs → worked s t m0 l os →
  worked (withBuffers bufs s) t m0 l os.
Proof.
  intros Hs Hw b' i (b & Hg & Hc & _)%(sameLines_contents _ _ _ _ Hs) Hi. specialize (Hw b i Hg Hi).
  unfold pend, Repack.slots in *. by rewrite Hc.
Qed.
End stage.

(** ** A latch with bundles *)

Section latch.
Context `{I : Isa}.
Notation Insts := (ForwardInstData I).
Implicit Types (l : Latch Insts).

(** the instructions of thread [t] that are on their way, the oldest first *)
Definition flowing (c : bool) l (t : Z) : list (MyMinorDynInst I) :=
  mjoin ((λ d, arrivals d t) <$> reverse (way noInsts c l)).

Lemma arrivals_bubble (d : Insts) t : isBubble d = true → arrivals d t = [].
Proof. intros Hd. unfold arrivals. by rewrite Hd. Qed.

Lemma way_split l x : latch_wf l → Latch_output l = Ok x → way noInsts false l = way noInsts true l ++ [x].
Proof.
  intros Hwf Ho. pose proof (line_last noInsts l x Hwf Ho) as Hl. unfold way.
  apply last_Some in Hl as [r ->]. by rewrite removelast_app, app_nil_r by done.
Qed.

Lemma flowing_read l x t : latch_wf l → Latch_output l = Ok x → flowing false l t = arrivals x t ++ flowing true l t.
Proof. intros Hwf Ho. unfold flowing. by rewrite (way_split l x Hwf Ho), reverse_app. Qed.

Lemma way_written l l' x : latch_wf l → 1 ≤ delay l → Latch_write l x = Ok l' →
  ∃ y r, Latch_input l = Ok y ∧ way noInsts true l = y :: r ∧ way noInsts true l' = x :: r.
Proof.
  intros Hwf Hd Hw. destruct (Latch_write_Ok noInsts l x Hwf) as (l1 & Hw1 & _ & _ & Hl). rewrite Hw in Hw1.
  injection Hw1 as <-. destruct (Latch_input_Ok noInsts l Hwf) as (y & Hiy & H0).
  unfold way. rewrite Hl. pose proof (latch_line_length noInsts l Hwf) as Hlen.
  destruct (latch_line noInsts l) as [|z [|z' r]]; [done|cbn in Hlen; lia|]. injection H0 as ->.
  exists y, (removelast (z' :: r)). done.
Qed.

Lemma flowing_write l l' x t : latch_wf l → 1 ≤ delay l → (∀ y, Latch_input l = Ok y → isBubble y = true) →
  Latch_write l x = Ok l' → flowing true l' t = flowing true l t ++ arrivals x t.
Proof.
  intros Hwf Hd Hy Hw. destruct (way_written l l' x Hwf Hd Hw) as (y & r & Hi & Hl & Hl').
  unfold flowing. rewrite Hl, Hl', !reverse_cons, !fmap_app, !join_app. cbn.
  rewrite (arrivals_bubble y) by auto. by rewrite !app_nil_r.
Qed.

Lemma way_stepped l l' : latch_wf l → Latch_evaluate noInsts l = Ok l' → way noInsts false l' = noInsts :: way noInsts true l.
Proof.
  intros Hwf Hw. destruct (Latch_evaluate_Ok noInsts l Hwf) as (l1 & Hw1 & _ & _ & Hl). rewrite Hw in Hw1.
  injection Hw1 as <-. unfold way. by rewrite Hl.
Qed.

Lemma flowing_step l l' t : latch_wf l → Latch_evaluate noInsts l = Ok l' → flowing false l' t = flowing true l t.
Proof.
  intros Hwf Hw. unfold flowing. rewrite (way_stepped l l' Hwf Hw), reverse_cons, fmap_app, join_app. cbn.
  by rewrite (arrivals_bubble noInsts), !app_nil_r.
Qed.

(** what the reader of the latch finds *)
Definition readOff l (t : Z) : list (MyMinorDynInst I) :=
  match Latch_output l with Ok d => arrivals d t | Stop _ => [] end.

(** what was put into the latch in the last cycle *)
Definition sent l (t : Z) : list (MyMinorDynInst I) :=
  match latch_line noInsts l !! 1%nat with Some d => arrivals d t | None => [] end.

Lemma sent_written l l1 l' x t : latch_wf l → 1 ≤ delay l → Latch_write l x = Ok l1 →
  Latch_evaluate noInsts l1 = Ok l' → sent l' t = arrivals x t.
Proof.
  intros Hwf Hd Hw He. destruct (way_written l l1 x Hwf Hd Hw) as (y & r & _ & _ & Hl1).
  destruct (Latch_write_Ok noInsts l x Hwf) as (l2 & Hw2 & Hwf1 & _). rewrite Hw in Hw2. injection Hw2 as <-.
  pose proof (way_stepped l1 l' Hwf1 He) as Hl'. unfold sent. unfold way in Hl' at 1. by rewrite Hl', Hl1.
Qed.
End latch.

(** ** Execute between its events *)

Section execute.
Context `{I : Isa} {TS : ThreadSem I}.
Implicit Types (s : Execute).

(** flags, the load/store queue, thread contexts and reservations aside *)
Record xsame s s' : Prop := {
  xs_cfg : x_cfg s' = x_cfg s;
  xs_units : x_funcUnits s' = x_funcUnits s;
  xs_info : x_info s' = x_info s;
  xs_insts : x_insts s' = x_insts s;
  xs_next : x_nextInst s' = x_nextInst s;
  xs_branch : x_branch s' = x_branch s;
  xs_prio : interruptPriority s' = interruptPriority s;
  xs_threads : length (x_threads s') = length (x_threads s);
  xs_input : sameLines (x_inputBuffer s) (x_inputBuffer s');
}.

Lemma xsame_refl s : xsame s s.
Proof. split; try done. apply sameLines_refl. Qed.

Lemma xsame_waiting s s' t : xsame s s' → waiting s' t = waiting s t.
Proof.
  intros []. unfold waiting. rewrite xs_info0. destruct (vget (x_inputBuffer s') t) as [b'|] eqn:Eb.
  - destruct (sameLines_contents _ _ _ _ xs_input0 Eb) as (b & -> & Hc & _). by rewrite Hc.
  - destruct (vget (x_inputBuffer s) t) as [b|] eqn:E; [|done]. exfalso. apply vget_bound in E.
    destruct xs_input0 as [Hl _]. destruct (vget_lt (x_inputBuffer s') t) as (? & ?); [lia|]. congruence.
Qed.

Lemma xsame_flow s s' t : xsame s s' → flow t [] s s'.
Proof.
  intros Hx. apply flow_same; [|by apply xsame_waiting|]; destruct Hx; [by apply stay_same|].
  unfold flying. by rewrite xs_info0.
Qed.

Lemma xsame_ready s s' : xsame s s' → ready s → ready s'.
Proof.
  intros [] [[[Hu1 Hu2] [Hl Hx] Hp Hli Hi Ht] Hb Hpu]. split; [|congruence|].
  - split; rewrite ?xs_cfg0, ?xs_info0, ?xs_threads0, ?xs_prio0; try done; [split; by rewrite ?xs_units0, ?xs_cfg0|split].
    + intros t b' line (b & Hg & Hc & _)%(sameLines_contents _ _ _ _ xs_input0) Hline. rewrite Hc in Hline. by eapply Hl.
    + intros t b' i Hb' Hi'. destruct (sameLines_contents _ _ _ _ xs_input0 Hb') as (b & Hg & Hc & _).
      rewrite xs_info0 in Hi'. unfold firstWidth in *. rewrite Hc. by eapply (Hx t).
  - intros t b' (b & Hg & _ & He)%(sameLines_contents _ _ _ _ xs_input0). rewrite He. by eapply Hpu.
Qed.
End execute.

(** ** The pipeline *)

Section order.
Context `{I : Isa} {TS : ThreadSem I} {DC : Decoder I}.
Context (HI : noCostIsaOk) (q : PipelineParams) (Hq : pl_params q) (x0 : Execute).
Notation DynInst := (MyMinorDynInst I).
Notation n := (pp_numThreads q).
Notation at_ := (pl_at (pp_numThreads q) (longestDelay q) (fetch2InputBufferSize q) (decodeInputBufferSize q)
                   (executeDummyInputBufferSize q) (executeInputBufferSize q)).
Implicit Types (p : Pipeline) (F D U : Z → list DynInst).

(** a latch between stages, its elements are fit *)
Definition fitting (l : Latch (ForwardInstData I)) : Prop := Forall (fits n) (latch_line noInsts l).

(** [F], [D] and [U] are what Fetch2, Decode and ExecuteDummy have put out for
    the threads; [c2] to [c4] tell whether their readers have read in this cycle *)
Record ord (c2 c3 c4 : bool) p F D U : Prop := {
  or_decode : sound decodeOps decode_go decode_abs decode_mid decode_iok n (decoder p);
  or_dummy : sound dummyOps dummy_go e_execSeqNum (λ _, false) (λ _, True) n (executeDummy p);
  or_ready : ready (execute p);
  or_f2ToD : fitting (f2ToD p);
  or_dToE : fitting (dToE p);
  or_eToE : fitting (eToE p);
  or_D t : ∃ l, F t = l ++ flowing c2 (f2ToD p) t
    ∧ worked decodeOps decode_abs decode_sp (decoder p) t (None, firstExecSeqNum) l (D t);
  or_U t : ∃ l, D t = l ++ flowing c3 (dToE p) t
    ∧ worked dummyOps e_execSeqNum dummy_sp (executeDummy p) t firstExecSeqNum l (U t);
  or_X t : ∃ l, flow t l x0 (execute p) ∧ U t = List.filter nonBubble l ++ flowing c4 (eToE p) t;
}.

Lemma fitting_read l x : latch_wf l → Latch_output l = Ok x → fitting l → fits n x.
Proof.
  intros Hwf Ho Hf. pose proof (line_last noInsts l x Hwf Ho) as Hl. apply last_Some in Hl as [r Hr].
  unfold fitting in Hf. rewrite Hr in Hf. by apply Forall_app in Hf as [_ [? _]%Forall_cons].
Qed.

Lemma fitting_input l x : latch_wf l → Latch_input l = Ok x → fitting l → fits n x.
Proof.
  intros Hwf Ho Hf. destruct (Latch_input_Ok noInsts l Hwf) as (y & Hy & Hl). rewrite Ho in Hy. injection Hy as <-.
  unfold fitting in Hf. rewrite Forall_lookup in Hf. by eapply Hf.
Qed.

Lemma fitting_write l l' x : latch_wf l → Latch_write l x = Ok l' → fits n x → fitting l → fitting l'.
Proof.
  intros Hwf Hw Hx Hf. destruct (Latch_write_Ok noInsts l x Hwf) as (l1 & Hw1 & _ & _ & Hl). rewrite Hw in Hw1.
  injection Hw1 as <-. unfold fitting. rewrite Hl. by apply Forall_insert.
Qed.

Lemma fits_none : fits n (noInsts : ForwardInstData I).
Proof. split; [done|by left]. Qed.

Lemma fitting_step l l' : latch_wf l → Latch_evaluate noInsts l = Ok l' → fitting l → fitting l'.
Proof.
  intros Hwf Hw Hf. destruct (Latch_evaluate_Ok noInsts l Hwf) as (l1 & Hw1 & _ & _ & Hl). rewrite Hw in Hw1.
  injection Hw1 as <-. unfold fitting. rewrite Hl. unfold shift. constructor; [apply fits_none|].
  rewrite removelast_firstn_len. by apply Forall_take.
Qed.

(** what does not concern the order *)
Lemma ord_same c2 c3 c4 p p' F D U : decoder p' = decoder p → executeDummy p' = executeDummy p →
  f2ToD p' = f2ToD p → dToE p' = dToE p → eToE p' = eToE p → xsame (execute p) (execute p') →
  ord c2 c3 c4 p F D U → ord c2 c3 c4 p' F D U.
Proof.
  intros H1 H2 H3 H4 H5 Hx []. split; rewrite ?H1, ?H2, ?H3, ?H4, ?H5; try done; [by eapply xsame_ready|].
  intros t. destruct (or_X0 t) as (l & Hf & HU). exists l. split; [|done].
  rewrite <- (app_nil_r l). eapply flow_trans; [done|by apply xsame_flow].
Qed.

(** Execute takes an event *)
Lemma ord_event c2 c3 p ev b x F D U : x_event ev (execute p) = Ok (b, x) → event_ok ev →
  match ev with XCycle _ _ => False | _ => True end → ord c2 c3 false p F D U →
  ord c2 c3 false (up_execute x p) F D U.
Proof.
  intros E Hev Hno []. apply (runs_Ok _ _ _ _ _ (x_event_runs ev (execute p) HI Hev or_ready0)) in E as (Hr & Hf & _).
  split; cbn; try done. intros t. destruct (or_X0 t) as (l & Hfl & HU). exists l. split; [|done].
  rewrite <- (app_nil_r l). eapply flow_trans; [done|]. specialize (Hf t). by destruct ev.
Qed.

Lemma fedTo_arrivals t (d : ForwardInstData I) : List.filter nonBubble (fedTo t d) = arrivals d t.
Proof. unfold fedTo, arrivals. destruct (isBubble d); [done|]. cbn. by destruct (_ =? _). Qed.

(** signals leave the stages alone *)
Lemma frame_signals stage awake active p p' : signals stage awake active p = Ok p' →
  decoder p' = decoder p ∧ executeDummy p' = executeDummy p ∧ execute p' = execute p.
Proof.
  unfold signals. intros (p1 & H1 & E)%bind_Ok.
  assert (decoder p1 = decoder p ∧ executeDummy p1 = executeDummy p ∧ execute p1 = execute p) as (<- & <- & <-).
  { destruct awake; [|by injection H1 as <-]. unfold cpu_wakeupOnEvent in H1. by apply bind_Ok in H1 as (ar & _ & [= <-]). }
  destruct active; [|by injection E as <-]. unfold cpu_activity in E. by apply bind_Ok in E as (ar & _ & [= <-]).
Qed.

(** what the surroundings of a cycle promise *)
Record plenv_ok (e : PlEnv) : Prop := {
  pv_execute : env_ok (pe_execute e);
  pv_dummy : Forall (λ t, 0 ≤ t < n) (pe_shuffledDummy e);
  pv_decode : Forall (λ t, 0 ≤ t < n) (pe_shuffledDecode e);
}.

Lemma range_policy policy l : Forall (λ t, 0 ≤ t < n) l → policy_ok n policy l.
Proof. by destruct policy. Qed.

Lemma execute_ord c1 c2 c3 e p p' F D U : at_ c1 c2 c3 false p → plenv_ok e → evalExecute e p = Ok p' →
  ord c2 c3 false p F D U →
  ord c2 c3 true p' F D U ∧ f2ToD p' = f2ToD p ∧ dToE p' = dToE p ∧ eToE p' = eToE p.
Proof.
  intros Hat He E Ho. unfold evalExecute in E. apply bind_Ok in E as (inp & Hinp & E).
  apply bind_Ok in E as ([branch x] & Hx & E). apply bind_Ok in E as (l & _ & E).
  unfold fromExecute in E. apply (signals_clock (longestDelay q)) in E as (ar & r & -> & _ & _); [|apply Hq|done|apply Hat].
  split; [|done]. destruct Ho. pose proof (lk_wf _ _ _ _ (at_eToE _ _ _ _ _ _ _ _ _ _ _ Hat)) as Hwf.
  assert (event_ok (XCycle (pe_execute e) inp)) as Hev.
  { split; [apply He|]. by apply (fitting_read (eToE p)). }
  apply (runs_Ok _ _ _ _ _ (x_event_runs _ (execute p) HI Hev or_ready0)) in Hx as (Hr & Hf & _).
  eapply (ord_same _ _ _ (mkPipeline (allow_idling p) (f1ToF2 p) (f2ToF1 p) (f2ToD p) (dToE p) (eToE p) l x
     (executeDummy p) (decoder p) (fetch2 p) (fetch1 p) (recorder p) (needToSignalDrained p) (running p))); try done.
  { split; try done. apply sameLines_refl. }
  split; cbn; try done. intros t. destruct (or_X0 t) as (fed & Hfl & HU). exists (fed ++ fedTo t inp). split.
  - by eapply flow_trans.
  - rewrite HU, (flowing_read (eToE p) inp) by done. rewrite List.filter_app, fedTo_arrivals. by rewrite app_assoc.
Qed.

Lemma dummy_ord c1 c2 e p p' F D U : at_ c1 c2 false true p → plenv_ok e → evalDummy e p = Ok p' →
  ord c2 false true p F D U →
  ∃ d, Latch_write (eToE p) d = Ok (eToE p') ∧ f2ToD p' = f2ToD p ∧ dToE p' = dToE p
    ∧ (∀ t, flowing true (eToE p') t = flowing true (eToE p) t ++ arrivals d t)
    ∧ ord c2 true true p' F D (λ t, U t ++ arrivals d t).
Proof.
  intros Hat He E Ho. unfold evalDummy in E. apply bind_Ok in E as (inp & Hinp & E).
  apply bind_Ok in E as (out & Hout & E). apply bind_Ok in E as ([s io] & Hs & E).
  apply bind_Ok in E as (l & Hl & [= <-]). exists (Repack.out io). split; [done|]. split; [done|]. split; [done|].
  destruct Hat, Ho. rewrite at_threads in Hs. pose proof Hq as [Hn _ _ HL _ _ _ _ _].
  pose proof Hs as Hs'. eapply (Repack_handed _ _ n Num_StageId (longestDelay q)) in Hs' as ([_ _ _ _ Hsame _ _] & Hb & _);
    try done; [|apply at_X]. cbn in Hb, Hsame.
  apply (stage_step dummyOps dummy_go e_execSeqNum dummy_sp (λ _, false) (λ _, True) n Hn Num_StageId (longestDelay q))
    in Hs as (Hsd & Hfit & Hw); try done.
  2: by apply (fitting_read (dToE p)); [apply at_dToE|..].
  2: by apply (fitting_input (eToE p)); [apply at_eToE|..].
  2: apply at_X.
  2: apply range_policy, He.
  cbn in Hw.
  assert (∀ t, flowing true l t = flowing true (eToE p) t ++ arrivals (Repack.out io) t) as Hfw.
  { intros t. apply flowing_write; try done; [apply at_eToE..|]. intros y Hy. congruence. }
  split; [done|]. split; cbn; try done.
  - eapply xsame_ready; [|done]. by split.
  - by apply (fitting_write (eToE p) l (Repack.out io)); [apply at_eToE|..].
  - intros t. destruct (or_U0 t) as (li & HD & Hwk). exists (li ++ arrivals inp t). split.
    + rewrite HD, (flowing_read (dToE p) inp) by (done || apply at_dToE). by rewrite app_assoc.
    + by apply Hw.
  - intros t. destruct (or_X0 t) as (fed & Hfl & HU). exists fed. split.
    + rewrite <- (app_nil_r fed). eapply flow_trans; [done|]. apply xsame_flow. by split.
    + by rewrite HU, Hfw, app_assoc.
Qed.

Lemma decode_ord c1 e p p' F D U : at_ c1 false true true p → plenv_ok e → evalDecode e p = Ok p' →
  ord false true true p F D U →
  ∃ d, Latch_write (dToE p) d = Ok (dToE p') ∧ f2ToD p' = f2ToD p ∧ eToE p' = eToE p
    ∧ ord true true true p' F (λ t, D t ++ arrivals d t) U.
Proof.
  intros Hat He E Ho. unfold evalDecode in E. apply bind_Ok in E as (inp & Hinp & E).
  apply bind_Ok in E as (out & Hout & E). apply bind_Ok in E as ([s io] & Hs & E).
  apply bind_Ok in E as (l & Hl & [= <-]). exists (Repack.out io). split; [done|]. split; [done|]. split; [done|].
  destruct Hat, Ho. rewrite at_threads in Hs. pose proof Hq as [Hn _ _ HL _ _ _ _ _].
  pose proof Hs as Hs'. eapply (Repack_handed _ _ n Num_StageId (longestDelay q)) in Hs' as ([_ _ _ _ Hsame _ _] & Hb & _);
    try done; [|apply at_U]. cbn in Hb, Hsame.
  apply (stage_step decodeOps decode_go decode_abs decode_sp decode_mid decode_iok n Hn Num_StageId (longestDelay q))
    in Hs as (Hsd & Hfit & Hw); try done.
  2: by apply (fitting_read (f2ToD p)); [apply at_f2ToD|..].
  2: by apply (fitting_input (dToE p)); [apply at_dToE|..].
  2: apply at_U.
  2: apply range_policy, He.
  cbn in Hw. split; cbn; try done.
  - by apply sound_same.
  - by apply (fitting_write (dToE p) l (Repack.out io)); [apply at_dToE|..].
  - intros t. destruct (or_D0 t) as (li & HF & Hwk). exists (li ++ arrivals inp t). split.
    + rewrite HF, (flowing_read (f2ToD p) inp) by (done || apply at_f2ToD). by rewrite app_assoc.
    + by apply Hw.
  - intros t. destruct (or_U0 t) as (li & HD & Hwk). exists li. split; [|by apply worked_same].
    rewrite HD, (flowing_write (dToE p) l (Repack.out io)), app_assoc; try done; [apply at_dToE..|]. intros y Hy. congruence.
Qed.

Lemma fetch2_ord e p p' cmds F D U : at_ false true true true p → evalFetch2 e p = Ok (p', cmds) →
  ord true true true p F D U →
  ∃ d, Latch_write (f2ToD p) d = Ok (f2ToD p') ∧ dToE p' = dToE p ∧ eToE p' = eToE p
    ∧ ord true true true p' (λ t, F t ++ arrivals d t) D U.
Proof.
  intros Hat E Ho. unfold evalFetch2 in E. apply bind_Ok in E as (inp & Hinp & E).
  apply bind_Ok in E as (branch & Hbr & E). apply bind_Ok in E as (out & Hout & E).
  apply bind_Ok in E as ([[[s io] pred] cs] & Hs & E). do 2 apply bind_Ok in E as (? & _ & E).
  apply bind_Ok in E as (l & Hl & [= <- _]). exists (f2_out io). split; [done|]. split; [done|]. split; [done|].
  destruct Hat, Ho. rewrite at_threads in Hs. pose proof Hq as [Hn _ _ HL _ _ _ _ _].
  pose proof (Fetch2_narrow _ _ _ _ _ _ _ _ _ _ Hs) as Hnarrow.
  eapply (Fetch2_handed n Num_StageId (longestDelay q)) in Hs as ([_ _ _ _ Hsame Hth _] & Hb & _); try done; [|apply at_D].
  cbn in Hb, Hsame, Hth, Hnarrow.
  assert (fits n (f2_out io)) as Hfit.
  { split; [by apply Hnarrow, (fitting_input (f2ToD p)); [apply at_f2ToD|..]|].
    destruct (isBubble (f2_out io)); [by left|right]. specialize (Hth eq_refl). rewrite (st_length _ _ _ _ at_D) in Hth. done. }
  split; cbn; try done.
  - by apply sound_same.
  - by apply (fitting_write (f2ToD p) l (f2_out io)); [apply at_f2ToD|..].
  - intros t. destruct (or_D0 t) as (li & HF & Hwk). exists li. split; [|by apply worked_same].
    rewrite HF, (flowing_write (f2ToD p) l (f2_out io)), app_assoc; try done; [apply at_f2ToD..|]. intros y Hy. congruence.
Qed.

Lemma fetch1_ord icache e p p' F D U : evalFetch1 icache e p = Ok p' → ord true true true p F D U →
  ord true true true p' F D U ∧ f2ToD p' = f2ToD p ∧ dToE p' = dToE p ∧ eToE p' = eToE p.
Proof.
  intros E Ho. unfold evalFetch1 in E. do 3 apply bind_Ok in E as (? & _ & E). apply bind_Ok in E as ([res f] & _ & E).
  apply bind_Ok in E as (l & _ & E). pose proof E as [_ H1 H2 H3 _ _]%calm_fromFetch1. cbn in H1, H2, H3.
  split; [|done]. unfold fromFetch1 in E. apply frame_signals in E as (E1 & E2 & E3).
  eapply ord_same; [..|exact Ho]; try done. rewrite E3. apply xsame_refl.
Qed.

Lemma latches_ord p p' F D U : at_ true true true true p → evalLatches p = Ok p' → ord true true true p F D U →
  ord false false false p' F D U ∧ Latch_evaluate noInsts (f2ToD p) = Ok (f2ToD p')
  ∧ Latch_evaluate noInsts (dToE p) = Ok (dToE p') ∧ Latch_evaluate noInsts (eToE p) = Ok (eToE p').
Proof.
  intros Hat E Ho. unfold evalLatches in E. apply bind_Ok in E as (l1 & _ & E). apply bind_Ok in E as (l2 & _ & E).
  apply bind_Ok in E as (l3 & H3 & E). apply bind_Ok in E as (l4 & H4 & E). apply bind_Ok in E as (l5 & H5 & E).
  apply bind_Ok in E as (l6 & _ & E). apply bind_Ok in E as (ar & _ & [= <-]).
  destruct Hat as [_ _ _ [W3 _ _] [W4 _ _] [W5 _ _] _ _ _ _ _ _ _ _ _ _ _], Ho. split; [|done].
  split; cbn; try done; try (by eapply fitting_step; [|eassumption|]).
  - intros t. by rewrite (flowing_step (f2ToD p)).
  - intros t. by rewrite (flowing_step (dToE p)).
  - intros t. by rewrite (flowing_step (eToE p)).
Qed.

Definition more (F G : Z → list DynInst) : Z → list DynInst := λ t, F t ++ G t.

Lemma ord_ext c2 c3 c4 p F D U F' D' U' : (∀ t, F' t = F t) → (∀ t, D' t = D t) → (∀ t, U' t = U t) →
  ord c2 c3 c4 p F D U → ord c2 c3 c4 p F' D' U'.
Proof.
  intros HF HD HU []. split; try done; intros t; rewrite ?HF, ?HD, ?HU; auto.
Qed.

(** idling and the end of a drain *)
Lemma ending_frame p6 p7 p8 dn : evalIdle p6 = Ok p7 → evalDrain p7 = Ok (p8, dn) →
  f2ToD p8 = f2ToD p6 ∧ dToE p8 = dToE p6 ∧ eToE p8 = eToE p6 ∧ decoder p8 = decoder p6
  ∧ executeDummy p8 = executeDummy p6 ∧ execute p8 = execute p6.
Proof.
  intros H7 H8. apply evalDrain_cases in H8.
  assert (∃ ar r, p7 = up_clock ar r p6) as (ar & r & ->).
  { unfold evalIdle in H7. destruct (allow_idling p6); [|injection H7 as <-; exists (recorder p6), (running p6); by destruct p6].
    apply bind_Ok in H7 as (ar & _ & [= <-]). by eexists _, _. }
  destruct dn; [destruct H8 as [_ ->]|subst p8]; done.
Qed.

(** a cycle *)
Lemma evaluate_ord icache e p p' cmds d F D U : pl_inv q p → plenv_ok e →
  Pipeline_evaluate icache e p = Ok (p', cmds, d) → ord false false false p F D U →
  ord false false false p' (more F (sent (f2ToD p'))) (more D (sent (dToE p'))) (more U (sent (eToE p')))
  ∧ ∀ t, flowing false (eToE p) t ++ sent (eToE p') t = readOff (eToE p) t ++ flowing false (eToE p') t.
Proof.
  intros H0 He E Ho. pose proof Hq as [Hn _ _ HL _ HF HD HU HX]. unfold Pipeline_evaluate in E.
  apply bind_Ok in E as (p1 & H1 & E). apply bind_Ok in E as (p2 & H2 & E). apply bind_Ok in E as (p3 & H3 & E).
  apply bind_Ok in E as ([p4 cs] & H4 & E). apply bind_Ok in E as (p5 & H5 & E). apply bind_Ok in E as (p6 & H6 & E).
  apply bind_Ok in E as (p7 & H7 & E). apply bind_Ok in E as ([p8 dn] & H8 & [= <- _ _]).
  assert (at_ false false false true p1) as A1 by (by eapply execute_at).
  assert (at_ false false true true p2) as A2 by (by eapply dummy_at).
  assert (at_ false true true true p3) as A3 by (by eapply decode_at).
  assert (at_ true true true true p4) as A4 by (by eapply fetch2_at).
  assert (at_ true true true true p5) as A5 by (by eapply fetch1_at).
  destruct (execute_ord _ _ _ _ _ _ _ _ _ H0 He H1 Ho) as (O1 & F1 & D1 & X1).
  destruct (dummy_ord _ _ _ _ _ _ _ _ A1 He H2 O1) as (d2 & W2 & F2 & D2 & FW & O2).
  destruct (decode_ord _ _ _ _ _ _ _ A2 He H3 O2) as (d3 & W3 & F3 & X3 & O3).
  destruct (fetch2_ord _ _ _ _ _ _ _ A3 H4 O3) as (d4 & W4 & D4 & X4 & O4).
  destruct (fetch1_ord _ _ _ _ _ _ _ H5 O4) as (O5 & F5 & D5 & X5).
  destruct (latches_ord _ _ _ _ _ A5 H6 O5) as (O6 & F6 & D6 & X6).
  destruct (ending_frame _ _ _ _ H7 H8) as (G1 & G2 & G3 & E1 & E2 & E3). rewrite G1, G2, G3.
  rewrite F5 in F6. rewrite D5, D4 in D6. rewrite X5, X4, X3 in X6.
  destruct A1, A2, A3.
  assert (∀ t, sent (eToE p6) t = arrivals d2 t) as HX6.
  { intros t. by apply (sent_written (eToE p1) (eToE p2)); [apply at_eToE|apply at_eToE|..]. }
  split.
  - apply (ord_same _ _ _ p6); try done; [rewrite E3; apply xsame_refl|].
    eapply ord_ext; [..|exact O6]; intros t; unfold more; f_equal; [..|apply HX6].
    + by apply (sent_written (f2ToD p3) (f2ToD p4)); [apply at_f2ToD1|apply at_f2ToD1|..].
    + by apply (sent_written (dToE p2) (dToE p3)); [apply at_dToE0|apply at_dToE0|..].
  - intros t. rewrite HX6, (flowing_step (eToE p2) (eToE p6)), FW, X1, app_assoc by (done || apply at_eToE0). f_equal.
    unfold evalExecute in H1. apply bind_Ok in H1 as (inp & Hinp & _). unfold readOff. rewrite Hinp.
    apply flowing_read; [|done]. rewrite <- X1. apply at_eToE.
Qed.

(** ** Between cycles *)

Lemma fromExecute_ord x p p' F D U : ord false false false (up_execute x p) F D U → fromExecute x p = Ok p' →
  ord false false false p' F D U.
Proof.
  intros Ho E. pose proof E as [_ C1 C2 C3 _ _]%calm_fromExecute. unfold fromExecute in E.
  apply frame_signals in E as (E1 & E2 & E3). eapply ord_same; [..|exact Ho]; try done.
  rewrite E3. split; try done. apply sameLines_refl.
Qed.

Lemma fromFetch1_ord f p p' F D U : ord false false false p F D U → fromFetch1 f p = Ok p' →
  ord false false false p' F D U.
Proof.
  intros Ho E. pose proof E as [_ C1 C2 C3 _ _]%calm_fromFetch1. unfold fromFetch1 in E.
  apply frame_signals in E as (E1 & E2 & E3). eapply ord_same; [..|exact Ho]; try done. rewrite E3. apply xsame_refl.
Qed.

Lemma memEvent_ord ev p p' F D U : match ev with XCycle _ _ => False | _ => True end → memEvent ev p = Ok p' →
  ord false false false p F D U → ord false false false p' F D U.
Proof.
  intros Hev E Ho. unfold memEvent in E. apply bind_Ok in E as ([b x] & Hx & E). eapply fromExecute_ord; [|done].
  eapply ord_event; [done| |done|done]. by destruct ev.
Qed.

Lemma wakeupFetch_ord p tid p' F D U : Pipeline_wakeupFetch p tid = Ok p' →
  ord false false false p F D U → ord false false false p' F D U.
Proof.
  unfold Pipeline_wakeupFetch. intros (tc & _ & E)%bind_Ok Ho. apply bind_Ok in E as ([u f] & _ & E).
  by eapply fromFetch1_ord.
Qed.

Lemma wakeups_ord l p p' F D U : mfold Pipeline_wakeupFetch p l = Ok p' →
  ord false false false p F D U → ord false false false p' F D U.
Proof.
  revert p. induction l as [|t l IH]; intros p; cbn; [by intros [= <-]|].
  intros (p1 & H1 & H2)%bind_Ok Ho. eapply IH; [done|]. by eapply wakeupFetch_ord.
Qed.

Lemma quiet_ord icache ev p p' F D U : match ev with PlCycle _ => False | _ => True end →
  pl_event icache p ev = Ok p' → ord false false false p F D U → ord false false false p' F D U.
Proof.
  intros Hev E Ho. destruct ev; try done; cbn [pl_event] in E; try (eapply memEvent_ord; [|exact E|done]; done);
    try (apply bind_Ok in E as ([u f1] & _ & E); by eapply fromFetch1_ord).
  - apply bind_Ok in E as ([p1 b] & E & [= <-]). unfold Pipeline_drain in E. apply bind_Ok in E as ([r x] & Hx & E).
    apply bind_Ok in E as (p2 & H2 & E). apply bind_Ok in E as (d & _ & [= <- _]).
    eapply (ord_same _ _ _ p2); try done; [apply xsame_refl|]. eapply fromExecute_ord; [|done].
    eapply (ord_event _ _ _ XDrain BranchData0); try done. cbn [x_event]. unfold sbind. by rewrite Hx.
  - unfold Pipeline_drainResume in E. apply bind_Ok in E as (p1 & H1 & E). apply bind_Ok in E as ([u x] & Hx & E).
    eapply fromExecute_ord; [|done]. eapply (ord_event _ _ _ XResume BranchData0); try done; [|by eapply wakeups_ord].
    cbn [x_event]. unfold sbind. by rewrite Hx.
  - unfold cpu_wakeupOnEvent in E. apply bind_Ok in E as (ar & _ & [= <-]).
    eapply ord_same; [..|exact Ho]; try done. apply xsame_refl.
  - by eapply wakeupFetch_ord.
  - apply bind_Ok in E as ([u x] & Hx & [= <-]). eapply ord_same; [..|exact Ho]; try done. unfold setContext in Hx.
    apply sbind_Ok in Hx as (? & ? & [= <- <-] & Hx). apply sbind_Ok in Hx as (l & s1 & Hl & [= _ <-]).
    unfold slift in Hl. apply bind_Ok in Hl as (l1 & Hl%vset_length & [= -> <-]). split; try done. apply sameLines_refl.
Qed.

(** what a stage has put into a latch over a history *)
Fixpoint putInto (link : Pipeline → Latch (ForwardInstData I)) (icache : Z → bool) (es : list PlEvent) p (t : Z)
  : list DynInst :=
  match es with
  | [] => []
  | ev :: es =>
      match pl_event icache p ev with
      | Ok p' =>
          match ev with PlCycle _ => if running p then sent (link p') t else [] | _ => [] end
          ++ putInto link icache es p' t
      | Stop _ => []
      end
  end.

(** what the reader of a latch has taken from it over a history *)
Fixpoint takenFrom (link : Pipeline → Latch (ForwardInstData I)) (icache : Z → bool) (es : list PlEvent) p (t : Z)
  : list DynInst :=
  match es with
  | [] => []
  | ev :: es =>
      match pl_event icache p ev with
      | Ok p' =>
          match ev with PlCycle _ => if running p then readOff (link p) t else [] | _ => [] end
          ++ takenFrom link icache es p' t
      | Stop _ => []
      end
  end.

Lemma quiet_link icache ev p p' : match ev with PlCycle _ => False | _ => True end →
  pl_event icache p ev = Ok p' → eToE p' = eToE p.
Proof.
  intros Hev E. destruct ev; try done; try (by eapply calm_event in E as []).
  cbn in E. apply bind_Ok in E as ([p1 b] & (p2 & [] & ->)%calm_drain & [= <-]). done.
Qed.

(** the cycles of a history have surroundings that keep their promises *)
Definition envs_ok (es : list PlEvent) : Prop :=
  Forall (λ ev, match ev with PlCycle e => plenv_ok e | _ => True end) es.

Lemma event_ord icache ev p p' F D U : pl_inv q p → match ev with PlCycle e => plenv_ok e | _ => True end →
  pl_event icache p ev = Ok p' → ord false false false p F D U →
  let put (link : Pipeline → Latch (ForwardInstData I)) t :=
    match ev with PlCycle _ => if running p then sent (link p') t else [] | _ => [] end in
  ord false false false p' (more F (put f2ToD)) (more D (put dToE)) (more U (put eToE))
  ∧ ∀ t, flowing false (eToE p) t ++ put eToE t
      = match ev with PlCycle _ => if running p then readOff (eToE p) t else [] | _ => [] end ++ flowing false (eToE p') t.
Proof.
  intros Hp Hev E Ho.
  assert (∀ F0 : Z → list DynInst, ∀ t, more F0 (λ _, []) t = F0 t) as H0 by (intros; unfold more; by rewrite app_nil_r).
  destruct ev as [e| | | | | | | | | | | |]; cbn zeta.
  2-13: split; [eapply ord_ext; [..|eapply quiet_ord; [|exact E|exact Ho]; done]; intros ?; apply H0|];
    apply quiet_link in E; [|done]; intros ?; by rewrite app_nil_r, E.
  cbn in E. destruct (running p); [apply bind_Ok in E as ([[p2 cs] d] & Ev & [= <-])|injection E as <-].
  - exact (evaluate_ord _ _ _ _ _ _ _ _ _ Hp Hev Ev Ho).
  - split; [eapply ord_ext; [..|exact Ho]; intros ?; apply H0|]. intros t. by rewrite app_nil_r.
Qed.

Lemma run_ord icache es p p' F D U : pl_inv q p → envs_ok es → pl_run icache es p = Ok p' →
  ord false false false p F D U →
  ord false false false p' (more F (putInto f2ToD icache es p)) (more D (putInto dToE icache es p))
    (more U (putInto eToE icache es p))
  ∧ ∀ t, flowing false (eToE p) t ++ putInto eToE icache es p t = takenFrom eToE icache es p t ++ flowing false (eToE p') t.
Proof.
  intros Hp Hes. unfold pl_run. revert p F D U Hp. induction Hes as [|ev es Hev Hes IH]; intros p F D U Hp; cbn.
  { intros [= <-] Ho. split; [eapply ord_ext; [..|exact Ho]; intros t; unfold more; by rewrite app_nil_r|].
    intros t. by rewrite app_nil_r. }
  intros (p1 & H1 & E)%bind_Ok Ho. rewrite H1. pose proof Hq as [Hn _ _ HL _ HF HD HU HX].
  assert (pl_inv q p1) as Hp1 by (by eapply (event_at (pp_numThreads q) (longestDelay q)); [..|exact H1]).
  destruct (event_ord icache ev p p1 F D U Hp Hev H1 Ho) as [Ho1 Ht1]. destruct (IH _ _ _ _ Hp1 E Ho1) as [Ho2 Ht2]. split.
  - eapply ord_ext; [..|exact Ho2]; intros t; unfold more; by rewrite app_assoc.
  - intros t. by rewrite app_assoc, Ht1, <- app_assoc, Ht2, app_assoc.
Qed.

(** ** The beginning *)

(** the parameters that concern the order: bundles fit, and Execute can be built *)
Record order_params : Prop := {
  op_dummy : executeDummyInputWidth q < MAX_FORWARD_INSTS;
  op_execute : 0 ≤ executeInputWidth q < MAX_FORWARD_INSTS;
  op_params : params_ok (pp_execute q);
}.

Lemma fresh_latch d (l : Latch (ForwardInstData I)) : 0 ≤ d < 2 ^ 30 → newLatch noInsts d = Ok l →
  fitting l ∧ ∀ t, flowing false l t = [].
Proof.
  intros Hd E. destruct (newLatch_Ok (noInsts : ForwardInstData I) d Hd) as (l1 & E1 & _ & _ & Hl). rewrite E in E1. injection E1 as <-.
  unfold fitting, flowing, way. rewrite Hl. split; [apply Forall_replicate, fits_none|]. intros t.
  rewrite reverse_replicate, fmap_replicate, (arrivals_bubble noInsts) by done. generalize (Z.to_nat (d + 1)). clear. intros k. by induction k.
Qed.

Lemma fresh_stage {Info M} (ops : RepackOps Info) (abs : Info → M) (sp : Transducer M) W m k cap info t : abs info = m →
  worked ops abs sp (mkStage W k (replicate (Z.to_nat n) (newInputBuffer cap)) (replicate (Z.to_nat n) info) 0) t m [] [].
Proof.
  intros <- b i [_ [-> _]%lookup_replicate]%vget_Ok [_ [-> _]%lookup_replicate]%vget_Ok. cbn.
  by rewrite IB_empty_pend.
Qed.
End order.

Section theorem.
Context `{I : Isa} {TS : ThreadSem I} {DC : Decoder I}.
Implicit Types (p : Pipeline) (q : PipelineParams).

Lemma newPipeline_ord q p : pl_params q → order_params q → newPipeline q = Ok p →
  ord q (execute p) false false false p (λ _, []) (λ _, []) (λ _, []).
Proof.
  intros Hq [Hw1 Hw2 Hpx] E. pose proof Hq as []. unfold newPipeline in E. fold (pp_numThreads q) in E.
  unfold longestDelay in pq_delays.
  apply bind_Ok in E as (l1 & H1 & E). apply bind_Ok in E as (l2 & H2 & E). apply bind_Ok in E as (l3 & H3 & E).
  apply bind_Ok in E as (l4 & H4 & E). apply bind_Ok in E as (l5 & H5 & E). apply bind_Ok in E as (l6 & H6 & E).
  apply bind_Ok in E as (x & Hx & E). apply bind_Ok in E as (ed & He & E). apply bind_Ok in E as (d & Hd & E).
  apply bind_Ok in E as (f2 & Hf2 & E). apply bind_Ok in E as (f1 & Hf1 & E). apply bind_Ok in E as (ar & Ha & E).
  destruct (_ || _) eqn:Ed; [done|]. repeat (apply orb_false_iff in Ed as [Ed ?%Z.ltb_ge]). injection E as <-.
  unfold newExecuteDummy in He. destruct (_ <? 1); [done|]. injection He as <-.
  unfold newDecode in Hd. destruct (Z.ltb_spec (executeDummyInputWidth q) 1); [done|]. destruct (_ <? 1); [done|]. injection Hd as <-.
  apply (fresh_latch q) in H3 as [L3 G3], H4 as [L4 G4], H5 as [L5 G5]; [|lia..].
  split; cbn; try done.
  - by apply (stage_wf_init _ _ _ _ _ _ ); [|lia|..].
  - by apply (stage_wf_init _ _ _ _ _ _ ); [|lia|..].
  - by eapply newExecute_ready.
  - intros t. exists []. rewrite G3. split; [done|]. by apply fresh_stage.
  - intros t. exists []. rewrite G4. split; [done|]. by apply fresh_stage.
  - intros t. exists []. rewrite G5. split; [|done]. apply flow_refl.
Qed.

Lemma sp_take_prefix {M} (sp : Transducer M) k : ∀ j m l o m1 r, sp_take sp j m l = (o, m1, r) →
  (k ≤ length o)%nat → ∃ m' r', sp_take sp k m l = (take k o, m', r').
Proof.
  induction k as [|k IH]; intros j m l o m1 r E Hk; [by eexists _, _|].
  destruct j as [|j]; cbn in E; [injection E as <- _ _; cbn in Hk; lia|].
  destruct l as [|i l]; [injection E as <- _ _; cbn in Hk; lia|]. cbn.
  destruct (sp m i) as [[m2 o2] fin]. destruct (sp_take sp j m2 _) as [[os m3] l2] eqn:Ej.
  injection E as <- _ _. cbn in Hk. destruct (IH _ _ _ _ _ _ Ej) as (m' & r' & ->); [lia|]. by eexists _, _.
Qed.

(** what ExecuteDummy makes of the instructions [os] *)
Definition renumbered (os : list (MyMinorDynInst I)) : list (MyMinorDynInst I) :=
  imap (λ j i, with_id (set_exec (u64 (2 + Z.of_nat j))) i) os.

Lemma renumbered_take k os : take k (renumbered os) = renumbered (take k os).
Proof.
  unfold renumbered. apply list_eq. intros j. destruct (decide (j < k)%nat) as [Hlt|Hge].
  - by rewrite lookup_take_lt, !list_lookup_imap, lookup_take_lt by done.
  - by rewrite lookup_take_ge, list_lookup_imap, lookup_take_ge by lia.
Qed.

Lemma dummy_worked (s : Stage ExecuteDummyThreadInfo) t l os b i :
  worked dummyOps e_execSeqNum dummy_sp s t firstExecSeqNum l os →
  vget (inputBuffer s) t = Ok b → vget (stageInfo s) t = Ok i →
  (length os ≤ length l)%nat ∧ os = renumbered (take (length os) l) ∧ pend b (e_inputIndex i) = drop (length os) l.
Proof.
  intros Hw Hb Hi. specialize (Hw b i Hb Hi). pose proof (dummy_sp_take_short _ _ _ _ _ _ Hw eq_refl) as Hle.
  rewrite dummy_sp_take in Hw by (cbn; lia || done). injection Hw as Ho _ Hr. split_and!; [done| |done].
  rewrite <- Ho at 1. apply imap_ext. intros j x _. cbn. unfold dummy_number. by destruct x.
Qed.

Lemma flowing_empty (l : Latch (ForwardInstData I)) t : latch_wf l → Latch_empty l = Ok true → flowing false l t = [].
Proof.
  intros Hwf E. unfold Latch_empty in E. rewrite (MyMinorBuffer_empty_Ok noInsts _ (lwf_buf _ Hwf)) in E. injection E as E.
  unfold flowing, way. change (line noInsts (buffer l)) with (latch_line noInsts l) in E.
  assert (Forall (λ d, isBubble d = true) (reverse (latch_line noInsts l))) as Hf.
  { apply Forall_reverse. by eapply forallb_Forall; [|exact E]. }
  induction Hf as [|d ds Hd Hf IH]; [done|]. rewrite fmap_cons. cbn [mjoin list_join]. by rewrite (arrivals_bubble d) by done.
Qed.

(** an empty buffer has nothing pending *)
Lemma empty_pend (bufs : list (InputBuffer (ForwardInstData I))) t b k : forallb IB_empty bufs = true →
  vget bufs t = Ok b → pend b k = [].
Proof.
  intros He [_ Hb]%vget_Ok. apply IB_empty_pend. rewrite forallb_forall in He. apply He, list_elem_of_In.
  by apply list_elem_of_lookup; eexists.
Qed.

(** the stages in a row, for one thread *)
Lemma ord_reaches q x0 p F D U t : pl_inv q p → ord q x0 false false false p F D U → 0 ≤ t < pp_numThreads q →
  ∃ fed os m rest, flow t fed x0 (execute p) ∧ U t = List.filter nonBubble fed ++ flowing false (eToE p) t
    ∧ sp_take decode_sp (length os) (None, firstExecSeqNum) (F t) = (os, m, rest)
    ∧ List.filter nonBubble fed = renumbered os
    ∧ (emptyLinks p → forallb IB_empty (inputBuffer (decoder p)) = true →
       forallb IB_empty (inputBuffer (executeDummy p)) = true → rest = []).
Proof.
  intros Hp [Hsd Hsu _ _ _ _ HD HU HX] Ht.
  destruct (HD t) as (lD & EF & HwD), (HU t) as (lU & ED & HwU), (HX t) as (fed & Hfl & EU). clear HD HU HX.
  destruct (vget_lt (inputBuffer (decoder p)) t) as (bD & HbD); [rewrite (sw_bufs _ _ _ _ _ _ _ Hsd); lia|].
  destruct (vget_lt (stageInfo (decoder p)) t) as (iD & HiD); [rewrite (sw_infos _ _ _ _ _ _ _ Hsd); lia|].
  destruct (vget_lt (inputBuffer (executeDummy p)) t) as (bU & HbU); [rewrite (sw_bufs _ _ _ _ _ _ _ Hsu); lia|].
  destruct (vget_lt (stageInfo (executeDummy p)) t) as (iU & HiU); [rewrite (sw_infos _ _ _ _ _ _ _ Hsu); lia|].
  destruct (dummy_worked _ _ _ _ _ _ HwU HbU HiU) as (Hle & HeU & HpU). specialize (HwD bD iD HbD HiD).
  apply (sp_take_more _ _ _ _ (flowing false (f2ToD p) t)) in HwD; [|done]. rewrite <- EF in HwD.
  set (C := List.filter nonBubble fed) in *.
  assert (length C ≤ length lU)%nat as HC by (rewrite EU, length_app in Hle; lia).
  assert (take (length C) (D t) = take (length C) lU) as HtC by (by rewrite ED, take_app_le).
  assert (length (take (length C) lU) = length C) as HlC by (rewrite length_take; lia).
  destruct (sp_take_prefix decode_sp (length C) _ _ _ _ _ _ HwD) as (m & rest & Hsp); [rewrite ED, length_app; lia|].
  rewrite HtC in Hsp. exists fed, (take (length C) lU), m, rest. rewrite HlC. split_and!; try done.
  - assert (C = take (length C) (U t)) as HCU by (by rewrite EU, take_app_length).
    assert (take (length C) (U t) = renumbered (take (length C) lU)) as Hr; [|by rewrite <- Hr, <- HCU].
    rewrite HeU, renumbered_take, take_take. f_equal. f_equal. rewrite EU, length_app. lia.
  - intros (L1 & L2 & L3 & L4) Hd Hu. destruct Hp. pose proof (empty_pend _ _ _ (e_inputIndex iU) Hu HbU) as Hn1.
    rewrite HpU in Hn1. apply (f_equal length) in Hn1. rewrite length_drop in Hn1. cbn in Hn1.
    rewrite (flowing_empty (eToE p)), app_nil_r in EU by (done || apply at_eToE).
    rewrite (flowing_empty (dToE p)), app_nil_r in ED by (done || apply at_dToE).
    rewrite (empty_pend _ _ _ (inputIndex decodeOps iD) Hd HbD) in HwD.
    rewrite (flowing_empty (f2ToD p)) in HwD by (done || apply at_f2ToD).
    rewrite EU in Hn1, Hle. rewrite ED in HwD. replace (length C) with (length lU) in Hsp by lia. rewrite HwD in Hsp. by injection Hsp.
Qed.

Lemma newPipeline_execute q p : newPipeline q = Ok p → newExecute (pp_execute q) = Ok (execute p).
Proof.
  unfold newPipeline. intros E. do 6 apply bind_Ok in E as (? & _ & E). apply bind_Ok in E as (xe & Hx & E).
  do 5 apply bind_Ok in E as (? & _ & E). destruct (_ || _); [done|]. by injection E as <-.
Qed.

(** C2: The pipeline keeps program order from end to end.  Over any history of
    a pipeline (cycles, memory events, wake-ups, drains) and for every thread,
    the instructions that Execute has taken from the latch in front of it are
    exactly the first outputs of Decode's micro-op expansion of the instructions
    that Fetch2 has put out, numbered consecutively by ExecuteDummy: nothing is
    lost, duplicated, reordered or moved to another thread on its way through
    the stages, their buffers and the latches between them.  When the latches and
    the buffers of Decode and ExecuteDummy are empty, these are all outputs:
    everything that Fetch2 has put out has been expanded and handed to Execute.
    What waits in Execute's input is the end of what it has taken; what it has
    issued is an in-order selection of the rest, and what is in flight in it is
    the end of what has been issued. *)
Theorem pipeline_program_order icache q es p0 p t :
  noCostIsaOk → pl_params q → order_params q → newPipeline q = Ok p0 → envs_ok q es →
  pl_run icache es p0 = Ok p → 0 ≤ t < pp_numThreads q →
  ∃ consumed issued ps os m rest,
    sp_take decode_sp (length os) (None, firstExecSeqNum) (putInto f2ToD icache es p0 t) = (os, m, rest)
    ∧ takenFrom eToE icache es p0 t = renumbered os
    ∧ takenFrom eToE icache es p0 t = List.filter nonBubble (consumed ++ waiting (execute p) t)
    ∧ issued `sublist_of` consumed
    ∧ Forall2 (isAt (execute p)) ps issued ∧ flying (execute p) t `suffix_of` (Some <$> ps)
    ∧ (emptyLinks p → forallb IB_empty (inputBuffer (decoder p)) = true →
       forallb IB_empty (inputBuffer (executeDummy p)) = true → rest = []).
Proof.
  intros HI Hq Ho H0 Hes E Ht. pose proof (newPipeline_ord q p0 Hq Ho H0) as Hord.
  pose proof (run_inv q icache es p0 p Hq H0 E) as Hp. destruct (newPipeline_ok q p0 Hq H0) as [Hp0 _].
  destruct (run_ord HI q Hq _ icache es p0 p _ _ _ Hp0 Hes E Hord) as [Hr Htk]. specialize (Htk t).
  destruct (ord_reaches q _ p _ _ _ t Hp Hr Ht) as (fed & os & m & rest & [_ Hfl] & HU & Hsp & Hfed & Hall).
  destruct (or_X _ _ _ _ _ _ _ _ _ Hord t) as (l0 & _ & Hl0). symmetry in Hl0. apply app_nil in Hl0 as [_ Hl0].
  rewrite Hl0 in Htk. cbn in Htk, HU. unfold more in HU. cbn in HU. rewrite Htk in HU. apply app_inv_tail in HU.
  pose proof (newPipeline_execute q p0 H0) as Hx.
  destruct (newExecute_start _ _ Hx (op_params _ Ho)) as (_ & _ & _ & _ & Hnone & _).
  destruct (Hnone t) as [Hw0 Hf0]. destruct Hfl as (c & l & ps & Hw & Hl & Hat & Hfly).
  rewrite Hw0 in Hw. rewrite Hf0 in Hfly. cbn in Hw, Hfly.
  exists c, l, ps, os, m, rest. rewrite HU, <- Hw. by split_and!.
Qed.

(** the types of a pipeline's parts, for [n] threads: every per-thread vector
    has an entry for each thread, a bundle in a latch fits the forwarding type
    and names a thread that exists, and no input buffer holds a half-pushed
    tail *)
Record typed (n : Z) (p : Pipeline) : Prop := {
  ty_infos : Forall (λ k, Z.of_nat k = n)
    [length (f1_fetchInfo (fetch1 p)); length (f2_fetchInfo (fetch2 p)); length (stageInfo (decoder p));
     length (stageInfo (executeDummy p)); length (x_info (execute p)); length (x_threads (execute p));
     length (x_scoreboard (execute p)); length (x_numInst (execute p)); length (x_numOp (execute p));
     length (lastMemBarrier (x_lsq (execute p))); length (f2_decoders (fetch2 p))];
  ty_buffers : Forall (λ k, Z.of_nat k = n)
    [length (f2_inputBuffer (fetch2 p)); length (inputBuffer (decoder p)); length (inputBuffer (executeDummy p));
     length (x_inputBuffer (execute p))];
  ty_bundles : Forall (λ d, narrow d ∧ (isBubble d = true ∨ 0 ≤ instsThreadId d < n))
    (latch_line noInsts (f2ToD p) ++ latch_line noInsts (dToE p) ++ latch_line noInsts (eToE p));
  ty_tails t b : vget (inputBuffer (decoder p)) t = Ok b ∨ vget (inputBuffer (executeDummy p)) t = Ok b
    ∨ vget (x_inputBuffer (execute p)) t = Ok b → elementPtr b = None;
  ty_lines t b : vget (f2_inputBuffer (fetch2 p)) t = Ok b → elementPtr b = None;
  ty_index t b i : vget (x_inputBuffer (execute p)) t = Ok b → vget (x_info (execute p)) t = Ok i →
    0 ≤ x_inputIndex i ≤ firstWidth b;
  ty_units : Z.of_nat (length (x_funcUnits (execute p))) = numFuncUnits (x_cfg (execute p));
  ty_wire : isBubble (x_branch (execute p)) = true;
  ty_priority : 0 ≤ interruptPriority (execute p) < n;
  ty_config : pl_numThreads p = n;
}.

(** the load/store queue and the decoders are built for the threads of the CPU *)
Record vector_params (q : PipelineParams) : Prop := {
  vp_lsq l : xp_lsq (pp_execute q) = Ok l → Z.of_nat (length (lastMemBarrier l)) = pp_numThreads q;
  vp_decoders : Z.of_nat (length (pp_decoders q)) = pp_numThreads q;
}.

Lemma newPipeline_vectors q p : vector_params q → pl_params q → newPipeline q = Ok p →
  Forall (λ k, Z.of_nat k = pp_numThreads q)
    [length (x_scoreboard (execute p)); length (x_numInst (execute p)); length (x_numOp (execute p));
     length (lastMemBarrier (x_lsq (execute p))); length (f2_decoders (fetch2 p))].
Proof.
  intros [Hl Hd] Hq E. pose proof (newPipeline_execute q p E) as Hx.
  assert (f2_decoders (fetch2 p) = pp_decoders q) as ->.
  { unfold newPipeline in E. do 9 apply bind_Ok in E as (? & _ & E). apply bind_Ok in E as (f2 & Hf & E).
    do 2 apply bind_Ok in E as (? & _ & E). destruct (_ || _); [done|]. injection E as <-. cbn.
    unfold newFetch2 in Hf. destruct (_ || _); [done|]. by injection Hf as <-. }
  assert (∀ A (x : A), Z.of_nat (length (replicate (Z.to_nat (pp_numThreads q)) x)) = pp_numThreads q) as Hn.
  { intros A x. rewrite length_replicate. destruct Hq. lia. }
  unfold newExecute in Hx. apply bind_Ok in Hx as (l & Hlsq & Hx). specialize (Hl l Hlsq).
  repeat (destruct (_ <? _); [done|]). apply bind_Ok in Hx as (us & _ & Hx).
  destruct (xp_regs (pp_execute q)) as [[[[ints floats] ccs] ve] vp]. injection Hx as <-. cbn.
  repeat (constructor; [first [done|apply Hn]|]). constructor.
Qed.

(** C10: The state of the pipeline keeps its types over any history: whatever
    cycles, memory events, wake-ups and drains have come, every per-thread
    vector of the five stages, with Execute's scoreboards and instruction counts,
    the load/store queue's barriers and the decoders among them, has exactly one
    entry per thread (the queue and the decoders being built for the CPU's
    threads), each bundle in
    the latches behind Fetch2, Decode and ExecuteDummy has at most
    [MAX_FORWARD_INSTS] instructions and names an existing thread, no input
    buffer keeps a tail that is not pushed, Execute's index into the bundle at
    the head of its input stays inside it, there are as many functional units
    as configured, Execute's branch wire is a bubble between cycles, and the
    round robin over interrupts points at an existing thread. *)
Theorem pipeline_state_typed icache q es p0 p :
  noCostIsaOk → pl_params q → order_params q → vector_params q → newPipeline q = Ok p0 → envs_ok q es →
  pl_run icache es p0 = Ok p → typed (pp_numThreads q) p.
Proof.
  intros HI Hq Ho Hv H0 Hes E. pose proof (newPipeline_ord q p0 Hq Ho H0) as Hord.
  pose proof (run_inv q icache es p0 p Hq H0 E) as Hp. destruct (newPipeline_ok q p0 Hq H0) as [Hp0 _].
  destruct (run_ord HI q Hq _ icache es p0 p _ _ _ Hp0 Hes E Hord) as [[Hd Hu [Hz Hw Hpu] G1 G2 G3 _ _ _] _].
  pose proof (newPipeline_vectors q p0 Hv Hq H0) as Hvec.
  destruct (pvecs_run icache es p0 p E) as [[V1 V2 V3 V4] V5]. unfold sameBarriers in V4.
  rewrite <- V1, <- V2, <- V3, <- V4, <- V5 in Hvec.
  destruct Hp, Hz. assert (x_numThreads (x_cfg (execute p)) = pp_numThreads q) as Hn by exact at_threads.
  rewrite Hn in sz_info, sz_threads, sz_prio. split; try done.
  - by do 6 (constructor; [done|]).
  - repeat constructor; by eapply st_length.
  - by repeat (apply Forall_app; split).
  - intros t b [?|[?|?]]; [by eapply (sw_ptr _ _ _ _ _ _ _ Hd)|by eapply (sw_ptr _ _ _ _ _ _ _ Hu)|by eapply Hpu].
  - apply at_F.
  - apply sz_lines.
  - apply sz_units.
Qed.
End theorem.

Module ToyOrder.

Lemma order_fine : order_params ToyPipe.params.
Proof. split; [by vm_compute..|exact ToyExec.params_fine]. Qed.

Lemma cycles_fine a b : envs_ok ToyPipe.params (ToyPipe.cycles a b).
Proof.
  unfold ToyPipe.cycles. apply Forall_fmap, Forall_forall. intros n _.
  split; [apply ToyExec.env_fine|constructor..].
Qed.

Lemma flowing_fine : envs_ok ToyPipe.params ToyPipe.flowing.
Proof.
  constructor; [done|]. apply Forall_app. split; [apply cycles_fine|]. constructor; [done|apply cycles_fine].
Qed.

Lemma vectors_fine : vector_params ToyPipe.params.
Proof. split; [intros l [= <-]; by vm_compute|by vm_compute]. Qed.
End ToyOrder.

(** Fetch2 has put out one instruction, which has reached Execute and is in
    flight; the bubble behind it in its bundle waits *)
Lemma pipeline_program_order_witness :
  ∃ p0 p consumed issued ps os m rest, newPipeline ToyPipe.params = Ok p0 ∧ pl_run ToyPipe.icache ToyPipe.flowing p0 = Ok p
    ∧ length (putInto f2ToD ToyPipe.icache ToyPipe.flowing p0 0) = 1%nat
    ∧ length (takenFrom eToE ToyPipe.icache ToyPipe.flowing p0 0) = 1%nat
    ∧ length (waiting (execute p) 0) = 1%nat ∧ flying (execute p) 0 = [Some 0]
    ∧ sp_take decode_sp (length os) (None, firstExecSeqNum) (putInto f2ToD ToyPipe.icache ToyPipe.flowing p0 0) = (os, m, rest)
    ∧ takenFrom eToE ToyPipe.icache ToyPipe.flowing p0 0 = renumbered os
    ∧ takenFrom eToE ToyPipe.icache ToyPipe.flowing p0 0 = List.filter nonBubble (consumed ++ waiting (execute p) 0)
    ∧ issued `sublist_of` consumed ∧ Forall2 (isAt (execute p)) ps issued.
Proof.
  assert ((p0 ← newPipeline ToyPipe.params; p ← pl_run ToyPipe.icache ToyPipe.flowing p0;
    Ok (length (putInto f2ToD ToyPipe.icache ToyPipe.flowing p0 0),
        length (takenFrom eToE ToyPipe.icache ToyPipe.flowing p0 0), length (waiting (execute p) 0), flying (execute p) 0))
    = Ok (1%nat, 1%nat, 1%nat, [Some 0])) as H by (vm_compute; reflexivity).
  apply bind_Ok in H as (p0 & E0 & H). apply bind_Ok in H as (p & E & H). injection H as H1 H2 H3 H4.
  assert (0 ≤ 0 < pp_numThreads ToyPipe.params) as Ht by (vm_compute; split; congruence).
  destruct (pipeline_program_order _ _ _ p0 p 0 ToyExec.isa_ok ToyPipe.pipe_fine ToyOrder.order_fine E0
    ToyOrder.flowing_fine E Ht) as (c & l & ps & os & m & rest & Hs & Hr & Hc & Hl & Ha & _).
  exists p0, p, c, l, ps, os, m, rest. do 10 (split; [done|]). exact Ha.
Defined.

Lemma pipeline_state_typed_witness :
  ∃ p0 p, newPipeline ToyPipe.params = Ok p0 ∧ pl_run ToyPipe.icache ToyPipe.flowing p0 = Ok p
    ∧ length (waiting (execute p) 0) = 1%nat ∧ typed 1 p.
Proof.
  assert ((p0 ← newPipeline ToyPipe.params; p ← pl_run ToyPipe.icache ToyPipe.flowing p0;
    Ok (length (waiting (execute p) 0))) = Ok 1%nat) as H by (vm_compute; reflexivity).
  apply bind_Ok in H as (p0 & E0 & H). apply bind_Ok in H as (p & E & H). injection H as H.
  exists p0, p. do 3 (split; [done|]).
  exact (pipeline_state_typed _ _ _ p0 p ToyExec.isa_ok ToyPipe.pipe_fine ToyOrder.order_fine ToyOrder.vectors_fine
    E0 ToyOrder.flowing_fine E).
Defined.
