(* ===== verification/CpuLife.v ===== *)
(** * The CPU around the pipeline
    (src/cpu/myminor/cpu.cc, src/cpu/simple_thread.cc, src/cpu/base.cc)

    The life cycle of thread contexts: activation, suspension and halting, the
    deferred wake-up of the fetch of a cloned thread, starting up, draining,
    resuming and switching out.  Everything that the CPU does to the pipeline
    but the reset of the activity recorder on switching out is one of the
    pipeline's events. *)
From stdpp Require Import gmap.
From S2P Require Import Prelude TimeBuf Buffers Activity LVPT PipeData Cpu Repack Decode ExecuteDummy.
From S2P Require Import Fetch1 Fetch1Inv Fetch1Stage Fetch1History Fetch2 Fetch2Stage LsqRequest Lsq Runs Execute.
From S2P Require Import ExecuteHistory Pipeline PipelineParts PipelineInv PipelineProps.

(** power states *)
Inductive PwrState := Pwr_UNDEFINED | Pwr_ON | Pwr_CLK_GATED | Pwr_SRAM_RETENTION | Pwr_OFF.

(** what [drain()] answers *)
Inductive DrainAnswer := Drained | Draining.

(** what a thread waits for; [pAddr] and [vAddr] are set by [armMonitor] and [mwait] *)
Record AddressMonitor := mkMonitor {
  mo_armed : bool;
  mo_vAddr : Z;
  mo_pAddr : Z;
  mo_waiting : bool;
  mo_gotWakeup : bool;
}.
Definition AddressMonitor0 (vAddr pAddr : Z) : AddressMonitor := mkMonitor false vAddr pAddr false false.

Section cpu.
Context `{I : Isa} {TS : ThreadSem I} {DC : Decoder I}.

Record MyMinorCPU := mkCPU {
  pipeline : Pipeline;                 (* the threads are in its Execute stage *)
  fetchEventWrapper : option (Z * bool); (* the thread it is for; is it scheduled? *)
  switchedOut : bool;
  powerState : PwrState;
  enterPwrGatingEvent : bool;          (* is it scheduled? *)
  powerGatingOnIdle : bool;
  timingMode : bool;                   (* the memory system *)
  addressMonitor : list AddressMonitor;
}.
Implicit Types (c : MyMinorCPU).

Definition up_pipeline (p : Pipeline) c : MyMinorCPU :=
  mkCPU p (fetchEventWrapper c) (switchedOut c) (powerState c) (enterPwrGatingEvent c) (powerGatingOnIdle c)
    (timingMode c) (addressMonitor c).
Definition up_fetchEvent (e : option (Z * bool)) c : MyMinorCPU :=
  mkCPU (pipeline c) e (switchedOut c) (powerState c) (enterPwrGatingEvent c) (powerGatingOnIdle c) (timingMode c)
    (addressMonitor c).
Definition up_power (w : PwrState) (gate : bool) c : MyMinorCPU :=
  mkCPU (pipeline c) (fetchEventWrapper c) (switchedOut c) w gate (powerGatingOnIdle c) (timingMode c)
    (addressMonitor c).
Definition up_switchedOut (b : bool) c : MyMinorCPU :=
  mkCPU (pipeline c) (fetchEventWrapper c) b (powerState c) (enterPwrGatingEvent c) (powerGatingOnIdle c)
    (timingMode c) (addressMonitor c).

Definition threads c : list (TC TS) := x_threads (execute (pipeline c)).
Definition cpu_numThreads c : Z := pl_numThreads (pipeline c).

(** a call of an operation of the pipeline *)
Definition callPipeline (f : Pipeline → res Pipeline) c : res MyMinorCPU :=
  p ← f (pipeline c); Ok (up_pipeline p c).

(** assignment to [_status] of a thread *)
Definition setStatus (tid : Z) (x : ThreadStatus) c : res MyMinorCPU :=
  tc ← vget (threads c) tid;
  ' (_, e) ← setContext tid (tc_setStatus x tc) (execute (pipeline c));
  Ok (up_pipeline (up_execute e (pipeline c)) c).

(** ** Power *)

(** [BaseCPU::deschedulePowerGatingEvent()] *)
Definition deschedulePowerGatingEvent c : MyMinorCPU := up_power (powerState c) false c.

(** [BaseCPU::schedulePowerGatingEvent()] *)
Definition schedulePowerGatingEvent c : res MyMinorCPU :=
  if existsb (λ tc, bool_decide (tc_status tc = Active)) (threads c) then Ok c
  else
    match powerState c with
    | Pwr_CLK_GATED =>
        if powerGatingOnIdle c then
          check (negb (enterPwrGatingEvent c)); Ok (up_power (powerState c) true c)
        else Ok c
    | _ => Ok c
    end.

(** [BaseCPU::activateContext(thread_num)] *)
Definition base_activateContext c : MyMinorCPU := up_power Pwr_ON false c.

(** [BaseCPU::suspendContext(thread_num)]; [schedule] wants an event that is not scheduled *)
Definition base_suspendContext c : res MyMinorCPU :=
  if forallb (λ tc, bool_decide (tc_status tc = Suspended)) (threads c) then
    if powerGatingOnIdle c then
      check (negb (enterPwrGatingEvent c)); Ok (up_power Pwr_CLK_GATED true c)
    else Ok (up_power Pwr_CLK_GATED (enterPwrGatingEvent c) c)
  else Ok c.

(** [BaseCPU::enterPwrGating()], the power gating event *)
Definition enterPwrGating c : MyMinorCPU :=
  if enterPwrGatingEvent c then up_power Pwr_OFF false c else c.

(** ** Thread contexts *)

(** a new [fetchEventWrapper] for thread [tid]; the old one is destroyed,
    and an event that is scheduled must not be *)
Definition newFetchEvent (tid : Z) c : res MyMinorCPU :=
  check (match fetchEventWrapper c with Some (_, scheduled) => negb scheduled | None => true end);
  Ok (up_fetchEvent (Some (tid, true)) c).

(** [MyMinorCPU::activateContext(thread_id)] after the activation of the thread *)
Definition activateBody (tid : Z) c : res MyMinorCPU :=
  c ← callPipeline (cpu_wakeupOnEvent CPUStageId) c;
  tc ← vget (threads c) tid;
  c ← (if negb (tc_useForClone tc) then callPipeline (λ p, Pipeline_wakeupFetch p tid) c
       else newFetchEvent tid c);
  Ok (base_activateContext c).

(** [SimpleThread::activate()] and [MyMinorCPU::activateContext(thread_id)],
    which call each other; the second call finds the thread active *)
Fixpoint activateRec (fuel : nat) (fromThread : bool) (tid : Z) c : res MyMinorCPU :=
  match fuel with
  | O => Stop OutOfFuel
  | S fuel =>
      if fromThread then
        tc ← vget (threads c) tid;
        if bool_decide (tc_status tc = Active) then Ok c
        else c ← setStatus tid Active c; activateRec fuel false tid c
      else
        c ← activateRec fuel true tid c;
        activateBody tid c
  end.

Definition thread_activate : Z → MyMinorCPU → res MyMinorCPU := activateRec 3 true.
Definition activateContext : Z → MyMinorCPU → res MyMinorCPU := activateRec 4 false.

(** [SimpleThread::suspend()] and [MyMinorCPU::suspendContext(thread_id)] *)
Fixpoint suspendRec (fuel : nat) (fromThread : bool) (tid : Z) c : res MyMinorCPU :=
  match fuel with
  | O => Stop OutOfFuel
  | S fuel =>
      if fromThread then
        tc ← vget (threads c) tid;
        if bool_decide (tc_status tc = Suspended) then Ok c
        else c ← setStatus tid Suspended c; suspendRec fuel false tid c
      else
        c ← suspendRec fuel true tid c;
        base_suspendContext c
  end.

Definition thread_suspend : Z → MyMinorCPU → res MyMinorCPU := suspendRec 3 true.
Definition suspendContext : Z → MyMinorCPU → res MyMinorCPU := suspendRec 4 false.

(** [SimpleThread::halt()]; [haltContext] counts cycles only *)
Definition thread_halt (tid : Z) c : res MyMinorCPU :=
  tc ← vget (threads c) tid;
  if bool_decide (tc_status tc = Halted) then Ok c else setStatus tid Halted c.

(** [wakeup(tid)] *)
Definition wakeup (c : MyMinorCPU) (tid : Z) : res MyMinorCPU :=
  check (tid <? cpu_numThreads c);
  tc ← vget (threads c) tid;
  if bool_decide (tc_status tc = Suspended) then thread_activate tid c else Ok c.

(** the event of a cloned thread *)
Definition fetchEvent c : res MyMinorCPU :=
  match fetchEventWrapper c with
  | Some (tid, true) => callPipeline (λ p, Pipeline_wakeupFetch p tid) (up_fetchEvent (Some (tid, false)) c)
  | _ => Ok c
  end.

(** ** Life cycle *)

(** [startup()] *)
Definition startup c : res MyMinorCPU :=
  let c := up_power (if switchedOut c then Pwr_OFF else powerState c) (enterPwrGatingEvent c) c in
  let c := up_power (match powerState c with Pwr_UNDEFINED => Pwr_ON | w => w end) (enterPwrGatingEvent c) c in
  callPipeline (λ p, mfold Pipeline_wakeupFetch p (zrange 0 (cpu_numThreads c - 1))) c.

(** [drain()] *)
Definition cpu_drain c : res (MyMinorCPU * DrainAnswer) :=
  let c := deschedulePowerGatingEvent c in
  if switchedOut c then Ok (c, Drained)
  else
    ' (p, drained) ← Pipeline_drain (pipeline c);
    Ok (up_pipeline p c, if (drained : bool) then Drained else Draining).

(** [drainResume()] *)
Definition cpu_drainResume c : res MyMinorCPU :=
  if switchedOut c then Ok c
  else if negb (timingMode c) then Stop Fatal
  else
    c ← mfold wakeup c (zrange 0 (cpu_numThreads c - 1));
    c ← callPipeline Pipeline_drainResume c;
    schedulePowerGatingEvent c.

(** [switchOut()] *)
Definition switchOut c : res MyMinorCPU :=
  check (negb (switchedOut c));
  let c := up_power Pwr_OFF (enterPwrGatingEvent c) (up_switchedOut true c) in
  let p := pipeline c in
  ar ← ar_reset (recorder p);
  Ok (up_pipeline (up_clock ar (running p) p) c).

(** [init()] *)
Definition cpu_init c : res unit := if negb (switchedOut c) && negb (timingMode c) then Stop Fatal else Ok tt.

(** ** What happens to the CPU *)

Inductive CpuEvent :=
| CpuHardware (ev : PlEvent)      (* the clock, the memory system and the instructions' effects on threads *)
| CpuActivate (tid : Z)           (* the operating system or its emulation *)
| CpuSuspend (tid : Z)
| CpuHalt (tid : Z)
| CpuWakeup (tid : Z)             (* an interrupt *)
| CpuFetchEvent                   (* the event of a cloned thread *)
| CpuPowerGate
| CpuStartup                      (* the simulator *)
| CpuDrain
| CpuResume
| CpuSwitchOut.

Definition cpu_event (icache : Z → bool) c (ev : CpuEvent) : res MyMinorCPU :=
  match ev with
  | CpuHardware ev => callPipeline (λ p, pl_event icache p ev) c
  | CpuActivate tid => thread_activate tid c
  | CpuSuspend tid => thread_suspend tid c
  | CpuHalt tid => thread_halt tid c
  | CpuWakeup tid => wakeup c tid
  | CpuFetchEvent => fetchEvent c
  | CpuPowerGate => Ok (enterPwrGating c)
  | CpuStartup => startup c
  | CpuDrain => ' (c, _) ← cpu_drain c; Ok c
  | CpuResume => cpu_drainResume c
  | CpuSwitchOut => switchOut c
  end.

Definition cpu_run (icache : Z → bool) (es : list CpuEvent) c : res MyMinorCPU := mfold (cpu_event icache) c es.

(** ** The CPU drives the pipeline by its events, switching out aside *)

Section drives.
Context (icache : Z → bool).

Definition drives c c' : Prop := ∃ es, pl_run icache es (pipeline c) = Ok (pipeline c').

#[local] Instance drives_preorder : PreOrder drives.
Proof.
  split; [intros c; by exists []|]. intros c c1 c2 (es1 & H1) (es2 & H2). exists (es1 ++ es2).
  unfold pl_run in *. by rewrite mfold_app, H1.
Qed.

Lemma drives_same c c' : pipeline c' = pipeline c → drives c c'.
Proof. intros H. exists []. by rewrite H. Qed.

Lemma drives_event ev c c' : callPipeline (λ p, pl_event icache p ev) c = Ok c' → drives c c'.
Proof.
  unfold callPipeline. intros (p & Hp & [= <-])%bind_Ok. exists [ev]. unfold pl_run. cbn. by rewrite Hp.
Qed.

Lemma drives_wakeupFetch tid c c' : callPipeline (λ p, Pipeline_wakeupFetch p tid) c = Ok c' → drives c c'.
Proof. by apply (drives_event (PlWakeupFetch tid)). Qed.

Lemma drives_setStatus tid x c c' : setStatus tid x c = Ok c' → drives c c'.
Proof.
  unfold setStatus. intros (tc & _ & E)%bind_Ok. eapply (drives_event (PlContext tid (tc_setStatus x tc))).
  unfold callPipeline. cbn [pl_event]. apply bind_Ok in E as ([u e] & He & [= <-]). by rewrite He.
Qed.

Lemma drives_body tid c c' : activateBody tid c = Ok c' → drives c c'.
Proof.
  unfold activateBody. intros (c1 & H1 & E)%bind_Ok. apply (drives_event PlWakeup) in H1. apply bind_Ok in E as (tc & _ & E).
  apply bind_Ok in E as (c2 & H2 & [= <-]). trans c1; [done|]. trans c2; [|by apply drives_same].
  destruct (negb _); [by eapply drives_wakeupFetch|].
  unfold newFetchEvent in H2. apply bind_Ok in H2 as (u & _ & [= <-]). by apply drives_same.
Qed.

Lemma drives_activate n b tid c c' : activateRec n b tid c = Ok c' → drives c c'.
Proof.
  revert b c c'. induction n as [|n IH]; intros b c c' E; cbn [activateRec] in E; [done|]. destruct b.
  - apply bind_Ok in E as (tc & _ & E). destruct (bool_decide _); [by injection E as <-|].
    apply bind_Ok in E as (c1 & H1%drives_setStatus & E%IH). by trans c1.
  - apply bind_Ok in E as (c1 & H1%IH & E%drives_body). by trans c1.
Qed.

Lemma drives_suspend n b tid c c' : suspendRec n b tid c = Ok c' → drives c c'.
Proof.
  revert b c c'. induction n as [|n IH]; intros b c c' E; cbn [suspendRec] in E; [done|]. destruct b.
  - apply bind_Ok in E as (tc & _ & E). destruct (bool_decide _); [by injection E as <-|].
    apply bind_Ok in E as (c1 & H1%drives_setStatus & E%IH). by trans c1.
  - apply bind_Ok in E as (c1 & H1%IH & E). trans c1; [done|]. apply drives_same. unfold base_suspendContext in E.
    destruct (forallb _ _); [|by injection E as <-]. destruct (powerGatingOnIdle c1); [|by injection E as <-].
    apply bind_Ok in E as (u & _ & [= <-]). done.
Qed.

Lemma drives_wakeup c tid c' : wakeup c tid = Ok c' → drives c c'.
Proof.
  unfold wakeup. intros (u & _ & E)%bind_Ok. apply bind_Ok in E as (tc & _ & E).
  destruct (bool_decide _); [by eapply drives_activate|by injection E as <-].
Qed.

Lemma drives_fold {A} (f : MyMinorCPU → A → res MyMinorCPU) l c c' : (∀ c a c', f c a = Ok c' → drives c c') →
  mfold f c l = Ok c' → drives c c'.
Proof.
  intros Hf. revert c. induction l as [|a l IH]; intros c; cbn; [by intros [= <-]|].
  intros (c1 & H1%Hf & E%IH)%bind_Ok. by trans c1.
Qed.

Lemma drives_wakeups l c c' : callPipeline (λ p, mfold Pipeline_wakeupFetch p l) c = Ok c' → drives c c'.
Proof.
  unfold callPipeline. intros (p & Hp & [= <-])%bind_Ok. exists (PlWakeupFetch <$> l).
  cbn. revert Hp. generalize (pipeline c). induction l as [|t l IH]; intros p0; cbn; [done|].
  intros (p1 & H1 & E%IH)%bind_Ok. unfold pl_run in *. by rewrite H1.
Qed.

Lemma drives_resume c c' : cpu_drainResume c = Ok c' → drives c c'.
Proof.
  unfold cpu_drainResume. destruct (switchedOut c); [by intros [= <-]|]. destruct (negb _); [done|].
  intros (c1 & H1 & E)%bind_Ok. apply bind_Ok in E as (c2 & H2 & E). trans c1; [by eapply drives_fold, H1; apply drives_wakeup|].
  trans c2; [by apply (drives_event PlResume) in H2|]. apply drives_same. unfold schedulePowerGatingEvent in E.
  destruct (existsb _ _); [by injection E as <-|]. destruct (powerState c2); try (by injection E as <-).
  destruct (powerGatingOnIdle c2); [|by injection E as <-]. by apply bind_Ok in E as (u & _ & [= <-]).
Qed.

Lemma event_drives ev c c' : match ev with CpuSwitchOut => False | _ => True end →
  cpu_event icache c ev = Ok c' → drives c c'.
Proof.
  intros Hev E. destruct ev; try done; cbn [cpu_event] in E.
  - by eapply drives_event.
  - by eapply drives_activate.
  - by eapply drives_suspend.
  - unfold thread_halt in E. apply bind_Ok in E as (tc & _ & E).
    destruct (bool_decide _); [by injection E as <-|by eapply drives_setStatus].
  - by eapply drives_wakeup.
  - unfold fetchEvent in E. destruct (fetchEventWrapper c) as [[t []]|]; try (by injection E as <-).
    by apply drives_wakeupFetch in E.
  - injection E as <-. apply drives_same. unfold enterPwrGating. by destruct (enterPwrGatingEvent c).
  - unfold startup in E. by apply drives_wakeups in E.
  - apply bind_Ok in E as ([c1 d] & E & [= <-]). unfold cpu_drain in E. cbn zeta in E.
    destruct (switchedOut _); [injection E as <- _; by apply drives_same|].
    apply bind_Ok in E as ([p b] & Hp & [= <- _]). exists [PlDrain]. unfold pl_run. cbn. cbn in Hp. by rewrite Hp.
  - by eapply drives_resume.
Qed.
End drives.

(** ** Histories of the CPU *)

(** what holds of the pipeline between its events *)
Definition pl_good q (p : Pipeline) : Prop := pl_inv q p ∧ (running p = false → emptyLinks p).

Lemma run_good icache q es p p' : pl_params q → pl_good q p → pl_run icache es p = Ok p' → pl_good q p'.
Proof.
  intros Hq. pose proof Hq as []. unfold pl_run. revert p. induction es as [|ev es IH]; intros p [Hp Hs]; cbn; [by intros [= <-]|].
  intros (p1 & H1 & E)%bind_Ok. eapply IH; [|done]. split; [|by eapply event_sleeps].
  by eapply (event_at (pp_numThreads q) (longestDelay q)); [..|exact H1].
Qed.

(** nothing is under way: the pipeline says that it is drained, and the latch
    from Execute to Fetch1, for which it does not ask, is empty *)
Definition quiesced (p : Pipeline) : Prop := Pipeline_isDrained p = Ok true ∧ Latch_empty (eToF1 p) = Ok true.

Lemma drained_links (p : Pipeline) : Pipeline_isDrained p = Ok true → emptyLinks p.
Proof.
  unfold Pipeline_isDrained. intros E. do 5 apply bind_Ok in E as (? & _ & E). apply bind_Ok in E as ([xd ?] & _ & E).
  apply bind_Ok in E as (b1 & H1 & E). apply bind_Ok in E as (b2 & _ & E). apply bind_Ok in E as (b3 & H3 & E).
  apply bind_Ok in E as (b4 & H4 & E). apply bind_Ok in E as (b5 & H5 & [= E]).
  rewrite !andb_true_iff in E. destruct E as [[[[[[_ ->] _] ->] ->] _] ->]. by split_and!.
Qed.

(** an empty latch needs no activity *)
Lemma link_empty {T} `{IsBubble T} (dflt : T) L l ar ar' : Latch_empty l = Ok true → link_ok L dflt l ar →
  link_ok L dflt l ar'.
Proof.
  intros He [Hwf Hd _]. split; [done|done|]. intros j x Hj Hx. exfalso. unfold Latch_empty in He.
  rewrite (MyMinorBuffer_empty_Ok dflt _ (lwf_buf _ Hwf)) in He. injection He as He. rewrite forallb_forall in He.
  rewrite He in Hx; [done|]. by apply list_elem_of_In, list_elem_of_lookup; exists j.
Qed.

Lemma switchOut_Ok q c : pl_params q → pl_inv q (pipeline c) → switchedOut c = false →
  ∃ ar, switchOut c = Ok (up_pipeline (up_clock ar (running (pipeline c)) (pipeline c))
                            (up_power Pwr_OFF (enterPwrGatingEvent c) (up_switchedOut true c)))
    ∧ ar_wf Num_StageId (longestDelay q) ar ∧ Activity.active ar = false.
Proof.
  intros Hq Hp Hs. destruct (ar_reset_Ok Num_StageId (longestDelay q) (pq_delays _ Hq) (recorder (pipeline c)))
    as (ar & E & Hwf & Hl & Hst); [apply Hp|].
  exists ar. unfold switchOut. rewrite Hs. cbn [negb assert_ rbind]. cbn zeta. cbn. rewrite E. split_and!; try done.
  pose proof (ar_count _ _ _ Hwf) as Hc. rewrite Hl, Hst in Hc.
  assert (∀ k, countb Datatypes.id (replicate k false) = 0) as Hz by (intros k; induction k; [done|]; cbn; rewrite countb_cons; cbn; lia).
  unfold id in Hz. rewrite !Hz in Hc. unfold Activity.active. rewrite Hc. done.
Qed.

Lemma switchOut_good q c c' : pl_params q → pl_good q (pipeline c) → quiesced (pipeline c) → switchOut c = Ok c' →
  pl_good q (pipeline c').
Proof.
  intros Hq [Hp Hs] [Hd He] E. destruct (switchedOut c) eqn:Ho; [unfold switchOut in E; by rewrite Ho in E|].
  destruct (switchOut_Ok q c Hq Hp Ho) as (ar & E' & Hwf & _). rewrite E in E'. injection E' as ->. cbn.
  destruct (drained_links _ Hd) as (L1 & L2 & L3 & L4). split; [|done].
  destruct Hp. split; cbn; try done; by eapply link_empty.
Qed.

(** the simulator switches the CPU out when it has been drained *)
Fixpoint switchesDrained (icache : Z → bool) (es : list CpuEvent) c : Prop :=
  match es with
  | [] => True
  | ev :: es =>
      match ev with CpuSwitchOut => quiesced (pipeline c) | _ => True end
      ∧ match cpu_event icache c ev with Ok c' => switchesDrained icache es c' | Stop _ => True end
  end.

Lemma cpu_run_good icache q es c c' : pl_params q → pl_good q (pipeline c) → switchesDrained icache es c →
  cpu_run icache es c = Ok c' → pl_good q (pipeline c').
Proof.
  intros Hq. unfold cpu_run. revert c. induction es as [|ev es IH]; intros c Hg Hd; cbn [mfold]; [by intros [= <-]|].
  intros (c1 & H1 & E)%bind_Ok. destruct Hd as [Hev Hd]. rewrite H1 in Hd. eapply IH; [|done|done].
  destruct ev; try (apply event_drives in H1 as [es' H1]; [|done]; by eapply run_good).
  by eapply switchOut_good.
Qed.


(** ** Activation *)

(** what SimpleThread's [setStatus] does *)
Class ThreadStatusOk : Prop := {
  tso_status x tc : tc_status (tc_setStatus x tc) = x;
  tso_clone x tc : tc_useForClone (tc_setStatus x tc) = tc_useForClone tc;
  tso_pc x tc : tc_pcState (tc_setStatus x tc) = tc_pcState tc;
}.

Context (HS : ThreadStatusOk).

(** the pipeline of a CPU, with room for its threads *)
Record cpu_ok q c : Prop := {
  ck_params : pl_params q;
  ck_pipeline : pl_inv q (pipeline c);
  ck_threads : Z.of_nat (length (threads c)) = pp_numThreads q;
}.

(** thread [tid] only *)
Record elsewhere (tid : Z) c c' : Prop := {
  el_monitors : addressMonitor c' = addressMonitor c;
  el_length : length (threads c') = length (threads c);
  el_thread t : t ≠ tid → vget (threads c') t = vget (threads c) t;
  el_fetch t : t ≠ tid →
    vget (f1_fetchInfo (fetch1 (pipeline c'))) t = vget (f1_fetchInfo (fetch1 (pipeline c))) t;
}.

Lemma elsewhere_trans tid c c1 c2 : elsewhere tid c c1 → elsewhere tid c1 c2 → elsewhere tid c c2.
Proof.
  intros [H1 H2 H3 H4] [G1 G2 G3 G4]. split; [congruence|congruence|..]; intros t Ht; [by rewrite G3, H3|by rewrite G4, H4].
Qed.

Lemma elsewhere_same tid c c' : addressMonitor c' = addressMonitor c → threads c' = threads c →
  fetch1 (pipeline c') = fetch1 (pipeline c) → elsewhere tid c c'.
Proof. intros H1 H2 H3. split; rewrite ?H2, ?H3; done. Qed.

Lemma setStatus_Ok q tid x tc c : cpu_ok q c → vget (threads c) tid = Ok tc →
  ∃ c', setStatus tid x c = Ok c' ∧ cpu_ok q c' ∧ vget (threads c') tid = Ok (tc_setStatus x tc)
    ∧ fetchEventWrapper c' = fetchEventWrapper c ∧ elsewhere tid c c'.
Proof.
  intros [Hq Hp Ht] Hg. pose proof (vget_bound _ _ _ Hg) as Hb.
  pose proof (vset_lt (threads c) tid (tc_setStatus x tc) Hb) as Hs.
  assert (setContext tid (tc_setStatus x tc) (execute (pipeline c))
    = Ok (tt, xu_threads (<[Z.to_nat tid := tc_setStatus x tc]> (threads c)) (execute (pipeline c)))) as Hc.
  { unfold setContext, sbind, sget, slift, smod. unfold threads in *. by rewrite Hs. }
  eexists. split; [unfold setStatus; rewrite Hg; cbn [rbind]; by rewrite Hc|]. split_and!; [|by apply (vget_vset_eq _ _ _ _ Hs)|done|].
  2:{ split; try done; unfold threads; cbn; [by rewrite length_insert|]. intros t Hne. apply vget_insert_ne; [lia|done]. }
  split; [done| |unfold threads; cbn; by rewrite length_insert]. apply popped_at; [by destruct Hq|done|by apply popsX_same].
Qed.

Lemma active_stage q ar i : ar_wf Num_StageId (longestDelay q) ar → stageActive ar !! i = Some true → active ar = true.
Proof.
  intros Har Hi. assert (0 < countb Datatypes.id (stageActive ar)) by (apply countb_pos; by exists i, true).
  pose proof (countb_nonneg Datatypes.id (ar_line ar)). pose proof (ar_count _ _ _ Har).
  unfold active. apply negb_true_iff, Z.eqb_neq. unfold id in *. lia.
Qed.

Lemma cpu_wakeup_runs q stage p : pl_params q → ar_wf Num_StageId (longestDelay q) (recorder p) → 0 ≤ stage < Num_StageId →
  ∃ ar, cpu_wakeupOnEvent stage p = Ok (up_clock ar true p) ∧ reported Num_StageId (longestDelay q) false (recorder p) ar
    ∧ active ar = true.
Proof.
  intros Hq Har Hst. destruct (activateStage_Ok _ _ stages_ok (pq_delays _ Hq) _ stage Har Hst) as (ar & E & Hwf & Hl & Hs).
  exists ar. unfold cpu_wakeupOnEvent. rewrite E. split_and!; [done|by split|].
  eapply (active_stage q ar (Z.to_nat stage)); [done|]. rewrite Hs. apply list_lookup_insert_eq.
  pose proof (ar_len _ _ _ Har). lia.
Qed.

Lemma signals_Ok q stage active p : pl_params q → ar_wf Num_StageId (longestDelay q) (recorder p) →
  0 ≤ stage < Num_StageId →
  ∃ ar, signals stage true active p = Ok (up_clock ar true p) ∧ Activity.active ar = true.
Proof.
  intros Hq Har Hst. destruct (cpu_wakeup_runs q stage p Hq Har Hst) as (ar & E & [Hwf _] & Ha).
  unfold signals. rewrite E. cbn [rbind]. destruct active; [|by exists ar].
  destruct (activity_Ok _ _ stages_ok (pq_delays _ Hq) ar Hwf) as (ar2 & E2 & Hwf2 & Hl & Hs).
  exists ar2. unfold cpu_activity. cbn. rewrite E2. split; [done|].
  unfold Activity.active in *. apply negb_true_iff, Z.eqb_neq. apply negb_true_iff, Z.eqb_neq in Ha.
  pose proof (ar_count _ _ _ Hwf). pose proof (ar_count _ _ _ Hwf2) as H2. rewrite Hs, Hl in H2.
  pose proof (countb_nonneg Datatypes.id (stageActive ar)).
  assert (0 < countb Datatypes.id (<[0%nat := true]> (ar_line ar))).
  { apply countb_pos. exists 0%nat, true. split; [|done]. apply list_lookup_insert_eq.
    pose proof (ar_line_len _ _ _ Hwf). pose proof (pq_delays _ Hq). lia. }
  unfold id in *. lia.
Qed.

(** waking up the fetch of a thread *)
Lemma wakeupFetch_Ok q tid tc c : cpu_ok q c → vget (threads c) tid = Ok tc →
  ∃ c', callPipeline (λ p, Pipeline_wakeupFetch p tid) c = Ok c' ∧ threads c' = threads c ∧ elsewhere tid c c'
    ∧ running (pipeline c') = true ∧ Activity.active (recorder (pipeline c')) = true
    ∧ ∃ i, vget (f1_fetchInfo (fetch1 (pipeline c'))) tid = Ok i ∧ f1_state i = FetchRunning
      ∧ f1_pc i = Some (tc_pcState tc).
Proof.
  intros [Hq Hp Ht] Hg. pose proof (vget_bound _ _ _ Hg) as Hb. destruct Hp.
  destruct (vget_lt (f1_fetchInfo (fetch1 (pipeline c))) tid) as (i & Hi); [lia|].
  set (i' := mkF1Info FetchRunning (Some (tc_pcState tc)) (instAddr (tc_pcState tc)) (f1_streamSeqNum i)
    (f1_predictionSeqNum i) (f1_blocked i) true).
  pose proof (vset_lt (f1_fetchInfo (fetch1 (pipeline c))) tid i' ltac:(lia)) as Hs.
  assert (∃ f, wakeupFetch tid (tc_pcState tc) (fetch1 (pipeline c)) = Ok (tt, f) ∧ f1_awake f = true
    ∧ vset (f1_fetchInfo (fetch1 (pipeline c))) tid i' = Ok (f1_fetchInfo f)) as (f & Ef & Hf & Hi').
  { unfold wakeupFetch, f1_thread, f1_setThread, wakeupOnEvent, sbind, sget, slift, smod. rewrite Hi. cbn [rbind].
    subst i'. rewrite Hs. cbn [rbind]. eexists. done. }
  unfold callPipeline, Pipeline_wakeupFetch, fromFetch1. unfold threads in Hg. rewrite Hg. cbn [rbind].
  rewrite Ef. cbn [rbind]. rewrite Hf.
  destruct (signals_Ok q Fetch1StageId (f1_activity f)
    (up_fetch1 (f1_setActivity false (f1_setAwake false f)) (pipeline c))) as (ar & -> & Ha); [done..|].
  cbn [rbind]. eexists. split; [done|]. split; [done|].
  split; [split; try done; intros t Hne; cbn; by eapply vget_vset_ne|].
  split; [done|]. split; [done|]. exists i'. split; [|done]. cbn. by eapply vget_vset_eq.
Qed.

(** an event of a cloned thread that has not happened yet *)
Definition fetchEventPending c : bool := match fetchEventWrapper c with Some (_, b) => b | None => false end.

Lemma activateRec_thread tid tc c : vget (threads c) tid = Ok tc → tc_status tc ≠ Active →
  thread_activate tid c
  = (c1 ← setStatus tid Active c; c1 ← activateRec 1 true tid c1; activateBody tid c1).
Proof.
  intros Hg Ha. unfold thread_activate. cbn [activateRec]. rewrite Hg. cbn [rbind].
  rewrite bool_decide_false by done. done.
Qed.

Lemma activateRec_active n tid tc c : vget (threads c) tid = Ok tc → tc_status tc = Active →
  activateRec (S n) true tid c = Ok c.
Proof. intros Hg Ha. cbn [activateRec]. rewrite Hg. cbn [rbind]. by rewrite bool_decide_true. Qed.

Lemma activateBody_wakes q tid tc c : cpu_ok q c → vget (threads c) tid = Ok tc →
  ∃ c', cpu_ok q c' ∧ elsewhere tid c c' ∧ vget (threads c') tid = Ok tc ∧ fetchEventWrapper c' = fetchEventWrapper c
    ∧ running (pipeline c') = true ∧ Activity.active (recorder (pipeline c')) = true
    ∧ activateBody tid c
      = (c ← (if negb (tc_useForClone tc) then callPipeline (λ p, Pipeline_wakeupFetch p tid) c'
              else newFetchEvent tid c'); Ok (base_activateContext c)).
Proof.
  intros [Hq Hp Ht] Hg. destruct (cpu_wakeup_runs q CPUStageId (pipeline c) Hq) as (ar & Ew & Hrep & Hact); [apply Hp|done|].
  exists (up_pipeline (up_clock ar true (pipeline c)) c). split_and!; try done.
  - split; [done| |done]. by eapply clock_at.
  - unfold activateBody, callPipeline at 1. rewrite Ew. cbn [rbind].
    assert (vget (threads (up_pipeline (up_clock ar true (pipeline c)) c)) tid = Ok tc) as -> by done. done.
Qed.

(** the thread has been started from [tc] *)
Record started (tid : Z) (tc : TC TS) c' : Prop := {
  sd_thread : vget (threads c') tid = Ok (tc_setStatus Active tc);
  sd_running : running (pipeline c') = true;
  sd_active : Activity.active (recorder (pipeline c')) = true;
  sd_power : powerState c' = Pwr_ON;
  sd_gating : enterPwrGatingEvent c' = false;
  sd_fetch : if tc_useForClone tc then fetchEventWrapper c' = Some (tid, true)
    else ∃ i, vget (f1_fetchInfo (fetch1 (pipeline c'))) tid = Ok i ∧ f1_state i = FetchRunning
           ∧ f1_pc i = Some (tc_pcState tc);
}.

Lemma thread_activate_spec q tid tc c : cpu_ok q c → vget (threads c) tid = Ok tc → tc_status tc ≠ Active →
  if tc_useForClone tc && fetchEventPending c then thread_activate tid c = Stop AssertFail
  else ∃ c', thread_activate tid c = Ok c' ∧ started tid tc c' ∧ elsewhere tid c c'.
Proof.
  intros Hc Hg Ha. destruct (setStatus_Ok q tid Active tc c Hc Hg) as (c1 & E1 & Hc1 & Hg1 & Hf1 & Hw1).
  destruct (activateBody_wakes q tid _ c1 Hc1 Hg1) as (c2 & Hc2 & Hw2 & Hg2 & Hf2 & Hr2 & Ha2 & E2).
  assert (thread_activate tid c = activateBody tid c1) as ->.
  { rewrite (activateRec_thread tid tc c Hg Ha), E1. cbn [rbind].
    by rewrite (activateRec_active 0 tid _ c1 Hg1 (tso_status _ _)). }
  pose proof (elsewhere_trans _ _ _ _ Hw1 Hw2) as Hw. rewrite tso_clone in E2. rewrite E2. clear E2.
  destruct (tc_useForClone tc) eqn:Et; cbn [negb andb].
  - unfold newFetchEvent, fetchEventPending. rewrite Hf2, Hf1.
    destruct (fetchEventWrapper c) as [[t []]|]; cbn [negb]; [done|..]; (eexists; split; [done|]);
      (split; [split; try done; by rewrite Et|]); (eapply elsewhere_trans; [done|by apply elsewhere_same]).
  - destruct (wakeupFetch_Ok q tid _ c2 Hc2 Hg2) as (c3 & -> & Hth & Hw3 & Hrun & Hact3 & i & Hi & Hs & Hpc). cbn [rbind].
    rewrite tso_pc in Hpc. eexists. split; [done|]. split.
    + split; try done; [unfold threads in *; cbn; congruence|]. rewrite Et. by exists i.
    + eapply elsewhere_trans; [done|]. eapply elsewhere_trans; [done|by apply elsewhere_same].
Qed.

(** C9: Activating a thread that is not active starts it.  In every state that a
    CPU reaches before it is switched out, the activation returns with the thread active, the clock
    running with activity recorded (so that the pipeline does not go back to
    sleep before the next cycle), the power on and no power gating pending;
    Fetch1 fetches for the thread from the thread's own pc, or, for a cloned
    thread, the event that will start its fetch is scheduled.  Nothing of any
    other thread changes.  The only
    exception is a cloned thread activated while the event of a cloned thread
    of the same CPU is still scheduled: then the assertion in the destructor of
    the event fails. *)
Theorem cpu_activation_starts_thread icache q es p0 c tid tc :
  pl_params q → newPipeline q = Ok p0 → pl_run icache es p0 = Ok (pipeline c) →
  Z.of_nat (length (threads c)) = pp_numThreads q →
  vget (threads c) tid = Ok tc → tc_status tc ≠ Active →
  if tc_useForClone tc && fetchEventPending c then thread_activate tid c = Stop AssertFail
  else ∃ c', thread_activate tid c = Ok c' ∧ started tid tc c' ∧ elsewhere tid c c'.
Proof.
  intros Hq H0 Hr Ht Hg Ha. apply (thread_activate_spec q); [|done..]. split; [done|by eapply run_inv|done].
Qed.
End cpu.

(** ** A CPU to run *)
Module ToyCpu.

#[local] Existing Instance Toy.isa.
#[local] Existing Instance ToyExec.sem.
#[local] Existing Instance ToyDec.dec.

Lemma status_ok : ThreadStatusOk (TS := ToyExec.sem).
Proof. by split. Qed.

Definition cpu (p : Pipeline) : MyMinorCPU := mkCPU p None false Pwr_UNDEFINED false true true [AddressMonitor0 0 0].

(** the thread runs and is drained, and the CPU is switched out *)
Definition draining : list CpuEvent := CpuStartup :: (CpuHardware <$> drop 1 ToyPipe.draining ++ ToyPipe.cycles 13 14).
Definition events : list CpuEvent := draining ++ [CpuSwitchOut].

Lemma switches_last es c c1 : Forall (λ ev, match ev with CpuSwitchOut => False | _ => True end) es →
  cpu_run ToyPipe.icache es c = Ok c1 → quiesced (pipeline c1) → switchesDrained ToyPipe.icache (es ++ [CpuSwitchOut]) c.
Proof.
  intros Hes. unfold cpu_run. revert c. induction Hes as [|ev es Hev Hes IH]; intros c; cbn [mfold app].
  - intros [= ->] Hq. split; [done|]. by destruct (cpu_event _ _ _).
  - intros (c2 & H2 & E)%bind_Ok Hq. split; [by destruct ev|]. rewrite H2. by apply IH.
Qed.

Definition suspended : TC ToyExec.sem := ToyExec.mkTc (64, 0) Suspended true true 0.
End ToyCpu.


(** a suspended thread at address 64 *)
Lemma cpu_activation_starts_thread_witness :
  ∃ p0 p c' i, newPipeline ToyPipe.params = Ok p0
    ∧ pl_run ToyPipe.icache [PlContext 0 ToyCpu.suspended] p0 = Ok p
    ∧ thread_activate 0 (ToyCpu.cpu p) = Ok c' ∧ running (pipeline c') = true
    ∧ vget (f1_fetchInfo (fetch1 (pipeline c'))) 0 = Ok i ∧ f1_pc i = Some (64, 0).
Proof.
  assert ((p0 ← newPipeline ToyPipe.params; p ← pl_run ToyPipe.icache [PlContext 0 ToyCpu.suspended] p0;
    Ok (threads (ToyCpu.cpu p))) = Ok [ToyCpu.suspended]) as H by (vm_compute; reflexivity).
  apply bind_Ok in H as (p0 & E0 & H). apply bind_Ok in H as (p & E & H). injection H as H.
  pose proof (cpu_activation_starts_thread ToyCpu.status_ok _ _ _ p0 (ToyCpu.cpu p) 0 ToyCpu.suspended
    ToyPipe.pipe_fine E0 E) as Ht. rewrite H in Ht.
  destruct (Ht eq_refl eq_refl ltac:(discriminate)) as (c' & Ea & [_ Hr _ _ _ (i & Hi & _ & Hpc)] & _).
  exists p0, p, c', i. do 5 (split; [done|]). done.
Defined.
