(* ===== verification/Snoop.v ===== *)
(** * Snoops, address monitors and reservations
    (src/cpu/myminor/lsq.cc, src/cpu/base.cc, src/arch/riscv/isa.cc)

    What a write by another thread or another CPU does to the threads of a
    CPU: a thread that waits for a line with [mwait] is woken up, and the
    reservation of a load-locked access to the line is lost.  The instruction
    set's part is an argument of the snoop handlers; [Riscv] is RISC-V's. *)
From stdpp Require Import gmap.
From S2P Require Import Prelude TimeBuf Buffers Activity LVPT PipeData Cpu Repack Decode ExecuteDummy.
From S2P Require Import Fetch1 Fetch1Inv Fetch1Stage Fetch1History Fetch2 Fetch2Stage LsqRequest Lsq Runs Execute.
From S2P Require Import ExecuteHistory Pipeline PipelineParts PipelineInv PipelineProps CpuLife.

(** what the handlers read of a packet *)
Record SnoopPacket := mkSnoopPacket {
  sn_hasPaddr : bool;
  sn_addr : Z;
  sn_isInvalidate : bool;
  sn_isWrite : bool;
}.

(** [LSQ::cacheBlockMask]: the complement is taken in [unsigned int] and
    widened to [Addr] *)
Definition cacheBlockMask (cacheLineSize : Z) : Z := u32 (Z.lnot (u32 (cacheLineSize - 1))).

(** [AddressMonitor::doMonitor(pkt)] *)
Definition doMonitor (m : AddressMonitor) (pkt : SnoopPacket) : res (AddressMonitor * bool) :=
  check (sn_hasPaddr pkt);
  if mo_armed m && mo_waiting m && (mo_pAddr m =? sn_addr pkt)
  then Ok (mkMonitor (mo_armed m) (mo_vAddr m) (mo_pAddr m) false (mo_gotWakeup m), true)
  else Ok (m, false).

Section snoop.
Context `{I : Isa} {TS : ThreadSem I} {DC : Decoder I}.
Context (cacheLineSize : Z) (handleLockedSnoop : SnoopPacket → Z → TC TS → TC TS).
Implicit Types (c : MyMinorCPU) (pkt : SnoopPacket).

Definition up_monitors (l : list AddressMonitor) c : MyMinorCPU :=
  mkCPU (pipeline c) (fetchEventWrapper c) (switchedOut c) (powerState c) (enterPwrGatingEvent c)
    (powerGatingOnIdle c) (timingMode c) l.

(** [BaseCPU::armMonitor(tid, address)] *)
Definition armMonitor (tid address : Z) c : res MyMinorCPU :=
  check (tid <? cpu_numThreads c);
  m ← vget (addressMonitor c) tid;
  l ← vset (addressMonitor c) tid (mkMonitor true address 0 (mo_waiting m) (mo_gotWakeup m));
  Ok (up_monitors l c).

(** [BaseCPU::mwait(tid, pkt)]; the answer tells whether the thread has to wait *)
Definition mwait (tid : Z) pkt c : res (MyMinorCPU * bool) :=
  check (tid <? cpu_numThreads c);
  m ← vget (addressMonitor c) tid;
  if negb (mo_gotWakeup m) then
    check (sn_hasPaddr pkt);
    l ← vset (addressMonitor c) tid (mkMonitor (mo_armed m) (mo_vAddr m)
          (Z.land (sn_addr pkt) (u64 (Z.lnot (u64 (cacheLineSize - 1))))) true (mo_gotWakeup m));
    Ok (up_monitors l c, true)
  else
    l ← vset (addressMonitor c) tid (mkMonitor (mo_armed m) (mo_vAddr m) (mo_pAddr m) (mo_waiting m) false);
    Ok (up_monitors l c, false).

(** the monitor of one thread sees the packet *)
Definition monitorThread pkt c (tid : Z) : res MyMinorCPU :=
  m ← vget (addressMonitor c) tid;
  ' (m, hit) ← doMonitor m pkt;
  l ← vset (addressMonitor c) tid m;
  let c := up_monitors l c in
  if (hit : bool) then wakeup c tid else Ok c.

(** [getContext(tid)->getIsaPtr()->handleLockedSnoop(pkt, cacheBlockMask)] *)
Definition lockedSnoop pkt c (tid : Z) : res MyMinorCPU :=
  tc ← vget (threads c) tid;
  ' (_, e) ← setContext tid (handleLockedSnoop pkt (cacheBlockMask cacheLineSize) tc) (execute (pipeline c));
  Ok (up_pipeline (up_execute e (pipeline c)) c).

(** [LSQ::recvTimingSnoopReq(pkt)] *)
Definition recvTimingSnoopReq pkt c : res MyMinorCPU :=
  c ← mfold (monitorThread pkt) c (zrange 0 (cpu_numThreads c - 1));
  if sn_isInvalidate pkt || sn_isWrite pkt
  then mfold (lockedSnoop pkt) c (zrange 0 (cpu_numThreads c - 1))
  else Ok c.

(** [LSQ::threadSnoop(request)], for a request of thread [req_tid] with packet [pkt] *)
Definition threadSnoop (req_tid : Z) pkt c : res MyMinorCPU :=
  mfold (λ c tid,
    if tid =? req_tid then Ok c
    else
      c ← monitorThread pkt c tid;
      if sn_isInvalidate pkt || sn_isWrite pkt then lockedSnoop pkt c tid else Ok c)
    c (zrange 0 (cpu_numThreads c - 1)).

(** ** What a snoop does to the threads *)

(** what instruction sets do to a thread: its reservation only *)
Record lockedOk : Prop := {
  lk_status pkt mask tc : tc_status (handleLockedSnoop pkt mask tc) = tc_status tc;
}.

Context (HS : ThreadStatusOk) (HL : lockedOk) (q : PipelineParams).

(** the monitor answers the packet *)
Definition hit pkt (m : AddressMonitor) : bool := mo_armed m && mo_waiting m && (mo_pAddr m =? sn_addr pkt).

(** a thread of the CPU: its monitor, its context and its part of Fetch1 *)
Definition View : Type := res AddressMonitor * res (TC TS) * res Fetch1ThreadInfo.
Definition view c (t : Z) : View :=
  (vget (addressMonitor c) t, vget (threads c) t, vget (f1_fetchInfo (fetch1 (pipeline c))) t).

(** a CPU between events *)
Record snoop_ok c : Prop := {
  so_cpu : cpu_ok q c;
  so_monitors : Z.of_nat (length (addressMonitor c)) = pp_numThreads q;
}.

(** a thread sees the packet: if its monitor answers, the monitor waits no
    longer, and the thread, if suspended, is active and fetches from its pc *)
Definition seen pkt (v v' : View) (r : bool) : Prop :=
  ∀ m tc i, v = (Ok m, Ok tc, Ok i) →
    ∃ m' tc' i', v' = (Ok m', Ok tc', Ok i')
      ∧ m' = (if hit pkt m then mkMonitor (mo_armed m) (mo_vAddr m) (mo_pAddr m) false (mo_gotWakeup m) else m)
      ∧ if hit pkt m && tc_suspended tc
        then tc_status tc' = Active ∧ r = true ∧ f1_state i' = FetchRunning ∧ f1_pc i' = Some (tc_pcState tc)
        else tc_status tc' = tc_status tc ∧ i' = i.

(** only the reservation of a thread is touched *)
Definition kept (v v' : View) : Prop :=
  ∀ m tc i, v = (Ok m, Ok tc, Ok i) → ∃ tc', v' = (Ok m, Ok tc', Ok i) ∧ tc_status tc' = tc_status tc.

(** a thread that is woken up is not a cloned one *)
Definition notCloned pkt (v : View) : Prop :=
  ∀ m tc i, v = (Ok m, Ok tc, Ok i) → hit pkt m = true → tc_status tc = Suspended → tc_useForClone tc = false.

(** a step for thread [tid] *)
Record stepped (R : View → View → bool → Prop) (tid : Z) c c' : Prop := {
  sp_ok : snoop_ok c';
  sp_seen : R (view c tid) (view c' tid) (running (pipeline c'));
  sp_others t : t ≠ tid → view c' t = view c t;
  sp_running : running (pipeline c) = true → running (pipeline c') = true;
}.

(** steps for one thread after the other *)
Lemma each (f : MyMinorCPU → Z → res MyMinorCPU) (R : Z → View → View → bool → Prop) (pre : View → Prop) l :
  (∀ t v v' r r', R t v v' r → (r = true → r' = true) → R t v v' r') →
  (∀ c tid, snoop_ok c → 0 ≤ tid < pp_numThreads q → pre (view c tid) →
     ∃ c', f c tid = Ok c' ∧ stepped (R tid) tid c c') →
  NoDup l → Forall (λ t, 0 ≤ t < pp_numThreads q) l →
  ∀ c, snoop_ok c → Forall (λ t, pre (view c t)) l →
  ∃ c', mfold f c l = Ok c' ∧ snoop_ok c' ∧ (∀ t, t ∈ l → R t (view c t) (view c' t) (running (pipeline c')))
    ∧ (∀ t, t ∉ l → view c' t = view c t) ∧ (running (pipeline c) = true → running (pipeline c') = true).
Proof.
  intros Hmono Hf. induction 1 as [|tid l Hni Hnd IH]; intros Hr c Hc Hpre; cbn [mfold].
  { exists c. split_and!; try done. by intros t ?%elem_of_nil. }
  apply Forall_cons in Hr as [Hr Hrs], Hpre as [Hp Hps].
  destruct (Hf c tid Hc Hr Hp) as (c1 & -> & [Hok1 Hs1 Ho1 Hr1]). cbn [rbind].
  destruct (IH Hrs c1 Hok1) as (c2 & E2 & Hok2 & Hs2 & Ho2 & Hr2).
  { rewrite Forall_forall in Hps |- *. intros t Ht. rewrite Ho1 by (by intros ->). by apply Hps. }
  exists c2. split_and!; [done|done|..|tauto].
  - intros t [->|Ht]%elem_of_cons; [by rewrite (Ho2 tid Hni); eapply Hmono|].
    rewrite <- (Ho1 t) by (by intros ->). by apply Hs2.
  - intros t [Hne Ht]%not_elem_of_cons. by rewrite Ho2, Ho1.
Qed.

Lemma drives_ok icache c c' : cpu_ok q c → drives icache c c' → length (threads c') = length (threads c) → cpu_ok q c'.
Proof.
  intros [Hq Hp Ht] (es & Hr) Hl. split; [done| |by rewrite Hl]. destruct Hq.
  by eapply (run_at (pp_numThreads q) (longestDelay q)); [..|exact Hr].
Qed.

Lemma view_lt c t : snoop_ok c → 0 ≤ t < pp_numThreads q → ∃ m tc i, view c t = (Ok m, Ok tc, Ok i).
Proof.
  intros [[_ [] Ht] Hm] Hlt. destruct (vget_lt (addressMonitor c) t) as (m & Em); [lia|].
  destruct (vget_lt (threads c) t) as (tc & Et); [lia|].
  destruct (vget_lt (f1_fetchInfo (fetch1 (pipeline c))) t) as (i & Ei); [lia|]. exists m, tc, i.
  unfold view. by rewrite Em, Et, Ei.
Qed.

Lemma up_monitors_step pkt tid m m' l c : snoop_ok c → vget (addressMonitor c) tid = Ok m →
  vset (addressMonitor c) tid m' = Ok l → snoop_ok (up_monitors l c) ∧ vget l tid = Ok m'
    ∧ (∀ t, t ≠ tid → view (up_monitors l c) t = view c t).
Proof.
  intros [[] Hm] Hg Hs. split_and!; [|by eapply vget_vset_eq|].
  - split; [by split|]. cbn. by rewrite (vset_length _ _ _ _ Hs).
  - intros t Ht. unfold view. cbn. by rewrite (vget_vset_ne _ _ _ _ _ Hs) by done.
Qed.

Lemma monitorThread_step pkt c tid : sn_hasPaddr pkt = true → snoop_ok c → 0 ≤ tid < pp_numThreads q →
  notCloned pkt (view c tid) → ∃ c', monitorThread pkt c tid = Ok c' ∧ stepped (seen pkt) tid c c'.
Proof.
  intros Hpa Hc Ht Hn. destruct (view_lt c tid Hc Ht) as (m & tc & i & Hv). specialize (Hn m tc i Hv).
  pose proof Hv as [= Em Et Ei]. pose proof (so_monitors _ Hc) as Hm.
  set (m' := if hit pkt m then mkMonitor (mo_armed m) (mo_vAddr m) (mo_pAddr m) false (mo_gotWakeup m) else m).
  assert (doMonitor m pkt = Ok (m', hit pkt m)) as Ed.
  { unfold doMonitor. rewrite Hpa. cbn. subst m'. unfold hit. by destruct (_ && _). }
  pose proof (vset_lt (addressMonitor c) tid m' ltac:(lia)) as Es.
  unfold monitorThread. rewrite Em. cbn [rbind]. rewrite Ed. cbn [rbind]. rewrite Es. cbn [rbind].
  destruct (up_monitors_step pkt tid m m' _ c Hc Em Es) as (Hc1 & Em1 & Ho1). revert Es Hc1 Em1 Ho1.
  generalize (<[Z.to_nat tid:=m']> (addressMonitor c)). intros l Es Hc1 Em1 Ho1.
  assert (hit pkt m && tc_suspended tc = false → seen pkt (view c tid) (view (up_monitors l c) tid) (running (pipeline c))) as Hno.
  { intros Hh m0 tc0 i0. rewrite Hv. intros [= <- <- <-]. rewrite Hh. exists m', tc, i. split; [|done].
    change (view (up_monitors l c) tid) with (vget l tid, vget (threads c) tid, vget (f1_fetchInfo (fetch1 (pipeline c))) tid).
    by rewrite Em1, Et, Ei. }
  destruct (hit pkt m) eqn:Eh; [|by eexists; split; [done|split; [done|by apply Hno|done|done]]].
  unfold wakeup. assert (tid <? cpu_numThreads (up_monitors l c) = true) as ->.
  { apply Z.ltb_lt. destruct Hc as [[_ [] _] _]. unfold cpu_numThreads. cbn. lia. }
  cbn [rbind assert_]. rewrite (Et : vget (threads (up_monitors l c)) tid = Ok tc). cbn [rbind].
  destruct (bool_decide (tc_status tc = Suspended)) eqn:Eb.
  2:{ eexists. split; [done|]. split; [done|apply Hno; unfold tc_suspended; by rewrite Eb|done|done]. }
  apply bool_decide_eq_true in Eb. specialize (Hn eq_refl Eb).
  pose proof (thread_activate_spec HS q tid tc (up_monitors l c) (so_cpu _ Hc1) Et ltac:(by rewrite Eb)) as H.
  rewrite Hn in H. cbn [andb] in H. destruct H as (c' & Ea & [Sd Sr _ _ _ Sf] & [Wm Wl Wt Wf]). rewrite Hn in Sf.
  destruct Sf as (i' & Hi' & Hst & Hpc). exists c'. split; [done|]. split.
  - split; [|by rewrite Wm; apply Hc1]. by eapply drives_ok; [apply Hc1|eapply (drives_activate (λ _, true)); exact Ea|].
  - intros m0 tc0 i0. rewrite Hv. intros [= <- <- <-]. unfold tc_suspended. rewrite Eh, bool_decide_true by done. cbn [andb].
    exists m', (tc_setStatus Active tc), i'. unfold view. rewrite Wm, Sd, Hi'. cbn. rewrite Em1. split_and!; try done. apply tso_status.
  - intros t Hne. rewrite <- (Ho1 t Hne). unfold view. by rewrite Wm, Wt, Wf.
  - done.
Qed.

Lemma lockedSnoop_step pkt c tid : snoop_ok c → 0 ≤ tid < pp_numThreads q →
  ∃ c', lockedSnoop pkt c tid = Ok c' ∧ stepped (λ v v' _, kept v v') tid c c' ∧ running (pipeline c') = running (pipeline c).
Proof.
  intros Hc Ht. destruct (view_lt c tid Hc Ht) as (m & tc & i & Hv). pose proof Hv as [= Em Et Ei].
  set (tc' := handleLockedSnoop pkt (cacheBlockMask cacheLineSize) tc).
  pose proof (vget_bound _ _ _ Et) as Hb. pose proof (vset_lt (threads c) tid tc' Hb) as Es.
  assert (setContext tid tc' (execute (pipeline c))
    = Ok (tt, xu_threads (<[Z.to_nat tid := tc']> (threads c)) (execute (pipeline c)))) as Ec.
  { unfold setContext, sbind, sget, slift, smod. unfold threads in *. by rewrite Es. }
  unfold lockedSnoop. rewrite Et. cbn [rbind]. fold tc'. rewrite Ec. cbn [rbind]. eexists. split; [done|]. split; [|done].
  split; [split; [|apply Hc]|..|done].
  - eapply (drives_ok (λ _, true)); [apply Hc| |unfold threads; cbn; by rewrite length_insert].
    exists [PlContext tid tc']. unfold pl_run. cbn [mfold pl_event]. by rewrite Ec.
  - intros m0 tc0 i0. rewrite Hv. intros [= <- <- <-]. exists tc'. unfold view. cbn.
    rewrite Em, Ei, vget_insert_eq by lia. split; [done|]. apply HL.
  - intros t Hne. unfold view, threads. cbn. by rewrite vget_insert_ne by (lia || done).
Qed.

Lemma seen_mono pkt v v' r r' : seen pkt v v' r → (r = true → r' = true) → seen pkt v v' r'.
Proof.
  intros H Hr m tc i Hv. destruct (H m tc i Hv) as (m' & tc' & i' & E1 & E2 & H'). exists m', tc', i'.
  split_and!; [done|done|]. destruct (_ && _); [|done]. destruct H' as (? & ? & ?). split_and!; try tauto; by apply Hr.
Qed.

Lemma seen_kept pkt v v1 v2 r : seen pkt v v1 r → kept v1 v2 → seen pkt v v2 r.
Proof.
  intros H Hk m tc i Hv. destruct (H m tc i Hv) as (m' & tc1 & i' & E1 & E2 & H'). destruct (Hk _ _ _ E1) as (tc' & E3 & Hs).
  exists m', tc', i'. split_and!; [done|done|]. destruct (_ && _); by rewrite Hs.
Qed.

Lemma threads_all : Forall (λ t, 0 ≤ t < pp_numThreads q) (zrange 0 (pp_numThreads q - 1)).
Proof. apply Forall_forall. intros t Ht%elem_of_zrange. lia. Qed.

Lemma cpu_threads c : snoop_ok c → cpu_numThreads c = pp_numThreads q.
Proof. intros [[_ [] _] _]. done. Qed.

Lemma zrange_NoDup a b : NoDup (zrange a b).
Proof. unfold zrange. apply NoDup_fmap_2; [intros x y; lia|apply NoDup_seq]. Qed.

Lemma recvTimingSnoopReq_spec pkt c : sn_hasPaddr pkt = true → snoop_ok c → (∀ t, notCloned pkt (view c t)) →
  ∃ c', recvTimingSnoopReq pkt c = Ok c'
    ∧ ∀ t, 0 ≤ t < pp_numThreads q → seen pkt (view c t) (view c' t) (running (pipeline c')).
Proof.
  intros Hpa Hc Hn. unfold recvTimingSnoopReq. rewrite (cpu_threads c Hc).
  destruct (each (monitorThread pkt) (λ _, seen pkt) (notCloned pkt) (zrange 0 (pp_numThreads q - 1)))
    with (c := c) as (c1 & -> & Hok1 & H1 & _ & _); [by intros; eapply seen_mono|intros; by apply monitorThread_step
    |apply zrange_NoDup|apply threads_all|done|by apply Forall_forall|].
  cbn [rbind]. assert (∀ t, 0 ≤ t < pp_numThreads q → seen pkt (view c t) (view c1 t) (running (pipeline c1))) as Hs.
  { intros t Ht. apply H1, elem_of_zrange. lia. }
  destruct (_ || _); [|by exists c1]. rewrite (cpu_threads c1 Hok1).
  destruct (each (lockedSnoop pkt) (λ _ v v' _, kept v v') (λ _, True) (zrange 0 (pp_numThreads q - 1)))
    with (c := c1) as (c2 & -> & _ & H2 & _ & Hr); [done|..|apply zrange_NoDup|apply threads_all|done|by apply Forall_forall|].
  { intros c0 tid H0 Ht _. destruct (lockedSnoop_step pkt c0 tid H0 Ht) as (c' & ? & ? & _). by exists c'. }
  exists c2. split; [done|]. intros t Ht. eapply seen_kept; [by eapply seen_mono; [by apply Hs|]|].
  apply H2, elem_of_zrange. lia.
Qed.

Lemma threadSnoop_spec req pkt c : sn_hasPaddr pkt = true → snoop_ok c → (∀ t, notCloned pkt (view c t)) →
  ∃ c', threadSnoop req pkt c = Ok c' ∧ ∀ t, 0 ≤ t < pp_numThreads q →
    if t =? req then view c' t = view c t else seen pkt (view c t) (view c' t) (running (pipeline c')).
Proof.
  intros Hpa Hc Hn. unfold threadSnoop. rewrite (cpu_threads c Hc). match goal with |- context [mfold ?f c ?l] =>
    destruct (each f (λ t v v' r, if t =? req then v' = v else seen pkt v v' r) (notCloned pkt) l) with (c := c)
    as (c1 & -> & _ & H1 & _ & _) end; [..|apply zrange_NoDup|apply threads_all|done|by apply Forall_forall|].
  - intros t v v' r r'. destruct (t =? req); [done|apply seen_mono].
  - intros c0 tid H0 Ht Hn0. destruct (tid =? req); [by exists c0|].
    destruct (monitorThread_step pkt c0 tid Hpa H0 Ht Hn0) as (c1 & -> & [Hok Hs Ho Hr]). cbn [rbind].
    destruct (_ || _); [|by exists c1]. destruct (lockedSnoop_step pkt c1 tid Hok Ht) as (c2 & -> & [Hok2 Hs2 Ho2 Hr2] & Er).
    exists c2. split; [done|]. split; [done|rewrite Er; by eapply seen_kept| |by intros; rewrite Er; apply Hr].
    intros t Hne. by rewrite Ho2, Ho.
  - exists c1. split; [done|]. intros t Ht. apply H1, elem_of_zrange. lia.
Qed.

(** C26: A write seen by the CPU wakes up exactly the threads that wait for it.
    In every state a CPU reaches, a snoop that comes from the memory system and
    the snoop that a thread's own access makes among the other threads of the
    CPU both return, and for every thread concerned: if its address monitor is
    armed, waiting and set to the address of the packet, the monitor stops
    waiting and a suspended thread becomes active, the clock runs, and Fetch1
    fetches from the thread's pc; otherwise the monitor, the status of the
    thread and its part of Fetch1 do not change.  The thread that makes the
    access is not touched.  (No cloned thread is to be woken up, and the
    instruction set's handler leaves the status of the thread alone.) *)
Theorem snoop_wakes_monitors icache es p0 c pkt req :
  pl_params q → newPipeline q = Ok p0 → pl_run icache es p0 = Ok (pipeline c) →
  Z.of_nat (length (threads c)) = pp_numThreads q → Z.of_nat (length (addressMonitor c)) = pp_numThreads q →
  sn_hasPaddr pkt = true → (∀ t, notCloned pkt (view c t)) →
  (∃ c', recvTimingSnoopReq pkt c = Ok c'
    ∧ ∀ t, 0 ≤ t < pp_numThreads q → seen pkt (view c t) (view c' t) (running (pipeline c')))
  ∧ (∃ c', threadSnoop req pkt c = Ok c' ∧ ∀ t, 0 ≤ t < pp_numThreads q →
       if t =? req then view c' t = view c t else seen pkt (view c t) (view c' t) (running (pipeline c'))).
Proof.
  intros Hq H0 Hr Ht Hm Hpa Hn. assert (snoop_ok c) by (split; [split; [done|by eapply run_inv|done]|done]).
  split; [by apply recvTimingSnoopReq_spec|by apply threadSnoop_spec].
Qed.
End snoop.

(** a monitor that has been armed and waits answers the first address of its
    line, and no other address *)
Lemma mwait_answers_line_start `{I : Isa} {TS : ThreadSem I} {DC : Decoder I} line tid addr pkt w
  (c c1 c2 : MyMinorCPU) m :
  armMonitor tid addr c = Ok c1 → mwait line tid pkt c1 = Ok (c2, true) → vget (addressMonitor c2) tid = Ok m →
  hit w m = (Z.land (sn_addr pkt) (u64 (Z.lnot (u64 (line - 1)))) =? sn_addr w).
Proof.
  unfold armMonitor, mwait. intros (? & _ & E)%bind_Ok. apply bind_Ok in E as (m0 & _ & E).
  apply bind_Ok in E as (l & Hl & [= <-]). intros (? & _ & E)%bind_Ok. apply bind_Ok in E as (m1 & Hm1 & E). cbn in Hm1.
  rewrite (vget_vset_eq _ _ _ _ Hl) in Hm1. injection Hm1 as <-. destruct (negb _).
  - apply bind_Ok in E as (? & _ & E). apply bind_Ok in E as (l' & Hl' & [= <-]). cbn.
    rewrite (vget_vset_eq _ _ _ _ Hl'). by intros [= <-].
  - by apply bind_Ok in E as (l' & Hl' & [=]).
Qed.

(** the mask drops the upper half of an address: lines 4 GiB apart are one *)
Lemma cacheBlockMask_narrow a : Z.land (a + 2 ^ 32) (cacheBlockMask 64) = Z.land a (cacheBlockMask 64).
Proof.
  assert (∀ x, Z.land x (cacheBlockMask 64) = Z.land (u32 x) (cacheBlockMask 64)) as H.
  { intros x. unfold u32. rewrite <- (Z.land_ones x 32) by lia. rewrite <- Z.land_assoc. f_equal. }
  rewrite (H (a + 2 ^ 32)), (H a). f_equal. unfold u32. by rewrite <- (Z_mod_plus_full a 1 (2 ^ 32)).
Qed.

(** ** Load reserved and store conditional of RISC-V *)
Module Riscv.

Definition INVALID_RESERVATION_ADDR : Z := u64 (-1).

(** the global map of reservations by context id, and the failure counts *)
Record State := mkState {
  load_reservation_addrs : gmap Z Z;
  stCondFailures : gmap Z Z;
}.

(** [load_reservation_addrs[tc->contextId()]], which makes a new entry 0 *)
Definition reservation (cid : Z) (s : State) : Z := default 0 (load_reservation_addrs s !! cid).
Definition reserve (cid a : Z) (s : State) : State :=
  mkState (<[cid := a]> (load_reservation_addrs s)) (stCondFailures s).

(** [paddr & ~0xF] *)
Definition granule (paddr : Z) : Z := Z.land paddr (u64 (Z.lnot 15)).

(** [ISA::handleLockedSnoop(pkt, cacheBlockMask)] *)
Definition handleLockedSnoop (cid addr mask : Z) (s : State) : State :=
  let r := reservation cid s in
  let s := reserve cid r s in
  if r =? INVALID_RESERVATION_ADDR then s
  else if Z.land r mask =? Z.land addr mask then reserve cid INVALID_RESERVATION_ADDR s
  else s.

(** [ISA::handleLockedRead(req)] *)
Definition handleLockedRead (cid paddr : Z) (s : State) : State := reserve cid (granule paddr) s.

(** [ISA::handleLockedWrite(req, cacheBlockMask)]: whether the store is made,
    and the request's extra data *)
Definition handleLockedWrite (cid paddr : Z) (uncacheable : bool) (s : State) : State * bool * option Z :=
  let r := reservation cid s in
  let s := reserve cid r s in
  if (r =? INVALID_RESERVATION_ADDR) || negb (r =? granule paddr) then
    (mkState (load_reservation_addrs s) (<[cid := u32 (default 0 (stCondFailures s !! cid) + 1)]> (stCondFailures s)),
     false, Some 0)
  else (s, true, if uncacheable then Some 2 else None).

Inductive Event :=
| LoadReserved (cid paddr : Z)
| StoreConditional (cid paddr : Z) (uncacheable : bool)
| Snooped (cid addr : Z).

Definition step (mask : Z) (s : State) (ev : Event) : State :=
  match ev with
  | LoadReserved cid a => handleLockedRead cid a s
  | StoreConditional cid a u => (handleLockedWrite cid a u s).1.1
  | Snooped cid a => handleLockedSnoop cid a mask s
  end.
Definition run (mask : Z) (es : list Event) : State := foldl (step mask) (mkState ∅ ∅) es.

(** nothing takes the reservation [g] of a context away *)
Definition undisturbed (mask cid g : Z) (es : list Event) : Prop :=
  Forall (λ ev, match ev with
    | LoadReserved c _ => c ≠ cid
    | StoreConditional _ _ _ => True
    | Snooped c a => c ≠ cid ∨ Z.land g mask ≠ Z.land a mask
    end) es.

(** context [cid] holds a reservation for [g] *)
Definition holds (mask cid g : Z) (es : list Event) : Prop :=
  (∃ es1 a es2, es = es1 ++ LoadReserved cid a :: es2 ∧ granule a = g ∧ undisturbed mask cid g es2)
  ∨ g = 0 ∧ undisturbed mask cid 0 es.

Lemma granule_valid a : granule a ≠ INVALID_RESERVATION_ADDR.
Proof.
  intros H. apply (f_equal (λ x, Z.testbit x 0)) in H. unfold granule in H. rewrite Z.land_spec in H.
  change (Z.testbit (u64 (Z.lnot 15)) 0) with false in H. by rewrite andb_false_r in H.
Qed.

Lemma reservation_reserve cid c a s :
  reservation cid (reserve c a s) = if bool_decide (c = cid) then a else reservation cid s.
Proof.
  unfold reservation. cbn. case_bool_decide; [subst; by rewrite lookup_insert_eq|by rewrite lookup_insert_ne].
Qed.

Lemma step_reservation mask cid s ev : reservation cid (step mask s ev)
  = match ev with
    | LoadReserved c a => if bool_decide (c = cid) then granule a else reservation cid s
    | StoreConditional _ _ _ => reservation cid s
    | Snooped c a =>
        if bool_decide (c = cid) && negb (reservation cid s =? INVALID_RESERVATION_ADDR)
           && (Z.land (reservation cid s) mask =? Z.land a mask)
        then INVALID_RESERVATION_ADDR else reservation cid s
    end.
Proof.
  destruct ev as [c a|c a u|c a]; cbn [step].
  - apply reservation_reserve.
  - unfold handleLockedWrite. assert (reservation cid (reserve c (reservation c s) s) = reservation cid s) as H.
    { rewrite reservation_reserve. by case_bool_decide; subst. }
    by destruct (_ || _).
  - unfold handleLockedSnoop. destruct (Z.eqb_spec (reservation c s) INVALID_RESERVATION_ADDR) as [E|E];
      [|destruct (Z.eqb_spec (Z.land (reservation c s) mask) (Z.land a mask)) as [E'|E']];
      rewrite !reservation_reserve; case_bool_decide; subst; try done; cbn [andb].
    + by rewrite E, Z.eqb_refl.
    + by rewrite (proj2 (Z.eqb_neq _ _) E), (proj2 (Z.eqb_eq _ _) E').
    + by rewrite (proj2 (Z.eqb_neq _ _) E'), andb_false_r.
Qed.

Lemma holds_snoc mask cid g es ev : (∀ a, ev ≠ LoadReserved cid a) →
  holds mask cid g (es ++ [ev]) ↔ holds mask cid g es ∧ undisturbed mask cid g [ev].
Proof.
  intros Hev. unfold holds, undisturbed. split.
  - intros [(es1 & a & es2 & E & Hg & Hu)|(-> & Hu)].
    + destruct es2 as [|ev' es2 _] using rev_ind.
      * apply app_inj_tail in E as [_ E]. by destruct (Hev a).
      * rewrite app_comm_cons, app_assoc in E. apply app_inj_tail in E as [-> ->]. apply Forall_app in Hu as [Hu Hl].
        split; [|done]. left. by exists es1, a, es2.
    + apply Forall_app in Hu as [Hu Hl]. split; [by right|done].
  - intros [[(es1 & a & es2 & -> & Hg & Hu)|(-> & Hu)] Hl].
    + left. exists es1, a, (es2 ++ [ev]). split; [by rewrite <- app_assoc|]. split; [done|by apply Forall_app].
    + right. split; [done|by apply Forall_app].
Qed.

Lemma holds_reserved mask cid g es a : holds mask cid g (es ++ [LoadReserved cid a]) ↔ granule a = g.
Proof.
  unfold holds, undisturbed. split; [|intros H; left; by exists es, a, []].
  intros [(es1 & a' & es2 & E & Hg & Hu)|(_ & [_ [Hl _]%Forall_cons]%Forall_app)]; [|done].
  destruct es2 as [|ev' es2 _] using rev_ind; [by apply app_inj_tail in E as [_ [= ->]]|].
  rewrite app_comm_cons, app_assoc in E. apply app_inj_tail in E as [_ <-].
  by apply Forall_app in Hu as [_ [Hl _]%Forall_cons].
Qed.

Lemma run_reservation mask cid g es : g ≠ INVALID_RESERVATION_ADDR →
  reservation cid (run mask es) = g ↔ holds mask cid g es.
Proof.
  intros Hg. unfold run. induction es as [|ev es IH] using rev_ind.
  { cbn. unfold reservation. cbn. rewrite lookup_empty. cbn. unfold holds. split; [intros <-; right; split; [done|by constructor]|].
    intros [(es1 & a & es2 & E & _)|[-> _]]; [by destruct es1|done]. }
  rewrite foldl_snoc, step_reservation. set (r := reservation cid (foldl _ _ es)) in *. destruct ev as [c a|c a u|c a].
  - case_bool_decide as Hc; [subst c; by rewrite holds_reserved|]. rewrite holds_snoc by congruence. rewrite IH.
    unfold undisturbed. rewrite Forall_singleton. tauto.
  - rewrite holds_snoc by done. rewrite IH. unfold undisturbed. rewrite Forall_singleton. tauto.
  - rewrite holds_snoc by done. rewrite <- IH. unfold undisturbed. rewrite Forall_singleton.
    case_bool_decide as Hc; cbn [andb]; [|naive_solver]. subst c. destruct (Z.eqb_spec r INVALID_RESERVATION_ADDR); cbn [negb andb].
    { split; [congruence|]. by intros [-> _]. }
    destruct (Z.eqb_spec (Z.land r mask) (Z.land a mask)) as [E|E]; [|naive_solver].
    split; [congruence|]. intros [<- [?|?]]; done.
Qed.

(** C39: A RISC-V store conditional is made exactly when its context holds the
    reservation.  After any history of load reserved, store conditional and
    snooped accesses, the store conditional of a context succeeds if and only
    if the latest load reserved of that context was to the same 16 bytes and
    no access snooped on behalf of that context since then has hit their
    cache block (or, before any load reserved of the context, if it is to the
    first 16 bytes of memory and they have not been snooped); a failure is
    counted and reported as extra data 0. *)
Theorem store_conditional_exact mask es cid a u :
  let '(s', made, extra) := handleLockedWrite cid a u (run mask es) in
  (made = true ↔ holds mask cid (granule a) es)
  ∧ extra = (if made then (if u then Some 2 else None) else Some 0)
  ∧ stCondFailures s' !! cid
    = if made then stCondFailures (run mask es) !! cid
      else Some (u32 (default 0 (stCondFailures (run mask es) !! cid) + 1)).
Proof.
  pose proof (granule_valid a) as Hg. pose proof (run_reservation mask cid (granule a) es Hg) as HR.
  unfold handleLockedWrite. set (r := reservation cid (run mask es)) in *.
  destruct (Z.eqb_spec r INVALID_RESERVATION_ADDR) as [->|Hr]; cbn [orb].
  { rewrite <- HR. split_and!; [|done|cbn; apply lookup_insert_eq]. split; [done|congruence]. }
  destruct (Z.eqb_spec r (granule a)) as [E|Hn]; cbn [negb]; rewrite <- HR; [by rewrite E|].
  split_and!; [done|done|cbn; apply lookup_insert_eq].
Qed.
End Riscv.

(** ** A thread that waits *)
Module ToySnoop.

#[local] Existing Instance Toy.isa.
#[local] Existing Instance ToyExec.sem.
#[local] Existing Instance ToyDec.dec.

(** no reservations *)
Definition locked (pkt : SnoopPacket) (mask : Z) (tc : TC ToyExec.sem) : TC ToyExec.sem := tc.

Definition monitor : AddressMonitor := mkMonitor true 4096 64 true false.
Definition cpu (p : Pipeline) : MyMinorCPU := mkCPU p None false Pwr_CLK_GATED true true true [monitor].
Definition write : SnoopPacket := mkSnoopPacket true 64 false true.

Lemma locked_ok : lockedOk locked.
Proof. by split. Qed.
End ToySnoop.

(** the thread sleeps at address 64 until the line is written *)
Lemma snoop_wakes_monitors_witness :
  ∃ p0 p c' m' tc' i', newPipeline ToyPipe.params = Ok p0
    ∧ pl_run ToyPipe.icache [PlContext 0 ToyCpu.suspended] p0 = Ok p
    ∧ recvTimingSnoopReq 64 ToySnoop.locked ToySnoop.write (ToySnoop.cpu p) = Ok c'
    ∧ view c' 0 = (Ok m', Ok tc', Ok i') ∧ mo_waiting m' = false ∧ tc_status tc' = Active
    ∧ running (pipeline c') = true ∧ f1_pc i' = Some (64, 0).
Proof.
  assert ((p0 ← newPipeline ToyPipe.params; p ← pl_run ToyPipe.icache [PlContext 0 ToyCpu.suspended] p0;
    i ← vget (f1_fetchInfo (fetch1 p)) 0;
    Ok (threads (ToySnoop.cpu p))) = Ok [ToyCpu.suspended]) as H by (vm_compute; reflexivity).
  apply bind_Ok in H as (p0 & E0 & H). apply bind_Ok in H as (p & E & H). apply bind_Ok in H as (i & Ei & H). injection H as H.
  destruct (snoop_wakes_monitors 64 ToySnoop.locked ToyCpu.status_ok ToySnoop.locked_ok ToyPipe.params
    ToyPipe.icache [PlContext 0 ToyCpu.suspended] p0 (ToySnoop.cpu p) ToySnoop.write 0 ToyPipe.pipe_fine E0 E)
    as [(c' & Er & Hs) _].
  - by rewrite H.
  - done.
  - done.
  - intros t m tc i0 [= _ Ht _] _ _. rewrite H in Ht. apply vget_Ok in Ht as [_ Ht]. destruct (Z.to_nat t); [by injection Ht as <-|done].
  - destruct (Hs 0) with (m := ToySnoop.monitor) (tc := ToyCpu.suspended) (i := i) as (m' & tc' & i' & Hv & Hm & Ha & Hr & _ & Hpc).
    + vm_compute. split; congruence.
    + unfold view. by rewrite H, (Ei : vget (f1_fetchInfo (fetch1 (pipeline (ToySnoop.cpu p)))) 0 = Ok i).
    + exists p0, p, c', m', tc', i'. do 4 (split; [done|]). split; [by rewrite Hm|]. exact (conj Ha (conj Hr Hpc)).
Defined.
